(* ===== verification/_CoqProject ===== *)
-Q . S2P
Prelude.v
NetAddr.v
AddrOrder.v
Errors.v
Crypto.v
Random.v
Replay.v
Constants.v
FrameCodec.v
AsyncIo.v
StreamState.v
TlsStream.v
CryptoStream.v
FrameStream.v
BufferPool.v
RpcCodec.v
ProxyProtocol.v
DnsOverrides.v
Socks.v
Stun.v
NetProbe.v
MeNat.v
Stats.v
IpTracker.v
UserLimits.v
Wire.v
Obfuscation.v
DirectRelay.v
TlsHello.v
TlsFront.v
TlsFetch.v
MeHandshake.v
Registry.v
MeReader.v
MiddleRelay.v
RelaySession.v
MePool.v
MeSend.v
MeRefill.v
MeHealth.v
MeReinit.v
MeInit.v
ConfigTypes.v
Upstream.v
ConfigLoad.v
ConfigUpdater.v
HotReload.v
TlsHandshake.v
Beobachten.v
Masking.v
ClientFlow.v
