(* ===== verification/Prelude.v ===== *)
(** * Telemt: a verification development of the MTProto proxy

    Telemt (Rust, [src/src]) relays Telegram clients to Telegram.  A client connects with an
    obfuscated handshake, often inside a connection that looks like TLS; its bytes are decrypted,
    cut into frames, and sent either straight to a data centre or, through long-lived
    connections, to Telegram's middle proxies, whose answers are routed back to the client.

    ** The parts and the files that model them

    Foundations
    - [Prelude]: bytes, machine integers, slices, results and errors, outcomes that may panic, and the
      tactics, hints and lemmas the other files share.
    - [NetAddr]: [std::net] as the sources use it: addresses, their printing and parsing; [AddrOrder]: their order, and
      lists that are sorted and freed of repetitions.
    - [Errors] ([error.rs]).
    - [Crypto] ([crypto/aes.rs]): the CTR wrapper and the CBC chaining, over classes that stand
      for the cipher and digest crates ([StreamCipher], [BlockCipher], [Digests], with the laws
      their documentation states).
    - [Random] ([crypto/random.rs]): the buffered generator; [Rng]/[RngOk] is the interface
      the encoders draw from, and [SecureRandom] is shown to implement it.
    - [Constants] ([protocol/constants.rs], [protocol/frame.rs]).
    - [AsyncIo]: what the sources use of [tokio::io]: polls, scripted upstreams that deliver and
      accept bytes in any pieces, fail, end, or stay silent for ever, [AsyncRead]/[AsyncWrite] as classes with their laws
      ([AsyncReadOk], [AsyncWriteOk]), [read_exact], and a small reader-and-error monad.

    The client's byte streams
    - [FrameCodec] ([stream/frame.rs], [stream/frame_codec.rs]): the three framings on buffers.
    - [StreamState] ([stream/state.rs]): states, transitions and buffers.
    - [TlsStream] ([stream/tls_stream.rs]): the fake TLS record layer as two state machines.
    - [CryptoStream] ([stream/crypto_stream.rs]): the encrypting reader and writer over any stream
      of the [AsyncIo] interface; the record layer is one.
    - [FrameStream] ([stream/frame_stream.rs], [stream/traits.rs]): frames on asynchronous streams.
    - [BufferPool] ([stream/buffer_pool.rs]): the pool of buffers, its accesses as steps of tasks that interleave.
    - [ProxyProtocol] ([transport/proxy_protocol.rs]): the header a load balancer puts in front.

    Admission
    - [Obfuscation] ([protocol/obfuscation.rs], [proxy/handshake.rs]): the client's handshake and
      the one towards Telegram.
    - [TlsHello] ([protocol/tls.rs]): ClientHello validation and parsing, the ServerHello.
    - [Replay], [Stats] ([stats/mod.rs], [stats/telemetry.rs]): the replay checker (64 shards, each an
      LRU cache and a queue by age), and the counters with their telemetry gates.
    - [TlsFront] ([tls_front/types.rs], [tls_front/emulator.rs], [tls_front/cache.rs]): the answer that imitates a real
      server, the cache of what real servers sent, and who is given the full certificate payload.
    - [TlsFetch] ([tls_front/fetcher.rs]): how a real server is asked, by a hello of the proxy's own and through a TLS
      library, and what is learned from its answers.
    - [TlsHandshake] ([proxy/handshake.rs]): the handler of a ClientHello, over [Replay], [TlsHello] and [TlsFront].
    - [Beobachten] ([stats/beobachten.rs]) and [Masking] ([proxy/masking.rs]): the forensic buckets, and what happens to a
      connection that is not a client's.
    - [ClientFlow] ([proxy/client.rs]): a connection from its first byte to a relay, a masking or its end, inside the
      handshake timeout; it composes all of the above.
    - [IpTracker] ([ip_tracker.rs]) and [UserLimits] ([proxy/client.rs], the limit checks): addresses,
      connections and quotas per user, with sessions as interleaved actions.

    Middle proxies
    - [RpcCodec] ([transport/middle_proxy/codec.rs]) and [Wire] ([transport/middle_proxy/wire.rs]):
      the frames, handshake payloads and requests.
    - [MeHandshake] ([transport/middle_proxy/handshake.rs], [crypto/hash.rs]): key derivation and the
      handshake over one connection; [MeNat] ([pool_nat.rs]): which of our addresses it mixes in.
    - [MeReader] ([reader.rs]): the task that decrypts, frames and dispatches what a middle proxy sends.
    - [Registry] ([registry.rs]): client connections, writers and queues.
    - [MePool] ([pool.rs], [pool_writer.rs], [pool_config.rs]): the writers, how they come and go, and the
      settings; [MeSend] ([send.rs]): how a request finds its writer; [MeRefill] ([pool_refill.rs]): how a lost
      writer is replaced; [MeReinit] ([pool_reinit.rs]): how all of them are; [MeHealth] ([health.rs]): the task that
      keeps every data centre at its number of writers; [MeInit] ([pool_init.rs]): how the first ones are made.
    - [ConfigUpdater] ([config_updater.rs], [secret.rs], [rotation.rs]): the lists of middle proxies and the secret that
      Telegram serves, when they are believed, and the triggers of a reinitialisation.
    - [MiddleRelay], [RelaySession] ([proxy/middle_relay.rs]): client frames read and written, and a session
      as three tasks with a command queue and a response queue.

    Direct sessions
    - [DirectRelay] ([proxy/relay.rs], [proxy/direct_relay.rs], the data-centre tables of
      [protocol/constants.rs]): the choice of an address, the header towards the data centre, and the copying
      between client and data centre with its counters, statistics and watchdog.

    Ways out
    - [Socks] ([transport/socks.rs]): the SOCKS4 and SOCKS5 clients.
    - [Upstream] ([transport/upstream.rs], the sockets of [transport/socket.rs]): which upstream a connection takes, from
      which local address, how often it is tried, and how upstreams are found healthy or not.

    Configuration
    - [ConfigTypes] ([config/types.rs], [config/defaults.rs]): the sections, their defaults and derived values.
    - [ConfigLoad] ([config/load.rs]): includes, checks, migrations and completion of what serde parsed; validation.
    - [HotReload] ([config/hot_reload.rs]): what a change of the file publishes.

    Surroundings
    - [DnsOverrides], [Stun], [NetProbe] ([network/]): host overrides, the STUN client, the quorum of
      reflections and the decision which networks to use.

    A definition carries the name of the function it translates (a method with its type in front
    where names clash) and the comment over a section gives the lines.  Methods take and return the
    object ([this], [self]) explicitly; [Result] is [result], [Poll] is [Poll], a lock-protected
    object is the state of one atomic step.  Numbers are [Z] with the casts of the source
    ([u8], [u16], [u32], [i32], ...) written out.  What a function observes of its surroundings (clocks,
    answers of services, the end of a wait, the order of a hash map) comes in an environment record or
    argument, and the theorems hold for all of them.

    ** What the theorems show

    - The byte channel: whatever the transport does (pending, partial writes, errors) and however
      the streams are polled, the TLS writer never tears, loses or repeats a record, the encrypting
      writer never lets its key stream drift and bounds what it keeps, the readers deliver exactly
      the payload, errors are terminal, and the stack of both is a reliable channel.
    - Framing: encode and decode are inverse, decoding does not depend on fragmentation and
      respects the size limit; the stream readers and writers agree with the codec (and where they
      do not); the full framing checks sequence number and checksum exactly; the relay reads what a
      client's encoder writes and writes what its decoder reads.
    - Handshakes: a client with a secret is recognised, by the obfuscated header and by the TLS
      digest, nobody else is, replays are refused and only replays are; the header to Telegram
      opens at the data centre with matching ciphers; the ServerHello is well formed and verifies;
      the ClientHello parser is total and finds what was written, the PROXY parser accepts exactly the headers, and
      consumes exactly one; with an honest middle
      proxy the RPC handshake ends with the same keys and checksum on both sides.
    - Connections: whatever a client sends, and also if it falls silent, the handling ends without a panic, or waits: for
      the server it is masked by, or, on a stream accepted from elsewhere, for a PROXY header outside the timeout.  Only a
      client with a secret reaches a relay, within its limits, and it does; nobody else is sent a byte by the proxy
      itself, and the server it imitates is given every byte from the first one on, when masking is on and it can be
      reached, and what it answers is passed back.  What is imitated is what a probe of
      that server read in its answer: version, suite, compression and the sizes of the records.
    - Limits: a client passes exactly when every limit allows it; the tracker never exceeds its limit and
      the connection count is the number of relaying sessions, in any interleaving, while per-user telemetry is on; the
      limit on connections is kept when clients are checked one at a time, and examples show how interleavings, and
      telemetry switched off, evade it.
    - Middle proxies: CBC in pieces equals CBC at once, the payloads of a link are handled in order
      and once each, the registry's maps stay consistent, responses reach the queue of the connection
      they name.  In every interleaving the pool's connection count is the number of its writers, up to those being
      entered and those a reader task dropped behind a removal's back, and ids and bindings are consistent; a request is
      sent exactly once or not at all, and finds a live writer when there is one and no other task interferes; removing a writer closes exactly its
      clients; refills exclude each other and leave no mark behind; stale writers are drained only when every data
      centre is covered.  The pool reports ready only when the data centres it started with have a live writer each,
      and gets ready whenever connections succeed, while no writer is lost or made by others.
    - Sessions: the requests handed to the pool are the client's frames, in order, once each, and what the
      client gets are the responses, in order, for any schedule of the three tasks.
    - Direct sessions: over any network and any polling the data centre opens the header and decrypts a prefix of what
      the client sent, the client gets a prefix of what the data centre sent, every byte is counted once, and
      the watchdog ends idle relays and no others.
      The health check loses no live writer, drains none with clients, and restores a data centre's number of writers
      when connections succeed, or the reduced number of one that has long been idle; its limit on concurrent
      reconnections never takes effect.  What Telegram serves takes effect, as it was served, exactly when it is valid, new
      and was seen as often in a row as configured.
    - Ways out: a connection takes one upstream in scope, a healthy one if there is one, and leaves exactly one record;
      an upstream is healthy exactly while its failures in a row are below the threshold; a SOCKS5 session offers exactly
      the methods it can use, sends exactly what the protocol asks for and gives credentials to nobody who did not ask.
    - Configuration: whatever the file says, what [load] gives satisfies the invariant the rest of the program
      relies on, loading what was loaded changes nothing, and reloading publishes what was loaded, when anything that can
      change at run time has changed, and nothing else.
    - Randomness: the generator hands out one stream, whatever the sizes of the requests.

    ** Bounds and fuel

    Loops that are not structural run on fuel and return [None] (or [OutOfFuel]) without it; every
    theorem about them proves that they return.  The pollers use the size of the upstream script
    plus a constant, since every turn consumes an event or bytes; [rl_frames] and [hs_frames] the length of the
    decrypted buffer, since every turn consumes at least 4 bytes; the TLS and STUN parsers the length of the
    input; [v1_fuel] is 252, since a line is refused beyond 256 bytes; [hs_response] and [read_client_payload]
    take the number of turns (reads before the deadline, empty frames skipped) as an argument; the draws
    of [generate_tg_nonce] too, and the theorem asks for one acceptable draw within it.  [send_loop] may turn
    any number of times while other tasks empty the pool; with a live writer one turn is shown to be enough.

    A scripted peer that runs out of events has closed its side; one whose script has [RdSilent] never sends again, and an
    awaited read of it never returns ([None], or a value that says so), which the theorems on connections, SOCKS sessions
    and PROXY headers state.  For awaited writes the scripts presume a peer that reads again, fails or closes.

    ** Not modelled

    Logging, the metrics endpoint and the command line, the TOML parser and the deserialisation that [derive] generates,
    socket options, the connection pool of [transport/pool.rs] (nothing depends on it), the
    set-up of the TLS library in [tls_front/fetcher.rs], the start-up of the program, and the accept loop.
    Of the modelled files: [write_all_tls], [PassthroughStream], the ping tasks, and the floating-point round-trip
    statistics of the reader task.  Third-party crates appear only as classes and parameters. *)

From Stdlib Require Import ZArith Lia.
From stdpp Require Export base tactics list numbers option strings gmap.

#[export] Set Default Goal Selector "!".
Open Scope Z_scope.

(** ** Bytes, lengths and slices

    A Rust [u8] is a [Z] in [0, 256); a [Vec<u8>], [Bytes], [BytesMut] or [&[u8]]
    is a list of them.  Lengths ([usize]) are [Z], so that limits of many megabytes
    are cheap to compute with. *)

Abbreviation byte := Z (only parsing).
Abbreviation bytes := (list Z) (only parsing).

Definition is_byte (b : Z) : Prop := 0 <= b < 256.
Definition bytes_ok (l : bytes) : Prop := Forall is_byte l.

(** [l.len()] *)
Definition zlen {A} (l : list A) : Z := Z.of_nat (length l).
(** [&l[..n]] and [&l[n..]] for [n] in range. *)
Definition ztake {A} (n : Z) (l : list A) : list A := take (Z.to_nat n) l.
Definition zdrop {A} (n : Z) (l : list A) : list A := drop (Z.to_nat n) l.
(** [&l[a..b]] for [a <= b <= l.len()]. *)
Definition slice {A} (l : list A) (a b : Z) : list A := ztake (b - a) (zdrop a l).
(** [l.get(i)] *)
Definition zget {A} (l : list A) (i : Z) : option A :=
  if decide (0 <= i) then l !! Z.to_nat i else None.
(** [l[a..a + src.len()].copy_from_slice(src)] for a range inside [l]. *)
Definition splice {A} (l : list A) (a : Z) (src : list A) : list A :=
  ztake a l ++ src ++ zdrop (a + zlen src) l.
(** [vec![x; n]] *)
Definition zrepeat {A} (n : Z) (x : A) : list A := replicate (Z.to_nat n) x.

#[global] Instance is_byte_dec b : Decision (is_byte b).
Proof. unfold is_byte. apply _. Defined.
#[global] Instance bytes_ok_dec l : Decision (bytes_ok l).
Proof. unfold bytes_ok. apply _. Defined.

(** ** Machine integers: the value kept by an [as] cast *)

Definition u8 (z : Z) : Z := z mod 2 ^ 8.
Definition u16 (z : Z) : Z := z mod 2 ^ 16.
Definition u32 (z : Z) : Z := z mod 2 ^ 32.
Definition u64 (z : Z) : Z := z mod 2 ^ 64.
Definition i16 (z : Z) : Z := (z + 2 ^ 15) mod 2 ^ 16 - 2 ^ 15.
Definition i32 (z : Z) : Z := (z + 2 ^ 31) mod 2 ^ 32 - 2 ^ 31.
Definition i64 (z : Z) : Z := (z + 2 ^ 63) mod 2 ^ 64 - 2 ^ 63.
Definition usize_max : Z := 2 ^ 64 - 1.
Definition in_u32 (z : Z) : Prop := 0 <= z < 2 ^ 32.
Definition in_u64 (z : Z) : Prop := 0 <= z < 2 ^ 64.
Definition in_i16 (z : Z) : Prop := - 2 ^ 15 <= z < 2 ^ 15.
Definition in_i32 (z : Z) : Prop := - 2 ^ 31 <= z < 2 ^ 31.
(** [a.saturating_sub(b)] on an unsigned type *)
Definition sat_sub (a b : Z) : Z := Z.max 0 (a - b).
(** [x.is_multiple_of(m)] *)
Definition is_multiple_of (x m : Z) : bool := if m =? 0 then x =? 0 else x mod m =? 0.

(** ** Integers as bytes: [to_le_bytes], [from_le_bytes] and the big-endian pair *)

Fixpoint le_bytes (n : nat) (z : Z) : bytes :=
  match n with
  | O => []
  | S n => z mod 256 :: le_bytes n (z / 256)
  end.

Fixpoint le_val (l : bytes) : Z :=
  match l with
  | [] => 0
  | b :: l => b + 256 * le_val l
  end.

Definition be_bytes (n : nat) (z : Z) : bytes := reverse (le_bytes n z).
Definition be_val (l : bytes) : Z := le_val (reverse l).

(** ** Results and errors *)

Inductive result (E A : Type) : Type :=
| Ok (a : A)
| Err (e : E).
Arguments Ok {E A} a.
Arguments Err {E A} e.

#[global] Instance result_ret {E} : MRet (result E) := fun A a => Ok a.
(** [Option::or] *)
Definition option_or {A} (a b : option A) : option A := match a with Some _ => a | None => b end.

#[global] Instance result_bind {E} : MBind (result E) :=
  fun A B f m => match m with Ok a => f a | Err e => Err e end.

Definition is_ok {E A} (r : result E A) : bool :=
  match r with Ok _ => true | Err _ => false end.

(** [std::io::ErrorKind], the kinds the code builds or tests. *)
Inductive ErrorKind :=
| InvalidData | InvalidInput | UnexpectedEof | WriteZero | WouldBlock
| Other | ConnectionReset | TimedOut | BrokenPipe
| Interrupted | ConnectionAborted | NotConnected | OutOfMemory
| NetworkUnreachable | HostUnreachable | Unsupported | NetworkDown.

#[global] Instance ErrorKind_eq_dec : EqDecision ErrorKind.
Proof. solve_decision. Defined.

(** [std::io::Error]: its kind, the format string of its message and the numbers
    interpolated into it. *)
Record IoError := mkIoError { err_kind : ErrorKind; err_msg : string; err_args : list Z }.

#[global] Instance IoError_eq_dec : EqDecision IoError.
Proof. solve_decision. Defined.

Abbreviation io_result := (result IoError).

(** [Option::ok_or] *)
Definition ok_or {E A} (o : option A) (e : E) : result E A :=
  match o with Some a => Ok a | None => Err e end.

(** [r.map_err(f)] *)
Definition map_err {E F A} (f : E -> F) (r : result E A) : result F A :=
  match r with Ok a => Ok a | Err e => Err (f e) end.

(** ** Automation *)

Create HintDb telemt.
Create Rewrite HintDb telemt_zlen.

(** Case analysis on every test the goal or a hypothesis is stuck on. *)
Ltac case_tests :=
  repeat match goal with
  | |- context [if ?b then _ else _] => let E := fresh "E" in destruct b eqn:E
  | H : context [if ?b then _ else _] |- _ => let E := fresh "E" in destruct b eqn:E
  end.


(** An equation between closed terms, or a comparison of closed integers, checked by evaluation. *)
Ltac vm_eq :=
  match goal with
  | |- _ = ?b => vm_cast_no_check (@eq_refl _ b)
  | |- _ < _ => vm_compute; reflexivity
  end.

(** ** Lemmas on lengths and slices *)

Lemma zlen_nonneg {A} (l : list A) : 0 <= zlen l.
Proof. unfold zlen. lia. Qed.

Lemma zlen_nil {A} : zlen (@nil A) = 0.
Proof. reflexivity. Qed.

Lemma zlen_cons {A} (x : A) l : zlen (x :: l) = 1 + zlen l.
Proof. unfold zlen. cbn [length]. lia. Qed.

Lemma zlen_app {A} (l k : list A) : zlen (l ++ k) = zlen l + zlen k.
Proof. unfold zlen. rewrite length_app. lia. Qed.

Lemma zlen_reverse {A} (l : list A) : zlen (reverse l) = zlen l.
Proof. unfold zlen. by rewrite length_reverse. Qed.

Lemma zlen_ztake {A} n (l : list A) : zlen (ztake n l) = Z.max 0 (Z.min n (zlen l)).
Proof. unfold zlen, ztake. rewrite length_take. lia. Qed.

Lemma zlen_zdrop {A} n (l : list A) : zlen (zdrop n l) = Z.max 0 (zlen l - Z.max 0 n).
Proof. unfold zlen, zdrop. rewrite length_drop. lia. Qed.

Lemma zlen_zrepeat {A} n (x : A) : zlen (zrepeat n x) = Z.max 0 n.
Proof. unfold zlen, zrepeat. rewrite length_replicate. lia. Qed.

Lemma zlen_slice {A} (l : list A) a b :
  0 <= a <= b -> b <= zlen l -> zlen (slice l a b) = b - a.
Proof. intros. unfold slice. rewrite zlen_ztake, zlen_zdrop. lia. Qed.

Lemma zlen_zero_nil {A} (l : list A) : zlen l = 0 -> l = [].
Proof. destruct l; [done|]. rewrite zlen_cons. pose proof (zlen_nonneg l). lia. Qed.

Lemma zlen_length {A} (l : list A) n : zlen l = Z.of_nat n <-> length l = n.
Proof. unfold zlen. lia. Qed.

Lemma ztake_all {A} n (l : list A) : zlen l <= n -> ztake n l = l.
Proof. unfold zlen, ztake. intros. apply take_ge. lia. Qed.

Lemma zdrop_all {A} n (l : list A) : zlen l <= n -> zdrop n l = [].
Proof. unfold zlen, zdrop. intros. apply drop_ge. lia. Qed.

Lemma ztake_0 {A} (l : list A) n : n <= 0 -> ztake n l = [].
Proof. unfold ztake. intros. by replace (Z.to_nat n) with O by lia. Qed.

Lemma zdrop_0 {A} (l : list A) n : n <= 0 -> zdrop n l = l.
Proof. unfold zdrop. intros. by replace (Z.to_nat n) with O by lia. Qed.

Lemma ztake_app {A} n (l k : list A) : n = zlen l -> ztake n (l ++ k) = l.
Proof. unfold ztake, zlen. intros ->. apply take_app_length'. lia. Qed.

Lemma zdrop_app {A} n (l k : list A) : n = zlen l -> zdrop n (l ++ k) = k.
Proof. unfold zdrop, zlen. intros ->. apply drop_app_length'. lia. Qed.

Lemma ztake_app_le {A} n (l k : list A) : n <= zlen l -> ztake n (l ++ k) = ztake n l.
Proof. unfold ztake, zlen. intros. apply take_app_le. lia. Qed.

Lemma ztake_app_ge {A} n (l k : list A) :
  zlen l <= n -> ztake n (l ++ k) = l ++ ztake (n - zlen l) k.
Proof.
  unfold ztake, zlen. intros. rewrite take_app_ge by lia. do 2 f_equal. lia.
Qed.

Lemma zdrop_app_le {A} n (l k : list A) : n <= zlen l -> zdrop n (l ++ k) = zdrop n l ++ k.
Proof. unfold zdrop, zlen. intros. apply drop_app_le. lia. Qed.

Lemma zdrop_app_ge {A} n (l k : list A) :
  zlen l <= n -> zdrop n (l ++ k) = zdrop (n - zlen l) k.
Proof. unfold zdrop, zlen. intros. rewrite drop_app_ge by lia. f_equal. lia. Qed.

Lemma ztake_zdrop {A} n (l : list A) : ztake n l ++ zdrop n l = l.
Proof. apply take_drop. Qed.

Lemma zdrop_zdrop {A} a b (l : list A) :
  0 <= a -> 0 <= b -> zdrop a (zdrop b l) = zdrop (a + b) l.
Proof. unfold zdrop. intros. rewrite drop_drop. f_equal. lia. Qed.

Lemma slice_app_r {A} (l k : list A) a b :
  0 <= a - zlen l -> slice (l ++ k) a b = slice k (a - zlen l) (b - zlen l).
Proof.
  intros. unfold slice. rewrite zdrop_app_ge by lia. f_equal. lia.
Qed.

Lemma slice_app_l {A} (l k : list A) a b :
  0 <= a <= b -> b <= zlen l -> slice (l ++ k) a b = slice l a b.
Proof.
  intros. unfold slice. rewrite zdrop_app_le by lia.
  apply ztake_app_le. rewrite zlen_zdrop. lia.
Qed.

Lemma slice_full {A} (l : list A) a b : a = 0 -> b = zlen l -> slice l a b = l.
Proof. intros -> ->. unfold slice. rewrite zdrop_0 by lia. apply ztake_all. lia. Qed.

Lemma slice_prefix {A} (l k : list A) b : b = zlen l -> slice (l ++ k) 0 b = l.
Proof.
  intros ->. pose proof (zlen_nonneg l).
  rewrite slice_app_l by lia. by apply slice_full.
Qed.

Lemma slice_mid {A} (a b c : list A) i j : i = zlen a -> j = i + zlen b -> slice (a ++ b ++ c) i j = b.
Proof.
  intros -> ->. unfold slice. rewrite zdrop_app by done. rewrite ztake_app; [done|lia].
Qed.

Lemma splice_mid {A} (a b c d : list A) i : i = zlen a -> zlen d = zlen b -> splice (a ++ b ++ c) i d = a ++ d ++ c.
Proof.
  intros -> E. pose proof (zlen_nonneg d). unfold splice. rewrite ztake_app by done. do 2 f_equal.
  rewrite zdrop_app_ge by lia. by apply zdrop_app; lia.
Qed.

Lemma splice_splice {A} (l s1 s2 : list A) a :
  zlen s1 = zlen s2 -> 0 <= a -> a + zlen s1 <= zlen l -> splice (splice l a s1) a s2 = splice l a s2.
Proof.
  intros E Ha Hl. pose proof (zlen_nonneg s1).
  assert (l = ztake a l ++ slice l a (a + zlen s1) ++ zdrop (a + zlen s1) l) as El.
  { unfold slice. rewrite <-(ztake_zdrop a l) at 1. f_equal. rewrite <-(ztake_zdrop (zlen s1) (zdrop a l)) at 1.
    rewrite zdrop_zdrop by lia. do 2 f_equal; lia. }
  assert (zlen (ztake a l) = a) as La by (rewrite zlen_ztake; lia).
  assert (zlen (slice l a (a + zlen s1)) = zlen s1) as Ls by (rewrite zlen_slice; lia).
  rewrite El, (splice_mid _ _ _ s1), (splice_mid _ _ _ s2), (splice_mid _ _ _ s2) by lia. done.
Qed.

Lemma zlen_splice {A} (l src : list A) a :
  0 <= a -> a + zlen src <= zlen l -> zlen (splice l a src) = zlen l.
Proof.
  intros. unfold splice. pose proof (zlen_nonneg src).
  rewrite !zlen_app, zlen_ztake, zlen_zdrop. lia.
Qed.

#[export] Hint Rewrite @zlen_nil @zlen_cons @zlen_app @zlen_reverse @zlen_ztake @zlen_zdrop
  @zlen_zrepeat : telemt_zlen.
#[export] Hint Resolve zlen_nonneg : telemt.

(** ** Lemmas on byte encodings *)

Lemma le_bytes_length n z : length (le_bytes n z) = n.
Proof. revert z. induction n; intros; cbn; auto. Qed.

Lemma zlen_le_bytes n z : zlen (le_bytes n z) = Z.of_nat n.
Proof. unfold zlen. by rewrite le_bytes_length. Qed.

Lemma zlen_be_bytes n z : zlen (be_bytes n z) = Z.of_nat n.
Proof. unfold be_bytes. rewrite zlen_reverse. apply zlen_le_bytes. Qed.

Lemma le_bytes_ok n z : bytes_ok (le_bytes n z).
Proof.
  revert z. induction n; intros; cbn; [constructor|].
  constructor; [apply Z.mod_pos_bound; lia | apply IHn].
Qed.

Lemma be_bytes_ok n z : bytes_ok (be_bytes n z).
Proof. unfold bytes_ok, be_bytes. rewrite Forall_reverse. apply le_bytes_ok. Qed.

Lemma le_val_le_bytes n z : le_val (le_bytes n z) = z mod 256 ^ Z.of_nat n.
Proof.
  revert z. induction n as [|n IH]; intros z.
  - cbn. by rewrite Z.mod_1_r.
  - cbn [le_bytes le_val]. rewrite IH, Nat2Z.inj_succ, Z.pow_succ_r by lia.
    symmetry. apply Z.rem_mul_r; [lia|]. apply Z.pow_pos_nonneg; lia.
Qed.

Lemma le_val_le_bytes_small n z :
  0 <= z < 256 ^ Z.of_nat n -> le_val (le_bytes n z) = z.
Proof. intros. rewrite le_val_le_bytes. by apply Z.mod_small. Qed.

Lemma le_val_bound l : bytes_ok l -> 0 <= le_val l < 256 ^ zlen l.
Proof.
  induction 1 as [|b l Hb Hl IH]; cbn [le_val]; [change (zlen (@nil Z)) with 0; lia|].
  rewrite zlen_cons, Z.pow_add_r by (pose proof (zlen_nonneg l); lia).
  unfold is_byte in Hb. lia.
Qed.

Lemma le_bytes_le_val l : bytes_ok l -> le_bytes (length l) (le_val l) = l.
Proof.
  induction 1 as [|b l Hb Hl IH]; cbn [le_val le_bytes length]; [done|].
  unfold is_byte in Hb. f_equal.
  - rewrite Z.mul_comm, Z.mod_add by lia. apply Z.mod_small. lia.
  - rewrite Z.mul_comm, Z.div_add by lia. rewrite Z.div_small by lia. apply IH.
Qed.

Lemma le_val_app l k : le_val (l ++ k) = le_val l + 256 ^ zlen l * le_val k.
Proof.
  induction l as [|b l IH]; cbn [app le_val]; [change (zlen (@nil Z)) with 0; lia|].
  rewrite IH, zlen_cons, Z.pow_add_r by (pose proof (zlen_nonneg l); lia). lia.
Qed.

Lemma be_val_be_bytes n z : be_val (be_bytes n z) = z mod 256 ^ Z.of_nat n.
Proof. unfold be_val, be_bytes. rewrite reverse_involutive. apply le_val_le_bytes. Qed.

Lemma be_val_be_bytes_small n z :
  0 <= z < 256 ^ Z.of_nat n -> be_val (be_bytes n z) = z.
Proof. intros. rewrite be_val_be_bytes. by apply Z.mod_small. Qed.

Lemma be_bytes_be_val l : bytes_ok l -> be_bytes (length l) (be_val l) = l.
Proof.
  intros. unfold be_val, be_bytes.
  rewrite <-(length_reverse l), le_bytes_le_val, reverse_involutive; [done|].
  unfold bytes_ok in *. by rewrite Forall_reverse.
Qed.

Lemma be_val_bound l : bytes_ok l -> 0 <= be_val l < 256 ^ zlen l.
Proof.
  intros. unfold be_val. rewrite <-(zlen_reverse l).
  apply le_val_bound. unfold bytes_ok in *. by rewrite Forall_reverse.
Qed.

#[export] Hint Rewrite zlen_le_bytes zlen_be_bytes : telemt_zlen.
#[export] Hint Resolve le_bytes_ok be_bytes_ok : telemt.

Ltac zlen_simpl := autorewrite with telemt_zlen in *.

Lemma bytes_ok_app l k : bytes_ok (l ++ k) <-> bytes_ok l /\ bytes_ok k.
Proof. apply Forall_app. Qed.

Lemma is_multiple_of_true x m : 0 < m -> is_multiple_of x m = true <-> x mod m = 0.
Proof. intros. unfold is_multiple_of. destruct (Z.eqb_spec m 0); [lia|]. apply Z.eqb_eq. Qed.

Lemma i32_in_range z : in_i32 (i32 z).
Proof. unfold in_i32, i32. pose proof (Z.mod_pos_bound (z + 2^31) (2^32) ltac:(lia)). lia. Qed.

Lemma i32_small z : in_i32 z -> i32 z = z.
Proof. unfold in_i32, i32. intros. rewrite Z.mod_small by lia. lia. Qed.

(** [i32::from_le_bytes(x.to_le_bytes())] *)
Lemma i32_le_bytes z : in_i32 z -> i32 (le_val (le_bytes 4 z)) = z.
Proof.
  intros H. rewrite le_val_le_bytes. change (256 ^ Z.of_nat 4) with (2 ^ 32).
  unfold i32. rewrite Zplus_mod_idemp_l. fold (i32 z). by apply i32_small.
Qed.

(** ** Flag bits *)

Lemma le_bytes_mod n z : le_bytes n (z mod 256 ^ Z.of_nat n) = le_bytes n z.
Proof.
  rewrite <-le_val_le_bytes. pose proof (le_bytes_le_val (le_bytes n z) (le_bytes_ok n z)) as E.
  by rewrite le_bytes_length in E.
Qed.

Lemma le_bytes_i32 z : le_bytes 4 (i32 z) = le_bytes 4 z.
Proof.
  rewrite <-(le_bytes_mod 4 (i32 z)), <-(le_bytes_mod 4 z). f_equal. unfold i32.
  change (256 ^ Z.of_nat 4) with (2 ^ 32). rewrite Zminus_mod_idemp_l. f_equal. lia.
Qed.

Lemma land_pow2_small x n : 0 <= n -> 0 <= x < 2 ^ n -> Z.land x (2 ^ n) = 0.
Proof.
  intros Hn Hx. apply Z.bits_inj'. intros i Hi.
  rewrite Z.land_spec, Z.bits_0, Z.pow2_bits_eqb by lia.
  destruct (Z.eqb_spec n i) as [<-|]; [|by rewrite andb_false_r].
  rewrite <-(Z.mod_small x (2 ^ n)), Z.mod_pow2_bits_high by lia. done.
Qed.

Lemma lor_pow2_add x n : 0 <= n -> 0 <= x < 2 ^ n -> Z.lor x (2 ^ n) = x + 2 ^ n.
Proof.
  intros Hn Hx. pose proof (Z.add_lor_land x (2 ^ n)).
  rewrite land_pow2_small in * by done. lia.
Qed.

(** ** Running Rust code that may panic or loop *)

Inductive outcome (A : Type) : Type :=
| Done (a : A)
| Panicked
| OutOfFuel.
Arguments Done {A} a.
Arguments Panicked {A}.
Arguments OutOfFuel {A}.

Definition obind {A B} (m : outcome A) (k : A -> outcome B) : outcome B :=
  match m with Done a => k a | Panicked => Panicked | OutOfFuel => OutOfFuel end.

Declare Scope outcome_scope.
Delimit Scope outcome_scope with outcome.
Local Open Scope outcome_scope.
Notation "'let!' x := m 'in' k" := (obind m (fun x => k))
  (at level 10, x name, m at level 100, k at level 200) : outcome_scope.

(** [l[i]] *)
Definition index {A} (l : list A) (i : Z) : outcome A :=
  match zget l i with Some x => Done x | None => Panicked end.
(** [&l[a..b]] *)
Definition index_range {A} (l : list A) (a b : Z) : outcome (list A) :=
  if (0 <=? a) && (a <=? b) && (b <=? zlen l) then Done (slice l a b) else Panicked.
(** [u16::from_be_bytes([l[i], l[i + 1]])] *)
Definition index_u16 (l : bytes) (i : Z) : outcome Z :=
  let! x := index l i in let! y := index l (i + 1) in Done (be_val [x; y]).

(** Indexing inside the bounds does not panic. *)
Lemma zget_in {A} (l : list A) i : 0 <= i < zlen l -> exists x, zget l i = Some x /\ x ∈ l.
Proof.
  intros Hi. unfold zget. rewrite decide_True by lia.
  destruct (lookup_lt_is_Some_2 l (Z.to_nat i)) as [x Hx]; [unfold zlen in Hi; lia|].
  exists x. split; [done|]. by eapply list_elem_of_lookup_2.
Qed.

Lemma index_byte (l : bytes) i : bytes_ok l -> 0 <= i < zlen l -> exists x, index l i = Done x /\ is_byte x.
Proof.
  intros Hok Hi. destruct (zget_in l i Hi) as (x & Hx & Hin). exists x. unfold index. rewrite Hx. split; [done|].
  unfold bytes_ok in Hok. rewrite Forall_forall in Hok. by apply Hok.
Qed.

Lemma index_u16_word (l : bytes) i :
  bytes_ok l -> 0 <= i -> i + 2 <= zlen l -> exists v, index_u16 l i = Done v /\ 0 <= v < 65536.
Proof.
  intros Hok Hi Hl. destruct (index_byte l i Hok) as (x & Ex & Hx); [lia|].
  destruct (index_byte l (i + 1) Hok) as (y & Ey & Hy); [lia|].
  exists (be_val [x; y]). unfold index_u16. rewrite Ex. cbn [obind]. rewrite Ey. split; [done|].
  apply (be_val_bound [x; y]). by apply Forall_cons_2; [|apply Forall_singleton].
Qed.

Lemma index_range_ok {A} (l : list A) a b : 0 <= a <= b -> b <= zlen l -> index_range l a b = Done (slice l a b).
Proof.
  intros. unfold index_range. destruct (Z.leb_spec 0 a), (Z.leb_spec a b), (Z.leb_spec b (zlen l)); try lia. done.
Qed.

Lemma zget_mid {A} (a : list A) x b i : i = zlen a -> zget (a ++ x :: b) i = Some x.
Proof.
  intros ->. unfold zget, zlen. rewrite decide_True by lia. rewrite Nat2Z.id. by apply list_lookup_middle.
Qed.

Lemma index_mid {A} (a : list A) x b i : i = zlen a -> index (a ++ x :: b) i = Done x.
Proof. intros. unfold index. by rewrite zget_mid. Qed.

Lemma index_u16_mid a v b i : i = zlen a -> 0 <= v < 65536 -> index_u16 (a ++ be_bytes 2 v ++ b) i = Done v.
Proof.
  intros Hi Hv. pose proof (be_val_be_bytes_small 2 v ltac:(lia)) as E. pose proof (zlen_be_bytes 2 v) as L.
  destruct (be_bytes 2 v) as [|x [|y [|]]]; try (unfold zlen in L; cbn in L; lia). unfold index_u16. cbn [app].
  rewrite index_mid by done. cbn [obind]. rewrite (cons_middle x a (y :: b)), app_assoc, index_mid; [cbn [obind]; by rewrite E|].
  rewrite zlen_app, zlen_cons, zlen_nil. lia.
Qed.
