(* ===== verification/NetAddr.v ===== *)
(** * Addresses and text: what the sources use of [std::net] and [str]

    Texts are their UTF-8 bytes.  The file follows the standard library: white space, [trim] and
    [split_whitespace], integer parsing, [Display] and [FromStr] of the addresses (the recursive
    descent parser of [core::net::parser]).  Parsers take the input and return the value with what
    is slots; backtracking is the caller keeping the input. *)

From S2P Require Import Prelude.

(** ** Addresses *)

(** Octets in network order: 4 of them, or 16. *)
Inductive IpAddr := V4 (octets : bytes) | V6 (octets : bytes).

(** The scope and flow labels of an IPv6 socket address are slots out: no source reads them. *)
Record SocketAddr := mkSocketAddr { sa_ip : IpAddr; sa_port : Z }.

#[global] Instance IpAddr_eq_dec : EqDecision IpAddr.
Proof. solve_decision. Defined.
#[global] Instance SocketAddr_eq_dec : EqDecision SocketAddr.
Proof. solve_decision. Defined.
#[global] Instance IpAddr_countable : Countable IpAddr.
Proof.
  refine (inj_countable' (fun a => match a with V4 o => inl o | V6 o => inr o end)
            (fun s => match s with inl o => V4 o | inr o => V6 o end) _).
  by intros [].
Defined.

#[global] Instance SocketAddr_countable : Countable SocketAddr.
Proof.
  refine (inj_countable' (fun a => (sa_ip a, sa_port a)) (fun p => mkSocketAddr p.1 p.2) _).
  by intros [].
Defined.

Definition ip_ok (a : IpAddr) : Prop :=
  match a with
  | V4 o => zlen o = 4 /\ bytes_ok o
  | V6 o => zlen o = 16 /\ bytes_ok o
  end.

Definition addr_ok (a : SocketAddr) : Prop :=
  match sa_ip a with
  | V4 o => zlen o = 4 /\ bytes_ok o
  | V6 o => zlen o = 16 /\ bytes_ok o
  end /\ 0 <= sa_port a < 2 ^ 16.

#[global] Instance ip_ok_dec a : Decision (ip_ok a).
Proof. unfold ip_ok. destruct a; apply _. Defined.
#[global] Instance addr_ok_dec a : Decision (addr_ok a).
Proof. unfold addr_ok. destruct (sa_ip a); apply _. Defined.

Lemma addr_ok_ip a : addr_ok a <-> ip_ok (sa_ip a) /\ 0 <= sa_port a < 2 ^ 16.
Proof. done. Qed.

Definition is_ipv4 (a : IpAddr) : bool := match a with V4 _ => true | V6 _ => false end.
Definition is_ipv6 (a : IpAddr) : bool := negb (is_ipv4 a).

(** [Ipv6Addr::to_ipv4_mapped]: the IPv4 address of [::ffff:a.b.c.d]. *)
Definition to_ipv4_mapped (o : bytes) : option bytes :=
  if bool_decide (ztake 12 o = zrepeat 10 0 ++ [0xff; 0xff]) then Some (zdrop 12 o) else None.

(** [Ipv6Addr::segments] and [Ipv6Addr::from([u16; 8])] *)
Fixpoint segments (o : bytes) : list Z :=
  match o with
  | a :: b :: o => (a * 256 + b) :: segments o
  | _ => []
  end.

Definition of_segments (gs : list Z) : bytes := gs ≫= (fun g => [g / 256; g mod 256]).

(** ** Text *)

(** The bytes of an ASCII literal. *)
Fixpoint str (s : string) : bytes :=
  match s with
  | EmptyString => []
  | String c s => Z.of_nat (Ascii.nat_of_ascii c) :: str s
  end.

(** [std::str::from_utf8(l).is_ok()]: well-formed UTF-8. *)
Definition in_range (b lo hi : Z) : bool := (lo <=? b) && (b <=? hi).
Definition cont (b : Z) : bool := in_range b 0x80 0xbf.

Fixpoint utf8_valid (l : bytes) : bool :=
  match l with
  | [] => true
  | b0 :: r0 =>
      if in_range b0 0 0x7f then utf8_valid r0
      else
        match r0 with
        | [] => false
        | b1 :: r1 =>
            if in_range b0 0xc2 0xdf then cont b1 && utf8_valid r1
            else
              match r1 with
              | [] => false
              | b2 :: r2 =>
                  let three :=
                    (in_range b0 0xe0 0xe0 && in_range b1 0xa0 0xbf) ||
                    (in_range b0 0xe1 0xec && cont b1) ||
                    (in_range b0 0xed 0xed && in_range b1 0x80 0x9f) ||
                    (in_range b0 0xee 0xef && cont b1) in
                  if three then cont b2 && utf8_valid r2
                  else
                    match r2 with
                    | [] => false
                    | b3 :: r3 =>
                        let four :=
                          (in_range b0 0xf0 0xf0 && in_range b1 0x90 0xbf) ||
                          (in_range b0 0xf1 0xf3 && cont b1) ||
                          (in_range b0 0xf4 0xf4 && in_range b1 0x80 0x8f) in
                        four && cont b2 && cont b3 && utf8_valid r3
                    end
              end
        end
  end.

(** [char::is_whitespace], as the length of the white-space character a text starts with:
    U+0009..U+000D, U+0020, U+0085, U+00A0, U+1680, U+2000..U+200A, U+2028, U+2029, U+202F, U+205F
    and U+3000.  The lead bytes of UTF-8 are no continuation bytes, so a text may be scanned byte by
    byte. *)
Definition ws_len (l : bytes) : nat :=
  match l with
  | a :: r =>
      if (a =? 0x20) || ((0x09 <=? a) && (a <=? 0x0d)) then 1%nat
      else
        match r with
        | b :: r =>
            if (a =? 0xc2) && ((b =? 0x85) || (b =? 0xa0)) then 2%nat
            else
              match r with
              | c :: _ =>
                  if ((a =? 0xe1) && (b =? 0x9a) && (c =? 0x80))
                     || ((a =? 0xe2) && (b =? 0x80)
                         && (((0x80 <=? c) && (c <=? 0x8a)) || (c =? 0xa8) || (c =? 0xa9) || (c =? 0xaf)))
                     || ((a =? 0xe2) && (b =? 0x81) && (c =? 0x9f))
                     || ((a =? 0xe3) && (b =? 0x80) && (c =? 0x80))
                  then 3%nat else O
              | [] => O
              end
        | [] => O
        end
  | [] => O
  end.

(** [s.split_whitespace()]; [skip] bytes of the current white-space character are still to pass. *)
Definition flush_word (cur : bytes) : list bytes := if decide (cur = []) then [] else [cur].

Fixpoint split_ws (skip : nat) (cur : bytes) (l : bytes) : list bytes :=
  match l with
  | [] => flush_word cur
  | b :: r =>
      match skip with
      | S skip => split_ws skip cur r
      | O =>
          match ws_len l with
          | O => split_ws O (cur ++ [b]) r
          | S skip => flush_word cur ++ split_ws skip [] r
          end
      end
  end.

Definition split_whitespace (l : bytes) : list bytes := split_ws O [] l.

(** [s.trim()] *)
Fixpoint trim_start_loop (skip : nat) (l : bytes) : bytes :=
  match l with
  | [] => []
  | b :: r =>
      match skip with
      | S skip => trim_start_loop skip r
      | O => match ws_len l with O => l | S skip => trim_start_loop skip r end
      end
  end.

Fixpoint trim_end_loop (skip : nat) (kept spaces : bytes) (l : bytes) : bytes :=
  match l with
  | [] => kept
  | b :: r =>
      match skip with
      | S skip => trim_end_loop skip kept (spaces ++ [b]) r
      | O =>
          match ws_len l with
          | O => trim_end_loop O (kept ++ spaces ++ [b]) [] r
          | S skip => trim_end_loop skip kept (spaces ++ [b]) r
          end
      end
  end.

Definition trim (l : bytes) : bytes := trim_end_loop O [] [] (trim_start_loop O l).

(** [s.find(c)] for an ASCII character, [s.to_ascii_lowercase()] *)
Fixpoint find_char (c : Z) (l : bytes) : option Z :=
  match l with
  | [] => None
  | b :: r => if b =? c then Some 0 else Z.succ <$> find_char c r
  end.

Definition to_ascii_lowercase (l : bytes) : bytes :=
  (fun b => if (65 <=? b) && (b <=? 90) then b + 32 else b) <$> l.

(** ** Numbers *)

(** [char::to_digit(radix)] *)
Definition to_digit (radix b : Z) : option Z :=
  let d :=
    if (48 <=? b) && (b <=? 57) then b - 48
    else if (97 <=? b) && (b <=? 122) then b - 87
    else if (65 <=? b) && (b <=? 90) then b - 55
    else radix in
  if d <? radix then Some d else None.

(** The digits a text starts with, and what follows them. *)
Fixpoint read_digits (radix : Z) (l : bytes) : list Z * bytes :=
  match l with
  | [] => ([], [])
  | b :: r =>
      match to_digit radix b with
      | Some d => let '(ds, rest) := read_digits radix r in (d :: ds, rest)
      | None => ([], l)
      end
  end.

Definition digits_value (radix : Z) (ds : list Z) : Z := foldl (fun acc d => acc * radix + d) 0 ds.

(** [Display] in base 10 and [LowerHex] without padding. *)
Definition digit_char (d : Z) : Z := if d <? 10 then 48 + d else 87 + d.

Fixpoint digits_of (fuel : nat) (radix z : Z) : list Z :=
  match fuel with
  | O => []
  | S fuel => if z <? radix then [z] else digits_of fuel radix (z / radix) ++ [z mod radix]
  end.

(** A machine integer has at most 64 digits in any base. *)
Definition fmt_num (radix z : Z) : bytes := digit_char <$> digits_of 64 radix z.
(** A signed number in decimal. *)
Definition fmt_int (z : Z) : bytes := if z <? 0 then 45 :: fmt_num 10 (- z) else fmt_num 10 z.

(** [s.parse::<u16>()] and the other unsigned types: an optional [+], then digits, then nothing. *)
Definition strip_plus (l : bytes) : bytes :=
  match l with b :: (c :: r) => if b =? 43 then c :: r else l | _ => l end.

Definition parse_unsigned (limit : Z) (l : bytes) : option Z :=
  match read_digits 10 (strip_plus l) with
  | (d :: ds, []) =>
      let v := digits_value 10 (d :: ds) in if v <? limit then Some v else None
  | _ => None
  end.
Definition parse_u16 : bytes -> option Z := parse_unsigned (2 ^ 16).

(** [s.parse::<i16>()] and the other signed types, with values from [- half] to [half - 1]: an optional sign, then digits. *)
Definition parse_signed (half : Z) (l : bytes) : option Z :=
  match l with
  | b :: r =>
      if b =? 45 then
        match r with
        | c :: _ => if c =? 43 then None else Z.opp <$> parse_unsigned (half + 1) r
        | [] => None
        end
      else parse_unsigned half l
  | [] => None
  end.

(** ** The address parser ([core::net::parser]) *)

Definition read_given_char (c : Z) (l : bytes) : option bytes :=
  match l with
  | b :: r => if b =? c then Some r else None
  | [] => None
  end.

(** [read_number(radix, Some(max_digits), allow_zero_prefix)] into a type with values below [limit]. *)
Definition read_number (radix limit max_digits : Z) (allow_zero_prefix : bool) (l : bytes) : option (Z * bytes) :=
  let has_leading_zero := match l with b :: _ => b =? 48 | [] => false end in
  let '(ds, rest) := read_digits radix l in
  if max_digits <? zlen ds then None
  else if zlen ds =? 0 then None
  else if negb allow_zero_prefix && has_leading_zero && (1 <? zlen ds) then None
  else let v := digits_value radix ds in if v <? limit then Some (v, rest) else None.

(** [read_separator(sep, index, inner)]: the separator is expected before every item but the first. *)
Definition read_separator {A} (sep : Z) (first : bool) (inner : bytes -> option (A * bytes)) (l : bytes)
  : option (A * bytes) :=
  if first then inner l
  else match read_given_char sep l with Some l => inner l | None => None end.

Definition read_octet (first : bool) : bytes -> option (Z * bytes) :=
  read_separator 46 first (read_number 10 256 3 false).

Definition read_ipv4_addr (l : bytes) : option (bytes * bytes) :=
  '(a, l) ← read_octet true l;
  '(b, l) ← read_octet false l;
  '(c, l) ← read_octet false l;
  '(d, l) ← read_octet false l;
  Some ([a; b; c; d], l).

(** [read_groups] into [slots] slots: the groups read, whether an IPv4 address ended them, the rest. *)
Fixpoint read_groups (first : bool) (slots : nat) (l : bytes) : list Z * bool * bytes :=
  match slots with
  | O => ([], false, l)
  | S slots =>
      let ipv4 := if (0 <? slots)%nat then read_separator 58 first read_ipv4_addr l else None in
      match ipv4 with
      | Some (octets, r) => (segments octets, true, r)
      | None =>
          match read_separator 58 first (read_number 16 (2 ^ 16) 4 true) l with
          | Some (g, r) => let '(gs, v4, r) := read_groups false slots r in (g :: gs, v4, r)
          | None => ([], false, l)
          end
      end
  end.

Definition read_ipv6_addr (l : bytes) : option (bytes * bytes) :=
  let '(head, head_ipv4, l) := read_groups true 8 l in
  if (length head =? 8)%nat then Some (of_segments head, l)
  else if head_ipv4 then None
  else
    l ← read_given_char 58 l;
    l ← read_given_char 58 l;
    let '(tail, _, l) := read_groups true (8 - (length head + 1)) l in
    Some (of_segments (head ++ replicate (8 - length head - length tail) 0 ++ tail), l).

(** [parse_with]: the whole text has to be consumed. *)
Definition parse_with {A} (inner : bytes -> option (A * bytes)) (l : bytes) : option A :=
  match inner l with
  | Some (a, []) => Some a
  | _ => None
  end.

Definition read_ip_addr (l : bytes) : option (IpAddr * bytes) :=
  match read_ipv4_addr l with
  | Some (o, r) => Some (V4 o, r)
  | None => match read_ipv6_addr l with Some (o, r) => Some (V6 o, r) | None => None end
  end.

Definition parse_ip : bytes -> option IpAddr := parse_with read_ip_addr.
Definition parse_ipv6 : bytes -> option bytes := parse_with read_ipv6_addr.
(** Longer texts than [255.255.255.255] are refused at once. *)
Definition parse_ipv4 (l : bytes) : option bytes := if 15 <? zlen l then None else parse_with read_ipv4_addr l.

(** [read_port]: a colon and a number with any number of digits. *)
Definition read_port (l : bytes) : option (Z * bytes) :=
  l ← read_given_char 58 l;
  match read_digits 10 l with
  | ([], _) => None
  | (ds, rest) => let v := digits_value 10 ds in if v <? 2 ^ 16 then Some (v, rest) else None
  end.

(** [read_scope_id]: a percent sign and a number. *)
Definition read_scope_id (l : bytes) : option (Z * bytes) :=
  l ← read_given_char 37 l;
  match read_digits 10 l with
  | ([], _) => None
  | (ds, rest) => let v := digits_value 10 ds in if v <? 2 ^ 32 then Some (v, rest) else None
  end.

Definition read_socket_addr (l : bytes) : option (SocketAddr * bytes) :=
  let v4 := '(ip, l) ← read_ipv4_addr l; '(port, l) ← read_port l; Some (mkSocketAddr (V4 ip) port, l) in
  match v4 with
  | Some r => Some r
  | None =>
      l ← read_given_char 91 l;
      '(ip, l) ← read_ipv6_addr l;
      let l := match read_scope_id l with Some (_, r) => r | None => l end in
      l ← read_given_char 93 l;
      '(port, l) ← read_port l;
      Some (mkSocketAddr (V6 ip) port, l)
  end.

Definition parse_socket_addr : bytes -> option SocketAddr := parse_with read_socket_addr.

(** ** [Display] of addresses *)

(** Items with a separator between them. *)
Fixpoint join (sep : Z) (items : list bytes) : bytes :=
  match items with
  | [] => []
  | [i] => i
  | i :: items => i ++ sep :: join sep items
  end.

Definition fmt_ipv4 (o : bytes) : bytes := join 46 (fmt_num 10 <$> o).

(** The longest run of zero groups: [(start, len)], the first one among the longest. *)
Fixpoint longest_zeroes (i : Z) (cur longest : Z * Z) (gs : list Z) : Z * Z :=
  match gs with
  | [] => longest
  | g :: gs =>
      if g =? 0 then
        let cur := (if snd cur =? 0 then i else fst cur, snd cur + 1) in
        longest_zeroes (i + 1) cur (if snd longest <? snd cur then cur else longest) gs
      else longest_zeroes (i + 1) (0, 0) longest gs
  end.

Definition fmt_subslice (gs : list Z) : bytes := join 58 (fmt_num 16 <$> gs).

Definition fmt_ipv6 (o : bytes) : bytes :=
  match to_ipv4_mapped o with
  | Some ipv4 => str "::ffff:" ++ fmt_ipv4 ipv4
  | None =>
      let gs := segments o in
      let '(start, len) := longest_zeroes 0 (0, 0) (0, 0) gs in
      if 1 <? len then fmt_subslice (ztake start gs) ++ [58; 58] ++ fmt_subslice (zdrop (start + len) gs)
      else fmt_subslice gs
  end.

Definition fmt_ip (a : IpAddr) : bytes := match a with V4 o => fmt_ipv4 o | V6 o => fmt_ipv6 o end.

(** [SocketAddr::to_string] *)
Definition fmt_socket_addr (a : SocketAddr) : bytes :=
  match sa_ip a with
  | V4 _ => fmt_ip (sa_ip a) ++ 58 :: fmt_num 10 (sa_port a)
  | V6 _ => 91 :: fmt_ip (sa_ip a) ++ 93 :: 58 :: fmt_num 10 (sa_port a)
  end.

(** [normalize_ip] (transport/socket.rs:176-187): an IPv4 client of a dual-stack socket has its IPv4 address. *)
Definition normalize_ip (addr : SocketAddr) : SocketAddr :=
  match sa_ip addr with
  | V6 o => match to_ipv4_mapped o with Some v4 => mkSocketAddr (V4 v4) (sa_port addr) | None => addr end
  | V4 _ => addr
  end.

Example parse_display_example :
  let a := V6 [0x20; 0x01; 0x0d; 0xb8; 0; 0; 0; 0; 0; 0; 0; 1; 0; 0; 0; 5] in
  fmt_ip a = str "2001:db8::1:0:5" /\ parse_ip (fmt_ip a) = Some a /\
  parse_ip (str "::ffff:192.0.2.1") = Some (V6 ([0;0;0;0;0;0;0;0;0;0;255;255;192;0;2;1])) /\
  parse_ip (str "1.2.3.04") = None /\ parse_ip (str "1::2::3") = None /\
  parse_socket_addr (str "[::1]:443") = Some (mkSocketAddr (V6 [0;0;0;0;0;0;0;0;0;0;0;0;0;0;0;1]) 443) /\
  split_whitespace (str " a  bc ") = [str "a"; str "bc"] /\ trim (str "  x y ") = str "x y".
Proof. split_and!; vm_compute; reflexivity. Qed.

(** ** Numbers read back *)

Definition good_radix (radix : Z) : Prop := radix = 10 \/ radix = 16.

Lemma to_digit_char radix d : good_radix radix -> 0 <= d < radix -> to_digit radix (digit_char d) = Some d.
Proof.
  intros Hr Hd. unfold to_digit, digit_char.
  destruct (Z.ltb_spec d 10).
  - replace ((48 <=? 48 + d) && (48 + d <=? 57)) with true by lia.
    replace (48 + d - 48) with d by lia. by destruct (Z.ltb_spec d radix); [|lia].
  - replace ((48 <=? 87 + d) && (87 + d <=? 57)) with false by lia.
    replace ((97 <=? 87 + d) && (87 + d <=? 122)) with true by (destruct Hr; lia).
    replace (87 + d - 87) with d by lia. by destruct (Z.ltb_spec d radix); [|lia].
Qed.

(** The text does not go on with a digit. *)
Definition stops (radix : Z) (l : bytes) : Prop :=
  match l with b :: _ => to_digit radix b = None | [] => True end.

Lemma read_digits_chars radix ds rest :
  good_radix radix -> Forall (fun d => 0 <= d < radix) ds -> stops radix rest ->
  read_digits radix ((digit_char <$> ds) ++ rest) = (ds, rest).
Proof.
  intros Hr Hds Hrest. induction Hds as [|d ds Hd Hds IH]; cbn [fmap list_fmap app read_digits].
  - destruct rest as [|b r]; [done|]. cbn in *. by rewrite Hrest.
  - rewrite to_digit_char by done. by rewrite IH.
Qed.

Lemma digits_value_snoc radix ds d : digits_value radix (ds ++ [d]) = digits_value radix ds * radix + d.
Proof. unfold digits_value. by rewrite foldl_app. Qed.

Lemma digits_of_spec fuel k radix z :
  1 < radix -> 0 <= z < radix ^ Z.of_nat k -> (0 < k <= fuel)%nat ->
  let ds := digits_of fuel radix z in
  Forall (fun d => 0 <= d < radix) ds /\ digits_value radix ds = z /\ (0 < length ds <= k)%nat /\
  (forall d, head ds = Some d -> d = 0 -> length ds = 1%nat).
Proof.
  intros Hr. revert k z. induction fuel as [|fuel IH]; intros k z Hz Hk; [lia|]. cbn [digits_of].
  destruct (Z.ltb_spec z radix) as [Hlt|Hge].
  { cbn. split_and!; [repeat constructor; lia|done|lia|lia|done]. }
  destruct k as [|[|k]]; [lia|rewrite Z.pow_1_r in Hz; lia|].
  rewrite Nat2Z.inj_succ, Z.pow_succ_r in Hz by lia.
  destruct (IH (S k) (z / radix)) as (HF & Hv & Hl & Hh); [|lia|].
  { split; [apply Z.div_pos; lia|apply Z.div_lt_upper_bound; lia]. }
  cbn zeta in *. pose proof (Z.mod_pos_bound z radix ltac:(lia)).
  rewrite digits_value_snoc, Hv, length_app. cbn [length]. split_and!; try lia.
  - apply Forall_app. split; [done|]. constructor; [done|constructor].
  - pose proof (Z.div_mod z radix ltac:(lia)). lia.
  - intros d Hd ->. exfalso. destruct (digits_of fuel radix (z / radix)) as [|d0 l] eqn:E; [cbn in Hl; lia|].
    cbn in Hd. injection Hd as ->. specialize (Hh 0 eq_refl eq_refl).
    destruct l; [|done]. cbn in Hv. pose proof (Z.div_le_lower_bound z radix 1). lia.
Qed.

(** A printed number, followed by something else, reads back. *)
Lemma read_number_fmt radix limit max_digits allow z rest :
  good_radix radix -> 0 <= z < limit -> 0 < max_digits <= 64 -> z < radix ^ max_digits -> stops radix rest ->
  read_number radix limit max_digits allow (fmt_num radix z ++ rest) = Some (z, rest).
Proof.
  intros Hr Hz Hm Hz' Hrest. unfold read_number, fmt_num.
  destruct (digits_of_spec 64 (Z.to_nat max_digits) radix z) as (HF & Hv & Hl & Hh);
    [destruct Hr; lia|rewrite Z2Nat.id; lia|lia|].
  rewrite read_digits_chars by done. cbn zeta in *. set (ds := digits_of 64 radix z) in *.
  assert (zlen ds = Z.of_nat (length ds)) as L by done.
  destruct (Z.ltb_spec max_digits (zlen ds)); [lia|]. destruct (Z.eqb_spec (zlen ds) 0); [lia|].
  destruct ds as [|d ds']; [cbn in Hl; lia|].
  match goal with |- (if ?c then _ else _) = _ => replace c with false end.
  { rewrite Hv. by destruct (Z.ltb_spec z limit); [|lia]. }
  symmetry. cbn [fmap list_fmap app]. unfold digit_char at 1.
  inversion HF as [|?? Hd]; subst.
  destruct (decide (d = 0)) as [->|Hd0].
  - specialize (Hh 0 eq_refl eq_refl). rewrite L, Hh. cbn. by rewrite andb_false_r.
  - destruct (Z.ltb_spec d 10).
    + destruct (Z.eqb_spec (48 + d) 48); [lia|]. by rewrite andb_false_r.
    + destruct (Z.eqb_spec (87 + d) 48); [lia|]. by rewrite andb_false_r.
Qed.

(** ** Addresses read back *)

Lemma parse_unsigned_fmt limit z : 0 <= z < limit -> limit <= 2 ^ 64 -> parse_unsigned limit (fmt_num 10 z) = Some z.
Proof.
  intros Hz Hlim. unfold parse_unsigned.
  destruct (digits_of_spec 64 20 10 z) as (HF & Hv & Hl & _); [lia|lia|lia|]. cbn zeta in *.
  pose proof (read_digits_chars 10 (digits_of 64 10 z) [] (or_introl eq_refl) HF I) as E.
  rewrite app_nil_r in E. unfold fmt_num. set (ds := digits_of 64 10 z) in *.
  destruct ds as [|d ds']; [cbn in Hl; lia|]. inversion HF as [|?? Hd]; subst.
  assert (digit_char d <> 43) as Hn by (unfold digit_char; destruct (Z.ltb_spec d 10); lia).
  assert (strip_plus (digit_char <$> d :: ds') = digit_char <$> d :: ds') as ->.
  { destruct ds'; [done|]. unfold strip_plus. cbn. by destruct (Z.eqb_spec (digit_char d) 43). }
  rewrite E. by destruct (Z.ltb_spec (digits_value 10 (d :: ds')) limit); [|lia].
Qed.

Lemma parse_u16_fmt z : 0 <= z < 2 ^ 16 -> parse_u16 (fmt_num 10 z) = Some z.
Proof. intros Hz. apply parse_unsigned_fmt; lia. Qed.

(** A number does not begin with a sign. *)
Lemma fmt_num_head z : 0 <= z < 2 ^ 64 -> exists b r, fmt_num 10 z = b :: r /\ 48 <= b <= 57.
Proof.
  intros Hz. destruct (digits_of_spec 64 20 10 z) as (HF & _ & Hl & _); [lia|lia|lia|]. cbn zeta in *. unfold fmt_num.
  destruct (digits_of 64 10 z) as [|d ds]; [cbn in Hl; lia|]. inversion HF as [|?? Hd]; subst.
  exists (digit_char d), (digit_char <$> ds). split; [done|]. unfold digit_char. destruct (Z.ltb_spec d 10); lia.
Qed.

Lemma parse_signed_fmt half z : - half <= z < half -> half <= 2 ^ 63 -> parse_signed half (fmt_int z) = Some z.
Proof.
  intros Hz Hh. unfold fmt_int. destruct (Z.ltb_spec z 0).
  - destruct (fmt_num_head (- z)) as (b & r & E & Hb); [lia|]. pose proof (parse_unsigned_fmt (half + 1) (- z)) as Hp.
    unfold parse_signed. rewrite E in *. destruct (Z.eqb_spec 45 45); [|done]. destruct (Z.eqb_spec b 43); [lia|].
    rewrite Hp by lia. cbn. f_equal. lia.
  - destruct (fmt_num_head z) as (b & r & E & Hb); [lia|]. pose proof (parse_unsigned_fmt half z) as Hp. unfold parse_signed. rewrite E in *.
    destruct (Z.eqb_spec b 45); [lia|]. apply Hp; lia.
Qed.

Lemma fmt_ipv4_eq a b c d :
  fmt_ipv4 [a; b; c; d] = fmt_num 10 a ++ 46 :: fmt_num 10 b ++ 46 :: fmt_num 10 c ++ 46 :: fmt_num 10 d.
Proof. done. Qed.

Lemma zlen_4 {A} (o : list A) : zlen o = 4 -> exists a b c d, o = [a; b; c; d].
Proof.
  intros H. do 4 (destruct o as [|? o]; [by zlen_simpl|rewrite zlen_cons in H]).
  assert (zlen o = 0) by lia. rewrite (zlen_zero_nil o) by done. eauto.
Qed.

Lemma read_ipv4_fmt o rest :
  zlen o = 4 -> bytes_ok o -> stops 10 rest ->
  read_ipv4_addr (fmt_ipv4 o ++ rest) = Some (o, rest).
Proof.
  intros Hl Hb Hrest. destruct (zlen_4 o Hl) as (a & b & c & d & ->).
  unfold bytes_ok in Hb. rewrite !List.Forall_cons_iff in Hb. unfold is_byte in Hb.
  rewrite fmt_ipv4_eq. unfold read_ipv4_addr, read_octet, read_separator, read_given_char.
  repeat (rewrite <-?app_assoc, <-?app_comm_cons).
  do 3 (rewrite read_number_fmt; [|by left|lia|lia|lia|done]; cbn [mbind option_bind Z.eqb Pos.eqb]).
  rewrite read_number_fmt; [done|by left|lia|lia|lia|done].
Qed.

Definition group_ok (g : Z) : Prop := 0 <= g < 2 ^ 16.

Lemma segments_spec n o :
  length o = (2 * n)%nat -> bytes_ok o ->
  of_segments (segments o) = o /\ Forall group_ok (segments o) /\ length (segments o) = n.
Proof.
  revert o. induction n as [|n IH]; intros o Hl Hb; [by destruct o|].
  destruct o as [|a [|b o]]; [done|cbn in Hl; lia|].
  unfold bytes_ok in Hb. rewrite !List.Forall_cons_iff in Hb. destruct Hb as (Ha & Hb & Ho).
  destruct (IH o) as (E1 & E2 & E3); [cbn in Hl; lia|done|]. unfold is_byte in *.
  cbn [segments length]. unfold of_segments in *. cbn [mbind list_bind]. rewrite E1, E3.
  rewrite Z.div_add_l, Z.div_small, Z.add_0_r, Z.add_comm, Z.mod_add, Z.mod_small by lia.
  split_and!; [done| |done]. constructor; [unfold group_ok; lia|done].
Qed.

(** A text whose leading decimal digits are not followed by a dot is no IPv4 address. *)
Lemma read_ipv4_no_dot l : head (snd (read_digits 10 l)) <> Some 46 -> read_ipv4_addr l = None.
Proof.
  intros H. unfold read_ipv4_addr. destruct (read_octet true l) as [[v rest]|] eqn:E; [|done].
  assert (rest = snd (read_digits 10 l)) as ->.
  { unfold read_octet, read_separator, read_number in E. destruct (read_digits 10 l) as [ds r].
    by repeat (case_match; simplify_eq). }
  cbn [mbind option_bind]. assert (read_octet false (snd (read_digits 10 l)) = None) as ->; [|done].
  unfold read_octet, read_separator, read_given_char.
  destruct (snd (read_digits 10 l)) as [|b r]; [done|]. cbn in H. by destruct (Z.eqb_spec b 46); [congruence|].
Qed.

Lemma no_dot_app cs rest :
  Forall (fun b => b <> 46) cs -> stops 10 rest -> head rest <> Some 46 ->
  head (snd (read_digits 10 (cs ++ rest))) <> Some 46.
Proof.
  intros Hcs Hs Hrest. induction Hcs as [|b cs Hb _ IH]; cbn [app read_digits].
  - destruct rest as [|b r]; [done|]. cbn in *. by rewrite Hs.
  - destruct (to_digit 10 b); [|cbn; congruence]. by destruct (read_digits 10 (cs ++ rest)).
Qed.

Lemma fmt_num_no_dot z : 0 <= z < 2 ^ 16 -> Forall (fun b => b <> 46) (fmt_num 16 z).
Proof.
  intros Hz. destruct (digits_of_spec 64 4 16 z) as (HF & _); [lia|lia|lia|]. cbn zeta in HF.
  unfold fmt_num. apply Forall_fmap. eapply Forall_impl; [exact HF|]. intros d Hd. cbn in Hd |- *. unfold digit_char.
  destruct (Z.ltb_spec d 10); lia.
Qed.

(** The groups after the first, each behind its colon. *)
Definition colon_groups (gs : list Z) : bytes := gs ≫= (fun g => 58 :: fmt_num 16 g).

Lemma fmt_subslice_cons g gs : fmt_subslice (g :: gs) = fmt_num 16 g ++ colon_groups gs.
Proof.
  revert g. induction gs as [|h gs IH]; intros g.
  - unfold colon_groups. cbn. by rewrite app_nil_r.
  - change (fmt_subslice (g :: h :: gs)) with (fmt_num 16 g ++ 58 :: fmt_subslice (h :: gs)).
    rewrite IH. done.
Qed.

(** What may follow a run of groups: nothing, or [::]. *)
Definition group_end (rest : bytes) : Prop := rest = [] \/ exists r, rest = 58 :: 58 :: r.

Lemma colon_groups_stops gs rest :
  group_end rest -> stops 10 (colon_groups gs ++ rest) /\ stops 16 (colon_groups gs ++ rest) /\
  head (colon_groups gs ++ rest) <> Some 46.
Proof. intros [->|[r ->]]; destruct gs; done. Qed.

Lemma read_group_fmt g gs rest :
  group_ok g -> group_end rest ->
  read_ipv4_addr (fmt_num 16 g ++ colon_groups gs ++ rest) = None /\
  read_number 16 (2 ^ 16) 4 true (fmt_num 16 g ++ colon_groups gs ++ rest) = Some (g, colon_groups gs ++ rest).
Proof.
  intros Hg Hr. destruct (colon_groups_stops gs rest Hr) as (H10 & H16 & Hd). split.
  - apply read_ipv4_no_dot, no_dot_app; [by apply fmt_num_no_dot|done|done].
  - apply read_number_fmt; [by right|done|lia|unfold group_ok in Hg; lia|done].
Qed.

Lemma read_colon_groups slots gs rest :
  Forall group_ok gs -> (length gs <= slots)%nat -> group_end rest ->
  read_groups false slots (colon_groups gs ++ rest) = (gs, false, rest).
Proof.
  intros Hgs. revert slots. induction Hgs as [|g gs Hg Hgs IH]; intros slots Hl Hr.
  - cbn [colon_groups mbind list_bind app]. destruct slots as [|slots]; [done|]. cbn [read_groups].
    destruct Hr as [->|[r ->]]; [by destruct (0 <? slots)%nat|]. unfold read_separator, read_given_char.
    cbn [Z.eqb Pos.eqb]. change (read_ipv4_addr (58 :: r)) with (@None (bytes * bytes)).
    by destruct (0 <? slots)%nat.
  - destruct slots as [|slots]; [cbn in Hl; lia|]. cbn [read_groups].
    change (colon_groups (g :: gs)) with (58 :: fmt_num 16 g ++ colon_groups gs). rewrite <-app_comm_cons, <-app_assoc.
    unfold read_separator, read_given_char. cbn [Z.eqb Pos.eqb].
    destruct (read_group_fmt g gs rest Hg Hr) as [-> ->]. rewrite IH; [|cbn in Hl; lia|done].
    by destruct (0 <? slots)%nat.
Qed.

Lemma read_groups_fmt slots gs rest :
  Forall group_ok gs -> (length gs <= slots)%nat -> group_end rest ->
  read_groups true slots (fmt_subslice gs ++ rest) = (gs, false, rest).
Proof.
  intros Hgs Hl Hr. destruct slots as [|slots]; [by destruct gs; [|cbn in Hl; lia]|]. cbn [read_groups].
  destruct gs as [|g gs].
  - cbn [fmt_subslice fmap list_fmap join app]. destruct Hr as [->|[r ->]]; by destruct (0 <? slots)%nat.
  - rewrite fmt_subslice_cons, <-app_assoc. unfold read_separator at 1 2. inversion Hgs; subst.
    destruct (read_group_fmt g gs rest) as [-> ->]; [done|done|].
    rewrite read_colon_groups by (try done; cbn in Hl; lia). by destruct (0 <? slots)%nat.
Qed.

Lemma read_ipv4_groups gs rest :
  Forall group_ok gs -> group_end rest -> read_ipv4_addr (fmt_subslice gs ++ rest) = None.
Proof.
  intros Hgs Hr. destruct gs as [|g gs].
  - cbn [fmt_subslice fmap list_fmap join app]. by destruct Hr as [->|[r ->]].
  - rewrite fmt_subslice_cons, <-app_assoc. inversion Hgs; subst. by apply read_group_fmt.
Qed.

(** A run of zero groups inside [all]. *)
Definition zero_run (all : list Z) (r : Z * Z) : Prop :=
  0 <= fst r /\ 0 <= snd r /\ fst r + snd r <= zlen all /\
  all = ztake (fst r) all ++ zrepeat (snd r) 0 ++ zdrop (fst r + snd r) all.

Lemma zero_run_snoc all r x : zero_run all r -> zero_run (all ++ [x]) r.
Proof.
  intros (H1 & H2 & H3 & H4). pose proof (zlen_nonneg all). unfold zero_run. rewrite zlen_app.
  change (zlen [x]) with 1. split_and!; try lia.
  rewrite ztake_app_le, zdrop_app_le by lia. rewrite H4 at 1. by rewrite <-!app_assoc.
Qed.

Lemma zero_run_empty all i : 0 <= i <= zlen all -> zero_run all (i, 0).
Proof.
  intros. unfold zero_run. cbn [fst snd]. split_and!; try lia.
  rewrite Z.add_0_r. symmetry. apply ztake_zdrop.
Qed.

Lemma zero_run_extend all s n : zero_run all (s, n) -> s + n = zlen all -> zero_run (all ++ [0]) (s, n + 1).
Proof.
  unfold zero_run. cbn [fst snd]. intros (H1 & H2 & H3 & H4) E. pose proof (zlen_nonneg all).
  rewrite zlen_app. change (zlen [0]) with 1. split_and!; try lia.
  rewrite ztake_app_le by lia. rewrite (zdrop_all (s + (n + 1))) by (rewrite zlen_app; change (zlen [0]) with 1; lia).
  rewrite (zdrop_all (s + n)) in H4 by lia. rewrite app_nil_r in *.
  rewrite H4 at 1. rewrite <-app_assoc. f_equal. unfold zrepeat.
  replace (Z.to_nat (n + 1)) with (S (Z.to_nat n)) by lia. by rewrite replicate_S_end.
Qed.

Lemma longest_zeroes_spec gs : forall pre cur longest,
  zero_run pre longest -> (snd cur = 0 \/ zero_run pre cur /\ fst cur + snd cur = zlen pre) ->
  zero_run (pre ++ gs) (longest_zeroes (zlen pre) cur longest gs).
Proof.
  induction gs as [|g gs IH]; intros pre cur longest Hl Hc; cbn [longest_zeroes]; [by rewrite app_nil_r|].
  replace (zlen pre + 1) with (zlen (pre ++ [g])) by (rewrite zlen_app; done).
  replace (pre ++ g :: gs) with ((pre ++ [g]) ++ gs) by (by rewrite <-app_assoc).
  destruct (Z.eqb_spec g 0) as [->|Hg]; [|apply IH; [by apply zero_run_snoc|by left]].
  set (cur' := (if snd cur =? 0 then zlen pre else fst cur, snd cur + 1)).
  assert (zero_run (pre ++ [0]) cur' /\ fst cur' + snd cur' = zlen (pre ++ [0])) as [Hc' He'].
  { subst cur'. rewrite zlen_app. change (zlen [0]) with 1. destruct cur as [s n]. cbn [fst snd] in *.
    destruct (Z.eqb_spec n 0) as [->|Hn].
    - split; [|lia]. apply zero_run_extend; [|lia]. apply zero_run_empty. pose proof (zlen_nonneg pre). lia.
    - destruct Hc as [Hc|[Hc He]]; [lia|]. split; [by apply zero_run_extend|lia]. }
  cbn [snd] in *. apply IH; [|by right].
  destruct (snd longest <? snd cur'); [done|by apply zero_run_snoc].
Qed.

Lemma mapped_read o v4 :
  zlen o = 16 -> bytes_ok o -> to_ipv4_mapped o = Some v4 ->
  read_ipv6_addr (str "::ffff:" ++ fmt_ipv4 v4) = Some (o, []).
Proof.
  intros Hl Hb. unfold to_ipv4_mapped. case_bool_decide as Hm; [|done]. intros [= <-].
  assert (zlen (zdrop 12 o) = 4) as L4 by (rewrite zlen_zdrop; lia).
  assert (bytes_ok (zdrop 12 o)) as B4 by (by apply Forall_drop).
  assert (o = zrepeat 10 0 ++ [255; 255] ++ zdrop 12 o) as Ho by (rewrite <-(ztake_zdrop 12 o) at 1; by rewrite Hm).
  unfold read_ipv6_addr.
  assert (read_groups true 7 (str "ffff:" ++ fmt_ipv4 (zdrop 12 o)) = (65535 :: segments (zdrop 12 o), true, [])) as E.
  { cbn [read_groups]. change (0 <? 6)%nat with true. cbv iota. unfold read_separator at 1 2.
    change (str "ffff:" ++ fmt_ipv4 (zdrop 12 o)) with (fmt_num 16 65535 ++ 58 :: fmt_ipv4 (zdrop 12 o)).
    rewrite read_ipv4_no_dot by (apply no_dot_app; [by apply fmt_num_no_dot|done|done]).
    rewrite read_number_fmt by (done || lia || by right).
    change (0 <? 5)%nat with true. cbv iota. unfold read_separator at 1, read_given_char. cbn [Z.eqb Pos.eqb].
    rewrite <-(app_nil_r (fmt_ipv4 (zdrop 12 o))), read_ipv4_fmt by done. done. }
  change (read_groups true 8 (str "::ffff:" ++ fmt_ipv4 (zdrop 12 o)))
    with (@nil Z, false, str "::ffff:" ++ fmt_ipv4 (zdrop 12 o)).
  change (str "::ffff:" ++ fmt_ipv4 (zdrop 12 o)) with (58 :: 58 :: str "ffff:" ++ fmt_ipv4 (zdrop 12 o)).
  cbn [length Nat.eqb]. unfold read_given_char. cbn [Z.eqb Pos.eqb mbind option_bind].
  change (8 - (0 + 1))%nat with 7%nat. rewrite E. do 2 f_equal. etransitivity; [|symmetry; exact Ho].
  destruct (segments_spec 2 (zdrop 12 o)) as (E1 & _ & E3); [unfold zlen in L4; lia|done|].
  cbn [length app]. rewrite E3. cbn [Nat.sub replicate app].
  change (of_segments (0 :: 0 :: 0 :: 0 :: 0 :: 65535 :: segments (zdrop 12 o)))
    with (zrepeat 10 0 ++ [255; 255] ++ of_segments (segments (zdrop 12 o))). by rewrite E1.
Qed.

Lemma read_ipv6_fmt o :
  zlen o = 16 -> bytes_ok o -> read_ipv4_addr (fmt_ipv6 o) = None /\ read_ipv6_addr (fmt_ipv6 o) = Some (o, []).
Proof.
  intros Hl Hb. unfold fmt_ipv6. destruct (to_ipv4_mapped o) as [v4|] eqn:Em.
  { split; [done|by apply mapped_read]. }
  destruct (segments_spec 8 o) as (E1 & E2 & E3); [unfold zlen in Hl; lia|done|].
  assert (zero_run [] (0, 0)) as H0 by (by apply zero_run_empty).
  pose proof (longest_zeroes_spec (segments o) [] (0, 0) (0, 0) H0 (or_introl eq_refl)) as Hz.
  cbn [app] in Hz. change (zlen []) with 0 in Hz. set (gs := segments o) in *.
  destruct (longest_zeroes 0 (0, 0) (0, 0) gs) as [start len]. destruct Hz as (H1 & H2 & H3 & H4). cbn [fst snd] in *.
  destruct (Z.ltb_spec 1 len) as [Hlen|_].
  - set (pre := ztake start gs) in *. set (post := zdrop (start + len) gs) in *.
    assert (Forall group_ok pre /\ Forall group_ok post) as [Fp Fq] by (split; [by apply Forall_take|by apply Forall_drop]).
    assert (length pre + Z.to_nat len + length post = 8)%nat as L.
    { rewrite <-E3, H4. unfold zrepeat. rewrite !length_app, length_replicate. lia. }
    assert (group_end ([58; 58] ++ fmt_subslice post)) as G by (right; by eexists).
    split; [by apply read_ipv4_groups|]. unfold read_ipv6_addr. rewrite read_groups_fmt by (done || lia).
    destruct (Nat.eqb_spec (length pre) 8); [lia|]. unfold read_given_char. cbn [app Z.eqb Pos.eqb mbind option_bind].
    rewrite <-(app_nil_r (fmt_subslice post)), read_groups_fmt by (first [done|lia|by left]).
    replace (8 - length pre - length post)%nat with (Z.to_nat len) by lia. unfold zrepeat in H4. by rewrite <-H4, E1.
  - rewrite <-(app_nil_r (fmt_subslice gs)). split; [apply read_ipv4_groups; [done|by left]|].
    unfold read_ipv6_addr. rewrite read_groups_fmt by (first [done|lia|by left]). by rewrite E3, E1.
Qed.

(** A printed address parses back to itself. *)
Lemma parse_ip_fmt a : ip_ok a -> parse_ip (fmt_ip a) = Some a.
Proof.
  unfold parse_ip, parse_with, read_ip_addr. destruct a as [o|o]; intros [Hl Hb]; cbn [fmt_ip].
  - by rewrite <-(app_nil_r (fmt_ipv4 o)), read_ipv4_fmt.
  - by destruct (read_ipv6_fmt o Hl Hb) as [-> ->].
Qed.

(** ** Printed text is made of word characters *)

Definition word_char (b : Z) : Prop := 33 <= b < 128.

Lemma ws_len_word b r : word_char b -> ws_len (b :: r) = O.
Proof.
  unfold word_char. intros Hb. unfold ws_len.
  replace ((b =? 32) || ((9 <=? b) && (b <=? 13))) with false by lia.
  destruct r as [|c r]; [done|]. replace (b =? 0xc2) with false by lia. cbn [andb].
  destruct r as [|d r]; [done|].
  replace (b =? 0xe1) with false by lia. replace (b =? 0xe2) with false by lia.
  by replace (b =? 0xe3) with false by lia.
Qed.

Lemma split_ws_word w cur r : Forall word_char w -> split_ws O cur (w ++ r) = split_ws O (cur ++ w) r.
Proof.
  intros Hw. revert cur. induction Hw as [|b w Hb Hw IH]; intros cur; cbn [app]; [by rewrite app_nil_r|].
  cbn [split_ws]. rewrite ws_len_word by done. rewrite IH. by rewrite <-app_assoc.
Qed.

(** Words with single spaces between them are found again. *)
Lemma split_whitespace_words ws :
  Forall (fun w => w <> [] /\ Forall word_char w) ws -> split_whitespace (join 32 ws) = ws.
Proof.
  unfold split_whitespace. induction 1 as [|w ws [Hn Hw] Hws IH]; [done|].
  destruct ws as [|w' ws].
  - cbn [join]. rewrite <-(app_nil_r w) at 1. rewrite split_ws_word by done. cbn. unfold flush_word.
    by rewrite decide_False.
  - change (join 32 (w :: w' :: ws)) with (w ++ 32 :: join 32 (w' :: ws)). rewrite split_ws_word by done.
    cbn [split_ws app]. change (ws_len (32 :: join 32 (w' :: ws))) with 1%nat. cbv iota. unfold flush_word.
    rewrite decide_False by done. cbn [app]. by rewrite IH.
Qed.

Lemma utf8_ascii l : Forall (fun b => 0 <= b < 128) l -> utf8_valid l = true.
Proof.
  induction 1 as [|b l Hb Hl IH]; [done|]. cbn [utf8_valid]. unfold in_range.
  by replace ((0 <=? b) && (b <=? 0x7f)) with true by lia.
Qed.

Lemma join_Forall (P : Z -> Prop) sep items : P sep -> Forall (Forall P) items -> Forall P (join sep items).
Proof.
  intros Hs. induction 1 as [|i items Hi Hitems IH]; [constructor|].
  destruct items; [done|]. change (join sep (i :: l :: items)) with (i ++ sep :: join sep (l :: items)).
  apply Forall_app. split; [done|]. by constructor.
Qed.

Lemma zlen_join k sep items :
  0 <= k -> Forall (fun i => zlen i <= k) items -> zlen (join sep items) <= (k + 1) * zlen items.
Proof.
  intros Hk. induction 1 as [|i items Hi Hitems IH]; [unfold zlen; cbn; lia|]. cbn beta in Hi.
  destruct items as [|j items]; [cbn [join]; rewrite zlen_cons, zlen_nil; lia|].
  change (join sep (i :: j :: items)) with (i ++ sep :: join sep (j :: items)).
  rewrite zlen_app, zlen_cons, (zlen_cons i). lia.
Qed.

(** A number printed with at most [k] digits. *)
Lemma fmt_num_text radix k z :
  good_radix radix -> 0 <= z < radix ^ Z.of_nat k -> (0 < k <= 64)%nat ->
  fmt_num radix z <> [] /\ Forall word_char (fmt_num radix z) /\ zlen (fmt_num radix z) <= Z.of_nat k.
Proof.
  intros Hr Hz Hk. destruct (digits_of_spec 64 k radix z) as (HF & _ & Hl & _); [destruct Hr; lia|done|lia|].
  cbn zeta in *. unfold fmt_num, zlen. rewrite length_fmap. split_and!; [|apply Forall_fmap|lia].
  - intros E%(f_equal length). rewrite length_fmap in E. cbn [length] in E. lia.
  - eapply Forall_impl; [exact HF|]. intros d Hd. cbn in Hd |- *. unfold word_char, digit_char.
    destruct Hr, (Z.ltb_spec d 10); lia.
Qed.

Lemma fmt_list_text radix k sep l :
  good_radix radix -> (0 < k <= 64)%nat -> word_char sep -> Forall (fun z => 0 <= z < radix ^ Z.of_nat k) l ->
  Forall word_char (join sep (fmt_num radix <$> l)) /\
  zlen (join sep (fmt_num radix <$> l)) <= (Z.of_nat k + 1) * zlen l.
Proof.
  intros Hr Hk Hsep Hl.
  assert (zlen l = zlen (fmt_num radix <$> l)) as -> by (unfold zlen; by rewrite length_fmap).
  split.
  - apply join_Forall; [done|]. apply Forall_fmap. eapply Forall_impl; [exact Hl|]. intros z Hz.
    by destruct (fmt_num_text radix k z Hr Hz Hk) as (_ & ? & ?).
  - apply zlen_join; [lia|]. apply Forall_fmap. eapply Forall_impl; [exact Hl|]. intros z Hz.
    by destruct (fmt_num_text radix k z Hr Hz Hk) as (_ & ? & ?).
Qed.

Lemma fmt_ipv4_text o : zlen o = 4 -> bytes_ok o -> Forall word_char (fmt_ipv4 o) /\ zlen (fmt_ipv4 o) <= 16.
Proof.
  intros Hl Hb. destruct (fmt_list_text 10 3 46 o) as [H1 H2]; [by left|lia|unfold word_char; lia| |].
  - eapply Forall_impl; [exact Hb|]. intros z Hz. cbn in Hz |- *. unfold is_byte in Hz. change (10 ^ Z.of_nat 3) with 1000. lia.
  - split; [done|]. unfold fmt_ipv4. lia.
Qed.

Lemma fmt_subslice_text gs :
  Forall group_ok gs -> zlen gs <= 8 -> Forall word_char (fmt_subslice gs) /\ zlen (fmt_subslice gs) <= 40.
Proof.
  intros Hg Hl. destruct (fmt_list_text 16 4 58 gs) as [H1 H2]; [by right|lia|unfold word_char; lia|exact Hg|].
  split; [done|]. unfold fmt_subslice. lia.
Qed.

Lemma fmt_ip_text a : ip_ok a -> fmt_ip a <> [] /\ Forall word_char (fmt_ip a) /\ zlen (fmt_ip a) <= 82.
Proof.
  intros Ha. split. { intros E. pose proof (parse_ip_fmt a Ha) as P. by rewrite E in P. }
  destruct a as [o|o]; destruct Ha as [Hl Hb]; cbn [fmt_ip].
  { destruct (fmt_ipv4_text o Hl Hb). split; [done|lia]. }
  unfold fmt_ipv6, to_ipv4_mapped. case_bool_decide.
  { destruct (fmt_ipv4_text (zdrop 12 o)) as [H1 H2]; [rewrite zlen_zdrop; lia|by apply Forall_drop|].
    rewrite zlen_app. change (zlen (str "::ffff:")) with 7. split; [|lia]. apply Forall_app. split; [|done].
    repeat constructor; done. }
  destruct (segments_spec 8 o) as (_ & E2 & E3); [unfold zlen in Hl; lia|done|]. set (gs := segments o) in *.
  assert (zlen gs = 8) as L by (unfold zlen; lia).
  destruct (longest_zeroes 0 (0, 0) (0, 0) gs) as [start len]. case_match.
  - destruct (fmt_subslice_text (ztake start gs)) as [P1 P2]; [by apply Forall_take|rewrite zlen_ztake; lia|].
    destruct (fmt_subslice_text (zdrop (start + len) gs)) as [Q1 Q2]; [by apply Forall_drop|rewrite zlen_zdrop; lia|].
    rewrite !zlen_app. change (zlen [58; 58]) with 2. split; [|lia].
    rewrite !Forall_app. split_and!; [done|repeat constructor; done|done].
  - destruct (fmt_subslice_text gs); [done|lia|]. split; [done|lia].
Qed.

(** ** Trimming twice *)

Lemma ws_len_prefix l r : ws_len (l ++ r) = O -> ws_len l = O.
Proof.
  destruct l as [|a [|b [|c l]]]; cbn; [done| | |done].
  - destruct (_ || _); [done|]. done.
  - destruct (_ || _); [done|]. by destruct ((a =? 0xc2) && _).
Qed.

Lemma ws_len_complete l r k : ws_len (l ++ r) = S k -> (S k <= length l)%nat -> ws_len l = S k.
Proof.
  destruct l as [|a [|b [|c l]]]; cbn; intros E Hl; [lia| | |done]; repeat case_match; simplify_eq; done || lia.
Qed.

Lemma trim_end_loop_again l : forall skip kept spaces,
  trim_end_loop skip kept spaces l = kept \/
  exists u v, l = u ++ v /\ trim_end_loop skip kept spaces l = kept ++ spaces ++ u /\ (skip < length u)%nat /\
    forall kept' spaces', trim_end_loop skip kept' spaces' u = kept' ++ spaces' ++ u.
Proof.
  induction l as [|b r IH]; intros skip kept spaces; cbn [trim_end_loop]; [by left|].
  assert (forall k, trim_end_loop k kept (spaces ++ [b]) r = kept \/
    exists u v, r = u ++ v /\ trim_end_loop k kept (spaces ++ [b]) r = kept ++ spaces ++ b :: u /\ (k < length u)%nat /\
      forall kept' spaces', trim_end_loop k kept' (spaces' ++ [b]) u = kept' ++ spaces' ++ b :: u) as Hstep.
  { intros k. destruct (IH k kept (spaces ++ [b])) as [E|(u & v & -> & E & Hl & Hu)]; [by left|right].
    exists u, v. rewrite E, <-!app_assoc. split_and!; try done. intros. rewrite Hu. by rewrite <-!app_assoc. }
  destruct skip as [|skip].
  - destruct (ws_len (b :: r)) as [|k] eqn:Ew.
    + right. destruct (IH O (kept ++ spaces ++ [b]) []) as [E|(u & v & -> & E & Hl & Hu)]; rewrite E.
      * exists [b], r. rewrite ?app_nil_r, <-?app_assoc. split_and!; [done|done|cbn; lia|]. intros. cbn [trim_end_loop].
        rewrite (ws_len_prefix [b] r) by done. done.
      * exists (b :: u), v. rewrite <-!app_assoc. split_and!; [done|done|cbn; lia|]. intros. cbn [trim_end_loop].
        rewrite (ws_len_prefix (b :: u) v) by done. rewrite Hu. by rewrite <-!app_assoc.
    + destruct (Hstep k) as [E|(u & v & -> & E & Hl & Hu)]; [by left|right]. exists (b :: u), v.
      split_and!; [done|done|cbn; lia|]. intros. cbn [trim_end_loop]. by rewrite (ws_len_complete (b :: u) v k) by (done || cbn; lia).
  - destruct (Hstep skip) as [E|(u & v & -> & E & Hl & Hu)]; [by left|right]. exists (b :: u), v.
    split_and!; [done|done|cbn; lia|]. intros. cbn [trim_end_loop]. apply Hu.
Qed.

Lemma trim_start_loop_stops l skip : trim_start_loop skip l = [] \/ ws_len (trim_start_loop skip l) = O.
Proof.
  revert skip. induction l as [|b r IH]; intros [|skip]; cbn [trim_start_loop]; [by left..| |by apply IH].
  destruct (ws_len (b :: r)) eqn:E; [by right|apply IH].
Qed.

Lemma trim_idem l : trim (trim l) = trim l.
Proof.
  unfold trim. destruct (trim_start_loop_stops l O) as [->|Hs]; [done|]. set (l' := trim_start_loop O l) in *.
  destruct (trim_end_loop_again l' O [] []) as [->|(u & v & E & -> & Hl & Hu)]; [done|]. cbn [app].
  destruct u as [|b u]; [cbn in Hl; lia|]. cbn [trim_start_loop]. rewrite E in Hs. rewrite (ws_len_prefix _ _ Hs). apply (Hu [] []).
Qed.
