(* ===== verification/AddrOrder.v ===== *)
(** * The order of addresses

    [Ord] of [IpAddr] and [SocketAddr], and [sort_unstable] followed by [dedup], which several components use to
    make a list that does not depend on the order of its sources. *)

From stdpp Require Import sorting.
From S2P Require Import Prelude NetAddr.

(** [Ord] of the addresses: IPv4 before IPv6, then octet by octet. *)
Fixpoint lex_le (a b : list Z) : bool :=
  match a, b with
  | [], _ => true
  | _ :: _, [] => false
  | x :: a, y :: b => (x <? y) || ((x =? y) && lex_le a b)
  end.
Definition ip_key (a : IpAddr) : list Z := match a with V4 o => 4 :: o | V6 o => 6 :: o end.
Definition addr_key (a : SocketAddr) : list Z := ip_key (sa_ip a) ++ [sa_port a].
Definition ip_le (a b : IpAddr) : Prop := lex_le (ip_key a) (ip_key b) = true.
Definition addr_le (a b : SocketAddr) : Prop := lex_le (addr_key a) (addr_key b) = true.
#[export] Instance ip_le_dec a b : Decision (ip_le a b).
Proof. unfold ip_le. apply _. Defined.
#[export] Instance addr_le_dec a b : Decision (addr_le a b).
Proof. unfold addr_le. apply _. Defined.

(** [dedup] *)
Fixpoint dedup `{EqDecision A} (l : list A) : list A :=
  match l with
  | a :: (b :: _) as r => if decide (a = b) then dedup r else a :: dedup r
  | l => l
  end.

(** ** Facts *)

Lemma lex_le_total a : forall b, lex_le a b = true \/ lex_le b a = true.
Proof.
  induction a as [|x a IH]; intros [|y b]; cbn; [auto..|]. destruct (IH b) as [->| ->].
  all: destruct (Z.ltb_spec x y), (Z.ltb_spec y x), (Z.eqb_spec x y), (Z.eqb_spec y x); cbn; auto; lia.
Qed.

Lemma lex_le_antisym a : forall b, lex_le a b = true -> lex_le b a = true -> a = b.
Proof.
  induction a as [|x a IH]; intros [|y b]; cbn; try done.
  destruct (Z.ltb_spec x y), (Z.ltb_spec y x), (Z.eqb_spec x y), (Z.eqb_spec y x); cbn; try done; try lia.
  subst. intros H1 H2. f_equal. by apply IH.
Qed.

Lemma lex_le_trans a : forall b c, lex_le a b = true -> lex_le b c = true -> lex_le a c = true.
Proof.
  induction a as [|x a IH]; intros [|y b] [|z c]; cbn; try done.
  destruct (Z.ltb_spec x y), (Z.ltb_spec y z), (Z.ltb_spec x z), (Z.eqb_spec x y), (Z.eqb_spec y z), (Z.eqb_spec x z);
    cbn; try done; try lia. apply IH.
Qed.

Lemma addr_key_inj a b : addr_key a = addr_key b -> a = b.
Proof.
  destruct a as [[a|a] p], b as [[b|b] q]; unfold addr_key, ip_key; cbn; intros [= E]; apply app_inj_tail in E as [-> ->]; done.
Qed.

#[export] Instance addr_le_total : Total addr_le.
Proof. intros a b. apply lex_le_total. Qed.
#[export] Instance addr_le_trans : Transitive addr_le.
Proof. intros a b c. apply lex_le_trans. Qed.
#[export] Instance addr_le_antisymm : AntiSymm eq addr_le.
Proof. intros a b H1 H2. apply addr_key_inj. by apply lex_le_antisym. Qed.

Lemma dedup_elem `{EqDecision A} (l : list A) x : x ∈ dedup l <-> x ∈ l.
Proof.
  induction l as [|a l IH]; [done|]. destruct l as [|b l]; [done|]. change (dedup (a :: b :: l)) with
    (if decide (a = b) then dedup (b :: l) else a :: dedup (b :: l)). destruct (decide (a = b)) as [->|]; [set_solver|].
  rewrite !(elem_of_cons _ _ a), IH. done.
Qed.

(** Of a sorted list, [dedup] keeps each element once. *)
Lemma dedup_NoDup `{EqDecision A} (le : A -> A -> Prop) `{!AntiSymm eq le} (l : list A) : StronglySorted le l -> NoDup (dedup l).
Proof.
  induction 1 as [|a l Hs IH Ha]; [constructor|]. destruct l as [|b l]; [by apply NoDup_singleton|].
  change (dedup (a :: b :: l)) with (if decide (a = b) then dedup (b :: l) else a :: dedup (b :: l)).
  destruct (decide (a = b)) as [->|Hn]; [done|]. constructor; [|done]. rewrite dedup_elem. intros Hin.
  apply Hn. rewrite Forall_forall in Ha. apply (anti_symm le); [apply Ha; set_solver|].
  apply elem_of_cons in Hin as [->|Hin]; [by apply Ha; set_solver|]. inversion Hs as [|? ? ? Hb]; subst. rewrite Forall_forall in Hb. auto.
Qed.

#[export] Instance Zle_total : Total Z.le.
Proof. intros a b. lia. Qed.

Lemma StronglySorted_lt (l : list Z) : StronglySorted Z.le l -> NoDup l -> StronglySorted Z.lt l.
Proof.
  induction 1 as [|a l Hs IH Ha]; intros Hn; [constructor|]. apply NoDup_cons in Hn as [Hin Hn]. constructor; [auto|].
  rewrite Forall_forall in *. intros x Hx. specialize (Ha x Hx). assert (a <> x) by (intros ->; done). lia.
Qed.

Lemma sorted_canonical (l l' : list SocketAddr) : l ≡ₚ l' -> merge_sort addr_le l = merge_sort addr_le l'.
Proof.
  intros Hp. apply (StronglySorted_unique addr_le); [apply StronglySorted_merge_sort; apply _..|]. by rewrite !merge_sort_Permutation.
Qed.
