(* ===== verification/Errors.v ===== *)
(** * Errors: [error.rs]

    The two error enumerations, the conversions between them and [std::io::Error], the [Recoverable]
    trait as a class, and the outcome of a handshake.  A message is kept as its format string with
    the numbers put into it. *)

From S2P Require Import Prelude NetAddr.

(** ** [StreamError] (error.rs:11-106) *)

Inductive StreamError :=
| PartialRead (expected got : Z)
| PartialWrite (expected written : Z)
| SE_Poisoned (reason : string)
| BufferOverflow (limit attempted : Z)
| InvalidFrame (details : string)
| SE_UnexpectedEof
| SE_Io (e : IoError).

(** [From<std::io::Error> for StreamError], [From<StreamError> for std::io::Error]: the stream
    error becomes the payload of the I/O error, which prints it. *)
Definition StreamError_from_io (err : IoError) : StreamError := SE_Io err.

Definition io_from_StreamError (err : StreamError) : IoError :=
  match err with
  | SE_Io e => e
  | SE_UnexpectedEof => mkIoError UnexpectedEof "unexpected end of stream" []
  | SE_Poisoned reason => mkIoError Other (String.append "stream poisoned: " reason) []
  | BufferOverflow limit attempted => mkIoError OutOfMemory "buffer overflow: limit {}, attempted {}" [limit; attempted]
  | InvalidFrame details => mkIoError InvalidData (String.append "invalid frame: " details) []
  | PartialRead expected got => mkIoError Other "partial read: expected {} bytes, got {}" [expected; got]
  | PartialWrite expected written => mkIoError Other "partial write: expected {} bytes, wrote {}" [expected; written]
  end.

(** [Error::source] *)
Definition StreamError_source (err : StreamError) : option IoError :=
  match err with SE_Io e => Some e | _ => None end.

(** ** [ProxyError] (error.rs:165-262) *)

Inductive ProxyError :=
| PE_Crypto (msg : string) (args : list Z)
| PE_InvalidKeyLength (expected got : Z)
| PE_Stream (e : StreamError)
| PE_InvalidHandshake (msg : string) (args : list Z)
| PE_InvalidProtoTag (tag : bytes)
| PE_InvalidTlsRecord (record_type : Z) (version : bytes)
| PE_ReplayAttack (addr : SocketAddr)
| PE_TimeSkew (client_time server_time : Z)
| PE_InvalidMessageLength (len min max : Z)
| PE_ChecksumMismatch (expected got : Z)
| PE_SeqNoMismatch (expected got : Z)
| PE_TlsHandshakeFailed (reason : string)
| PE_TgHandshakeTimeout
| PE_ConnectionTimeout (addr : string)
| PE_ConnectionRefused (addr : string)
| PE_Io (e : IoError)
| PE_InvalidProxyProtocol
| PE_Proxy (msg : string)
| PE_Config (msg : string)
| PE_InvalidSecret (user reason : string)
| PE_UserExpired (user : string)
| PE_ConnectionLimitExceeded (user : string)
| PE_DataQuotaExceeded (user : string)
| PE_UnknownUser
| PE_RateLimited
| PE_Internal (msg : string).

(** ** [Recoverable] (error.rs:110-161, 264-283) *)

Class Recoverable (E : Type) := {
  is_recoverable : E -> bool;
  can_continue : E -> bool
}.

Definition kind_recoverable (k : ErrorKind) : bool :=
  match k with WouldBlock | Interrupted | TimedOut => true | _ => false end.

#[export] Instance StreamError_recoverable : Recoverable StreamError := {|
  is_recoverable self :=
    match self with
    | PartialRead _ _ | PartialWrite _ _ => true
    | SE_Io e => kind_recoverable (err_kind e)
    | SE_Poisoned _ | BufferOverflow _ _ | InvalidFrame _ | SE_UnexpectedEof => false
    end;
  can_continue self :=
    match self with SE_Poisoned _ | SE_UnexpectedEof | BufferOverflow _ _ => false | _ => true end
|}.

#[export] Instance IoError_recoverable : Recoverable IoError := {|
  is_recoverable self := kind_recoverable (err_kind self);
  can_continue self :=
    match err_kind self with BrokenPipe | ConnectionReset | ConnectionAborted | NotConnected => false | _ => true end
|}.

#[export] Instance ProxyError_recoverable : Recoverable ProxyError := {|
  is_recoverable self :=
    match self with
    | PE_Stream e => is_recoverable e
    | PE_Io e => is_recoverable e
    | PE_ConnectionTimeout _ => true
    | PE_RateLimited => true
    | _ => false
    end;
  can_continue self :=
    match self with
    | PE_Stream e => can_continue e
    | PE_Io e => can_continue e
    | _ => false
    end
|}.

(** ** Messages ([Display])

    A format string with its arguments put in: [{..}] stands for a decimal number, [{..:x}] for a hexadecimal one,
    with a width of zeros before the [x]. *)

Definition padded (width : Z) (digits : bytes) : bytes := repeat 48 (Z.to_nat (width - zlen digits)) ++ digits.

(** What stands between the braces, and what follows. *)
Fixpoint placeholder (msg : bytes) : option (bytes * bytes) :=
  match msg with
  | [] => None
  | b :: msg => if b =? 125 then Some ([], msg) else '(spec, rest) ← placeholder msg; Some (b :: spec, rest)
  end.

Definition fmt_arg (spec : bytes) (n : Z) : bytes :=
  let hex width := padded width (fmt_num 16 n) in
  if bool_decide (str ":016x" `suffix_of` spec) then hex 16
  else if bool_decide (str ":08x" `suffix_of` spec) then hex 8
  else if bool_decide (str ":02x" `suffix_of` spec) then hex 2
  else if bool_decide (str ":x" `suffix_of` spec) then hex 0
  else fmt_int n.

Fixpoint render_loop (fuel : nat) (msg : bytes) (args : list Z) : bytes :=
  match fuel, msg, args with
  | S fuel, b :: rest, n :: more =>
      if b =? 123 then
        match placeholder rest with
        | Some (spec, rest) => fmt_arg spec n ++ render_loop fuel rest more
        | None => msg
        end
      else b :: render_loop fuel rest args
  | _, _, _ => msg
  end.

Definition render (msg : string) (args : list Z) : bytes := render_loop (String.length msg) (str msg) args.

(** A byte array as [{:02x?}] prints it. *)
Definition fmt_hex_array (l : bytes) : bytes := 91 :: foldr (fun x acc => x ++ (if bool_decide (acc = [93]) then [] else str ", ") ++ acc) [93] ((fun b => padded 2 (fmt_num 16 b)) <$> l).

Definition IoError_fmt (e : IoError) : bytes := render (err_msg e) (err_args e).

(** error.rs:38-69 *)
Definition StreamError_fmt (self : StreamError) : bytes :=
  match self with
  | PartialRead expected got => render "partial read: expected {} bytes, got {}" [expected; got]
  | PartialWrite expected written => render "partial write: expected {} bytes, wrote {}" [expected; written]
  | SE_Poisoned reason => str "stream poisoned: " ++ str reason
  | BufferOverflow limit attempted => render "buffer overflow: limit {}, attempted {}" [limit; attempted]
  | InvalidFrame details => str "invalid frame: " ++ str details
  | SE_UnexpectedEof => str "unexpected end of stream"
  | SE_Io e => str "I/O error: " ++ IoError_fmt e
  end.

(** error.rs:165-262: the [error] attributes *)
Definition ProxyError_fmt (self : ProxyError) : bytes :=
  match self with
  | PE_Crypto msg args => str "Crypto error: " ++ render msg args
  | PE_InvalidKeyLength expected got => render "Invalid key length: expected {expected}, got {got}" [expected; got]
  | PE_Stream e => str "Stream error: " ++ StreamError_fmt e
  | PE_InvalidHandshake msg args => str "Invalid handshake: " ++ render msg args
  | PE_InvalidProtoTag tag => str "Invalid protocol tag: " ++ fmt_hex_array tag
  | PE_InvalidTlsRecord record_type version =>
      render "Invalid TLS record: type={record_type}, version=" [record_type] ++ fmt_hex_array version
  | PE_ReplayAttack addr => str "Replay attack detected from " ++ fmt_socket_addr addr
  | PE_TimeSkew client_time server_time =>
      render "Time skew detected: client={client_time}, server={server_time}" [client_time; server_time]
  | PE_InvalidMessageLength len min max => render "Invalid message length: {len} (min={min}, max={max})" [len; min; max]
  | PE_ChecksumMismatch expected got => render "Checksum mismatch: expected={expected:08x}, got={got:08x}" [expected; got]
  | PE_SeqNoMismatch expected got => render "Sequence number mismatch: expected={expected}, got={got}" [expected; got]
  | PE_TlsHandshakeFailed reason => str "TLS handshake failed: " ++ str reason
  | PE_TgHandshakeTimeout => str "Telegram handshake timeout"
  | PE_ConnectionTimeout addr => str "Connection timeout to " ++ str addr
  | PE_ConnectionRefused addr => str "Connection refused by " ++ str addr
  | PE_Io e => str "IO error: " ++ IoError_fmt e
  | PE_InvalidProxyProtocol => str "Invalid proxy protocol header"
  | PE_Proxy msg => str "Proxy error: " ++ str msg
  | PE_Config msg => str "Config error: " ++ str msg
  | PE_InvalidSecret user reason => str "Invalid secret for user " ++ str user ++ str ": " ++ str reason
  | PE_UserExpired user => str "User " ++ str user ++ str " expired"
  | PE_ConnectionLimitExceeded user => str "User " ++ str user ++ str " exceeded connection limit"
  | PE_DataQuotaExceeded user => str "User " ++ str user ++ str " exceeded data quota"
  | PE_UnknownUser => str "Unknown user"
  | PE_RateLimited => str "Rate limited"
  | PE_Internal msg => str "Internal error: " ++ str msg
  end.

Example messages :
  ProxyError_fmt (PE_ChecksumMismatch 255 1) = str "Checksum mismatch: expected=000000ff, got=00000001" /\
  ProxyError_fmt (PE_InvalidProtoTag [1; 171]) = str "Invalid protocol tag: [01, ab]" /\
  ProxyError_fmt (PE_Io (mkIoError UnexpectedEof "expected {} bytes, got {}" [64; 0])) = str "IO error: expected 64 bytes, got 0" /\
  ProxyError_fmt (PE_SeqNoMismatch 3 (-2)) = str "Sequence number mismatch: expected=3, got=-2".
Proof. split_and!; vm_eq. Qed.

(** ** [HandshakeResult] (error.rs:290-330) *)

Inductive HandshakeResult (T R W : Type) :=
| HSuccess (t : T)
| HBadClient (reader : R) (writer : W)
| HError (e : ProxyError).
Arguments HSuccess {T R W} t.
Arguments HBadClient {T R W} reader writer.
Arguments HError {T R W} e.

Definition is_success {T R W} (self : HandshakeResult T R W) : bool :=
  match self with HSuccess _ => true | _ => false end.
Definition is_bad_client {T R W} (self : HandshakeResult T R W) : bool :=
  match self with HBadClient _ _ => true | _ => false end.
Definition HandshakeResult_map {T U R W} (f : T -> U) (self : HandshakeResult T R W) : HandshakeResult U R W :=
  match self with
  | HSuccess v => HSuccess (f v)
  | HBadClient reader writer => HBadClient reader writer
  | HError e => HError e
  end.
Definition HandshakeResult_from_error {T R W} (err : ProxyError) : HandshakeResult T R W := HError err.
Definition HandshakeResult_from_io {T R W} (err : IoError) : HandshakeResult T R W := HError (PE_Io err).

(** ** Facts *)

(** An I/O error survives the way through a stream error unchanged. *)
Lemma io_stream_io e : io_from_StreamError (StreamError_from_io e) = e.
Proof. done. Qed.

(** Wrapped in a stream error, an I/O error is retried in the same cases as on its own; but the
    connection is then said to go on even after the kinds of error that end it otherwise. *)
Theorem stream_wrapping_loses_closed_connection :
  (forall e : IoError, is_recoverable (PE_Stream (SE_Io e)) = is_recoverable (PE_Io e)) /\
  (forall e : IoError, can_continue (PE_Stream (SE_Io e)) = true) /\
  exists e : IoError, can_continue (PE_Io e) = false.
Proof. split_and!; [done|done|]. by exists (mkIoError BrokenPipe "broken pipe" []). Qed.
