(* ===== verification/Crypto.v ===== *)
(** * Interfaces to the cryptographic and random primitives, and [crypto/aes.rs]

    [crypto/aes.rs], [crypto/hash.rs] and [crypto/random.rs] wrap third-party crates
    ([aes], [ctr], [sha2], [hmac], [md5], [sha1], [crc32fast], [crc32c], [rand]).
    The crates are the classes of this file: their operations, and the documented laws
    the proxy relies on.  What the repository builds on top of them is defined here:
    the CTR wrapper [AesCtr] and the CBC chaining of [AesCbc]. *)

From S2P Require Import Prelude Errors.

(** ** The stream cipher [Ctr128BE<Aes256>] of the [ctr] crate *)

Class StreamCipher := {
  Aes256Ctr : Type;
  Aes256Ctr_new : bytes -> bytes -> Aes256Ctr;
  apply_keystream : Aes256Ctr -> bytes -> bytes * Aes256Ctr
}.

(** The documented contract of [StreamCipher::apply_keystream]: data is combined with the
    next bytes of one key stream, so it may be fed in pieces, the state advances by the
    number of bytes alone, and applying the same key stream twice restores the data. *)
Class StreamCipherOk `{StreamCipher} := {
  ks_nil : forall s, apply_keystream s [] = ([], s);
  ks_app : forall s a b,
    apply_keystream s (a ++ b) =
      (fst (apply_keystream s a) ++ fst (apply_keystream (snd (apply_keystream s a)) b),
       snd (apply_keystream (snd (apply_keystream s a)) b));
  ks_len : forall s a, length (fst (apply_keystream s a)) = length a;
  ks_state : forall s a b, length a = length b ->
    snd (apply_keystream s a) = snd (apply_keystream s b);
  ks_inv : forall s a, bytes_ok a -> fst (apply_keystream s (fst (apply_keystream s a))) = a;
  ks_ok : forall s a, bytes_ok a -> bytes_ok (fst (apply_keystream s a))
}.

(** ** The block cipher [aes::Aes256] *)

Class BlockCipher := {
  aes_encrypt_block : bytes -> bytes -> bytes;
  aes_decrypt_block : bytes -> bytes -> bytes
}.

Definition block_ok (b : bytes) : Prop := length b = 16%nat /\ bytes_ok b.

#[global] Instance block_ok_dec b : Decision (block_ok b).
Proof. unfold block_ok. apply _. Defined.

Class BlockCipherOk `{BlockCipher} := {
  aes_enc_block_ok : forall k b, block_ok b -> block_ok (aes_encrypt_block k b);
  aes_dec_block_ok : forall k b, block_ok b -> block_ok (aes_decrypt_block k b);
  aes_dec_enc : forall k b, block_ok b -> aes_decrypt_block k (aes_encrypt_block k b) = b
}.

(** ** Digests: [sha2], [hmac], [sha1], [md5], [crc32fast], [crc32c] *)

Class Digests := {
  sha256 : bytes -> bytes;
  sha256_hmac : bytes -> bytes -> bytes;
  sha1 : bytes -> bytes;
  md5 : bytes -> bytes;
  crc32 : bytes -> Z;
  crc32c : bytes -> Z
}.

Class DigestsOk `{Digests} := {
  sha256_len : forall d, length (sha256 d) = 32%nat;
  sha256_bytes : forall d, bytes_ok (sha256 d);
  hmac_len : forall k d, length (sha256_hmac k d) = 32%nat;
  hmac_bytes : forall k d, bytes_ok (sha256_hmac k d);
  sha1_len : forall d, length (sha1 d) = 20%nat;
  md5_len : forall d, length (md5 d) = 16%nat;
  md5_bytes : forall d, bytes_ok (md5 d);
  crc32_range : forall d, in_u32 (crc32 d);
  crc32c_range : forall d, in_u32 (crc32c d)
}.

(** ** [AesCtr] (aes.rs:33-76) *)

Section AesCtr.
Context `{StreamCipher}.

Record AesCtr := mkAesCtr { cipher : Aes256Ctr }.

Definition AesCtr_new (key : bytes) (iv : Z) : AesCtr :=
  let iv_bytes := be_bytes 16 iv in
  {| cipher := Aes256Ctr_new key iv_bytes |}.

Definition AesCtr_from_key_iv (key iv : bytes) : result ProxyError AesCtr :=
  if negb (zlen key =? 32) then Err (PE_InvalidKeyLength 32 (zlen key))
  else if negb (zlen iv =? 16) then Err (PE_InvalidKeyLength 16 (zlen iv))
  else Ok (AesCtr_new key (be_val iv)).

(** [apply(&mut self, data: &mut [u8])]: the new contents of [data] and the new state. *)
Definition AesCtr_apply (c : AesCtr) (data : bytes) : bytes * AesCtr :=
  let '(out, s) := apply_keystream (cipher c) data in (out, {| cipher := s |}).

Definition AesCtr_encrypt (c : AesCtr) (data : bytes) : bytes * AesCtr :=
  let output := data in
  AesCtr_apply c output.

Definition AesCtr_decrypt (c : AesCtr) (data : bytes) : bytes * AesCtr :=
  AesCtr_encrypt c data.

End AesCtr.

Section AesCtrFacts.
Context `{StreamCipherOk}.

Lemma AesCtr_apply_eq c data :
  AesCtr_apply c data =
    (fst (apply_keystream (cipher c) data), mkAesCtr (snd (apply_keystream (cipher c) data))).
Proof. unfold AesCtr_apply. by destruct (apply_keystream _ _). Qed.

Lemma AesCtr_apply_nil c : AesCtr_apply c [] = ([], c).
Proof. rewrite AesCtr_apply_eq, ks_nil. by destruct c. Qed.

Lemma AesCtr_apply_app c a b :
  AesCtr_apply c (a ++ b) =
    (fst (AesCtr_apply c a) ++ fst (AesCtr_apply (snd (AesCtr_apply c a)) b),
     snd (AesCtr_apply (snd (AesCtr_apply c a)) b)).
Proof. rewrite !AesCtr_apply_eq. cbn. by rewrite ks_app. Qed.

Lemma AesCtr_apply_length c a : length (fst (AesCtr_apply c a)) = length a.
Proof. rewrite AesCtr_apply_eq. apply ks_len. Qed.

Lemma AesCtr_apply_zlen c a : zlen (fst (AesCtr_apply c a)) = zlen a.
Proof. unfold zlen. by rewrite AesCtr_apply_length. Qed.

Lemma AesCtr_apply_state c a b :
  length a = length b -> snd (AesCtr_apply c a) = snd (AesCtr_apply c b).
Proof. intros. rewrite !AesCtr_apply_eq. cbn. f_equal. by apply ks_state. Qed.

Lemma AesCtr_apply_inv c a :
  bytes_ok a -> fst (AesCtr_apply c (fst (AesCtr_apply c a))) = a.
Proof. intros. rewrite !AesCtr_apply_eq. by apply ks_inv. Qed.

Lemma AesCtr_apply_ok c a : bytes_ok a -> bytes_ok (fst (AesCtr_apply c a)).
Proof. intros. rewrite AesCtr_apply_eq. by apply ks_ok. Qed.

(** Decrypting with a cipher in the same position undoes encryption and leaves both ends
    of the connection in the same key-stream position. *)
Lemma AesCtr_roundtrip c a :
  bytes_ok a ->
  AesCtr_decrypt c (fst (AesCtr_encrypt c a)) = (a, snd (AesCtr_encrypt c a)).
Proof.
  intros Ha. unfold AesCtr_decrypt, AesCtr_encrypt.
  rewrite (surjective_pairing (AesCtr_apply c (fst _))). f_equal.
  - by apply AesCtr_apply_inv.
  - apply AesCtr_apply_state, AesCtr_apply_length.
Qed.

End AesCtrFacts.
#[export] Hint Rewrite @AesCtr_apply_zlen : telemt_zlen.

(** ** [AesCbc] (aes.rs:87-277) *)

Definition BLOCK_SIZE : Z := 16.

Definition xor_bytes (a b : bytes) : bytes := zip_with Z.lxor a b.

Section AesCbc.
Context `{BlockCipher}.

Record AesCbc := mkAesCbc { cbc_key : bytes; cbc_iv : bytes }.

Definition AesCbc_from_slices (key iv : bytes) : result ProxyError AesCbc :=
  if negb (zlen key =? 32) then Err (PE_InvalidKeyLength 32 (zlen key))
  else if negb (zlen iv =? 16) then Err (PE_InvalidKeyLength 16 (zlen iv))
  else Ok {| cbc_key := key; cbc_iv := iv |}.

(** [xor_blocks]: the fixed loop [for i in 0..16 { result[i] = a[i] ^ b[i] }]. *)
Definition xor_blocks (a b : bytes) : bytes := xor_bytes (take 16 a) (take 16 b).

Definition cbc_misaligned (data : bytes) : ProxyError :=
  PE_Crypto "CBC data must be aligned to 16 bytes, got {}" [zlen data].

(** The block loop of [encrypt]: [fuel] counts blocks. *)
Fixpoint cbc_encrypt_loop (fuel : nat) (key prev data : bytes) : bytes :=
  match fuel with
  | O => []
  | S fuel =>
      let plaintext := take 16 data in
      let xored := xor_blocks plaintext prev in
      let ciphertext := aes_encrypt_block key xored in
      ciphertext ++ cbc_encrypt_loop fuel key ciphertext (drop 16 data)
  end.

Fixpoint cbc_decrypt_loop (fuel : nat) (key prev data : bytes) : bytes :=
  match fuel with
  | O => []
  | S fuel =>
      let ciphertext := take 16 data in
      let decrypted := aes_decrypt_block key ciphertext in
      let plaintext := xor_blocks decrypted prev in
      plaintext ++ cbc_decrypt_loop fuel key ciphertext (drop 16 data)
  end.

Definition blocks_of (data : bytes) : nat := Z.to_nat (zlen data / BLOCK_SIZE).

Definition AesCbc_encrypt (c : AesCbc) (data : bytes) : result ProxyError bytes :=
  if negb (is_multiple_of (zlen data) BLOCK_SIZE) then Err (cbc_misaligned data)
  else if zlen data =? 0 then Ok []
  else Ok (cbc_encrypt_loop (blocks_of data) (cbc_key c) (cbc_iv c) data).

Definition AesCbc_decrypt (c : AesCbc) (data : bytes) : result ProxyError bytes :=
  if negb (is_multiple_of (zlen data) BLOCK_SIZE) then Err (cbc_misaligned data)
  else if zlen data =? 0 then Ok []
  else Ok (cbc_decrypt_loop (blocks_of data) (cbc_key c) (cbc_iv c) data).

(** The in-place loops index [data] by the offset [i] of the current block and overwrite
    that block; [n] counts the blocks left. *)
Fixpoint cbc_encrypt_in_place_loop (n : nat) (i : Z) (key prev data : bytes) : bytes :=
  match n with
  | O => data
  | S n =>
      let block := slice data i (i + BLOCK_SIZE) in
      let xored := xor_bytes block (take 16 prev) in
      let block_array := aes_encrypt_block key xored in
      cbc_encrypt_in_place_loop n (i + BLOCK_SIZE) key block_array (splice data i block_array)
  end.

Definition AesCbc_encrypt_in_place (c : AesCbc) (data : bytes) : result ProxyError bytes :=
  if negb (is_multiple_of (zlen data) BLOCK_SIZE) then Err (cbc_misaligned data)
  else if zlen data =? 0 then Ok data
  else Ok (cbc_encrypt_in_place_loop (blocks_of data) 0 (cbc_key c) (cbc_iv c) data).

Fixpoint cbc_decrypt_in_place_loop (n : nat) (i : Z) (key prev data : bytes) : bytes :=
  match n with
  | O => data
  | S n =>
      let current_ciphertext := slice data i (i + BLOCK_SIZE) in
      let block_array := aes_decrypt_block key current_ciphertext in
      let block := xor_bytes block_array (take 16 prev) in
      cbc_decrypt_in_place_loop n (i + BLOCK_SIZE) key current_ciphertext (splice data i block)
  end.

Definition AesCbc_decrypt_in_place (c : AesCbc) (data : bytes) : result ProxyError bytes :=
  if negb (is_multiple_of (zlen data) BLOCK_SIZE) then Err (cbc_misaligned data)
  else if zlen data =? 0 then Ok data
  else Ok (cbc_decrypt_in_place_loop (blocks_of data) 0 (cbc_key c) (cbc_iv c) data).

End AesCbc.

(** ** Facts on CBC *)

Lemma lxor_byte a b : is_byte a -> is_byte b -> is_byte (Z.lxor a b).
Proof.
  unfold is_byte. intros Ha Hb.
  assert (0 <= Z.lxor a b) by (apply Z.lxor_nonneg; lia).
  split; [done|]. destruct (Z.eq_dec (Z.lxor a b) 0) as [->|Hne]; [lia|].
  change 256 with (2 ^ 8). apply Z.log2_lt_pow2; [lia|].
  eapply Z.le_lt_trans; [apply Z.log2_lxor; lia|].
  apply Z.max_lub_lt.
  - destruct (Z.eq_dec a 0) as [->|]; [cbn; lia|]. apply Z.log2_lt_pow2; lia.
  - destruct (Z.eq_dec b 0) as [->|]; [cbn; lia|]. apply Z.log2_lt_pow2; lia.
Qed.

Lemma xor_bytes_length a b : length a = length b -> length (xor_bytes a b) = length a.
Proof. intros. unfold xor_bytes. rewrite length_zip_with. lia. Qed.

Lemma xor_bytes_ok a b : bytes_ok a -> bytes_ok b -> bytes_ok (xor_bytes a b).
Proof.
  unfold bytes_ok, xor_bytes. intros Ha. revert b.
  induction Ha; intros k Hk; cbn; [constructor|].
  destruct Hk; constructor; auto using lxor_byte.
Qed.

Lemma xor_bytes_cancel a b : length a = length b -> xor_bytes (xor_bytes a b) b = a.
Proof.
  unfold xor_bytes. revert b. induction a as [|x a IH]; intros [|y b]; cbn; try done.
  intros [= ?]. rewrite IH by done. f_equal.
  by rewrite Z.lxor_assoc, Z.lxor_nilpotent, Z.lxor_0_r.
Qed.

Lemma xor_bytes_comm a b : xor_bytes a b = xor_bytes b a.
Proof.
  unfold xor_bytes. revert b. induction a as [|x a IH]; intros [|y b]; cbn; try done.
  by rewrite IH, Z.lxor_comm.
Qed.

Lemma xor_blocks_xor a b :
  length a = 16%nat -> length b = 16%nat -> xor_blocks a b = xor_bytes a b.
Proof. intros. unfold xor_blocks. by rewrite !take_ge by lia. Qed.

Lemma xor_blocks_ok a b : block_ok a -> block_ok b -> block_ok (xor_blocks a b).
Proof.
  intros [La Ha] [Lb Hb]. rewrite xor_blocks_xor by done. split.
  - rewrite xor_bytes_length; congruence.
  - by apply xor_bytes_ok.
Qed.

#[export] Hint Resolve xor_blocks_ok aes_enc_block_ok aes_dec_block_ok : telemt.

(** Data made of [n] whole blocks. *)
Definition nblocks (n : nat) (data : bytes) : Prop :=
  length data = (16 * n)%nat /\ bytes_ok data.

Lemma nblocks_S n data :
  nblocks (S n) data ->
  data = take 16 data ++ drop 16 data /\ block_ok (take 16 data) /\ nblocks n (drop 16 data).
Proof.
  intros [L Hok]. split; [by rewrite take_drop|]. unfold nblocks, block_ok, bytes_ok in *.
  repeat split; rewrite ?length_take, ?length_drop; try lia.
  - by apply Forall_take.
  - by apply Forall_drop.
Qed.

Lemma nblocks_of data :
  bytes_ok data -> is_multiple_of (zlen data) BLOCK_SIZE = true -> nblocks (blocks_of data) data.
Proof.
  intros Hok Hm. split; [|done]. apply is_multiple_of_true in Hm; [|by unfold BLOCK_SIZE].
  unfold blocks_of, BLOCK_SIZE, zlen in *.
  pose proof (Z.div_mod (Z.of_nat (length data)) 16 ltac:(lia)).
  pose proof (Z.div_pos (Z.of_nat (length data)) 16). lia.
Qed.

Section CbcFacts.
Context `{BlockCipherOk}.

Lemma cbc_encrypt_loop_blocks n key prev data :
  block_ok prev -> nblocks n data -> nblocks n (cbc_encrypt_loop n key prev data).
Proof.
  revert prev data. induction n as [|n IH]; intros prev data Hp Hd; cbn [cbc_encrypt_loop].
  - split; [done|constructor].
  - destruct (nblocks_S _ _ Hd) as (_ & Hb & Hr).
    assert (block_ok (aes_encrypt_block key (xor_blocks (take 16 data) prev))) as [L Hc]
      by eauto with telemt.
    destruct (IH (aes_encrypt_block key (xor_blocks (take 16 data) prev)) _ (conj L Hc) Hr).
    split; [rewrite length_app; lia | by apply bytes_ok_app].
Qed.

Lemma cbc_loop_roundtrip n key prev data :
  block_ok prev -> nblocks n data ->
  cbc_decrypt_loop n key prev (cbc_encrypt_loop n key prev data) = data.
Proof.
  revert prev data. induction n as [|n IH]; intros prev data Hp Hd;
    cbn [cbc_encrypt_loop cbc_decrypt_loop].
  - destruct Hd as [L _]. by destruct data.
  - destruct (nblocks_S _ _ Hd) as (E & Hb & Hr).
    set (c := aes_encrypt_block key (xor_blocks (take 16 data) prev)).
    assert (block_ok c) as Hc by (unfold c; eauto with telemt).
    rewrite take_app_length', drop_app_length' by (destruct Hc; done).
    rewrite IH by done. unfold c. rewrite aes_dec_enc by eauto with telemt.
    rewrite E at 3. f_equal. destruct Hb, Hp.
    rewrite !xor_blocks_xor; rewrite ?xor_blocks_xor, ?xor_bytes_length; try congruence.
    apply xor_bytes_cancel. congruence.
Qed.

Lemma cbc_encrypt_in_place_eq n key prev pre rest :
  block_ok prev -> nblocks n rest ->
  cbc_encrypt_in_place_loop n (zlen pre) key prev (pre ++ rest) =
    pre ++ cbc_encrypt_loop n key prev rest.
Proof.
  revert prev pre rest. induction n as [|n IH]; intros prev pre rest Hp Hd;
    cbn [cbc_encrypt_in_place_loop cbc_encrypt_loop].
  - destruct Hd as [L _]. by destruct rest.
  - destruct (nblocks_S _ _ Hd) as (E & Hb & Hr).
    assert (slice (pre ++ rest) (zlen pre) (zlen pre + BLOCK_SIZE) = take 16 rest) as ->.
    { unfold slice. rewrite zdrop_app by done. unfold ztake, BLOCK_SIZE. f_equal. lia. }
    set (c := aes_encrypt_block key (xor_blocks (take 16 rest) prev)).
    assert (block_ok c) as Hc by (unfold c; eauto with telemt).
    assert (aes_encrypt_block key (xor_bytes (take 16 rest) (take 16 prev)) = c) as ->.
    { unfold c, xor_blocks. by rewrite take_take. }
    assert (splice (pre ++ rest) (zlen pre) c = (pre ++ c) ++ drop 16 rest) as ->.
    { unfold splice. rewrite ztake_app, zdrop_app_ge, <-app_assoc; unfold zlen; [|lia|done].
      do 2 f_equal. unfold zdrop. f_equal. destruct Hc. lia. }
    replace (zlen pre + BLOCK_SIZE) with (zlen (pre ++ c))
      by (rewrite zlen_app; unfold zlen, BLOCK_SIZE; destruct Hc; lia).
    rewrite IH by done. by rewrite <-app_assoc.
Qed.

Lemma cbc_decrypt_in_place_eq n key prev pre rest :
  block_ok prev -> nblocks n rest ->
  cbc_decrypt_in_place_loop n (zlen pre) key prev (pre ++ rest) =
    pre ++ cbc_decrypt_loop n key prev rest.
Proof.
  revert prev pre rest. induction n as [|n IH]; intros prev pre rest Hp Hd;
    cbn [cbc_decrypt_in_place_loop cbc_decrypt_loop].
  - destruct Hd as [L _]. by destruct rest.
  - destruct (nblocks_S _ _ Hd) as (E & Hb & Hr).
    assert (slice (pre ++ rest) (zlen pre) (zlen pre + BLOCK_SIZE) = take 16 rest) as ->.
    { unfold slice. rewrite zdrop_app by done. unfold ztake, BLOCK_SIZE. f_equal. lia. }
    assert (block_ok (aes_decrypt_block key (take 16 rest))) as Hdec by eauto with telemt.
    assert (xor_bytes (aes_decrypt_block key (take 16 rest)) (take 16 prev) =
            xor_blocks (aes_decrypt_block key (take 16 rest)) prev) as ->.
    { unfold xor_blocks. destruct Hdec. by rewrite (take_ge (aes_decrypt_block _ _)) by lia. }
    set (c := xor_blocks (aes_decrypt_block key (take 16 rest)) prev).
    assert (block_ok c) as Hc by (unfold c; eauto with telemt).
    assert (splice (pre ++ rest) (zlen pre) c = (pre ++ c) ++ drop 16 rest) as ->.
    { unfold splice. rewrite ztake_app, zdrop_app_ge, <-app_assoc; unfold zlen; [|lia|done].
      do 2 f_equal. unfold zdrop. f_equal. destruct Hc. lia. }
    replace (zlen pre + BLOCK_SIZE) with (zlen (pre ++ c))
      by (rewrite zlen_app; unfold zlen, BLOCK_SIZE; destruct Hc; lia).
    rewrite IH by done. by rewrite <-app_assoc.
Qed.

(** Encrypting a longer message is encrypting its first part and continuing from the last
    ciphertext block, which is how the ME connection carries its IV between frames. *)
Lemma cbc_encrypt_loop_app n m key prev a b :
  block_ok prev -> nblocks n a -> nblocks m b ->
  cbc_encrypt_loop (n + m) key prev (a ++ b) =
    cbc_encrypt_loop n key prev a ++
    cbc_encrypt_loop m key
      (if decide (n = 0%nat) then prev else drop (16 * (n - 1)) (cbc_encrypt_loop n key prev a)) b.
Proof.
  intros Hp Ha Hb. revert prev a Hp Ha. induction n as [|n IH]; intros prev a Hp Ha.
  - destruct Ha as [L _]. destruct a; [|done]. cbn. done.
  - destruct (nblocks_S _ _ Ha) as (E & Hblk & Hr). destruct Ha as [L _].
    cbn [cbc_encrypt_loop Nat.add]. rewrite take_app_le, drop_app_le by lia.
    set (c := aes_encrypt_block key (xor_blocks (take 16 a) prev)).
    assert (block_ok c) as Hc by (unfold c; eauto with telemt).
    rewrite IH by done. rewrite <-app_assoc. do 3 f_equal.
    destruct (decide (n = 0%nat)) as [->|Hn]; cbn [decide].
    + cbn. by rewrite app_nil_r.
    + rewrite decide_False by done. destruct Hc as [Lc _].
      rewrite drop_app_ge by lia. f_equal. lia.
Qed.

(** ** Whole messages *)

(** The IV after a message: its last ciphertext block, or the old IV for an empty message. *)
Definition next_iv (iv ciphertext : bytes) : bytes :=
  if 16 <=? zlen ciphertext then zdrop (zlen ciphertext - 16) ciphertext else iv.

Definition cbc_enc (key iv data : bytes) : bytes := cbc_encrypt_loop (blocks_of data) key iv data.
Definition cbc_dec (key iv data : bytes) : bytes := cbc_decrypt_loop (blocks_of data) key iv data.

Definition aligned (data : bytes) : Prop := zlen data mod 16 = 0 /\ bytes_ok data.

Lemma aligned_nblocks data : aligned data -> nblocks (blocks_of data) data.
Proof. intros [Ha Hok]. apply nblocks_of; [done|]. by apply is_multiple_of_true. Qed.

Lemma nblocks_blocks_of n data : nblocks n data -> blocks_of data = n /\ aligned data.
Proof.
  intros [L Hok]. unfold blocks_of, aligned, BLOCK_SIZE, zlen. rewrite L.
  replace (Z.of_nat (16 * n)) with (Z.of_nat n * 16) by lia. rewrite Z.div_mul, Z.mod_mul by lia.
  split; [lia|done].
Qed.

Lemma nblocks_app n m a b : nblocks n a -> nblocks m b -> nblocks (n + m) (a ++ b).
Proof. intros [La Ha] [Lb Hb]. split; [rewrite length_app; lia|by apply bytes_ok_app]. Qed.

Lemma aligned_app a b : aligned a -> aligned b -> aligned (a ++ b).
Proof.
  intros Ha%aligned_nblocks Hb%aligned_nblocks. by eapply nblocks_blocks_of, nblocks_app.
Qed.

Lemma cbc_enc_aligned key iv data :
  block_ok iv -> aligned data -> aligned (cbc_enc key iv data) /\ zlen (cbc_enc key iv data) = zlen data.
Proof.
  intros Hiv Hd%aligned_nblocks. unfold cbc_enc.
  pose proof (cbc_encrypt_loop_blocks (blocks_of data) key iv data Hiv Hd) as He.
  split; [by eapply nblocks_blocks_of|]. unfold zlen. destruct He, Hd. lia.
Qed.

Lemma cbc_decrypt_loop_blocks n key prev data :
  block_ok prev -> nblocks n data -> nblocks n (cbc_decrypt_loop n key prev data).
Proof.
  revert prev data. induction n as [|n IH]; intros prev data Hp Hd; cbn [cbc_decrypt_loop].
  - split; [done|constructor].
  - destruct (nblocks_S _ _ Hd) as (_ & Hb & Hr).
    assert (block_ok (xor_blocks (aes_decrypt_block key (take 16 data)) prev)) as [L Hc] by eauto with telemt.
    destruct (IH (take 16 data) _ Hb Hr). split; [rewrite length_app; lia | by apply bytes_ok_app].
Qed.

Lemma cbc_dec_aligned key iv data :
  block_ok iv -> aligned data -> aligned (cbc_dec key iv data) /\ zlen (cbc_dec key iv data) = zlen data.
Proof.
  intros Hiv Hd%aligned_nblocks. unfold cbc_dec.
  pose proof (cbc_decrypt_loop_blocks (blocks_of data) key iv data Hiv Hd) as He.
  split; [by eapply nblocks_blocks_of|]. unfold zlen. destruct He, Hd. lia.
Qed.

Lemma next_iv_ok iv data : block_ok iv -> aligned data -> block_ok (next_iv iv data).
Proof.
  intros Hiv [Ha Hok]. unfold next_iv. destruct (Z.leb_spec 16 (zlen data)); [|done]. split.
  - apply (zlen_length _ 16). rewrite zlen_zdrop. lia.
  - by apply Forall_drop.
Qed.

Lemma next_iv_loop n key iv data :
  block_ok iv -> nblocks n data ->
  (if decide (n = 0%nat) then iv else drop (16 * (n - 1)) (cbc_encrypt_loop n key iv data)) =
    next_iv iv (cbc_encrypt_loop n key iv data).
Proof.
  intros Hiv Hd. destruct (cbc_encrypt_loop_blocks n key iv data Hiv Hd) as [L _].
  unfold next_iv, zlen, zdrop. rewrite L. destruct (decide (n = 0%nat)) as [->|Hn]; [done|].
  destruct (Z.leb_spec 16 (Z.of_nat (16 * n))); [|lia]. f_equal. lia.
Qed.

(** A message may be encrypted, and decrypted, in pieces of whole blocks. *)
Lemma cbc_enc_app key iv a b :
  block_ok iv -> aligned a -> aligned b ->
  cbc_enc key iv (a ++ b) = cbc_enc key iv a ++ cbc_enc key (next_iv iv (cbc_enc key iv a)) b.
Proof.
  intros Hiv Ha%aligned_nblocks Hb%aligned_nblocks. unfold cbc_enc.
  destruct (nblocks_blocks_of _ _ (nblocks_app _ _ _ _ Ha Hb)) as [-> _].
  rewrite cbc_encrypt_loop_app by done. by rewrite next_iv_loop.
Qed.

Lemma cbc_decrypt_loop_app n m key prev a b :
  nblocks n a -> nblocks m b ->
  cbc_decrypt_loop (n + m) key prev (a ++ b) =
    cbc_decrypt_loop n key prev a ++ cbc_decrypt_loop m key (next_iv prev a) b.
Proof.
  revert prev a. induction n as [|n IH]; intros prev a Ha Hb.
  - destruct Ha as [L _]. by destruct a.
  - destruct (nblocks_S _ _ Ha) as (E & Hblk & Hr). destruct Ha as [L _].
    cbn [cbc_decrypt_loop Nat.add]. rewrite take_app_le, drop_app_le by lia. rewrite IH by done.
    rewrite <-app_assoc. do 3 f_equal. unfold next_iv, zlen, zdrop. destruct Hblk as [Lb _].
    rewrite length_drop, L. destruct (Z.leb_spec 16 (Z.of_nat (16 * S n))); [|lia].
    destruct (Z.leb_spec 16 (Z.of_nat (16 * S n - 16))).
    + rewrite drop_drop. f_equal. lia.
    + assert (n = 0%nat) as -> by lia. by rewrite take_ge by lia.
Qed.

Lemma cbc_dec_app key iv a b :
  aligned a -> aligned b ->
  cbc_dec key iv (a ++ b) = cbc_dec key iv a ++ cbc_dec key (next_iv iv a) b.
Proof.
  intros Ha%aligned_nblocks Hb%aligned_nblocks. unfold cbc_dec.
  destruct (nblocks_blocks_of _ _ (nblocks_app _ _ _ _ Ha Hb)) as [-> _]. by apply cbc_decrypt_loop_app.
Qed.

Lemma cbc_dec_enc key iv data : block_ok iv -> aligned data -> cbc_dec key iv (cbc_enc key iv data) = data.
Proof.
  intros Hiv Hd%aligned_nblocks. unfold cbc_dec, cbc_enc.
  destruct (nblocks_blocks_of _ _ (cbc_encrypt_loop_blocks _ key iv _ Hiv Hd)) as [-> _].
  by apply cbc_loop_roundtrip.
Qed.

Lemma aligned_multiple data : aligned data -> is_multiple_of (zlen data) BLOCK_SIZE = true.
Proof. intros [Ha _]. by apply is_multiple_of_true. Qed.

Lemma blocks_of_nil data : zlen data = 0 -> data = [] /\ blocks_of data = 0%nat.
Proof. intros E. apply zlen_zero_nil in E. by subst. Qed.

Lemma next_iv_app iv a b : aligned b -> next_iv (next_iv iv a) b = next_iv iv (a ++ b).
Proof.
  intros [Hb _]. pose proof (zlen_nonneg a). pose proof (zlen_nonneg b). unfold next_iv. rewrite zlen_app.
  destruct (Z.leb_spec 16 (zlen b)).
  - destruct (Z.leb_spec 16 (zlen a + zlen b)); [|lia]. rewrite zdrop_app_ge by lia. f_equal. lia.
  - assert (b = []) as -> by (apply zlen_zero_nil; rewrite Z.mod_small in Hb; lia).
    change (zlen (@nil Z)) with 0. rewrite Z.add_0_r, app_nil_r. done.
Qed.

Lemma AesCbc_encrypt_ok c data :
  block_ok (cbc_iv c) -> aligned data ->
  AesCbc_encrypt c data = Ok (cbc_enc (cbc_key c) (cbc_iv c) data) /\
  AesCbc_encrypt_in_place c data = Ok (cbc_enc (cbc_key c) (cbc_iv c) data).
Proof.
  intros Hiv Ha. unfold AesCbc_encrypt, AesCbc_encrypt_in_place. rewrite (aligned_multiple _ Ha). cbn [negb].
  unfold cbc_enc. destruct (Z.eqb_spec (zlen data) 0) as [Hz|_].
  { destruct (blocks_of_nil _ Hz) as [-> ->]. done. }
  split; [done|]. f_equal. by apply (cbc_encrypt_in_place_eq _ _ _ []), aligned_nblocks.
Qed.

Lemma AesCbc_decrypt_ok c data :
  block_ok (cbc_iv c) -> aligned data ->
  AesCbc_decrypt c data = Ok (cbc_dec (cbc_key c) (cbc_iv c) data) /\
  AesCbc_decrypt_in_place c data = Ok (cbc_dec (cbc_key c) (cbc_iv c) data).
Proof.
  intros Hiv Ha. unfold AesCbc_decrypt, AesCbc_decrypt_in_place. rewrite (aligned_multiple _ Ha). cbn [negb].
  unfold cbc_dec. destruct (Z.eqb_spec (zlen data) 0) as [Hz|_].
  { destruct (blocks_of_nil _ Hz) as [-> ->]. done. }
  split; [done|]. f_equal. by apply (cbc_decrypt_in_place_eq _ _ _ []), aligned_nblocks.
Qed.

(** CBC decryption inverts encryption on whole blocks, and both work in pieces: a message
    encrypted in two parts, the second with the last ciphertext block of the first as its IV,
    is the encryption of the whole, and decrypts to the whole. *)
Theorem aes_cbc_roundtrip c a b :
  block_ok (cbc_iv c) -> aligned a -> aligned b ->
  exists ca cb,
    AesCbc_encrypt c a = Ok ca /\ AesCbc_encrypt (mkAesCbc (cbc_key c) (next_iv (cbc_iv c) ca)) b = Ok cb /\
    AesCbc_encrypt c (a ++ b) = Ok (ca ++ cb) /\ AesCbc_decrypt c (ca ++ cb) = Ok (a ++ b) /\
    zlen (ca ++ cb) = zlen (a ++ b).
Proof.
  intros Hiv Ha Hb. destruct (cbc_enc_aligned (cbc_key c) (cbc_iv c) a Hiv Ha) as [Hca _].
  pose proof (aligned_app a b Ha Hb) as Hab.
  destruct (cbc_enc_aligned (cbc_key c) (cbc_iv c) (a ++ b) Hiv Hab) as [Hcab Hlen].
  eexists _, _. split; [by apply AesCbc_encrypt_ok|]. split; [apply AesCbc_encrypt_ok; [by apply next_iv_ok|done]|].
  cbn [cbc_key cbc_iv]. rewrite <-cbc_enc_app by done.
  split; [by apply AesCbc_encrypt_ok|]. split; [|done].
  destruct (AesCbc_decrypt_ok c _ Hiv Hcab) as [-> _]. by rewrite cbc_dec_enc.
Qed.

(** The in-place CBC routines compute exactly what the allocating ones compute, errors
    included. *)
Theorem aes_cbc_in_place_equivalent c data :
  block_ok (cbc_iv c) -> bytes_ok data ->
  AesCbc_encrypt_in_place c data = AesCbc_encrypt c data /\
  AesCbc_decrypt_in_place c data = AesCbc_decrypt c data.
Proof.
  intros Hiv Hok. destruct (is_multiple_of (zlen data) BLOCK_SIZE) eqn:Em.
  - assert (aligned data) as Ha by (split; [by apply is_multiple_of_true|done]).
    destruct (AesCbc_encrypt_ok c data Hiv Ha) as [-> ->]. by destruct (AesCbc_decrypt_ok c data Hiv Ha) as [-> ->].
  - unfold AesCbc_encrypt_in_place, AesCbc_encrypt, AesCbc_decrypt_in_place, AesCbc_decrypt. by rewrite Em.
Qed.

End CbcFacts.

(** ** Concrete instances

    Small executable instances of the interfaces.  They are not the real primitives: they
    show that the laws can be met together, and they let statements be evaluated on
    concrete inputs. *)

Module Demo.

Fixpoint demo_xor (pos : Z) (data : bytes) : bytes :=
  match data with
  | [] => []
  | b :: data => Z.lxor b ((7 * pos + 3) mod 256) :: demo_xor (pos + 1) data
  end.

#[export] Instance DemoCipher : StreamCipher := {|
  Aes256Ctr := Z;
  Aes256Ctr_new key iv := be_val iv + le_val key;
  apply_keystream pos data := (demo_xor pos data, pos + zlen data)
|}.

Lemma demo_xor_app pos a b :
  demo_xor pos (a ++ b) = demo_xor pos a ++ demo_xor (pos + zlen a) b.
Proof.
  revert pos. induction a as [|x a IH]; intros; cbn [demo_xor app].
  - change (zlen (@nil Z)) with 0. by rewrite Z.add_0_r.
  - rewrite IH, zlen_cons. do 3 f_equal. lia.
Qed.

Lemma demo_xor_inv pos a : demo_xor pos (demo_xor pos a) = a.
Proof.
  revert pos. induction a as [|x a IH]; intros; cbn [demo_xor]; [done|].
  by rewrite IH, Z.lxor_assoc, Z.lxor_nilpotent, Z.lxor_0_r.
Qed.

Lemma demo_xor_length pos a : length (demo_xor pos a) = length a.
Proof. revert pos. induction a; intros; cbn; auto. Qed.

#[export] Instance DemoCipherOk : StreamCipherOk.
Proof.
  constructor; cbn.
  - intros. change (zlen (@nil Z)) with 0. by rewrite Z.add_0_r.
  - intros s a b. rewrite demo_xor_app, zlen_app. f_equal. lia.
  - apply demo_xor_length.
  - intros s a b E. unfold zlen. by rewrite E.
  - intros. apply demo_xor_inv.
  - intros s a Ha. revert s. induction Ha as [|x l Hx Hl IH]; intros s; cbn; [constructor|]. constructor; [|apply IH].
    apply lxor_byte; [done|]. unfold is_byte. apply Z.mod_pos_bound. lia.
Qed.

#[export] Instance DemoBlock : BlockCipher := {|
  aes_encrypt_block key b := map (fun x => (x + le_val key) mod 256) b;
  aes_decrypt_block key b := map (fun x => (x - le_val key) mod 256) b
|}.

#[export] Instance DemoBlockOk : BlockCipherOk.
Proof.
  assert (forall (f : Z -> Z) b, block_ok b -> block_ok (map (fun x => f x mod 256) b)) as Hmap.
  { intros f b [L Hb]. split; [by rewrite length_map|]. unfold bytes_ok. clear L.
    induction Hb; cbn; [constructor|]. constructor; [apply Z.mod_pos_bound; lia|done]. }
  constructor; cbn; intros k b Hb; [by apply Hmap|by apply Hmap|].
  destruct Hb as [_ Hb]. induction Hb as [|x l Hx Hl IH]; cbn; [done|]. rewrite IH. f_equal.
  rewrite Zminus_mod_idemp_l. unfold is_byte in Hx.
  replace (x + le_val k - le_val k) with x by lia. by apply Z.mod_small.
Qed.

#[export] Instance DemoDigests : Digests := {|
  sha256 d := le_bytes 32 (le_val d + 17 * zlen d);
  sha256_hmac k d := le_bytes 32 (3 * le_val k + le_val d + zlen d);
  sha1 d := le_bytes 20 (le_val d + 5);
  md5 d := le_bytes 16 (le_val d + 9);
  crc32 d := (31 * le_val d + 7) mod 2 ^ 32;
  crc32c d := (37 * le_val d + 11) mod 2 ^ 32
|}.

#[export] Instance DemoDigestsOk : DigestsOk.
Proof.
  constructor; cbn [sha256 sha256_hmac sha1 md5 crc32 crc32c DemoDigests]; intros;
    try apply le_bytes_length; try apply le_bytes_ok; apply Z.mod_pos_bound; lia.
Qed.

End Demo.

Import Demo.

