(* ===== verification/Random.v ===== *)
(** * Randomness: the interface the protocol code draws from, and [crypto/random.rs]

    [Rng] is what a client of [SecureRandom] may call and [RngOk] what it may rely on; the
    encoders of the other files are stated over any such generator.  [SecureRandom] is then
    modelled over the [rand] crate's [StdRng] (a parameter) and discharges the interface. *)

From S2P Require Import Prelude Crypto.

(** ** The interface *)

Class Rng (R : Type) := {
  rng_range : R -> Z -> Z * R;
  rng_bytes : R -> Z -> bytes * R
}.

Class RngOk (R : Type) `{Rng R} := {
  rng_range_bound : forall r m, 0 < m -> 0 <= fst (rng_range r m) < m;
  rng_bytes_len : forall r n, 0 <= n -> zlen (fst (rng_bytes r n)) = n;
  rng_bytes_ok : forall r n, bytes_ok (fst (rng_bytes r n))
}.

(** ** [rand::rngs::StdRng] *)

Class StdRngOps := {
  StdRng : Type;
  fill_bytes : StdRng -> Z -> bytes * StdRng;
  gen_range : StdRng -> Z -> Z * StdRng
}.

Class StdRngOk `{StdRngOps} := {
  fill_bytes_len : forall r n, 0 <= n -> zlen (fst (fill_bytes r n)) = n;
  fill_bytes_ok : forall r n, bytes_ok (fst (fill_bytes r n));
  gen_range_bound : forall r m, 0 < m -> 0 <= fst (gen_range r m) < m
}.

(** A concrete generator, for evaluation: a counter. *)
Module DemoRng.

#[export] Instance DemoStdRng : StdRngOps := {|
  StdRng := Z;
  fill_bytes r n := (zrepeat n (r mod 256), r + 1);
  gen_range r m := (r mod m, r + 1)
|}.

#[export] Instance DemoStdRngOk : StdRngOk.
Proof.
  constructor; cbn; intros r n.
  - intros. rewrite zlen_zrepeat. lia.
  - apply Forall_replicate. unfold is_byte. apply Z.mod_pos_bound. lia.
  - intros. apply Z.mod_pos_bound. lia.
Qed.

#[export] Instance CounterRng : Rng Z := {|
  rng_range r m := (r mod m, r + 1);
  rng_bytes r n := (zrepeat n (r mod 256), r + 1)
|}.

#[export] Instance CounterRngOk : RngOk Z.
Proof.
  constructor; cbn; intros r n.
  - intros. apply Z.mod_pos_bound. lia.
  - intros. rewrite zlen_zrepeat. lia.
  - apply Forall_replicate. unfold is_byte. apply Z.mod_pos_bound. lia.
Qed.

End DemoRng.

(** ** [SecureRandom] (random.rs:13-145) *)

Section SecureRandom.
Context `{StreamCipher} `{StdRngOps}.

Record SecureRandomInner := mkSecureRandom {
  sr_rng : StdRng;
  sr_cipher : AesCtr;
  sr_buffer : bytes
}.

Definition CHUNK_SIZE : Z := 512.

(** [if inner.buffer.is_empty() { .. }] of [fill]. *)
Definition sr_refill (inner : SecureRandomInner) : SecureRandomInner :=
  match sr_buffer inner with
  | [] =>
      let '(chunk, rng) := fill_bytes (sr_rng inner) CHUNK_SIZE in
      let '(chunk, cipher) := AesCtr_apply (sr_cipher inner) chunk in
      {| sr_rng := rng; sr_cipher := cipher; sr_buffer := sr_buffer inner ++ chunk |}
  | _ => inner
  end.

Fixpoint sr_fill_loop (fuel : nat) (inner : SecureRandomInner) (written : Z) (out : bytes)
    : option (bytes * SecureRandomInner) :=
  match fuel with
  | O => None
  | S fuel =>
      if written <? zlen out then
        let inner := sr_refill inner in
        let take := Z.min (zlen out - written) (zlen (sr_buffer inner)) in
        let out := splice out written (ztake take (sr_buffer inner)) in
        let inner := {| sr_rng := sr_rng inner; sr_cipher := sr_cipher inner;
                        sr_buffer := zdrop take (sr_buffer inner) |} in
        sr_fill_loop fuel inner (written + take) out
      else Some (out, inner)
  end.

(** Every turn writes at least one byte, so one turn per byte is enough. *)
Definition sr_fill (inner : SecureRandomInner) (out : bytes) : option (bytes * SecureRandomInner) :=
  sr_fill_loop (S (length out)) inner 0 out.

Definition sr_bytes (inner : SecureRandomInner) (len : Z) : bytes * SecureRandomInner :=
  let out := zrepeat len 0 in
  match sr_fill inner out with
  | Some r => r
  | None => (out, inner)
  end.

Definition sr_range (inner : SecureRandomInner) (max : Z) : Z * SecureRandomInner :=
  if max =? 0 then (0, inner)
  else
    let '(x, rng) := gen_range (sr_rng inner) max in
    (x, {| sr_rng := rng; sr_cipher := sr_cipher inner; sr_buffer := sr_buffer inner |}).

(** [result |= (b as u64) << (i * 8)] over the drawn bytes. *)
Fixpoint sr_bits_loop (i : Z) (bs : bytes) (result : Z) : Z :=
  match bs with
  | [] => result
  | b :: bs =>
      if 8 <=? i then result
      else sr_bits_loop (i + 1) bs (Z.lor result (u64 (Z.shiftl b (i * 8))))
  end.

Definition sr_bits (inner : SecureRandomInner) (k : Z) : Z * SecureRandomInner :=
  if k =? 0 then (0, inner)
  else
    let bytes_needed := (k + 7) / 8 in
    let '(bs, inner) := sr_bytes inner (Z.min bytes_needed 8) in
    let result := sr_bits_loop 0 bs 0 in
    let result := if k <? 64 then Z.land result (Z.shiftl 1 k - 1) else result in
    (result, inner).

Definition sr_choose {T} (inner : SecureRandomInner) (sl : list T) : option T * SecureRandomInner :=
  match sl with
  | [] => (None, inner)
  | _ =>
      let '(i, inner) := sr_range inner (zlen sl) in
      (zget sl i, inner)
  end.

(** [slice.swap(i, j)] *)
Definition swap {T} (sl : list T) (i j : nat) : list T :=
  match sl !! i, sl !! j with
  | Some x, Some y => <[j := x]> (<[i := y]> sl)
  | _, _ => sl
  end.

(** [for i in (1..slice.len()).rev() { let j = gen_range(0..=i); slice.swap(i, j) }] *)
Fixpoint sr_shuffle_loop {T} (i : nat) (rng : StdRng) (sl : list T) : list T * StdRng :=
  match i with
  | O => (sl, rng)
  | S i' =>
      let '(j, rng) := gen_range rng (Z.of_nat i + 1) in
      sr_shuffle_loop i' rng (swap sl i (Z.to_nat j))
  end.

Definition sr_shuffle {T} (inner : SecureRandomInner) (sl : list T) : list T * SecureRandomInner :=
  let '(sl', rng) := sr_shuffle_loop (length sl - 1) (sr_rng inner) sl in
  (sl', {| sr_rng := rng; sr_cipher := sr_cipher inner; sr_buffer := sr_buffer inner |}).

End SecureRandom.

(** ** Facts *)

Section SecureRandomFacts.
Context `{StreamCipherOk} `{StdRngOk}.

Definition sr_ok (inner : SecureRandomInner) : Prop := bytes_ok (sr_buffer inner).

#[global] Instance sr_ok_dec inner : Decision (sr_ok inner).
Proof. unfold sr_ok. apply _. Defined.

Lemma sr_refill_ok inner :
  sr_ok inner -> sr_ok (sr_refill inner) /\ 0 < zlen (sr_buffer (sr_refill inner)).
Proof.
  unfold sr_refill, sr_ok. destruct (sr_buffer inner) as [|b l] eqn:E.
  - intros _. pose proof (fill_bytes_len (sr_rng inner) CHUNK_SIZE ltac:(unfold CHUNK_SIZE; lia)) as L.
    pose proof (fill_bytes_ok (sr_rng inner) CHUNK_SIZE) as K.
    destruct (fill_bytes (sr_rng inner) CHUNK_SIZE) as [chunk rng]. cbn [fst] in L, K.
    rewrite (surjective_pairing (AesCtr_apply _ _)). cbn [sr_buffer app].
    split; [by apply AesCtr_apply_ok|]. rewrite AesCtr_apply_zlen, L. done.
  - intros. rewrite E. split; [done|]. rewrite zlen_cons. pose proof (zlen_nonneg l). lia.
Qed.

(** The reference generator: one byte at a time, refilling when the buffer is empty. *)
Definition sr_next (inner : SecureRandomInner) : Z * SecureRandomInner :=
  let inner := sr_refill inner in
  match sr_buffer inner with
  | [] => (0, inner)
  | b :: l => (b, {| sr_rng := sr_rng inner; sr_cipher := sr_cipher inner; sr_buffer := l |})
  end.

Fixpoint sr_stream (n : nat) (inner : SecureRandomInner) : bytes * SecureRandomInner :=
  match n with
  | O => ([], inner)
  | S n =>
      let r := sr_next inner in
      let rest := sr_stream n (snd r) in
      (fst r :: fst rest, snd rest)
  end.

Lemma sr_refill_nonempty inner b l : sr_buffer inner = b :: l -> sr_refill inner = inner.
Proof. intros E. unfold sr_refill. by rewrite E. Qed.

Lemma sr_stream_add n m inner :
  sr_stream (n + m) inner =
    (fst (sr_stream n inner) ++ fst (sr_stream m (snd (sr_stream n inner))),
     snd (sr_stream m (snd (sr_stream n inner)))).
Proof.
  revert inner. induction n as [|n IH]; intros; cbn [Nat.add sr_stream fst snd app].
  - apply surjective_pairing.
  - by rewrite IH.
Qed.

(** Inside one buffer the stream is the buffer. *)
Lemma sr_stream_buffer n inner :
  (n <= length (sr_buffer inner))%nat ->
  sr_stream n inner =
    (take n (sr_buffer inner),
     mkSecureRandom (sr_rng inner) (sr_cipher inner) (drop n (sr_buffer inner))).
Proof.
  revert inner. induction n as [|n IH]; intros inner Hn; cbn [sr_stream].
  - by destruct inner.
  - destruct (sr_buffer inner) as [|b l] eqn:E; cbn in Hn; [lia|].
    unfold sr_next. rewrite (sr_refill_nonempty _ _ _ E), E. cbn [fst snd].
    rewrite IH by (cbn; lia). done.
Qed.

Lemma sr_stream_refill n inner :
  sr_ok inner -> sr_stream (S n) (sr_refill inner) = sr_stream (S n) inner.
Proof.
  intros Hs. destruct (sr_refill_ok _ Hs) as [_ Hpos]. cbn [sr_stream]. unfold sr_next.
  destruct (sr_buffer (sr_refill inner)) as [|b l] eqn:E; [by cbn in Hpos|].
  by rewrite (sr_refill_nonempty _ _ _ E), E.
Qed.

Lemma sr_next_ok inner : sr_ok inner -> is_byte (fst (sr_next inner)) /\ sr_ok (snd (sr_next inner)).
Proof.
  intros Hs. destruct (sr_refill_ok _ Hs) as [Hs' Hpos]. unfold sr_next, sr_ok in *.
  destruct (sr_buffer (sr_refill inner)); [by cbn in Hpos|]. by inversion Hs'.
Qed.

Lemma sr_stream_ok n inner :
  sr_ok inner ->
  length (fst (sr_stream n inner)) = n /\ bytes_ok (fst (sr_stream n inner)) /\ sr_ok (snd (sr_stream n inner)).
Proof.
  revert inner. induction n as [|n IH]; intros inner Hs; cbn [sr_stream fst snd length].
  - repeat split; [constructor|done].
  - destruct (sr_next_ok _ Hs) as [Hb Hs']. destruct (IH _ Hs') as (-> & ? & ?).
    repeat split; [by constructor|done].
Qed.

(** The chunked loop of [fill] finishes and writes exactly the next bytes of the stream. *)
Lemma sr_fill_loop_spec fuel inner written out :
  sr_ok inner -> 0 <= written <= zlen out -> zlen out - written < Z.of_nat fuel ->
  sr_fill_loop fuel inner written out =
    Some (ztake written out ++ fst (sr_stream (Z.to_nat (zlen out - written)) inner),
          snd (sr_stream (Z.to_nat (zlen out - written)) inner)).
Proof.
  revert inner written out. induction fuel as [|fuel IH]; intros inner written out Hs Hw Hf.
  { lia. }
  cbn [sr_fill_loop]. destruct (Z.ltb_spec written (zlen out)).
  2:{ replace (zlen out - written) with 0 by lia. cbn. by rewrite ztake_all, app_nil_r by lia. }
  destruct (sr_refill_ok _ Hs) as [Hs' Hpos].
  destruct (Z.to_nat (zlen out - written)) as [|k] eqn:Ek; [lia|].
  rewrite <-(sr_stream_refill k inner Hs), <-Ek.
  set (inner' := sr_refill inner) in *.
  set (n := Z.min (zlen out - written) (zlen (sr_buffer inner'))).
  assert (zlen (ztake n (sr_buffer inner')) = n) as Hn by (rewrite zlen_ztake; lia).
  assert (zlen (splice out written (ztake n (sr_buffer inner'))) = zlen out) as Hl
    by (apply zlen_splice; lia).
  rewrite IH; [|unfold sr_ok in *; cbn; by apply Forall_drop|lia|lia].
  rewrite Hl. replace (Z.to_nat (zlen out - written))
    with (Z.to_nat n + Z.to_nat (zlen out - (written + n)))%nat by lia.
  rewrite (sr_stream_add (Z.to_nat n)), (sr_stream_buffer (Z.to_nat n) inner')
    by (unfold zlen in *; lia).
  cbn [fst snd]. rewrite app_assoc. do 3 f_equal.
  unfold splice. rewrite app_assoc, ztake_app; [done|].
  rewrite zlen_app, Hn, zlen_ztake. lia.
Qed.

Lemma sr_bytes_stream inner n :
  sr_ok inner -> sr_bytes inner n = sr_stream (Z.to_nat n) inner.
Proof.
  intros Hs. unfold sr_bytes, sr_fill.
  rewrite sr_fill_loop_spec; [|done|rewrite zlen_zrepeat; lia|unfold zlen; lia].
  rewrite zlen_zrepeat, ztake_0 by lia.
  replace (Z.to_nat (Z.max 0 n - 0)) with (Z.to_nat n) by lia.
  symmetry. apply surjective_pairing.
Qed.

Lemma sr_bytes_ok inner n :
  sr_ok inner ->
  zlen (fst (sr_bytes inner n)) = Z.max 0 n /\ bytes_ok (fst (sr_bytes inner n)) /\
  sr_ok (snd (sr_bytes inner n)).
Proof.
  intros Hs. rewrite sr_bytes_stream by done. unfold zlen.
  destruct (sr_stream_ok (Z.to_nat n) inner Hs) as (-> & ? & ?). split; [lia|done].
Qed.

Lemma sr_range_bound inner m : 0 < m -> 0 <= fst (sr_range inner m) < m.
Proof.
  intros. unfold sr_range. destruct (Z.eqb_spec m 0); [lia|].
  pose proof (gen_range_bound (sr_rng inner) m). destruct (gen_range _ _). cbn in *. lia.
Qed.

Lemma sr_range_ok inner m : sr_ok inner -> sr_ok (snd (sr_range inner m)).
Proof. unfold sr_range. destruct (m =? 0); [done|]. by destruct (gen_range _ _). Qed.

Lemma lor_bound a b n : 0 <= n -> 0 <= a < 2 ^ n -> 0 <= b < 2 ^ n -> 0 <= Z.lor a b < 2 ^ n.
Proof.
  intros Hn Ha Hb. split; [apply Z.lor_nonneg; lia|].
  destruct (Z.eq_dec (Z.lor a b) 0) as [->|Hz]; [lia|].
  assert (0 <= Z.lor a b) by (apply Z.lor_nonneg; lia).
  apply Z.log2_lt_pow2; [lia|]. rewrite Z.log2_lor by lia.
  destruct (Z.eq_dec n 0) as [->|].
  { assert (a = 0) as -> by lia. assert (b = 0) as -> by lia. done. }
  apply Z.max_lub_lt.
  - destruct (Z.eq_dec a 0) as [->|]; [cbn; lia|]. apply Z.log2_lt_pow2; lia.
  - destruct (Z.eq_dec b 0) as [->|]; [cbn; lia|]. apply Z.log2_lt_pow2; lia.
Qed.

Lemma sr_bits_loop_u64 bs i r : in_u64 r -> in_u64 (sr_bits_loop i bs r).
Proof.
  revert i r. induction bs as [|b bs IH]; intros i r Hr; cbn [sr_bits_loop]; [done|].
  destruct (8 <=? i); [done|]. apply IH. unfold in_u64 in *.
  apply lor_bound; [lia|lia|]. unfold u64. apply Z.mod_pos_bound. lia.
Qed.

Lemma sr_bits_bound inner k :
  0 <= k -> 0 <= fst (sr_bits inner k) < 2 ^ Z.min k 64.
Proof.
  intros Hk. unfold sr_bits. destruct (Z.eqb_spec k 0) as [->|Hne]; [done|].
  destruct (sr_bytes _ _) as [bs inner']. cbn [fst].
  pose proof (sr_bits_loop_u64 bs 0 0 ltac:(unfold in_u64; lia)) as Hr. unfold in_u64 in Hr.
  destruct (Z.ltb_spec k 64).
  - rewrite Z.shiftl_1_l, Z.sub_1_r, <-Z.ones_equiv, Z.land_ones, Z.min_l by lia.
    apply Z.mod_pos_bound. lia.
  - by rewrite Z.min_r by lia.
Qed.

Lemma swap_perm {T} (sl : list T) i j : swap sl i j ≡ₚ sl.
Proof.
  unfold swap. destruct (sl !! i) eqn:Ei; [|done]. destruct (sl !! j) eqn:Ej; [|done].
  by apply Permutation_insert_swap.
Qed.

Lemma sr_shuffle_perm {T} inner (sl : list T) : fst (sr_shuffle inner sl) ≡ₚ sl.
Proof.
  unfold sr_shuffle. generalize (length sl - 1)%nat as i, (sr_rng inner) as rng.
  assert (forall i rng (l : list T), fst (sr_shuffle_loop i rng l) ≡ₚ l) as Hloop.
  { induction i as [|i IH]; intros rng l; cbn [sr_shuffle_loop]; [done|].
    destruct (gen_range _ _) as [j rng']. rewrite IH. apply swap_perm. }
  intros i rng. specialize (Hloop i rng sl). by destruct (sr_shuffle_loop _ _ _).
Qed.

Lemma sr_choose_some {T} inner (sl : list T) :
  sl <> [] -> exists x, fst (sr_choose inner sl) = Some x /\ x ∈ sl.
Proof.
  intros Hne. unfold sr_choose. destruct sl as [|y l] eqn:E; [done|]. rewrite <-E.
  assert (0 < zlen sl) as Hp by (rewrite E, zlen_cons; pose proof (zlen_nonneg l); lia).
  pose proof (sr_range_bound inner (zlen sl) Hp) as Hb.
  destruct (sr_range _ _) as [i inner']. cbn [fst] in *. unfold zget, zlen in *.
  rewrite decide_True by lia.
  destruct (lookup_lt_is_Some_2 sl (Z.to_nat i)) as [x Hx]; [lia|].
  exists x. split; [done|]. by eapply list_elem_of_lookup_2.
Qed.

(** [SecureRandom] as an implementation of the interface. *)
Definition SecureRandom : Type := { inner : SecureRandomInner | sr_ok inner }.

#[global] Program Instance SecureRandom_Rng : Rng SecureRandom := {|
  rng_range r m := (fst (sr_range (`r) m), snd (sr_range (`r) m) ↾ sr_range_ok (`r) m (proj2_sig r));
  rng_bytes r n :=
    (fst (sr_bytes (`r) n), snd (sr_bytes (`r) n) ↾ proj2 (proj2 (sr_bytes_ok (`r) n (proj2_sig r))))
|}.

#[global] Instance SecureRandom_RngOk : RngOk SecureRandom.
Proof.
  constructor; intros r n; cbn.
  - apply sr_range_bound.
  - intros. destruct (sr_bytes_ok (`r) n (proj2_sig r)) as [-> _]. lia.
  - apply sr_bytes_ok, proj2_sig.
Qed.

(** ** Properties *)

(** [SecureRandom::bytes] finishes and returns exactly [n] in-range bytes, and
    asking for [n] then [m] bytes hands out the same bytes, and leaves the same state,
    as asking for [n + m] at once: no generated byte is lost or handed out twice. *)
Theorem secure_random_bytes_stream inner n m :
  sr_ok inner -> 0 <= n -> 0 <= m ->
  sr_bytes inner (n + m) =
    (fst (sr_bytes inner n) ++ fst (sr_bytes (snd (sr_bytes inner n)) m),
     snd (sr_bytes (snd (sr_bytes inner n)) m)) /\
  zlen (fst (sr_bytes inner n)) = n /\ bytes_ok (fst (sr_bytes inner n)) /\
  sr_ok (snd (sr_bytes inner n)).
Proof.
  intros Hs Hn Hm. destruct (sr_bytes_ok inner n Hs) as (L & Hok & Hs').
  split; [|by rewrite L, Z.max_r by lia].
  rewrite (sr_bytes_stream (snd _)), !sr_bytes_stream by done.
  by rewrite Z2Nat.inj_add, sr_stream_add by done.
Qed.

(** [SecureRandom::shuffle] permutes the slice it is given, [choose] returns an element of
    a non-empty slice, and [bits(k)] is below [2^min(k, 64)]. *)
Theorem secure_random_draws {T} inner (sl : list T) k :
  sl <> [] -> 0 <= k ->
  fst (sr_shuffle inner sl) ≡ₚ sl /\
  (exists x, fst (sr_choose inner sl) = Some x /\ x ∈ sl) /\
  0 <= fst (sr_bits inner k) < 2 ^ Z.min k 64.
Proof. auto using sr_shuffle_perm, sr_choose_some, sr_bits_bound. Qed.

End SecureRandomFacts.
