(* ===== verification/Replay.v ===== *)
(** * Replay protection: the replay checker of [stats/mod.rs]

    A handshake is identified by a byte string.  The checker keeps 64 shards; a shard remembers
    the strings it has seen in an LRU cache of bounded size and in a queue ordered by time, from
    which entries older than the window are dropped.  The [lru] crate is an interface; hashing and
    the clock are parameters. *)

From stdpp Require Import gmap sorting.
From S2P Require Import Prelude.

(** ** The cache of the [lru] crate *)

Record ReplayEntry := mkReplayEntry { seen_at : Z; entry_seq : Z }.

Class LruCache := {
  Lru : Type;
  lru_new : Z -> Lru;
  lru_peek : Lru -> bytes -> option ReplayEntry;
  lru_get : Lru -> bytes -> option ReplayEntry * Lru;
  lru_put : Lru -> bytes -> ReplayEntry -> Lru;
  lru_pop : Lru -> bytes -> Lru;
  lru_len : Lru -> Z
}.

Fixpoint assoc (k : bytes) (l : list (bytes * ReplayEntry)) : option ReplayEntry :=
  match l with
  | [] => None
  | (k', e) :: l => if decide (k' = k) then Some e else assoc k l
  end.

Definition without (k : bytes) (l : list (bytes * ReplayEntry)) : list (bytes * ReplayEntry) :=
  filter (fun p => p.1 <> k) l.

(** The crate's contract, on the entries listed from the most to the least recently used:
    [get] moves an entry to the front, [put] inserts or replaces at the front and drops the last
    entry beyond the capacity, [peek] changes nothing, [pop] removes. *)
Class LruCacheOk `{LruCache} := {
  lru_view : Lru -> list (bytes * ReplayEntry);
  lru_cap : Lru -> Z;
  lru_new_view : forall cap, lru_view (lru_new cap) = [] /\ lru_cap (lru_new cap) = cap;
  lru_peek_view : forall c k, lru_peek c k = assoc k (lru_view c);
  lru_get_view : forall c k,
    fst (lru_get c k) = assoc k (lru_view c) /\ lru_cap (snd (lru_get c k)) = lru_cap c /\
    lru_view (snd (lru_get c k)) =
      match assoc k (lru_view c) with
      | Some e => (k, e) :: without k (lru_view c)
      | None => lru_view c
      end;
  lru_put_view : forall c k e,
    lru_cap (lru_put c k e) = lru_cap c /\
    lru_view (lru_put c k e) = ztake (lru_cap c) ((k, e) :: without k (lru_view c));
  lru_pop_view : forall c k,
    lru_cap (lru_pop c k) = lru_cap c /\ lru_view (lru_pop c k) = without k (lru_view c);
  lru_len_view : forall c, lru_len c = zlen (lru_view c)
}.

(** ** Shards (mod.rs:760-826); instants and durations are nanoseconds *)

Section Checker.
Context `{LruCache}.
(** [DefaultHasher], the 64-bit hash of a byte slice. *)
Variable default_hash : bytes -> Z.
(** The least instant the platform can represent. *)
Variable instant_min : Z.

Record ReplayShard := mkReplayShard {
  rs_cache : Lru;
  rs_queue : list (Z * bytes * Z);
  rs_seq_counter : Z
}.

Definition ReplayShard_new (cap : Z) : ReplayShard := mkReplayShard (lru_new cap) [] 0.

Definition next_seq (s : ReplayShard) : Z * ReplayShard :=
  let seq := u64 (rs_seq_counter s + 1) in
  (seq, mkReplayShard (rs_cache s) (rs_queue s) seq).

(** [Instant::checked_sub] *)
Definition checked_sub (now window : Z) : option Z :=
  if instant_min <=? now - window then Some (now - window) else None.

(** The loop over the front of the queue. *)
Fixpoint cleanup_queue (cutoff : Z) (cache : Lru) (queue : list (Z * bytes * Z))
  : Lru * list (Z * bytes * Z) :=
  match queue with
  | [] => (cache, [])
  | (ts, key, queue_seq) :: rest =>
      if cutoff <=? ts then (cache, queue)
      else
        let cache :=
          match lru_peek cache key with
          | Some entry => if entry_seq entry =? queue_seq then lru_pop cache key else cache
          | None => cache
          end in
        cleanup_queue cutoff cache rest
  end.

Definition shard_cleanup (s : ReplayShard) (now window : Z) : ReplayShard :=
  if window =? 0 then s
  else
    let cutoff := default now (checked_sub now window) in
    let '(cache, queue) := cleanup_queue cutoff (rs_cache s) (rs_queue s) in
    mkReplayShard cache queue (rs_seq_counter s).

Definition shard_check (s : ReplayShard) (key : bytes) (now window : Z) : bool * ReplayShard :=
  let s := shard_cleanup s now window in
  let '(found, cache) := lru_get (rs_cache s) key in
  (bool_decide (is_Some found), mkReplayShard cache (rs_queue s) (rs_seq_counter s)).

Definition shard_add (s : ReplayShard) (key : bytes) (now window : Z) : ReplayShard :=
  let s := shard_cleanup s now window in
  let '(seq, s) := next_seq s in
  mkReplayShard (lru_put (rs_cache s) key (mkReplayEntry now seq))
    (rs_queue s ++ [(now, key, seq)]) (rs_seq_counter s).

Definition shard_len (s : ReplayShard) : Z := lru_len (rs_cache s).

(** ** The checker (mod.rs:750-941) *)

Record ReplayChecker := mkReplayChecker {
  rc_shards : list ReplayShard;
  rc_shard_mask : Z;
  rc_window : Z;
  rc_checks : Z;
  rc_hits : Z;
  rc_additions : Z;
  rc_cleanups : Z
}.

Definition num_shards : Z := 64.
Definition shard_capacity (total_capacity : Z) : Z := Z.max (total_capacity / num_shards) 1.

Definition ReplayChecker_new (total_capacity window : Z) : ReplayChecker :=
  mkReplayChecker (zrepeat num_shards (ReplayShard_new (shard_capacity total_capacity)))
    (num_shards - 1) window 0 0 0 0.

Definition get_shard_idx (c : ReplayChecker) (key : bytes) : Z :=
  Z.land (u64 (default_hash key)) (rc_shard_mask c).

Definition set_shard (c : ReplayChecker) (idx : Z) (s : ReplayShard) (checks hits additions : Z) : ReplayChecker :=
  mkReplayChecker (<[Z.to_nat idx := s]> (rc_shards c)) (rc_shard_mask c) (rc_window c)
    checks hits additions (rc_cleanups c).

(** [None] is the panic of [self.shards[idx]] out of range. *)
Definition check_and_add_internal (c : ReplayChecker) (data : bytes) (now : Z) : option (bool * ReplayChecker) :=
  let checks := u64 (rc_checks c + 1) in
  let idx := get_shard_idx c data in
  match zget (rc_shards c) idx with
  | None => None
  | Some shard =>
      let '(found, shard) := shard_check shard data now (rc_window c) in
      if found : bool then
        Some (true, set_shard c idx shard checks (u64 (rc_hits c + 1)) (rc_additions c))
      else
        Some (false, set_shard c idx (shard_add shard data now (rc_window c)) checks (rc_hits c)
                       (u64 (rc_additions c + 1)))
  end.

Definition add_only (c : ReplayChecker) (data : bytes) (now : Z) : option ReplayChecker :=
  let additions := u64 (rc_additions c + 1) in
  let idx := get_shard_idx c data in
  match zget (rc_shards c) idx with
  | None => None
  | Some shard =>
      Some (set_shard c idx (shard_add shard data now (rc_window c)) (rc_checks c) (rc_hits c) additions)
  end.

Definition check_and_add_handshake (c : ReplayChecker) (data : bytes) (now : Z) : option (bool * ReplayChecker) :=
  check_and_add_internal c data now.
Definition check_and_add_tls_digest (c : ReplayChecker) (data : bytes) (now : Z) : option (bool * ReplayChecker) :=
  check_and_add_internal c data now.

(** One turn of [run_periodic_cleanup]: the number of entries dropped and the checker. *)
Definition periodic_cleanup (c : ReplayChecker) (now : Z) : Z * ReplayChecker :=
  let shards := map (fun s => shard_cleanup s now (rc_window c)) (rc_shards c) in
  let cleaned := foldr Z.add 0 (zip_with (fun s s' => sat_sub (shard_len s) (shard_len s')) (rc_shards c) shards) in
  (cleaned, mkReplayChecker shards (rc_shard_mask c) (rc_window c) (rc_checks c) (rc_hits c)
              (rc_additions c) (u64 (rc_cleanups c + 1))).

Record ReplayStats := mkReplayStats {
  total_entries : Z; total_queue_len : Z; total_checks : Z; total_hits : Z;
  total_additions : Z; total_cleanups : Z; stats_num_shards : Z; window_secs : Z
}.

Definition replay_stats (c : ReplayChecker) : ReplayStats :=
  mkReplayStats (foldr Z.add 0 (map shard_len (rc_shards c)))
    (foldr Z.add 0 (map (fun s => zlen (rs_queue s)) (rc_shards c)))
    (rc_checks c) (rc_hits c) (rc_additions c) (rc_cleanups c) (zlen (rc_shards c)) (rc_window c / 10 ^ 9).

(** ** Histories *)

Inductive replay_op :=
| RCheckAdd (data : bytes) (now : Z)
| RAdd (data : bytes) (now : Z)
| RCleanup (now : Z).

Definition op_time (op : replay_op) : Z :=
  match op with RCheckAdd _ t | RAdd _ t | RCleanup t => t end.
Definition op_key (op : replay_op) : option bytes :=
  match op with RCheckAdd d _ | RAdd d _ => Some d | RCleanup _ => None end.

Definition replay_step (c : ReplayChecker) (op : replay_op) : option ReplayChecker :=
  match op with
  | RCheckAdd data now => snd <$> check_and_add_internal c data now
  | RAdd data now => add_only c data now
  | RCleanup now => Some (snd (periodic_cleanup c now))
  end.

Fixpoint replay_run (c : ReplayChecker) (ops : list replay_op) : option ReplayChecker :=
  match ops with
  | [] => Some c
  | op :: ops => match replay_step c op with Some c => replay_run c ops | None => None end
  end.

End Checker.

(** ** One shard *)

Lemma without_fst k l : (without k l).*1 = filter (fun x => x <> k) l.*1.
Proof.
  unfold without. induction l as [|[k' e] l IH]; [done|]. cbn [fmap list_fmap fst]. rewrite !filter_cons. cbn [fst].
  destruct (decide (k' <> k)); cbn [fmap list_fmap fst]; [f_equal|]; apply IH.
Qed.

Lemma without_app_ne k k' e pre post :
  k' <> k -> without k' (pre ++ (k, e) :: post) = without k' pre ++ (k, e) :: without k' post.
Proof. intros. unfold without. rewrite filter_app, filter_cons_True by (cbn; congruence). done. Qed.

Lemma assoc_app_here k e pre post : k ∉ pre.*1 -> assoc k (pre ++ (k, e) :: post) = Some e.
Proof.
  induction pre as [|[k' e'] pre IH]; cbn; intros Hk; [by rewrite decide_True|].
  apply not_elem_of_cons in Hk as [? ?]. rewrite decide_False by congruence. by apply IH.
Qed.

Lemma assoc_Some k l e : assoc k l = Some e -> (k, e) ∈ l.
Proof.
  induction l as [|[k' e'] l IH]; cbn; [done|]. destruct (decide (k' = k)) as [->|].
  - intros [= ->]. left.
  - intros. right. auto.
Qed.

Lemma assoc_elem k l e : NoDup l.*1 -> (k, e) ∈ l -> assoc k l = Some e.
Proof.
  induction l as [|[k' e'] l IH]; cbn; intros Hnd Hin; [by apply elem_of_nil in Hin|].
  apply NoDup_cons in Hnd as [Hni Hnd]. apply elem_of_cons in Hin as [[= -> ->]|Hin]; [by rewrite decide_True|].
  rewrite decide_False; [by apply IH|]. intros ->. apply Hni. apply list_elem_of_fmap. by exists (k, e).
Qed.

Section ShardFacts.
Context `{LruCacheOk}.
Variable instant_min : Z.

Definition shard_step (s : ReplayShard) (op : replay_op) (window : Z) : ReplayShard :=
  match op with
  | RCheckAdd d t =>
      let '(found, s) := shard_check instant_min s d t window in
      if found : bool then s else shard_add instant_min s d t window
  | RAdd d t => shard_add instant_min s d t window
  | RCleanup t => shard_cleanup instant_min s t window
  end.

(** *** A key that is remembered: it sits behind other keys only, and every queue item for its
    entry is recent. *)

Definition holds (k : bytes) (t0 : Z) (T : gset bytes) (cache : Lru) (queue : list (Z * bytes * Z)) (bound : Z) : Prop :=
  exists e pre post, lru_view cache = pre ++ (k, e) :: post /\ ~ k ∈ (pre.*1) /\ NoDup (pre.*1) /\
    (forall x, x ∈ (pre.*1) -> x ∈ T) /\ entry_seq e <= bound /\
    (forall ts key, (ts, key, entry_seq e) ∈ queue -> t0 <= ts).

Lemma holds_peek k t0 T cache queue bound :
  holds k t0 T cache queue bound -> is_Some (assoc k (lru_view cache)).
Proof. intros (e & pre & post & -> & Hk & _). rewrite assoc_app_here by done. done. Qed.

Lemma holds_pop k t0 T cache queue bound k' :
  k' <> k -> holds k t0 T cache queue bound -> holds k t0 T (lru_pop cache k') queue bound.
Proof.
  intros Hne (e & pre & post & Hv & Hk & Hnd & HT & Hb & Hq).
  destruct (lru_pop_view cache k') as [_ Hp].
  exists e, (without k' pre), (without k' post). rewrite Hp, Hv, without_fst.
  rewrite without_app_ne by done. split; [done|].
  split_and!; [|by apply NoDup_filter| |done|done].
  - intros [_ ?]%list_elem_of_filter. done.
  - intros x [_ Hx]%list_elem_of_filter. by apply HT.
Qed.

Lemma holds_weaken k t0 T cache queue queue' bound :
  (forall i, i ∈ queue' -> i ∈ queue) ->
  holds k t0 T cache queue bound -> holds k t0 T cache queue' bound.
Proof.
  intros Hsub (e & pre & post & ? & ? & ? & ? & ? & Hq). exists e, pre, post. split_and!; try done.
  intros ts key Hin. apply (Hq ts key). by apply Hsub.
Qed.

Lemma holds_cleanup k t0 T cutoff cache queue bound :
  cutoff <= t0 -> holds k t0 T cache queue bound ->
  let '(cache', queue') := cleanup_queue cutoff cache queue in
  holds k t0 T cache' queue' bound /\ lru_cap cache' = lru_cap cache /\ (forall i, i ∈ queue' -> i ∈ queue).
Proof.
  intros Hc. revert cache. induction queue as [|[[ts key] qs] rest IH]; intros cache Hh; cbn [cleanup_queue].
  { by split_and!. }
  destruct (Z.leb_spec cutoff ts) as [Hle|Hlt]; [by split_and!|].
  set (cache1 := match lru_peek cache key with Some entry => if entry_seq entry =? qs then lru_pop cache key else cache | None => cache end).
  assert (holds k t0 T cache1 rest bound /\ lru_cap cache1 = lru_cap cache) as [Hh1 Hcap].
  { assert (holds k t0 T cache rest bound) as Hw by (eapply holds_weaken, Hh; intros; by right). subst cache1.
    rewrite lru_peek_view. destruct (assoc key (lru_view cache)) as [en|] eqn:Ha; [|done].
    destruct (Z.eqb_spec (entry_seq en) qs) as [<-|]; [|done].
    split; [|by destruct (lru_pop_view cache key)]. apply holds_pop; [|done]. intros ->.
    destruct Hh as (e & pre & post & Hv & Hk & _ & _ & _ & Hq). rewrite Hv, assoc_app_here in Ha by done.
    injection Ha as <-. assert (t0 <= ts) by (apply (Hq ts k); left). lia. }
  specialize (IH cache1 Hh1). destruct (cleanup_queue cutoff cache1 rest) as [cache' queue'].
  destruct IH as (? & ? & Hin). split_and!; [done|congruence|]. intros i Hi. right. auto.
Qed.

Lemma holds_get k t0 T cache queue bound k' :
  holds k t0 T cache queue bound -> holds k t0 ({[k']} ∪ T) (snd (lru_get cache k')) queue bound.
Proof.
  intros (e & pre & post & Hv & Hk & Hnd & HT & Hb & Hq).
  destruct (lru_get_view cache k') as (_ & _ & Hg).
  destruct (decide (k' = k)) as [->|Hne].
  - exists e, [], (without k (lru_view cache)). rewrite Hg, Hv, assoc_app_here by done. cbn.
    split_and!; try done; [set_solver|constructor|set_solver].
  - destruct (assoc k' (lru_view cache)) as [e'|] eqn:Ha.
    + exists e, ((k', e') :: without k' pre), (without k' post).
      rewrite Hg, Hv, without_app_ne by done. cbn [app fmap list_fmap fst]. rewrite without_fst.
      split; [done|]. split_and!; try done.
      * apply not_elem_of_cons. split; [congruence|]. intros [_ ?]%list_elem_of_filter. done.
      * constructor; [|by apply NoDup_filter]. intros [? _]%list_elem_of_filter. done.
      * intros x [->|[_ ?]%list_elem_of_filter]%elem_of_cons; set_solver.
    + exists e, pre, post. rewrite Hg, Hv. split_and!; try done. set_solver.
Qed.

(** Inserting keeps the key while the others seen are fewer than the capacity. *)
Lemma holds_put k t0 T cache queue bound k' now seq :
  holds k t0 T cache queue bound -> bound < seq -> t0 <= now ->
  Z.of_nat (size (({[k']} ∪ T) ∖ {[k]})) < lru_cap cache ->
  (forall ts key q, (ts, key, q) ∈ queue -> q < seq) ->
  holds k t0 ({[k']} ∪ T) (lru_put cache k' (mkReplayEntry now seq)) (queue ++ [(now, k', seq)]) seq.
Proof.
  intros (e & pre & post & Hv & Hk & Hnd & HT & Hb & Hq) Hseq Hnow Hsize Hlt.
  destruct (lru_put_view cache k' (mkReplayEntry now seq)) as [_ Hp].
  destruct (decide (k' = k)) as [->|Hne].
  - exists (mkReplayEntry now seq), [], (ztake (lru_cap cache - 1) (without k (lru_view cache))).
    rewrite Hp. split; [|split_and!; cbn; [set_solver|constructor|set_solver|lia|]].
    + unfold ztake. replace (Z.to_nat (lru_cap cache)) with (S (Z.to_nat (lru_cap cache - 1))) by lia. done.
    + intros ts key [Hin|[= -> _]%list_elem_of_singleton]%elem_of_app; [|done]. apply Hlt in Hin. cbn in Hin. lia.
  - set (pre' := (k', mkReplayEntry now seq) :: without k' pre).
    assert (NoDup pre'.*1) as Hnd'.
    { cbn. rewrite without_fst. constructor; [|by apply NoDup_filter]. intros [? _]%list_elem_of_filter. done. }
    assert (Hin' : forall x, x ∈ pre'.*1 -> x ∈ {[k']} ∪ T /\ x <> k).
    { intros x Hx. cbn in Hx. rewrite without_fst in Hx.
      apply elem_of_cons in Hx as [->|[_ Hx]%list_elem_of_filter]; [set_solver|]. split; [set_solver|]. congruence. }
    assert (zlen pre' < lru_cap cache) as Hlen.
    { eapply Z.le_lt_trans; [|exact Hsize]. unfold zlen.
      rewrite <-(length_fmap fst pre'), <-(size_list_to_set (C := gset bytes) pre'.*1) by done.
      apply inj_le, subseteq_size. intros x Hx%elem_of_list_to_set. apply Hin' in Hx. set_solver. }
    exists e, pre', (ztake (lru_cap cache - zlen pre' - 1) (without k' post)).
    split; [|split_and!; [| done | intros x Hx; by apply Hin' | lia |]].
    + rewrite Hp, Hv, without_app_ne by done. rewrite app_comm_cons. fold pre'.
      rewrite ztake_app_ge by lia. f_equal. unfold ztake.
      replace (Z.to_nat (lru_cap cache - zlen pre')) with (S (Z.to_nat (lru_cap cache - zlen pre' - 1))) by lia. done.
    + intros Hx. apply Hin' in Hx. tauto.
    + intros ts key [Hin|[= -> _ ?]%list_elem_of_singleton]%elem_of_app; [by apply (Hq ts key)|lia].
Qed.

(** *** The queue and its numbers *)

Definition seqs_wf (n : Z) (s : ReplayShard) : Prop :=
  0 <= rs_seq_counter s <= n /\ forall ts key q, (ts, key, q) ∈ rs_queue s -> q <= rs_seq_counter s.

Lemma cleanup_queue_incl cutoff cache queue :
  let '(cache', queue') := cleanup_queue cutoff cache queue in
  lru_cap cache' = lru_cap cache /\ forall i, i ∈ queue' -> i ∈ queue.
Proof.
  revert cache. induction queue as [|[[ts key] qs] rest IH]; intros cache; cbn [cleanup_queue]; [done|].
  destruct (cutoff <=? ts); [done|].
  set (cache1 := match lru_peek cache key with Some _ => _ | None => _ end).
  assert (lru_cap cache1 = lru_cap cache) as Hc.
  { subst cache1. repeat case_match; try done. by destruct (lru_pop_view cache key). }
  specialize (IH cache1). destruct (cleanup_queue cutoff cache1 rest). destruct IH as [? Hin].
  split; [congruence|]. intros i Hi. right. auto.
Qed.

Lemma shard_cleanup_facts s t w :
  let s' := shard_cleanup instant_min s t w in
  lru_cap (rs_cache s') = lru_cap (rs_cache s) /\ rs_seq_counter s' = rs_seq_counter s /\
  forall i, i ∈ rs_queue s' -> i ∈ rs_queue s.
Proof.
  unfold shard_cleanup. destruct (w =? 0); [done|].
  pose proof (cleanup_queue_incl (default t (checked_sub instant_min t w)) (rs_cache s) (rs_queue s)) as Hc.
  destruct (cleanup_queue _ _ _). cbn. tauto.
Qed.

Lemma seqs_cleanup n s t w : seqs_wf n s -> seqs_wf n (shard_cleanup instant_min s t w).
Proof.
  intros [? Hq]. pose proof (shard_cleanup_facts s t w) as (_ & E & Hin). split; [lia|].
  intros ts key q Hi%Hin%Hq. lia.
Qed.

Lemma shard_check_eq s d t w :
  let s1 := shard_cleanup instant_min s t w in
  shard_check instant_min s d t w =
    (bool_decide (is_Some (fst (lru_get (rs_cache s1) d))),
     mkReplayShard (snd (lru_get (rs_cache s1) d)) (rs_queue s1) (rs_seq_counter s1)).
Proof. unfold shard_check. by destruct (lru_get _ _). Qed.

Lemma shard_add_eq n s d t w :
  seqs_wf n s -> n + 1 < 2 ^ 64 ->
  let s1 := shard_cleanup instant_min s t w in
  let seq := rs_seq_counter s + 1 in
  shard_add instant_min s d t w =
    mkReplayShard (lru_put (rs_cache s1) d (mkReplayEntry t seq)) (rs_queue s1 ++ [(t, d, seq)]) seq.
Proof.
  intros [? _] Hn. unfold shard_add, next_seq. pose proof (shard_cleanup_facts s t w) as (_ & -> & _).
  unfold u64. rewrite Z.mod_small by lia. done.
Qed.

Lemma shard_add_cap s d t w : lru_cap (rs_cache (shard_add instant_min s d t w)) = lru_cap (rs_cache s).
Proof.
  unfold shard_add, next_seq. cbn. pose proof (shard_cleanup_facts s t w) as (<- & _).
  by destruct (lru_put_view (rs_cache (shard_cleanup instant_min s t w)) d
    (mkReplayEntry t (u64 (rs_seq_counter (shard_cleanup instant_min s t w) + 1)))) as [-> _].
Qed.

Lemma shard_step_cap s op w : lru_cap (rs_cache (shard_step s op w)) = lru_cap (rs_cache s).
Proof.
  destruct op as [d t|d t|t]; cbn [shard_step]; [|apply shard_add_cap|by apply shard_cleanup_facts].
  rewrite shard_check_eq. cbv zeta beta iota.
  assert (lru_cap (snd (lru_get (rs_cache (shard_cleanup instant_min s t w)) d)) = lru_cap (rs_cache s)) as Hc.
  { destruct (lru_get_view (rs_cache (shard_cleanup instant_min s t w)) d) as (_ & -> & _). by apply shard_cleanup_facts. }
  case_match; [done|]. by rewrite shard_add_cap.
Qed.

Lemma seqs_step n s op w : seqs_wf n s -> n + 1 < 2 ^ 64 -> seqs_wf (n + 1) (shard_step s op w).
Proof.
  assert (Hadd : forall s d t, seqs_wf n s -> n + 1 < 2 ^ 64 -> seqs_wf (n + 1) (shard_add instant_min s d t w)).
  { clear s. intros s d t Hs Hn. rewrite (shard_add_eq n) by done. destruct (seqs_cleanup n s t w Hs) as [? Hq].
    pose proof (shard_cleanup_facts s t w) as (_ & E & _). destruct Hs as [? _].
    split; cbn; [lia|]. intros ts key q [Hi%Hq|[= _ _ ->]%list_elem_of_singleton]%elem_of_app; lia. }
  intros Hs Hn. destruct op as [d t|d t|t]; cbn [shard_step].
  - rewrite shard_check_eq. cbv zeta beta iota.
    assert (seqs_wf n (mkReplayShard (snd (lru_get (rs_cache (shard_cleanup instant_min s t w)) d))
      (rs_queue (shard_cleanup instant_min s t w)) (rs_seq_counter (shard_cleanup instant_min s t w)))) as Hc.
    { exact (seqs_cleanup n s t w Hs). }
    case_match; [|by apply Hadd]. destruct Hc as [? ?]. split; [lia|done].
  - by apply Hadd.
  - destruct (seqs_cleanup n s t w Hs) as [? ?]. split; [lia|done].
Qed.

(** *** Remembering through the steps of a shard *)

Definition recent (window t0 t : Z) : Prop :=
  t0 <= t /\ (window = 0 \/ (t - window <= t0 /\ instant_min <= t - window)).

Definition remembers (k : bytes) (t0 : Z) (T : gset bytes) (cap : Z) (s : ReplayShard) : Prop :=
  lru_cap (rs_cache s) = cap /\ holds k t0 T (rs_cache s) (rs_queue s) (rs_seq_counter s).

Definition op_keys (op : replay_op) : gset bytes :=
  match op_key op with Some d => {[d]} | None => ∅ end.

Lemma remembers_cleanup k t0 T cap s t w :
  remembers k t0 T cap s -> recent w t0 t -> remembers k t0 T cap (shard_cleanup instant_min s t w).
Proof.
  intros [Hc Hh] [_ Hr]. unfold shard_cleanup. destruct (Z.eqb_spec w 0); [done|]. destruct Hr as [?|[Hr Hm]]; [lia|].
  unfold checked_sub. destruct (Z.leb_spec instant_min (t - w)); [|lia]. cbn [default].
  pose proof (holds_cleanup k t0 T (t - w) _ _ _ Hr Hh) as Hcl. cbn.
  destruct (cleanup_queue _ _ _). destruct Hcl as (? & ? & _). split; cbn; [congruence|done].
Qed.

Lemma remembers_add n k t0 T cap s d t w :
  remembers k t0 T cap s -> seqs_wf n s -> n + 1 < 2 ^ 64 -> recent w t0 t ->
  Z.of_nat (size (({[d]} ∪ T) ∖ {[k]})) < cap ->
  remembers k t0 ({[d]} ∪ T) cap (shard_add instant_min s d t w).
Proof.
  intros Hr Hs Hn Ht Hsize. rewrite (shard_add_eq n) by done.
  destruct (remembers_cleanup _ _ _ _ _ _ _ Hr Ht) as [Hc Hh].
  destruct (seqs_cleanup n s t w Hs) as [_ Hq].
  pose proof (shard_cleanup_facts s t w) as (_ & E & _). rewrite E in *.
  split; cbn; [by destruct (lru_put_view (rs_cache (shard_cleanup instant_min s t w)) d (mkReplayEntry t (rs_seq_counter s + 1)))  as [-> _]|].
  eapply holds_put; [done|lia|by destruct Ht|congruence|]. intros ts key q Hi%Hq. lia.
Qed.

Lemma remembers_step n k t0 T cap s op w :
  remembers k t0 T cap s -> seqs_wf n s -> n + 1 < 2 ^ 64 -> recent w t0 (op_time op) ->
  Z.of_nat (size ((op_keys op ∪ T) ∖ {[k]})) < cap ->
  remembers k t0 (op_keys op ∪ T) cap (shard_step s op w).
Proof.
  intros Hr Hs Hn Ht Hsize. destruct op as [d t|d t|t]; cbn [shard_step op_time op_keys op_key] in *.
  - rewrite shard_check_eq. cbv zeta beta iota.
    pose proof (remembers_cleanup _ _ _ _ _ _ _ Hr Ht) as [Hc Hh].
    assert (remembers k t0 ({[d]} ∪ T) cap (mkReplayShard (snd (lru_get (rs_cache (shard_cleanup instant_min s t w)) d))
      (rs_queue (shard_cleanup instant_min s t w)) (rs_seq_counter (shard_cleanup instant_min s t w)))) as Hg.
    { split; cbn; [|by apply holds_get].
      by destruct (lru_get_view (rs_cache (shard_cleanup instant_min s t w)) d) as (_ & -> & _). }
    case_match; [done|].
    replace ({[d]} ∪ T) with ({[d]} ∪ ({[d]} ∪ T)) by set_solver.
    eapply (remembers_add n); try done; [exact (seqs_cleanup n s t w Hs)|].
    by replace ({[d]} ∪ ({[d]} ∪ T)) with ({[d]} ∪ T) by set_solver.
  - by eapply (remembers_add n).
  - rewrite (left_id_L ∅ (∪)) in *. by apply remembers_cleanup.
Qed.

Lemma remembers_found k t0 T cap s t w :
  remembers k t0 T cap s -> recent w t0 t -> fst (shard_check instant_min s k t w) = true.
Proof.
  intros Hr Ht. destruct (remembers_cleanup _ _ _ _ _ _ _ Hr Ht) as [_ Hh]. rewrite shard_check_eq. cbn.
  apply bool_decide_eq_true. destruct (lru_get_view (rs_cache (shard_cleanup instant_min s t w)) k) as (-> & _).
  by eapply holds_peek.
Qed.

(** A key just added is remembered. *)
Lemma add_remembers n k s t w :
  seqs_wf n s -> n + 1 < 2 ^ 64 -> 1 <= lru_cap (rs_cache s) ->
  remembers k t ∅ (lru_cap (rs_cache s)) (shard_add instant_min s k t w).
Proof.
  intros Hs Hn Hcap. rewrite (shard_add_eq n) by done.
  pose proof (shard_cleanup_facts s t w) as (Ec & E & _). destruct (seqs_cleanup n s t w Hs) as [_ Hq]. rewrite E in Hq.
  destruct (lru_put_view (rs_cache (shard_cleanup instant_min s t w)) k (mkReplayEntry t (rs_seq_counter s + 1))) as [Hpc Hpv].
  split; cbn; [congruence|].
  exists (mkReplayEntry t (rs_seq_counter s + 1)), [],
    (ztake (lru_cap (rs_cache s) - 1) (without k (lru_view (rs_cache (shard_cleanup instant_min s t w))))).
  rewrite Hpv, Ec. split; [|split_and!; cbn; [set_solver|constructor|set_solver|lia|]].
  - unfold ztake. replace (Z.to_nat (lru_cap (rs_cache s))) with (S (Z.to_nat (lru_cap (rs_cache s) - 1))) by lia. done.
  - intros ts key [Hi%Hq|[= -> _]%list_elem_of_singleton]%elem_of_app; lia.
Qed.

(** *** Only what was seen is remembered *)

Definition older (a b : Z * bytes * Z) : Prop := a.1.1 <= b.1.1.

Definition genuine (seen : list (bytes * Z)) (now : Z) (cache : Lru) (queue : list (Z * bytes * Z)) : Prop :=
  NoDup (lru_view cache).*1 /\
  (forall k e, (k, e) ∈ lru_view cache -> (seen_at e, k, entry_seq e) ∈ queue) /\
  (forall ts k q, (ts, k, q) ∈ queue -> (k, ts) ∈ seen /\ ts <= now) /\
  StronglySorted older queue.

Lemma genuine_mono seen seen' now now' cache queue :
  genuine seen now cache queue -> (forall x, x ∈ seen -> x ∈ seen') -> now <= now' -> genuine seen' now' cache queue.
Proof.
  intros (? & ? & Hq & ?) Hs Hn. split_and!; try done. intros ts k q Hi. destruct (Hq ts k q Hi). split; [auto|lia].
Qed.

(** Dropping the front of the queue together with the entry it belongs to. *)
Lemma genuine_drop seen now cache ts key qs rest :
  genuine seen now cache ((ts, key, qs) :: rest) ->
  genuine seen now
    (match lru_peek cache key with
     | Some entry => if entry_seq entry =? qs then lru_pop cache key else cache
     | None => cache
     end) rest.
Proof.
  intros (Hnd & He & Hq & Hs). inversion Hs as [|? ? Hs' _]; subst.
  assert (Hq' : forall ts k q, (ts, k, q) ∈ rest -> (k, ts) ∈ seen /\ ts <= now).
  { intros. eapply Hq. by right. }
  assert (Hkeep : forall k e, (k, e) ∈ lru_view cache -> (k <> key \/ entry_seq e <> qs) -> (seen_at e, k, entry_seq e) ∈ rest).
  { intros k e Hin Hor. destruct (elem_of_cons rest (seen_at e, k, entry_seq e) (ts, key, qs)) as [Hc _].
    destruct (Hc (He k e Hin)) as [[= _ ? ?]|?]; [destruct Hor; congruence|done]. }
  rewrite lru_peek_view. destruct (assoc key (lru_view cache)) as [en|] eqn:Ha.
  2:{ split_and!; try done. intros k e Hin. apply Hkeep; [done|]. left. intros ->.
      by rewrite (assoc_elem _ _ _ Hnd Hin) in Ha. }
  destruct (Z.eqb_spec (entry_seq en) qs) as [<-|Hne].
  - destruct (lru_pop_view cache key) as [_ Hv]. split_and!; [| |done|done]; rewrite Hv.
    + rewrite without_fst. by apply NoDup_filter.
    + intros k e [Hk Hin]%list_elem_of_filter. apply Hkeep; [done|]. by left.
  - split_and!; try done. intros k e Hin. apply Hkeep; [done|].
    destruct (decide (k = key)) as [->|]; [right|by left]. rewrite (assoc_elem _ _ _ Hnd Hin) in Ha. congruence.
Qed.

Lemma genuine_cleanup seen now cutoff cache queue :
  genuine seen now cache queue ->
  let '(cache', queue') := cleanup_queue cutoff cache queue in
  genuine seen now cache' queue' /\ forall i, i ∈ queue' -> cutoff <= i.1.1.
Proof.
  revert cache. induction queue as [|[[ts key] qs] rest IH]; intros cache Hg; cbn [cleanup_queue].
  { split; [done|]. intros i Hi. by apply elem_of_nil in Hi. }
  destruct (Z.leb_spec cutoff ts) as [Hle|Hlt].
  - split; [done|]. destruct Hg as (_ & _ & _ & Hs). inversion Hs as [|? ? _ Hall]; subst.
    intros i [->|Hi]%elem_of_cons; [done|]. rewrite Forall_forall in Hall. specialize (Hall i Hi). unfold older in Hall. cbn in *. lia.
  - apply IH. by eapply genuine_drop.
Qed.

Definition genuine_shard (seen : list (bytes * Z)) (now : Z) (s : ReplayShard) : Prop :=
  genuine seen now (rs_cache s) (rs_queue s).

Definition cutoff_at (t w : Z) : Z := default t (checked_sub instant_min t w).

Lemma genuine_shard_cleanup seen now s t w :
  genuine_shard seen now s ->
  genuine_shard seen now (shard_cleanup instant_min s t w) /\
  (w <> 0 -> forall i, i ∈ rs_queue (shard_cleanup instant_min s t w) -> cutoff_at t w <= i.1.1).
Proof.
  intros Hg. unfold shard_cleanup. destruct (Z.eqb_spec w 0); [done|].
  pose proof (genuine_cleanup seen now (cutoff_at t w) _ _ Hg) as Hc. fold (cutoff_at t w).
  destruct (cleanup_queue _ _ _). by destruct Hc.
Qed.

Lemma genuine_get seen now cache queue k :
  genuine seen now cache queue -> genuine seen now (snd (lru_get cache k)) queue.
Proof.
  intros (Hnd & He & Hq & Hs). destruct (lru_get_view cache k) as (_ & _ & Hv).
  destruct (assoc k (lru_view cache)) as [e|] eqn:Ha; (split_and!; [| |done|done]); rewrite Hv; try done.
  - cbn. rewrite without_fst. constructor; [|by apply NoDup_filter]. by intros [? _]%list_elem_of_filter.
  - intros k' e' [[= -> ->]|[_ Hin]%list_elem_of_filter]%elem_of_cons; [apply He; by apply assoc_Some|by apply He].
Qed.

Lemma genuine_put seen now cache queue k t seq :
  genuine seen now cache queue -> now <= t ->
  genuine ((k, t) :: seen) t (lru_put cache k (mkReplayEntry t seq)) (queue ++ [(t, k, seq)]).
Proof.
  intros (Hnd & He & Hq & Hs) Hnow. destruct (lru_put_view cache k (mkReplayEntry t seq)) as [_ Hv].
  split_and!; [rewrite Hv|rewrite Hv| |].
  - unfold ztake. rewrite fmap_take. eapply sublist_NoDup; [|apply sublist_take].
    cbn. rewrite without_fst. constructor; [|by apply NoDup_filter]. by intros [? _]%list_elem_of_filter.
  - intros k' e' Hin. eapply elem_of_sublist in Hin; [|apply sublist_take]. apply elem_of_app.
    apply elem_of_cons in Hin as [[= -> ->]|[_ Hin]%list_elem_of_filter]; [right; by apply list_elem_of_singleton|left; by apply He].
  - intros ts k' q [Hi|[= -> -> ->]%list_elem_of_singleton]%elem_of_app.
    + destruct (Hq _ _ _ Hi). split; [by right|lia].
    + split; [left|lia].
  - apply StronglySorted_app. split_and!; [|done|by repeat constructor].
    intros [[ts k'] q] y Hi ->%list_elem_of_singleton. destruct (Hq _ _ _ Hi). unfold older. cbn. lia.
Qed.

Definition op_seen (op : replay_op) : list (bytes * Z) :=
  match op_key op with Some d => [(d, op_time op)] | None => [] end.

Lemma genuine_add n seen now s d t w :
  genuine_shard seen now s -> seqs_wf n s -> n + 1 < 2 ^ 64 -> now <= t ->
  genuine_shard ((d, t) :: seen) t (shard_add instant_min s d t w).
Proof.
  intros Hg Hs Hn Ht. rewrite (shard_add_eq n) by done. apply (genuine_put seen now); [|done].
  by apply (genuine_shard_cleanup seen now).
Qed.

Lemma genuine_step n seen now s op w :
  genuine_shard seen now s -> seqs_wf n s -> n + 1 < 2 ^ 64 -> now <= op_time op ->
  genuine_shard (op_seen op ++ seen) (op_time op) (shard_step s op w).
Proof.
  intros Hg Hs Hn Ht. destruct op as [d t|d t|t]; cbn [shard_step op_time op_seen op_key app] in *.
  - rewrite shard_check_eq. cbv zeta beta iota.
    assert (genuine_shard seen now (mkReplayShard (snd (lru_get (rs_cache (shard_cleanup instant_min s t w)) d))
      (rs_queue (shard_cleanup instant_min s t w)) (rs_seq_counter (shard_cleanup instant_min s t w)))) as Hc.
    { apply genuine_get. by apply (genuine_shard_cleanup seen now). }
    case_match.
    + eapply (genuine_mono seen _ now); [exact Hc| |done]. intros. by right.
    + eapply (genuine_add n); try done. exact (seqs_cleanup n s t w Hs).
  - by eapply (genuine_add n).
  - eapply (genuine_mono seen _ now); [by apply (genuine_shard_cleanup seen now)|done|done].
Qed.

Lemma genuine_found seen now s k t w :
  genuine_shard seen now s -> fst (shard_check instant_min s k t w) = true ->
  exists t0, (k, t0) ∈ seen /\ (w <> 0 -> cutoff_at t w <= t0).
Proof.
  intros Hg. rewrite shard_check_eq. cbn. intros Hf%bool_decide_eq_true.
  destruct (genuine_shard_cleanup seen now s t w Hg) as [(Hnd & He & Hq & _) Hc].
  destruct (lru_get_view (rs_cache (shard_cleanup instant_min s t w)) k) as (Hget & _). rewrite Hget in Hf.
  destruct Hf as [e Ha%assoc_Some]. apply He in Ha. exists (seen_at e). split; [by apply (Hq _ _ _ Ha)|].
  intros Hw. exact (Hc Hw _ Ha).
Qed.

End ShardFacts.

(** ** The whole checker *)

Section CheckerFacts.
Context `{LruCacheOk}.
Variable default_hash : bytes -> Z.
Variable instant_min : Z.
Local Notation step := (replay_step default_hash instant_min).
Local Notation run := (replay_run default_hash instant_min).
Local Notation check_and_add := (check_and_add_internal default_hash instant_min).

(** The shard of a string, the same for the life of a checker. *)
Definition shard_of (d : bytes) : Z := Z.land (u64 (default_hash d)) (num_shards - 1).

Lemma shard_of_range d : 0 <= shard_of d < num_shards.
Proof.
  unfold shard_of, num_shards. change (64 - 1) with (Z.ones 6). rewrite Z.land_ones by lia.
  apply Z.mod_pos_bound. lia.
Qed.

Definition checker_wf (w : Z) (c : ReplayChecker) : Prop :=
  zlen (rc_shards c) = num_shards /\ rc_shard_mask c = num_shards - 1 /\ rc_window c = w.

Definition op_hits (op : replay_op) (i : Z) : bool :=
  match op_key op with Some d => shard_of d =? i | None => true end.

Lemma checker_shard w c i : checker_wf w c -> 0 <= i < num_shards -> is_Some (zget (rc_shards c) i).
Proof.
  intros (Hl & _) Hi. unfold zget. rewrite decide_True by lia. apply lookup_lt_is_Some. unfold zlen in Hl. lia.
Qed.

Lemma checker_set w c d s a b e :
  checker_wf w c ->
  checker_wf w (set_shard c (shard_of d) s a b e) /\
  forall i, 0 <= i < num_shards ->
    zget (rc_shards (set_shard c (shard_of d) s a b e)) i = if shard_of d =? i then Some s else zget (rc_shards c) i.
Proof.
  intros (Hl & Hm & Hw). pose proof (shard_of_range d). split.
  - split_and!; cbn; try done. unfold zlen in *. by rewrite length_insert.
  - intros i Hi. unfold zget. rewrite !decide_True by lia. cbn. destruct (Z.eqb_spec (shard_of d) i) as [<-|Hne].
    + apply list_lookup_insert_eq. unfold zlen in Hl. lia.
    + apply list_lookup_insert_ne. lia.
Qed.

(** Every operation succeeds and acts on one shard, or on all of them. *)
Lemma step_shards w c op :
  checker_wf w c ->
  exists c', step c op = Some c' /\ checker_wf w c' /\
    forall i s, 0 <= i < num_shards -> zget (rc_shards c) i = Some s ->
      zget (rc_shards c') i = Some (if op_hits op i then shard_step instant_min s op w else s).
Proof.
  intros Hwf. pose proof Hwf as (Hl & Hm & Hw). destruct op as [d t|d t|t]; cbn [replay_step op_hits op_key].
  - destruct (checker_shard w c (shard_of d) Hwf (shard_of_range d)) as [s Hs].
    unfold check_and_add_internal, get_shard_idx. rewrite Hm. fold (shard_of d). rewrite Hs, Hw.
    destruct (shard_check instant_min s d t w) as [found s1] eqn:Ec.
    set (s' := if found then s1 else shard_add instant_min s1 d t w).
    exists (set_shard c (shard_of d) s' (u64 (rc_checks c + 1)) (if found then u64 (rc_hits c + 1) else rc_hits c)
              (if found then rc_additions c else u64 (rc_additions c + 1))).
    destruct (checker_set w c d s' (u64 (rc_checks c + 1)) (if found then u64 (rc_hits c + 1) else rc_hits c)
                (if found then rc_additions c else u64 (rc_additions c + 1)) Hwf) as [Hwf' Hget].
    split; [by destruct found|]. split; [done|]. intros i s0 Hi Hs0. rewrite Hget by done.
    destruct (Z.eqb_spec (shard_of d) i) as [<-|]; [|done].
    rewrite Hs0 in Hs. injection Hs as ->. cbn [shard_step]. rewrite Ec. done.
  - destruct (checker_shard w c (shard_of d) Hwf (shard_of_range d)) as [s Hs].
    unfold add_only, get_shard_idx. rewrite Hm. fold (shard_of d). rewrite Hs, Hw.
    eexists. split; [done|].
    destruct (checker_set w c d (shard_add instant_min s d t w) (rc_checks c) (rc_hits c) (u64 (rc_additions c + 1)) Hwf) as [Hwf' Hget].
    split; [done|]. intros i s0 Hi Hs0. rewrite Hget by done.
    destruct (Z.eqb_spec (shard_of d) i) as [<-|]; [|done].
    rewrite Hs0 in Hs. injection Hs as ->. done.
  - eexists. split; [done|]. split.
    + split_and!; cbn; try done. unfold zlen in *. by rewrite length_map.
    + intros i s Hi Hs. cbn. unfold zget in *. rewrite decide_True in * by lia. rewrite list_lookup_fmap, Hs, Hw. done.
Qed.

Lemma new_shards cap w i :
  checker_wf w (ReplayChecker_new cap w) /\
  (0 <= i < num_shards ->
   zget (rc_shards (ReplayChecker_new cap w)) i = Some (ReplayShard_new (shard_capacity cap))).
Proof.
  split; [by split_and!|]. intros Hi. unfold zget. rewrite decide_True by lia. cbn.
  apply lookup_replicate. unfold num_shards in *. split; [done|lia].
Qed.

(** An invariant of one shard that its steps preserve holds after every run. *)
Lemma run_shard_inv (I : list replay_op -> Z -> ReplayShard -> Prop) w i :
  0 <= i < num_shards ->
  (forall done op n s, I done n s -> op_hits op i = true -> I (done ++ [op]) (n + 1) (shard_step instant_min s op w)) ->
  (forall done op n s, I done n s -> op_hits op i = false -> I (done ++ [op]) (n + 1) s) ->
  forall ops done n c s, checker_wf w c -> zget (rc_shards c) i = Some s -> I done n s ->
  exists c' s', run c ops = Some c' /\ checker_wf w c' /\ zget (rc_shards c') i = Some s' /\
    I (done ++ ops) (n + zlen ops) s'.
Proof.
  intros Hi Hhit Hmiss ops. induction ops as [|op ops IH]; intros dn n c s Hwf Hs HI.
  - exists c, s. rewrite app_nil_r. change (zlen (@nil replay_op)) with 0. by rewrite Z.add_0_r.
  - destruct (step_shards w c op Hwf) as (c1 & Hstep & Hwf1 & Hsh). specialize (Hsh i s Hi Hs).
    destruct (IH (dn ++ [op]) (n + 1) c1 _ Hwf1 Hsh) as (c' & s' & Hrun & ? & ? & HI').
    { destruct (op_hits op i) eqn:Ho; auto. }
    exists c', s'. cbn [replay_run]. rewrite Hstep. split_and!; try done.
    rewrite zlen_cons. rewrite <-app_assoc in HI'. by replace (n + (1 + zlen ops)) with (n + 1 + zlen ops) by lia.
Qed.

(** The strings an operation list shows to the shard of [k]. *)
Definition shard_keys (k : bytes) (ops : list replay_op) : gset bytes :=
  list_to_set (filter (fun d => shard_of d = shard_of k) (omap op_key ops)).

Lemma shard_keys_snoc k ops op :
  shard_keys k (ops ++ [op]) = (if op_hits op (shard_of k) then op_keys op else ∅) ∪ shard_keys k ops.
Proof.
  unfold shard_keys, op_hits, op_keys. rewrite omap_app, filter_app, list_to_set_app_L, (comm_L (∪)).
  f_equal. change (omap op_key [op]) with (match op_key op with Some d => [d] | None => [] end).
  destruct (op_key op) as [d|]; [|done]. destruct (Z.eqb_spec (shard_of d) (shard_of k)) as [E|E].
  - rewrite filter_cons_True by done. apply list_to_set_singleton_L.
  - rewrite filter_cons_False by done. done.
Qed.

Definition step_inv (P : list replay_op -> Z -> ReplayShard -> Prop) (dn : list replay_op) (n : Z) (s : ReplayShard) : Prop :=
  n < 2 ^ 64 -> seqs_wf n s /\ P dn n s.

Lemma seqs_weaken n s : seqs_wf n s -> seqs_wf (n + 1) s.
Proof. intros [? ?]. split; [lia|done]. Qed.

Lemma reachable_seqs cap w pre i :
  0 <= i < num_shards -> zlen pre < 2 ^ 64 ->
  exists c s, run (ReplayChecker_new cap w) pre = Some c /\ checker_wf w c /\ zget (rc_shards c) i = Some s /\
    seqs_wf (zlen pre) s /\ lru_cap (rs_cache s) = shard_capacity cap.
Proof.
  intros Hi Hn. destruct (new_shards cap w i) as [Hwf Hs].
  destruct (run_shard_inv (step_inv (fun _ _ s => lru_cap (rs_cache s) = shard_capacity cap)) w i Hi) with
    (ops := pre) (done := @nil replay_op) (n := 0) (c := ReplayChecker_new cap w) (s := ReplayShard_new (shard_capacity cap))
    as (c & s & ? & ? & ? & HI); [| |done|by apply Hs| |].
  - intros dn op n s HI _ Hlt. destruct HI as [Hq Hc]; [lia|]. split; [by apply seqs_step|].
    by rewrite shard_step_cap.
  - intros dn op n s HI _ Hlt. destruct HI as [Hq Hc]; [lia|]. split; [by apply seqs_weaken|done].
  - intros _. split; [|cbn; by destruct (lru_new_view (shard_capacity cap))].
    split; cbn; [lia|]. intros ? ? ? Hin. by apply elem_of_nil in Hin.
  - exists c, s. rewrite Z.add_0_l in HI. destruct (HI Hn). done.
Qed.

Lemma accepted_remembers n w c k t0 c2 s :
  checker_wf w c -> zget (rc_shards c) (shard_of k) = Some s -> seqs_wf n s -> n + 1 < 2 ^ 64 ->
  1 <= lru_cap (rs_cache s) -> check_and_add c k t0 = Some (false, c2) ->
  exists s2, checker_wf w c2 /\ zget (rc_shards c2) (shard_of k) = Some s2 /\ seqs_wf (n + 1) s2 /\
    remembers k t0 ∅ (lru_cap (rs_cache s)) s2.
Proof.
  intros Hwf Hs Hq Hn Hcap Hacc.
  destruct (step_shards w c (RCheckAdd k t0) Hwf) as (c' & Hstep & Hwf' & Hsh).
  specialize (Hsh _ s (shard_of_range k) Hs). cbn [replay_step] in Hstep. rewrite Hacc in Hstep. injection Hstep as <-.
  cbn [op_hits op_key] in Hsh. rewrite Z.eqb_refl in Hsh.
  exists (shard_step instant_min s (RCheckAdd k t0) w). split_and!; [done|done|by apply seqs_step|].
  destruct Hwf as (_ & Hm & Hw). revert Hacc. unfold check_and_add_internal, get_shard_idx. rewrite Hm. fold (shard_of k).
  rewrite Hs, Hw. cbn [shard_step]. rewrite shard_check_eq. cbv zeta beta iota. case_match; [done|]. intros _.
  pose proof (shard_cleanup_facts instant_min s t0 w) as (Ec & _).
  destruct (lru_get_view (rs_cache (shard_cleanup instant_min s t0 w)) k) as (_ & Eg & _).
  replace (lru_cap (rs_cache s)) with (lru_cap (snd (lru_get (rs_cache (shard_cleanup instant_min s t0 w)) k))) by congruence.
  eapply (add_remembers instant_min n); [exact (seqs_cleanup instant_min n s t0 w Hq)|done|cbn; lia].
Qed.

Lemma run_remembers w cap k t0 mid c s n :
  checker_wf w c -> zget (rc_shards c) (shard_of k) = Some s -> seqs_wf n s -> remembers k t0 ∅ cap s ->
  Forall (recent instant_min w t0) (map op_time mid) ->
  Z.of_nat (size (shard_keys k mid ∖ {[k]})) < cap -> n + zlen mid < 2 ^ 64 ->
  exists c' s' T, run c mid = Some c' /\ checker_wf w c' /\ zget (rc_shards c') (shard_of k) = Some s' /\
    remembers k t0 T cap s'.
Proof.
  intros Hwf Hs Hq Hr Hrec Hsize Hn.
  set (P := fun (dn : list replay_op) (_ : Z) s => Forall (recent instant_min w t0) (map op_time dn) ->
              Z.of_nat (size (shard_keys k dn ∖ {[k]})) < cap -> remembers k t0 (shard_keys k dn) cap s).
  destruct (run_shard_inv (step_inv P) w (shard_of k) (shard_of_range k)) with
    (ops := mid) (done := @nil replay_op) (n := n) (c := c) (s := s) as (c' & s' & ? & ? & ? & HI); [| |done|done| |].
  - intros dn op m s0 HI Ho Hlt. destruct HI as [Hq0 HP]; [lia|]. split; [by apply seqs_step|].
    intros Hrec0 Hsz. rewrite map_app in Hrec0. apply Forall_app in Hrec0 as [Hr0 Ht].
    rewrite shard_keys_snoc, Ho in Hsz |- *. eapply (remembers_step instant_min m); [|done|done|by inversion Ht|done].
    apply HP; [done|]. eapply Z.le_lt_trans; [|exact Hsz]. apply inj_le, subseteq_size. set_solver.
  - intros dn op m s0 HI Ho Hlt. destruct HI as [Hq0 HP]; [lia|]. split; [by apply seqs_weaken|].
    intros Hrec0 Hsz. rewrite map_app in Hrec0. apply Forall_app in Hrec0 as [Hr0 _].
    rewrite shard_keys_snoc, Ho, (left_id_L ∅ (∪)) in Hsz |- *. by apply HP.
  - intros _. split; [done|]. intros _ _. done.
  - exists c', s', (shard_keys k mid). destruct (HI Hn) as [_ HP]. by split_and!; try apply HP.
Qed.

Lemma check_remembered w cap k t0 T t1 c s :
  checker_wf w c -> zget (rc_shards c) (shard_of k) = Some s -> remembers k t0 T cap s -> recent instant_min w t0 t1 ->
  exists c', check_and_add c k t1 = Some (true, c').
Proof.
  intros (_ & Hm & Hw) Hs Hr Ht. unfold check_and_add_internal, get_shard_idx. rewrite Hm. fold (shard_of k).
  rewrite Hs, Hw. pose proof (remembers_found instant_min k t0 T cap s t1 w Hr Ht) as Hf.
  destruct (shard_check instant_min s k t1 w) as [found s']. cbn in Hf. subst found. by eexists.
Qed.

(** Replays are caught: when a string has been accepted at time [t0], whatever the checker is
    asked next, the same string is found at any time within the window, as long as fewer other
    strings than a shard's capacity have reached its shard in between. *)
Lemma replay_caught cap w pre k t0 mid t1 c1 c2 :
  zlen pre + zlen mid + 2 < 2 ^ 64 ->
  run (ReplayChecker_new cap w) pre = Some c1 -> check_and_add c1 k t0 = Some (false, c2) ->
  Forall (recent instant_min w t0) (map op_time mid ++ [t1]) ->
  Z.of_nat (size (shard_keys k mid ∖ {[k]})) < shard_capacity cap ->
  exists c3 c4, run c2 mid = Some c3 /\ check_and_add c3 k t1 = Some (true, c4).
Proof.
  intros Hn Hpre Hacc Hrec Hsize. pose proof (shard_of_range k) as Hi. pose proof (zlen_nonneg mid).
  destruct (reachable_seqs cap w pre (shard_of k) Hi) as (c & s & Hrun & Hwf & Hs & Hq & Hcap); [lia|].
  rewrite Hpre in Hrun. injection Hrun as <-.
  destruct (accepted_remembers (zlen pre) w c1 k t0 c2 s) as (s2 & Hwf2 & Hs2 & Hq2 & Hr2); [done..|lia| |done|].
  { rewrite Hcap. unfold shard_capacity. lia. }
  apply Forall_app in Hrec as [Hmid Hlast]. inversion Hlast; subst. rewrite Hcap in Hr2.
  destruct (run_remembers w (shard_capacity cap) k t0 mid c2 s2 (zlen pre + 1)) as (c3 & s3 & T & Hrun3 & Hwf3 & Hs3 & Hr3); [done..|lia|].
  exists c3. destruct (check_remembered w (shard_capacity cap) k t0 T t1 c3 s3) as [c4 Hc4]; [done..|]. by exists c4.
Qed.

(** The strings an operation list shows, with their times. *)
Definition seen_in (ops : list replay_op) : list (bytes * Z) := ops ≫= op_seen.

Lemma sorted_snoc_le (ops : list replay_op) t :
  StronglySorted Z.le (map op_time ops ++ [t]) -> Forall (fun op => op_time op <= t) ops.
Proof.
  intros [Hle _]%StronglySorted_app. apply Forall_forall. intros op Hin.
  apply Hle; [by apply list_elem_of_fmap_2|by left].
Qed.

Lemma run_genuine cap w ops k :
  zlen ops < 2 ^ 64 -> StronglySorted Z.le (map op_time ops) ->
  exists c s, run (ReplayChecker_new cap w) ops = Some c /\ checker_wf w c /\
    zget (rc_shards c) (shard_of k) = Some s /\
    forall t, Forall (fun op => op_time op <= t) ops -> genuine_shard (seen_in ops) t s.
Proof.
  intros Hn Hsort. destruct (new_shards cap w (shard_of k)) as [Hwf Hs].
  set (P := fun (dn : list replay_op) (_ : Z) s => StronglySorted Z.le (map op_time dn) ->
              forall t, Forall (fun op => op_time op <= t) dn -> genuine_shard (seen_in dn) t s).
  destruct (run_shard_inv (step_inv P) w (shard_of k) (shard_of_range k)) with
    (ops := ops) (done := @nil replay_op) (n := 0) (c := ReplayChecker_new cap w) (s := ReplayShard_new (shard_capacity cap))
    as (c & s & ? & ? & ? & HI); [| |done|by apply Hs, shard_of_range| |].
  - intros dn op n s HI _ Hlt. destruct HI as [Hq HP]; [lia|]. split; [by apply seqs_step|].
    intros Hso t [_ Ht]%Forall_app. rewrite map_app in Hso. pose proof (sorted_snoc_le dn (op_time op) Hso) as Hle.
    apply StronglySorted_app in Hso as (_ & Hso & _). inversion Ht; subst.
    eapply genuine_mono; [eapply (genuine_step instant_min n); [by apply HP|done|done|reflexivity]| |done].
    unfold seen_in. rewrite bind_app. cbn. rewrite app_nil_r. set_solver.
  - intros dn op n s HI _ Hlt. destruct HI as [Hq HP]; [lia|]. split; [by apply seqs_weaken|].
    intros Hso t [Hle Ht]%Forall_app. rewrite map_app in Hso. apply StronglySorted_app in Hso as (_ & Hso & _).
    eapply genuine_mono; [by apply HP| |done]. unfold seen_in. rewrite bind_app. set_solver.
  - intros _. destruct (lru_new_view (shard_capacity cap)) as [Hv _]. split.
    + split; cbn; [lia|]. intros ? ? ? Hin. by apply elem_of_nil in Hin.
    + intros _ t _. split_and!; cbn; rewrite ?Hv; cbn; [constructor| | |constructor].
      * intros ? ? Hin. by apply elem_of_nil in Hin.
      * intros ? ? ? Hin. by apply elem_of_nil in Hin.
  - exists c, s. rewrite Z.add_0_l in HI. destruct (HI Hn) as [_ HP]. split_and!; try done. by apply HP.
Qed.

(** No false alarms.  When operations happen in time order and a string is reported as a
    replay, that string has been shown to the checker before, and, when there is a window, not
    longer ago than the window. *)
Theorem replay_genuine cap w ops c k t c' :
  zlen ops < 2 ^ 64 -> StronglySorted Z.le (map op_time ops ++ [t]) ->
  run (ReplayChecker_new cap w) ops = Some c -> check_and_add c k t = Some (true, c') ->
  exists op, op ∈ ops /\ op_key op = Some k /\ (w <> 0 -> cutoff_at instant_min t w <= op_time op).
Proof.
  intros Hn Hsort Hrun Hchk. pose proof (sorted_snoc_le _ _ Hsort) as Hle.
  apply StronglySorted_app in Hsort as (_ & Hsort & _).
  destruct (run_genuine cap w ops k Hn Hsort) as (c0 & s & Hrun0 & (_ & Hm & Hw) & Hs & Hg).
  rewrite Hrun in Hrun0. injection Hrun0 as <-.
  revert Hchk. unfold check_and_add_internal, get_shard_idx. rewrite Hm. fold (shard_of k). rewrite Hs, Hw.
  destruct (shard_check instant_min s k t w) as [found s'] eqn:Ec. destruct found; [|done]. intros _.
  destruct (genuine_found instant_min (seen_in ops) t s k t w) as (t0 & Hin & Hc); [by apply Hg|by rewrite Ec|].
  apply list_elem_of_bind in Hin as (op & Hop & Hin). exists op. split; [done|].
  unfold op_seen in Hop. destruct (op_key op) as [d|] eqn:Ek; [|by apply elem_of_nil in Hop].
  apply list_elem_of_singleton in Hop as [= -> ->]. done.
Qed.

End CheckerFacts.

(** ** A cache that satisfies the interface, and runs of the checker *)

#[export] Instance ListLru : LruCache := {
  Lru := Z * list (bytes * ReplayEntry);
  lru_new cap := (cap, []);
  lru_peek c k := assoc k c.2;
  lru_get c k :=
    (assoc k c.2, match assoc k c.2 with Some e => (c.1, (k, e) :: without k c.2) | None => c end);
  lru_put c k e := (c.1, ztake c.1 ((k, e) :: without k c.2));
  lru_pop c k := (c.1, without k c.2);
  lru_len c := zlen c.2
}.

#[export] Instance ListLruOk : LruCacheOk.
Proof.
  refine {| lru_view := snd; lru_cap := fst |}; try done.
  - intros [cap l] k. cbn. by destruct (assoc k l).
Defined.

Definition demo_replay_ops : list replay_op := [RCheckAdd [2] 20; RCheckAdd [1] 40].
Definition demo_replay_checker : ReplayChecker :=
  default (ReplayChecker_new 128 100) (replay_run le_val 0 (ReplayChecker_new 128 100) demo_replay_ops).
Definition demo_replay_hit : bool * ReplayChecker :=
  default (false, demo_replay_checker) (check_and_add_internal le_val 0 demo_replay_checker [1] 120).

