(* ===== verification/Constants.v ===== *)
(** * Protocol constants and length rules: [protocol/constants.rs], [protocol/frame.rs] *)

From S2P Require Import Prelude Random.

(** ** Protocol tags (constants.rs:73-111) *)

Inductive ProtoTag := Abridged | Intermediate | Secure.

#[global] Instance ProtoTag_eq_dec : EqDecision ProtoTag.
Proof. solve_decision. Defined.

(** [self as u32] *)
Definition ProtoTag_as_u32 (t : ProtoTag) : Z :=
  match t with
  | Abridged => 0xefefefef
  | Intermediate => 0xeeeeeeee
  | Secure => 0xdddddddd
  end.

Definition ProtoTag_from_bytes (bs : bytes) : option ProtoTag :=
  let v := le_val bs in
  if v =? 0xefefefef then Some Abridged
  else if v =? 0xeeeeeeee then Some Intermediate
  else if v =? 0xdddddddd then Some Secure
  else None.

Definition ProtoTag_to_bytes (t : ProtoTag) : bytes := le_bytes 4 (ProtoTag_as_u32 t).

Definition PROTO_TAG_ABRIDGED : bytes := [0xef; 0xef; 0xef; 0xef].
Definition PROTO_TAG_INTERMEDIATE : bytes := [0xee; 0xee; 0xee; 0xee].
Definition PROTO_TAG_SECURE : bytes := [0xdd; 0xdd; 0xdd; 0xdd].

Definition ProtoTag_as_bytes (t : ProtoTag) : bytes :=
  match t with
  | Abridged => PROTO_TAG_ABRIDGED
  | Intermediate => PROTO_TAG_INTERMEDIATE
  | Secure => PROTO_TAG_SECURE
  end.

(** ** Handshake layout and limits (constants.rs:116-159) *)

Definition SKIP_LEN : Z := 8.
Definition PREKEY_LEN : Z := 32.
Definition KEY_LEN : Z := 32.
Definition IV_LEN : Z := 16.
Definition HANDSHAKE_LEN : Z := 64.
Definition PROTO_TAG_POS : Z := 56.
Definition DC_IDX_POS : Z := 60.

Definition MIN_MSG_LEN : Z := 12.
Definition MAX_MSG_LEN : Z := Z.shiftl 1 24.
Definition CBC_PADDING : Z := 16.
Definition PADDING_FILLER : bytes := [0x04; 0x00; 0x00; 0x00].

Definition TLS_VERSION : bytes := [0x03; 0x03].
Definition TLS_RECORD_HANDSHAKE : Z := 0x16.
Definition TLS_RECORD_CHANGE_CIPHER : Z := 0x14.
Definition TLS_RECORD_APPLICATION : Z := 0x17.
Definition TLS_RECORD_ALERT : Z := 0x15.
Definition MAX_TLS_CHUNK_SIZE : Z := 16384 + 256.

(** ** Secure intermediate lengths (constants.rs:162-183) *)

Definition is_valid_secure_payload_len (data_len : Z) : bool := is_multiple_of data_len 4.

Definition secure_payload_len_from_wire_len (wire_len : Z) : option Z :=
  if wire_len <? 4 then None else Some (wire_len - wire_len mod 4).

Definition secure_padding_len {R} `{Rng R} (data_len : Z) (rng : R) : Z * R :=
  let '(x, rng) := rng_range rng 3 in (x + 1, rng).

(** ** Nonce patterns (constants.rs:214-229) *)

Definition RESERVED_NONCE_FIRST_BYTES : bytes := [0xef].
Definition RESERVED_NONCE_BEGINNINGS : list bytes :=
  [ [0x48; 0x45; 0x41; 0x44]; [0x50; 0x4F; 0x53; 0x54]; [0x47; 0x45; 0x54; 0x20];
    [0xee; 0xee; 0xee; 0xee]; [0xdd; 0xdd; 0xdd; 0xdd]; [0x16; 0x03; 0x01; 0x02] ].
Definition RESERVED_NONCE_CONTINUES : list bytes := [ [0x00; 0x00; 0x00; 0x00] ].

(** ** RPC constants (constants.rs:235-318) *)

Definition RPC_FLAG_HAS_AD_TAG : Z := 0x8.
Definition RPC_FLAG_MAGIC : Z := 0x1000.
Definition RPC_FLAG_EXTMODE2 : Z := 0x20000.
Definition RPC_FLAG_PAD : Z := 0x8000000.
Definition RPC_FLAG_INTERMEDIATE : Z := 0x20000000.
Definition RPC_FLAG_ABRIDGED : Z := 0x40000000.
Definition RPC_FLAG_QUICKACK : Z := 0x80000000.
Definition RPC_FLAG_NOT_ENCRYPTED : Z := 0x2.

Definition RPC_NONCE_U32 : Z := 0x7acb87aa.
Definition RPC_HANDSHAKE_U32 : Z := 0x7682eef5.
Definition RPC_HANDSHAKE_ERROR_U32 : Z := 0x6a27beda.
Definition TL_PROXY_TAG_U32 : Z := 0xdb1e26ae.
Definition RPC_PROXY_REQ_U32 : Z := 0x36cef1ee.
Definition RPC_PROXY_ANS_U32 : Z := 0x4403da0d.
Definition RPC_CLOSE_CONN_U32 : Z := 0x1fcf425d.
Definition RPC_CLOSE_EXT_U32 : Z := 0x5eb634a2.
Definition RPC_SIMPLE_ACK_U32 : Z := 0x3bac409b.
Definition RPC_PING_U32 : Z := 0x5730a2df.
Definition RPC_PONG_U32 : Z := 0x8430eaa7.
Definition RPC_CRYPTO_NONE_U32 : Z := 0.
Definition RPC_CRYPTO_AES_U32 : Z := 1.
Definition USE_CRC32C : Z := 0x800.

(** ** [protocol/frame.rs]: frame modes and message lengths *)

Inductive FrameMode := FM_Abridged | FM_Intermediate | FM_SecureIntermediate | FM_Full.

Definition max_overhead (m : FrameMode) : Z :=
  match m with
  | FM_Abridged => 4
  | FM_Intermediate => 4
  | FM_SecureIntermediate => 4 + 3
  | FM_Full => 12 + 16
  end.

Definition validate_message_length (len : Z) : bool :=
  ((MIN_MSG_LEN <=? len) && (len <=? MAX_MSG_LEN)) && is_multiple_of len (zlen PADDING_FILLER).

(** ** Facts *)

Lemma ProtoTag_to_bytes_as_bytes t : ProtoTag_to_bytes t = ProtoTag_as_bytes t.
Proof. by destruct t. Qed.

Lemma ProtoTag_from_to t : ProtoTag_from_bytes (ProtoTag_to_bytes t) = Some t.
Proof. by destruct t. Qed.

Lemma ProtoTag_from_bytes_inv bs t :
  length bs = 4%nat -> bytes_ok bs -> ProtoTag_from_bytes bs = Some t ->
  bs = ProtoTag_to_bytes t.
Proof.
  intros L Hok. unfold ProtoTag_from_bytes.
  pose proof (le_bytes_le_val bs Hok) as E. rewrite L in E.
  repeat case_match; intros [= <-]; rewrite <-E; unfold ProtoTag_to_bytes; f_equal; by apply Z.eqb_eq.
Qed.

(** The length a receiver recovers from the wire length of a padded frame. *)
Lemma secure_len_recovers data_len padding :
  4 <= data_len -> is_valid_secure_payload_len data_len = true -> 0 <= padding <= 3 ->
  secure_payload_len_from_wire_len (data_len + padding) = Some data_len.
Proof.
  intros Hl Hm Hp. unfold is_valid_secure_payload_len in Hm.
  apply is_multiple_of_true in Hm; [|lia].
  unfold secure_payload_len_from_wire_len.
  destruct (Z.ltb_spec (data_len + padding) 4); [lia|].
  rewrite Z.add_mod, Hm, Z.add_0_l, Z.mod_mod, Z.mod_small by lia. f_equal. lia.
Qed.

Lemma secure_len_bounds wire n :
  secure_payload_len_from_wire_len wire = Some n -> 4 <= n <= wire /\ wire - n <= 3 /\ n mod 4 = 0.
Proof.
  unfold secure_payload_len_from_wire_len. destruct (Z.ltb_spec wire 4); [done|].
  intros [= <-]. pose proof (Z.mod_pos_bound wire 4 ltac:(lia)).
  pose proof (Z.div_mod wire 4 ltac:(lia)). repeat split; try lia.
  rewrite Zminus_mod_idemp_r, Z.sub_diag. done.
Qed.

Lemma secure_padding_bounds {R} `{RngOk R} data_len (rng : R) :
  1 <= fst (secure_padding_len data_len rng) <= 3.
Proof.
  unfold secure_padding_len. pose proof (rng_range_bound rng 3 ltac:(lia)).
  destruct (rng_range rng 3). cbn in *. lia.
Qed.

(** Runs of padding words. *)
Definition fillers (k : nat) : bytes := concat (replicate k PADDING_FILLER).

Lemma zlen_fillers k : zlen (fillers k) = 4 * Z.of_nat k.
Proof.
  unfold fillers. induction k as [|k IH]; [done|]. cbn [replicate concat]. rewrite zlen_app, IH.
  change (zlen PADDING_FILLER) with 4. lia.
Qed.
