(* ===== verification/FrameCodec.v ===== *)
(** * MTProto transport framing on buffers: [stream/frame.rs], [stream/frame_codec.rs]

    A decoder looks at the bytes received so far and either asks for more, consumes exactly
    one frame, or fails; an encoder appends one frame to an output buffer.  A [&mut BytesMut]
    argument is passed and returned explicitly. *)

From S2P Require Import Prelude Random Constants.

(** ** Frames (frame.rs:19-117) *)

Record FrameMeta := mkFrameMeta {
  quickack : bool;
  simple_ack : bool;
  padding_len : Z
}.

Record Frame := mkFrame { frame_data : bytes; frame_meta : FrameMeta }.

Definition FrameMeta_new : FrameMeta := mkFrameMeta false false 0.
Definition with_quickack (m : FrameMeta) : FrameMeta := mkFrameMeta true (simple_ack m) (padding_len m).
Definition with_simple_ack (m : FrameMeta) : FrameMeta := mkFrameMeta (quickack m) true (padding_len m).
Definition with_padding (m : FrameMeta) (len : Z) : FrameMeta :=
  mkFrameMeta (quickack m) (simple_ack m) len.
Definition FrameMeta_has_flags (m : FrameMeta) : bool := quickack m || simple_ack m.

Definition Frame_new (data : bytes) : Frame := mkFrame data FrameMeta_new.
Definition Frame_with_meta (data : bytes) (meta : FrameMeta) : Frame := mkFrame data meta.
Definition Frame_quickack (data : bytes) : Frame := mkFrame data (mkFrameMeta true false 0).
Definition Frame_simple_ack (data : bytes) : Frame := mkFrame data (mkFrameMeta false true 0).

(** ** Errors *)

Definition frame_too_large (len max : Z) : IoError :=
  mkIoError InvalidData "frame too large: {} bytes (max {})" [len; max].
Definition abridged_misaligned (len : Z) : IoError :=
  mkIoError InvalidInput "abridged frame must be 4-byte aligned, got {} bytes" [len].
Definition abridged_too_large (len : Z) : IoError :=
  mkIoError InvalidInput "frame too large: {} bytes" [len].
Definition frame_len_overflow : IoError := mkIoError InvalidData "frame length overflow" [].
Definition secure_bad_len (len : Z) : IoError :=
  mkIoError InvalidData "invalid secure frame length: {}" [len].
Definition secure_misaligned (len : Z) : IoError :=
  mkIoError InvalidData "secure payload must be 4-byte aligned, got {}" [len].

(** ** Abridged (frame_codec.rs:83-187) *)

Definition decode_abridged (src : bytes) (max_size : Z) : io_result (option Frame) * bytes :=
  match src with
  | [] => (Ok None, src)
  | first_byte :: _ =>
      let len_words := Z.land first_byte 0x7f in
      let meta := if 0x80 <=? first_byte then with_quickack FrameMeta_new else FrameMeta_new in
      let header :=
        if len_words =? 0x7f then
          if zlen src <? 4 then None
          else Some (le_val (slice src 1 4 ++ [0]), 4)
        else Some (len_words, 1) in
      match header with
      | None => (Ok None, src)
      | Some (len_words, header_len) =>
          if usize_max <? len_words * 4 then (Err frame_len_overflow, src)
          else
            let byte_len := len_words * 4 in
            if max_size <? byte_len then (Err (frame_too_large byte_len max_size), src)
            else
              let total_len := header_len + byte_len in
              if zlen src <? total_len then (Ok None, src)
              else
                let src := zdrop header_len src in
                let data := ztake byte_len src in
                (Ok (Some (Frame_with_meta data meta)), zdrop byte_len src)
      end
  end.

Definition encode_abridged (frame : Frame) (dst : bytes) : io_result unit * bytes :=
  let data := frame_data frame in
  if negb (is_multiple_of (zlen data) 4) then (Err (abridged_misaligned (zlen data)), dst)
  else if simple_ack (frame_meta frame) then (Ok tt, dst ++ reverse data)
  else
    let len_words := zlen data / 4 in
    if len_words <? 0x7f then
      let len_byte := u8 len_words in
      let len_byte := if quickack (frame_meta frame) then Z.lor len_byte 0x80 else len_byte in
      (Ok tt, (dst ++ [len_byte]) ++ data)
    else if len_words <? Z.shiftl 1 24 then
      let first := if quickack (frame_meta frame) then Z.lor 0x7f 0x80 else 0x7f in
      let len_bytes := le_bytes 4 (u32 len_words) in
      (Ok tt, ((dst ++ [first]) ++ ztake 3 len_bytes) ++ data)
    else (Err (abridged_too_large (zlen data)), dst).

(** ** Intermediate (frame_codec.rs:191-248) *)

(** The length word and its QuickACK bit, as both intermediate decoders read them. *)
Definition read_len_word (src : bytes) : FrameMeta * Z :=
  let len := le_val (ztake 4 src) in
  if 0x80000000 <=? len then (with_quickack FrameMeta_new, len - 0x80000000)
  else (FrameMeta_new, len).

Definition decode_intermediate (src : bytes) (max_size : Z) : io_result (option Frame) * bytes :=
  if zlen src <? 4 then (Ok None, src)
  else
    let '(meta, len) := read_len_word src in
    if max_size <? len then (Err (frame_too_large len max_size), src)
    else
      let total_len := 4 + len in
      if zlen src <? total_len then (Ok None, src)
      else
        let src := zdrop 4 src in
        let data := ztake len src in
        (Ok (Some (Frame_with_meta data meta)), zdrop len src).

Definition encode_intermediate (frame : Frame) (dst : bytes) : io_result unit * bytes :=
  let data := frame_data frame in
  if simple_ack (frame_meta frame) then (Ok tt, dst ++ data)
  else
    let len := u32 (zlen data) in
    let len := if quickack (frame_meta frame) then Z.lor len 0x80000000 else len in
    (Ok tt, (dst ++ le_bytes 4 len) ++ data).

(** ** Secure intermediate (frame_codec.rs:252-337) *)

Definition decode_secure (src : bytes) (max_size : Z) : io_result (option Frame) * bytes :=
  if zlen src <? 4 then (Ok None, src)
  else
    let '(meta, len) := read_len_word src in
    if max_size <? len then (Err (frame_too_large len max_size), src)
    else
      let total_len := 4 + len in
      if zlen src <? total_len then (Ok None, src)
      else
        match secure_payload_len_from_wire_len len with
        | None => (Err (secure_bad_len len), src)
        | Some data_len =>
            let padding := len - data_len in
            let meta := with_padding meta (u8 padding) in
            let src := zdrop 4 src in
            let all_data := ztake len src in
            let data := ztake data_len all_data in
            (Ok (Some (Frame_with_meta data meta)), zdrop len src)
        end.

Section Codec.
Context {R : Type} `{Rng R}.

Definition encode_secure (frame : Frame) (dst : bytes) (rng : R) : io_result unit * bytes * R :=
  let data := frame_data frame in
  if simple_ack (frame_meta frame) then (Ok tt, dst ++ data, rng)
  else if negb (is_valid_secure_payload_len (zlen data)) then
    (Err (secure_misaligned (zlen data)), dst, rng)
  else
    let '(padding, rng) := secure_padding_len (zlen data) rng in
    let total_len := zlen data + padding in
    let len := u32 total_len in
    let len := if quickack (frame_meta frame) then Z.lor len 0x80000000 else len in
    let dst := (dst ++ le_bytes 4 len) ++ data in
    if 0 <? padding then
      let '(pad, rng) := rng_bytes rng padding in
      (Ok tt, dst ++ pad, rng)
    else (Ok tt, dst, rng).

(** ** The unified codec (frame_codec.rs:25-79) *)

Record FrameCodec := mkFrameCodec {
  fc_proto_tag : ProtoTag;
  fc_max_frame_size : Z;
  fc_rng : R
}.

Definition FrameCodec_new (tag : ProtoTag) (rng : R) : FrameCodec :=
  mkFrameCodec tag (16 * 1024 * 1024) rng.

Definition with_max_frame_size (c : FrameCodec) (size : Z) : FrameCodec :=
  mkFrameCodec (fc_proto_tag c) size (fc_rng c).

Definition FrameCodec_decode (c : FrameCodec) (src : bytes) : io_result (option Frame) * bytes :=
  match fc_proto_tag c with
  | Abridged => decode_abridged src (fc_max_frame_size c)
  | Intermediate => decode_intermediate src (fc_max_frame_size c)
  | Secure => decode_secure src (fc_max_frame_size c)
  end.

Definition FrameCodec_encode (c : FrameCodec) (frame : Frame) (dst : bytes)
    : io_result unit * bytes * FrameCodec :=
  match fc_proto_tag c with
  | Abridged => (encode_abridged frame dst, c)
  | Intermediate => (encode_intermediate frame dst, c)
  | Secure =>
      let '(r, dst, rng) := encode_secure frame dst (fc_rng c) in
      (r, dst, mkFrameCodec (fc_proto_tag c) (fc_max_frame_size c) rng)
  end.

(** ** The codec trait and its factory (frame.rs:122-160, frame_codec.rs:342-509)

    [Box<dyn FrameCodec>]: a record of the trait's methods.  [encode] reports how many bytes
    it appended. *)

Record DynCodec := mkDynCodec {
  dyn_proto_tag : ProtoTag;
  dyn_encode : Frame -> bytes -> R -> io_result Z * bytes * R;
  dyn_decode : bytes -> io_result (option Frame) * bytes;
  dyn_min_header_size : Z;
  dyn_max_frame_size : Z
}.

(** [let before = dst.len(); encode(..)?; Ok(dst.len() - before)] *)
Definition count_written (before : bytes) (r : io_result unit * bytes) : io_result Z * bytes :=
  match r with
  | (Ok _, dst) => (Ok (zlen dst - zlen before), dst)
  | (Err e, dst) => (Err e, dst)
  end.

Definition AbridgedCodec_new : DynCodec :=
  let max_frame_size := 16 * 1024 * 1024 in
  {| dyn_proto_tag := Abridged;
     dyn_encode frame dst rng := (count_written dst (encode_abridged frame dst), rng);
     dyn_decode src := decode_abridged src max_frame_size;
     dyn_min_header_size := 1;
     dyn_max_frame_size := 16 * 1024 * 1024 |}.

Definition IntermediateCodec_new : DynCodec :=
  let max_frame_size := 16 * 1024 * 1024 in
  {| dyn_proto_tag := Intermediate;
     dyn_encode frame dst rng := (count_written dst (encode_intermediate frame dst), rng);
     dyn_decode src := decode_intermediate src max_frame_size;
     dyn_min_header_size := 4;
     dyn_max_frame_size := 16 * 1024 * 1024 |}.

Definition SecureCodec_new : DynCodec :=
  let max_frame_size := 16 * 1024 * 1024 in
  {| dyn_proto_tag := Secure;
     dyn_encode frame dst rng :=
       let '(r, dst', rng) := encode_secure frame dst rng in (count_written dst (r, dst'), rng);
     dyn_decode src := decode_secure src max_frame_size;
     dyn_min_header_size := 4;
     dyn_max_frame_size := 16 * 1024 * 1024 |}.

Definition create_codec (tag : ProtoTag) : DynCodec :=
  match tag with
  | Abridged => AbridgedCodec_new
  | Intermediate => IntermediateCodec_new
  | Secure => SecureCodec_new
  end.

End Codec.
Arguments FrameCodec R : clear implicits.
Arguments DynCodec R : clear implicits.

(** ** A common view of the three decoders

    [frame_header] is the header a buffer starts with: the metadata, the number of header
    bytes and the number of bytes that follow; [None] while the header is incomplete. *)

Definition frame_header (tag : ProtoTag) (src : bytes) : option (FrameMeta * Z * Z) :=
  match tag with
  | Abridged =>
      match src with
      | [] => None
      | b :: _ =>
          let meta := if 0x80 <=? b then with_quickack FrameMeta_new else FrameMeta_new in
          if Z.land b 0x7f =? 0x7f then
            if zlen src <? 4 then None else Some (meta, 4, le_val (slice src 1 4 ++ [0]) * 4)
          else Some (meta, 1, Z.land b 0x7f * 4)
      end
  | Intermediate | Secure =>
      if zlen src <? 4 then None
      else Some (fst (read_len_word src), 4, snd (read_len_word src))
  end.

(** What a decoder makes of the body, once it is complete. *)
Definition frame_body (tag : ProtoTag) (meta : FrameMeta) (body : bytes) : io_result (option Frame) :=
  match tag with
  | Abridged | Intermediate => Ok (Some (Frame_with_meta body meta))
  | Secure =>
      match secure_payload_len_from_wire_len (zlen body) with
      | None => Err (secure_bad_len (zlen body))
      | Some n => Ok (Some (Frame_with_meta (ztake n body) (with_padding meta (u8 (zlen body - n)))))
      end
  end.

Definition decode_spec (tag : ProtoTag) (max : Z) (src : bytes) : io_result (option Frame) * bytes :=
  match frame_header tag src with
  | None => (Ok None, src)
  | Some (meta, h, len) =>
      if bool_decide (tag = Abridged) && (usize_max <? len) then (Err frame_len_overflow, src)
      else if max <? len then (Err (frame_too_large len max), src)
      else if zlen src <? h + len then (Ok None, src)
      else
        match frame_body tag meta (slice src h (h + len)) with
        | Err e => (Err e, src)
        | Ok r => (Ok r, zdrop (h + len) src)
        end
  end.

Definition decode_tag (tag : ProtoTag) (max : Z) (src : bytes) : io_result (option Frame) * bytes :=
  match tag with
  | Abridged => decode_abridged src max
  | Intermediate => decode_intermediate src max
  | Secure => decode_secure src max
  end.

Lemma ext_len_bound src :
  bytes_ok src -> 0 <= le_val (slice src 1 4 ++ [0]) < 2 ^ 24.
Proof.
  intros Hok. rewrite le_val_app. change (le_val [0]) with 0. rewrite Z.mul_0_r, Z.add_0_r.
  pose proof (le_val_bound (slice src 1 4)) as Hb.
  assert (bytes_ok (slice src 1 4)) as Hs by by apply Forall_take, Forall_drop.
  specialize (Hb Hs). split; [lia|]. eapply Z.lt_le_trans; [apply Hb|].
  change (2 ^ 24) with (256 ^ 3). apply Z.pow_le_mono_r; [lia|].
  unfold slice. rewrite zlen_ztake. lia.
Qed.

Lemma read_len_word_bound src :
  bytes_ok src -> 0 <= snd (read_len_word src) < 2 ^ 31.
Proof.
  intros Hok. unfold read_len_word.
  pose proof (le_val_bound (ztake 4 src) ltac:(by apply Forall_take)) as Hb.
  assert (le_val (ztake 4 src) < 2 ^ 32).
  { eapply Z.lt_le_trans; [apply Hb|]. change (2 ^ 32) with (256 ^ 4).
    apply Z.pow_le_mono_r; [lia|]. rewrite zlen_ztake. lia. }
  destruct (Z.leb_spec 0x80000000 (le_val (ztake 4 src))); cbn [snd]; lia.
Qed.

Lemma frame_header_len tag src meta h len :
  bytes_ok src -> frame_header tag src = Some (meta, h, len) -> 1 <= h <= 4 /\ 0 <= len < 2 ^ 31.
Proof.
  intros Hok. unfold frame_header. pose proof (read_len_word_bound src Hok).
  pose proof (ext_len_bound src Hok).
  destruct tag; [destruct src as [|b l]; [done|]| |]; repeat case_match; intros;
    simplify_eq; try lia.
  all: assert (0 <= Z.land b 127 < 2 ^ 7)
    by (change 127 with (Z.ones 7); rewrite Z.land_ones by lia; apply Z.mod_pos_bound; lia); lia.
Qed.

(** Each decoder is [decode_spec]. *)
Lemma decode_tag_spec tag max src :
  bytes_ok src -> decode_tag tag max src = decode_spec tag max src.
Proof.
  intros Hok. unfold decode_tag, decode_spec.
  destruct (frame_header tag src) as [[[meta h] len]|] eqn:Eh.
  - pose proof (frame_header_len _ _ _ _ _ Hok Eh) as [Hh Hl]. unfold frame_header in Eh.
    assert (zdrop (h + len) src = zdrop len (zdrop h src)) as Hd
      by (rewrite zdrop_zdrop by lia; f_equal; lia).
    assert (slice src h (h + len) = ztake len (zdrop h src)) as Hs
      by (unfold slice; f_equal; lia).
    rewrite Hd, Hs. destruct tag.
    + unfold decode_abridged. destruct src as [|b l]; [done|]. rewrite bool_decide_eq_true_2 by done.
      cbn [andb frame_body]. destruct (Z.land b 127 =? 127); [destruct (zlen (b :: l) <? 4); [done|]|];
        injection Eh as <- <- <-; by repeat case_match.
    + unfold decode_intermediate. destruct (zlen src <? 4); [done|]. injection Eh as <- <- <-.
      destruct (read_len_word src) as [meta len]. cbn [fst snd frame_body] in *. by repeat case_match.
    + unfold decode_secure. destruct (zlen src <? 4); [done|]. injection Eh as <- <- <-.
      destruct (read_len_word src) as [meta len]. cbn [fst snd frame_body] in *.
      rewrite bool_decide_eq_false_2 by done. cbn [andb].
      destruct (max <? len); [done|]. destruct (Z.ltb_spec (zlen src) (4 + len)); [done|].
      replace (zlen (ztake len (zdrop 4 src))) with len
        by (rewrite zlen_ztake, zlen_zdrop; lia).
      by destruct (secure_payload_len_from_wire_len len).
  - unfold frame_header in Eh. destruct tag.
    + unfold decode_abridged. destruct src as [|b l]; [done|]. by repeat case_match.
    + unfold decode_intermediate. by destruct (zlen src <? 4).
    + unfold decode_secure. by destruct (zlen src <? 4).
Qed.

(** More bytes never change a complete header. *)
Lemma frame_header_app tag src extra x :
  frame_header tag src = Some x -> frame_header tag (src ++ extra) = Some x.
Proof.
  unfold frame_header, read_len_word. pose proof (zlen_nonneg extra).
  destruct tag; [destruct src as [|b l]; [done|]| |].
  - cbn [app]. change (b :: l ++ extra) with ((b :: l) ++ extra).
    destruct (Z.land b 127 =? 127); [|done].
    destruct (Z.ltb_spec (zlen (b :: l)) 4); [done|].
    rewrite zlen_app. destruct (Z.ltb_spec (zlen (b :: l) + zlen extra) 4); [lia|].
    by rewrite slice_app_l by lia.
  - destruct (Z.ltb_spec (zlen src) 4); [done|].
    rewrite zlen_app. destruct (Z.ltb_spec (zlen src + zlen extra) 4); [lia|].
    by rewrite ztake_app_le by lia.
  - destruct (Z.ltb_spec (zlen src) 4); [done|].
    rewrite zlen_app. destruct (Z.ltb_spec (zlen src + zlen extra) 4); [lia|].
    by rewrite ztake_app_le by lia.
Qed.

(** A decision other than "need more" is final: later bytes only lengthen the rest. *)
Lemma decode_spec_app tag max src extra r rest :
  bytes_ok src -> decode_spec tag max src = (r, rest) -> r <> Ok None ->
  decode_spec tag max (src ++ extra) = (r, rest ++ extra).
Proof.
  intros Hok. unfold decode_spec.
  destruct (frame_header tag src) as [[[meta h] len]|] eqn:Eh; [|intros [= <- <-] []; done].
  rewrite (frame_header_app _ _ extra _ Eh).
  pose proof (frame_header_len _ _ _ _ _ Hok Eh) as [Hh Hl]. pose proof (zlen_nonneg extra).
  destruct (_ && _); [by intros [= <- <-]|]. destruct (max <? len); [by intros [= <- <-]|].
  destruct (Z.ltb_spec (zlen src) (h + len)); [intros [= <- <-] []; done|].
  rewrite zlen_app. destruct (Z.ltb_spec (zlen src + zlen extra) (h + len)); [lia|].
  rewrite slice_app_l, zdrop_app_le by lia.
  by destruct (frame_body _ _ _); intros [= <- <-].
Qed.

(** A header that is complete, followed by too few bytes, asks for more. *)
Lemma decode_spec_more tag max src meta h len :
  frame_header tag src = Some (meta, h, len) -> len <= max -> len <= usize_max ->
  zlen src < h + len -> decode_spec tag max src = (Ok None, src).
Proof.
  intros Eh Hm Hu Hs. unfold decode_spec. rewrite Eh.
  destruct (Z.ltb_spec usize_max len); [lia|]. rewrite andb_false_r.
  destruct (Z.ltb_spec max len); [lia|]. by destruct (Z.ltb_spec (zlen src) (h + len)); [|lia].
Qed.

Lemma decode_spec_complete tag max hdr body rest meta f :
  frame_header tag hdr = Some (meta, zlen hdr, zlen body) -> zlen body <= max ->
  zlen body <= usize_max -> frame_body tag meta body = Ok f ->
  decode_spec tag max (hdr ++ body ++ rest) = (Ok f, rest).
Proof.
  intros Eh Hm Hu Hf. unfold decode_spec. rewrite (frame_header_app _ _ (body ++ rest) _ Eh).
  pose proof (zlen_nonneg rest). pose proof (zlen_nonneg hdr). pose proof (zlen_nonneg body).
  destruct (Z.ltb_spec usize_max (zlen body)); [lia|]. rewrite andb_false_r.
  destruct (Z.ltb_spec max (zlen body)); [lia|].
  rewrite !zlen_app. destruct (Z.ltb_spec (zlen hdr + (zlen body + zlen rest)) (zlen hdr + zlen body)); [lia|].
  rewrite slice_app_r by lia. replace (zlen hdr - zlen hdr) with 0 by lia.
  rewrite slice_prefix by lia. rewrite Hf. f_equal.
  rewrite app_assoc. apply zdrop_app. by rewrite zlen_app.
Qed.

(** ** The encoders produce what the decoders read *)

(** The frames a codec with limit [max] can carry.  [simple_ack] frames are sent without a
    header and are not meant to be decoded; a secure frame travels with up to 3 bytes of
    padding, and an empty one would be rejected by the receiver. *)
Definition encodable (tag : ProtoTag) (max : Z) (f : Frame) : Prop :=
  simple_ack (frame_meta f) = false /\ bytes_ok (frame_data f) /\
  match tag with
  | Abridged => zlen (frame_data f) mod 4 = 0 /\ zlen (frame_data f) <= max /\ zlen (frame_data f) < 2 ^ 26
  | Intermediate => zlen (frame_data f) <= max /\ zlen (frame_data f) < 2 ^ 31
  | Secure => zlen (frame_data f) mod 4 = 0 /\ 4 <= zlen (frame_data f) /\
              zlen (frame_data f) + 3 <= max /\ zlen (frame_data f) + 3 < 2 ^ 31
  end.

#[global] Instance encodable_dec tag max f : Decision (encodable tag max f).
Proof. unfold encodable. destruct tag; apply _. Defined.

(** [hdr ++ body] is a wire image of [f]: the header announces the body, no shorter header is
    complete, and the body carries [f]'s data and QuickACK flag. *)
Definition wire_image (tag : ProtoTag) (max : Z) (f : Frame) (hdr body : bytes) (pad : Z) : Prop :=
  exists meta,
    frame_header tag hdr = Some (meta, zlen hdr, zlen body) /\
    (forall p, zlen p < zlen hdr -> p `prefix_of` hdr -> frame_header tag p = None) /\
    zlen body <= max /\ zlen body <= usize_max /\ bytes_ok hdr /\ bytes_ok body /\
    frame_body tag meta body =
      Ok (Some (mkFrame (frame_data f) (mkFrameMeta (quickack (frame_meta f)) false pad))).

Lemma header_prefix_byte b p : zlen p < zlen [b] -> p `prefix_of` [b] -> frame_header Abridged p = None.
Proof.
  intros Hl _. change (zlen [b]) with 1 in Hl. destruct p; [done|].
  rewrite zlen_cons in Hl. pose proof (zlen_nonneg p). lia.
Qed.

Lemma read_len_word_bytes len q rest :
  0 <= len < 2 ^ 31 ->
  read_len_word (le_bytes 4 (if q : bool then Z.lor len 0x80000000 else len) ++ rest) =
    (if q then with_quickack FrameMeta_new else FrameMeta_new, len).
Proof.
  intros Hl. unfold read_len_word. rewrite ztake_app by done.
  destruct q.
  - change 0x80000000 with (2 ^ 31). rewrite lor_pow2_add by lia.
    rewrite le_val_le_bytes_small by (change (256 ^ Z.of_nat 4) with (2 ^ 32); lia).
    destruct (Z.leb_spec (2 ^ 31) (len + 2 ^ 31)); [|lia]. f_equal. lia.
  - rewrite le_val_le_bytes_small by (change (256 ^ Z.of_nat 4) with (2 ^ 32); lia).
    by destruct (Z.leb_spec 0x80000000 len); [lia|].
Qed.

Lemma len_word_header tag len q :
  tag <> Abridged -> 0 <= len < 2 ^ 31 ->
  let hdr := le_bytes 4 (if q : bool then Z.lor len 0x80000000 else len) in
  frame_header tag hdr =
    Some (if q then with_quickack FrameMeta_new else FrameMeta_new, zlen hdr, len) /\
  (forall p, zlen p < zlen hdr -> p `prefix_of` hdr -> frame_header tag p = None).
Proof.
  intros Ht Hl hdr. unfold frame_header. split.
  - pose proof (read_len_word_bytes len q [] Hl) as Hr. rewrite app_nil_r in Hr. fold hdr in Hr.
    rewrite Hr. by destruct tag.
  - intros p Hp _. change (zlen hdr) with 4 in Hp.
    destruct (Z.ltb_spec (zlen p) 4); [by destruct tag|lia].
Qed.

Lemma intermediate_image max f dst :
  encodable Intermediate max f ->
  exists hdr body, encode_intermediate f dst = (Ok tt, dst ++ hdr ++ body) /\
    wire_image Intermediate max f hdr body 0.
Proof.
  intros (Hs & Hok & Hm & Hl). unfold encode_intermediate. rewrite Hs.
  pose proof (zlen_nonneg (frame_data f)).
  destruct (len_word_header Intermediate (zlen (frame_data f)) (quickack (frame_meta f)))
    as [Hh Hp]; [done|done|].
  unfold u32. rewrite Z.mod_small by lia.
  eexists _, (frame_data f). split; [by rewrite <-app_assoc|].
  eexists. split; [apply Hh|]. split; [apply Hp|].
  repeat split; [done|unfold usize_max; lia|apply le_bytes_ok|done|].
  cbn. by destruct (quickack (frame_meta f)).
Qed.

Lemma u8_small z : 0 <= z < 256 -> u8 z = z.
Proof. apply Z.mod_small. Qed.

Lemma secure_image {R} `{RngOk R} max f dst (rng : R) :
  encodable Secure max f ->
  exists hdr body rng' pad, encode_secure f dst rng = (Ok tt, dst ++ hdr ++ body, rng') /\
    1 <= pad <= 3 /\ wire_image Secure max f hdr body pad.
Proof.
  intros (Hs & Hok & Ha & Hl4 & Hm & Hl). unfold encode_secure. rewrite Hs.
  assert (is_valid_secure_payload_len (zlen (frame_data f)) = true) as Hv
    by (apply is_multiple_of_true; [lia|done]).
  rewrite Hv. cbn [negb]. pose proof (secure_padding_bounds (zlen (frame_data f)) rng) as Hpad.
  destruct (secure_padding_len _ rng) as [pad rng1]. cbn [fst] in Hpad.
  destruct (Z.ltb_spec 0 pad); [|lia].
  pose proof (rng_bytes_len rng1 pad ltac:(lia)) as Lp. pose proof (rng_bytes_ok rng1 pad) as Op.
  destruct (rng_bytes rng1 pad) as [pb rng2]. cbn [fst] in Lp, Op.
  unfold u32. rewrite Z.mod_small by lia.
  destruct (len_word_header Secure (zlen (frame_data f) + pad) (quickack (frame_meta f)))
    as [Hh Hp]; [done|lia|].
  set (len := zlen (frame_data f) + pad) in *.
  exists (le_bytes 4 (if quickack (frame_meta f) then Z.lor len 0x80000000 else len)),
    (frame_data f ++ pb), rng2, pad.
  split; [by rewrite <-!app_assoc|]. split; [done|].
  assert (zlen (frame_data f ++ pb) = len) as Lb by (rewrite zlen_app; lia).
  eexists. rewrite Lb. split; [apply Hh|]. split; [apply Hp|].
  repeat split; [lia|unfold usize_max; lia|apply le_bytes_ok|by apply bytes_ok_app|].
  unfold frame_body. rewrite Lb. unfold len. rewrite secure_len_recovers by (done || lia).
  replace (zlen (frame_data f) + pad - zlen (frame_data f)) with pad by lia.
  rewrite ztake_app by done. rewrite u8_small by lia.
  by destruct (quickack (frame_meta f)).
Qed.

(** The first byte of an abridged header: seven length bits and the QuickACK bit. *)
Lemma abridged_first_byte w q :
  0 <= w < 128 ->
  let b := if q : bool then Z.lor w 0x80 else w in
  Z.land b 0x7f = w /\ (0x80 <=? b) = q /\ is_byte b.
Proof.
  intros Hw b. change 0x7f with (Z.ones 7). rewrite Z.land_ones by lia. unfold b, is_byte.
  destruct q.
  - change 0x80 with (2 ^ 7). rewrite lor_pow2_add by lia. change (2 ^ 7) with 128.
    split; [|split; [apply Z.leb_le|]; lia].
    replace (w + 128) with (w + 1 * 128) by lia. rewrite Z.mod_add by lia. by apply Z.mod_small.
  - split; [by apply Z.mod_small|split; [apply Z.leb_gt|]; lia].
Qed.

Lemma take3_le_bytes z : 0 <= z < 2 ^ 24 -> le_val (ztake 3 (le_bytes 4 z) ++ [0]) = z.
Proof.
  intros Hz. change (ztake 3 (le_bytes 4 z)) with (le_bytes 3 z). rewrite le_val_app.
  change (le_val [0]) with 0. rewrite Z.mul_0_r, Z.add_0_r.
  by apply le_val_le_bytes_small.
Qed.

Lemma abridged_short_image w q :
  0 <= w < 127 ->
  let hdr := [if q : bool then Z.lor w 0x80 else w] in
  frame_header Abridged hdr =
    Some (if q then with_quickack FrameMeta_new else FrameMeta_new, zlen hdr, w * 4) /\
  bytes_ok hdr.
Proof.
  intros Hw hdr. destruct (abridged_first_byte w q ltac:(lia)) as (Hland & Hq & Hb).
  split; [|by constructor]. unfold hdr, frame_header. rewrite Hland, Hq.
  by destruct (Z.eqb_spec w 127); [lia|].
Qed.

Lemma abridged_long_image w q :
  0 <= w < 2 ^ 24 ->
  let hdr := [if q : bool then Z.lor 0x7f 0x80 else 0x7f] ++ ztake 3 (le_bytes 4 w) in
  frame_header Abridged hdr =
    Some (if q then with_quickack FrameMeta_new else FrameMeta_new, zlen hdr, w * 4) /\
  (forall p, zlen p < zlen hdr -> p `prefix_of` hdr -> frame_header Abridged p = None) /\
  bytes_ok hdr.
Proof.
  intros Hw hdr. destruct (abridged_first_byte 127 q ltac:(lia)) as (Hland & Hq & Hb).
  assert (slice hdr 1 4 = ztake 3 (le_bytes 4 w)) as Hsl by done.
  split; [|split].
  - unfold frame_header. change (zlen hdr) with 4. rewrite Hsl, take3_le_bytes by done.
    unfold hdr. cbn [app]. by rewrite Hland, Hq.
  - intros [|x p] Hl Hp; [done|]. unfold hdr in Hp. cbn [app] in Hp.
    apply prefix_cons_inv_1 in Hp as ->. unfold frame_header. rewrite Hland. cbn [Z.eqb].
    change (zlen hdr) with 4 in Hl. by destruct (Z.ltb_spec (zlen ((if q then Z.lor 127 128 else 127) :: p)) 4); [|lia].
  - constructor; [done|]. apply Forall_take, le_bytes_ok.
Qed.

Lemma abridged_image max f dst :
  encodable Abridged max f ->
  exists hdr body, encode_abridged f dst = (Ok tt, dst ++ hdr ++ body) /\
    wire_image Abridged max f hdr body 0.
Proof.
  intros (Hs & Hok & Ha & Hm & Hl). unfold encode_abridged.
  rewrite (proj2 (is_multiple_of_true _ 4 ltac:(lia)) Ha), Hs. cbn [negb].
  pose proof (zlen_nonneg (frame_data f)). set (data := frame_data f) in *.
  pose proof (Z.div_mod (zlen data) 4 ltac:(lia)) as Hdm.
  assert (zlen data = zlen data / 4 * 4) as Hw by lia.
  assert (frame_body Abridged (if quickack (frame_meta f) then with_quickack FrameMeta_new else FrameMeta_new) data =
    Ok (Some (mkFrame data (mkFrameMeta (quickack (frame_meta f)) false 0)))) as Hbody
    by (cbn; by destruct (quickack (frame_meta f))).
  destruct (Z.ltb_spec (zlen data / 4) 127).
  - destruct (abridged_short_image (zlen data / 4) (quickack (frame_meta f))) as [Hh Hb]; [lia|].
    rewrite u8_small by lia. eexists [_], data. split; [by rewrite <-app_assoc|].
    rewrite <-Hw in Hh. eexists. split; [apply Hh|]. split; [apply header_prefix_byte|].
    repeat split; [lia|unfold usize_max; lia|done|done|done].
  - change (Z.shiftl 1 24) with (2 ^ 24). destruct (Z.ltb_spec (zlen data / 4) (2 ^ 24)); [|lia].
    destruct (abridged_long_image (zlen data / 4) (quickack (frame_meta f))) as (Hh & Hp & Hb); [lia|].
    unfold u32. rewrite Z.mod_small by lia.
    eexists ([_] ++ ztake 3 (le_bytes 4 (zlen data / 4))), data. split; [by rewrite <-!app_assoc|].
    rewrite <-Hw in Hh. eexists. split; [apply Hh|]. split; [apply Hp|].
    repeat split; [lia|unfold usize_max; lia|done|done|done].
Qed.

(** ** Using a codec on a stream *)

Section CodecStreams.
Context {R : Type} `{Rng R}.

(** Sending a list of frames through one codec. *)
Fixpoint encode_frames (c : FrameCodec R) (fs : list Frame) (dst : bytes) : option (bytes * FrameCodec R) :=
  match fs with
  | [] => Some (dst, c)
  | f :: fs =>
      match FrameCodec_encode c f dst with
      | (Ok _, dst, c) => encode_frames c fs dst
      | (Err _, _, _) => None
      end
  end.

(** Taking every complete frame out of a receive buffer. *)
Fixpoint drain (fuel : nat) (c : FrameCodec R) (src : bytes) : list Frame * io_result bytes :=
  match fuel with
  | O => ([], Ok src)
  | S fuel =>
      match FrameCodec_decode c src with
      | (Ok (Some f), src) => let '(fs, r) := drain fuel c src in (f :: fs, r)
      | (Ok None, src) => ([], Ok src)
      | (Err e, _) => ([], Err e)
      end
  end.

(** Every frame takes at least one byte, so the buffer's length bounds their number. *)
Definition receive (c : FrameCodec R) (src : bytes) : list Frame * io_result bytes :=
  drain (S (length src)) c src.

End CodecStreams.

(** The decoded image of a frame: same data, same QuickACK request. *)
Definition same_frame (f g : Frame) : Prop :=
  frame_data g = frame_data f /\ quickack (frame_meta g) = quickack (frame_meta f) /\
  simple_ack (frame_meta g) = false.

Section CodecFacts.
Context {R : Type} `{RngOk R}.

Lemma FrameCodec_decode_spec (c : FrameCodec R) src :
  bytes_ok src -> FrameCodec_decode c src = decode_spec (fc_proto_tag c) (fc_max_frame_size c) src.
Proof. intros. rewrite <-decode_tag_spec by done. by destruct c as [[]]. Qed.

Lemma FrameCodec_encode_image (c : FrameCodec R) f dst :
  encodable (fc_proto_tag c) (fc_max_frame_size c) f ->
  exists hdr body c' pad,
    FrameCodec_encode c f dst = (Ok tt, dst ++ hdr ++ body, c') /\
    fc_proto_tag c' = fc_proto_tag c /\ fc_max_frame_size c' = fc_max_frame_size c /\
    wire_image (fc_proto_tag c) (fc_max_frame_size c) f hdr body pad /\
    (if decide (fc_proto_tag c = Secure) then 1 <= pad <= 3 else pad = 0).
Proof.
  destruct c as [tag max rng]. unfold FrameCodec_encode.
  cbn [fc_proto_tag fc_max_frame_size fc_rng]. intros He. destruct tag.
  - destruct (abridged_image max f dst He) as (h & b & -> & ?). by eexists h, b, _, 0.
  - destruct (intermediate_image max f dst He) as (h & b & -> & ?). by eexists h, b, _, 0.
  - destruct (secure_image max f dst rng He) as (h & b & rng' & pad & -> & ? & ?).
    by eexists h, b, _, pad.
Qed.

Lemma wire_image_decode (c : FrameCodec R) f hdr body pad rest :
  wire_image (fc_proto_tag c) (fc_max_frame_size c) f hdr body pad -> bytes_ok rest ->
  FrameCodec_decode c ((hdr ++ body) ++ rest) =
    (Ok (Some (mkFrame (frame_data f) (mkFrameMeta (quickack (frame_meta f)) false pad))), rest).
Proof.
  intros (meta & Hh & _ & Hm & Hu & Oh & Ob & Hf) Hr.
  rewrite FrameCodec_decode_spec by (rewrite !bytes_ok_app; done).
  rewrite <-app_assoc. by eapply decode_spec_complete.
Qed.

Lemma wire_image_partial (c : FrameCodec R) f hdr body pad p :
  wire_image (fc_proto_tag c) (fc_max_frame_size c) f hdr body pad ->
  p `prefix_of` hdr ++ body -> p <> hdr ++ body ->
  FrameCodec_decode c p = (Ok None, p).
Proof.
  intros (meta & Hh & Hpre & Hm & Hu & Oh & Ob & Hf) Hp Hne.
  assert (zlen p < zlen hdr + zlen body) as Hl.
  { destruct Hp as [k Hk]. destruct k as [|x k]; [rewrite app_nil_r in Hk; congruence|].
    rewrite <-zlen_app, Hk, zlen_app, zlen_cons. pose proof (zlen_nonneg k). lia. }
  assert (bytes_ok p) as Op.
  { destruct Hp as [k Hk]. assert (bytes_ok (p ++ k)) as Hpk by (rewrite <-Hk; by apply bytes_ok_app).
    apply bytes_ok_app in Hpk. tauto. }
  rewrite FrameCodec_decode_spec by done.
  destruct (Z.lt_ge_cases (zlen p) (zlen hdr)) as [Hlt|Hge].
  - unfold decode_spec. rewrite Hpre; [done|done|].
    destruct (prefix_weak_total p hdr (hdr ++ body)) as [|Hh']; [done|by apply prefix_app_r|done|].
    destruct Hh' as [k ->]. rewrite zlen_app in Hlt. pose proof (zlen_nonneg k). lia.
  - destruct (prefix_weak_total hdr p (hdr ++ body)) as [Hh'|Hh']; [by apply prefix_app_r|done| |].
    + destruct Hh' as [k ->]. eapply decode_spec_more; [by apply frame_header_app|done|done|].
      rewrite zlen_app in *. lia.
    + destruct Hh' as [k ->]. rewrite zlen_app in Hge. pose proof (zlen_nonneg k).
      assert (k = []) as -> by (apply zlen_zero_nil; lia). rewrite app_nil_r in *.
      eapply decode_spec_more; [done|done|done|]. lia.
Qed.

(** A decoded frame consumes at least its header byte, and what is left is in order. *)
Lemma FrameCodec_decode_progress (c : FrameCodec R) src f rest :
  bytes_ok src -> FrameCodec_decode c src = (Ok (Some f), rest) ->
  (length rest < length src)%nat /\ bytes_ok rest /\ exists used, src = used ++ rest.
Proof.
  intros Hok. rewrite FrameCodec_decode_spec by done. unfold decode_spec.
  destruct (frame_header _ src) as [[[meta h] len]|] eqn:Eh; [|done].
  pose proof (frame_header_len _ _ _ _ _ Hok Eh) as [Hh Hl].
  destruct (_ && _); [done|]. destruct (_ <? len); [done|].
  destruct (Z.ltb_spec (zlen src) (h + len)); [done|].
  destruct (frame_body _ _ _); [|done]. intros [= -> <-].
  split; [|split; [by apply Forall_drop|]].
  - unfold zdrop, zlen in *. rewrite length_drop. lia.
  - exists (ztake (h + len) src). by rewrite ztake_zdrop.
Qed.

Lemma drain_fuel (c : FrameCodec R) src n m :
  bytes_ok src -> (length src < n)%nat -> (length src < m)%nat -> drain n c src = drain m c src.
Proof.
  revert src m. induction n as [|n IH]; intros src m Hok Hn Hm; [lia|].
  destruct m as [|m]; [lia|]. cbn [drain].
  destruct (FrameCodec_decode c src) as [[[f|]|e] rest] eqn:E; [|done|done].
  destruct (FrameCodec_decode_progress _ _ _ _ Hok E) as (? & ? & _).
  by rewrite (IH rest m) by (done || lia).
Qed.

Lemma receive_step (c : FrameCodec R) src f rest :
  bytes_ok src -> FrameCodec_decode c src = (Ok (Some f), rest) ->
  receive c src = (f :: fst (receive c rest), snd (receive c rest)).
Proof.
  intros Hok E. destruct (FrameCodec_decode_progress _ _ _ _ Hok E) as (? & ? & _).
  unfold receive at 1. cbn [drain]. rewrite E.
  rewrite (drain_fuel c rest (length src) (S (length rest))) by (done || lia).
  fold (receive c rest). by destruct (receive c rest).
Qed.

Lemma receive_split (c : FrameCodec R) src extra :
  bytes_ok src -> bytes_ok extra ->
  receive c (src ++ extra) =
    match receive c src with
    | (fs, Err e) => (fs, Err e)
    | (fs, Ok rest) => (fs ++ fst (receive c (rest ++ extra)), snd (receive c (rest ++ extra)))
    end.
Proof.
  intros Hok Hex. remember (length src) as n eqn:En. revert src Hok En.
  induction n as [n IH] using lt_wf_ind. intros src Hok ->.
  destruct (FrameCodec_decode c src) as [[[f|]|e] rest] eqn:E.
  - destruct (FrameCodec_decode_progress _ _ _ _ Hok E) as (Hlt & Hok' & _).
    assert (FrameCodec_decode c (src ++ extra) = (Ok (Some f), rest ++ extra)) as E'.
    { rewrite FrameCodec_decode_spec in * by (rewrite ?bytes_ok_app; done).
      by apply decode_spec_app. }
    rewrite (receive_step _ _ _ _ Hok E).
    rewrite (receive_step _ (src ++ extra) _ _ ltac:(by apply bytes_ok_app) E').
    rewrite (IH (length rest) Hlt rest Hok' eq_refl).
    destruct (receive c rest) as [fs [rest'|e]]; done.
  - assert (rest = src) as ->.
    { rewrite FrameCodec_decode_spec in E by done. unfold decode_spec in E.
      repeat case_match; simplify_eq; try done.
      unfold frame_body in *. repeat case_match; simplify_eq. }
    unfold receive at 2. cbn [drain]. rewrite E. cbn [app]. apply surjective_pairing.
  - unfold receive at 2. cbn [drain]. rewrite E. unfold receive. cbn [drain].
    assert (FrameCodec_decode c (src ++ extra) = (Err e, rest ++ extra)) as ->; [|done].
    rewrite FrameCodec_decode_spec in * by (rewrite ?bytes_ok_app; done).
    by apply decode_spec_app.
Qed.

End CodecFacts.

(** ** Properties *)

Section CodecProperties.
Context {R : Type} `{RngOk R}.

(** C36: encoding a frame a codec can carry succeeds and appends a wire image that the same codec
    decodes, whatever bytes follow it, to a frame with the same data and QuickACK flag, leaving
    exactly the following bytes; while only a proper prefix of the image has arrived the decoder
    asks for more and keeps every byte. *)
Theorem frame_codec_roundtrip (c : FrameCodec R) f dst :
  encodable (fc_proto_tag c) (fc_max_frame_size c) f ->
  exists wire c' g,
    FrameCodec_encode c f dst = (Ok tt, dst ++ wire, c') /\ same_frame f g /\
    (forall rest, bytes_ok rest -> FrameCodec_decode c (wire ++ rest) = (Ok (Some g), rest)) /\
    (forall p, p `prefix_of` wire -> p <> wire -> FrameCodec_decode c p = (Ok None, p)).
Proof.
  intros He. destruct (FrameCodec_encode_image c f dst He) as (h & b & c' & pad & E & _ & _ & Hi & _).
  exists (h ++ b), c', (mkFrame (frame_data f) (mkFrameMeta (quickack (frame_meta f)) false pad)).
  split; [exact E|]. split; [|split].
  - by repeat split.
  - intros. by apply wire_image_decode.
  - intros. by eapply wire_image_partial.
Qed.

(** C35: the frames received do not depend on how the network splits the byte stream: draining a
    buffer after [src] has arrived and again after [extra] has arrived yields the same frames in
    the same order, the same leftover and the same error as draining [src ++ extra] at once. *)
Theorem frame_codec_fragmentation (c : FrameCodec R) src extra :
  bytes_ok src -> bytes_ok extra ->
  receive c (src ++ extra) =
    match receive c src with
    | (fs, Err e) => (fs, Err e)
    | (fs, Ok rest) => (fs ++ fst (receive c (rest ++ extra)), snd (receive c (rest ++ extra)))
    end.
Proof. apply receive_split. Qed.

(** A list of encodable frames sent through one codec is received as the same list of frames
    (data and QuickACK flags), with exactly the bytes that follow left in the buffer. *)
Theorem frame_codec_stream (c : FrameCodec R) fs dst :
  Forall (encodable (fc_proto_tag c) (fc_max_frame_size c)) fs ->
  exists wire c' gs,
    encode_frames c fs dst = Some (dst ++ wire, c') /\ bytes_ok wire /\
    Forall2 same_frame fs gs /\ receive c wire = (gs, Ok []).
Proof.
  intros Hfs.
  assert (forall c' dst, fc_proto_tag c' = fc_proto_tag c -> fc_max_frame_size c' = fc_max_frame_size c ->
    exists wire c'' gs, encode_frames c' fs dst = Some (dst ++ wire, c'') /\ bytes_ok wire /\
      Forall2 same_frame fs gs /\ receive c wire = (gs, Ok [])) as Hgen; [|by apply Hgen].
  clear dst. induction Hfs as [|f fs Hf Hfs IH]; intros c1 dst Ht Hm; cbn [encode_frames].
  - exists [], c1, []. rewrite app_nil_r. repeat split; [constructor|constructor|].
    unfold receive. cbn. by destruct c as [[]].
  - rewrite <-Ht, <-Hm in Hf.
    destruct (FrameCodec_encode_image c1 f dst Hf) as (h & b & c2 & pad & -> & Ht2 & Hm2 & Hi & _).
    destruct (IH c2 (dst ++ h ++ b)) as (wire & c3 & gs & -> & Ow & Hg & Hr); [congruence|congruence|].
    rewrite Ht, Hm in Hi. pose proof (wire_image_decode c f h b pad wire Hi Ow) as Hd.
    destruct Hi as (meta & _ & _ & _ & _ & Oh & Ob & _).
    assert (bytes_ok ((h ++ b) ++ wire)) as Oall by (rewrite !bytes_ok_app; done).
    exists ((h ++ b) ++ wire), c3,
      (mkFrame (frame_data f) (mkFrameMeta (quickack (frame_meta f)) false pad) :: gs).
    split; [by rewrite <-!app_assoc|]. split; [done|].
    split; [constructor; [by repeat split|done]|].
    by rewrite (receive_step _ _ _ _ Oall Hd), Hr.
Qed.

(** C37: the codec never delivers a frame longer than its limit, and whatever it consumes is a
    prefix of the buffer, so no byte is dropped or reordered. *)
Theorem frame_codec_decode_bounded (c : FrameCodec R) src f rest :
  bytes_ok src -> FrameCodec_decode c src = (Ok (Some f), rest) ->
  zlen (frame_data f) <= fc_max_frame_size c /\ bytes_ok (frame_data f) /\
  (exists used, src = used ++ rest /\ zlen (frame_data f) < zlen used).
Proof.
  intros Hok. rewrite FrameCodec_decode_spec by done. unfold decode_spec.
  destruct (frame_header _ src) as [[[meta h] len]|] eqn:Eh; [|done].
  pose proof (frame_header_len _ _ _ _ _ Hok Eh) as [Hh Hl].
  destruct (_ && _); [done|]. destruct (Z.ltb_spec (fc_max_frame_size c) len); [done|].
  destruct (Z.ltb_spec (zlen src) (h + len)); [done|].
  destruct (frame_body _ _ _) eqn:Eb; [|done]. intros [= -> <-].
  assert (bytes_ok (slice src h (h + len))) as Os by by apply Forall_take, Forall_drop.
  assert (zlen (slice src h (h + len)) = len) as Ls by (rewrite zlen_slice; lia).
  assert (zlen (frame_data f) <= len /\ bytes_ok (frame_data f)) as [Hf Of].
  { unfold frame_body in Eb. rewrite Ls in Eb.
    repeat case_match; simplify_eq; cbn; [rewrite Ls; split; [lia|done]..|].
    split; [rewrite zlen_ztake; lia|by apply Forall_take]. }
  repeat split; [lia|done|]. exists (ztake (h + len) src).
  rewrite ztake_zdrop, zlen_ztake. split; [done|lia].
Qed.

(** The codec object made by [create_codec] behaves as the unified [FrameCodec] for the same
    tag: same decoder, same encoder, and its encoder reports the number of bytes it appended. *)
Theorem create_codec_agrees tag (rng : R) f dst src :
  dyn_decode (create_codec (R := R) tag) src = FrameCodec_decode (FrameCodec_new tag rng) src /\
  (let '(r, dst', c') := FrameCodec_encode (FrameCodec_new tag rng) f dst in
   dyn_encode (create_codec tag) f dst rng =
     (match r with Ok _ => Ok (zlen dst' - zlen dst) | Err e => Err e end, dst', fc_rng c')).
Proof.
  split; [by destruct tag|].
  destruct tag; cbn.
  - by destruct (encode_abridged f dst) as [[]].
  - by destruct (encode_intermediate f dst) as [[]].
  - by destruct (encode_secure f dst rng) as [[[] ?] ?].
Qed.

(** The encoders' error paths: abridged and secure framing refuse data that is not a multiple
    of 4 bytes long, and then nothing is written. *)
Theorem frame_codec_rejects_misaligned (c : FrameCodec R) f dst :
  zlen (frame_data f) mod 4 <> 0 -> simple_ack (frame_meta f) = false ->
  fc_proto_tag c <> Intermediate ->
  exists e, FrameCodec_encode c f dst = (Err e, dst, c) /\ err_args e = [zlen (frame_data f)].
Proof.
  intros Hm Hs Ht.
  assert (is_multiple_of (zlen (frame_data f)) 4 = false) as Hv
    by (apply not_true_iff_false; by rewrite is_multiple_of_true by lia).
  destruct c as [[] max rng]; [| done |]; unfold FrameCodec_encode; cbn [fc_proto_tag fc_rng].
  - unfold encode_abridged. rewrite Hv. cbn. by eexists.
  - unfold encode_secure, is_valid_secure_payload_len. rewrite Hs, Hv. cbn. by eexists.
Qed.

(** An empty secure frame is accepted by the encoder, and the bytes it writes are rejected by
    the decoder: a padded empty payload is shorter than the 4 bytes a receiver demands. *)
Theorem secure_empty_frame_rejected q max (rng : R) :
  3 <= max ->
  exists wire rng' n,
    encode_secure (mkFrame [] (mkFrameMeta q false 0)) [] rng = (Ok tt, wire, rng') /\
    1 <= n <= 3 /\ decode_secure wire max = (Err (secure_bad_len n), wire).
Proof.
  intros Hmax. unfold encode_secure. cbn [frame_data frame_meta simple_ack quickack].
  pose proof (secure_padding_bounds (zlen (@nil Z)) rng) as Hpad.
  change (is_valid_secure_payload_len (zlen (@nil Z))) with true. cbn [negb].
  destruct (secure_padding_len (zlen (@nil Z)) rng) as [pad rng1]. cbn [fst] in Hpad.
  destruct (Z.ltb_spec 0 pad); [|lia].
  pose proof (rng_bytes_len rng1 pad ltac:(lia)) as Lp. pose proof (rng_bytes_ok rng1 pad) as Op.
  destruct (rng_bytes rng1 pad) as [pb rng2]. cbn [fst] in Lp, Op.
  change (zlen (@nil Z)) with 0. unfold u32. rewrite Z.add_0_l, Z.mod_small by lia.
  eexists _, _, pad. split; [done|]. split; [done|]. rewrite app_nil_r, app_nil_l.
  set (hdr := le_bytes 4 (if q then Z.lor pad 0x80000000 else pad)).
  assert (bytes_ok (hdr ++ pb)) as Ow by (apply bytes_ok_app; split; [apply le_bytes_ok|done]).
  change (decode_secure (hdr ++ pb) max) with (decode_tag Secure max (hdr ++ pb)).
  rewrite decode_tag_spec by done. unfold decode_spec.
  destruct (len_word_header Secure pad q) as [Hh _]; [done|lia|]. fold hdr in Hh.
  rewrite (frame_header_app _ _ pb _ Hh). cbn [bool_decide andb].
  rewrite bool_decide_eq_false_2 by done. cbn [andb].
  destruct (Z.ltb_spec max pad); [lia|]. change (zlen hdr) with 4.
  rewrite zlen_app, Lp. change (zlen hdr) with 4. rewrite Z.ltb_irrefl.
  rewrite slice_app_r by (change (zlen hdr) with 4; lia). change (zlen hdr) with 4.
  rewrite slice_full by lia. unfold frame_body, secure_payload_len_from_wire_len. rewrite Lp.
  by destruct (Z.ltb_spec pad 4); [|lia].
Qed.

End CodecProperties.

Section CodecWitnesses.
Import DemoRng.

Definition demo_frame : Frame := Frame_quickack [1; 2; 3; 4; 5; 6; 7; 8].
Definition demo_codec : FrameCodec Z := FrameCodec_new Secure 5.

Lemma frame_codec_roundtrip_witness :
  exists wire c' g, FrameCodec_encode demo_codec demo_frame [9] = (Ok tt, [9] ++ wire, c') /\
    same_frame demo_frame g /\ FrameCodec_decode demo_codec (wire ++ [7]) = (Ok (Some g), [7]).
Proof.
  destruct (frame_codec_roundtrip demo_codec demo_frame [9]) as (w & c' & g & E & S & D & _).
  - apply (bool_decide_unpack _). vm_compute. exact I.
  - exists w, c', g. split; [exact E|]. split; [exact S|]. apply D.
    apply (bool_decide_unpack _). vm_compute. exact I.
Defined.

Lemma frame_codec_fragmentation_witness :
  receive (FrameCodec_new Intermediate 0) ([2; 0; 0] ++ [0; 5; 6; 1]) =
    ([mkFrame [5; 6] FrameMeta_new], Ok [1]).
Proof.
  rewrite (frame_codec_fragmentation (FrameCodec_new Intermediate 0) [2; 0; 0] [0; 5; 6; 1]).
  - vm_compute. reflexivity.
  - apply (bool_decide_unpack _). vm_compute. exact I.
  - apply (bool_decide_unpack _). vm_compute. exact I.
Defined.

Lemma frame_codec_decode_bounded_witness :
  zlen (frame_data (mkFrame [5; 6; 7; 8] FrameMeta_new)) <= 100.
Proof.
  apply (frame_codec_decode_bounded (with_max_frame_size (FrameCodec_new Abridged 0) 100)
    [1; 5; 6; 7; 8; 9] (mkFrame [5; 6; 7; 8] FrameMeta_new) [9]).
  - apply (bool_decide_unpack _). vm_compute. exact I.
  - vm_compute. reflexivity.
Defined.

End CodecWitnesses.
