(* ===== verification/AsyncIo.v ===== *)
(** * The asynchronous streams the wrappers sit on

    [tokio]'s [AsyncRead] and [AsyncWrite] are interfaces; what is on the other side is the
    network.  An upstream is a script of what its next polls do, so a theorem that holds for
    every script holds for every network: data may arrive in any pieces, a poll may be
    pending or fail at any point, a write may accept any part of what it is offered.  A peer that
    stops sending without closing is [RdSilent]: every read from there on is pending, and a read
    that is awaited there does not return ([None]).  A reader's script that ends otherwise ends with
    the peer closing; a writer's ends with a peer that takes everything, so that an awaited write
    presumes of the peer that it reads again some time, fails or closes. *)

From S2P Require Import Prelude.

(** [std::task::Poll] *)
Inductive Poll (A : Type) : Type :=
| Pending
| Ready (a : A).
Arguments Pending {A}.
Arguments Ready {A} a.

(** ** Reading *)

Inductive read_event :=
| RdPending
| RdErr (e : IoError)
| RdData (bs : bytes)
| RdSilent.  (* nothing comes any more, and the connection stays open *)

Abbreviation upstream_r := (list read_event) (only parsing).

(** [poll_read] into a [ReadBuf] with [cap] bytes left: the bytes filled in.  Bytes that do not
    fit stay upstream; at the end of the script every read returns 0 bytes, and in front of a silent
    peer every read is pending. *)
Definition up_poll_read (up : upstream_r) (cap : Z) : Poll (io_result bytes) * upstream_r :=
  match up with
  | [] => (Ready (Ok []), [])
  | RdPending :: up => (Pending, up)
  | RdErr e :: up => (Ready (Err e), up)
  | RdData bs :: up =>
      if zlen bs <=? cap then (Ready (Ok bs), up)
      else (Ready (Ok (ztake cap bs)), RdData (zdrop cap bs) :: up)
  | RdSilent :: _ => (Pending, up)
  end.

(** The bytes of a script and the number of polls it can answer before it is exhausted; what would
    stand behind a silence is never seen. *)
Fixpoint up_bytes (up : upstream_r) : bytes :=
  match up with
  | [] | RdSilent :: _ => []
  | RdData bs :: up => bs ++ up_bytes up
  | _ :: up => up_bytes up
  end.

Fixpoint up_size (up : upstream_r) : nat :=
  match up with
  | [] => O
  | RdData bs :: up => S (length bs + up_size up)
  | RdSilent :: _ => 1
  | _ :: up => S (up_size up)
  end.

(** An upstream that neither fails nor signals its end before its data is exhausted. *)
Fixpoint up_live (up : upstream_r) : bool :=
  match up with
  | [] => true
  | RdPending :: up => up_live up
  | RdErr _ :: _ | RdSilent :: _ => false
  | RdData bs :: up => negb (zlen bs =? 0) && up_live up
  end.

(** A peer that does not fall silent: it goes on until it closes. *)
Fixpoint up_ends (up : upstream_r) : bool :=
  match up with
  | [] => true
  | RdSilent :: _ => false
  | _ :: up => up_ends up
  end.

(** ** [AsyncRead] and its extension methods

    What a reader wrapper offers the code above it: a poll (no answer would mean that the poll
    does not return), and a bound on the polls it can answer before it is exhausted, which is
    the fuel of the loops that await it. *)

Class AsyncRead (R : Type) := {
  poll_read : R -> Z -> option (Poll (io_result bytes) * R);
  rd_size : R -> nat
}.

(** [AsyncReadExt::read(&mut buf).await]: polls until the answer is not pending. *)
Fixpoint read_await `{AsyncRead R} (fuel : nat) (r : R) (cap : Z) : option (io_result bytes * R) :=
  match fuel with
  | O => None
  | S fuel =>
      match poll_read r cap with
      | None => None
      | Some (Pending, r) => read_await fuel r cap
      | Some (Ready a, r) => Some (a, r)
      end
  end.

Definition async_read `{AsyncRead R} (r : R) (cap : Z) : option (io_result bytes * R) :=
  read_await (S (rd_size r)) r cap.

Definition early_eof : IoError := mkIoError UnexpectedEof "early eof" [].

(** [AsyncReadExt::read_exact(&mut buf).await] for a buffer of [n] bytes. *)
Fixpoint read_exact_loop `{AsyncRead R} (fuel : nat) (r : R) (n : Z) (acc : bytes)
    : option (io_result bytes * R) :=
  match fuel with
  | O => None
  | S fuel =>
      if zlen acc <? n then
        match async_read r (n - zlen acc) with
        | None => None
        | Some (Err e, r) => Some (Err e, r)
        | Some (Ok bs, r) =>
            if zlen bs =? 0 then Some (Err early_eof, r) else read_exact_loop fuel r n (acc ++ bs)
        end
      else Some (Ok acc, r)
  end.

Definition read_exact `{AsyncRead R} (r : R) (n : Z) : option (io_result bytes * R) :=
  read_exact_loop (S (Z.to_nat n)) r n [].

(** What a reader promises: it still has the bytes [rd_bytes] to deliver, it delivers them in
    order whatever the sizes it is polled with, a pending answer makes progress, and it reports
    the end (or an error) only when they are exhausted. *)
Class AsyncReadOk (R : Type) `{AsyncRead R} := {
  rd_ok : R -> Prop;
  rd_bytes : R -> bytes;
  poll_read_spec : forall r cap, 0 < cap -> rd_ok r ->
    exists p r', poll_read r cap = Some (p, r') /\ rd_ok r' /\ (rd_size r' <= rd_size r)%nat /\
      match p with
      | Pending => rd_bytes r = rd_bytes r' /\ (rd_size r' < rd_size r)%nat
      | Ready (Ok bs) =>
          zlen bs <= cap /\ rd_bytes r = bs ++ rd_bytes r' /\ (bs = [] -> rd_bytes r = [])
      | Ready (Err _) => rd_bytes r = [] /\ rd_bytes r' = []
      end
}.

(** ** Writing *)

Inductive write_event :=
| WrPending
| WrErr (e : IoError)
| WrAccept (n : Z).

(** The script of the next polls, what the peer has been given so far, and the script of
    [poll_flush].  When the script is exhausted, writes are accepted whole. *)
Record upstream_w := mkUpW {
  w_script : list write_event;
  w_sink : bytes;
  w_flush : list (Poll (io_result unit))
}.

Definition up_poll_write (w : upstream_w) (data : bytes) : Poll (io_result Z) * upstream_w :=
  match w_script w with
  | [] => (Ready (Ok (zlen data)), mkUpW [] (w_sink w ++ data) (w_flush w))
  | WrPending :: sc => (Pending, mkUpW sc (w_sink w) (w_flush w))
  | WrErr e :: sc => (Ready (Err e), mkUpW sc (w_sink w) (w_flush w))
  | WrAccept n :: sc =>
      let k := Z.max 0 (Z.min n (zlen data)) in
      (Ready (Ok k), mkUpW sc (w_sink w ++ ztake k data) (w_flush w))
  end.

Definition up_poll_flush (w : upstream_w) : Poll (io_result unit) * upstream_w :=
  match w_flush w with
  | [] => (Ready (Ok tt), w)
  | r :: fl => (r, mkUpW (w_script w) (w_sink w) fl)
  end.

(** ** [AsyncWrite]

    A writer that has accepted the bytes [acc] in total accepts the first [n] bytes offered when
    it answers [Ok n], and nothing otherwise. *)

Class AsyncWrite (W : Type) := {
  poll_write : W -> bytes -> option (Poll (io_result Z) * W);
  poll_flush : W -> option (Poll (io_result unit) * W)
}.

Class AsyncWriteOk (W : Type) `{AsyncWrite W} := {
  wr_accepted : W -> bytes -> Prop;
  poll_write_spec : forall w acc data, wr_accepted w acc ->
    exists p w', poll_write w data = Some (p, w') /\
      match p with
      | Ready (Ok n) => 0 <= n <= zlen data /\ wr_accepted w' (acc ++ ztake n data)
      | _ => wr_accepted w' acc
      end;
  poll_flush_spec : forall w acc, wr_accepted w acc ->
    exists p w', poll_flush w = Some (p, w') /\ wr_accepted w' acc
}.

(** ** Facts *)

Lemma up_poll_read_spec up cap r up' :
  0 < cap -> up_live up = true -> up_poll_read up cap = (r, up') ->
  up_live up' = true /\
  match r with
  | Pending => up_bytes up' = up_bytes up /\ (up_size up' < up_size up)%nat
  | Ready (Err _) => False
  | Ready (Ok bs) =>
      zlen bs <= cap /\ up_bytes up = bs ++ up_bytes up' /\
      (bs = [] -> up = [] /\ up' = []) /\ (bs <> [] -> (up_size up' < up_size up)%nat)
  end.
Proof.
  intros Hc Hl. unfold up_poll_read. destruct up as [|[|e|bs|] up]; cbn in Hl; [| |done| |done].
  - intros [= <- <-]. change (zlen (@nil Z)) with 0. split_and!; [done|lia|done|done|done].
  - intros [= <- <-]. cbn. split; [done|]. split; [done|lia].
  - apply andb_prop in Hl as [Hne Hl]. apply negb_true_iff, Z.eqb_neq in Hne.
    destruct (Z.leb_spec (zlen bs) cap); intros [= <- <-].
    + cbn. split_and!; [done|done|done|intros ->; by cbn in Hne|intros; lia].
    + cbn [up_live up_bytes up_size]. rewrite Hl, andb_true_r.
      pose proof (zlen_ztake cap bs). pose proof (zlen_zdrop cap bs).
      split_and!.
      * apply negb_true_iff, Z.eqb_neq. lia.
      * lia.
      * by rewrite app_assoc, ztake_zdrop.
      * intros E. apply (f_equal zlen) in E. change (zlen (@nil Z)) with 0 in E. lia.
      * intros _. unfold zlen, zdrop in *. lia.
Qed.

(** ** The scripts as readers and writers *)

#[export] Instance script_read : AsyncRead (list read_event) := {|
  poll_read up cap := Some (up_poll_read up cap);
  rd_size := up_size
|}.

#[export, refine] Instance script_read_ok : AsyncReadOk (list read_event) := {|
  rd_ok up := up_live up = true;
  rd_bytes := up_bytes
|}.
Proof.
  intros up cap Hcap Hl. cbn [poll_read script_read rd_size]. destruct (up_poll_read up cap) as [p up'] eqn:E.
  destruct (up_poll_read_spec _ _ _ _ Hcap Hl E) as [Hl' Hp]. exists p, up'.
  split; [done|]. split; [done|]. split.
  { destruct p as [|[[|b bs]|e]]; [lia| |destruct Hp as (_ & _ & _ & Hp); specialize (Hp ltac:(done)); lia|done].
    by destruct Hp as (_ & _ & [-> ->] & _). }
  destruct p as [|[bs|e]]; [|destruct Hp as (? & ? & Hnil & ?)|done].
  - by destruct Hp.
  - split_and!; [done|done|]. intros Hb. by destruct (Hnil Hb) as [-> _].
Defined.

Lemma up_poll_write_spec w data r w' :
  up_poll_write w data = (r, w') ->
  match r with
  | Ready (Ok n) => 0 <= n <= zlen data /\ w_sink w' = w_sink w ++ ztake n data
  | _ => w_sink w' = w_sink w
  end.
Proof.
  unfold up_poll_write. pose proof (zlen_nonneg data).
  destruct (w_script w) as [|[|e|n] sc]; intros [= <- <-]; cbn; [|done|done|split; [lia|done]].
  split; [lia|]. by rewrite ztake_all by lia.
Qed.

#[export] Instance script_write : AsyncWrite upstream_w := {|
  poll_write w data := Some (up_poll_write w data);
  poll_flush w := Some (up_poll_flush w)
|}.

#[export, refine] Instance script_write_ok : AsyncWriteOk upstream_w := {|
  wr_accepted w acc := w_sink w = acc
|}.
Proof.
  - intros w acc data <-. cbn. destruct (up_poll_write w data) as [p w'] eqn:E.
    apply up_poll_write_spec in E. exists p, w'. by destruct p as [|[n|e]].
  - intros w acc <-. cbn. unfold up_poll_flush. destruct (w_flush w); by eexists _, _.
Defined.

(** ** Writing everything *)

Definition write_all_zero : IoError := mkIoError WriteZero "failed to write whole buffer" [].

(** [AsyncWriteExt::write_all(buf).await] and [flush().await] *)
Fixpoint write_all `{AsyncWrite W} (fuel : nat) (w : W) (data : bytes) : option (io_result unit * W) :=
  match fuel with
  | O => None
  | S fuel =>
      if zlen data =? 0 then Some (Ok tt, w)
      else
        match poll_write w data with
        | None => None
        | Some (Pending, w) => write_all fuel w data
        | Some (Ready (Err e), w) => Some (Err e, w)
        | Some (Ready (Ok n), w) => if n =? 0 then Some (Err write_all_zero, w) else write_all fuel w (zdrop n data)
        end
  end.

Fixpoint flush_await `{AsyncWrite W} (fuel : nat) (w : W) : option (io_result unit * W) :=
  match fuel with
  | O => None
  | S fuel =>
      match poll_flush w with
      | None => None
      | Some (Pending, w) => flush_await fuel w
      | Some (Ready r, w) => Some (r, w)
      end
  end.

Lemma write_all_accepts `{AsyncWriteOk W} fuel (w : W) acc data w' :
  wr_accepted w acc -> write_all fuel w data = Some (Ok tt, w') -> wr_accepted w' (acc ++ data).
Proof.
  revert w acc data. induction fuel as [|fuel IH]; intros w acc data Hw; [done|]. cbn [write_all].
  destruct (Z.eqb_spec (zlen data) 0) as [Hz|_].
  { apply zlen_zero_nil in Hz. subst data. intros [= <-]. by rewrite app_nil_r. }
  destruct (poll_write_spec w acc data Hw) as (p & w1 & -> & Hp). destruct p as [|[n|e]]; [by apply IH| |done].
  destruct Hp as [_ Hp]. destruct (n =? 0); [done|]. intros E. apply (IH _ _ _ Hp) in E. by rewrite <-app_assoc, ztake_zdrop in E.
Qed.

Lemma flush_await_accepts `{AsyncWriteOk W} fuel (w : W) acc r w' :
  wr_accepted w acc -> flush_await fuel w = Some (r, w') -> wr_accepted w' acc.
Proof.
  revert w. induction fuel as [|fuel IH]; intros w Hw; [done|]. cbn [flush_await].
  destruct (poll_flush_spec w acc Hw) as (p & w1 & -> & Hp). destruct p as [|p]; [by apply IH|]. by intros [= <- <-].
Qed.

(** A scripted writer answers [write_all] and [flush] within the length of its scripts: what it has then been given is the
    beginning of the data, and all of it when there was no error. *)
Lemma write_all_script fuel (w : upstream_w) data :
  (length (w_script w) + 2 <= fuel)%nat ->
  exists r w' sent rest, write_all fuel w data = Some (r, w') /\ data = sent ++ rest /\ w_sink w' = w_sink w ++ sent /\
    (r = Ok tt -> rest = []) /\ w_flush w' = w_flush w /\ (length (w_script w') <= length (w_script w))%nat.
Proof.
  revert w data. induction fuel as [|fuel IH]; intros w data Hf; [lia|]. cbn [write_all].
  destruct (Z.eqb_spec (zlen data) 0) as [Hz|Hz].
  { apply zlen_zero_nil in Hz. subst data. exists (Ok tt), w, [], []. split_and!; [done|done|by rewrite app_nil_r|done|done|done]. }
  destruct w as [script sink fl]. cbn [w_script w_sink w_flush poll_write script_write] in *. unfold up_poll_write. cbn [w_script w_sink w_flush].
  destruct script as [|[|e|n] sc]; cbn [length] in *.
  - destruct (Z.eqb_spec (zlen data) 0); [done|]. destruct fuel as [|fuel]; [lia|]. cbn [write_all].
    rewrite zdrop_all by lia. exists (Ok tt), (mkUpW [] (sink ++ data) fl), data, []. by rewrite app_nil_r.
  - destruct (IH (mkUpW sc sink fl) data) as (r & w' & sent & rest & E & Hd & Hs & Hr & Hfl & Hlen); [cbn; lia|].
    cbn [w_script w_sink w_flush] in *. exists r, w', sent, rest. split_and!; try done. lia.
  - exists (Err e), (mkUpW sc sink fl), [], data. cbn. split_and!; [done|done|by rewrite app_nil_r|done|done|lia].
  - set (k := Z.max 0 (Z.min n (zlen data))). destruct (Z.eqb_spec k 0).
    + exists (Err write_all_zero), (mkUpW sc (sink ++ ztake k data) fl), (ztake k data), (zdrop k data). cbn.
      split_and!; [done|by rewrite ztake_zdrop|done|done|done|lia].
    + destruct (IH (mkUpW sc (sink ++ ztake k data) fl) (zdrop k data)) as (r & w' & sent & rest & E & Hd & Hs & Hr & Hfl & Hlen); [cbn; lia|].
      cbn [w_script w_sink w_flush] in *. exists r, w', (ztake k data ++ sent), rest.
      split_and!; [done|by rewrite <-app_assoc, <-Hd, ztake_zdrop|by rewrite Hs, <-app_assoc|done|done|lia].
Qed.

(** A writer that does not fail: it accepts something whenever it is ready. *)
Definition healthy (w : upstream_w) : Prop :=
  Forall (fun e => match e with WrPending => True | WrErr _ => False | WrAccept n => 0 < n end) (w_script w) /\
  Forall (fun p : Poll (io_result unit) => match p with Ready (Err _) => False | _ => True end) (w_flush w).

Lemma write_all_healthy fuel (w : upstream_w) data :
  healthy w -> (length (w_script w) + 2 <= fuel)%nat ->
  exists w', write_all fuel w data = Some (Ok tt, w') /\ w_sink w' = w_sink w ++ data /\ healthy w' /\ w_flush w' = w_flush w.
Proof.
  revert w data. induction fuel as [|fuel IH]; intros [script sink fl] data [Hs Hfl] Hf; [lia|]. cbn [write_all w_script w_sink w_flush] in *.
  destruct (Z.eqb_spec (zlen data) 0) as [Hz|Hz].
  { apply zlen_zero_nil in Hz. subst data. eexists. split_and!; [done|cbn; by rewrite app_nil_r|done|done]. }
  cbn [poll_write script_write]. unfold up_poll_write. cbn [w_script w_sink w_flush].
  destruct script as [|[|e|n] sc]; cbn [length] in *; try (apply Forall_cons in Hs as [He Hs]; try done).
  - destruct (Z.eqb_spec (zlen data) 0); [done|]. destruct fuel as [|fuel]; [lia|]. cbn [write_all].
    rewrite zdrop_all by lia. by eexists.
  - destruct (IH (mkUpW sc sink fl) data) as (w' & E & Hsink & Hh); [done|cbn; lia|]. by eexists.
  - pose proof (zlen_nonneg data). destruct (Z.eqb_spec (Z.max 0 (Z.min n (zlen data))) 0); [lia|].
    destruct (IH (mkUpW sc (sink ++ ztake (Z.max 0 (Z.min n (zlen data))) data) fl) (zdrop (Z.max 0 (Z.min n (zlen data))) data))
      as (w' & E & Hsink & Hh); [done|cbn; lia|]. eexists. split; [done|]. split; [|done].
    rewrite Hsink. cbn [w_sink]. by rewrite <-app_assoc, ztake_zdrop.
Qed.

Lemma flush_await_script fuel (w : upstream_w) :
  (length (w_flush w) < fuel)%nat ->
  exists r w', flush_await fuel w = Some (r, w') /\ w_sink w' = w_sink w /\ w_script w' = w_script w.
Proof.
  revert w. induction fuel as [|fuel IH]; intros w Hf; [lia|]. cbn [flush_await poll_flush script_write]. unfold up_poll_flush.
  destruct w as [script sink fl]. cbn [w_script w_sink w_flush] in *. destruct fl as [|[|r] fl]; [by eexists _, _| |by eexists _, _].
  by apply (IH (mkUpW script sink fl)); cbn in *; lia.
Qed.

Lemma flush_await_healthy fuel (w : upstream_w) :
  healthy w -> (length (w_flush w) < fuel)%nat ->
  exists w', flush_await fuel w = Some (Ok tt, w') /\ w_sink w' = w_sink w /\ healthy w'.
Proof.
  revert w. induction fuel as [|fuel IH]; intros [script sink fl] [Hs Hfl] Hf; [lia|].
  cbn [flush_await poll_flush script_write]. unfold up_poll_flush. cbn [w_script w_sink w_flush] in *.
  destruct fl as [|[|[[]|]] fl]; [by eexists|..]; apply Forall_cons in Hfl as [He Hfl]; [|by eexists|done].
  destruct (IH (mkUpW script sink fl)) as (w' & E); [done|cbn in *; lia|]. by exists w'.
Qed.

(** What an awaited read of a script comes to: it delivers the script's bytes in order, failing or
    not, and it does not return only where the peer has fallen silent. *)
Definition up_read_ok (up : upstream_r) (cap : Z) (answer : option (io_result bytes * upstream_r)) : Prop :=
  match answer with
  | None => up_ends up = false
  | Some (a, up') =>
      (up_size up' <= up_size up)%nat /\ up_ends up' = up_ends up /\
      match a with
      | Ok bs => zlen bs <= cap /\ up_bytes up = bs ++ up_bytes up' /\ (bs <> [] -> (up_size up' < up_size up)%nat)
      | Err _ => up_bytes up = up_bytes up'
      end
  end.

Lemma up_read_await fuel up cap : 0 <= cap -> (up_size up < fuel)%nat -> up_read_ok up cap (read_await fuel up cap).
Proof.
  intros Hc. revert up. induction fuel as [|fuel IH]; intros up Hf; [lia|]. cbn [read_await poll_read script_read].
  destruct up as [|[|e|bs|] up]; cbn [up_poll_read up_size] in *.
  - cbn [up_read_ok up_bytes]. change (zlen (@nil Z)) with 0. by split_and!.
  - specialize (IH up ltac:(lia)). destruct (read_await fuel up cap) as [[a up']|]; cbn [up_read_ok up_bytes up_size up_ends] in *; [|done].
    destruct IH as (Hs & He & Ha). split; [lia|]. split; [done|]. destruct a as [bs|]; [|done].
    destruct Ha as (Hl & Hb & Hlt). split_and!; [done..|]. intros Hne. specialize (Hlt Hne). lia.
  - cbn [up_read_ok up_bytes up_size up_ends]. split_and!; [lia|done..].
  - destruct (Z.leb_spec (zlen bs) cap); cbn [up_read_ok up_bytes up_size up_ends].
    + split_and!; [lia|done..|lia].
    + pose proof (ztake_zdrop cap bs) as Es. pose proof (f_equal length Es) as El. rewrite length_app in El.
      split_and!; [lia|done|rewrite zlen_ztake; lia|by rewrite app_assoc, Es|]. intros Hne. destruct (ztake cap bs); [done|]. cbn [length] in El. lia.
  - clear -fuel. induction fuel as [|fuel IH]; [done|exact IH].
Qed.

Lemma up_async_read up cap : 0 <= cap -> up_read_ok up cap (async_read up cap).
Proof. intros Hc. apply up_read_await; [done|]. cbn. lia. Qed.

(** [read_exact] on any script: the bytes asked for, or an error, after a prefix of the script's bytes; or a wait for ever. *)
Definition up_exact_ok (up : upstream_r) (n : Z) (acc : bytes) (answer : option (io_result bytes * upstream_r)) : Prop :=
  match answer with
  | None => up_ends up = false
  | Some (a, up') =>
      up_ends up' = up_ends up /\
      exists consumed, up_bytes up = consumed ++ up_bytes up' /\
        match a with Ok bs => bs = acc ++ consumed /\ zlen bs = n | Err _ => True end
  end.

Lemma up_read_exact_loop fuel (up : upstream_r) n acc :
  zlen acc <= n -> n - zlen acc < Z.of_nat fuel -> up_exact_ok up n acc (read_exact_loop fuel up n acc).
Proof.
  revert up acc. induction fuel as [|fuel IH]; intros up acc Hacc Hf; [lia|].
  cbn [read_exact_loop]. destruct (Z.ltb_spec (zlen acc) n) as [Hlt|Hge].
  2:{ split; [done|]. exists []. split_and!; [done|by rewrite app_nil_r|lia]. }
  pose proof (up_async_read up (n - zlen acc) ltac:(lia)) as Hr. destruct (async_read up _) as [[a up1]|]; [|done].
  destruct Hr as (_ & He & Ha). destruct a as [bs|e].
  - destruct Ha as (Hl & Hb & _). destruct (Z.eqb_spec (zlen bs) 0) as [Hz|Hz]; [by split; [|exists bs]|].
    pose proof (zlen_nonneg bs). specialize (IH up1 (acc ++ bs)). rewrite zlen_app in IH. specialize (IH ltac:(lia) ltac:(lia)).
    destruct (read_exact_loop fuel up1 n _) as [[a up2]|]; cbn [up_exact_ok] in *; [|congruence].
    destruct IH as (He2 & consumed & Hb2 & Ha2). split; [congruence|]. exists (bs ++ consumed).
    split; [by rewrite Hb, Hb2, <-app_assoc|]. destruct a; [|done]. destruct Ha2 as [-> Hn]. by rewrite <-app_assoc in *.
  - by split; [|exists []].
Qed.

Lemma up_read_exact (up : upstream_r) n : 0 <= n -> up_exact_ok up n [] (read_exact up n).
Proof. intros Hn. apply up_read_exact_loop; change (zlen (@nil Z)) with 0; lia. Qed.

(** ** Reading exactly *)

Section ReadExact.
Context `{AsyncReadOk R}.

Lemma async_read_spec r cap :
  0 < cap -> rd_ok r ->
  exists a r', async_read r cap = Some (a, r') /\ rd_ok r' /\
    match a with
    | Ok bs => zlen bs <= cap /\ rd_bytes r = bs ++ rd_bytes r' /\ (bs = [] -> rd_bytes r = [])
    | Err _ => rd_bytes r = [] /\ rd_bytes r' = []
    end.
Proof.
  intros Hcap Hr. unfold async_read. assert (rd_size r < S (rd_size r))%nat as Hf by lia.
  revert Hf. generalize (S (rd_size r)) as fuel. intros fuel. revert r Hr.
  induction fuel as [|fuel IH]; intros r Hr Hf; [lia|]. cbn [read_await].
  destruct (poll_read_spec r cap Hcap Hr) as (p & r1 & -> & Hr1 & _ & Hp). destruct p as [|[bs|e]].
  - destruct Hp as [Hb Hs]. rewrite Hb. apply IH; [done|lia].
  - eexists _, _. by split_and!.
  - by eexists _, _.
Qed.

Lemma read_exact_loop_spec fuel r n acc :
  rd_ok r -> n - zlen acc < Z.of_nat fuel -> zlen acc <= n ->
  exists a r', read_exact_loop fuel r n acc = Some (a, r') /\ rd_ok r' /\
    match a with
    | Ok bs => zlen bs = n /\ acc ++ rd_bytes r = bs ++ rd_bytes r'
    | Err _ => zlen acc + zlen (rd_bytes r) < n /\ rd_bytes r' = []
    end.
Proof.
  revert r acc. induction fuel as [|fuel IH]; intros r acc Hr Hf Hacc; [lia|]. cbn [read_exact_loop].
  destruct (Z.ltb_spec (zlen acc) n); [|eexists _, _; split; [done|]; split_and!; [done|lia|done]].
  destruct (async_read_spec r (n - zlen acc) ltac:(lia) Hr) as (a & r1 & -> & Hr1 & Ha).
  destruct a as [bs|e].
  - destruct Ha as (Hcap & Hb & Hnil). destruct (Z.eqb_spec (zlen bs) 0) as [Hz|Hz].
    + apply zlen_zero_nil in Hz. subst bs. specialize (Hnil eq_refl). rewrite Hnil in *.
      eexists _, _. split; [done|]. change (zlen (@nil Z)) with 0. split_and!; [done|lia|done].
    + pose proof (zlen_nonneg bs).
      destruct (IH r1 (acc ++ bs) Hr1) as (a & r2 & -> & Hr2 & Ha); [(rewrite zlen_app; lia)..|].
      eexists _, _. split; [done|]. split; [done|]. rewrite Hb.
      destruct a; [by rewrite app_assoc|]. rewrite !zlen_app in *. split; [lia|tauto].
  - destruct Ha as [Hb Hb1]. rewrite Hb. eexists _, _. split; [done|]. change (zlen (@nil Z)) with 0. split_and!; [done|lia|done].
Qed.

(** Reading [n] bytes takes the first [n] bytes still to come, however they arrive. *)
Lemma read_exact_spec r n :
  rd_ok r -> 0 <= n <= zlen (rd_bytes r) ->
  exists r', read_exact r n = Some (Ok (ztake n (rd_bytes r)), r') /\ rd_ok r' /\
    rd_bytes r' = zdrop n (rd_bytes r).
Proof.
  intros Hr Hn. unfold read_exact.
  destruct (read_exact_loop_spec (S (Z.to_nat n)) r n [] Hr) as (a & r' & -> & Hr' & Ha);
    [(change (zlen (@nil Z)) with 0; lia)..|].
  change (zlen (@nil Z)) with 0 in Ha. destruct a as [bs|e]; [|lia].
  destruct Ha as [Hbs Hb]. cbn [app] in Hb. exists r'. by rewrite Hb, ztake_app, zdrop_app.
Qed.

(** Asking for more than the stream holds fails. *)
Lemma read_exact_short r n :
  rd_ok r -> zlen (rd_bytes r) < n ->
  exists e r', read_exact r n = Some (Err e, r') /\ rd_ok r' /\ rd_bytes r' = [].
Proof.
  intros Hr Hn. unfold read_exact. pose proof (zlen_nonneg (rd_bytes r)).
  destruct (read_exact_loop_spec (S (Z.to_nat n)) r n [] Hr) as (a & r' & -> & Hr' & Ha);
    [(change (zlen (@nil Z)) with 0; lia)..|].
  destruct a as [bs|e]; [|eexists _, _; tauto].
  destruct Ha as [Hbs Hb]. cbn [app] in Hb. rewrite Hb, zlen_app in Hn.
  pose proof (zlen_nonneg (rd_bytes r')). lia.
Qed.

(** What it returns is what was next. *)
Lemma read_exact_inv r n bs r' :
  rd_ok r -> 0 <= n -> read_exact r n = Some (Ok bs, r') ->
  rd_ok r' /\ rd_bytes r = bs ++ rd_bytes r' /\ zlen bs = n.
Proof.
  intros Hr Hn E. destruct (Z.le_gt_cases n (zlen (rd_bytes r))).
  - destruct (read_exact_spec r n Hr) as (r1 & E1 & Hr1 & Hb1); [lia|].
    rewrite E in E1. injection E1 as -> ->. rewrite Hb1, ztake_zdrop, zlen_ztake. split_and!; done || lia.
  - destruct (read_exact_short r n Hr) as (e & r1 & E1 & _); [lia|]. by rewrite E in E1.
Qed.

End ReadExact.

(** ** Driving a stream with a sequence of polls *)

(** The bytes delivered by polls with room for [caps] bytes, whatever each of them answers. *)
Fixpoint drive_reads `{AsyncRead R} (r : R) (caps : list Z) : option (bytes * R) :=
  match caps with
  | [] => Some ([], r)
  | cap :: caps =>
      '(p, r) ← poll_read r cap;
      '(ds, r) ← drive_reads r caps;
      Some (match p with Ready (Ok bs) => bs ++ ds | _ => ds end, r)
  end.

Inductive write_op := OpWrite (buf : bytes) | OpFlush.

(** The bytes accepted by a sequence of writes and flushes. *)
Definition drive_write `{AsyncWrite W} (w : W) (op : write_op) : option (bytes * W) :=
  match op with
  | OpWrite buf =>
      '(p, w) ← poll_write w buf; Some (match p with Ready (Ok n) => ztake n buf | _ => [] end, w)
  | OpFlush => '(_, w) ← poll_flush w; Some ([], w)
  end.

Fixpoint drive_writes `{AsyncWrite W} (w : W) (ops : list write_op) : option (bytes * W) :=
  match ops with
  | [] => Some ([], w)
  | op :: ops =>
      '(a, w) ← drive_write w op;
      '(acc, w) ← drive_writes w ops;
      Some (a ++ acc, w)
  end.

Lemma drive_reads_spec `{AsyncReadOk R} (r : R) caps :
  Forall (fun cap => 0 < cap) caps -> rd_ok r ->
  exists ds r', drive_reads r caps = Some (ds, r') /\ rd_ok r' /\ rd_bytes r = ds ++ rd_bytes r' /\
    ((length (rd_bytes r) + rd_size r <= length caps)%nat -> ds = rd_bytes r).
Proof.
  intros Hc. revert r. induction Hc as [|cap caps Hcap _ IH]; intros r Hr.
  { exists [], r. split_and!; [done|done|done|]. cbn [length]. intros. destruct (rd_bytes r); cbn in *; [done|lia]. }
  destruct (poll_read_spec r cap Hcap Hr) as (p & r1 & E1 & Hr1 & Hs1 & Hp).
  destruct (IH r1 Hr1) as (ds & r' & E2 & Hr' & Hb & Hall).
  cbn [drive_reads]. rewrite E1. cbn [mbind option_bind]. rewrite E2. cbn [mbind option_bind length].
  eexists _, _. split; [done|]. split; [done|]. destruct p as [|[bs|e]].
  - destruct Hp as [Hp Hlt]. rewrite Hp. split; [done|]. intros. apply Hall. lia.
  - destruct Hp as (_ & Hp & Hnil). destruct bs as [|b bs].
    + specialize (Hnil eq_refl). rewrite Hnil in *. cbn [app] in *. rewrite <-Hp in *.
      split; [done|]. destruct ds; [done|]. by destruct (rd_bytes r').
    + rewrite Hp. split; [by rewrite Hb, app_assoc|]. rewrite length_app. cbn [length]. intros.
      f_equal. apply Hall. lia.
  - destruct Hp as [Hp Hp1]. rewrite Hp1 in *. rewrite Hp. destruct ds; [|done]. by cbn in *.
Qed.

Lemma drive_reads_app `{AsyncRead R} (r r1 r2 : R) caps1 caps2 a b :
  drive_reads r caps1 = Some (a, r1) -> drive_reads r1 caps2 = Some (b, r2) ->
  drive_reads r (caps1 ++ caps2) = Some (a ++ b, r2).
Proof.
  revert r a. induction caps1 as [|cap caps1 IH]; intros r a; cbn [drive_reads app]; [by intros [= <- <-]|].
  destruct (poll_read r cap) as [[p r']|]; [|done]. cbn [mbind option_bind].
  destruct (drive_reads r' caps1) as [[ds r'']|] eqn:E; [|done]. cbn [mbind option_bind].
  intros [= <- <-] E2. rewrite (IH _ _ E E2). cbn. destruct p as [|[bs|e]]; by rewrite ?app_assoc.
Qed.

Lemma drive_writes_app `{AsyncWrite W} (w w1 w2 : W) ops1 ops2 a b :
  drive_writes w ops1 = Some (a, w1) -> drive_writes w1 ops2 = Some (b, w2) ->
  drive_writes w (ops1 ++ ops2) = Some (a ++ b, w2).
Proof.
  revert w a. induction ops1 as [|op ops1 IH]; intros w a; cbn [drive_writes app]; [by intros [= <- <-]|].
  destruct (drive_write w op) as [[x w']|]; [|done]. cbn [mbind option_bind].
  destruct (drive_writes w' ops1) as [[acc w'']|] eqn:E; [|done]. cbn [mbind option_bind].
  intros [= <- <-] E2. rewrite (IH _ _ E E2). cbn. by rewrite app_assoc.
Qed.

(** An invariant of single polls, indexed by the bytes accepted so far, holds after any sequence. *)
Lemma drive_writes_inv `{AsyncWrite W} (I : W -> bytes -> Prop) :
  (forall w acc buf, I w acc -> exists p w', poll_write w buf = Some (p, w') /\
     I w' (acc ++ match p with Ready (Ok n) => ztake n buf | _ => [] end)) ->
  (forall w acc, I w acc -> exists p w', poll_flush w = Some (p, w') /\ I w' acc) ->
  forall ops w acc, I w acc -> exists a w', drive_writes w ops = Some (a, w') /\ I w' (acc ++ a).
Proof.
  intros Hw Hf ops. induction ops as [|op ops IH]; intros w acc Hi; cbn [drive_writes].
  { exists [], w. by rewrite app_nil_r. }
  assert (exists a w', drive_write w op = Some (a, w') /\ I w' (acc ++ a)) as (a & w1 & -> & Hi1).
  { destruct op as [buf|]; cbn [drive_write].
    - destruct (Hw w acc buf Hi) as (p & w' & -> & Hi'). by eexists _, _.
    - destruct (Hf w acc Hi) as (p & w' & -> & Hi'). eexists _, _. by rewrite app_nil_r. }
  cbn [mbind option_bind]. destruct (IH w1 _ Hi1) as (b & w' & -> & Hi'). cbn [mbind option_bind].
  eexists _, _. by rewrite app_assoc.
Qed.

(** ** Awaiting reader code

    An [async fn] over a reader: it returns (never [None]) a result and the reader, and [?]
    leaves at the first error. *)

Definition rio (R A : Type) : Type := R -> option (io_result A * R).

Definition rio_ret {R A} (a : A) : rio R A := fun r => Some (Ok a, r).
Definition rio_err {R A} (e : IoError) : rio R A := fun r => Some (Err e, r).
Definition rio_bind {R A B} (m : rio R A) (k : A -> rio R B) : rio R B := fun r =>
  match m r with
  | None => None
  | Some (Err e, r) => Some (Err e, r)
  | Some (Ok a, r) => k a r
  end.

Declare Scope rio_scope.
Delimit Scope rio_scope with rio.
Notation "'let?' x := m 'in' k" := (rio_bind m (fun x => k))
  (at level 10, x pattern, m at level 100, k at level 200) : rio_scope.

(** [rio_wp m r Q]: run on [r], [m] returns, with a result and a reader that satisfy [Q]. *)
Definition rio_wp {R A} (m : rio R A) (r : R) (Q : io_result A -> R -> Prop) : Prop :=
  exists a r', m r = Some (a, r') /\ Q a r'.

Lemma rio_wp_ret {R A} (a : A) (r : R) Q : Q (Ok a) r -> rio_wp (rio_ret a) r Q.
Proof. by eexists _, _. Qed.

Lemma rio_wp_err {R A} e (r : R) (Q : io_result A -> R -> Prop) : Q (Err e) r -> rio_wp (rio_err e) r Q.
Proof. by eexists _, _. Qed.

Lemma rio_wp_bind {R A B} (m : rio R A) (k : A -> rio R B) (r : R) Q :
  rio_wp m r (fun a r' => match a with Ok a => rio_wp (k a) r' Q | Err e => Q (Err e) r' end) ->
  rio_wp (rio_bind m k) r Q.
Proof.
  intros (a & r1 & E & Hq). unfold rio_wp, rio_bind. rewrite E. destruct a as [a|e]; [done|]. by eexists _, _.
Qed.

(** Awaiting the next [n] bytes when they are there, and when they are not. *)
Lemma rio_wp_read `{AsyncReadOk R} {A} (r : R) n pre rest (k : bytes -> rio R A) Q :
  rd_ok r -> rd_bytes r = pre ++ rest -> zlen pre = n ->
  (forall r', rd_ok r' -> rd_bytes r' = rest -> rio_wp (k pre) r' Q) ->
  rio_wp (rio_bind (fun r => read_exact r n) k) r Q.
Proof.
  intros Hr Hb Hn Hk. pose proof (zlen_nonneg pre). pose proof (zlen_nonneg rest).
  destruct (read_exact_spec r n Hr) as (r' & E & Hr' & Hb'); [rewrite Hb, zlen_app; lia|].
  apply rio_wp_bind. exists (Ok pre), r'. split; [by rewrite E, Hb, ztake_app|].
  apply Hk; [done|]. by rewrite Hb', Hb, zdrop_app.
Qed.

Lemma rio_wp_read_short `{AsyncReadOk R} {A} (r : R) n (k : bytes -> rio R A) Q :
  rd_ok r -> zlen (rd_bytes r) < n -> (forall e r', rd_ok r' -> Q (Err e) r') ->
  rio_wp (rio_bind (fun r => read_exact r n) k) r Q.
Proof.
  intros Hr Hn HQ. destruct (read_exact_short r n Hr Hn) as (e & r' & E & Hr' & _).
  apply rio_wp_bind. exists (Err e), r'. split; [done|]. by apply HQ.
Qed.
