(* ===== verification/StreamState.v ===== *)
(** * Buffers and transitions of the stream state machines: [stream/state.rs] *)

From S2P Require Import Prelude AsyncIo.

(** ** [StreamState] (state.rs:14-23): what every stream state can report *)

Class StreamState (S : Type) := {
  is_terminal : S -> bool;
  is_poisoned : S -> bool;
  state_name : S -> string
}.

(** ** [Transition] and [PollResult] (state.rs:29-128) *)

Inductive Transition (S O : Type) :=
| TSame
| TNext (s : S)
| TComplete (o : O)
| TYield (o : O) (s : S)
| TError (e : IoError).
Arguments TSame {S O}.
Arguments TNext {S O} s.
Arguments TComplete {S O} o.
Arguments TYield {S O} o s.
Arguments TError {S O} e.

Definition has_output {S O} (t : Transition S O) : bool :=
  match t with TComplete _ | TYield _ _ => true | _ => false end.

Definition map_output {S O U} (f : O -> U) (t : Transition S O) : Transition S U :=
  match t with
  | TSame => TSame
  | TNext s => TNext s
  | TComplete o => TComplete (f o)
  | TYield o s => TYield (f o) s
  | TError e => TError e
  end.

Definition map_state {S O T} (f : S -> T) (t : Transition S O) : Transition T O :=
  match t with
  | TSame => TSame
  | TNext s => TNext (f s)
  | TComplete o => TComplete o
  | TYield o s => TYield o (f s)
  | TError e => TError e
  end.

Inductive PollResult (T : Type) :=
| PRReady (t : T)
| PRPending
| PRNeedInput (n : Z)
| PREof
| PRError (e : IoError).
Arguments PRReady {T} t.
Arguments PRPending {T}.
Arguments PRNeedInput {T} n.
Arguments PREof {T}.
Arguments PRError {T} e.

Definition PollResult_is_ready {T} (r : PollResult T) : bool :=
  match r with PRReady _ => true | _ => false end.
Definition PollResult_is_eof {T} (r : PollResult T) : bool :=
  match r with PREof => true | _ => false end.
Definition PollResult_ok {T} (r : PollResult T) : option T :=
  match r with PRReady t => Some t | _ => None end.
Definition PollResult_map {T U} (f : T -> U) (r : PollResult T) : PollResult U :=
  match r with
  | PRReady t => PRReady (f t)
  | PRPending => PRPending
  | PRNeedInput n => PRNeedInput n
  | PREof => PREof
  | PRError e => PRError e
  end.

(** [impl From<io::Result<T>> for PollResult<T>] *)
Definition PollResult_from {T} (r : io_result T) : PollResult T :=
  match r with
  | Ok t => PRReady t
  | Err e =>
      if decide (err_kind e = WouldBlock) then PRPending
      else if decide (err_kind e = UnexpectedEof) then PREof
      else PRError e
  end.

(** ** [ReadBuffer] (state.rs:134-238) *)

Record ReadBuffer := mkReadBuffer { rb_buffer : bytes; rb_target : option Z }.

Definition ReadBuffer_new : ReadBuffer := mkReadBuffer [] None.
Definition ReadBuffer_with_target (t : Z) : ReadBuffer := mkReadBuffer [] (Some t).
Definition ReadBuffer_is_complete (b : ReadBuffer) : bool :=
  match rb_target b with Some t => t <=? zlen (rb_buffer b) | None => false end.
Definition ReadBuffer_remaining (b : ReadBuffer) : Z :=
  match rb_target b with Some t => sat_sub t (zlen (rb_buffer b)) | None => 0 end.
Definition ReadBuffer_extend (b : ReadBuffer) (data : bytes) : ReadBuffer :=
  mkReadBuffer (rb_buffer b ++ data) (rb_target b).
Definition ReadBuffer_take (b : ReadBuffer) : bytes * ReadBuffer := (rb_buffer b, mkReadBuffer [] None).
Definition ReadBuffer_take_exact (b : ReadBuffer) (n : Z) : option bytes * ReadBuffer :=
  if n <=? zlen (rb_buffer b) then
    (Some (ztake n (rb_buffer b)), mkReadBuffer (zdrop n (rb_buffer b)) (rb_target b))
  else (None, b).
Definition ReadBuffer_clear (b : ReadBuffer) : ReadBuffer := mkReadBuffer [] None.
Definition ReadBuffer_set_target (b : ReadBuffer) (t : Z) : ReadBuffer :=
  mkReadBuffer (rb_buffer b) (Some t).

(** ** [WriteBuffer] (state.rs:242-322) *)

Record WriteBuffer := mkWriteBuffer { wb_buffer : bytes; wb_position : Z; wb_max_size : Z }.

Definition WriteBuffer_with_max_size (max : Z) : WriteBuffer := mkWriteBuffer [] 0 max.
Definition WriteBuffer_new : WriteBuffer := WriteBuffer_with_max_size (256 * 1024).
Definition WriteBuffer_len (b : WriteBuffer) : Z := zlen (wb_buffer b) - wb_position b.
Definition WriteBuffer_is_empty (b : WriteBuffer) : bool := zlen (wb_buffer b) <=? wb_position b.
Definition WriteBuffer_is_full (b : WriteBuffer) : bool := wb_max_size b <=? zlen (wb_buffer b).
Definition WriteBuffer_remaining_capacity (b : WriteBuffer) : Z :=
  sat_sub (wb_max_size b) (zlen (wb_buffer b)).
Definition WriteBuffer_extend (b : WriteBuffer) (data : bytes) : result unit unit * WriteBuffer :=
  if wb_max_size b <? zlen (wb_buffer b) + zlen data then (Err tt, b)
  else (Ok tt, mkWriteBuffer (wb_buffer b ++ data) (wb_position b) (wb_max_size b)).
Definition WriteBuffer_pending (b : WriteBuffer) : bytes := zdrop (wb_position b) (wb_buffer b).
Definition WriteBuffer_advance (b : WriteBuffer) (n : Z) : WriteBuffer :=
  let position := wb_position b + n in
  if zlen (wb_buffer b) <=? position then mkWriteBuffer [] 0 (wb_max_size b)
  else mkWriteBuffer (wb_buffer b) position (wb_max_size b).
Definition WriteBuffer_clear (b : WriteBuffer) : WriteBuffer := mkWriteBuffer [] 0 (wb_max_size b).

(** ** [HeaderBuffer<N>] (state.rs:328-393)

    [hb_data] is the array of [N] bytes. *)

Record HeaderBuffer := mkHeaderBuffer { hb_data : bytes; hb_filled : Z }.

Definition HeaderBuffer_new (n : Z) : HeaderBuffer := mkHeaderBuffer (zrepeat n 0) 0.
(** Writing [bs] into [unfilled_mut()] and then [advance(bs.len())], as a [poll_read] into that
    slice does. *)
Definition HeaderBuffer_unfilled (b : HeaderBuffer) : Z := zlen (hb_data b) - hb_filled b.
Definition HeaderBuffer_write (b : HeaderBuffer) (bs : bytes) : HeaderBuffer :=
  mkHeaderBuffer (splice (hb_data b) (hb_filled b) bs) (hb_filled b).
Definition HeaderBuffer_advance (b : HeaderBuffer) (n : Z) : HeaderBuffer :=
  mkHeaderBuffer (hb_data b) (Z.min (hb_filled b + n) (zlen (hb_data b))).
Definition HeaderBuffer_is_complete (b : HeaderBuffer) : bool := zlen (hb_data b) <=? hb_filled b.
Definition HeaderBuffer_remaining (b : HeaderBuffer) : Z := zlen (hb_data b) - hb_filled b.
Definition HeaderBuffer_as_slice (b : HeaderBuffer) : bytes := ztake (hb_filled b) (hb_data b).
(** [as_array]: [None] stands for the panic of its assertion. *)
Definition HeaderBuffer_as_array (b : HeaderBuffer) : option bytes :=
  if HeaderBuffer_is_complete b then Some (hb_data b) else None.
Definition HeaderBuffer_take (b : HeaderBuffer) : bytes * HeaderBuffer :=
  (hb_data b, HeaderBuffer_new (zlen (hb_data b))).
Definition HeaderBuffer_reset (b : HeaderBuffer) : HeaderBuffer := mkHeaderBuffer (hb_data b) 0.

(** ** [YieldBuffer] (state.rs:399-433) *)

Record YieldBuffer := mkYieldBuffer { yb_data : bytes; yb_position : Z }.

Definition YieldBuffer_new (data : bytes) : YieldBuffer := mkYieldBuffer data 0.
Definition YieldBuffer_is_empty (b : YieldBuffer) : bool := zlen (yb_data b) <=? yb_position b.
Definition YieldBuffer_remaining (b : YieldBuffer) : Z := zlen (yb_data b) - yb_position b.
(** [copy_to(dst)] for a [dst] of [dst_len] bytes: the bytes copied to its front. *)
Definition YieldBuffer_copy_to (b : YieldBuffer) (dst_len : Z) : bytes * YieldBuffer :=
  let available := zdrop (yb_position b) (yb_data b) in
  let to_copy := Z.min (zlen available) dst_len in
  (ztake to_copy available, mkYieldBuffer (yb_data b) (yb_position b + to_copy)).
Definition YieldBuffer_as_slice (b : YieldBuffer) : bytes := zdrop (yb_position b) (yb_data b).

(** ** Invariants *)

Definition WriteBuffer_wf (b : WriteBuffer) : Prop :=
  0 <= wb_position b <= zlen (wb_buffer b) /\ zlen (wb_buffer b) <= wb_max_size b.
Definition HeaderBuffer_wf (n : Z) (b : HeaderBuffer) : Prop :=
  zlen (hb_data b) = n /\ 0 <= hb_filled b <= n.
Definition YieldBuffer_wf (b : YieldBuffer) : Prop := 0 <= yb_position b <= zlen (yb_data b).

(** ** Facts *)

Lemma WriteBuffer_pending_empty b :
  WriteBuffer_wf b -> WriteBuffer_is_empty b = true <-> WriteBuffer_pending b = [].
Proof.
  intros [Hp _]. unfold WriteBuffer_is_empty, WriteBuffer_pending. rewrite Z.leb_le. split.
  - intros. apply zdrop_all. lia.
  - intros E. apply (f_equal zlen) in E. rewrite zlen_zdrop in E. change (zlen (@nil Z)) with 0 in E. lia.
Qed.

Lemma WriteBuffer_advance_spec b n :
  WriteBuffer_wf b -> 0 <= n <= zlen (WriteBuffer_pending b) ->
  WriteBuffer_wf (WriteBuffer_advance b n) /\
  WriteBuffer_pending (WriteBuffer_advance b n) = zdrop n (WriteBuffer_pending b) /\
  wb_max_size (WriteBuffer_advance b n) = wb_max_size b.
Proof.
  intros [Hp Hm] Hn. unfold WriteBuffer_pending, WriteBuffer_advance, WriteBuffer_wf in *.
  rewrite zlen_zdrop in Hn.
  destruct (Z.leb_spec (zlen (wb_buffer b)) (wb_position b + n)); cbn [wb_buffer wb_position wb_max_size].
  - change (zlen (@nil Z)) with 0. split; [pose proof (zlen_nonneg (wb_buffer b)); lia|].
    split; [|done]. rewrite zdrop_zdrop, (zdrop_all (n + _)) by lia. by rewrite zdrop_0.
  - split; [lia|]. split; [|done]. rewrite zdrop_zdrop by lia. f_equal. lia.
Qed.

Lemma HeaderBuffer_new_wf n : 0 <= n -> HeaderBuffer_wf n (HeaderBuffer_new n).
Proof. intros. split; cbn; [rewrite zlen_zrepeat|]; lia. Qed.

(** Reading [bs] into the unfilled part appends [bs] to what has been read. *)
Lemma HeaderBuffer_fill_spec n b bs :
  HeaderBuffer_wf n b -> zlen bs <= HeaderBuffer_unfilled b ->
  let b' := HeaderBuffer_advance (HeaderBuffer_write b bs) (zlen bs) in
  HeaderBuffer_wf n b' /\ HeaderBuffer_as_slice b' = HeaderBuffer_as_slice b ++ bs.
Proof.
  intros [Hn Hf] Hb. unfold HeaderBuffer_unfilled in Hb. pose proof (zlen_nonneg bs).
  unfold HeaderBuffer_advance, HeaderBuffer_write, HeaderBuffer_wf, HeaderBuffer_as_slice.
  cbn [hb_data hb_filled]. rewrite zlen_splice by lia. split; [lia|].
  rewrite Z.min_l by lia. unfold splice. rewrite app_assoc. apply ztake_app.
  rewrite zlen_app, zlen_ztake. lia.
Qed.

Lemma HeaderBuffer_complete_slice n b :
  HeaderBuffer_wf n b -> HeaderBuffer_is_complete b = true ->
  HeaderBuffer_as_array b = Some (HeaderBuffer_as_slice b) /\ zlen (HeaderBuffer_as_slice b) = n.
Proof.
  intros [Hn Hf] Hc. unfold HeaderBuffer_as_array, HeaderBuffer_as_slice. rewrite Hc.
  unfold HeaderBuffer_is_complete in Hc. apply Z.leb_le in Hc.
  rewrite ztake_all by lia. done.
Qed.

Lemma YieldBuffer_copy_spec b k :
  YieldBuffer_wf b -> 0 <= k ->
  let r := YieldBuffer_copy_to b k in
  YieldBuffer_as_slice b = fst r ++ YieldBuffer_as_slice (snd r) /\ YieldBuffer_wf (snd r) /\
  zlen (fst r) = Z.min (YieldBuffer_remaining b) k.
Proof.
  intros Hw Hk. unfold YieldBuffer_wf, YieldBuffer_copy_to, YieldBuffer_as_slice, YieldBuffer_remaining in *.
  cbn [fst snd yb_data yb_position]. rewrite zlen_zdrop, zlen_ztake, zlen_zdrop.
  split; [|lia]. rewrite (Z.add_comm (yb_position b)), <-zdrop_zdrop by lia.
  by rewrite ztake_zdrop.
Qed.

(** ** The write buffer as a FIFO queue *)

Inductive wb_op := WbExtend (data : bytes) | WbAdvance (n : Z).

(** One use of the buffer by a writer: bytes are offered with [extend]; [advance] is called with
    the number of bytes of [pending()] that were written out.  [accepted] and [written] record
    what went in and what came out. *)
Inductive wb_step : WriteBuffer * bytes * bytes -> wb_op -> WriteBuffer * bytes * bytes -> Prop :=
| wb_extend_ok b b' acc wr data :
    WriteBuffer_extend b data = (Ok tt, b') ->
    wb_step (b, acc, wr) (WbExtend data) (b', acc ++ data, wr)
| wb_extend_full b b' acc wr data :
    WriteBuffer_extend b data = (Err tt, b') ->
    wb_step (b, acc, wr) (WbExtend data) (b', acc, wr)
| wb_advance b acc wr n :
    0 <= n <= zlen (WriteBuffer_pending b) ->
    wb_step (b, acc, wr) (WbAdvance n)
      (WriteBuffer_advance b n, acc, wr ++ ztake n (WriteBuffer_pending b)).

Inductive wb_steps : WriteBuffer * bytes * bytes -> list wb_op -> WriteBuffer * bytes * bytes -> Prop :=
| wb_nil s : wb_steps s [] s
| wb_cons s op s' ops s'' : wb_step s op s' -> wb_steps s' ops s'' -> wb_steps s (op :: ops) s''.

Lemma WriteBuffer_extend_spec b data r b' :
  WriteBuffer_wf b -> WriteBuffer_extend b data = (r, b') ->
  WriteBuffer_wf b' /\ wb_max_size b' = wb_max_size b /\
  WriteBuffer_pending b' = WriteBuffer_pending b ++ (if is_ok r then data else []).
Proof.
  intros [Hp Hm]. unfold WriteBuffer_extend, WriteBuffer_wf, WriteBuffer_pending.
  destruct (Z.ltb_spec (wb_max_size b) (zlen (wb_buffer b) + zlen data)); intros [= <- <-];
    cbn [wb_buffer wb_position wb_max_size is_ok].
  - by rewrite app_nil_r.
  - rewrite zlen_app, zdrop_app_le by lia. pose proof (zlen_nonneg data). split; [lia|done].
Qed.

Lemma wb_step_inv b acc wr op b' acc' wr' :
  wb_step (b, acc, wr) op (b', acc', wr') -> WriteBuffer_wf b ->
  acc = wr ++ WriteBuffer_pending b ->
  WriteBuffer_wf b' /\ wb_max_size b' = wb_max_size b /\ acc' = wr' ++ WriteBuffer_pending b'.
Proof.
  intros Hst Hw Hacc. inversion Hst as [? ? ? ? data E|? ? ? ? data E|? ? ? n Hn]; subst.
  - destruct (WriteBuffer_extend_spec _ _ _ _ Hw E) as (? & ? & ->). cbn. by rewrite <-app_assoc.
  - destruct (WriteBuffer_extend_spec _ _ _ _ Hw E) as (? & ? & ->). cbn. by rewrite app_nil_r.
  - destruct (WriteBuffer_advance_spec b n Hw) as (? & -> & ?); [done|].
    split_and!; [done|done|]. by rewrite <-app_assoc, ztake_zdrop.
Qed.

(** Whatever sequence of [extend] and [advance] a writer performs on a fresh [WriteBuffer],
    the bytes written out followed by the bytes still pending are exactly the bytes accepted, in
    order, and the buffer never holds more than its maximum. *)
Theorem write_buffer_fifo max ops b acc wr :
  0 <= max -> wb_steps (WriteBuffer_with_max_size max, [], []) ops (b, acc, wr) ->
  acc = wr ++ WriteBuffer_pending b /\ zlen (WriteBuffer_pending b) <= max.
Proof.
  intros Hmax Hs.
  assert (forall s s', wb_steps s ops s' ->
    WriteBuffer_wf (fst (fst s)) -> snd (fst s) = snd s ++ WriteBuffer_pending (fst (fst s)) ->
    WriteBuffer_wf (fst (fst s')) /\ wb_max_size (fst (fst s')) = wb_max_size (fst (fst s)) /\
    snd (fst s') = snd s' ++ WriteBuffer_pending (fst (fst s'))) as Hgen.
  { clear. induction 1 as [|[[b acc] wr] op [[b' acc'] wr'] ops s'' Hst Hss IH]; [done|].
    cbn [fst snd] in *. intros Hw Hacc.
    destruct (wb_step_inv _ _ _ _ _ _ _ Hst Hw Hacc) as (Hw' & Hm' & Hacc').
    destruct (IH Hw' Hacc') as (? & ? & ?). split_and!; [done|congruence|done]. }
  apply Hgen in Hs as (Hw & Hm & Hacc); cbn [fst snd] in *.
  - split; [done|]. destruct Hw as [Hp Hl]. unfold WriteBuffer_pending. rewrite zlen_zdrop.
    cbn in Hm. lia.
  - unfold WriteBuffer_wf. cbn. change (zlen (@nil Z)) with 0. lia.
  - done.
Qed.

