(* ===== verification/TlsStream.v ===== *)
(** * FakeTLS record streams: [stream/tls_stream.rs]

    The reader strips TLS record framing from an upstream that delivers bytes in arbitrary
    pieces; the writer wraps bytes into Application Data records over an upstream that accepts
    arbitrary parts of them.  Both are the source's explicit state machines; a poll is a
    function from the machine to its answer and the next machine. *)

From S2P Require Import Prelude Constants AsyncIo StreamState.

Definition TLS_HEADER_SIZE : Z := 5.
Definition MAX_TLS_PAYLOAD : Z := 16384 + 256.
Definition MAX_PENDING_WRITE : Z := 64 * 1024.

(** ** Record headers (tls_stream.rs:69-147) *)

Record TlsRecordHeader := mkTlsHeader {
  rh_record_type : Z;
  rh_version : bytes;
  rh_length : Z
}.

(** [parse(header: &[u8; 5])]; a list of another length cannot occur in the source. *)
Definition TlsRecordHeader_parse (header : bytes) : option TlsRecordHeader :=
  match header with
  | [t; v0; v1; l0; l1] => Some (mkTlsHeader t [v0; v1] (be_val [l0; l1]))
  | _ => None
  end.

Definition TlsRecordHeader_validate (h : TlsRecordHeader) : io_result unit :=
  if negb (bool_decide (rh_version h = [0x03; 0x01])) && negb (bool_decide (rh_version h = TLS_VERSION)) then
    Err (mkIoError InvalidData "Invalid TLS version: {:02x?}" (rh_version h))
  else
    let len := rh_length h in
    if rh_record_type h =? TLS_RECORD_APPLICATION then
      if MAX_TLS_CHUNK_SIZE <? len then
        Err (mkIoError InvalidData "TLS record too large: {} bytes (max {})" [len; MAX_TLS_CHUNK_SIZE])
      else Ok tt
    else if MAX_TLS_PAYLOAD <? len then
      Err (mkIoError InvalidData "TLS control record too large: {} bytes (max {})" [len; MAX_TLS_PAYLOAD])
    else Ok tt.

Definition TlsRecordHeader_to_bytes (h : TlsRecordHeader) : bytes :=
  [rh_record_type h; nth 0 (rh_version h) 0; nth 1 (rh_version h) 0;
   u8 (Z.shiftr (rh_length h) 8); u8 (rh_length h)].

(** ** Reader states (tls_stream.rs:153-268) *)

Inductive TlsReaderState :=
| TrIdle
| TrReadingHeader (header : HeaderBuffer)
| TrReadingBody (record_type length : Z) (buffer : bytes)
| TrYielding (buffer : YieldBuffer)
| TrPoisoned (error : option IoError).

#[export] Instance TlsReaderState_state : StreamState TlsReaderState := {|
  is_terminal s := match s with TrPoisoned _ => true | _ => false end;
  is_poisoned s := match s with TrPoisoned _ => true | _ => false end;
  state_name s :=
    match s with
    | TrIdle => "Idle"
    | TrReadingHeader _ => "ReadingHeader"
    | TrReadingBody _ _ _ => "ReadingBody"
    | TrYielding _ => "Yielding"
    | TrPoisoned _ => "Poisoned"
    end
|}.

Record FakeTlsReader := mkTlsReader { tr_upstream : list read_event; tr_state : TlsReaderState }.

Definition FakeTlsReader_new (up : list read_event) : FakeTlsReader := mkTlsReader up TrIdle.

Definition previously_poisoned : IoError := mkIoError Other "stream previously poisoned" [].
Definition not_poisoned : IoError := mkIoError Other "stream not poisoned" [].

Definition FakeTlsReader_poison (up : list read_event) (e : IoError) : FakeTlsReader :=
  mkTlsReader up (TrPoisoned (Some e)).

Definition FakeTlsReader_take_poison_error (this : FakeTlsReader) : IoError * FakeTlsReader :=
  match tr_state this with
  | TrPoisoned error =>
      (default previously_poisoned error, mkTlsReader (tr_upstream this) (TrPoisoned None))
  | _ => (not_poisoned, this)
  end.

(** ** Header and body polls (tls_stream.rs:270-515) *)

Inductive HeaderPollResult :=
| HpPending
| HpEof
| HpComplete (h : TlsRecordHeader)
| HpError (e : IoError).

Inductive BodyPollResult :=
| BpPending
| BpComplete (data : bytes)
| BpError (e : IoError).

(** [while !header.is_complete()]: every turn that stays in the loop has filled at least one
    byte, so the unfilled length bounds the number of turns. *)
Fixpoint poll_read_header_loop (fuel : nat) (up : list read_event) (header : HeaderBuffer)
    : option (HeaderPollResult * list read_event * HeaderBuffer) :=
  match fuel with
  | O => None
  | S fuel =>
      if negb (HeaderBuffer_is_complete header) then
        match up_poll_read up (HeaderBuffer_unfilled header) with
        | (Pending, up) => Some (HpPending, up, header)
        | (Ready (Err e), up) => Some (HpError e, up, header)
        | (Ready (Ok bs), up) =>
            let n := zlen bs in
            if n =? 0 then
              if zlen (HeaderBuffer_as_slice header) =? 0 then Some (HpEof, up, header)
              else Some (HpError (mkIoError UnexpectedEof "unexpected EOF in TLS header (got {} of 5 bytes)"
                                   [zlen (HeaderBuffer_as_slice header)]), up, header)
            else
              poll_read_header_loop fuel up (HeaderBuffer_advance (HeaderBuffer_write header bs) n)
        end
      else
        match HeaderBuffer_as_array header with
        | None => None
        | Some header_bytes =>
            match TlsRecordHeader_parse header_bytes with
            | Some h => Some (HpComplete h, up, header)
            | None => Some (HpError (mkIoError InvalidData "failed to parse TLS header" []), up, header)
            end
        end
  end.

Definition poll_read_header (up : list read_event) (header : HeaderBuffer)
    : option (HeaderPollResult * list read_event * HeaderBuffer) :=
  poll_read_header_loop (S (Z.to_nat (HeaderBuffer_remaining header))) up header.

Fixpoint poll_read_body_loop (fuel : nat) (up : list read_event) (buffer : bytes) (target_len : Z)
    : option (BodyPollResult * list read_event * bytes) :=
  match fuel with
  | O => None
  | S fuel =>
      if zlen buffer <? target_len then
        let remaining := target_len - zlen buffer in
        match up_poll_read up (Z.min remaining 8192) with
        | (Pending, up) => Some (BpPending, up, buffer)
        | (Ready (Err e), up) => Some (BpError e, up, buffer)
        | (Ready (Ok bs), up) =>
            let n := zlen bs in
            if n =? 0 then
              Some (BpError (mkIoError UnexpectedEof "unexpected EOF in TLS body (got {} of {} bytes)"
                               [zlen buffer; target_len]), up, buffer)
            else poll_read_body_loop fuel up (buffer ++ bs) target_len
        end
      else Some (BpComplete buffer, up, [])
  end.

Definition poll_read_body (up : list read_event) (buffer : bytes) (target_len : Z)
    : option (BodyPollResult * list read_event * bytes) :=
  poll_read_body_loop (S (Z.to_nat (target_len - zlen buffer))) up buffer target_len.

(** ** [poll_read] (tls_stream.rs:283-435)

    [cap] is [buf.remaining()]; the answer carries the bytes put into [buf]. *)

Fixpoint tls_poll_read_loop (fuel : nat) (this : FakeTlsReader) (cap : Z)
    : option (Poll (io_result bytes) * FakeTlsReader) :=
  match fuel with
  | O => None
  | S fuel =>
      let up := tr_upstream this in
      match tr_state this with
      | TrPoisoned error =>
          Some (Ready (Err (default previously_poisoned error)), mkTlsReader up (TrPoisoned None))
      | TrYielding buffer =>
          if cap =? 0 then Some (Ready (Ok []), mkTlsReader up (TrYielding buffer))
          else
            let to_copy := Z.min (YieldBuffer_remaining buffer) cap in
            let '(copied, buffer) := YieldBuffer_copy_to buffer to_copy in
            Some (Ready (Ok copied),
                  mkTlsReader up (if YieldBuffer_is_empty buffer then TrIdle else TrYielding buffer))
      | TrIdle =>
          if cap =? 0 then Some (Ready (Ok []), mkTlsReader up TrIdle)
          else tls_poll_read_loop fuel (mkTlsReader up (TrReadingHeader (HeaderBuffer_new TLS_HEADER_SIZE))) cap
      | TrReadingHeader header =>
          match poll_read_header up header with
          | None => None
          | Some (HpPending, up, header) => Some (Pending, mkTlsReader up (TrReadingHeader header))
          | Some (HpEof, up, _) => Some (Ready (Ok []), mkTlsReader up TrIdle)
          | Some (HpError e, up, _) => Some (Ready (Err e), FakeTlsReader_poison up e)
          | Some (HpComplete parsed, up, _) =>
              match TlsRecordHeader_validate parsed with
              | Err e => Some (Ready (Err e), FakeTlsReader_poison up e)
              | Ok _ =>
                  tls_poll_read_loop fuel
                    (mkTlsReader up (TrReadingBody (rh_record_type parsed) (rh_length parsed) [])) cap
              end
          end
      | TrReadingBody record_type length buffer =>
          match poll_read_body up buffer length with
          | None => None
          | Some (BpPending, up, buffer) =>
              Some (Pending, mkTlsReader up (TrReadingBody record_type length buffer))
          | Some (BpError e, up, _) => Some (Ready (Err e), FakeTlsReader_poison up e)
          | Some (BpComplete data, up, _) =>
              if record_type =? TLS_RECORD_CHANGE_CIPHER then
                tls_poll_read_loop fuel (mkTlsReader up TrIdle) cap
              else if record_type =? TLS_RECORD_APPLICATION then
                if zlen data =? 0 then tls_poll_read_loop fuel (mkTlsReader up TrIdle) cap
                else tls_poll_read_loop fuel (mkTlsReader up (TrYielding (YieldBuffer_new data))) cap
              else if record_type =? TLS_RECORD_ALERT then
                Some (Ready (Ok []), mkTlsReader up TrIdle)
              else
                let err :=
                  if record_type =? TLS_RECORD_HANDSHAKE then
                    mkIoError InvalidData "unexpected TLS handshake record" []
                  else mkIoError InvalidData "unknown TLS record type: 0x{:02x}" [record_type] in
                Some (Ready (Err err), FakeTlsReader_poison up err)
          end
      end
  end.

(** Three turns per record, and every record takes at least the 5 bytes of its header. *)
Definition tls_poll_read (this : FakeTlsReader) (cap : Z) : option (Poll (io_result bytes) * FakeTlsReader) :=
  tls_poll_read_loop (4 + 3 * up_size (tr_upstream this)) this cap.

(** ** [read_exact] (tls_stream.rs:517-544): one awaited [read] per turn

    [AsyncReadExt::read] polls until the answer is not pending; a pending poll consumes an event
    of the upstream's script, so its size bounds the wait. *)

#[export] Instance tls_read_async : AsyncRead FakeTlsReader := {|
  poll_read := tls_poll_read;
  rd_size this := up_size (tr_upstream this)
|}.

Fixpoint tls_read_exact_loop (fuel : nat) (this : FakeTlsReader) (n : Z) (acc : bytes)
    : option (io_result bytes * FakeTlsReader) :=
  match fuel with
  | O => None
  | S fuel =>
      if zlen acc <? n then
        match async_read this (n - zlen acc) with
        | None => None
        | Some (Err e, this) => Some (Err e, this)
        | Some (Ok read, this) =>
            if zlen read =? 0 then
              Some (Err (mkIoError UnexpectedEof "expected {} bytes, got {}" [n; zlen acc]), this)
            else tls_read_exact_loop fuel this n (acc ++ read)
        end
      else Some (Ok acc, this)
  end.

Definition tls_read_exact (this : FakeTlsReader) (n : Z) : option (io_result bytes * FakeTlsReader) :=
  if is_poisoned (tr_state this) then
    let '(e, this) := FakeTlsReader_take_poison_error this in Some (Err e, this)
  else tls_read_exact_loop (S (Z.to_nat n)) this n [].

(** ** Writer (tls_stream.rs:549-839) *)

Inductive TlsWriterState :=
| TwIdle
| TwWritingRecord (record : WriteBuffer) (payload_size : Z)
| TwPoisoned (error : option IoError).

#[export] Instance TlsWriterState_state : StreamState TlsWriterState := {|
  is_terminal s := match s with TwPoisoned _ => true | _ => false end;
  is_poisoned s := match s with TwPoisoned _ => true | _ => false end;
  state_name s :=
    match s with
    | TwIdle => "Idle"
    | TwWritingRecord _ _ => "WritingRecord"
    | TwPoisoned _ => "Poisoned"
    end
|}.

Record FakeTlsWriter := mkTlsWriter { tw_upstream : upstream_w; tw_state : TlsWriterState }.

Definition FakeTlsWriter_new (up : upstream_w) : FakeTlsWriter := mkTlsWriter up TwIdle.

Definition FakeTlsWriter_has_pending (this : FakeTlsWriter) : bool :=
  match tw_state this with
  | TwWritingRecord record _ => negb (WriteBuffer_is_empty record)
  | _ => false
  end.

Definition FakeTlsWriter_poison (up : upstream_w) (e : IoError) : FakeTlsWriter :=
  mkTlsWriter up (TwPoisoned (Some e)).

Definition build_record (data : bytes) : bytes :=
  let header := mkTlsHeader TLS_RECORD_APPLICATION TLS_VERSION (u16 (zlen data)) in
  TlsRecordHeader_to_bytes header ++ data.

Inductive FlushResult := FrComplete (n : Z) | FrPending | FrError (e : IoError).

Definition write_zero : IoError := mkIoError WriteZero "upstream returned 0 bytes written" [].

(** [while !record.is_empty()]: a turn that stays in the loop has written at least one byte. *)
Fixpoint poll_flush_record_loop (fuel : nat) (up : upstream_w) (record : WriteBuffer)
    : option (FlushResult * upstream_w * WriteBuffer) :=
  match fuel with
  | O => None
  | S fuel =>
      if negb (WriteBuffer_is_empty record) then
        match up_poll_write up (WriteBuffer_pending record) with
        | (Pending, up) => Some (FrPending, up, record)
        | (Ready (Err e), up) => Some (FrError e, up, record)
        | (Ready (Ok n), up) =>
            if n =? 0 then Some (FrError write_zero, up, record)
            else poll_flush_record_loop fuel up (WriteBuffer_advance record n)
        end
      else Some (FrComplete 0, up, record)
  end.

Definition poll_flush_record_inner (up : upstream_w) (record : WriteBuffer)
    : option (FlushResult * upstream_w * WriteBuffer) :=
  poll_flush_record_loop (S (Z.to_nat (WriteBuffer_len record))) up record.

(** The part of [poll_write] after "Now in Idle state". *)
Definition tls_write_idle (up : upstream_w) (buf : bytes) : Poll (io_result Z) * FakeTlsWriter :=
  if zlen buf =? 0 then (Ready (Ok 0), mkTlsWriter up TwIdle)
  else
    let chunk_size := Z.min (zlen buf) MAX_TLS_PAYLOAD in
    let chunk := ztake chunk_size buf in
    let record_data := build_record chunk in
    match up_poll_write up record_data with
    | (Ready (Ok n), up) =>
        if n =? zlen record_data then (Ready (Ok chunk_size), mkTlsWriter up TwIdle)
        else
          let write_buffer := WriteBuffer_with_max_size MAX_PENDING_WRITE in
          let '(_, write_buffer) := WriteBuffer_extend write_buffer (zdrop n record_data) in
          (Ready (Ok chunk_size), mkTlsWriter up (TwWritingRecord write_buffer chunk_size))
    | (Ready (Err e), up) => (Ready (Err e), FakeTlsWriter_poison up e)
    | (Pending, up) =>
        let write_buffer := WriteBuffer_with_max_size MAX_PENDING_WRITE in
        let '(_, write_buffer) := WriteBuffer_extend write_buffer record_data in
        (Ready (Ok chunk_size), mkTlsWriter up (TwWritingRecord write_buffer chunk_size))
    end.

Definition tls_poll_write (this : FakeTlsWriter) (buf : bytes) : option (Poll (io_result Z) * FakeTlsWriter) :=
  let up := tw_upstream this in
  match tw_state this with
  | TwPoisoned error =>
      Some (Ready (Err (default previously_poisoned error)), mkTlsWriter up (TwPoisoned None))
  | TwWritingRecord record payload_size =>
      match poll_flush_record_inner up record with
      | None => None
      | Some (FrPending, up, record) => Some (Pending, mkTlsWriter up (TwWritingRecord record payload_size))
      | Some (FrError e, up, _) => Some (Ready (Err e), FakeTlsWriter_poison up e)
      | Some (FrComplete _, up, _) => Some (tls_write_idle up buf)
      end
  | TwIdle => Some (tls_write_idle up buf)
  end.

(** [Pin::new(&mut this.upstream).poll_flush(cx)] on an idle writer. *)
Definition tls_flush_idle (up : upstream_w) : Poll (io_result unit) * FakeTlsWriter :=
  let '(r, up) := up_poll_flush up in (r, mkTlsWriter up TwIdle).

Definition tls_poll_flush (this : FakeTlsWriter) : option (Poll (io_result unit) * FakeTlsWriter) :=
  let up := tw_upstream this in
  match tw_state this with
  | TwPoisoned error =>
      Some (Ready (Err (default previously_poisoned error)), mkTlsWriter up (TwPoisoned None))
  | TwWritingRecord record payload_size =>
      match poll_flush_record_inner up record with
      | None => None
      | Some (FrPending, up, record) => Some (Pending, mkTlsWriter up (TwWritingRecord record payload_size))
      | Some (FrError e, up, _) => Some (Ready (Err e), FakeTlsWriter_poison up e)
      | Some (FrComplete _, up, _) => Some (tls_flush_idle up)
      end
  | TwIdle => Some (tls_flush_idle up)
  end.

(** [poll_shutdown] up to the upstream's own shutdown: the state it leaves behind. *)
Definition tls_poll_shutdown (this : FakeTlsWriter) : option FakeTlsWriter :=
  let up := tw_upstream this in
  match tw_state this with
  | TwWritingRecord record _ =>
      match poll_flush_record_inner up record with
      | None => None
      | Some (_, up, _) => Some (mkTlsWriter up TwIdle)
      end
  | _ => Some (mkTlsWriter up TwIdle)
  end.

(** ** The record layer as a function of the byte stream

    [tls_view w] is what a reader delivers from the bytes [w]: [Some b] for a payload byte, [None]
    where an alert record makes it report the end of the stream.  It ends at the first incomplete
    or invalid record. *)

Definition deliver (record_type : Z) (body : bytes) (rest : list (option Z)) : list (option Z) :=
  if record_type =? TLS_RECORD_CHANGE_CIPHER then rest
  else if record_type =? TLS_RECORD_APPLICATION then map Some body ++ rest
  else if record_type =? TLS_RECORD_ALERT then None :: rest
  else [].

Fixpoint tls_view_fuel (fuel : nat) (w : bytes) : list (option Z) :=
  match fuel with
  | O => []
  | S fuel =>
      match TlsRecordHeader_parse (ztake 5 w) with
      | None => []
      | Some h =>
          if is_ok (TlsRecordHeader_validate h) then
            if zlen (zdrop 5 w) <? rh_length h then []
            else deliver (rh_record_type h) (ztake (rh_length h) (zdrop 5 w))
                   (tls_view_fuel fuel (zdrop (rh_length h) (zdrop 5 w)))
          else []
      end
  end.

Definition tls_view (w : bytes) : list (option Z) := tls_view_fuel (S (length w)) w.

(** The rest of a record whose header has been read. *)
Definition tls_body_view (record_type len : Z) (w : bytes) : list (option Z) :=
  if zlen w <? len then [] else deliver record_type (ztake len w) (tls_view (zdrop len w)).

(** What a reader in state [s] will deliver when [w] is still to come. *)
Definition tls_state_view (s : TlsReaderState) (w : bytes) : list (option Z) :=
  match s with
  | TrIdle => tls_view w
  | TrReadingHeader header => tls_view (HeaderBuffer_as_slice header ++ w)
  | TrReadingBody t len buffer => tls_body_view t len (buffer ++ w)
  | TrYielding buffer => map Some (YieldBuffer_as_slice buffer) ++ tls_view w
  | TrPoisoned _ => []
  end.

Definition tls_state_wf (s : TlsReaderState) : Prop :=
  match s with
  | TrReadingHeader header =>
      HeaderBuffer_wf TLS_HEADER_SIZE header /\ HeaderBuffer_is_complete header = false
  | TrReadingBody _ len buffer => zlen buffer <= Z.max 0 len
  | TrYielding buffer => YieldBuffer_wf buffer /\ YieldBuffer_as_slice buffer <> []
  | _ => True
  end.

(** ** Facts on the view *)

Lemma parse_length w h : TlsRecordHeader_parse (ztake 5 w) = Some h -> 5 <= zlen w.
Proof.
  intros E. destruct (Z.lt_ge_cases (zlen w) 5); [|done].
  rewrite ztake_all in E by lia.
  destruct w as [|? [|? [|? [|? [|? [|]]]]]]; try done; zlen_simpl; pose proof (zlen_nonneg w); lia.
Qed.

Lemma tls_view_fuel_enough w n m :
  (length w < n)%nat -> (length w < m)%nat -> tls_view_fuel n w = tls_view_fuel m w.
Proof.
  revert w m. induction n as [|n IH]; intros w m Hn Hm; [lia|]. destruct m as [|m]; [lia|].
  cbn [tls_view_fuel]. destruct (TlsRecordHeader_parse (ztake 5 w)) as [h|] eqn:E; [|done].
  apply parse_length in E. destruct (is_ok _); [|done]. destruct (_ <? _); [done|].
  rewrite (IH _ m); [done|..]; unfold zdrop, zlen in *; rewrite !length_drop; lia.
Qed.

Lemma tls_view_eq w :
  tls_view w =
    match TlsRecordHeader_parse (ztake 5 w) with
    | None => []
    | Some h =>
        if is_ok (TlsRecordHeader_validate h) then
          tls_body_view (rh_record_type h) (rh_length h) (zdrop 5 w)
        else []
    end.
Proof.
  unfold tls_view at 1, tls_body_view. cbn [tls_view_fuel].
  destruct (TlsRecordHeader_parse (ztake 5 w)) as [h|] eqn:E; [|done]. apply parse_length in E.
  destruct (is_ok _); [|done]. destruct (_ <? _); [done|]. f_equal.
  apply tls_view_fuel_enough; unfold zdrop, zlen in *; rewrite ?length_drop; lia.
Qed.

Lemma tls_view_short w : zlen w < 5 -> tls_view w = [].
Proof.
  intros Hw. rewrite tls_view_eq. destruct (TlsRecordHeader_parse (ztake 5 w)) eqn:E; [|done].
  apply parse_length in E. lia.
Qed.

(** ** The header and body polls *)

Lemma header_incomplete n b :
  HeaderBuffer_wf n b -> HeaderBuffer_is_complete b = false ->
  0 < HeaderBuffer_unfilled b /\ zlen (HeaderBuffer_as_slice b) < n.
Proof.
  intros [Hn Hf] Hc. unfold HeaderBuffer_is_complete in Hc. apply Z.leb_gt in Hc.
  unfold HeaderBuffer_unfilled, HeaderBuffer_as_slice. rewrite zlen_ztake. lia.
Qed.

Definition header_poll_post (up : list read_event) (header : HeaderBuffer)
    (r : HeaderPollResult) (up' : list read_event) (header' : HeaderBuffer) : Prop :=
  up_live up' = true /\
  HeaderBuffer_as_slice header ++ up_bytes up = HeaderBuffer_as_slice header' ++ up_bytes up' /\
  (up_size up' <= up_size up)%nat /\
  match r with
  | HpPending => HeaderBuffer_wf 5 header' /\ HeaderBuffer_is_complete header' = false /\
                 (up_size up' < up_size up)%nat
  | HpEof => HeaderBuffer_as_slice header' = [] /\ up_bytes up' = []
  | HpComplete h => TlsRecordHeader_parse (HeaderBuffer_as_slice header') = Some h /\
                    zlen (HeaderBuffer_as_slice header') = 5 /\
                    (HeaderBuffer_is_complete header = false -> (up_size up' < up_size up)%nat)
  | HpError _ => zlen (HeaderBuffer_as_slice header') < 5 /\ up_bytes up' = []
  end.

Lemma parse_five l : zlen l = 5 -> exists h, TlsRecordHeader_parse l = Some h.
Proof.
  intros Hl. destruct l as [|? [|? [|? [|? [|? [|]]]]]]; zlen_simpl; try lia; [by eexists|].
  pose proof (zlen_nonneg l). lia.
Qed.

Lemma poll_read_header_loop_spec fuel up header :
  HeaderBuffer_wf 5 header -> up_live up = true ->
  HeaderBuffer_remaining header < Z.of_nat fuel ->
  exists r up' header', poll_read_header_loop fuel up header = Some (r, up', header') /\
    header_poll_post up header r up' header'.
Proof.
  revert up header. induction fuel as [|fuel IH]; intros up header Hw Hl Hf.
  { destruct Hw. unfold HeaderBuffer_remaining in Hf. lia. }
  cbn [poll_read_header_loop]. destruct (HeaderBuffer_is_complete header) eqn:Ec; cbn [negb].
  - destruct (HeaderBuffer_complete_slice _ _ Hw Ec) as [-> Hlen].
    destruct (parse_five _ Hlen) as [h Eh]. rewrite Eh. eexists _, _, _. split; [done|].
    unfold header_poll_post. rewrite Ec. split_and!; done.
  - destruct (header_incomplete _ _ Hw Ec) as [Hpos Hshort].
    destruct (up_poll_read up (HeaderBuffer_unfilled header)) as [r up'] eqn:Er.
    destruct (up_poll_read_spec _ _ _ _ Hpos Hl Er) as [Hl' Hr].
    destruct r as [|[bs|e]]; [| |done].
    + destruct Hr as [Hb Hs]. eexists _, _, _. split; [done|].
      unfold header_poll_post. rewrite Hb. split_and!; done || lia.
    + destruct Hr as (Hcap & Hb & Hnil & Hdec). destruct (Z.eqb_spec (zlen bs) 0) as [Hz|Hnz].
      * apply zlen_zero_nil in Hz. destruct (Hnil Hz) as [-> ->]. subst bs.
        destruct (Z.eqb_spec (zlen (HeaderBuffer_as_slice header)) 0) as [Hz|];
          eexists _, _, _; (split; [done|]); unfold header_poll_post.
        -- split_and!; try done. by apply zlen_zero_nil.
        -- split_and!; done.
      * assert (bs <> []) as Hne by (intros ->; by cbn in Hnz). specialize (Hdec Hne).
        destruct (HeaderBuffer_fill_spec 5 header bs Hw Hcap) as [Hw' Hsl].
        set (header1 := HeaderBuffer_advance _ _) in *.
        destruct (IH up' header1 Hw' Hl') as (r & up2 & header2 & -> & Hl2 & Hb2 & Hs2 & Hr2).
        { destruct Hw as [Hw1 Hw2]. pose proof (zlen_nonneg bs).
          assert (zlen (HeaderBuffer_as_slice header1) = hb_filled header + zlen bs) as Hf1
            by (rewrite Hsl, zlen_app; unfold HeaderBuffer_as_slice; rewrite zlen_ztake; lia).
          destruct Hw' as [Hw1' Hw2']. unfold HeaderBuffer_remaining, HeaderBuffer_as_slice in *.
          rewrite zlen_ztake in Hf1. lia. }
        eexists _, _, _. split; [done|]. unfold header_poll_post.
        rewrite Hb, app_assoc, <-Hsl. split_and!; [done|done|lia|].
        destruct r; [|done| |done].
        -- destruct Hr2 as (? & ? & ?). split_and!; [done|done|lia].
        -- destruct Hr2 as (? & ? & _). split_and!; [done|done|lia].
Qed.

Definition body_poll_post (up : list read_event) (buffer : bytes) (target : Z)
    (r : BodyPollResult) (up' : list read_event) (buffer' : bytes) : Prop :=
  up_live up' = true /\ (up_size up' <= up_size up)%nat /\
  match r with
  | BpPending => buffer ++ up_bytes up = buffer' ++ up_bytes up' /\ zlen buffer' <= Z.max 0 target /\
                 (up_size up' < up_size up)%nat
  | BpComplete data => buffer ++ up_bytes up = data ++ up_bytes up' /\ zlen data = Z.max 0 target
  | BpError _ => zlen (buffer ++ up_bytes up) < target
  end.

Lemma poll_read_body_loop_spec fuel up buffer target :
  zlen buffer <= Z.max 0 target -> up_live up = true ->
  Z.max 0 (target - zlen buffer) < Z.of_nat fuel ->
  exists r up' buffer', poll_read_body_loop fuel up buffer target = Some (r, up', buffer') /\
    body_poll_post up buffer target r up' buffer'.
Proof.
  revert up buffer. induction fuel as [|fuel IH]; intros up buffer Hw Hl Hf; [lia|].
  cbn [poll_read_body_loop]. pose proof (zlen_nonneg buffer).
  destruct (Z.ltb_spec (zlen buffer) target).
  - destruct (up_poll_read up _) as [r up'] eqn:Er.
    destruct (up_poll_read_spec up (Z.min (target - zlen buffer) 8192) r up' ltac:(lia) Hl Er) as [Hl' Hr].
    destruct r as [|[bs|e]]; [| |done].
    + destruct Hr as [Hb Hs]. eexists _, _, _. split; [done|].
      unfold body_poll_post. rewrite Hb. split_and!; done || lia.
    + destruct Hr as (Hcap & Hb & Hnil & Hdec). destruct (Z.eqb_spec (zlen bs) 0) as [Hz|Hnz].
      * apply zlen_zero_nil in Hz. destruct (Hnil Hz) as [-> ->].
        eexists _, _, _. split; [done|]. unfold body_poll_post. cbn [up_bytes]. rewrite app_nil_r.
        split_and!; done || lia.
      * assert (bs <> []) as Hne by (intros ->; by cbn in Hnz). specialize (Hdec Hne).
        pose proof (zlen_nonneg bs).
        destruct (IH up' (buffer ++ bs)) as (r & up2 & b2 & -> & Hl2 & Hs2 & Hr2);
          [rewrite zlen_app; lia|done|rewrite zlen_app; lia|].
        eexists _, _, _. split; [done|]. unfold body_poll_post. rewrite Hb, app_assoc.
        split_and!; [done|lia|]. destruct r; [|done|done].
        destruct Hr2 as (? & ? & ?). split_and!; [done|done|lia].
  - eexists _, _, _. split; [done|]. unfold body_poll_post. split_and!; done || lia.
Qed.

(** ** One poll of the reader *)

(** The loop turns a state may still need. *)
Definition turns (s : TlsReaderState) (up : list read_event) : nat :=
  match s with
  | TrIdle => 3 * up_size up + 2
  | TrReadingHeader _ => 3 * up_size up + 1
  | TrReadingBody _ _ _ => 3 * up_size up + 3
  | TrYielding _ | TrPoisoned _ => 1
  end%nat.

(** A poll keeps the view: what it delivers is what the view starts with. *)
Definition tls_poll_post (this : FakeTlsReader) (r : Poll (io_result bytes)) (this' : FakeTlsReader) : Prop :=
  let view := tls_state_view (tr_state this) (up_bytes (tr_upstream this)) in
  let view' := tls_state_view (tr_state this') (up_bytes (tr_upstream this')) in
  tls_state_wf (tr_state this') /\ up_live (tr_upstream this') = true /\
  (up_size (tr_upstream this') <= up_size (tr_upstream this))%nat /\
  match r with
  | Pending => view = view' /\ (up_size (tr_upstream this') < up_size (tr_upstream this))%nat
  | Ready (Ok []) => view = None :: view' \/ (view = [] /\ view' = [])
  | Ready (Ok bs) => view = map Some bs ++ view'
  | Ready (Err _) => view = [] /\ view' = [] /\ is_poisoned (tr_state this') = true
  end.

Lemma tls_view_header header w h :
  TlsRecordHeader_parse header = Some h -> zlen header = 5 ->
  tls_view (header ++ w) =
    (if is_ok (TlsRecordHeader_validate h) then tls_body_view (rh_record_type h) (rh_length h) w else []).
Proof.
  intros Eh Hl. rewrite tls_view_eq, ztake_app, zdrop_app by done. by rewrite Eh.
Qed.

Lemma tls_body_view_complete t len data w :
  zlen data = Z.max 0 len -> tls_body_view t len (data ++ w) = deliver t data (tls_view w).
Proof.
  intros Hd. unfold tls_body_view. pose proof (zlen_nonneg w). rewrite zlen_app.
  destruct (Z.ltb_spec (zlen data + zlen w) len); [lia|].
  destruct (Z.lt_ge_cases len 0).
  - assert (data = []) as -> by (apply zlen_zero_nil; lia). cbn [app].
    by rewrite ztake_0, zdrop_0 by lia.
  - by rewrite ztake_app, zdrop_app by lia.
Qed.

Lemma tls_poll_mono this this0 r this' :
  tls_state_view (tr_state this) (up_bytes (tr_upstream this)) =
    tls_state_view (tr_state this0) (up_bytes (tr_upstream this0)) ->
  (up_size (tr_upstream this0) <= up_size (tr_upstream this))%nat ->
  tls_poll_post this0 r this' -> tls_poll_post this r this'.
Proof.
  intros Hv Hs (? & ? & ? & Hr). unfold tls_poll_post. rewrite Hv.
  split_and!; [done|done|lia|]. destruct r as [|[bs|]]; [|done|done].
  destruct Hr. split; [done|lia].
Qed.

Ltac poll_post :=
  unfold tls_poll_post, FakeTlsReader_poison; cbn [tr_state tr_upstream tls_state_view tls_state_wf].

(** [fuel] turns are enough for a poll of [this], and the poll keeps the view. *)
Definition poll_good (fuel : nat) (cap : Z) (this : FakeTlsReader) : Prop :=
  exists r this', tls_poll_read_loop fuel this cap = Some (r, this') /\ tls_poll_post this r this'.

Section Turn.
Variables (fuel : nat) (cap : Z).
Hypothesis Hcap : 0 < cap.
Hypothesis IH : forall this, tls_state_wf (tr_state this) -> up_live (tr_upstream this) = true ->
  (turns (tr_state this) (tr_upstream this) <= fuel)%nat -> poll_good fuel cap this.

Lemma poll_turn_header up header :
  tls_state_wf (TrReadingHeader header) -> up_live up = true -> (turns (TrReadingHeader header) up <= S fuel)%nat ->
  poll_good (S fuel) cap (mkTlsReader up (TrReadingHeader header)).
Proof.
  intros Hw Hl Hf. unfold poll_good. cbn [tls_poll_read_loop tr_state tr_upstream turns] in *.
  destruct Hw as [Hw Hc]. unfold poll_read_header.
  destruct (poll_read_header_loop_spec (S (Z.to_nat (HeaderBuffer_remaining header))) up header Hw Hl)
    as (r & up' & header' & -> & Hl' & Hb & Hs & Hr); [lia|].
  destruct r as [| |h|e].
  - destruct Hr as (? & ? & ?). eexists _, _. split; [done|].
    poll_post. by rewrite Hb.
  - destruct Hr as (Hsl & Hup). eexists _, _. split; [done|].
    poll_post.
    rewrite Hb, Hsl, Hup. split_and!; [done|done|done|by right].
  - destruct Hr as (Eh & Hlen & Hdec). specialize (Hdec Hc).
    pose proof (tls_view_header _ (up_bytes up') _ Eh Hlen) as Hv.
    destruct (TlsRecordHeader_validate h) as [[]|e]; cbn [is_ok] in Hv.
    + destruct (IH (mkTlsReader up' (TrReadingBody (rh_record_type h) (rh_length h) [])))
        as (r & this' & -> & Hpost); cbn [tr_state tr_upstream turns tls_state_wf];
        [change (zlen (@nil Z)) with 0; lia|done|lia|].
      eexists _, _. split; [done|]. eapply tls_poll_mono, Hpost; [|cbn; lia].
      cbn [tr_state tr_upstream tls_state_view app]. by rewrite Hb, Hv.
    + eexists _, _. split; [done|]. poll_post. rewrite Hb, Hv. done.
  - destruct Hr as (Hlen & Hup). eexists _, _. split; [done|]. poll_post.
    rewrite Hb, Hup, app_nil_r, tls_view_short by done. done.
Qed.

Lemma poll_turn_body up t len buffer :
  tls_state_wf (TrReadingBody t len buffer) -> up_live up = true -> (turns (TrReadingBody t len buffer) up <= S fuel)%nat ->
  poll_good (S fuel) cap (mkTlsReader up (TrReadingBody t len buffer)).
Proof.
  intros Hw Hl Hf. unfold poll_good. cbn [tls_poll_read_loop tr_state tr_upstream turns] in *.
  unfold poll_read_body.
  destruct (poll_read_body_loop_spec (S (Z.to_nat (len - zlen buffer))) up buffer len Hw Hl)
    as (r & up' & buffer' & -> & Hl' & Hs & Hr); [lia|].
  destruct r as [|data|e].
  - destruct Hr as (Hb & ? & ?). eexists _, _. split; [done|].
    poll_post. by rewrite Hb.
  - destruct Hr as (Hb & Hd). pose proof (tls_body_view_complete t len data (up_bytes up') Hd) as Hv.
    unfold deliver in Hv.
    assert (forall s', tls_body_view t len (data ++ up_bytes up') = tls_state_view s' (up_bytes up') ->
      tls_state_wf s' -> (turns s' up' <= 3 * up_size up' + 2)%nat ->
      exists r this', tls_poll_read_loop fuel (mkTlsReader up' s') cap = Some (r, this') /\
        tls_poll_post (mkTlsReader up (TrReadingBody t len buffer)) r this') as Hgo.
    { intros s' Hv' Hw' Ht. destruct (IH (mkTlsReader up' s')) as (r & this' & -> & Hpost);
        cbn [tr_state tr_upstream]; [done|done|lia|].
      eexists _, _. split; [done|]. eapply tls_poll_mono, Hpost; [|done].
      cbn [tr_state tr_upstream tls_state_view]. by rewrite Hb. }
    destruct (t =? TLS_RECORD_CHANGE_CIPHER); [by apply Hgo|].
    destruct (t =? TLS_RECORD_APPLICATION).
    { destruct (Z.eqb_spec (zlen data) 0) as [Hz|Hz].
      + apply Hgo; [|done|done]. apply zlen_zero_nil in Hz. rewrite Hv, Hz. done.
      + apply Hgo; [|split|cbn; lia].
        - cbn. unfold YieldBuffer_as_slice. cbn. by rewrite zdrop_0 by lia.
        - unfold YieldBuffer_wf. cbn. pose proof (zlen_nonneg data). lia.
        - unfold YieldBuffer_as_slice. cbn. rewrite zdrop_0 by lia. intros ->. by cbn in Hz. }
    destruct (t =? TLS_RECORD_ALERT).
    { eexists _, _. split; [done|]. poll_post. rewrite Hb, Hv.
      split_and!; [done|done|done|by left]. }
    eexists _, _. split; [done|]. poll_post. rewrite Hb, Hv. done.
  - eexists _, _. split; [done|]. poll_post.
    unfold tls_body_view. destruct (Z.ltb_spec (zlen (buffer ++ up_bytes up)) len); [done|lia].
Qed.

Lemma poll_turn_yield up buffer :
  tls_state_wf (TrYielding buffer) -> up_live up = true -> poll_good (S fuel) cap (mkTlsReader up (TrYielding buffer)).
Proof.
  intros Hw Hl. unfold poll_good. cbn [tls_poll_read_loop tr_state tr_upstream] in *.
  destruct (Z.eqb_spec cap 0); [lia|]. destruct Hw as [Hw Hne].
  assert (0 < YieldBuffer_remaining buffer) as Hpos.
  { unfold YieldBuffer_wf, YieldBuffer_as_slice, YieldBuffer_remaining in *.
    destruct (Z.lt_ge_cases 0 (zlen (yb_data buffer) - yb_position buffer)); [done|].
    destruct Hne. apply zdrop_all. lia. }
  destruct (YieldBuffer_copy_spec buffer (Z.min (YieldBuffer_remaining buffer) cap) Hw ltac:(lia))
    as (Hsl & Hw' & Hlen).
  destruct (YieldBuffer_copy_to buffer _) as [copied buffer'] eqn:Ec. cbn [fst snd] in *.
  eexists _, _. split; [done|]. poll_post.
  destruct copied as [|c copied]; [change (zlen (@nil Z)) with 0 in Hlen; lia|].
  rewrite Hsl, map_app, <-app_assoc. unfold YieldBuffer_is_empty, YieldBuffer_wf in *.
  destruct (Z.leb_spec (zlen (yb_data buffer')) (yb_position buffer')).
  - split_and!; [done|done|done|]. unfold YieldBuffer_as_slice. by rewrite zdrop_all by lia.
  - split_and!; [|done|done|done]. split; [done|]. intros E. apply (f_equal zlen) in E.
    unfold YieldBuffer_as_slice in E. rewrite zlen_zdrop in E. change (zlen (@nil Z)) with 0 in E. lia.
Qed.

End Turn.

Lemma tls_poll_read_loop_spec fuel this cap :
  0 < cap -> tls_state_wf (tr_state this) -> up_live (tr_upstream this) = true ->
  (turns (tr_state this) (tr_upstream this) <= fuel)%nat -> poll_good fuel cap this.
Proof.
  intros Hcap. revert this. induction fuel as [|fuel IH]; intros [up s] Hw Hl Hf; cbn [tr_state tr_upstream] in *.
  { destruct s; cbn in Hf; lia. }
  destruct s as [|header|t len buffer|buffer|error].
  - unfold poll_good. cbn [tls_poll_read_loop tr_state tr_upstream turns] in *. destruct (Z.eqb_spec cap 0); [lia|].
    destruct (IH (mkTlsReader up (TrReadingHeader (HeaderBuffer_new TLS_HEADER_SIZE)))) as (r & this' & -> & Hpost);
      cbn [tr_state tr_upstream turns]; [split; [by apply HeaderBuffer_new_wf|done]|done|lia|].
    eexists _, _. split; [done|]. by eapply tls_poll_mono, Hpost.
  - by apply poll_turn_header.
  - by apply poll_turn_body.
  - by apply poll_turn_yield.
  - eexists _, _. split; [done|]. by unfold tls_poll_post.
Qed.

(** ** A sequence of polls *)

(** The bytes delivered by polls with room for [caps] bytes, whatever each of them answers. *)
Fixpoint tls_polls (this : FakeTlsReader) (caps : list Z) : option (bytes * FakeTlsReader) :=
  match caps with
  | [] => Some ([], this)
  | cap :: caps =>
      '(r, this) ← tls_poll_read this cap;
      '(ds, this) ← tls_polls this caps;
      Some (match r with Ready (Ok bs) => bs ++ ds | _ => ds end, this)
  end.

Lemma tls_poll_read_spec this cap :
  0 < cap -> tls_state_wf (tr_state this) -> up_live (tr_upstream this) = true ->
  exists r this', tls_poll_read this cap = Some (r, this') /\ tls_poll_post this r this'.
Proof.
  intros. apply tls_poll_read_loop_spec; [done|done|done|]. destruct (tr_state this); cbn; lia.
Qed.

Lemma omap_id_some {A} (l : list A) k : omap id (map Some l ++ k) = l ++ omap id k.
Proof. induction l; cbn; [done|]. by f_equal. Qed.

Lemma omap_map_some {A} (l : list A) : omap id (map Some l) = l.
Proof. rewrite <-(app_nil_r (map Some l)), omap_id_some. apply app_nil_r. Qed.

Lemma tls_polls_spec this caps :
  Forall (fun cap => 0 < cap) caps -> tls_state_wf (tr_state this) -> up_live (tr_upstream this) = true ->
  let view := tls_state_view (tr_state this) (up_bytes (tr_upstream this)) in
  exists ds this', tls_polls this caps = Some (ds, this') /\
    (exists rest, omap id view = ds ++ rest) /\
    ((length view + up_size (tr_upstream this) <= length caps)%nat -> ds = omap id view).
Proof.
  intros Hc. revert this. induction Hc as [|cap caps Hcap _ IH]; intros this Hw Hl; cbn zeta.
  - exists [], this. split_and!; [done|by eexists|]. cbn [length]. intros Hlen.
    destruct (tls_state_view _ _); cbn in *; [done|lia].
  - destruct (tls_poll_read_spec this cap Hcap Hw Hl) as (r & this1 & E1 & Hw1 & Hl1 & Hs1 & Hr).
    destruct (IH this1 Hw1 Hl1) as (ds & this' & E2 & (rest & Hrest) & Hall).
    cbn [tls_polls]. rewrite E1. cbn [mbind option_bind]. rewrite E2. cbn [mbind option_bind].
    eexists _, _. split; [done|]. cbn [length].
    destruct r as [|[[|b bs]|e]].
    + destruct Hr as [-> Hlt]. split; [by eexists|]. intros. apply Hall. lia.
    + destruct Hr as [->|[-> Hv']]; cbn [omap list_omap app length].
      * split; [by eexists|]. intros. apply Hall. lia.
      * rewrite Hv' in *. cbn in *. destruct ds; [|done]. split; [by eexists|done].
    + rewrite Hr, omap_id_some, Hrest. split; [eexists; by rewrite app_assoc|].
      rewrite length_app. cbn [length map]. intros. rewrite <-Hrest, <-Hall; [done|lia].
    + destruct Hr as (-> & Hv' & _). rewrite Hv' in *. cbn in *. destruct ds; [|done].
      split; [by eexists|done].
Qed.

(** A [FakeTlsReader] polled with buffers of any positive sizes, over an upstream that
    delivers the bytes in any pieces and is pending any number of times, always answers, delivers
    only the payloads of the Application Data records in order, and delivers all of them once it
    has been polled often enough. *)
Theorem tls_reader_delivers up caps :
  up_live up = true -> Forall (fun cap => 0 < cap) caps ->
  let view := tls_view (up_bytes up) in
  exists ds this', tls_polls (FakeTlsReader_new up) caps = Some (ds, this') /\
    (exists rest, omap id view = ds ++ rest) /\
    ((length view + up_size up <= length caps)%nat -> ds = omap id view).
Proof. intros Hl Hc. by apply (tls_polls_spec (FakeTlsReader_new up)). Qed.

(** ** Errors are terminal *)

Lemma tls_poll_read_error_poisons fuel this cap e this' :
  tls_poll_read_loop fuel this cap = Some (Ready (Err e), this') -> is_poisoned (tr_state this') = true.
Proof.
  revert this. induction fuel as [|fuel IH]; intros [up s]; [done|]. cbn [tls_poll_read_loop tr_state tr_upstream].
  destruct s as [|header|t len buffer|buffer|error].
  - destruct (cap =? 0); [done|apply IH].
  - destruct (poll_read_header up header) as [[[[| |h|?] ?] ?]|]; [done|done| |by intros [= _ <-]|done].
    destruct (TlsRecordHeader_validate h); [apply IH|by intros [= _ <-]].
  - destruct (poll_read_body up buffer len) as [[[[|data|?] ?] ?]|]; [done| |by intros [= _ <-]|done].
    destruct (_ =? _); [apply IH|]. destruct (_ =? _); [destruct (_ =? _); apply IH|].
    destruct (_ =? _); [done|by intros [= _ <-]].
  - destruct (cap =? 0); [done|]. by destruct (YieldBuffer_copy_to _ _).
  - by intros [= _ <-].
Qed.

Lemma tls_polls_poisoned up error caps :
  exists error', tls_polls (mkTlsReader up (TrPoisoned error)) caps = Some ([], mkTlsReader up (TrPoisoned error')).
Proof.
  revert error. induction caps as [|cap caps IH]; intros error; [by eexists|].
  destruct (IH None) as [error' E]. exists error'. cbn [tls_polls]. unfold tls_poll_read.
  cbn [Nat.add tls_poll_read_loop tr_state tr_upstream mbind option_bind]. by rewrite E.
Qed.

(** Once a poll has failed, the reader is poisoned for good: whatever polls follow, they
    deliver nothing, take nothing more from the upstream, and the next poll fails again. *)
Theorem tls_reader_poison_terminal this cap e this' caps cap' :
  tls_poll_read this cap = Some (Ready (Err e), this') ->
  exists this'' e'' this3, tls_polls this' caps = Some ([], this'') /\
    tr_upstream this'' = tr_upstream this' /\
    tls_poll_read this'' cap' = Some (Ready (Err e''), this3) /\ is_poisoned (tr_state this3) = true.
Proof.
  intros E. apply tls_poll_read_error_poisons in E. destruct this' as [up [| | | |error]]; try done.
  destruct (tls_polls_poisoned up error caps) as [error' ->].
  eexists _, _, _. split_and!; done.
Qed.

(** ** The writer *)

(** The chunks a writer has accepted, and what its upstream must have received of them: all of
    their records once nothing is pending. *)
Definition tw_pending (s : TlsWriterState) : bytes :=
  match s with TwWritingRecord record _ => WriteBuffer_pending record | _ => [] end.

Definition records (chunks : list bytes) : bytes := concat (map build_record chunks).

Definition tls_writer_inv (this : FakeTlsWriter) (chunks : list bytes) : Prop :=
  Forall (fun c => 0 < zlen c <= MAX_TLS_PAYLOAD) chunks /\
  match tw_state this with
  | TwPoisoned _ => exists lost, w_sink (tw_upstream this) ++ lost = records chunks
  | s => w_sink (tw_upstream this) ++ tw_pending s = records chunks
  end /\
  match tw_state this with
  | TwWritingRecord record _ =>
      WriteBuffer_wf record /\ wb_max_size record = MAX_PENDING_WRITE
  | _ => True
  end.

Inductive tls_write_op := TwoWrite (buf : bytes) | TwoFlush.

(** One call of the writer; a write that answers [Ok n] with [n > 0] has accepted the first [n]
    bytes it was given. *)
Definition tls_write_step (this : FakeTlsWriter) (op : tls_write_op) : option (list bytes * FakeTlsWriter) :=
  match op with
  | TwoWrite buf =>
      '(r, this) ← tls_poll_write this buf;
      Some (match r with Ready (Ok n) => if n =? 0 then [] else [ztake n buf] | _ => [] end, this)
  | TwoFlush => '(_, this) ← tls_poll_flush this; Some ([], this)
  end.

Fixpoint tls_writes (this : FakeTlsWriter) (ops : list tls_write_op) : option (list bytes * FakeTlsWriter) :=
  match ops with
  | [] => Some ([], this)
  | op :: ops =>
      '(c, this) ← tls_write_step this op;
      '(cs, this) ← tls_writes this ops;
      Some (c ++ cs, this)
  end.

Lemma zlen_build_record data : zlen (build_record data) = 5 + zlen data.
Proof. unfold build_record. rewrite zlen_app. done. Qed.

Lemma records_app a b : records (a ++ b) = records a ++ records b.
Proof. unfold records. by rewrite map_app, concat_app. Qed.

Lemma poll_flush_record_loop_spec fuel up record :
  WriteBuffer_wf record -> zlen (WriteBuffer_pending record) < Z.of_nat fuel ->
  exists r up' record', poll_flush_record_loop fuel up record = Some (r, up', record') /\
    WriteBuffer_wf record' /\ wb_max_size record' = wb_max_size record /\
    w_sink up ++ WriteBuffer_pending record = w_sink up' ++ WriteBuffer_pending record' /\
    (forall n, r = FrComplete n -> WriteBuffer_pending record' = []).
Proof.
  revert up record. induction fuel as [|fuel IH]; intros up record Hw Hf.
  { pose proof (zlen_nonneg (WriteBuffer_pending record)). lia. }
  cbn [poll_flush_record_loop]. destruct (WriteBuffer_is_empty record) eqn:Ee; cbn [negb].
  { apply WriteBuffer_pending_empty in Ee; [|done]. by eexists _, _, _. }
  destruct (up_poll_write up _) as [r up'] eqn:Ew. apply up_poll_write_spec in Ew.
  destruct r as [|[n|e]]; [by eexists _, _, _; rewrite Ew| |by eexists _, _, _; rewrite Ew].
  destruct Ew as [Hn Hsink]. destruct (WriteBuffer_advance_spec record n Hw Hn) as (Hw' & Hp & Hm).
  destruct (Z.eqb_spec n 0) as [->|].
  - eexists _, _, _. rewrite Hsink, ztake_0, app_nil_r by lia. by split_and!.
  - destruct (IH up' (WriteBuffer_advance record n) Hw') as (r & up2 & rec2 & -> & Hw2 & Hm2 & Hs2 & Hc2).
    { rewrite Hp, zlen_zdrop. lia. }
    eexists _, _, _. split_and!; [done|done|congruence| |done].
    by rewrite <-Hs2, Hsink, Hp, <-app_assoc, ztake_zdrop.
Qed.

Lemma poll_flush_record_inner_spec up record :
  WriteBuffer_wf record ->
  exists r up' record', poll_flush_record_inner up record = Some (r, up', record') /\
    WriteBuffer_wf record' /\ wb_max_size record' = wb_max_size record /\
    w_sink up ++ WriteBuffer_pending record = w_sink up' ++ WriteBuffer_pending record' /\
    (forall n, r = FrComplete n -> WriteBuffer_pending record' = []).
Proof.
  intros Hw. apply poll_flush_record_loop_spec; [done|]. destruct Hw as [Hp _].
  unfold WriteBuffer_len, WriteBuffer_pending. rewrite zlen_zdrop. lia.
Qed.

(** What is left of a record always fits the write buffer, so [extend] does not fail. *)
Lemma extend_record data :
  zlen data <= MAX_PENDING_WRITE ->
  WriteBuffer_extend (WriteBuffer_with_max_size MAX_PENDING_WRITE) data =
    (Ok tt, mkWriteBuffer data 0 MAX_PENDING_WRITE).
Proof.
  intros. unfold WriteBuffer_extend. cbn [WriteBuffer_with_max_size wb_buffer wb_max_size wb_position].
  change (zlen (@nil Z)) with 0. by destruct (Z.ltb_spec MAX_PENDING_WRITE (0 + zlen data)); [lia|].
Qed.

Lemma record_buffer_wf data :
  zlen data <= MAX_PENDING_WRITE -> WriteBuffer_wf (mkWriteBuffer data 0 MAX_PENDING_WRITE).
Proof. intros. unfold WriteBuffer_wf. cbn. pose proof (zlen_nonneg data). lia. Qed.

Lemma tls_write_idle_inv up buf chunks :
  Forall (fun c => 0 < zlen c <= MAX_TLS_PAYLOAD) chunks -> w_sink up = records chunks ->
  let '(r, this) := tls_write_idle up buf in
  tls_writer_inv this
    (chunks ++ match r with Ready (Ok n) => if n =? 0 then [] else [ztake n buf] | _ => [] end) /\
  r <> Pending.
Proof.
  intros Hc Hs. unfold tls_write_idle. pose proof (zlen_nonneg buf).
  destruct (Z.eqb_spec (zlen buf) 0) as [|Hne].
  { split; [|done]. unfold tls_writer_inv. cbn. by rewrite !app_nil_r. }
  set (k := Z.min (zlen buf) MAX_TLS_PAYLOAD). assert (0 < k <= MAX_TLS_PAYLOAD) as Hk by (unfold k, MAX_TLS_PAYLOAD; lia).
  assert (zlen (ztake k buf) = k) as Hlk by (rewrite zlen_ztake; lia).
  assert (zlen (build_record (ztake k buf)) <= MAX_PENDING_WRITE) as Hfit.
  { rewrite zlen_build_record, Hlk. unfold MAX_TLS_PAYLOAD, MAX_PENDING_WRITE in *. lia. }
  assert (Forall (fun c => 0 < zlen c <= MAX_TLS_PAYLOAD) (chunks ++ [ztake k buf])) as Hc'
    by (apply Forall_app; split; [done|]; repeat constructor; lia).
  assert (records (chunks ++ [ztake k buf]) = w_sink up ++ build_record (ztake k buf)) as Hrec
    by (rewrite records_app, Hs; unfold records; cbn; by rewrite app_nil_r).
  destruct (up_poll_write up _) as [r up'] eqn:Ew. apply up_poll_write_spec in Ew.
  destruct r as [|[n|e]].
  - rewrite extend_record by done. split; [|done]. destruct (Z.eqb_spec k 0); [lia|].
    split; [done|]. cbn [tw_state tw_upstream tw_pending]. rewrite Hrec, Ew.
    split; [|by split; [apply record_buffer_wf|]]. unfold WriteBuffer_pending. cbn. by rewrite zdrop_0.
  - destruct Ew as [Hn Hsink]. destruct (Z.eqb_spec n (zlen (build_record (ztake k buf)))).
    + split; [|done]. destruct (Z.eqb_spec k 0); [lia|].
      split; [done|]. cbn [tw_state tw_upstream tw_pending]. split; [|done].
      by rewrite Hrec, Hsink, app_nil_r, ztake_all by lia.
    + assert (zlen (zdrop n (build_record (ztake k buf))) <= MAX_PENDING_WRITE)
        by (rewrite zlen_zdrop; pose proof (zlen_nonneg (build_record (ztake k buf))); lia).
      rewrite extend_record by done. split; [|done]. destruct (Z.eqb_spec k 0); [lia|].
      split; [done|]. cbn [tw_state tw_upstream tw_pending].
      split; [|by split; [apply record_buffer_wf|]].
      unfold WriteBuffer_pending. cbn [wb_position wb_buffer].
      by rewrite zdrop_0, Hsink, Hrec, <-app_assoc, ztake_zdrop by lia.
  - split; [|done]. rewrite app_nil_r. split; [done|]. cbn [tw_state tw_upstream FakeTlsWriter_poison].
    split; [|done]. exists []. by rewrite app_nil_r, Ew.
Qed.

Lemma tls_flush_idle_inv up chunks :
  Forall (fun c => 0 < zlen c <= MAX_TLS_PAYLOAD) chunks -> w_sink up = records chunks ->
  tls_writer_inv (snd (tls_flush_idle up)) chunks.
Proof.
  intros Hc Hs. unfold tls_flush_idle, up_poll_flush. destruct (w_flush up); cbn [snd];
    (split; [done|]); cbn; by rewrite app_nil_r.
Qed.

Ltac write_step :=
  unfold tls_write_step, tls_poll_write, tls_poll_flush; cbn [tw_state tw_upstream mbind option_bind].

Lemma tls_write_step_inv this op chunks :
  tls_writer_inv this chunks ->
  exists c this', tls_write_step this op = Some (c, this') /\ tls_writer_inv this' (chunks ++ c).
Proof.
  destruct this as [up s]. intros (Hc & Hs & Hw). cbn [tw_state tw_upstream] in *.
  destruct s as [|record size|error].
  - cbn [tw_pending] in Hs. rewrite app_nil_r in Hs. destruct op as [buf|]; write_step.
    + pose proof (tls_write_idle_inv up buf chunks Hc Hs) as Hi.
      destruct (tls_write_idle up buf) as [r this']. destruct Hi. by eexists _, _.
    + pose proof (tls_flush_idle_inv up chunks Hc Hs) as Hi.
      destruct (tls_flush_idle up) as [r this']. eexists _, _. by rewrite app_nil_r.
  - destruct Hw as [Hw Hm]. cbn [tw_pending] in Hs.
    destruct (poll_flush_record_inner_spec up record Hw) as (r & up' & record' & E & Hw' & Hm' & Hs' & Hcmp).
    rewrite Hs in Hs'. destruct r as [n| |e].
    + specialize (Hcmp n eq_refl). rewrite Hcmp, app_nil_r in Hs'. destruct op as [buf|]; write_step; rewrite E; write_step.
      * pose proof (tls_write_idle_inv up' buf chunks Hc (eq_sym Hs')) as Hi.
        destruct (tls_write_idle up' buf) as [r this']. destruct Hi. by eexists _, _.
      * pose proof (tls_flush_idle_inv up' chunks Hc (eq_sym Hs')) as Hi.
        destruct (tls_flush_idle up') as [r this']. eexists _, _. by rewrite app_nil_r.
    + assert (tls_writer_inv (mkTlsWriter up' (TwWritingRecord record' size)) (chunks ++ [])).
      { rewrite app_nil_r. split; [done|]. cbn. split; [done|]. split; [done|congruence]. }
      destruct op as [buf|]; write_step; rewrite E; write_step; by eexists _, _.
    + assert (tls_writer_inv (FakeTlsWriter_poison up' e) (chunks ++ [])).
      { rewrite app_nil_r. split; [done|]. cbn. split; [by eexists|done]. }
      destruct op as [buf|]; write_step; rewrite E; write_step; by eexists _, _.
  - assert (tls_writer_inv (mkTlsWriter up (TwPoisoned None)) (chunks ++ [])) by by rewrite app_nil_r.
    destruct op as [buf|]; write_step; by eexists _, _.
Qed.

Lemma tls_writes_inv this ops chunks :
  tls_writer_inv this chunks ->
  exists cs this', tls_writes this ops = Some (cs, this') /\ tls_writer_inv this' (chunks ++ cs).
Proof.
  revert this chunks. induction ops as [|op ops IH]; intros this chunks Hi; cbn [tls_writes].
  { eexists [], this. by rewrite app_nil_r. }
  destruct (tls_write_step_inv this op chunks Hi) as (c & this1 & -> & Hi1). cbn [mbind option_bind].
  destruct (IH _ _ Hi1) as (cs & this' & -> & Hi'). cbn [mbind option_bind].
  eexists _, _. split; [done|]. by rewrite app_assoc.
Qed.

Lemma tls_writer_new_inv script flush : tls_writer_inv (FakeTlsWriter_new (mkUpW script [] flush)) [].
Proof. by split_and!. Qed.

(** C13: a [FakeTlsWriter] over an upstream that accepts any part of what it is offered, is
    pending, or fails at any point, always answers its polls; every accepted chunk fits a record,
    and what the upstream has received followed by what is pending is exactly the sequence of
    records of the accepted chunks (after an error, a prefix of it): no byte is lost, repeated or
    reordered, and no record is torn. *)
Theorem tls_writer_no_torn_records script flush ops :
  exists chunks this', tls_writes (FakeTlsWriter_new (mkUpW script [] flush)) ops = Some (chunks, this') /\
    Forall (fun c => 0 < zlen c <= MAX_TLS_PAYLOAD) chunks /\
    (is_poisoned (tw_state this') = false ->
     w_sink (tw_upstream this') ++ tw_pending (tw_state this') = records chunks) /\
    w_sink (tw_upstream this') `prefix_of` records chunks.
Proof.
  destruct (tls_writes_inv _ ops [] (tls_writer_new_inv script flush)) as (cs & this' & -> & Hc & Hs & _).
  eexists _, _. split_and!; [done|done| |]; destruct (tw_state this'); try done;
    [by eexists|by eexists|destruct Hs; by eexists].
Qed.

(** ** The writer's records read back *)

Lemma tls_view_prefix n w w' : (length w < n)%nat -> tls_view w `prefix_of` tls_view (w ++ w').
Proof.
  revert w. induction n as [|n IH]; intros w Hn; [lia|].
  rewrite (tls_view_eq w), (tls_view_eq (w ++ w')).
  destruct (TlsRecordHeader_parse (ztake 5 w)) as [h|] eqn:E; [|apply prefix_nil].
  pose proof (parse_length _ _ E) as Hw. rewrite ztake_app_le, E, zdrop_app_le by done.
  destruct (is_ok _); [|apply prefix_nil]. unfold tls_body_view.
  destruct (Z.ltb_spec (zlen (zdrop 5 w)) (rh_length h)); [apply prefix_nil|].
  rewrite zlen_app. pose proof (zlen_nonneg w').
  destruct (Z.ltb_spec (zlen (zdrop 5 w) + zlen w') (rh_length h)); [lia|].
  rewrite ztake_app_le, zdrop_app_le by done.
  assert (tls_view (zdrop (rh_length h) (zdrop 5 w)) `prefix_of`
          tls_view (zdrop (rh_length h) (zdrop 5 w) ++ w')) as Hp.
  { apply IH. unfold zdrop, zlen in *. rewrite !length_drop. lia. }
  unfold deliver. repeat destruct (_ =? _); [done| | |done].
  - by apply prefix_app.
  - by apply prefix_cons.
Qed.

Lemma build_record_view data w :
  0 < zlen data <= MAX_TLS_PAYLOAD -> tls_view (build_record data ++ w) = map Some data ++ tls_view w.
Proof.
  intros Hd. unfold build_record. rewrite <-app_assoc.
  set (h := mkTlsHeader TLS_RECORD_APPLICATION TLS_VERSION (u16 (zlen data))).
  assert (rh_length h = zlen data) as Hlen.
  { cbn. unfold u16. rewrite Z.mod_small; [done|]. unfold MAX_TLS_PAYLOAD in Hd. lia. }
  rewrite (tls_view_header (TlsRecordHeader_to_bytes h) _ h); [| |done].
  - unfold TlsRecordHeader_validate. rewrite Hlen. cbn [h rh_version rh_record_type].
    rewrite Z.eqb_refl. unfold MAX_TLS_CHUNK_SIZE. unfold MAX_TLS_PAYLOAD in Hd.
    destruct (Z.ltb_spec (16384 + 256) (zlen data)); [lia|]. rewrite andb_false_intro2 by done. cbn [is_ok].
    rewrite tls_body_view_complete by lia. done.
  - unfold TlsRecordHeader_to_bytes, TlsRecordHeader_parse. unfold h. cbn [rh_version rh_record_type rh_length nth].
    cbn. f_equal. f_equal.
    unfold u8, be_val. cbn. rewrite Z.shiftr_div_pow2 by lia. unfold u16.
    unfold MAX_TLS_PAYLOAD in Hd. rewrite (Z.mod_small (zlen data) (2 ^ 16)) by lia.
    change (2 ^ 8) with 256. Z.div_mod_to_equations. lia.
Qed.

Lemma records_view chunks :
  Forall (fun c => 0 < zlen c <= MAX_TLS_PAYLOAD) chunks -> tls_view (records chunks) = map Some (concat chunks).
Proof.
  induction 1 as [|c chunks Hc _ IH]; [done|]. unfold records in *. cbn [map concat].
  by rewrite build_record_view, IH, map_app by done.
Qed.

(** Whatever the writer has sent reads as a prefix of what it has accepted, and as all of it once
    nothing is pending. *)
Lemma tls_writer_inv_view this chunks :
  tls_writer_inv this chunks ->
  tls_view (w_sink (tw_upstream this)) `prefix_of` map Some (concat chunks) /\
  (is_poisoned (tw_state this) = false -> tw_pending (tw_state this) = [] ->
   tls_view (w_sink (tw_upstream this)) = map Some (concat chunks)).
Proof.
  intros (Hc & Hs & _). pose proof (records_view _ Hc) as Hv.
  assert (exists lost, w_sink (tw_upstream this) ++ lost = records chunks) as [lost Hlost]
    by (destruct (tw_state this); [by eexists|by eexists|done]).
  split.
  - rewrite <-Hv, <-Hlost. eapply tls_view_prefix, Nat.lt_succ_diag_r.
  - intros Hp Hpend. rewrite <-Hv. f_equal.
    destruct (tw_state this); cbn in *; [by rewrite app_nil_r in Hs| |done].
    by rewrite Hpend, app_nil_r in Hs.
Qed.

(** The record layer end to end.  Whatever the writer's upstream does and however it is
    polled, and however the bytes it has sent so far reach a [FakeTlsReader], what the reader
    delivers is a prefix of the bytes the writer has accepted; when the writer has neither failed
    nor kept anything pending and the reader is polled often enough, it delivers all of them. *)
Theorem tls_stream_end_to_end script flush ops chunks this' up caps :
  tls_writes (FakeTlsWriter_new (mkUpW script [] flush)) ops = Some (chunks, this') ->
  up_live up = true -> up_bytes up = w_sink (tw_upstream this') -> Forall (fun cap => 0 < cap) caps ->
  exists ds reader', tls_polls (FakeTlsReader_new up) caps = Some (ds, reader') /\
    ds `prefix_of` concat chunks /\
    (is_poisoned (tw_state this') = false -> tw_pending (tw_state this') = [] ->
     (zlen (concat chunks) + Z.of_nat (up_size up) <= zlen caps) -> ds = concat chunks).
Proof.
  intros Ew Hl Hup Hcaps.
  destruct (tls_writes_inv _ ops [] (tls_writer_new_inv script flush)) as (cs & w & E & Hi).
  rewrite Ew in E. injection E as <- <-. cbn [app] in *. apply tls_writer_inv_view in Hi as [[k Hk] Hdone].
  destruct (tls_polls_spec (FakeTlsReader_new up) caps Hcaps I Hl) as (ds & reader' & -> & (rest & Hrest) & Hall).
  cbn [FakeTlsReader_new tr_state tr_upstream tls_state_view] in *. rewrite Hup in *.
  eexists _, _. split_and!; [done| |].
  - apply (f_equal (omap id)) in Hk. rewrite omap_app, Hrest, omap_map_some in Hk.
    rewrite Hk, <-app_assoc. by eexists.
  - intros Hp Hpend Hlen. rewrite (Hdone Hp Hpend), omap_map_some in Hall. apply Hall.
    rewrite length_map. unfold zlen in Hlen. lia.
Qed.

(** ** [read_exact] *)

Lemma tls_poll_read_cap fuel this cap bs this' :
  0 <= cap -> tls_poll_read_loop fuel this cap = Some (Ready (Ok bs), this') -> zlen bs <= cap.
Proof.
  intros Hcap. revert this. induction fuel as [|fuel IH]; intros [up s]; [done|].
  cbn [tls_poll_read_loop tr_state tr_upstream].
  assert (zlen (@nil Z) <= cap) by done.
  destruct s as [|header|t len buffer|buffer|error]; [| | | |done].
  - destruct (cap =? 0); [by intros [= <- _]|apply IH].
  - destruct (poll_read_header up header) as [[[[| |h|?] ?] ?]|]; [done|by intros [= <- _]| |done|done].
    destruct (TlsRecordHeader_validate h); [apply IH|done].
  - destruct (poll_read_body up buffer len) as [[[[|data|?] ?] ?]|]; [done| |done|done].
    destruct (_ =? _); [apply IH|]. destruct (_ =? _); [destruct (_ =? _); apply IH|].
    destruct (_ =? _); [by intros [= <- _]|done].
  - destruct (cap =? 0); [by intros [= <- _]|]. unfold YieldBuffer_copy_to. intros [= <- _].
    rewrite zlen_ztake. lia.
Qed.

Lemma tls_async_read_spec this cap :
  0 < cap -> tls_state_wf (tr_state this) -> up_live (tr_upstream this) = true ->
  exists r this', async_read this cap = Some (r, this') /\ tls_poll_post this (Ready r) this' /\
    (forall bs, r = Ok bs -> zlen bs <= cap).
Proof.
  intros Hcap. unfold async_read. cbn [rd_size tls_read_async].
  assert (up_size (tr_upstream this) < S (up_size (tr_upstream this)))%nat as Hf by lia.
  revert Hf. generalize (S (up_size (tr_upstream this))) as fuel. intros fuel. revert this.
  induction fuel as [|fuel IH]; intros this Hf Hw Hl; [lia|]. cbn [read_await poll_read tls_read_async].
  destruct (tls_poll_read_spec this cap Hcap Hw Hl) as (r & this1 & E1 & Hpost). rewrite E1.
  destruct r as [|r].
  - destruct Hpost as (Hw1 & Hl1 & Hs1 & Hv & Hlt).
    destruct (IH this1 ltac:(lia) Hw1 Hl1) as (r & this' & -> & Hpost' & Hc).
    eexists _, _. split_and!; [done| |done]. by eapply tls_poll_mono.
  - eexists _, _. split_and!; [done|done|]. intros bs ->. eapply tls_poll_read_cap, E1. lia.
Qed.

Lemma tls_read_exact_loop_spec fuel this n acc bs rest :
  tls_state_wf (tr_state this) -> up_live (tr_upstream this) = true ->
  tls_state_view (tr_state this) (up_bytes (tr_upstream this)) = map Some bs ++ rest ->
  zlen acc + zlen bs = n -> zlen bs < Z.of_nat fuel ->
  exists this', tls_read_exact_loop fuel this n acc = Some (Ok (acc ++ bs), this') /\
    tls_state_view (tr_state this') (up_bytes (tr_upstream this')) = rest.
Proof.
  revert this acc bs. induction fuel as [|fuel IH]; intros this acc bs Hw Hl Hv Hn Hf.
  { pose proof (zlen_nonneg bs). lia. }
  cbn [tls_read_exact_loop]. pose proof (zlen_nonneg bs). destruct (Z.ltb_spec (zlen acc) n) as [Hlt|Hge].
  - destruct (tls_async_read_spec this (n - zlen acc) ltac:(lia) Hw Hl)
      as (r & this1 & E & (Hw1 & Hl1 & _ & Hr) & Hcap). rewrite E. destruct bs as [|b0 bs0] eqn:Ebs; [change (zlen (@nil Z)) with 0 in *; lia|].
    rewrite <-Ebs in *. rewrite Hv in Hr. destruct r as [[|d ds]|e].
    + rewrite Ebs in Hr. by destruct Hr as [|[]].
    + specialize (Hcap _ eq_refl). set (dd := d :: ds) in *.
      assert (0 < zlen dd) by (unfold dd; rewrite zlen_cons; pose proof (zlen_nonneg ds); lia).
      destruct (Z.eqb_spec (zlen dd) 0); [lia|].
      assert (bs = dd ++ zdrop (zlen dd) bs) as Hsplit.
      { rewrite <-(ztake_zdrop (zlen dd) bs) at 1. f_equal.
        apply (f_equal (ztake (zlen dd))) in Hr. rewrite (ztake_app (zlen dd) (map Some dd)) in Hr
          by (unfold zlen; by rewrite length_map).
        rewrite ztake_app_le in Hr by (unfold zlen in *; rewrite length_map; lia).
        unfold ztake in *. rewrite firstn_map in Hr. by apply (inj (fmap Some)) in Hr. }
      rewrite Hsplit in Hr. rewrite map_app, <-app_assoc in Hr. apply app_inv_head in Hr.
      destruct (IH this1 (acc ++ dd) (zdrop (zlen dd) bs) Hw1 Hl1 (eq_sym Hr)) as (this' & -> & Hrest).
      * rewrite zlen_app, zlen_zdrop. lia.
      * rewrite zlen_zdrop. lia.
      * exists this'. by rewrite <-app_assoc, <-Hsplit.
    + rewrite Ebs in Hr. by destruct Hr.
  - assert (bs = []) as -> by (apply zlen_zero_nil; lia). exists this. by rewrite app_nil_r.
Qed.

(** [read_exact n] on a reader whose records carry at least [n] more payload bytes before an
    alert or the end returns exactly the next [n] of them, across record boundaries and pending
    polls, and leaves the rest to be read. *)
Theorem tls_read_exact_spec this n bs rest :
  is_poisoned (tr_state this) = false -> tls_state_wf (tr_state this) -> up_live (tr_upstream this) = true ->
  tls_state_view (tr_state this) (up_bytes (tr_upstream this)) = map Some bs ++ rest -> zlen bs = n ->
  exists this', tls_read_exact this n = Some (Ok bs, this') /\
    tls_state_view (tr_state this') (up_bytes (tr_upstream this')) = rest.
Proof.
  intros Hp Hw Hl Hv Hn. unfold tls_read_exact. rewrite Hp. pose proof (zlen_nonneg bs).
  apply (tls_read_exact_loop_spec _ this n []); try done. lia.
Qed.

(** ** The reader over any connection

    Errors and early ends included: over a peer that does not fall silent every poll answers, a pending one has used
    up an event, and so [read_exact] comes back. *)

Definition between_polls (s : TlsReaderState) : Prop := match s with TrReadingHeader _ => tls_state_wf s | _ => True end.

Lemma up_poll_size (up : list read_event) cap : 0 <= cap -> up_ends up = true ->
  let '(r, up') := up_poll_read up cap in
  up_ends up' = true /\ (up_size up' <= up_size up)%nat /\
  match r with
  | Pending => (up_size up' < up_size up)%nat
  | Ready (Ok bs) => zlen bs <= cap /\ (bs <> [] -> (up_size up' < up_size up)%nat)
  | Ready (Err _) => True
  end.
Proof.
  intros Hc He. destruct up as [|[|e|bs|] up]; cbn in He |- *; [by split_and!|split_and!; [done|lia|lia]|split_and!; [done|lia|done]| |done].
  destruct (Z.leb_spec (zlen bs) cap); cbn; [split_and!; [done|lia|done|lia]|].
  rewrite zlen_ztake. unfold zdrop. rewrite length_drop. pose proof (zlen_nonneg bs). unfold zlen in *.
  split_and!; [done|lia|lia|]. intros Hne. assert (cap <> 0); [|lia]. intros ->. by rewrite ztake_0 in Hne.
Qed.

Lemma header_loop_total fuel : forall up header,
  HeaderBuffer_wf 5 header -> up_ends up = true -> HeaderBuffer_remaining header < Z.of_nat fuel ->
  exists r up' header', poll_read_header_loop fuel up header = Some (r, up', header') /\ up_ends up' = true /\ (up_size up' <= up_size up)%nat /\
    match r with
    | HpPending => HeaderBuffer_wf 5 header' /\ HeaderBuffer_is_complete header' = false /\ (up_size up' < up_size up)%nat
    | HpComplete _ => HeaderBuffer_is_complete header = false -> (up_size up' < up_size up)%nat
    | _ => True
    end.
Proof.
  induction fuel as [|fuel IH]; intros up header Hw He Hf. { destruct Hw. unfold HeaderBuffer_remaining in Hf. lia. }
  cbn [poll_read_header_loop]. destruct (HeaderBuffer_is_complete header) eqn:Ec; cbn [negb].
  - destruct (HeaderBuffer_complete_slice _ _ Hw Ec) as [-> Hlen]. destruct (parse_five _ Hlen) as [h Eh]. rewrite Eh.
    by eexists _, _, _.
  - destruct (header_incomplete _ _ Hw Ec) as [Hpos Hshort].
    pose proof (up_poll_size up (HeaderBuffer_unfilled header) ltac:(lia) He) as Hp.
    destruct (up_poll_read up _) as [[|[bs|e]] up']; destruct Hp as (He' & Hle & Hp); [by eexists _, _, _| |by eexists _, _, _].
    destruct Hp as [Hcap Hdec]. destruct (Z.eqb_spec (zlen bs) 0) as [Hz|Hnz]; [case_match; by eexists _, _, _|].
    assert (bs <> []) as Hne by (by intros ->). specialize (Hdec Hne).
    destruct (HeaderBuffer_fill_spec 5 header bs Hw Hcap) as [Hw' Hsl]. set (header1 := HeaderBuffer_advance _ _) in *.
    destruct (IH up' header1 Hw' He') as (r & up2 & header2 & -> & He2 & Hs2 & Hr).
    { destruct Hw as [Hw1 Hw2], Hw' as [Hw1' Hw2']. pose proof (zlen_nonneg bs).
      apply (f_equal zlen) in Hsl. unfold HeaderBuffer_remaining, HeaderBuffer_as_slice in *. rewrite zlen_app, !zlen_ztake in Hsl. lia. }
    eexists _, _, _. split; [done|]. split; [done|]. split; [lia|]. destruct r; [|done|intros _; lia|done].
    destruct Hr as (? & ? & ?). split_and!; [done|done|lia].
Qed.

Lemma body_loop_total fuel : forall up buffer target,
  up_ends up = true -> Z.max 0 (target - zlen buffer) < Z.of_nat fuel ->
  exists r up' buffer', poll_read_body_loop fuel up buffer target = Some (r, up', buffer') /\ up_ends up' = true /\ (up_size up' <= up_size up)%nat /\
    (r = BpPending -> (up_size up' < up_size up)%nat).
Proof.
  induction fuel as [|fuel IH]; intros up buffer target He Hf; [lia|]. cbn [poll_read_body_loop].
  destruct (Z.ltb_spec (zlen buffer) target) as [Hlt|]; [|by eexists _, _, _].
  pose proof (up_poll_size up (Z.min (target - zlen buffer) 8192) ltac:(lia) He) as Hp.
  destruct (up_poll_read up _) as [[|[bs|e]] up']; destruct Hp as (He' & Hle & Hp); [by eexists _, _, _| |by eexists _, _, _].
  destruct (Z.eqb_spec (zlen bs) 0) as [Hz|Hz]; [by eexists _, _, _|]. pose proof (zlen_nonneg bs).
  destruct (IH up' (buffer ++ bs) target) as (r & up2 & b & -> & He2 & Hs2 & Hr); [done|rewrite zlen_app; lia|].
  eexists _, _, _. split; [done|]. split; [done|]. split; [lia|]. intros ->. specialize (Hr eq_refl). lia.
Qed.

Definition poll_answers (this : FakeTlsReader) (a : option (Poll (io_result bytes) * FakeTlsReader)) : Prop :=
  exists r this', a = Some (r, this') /\ between_polls (tr_state this') /\ up_ends (tr_upstream this') = true /\ (up_size (tr_upstream this') <= up_size (tr_upstream this))%nat /\
    (r = Pending -> (up_size (tr_upstream this') < up_size (tr_upstream this))%nat).

Lemma poll_answers_mono this this0 a :
  (up_size (tr_upstream this0) <= up_size (tr_upstream this))%nat -> poll_answers this0 a -> poll_answers this a.
Proof.
  intros Hs (r & this' & -> & Hb & He & Hle & Hp). exists r, this'. split_and!; [done|done|done|lia|]. intros Hr. specialize (Hp Hr). lia.
Qed.

Lemma tls_poll_total_loop cap fuel : forall this,
  between_polls (tr_state this) -> up_ends (tr_upstream this) = true ->
  (turns (tr_state this) (tr_upstream this) <= fuel)%nat ->
  poll_answers this (tls_poll_read_loop fuel this cap).
Proof.
  induction fuel as [|fuel IH]; intros [up s] Hb He Hf; cbn [tr_state tr_upstream] in *; [destruct s; cbn in Hf; lia|].
  destruct s as [|header|t len buffer|buffer|error]; cbn [tls_poll_read_loop tr_state tr_upstream turns] in *.
  - destruct (cap =? 0); [by eexists _, _|].
    apply (poll_answers_mono _ (mkTlsReader up (TrReadingHeader (HeaderBuffer_new TLS_HEADER_SIZE)))); [done|].
    apply IH; cbn; [split; [by apply HeaderBuffer_new_wf|done]|done|lia].
  - destruct Hb as [Hw Hc]. unfold poll_read_header.
    destruct (header_loop_total (S (Z.to_nat (HeaderBuffer_remaining header))) up header Hw He) as (r & up' & h' & -> & He' & Hs & Hr); [lia|].
    destruct r as [| |h|e]; [eexists _, _; split; [done|cbn; destruct Hr as (? & ? & ?); by split_and!]|by eexists _, _| |by eexists _, _].
    specialize (Hr Hc). destruct (TlsRecordHeader_validate h); [|by eexists _, _].
    eapply poll_answers_mono; [|apply IH]; cbn; [lia|done|done|lia].
  - unfold poll_read_body.
    destruct (body_loop_total (S (Z.to_nat (len - zlen buffer))) up buffer len He) as (r & up' & b' & -> & He' & Hs & Hr); [lia|].
    assert (forall s', between_polls s' -> (turns s' up' <= 3 * up_size up' + 2)%nat ->
      poll_answers (mkTlsReader up (TrReadingBody t len buffer)) (tls_poll_read_loop fuel (mkTlsReader up' s') cap)) as Hgo.
    { intros s' Hs' Ht. eapply poll_answers_mono; [|apply IH; cbn; [done|done|lia]]. done. }
    destruct r as [|data|e]; [eexists _, _; split; [done|]; cbn; split_and!; [done|done|done|by intros _; apply Hr]| |by eexists _, _].
    destruct (t =? TLS_RECORD_CHANGE_CIPHER); [by apply Hgo|].
    destruct (t =? TLS_RECORD_APPLICATION); [destruct (zlen data =? 0); apply Hgo; cbn; lia || done|].
    destruct (t =? TLS_RECORD_ALERT); by eexists _, _.
  - destruct (cap =? 0); [by eexists _, _|]. destruct (YieldBuffer_copy_to buffer _) as [copied b'].
    eexists _, _. split; [done|]. cbn. split_and!; [by destruct (YieldBuffer_is_empty b')|done|done|done].
  - by eexists _, _.
Qed.

Lemma tls_read_await_total cap fuel : forall this,
  between_polls (tr_state this) -> up_ends (tr_upstream this) = true -> (up_size (tr_upstream this) < fuel)%nat ->
  exists a this', read_await fuel this cap = Some (a, this') /\ between_polls (tr_state this') /\ up_ends (tr_upstream this') = true.
Proof.
  induction fuel as [|fuel IH]; intros this Hb He Hf; [lia|]. cbn [read_await poll_read tls_read_async].
  destruct (tls_poll_total_loop cap (4 + 3 * up_size (tr_upstream this)) this Hb He) as (r & this1 & E & Hb1 & He1 & Hs & Hp);
    [destruct (tr_state this); cbn; lia|].
  unfold tls_poll_read. rewrite E. destruct r as [|a]; [|by eexists _, _]. specialize (Hp eq_refl). apply IH; [done|done|lia].
Qed.

Lemma tls_read_exact_loop_total n fuel : forall this acc,
  between_polls (tr_state this) -> up_ends (tr_upstream this) = true -> Z.max 0 (n - zlen acc) < Z.of_nat fuel ->
  exists a this', tls_read_exact_loop fuel this n acc = Some (a, this').
Proof.
  induction fuel as [|fuel IH]; intros this acc Hb He Hf; cbn [tls_read_exact_loop]; [lia|].
  destruct (Z.ltb_spec (zlen acc) n); [|by eexists _, _].
  destruct (tls_read_await_total (n - zlen acc) (S (up_size (tr_upstream this))) this Hb He) as (a & this1 & E & Hb1 & He1); [lia|].
  unfold async_read. cbn [rd_size tls_read_async]. rewrite E. destruct a as [bs|e]; [|by eexists _, _].
  destruct (Z.eqb_spec (zlen bs) 0) as [|Hz]; [by eexists _, _|]. pose proof (zlen_nonneg bs).
  apply IH; [done|done|]. rewrite zlen_app. lia.
Qed.

Lemma tls_read_exact_total this n :
  between_polls (tr_state this) -> up_ends (tr_upstream this) = true ->
  exists a this', tls_read_exact this n = Some (a, this').
Proof.
  intros Hb He. unfold tls_read_exact. destruct (is_poisoned (tr_state this)).
  { destruct (FakeTlsReader_take_poison_error this) as [e this']. by eexists _, _. }
  apply tls_read_exact_loop_total; [done|done|]. change (zlen (@nil Z)) with 0. lia.
Qed.

(** ** The wrappers as streams *)

(** A reader over records without alerts keeps the promise of [AsyncRead]. *)
#[export, refine] Instance tls_read_async_ok : AsyncReadOk FakeTlsReader := {|
  rd_ok this := tls_state_wf (tr_state this) /\ up_live (tr_upstream this) = true /\
    Forall is_Some (tls_state_view (tr_state this) (up_bytes (tr_upstream this)));
  rd_bytes this := omap id (tls_state_view (tr_state this) (up_bytes (tr_upstream this)))
|}.
Proof.
  intros this cap Hcap (Hw & Hl & Hv). cbn [poll_read tls_read_async rd_size].
  destruct (tls_poll_read_spec this cap Hcap Hw Hl) as (r & this' & E & Hw' & Hl' & Hs' & Hr).
  eexists _, _. split; [done|]. destruct r as [|[[|b bs]|e]].
  - destruct Hr as [Hr Hlt]. rewrite <-Hr. split; [by split_and!|]. split; [done|]. by split.
  - destruct Hr as [Hr|[Hr Hr']]; [by rewrite Hr in Hv; apply Forall_cons in Hv as [[? ?] _]|].
    rewrite Hr, Hr'. split; [by split_and!|]. change (zlen (@nil Z)) with 0. split_and!; [done|lia|done|done].
  - pose proof (tls_poll_read_cap _ _ _ _ _ (Z.lt_le_incl _ _ Hcap) E). rewrite Hr in *.
    apply Forall_app in Hv as [_ Hv]. rewrite omap_id_some. split; by split_and!.
  - destruct Hr as (Hr & Hr' & _). rewrite Hr, Hr'. split; by split_and!.
Defined.

#[export] Instance tls_write_async : AsyncWrite FakeTlsWriter := {|
  poll_write := tls_poll_write;
  poll_flush := tls_poll_flush
|}.

Lemma tls_write_idle_range up buf n this' :
  tls_write_idle up buf = (Ready (Ok n), this') -> 0 <= n <= zlen buf.
Proof.
  unfold tls_write_idle. pose proof (zlen_nonneg buf). unfold MAX_TLS_PAYLOAD.
  destruct (zlen buf =? 0); [intros [= <- _]; lia|].
  destruct (up_poll_write up _) as [[|[k|e]] up']; [|destruct (_ =? _)|done];
    try (destruct (WriteBuffer_extend _ _)); intros [= <- _]; lia.
Qed.

Lemma tls_poll_write_range this buf n this' :
  tls_poll_write this buf = Some (Ready (Ok n), this') -> 0 <= n <= zlen buf.
Proof.
  unfold tls_poll_write. destruct (tw_state this); [|destruct (poll_flush_record_inner _ _) as [[[[] ?] ?]|]|done];
    try done; intros [= E]; by eapply tls_write_idle_range.
Qed.

(** The writer has accepted [acc] when [acc] is the concatenation of the chunks whose records it
    has sent or still holds (or has lost after a failure). *)
#[export, refine] Instance tls_write_async_ok : AsyncWriteOk FakeTlsWriter := {|
  wr_accepted this acc := exists chunks, tls_writer_inv this chunks /\ concat chunks = acc
|}.
Proof.
  - intros this acc data (chunks & Hi & <-). cbn [poll_write tls_write_async].
    destruct (tls_write_step_inv this (TwoWrite data) chunks Hi) as (c & this' & E & Hi').
    unfold tls_write_step in E. destruct (tls_poll_write this data) as [[r this1]|] eqn:Ew; [|done].
    cbn [mbind option_bind] in E. injection E as <- <-. eexists _, _. split; [done|].
    destruct r as [|[n|e]]; [by rewrite app_nil_r in Hi'; eauto| |by rewrite app_nil_r in Hi'; eauto].
    split; [by eapply tls_poll_write_range|].
    eexists. split; [done|]. rewrite concat_app. f_equal. destruct (Z.eqb_spec n 0) as [->|]; [done|].
    cbn. by rewrite app_nil_r.
  - intros this acc (chunks & Hi & <-). cbn [poll_flush tls_write_async].
    destruct (tls_write_step_inv this TwoFlush chunks Hi) as (c & this' & E & Hi').
    unfold tls_write_step in E. destruct (tls_poll_flush this) as [[r this1]|]; [|done].
    cbn [mbind option_bind] in E. injection E as <- <-. rewrite app_nil_r in Hi'. eexists _, _. eauto.
Defined.
