(* ===== verification/CryptoStream.v ===== *)
(** * Encrypting streams: [stream/crypto_stream.rs]

    [CryptoReader] decrypts what its upstream delivers, in place, with AES-CTR; [CryptoWriter]
    encrypts what it accepts and never lets the key stream drift from the bytes its upstream
    receives, whatever the upstream does.  Both are generic in the stream below, as in the
    source, and are streams themselves, so they stack on the FakeTLS wrappers. *)

From S2P Require Import Prelude Crypto AsyncIo StreamState TlsStream.

Definition DEFAULT_MAX_PENDING_WRITE : Z := 64 * 1024.

(** ** [CryptoReader] (crypto_stream.rs:74-299) *)

Section Reader.
Context `{StreamCipher} {R : Type} `{AsyncRead R}.

Inductive CryptoReaderState :=
| CrIdle
| CrYielding (buffer : YieldBuffer)
| CrPoisoned (error : option IoError).

#[export] Instance CryptoReaderState_state : StreamState CryptoReaderState := {|
  is_terminal s := match s with CrPoisoned _ => true | _ => false end;
  is_poisoned s := match s with CrPoisoned _ => true | _ => false end;
  state_name s :=
    match s with CrIdle => "Idle" | CrYielding _ => "Yielding" | CrPoisoned _ => "Poisoned" end
|}.

Record CryptoReader := mkCryptoReader { cr_upstream : R; cr_decryptor : AesCtr; cr_state : CryptoReaderState }.

Definition CryptoReader_new (up : R) (decryptor : AesCtr) : CryptoReader := mkCryptoReader up decryptor CrIdle.

Definition CryptoReader_take_poison_error (this : CryptoReader) : IoError * CryptoReader :=
  match cr_state this with
  | CrPoisoned error =>
      (default previously_poisoned error, mkCryptoReader (cr_upstream this) (cr_decryptor this) (CrPoisoned None))
  | _ => (not_poisoned, this)
  end.

(** Copying out of the [Yielding] buffer, shared by the three read operations. *)
Definition cr_drain (this : CryptoReader) (buffer : YieldBuffer) (n : Z) : bytes * CryptoReader :=
  let '(copied, buffer) := YieldBuffer_copy_to buffer n in
  (copied, mkCryptoReader (cr_upstream this) (cr_decryptor this)
             (if YieldBuffer_is_empty buffer then CrIdle else CrYielding buffer)).

Definition crypto_poll_read (this : CryptoReader) (cap : Z) : option (Poll (io_result bytes) * CryptoReader) :=
  match cr_state this with
  | CrPoisoned _ =>
      let '(err, this) := CryptoReader_take_poison_error this in Some (Ready (Err err), this)
  | CrYielding buffer =>
      if cap =? 0 then Some (Ready (Ok []), this)
      else
        let to_copy := Z.min (YieldBuffer_remaining buffer) cap in
        let '(copied, this) := cr_drain this buffer to_copy in Some (Ready (Ok copied), this)
  | CrIdle =>
      if cap =? 0 then Some (Ready (Ok []), this)
      else
        match poll_read (cr_upstream this) cap with
        | None => None
        | Some (Pending, up) => Some (Pending, mkCryptoReader up (cr_decryptor this) CrIdle)
        | Some (Ready (Err e), up) =>
            Some (Ready (Err e), mkCryptoReader up (cr_decryptor this) (CrPoisoned (Some e)))
        | Some (Ready (Ok bs), up) =>
            if zlen bs =? 0 then Some (Ready (Ok []), mkCryptoReader up (cr_decryptor this) CrIdle)
            else
              let '(plain, decryptor) := AesCtr_apply (cr_decryptor this) bs in
              Some (Ready (Ok plain), mkCryptoReader up decryptor CrIdle)
        end
  end.

#[export] Instance crypto_read_async : AsyncRead CryptoReader := {|
  poll_read := crypto_poll_read;
  rd_size this := rd_size (cr_upstream this)
|}.

Fixpoint cr_read_exact_loop (fuel : nat) (this : CryptoReader) (n : Z) (result : bytes)
    : option (io_result bytes * CryptoReader) :=
  match fuel with
  | O => None
  | S fuel =>
      if zlen result <? n then
        match async_read this (n - zlen result) with
        | None => None
        | Some (Err e, this) => Some (Err e, this)
        | Some (Ok read, this) =>
            if zlen read =? 0 then
              Some (Err (mkIoError UnexpectedEof "expected {} bytes, got {}" [n; zlen result]), this)
            else cr_read_exact_loop fuel this n (result ++ read)
        end
      else Some (Ok result, this)
  end.

Definition read_exact_decrypt (this : CryptoReader) (n : Z) : option (io_result bytes * CryptoReader) :=
  match cr_state this with
  | CrPoisoned _ => let '(e, this) := CryptoReader_take_poison_error this in Some (Err e, this)
  | CrYielding buffer =>
      let '(temp, this) := cr_drain this buffer (Z.min (YieldBuffer_remaining buffer) n) in
      cr_read_exact_loop (S (Z.to_nat n)) this n temp
  | CrIdle => cr_read_exact_loop (S (Z.to_nat n)) this n []
  end.

Definition read_decrypt (this : CryptoReader) (max_size : Z) : option (io_result bytes * CryptoReader) :=
  match cr_state this with
  | CrPoisoned _ => let '(e, this) := CryptoReader_take_poison_error this in Some (Err e, this)
  | CrYielding buffer =>
      let '(temp, this) := cr_drain this buffer (Z.min (YieldBuffer_remaining buffer) max_size) in
      Some (Ok temp, this)
  | CrIdle => async_read this max_size
  end.

End Reader.
Arguments CryptoReader {_} _.
Arguments mkCryptoReader {_ _} _ _ _.

(** ** [PendingCiphertext] (crypto_stream.rs:301-405) *)

Section Pending.
Context `{StreamCipher}.

Record PendingCiphertext := mkPending { pc_buf : bytes; pc_pos : Z; pc_max_len : Z }.

Definition PendingCiphertext_new (max_len : Z) : PendingCiphertext := mkPending [] 0 max_len.
Definition pending_len (p : PendingCiphertext) : Z := sat_sub (zlen (pc_buf p)) (pc_pos p).
Definition pending_is_empty (p : PendingCiphertext) : bool := pending_len p =? 0.
Definition pending_slice (p : PendingCiphertext) : bytes := zdrop (pc_pos p) (pc_buf p).
Definition remaining_capacity (p : PendingCiphertext) : Z := sat_sub (pc_max_len p) (pending_len p).

Definition compact_consumed_prefix (p : PendingCiphertext) : PendingCiphertext :=
  if pc_pos p =? 0 then p
  else if zlen (pc_buf p) <=? pc_pos p then mkPending [] 0 (pc_max_len p)
  else mkPending (zdrop (pc_pos p) (pc_buf p)) 0 (pc_max_len p).

Definition pending_advance (p : PendingCiphertext) (n : Z) : PendingCiphertext :=
  let pos := Z.min (pc_pos p + n) (zlen (pc_buf p)) in
  let p := mkPending (pc_buf p) pos (pc_max_len p) in
  if pos =? zlen (pc_buf p) then compact_consumed_prefix p
  else if 16 * 1024 <=? pos then compact_consumed_prefix p
  else p.

Definition replace_with (p : PendingCiphertext) (src : bytes) : PendingCiphertext :=
  mkPending src 0 (pc_max_len p).

Definition pending_full : IoError := mkIoError WouldBlock "pending ciphertext buffer is full" [].

Definition push_encrypted (p : PendingCiphertext) (encryptor : AesCtr) (plaintext : bytes)
    : io_result unit * PendingCiphertext * AesCtr :=
  if zlen plaintext =? 0 then (Ok tt, p, encryptor)
  else if remaining_capacity p <? zlen plaintext then (Err pending_full, p, encryptor)
  else
    let p :=
      if (0 <? pc_pos p) && (pc_max_len p <? zlen (pc_buf p) + zlen plaintext) then compact_consumed_prefix p
      else p in
    let '(ciphertext, encryptor) := AesCtr_apply encryptor plaintext in
    (Ok tt, mkPending (pc_buf p ++ ciphertext) (pc_pos p) (pc_max_len p), encryptor).

End Pending.

(** ** [CryptoWriter] (crypto_stream.rs:407-751) *)

Section Writer.
Context `{StreamCipher} {W : Type} `{AsyncWrite W}.

Inductive CryptoWriterState :=
| CwIdle
| CwFlushing (pending : PendingCiphertext)
| CwPoisoned (error : option IoError).

#[export] Instance CryptoWriterState_state : StreamState CryptoWriterState := {|
  is_terminal s := match s with CwPoisoned _ => true | _ => false end;
  is_poisoned s := match s with CwPoisoned _ => true | _ => false end;
  state_name s :=
    match s with CwIdle => "Idle" | CwFlushing _ => "Flushing" | CwPoisoned _ => "Poisoned" end
|}.

Record CryptoWriter := mkCryptoWriter {
  cw_upstream : W;
  cw_encryptor : AesCtr;
  cw_state : CryptoWriterState;
  cw_scratch : bytes;
  cw_max_pending_write : Z
}.

Definition CryptoWriter_new (up : W) (encryptor : AesCtr) (max_pending_write : Z) : CryptoWriter :=
  let max_pending := if max_pending_write =? 0 then DEFAULT_MAX_PENDING_WRITE else max_pending_write in
  mkCryptoWriter up encryptor CwIdle [] (Z.max max_pending (4 * 1024)).

Definition cw_has_pending (this : CryptoWriter) : bool :=
  match cw_state this with CwFlushing _ => true | _ => false end.
Definition cw_pending_len (this : CryptoWriter) : Z :=
  match cw_state this with CwFlushing pending => pending_len pending | _ => 0 end.

Definition cw_set_state (this : CryptoWriter) (up : W) (s : CryptoWriterState) : CryptoWriter :=
  mkCryptoWriter up (cw_encryptor this) s (cw_scratch this) (cw_max_pending_write this).

Definition CryptoWriter_take_poison_error (this : CryptoWriter) : IoError * CryptoWriter :=
  match cw_state this with
  | CwPoisoned error => (default previously_poisoned error, cw_set_state this (cw_upstream this) (CwPoisoned None))
  | _ => (not_poisoned, this)
  end.

(** [ensure_pending]: the pending buffer of the [Flushing] state, entered if idle; [None] stands
    for the panic of [unreachable!]. *)
Definition ensure_pending (s : CryptoWriterState) (max_pending : Z) : option PendingCiphertext :=
  match s with
  | CwIdle => Some (PendingCiphertext_new max_pending)
  | CwFlushing pending => Some pending
  | CwPoisoned _ => None
  end.

Definition select_to_accept_for_buffering (s : CryptoWriterState) (buf_len max_pending : Z) : Z :=
  if buf_len =? 0 then 0
  else
    match s with
    | CwFlushing pending => Z.min buf_len (remaining_capacity pending)
    | CwIdle => Z.min buf_len max_pending
    | CwPoisoned _ => 0
    end.

Definition encrypt_into_scratch (encryptor : AesCtr) (plaintext : bytes) : bytes * AesCtr :=
  AesCtr_apply encryptor plaintext.

(** [poll_flush_pending]: a turn that stays in the loop has written at least one pending byte. *)
Fixpoint poll_flush_pending_loop (fuel : nat) (this : CryptoWriter) : option (Poll (io_result unit) * CryptoWriter) :=
  match fuel with
  | O => None
  | S fuel =>
      match cw_state this with
      | CwPoisoned _ => let '(e, this) := CryptoWriter_take_poison_error this in Some (Ready (Err e), this)
      | CwIdle => Some (Ready (Ok tt), this)
      | CwFlushing pending =>
          if pending_is_empty pending then Some (Ready (Ok tt), cw_set_state this (cw_upstream this) CwIdle)
          else
            match poll_write (cw_upstream this) (pending_slice pending) with
            | None => None
            | Some (Pending, up) => Some (Pending, cw_set_state this up (CwFlushing pending))
            | Some (Ready (Err e), up) => Some (Ready (Err e), cw_set_state this up (CwPoisoned (Some e)))
            | Some (Ready (Ok n), up) =>
                if n =? 0 then Some (Ready (Err write_zero), cw_set_state this up (CwPoisoned (Some write_zero)))
                else poll_flush_pending_loop fuel (cw_set_state this up (CwFlushing (pending_advance pending n)))
            end
      end
  end.

Definition poll_flush_pending (this : CryptoWriter) : option (Poll (io_result unit) * CryptoWriter) :=
  poll_flush_pending_loop (S (S (Z.to_nat (cw_pending_len this)))) this.

(** The blocked branch of [poll_write]: buffer as much as the pending buffer can take. *)
Definition cw_write_blocked (this : CryptoWriter) (buf : bytes) : option (Poll (io_result Z) * CryptoWriter) :=
  let to_accept := select_to_accept_for_buffering (cw_state this) (zlen buf) (cw_max_pending_write this) in
  if to_accept =? 0 then Some (Pending, this)
  else
    match ensure_pending (cw_state this) (cw_max_pending_write this) with
    | None => None
    | Some pending =>
        let '(r, pending, encryptor) := push_encrypted pending (cw_encryptor this) (ztake to_accept buf) in
        let this := mkCryptoWriter (cw_upstream this) encryptor (CwFlushing pending) (cw_scratch this)
                      (cw_max_pending_write this) in
        match r with
        | Err e => if decide (err_kind e = WouldBlock) then Some (Pending, this) else Some (Ready (Err e), this)
        | Ok _ => Some (Ready (Ok to_accept), this)
        end
    end.

(** The write-through branch of [poll_write], with nothing pending. *)
Definition cw_write_through (this : CryptoWriter) (buf : bytes) : option (Poll (io_result Z) * CryptoWriter) :=
  let max_pending := cw_max_pending_write this in
  let to_accept := Z.min (zlen buf) max_pending in
  let '(scratch, encryptor) := encrypt_into_scratch (cw_encryptor this) (ztake to_accept buf) in
  match poll_write (cw_upstream this) scratch with
  | None => None
  | Some (Pending, up) =>
      match ensure_pending (cw_state this) max_pending with
      | None => None
      | Some pending =>
          Some (Ready (Ok to_accept),
                mkCryptoWriter up encryptor (CwFlushing (replace_with pending scratch)) [] max_pending)
      end
  | Some (Ready (Err e), up) =>
      Some (Ready (Err e), mkCryptoWriter up encryptor (CwPoisoned (Some e)) scratch max_pending)
  | Some (Ready (Ok n), up) =>
      if n =? 0 then
        Some (Ready (Err write_zero), mkCryptoWriter up encryptor (CwPoisoned (Some write_zero)) scratch max_pending)
      else if n =? zlen scratch then
        Some (Ready (Ok to_accept), mkCryptoWriter up encryptor (cw_state this) [] max_pending)
      else
        match ensure_pending (cw_state this) max_pending with
        | None => None
        | Some pending =>
            Some (Ready (Ok to_accept),
                  mkCryptoWriter up encryptor (CwFlushing (replace_with pending (zdrop n scratch))) [] max_pending)
        end
  end.

Definition crypto_poll_write (this : CryptoWriter) (buf : bytes) : option (Poll (io_result Z) * CryptoWriter) :=
  match cw_state this with
  | CwPoisoned _ => let '(e, this) := CryptoWriter_take_poison_error this in Some (Ready (Err e), this)
  | s =>
      if zlen buf =? 0 then Some (Ready (Ok 0), this)
      else
        match s with
        | CwFlushing _ =>
            match poll_flush_pending this with
            | None => None
            | Some (Ready (Ok _), this) => cw_write_through this buf
            | Some (Ready (Err e), this) => Some (Ready (Err e), this)
            | Some (Pending, this) => cw_write_blocked this buf
            end
        | _ => cw_write_through this buf
        end
  end.

Definition crypto_poll_flush (this : CryptoWriter) : option (Poll (io_result unit) * CryptoWriter) :=
  match cw_state this with
  | CwPoisoned _ => let '(e, this) := CryptoWriter_take_poison_error this in Some (Ready (Err e), this)
  | _ =>
      match poll_flush_pending this with
      | None => None
      | Some (Pending, this) => Some (Pending, this)
      | Some (Ready (Err e), this) => Some (Ready (Err e), this)
      | Some (Ready (Ok _), this) =>
          match poll_flush (cw_upstream this) with
          | None => None
          | Some (r, up) => Some (r, cw_set_state this up (cw_state this))
          end
      end
  end.

(** [poll_shutdown] up to the upstream's own shutdown. *)
Definition crypto_poll_shutdown (this : CryptoWriter) : option CryptoWriter :=
  '(_, this) ← poll_flush_pending this; Some this.

#[export] Instance crypto_write_async : AsyncWrite CryptoWriter := {|
  poll_write := crypto_poll_write;
  poll_flush := crypto_poll_flush
|}.

End Writer.
Arguments CryptoWriter {_} _.
Arguments mkCryptoWriter {_ _} _ _ _ _ _.

(** ** The reader decrypts its upstream *)

Section ReaderOk.
Context `{StreamCipherOk} {R : Type} `{AsyncReadOk R}.

Definition cr_state_bytes (s : CryptoReaderState) (plain : bytes) : bytes :=
  match s with
  | CrIdle => plain
  | CrYielding buffer => YieldBuffer_as_slice buffer ++ plain
  | CrPoisoned _ => []
  end.

Definition cr_state_wf (s : CryptoReaderState) : Prop :=
  match s with CrYielding buffer => YieldBuffer_wf buffer /\ YieldBuffer_is_empty buffer = false | _ => True end.

Lemma yield_not_empty b : YieldBuffer_is_empty b = false -> 0 < YieldBuffer_remaining b.
Proof. unfold YieldBuffer_is_empty, YieldBuffer_remaining. intros ?%Z.leb_gt. lia. Qed.

Lemma cr_drain_spec (this : CryptoReader R) buffer n :
  YieldBuffer_wf buffer -> 0 <= n ->
  exists copied s, cr_drain this buffer n = (copied, mkCryptoReader (cr_upstream this) (cr_decryptor this) s) /\
    cr_state_wf s /\ zlen copied = Z.min (YieldBuffer_remaining buffer) n /\
    forall plain, YieldBuffer_as_slice buffer ++ plain = copied ++ cr_state_bytes s plain.
Proof.
  intros Hw Hn. unfold cr_drain. destruct (YieldBuffer_copy_spec buffer n Hw Hn) as (Hsl & Hw' & Hlen).
  destruct (YieldBuffer_copy_to buffer n) as [copied buffer']. cbn [fst snd] in *.
  eexists _, _. split; [done|]. rewrite Hsl. destruct (YieldBuffer_is_empty buffer') eqn:Ee.
  - split_and!; [done|done|]. intros plain. unfold YieldBuffer_is_empty in Ee. apply Z.leb_le in Ee.
    unfold YieldBuffer_as_slice. rewrite zdrop_all by done. by rewrite app_nil_r.
  - split_and!; [done|done|]. intros plain. by rewrite <-app_assoc.
Qed.

(** The stream below delivers ciphertext; this one delivers its decryption. *)
#[export, refine] Instance crypto_read_async_ok : AsyncReadOk (CryptoReader R) := {|
  rd_ok this := rd_ok (cr_upstream this) /\ cr_state_wf (cr_state this);
  rd_bytes this := cr_state_bytes (cr_state this) (fst (AesCtr_apply (cr_decryptor this) (rd_bytes (cr_upstream this))))
|}.
Proof.
  intros [up dec s] cap Hcap [Hok Hw].
  cbn [cr_upstream cr_state cr_decryptor poll_read crypto_read_async rd_size] in *.
  unfold crypto_poll_read, CryptoReader_take_poison_error. cbn [cr_state cr_upstream cr_decryptor].
  destruct (Z.eqb_spec cap 0); [lia|]. destruct s as [|buffer|error].
  - destruct (poll_read_spec up cap Hcap Hok) as (p & up' & -> & Hok' & Hsz & Hp).
    destruct p as [|[bs|e]]; [destruct Hp as [Hb Hs]| |destruct Hp as [Hb Hb']].
    + eexists _, _. split; [done|]. cbn [cr_state cr_upstream cr_decryptor cr_state_bytes]. by rewrite Hb.
    + destruct Hp as (Hc & Hb & Hnil). destruct (Z.eqb_spec (zlen bs) 0) as [Hz|Hz].
      * apply zlen_zero_nil in Hz. subst bs. specialize (Hnil eq_refl). rewrite Hnil in Hb.
        eexists _, _. split; [done|]. cbn [cr_state cr_upstream cr_decryptor cr_state_bytes app] in *.
        rewrite Hnil, <-Hb, AesCtr_apply_nil. by split_and!.
      * pose proof (AesCtr_apply_app dec bs (rd_bytes up')) as Happ.
        pose proof (AesCtr_apply_zlen dec bs) as Hlen. rewrite Hb, Happ.
        destruct (AesCtr_apply dec bs) as [plain dec'] eqn:Ed. cbn [fst snd] in *.
        eexists _, _. split; [done|]. cbn [cr_state cr_upstream cr_decryptor cr_state_bytes cr_state_wf].
        split_and!; [done|done|done|lia|done|]. intros ->. by rewrite <-Hlen in Hz.
    + eexists _, _. split; [done|]. cbn [cr_state cr_upstream cr_decryptor cr_state_bytes].
      rewrite Hb, AesCtr_apply_nil. by split_and!.
  - destruct Hw as [Hw He]. apply yield_not_empty in He.
    destruct (cr_drain_spec (mkCryptoReader up dec (CrYielding buffer)) buffer
      (Z.min (YieldBuffer_remaining buffer) cap) Hw ltac:(lia)) as (copied & s & -> & Hs & Hlen & Hsl).
    eexists _, _. split; [done|]. cbn [cr_state cr_upstream cr_decryptor cr_state_bytes cr_state_wf].
    split_and!; [done|done|done|lia|done|]. intros ->. change (zlen (@nil Z)) with 0 in Hlen. lia.
  - eexists _, _. split; [done|]. cbn. split_and!; done || lia.
Defined.

End ReaderOk.

(** ** The pending buffer *)

Section PendingOk.
Context `{StreamCipherOk}.

Definition pending_wf (max : Z) (p : PendingCiphertext) : Prop :=
  0 <= pc_pos p <= zlen (pc_buf p) /\ pc_max_len p = max /\ pending_len p <= max.

Lemma pending_len_slice max p : pending_wf max p -> pending_len p = zlen (pending_slice p).
Proof. intros [Hp _]. unfold pending_len, pending_slice, sat_sub. rewrite zlen_zdrop. lia. Qed.

Lemma compact_spec max p :
  pending_wf max p ->
  pending_wf max (compact_consumed_prefix p) /\ pending_slice (compact_consumed_prefix p) = pending_slice p.
Proof.
  intros (Hp & Hm & Hl). unfold compact_consumed_prefix. destruct (Z.eqb_spec (pc_pos p) 0); [done|].
  unfold pending_wf, pending_slice, pending_len, sat_sub in *.
  destruct (Z.leb_spec (zlen (pc_buf p)) (pc_pos p)); cbn [pc_buf pc_pos pc_max_len].
  - change (zlen (@nil Z)) with 0. split; [lia|]. by rewrite (zdrop_all (pc_pos p)) by lia.
  - rewrite zlen_zdrop. split; [lia|]. by rewrite (zdrop_0 (zdrop _ _)) by lia.
Qed.

Lemma advance_spec max p n :
  pending_wf max p -> 0 <= n <= pending_len p ->
  pending_wf max (pending_advance p n) /\ pending_slice (pending_advance p n) = zdrop n (pending_slice p).
Proof.
  intros Hw Hn. pose proof Hw as (Hp & Hm & Hl). unfold pending_len, sat_sub in Hn.
  unfold pending_advance. rewrite Z.min_l by lia. cbn [pc_buf].
  set (q := mkPending (pc_buf p) (pc_pos p + n) (pc_max_len p)).
  assert (pending_wf max q) as Hq
    by (unfold pending_wf, pending_len, sat_sub in *; cbn [pc_buf pc_pos pc_max_len q]; lia).
  assert (pending_slice q = zdrop n (pending_slice p)) as Hs
    by (unfold pending_slice; cbn [pc_buf pc_pos q]; rewrite zdrop_zdrop by lia; f_equal; lia).
  destruct (compact_spec max q Hq) as [Hcq Hcs]. rewrite Hs in Hcs.
  destruct (_ =? _); [done|]. by destruct (_ <=? _).
Qed.

(** Pushing plaintext that fits appends its encryption; the buffer keeps its bound. *)
Lemma push_encrypted_spec max p enc plaintext :
  pending_wf max p -> zlen plaintext <= remaining_capacity p ->
  exists p', push_encrypted p enc plaintext = (Ok tt, p', snd (AesCtr_apply enc plaintext)) /\
    pending_wf max p' /\ pending_slice p' = pending_slice p ++ fst (AesCtr_apply enc plaintext).
Proof.
  intros Hw Hc. unfold push_encrypted. destruct (Z.eqb_spec (zlen plaintext) 0) as [Hz|Hz].
  { apply zlen_zero_nil in Hz. subst plaintext. rewrite AesCtr_apply_nil. exists p.
    split_and!; [done|done|]. cbn. by rewrite app_nil_r. }
  destruct (Z.ltb_spec (remaining_capacity p) (zlen plaintext)); [lia|].
  set (q := if _ && _ then _ else p).
  assert (pending_wf max q /\ pending_slice q = pending_slice p) as [Hq Hs]
    by (unfold q; destruct (_ && _); [by apply compact_spec|done]).
  pose proof (AesCtr_apply_zlen enc plaintext) as Hlen.
  destruct (AesCtr_apply enc plaintext) as [c enc'] eqn:Ec. cbn [fst snd] in *.
  eexists. split; [done|]. pose proof (pending_len_slice _ _ Hq) as Hq'. pose proof (pending_len_slice _ _ Hw).
  assert (pending_slice (mkPending (pc_buf q ++ c) (pc_pos q) (pc_max_len q)) = pending_slice p ++ c) as Hsl.
  { rewrite <-Hs. unfold pending_slice. cbn [pc_buf pc_pos]. destruct Hq. by rewrite zdrop_app_le by lia. }
  split; [|done]. destruct Hq as (Hp & Hm & Hl). destruct Hw as (_ & Hm' & _).
  pose proof (zlen_nonneg c). unfold pending_wf. cbn [pc_buf pc_pos pc_max_len].
  split; [rewrite zlen_app; lia|]. split; [done|]. unfold remaining_capacity, pending_len, sat_sub in *.
  cbn [pc_buf pc_pos]. rewrite zlen_app. rewrite Hs in Hq'. lia.
Qed.

End PendingOk.

(** ** The writer never drifts *)

Section WriterOk.
Context `{StreamCipherOk} {W : Type} `{AsyncWriteOk W}.

(** [this] started with the encryptor [enc0] and has accepted [acc]: what its upstream has
    accepted, followed by what is pending, is the encryption of [acc] under the one key stream of
    [enc0], and the encryptor stands right behind it. *)
Definition cw_inv (enc0 : AesCtr) (this : CryptoWriter W) (acc : bytes) : Prop :=
  0 < cw_max_pending_write this /\
  exists sent, wr_accepted (cw_upstream this) sent /\
    match cw_state this with
    | CwIdle => sent = fst (AesCtr_apply enc0 acc) /\ cw_encryptor this = snd (AesCtr_apply enc0 acc)
    | CwFlushing pending =>
        sent ++ pending_slice pending = fst (AesCtr_apply enc0 acc) /\
        cw_encryptor this = snd (AesCtr_apply enc0 acc) /\
        pending_wf (cw_max_pending_write this) pending
    | CwPoisoned _ => sent `prefix_of` fst (AesCtr_apply enc0 acc)
    end.

Lemma cw_new_inv up enc0 max :
  0 <= max -> wr_accepted up [] -> cw_inv enc0 (CryptoWriter_new up enc0 max) [].
Proof.
  intros Hm Hup. split; [cbn; lia|]. exists []. cbn [CryptoWriter_new cw_upstream cw_state cw_encryptor].
  by rewrite AesCtr_apply_nil.
Qed.

Lemma cw_encrypt_more enc0 acc b :
  fst (AesCtr_apply enc0 (acc ++ b)) =
    fst (AesCtr_apply enc0 acc) ++ fst (AesCtr_apply (snd (AesCtr_apply enc0 acc)) b) /\
  snd (AesCtr_apply enc0 (acc ++ b)) = snd (AesCtr_apply (snd (AesCtr_apply enc0 acc)) b).
Proof. by rewrite AesCtr_apply_app. Qed.

Lemma poll_flush_pending_loop_spec fuel enc0 this acc :
  cw_inv enc0 this acc -> cw_pending_len this + 1 < Z.of_nat fuel ->
  exists r this', poll_flush_pending_loop fuel this = Some (r, this') /\ cw_inv enc0 this' acc /\
    cw_max_pending_write this' = cw_max_pending_write this /\
    match r with
    | Ready (Ok _) => cw_state this' = CwIdle
    | Pending => exists pending, cw_state this' = CwFlushing pending
    | Ready (Err _) => is_poisoned (cw_state this') = true
    end.
Proof.
  revert this. induction fuel as [|fuel IH]; intros this Hi Hf.
  { unfold cw_pending_len, pending_len, sat_sub in Hf. destruct (cw_state this); lia. }
  pose proof Hi as (Hmax & sent & Hup & Hs). cbn [poll_flush_pending_loop].
  unfold cw_pending_len in Hf. destruct (cw_state this) as [|pending|error] eqn:Est.
  - eexists _, _. split; [done|]. by split_and!.
  - destruct Hs as (Hs & He & Hw). pose proof (pending_len_slice _ _ Hw) as Hlen.
    unfold pending_is_empty. destruct (Z.eqb_spec (pending_len pending) 0) as [Hz|Hz].
    { rewrite Hlen in Hz. apply zlen_zero_nil in Hz. rewrite Hz, app_nil_r in Hs.
      eexists _, _. split; [done|]. split_and!; [split; [done|]; by exists sent|done|done]. }
    destruct (poll_write_spec (cw_upstream this) sent (pending_slice pending) Hup) as (p & up' & -> & Hp).
    destruct p as [|[n|e]].
    + eexists _, _. split; [done|]. split_and!; [split; [done|]; by exists sent|done|by eexists].
    + destruct Hp as [Hn Hup']. destruct (Z.eqb_spec n 0) as [->|].
      * rewrite ztake_0, app_nil_r in Hup' by lia.
        eexists _, _. split; [done|]. split_and!; [split; [done|]|done|done].
        exists sent. split; [done|]. by exists (pending_slice pending).
      * destruct (advance_spec _ pending n Hw ltac:(lia)) as [Hw' Hsl].
        pose proof (pending_len_slice _ _ Hw') as Hlen'. rewrite Hsl, zlen_zdrop in Hlen'.
        edestruct (IH (cw_set_state this up' (CwFlushing (pending_advance pending n))))
          as (r & this' & -> & Hi' & Hm' & Hr).
        -- split; [done|]. eexists. split; [exact Hup'|]. cbn [cw_set_state cw_state cw_encryptor cw_max_pending_write].
           split_and!; [|done|done]. by rewrite Hsl, <-app_assoc, ztake_zdrop.
        -- cbn [cw_pending_len cw_set_state cw_state]. lia.
        -- by eexists _, _.
    + eexists _, _. split; [done|]. split_and!; [split; [done|]|done|done].
      exists sent. split; [done|]. by exists (pending_slice pending).
  - unfold CryptoWriter_take_poison_error. rewrite Est. eexists _, _. split; [done|].
    split_and!; [split; [done|]; by exists sent|done|done].
Qed.

Lemma poll_flush_pending_spec enc0 this acc :
  cw_inv enc0 this acc ->
  exists r this', poll_flush_pending this = Some (r, this') /\ cw_inv enc0 this' acc /\
    cw_max_pending_write this' = cw_max_pending_write this /\
    match r with
    | Ready (Ok _) => cw_state this' = CwIdle
    | Pending => exists pending, cw_state this' = CwFlushing pending
    | Ready (Err _) => is_poisoned (cw_state this') = true
    end.
Proof. intros Hi. apply poll_flush_pending_loop_spec; [done|]. lia. Qed.

(** What a write does to the writer, by its answer. *)
Definition cw_write_post (enc0 : AesCtr) (acc buf : bytes) (max : Z)
    (p : Poll (io_result Z)) (this' : CryptoWriter W) : Prop :=
  cw_max_pending_write this' = max /\
  match p with
  | Ready (Ok n) => 0 <= n <= zlen buf /\ (0 < zlen buf -> 0 < n) /\ cw_inv enc0 this' (acc ++ ztake n buf)
  | Pending => cw_inv enc0 this' acc /\ cw_pending_len this' = max
  | Ready (Err _) => cw_inv enc0 this' acc /\ is_poisoned (cw_state this') = true
  end.

Lemma cw_write_through_spec enc0 this acc buf :
  cw_inv enc0 this acc -> cw_state this = CwIdle ->
  exists p this', cw_write_through this buf = Some (p, this') /\
    cw_write_post enc0 acc buf (cw_max_pending_write this) p this'.
Proof.
  intros (Hmax & sent & Hup & Hs) Hst. rewrite Hst in Hs. destruct Hs as [Hs He].
  unfold cw_write_through, encrypt_into_scratch. rewrite Hst. cbn [ensure_pending].
  set (k := Z.min (zlen buf) (cw_max_pending_write this)).
  assert (0 <= k <= zlen buf /\ k <= cw_max_pending_write this) as [Hk Hkm]
    by (pose proof (zlen_nonneg buf); lia).
  destruct (cw_encrypt_more enc0 acc (ztake k buf)) as [Hfst Hsnd]. rewrite <-Hs, <-He in Hfst. rewrite <-He in Hsnd.
  pose proof (AesCtr_apply_zlen (cw_encryptor this) (ztake k buf)) as Hlen. rewrite zlen_ztake in Hlen.
  destruct (AesCtr_apply (cw_encryptor this) (ztake k buf)) as [scratch enc] eqn:Ee. cbn [fst snd] in *.
  destruct (poll_write_spec (cw_upstream this) sent scratch Hup) as (p & up' & -> & Hp).
  assert (forall rest, zlen rest <= k ->
    pending_wf (cw_max_pending_write this) (replace_with (PendingCiphertext_new (cw_max_pending_write this)) rest)) as Hpw.
  { intros rest Hr. unfold pending_wf, pending_len, sat_sub. cbn. pose proof (zlen_nonneg rest). lia. }
  assert (forall rest, pending_slice (replace_with (PendingCiphertext_new (cw_max_pending_write this)) rest) = rest) as Hps
    by (intros; unfold pending_slice; cbn; by rewrite zdrop_0).
  destruct p as [|[n|e]].
  - eexists _, _. split; [done|]. split_and!; [done|lia|lia|lia|]. split; [done|]. exists sent. split; [done|].
    cbn [cw_state cw_encryptor cw_max_pending_write]. rewrite Hps. split_and!; [done|done|apply Hpw; lia].
  - destruct Hp as [Hn Hup']. destruct (Z.eqb_spec n 0) as [->|].
    + rewrite ztake_0, app_nil_r in Hup' by lia. eexists _, _. split; [done|]. split_and!; [done|split; [done|]|done].
      exists sent. split; [done|]. cbn. by rewrite Hs.
    + destruct (Z.eqb_spec n (zlen scratch)).
      * rewrite ztake_all in Hup' by lia. eexists _, _. split; [done|]. split_and!; [done|lia|lia|lia|]. split; [done|].
        eexists. split; [exact Hup'|]. cbn [cw_state cw_encryptor]. done.
      * eexists _, _. split; [done|]. split_and!; [done|lia|lia|lia|]. split; [done|].
        eexists. split; [exact Hup'|]. cbn [cw_state cw_encryptor cw_max_pending_write]. rewrite Hps.
        split_and!; [by rewrite <-app_assoc, ztake_zdrop|done|apply Hpw; rewrite zlen_zdrop; lia].
  - eexists _, _. split; [done|]. split_and!; [done|split; [done|]|done].
    exists sent. split; [done|]. cbn. by rewrite Hs.
Qed.

Lemma cw_write_blocked_spec enc0 this acc buf pending :
  cw_inv enc0 this acc -> cw_state this = CwFlushing pending -> 0 < zlen buf ->
  exists p this', cw_write_blocked this buf = Some (p, this') /\
    cw_write_post enc0 acc buf (cw_max_pending_write this) p this'.
Proof.
  intros Hi Hst Hb. pose proof Hi as (Hmax & sent & Hup & Hs). rewrite Hst in Hs. destruct Hs as (Hs & He & Hw).
  unfold cw_write_blocked, select_to_accept_for_buffering. rewrite Hst. cbn [ensure_pending].
  destruct (Z.eqb_spec (zlen buf) 0); [lia|].
  set (k := Z.min (zlen buf) (remaining_capacity pending)).
  assert (0 <= k <= zlen buf /\ k <= remaining_capacity pending) as [Hk Hkr]
    by (unfold k, remaining_capacity, sat_sub; lia).
  destruct (Z.eqb_spec k 0) as [Hz|Hz].
  { eexists _, _. split; [done|]. split_and!; [done|done|]. unfold cw_pending_len. rewrite Hst.
    destruct Hw as (? & Hm & ?). unfold k, remaining_capacity, sat_sub in Hz. lia. }
  destruct (push_encrypted_spec _ pending (cw_encryptor this) (ztake k buf) Hw) as (p' & -> & Hw' & Hsl).
  { rewrite zlen_ztake. lia. }
  destruct (cw_encrypt_more enc0 acc (ztake k buf)) as [Hfst Hsnd]. rewrite <-He in Hfst, Hsnd.
  eexists _, _. split; [done|]. split_and!; [done|lia|lia|lia|]. split; [done|]. exists sent. split; [done|].
  cbn [cw_state cw_encryptor cw_max_pending_write]. rewrite Hfst, Hsl, app_assoc, Hs. done.
Qed.

Lemma crypto_poll_write_spec enc0 this acc buf :
  cw_inv enc0 this acc ->
  exists p this', crypto_poll_write this buf = Some (p, this') /\
    cw_write_post enc0 acc buf (cw_max_pending_write this) p this'.
Proof.
  intros Hi. unfold crypto_poll_write. pose proof (zlen_nonneg buf).
  destruct (cw_state this) as [|pending|error] eqn:Est.
  - destruct (Z.eqb_spec (zlen buf) 0); [|by apply cw_write_through_spec].
    eexists _, _. split; [done|]. split_and!; [done|lia|lia|lia|]. by rewrite ztake_0, app_nil_r.
  - destruct (Z.eqb_spec (zlen buf) 0) as [Hz|Hz].
    { eexists _, _. split; [done|]. split_and!; [done|lia|lia|lia|]. by rewrite ztake_0, app_nil_r. }
    destruct (poll_flush_pending_spec enc0 this acc Hi) as (r & this' & -> & Hi' & Hm & Hr).
    rewrite <-Hm. destruct r as [|[[]|e]].
    + destruct Hr as [p Hp]. eapply cw_write_blocked_spec; [done|done|lia].
    + by apply cw_write_through_spec.
    + eexists _, _. split; [done|]. by split_and!.
  - pose proof Hi as (Hmax & sent & Hup & Hs). rewrite Est in Hs.
    unfold CryptoWriter_take_poison_error. rewrite Est. eexists _, _. split; [done|].
    split_and!; [done|split; [done|]; by exists sent|done].
Qed.

Lemma crypto_poll_flush_spec enc0 this acc :
  cw_inv enc0 this acc ->
  exists p this', crypto_poll_flush this = Some (p, this') /\ cw_inv enc0 this' acc /\
    cw_max_pending_write this' = cw_max_pending_write this /\
    (p = Ready (Ok tt) -> cw_state this' = CwIdle).
Proof.
  intros Hi. unfold crypto_poll_flush.
  destruct (poll_flush_pending_spec enc0 this acc Hi) as (r & this' & E & Hi' & Hm & Hr).
  assert (exists p this', match poll_flush_pending this with
      | None => None
      | Some (Pending, this) => Some (Pending, this)
      | Some (Ready (Err e), this) => Some (Ready (Err e), this)
      | Some (Ready (Ok _), this) =>
          match poll_flush (cw_upstream this) with
          | None => None
          | Some (r, up) => Some (r, cw_set_state this up (cw_state this))
          end
      end = Some (p, this') /\ cw_inv enc0 this' acc /\
    cw_max_pending_write this' = cw_max_pending_write this /\
    (p = Ready (Ok tt) -> cw_state this' = CwIdle)) as Hgo.
  { rewrite E. destruct r as [|[[]|e]]; [by eexists _, _| |by eexists _, _].
    destruct Hi' as (Hmax & sent & Hup & Hs).
    destruct (poll_flush_spec (cw_upstream this') sent Hup) as (p & up & -> & Hup').
    eexists _, _. split; [done|]. split_and!; [split; [done|]; by exists sent|done|done]. }
  destruct (cw_state this) eqn:Est; [done|done|].
  pose proof Hi as (Hmax & sent & Hup & Hs). rewrite Est in Hs.
  unfold CryptoWriter_take_poison_error. rewrite Est. eexists _, _. split; [done|].
  split_and!; [split; [done|]; by exists sent|done|done].
Qed.

#[export, refine] Instance crypto_write_async_ok : AsyncWriteOk (CryptoWriter W) := {|
  wr_accepted this acc := exists enc0, cw_inv enc0 this acc
|}.
Proof.
  - intros this acc data [enc0 Hi].
    destruct (crypto_poll_write_spec enc0 this acc data Hi) as (p & this' & E & _ & Hp).
    exists p, this'. split; [done|]. destruct p as [|[n|e]]; [exists enc0; tauto|split; [tauto|exists enc0; tauto]|exists enc0; tauto].
  - intros this acc [enc0 Hi]. destruct (crypto_poll_flush_spec enc0 this acc Hi) as (p & this' & E & Hp & _).
    exists p, this'. eauto.
Defined.

End WriterOk.

(** ** Claims *)

Section Claims.
Context `{StreamCipherOk}.

Lemma cw_drive_inv `{AsyncWriteOk W} enc0 (up : W) max ops :
  0 <= max -> wr_accepted up [] ->
  exists acc this', drive_writes (CryptoWriter_new up enc0 max) ops = Some (acc, this') /\
    cw_inv enc0 this' acc /\
    cw_max_pending_write this' = cw_max_pending_write (CryptoWriter_new up enc0 max).
Proof.
  intros Hmax Hup.
  destruct (drive_writes_inv (fun this acc => cw_inv enc0 this acc /\
    cw_max_pending_write this = cw_max_pending_write (CryptoWriter_new up enc0 max)))
    with (ops := ops) (w := CryptoWriter_new up enc0 max) (acc := [] : bytes) as (acc & this' & E & Hi).
  - intros w acc buf [Hi Hm]. destruct (crypto_poll_write_spec enc0 w acc buf Hi) as (p & w' & E & Hm' & Hp).
    exists p, w'. split; [done|]. rewrite Hm', Hm. split; [|done].
    destruct p as [|[n|e]]; rewrite ?app_nil_r; tauto.
  - intros w acc [Hi Hm]. destruct (crypto_poll_flush_spec enc0 w acc Hi) as (p & w' & E & Hi' & Hm' & _).
    exists p, w'. split; [done|]. by rewrite Hm'.
  - split; [by apply cw_new_inv|done].
  - by exists acc, this'.
Qed.

(** No key stream drift.  However a [CryptoWriter] is polled and whatever its upstream does
    (pending, partial writes, errors), every poll answers, and the bytes its upstream received
    followed by its pending ciphertext are exactly the CTR encryption, under the one key stream
    it was created with, of the bytes it has accepted (after an error, a prefix of it); the
    pending ciphertext never exceeds the configured bound (64 KiB when none is given, and at least
    4 KiB). *)
Theorem crypto_writer_no_drift enc0 max script flush ops :
  0 <= max ->
  exists acc this', drive_writes (CryptoWriter_new (mkUpW script [] flush) enc0 max) ops = Some (acc, this') /\
    let ciphertext := fst (AesCtr_apply enc0 acc) in
    match cw_state this' with
    | CwIdle => w_sink (cw_upstream this') = ciphertext
    | CwFlushing pending => w_sink (cw_upstream this') ++ pending_slice pending = ciphertext
    | CwPoisoned _ => w_sink (cw_upstream this') `prefix_of` ciphertext
    end /\
    cw_pending_len this' <= Z.max (if max =? 0 then DEFAULT_MAX_PENDING_WRITE else max) 4096.
Proof.
  intros Hmax. destruct (cw_drive_inv enc0 (mkUpW script [] flush) max ops Hmax)
    as (acc & this' & E & (_ & sent & Hsent & Hs) & Hm); [done|].
  exists acc, this'. split; [done|]. cbn in Hsent. subst sent. cbn [CryptoWriter_new cw_max_pending_write] in Hm.
  unfold cw_pending_len. change (4 * 1024) with 4096 in Hm. rewrite <-Hm.
  destruct (cw_state this'); [|destruct Hs as (Hs & _ & _ & _ & Hl)|]; split; tauto || lia.
Qed.

(** Backpressure.  A write of a non-empty buffer to a writer that has not failed is refused
    (pending) only when the pending ciphertext has reached the configured bound; otherwise it
    accepts at least one byte or reports an error and poisons the writer. *)
Theorem crypto_writer_backpressure enc0 max script flush ops acc this buf :
  0 <= max -> drive_writes (CryptoWriter_new (mkUpW script [] flush) enc0 max) ops = Some (acc, this) ->
  0 < zlen buf ->
  exists p this', crypto_poll_write this buf = Some (p, this') /\
    match p with
    | Pending => cw_pending_len this' = cw_max_pending_write this
    | Ready (Ok n) => 0 < n <= zlen buf /\ cw_pending_len this' <= cw_max_pending_write this
    | Ready (Err _) => is_poisoned (cw_state this') = true
    end.
Proof.
  intros Hmax E Hb. destruct (cw_drive_inv enc0 (mkUpW script [] flush) max ops Hmax)
    as (acc' & this1 & E1 & Hi & _); [done|]. rewrite E in E1. injection E1 as <- <-.
  destruct (crypto_poll_write_spec enc0 this acc buf Hi) as (p & this' & Ew & Hm & Hp).
  exists p, this'. split; [done|]. destruct p as [|[n|e]]; [tauto| |tauto].
  destruct Hp as (Hn & Hpos & (_ & sent & _ & Hs)). split; [specialize (Hpos Hb); lia|].
  unfold cw_pending_len. rewrite <-Hm. destruct Hi as [Hmp _]. rewrite <-Hm in Hmp.
  destruct (cw_state this'); [lia| |lia]. by destruct Hs as (_ & _ & _ & _ & ?).
Qed.

(** Decrypting a prefix of a ciphertext gives a prefix of the plaintext. *)
Lemma ctr_prefix c plain pre :
  bytes_ok plain -> pre `prefix_of` fst (AesCtr_apply c plain) -> fst (AesCtr_apply c pre) `prefix_of` plain.
Proof.
  intros Hok [k Hk]. pose proof (AesCtr_apply_inv c plain Hok) as Hinv.
  rewrite Hk, AesCtr_apply_app in Hinv. cbn [fst] in Hinv. rewrite <-Hinv. by eexists.
Qed.

(** C1: the client channel end to end.  A [CryptoWriter] over a [FakeTlsWriter], polled in any
    way over any upstream, and a [CryptoReader] with the same key over a [FakeTlsReader] that
    receives what was sent so far in any pieces: the reader delivers a prefix of the bytes the
    writer accepted, and, when the writer holds nothing back and has not failed and the reader is
    polled often enough, all of them. *)
Theorem secure_channel_end_to_end c max script flush ops acc wr up caps :
  0 <= max ->
  drive_writes (CryptoWriter_new (FakeTlsWriter_new (mkUpW script [] flush)) c max) ops = Some (acc, wr) ->
  bytes_ok acc -> up_live up = true -> up_bytes up = w_sink (tw_upstream (cw_upstream wr)) ->
  Forall (fun cap => 0 < cap) caps ->
  exists ds rd, drive_reads (CryptoReader_new (FakeTlsReader_new up) c) caps = Some (ds, rd) /\
    ds `prefix_of` acc /\
    (cw_state wr = CwIdle -> tw_state (cw_upstream wr) = TwIdle ->
     zlen acc + Z.of_nat (up_size up) <= zlen caps -> ds = acc).
Proof.
  intros Hmax Ew Hok Hl Hup Hcaps.
  destruct (cw_drive_inv c (FakeTlsWriter_new (mkUpW script [] flush)) max ops Hmax)
    as (acc' & wr' & E & (_ & sent & (chunks & Htls & Hsent) & Hs) & _).
  { exists []. split; [apply tls_writer_new_inv|done]. }
  rewrite Ew in E. injection E as <- <-. apply tls_writer_inv_view in Htls as [Hview Hdone]. rewrite Hsent in *.
  assert (sent `prefix_of` fst (AesCtr_apply c acc)) as Hpre.
  { destruct (cw_state wr); [destruct Hs as [-> _]; done| |done]. destruct Hs as [Hs _]. rewrite <-Hs. by eexists. }
  rewrite <-Hup in *. destruct Hview as [k Hk].
  assert (Forall is_Some (tls_view (up_bytes up))) as Hsome.
  { assert (Forall is_Some (map Some sent)) as Hall by (apply Forall_fmap, Forall_true; by eexists).
    rewrite Hk in Hall. by apply Forall_app in Hall as [? _]. }
  destruct (drive_reads_spec (CryptoReader_new (FakeTlsReader_new up) c) caps Hcaps)
    as (ds & rd & -> & _ & Hb & Hall); [by split_and!|].
  cbn [CryptoReader_new FakeTlsReader_new rd_bytes crypto_read_async_ok cr_state cr_upstream cr_decryptor
    cr_state_bytes tls_read_async_ok tr_state tr_upstream tls_state_view rd_size crypto_read_async tls_read_async] in *.
  eexists _, _. split_and!; [done| |].
  - transitivity (fst (AesCtr_apply c (omap id (tls_view (up_bytes up))))).
    { rewrite Hb. by eexists. }
    apply ctr_prefix; [done|]. etransitivity; [|done].
    apply (f_equal (omap id)) in Hk. rewrite omap_map_some, omap_app in Hk. rewrite Hk. by eexists.
  - intros Hi1 Hi2 Hlen. rewrite Hi1 in Hs. destruct Hs as [-> _].
    rewrite Hi2 in Hdone. rewrite (Hdone eq_refl eq_refl), omap_map_some, AesCtr_apply_inv in Hall by done.
    apply Hall. unfold zlen in Hlen. lia.
Qed.

End Claims.

Import Crypto.Demo.

Definition demo_channel : CryptoWriter FakeTlsWriter :=
  CryptoWriter_new (FakeTlsWriter_new (mkUpW [WrAccept 6; WrPending] [] [])) (AesCtr_new (repeat 7 32) 5) 0.

Definition demo_ops : list write_op := [OpWrite [1; 2; 3]; OpFlush; OpFlush; OpWrite [4]].

Lemma secure_channel_end_to_end_witness :
  exists wr, drive_writes demo_channel demo_ops = Some ([1; 2; 3; 4], wr) /\
  exists ds rd, drive_reads (CryptoReader_new (FakeTlsReader_new [RdData (w_sink (tw_upstream (cw_upstream wr)))])
      (AesCtr_new (repeat 7 32) 5)) (repeat 2 60) = Some (ds, rd) /\ ds `prefix_of` [1; 2; 3; 4] /\
    (cw_state wr = CwIdle -> tw_state (cw_upstream wr) = TwIdle ->
     zlen [1; 2; 3; 4] + Z.of_nat (up_size [RdData (w_sink (tw_upstream (cw_upstream wr)))]) <= zlen (repeat 2 60) ->
     ds = [1; 2; 3; 4]).
Proof.
  eexists. split; [vm_compute; reflexivity|].
  eapply (secure_channel_end_to_end (AesCtr_new (repeat 7 32) 5) 0 [WrAccept 6; WrPending] [] demo_ops [1; 2; 3; 4] _
    _ (repeat 2 60)).
  - lia.
  - vm_compute. reflexivity.
  - apply (bool_decide_unpack _). vm_compute. exact I.
  - reflexivity.
  - reflexivity.
  - apply (bool_decide_unpack _). vm_compute. exact I.
Defined.
