(* ===== verification/FrameStream.v ===== *)
(** * MTProto framing over asynchronous streams: [stream/frame_stream.rs]

    The readers take a frame at a time from any [AsyncRead]; the writers hand the pieces of a
    frame to [write_all].  A writer's upstream is the bytes it has been given. *)

From S2P Require Import Prelude Crypto Random Constants FrameCodec AsyncIo.
Open Scope rio_scope.

(** ** [traits.rs] frame metadata (traits.rs:11-36) *)

Record StreamMeta := mkStreamMeta { sm_quickack : bool; sm_simple_ack : bool; sm_skip_send : bool }.

Definition StreamMeta_new : StreamMeta := mkStreamMeta false false false.
Definition StreamMeta_with_quickack (m : StreamMeta) : StreamMeta :=
  mkStreamMeta true (sm_simple_ack m) (sm_skip_send m).
Definition StreamMeta_with_simple_ack (m : StreamMeta) : StreamMeta :=
  mkStreamMeta (sm_quickack m) true (sm_skip_send m).

(** ** Readers (frame_stream.rs:26-57, 129-156, 208-243) *)

Section Readers.
Context {R : Type} `{AsyncRead R}.

Definition abridged_read_frame : rio R (bytes * StreamMeta) :=
  let? len_byte := (fun r => read_exact r 1) in
  let len := nth 0 len_byte 0 in
  let '(meta, len) :=
    if 0x80 <=? len then (StreamMeta_with_quickack StreamMeta_new, len - 0x80) else (StreamMeta_new, len) in
  let? len :=
    if len =? 0x7f then
      let? len_bytes := (fun r => read_exact r 3) in rio_ret (le_val (len_bytes ++ [0]))
    else rio_ret len in
  let byte_len := len * 4 in
  let? data := (fun r => read_exact r byte_len) in
  rio_ret (data, meta).

(** The length word of the two intermediate readers. *)
Definition read_len_flag (len_bytes : bytes) : StreamMeta * Z :=
  let len := le_val len_bytes in
  if 0x80000000 <? len then (StreamMeta_with_quickack StreamMeta_new, len - 0x80000000)
  else (StreamMeta_new, len).

Definition intermediate_read_frame : rio R (bytes * StreamMeta) :=
  let? len_bytes := (fun r => read_exact r 4) in
  let '(meta, len) := read_len_flag len_bytes in
  let? data := (fun r => read_exact r len) in
  rio_ret (data, meta).

Definition invalid_secure_len (len : Z) : IoError :=
  mkIoError InvalidData "Invalid secure frame length: {len}" [len].

Definition secure_read_frame : rio R (bytes * StreamMeta) :=
  let? len_bytes := (fun r => read_exact r 4) in
  let '(meta, len) := read_len_flag len_bytes in
  let? data := (fun r => read_exact r len) in
  match secure_payload_len_from_wire_len len with
  | None => rio_err (invalid_secure_len len)
  | Some payload_len => rio_ret (ztake payload_len data, meta)
  end.

(** [FrameReaderKind] (frame_stream.rs:414-440) *)
Definition read_frame (tag : ProtoTag) : rio R (bytes * StreamMeta) :=
  match tag with
  | Abridged => abridged_read_frame
  | Intermediate => intermediate_read_frame
  | Secure => secure_read_frame
  end.

End Readers.

(** ** Writers (frame_stream.rs:77-119, 178-193, 267-298) *)

Definition abridged_write_frame (sink data : bytes) (meta : StreamMeta) : io_result unit * bytes :=
  if negb (is_multiple_of (zlen data) 4) then
    (Err (mkIoError InvalidInput "Abridged frame must be aligned to 4 bytes, got {}" [zlen data]), sink)
  else if sm_simple_ack meta then (Ok tt, sink ++ reverse data)
  else
    let len_div_4 := zlen data / 4 in
    if len_div_4 <? 0x7f then (Ok tt, (sink ++ [u8 len_div_4]) ++ data)
    else if len_div_4 <? Z.shiftl 1 24 then
      let header := 0x7f :: ztake 3 (le_bytes 4 (u32 len_div_4)) in
      (Ok tt, (sink ++ header) ++ data)
    else (Err (mkIoError InvalidInput "Frame too large: {} bytes" [zlen data]), sink).

Definition intermediate_write_frame (sink data : bytes) (meta : StreamMeta) : io_result unit * bytes :=
  if sm_simple_ack meta then (Ok tt, sink ++ data)
  else (Ok tt, (sink ++ le_bytes 4 (u32 (zlen data))) ++ data).

Section SecureWriter.
Context {G : Type} `{Rng G}.

Definition secure_write_frame (rng : G) (sink data : bytes) (meta : StreamMeta)
    : io_result unit * bytes * G :=
  if sm_simple_ack meta then (Ok tt, sink ++ data, rng)
  else if negb (is_valid_secure_payload_len (zlen data)) then
    (Err (mkIoError InvalidData "Secure payload must be 4-byte aligned, got {}" [zlen data]), sink, rng)
  else
    let '(padding_len, rng) := secure_padding_len (zlen data) rng in
    let '(padding, rng) := rng_bytes rng padding_len in
    let total_len := zlen data + padding_len in
    (Ok tt, ((sink ++ le_bytes 4 (u32 total_len)) ++ data) ++ padding, rng).

(** [FrameWriterKind] (frame_stream.rs:442-475) *)
Definition write_frame (tag : ProtoTag) (rng : G) (sink data : bytes) (meta : StreamMeta)
    : io_result unit * bytes * G :=
  match tag with
  | Abridged => (abridged_write_frame sink data meta, rng)
  | Intermediate => (intermediate_write_frame sink data meta, rng)
  | Secure => secure_write_frame rng sink data meta
  end.

End SecureWriter.

(** ** Full MTProto frames (frame_stream.rs:308-410) *)

Section Full.
Context `{Digests}.

Definition invalid_message_length (len : Z) : IoError :=
  mkIoError InvalidData "Invalid message length: {}" [len].
Definition sequence_mismatch (expected got : Z) : IoError :=
  mkIoError InvalidData "Sequence mismatch: expected {}, got {}" [expected; got].
Definition crc_mismatch (expected got : Z) : IoError :=
  mkIoError InvalidData "CRC mismatch: expected {:08x}, got {:08x}" [expected; got].

Record MtprotoFrameReader (R : Type) := mkMtReader { mr_upstream : R; mr_seq_no : Z }.
#[global] Arguments mkMtReader {R} _ _.
#[global] Arguments mr_upstream {R} _.
#[global] Arguments mr_seq_no {R} _.

(** [self.upstream.read_exact(..).await] *)
Definition mr_read {R} `{AsyncRead R} (n : Z) : rio (MtprotoFrameReader R) bytes := fun m =>
  match read_exact (mr_upstream m) n with
  | None => None
  | Some (a, r) => Some (a, mkMtReader r (mr_seq_no m))
  end.

Definition mr_get_seq {R} : rio (MtprotoFrameReader R) Z := fun m => Some (Ok (mr_seq_no m), m).
Definition mr_set_seq {R} (seq_no : Z) : rio (MtprotoFrameReader R) unit := fun m =>
  Some (Ok tt, mkMtReader (mr_upstream m) seq_no).

(** [MtprotoFrameReader::read_frame].  A turn that stays in the loop has consumed a padding
    word. *)
Fixpoint mtproto_read_frame {R} `{AsyncRead R} (fuel : nat) : rio (MtprotoFrameReader R) bytes :=
  match fuel with
  | O => fun _ => None
  | S fuel =>
      let? len_bytes := mr_read 4 in
      let len := le_val len_bytes in
      if len =? 4 then mtproto_read_frame fuel
      else if negb ((MIN_MSG_LEN <=? len) && (len <=? MAX_MSG_LEN)) || negb (is_multiple_of len (zlen PADDING_FILLER)) then
        rio_err (invalid_message_length len)
      else
        let? seq_bytes := mr_read 4 in
        let msg_seq := i32 (le_val seq_bytes) in
        let? seq_no := mr_get_seq in
        if negb (msg_seq =? seq_no) then rio_err (sequence_mismatch seq_no msg_seq)
        else
          let? _ := mr_set_seq (i32 (seq_no + 1)) in
          let data_len := len - 12 in
          let? data := mr_read data_len in
          let? crc_bytes := mr_read 4 in
          let expected_crc := le_val crc_bytes in
          let crc_input := len_bytes ++ seq_bytes ++ data in
          let computed_crc := crc32 crc_input in
          if negb (computed_crc =? expected_crc) then rio_err (crc_mismatch expected_crc computed_crc)
          else rio_ret data
  end.

(** [MtprotoFrameWriter::write_frame]: the new sequence number and sink. *)
Definition mtproto_write_frame (seq_no : Z) (sink msg : bytes) : Z * bytes :=
  let len := zlen msg + 12 in
  let len_bytes := le_bytes 4 (u32 len) in
  let seq_bytes := le_bytes 4 seq_no in
  let crc_input := len_bytes ++ seq_bytes ++ msg in
  let crc_bytes := le_bytes 4 (crc32 crc_input) in
  let total_len := zlen len_bytes + zlen seq_bytes + zlen msg + zlen crc_bytes in
  let padding_needed := (CBC_PADDING - total_len mod CBC_PADDING) mod CBC_PADDING in
  let padding_count := padding_needed / zlen PADDING_FILLER in
  (i32 (seq_no + 1),
   ((((sink ++ len_bytes) ++ seq_bytes) ++ msg) ++ crc_bytes) ++ concat (zrepeat padding_count PADDING_FILLER)).

End Full.

(** ** Reading agrees with decoding *)

Section ReaderFacts.
Context {R : Type} `{AsyncReadOk R}.

Lemma low_seven_bits b :
  is_byte b -> (if 0x80 <=? b then b - 0x80 else b) = Z.land b 0x7f.
Proof.
  intros Hb. unfold is_byte in Hb. change 0x7f with (Z.ones 7). rewrite Z.land_ones by lia.
  change (2 ^ 7) with 128. Z.div_mod_to_equations. destruct (Z.leb_spec 0x80 b); lia.
Qed.

Definition meta_of (m : FrameMeta) : StreamMeta := mkStreamMeta (quickack m) false false.

Lemma slice_split {A} (l : list A) h len :
  0 <= h -> 0 <= len -> h + len <= zlen l ->
  l = ztake h l ++ slice l h (h + len) ++ zdrop (h + len) l /\ zlen (ztake h l) = h /\
  zlen (slice l h (h + len)) = len.
Proof.
  intros Hh Hl Hle. split.
  - rewrite <-(ztake_zdrop h l) at 1. f_equal. unfold slice.
    replace (h + len - h) with len by lia. rewrite (Z.add_comm h len), <-zdrop_zdrop by lia.
    by rewrite ztake_zdrop.
  - unfold slice. rewrite !zlen_ztake, zlen_zdrop. lia.
Qed.

(** The stream reader finds what the buffer decoder finds. *)
Definition reads_as (tag : ProtoTag) (f : Frame) (rest : bytes) (a : io_result (bytes * StreamMeta)) (r' : R) : Prop :=
  a = Ok (frame_data f, meta_of (frame_meta f)) /\ rd_ok r' /\ rd_bytes r' = rest.

Lemma abridged_reads (r : R) meta h len body rest :
  rd_ok r -> bytes_ok (rd_bytes r) -> frame_header Abridged (rd_bytes r) = Some (meta, h, len) ->
  zdrop h (rd_bytes r) = body ++ rest -> zlen body = len ->
  rio_wp abridged_read_frame r (reads_as Abridged (mkFrame body meta) rest).
Proof.
  intros Hr Hok Hh Hd Hlen. destruct (rd_bytes r) as [|b src] eqn:Hb; [done|].
  pose proof (low_seven_bits b (Forall_inv Hok)) as Hlow. unfold frame_header in Hh.
  unfold abridged_read_frame. apply (rio_wp_read r 1 [b] src); [done|done|done|]. intros r1 Hr1 Hb1.
  cbn [nth]. assert ((if 128 <=? b then (StreamMeta_with_quickack StreamMeta_new, b - 128) else (StreamMeta_new, b)) =
    (meta_of (if 128 <=? b then with_quickack FrameMeta_new else FrameMeta_new), Z.land b 0x7f)) as ->
    by (rewrite <-Hlow; by destruct (128 <=? b)).
  destruct (Z.land b 127 =? 127).
  - destruct (Z.ltb_spec (zlen (b :: src)) 4) as [|Hl4]; [done|]. injection Hh as <- <- <-.
    assert (slice (b :: src) 1 4 = ztake 3 src) as Hsl by done. rewrite Hsl in *.
    change (zdrop 4 (b :: src)) with (zdrop 3 src) in Hd. rewrite zlen_cons in Hl4.
    apply rio_wp_bind, (rio_wp_read r1 3 (ztake 3 src) (zdrop 3 src));
      [done|by rewrite ztake_zdrop|rewrite zlen_ztake; lia|]. intros r2 Hr2 Hb2. apply rio_wp_ret.
    apply (rio_wp_read r2 _ body rest); [done|by rewrite Hb2|done|]. intros r3 Hr3 Hb3. by apply rio_wp_ret.
  - injection Hh as <- <- <-. change (zdrop 1 (b :: src)) with src in Hd. apply rio_wp_bind, rio_wp_ret.
    apply (rio_wp_read r1 _ body rest); [done|by rewrite Hb1|done|]. intros r3 Hr3 Hb3. by apply rio_wp_ret.
Qed.

(** The length word is read as the decoder reads it, except for the word 0x80000000. *)
Lemma read_len_flag_eq src :
  le_val (ztake 4 src) <> 0x80000000 ->
  read_len_flag (ztake 4 src) = (meta_of (fst (read_len_word src)), snd (read_len_word src)).
Proof.
  intros Hne. unfold read_len_flag, read_len_word.
  destruct (Z.ltb_spec 0x80000000 (le_val (ztake 4 src))), (Z.leb_spec 0x80000000 (le_val (ztake 4 src)));
    try lia; done.
Qed.

Lemma intermediate_reads (r : R) meta len body rest :
  rd_ok r -> frame_header Intermediate (rd_bytes r) = Some (meta, 4, len) ->
  le_val (ztake 4 (rd_bytes r)) <> 0x80000000 ->
  zdrop 4 (rd_bytes r) = body ++ rest -> zlen body = len ->
  rio_wp intermediate_read_frame r (reads_as Intermediate (mkFrame body meta) rest).
Proof.
  intros Hr Hh Hne Hd Hlen. unfold frame_header in Hh.
  destruct (Z.ltb_spec (zlen (rd_bytes r)) 4) as [|Hl4]; [done|]. injection Hh as <- <-.
  unfold intermediate_read_frame.
  apply (rio_wp_read r 4 (ztake 4 (rd_bytes r)) (zdrop 4 (rd_bytes r)));
    [done|by rewrite ztake_zdrop|rewrite zlen_ztake; lia|]. intros r1 Hr1 Hb1. rewrite read_len_flag_eq by done.
  apply (rio_wp_read r1 _ body rest); [done|by rewrite Hb1|done|]. intros r2 Hr2 Hb2. by apply rio_wp_ret.
Qed.

Lemma secure_reads (r : R) meta len body rest n :
  rd_ok r -> frame_header Secure (rd_bytes r) = Some (meta, 4, len) ->
  le_val (ztake 4 (rd_bytes r)) <> 0x80000000 ->
  zdrop 4 (rd_bytes r) = body ++ rest -> zlen body = len -> secure_payload_len_from_wire_len len = Some n ->
  rio_wp secure_read_frame r
    (reads_as Secure (mkFrame (ztake n body) (with_padding meta (u8 (zlen body - n)))) rest).
Proof.
  intros Hr Hh Hne Hd Hlen Hn. unfold frame_header in Hh.
  destruct (Z.ltb_spec (zlen (rd_bytes r)) 4) as [|Hl4]; [done|]. injection Hh as <- <-.
  unfold secure_read_frame.
  apply (rio_wp_read r 4 (ztake 4 (rd_bytes r)) (zdrop 4 (rd_bytes r)));
    [done|by rewrite ztake_zdrop|rewrite zlen_ztake; lia|]. intros r1 Hr1 Hb1. rewrite read_len_flag_eq by done.
  apply (rio_wp_read r1 _ body rest); [done|by rewrite Hb1|done|]. intros r2 Hr2 Hb2. rewrite Hn. by apply rio_wp_ret.
Qed.

(** An intermediate frame whose length word is the bare QuickACK bit is empty. *)
Lemma quickack_word_empty src meta h len :
  frame_header Intermediate src = Some (meta, h, len) -> le_val (ztake 4 src) = 0x80000000 ->
  len = 0 /\ quickack meta = true.
Proof.
  unfold frame_header, read_len_word. destruct (zlen src <? 4); [done|]. intros [= <- <- <-] ->. done.
Qed.

Lemma read_frame_reads tag max (r : R) f rest :
  rd_ok r -> bytes_ok (rd_bytes r) -> decode_tag tag max (rd_bytes r) = (Ok (Some f), rest) ->
  (tag = Intermediate -> frame_data f = [] -> quickack (frame_meta f) = false) ->
  rio_wp (read_frame tag) r (reads_as tag f rest).
Proof.
  intros Hr Hok Hdec Hq. rewrite decode_tag_spec in Hdec by done. unfold decode_spec in Hdec.
  destruct (frame_header tag (rd_bytes r)) as [[[meta h] len]|] eqn:Eh; [|done].
  destruct (frame_header_len _ _ _ _ _ Hok Eh) as [Hh Hlen].
  destruct (_ && _); [done|]. destruct (_ <? _); [done|].
  destruct (Z.ltb_spec (zlen (rd_bytes r)) (h + len)) as [|Hfit]; [done|].
  destruct (slice_split (rd_bytes r) h len) as (Hsplit & Hlh & Hlb); [lia..|].
  assert (zdrop h (rd_bytes r) = slice (rd_bytes r) h (h + len) ++ zdrop (h + len) (rd_bytes r)) as Hd
    by (rewrite Hsplit at 1; by rewrite zdrop_app).
  set (body := slice (rd_bytes r) h (h + len)) in *.
  destruct tag; cbn [frame_body] in Hdec.
  - injection Hdec as <- <-. by eapply abridged_reads.
  - injection Hdec as <- <-.
    assert (h = 4) as -> by (unfold frame_header in Eh; destruct (_ <? 4); congruence).
    eapply intermediate_reads; try done. intros Hw. destruct (quickack_word_empty _ _ _ _ Eh Hw) as [-> Hq'].
    specialize (Hq eq_refl (zlen_zero_nil _ Hlb)). cbn in Hq. congruence.
  - assert (h = 4) as -> by (unfold frame_header in Eh; destruct (_ <? 4); congruence).
    rewrite Hlb in Hdec. destruct (secure_payload_len_from_wire_len len) as [n|] eqn:En; [|done].
    injection Hdec as <- <-. assert (len = zlen body) as Hlb' by done. rewrite Hlb' at 1.
    eapply (secure_reads r meta len); try done.
    intros Hw. destruct (quickack_word_empty (rd_bytes r) meta 4 len Eh Hw) as [-> _]. done.
Qed.

(** Reading a frame from a stream and decoding it from a buffer agree.  When the codec finds a
    frame at the front of the bytes still to come, the stream reader, however the bytes arrive,
    returns the same data and QuickACK flag and leaves the same rest; the one exception is the
    empty intermediate frame with QuickACK, whose length word is 0x80000000. *)
Theorem frame_reader_matches_codec tag max (r : R) f rest :
  rd_ok r -> bytes_ok (rd_bytes r) -> decode_tag tag max (rd_bytes r) = (Ok (Some f), rest) ->
  (tag = Intermediate -> frame_data f = [] -> quickack (frame_meta f) = false) ->
  exists r', read_frame tag r = Some (Ok (frame_data f, meta_of (frame_meta f)), r') /\
    rd_ok r' /\ rd_bytes r' = rest.
Proof.
  intros Hr Hok Hd Hq. destruct (read_frame_reads tag max r f rest Hr Hok Hd Hq) as (a & r' & E & -> & ? & ?).
  by exists r'.
Qed.

End ReaderFacts.

(** ** Writing agrees with encoding *)

Section WriterFacts.
Context {G : Type} `{RngOk G}.

Lemma write_frame_encodes tag max (rng : G) sink data meta :
  exists r dst rng' r',
    FrameCodec_encode (mkFrameCodec tag max rng) (mkFrame data (mkFrameMeta false (sm_simple_ack meta) 0)) sink =
      (r, dst, mkFrameCodec tag max rng') /\
    write_frame tag rng sink data meta = (r', dst, rng') /\ is_ok r' = is_ok r.
Proof.
  unfold FrameCodec_encode, write_frame. cbn [fc_proto_tag fc_rng fc_max_frame_size]. destruct tag.
  - unfold encode_abridged, abridged_write_frame. cbn [frame_data frame_meta simple_ack quickack].
    rewrite <-(app_assoc sink [_] (ztake 3 _)). cbn [app].
    repeat case_match; simplify_eq; by eexists _, _, _, _.
  - unfold encode_intermediate, intermediate_write_frame. cbn [frame_data frame_meta simple_ack quickack].
    case_match; by eexists _, _, _, _.
  - unfold encode_secure, secure_write_frame. cbn [frame_data frame_meta simple_ack quickack].
    destruct (sm_simple_ack meta); [by eexists _, _, _, _|].
    destruct (negb (is_valid_secure_payload_len (zlen data))); [by eexists _, _, _, _|].
    pose proof (secure_padding_bounds (zlen data) rng) as Hp.
    destruct (secure_padding_len (zlen data) rng) as [pad rng1]. cbn [fst] in Hp.
    destruct (Z.ltb_spec 0 pad); [|lia]. destruct (rng_bytes rng1 pad) as [padding rng2].
    by eexists _, _, _, _.
Qed.

(** A stream writer hands its upstream exactly the bytes the codec would append for the same
    data without a QuickACK request, drawing the same padding from the same generator, and fails
    on exactly the same inputs, without writing anything. *)
Theorem frame_writer_matches_codec tag max (rng : G) sink data meta :
  let f := mkFrame data (mkFrameMeta false (sm_simple_ack meta) 0) in
  let '(r, dst, c) := FrameCodec_encode (mkFrameCodec tag max rng) f sink in
  let '(r', dst', rng') := write_frame tag rng sink data meta in
  dst' = dst /\ rng' = fc_rng c /\ is_ok r' = is_ok r /\ (is_ok r' = false -> dst' = sink).
Proof.
  cbn zeta. destruct (write_frame_encodes tag max rng sink data meta) as (r & dst & rng' & r' & -> & E & Hok).
  rewrite E. split_and!; [done|done|done|]. intros Hf. revert E. unfold write_frame.
  destruct tag; [unfold abridged_write_frame|unfold intermediate_write_frame|unfold secure_write_frame];
    repeat case_match; intros; simplify_eq; done.
Qed.

(** Frames written by a stream writer read back: whatever bytes follow the written frame and
    however they arrive, the stream reader of the same protocol returns the data and leaves the
    bytes that follow. *)
Theorem frame_stream_roundtrip `{AsyncReadOk R} tag (rng : G) sink data :
  encodable tag (2 ^ 31) (Frame_new data) ->
  exists wire rng', write_frame tag rng sink data StreamMeta_new = (Ok tt, sink ++ wire, rng') /\
    forall (r : R) rest, rd_ok r -> rd_bytes r = wire ++ rest -> bytes_ok rest ->
      exists r', read_frame tag r = Some (Ok (data, StreamMeta_new), r') /\ rd_ok r' /\ rd_bytes r' = rest.
Proof.
  intros He. set (c := mkFrameCodec tag (2 ^ 31) rng).
  destruct (FrameCodec_encode_image c (Frame_new data) sink He) as (h & b & c' & pad & E & _ & _ & Hi & _).
  destruct (write_frame_encodes tag (2 ^ 31) rng sink data StreamMeta_new) as (r0 & dst & rng' & r' & E' & Ew & Hok).
  change (mkFrame data (mkFrameMeta false (sm_simple_ack StreamMeta_new) 0)) with (Frame_new data) in E'.
  fold c in E'. rewrite E in E'. injection E' as <- <- _. destruct r' as [[]|]; [|done].
  exists (h ++ b), rng'. split; [done|]. intros r rest Hr Hb Hrest.
  pose proof (wire_image_decode c _ _ _ _ rest Hi Hrest) as Hdec.
  destruct Hi as (meta & _ & _ & _ & _ & Oh & Ob & _).
  assert (decode_tag tag (2 ^ 31) (rd_bytes r) = FrameCodec_decode c ((h ++ b) ++ rest)) as Hd
    by (rewrite Hb; by destruct tag).
  rewrite Hdec in Hd. destruct (read_frame_reads tag (2 ^ 31) r _ rest Hr ltac:(by rewrite Hb, !bytes_ok_app) Hd)
    as (a & r1 & E1 & -> & Hr1 & Hb1); [done|by exists r1].
Qed.

End WriterFacts.

(** The empty intermediate frame with QuickACK, which the codec encodes and decodes, makes a
    stream reader wait for 2^31 bytes: unless the peer sends that much, reading it fails. *)
Theorem empty_quickack_frame_diverges `{AsyncReadOk R} (r : R) max rest :
  rd_ok r -> 0 <= max -> zlen rest < 2 ^ 31 ->
  rd_bytes r = snd (encode_intermediate (Frame_quickack []) []) ++ rest ->
  decode_intermediate (rd_bytes r) max = (Ok (Some (Frame_quickack [])), rest) /\
  exists e r', read_frame Intermediate r = Some (Err e, r').
Proof.
  intros Hr Hmax Hrest Hb. change (snd (encode_intermediate (Frame_quickack []) [])) with [0; 0; 0; 0x80] in Hb.
  pose proof (zlen_nonneg rest). split.
  - rewrite Hb. unfold decode_intermediate. rewrite zlen_app. change (zlen [0; 0; 0; 0x80]) with 4.
    destruct (Z.ltb_spec (4 + zlen rest) 4); [lia|].
    change (read_len_word ([0; 0; 0; 0x80] ++ rest)) with (with_quickack FrameMeta_new, 0). cbn [fst snd].
    destruct (Z.ltb_spec max 0); [lia|]. destruct (Z.ltb_spec (4 + zlen rest) (4 + 0)); [lia|].
    by rewrite (zdrop_app 4 [0; 0; 0; 0x80]), ztake_0, zdrop_0 by done.
  - cbn [read_frame]. assert (rio_wp intermediate_read_frame r (fun a _ => is_ok a = false)) as (a & r' & E & Ha).
    { unfold intermediate_read_frame. apply (rio_wp_read r 4 [0; 0; 0; 0x80] rest); [done|done|done|].
      intros r1 Hr1 Hb1. change (read_len_flag [0; 0; 0; 0x80]) with (StreamMeta_new, 2 ^ 31). cbn beta iota.
      apply rio_wp_read_short; [done|by rewrite Hb1|done]. }
    destruct a as [|e]; [done|]. by exists e, r'.
Qed.

(** ** Full frames read back *)

Section FullFacts.
Context `{DigestsOk}.

Fixpoint mtproto_write_frames (seq_no : Z) (sink : bytes) (msgs : list bytes) : Z * bytes :=
  match msgs with
  | [] => (seq_no, sink)
  | msg :: msgs =>
      let '(seq_no, sink) := mtproto_write_frame seq_no sink msg in mtproto_write_frames seq_no sink msgs
  end.

Fixpoint mtproto_read_frames {R} `{AsyncRead R} (fuel n : nat) : rio (MtprotoFrameReader R) (list bytes) :=
  match n with
  | O => rio_ret []
  | S n =>
      let? msg := mtproto_read_frame fuel in
      let? msgs := mtproto_read_frames fuel n in
      rio_ret (msg :: msgs)
  end.

(** The messages a full frame can carry. *)
Definition full_msg (msg : bytes) : Prop := zlen msg mod 4 = 0 /\ zlen msg + 12 <= MAX_MSG_LEN.

#[global] Instance full_msg_dec msg : Decision (full_msg msg).
Proof. unfold full_msg. apply _. Defined.

Definition full_image (seq_no : Z) (msg : bytes) : bytes :=
  let head := le_bytes 4 (zlen msg + 12) ++ le_bytes 4 seq_no ++ msg in head ++ le_bytes 4 (crc32 head).

Lemma mtproto_write_image seq_no sink msg :
  full_msg msg -> exists k, (k <= 3)%nat /\
    mtproto_write_frame seq_no sink msg = (i32 (seq_no + 1), sink ++ full_image seq_no msg ++ fillers k) /\
    zlen (full_image seq_no msg ++ fillers k) mod 16 = 0.
Proof.
  intros [Hm Hl]. unfold mtproto_write_frame. pose proof (zlen_nonneg msg).
  assert (u32 (zlen msg + 12) = zlen msg + 12) as -> by (change MAX_MSG_LEN with 16777216 in Hl; unfold u32; rewrite Z.mod_small; lia).
  rewrite !zlen_le_bytes. change (Z.of_nat 4) with 4. change (zlen PADDING_FILLER) with 4.
  set (total := 4 + 4 + zlen msg + 4). set (k := (CBC_PADDING - total mod CBC_PADDING) mod CBC_PADDING / 4).
  assert (0 <= k <= 3 /\ (total + 4 * k) mod 16 = 0) as [Hk Hal].
  { unfold k, CBC_PADDING. pose proof (Z.mod_pos_bound total 16 ltac:(lia)).
    pose proof (Z.mod_pos_bound (16 - total mod 16) 16 ltac:(lia)).
    assert (total mod 4 = 0) by (unfold total; rewrite <-Hm; Z.div_mod_to_equations; lia).
    Z.div_mod_to_equations. lia. }
  exists (Z.to_nat k). split_and!; [lia| |].
  - unfold full_image, fillers, zrepeat. by rewrite <-!app_assoc.
  - rewrite <-Hal. f_equal. unfold full_image. rewrite !zlen_app, !zlen_le_bytes. unfold total.
    rewrite zlen_fillers. lia.
Qed.

Lemma mtproto_write_frames_app seq_no sink msgs :
  exists seq' wire, mtproto_write_frames seq_no sink msgs = (seq', sink ++ wire).
Proof.
  revert seq_no sink. induction msgs as [|msg msgs IH]; intros seq_no sink; cbn [mtproto_write_frames].
  { exists seq_no, []. by rewrite app_nil_r. }
  assert (exists s1 w1, mtproto_write_frame seq_no sink msg = (s1, sink ++ w1)) as (s1 & w1 & ->)
    by (eexists _, _; unfold mtproto_write_frame; by rewrite <-!app_assoc).
  destruct (IH s1 (sink ++ w1)) as (s' & w & ->). exists s', (w1 ++ w). by rewrite app_assoc.
Qed.

Context {R : Type} `{AsyncReadOk R}.

Lemma rio_wp_mr_read {A} (m : MtprotoFrameReader R) n pre rest (k : bytes -> rio (MtprotoFrameReader R) A) Q :
  rd_ok (mr_upstream m) -> rd_bytes (mr_upstream m) = pre ++ rest -> zlen pre = n ->
  (forall r', rd_ok r' -> rd_bytes r' = rest -> rio_wp (k pre) (mkMtReader r' (mr_seq_no m)) Q) ->
  rio_wp (rio_bind (mr_read n) k) m Q.
Proof.
  intros Hr Hb Hn Hk. pose proof (zlen_nonneg pre). pose proof (zlen_nonneg rest).
  destruct (read_exact_spec (mr_upstream m) n Hr) as (r' & E & Hr' & Hb'); [rewrite Hb, zlen_app; lia|].
  apply rio_wp_bind. exists (Ok pre), (mkMtReader r' (mr_seq_no m)).
  split; [unfold mr_read; by rewrite E, Hb, ztake_app|]. apply Hk; [done|]. by rewrite Hb', Hb, zdrop_app.
Qed.

Lemma mr_read_inv (m : MtprotoFrameReader R) n A (k : bytes -> rio (MtprotoFrameReader R) A) a m' :
  rd_ok (mr_upstream m) -> 0 <= n -> rio_bind (mr_read n) k m = Some (Ok a, m') ->
  exists bs r', rd_ok r' /\ rd_bytes (mr_upstream m) = bs ++ rd_bytes r' /\ zlen bs = n /\
    k bs (mkMtReader r' (mr_seq_no m)) = Some (Ok a, m').
Proof.
  intros Hr Hn. unfold rio_bind, mr_read.
  destruct (read_exact (mr_upstream m) n) as [[[bs|e] r']|] eqn:E; [|done|done]. intros Hk.
  destruct (read_exact_inv _ _ _ _ Hr Hn E) as (? & ? & ?). by exists bs, r'.
Qed.

Lemma mtproto_read_image fuel j msg rest (m : MtprotoFrameReader R) :
  rd_ok (mr_upstream m) -> in_i32 (mr_seq_no m) -> full_msg msg -> (j < fuel)%nat ->
  rd_bytes (mr_upstream m) = fillers j ++ full_image (mr_seq_no m) msg ++ rest ->
  rio_wp (mtproto_read_frame fuel) m (fun a m' => a = Ok msg /\ rd_ok (mr_upstream m') /\
    rd_bytes (mr_upstream m') = rest /\ mr_seq_no m' = i32 (mr_seq_no m + 1)).
Proof.
  intros Hr Hseq Hm. revert m Hr Hseq j. induction fuel as [|fuel IH]; intros m Hr Hseq j Hf Hb; [lia|].
  cbn [mtproto_read_frame]. destruct j as [|j].
  - cbn [fillers replicate concat app] in Hb. unfold full_image in Hb. rewrite <-!app_assoc in Hb.
    destruct Hm as [Hal Hle]. change MAX_MSG_LEN with 16777216 in Hle. pose proof (zlen_nonneg msg).
    eapply rio_wp_mr_read; [exact Hr|exact Hb|done|]. intros r1 Hr1 Hb1.
    rewrite le_val_le_bytes_small by (cbn; lia). destruct (Z.eqb_spec (zlen msg + 12) 4); [lia|].
    assert ((MIN_MSG_LEN <=? zlen msg + 12) && (zlen msg + 12 <=? MAX_MSG_LEN) = true) as ->
      by (apply andb_true_intro; split; apply Z.leb_le; change MAX_MSG_LEN with 16777216; unfold MIN_MSG_LEN; lia).
    assert (is_multiple_of (zlen msg + 12) (zlen PADDING_FILLER) = true) as ->.
    { apply is_multiple_of_true; [done|]. change (zlen PADDING_FILLER) with 4. Z.div_mod_to_equations. lia. }
    cbn [negb orb]. eapply rio_wp_mr_read; [exact Hr1|exact Hb1|done|]. intros r2 Hr2 Hb2.
    cbn [mr_seq_no]. rewrite i32_le_bytes by done. apply rio_wp_bind. eexists _, _. split; [done|].
    cbn [mr_seq_no]. rewrite Z.eqb_refl. cbn [negb]. apply rio_wp_bind. eexists _, _. split; [done|].
    cbn [mr_upstream]. eapply rio_wp_mr_read; [exact Hr2|exact Hb2|lia|]. intros r3 Hr3 Hb3.
    eapply rio_wp_mr_read; [exact Hr3|exact Hb3|done|]. intros r4 Hr4 Hb4.
    rewrite le_val_le_bytes_small by apply crc32_range. rewrite Z.eqb_refl. cbn [negb]. by apply rio_wp_ret.
  - cbn [fillers replicate concat] in Hb. rewrite <-app_assoc in Hb.
    eapply rio_wp_mr_read; [exact Hr|exact Hb|done|]. intros r1 Hr1 Hb1.
    change (le_val PADDING_FILLER =? 4) with true. cbn iota.
    apply (IH (mkMtReader r1 (mr_seq_no m)) Hr1 Hseq j); [lia|done].
Qed.

Lemma mtproto_read_images msgs seq_no : forall fuel j sink seq' wire rest (m : MtprotoFrameReader R),
  rd_ok (mr_upstream m) -> in_i32 seq_no -> mr_seq_no m = seq_no -> Forall full_msg msgs ->
  (j <= 3)%nat -> (3 < fuel)%nat ->
  mtproto_write_frames seq_no sink msgs = (seq', sink ++ wire) ->
  rd_bytes (mr_upstream m) = fillers j ++ wire ++ rest ->
  rio_wp (mtproto_read_frames fuel (length msgs)) m (fun a m' => a = Ok msgs /\ mr_seq_no m' = seq' /\
    rd_ok (mr_upstream m') /\ exists j', (j' <= 3)%nat /\ rd_bytes (mr_upstream m') = fillers j' ++ rest).
Proof.
  revert seq_no. induction msgs as [|msg msgs IH]; intros seq_no fuel j sink seq' wire rest m Hr Hseq Hm Hmsgs Hj Hf Hw Hb.
  - cbn in Hw. injection Hw as <- Hw. rewrite <-(app_nil_r sink) in Hw at 1. apply app_inv_head in Hw. subst wire.
    apply rio_wp_ret. split_and!; [done|done|done|]. by exists j.
  - cbn [mtproto_write_frames length mtproto_read_frames] in *. apply Forall_cons in Hmsgs as [Hmsg Hmsgs].
    destruct (mtproto_write_image seq_no sink msg Hmsg) as (k & Hk & E & _). rewrite E in Hw.
    assert (exists w, wire = (full_image seq_no msg ++ fillers k) ++ w) as [w ->].
    { destruct (mtproto_write_frames_app (i32 (seq_no + 1)) (sink ++ full_image seq_no msg ++ fillers k) msgs)
        as (s' & w & E'). rewrite E' in Hw. injection Hw as _ Hw. rewrite <-(app_assoc sink) in Hw.
      apply app_inv_head in Hw. by exists w. }
    rewrite (app_assoc sink _ w) in Hw. rewrite <-!app_assoc in Hb. subst seq_no. apply rio_wp_bind.
    destruct (mtproto_read_image fuel j msg (fillers k ++ w ++ rest) m Hr Hseq Hmsg ltac:(lia) Hb)
      as (a & m1 & E1 & -> & Hr1 & Hb1 & Hs1).
    exists (Ok msg), m1. split; [done|]. apply rio_wp_bind.
    destruct (IH (i32 (mr_seq_no m + 1)) fuel k _ seq' w rest m1 Hr1 (i32_in_range _) Hs1 Hmsgs Hk Hf Hw Hb1)
      as (a & m2 & E2 & -> & Hrest).
    exists (Ok msgs), m2. split; [done|]. by apply rio_wp_ret.
Qed.

(** Full frames read back.  Messages written with consecutive sequence numbers from
    [seq_no] (wrapping at 32 bits) fill whole CBC blocks, and a reader that starts at the same
    number returns exactly those messages, in order, skipping the padding between them. *)
Theorem mtproto_frames_roundtrip seq_no msgs seq' wire rest (r : R) fuel :
  in_i32 seq_no -> Forall full_msg msgs -> mtproto_write_frames seq_no [] msgs = (seq', wire) ->
  rd_ok r -> rd_bytes r = wire ++ rest -> (3 < fuel)%nat ->
  exists m', mtproto_read_frames fuel (length msgs) (mkMtReader r seq_no) = Some (Ok msgs, m') /\
    mr_seq_no m' = seq' /\ rd_ok (mr_upstream m') /\
    exists j, (j <= 3)%nat /\ rd_bytes (mr_upstream m') = fillers j ++ rest.
Proof.
  intros Hseq Hmsgs Hw Hr Hb Hf.
  destruct (mtproto_read_images msgs seq_no fuel 0 [] seq' wire rest (mkMtReader r seq_no))
    as (a & m' & E & -> & Hrest); try done; [lia|]. by exists m'.
Qed.

(** A full-frame reader accepts only what the writer would have sent: when it returns a
    message, the bytes it consumed are padding words followed by the exact image of that message
    under the expected sequence number, CRC included, and the sequence number has advanced. *)
Theorem mtproto_read_sound fuel (m m' : MtprotoFrameReader R) msg :
  rd_ok (mr_upstream m) -> bytes_ok (rd_bytes (mr_upstream m)) ->
  mtproto_read_frame fuel m = Some (Ok msg, m') ->
  exists j, rd_bytes (mr_upstream m) = fillers j ++ full_image (mr_seq_no m) msg ++ rd_bytes (mr_upstream m') /\
    full_msg msg /\ mr_seq_no m' = i32 (mr_seq_no m + 1) /\ rd_ok (mr_upstream m').
Proof.
  revert m. induction fuel as [|fuel IH]; intros m Hr Hok; [done|]. cbn [mtproto_read_frame]. intros E.
  apply mr_read_inv in E as (len_bytes & r1 & Hr1 & Hb1 & Hl1 & E); [|done|lia].
  rewrite Hb1 in Hok. apply bytes_ok_app in Hok as [Hok1 Hok].
  pose proof (le_bytes_le_val len_bytes Hok1) as Hlb. apply (zlen_length _ 4) in Hl1. rewrite Hl1 in Hlb.
  destruct (Z.eqb_spec (le_val len_bytes) 4) as [H4|H4].
  { apply IH in E as (j & Hj & Hrest); [|done|done]. exists (S j). split; [|done]. rewrite Hb1, <-Hlb, H4.
    cbn [mr_upstream] in Hj. by rewrite Hj. }
  destruct (negb _ || negb _) eqn:Evalid; [done|].
  apply orb_false_elim in Evalid as [Erange Emult]. apply negb_false_iff in Erange, Emult.
  apply andb_prop in Erange as [Hmin%Z.leb_le Hmax%Z.leb_le].
  apply is_multiple_of_true in Emult; [|done]. change (zlen PADDING_FILLER) with 4 in Emult. unfold MIN_MSG_LEN in Hmin.
  apply mr_read_inv in E as (seq_bytes & r2 & Hr2 & Hb2 & Hl2 & E); [|done|lia]. cbn [mr_upstream mr_seq_no] in Hb2, E.
  rewrite Hb2 in Hok. apply bytes_ok_app in Hok as [Hok2 Hok]. unfold rio_bind at 1 in E. cbn [mr_get_seq mr_seq_no] in E.
  destruct (Z.eqb_spec (i32 (le_val seq_bytes)) (mr_seq_no m)) as [Hseq|]; [|done]. cbn [negb] in E.
  unfold rio_bind at 1 in E. cbn [mr_set_seq mr_upstream] in E.
  apply mr_read_inv in E as (data & r3 & Hr3 & Hb3 & Hl3 & E); [|done|lia]. cbn [mr_upstream mr_seq_no] in Hb3, E.
  rewrite Hb3 in Hok. apply bytes_ok_app in Hok as [_ Hok].
  apply mr_read_inv in E as (crc_bytes & r4 & Hr4 & Hb4 & Hl4 & E); [|done|lia]. cbn [mr_upstream mr_seq_no] in Hb4, E.
  rewrite Hb4 in Hok. apply bytes_ok_app in Hok as [Hok4 _].
  destruct (Z.eqb_spec (crc32 (len_bytes ++ seq_bytes ++ data)) (le_val crc_bytes)) as [Hcrc|]; [|done].
  injection E as <- <-. exists O. cbn [fillers replicate concat app mr_upstream mr_seq_no].
  apply (zlen_length _ 4) in Hl2, Hl4. pose proof (le_bytes_le_val _ Hok2) as Hsb. pose proof (le_bytes_le_val _ Hok4) as Hcb.
  rewrite Hl2 in Hsb. rewrite Hl4 in Hcb.
  assert (le_bytes 4 (mr_seq_no m) = seq_bytes) as Hsq by (rewrite <-Hseq, le_bytes_i32; done).
  assert (le_bytes 4 (zlen data + 12) = len_bytes) as Hlen by (rewrite <-Hlb; f_equal; lia).
  split_and!; [|split; [Z.div_mod_to_equations; lia|lia]|done|done].
  unfold full_image. rewrite Hsq, Hlen, Hcrc, Hcb, Hb1, Hb2, Hb3, Hb4. by rewrite <-!app_assoc.
Qed.

End FullFacts.

(** ** Instances *)

Section StreamWitnesses.
Import DemoRng Crypto.Demo.

Definition demo_stream : list read_event := [RdData [2; 0]; RdPending; RdData [0; 0; 65]; RdData [66; 7]].

Definition demo_msgs : list bytes := [[1; 2; 3; 4]; [5; 6; 7; 8; 9; 10; 11; 12]].

End StreamWitnesses.
