(* ===== verification/BufferPool.v ===== *)
(** * The buffer pool: [stream/buffer_pool.rs]

    A bounded queue of empty buffers that connections share, and three counters.  [get] and [return_buffer] are not one
    atomic step: the queue and each counter are accessed on their own, so the operations are tasks whose steps interleave. *)

From S2P Require Import Prelude.

(** ** Buffers *)

(** [bytes::BytesMut]: its contents and its capacity. *)
Record BytesMut := mkBytesMut { bm_data : bytes; bm_capacity : Z }.

Definition with_capacity (n : Z) : BytesMut := mkBytesMut [] n.
Definition bm_clear (b : BytesMut) : BytesMut := mkBytesMut [] (bm_capacity b).

(** ** The pool (buffer_pool.rs:16-57) *)

Definition DEFAULT_BUFFER_SIZE : Z := 16 * 1024.
Definition DEFAULT_MAX_BUFFERS : Z := 1024.

(** [buffers] is an [ArrayQueue] of [max_buffers] places, the next one to be popped first. *)
Record BufferPool := mkBufferPool {
  buffers : list BytesMut;
  buffer_size : Z;
  max_buffers : Z;
  allocated : Z;
  misses : Z;
  hits : Z
}.

(** [ArrayQueue::new] panics for no places: [None]. *)
Definition with_config (buffer_size max_buffers : Z) : option BufferPool :=
  if max_buffers =? 0 then None else Some (mkBufferPool [] buffer_size max_buffers 0 0 0).
Definition BufferPool_new : option BufferPool := with_config DEFAULT_BUFFER_SIZE DEFAULT_MAX_BUFFERS.

(** *** The atomic accesses *)

Definition queue_pop (p : BufferPool) : option BytesMut * BufferPool :=
  match buffers p with
  | [] => (None, p)
  | b :: bs => (Some b, mkBufferPool bs (buffer_size p) (max_buffers p) (allocated p) (misses p) (hits p))
  end.
Definition queue_push (p : BufferPool) (b : BytesMut) : bool * BufferPool :=
  if zlen (buffers p) <? max_buffers p then
    (true, mkBufferPool (buffers p ++ [b]) (buffer_size p) (max_buffers p) (allocated p) (misses p) (hits p))
  else (false, p).
Definition count_hit (p : BufferPool) : BufferPool :=
  mkBufferPool (buffers p) (buffer_size p) (max_buffers p) (allocated p) (misses p) (u64 (hits p + 1)).
Definition count_miss (p : BufferPool) : BufferPool :=
  mkBufferPool (buffers p) (buffer_size p) (max_buffers p) (allocated p) (u64 (misses p + 1)) (hits p).
Definition count_allocated (p : BufferPool) : BufferPool :=
  mkBufferPool (buffers p) (buffer_size p) (max_buffers p) (u64 (allocated p + 1)) (misses p) (hits p).

(** ** The operations (buffer_pool.rs:59-131) *)

(** [PooledBuffer]: [None] once the buffer was taken. *)
Definition PooledBuffer : Type := option BytesMut.

Definition get (p : BufferPool) : PooledBuffer * BufferPool :=
  match queue_pop p with
  | (Some buffer, p) => (Some (bm_clear buffer), count_hit p)
  | (None, p) => (Some (with_capacity (buffer_size p)), count_allocated (count_miss p))
  end.

Definition try_get (p : BufferPool) : option PooledBuffer * BufferPool :=
  match queue_pop p with
  | (Some buffer, p) => (Some (Some (bm_clear buffer)), count_hit p)
  | (None, p) => (None, p)
  end.

Definition return_buffer (p : BufferPool) (buffer : BytesMut) : BufferPool :=
  let buffer := bm_clear buffer in
  if buffer_size p <=? bm_capacity buffer then (queue_push p buffer).2 else p.

Record PoolStats := mkPoolStats {
  ps_pooled : Z; ps_allocated : Z; ps_max_buffers : Z; ps_buffer_size : Z; ps_hits : Z; ps_misses : Z
}.
Definition BufferPool_stats (p : BufferPool) : PoolStats :=
  mkPoolStats (zlen (buffers p)) (allocated p) (max_buffers p) (buffer_size p) (hits p) (misses p).

Fixpoint preallocate_loop (to_alloc : nat) (p : BufferPool) : BufferPool :=
  match to_alloc with
  | O => p
  | S to_alloc =>
      match queue_push p (with_capacity (buffer_size p)) with
      | (false, p) => p
      | (true, p) => preallocate_loop to_alloc (count_allocated p)
      end
  end.
Definition preallocate (p : BufferPool) (count : Z) : BufferPool := preallocate_loop (Z.to_nat (Z.min count (max_buffers p))) p.

(** *** [PooledBuffer] and [ScopedBuffer] (buffer_pool.rs:174-281) *)

Definition take_buffer (b : PooledBuffer) : option BytesMut := b.
Definition pooled_capacity (b : PooledBuffer) : Z := from_option bm_capacity 0 b.
Definition pooled_is_empty (b : PooledBuffer) : bool := from_option (fun b => bool_decide (bm_data b = [])) true b.
Definition pooled_len (b : PooledBuffer) : Z := from_option (fun b => zlen (bm_data b)) 0 b.
Definition pooled_clear (b : PooledBuffer) : PooledBuffer := bm_clear <$> b.
Definition drop_buffer (p : BufferPool) (b : PooledBuffer) : BufferPool := from_option (return_buffer p) p b.
Definition ScopedBuffer_new (b : PooledBuffer) : PooledBuffer := pooled_clear b.
Definition drop_scoped (b : PooledBuffer) : PooledBuffer := pooled_clear b.

(** ** Tasks that share the pool *)

(** Where a user of the pool stands between its accesses: in [get] or [try_get] ([Popped], [Empty], [Missed]), in
    [preallocate] with so many buffers to go ([Filling], [Pushed]), or with a buffer of its own. *)
Inductive BpTask :=
| BtPopped (b : BytesMut)
| BtEmpty
| BtMissed
| BtHolds (b : BytesMut)
| BtFilling (n : nat)
| BtPushed (n : nat).

(** What may happen next.  A holder may leave anything in its buffer and may make it grow or shrink. *)
Inductive BpAct :=
| AGet (id : nat)
| ATryGet (id : nat)
| AStep (id : nat)
| AWrite (id : nat) (b : BytesMut)
| ATake (id : nat)
| ADrop (id : nat)
| APreallocate (id : nat) (count : Z).

Record BpWorld := mkBpWorld { bw_pool : BufferPool; bw_tasks : gmap nat BpTask; bw_gone : Z }.

(** One access.  [bw_gone] counts the buffers that left the pool for good; the code does not. *)
Definition bp_step (p : BufferPool) (t : BpTask) : BufferPool * option BpTask :=
  match t with
  | BtPopped b => (count_hit p, Some (BtHolds (bm_clear b)))
  | BtEmpty => (count_miss p, Some BtMissed)
  | BtMissed => (count_allocated p, Some (BtHolds (with_capacity (buffer_size p))))
  | BtHolds b => (p, Some (BtHolds b))
  | BtFilling O => (p, None)
  | BtFilling (S n) =>
      match queue_push p (with_capacity (buffer_size p)) with
      | (true, p) => (p, Some (BtPushed n))
      | (false, p) => (p, None)
      end
  | BtPushed n => (count_allocated p, Some (BtFilling n))
  end.

Definition set_task (w : BpWorld) (p : BufferPool) (id : nat) (t : option BpTask) (gone : Z) : BpWorld :=
  mkBpWorld p (partial_alter (fun _ => t) id (bw_tasks w)) (bw_gone w + gone).

Definition bp_act (w : BpWorld) (a : BpAct) : BpWorld :=
  let p := bw_pool w in
  match a with
  | AGet id =>
      match bw_tasks w !! id with
      | None =>
          match queue_pop p with
          | (Some b, p) => set_task w p id (Some (BtPopped b)) 0
          | (None, p) => set_task w p id (Some BtEmpty) 0
          end
      | Some _ => w
      end
  | ATryGet id =>
      match bw_tasks w !! id with
      | None =>
          match queue_pop p with
          | (Some b, p) => set_task w p id (Some (BtPopped b)) 0
          | (None, p) => w
          end
      | Some _ => w
      end
  | AStep id =>
      match bw_tasks w !! id with
      | Some t => let '(p, t) := bp_step p t in set_task w p id t 0
      | None => w
      end
  | AWrite id b => match bw_tasks w !! id with Some (BtHolds _) => set_task w p id (Some (BtHolds b)) 0 | _ => w end
  | ATake id => match bw_tasks w !! id with Some (BtHolds _) => set_task w p id None 1 | _ => w end
  | ADrop id =>
      match bw_tasks w !! id with
      | Some (BtHolds b) =>
          let p' := return_buffer p b in
          set_task w p' id None (1 - (zlen (buffers p') - zlen (buffers p)))
      | _ => w
      end
  | APreallocate id count =>
      match bw_tasks w !! id with
      | None => set_task w p id (Some (BtFilling (Z.to_nat (Z.min count (max_buffers p))))) 0
      | Some _ => w
      end
  end.

Definition bp_run : BpWorld -> list BpAct -> BpWorld := foldl bp_act.
Definition bp_start (p : BufferPool) : BpWorld := mkBpWorld p ∅ 0.

(** ** Sums over the tasks *)

Definition task_sum (f : BpTask -> Z) (m : gmap nat BpTask) : Z := map_fold (fun _ t acc => f t + acc) 0 m.

Lemma task_sum_insert f m id t : m !! id = None -> task_sum f (<[id := t]> m) = f t + task_sum f m.
Proof. intros Hm. unfold task_sum. rewrite map_fold_insert_L; [done| |done]. intros. lia. Qed.

Lemma task_sum_delete f m id t : m !! id = Some t -> task_sum f m = f t + task_sum f (delete id m).
Proof. intros Hm. by rewrite <-(insert_delete_id m id t Hm) at 1; rewrite task_sum_insert by apply lookup_delete_eq. Qed.

Lemma task_sum_set f m id t :
  task_sum f (partial_alter (fun _ => t) id m) = task_sum f m - from_option f 0 (m !! id) + from_option f 0 t.
Proof.
  assert (task_sum f (delete id m) = task_sum f m - from_option f 0 (m !! id)) as E.
  { destruct (m !! id) as [x|] eqn:E; cbn [from_option]; [rewrite (task_sum_delete _ _ _ _ E); lia|]. rewrite delete_id by done. lia. }
  destruct t as [t|]; cbn [from_option]; [|by rewrite <-E, Z.add_0_r].
  change (partial_alter _ id m) with (<[id := t]> m). rewrite <-insert_delete_eq, task_sum_insert by apply lookup_delete_eq. lia.
Qed.

(** ** The invariant *)

Definition clean (size : Z) (b : BytesMut) : Prop := bm_data b = [] /\ size <= bm_capacity b.

Definition task_clean (size : Z) (t : BpTask) : Prop := match t with BtPopped b => clean size b | _ => True end.

(** What a task adds to the buffers there are, over what has been counted, and to the gets that will be counted. *)
Definition uncounted (t : BpTask) : Z := match t with BtPopped _ | BtHolds _ => 1 | BtPushed _ => -1 | _ => 0 end.
Definition getting (t : BpTask) : Z := match t with BtPopped _ | BtEmpty => 1 | _ => 0 end.

(** Equal as 64-bit numbers. *)
Definition same64 (a b : Z) : Prop := exists k, a = b + k * 2 ^ 64.

Lemma same64_u64 x : same64 (u64 x) x /\ 0 <= u64 x < 2 ^ 64.
Proof. unfold same64, u64. split; [exists (- (x / 2 ^ 64)); pose proof (Z.div_mod x (2 ^ 64) ltac:(lia)); lia|apply Z.mod_pos_bound; lia]. Qed.

Lemma same64_eq a b : same64 a b -> 0 <= a < 2 ^ 64 -> a = u64 b.
Proof. intros [k ->] Hr. unfold u64. apply (Z.mod_unique_pos _ _ (- k)); lia. Qed.

Record bp_inv (size max started : Z) (w : BpWorld) : Prop := mkBpInv {
  bi_size : buffer_size (bw_pool w) = size;
  bi_max : max_buffers (bw_pool w) = max;
  bi_bound : zlen (buffers (bw_pool w)) <= max;
  bi_clean : Forall (clean size) (buffers (bw_pool w));
  bi_tasks : map_Forall (fun _ => task_clean size) (bw_tasks w);
  bi_range : 0 <= allocated (bw_pool w) < 2 ^ 64;
  bi_allocated : same64 (allocated (bw_pool w)) (zlen (buffers (bw_pool w)) + task_sum uncounted (bw_tasks w) + bw_gone w);
  bi_gets : same64 (hits (bw_pool w) + misses (bw_pool w) + task_sum getting (bw_tasks w)) started
}.

(** Whether the action begins a [get] or a [try_get] that will give a buffer. *)
Definition bp_started (w : BpWorld) (a : BpAct) : Z :=
  match a with
  | AGet id => match bw_tasks w !! id with None => 1 | Some _ => 0 end
  | ATryGet id => match bw_tasks w !! id with None => if decide (buffers (bw_pool w) = []) then 0 else 1 | Some _ => 0 end
  | _ => 0
  end.

Fixpoint bp_starts (w : BpWorld) (acts : list BpAct) : Z :=
  match acts with [] => 0 | a :: acts => bp_started w a + bp_starts (bp_act w a) acts end.

Lemma set_task_clean size (m : gmap nat BpTask) id t :
  map_Forall (fun _ => task_clean size) m -> from_option (task_clean size) True t ->
  map_Forall (fun _ => task_clean size) (partial_alter (fun _ => t) id m).
Proof.
  intros Hm Ht i x. destruct (decide (i = id)) as [->|Hne]; [|rewrite lookup_partial_alter_ne by done; by apply Hm].
  rewrite lookup_partial_alter_eq. by intros ->.
Qed.

(** A step that changes the pool and one task preserves the invariant when the numbers fit. *)
Lemma set_task_inv size max started w p id t gone n :
  bp_inv size max started w ->
  buffer_size p = size -> max_buffers p = max -> zlen (buffers p) <= max -> Forall (clean size) (buffers p) ->
  from_option (task_clean size) True t ->
  let old := bw_tasks w !! id in
  0 <= allocated p < 2 ^ 64 ->
  same64 (allocated p + zlen (buffers (bw_pool w)) + from_option uncounted 0 old)
    (allocated (bw_pool w) + zlen (buffers p) + from_option uncounted 0 t + gone) ->
  same64 (hits p + misses p + from_option getting 0 t) (hits (bw_pool w) + misses (bw_pool w) + from_option getting 0 old + n) ->
  bp_inv size max (started + n) (set_task w p id t gone).
Proof.
  intros [Hs Hm Hb Hc Ht Hr Ha Hg] Hs' Hm' Hb' Hc' Ht' old Hr' Ha' Hg'. unfold set_task.
  constructor; cbn [bw_pool bw_tasks bw_gone]; try done; [by apply set_task_clean|..]; rewrite task_sum_set; fold old;
    unfold same64 in *; destruct Ha as [k1 Ha], Hg as [k2 Hg], Ha' as [k3 Ha'], Hg' as [k4 Hg'].
  - exists (k1 + k3). lia.
  - exists (k2 + k4). lia.
Qed.

Lemma queue_push_spec size p b :
  Forall (clean size) (buffers p) -> clean size b -> zlen (buffers p) <= max_buffers p ->
  let '(ok, p') := queue_push p b in
  p' = mkBufferPool (buffers p') (buffer_size p) (max_buffers p) (allocated p) (misses p) (hits p) /\
  Forall (clean size) (buffers p') /\ zlen (buffers p') <= max_buffers p /\ zlen (buffers p') = zlen (buffers p) + Z.b2z ok.
Proof.
  intros Hc Hb Hl. unfold queue_push. destruct p as [bs sz mx al mi hi]. cbn [buffers max_buffers buffer_size allocated misses hits] in *.
  destruct (Z.ltb_spec (zlen bs) mx); cbn [buffers].
  - rewrite zlen_app. change (zlen [b]) with 1. split_and!; [done|apply Forall_app_2; [done|by apply Forall_cons_2; [|apply Forall_nil_2]]|lia|cbn; lia].
  - cbn. split_and!; [done..|lia].
Qed.

Lemma return_buffer_spec size p b :
  buffer_size p = size -> Forall (clean size) (buffers p) -> zlen (buffers p) <= max_buffers p ->
  let p' := return_buffer p b in
  p' = mkBufferPool (buffers p') (buffer_size p) (max_buffers p) (allocated p) (misses p) (hits p) /\
  Forall (clean size) (buffers p') /\ zlen (buffers p') <= max_buffers p /\ zlen (buffers p) <= zlen (buffers p') <= zlen (buffers p) + 1.
Proof.
  intros Hs Hc Hl. unfold return_buffer. destruct (Z.leb_spec (buffer_size p) (bm_capacity (bm_clear b))).
  - pose proof (queue_push_spec size p (bm_clear b) Hc ltac:(split; [done|lia]) Hl) as Hq. destruct (queue_push p (bm_clear b)) as [[] p']; cbn [snd Z.b2z] in *;
      destruct Hq as (? & ? & ? & ?); split_and!; try done; lia.
  - destruct p. cbn in *. split_and!; try done; lia.
Qed.

Lemma bp_step_inv size max started w id t :
  0 <= size -> bp_inv size max started w -> bw_tasks w !! id = Some t ->
  let '(p, t') := bp_step (bw_pool w) t in bp_inv size max started (set_task w p id t' 0).
Proof.
  intros Hsz Hi Ht. rewrite <-(Z.add_0_r started). pose proof (bi_tasks _ _ _ _ Hi id t Ht) as Hct.
  pose proof Hi as [Hs Hm Hb Hc _ Hr _ _].
  assert (forall p t', buffers p = buffers (bw_pool w) -> buffer_size p = size -> max_buffers p = max -> from_option (task_clean size) True t' ->
    0 <= allocated p < 2 ^ 64 -> same64 (allocated p + uncounted t) (allocated (bw_pool w) + from_option uncounted 0 t') ->
    same64 (hits p + misses p + from_option getting 0 t') (hits (bw_pool w) + misses (bw_pool w) + getting t) ->
    bp_inv size max (started + 0) (set_task w p id t' 0)) as Hsame.
  { intros p t' Eb E1 E2 Hcl Hrg [k1 E3] [k2 E4]. apply set_task_inv; rewrite ?Ht, ?Eb; cbn [from_option]; try done; [exists k1; lia|exists k2; lia]. }
  destruct t as [b| | |b|[|n]|n]; cbn [bp_step].
  - destruct (same64_u64 (hits (bw_pool w) + 1)) as [[k E] _]. apply Hsame; try done; [exists 0; cbn; lia|exists k; cbn; lia].
  - destruct (same64_u64 (misses (bw_pool w) + 1)) as [[k E] _]. apply Hsame; try done; [exists 0; cbn; lia|exists k; cbn; lia].
  - destruct (same64_u64 (allocated (bw_pool w) + 1)) as [[k E] Hu]. apply Hsame; try done; [exists k; cbn; lia|exists 0; cbn; lia].
  - apply Hsame; try done; exists 0; cbn; lia.
  - apply Hsame; try done; exists 0; cbn; lia.
  - pose proof (queue_push_spec size (bw_pool w) (with_capacity (buffer_size (bw_pool w))) Hc ltac:(split; [done|cbn; lia]) ltac:(lia)) as Hq.
    destruct (queue_push _ _) as [ok p]. destruct Hq as (Ep & Hcp & Hlp & Elp).
    assert (bp_inv size max (started + 0) (set_task w p id (if ok then Some (BtPushed n) else None) 0)) as Hp; [|by destruct ok].
    rewrite Ep. apply set_task_inv; rewrite ?Ht; cbn; try done; [lia|by destruct ok|exists 0; destruct ok; cbn in *; lia|exists 0; destruct ok; cbn; lia].
  - destruct (same64_u64 (allocated (bw_pool w) + 1)) as [[k E] Hu]. apply Hsame; try done; [exists k; cbn; lia|exists 0; cbn; lia].
Qed.

Lemma pop_inv size max started w id b p :
  bp_inv size max started w -> bw_tasks w !! id = None -> queue_pop (bw_pool w) = (Some b, p) ->
  buffers (bw_pool w) <> [] /\ bp_inv size max (started + 1) (set_task w p id (Some (BtPopped b)) 0).
Proof.
  intros Hi Ht Ep. pose proof Hi as [Hs Hm Hb Hc _ Hr _ _]. unfold queue_pop in Ep. destruct (buffers (bw_pool w)) as [|b' bs] eqn:Eb; [done|].
  injection Ep as -> <-. apply Forall_cons in Hc as [Hcb Hc]. rewrite zlen_cons in Hb.
  split; [done|]. apply set_task_inv; rewrite ?Ht, ?Eb; cbn [buffers allocated hits misses buffer_size max_buffers from_option uncounted getting];
    rewrite ?zlen_cons; try done; [lia|exists 0; lia|exists 0; lia].
Qed.

(** A task appears, changes its buffer or ends, and the pool stays as it is. *)
Lemma idle_inv size max started w id t gone :
  bp_inv size max started w -> from_option (task_clean size) True t ->
  from_option uncounted 0 (bw_tasks w !! id) = from_option uncounted 0 t + gone ->
  from_option getting 0 t = from_option getting 0 (bw_tasks w !! id) ->
  bp_inv size max started (set_task w (bw_pool w) id t gone).
Proof.
  intros Hi Hc E1 E2. pose proof Hi as [? ? ? ? _ ? _ _]. rewrite <-(Z.add_0_r started). by apply set_task_inv; try done; exists 0; lia.
Qed.

Lemma bp_act_inv size max started w a :
  0 <= size -> bp_inv size max started w -> bp_inv size max (started + bp_started w a) (bp_act w a).
Proof.
  intros Hsz Hi. pose proof Hi as [Hs Hm Hb Hc _ Hr _ _]. destruct a as [id|id|id|id b|id|id|id count]; cbn [bp_act bp_started];
    destruct (bw_tasks w !! id) as [t|] eqn:Ht; rewrite ?Z.add_0_r; try done.
  - destruct (queue_pop (bw_pool w)) as [[b|] p] eqn:Ep; [by eapply pop_inv|]. unfold queue_pop in Ep.
    destruct (buffers (bw_pool w)) eqn:Eb; [|done]. injection Ep as <-.
    apply set_task_inv; rewrite ?Ht, ?Eb; cbn [from_option uncounted getting]; try done; exists 0; lia.
  - destruct (queue_pop (bw_pool w)) as [[b|] p] eqn:Ep.
    + destruct (pop_inv _ _ _ _ _ _ _ Hi Ht Ep) as [Hne Hp]. by rewrite decide_False.
    + unfold queue_pop in Ep. destruct (buffers (bw_pool w)) eqn:Eb; [|done]. rewrite decide_True by done. by rewrite Z.add_0_r.
  - pose proof (bp_step_inv _ _ _ _ _ _ Hsz Hi Ht) as Hp. by destruct (bp_step (bw_pool w) t).
  - destruct t; try done. apply idle_inv; by rewrite ?Ht.
  - destruct t; try done. apply idle_inv; by rewrite ?Ht.
  - destruct t as [| | |b| |]; try done. pose proof (return_buffer_spec size (bw_pool w) b Hs Hc ltac:(lia)) as Hq.
    cbv zeta in Hq. destruct Hq as (Ep & Hcp & Hlp & Elp). set (p' := return_buffer (bw_pool w) b) in *.
    rewrite <-(Z.add_0_r started). apply set_task_inv; rewrite ?Ht; cbn [from_option uncounted getting]; try done; rewrite Ep; cbn; try done.
    + lia.
    + exists 0. lia.
    + exists 0. lia.
  - apply idle_inv; by rewrite ?Ht.
Qed.

Lemma bp_run_inv size max acts : forall started w,
  0 <= size -> bp_inv size max started w -> bp_inv size max (started + bp_starts w acts) (bp_run w acts).
Proof.
  induction acts as [|a acts IH]; intros started w Hsz Hi; cbn [bp_starts bp_run foldl]; [by rewrite Z.add_0_r|].
  rewrite Z.add_assoc. apply IH; [done|]. by apply bp_act_inv.
Qed.

Lemma bp_start_inv size max p : 0 < max -> with_config size max = Some p -> bp_inv size max 0 (bp_start p).
Proof.
  intros Hm. unfold with_config. destruct (Z.eqb_spec max 0); [lia|]. intros [= <-]. unfold bp_start, task_sum.
  constructor; cbn [bw_pool bw_tasks bw_gone buffers buffer_size max_buffers allocated misses hits]; rewrite ?map_fold_empty;
    try done; change (zlen (@nil BytesMut)) with 0; try lia; by exists 0.
Qed.

(** ** Theorems *)

(** An action that gives a task a buffer, other than what the task itself does to one it has. *)
Definition obtains (w : BpWorld) (a : BpAct) (id : nat) (b : BytesMut) : Prop :=
  bw_tasks (bp_act w a) !! id = Some (BtHolds b) /\ forall b', bw_tasks w !! id <> Some (BtHolds b').

Lemma set_task_obtains w p id' t gone id b :
  bw_tasks (set_task w p id' t gone) !! id = Some (BtHolds b) -> (forall b', bw_tasks w !! id <> Some (BtHolds b')) ->
  id = id' /\ t = Some (BtHolds b).
Proof.
  unfold set_task. cbn [bw_tasks]. intros Hh Hn. destruct (decide (id = id')) as [->|Hne].
  - by rewrite lookup_partial_alter_eq in Hh.
  - rewrite lookup_partial_alter_ne in Hh by done. by destruct (Hn b).
Qed.

Lemma obtains_clean size max started w a id b : bp_inv size max started w -> obtains w a id b -> clean size b.
Proof.
  intros Hi [Hh Hn]. pose proof (bi_size _ _ _ _ Hi) as Hsz.
  destruct a as [id'|id'|id'|id' b'|id'|id'|id' count]; cbn [bp_act] in Hh; destruct (bw_tasks w !! id') as [t|] eqn:Ht; try by destruct (Hn b).
  - destruct (queue_pop _) as [[?|] ?]; by apply set_task_obtains in Hh as [_ [=]].
  - destruct (queue_pop _) as [[?|] ?]; [by apply set_task_obtains in Hh as [_ [=]]|by destruct (Hn b)].
  - pose proof (bi_tasks _ _ _ _ Hi id' t Ht) as Hct. destruct (bp_step (bw_pool w) t) as [p t'] eqn:E.
    apply set_task_obtains in Hh as [-> ->]; [|done]. destruct t as [b0| | |b0|[|n]|n]; cbn [bp_step] in E; try (by injection E).
    + injection E as _ <-. by destruct Hct.
    + injection E as _ <-. split; [done|]. cbn. lia.
    + by destruct (Hn b0).
    + by destruct (queue_push _ _) as [[] ?].
  - destruct t; try by destruct (Hn b). apply set_task_obtains in Hh as [-> _]; [|done]. by destruct (Hn b0).
  - destruct t; try by destruct (Hn b). by apply set_task_obtains in Hh as [_ [=]].
  - destruct t; try by destruct (Hn b). by apply set_task_obtains in Hh as [_ [=]].
  - by apply set_task_obtains in Hh as [_ [=]].
Qed.

(** [get] is what its steps do when no other task comes between them. *)
Lemma get_is_its_steps w id :
  bw_tasks w !! id = None ->
  exists n b, (get (bw_pool w)).1 = Some b /\
    bp_run w (AGet id :: replicate n (AStep id)) = mkBpWorld (get (bw_pool w)).2 (<[id := BtHolds b]> (bw_tasks w)) (bw_gone w).
Proof.
  intros Ht. unfold get, bp_run. cbn [foldl bp_act]. rewrite Ht. destruct (queue_pop (bw_pool w)) as [[b|] p] eqn:Ep.
  - exists 1%nat, (bm_clear b). split; [done|]. cbn [replicate foldl bp_act]. unfold set_task. cbn [bw_tasks bw_pool bw_gone]. rewrite lookup_partial_alter_eq.
    cbn [bp_step]. unfold set_task. cbn [bw_tasks bw_gone]. rewrite partial_alter_partial_alter_eq. f_equal. lia.
  - unfold queue_pop in Ep. destruct (buffers (bw_pool w)) eqn:Eb; [|done]. injection Ep as <-.
    exists 2%nat, (with_capacity (buffer_size (bw_pool w))). split; [done|]. cbn [replicate foldl bp_act]. unfold set_task. cbn [bw_tasks bw_pool bw_gone].
    rewrite lookup_partial_alter_eq. cbn [bp_step]. unfold set_task. cbn [bw_tasks bw_gone bw_pool]. rewrite lookup_partial_alter_eq. cbn [bp_step].
    cbn [bw_tasks bw_gone bw_pool]. rewrite !partial_alter_partial_alter_eq. f_equal. lia.
Qed.

(** Buffers that go through the pool are clean.  However many tasks get, fill, resize, take, drop and preallocate buffers, and
    however their accesses interleave, the pool keeps at most its number of buffers, each empty and large enough, so whoever gets a
    buffer finds nothing of its last owner in it.  The counter of allocations is the number of buffers in the pool and in use
    together with those that are gone for good, and each completed get was counted as a hit or a miss. *)
Theorem buffers_are_clean size max p acts :
  0 <= size -> 0 < max -> with_config size max = Some p ->
  let w := bp_run (bp_start p) acts in
  zlen (buffers (bw_pool w)) <= max /\ Forall (clean size) (buffers (bw_pool w)) /\
  (forall a id b, obtains w a id b -> clean size b) /\
  allocated (bw_pool w) = u64 (zlen (buffers (bw_pool w)) + task_sum uncounted (bw_tasks w) + bw_gone w) /\
  same64 (hits (bw_pool w) + misses (bw_pool w) + task_sum getting (bw_tasks w)) (bp_starts (bp_start p) acts).
Proof.
  intros Hs Hm Hp w. pose proof (bp_run_inv size max acts 0 (bp_start p) Hs (bp_start_inv size max p Hm Hp)) as Hi. fold w in Hi.
  split; [exact (bi_bound _ _ _ _ Hi)|]. split; [exact (bi_clean _ _ _ _ Hi)|]. split; [intros; by eapply obtains_clean|].
  split; [|exact (bi_gets _ _ _ _ Hi)]. apply same64_eq; [exact (bi_allocated _ _ _ _ Hi)|exact (bi_range _ _ _ _ Hi)].
Qed.

(** The counter does not come back when buffers are taken or do not fit, although it is documented as those in use and pooled. *)
Example allocated_never_falls :
  let w := bp_run (bp_start (mkBufferPool [] 16 4 0 0 0))
    [AGet 0; AStep 0; AStep 0; AGet 1; AStep 1; AStep 1; ATake 0; AWrite 1 (mkBytesMut [1; 2] 8); ADrop 1] in
  bw_tasks w = ∅ /\ ps_pooled (BufferPool_stats (bw_pool w)) = 0 /\ ps_allocated (BufferPool_stats (bw_pool w)) = 2.
Proof. split_and!; vm_compute; reflexivity. Qed.
