(* ===== verification/RpcCodec.v ===== *)
(** * The middle-proxy RPC codec: [transport/middle_proxy/codec.rs]

    Frames with a length, a sequence number and a checksum; the nonce and handshake payloads;
    CBC encryption with padding words, whose IV is carried from one frame to the next. *)

From S2P Require Import Prelude Errors Crypto Constants AsyncIo.

Inductive WriterCommand :=
| WData (data : bytes)
| WDataAndFlush (data : bytes)
| WClose.

(** ** Checksums and frames (codec.rs:14-91) *)

Inductive RpcChecksumMode := Crc32 | Crc32c.

#[global] Instance RpcChecksumMode_eq_dec : EqDecision RpcChecksumMode.
Proof. solve_decision. Defined.

Definition from_handshake_flags (flags : Z) : RpcChecksumMode :=
  if negb (Z.land flags USE_CRC32C =? 0) then Crc32c else Crc32.

Definition advertised_flags (m : RpcChecksumMode) : Z :=
  match m with Crc32 => 0 | Crc32c => USE_CRC32C end.

Section Frames.
Context `{Digests}.

Definition rpc_crc (mode : RpcChecksumMode) (data : bytes) : Z :=
  match mode with Crc32 => crc32 data | Crc32c => crc32c data end.

Definition build_rpc_frame (seq_no : Z) (payload : bytes) (crc_mode : RpcChecksumMode) : bytes :=
  let total_len := u32 (4 + 4 + zlen payload + 4) in
  let frame := le_bytes 4 total_len in
  let frame := frame ++ le_bytes 4 seq_no in
  let frame := frame ++ payload in
  let c := rpc_crc crc_mode frame in
  frame ++ le_bytes 4 c.

Definition bad_rpc_len (total_len : Z) : ProxyError :=
  PE_InvalidHandshake "Bad RPC frame length: {total_len}" [total_len].
Definition rpc_crc_mismatch (expected actual : Z) : ProxyError :=
  PE_InvalidHandshake "CRC mismatch: 0x{expected_crc:08x} vs 0x{actual_crc:08x}" [expected; actual].

Definition read_rpc_frame_plaintext {R} `{AsyncRead R} (rd : R) : option (result ProxyError (Z * bytes) * R) :=
  match read_exact rd 4 with
  | None => None
  | Some (Err e, rd) => Some (Err (PE_Io e), rd)
  | Some (Ok len_buf, rd) =>
      let total_len := le_val len_buf in
      if negb ((12 <=? total_len) && (total_len <=? Z.shiftl 1 24)) then Some (Err (bad_rpc_len total_len), rd)
      else
        match read_exact rd (total_len - 4) with
        | None => None
        | Some (Err e, rd) => Some (Err (PE_Io e), rd)
        | Some (Ok rest, rd) =>
            let full := len_buf ++ rest in
            let crc_offset := total_len - 4 in
            let expected_crc := le_val (slice full crc_offset (crc_offset + 4)) in
            let actual_crc := rpc_crc Crc32 (ztake crc_offset full) in
            if negb (expected_crc =? actual_crc) then Some (Err (rpc_crc_mismatch expected_crc actual_crc), rd)
            else
              let seq_no := i32 (le_val (slice full 4 8)) in
              let payload := slice full 8 crc_offset in
              Some (Ok (seq_no, payload), rd)
        end
  end.

End Frames.

(** ** Handshake payloads (codec.rs:93-165)

    [pid] and [utime] are the process id and the time in seconds the running process observes. *)

Definition build_nonce_payload (key_selector crypto_ts : Z) (nonce : bytes) : bytes :=
  let p := zrepeat 32 0 in
  let p := splice p 0 (le_bytes 4 RPC_NONCE_U32) in
  let p := splice p 4 (le_bytes 4 key_selector) in
  let p := splice p 8 (le_bytes 4 RPC_CRYPTO_AES_U32) in
  let p := splice p 12 (le_bytes 4 crypto_ts) in
  splice p 16 nonce.

Definition nonce_too_short (n : Z) : ProxyError :=
  PE_InvalidHandshake "Nonce payload too short: {} bytes" [n].
Definition not_a_nonce (t : Z) : ProxyError :=
  PE_InvalidHandshake "Expected RPC_NONCE 0x{RPC_NONCE_U32:08x}, got 0x{t:08x}" [t].

Definition parse_nonce_payload (d : bytes) : result ProxyError (Z * Z * Z * bytes) :=
  if zlen d <? 32 then Err (nonce_too_short (zlen d))
  else
    let t := le_val (slice d 0 4) in
    if negb (t =? RPC_NONCE_U32) then Err (not_a_nonce t)
    else
      let key_select := le_val (slice d 4 8) in
      let schema := le_val (slice d 8 12) in
      let ts := le_val (slice d 12 16) in
      let nonce := slice d 16 32 in
      Ok (key_select, schema, ts, nonce).

Definition process_pid16 (pid : Z) : Z := u16 (Z.land pid 0xffff).
Definition process_utime (secs : Z) : Z := u32 secs.

Definition build_handshake_payload (pid secs : Z) (our_ip : bytes) (our_port : Z) (peer_ip : bytes) (peer_port flags : Z)
    : bytes :=
  let p := zrepeat 32 0 in
  let p := splice p 0 (le_bytes 4 RPC_HANDSHAKE_U32) in
  let p := splice p 4 (le_bytes 4 flags) in
  let p := splice p 8 our_ip in
  let p := splice p 12 (le_bytes 2 our_port) in
  let p := splice p 14 (le_bytes 2 (process_pid16 pid)) in
  let p := splice p 16 (le_bytes 4 (process_utime secs)) in
  let p := splice p 20 peer_ip in
  let p := splice p 24 (le_bytes 2 peer_port) in
  let p := splice p 26 (le_bytes 2 0) in
  splice p 28 (le_bytes 4 0).

Definition bad_handshake_len (n : Z) : ProxyError :=
  PE_InvalidHandshake "Bad handshake payload len: {}" [n].
Definition not_a_handshake (t : Z) : ProxyError :=
  PE_InvalidHandshake "Expected HANDSHAKE 0x{RPC_HANDSHAKE_U32:08x}, got 0x{hs_type:08x}" [t].

Definition parse_handshake_flags (payload : bytes) : result ProxyError Z :=
  if negb (zlen payload =? 32) then Err (bad_handshake_len (zlen payload))
  else
    let hs_type := le_val (slice payload 0 4) in
    if negb (hs_type =? RPC_HANDSHAKE_U32) then Err (not_a_handshake hs_type)
    else Ok (le_val (slice payload 4 8)).

(** ** CBC with padding (codec.rs:167-212) *)

(** [for i in 0..pad { buf.push(pad_pattern[i % 4]) }] *)
Fixpoint push_pad (n : nat) (i : Z) (buf : bytes) : bytes :=
  match n with
  | O => buf
  | S n => push_pad n (i + 1) (buf ++ [nth (Z.to_nat (i mod 4)) [0x04; 0x00; 0x00; 0x00] 0])
  end.

Definition pad_to_block (buf : bytes) : bytes :=
  let pad := (16 - zlen buf mod 16) mod 16 in push_pad (Z.to_nat pad) 0 buf.

(** [new_iv]: the last block of [buf], or zeros when it is shorter than a block. *)
Definition tail_iv (buf : bytes) : bytes :=
  if 16 <=? zlen buf then zdrop (zlen buf - 16) buf else zrepeat 16 0.

Section Cbc.
Context `{BlockCipher}.

Definition cbc_encrypt_padded (key iv plaintext : bytes) : result ProxyError (bytes * bytes) :=
  let buf := pad_to_block plaintext in
  match AesCbc_encrypt_in_place (mkAesCbc key iv) buf with
  | Err _ => Err (PE_Crypto "CBC encrypt: {e}" [])
  | Ok buf => Ok (buf, tail_iv buf)
  end.

(** [cbc_decrypt_inplace(key, iv, data)]: the new contents of [data] and the next IV. *)
Definition cbc_decrypt_inplace (key iv data : bytes) : result ProxyError (bytes * bytes) :=
  let new_iv := tail_iv data in
  match AesCbc_decrypt_in_place (mkAesCbc key iv) data with
  | Err _ => Err (PE_Crypto "CBC decrypt: {e}" [])
  | Ok data => Ok (data, new_iv)
  end.

(** ** [RpcWriter] (codec.rs:214-249); [rw_sink] is what has been handed to [write_all]. *)

Record RpcWriter := mkRpcWriter {
  rw_sink : bytes;
  rw_key : bytes;
  rw_iv : bytes;
  rw_seq_no : Z;
  rw_crc_mode : RpcChecksumMode
}.

Definition RpcWriter_send `{Digests} (w : RpcWriter) (payload : bytes) : result ProxyError unit * RpcWriter :=
  let frame := build_rpc_frame (rw_seq_no w) payload (rw_crc_mode w) in
  let seq_no := i32 (rw_seq_no w + 1) in
  let buf := pad_to_block frame in
  match AesCbc_encrypt_in_place (mkAesCbc (rw_key w) (rw_iv w)) buf with
  | Err _ => (Err (PE_Crypto "{e}" []), mkRpcWriter (rw_sink w) (rw_key w) (rw_iv w) seq_no (rw_crc_mode w))
  | Ok buf =>
      let iv := if 16 <=? zlen buf then zdrop (zlen buf - 16) buf else rw_iv w in
      (Ok tt, mkRpcWriter (rw_sink w ++ buf) (rw_key w) iv seq_no (rw_crc_mode w))
  end.

End Cbc.

(** ** Padding *)

Lemma push_pad_app n i buf : push_pad n i buf = buf ++ push_pad n i [].
Proof.
  revert i buf. induction n as [|n IH]; intros i buf; cbn [push_pad]; [by rewrite app_nil_r|].
  rewrite IH, (IH _ ([] ++ _)). by rewrite <-app_assoc.
Qed.

Lemma push_pad_length n i : zlen (push_pad n i []) = Z.of_nat n.
Proof.
  revert i. induction n as [|n IH]; intros i; [done|]. cbn [push_pad]. rewrite push_pad_app, zlen_app, IH.
  change (zlen ([] ++ [nth (Z.to_nat (i mod 4)) [4; 0; 0; 0] 0])) with 1. lia.
Qed.

Lemma push_pad_ok n i : bytes_ok (push_pad n i []).
Proof.
  revert i. induction n as [|n IH]; intros i; [constructor|]. cbn [push_pad]. rewrite push_pad_app.
  apply bytes_ok_app. split; [|done]. constructor; [|constructor].
  destruct (Z.to_nat (i mod 4)) as [|[|[|[|[|]]]]]; cbn; unfold is_byte; lia.
Qed.

(** Padding to a whole number of words is made of whole filler words. *)
Lemma push_pad_fillers k i : i mod 4 = 0 -> push_pad (4 * k) i [] = fillers k.
Proof.
  revert i. induction k as [|k IH]; intros i Hi; [done|].
  replace (4 * S k)%nat with (S (S (S (S (4 * k))))) by lia. cbn [push_pad]. rewrite push_pad_app.
  rewrite (IH (i + 1 + 1 + 1 + 1)) by (Z.div_mod_to_equations; lia).
  assert ((i + 1) mod 4 = 1 /\ (i + 1 + 1) mod 4 = 2 /\ (i + 1 + 1 + 1) mod 4 = 3) as (-> & -> & ->)
    by (split_and!; Z.div_mod_to_equations; lia).
  rewrite Hi. done.
Qed.

Lemma pad_to_block_spec buf :
  bytes_ok buf -> exists pad, pad_to_block buf = buf ++ pad /\ aligned (buf ++ pad) /\ zlen pad < 16.
Proof.
  intros Hok. unfold pad_to_block. set (pad := (16 - zlen buf mod 16) mod 16).
  pose proof (Z.mod_pos_bound (16 - zlen buf mod 16) 16 ltac:(lia)).
  exists (push_pad (Z.to_nat pad) 0 []). split; [apply push_pad_app|]. unfold aligned.
  rewrite zlen_app, push_pad_length, bytes_ok_app. split_and!; [|done|apply push_pad_ok|lia].
  unfold pad. rewrite Z2Nat.id by lia. Z.div_mod_to_equations. lia.
Qed.

Lemma pad_to_block_fillers buf :
  zlen buf mod 4 = 0 -> exists k, pad_to_block buf = buf ++ fillers k /\ (k <= 3)%nat.
Proof.
  intros Hm. unfold pad_to_block. set (pad := (16 - zlen buf mod 16) mod 16).
  assert (0 <= pad < 16 /\ pad mod 4 = 0) as [Hp Hp4].
  { unfold pad. split; [apply Z.mod_pos_bound; lia|].
    pose proof (zlen_nonneg buf). Z.div_mod_to_equations. lia. }
  exists (Z.to_nat (pad / 4)). split; [|Z.div_mod_to_equations; lia].
  rewrite push_pad_app. f_equal. rewrite <-(push_pad_fillers _ 0) by done. f_equal. Z.div_mod_to_equations. lia.
Qed.

(** ** Claims on frames and payloads *)

Section FrameFacts.
Context `{DigestsOk}.

Lemma rpc_crc_range mode d : 0 <= rpc_crc mode d < 2 ^ 32.
Proof. destruct mode; [apply crc32_range|apply crc32c_range]. Qed.

(** The payloads a frame can carry: the reader's limit on the total length. *)
Definition rpc_payload_ok (payload : bytes) : Prop := bytes_ok payload /\ zlen payload + 12 <= 2 ^ 24.

#[global] Instance rpc_payload_ok_dec p : Decision (rpc_payload_ok p).
Proof. unfold rpc_payload_ok. apply _. Defined.

Lemma build_rpc_frame_eq seq_no payload mode :
  rpc_payload_ok payload ->
  let head := le_bytes 4 (zlen payload + 12) ++ le_bytes 4 seq_no ++ payload in
  build_rpc_frame seq_no payload mode = head ++ le_bytes 4 (rpc_crc mode head) /\
  zlen (build_rpc_frame seq_no payload mode) = zlen payload + 12 /\
  bytes_ok (build_rpc_frame seq_no payload mode).
Proof.
  intros [Hok Hl]. pose proof (zlen_nonneg payload). unfold build_rpc_frame.
  assert (u32 (4 + 4 + zlen payload + 4) = zlen payload + 12) as -> by (unfold u32; rewrite Z.mod_small; lia).
  cbn zeta. rewrite <-!app_assoc. split; [done|].
  rewrite !zlen_app, !zlen_le_bytes, !bytes_ok_app. split; [lia|]. split_and!; done || apply le_bytes_ok.
Qed.

(** The fields of a frame, by position. *)
Lemma rpc_frame_fields seq_no payload mode rest :
  rpc_payload_ok payload ->
  let full := build_rpc_frame seq_no payload mode in
  let fl := zlen payload + 12 in
  ztake 4 (full ++ rest) = le_bytes 4 fl /\ slice full 4 8 = le_bytes 4 seq_no /\
  slice full 8 (fl - 4) = payload /\
  slice full (fl - 4) (fl - 4 + 4) = le_bytes 4 (rpc_crc mode (ztake (fl - 4) full)).
Proof.
  intros Hp. destruct (build_rpc_frame_eq seq_no payload mode Hp) as (E & Hlen & _). cbn zeta in *.
  rewrite E. set (c := le_bytes 4 (rpc_crc _ _)). pose proof (zlen_nonneg payload).
  set (lb := le_bytes 4 (zlen payload + 12)). set (sb := le_bytes 4 seq_no).
  assert (zlen lb = 4) by done. assert (zlen sb = 4) by done. assert (zlen c = 4) by done.
  assert (ztake (zlen payload + 12 - 4) ((lb ++ sb ++ payload) ++ c) = lb ++ sb ++ payload) as ->
    by (apply ztake_app; rewrite !zlen_app; lia).
  split_and!.
  - rewrite <-!app_assoc. by apply ztake_app.
  - rewrite <-!app_assoc, slice_app_r by lia. rewrite slice_app_l by lia. apply slice_full; lia.
  - rewrite <-!app_assoc, slice_app_r, slice_app_r by lia.
    rewrite slice_app_l by lia. apply slice_full; lia.
  - rewrite slice_app_r by (rewrite !zlen_app; lia). rewrite !zlen_app.
    transitivity c; [apply slice_full; lia|done].
Qed.

(** A plaintext RPC frame reads back: whatever follows it and however it arrives, reading
    returns its sequence number and payload and consumes exactly the frame. *)
Lemma rpc_frame_plaintext_roundtrip `{AsyncReadOk R} seq_no payload rest (r : R) :
  in_i32 seq_no -> rpc_payload_ok payload -> rd_ok r ->
  rd_bytes r = build_rpc_frame seq_no payload Crc32 ++ rest ->
  exists r', read_rpc_frame_plaintext r = Some (Ok (seq_no, payload), r') /\ rd_ok r' /\ rd_bytes r' = rest.
Proof.
  intros Hseq Hp Hr Hb. destruct (build_rpc_frame_eq seq_no payload Crc32 Hp) as (_ & Hlen & _).
  destruct (rpc_frame_fields seq_no payload Crc32 rest Hp) as (F1 & F2 & F3 & F4). cbn zeta in *.
  set (full := build_rpc_frame seq_no payload Crc32) in *. pose proof (zlen_nonneg payload). pose proof (zlen_nonneg rest).
  unfold read_rpc_frame_plaintext.
  destruct (read_exact_spec r 4 Hr) as (r1 & -> & Hr1 & Hb1); [rewrite Hb, zlen_app; lia|].
  rewrite Hb in *. rewrite F1, le_val_le_bytes_small by (destruct Hp; cbn; lia).
  assert ((12 <=? zlen payload + 12) && (zlen payload + 12 <=? Z.shiftl 1 24) = true) as ->.
  { destruct Hp. apply andb_true_intro. split; apply Z.leb_le; [lia|]. change (Z.shiftl 1 24) with (2 ^ 24). lia. }
  cbn [negb]. assert (zdrop 4 (full ++ rest) = zdrop 4 full ++ rest) as Hd by (apply zdrop_app_le; lia).
  rewrite Hd in Hb1. assert (zlen (zdrop 4 full) = zlen payload + 12 - 4) as Hl4 by (rewrite zlen_zdrop; lia).
  destruct (read_exact_spec r1 (zlen payload + 12 - 4) Hr1) as (r2 & -> & Hr2 & Hb2); [rewrite Hb1, zlen_app; lia|].
  rewrite Hb1 in *. rewrite ztake_app by lia. rewrite zdrop_app in Hb2 by lia.
  assert (le_bytes 4 (zlen payload + 12) ++ zdrop 4 full = full) as ->
    by (rewrite <-F1, ztake_app_le by lia; apply ztake_zdrop).
  rewrite F4, F2, F3, le_val_le_bytes_small, Z.eqb_refl, i32_le_bytes by (done || apply (rpc_crc_range Crc32)).
  cbn [negb]. by exists r2.
Qed.

End FrameFacts.

Lemma build_nonce_payload_eq key_selector crypto_ts nonce :
  zlen nonce = 16 ->
  build_nonce_payload key_selector crypto_ts nonce =
    le_bytes 4 RPC_NONCE_U32 ++ le_bytes 4 key_selector ++ le_bytes 4 RPC_CRYPTO_AES_U32 ++
    le_bytes 4 crypto_ts ++ nonce.
Proof. intros Hn. unfold build_nonce_payload. unfold splice at 1. rewrite Hn. cbn. by rewrite app_nil_r. Qed.

Lemma build_handshake_payload_eq pid secs our_ip our_port peer_ip peer_port flags :
  zlen our_ip = 4 -> zlen peer_ip = 4 ->
  build_handshake_payload pid secs our_ip our_port peer_ip peer_port flags =
    le_bytes 4 RPC_HANDSHAKE_U32 ++ le_bytes 4 flags ++ our_ip ++ le_bytes 2 our_port ++ le_bytes 2 (process_pid16 pid) ++
    le_bytes 4 (process_utime secs) ++ peer_ip ++ le_bytes 2 peer_port ++ le_bytes 2 0 ++ le_bytes 4 0.
Proof.
  intros Ho%(zlen_length _ 4) Hp%(zlen_length _ 4).
  destruct our_ip as [|o0 [|o1 [|o2 [|o3 [|]]]]]; try done.
  by destruct peer_ip as [|p0 [|p1 [|p2 [|p3 [|]]]]].
Qed.

Lemma build_handshake_payload_ok pid secs our_ip our_port peer_ip peer_port flags :
  zlen our_ip = 4 /\ bytes_ok our_ip -> zlen peer_ip = 4 /\ bytes_ok peer_ip ->
  let p := build_handshake_payload pid secs our_ip our_port peer_ip peer_port flags in
  zlen p = 32 /\ rpc_payload_ok p /\ ztake 4 p = le_bytes 4 RPC_HANDSHAKE_U32 /\ slice p 4 8 = le_bytes 4 flags.
Proof.
  intros [Lo Ho] [Lp Hp]. cbn zeta. rewrite build_handshake_payload_eq by done. unfold rpc_payload_ok.
  rewrite !zlen_app, !zlen_le_bytes, Lo, Lp, !bytes_ok_app. split_and!; done || apply le_bytes_ok.
Qed.

Lemma handshake_payload_head pid secs our_ip our_port peer_ip peer_port flags :
  zlen our_ip = 4 -> zlen peer_ip = 4 ->
  exists rest, build_handshake_payload pid secs our_ip our_port peer_ip peer_port flags =
    le_bytes 4 RPC_HANDSHAKE_U32 ++ le_bytes 4 flags ++ rest /\ zlen rest = 24.
Proof.
  intros Ho%(zlen_length _ 4) Hp%(zlen_length _ 4).
  destruct our_ip as [|o0 [|o1 [|o2 [|o3 [|]]]]]; try done.
  destruct peer_ip as [|p0 [|p1 [|p2 [|p3 [|]]]]]; try done. by eexists.
Qed.

(** The nonce payload and the handshake payload read back what they carry, and a handshake
    advertising a checksum mode selects that mode. *)
Lemma handshake_payloads_roundtrip key_selector crypto_ts nonce pid secs our_ip our_port peer_ip peer_port mode :
  in_u32 key_selector -> in_u32 crypto_ts -> zlen nonce = 16 -> zlen our_ip = 4 -> zlen peer_ip = 4 ->
  parse_nonce_payload (build_nonce_payload key_selector crypto_ts nonce) =
    Ok (key_selector, RPC_CRYPTO_AES_U32, crypto_ts, nonce) /\
  exists flags, parse_handshake_flags
    (build_handshake_payload pid secs our_ip our_port peer_ip peer_port (advertised_flags mode)) = Ok flags /\
    from_handshake_flags flags = mode.
Proof.
  intros Hk Hts Hn Ho Hp. split.
  - rewrite build_nonce_payload_eq by done. set (K := le_bytes 4 key_selector). set (T := le_bytes 4 crypto_ts).
    set (N0 := le_bytes 4 RPC_NONCE_U32). set (S := le_bytes 4 RPC_CRYPTO_AES_U32).
    unfold parse_nonce_payload. rewrite !zlen_app, Hn. change (zlen N0 + (zlen K + (zlen S + (zlen T + 16)))) with 32.
    assert (slice (N0 ++ K ++ S ++ T ++ nonce) 0 4 = N0) as -> by by apply (slice_mid []).
    assert (slice (N0 ++ K ++ S ++ T ++ nonce) 4 8 = K) as -> by by apply (slice_mid N0).
    assert (slice (N0 ++ K ++ S ++ T ++ nonce) 8 12 = S) as -> by by apply (slice_mid (N0 ++ K)).
    assert (slice (N0 ++ K ++ S ++ T ++ nonce) 12 16 = T) as -> by by apply (slice_mid (N0 ++ K ++ S)).
    assert (slice (N0 ++ K ++ S ++ T ++ nonce) 16 32 = nonce) as ->.
    { rewrite <-(app_nil_r nonce) at 1. apply (slice_mid (N0 ++ K ++ S ++ T)); [done|]. rewrite Hn. done. }
    unfold N0, S, K, T. rewrite !le_val_le_bytes_small by done. done.
  - destruct (handshake_payload_head pid secs our_ip our_port peer_ip peer_port (advertised_flags mode) Ho Hp)
      as (rest & -> & Hrest).
    exists (advertised_flags mode). split; [|by destruct mode].
    unfold parse_handshake_flags. rewrite !zlen_app, Hrest.
    change (negb (zlen (le_bytes 4 RPC_HANDSHAKE_U32) + (zlen (le_bytes 4 (advertised_flags mode)) + 24) =? 32)) with false.
    set (F := le_bytes 4 (advertised_flags mode)). set (N0 := le_bytes 4 RPC_HANDSHAKE_U32). cbn iota.
    assert (slice (N0 ++ F ++ rest) 0 4 = N0) as -> by by apply (slice_mid []).
    assert (slice (N0 ++ F ++ rest) 4 8 = F) as -> by by apply (slice_mid N0).
    unfold N0, F. rewrite !le_val_le_bytes_small by (done || by destruct mode). done.
Qed.

(** ** CBC with padding *)

Section CbcFacts.
Context `{BlockCipherOk}.

(** Padded CBC encryption always succeeds on bytes, its ciphertext decrypts to the plaintext
    followed by at most 15 padding bytes, and both sides compute the same IV for the next
    message. *)
Lemma cbc_padded_roundtrip key iv plaintext :
  block_ok iv -> bytes_ok plaintext ->
  exists ciphertext new_iv pad,
    cbc_encrypt_padded key iv plaintext = Ok (ciphertext, new_iv) /\
    cbc_decrypt_inplace key iv ciphertext = Ok (plaintext ++ pad, new_iv) /\
    zlen pad < 16 /\ zlen ciphertext = zlen plaintext + zlen pad /\ zlen ciphertext mod 16 = 0.
Proof.
  intros Hiv Hok. destruct (pad_to_block_spec plaintext Hok) as (pad & E & Ha & Hl).
  destruct (cbc_enc_aligned key iv _ Hiv Ha) as [Hca Hlen].
  exists (cbc_enc key iv (plaintext ++ pad)), (tail_iv (cbc_enc key iv (plaintext ++ pad))), pad.
  unfold cbc_encrypt_padded, cbc_decrypt_inplace. rewrite E.
  destruct (AesCbc_encrypt_ok (mkAesCbc key iv) _ Hiv Ha) as [_ ->]. split; [done|].
  destruct (AesCbc_decrypt_ok (mkAesCbc key iv) _ Hiv Hca) as [_ ->]. cbn [cbc_key cbc_iv].
  rewrite cbc_dec_enc by done. split; [done|]. rewrite Hlen, zlen_app. destruct Ha as [Ha _].
  rewrite zlen_app in Ha. split_and!; done.
Qed.

(** ** The writer's stream *)

Context `{DigestsOk}.

Fixpoint rpc_sends (w : RpcWriter) (payloads : list bytes) : RpcWriter :=
  match payloads with
  | [] => w
  | p :: payloads => rpc_sends (snd (RpcWriter_send w p)) payloads
  end.

(** The plaintext of a sequence of sends. *)
Fixpoint rpc_plain (mode : RpcChecksumMode) (seq_no : Z) (payloads : list bytes) : bytes :=
  match payloads with
  | [] => []
  | p :: payloads => pad_to_block (build_rpc_frame seq_no p mode) ++ rpc_plain mode (i32 (seq_no + 1)) payloads
  end.

Lemma rpc_frame_aligned seq_no p mode :
  rpc_payload_ok p -> aligned (pad_to_block (build_rpc_frame seq_no p mode)) /\
    pad_to_block (build_rpc_frame seq_no p mode) <> [].
Proof.
  intros Hp. destruct (build_rpc_frame_eq seq_no p mode Hp) as (_ & Hlen & Hok).
  destruct (pad_to_block_spec _ Hok) as (pad & -> & Ha & _). split; [done|]. intros E.
  apply app_eq_nil in E as [E _]. rewrite E in Hlen. change (zlen (@nil Z)) with 0 in Hlen.
  pose proof (zlen_nonneg p). lia.
Qed.

Lemma rpc_plain_aligned mode seq_no payloads : Forall rpc_payload_ok payloads -> aligned (rpc_plain mode seq_no payloads).
Proof.
  intros Hp. revert seq_no. induction Hp as [|p payloads Hp _ IH]; intros seq_no; [by split; [|constructor]|].
  cbn [rpc_plain]. apply aligned_app; [by apply rpc_frame_aligned|apply IH].
Qed.

Lemma RpcWriter_send_ok w p :
  rpc_payload_ok p -> block_ok (rw_iv w) ->
  let c := cbc_enc (rw_key w) (rw_iv w) (pad_to_block (build_rpc_frame (rw_seq_no w) p (rw_crc_mode w))) in
  RpcWriter_send w p =
    (Ok tt, mkRpcWriter (rw_sink w ++ c) (rw_key w) (next_iv (rw_iv w) c) (i32 (rw_seq_no w + 1)) (rw_crc_mode w)).
Proof.
  intros Hp Hiv. destruct (rpc_frame_aligned (rw_seq_no w) p (rw_crc_mode w) Hp) as [Ha _].
  unfold RpcWriter_send.
  destruct (AesCbc_encrypt_ok (mkAesCbc (rw_key w) (rw_iv w)) _ Hiv Ha) as [_ ->]. done.
Qed.

Lemma rpc_sends_cipher w payloads :
  Forall rpc_payload_ok payloads -> block_ok (rw_iv w) ->
  let plain := rpc_plain (rw_crc_mode w) (rw_seq_no w) payloads in
  rw_sink (rpc_sends w payloads) = rw_sink w ++ cbc_enc (rw_key w) (rw_iv w) plain.
Proof.
  intros Hp. revert w. induction Hp as [|p payloads Hp Hps IH]; intros w Hiv; cbn zeta.
  { cbn. by rewrite app_nil_r. }
  cbn [rpc_sends rpc_plain]. rewrite RpcWriter_send_ok by done. cbn [snd].
  destruct (rpc_frame_aligned (rw_seq_no w) p (rw_crc_mode w) Hp) as [Ha _].
  rewrite cbc_enc_app by (done || by apply rpc_plain_aligned).
  destruct (cbc_enc_aligned (rw_key w) (rw_iv w) _ Hiv Ha) as [Hca _].
  rewrite IH by (cbn [rw_iv]; by apply next_iv_ok). cbn [rw_sink rw_key rw_iv rw_seq_no rw_crc_mode].
  by rewrite <-app_assoc.
Qed.

End CbcFacts.
