(* ===== verification/ProxyProtocol.v ===== *)
(** * The PROXY protocol: [transport/proxy_protocol.rs]

    A load balancer in front of the proxy announces the client's address in a header, as a text line
    (version 1) or in binary (version 2).  The parser reads it from any asynchronous reader of the
    [AsyncIo] interface; the builders write it.  An [async fn] here is [None] only where a read does
    not return, else an outcome and the reader: a result, a panic of an index out of range, or the
    fuel of the loop that reads the line. *)

From S2P Require Import Prelude Errors Crypto AsyncIo NetAddr.

(** ** Constants and the parsed header (proxy_protocol.rs:7-51) *)

Definition PROXY_V1_SIGNATURE : bytes := str "PROXY ".
Definition PROXY_V2_SIGNATURE : bytes :=
  [0x0d; 0x0a; 0x0d; 0x0a; 0x00; 0x0d; 0x0a; 0x51; 0x55; 0x49; 0x54; 0x0a].
Definition PROXY_V1_MIN_LEN : Z := 6.
Definition PROXY_V2_MIN_LEN : Z := 16.

Module address_family.
Definition UNSPEC : Z := 0x0.
Definition INET : Z := 0x1.
Definition INET6 : Z := 0x2.
End address_family.

Record ProxyProtocolInfo := mkProxyProtocolInfo {
  src_addr : SocketAddr;
  dst_addr : option SocketAddr;
  pp_version : Z
}.

Definition ProxyProtocolInfo_new (src_addr : SocketAddr) : ProxyProtocolInfo := mkProxyProtocolInfo src_addr None 0.

(** ** The parsers *)

Section Parse.
Context `{AsyncRead R}.

Definition pp_io (A : Type) : Type := option (outcome (result ProxyError A) * R).
Definition pp_result : Type := pp_io ProxyProtocolInfo.

Definition invalid {A} (r : R) : pp_io A := Some (Done (Err PE_InvalidProxyProtocol), r).

(** [reader.read_exact(..).await.map_err(|_| ProxyError::InvalidProxyProtocol)?] *)
Definition read_or_invalid {A} (r : R) (n : Z) (k : bytes -> R -> pp_io A) : pp_io A :=
  match read_exact r n with
  | None => None
  | Some (Err _, r) => invalid r
  | Some (Ok bs, r) => k bs r
  end.

(** The loop that reads the line (proxy_protocol.rs:90-103). *)
Definition ends_with_crlf (line : bytes) : bool := bool_decide (zdrop (zlen line - 2) line = [13; 10]).

Fixpoint v1_line (fuel : nat) (r : R) (line : bytes) : pp_io bytes :=
  match fuel with
  | O => Some (OutOfFuel, r)
  | S fuel =>
      read_or_invalid r 1 (fun byte r =>
        let line := line ++ byte in
        if ends_with_crlf line then Some (Done (Ok line), r)
        else if 256 <? zlen line then invalid r
        else v1_line fuel r line)
  end.

(** What follows [PROXY ] on the line (proxy_protocol.rs:105-143). *)
Definition v1_info (text : bytes) (default_peer : SocketAddr) : result ProxyError ProxyProtocolInfo :=
  if utf8_valid text then
    let parts := split_whitespace text in
    match parts with
    | [] => Err PE_InvalidProxyProtocol
    | family :: args =>
        if bool_decide (family = str "TCP4" \/ family = str "TCP6") && (5 <=? zlen parts) then
          match args with
          | src :: dst :: sport :: dport :: _ =>
              src_ip ← ok_or (parse_ip src) PE_InvalidProxyProtocol;
              dst_ip ← ok_or (parse_ip dst) PE_InvalidProxyProtocol;
              src_port ← ok_or (parse_u16 sport) PE_InvalidProxyProtocol;
              dst_port ← ok_or (parse_u16 dport) PE_InvalidProxyProtocol;
              Ok (mkProxyProtocolInfo (mkSocketAddr src_ip src_port) (Some (mkSocketAddr dst_ip dst_port)) 1)
          | _ => Err PE_InvalidProxyProtocol
          end
        else if bool_decide (family = str "UNKNOWN") then Ok (mkProxyProtocolInfo default_peer None 1)
        else Err PE_InvalidProxyProtocol
    end
  else Err PE_InvalidProxyProtocol.

(** The line grows by one byte per turn from the 6 of the signature and is refused beyond 256. *)
Definition v1_fuel : nat := 252.

Definition parse_v1 (r : R) (default_peer : SocketAddr) : pp_result :=
  '(line, r) ← v1_line v1_fuel r PROXY_V1_SIGNATURE;
  Some ((let! line := line in
         match line with
         | Err e => Done (Err e)
         | Ok line => let! text := index_range line PROXY_V1_MIN_LEN (zlen line - 2) in Done (v1_info text default_peer)
         end)%outcome, r).

(** [parse_v2] (proxy_protocol.rs:147-235): the meaning of the fixed header and the address block.  The
    header is an array of 16 bytes; the block is indexed, and an index beyond it panics. *)
Definition byte_at (l : bytes) (i : Z) : Z := default 0 (zget l i).

(** [Ipv4Addr::new(l[i], l[i + 1], l[i + 2], l[i + 3])] *)
Definition ipv4_at (l : bytes) (i : Z) : outcome IpAddr :=
  (let! a := index l i in let! b := index l (i + 1) in let! c := index l (i + 2) in let! d := index l (i + 3) in
   Done (V4 [a; b; c; d]))%outcome.

(** [Ipv6Addr::from(<[u8; 16]>::try_from(&l[i..i + 16]).unwrap())] *)
Definition ipv6_at (l : bytes) (i : Z) : outcome IpAddr :=
  (let! o := index_range l i (i + 16) in Done (V6 o))%outcome.

Definition v2_info (command family_protocol addr_len : Z) (addr_data : bytes) (default_peer : SocketAddr)
  : outcome (result ProxyError ProxyProtocolInfo) :=
  (if command =? 0 then Done (Ok (mkProxyProtocolInfo default_peer None 2))
   else if negb (command =? 1) then Done (Err PE_InvalidProxyProtocol)
   else
     let family := Z.shiftr family_protocol 4 in
     if (family =? address_family.INET) && (12 <=? addr_len) then
       let! src_ip := ipv4_at addr_data 0 in
       let! dst_ip := ipv4_at addr_data 4 in
       let! src_port := index_u16 addr_data 8 in
       let! dst_port := index_u16 addr_data 10 in
       Done (Ok (mkProxyProtocolInfo (mkSocketAddr src_ip src_port) (Some (mkSocketAddr dst_ip dst_port)) 2))
     else if (family =? address_family.INET6) && (36 <=? addr_len) then
       let! src_ip := ipv6_at addr_data 0 in
       let! dst_ip := ipv6_at addr_data 16 in
       let! src_port := index_u16 addr_data 32 in
       let! dst_port := index_u16 addr_data 34 in
       Done (Ok (mkProxyProtocolInfo (mkSocketAddr src_ip src_port) (Some (mkSocketAddr dst_ip dst_port)) 2))
     else if family =? address_family.UNSPEC then Done (Ok (mkProxyProtocolInfo default_peer None 2))
     else Done (Err PE_InvalidProxyProtocol))%outcome.

Definition parse_v2 (r : R) (header : bytes) (default_peer : SocketAddr) : pp_result :=
  let version_command := byte_at header 12 in
  let version := Z.shiftr version_command 4 in
  let command := Z.land version_command 0x0f in
  if negb (version =? 2) then invalid r
  else
    let family_protocol := byte_at header 13 in
    let addr_len := be_val (slice header 14 16) in
    if 0 <? addr_len then
      read_or_invalid r addr_len (fun addr_data r =>
        Some (v2_info command family_protocol addr_len addr_data default_peer, r))
    else Some (v2_info command family_protocol addr_len [] default_peer, r).

(** [parse_proxy_protocol] (proxy_protocol.rs:57-81) *)
Definition parse_proxy_protocol (r : R) (default_peer : SocketAddr) : pp_result :=
  read_or_invalid r PROXY_V1_MIN_LEN (fun sig r =>
    if bool_decide (sig = PROXY_V1_SIGNATURE) then parse_v1 r default_peer
    else
      read_or_invalid r (PROXY_V2_MIN_LEN - PROXY_V1_MIN_LEN) (fun more r =>
        let header := sig ++ more in
        if bool_decide (ztake 12 header = PROXY_V2_SIGNATURE) then parse_v2 r header default_peer
        else invalid r)).

End Parse.

(** ** The builders (proxy_protocol.rs:237-345) *)

Record ProxyProtocolV1Builder := mkV1Builder {
  v1_family : bytes;
  v1_src : option SocketAddr;
  v1_dst : option SocketAddr
}.

Definition V1Builder_new : ProxyProtocolV1Builder := mkV1Builder (str "UNKNOWN") None None.
Definition V1Builder_tcp4 (self : ProxyProtocolV1Builder) (src dst : SocketAddr) : ProxyProtocolV1Builder :=
  mkV1Builder (str "TCP4") (Some src) (Some dst).
Definition V1Builder_tcp6 (self : ProxyProtocolV1Builder) (src dst : SocketAddr) : ProxyProtocolV1Builder :=
  mkV1Builder (str "TCP6") (Some src) (Some dst).

Definition V1Builder_build (self : ProxyProtocolV1Builder) : bytes :=
  match v1_src self, v1_dst self with
  | Some src, Some dst =>
      str "PROXY " ++ v1_family self ++ 32 :: fmt_ip (sa_ip src) ++ 32 :: fmt_ip (sa_ip dst) ++
      32 :: fmt_num 10 (sa_port src) ++ 32 :: fmt_num 10 (sa_port dst) ++ [13; 10]
  | _, _ => str "PROXY UNKNOWN" ++ [13; 10]
  end.

Record ProxyProtocolV2Builder := mkV2Builder {
  v2_src : option SocketAddr;
  v2_dst : option SocketAddr
}.

Definition V2Builder_new : ProxyProtocolV2Builder := mkV2Builder None None.
Definition V2Builder_with_addrs (self : ProxyProtocolV2Builder) (src dst : SocketAddr) : ProxyProtocolV2Builder :=
  mkV2Builder (Some src) (Some dst).

Definition V2Builder_build (self : ProxyProtocolV2Builder) : bytes :=
  let header := PROXY_V2_SIGNATURE ++ [0x21] in
  match v2_src self, v2_dst self with
  | Some (mkSocketAddr (V4 src) sport), Some (mkSocketAddr (V4 dst) dport) =>
      header ++ [0x11] ++ be_bytes 2 12 ++ src ++ dst ++ be_bytes 2 sport ++ be_bytes 2 dport
  | Some (mkSocketAddr (V6 src) sport), Some (mkSocketAddr (V6 dst) dport) =>
      header ++ [0x21] ++ be_bytes 2 36 ++ src ++ dst ++ be_bytes 2 sport ++ be_bytes 2 dport
  | _, _ => splice header 12 [0x20] ++ [0x00] ++ be_bytes 2 0
  end.

(** ** Reading a line *)

Section Theorems.
Context `{AsyncReadOk R}.

Lemma read_or_invalid_ok {A} (r : R) n pre rest (k : bytes -> R -> pp_io A) :
  rd_ok r -> rd_bytes r = pre ++ rest -> zlen pre = n ->
  exists r', read_or_invalid r n k = k pre r' /\ rd_ok r' /\ rd_bytes r' = rest.
Proof.
  intros Hr Hb Hn. pose proof (zlen_nonneg pre). pose proof (zlen_nonneg rest).
  destruct (read_exact_spec r n Hr) as (r' & E & Hr' & Hb'); [rewrite Hb, zlen_app; lia|].
  exists r'. unfold read_or_invalid. rewrite E, Hb', Hb, ztake_app, zdrop_app by done. done.
Qed.

Lemma read_or_invalid_cases {A} (r : R) n (k : bytes -> R -> pp_io A) :
  rd_ok r -> 0 <= n ->
  (exists pre r', read_or_invalid r n k = k pre r' /\ rd_ok r' /\ zlen pre = n /\ rd_bytes r = pre ++ rd_bytes r') \/
  (exists r', read_or_invalid r n k = invalid r' /\ rd_ok r').
Proof.
  intros Hr Hn. destruct (Z.le_gt_cases n (zlen (rd_bytes r))) as [Hle|Hgt].
  - left. destruct (read_or_invalid_ok r n (ztake n (rd_bytes r)) (zdrop n (rd_bytes r)) k) as (r' & E & Hr' & Hb);
      [done|by rewrite ztake_zdrop|rewrite zlen_ztake; lia|].
    exists (ztake n (rd_bytes r)), r'. rewrite Hb, ztake_zdrop, zlen_ztake. split_and!; done || lia.
  - right. destruct (read_exact_short r n Hr) as (e & r' & E & Hr' & _); [lia|].
    exists r'. unfold read_or_invalid. by rewrite E.
Qed.

Lemma ends_with_crlf_not l b : b <> 10 -> ends_with_crlf (l ++ [b]) = false.
Proof.
  intros Hb. unfold ends_with_crlf. apply bool_decide_eq_false. intros E.
  assert (last (l ++ [b]) = Some 10) as L.
  { rewrite <-(ztake_zdrop (zlen (l ++ [b]) - 2) (l ++ [b])), E. by rewrite last_app. }
  rewrite last_snoc in L. congruence.
Qed.

Lemma ends_with_crlf_intro l : ends_with_crlf (l ++ [13; 10]) = true.
Proof.
  unfold ends_with_crlf. apply bool_decide_eq_true. rewrite zdrop_app; [done|].
  rewrite zlen_app. change (zlen [13; 10]) with 2. lia.
Qed.

Lemma ends_with_crlf_inv l : ends_with_crlf l = true -> exists k, l = k ++ [13; 10].
Proof.
  unfold ends_with_crlf. rewrite bool_decide_eq_true. intros E.
  exists (ztake (zlen l - 2) l). by rewrite <-E, ztake_zdrop.
Qed.

(** The line end is not part of the signature. *)
Lemma crlf_in_line used : ends_with_crlf (PROXY_V1_SIGNATURE ++ used) = true -> exists line, used = line ++ [13; 10].
Proof.
  intros [k E]%ends_with_crlf_inv. destruct used as [|y used _] using rev_ind.
  { rewrite app_nil_r in E. apply (f_equal last) in E. by rewrite last_app in E. }
  rewrite app_assoc in E. change [13; 10] with ([13] ++ [10]) in E. rewrite (app_assoc k) in E.
  apply app_inj_tail in E as [E ->]. destruct used as [|x used _] using rev_ind.
  { rewrite app_nil_r in E. apply (f_equal last) in E. by rewrite last_snoc in E. }
  rewrite app_assoc in E. apply app_inj_tail in E as [E ->]. exists used. by rewrite <-app_assoc.
Qed.

(** Text without a line end. *)
Definition no_crlf (l : bytes) : Prop := forall a b, l <> a ++ [13; 10] ++ b.

Lemma no_crlf_prefix l b : no_crlf (l ++ b) -> no_crlf l.
Proof. intros Hn x y ->. apply (Hn x (y ++ b)). by rewrite <-!app_assoc. Qed.

Lemma no_crlf_suffix l b : no_crlf (l ++ b) -> no_crlf b.
Proof. intros Hn x y ->. apply (Hn (l ++ x) y). by rewrite <-!app_assoc. Qed.

Lemma no_crlf_snoc l b : no_crlf l -> ends_with_crlf (l ++ [b]) = false -> no_crlf (l ++ [b]).
Proof.
  intros Hl He x y E. destruct y as [|z y _] using rev_ind.
  - rewrite app_nil_r in E. rewrite E, ends_with_crlf_intro in He. done.
  - rewrite !app_assoc in E. apply app_inj_tail in E as [E _]. apply (Hl x y). by rewrite E, <-!app_assoc.
Qed.

Lemma no_crlf_no_end l : no_crlf l -> ends_with_crlf l = false.
Proof.
  intros Hl. destruct (ends_with_crlf l) eqn:E; [|done]. apply ends_with_crlf_inv in E as [k ->].
  destruct (Hl k []). by rewrite app_nil_r.
Qed.

Lemma no_crlf_after p l : Forall (fun b => b <> 13) p -> no_crlf l -> no_crlf (p ++ l).
Proof.
  intros Hp Hl. induction Hp as [|x p Hx _ IH]; [done|]. intros [|y a] b E; cbn [app] in E; injection E as -> E; [done|].
  by apply (IH a b).
Qed.

Lemma words_one_line text : Forall (fun b => b <> 10) text -> no_crlf (text ++ [13]).
Proof.
  intros Ht a b E. destruct b as [|z b _] using rev_ind.
  - rewrite app_nil_r in E. change [13; 10] with ([13] ++ [10]) in E. rewrite app_assoc in E. by apply app_inj_tail in E as [_ E].
  - rewrite !app_assoc in E. apply app_inj_tail in E as [-> _]. rewrite !Forall_app in Ht. destruct Ht as [[_ Ht] _].
    by apply Forall_cons in Ht as [_ [Ht _]%Forall_cons].
Qed.

(** The line up to its first end is what the loop reads. *)
Lemma v1_line_reads text : forall fuel (r : R) line rest,
  rd_ok r -> rd_bytes r = text ++ [13; 10] ++ rest -> no_crlf (line ++ text ++ [13]) ->
  zlen line + zlen text + 2 <= 257 -> (length text + 2 <= fuel)%nat ->
  exists r', v1_line fuel r line = Some (Done (Ok (line ++ text ++ [13; 10])), r') /\ rd_ok r' /\ rd_bytes r' = rest.
Proof.
  assert (forall fuel (r : R) line b rest, rd_ok r -> rd_bytes r = b :: rest -> no_crlf (line ++ [b]) -> zlen line < 256 ->
    exists r', v1_line (S fuel) r line = v1_line fuel r' (line ++ [b]) /\ rd_ok r' /\ rd_bytes r' = rest) as turn.
  { intros fuel r line b rest Hr Hb Hn Hl. cbn [v1_line].
    match goal with |- context [read_or_invalid r 1 ?k] =>
      destruct (read_or_invalid_ok r 1 [b] rest k) as (r' & -> & Hr' & Hb') end; [done|done|done|].
    exists r'. cbn zeta. rewrite no_crlf_no_end by done. rewrite zlen_app. change (zlen [b]) with 1.
    destruct (Z.ltb_spec 256 (zlen line + 1)); [lia|done]. }
  induction text as [|b text IH]; intros fuel r line rest Hr Hb Ht Hl Hf; pose proof (zlen_nonneg line).
  - cbn [app length] in *. change (zlen []) with 0 in Hl. destruct fuel as [|[|fuel]]; [lia|lia|].
    destruct (turn (S fuel) r line 13 (10 :: rest)) as (r1 & -> & Hr1 & Hb1); [done|done|done|lia|].
    cbn [v1_line].
    match goal with |- context [read_or_invalid r1 1 ?k] =>
      destruct (read_or_invalid_ok r1 1 [10] rest k) as (r' & -> & Hr' & Hb') end; [done|done|done|].
    exists r'. cbn zeta. rewrite <-app_assoc. cbn [app]. by rewrite ends_with_crlf_intro.
  - rewrite zlen_cons in Hl. cbn [length app] in *. pose proof (zlen_nonneg text).
    destruct fuel as [|fuel]; [lia|]. rewrite (cons_middle b line), app_assoc in Ht.
    destruct (turn fuel r line b (text ++ [13; 10] ++ rest)) as (r1 & -> & Hr1 & Hb1); [done|done|by eapply no_crlf_prefix|lia|].
    destruct (IH fuel r1 (line ++ [b]) rest) as (r' & E & Hr' & Hb'); [done|done|done| |lia|].
    { rewrite zlen_app. change (zlen [b]) with 1. lia. }
    exists r'. rewrite E, <-app_assoc. done.
Qed.

(** Whatever the input, the loop ends, within 257 bytes of line, and at the first line end. *)
Lemma v1_line_total : forall fuel (r : R) line,
  rd_ok r -> no_crlf line -> zlen line <= 256 -> 257 - zlen line <= Z.of_nat fuel ->
  exists a r', v1_line fuel r line = Some (Done a, r') /\ rd_ok r' /\
    match a with
    | Err e => e = PE_InvalidProxyProtocol
    | Ok l => exists used k, l = line ++ used /\ rd_bytes r = used ++ rd_bytes r' /\ l = k ++ [13; 10] /\ no_crlf (k ++ [13]) /\
                zlen l <= 257
    end.
Proof.
  induction fuel as [|fuel IH]; intros r line Hr Hn Hl Hf; [lia|]. cbn [v1_line].
  match goal with |- context [read_or_invalid r 1 ?k] =>
    destruct (read_or_invalid_cases r 1 k) as [(pre & r1 & -> & Hr1 & Hp & Hb)|(r1 & -> & Hr1)] end;
    [done|lia| |by eexists _, _].
  cbn zeta. assert (zlen (line ++ pre) = zlen line + 1) as L by (rewrite zlen_app; lia).
  destruct pre as [|b [|]]; try (unfold zlen in Hp; cbn in Hp; lia).
  destruct (ends_with_crlf (line ++ [b])) eqn:Ec.
  { eexists _, _. split; [done|]. split; [done|]. apply ends_with_crlf_inv in Ec as [k Ek]. exists [b], k.
    assert (line = k ++ [13]) as El.
    { change [13; 10] with ([13] ++ [10]) in Ek. rewrite app_assoc in Ek. by apply app_inj_tail in Ek as [? _]. }
    split_and!; [done|done|done|by rewrite <-El|lia]. }
  destruct (Z.ltb_spec 256 (zlen (line ++ [b]))); [by eexists _, _|].
  destruct (IH r1 (line ++ [b])) as (a & r' & -> & Hr' & Ha); [done|by apply no_crlf_snoc|lia|lia|].
  eexists _, _. split; [done|]. split; [done|]. destruct a as [l|e]; [|done].
  destruct Ha as (used & k & -> & Hb' & Ek & Hk & Hz). exists ([b] ++ used), k. by rewrite Hb, Hb', !app_assoc.
Qed.

(** ** Which headers there are

    What the words of a line and the bytes of an address block say. *)

Inductive v1_says (peer : SocketAddr) (text : bytes) : ProxyProtocolInfo -> Prop :=
| v1_says_unknown more : split_whitespace text = str "UNKNOWN" :: more -> v1_says peer text (mkProxyProtocolInfo peer None 1)
| v1_says_tcp family src dst sport dport more src_ip dst_ip src_port dst_port :
    split_whitespace text = family :: src :: dst :: sport :: dport :: more -> family = str "TCP4" \/ family = str "TCP6" ->
    parse_ip src = Some src_ip -> parse_ip dst = Some dst_ip -> parse_u16 sport = Some src_port -> parse_u16 dport = Some dst_port ->
    v1_says peer text (mkProxyProtocolInfo (mkSocketAddr src_ip src_port) (Some (mkSocketAddr dst_ip dst_port)) 1).

Inductive v2_says (peer : SocketAddr) : Z -> Z -> bytes -> ProxyProtocolInfo -> Prop :=
| v2_says_local family addr : v2_says peer 0 family addr (mkProxyProtocolInfo peer None 2)
| v2_says_unspec addr : v2_says peer 1 address_family.UNSPEC addr (mkProxyProtocolInfo peer None 2)
| v2_says_inet src dst sport dport more :
    zlen src = 4 -> zlen dst = 4 -> zlen sport = 2 -> zlen dport = 2 ->
    v2_says peer 1 address_family.INET (src ++ dst ++ sport ++ dport ++ more)
      (mkProxyProtocolInfo (mkSocketAddr (V4 src) (be_val sport)) (Some (mkSocketAddr (V4 dst) (be_val dport))) 2)
| v2_says_inet6 src dst sport dport more :
    zlen src = 16 -> zlen dst = 16 -> zlen sport = 2 -> zlen dport = 2 ->
    v2_says peer 1 address_family.INET6 (src ++ dst ++ sport ++ dport ++ more)
      (mkProxyProtocolInfo (mkSocketAddr (V6 src) (be_val sport)) (Some (mkSocketAddr (V6 dst) (be_val dport))) 2).

(** One header and what it announces: a line up to its first end, or the binary signature with the length of its block. *)
Inductive header_says (peer : SocketAddr) : bytes -> ProxyProtocolInfo -> Prop :=
| line_header text info :
    no_crlf (text ++ [13]) -> zlen (PROXY_V1_SIGNATURE ++ text ++ [13; 10]) <= 257 -> utf8_valid text = true ->
    v1_says peer text info -> header_says peer (PROXY_V1_SIGNATURE ++ text ++ [13; 10]) info
| binary_header vc fp hi lo addr info :
    Z.shiftr vc 4 = 2 -> zlen addr = Z.max 0 (be_val [hi; lo]) -> v2_says peer (Z.land vc 0x0f) (Z.shiftr fp 4) addr info ->
    header_says peer (PROXY_V2_SIGNATURE ++ [vc; fp; hi; lo] ++ addr) info.

Lemma v1_info_says text peer info :
  v1_info text peer = Ok info <-> utf8_valid text = true /\ v1_says peer text info.
Proof.
  unfold v1_info, ok_or. split.
  - intros E. destruct (utf8_valid text); [|done]. split; [done|]. destruct (split_whitespace text) as [|f args] eqn:Es; [done|].
    destruct (bool_decide (f = str "TCP4" \/ f = str "TCP6") && (5 <=? zlen (f :: args))) eqn:Ef.
    + apply andb_prop in Ef as [Ef%bool_decide_eq_true _]. destruct args as [|a [|b [|c [|d args]]]]; try done.
      destruct (parse_ip a) eqn:?; [|done]. cbn in E. destruct (parse_ip b) eqn:?; [|done]. cbn in E.
      destruct (parse_u16 c) eqn:?; [|done]. cbn in E. destruct (parse_u16 d) eqn:?; [|done]. injection E as <-.
      by eapply v1_says_tcp.
    + case_bool_decide as Eu; [|done]. injection E as <-. subst f. by eapply v1_says_unknown.
  - intros [-> Hs]. destruct Hs as [more Es|f a b c d more sa da sp dp Es Hf Ea Eb Ec Ed]; rewrite Es.
    + by rewrite bool_decide_false, bool_decide_true by naive_solver.
    + rewrite bool_decide_true by done. destruct (Z.leb_spec 5 (zlen (f :: a :: b :: c :: d :: more))) as [|Hl].
      2:{ rewrite !zlen_cons in Hl. pose proof (zlen_nonneg more). lia. }
      by rewrite Ea, Eb; cbn; rewrite Ec; cbn; rewrite Ed.
Qed.

(** The fields of an address block. *)
Lemma two_of (l : bytes) : zlen l = 2 -> exists x y, l = [x; y].
Proof. destruct l as [|x [|y [|]]]; intros E; unfold zlen in E; cbn in E; try lia. by eexists _, _. Qed.

Lemma index_u16_at (a v b : bytes) i : i = zlen a -> zlen v = 2 -> index_u16 (a ++ v ++ b) i = Done (be_val v).
Proof.
  intros Hi (x & y & ->)%two_of. unfold index_u16. cbn [app]. rewrite index_mid by done. cbn [obind].
  rewrite (cons_middle x a), app_assoc, index_mid; [done|]. rewrite zlen_app. change (zlen [x]) with 1. lia.
Qed.

Lemma ipv4_at_mid (a o b : bytes) i : i = zlen a -> zlen o = 4 -> ipv4_at (a ++ o ++ b) i = Done (V4 o).
Proof.
  intros -> (w & x & y & z & ->)%zlen_4. unfold ipv4_at. cbn [app].
  assert (forall pre c post j, a ++ w :: x :: y :: z :: b = (a ++ pre) ++ c :: post -> j = zlen a + zlen pre ->
    index (a ++ w :: x :: y :: z :: b) j = Done c) as Hi.
  { intros pre c post j -> Hj. apply index_mid. by rewrite zlen_app. }
  rewrite (Hi [] w (x :: y :: z :: b)); [|by rewrite app_nil_r|by rewrite Z.add_0_r]. cbn [obind].
  rewrite (Hi [w] x (y :: z :: b)); [|by rewrite <-app_assoc|done]. cbn [obind].
  rewrite (Hi [w; x] y (z :: b)); [|by rewrite <-app_assoc|done]. cbn [obind].
  rewrite (Hi [w; x; y] z b); [done|by rewrite <-app_assoc|done].
Qed.

Lemma ipv6_at_mid (a o b : bytes) i : i = zlen a -> zlen o = 16 -> ipv6_at (a ++ o ++ b) i = Done (V6 o).
Proof.
  intros -> Ho. unfold ipv6_at. pose proof (zlen_nonneg a). pose proof (zlen_nonneg b).
  rewrite index_range_ok by (rewrite ?zlen_app; lia). by rewrite slice_mid by lia.
Qed.

(** What a block says is what is read from it. *)
Lemma v2_says_info c fp addr peer info n :
  v2_says peer c (Z.shiftr fp 4) addr info -> zlen addr = Z.max 0 n -> v2_info c fp n addr peer = Done (Ok info).
Proof.
  intros Hs Hn. unfold v2_info. cbv zeta. inversion Hs as [| |src dst sp dp more Ls Ld Lsp Ldp|src dst sp dp more Ls Ld Lsp Ldp]; subst; [done|done|..].
  all: assert (zlen (src ++ dst) = zlen src + zlen dst) as L2 by apply zlen_app.
  all: assert (zlen (src ++ dst ++ sp) = zlen src + zlen dst + 2) as L3 by (rewrite !zlen_app; lia).
  all: rewrite !zlen_app in Hn; pose proof (zlen_nonneg more).
  - change (_ =? 0) with false. change (negb (1 =? 1)) with false. cbv iota.
    change (address_family.INET =? address_family.INET) with true. destruct (Z.leb_spec 12 n); [|lia]. cbn [andb].
    rewrite (ipv4_at_mid [] src (dst ++ sp ++ dp ++ more) 0 eq_refl Ls : ipv4_at (src ++ _) 0 = _). cbn [obind]. rewrite (ipv4_at_mid src dst) by lia. cbn [obind].
    rewrite (app_assoc src dst), (index_u16_at (src ++ dst) sp) by lia. cbn [obind].
    rewrite <-app_assoc, (app_assoc dst sp), (app_assoc src), (index_u16_at (src ++ dst ++ sp) dp) by lia. done.
  - change (_ =? 0) with false. change (negb (1 =? 1)) with false. cbv iota.
    change (address_family.INET6 =? address_family.INET) with false. cbn [andb].
    change (address_family.INET6 =? address_family.INET6) with true. destruct (Z.leb_spec 36 n); [|lia]. cbn [andb].
    rewrite (ipv6_at_mid [] src (dst ++ sp ++ dp ++ more) 0 eq_refl Ls : ipv6_at (src ++ _) 0 = _). cbn [obind]. rewrite (ipv6_at_mid src dst) by lia. cbn [obind].
    rewrite (app_assoc src dst), (index_u16_at (src ++ dst) sp) by lia. cbn [obind].
    rewrite <-app_assoc, (app_assoc dst sp), (app_assoc src), (index_u16_at (src ++ dst ++ sp) dp) by lia. done.
Qed.

Lemma block_fields (addr : bytes) k :
  0 <= k -> 2 * k + 4 <= zlen addr ->
  exists src dst sp dp more, addr = src ++ dst ++ sp ++ dp ++ more /\ zlen src = k /\ zlen dst = k /\ zlen sp = 2 /\ zlen dp = 2.
Proof.
  intros Hk Hl. set (a1 := zdrop k addr). set (a2 := zdrop k a1). set (a3 := zdrop 2 a2).
  assert (zlen a1 = zlen addr - k) as L1 by (unfold a1; rewrite zlen_zdrop; lia).
  assert (zlen a2 = zlen addr - 2 * k) as L2 by (unfold a2; rewrite zlen_zdrop; lia).
  assert (zlen a3 = zlen addr - 2 * k - 2) as L3 by (unfold a3; rewrite zlen_zdrop; lia).
  exists (ztake k addr), (ztake k a1), (ztake 2 a2), (ztake 2 a3), (zdrop 2 a3). rewrite !zlen_ztake.
  split_and!; [|lia..]. rewrite ztake_zdrop. unfold a3. rewrite ztake_zdrop. unfold a2. rewrite ztake_zdrop. unfold a1. by rewrite ztake_zdrop.
Qed.

(** No index is out of range: the block is read, or refused as it should be. *)
Lemma v2_info_total c fp addr peer n :
  zlen addr = Z.max 0 n ->
  exists a, v2_info c fp n addr peer = Done a /\
    match a with Ok info => v2_says peer c (Z.shiftr fp 4) addr info | Err e => e = PE_InvalidProxyProtocol end.
Proof.
  intros Hn. pose proof (fun info H => v2_says_info c fp addr peer info n H Hn) as Hsays.
  destruct (Z.eqb_spec c 0) as [->|Hc0]; [eexists; split; [by apply Hsays, v2_says_local|constructor]|].
  destruct (Z.eqb_spec c 1) as [->|Hc1]. 2:{ unfold v2_info. destruct (Z.eqb_spec c 0), (Z.eqb_spec c 1); try done. by eexists. }
  set (family := Z.shiftr fp 4) in *.
  destruct (decide (family = address_family.INET /\ 12 <= n)) as [[Hf Hl]|Hno4].
  { destruct (block_fields addr 4) as (src & dst & sp & dp & more & -> & ? & ? & ? & ?); [lia..|].
    rewrite Hf in *. eexists. split; [by apply Hsays, v2_says_inet|by constructor]. }
  destruct (decide (family = address_family.INET6 /\ 36 <= n)) as [[Hf Hl]|Hno6].
  { destruct (block_fields addr 16) as (src & dst & sp & dp & more & -> & ? & ? & ? & ?); [lia..|].
    rewrite Hf in *. eexists. split; [by apply Hsays, v2_says_inet6|by constructor]. }
  destruct (Z.eqb_spec family address_family.UNSPEC) as [Hf|Hf].
  { rewrite Hf in *. eexists. split; [by apply Hsays, v2_says_unspec|constructor]. }
  unfold v2_info. fold family. cbv zeta. change (1 =? 0) with false. change (negb (1 =? 1)) with false. cbv iota.
  destruct (Z.eqb_spec family address_family.INET), (Z.leb_spec 12 n); cbn [andb]; try (destruct Hno4; by split);
    destruct (Z.eqb_spec family address_family.INET6), (Z.leb_spec 36 n); cbn [andb]; try (destruct Hno6; by split);
    destruct (Z.eqb_spec family address_family.UNSPEC); try done; by eexists.
Qed.

(** ** What is built is what is parsed *)

(** The headers the builders make for a connection and what they announce. *)
Inductive announces (peer : SocketAddr) : bytes -> ProxyProtocolInfo -> Prop :=
| ann_tcp4 src dst : addr_ok src -> addr_ok dst ->
    announces peer (V1Builder_build (V1Builder_tcp4 V1Builder_new src dst)) (mkProxyProtocolInfo src (Some dst) 1)
| ann_tcp6 src dst : addr_ok src -> addr_ok dst ->
    announces peer (V1Builder_build (V1Builder_tcp6 V1Builder_new src dst)) (mkProxyProtocolInfo src (Some dst) 1)
| ann_unknown : announces peer (V1Builder_build V1Builder_new) (mkProxyProtocolInfo peer None 1)
| ann_v2 src dst : addr_ok src -> addr_ok dst -> is_ipv4 (sa_ip src) = is_ipv4 (sa_ip dst) ->
    announces peer (V2Builder_build (V2Builder_with_addrs V2Builder_new src dst)) (mkProxyProtocolInfo src (Some dst) 2)
| ann_v2_mixed src dst : is_ipv4 (sa_ip src) <> is_ipv4 (sa_ip dst) ->
    announces peer (V2Builder_build (V2Builder_with_addrs V2Builder_new src dst)) (mkProxyProtocolInfo peer None 2)
| ann_v2_local : announces peer (V2Builder_build V2Builder_new) (mkProxyProtocolInfo peer None 2).

(** A version 1 line. *)
Lemma parse_v1_text (r : R) peer text rest :
  rd_ok r -> rd_bytes r = PROXY_V1_SIGNATURE ++ text ++ [13; 10] ++ rest -> no_crlf (text ++ [13]) -> zlen text <= 249 ->
  exists r', parse_proxy_protocol r peer = Some (Done (v1_info text peer), r') /\ rd_ok r' /\ rd_bytes r' = rest.
Proof.
  intros Hr Hb Hn Hl. unfold parse_proxy_protocol.
  match goal with |- context [read_or_invalid r _ ?k] =>
    destruct (read_or_invalid_ok r PROXY_V1_MIN_LEN PROXY_V1_SIGNATURE _ k Hr Hb eq_refl) as (r1 & -> & Hr1 & Hb1) end.
  rewrite bool_decide_true by done. unfold parse_v1.
  destruct (v1_line_reads text v1_fuel r1 PROXY_V1_SIGNATURE rest) as (r' & -> & Hr' & Hb'); [done|done| | | |].
  { apply no_crlf_after; [repeat constructor; done|done]. }
  { change (zlen PROXY_V1_SIGNATURE) with 6. lia. }
  { unfold v1_fuel. unfold zlen in Hl. lia. }
  exists r'. split; [|done]. cbn [mbind option_bind obind]. pose proof (zlen_nonneg text).
  rewrite index_range_ok; rewrite ?zlen_app; change (zlen PROXY_V1_SIGNATURE) with 6; change (zlen [13; 10]) with 2;
    change PROXY_V1_MIN_LEN with 6; try lia.
  cbn [obind]. do 4 f_equal. apply slice_mid; [done|]. change (zlen PROXY_V1_SIGNATURE) with 6. lia.
Qed.

Lemma parse_v1_words (r : R) peer words rest :
  rd_ok r -> rd_bytes r = PROXY_V1_SIGNATURE ++ join 32 words ++ [13; 10] ++ rest ->
  Forall (fun w => w <> [] /\ Forall word_char w) words -> zlen (join 32 words) <= 249 ->
  exists r', parse_proxy_protocol r peer = Some (Done (v1_info (join 32 words) peer), r') /\ rd_ok r' /\ rd_bytes r' = rest.
Proof.
  intros Hr Hb Hw Hl. apply parse_v1_text; [done|done| |done]. apply words_one_line, join_Forall; [done|].
  eapply Forall_impl; [exact Hw|]. intros w [_ F]. eapply Forall_impl; [exact F|].
  intros b Hb'. unfold word_char in Hb'. lia.
Qed.

Lemma utf8_words words : Forall (fun w => w <> [] /\ Forall word_char w) words -> utf8_valid (join 32 words) = true.
Proof.
  intros Hw. apply utf8_ascii, join_Forall; [lia|]. eapply Forall_impl; [exact Hw|]. intros w [_ F].
  eapply Forall_impl; [exact F|]. intros b Hb. unfold word_char in Hb. lia.
Qed.

Lemma parse_v1_tcp (r : R) peer family src dst rest :
  rd_ok r -> family = str "TCP4" \/ family = str "TCP6" -> addr_ok src -> addr_ok dst ->
  rd_bytes r = V1Builder_build (mkV1Builder family (Some src) (Some dst)) ++ rest ->
  exists r', parse_proxy_protocol r peer = Some (Done (Ok (mkProxyProtocolInfo src (Some dst) 1)), r') /\ rd_ok r' /\ rd_bytes r' = rest.
Proof.
  intros Hr Hf [Hsi Hsp]%addr_ok_ip [Hdi Hdp]%addr_ok_ip Hb.
  destruct (fmt_ip_text (sa_ip src) Hsi) as (S1 & S2 & S3), (fmt_ip_text (sa_ip dst) Hdi) as (D1 & D2 & D3).
  destruct (fmt_num_text 10 5 (sa_port src)) as (P1 & P2 & P3); [by left|lia|lia|].
  destruct (fmt_num_text 10 5 (sa_port dst)) as (Q1 & Q2 & Q3); [by left|lia|lia|].
  assert (family <> [] /\ Forall word_char family /\ zlen family = 4) as (F1 & F2 & F3).
  { destruct Hf as [-> | ->]; (split_and!; [done|repeat constructor; done|done]). }
  set (words := [family; fmt_ip (sa_ip src); fmt_ip (sa_ip dst); fmt_num 10 (sa_port src); fmt_num 10 (sa_port dst)]).
  assert (Forall (fun w => w <> [] /\ Forall word_char w) words) as Hw by (repeat constructor; done).
  destruct (parse_v1_words r peer words rest) as (r' & -> & Hr' & Hb'); [done| |done| |].
  { rewrite Hb. unfold V1Builder_build. cbn [v1_src v1_dst v1_family join words].
    unfold PROXY_V1_SIGNATURE. by rewrite <-!app_assoc; cbn [app]; rewrite <-!app_assoc; cbn [app]; rewrite <-!app_assoc;
      cbn [app]; rewrite <-!app_assoc; cbn [app]; rewrite <-!app_assoc. }
  { unfold words. cbn [join]. zlen_simpl. lia. }
  exists r'. split; [|done]. unfold v1_info. rewrite utf8_words, split_whitespace_words by done. unfold words.
  rewrite bool_decide_true by done. change (5 <=? zlen words) with true. cbn [andb].
  rewrite !parse_ip_fmt, !parse_u16_fmt by done. cbn. by destruct src, dst.
Qed.

(** A binary header, as its fields. *)
Lemma parse_v2_fields (r : R) peer vc fp hi lo addr rest :
  rd_ok r -> Z.shiftr vc 4 = 2 -> zlen addr = Z.max 0 (be_val [hi; lo]) ->
  rd_bytes r = PROXY_V2_SIGNATURE ++ [vc; fp; hi; lo] ++ addr ++ rest ->
  exists r', parse_proxy_protocol r peer = Some (v2_info (Z.land vc 0x0f) fp (be_val [hi; lo]) addr peer, r') /\
    rd_ok r' /\ rd_bytes r' = rest.
Proof.
  intros Hr Hv Hl Hb. pose proof (zlen_nonneg addr) as Hnn.
  unfold parse_proxy_protocol, PROXY_V2_SIGNATURE in *. cbn [app] in Hb.
  match goal with |- context [read_or_invalid r _ ?k] =>
    destruct (read_or_invalid_ok r PROXY_V1_MIN_LEN [0x0d; 0x0a; 0x0d; 0x0a; 0x00; 0x0d] _ k Hr Hb eq_refl)
      as (r1 & -> & Hr1 & Hb1) end.
  rewrite bool_decide_false by done.
  match goal with |- context [read_or_invalid r1 ?n ?k] =>
    destruct (read_or_invalid_ok r1 n [0x0a; 0x51; 0x55; 0x49; 0x54; 0x0a; vc; fp; hi; lo] (addr ++ rest) k Hr1 Hb1 eq_refl)
      as (r2 & -> & Hr2 & Hb2) end.
  cbn [app]. rewrite bool_decide_true by done. unfold parse_v2.
  change (byte_at _ 12) with vc. change (byte_at _ 13) with fp. change (slice _ 14 16) with [hi; lo].
  rewrite Hv. cbn [negb Z.eqb Pos.eqb]. set (n := be_val [hi; lo]) in *. destruct (Z.ltb_spec 0 n) as [Hpos|Hz].
  - match goal with |- context [read_or_invalid r2 _ ?k] =>
      destruct (read_or_invalid_ok r2 n addr rest k Hr2 Hb2 ltac:(lia)) as (r3 & -> & Hr3 & Hb3) end.
    by exists r3.
  - assert (addr = []) as -> by (apply zlen_zero_nil; lia). by exists r2.
Qed.

(** Every header is accepted for what it says, and nothing after it is read. *)
Lemma parse_accepts (r : R) peer hdr info rest :
  header_says peer hdr info -> rd_ok r -> rd_bytes r = hdr ++ rest ->
  exists r', parse_proxy_protocol r peer = Some (Done (Ok info), r') /\ rd_ok r' /\ rd_bytes r' = rest.
Proof.
  intros Hh Hr Hb. destruct Hh as [text info Hn Hl Hu Hs|vc fp hi lo addr info Hvc Hl Hs].
  - destruct (parse_v1_text r peer text rest) as (r' & -> & Hr'); [done|by rewrite Hb, <-!app_assoc|done| |].
    { rewrite !zlen_app in Hl. change (zlen PROXY_V1_SIGNATURE) with 6 in Hl. change (zlen [13; 10]) with 2 in Hl. lia. }
    exists r'. split; [|done]. by rewrite (proj2 (v1_info_says text peer info)).
  - destruct (parse_v2_fields r peer vc fp hi lo addr rest) as (r' & -> & Hr'); [done|done|done|by rewrite Hb, <-!app_assoc|].
    exists r'. split; [|done]. by rewrite (v2_says_info _ _ _ _ info).
Qed.

(** The blocks of the builders. *)
Lemma v2_header_says peer c f n src dst sport dport k info :
  n = 2 * k + 4 -> 0 <= n < 2 ^ 16 -> zlen src = k -> zlen dst = k -> 0 <= sport < 2 ^ 16 -> 0 <= dport < 2 ^ 16 -> Z.shiftr c 4 = 2 ->
  v2_says peer (Z.land c 0x0f) (Z.shiftr f 4) (src ++ dst ++ be_bytes 2 sport ++ be_bytes 2 dport) info ->
  header_says peer (PROXY_V2_SIGNATURE ++ [c] ++ [f] ++ be_bytes 2 n ++ src ++ dst ++ be_bytes 2 sport ++ be_bytes 2 dport) info.
Proof.
  intros -> Hn Hs Hd Hsp Hdp Hc Hi. pose proof (be_val_be_bytes_small 2 (2 * k + 4) Hn) as Ev.
  destruct (two_of (be_bytes 2 (2 * k + 4))) as (hi & lo & E); [apply zlen_be_bytes|]. rewrite E in *.
  apply (binary_header peer c f hi lo (src ++ dst ++ be_bytes 2 sport ++ be_bytes 2 dport)); [done| |done].
  rewrite Ev, !zlen_app, !zlen_be_bytes. pose proof (zlen_nonneg src). lia.
Qed.

(** Whatever header the builders make for a connection (text or binary, IPv4, IPv6 or without addresses),
    and however the transport cuts it into pieces, the parser accepts it, reports the addresses and
    the version the header announces (the peer's own address when it announces none), and leaves
    the reader at the first byte after the header. *)
Theorem proxy_header_roundtrip (r : R) peer hdr info rest :
  announces peer hdr info -> rd_ok r -> rd_bytes r = hdr ++ rest ->
  exists r', parse_proxy_protocol r peer = Some (Done (Ok info), r') /\ rd_ok r' /\ rd_bytes r' = rest.
Proof.
  assert (header_says peer (PROXY_V2_SIGNATURE ++ [0x20; 0; 0; 0]) (mkProxyProtocolInfo peer None 2)) as Hlocal.
  { apply (binary_header peer 0x20 0 0 0 []); [done|done|constructor]. }
  intros Ha Hr Hb. destruct Ha as [src dst Hs Hd|src dst Hs Hd| |src dst Hs Hd Hf|src dst Hf|].
  - apply (parse_v1_tcp r peer (str "TCP4")); auto.
  - apply (parse_v1_tcp r peer (str "TCP6")); auto.
  - apply (parse_v1_words r peer [str "UNKNOWN"] rest); [done|done| |done].
    constructor; [split; [done|repeat constructor; done]|constructor].
  - eapply parse_accepts; [|done|exact Hb].
    destruct src as [[s|s] sp], dst as [[d|d] dp]; try done; destruct Hs as [[Ls _] Hsp], Hd as [[Ld _] Hdp];
      cbn [sa_ip sa_port V2Builder_build V2Builder_with_addrs v2_src v2_dst] in *; rewrite <-!app_assoc.
    + apply (v2_header_says peer 0x21 0x11 12 s d sp dp 4); try done. rewrite <-(app_nil_r (be_bytes 2 dp)).
      pose proof (v2_says_inet peer s d (be_bytes 2 sp) (be_bytes 2 dp) [] Ls Ld (zlen_be_bytes _ _) (zlen_be_bytes _ _)) as Hsay.
      by rewrite !be_val_be_bytes_small in Hsay by (cbn; lia).
    + apply (v2_header_says peer 0x21 0x21 36 s d sp dp 16); try done. rewrite <-(app_nil_r (be_bytes 2 dp)).
      pose proof (v2_says_inet6 peer s d (be_bytes 2 sp) (be_bytes 2 dp) [] Ls Ld (zlen_be_bytes _ _) (zlen_be_bytes _ _)) as Hsay.
      by rewrite !be_val_be_bytes_small in Hsay by (cbn; lia).
  - destruct src as [[s|s] sp], dst as [[d|d] dp]; try done; by eapply parse_accepts.
  - by eapply parse_accepts.
Qed.

Lemma v1_info_error text peer e : v1_info text peer = Err e -> e = PE_InvalidProxyProtocol.
Proof.
  unfold v1_info, ok_or. destruct (utf8_valid text); [|by intros [= <-]]. destruct (split_whitespace text) as [|f args]; [by intros [= <-]|].
  destruct (_ && _); [|destruct (bool_decide _); [done|by intros [= <-]]].
  destruct args as [|a [|b [|c [|d args]]]]; try (by intros [= <-]).
  destruct (parse_ip a); [|by intros [= <-]]. cbn. destruct (parse_ip b); [|by intros [= <-]]. cbn.
  destruct (parse_u16 c); [|by intros [= <-]]. cbn. destruct (parse_u16 d); [done|by intros [= <-]].
Qed.

(** What the parser gives is the protocol error or what a header says that it has read. *)
Definition parsed_ok (peer : SocketAddr) (read : bytes -> bytes) (a : result ProxyError ProxyProtocolInfo) (given left : bytes) : Prop :=
  match a with
  | Err e => e = PE_InvalidProxyProtocol
  | Ok info => exists hdr, given = hdr ++ left /\ header_says peer (read hdr) info
  end.

Lemma parse_v1_total (r : R) peer :
  rd_ok r ->
  exists a r', parse_v1 r peer = Some (Done a, r') /\ rd_ok r' /\
    parsed_ok peer (app PROXY_V1_SIGNATURE) a (rd_bytes r) (rd_bytes r').
Proof.
  intros Hr. unfold parse_v1. assert (no_crlf PROXY_V1_SIGNATURE) as Hsig.
  { pose proof (no_crlf_after PROXY_V1_SIGNATURE []) as Hn. rewrite app_nil_r in Hn. apply Hn; [repeat constructor; done|].
    intros [|? ?] ? E; discriminate E. }
  destruct (v1_line_total v1_fuel r PROXY_V1_SIGNATURE Hr Hsig) as (a & r' & -> & Hr' & Ha); [done|done|].
  cbn [mbind option_bind obind]. destruct a as [l|e]; [|by eexists _, _].
  destruct Ha as (used & k & -> & Hb & Ek & Hk & Hz). destruct (crlf_in_line used) as [text ->]; [by rewrite Ek, ends_with_crlf_intro|].
  rewrite app_assoc in Ek. apply app_inv_tail in Ek as <-. pose proof (zlen_nonneg text).
  rewrite index_range_ok; rewrite ?zlen_app; change (zlen PROXY_V1_SIGNATURE) with 6; change (zlen [13; 10]) with 2;
    change PROXY_V1_MIN_LEN with 6; try lia.
  rewrite slice_mid by (change (zlen PROXY_V1_SIGNATURE) with 6; lia). cbn [obind]. eexists _, _. split; [done|]. split; [done|].
  destruct (v1_info text peer) as [info|e] eqn:Ei; [|by eapply v1_info_error]. apply v1_info_says in Ei as [Hu Hs].
  exists (text ++ [13; 10]). split; [done|]. apply line_header; [|done..].
  rewrite <-app_assoc in Hk. by eapply no_crlf_suffix.
Qed.

Lemma v2_header_shape h :
  ztake 12 h = PROXY_V2_SIGNATURE -> zlen h = 16 -> exists vc fp hi lo, h = PROXY_V2_SIGNATURE ++ [vc; fp; hi; lo].
Proof.
  intros E L. destruct (zlen_4 (zdrop 12 h)) as (a & b & c & d & Ed); [rewrite zlen_zdrop; lia|].
  exists a, b, c, d. by rewrite <-E, <-Ed, ztake_zdrop.
Qed.

Lemma parse_v2_total (r : R) vc fp hi lo peer :
  rd_ok r ->
  exists a r', parse_v2 r (PROXY_V2_SIGNATURE ++ [vc; fp; hi; lo]) peer = Some (Done a, r') /\ rd_ok r' /\
    parsed_ok peer (app (PROXY_V2_SIGNATURE ++ [vc; fp; hi; lo])) a (rd_bytes r) (rd_bytes r').
Proof.
  intros Hr. unfold parse_v2. change (byte_at _ 12) with vc. change (byte_at _ 13) with fp.
  change (slice _ 14 16) with [hi; lo]. set (n := be_val [hi; lo]).
  destruct (Z.eqb_spec (Z.shiftr vc 4) 2) as [Ev|]; [|by eexists _, _]. cbn [negb].
  assert (forall addr r', rd_ok r' -> zlen addr = Z.max 0 n -> rd_bytes r = addr ++ rd_bytes r' ->
    exists a r2, Some (v2_info (Z.land vc 15) fp n addr peer, r') = Some (Done a, r2) /\ rd_ok r2 /\
      parsed_ok peer (app (PROXY_V2_SIGNATURE ++ [vc; fp; hi; lo])) a (rd_bytes r) (rd_bytes r2)) as Hgo.
  { intros addr r' Hr' Hl Hb. destruct (v2_info_total (Z.land vc 15) fp addr peer n Hl) as (a & -> & Ha).
    eexists _, _. split; [done|]. split; [done|]. destruct a as [info|e]; [|done]. exists addr. split; [done|].
    rewrite <-app_assoc. by apply binary_header. }
  destruct (Z.ltb_spec 0 n).
  - match goal with |- context [read_or_invalid r ?n ?k] =>
      destruct (read_or_invalid_cases r n k) as [(addr & r2 & -> & Hr2 & Hm & Hb1)|(r2 & -> & Hr2)] end;
      [done|lia| |by eexists _, _].
    apply Hgo; [done|lia|done].
  - apply Hgo; [done|change (zlen (@nil Z)) with 0; lia|done].
Qed.

Lemma parse_total (r : R) peer :
  rd_ok r ->
  exists a r', parse_proxy_protocol r peer = Some (Done a, r') /\ rd_ok r' /\
    parsed_ok peer (fun hdr => hdr) a (rd_bytes r) (rd_bytes r').
Proof.
  intros Hr. unfold parse_proxy_protocol.
  match goal with |- context [read_or_invalid r _ ?k] =>
    destruct (read_or_invalid_cases r PROXY_V1_MIN_LEN k) as [(sig & r1 & -> & Hr1 & Hs & Hb)|(r1 & -> & Hr1)] end;
    [done|done| |by eexists _, _].
  case_bool_decide as Es.
  { destruct (parse_v1_total r1 peer Hr1) as (a & r2 & -> & Hr2 & Ha). eexists _, _. split; [done|]. split; [done|].
    destruct a as [info|e]; [|done]. destruct Ha as (line & Hb1 & Hh). eexists. split; [|exact Hh]. by rewrite Hb, Hb1, Es, <-!app_assoc. }
  match goal with |- context [read_or_invalid r1 ?n ?k] =>
    destruct (read_or_invalid_cases r1 n k) as [(more & r2 & -> & Hr2 & Hm & Hb1)|(r2 & -> & Hr2)] end;
    [done|done| |by eexists _, _].
  case_bool_decide as Eh; [|by eexists _, _].
  destruct (v2_header_shape (sig ++ more) Eh) as (vc & fp & hi & lo & Esig).
  { rewrite zlen_app. change PROXY_V1_MIN_LEN with 6 in *. change PROXY_V2_MIN_LEN with 16 in *. lia. }
  destruct (parse_v2_total r2 vc fp hi lo peer Hr2) as (a & r3 & E & Hr3 & Ha). rewrite Esig, E.
  eexists _, _. split; [done|]. split; [done|]. destruct a as [info|e]; [|done].
  destruct Ha as (addr & Hb2 & Hh). eexists. split; [|exact Hh]. by rewrite Hb, Hb1, Hb2, app_assoc, Esig, <-!app_assoc.
Qed.

(** C26: the parser accepts exactly the headers there are.  On any input, in whatever pieces it arrives and then ends, it
    returns, without a panic; when the input
    begins with a header (a line that starts with the text signature, has at most 257 bytes up to and with its first
    line end, and whose words name a connection or say UNKNOWN; or the binary signature with version 2, a command and
    family that are known, and as many address bytes as the length field says, enough for the family), it gives the
    addresses and the version that the header says, and has read the header and nothing after it; otherwise it fails
    with the protocol error. *)
Theorem proxy_parse_total (r : R) peer :
  rd_ok r ->
  exists a r', parse_proxy_protocol r peer = Some (Done a, r') /\ rd_ok r' /\
    match a with
    | Ok info => exists hdr, rd_bytes r = hdr ++ rd_bytes r' /\ header_says peer hdr info
    | Err e => e = PE_InvalidProxyProtocol /\
        forall hdr rest info, rd_bytes r = hdr ++ rest -> ~ header_says peer hdr info
    end.
Proof.
  intros Hr. destruct (parse_total r peer Hr) as (a & r' & E & Hr' & Ha). exists a, r'. split; [done|]. split; [done|].
  destruct a as [info|e]; [done|]. split; [done|]. intros hdr rest info Hb Hh.
  destruct (parse_accepts r peer hdr info rest Hh Hr Hb) as (r2 & E2 & _). congruence.
Qed.
End Theorems.

(** ** Any connection

    Errors and early ends included, the parser comes back unless the peer falls silent, it does not panic, and what it
    has read is what the connection had first. *)

Definition parses (up : upstream_r) {A} (x : option (outcome (result ProxyError A) * upstream_r)) : Prop :=
  match x with
  | None => up_ends up = false
  | Some (a, up') => up_ends up' = up_ends up /\ (exists a', a = Done a') /\ exists hdr, up_bytes up = hdr ++ up_bytes up'
  end.

Lemma parses_more (up up1 : upstream_r) pre {A} (x : option (outcome (result ProxyError A) * upstream_r)) :
  up_ends up1 = up_ends up -> up_bytes up = pre ++ up_bytes up1 -> parses up1 x -> parses up x.
Proof.
  intros He E. destruct x as [[a up']|]; cbn; [|congruence]. intros (He' & Ha & hdr & E'). split; [congruence|]. split; [done|].
  exists (pre ++ hdr). by rewrite E, E', app_assoc.
Qed.

Lemma parses_here up {A} (a : result ProxyError A) : parses up (Some (Done a, up)).
Proof. split; [done|]. split; [by eexists|]. by exists []. Qed.

Lemma read_or_invalid_script (up : upstream_r) n {A} (k : bytes -> upstream_r -> pp_io A) :
  0 <= n -> (forall bs up', zlen bs = n -> parses up' (k bs up')) -> parses up (read_or_invalid up n k).
Proof.
  intros Hn Hk. unfold read_or_invalid. pose proof (up_read_exact up n Hn) as Hr. destruct (read_exact up n) as [[a up']|]; [|done].
  destruct Hr as (He & consumed & Hb & Ha). destruct a as [bs|e].
  - destruct Ha as [_ Hl]. eapply parses_more; [done|done|]. by apply Hk.
  - eapply parses_more; [done|done|]. apply parses_here.
Qed.

Lemma v1_line_script fuel : forall (up : upstream_r) line,
  zlen line <= 256 -> 257 - zlen line <= Z.of_nat fuel ->
  parses up (v1_line fuel up line) /\
  forall l up', v1_line fuel up line = Some (Done (Ok l), up') -> (exists used, l = line ++ used) /\ ends_with_crlf l = true.
Proof.
  induction fuel as [|fuel IH]; intros up line Hl Hf; [lia|]. cbn [v1_line].
  assert (forall bs (up' : upstream_r), zlen bs = 1 -> let line' := line ++ bs in
    parses up' (if ends_with_crlf line' then Some (Done (Ok line'), up') else if 256 <? zlen line' then invalid up' else v1_line fuel up' line') /\
    forall l up2, (if ends_with_crlf line' then Some (Done (Ok line'), up') else if 256 <? zlen line' then invalid up' else v1_line fuel up' line')
      = Some (Done (Ok l), up2) -> (exists used, l = line ++ used) /\ ends_with_crlf l = true) as Hturn.
  { intros bs up' Hbs line'. assert (zlen line' = zlen line + 1) as L by (unfold line'; rewrite zlen_app; lia).
    destruct (ends_with_crlf line') eqn:Ec; [split; [apply parses_here|intros l up2 [= <- <-]; split; [by exists bs|done]]|].
    destruct (Z.ltb_spec 256 (zlen line')); [split; [apply parses_here|done]|].
    destruct (IH up' line') as [H1 H2]; [lia|lia|]. split; [done|]. intros l up2 E.
    destruct (H2 l up2 E) as [[used ->] ?]. split; [|done]. exists (bs ++ used). unfold line'. by rewrite app_assoc. }
  split; [by apply read_or_invalid_script; [done|]; intros bs up' Hbs; apply (Hturn bs up' Hbs)|].
  unfold read_or_invalid. intros l up'. pose proof (up_read_exact up 1 ltac:(lia)) as Hr.
  destruct (read_exact up 1) as [[[bs|e] up1]|]; [|done|done]. destruct Hr as (_ & consumed & _ & _ & Hbs).
  apply (Hturn bs up1 Hbs).
Qed.

Lemma parse_v1_script (up : upstream_r) peer : parses up (parse_v1 up peer).
Proof.
  unfold parse_v1. destruct (v1_line_script v1_fuel up PROXY_V1_SIGNATURE) as [Hp Hl]; [done|done|].
  destruct (v1_line v1_fuel up PROXY_V1_SIGNATURE) as [[a up']|]; [|done]. cbn [mbind option_bind].
  destruct Hp as (He & (a' & ->) & Hb). split; [done|]. split; [|done]. cbn [obind]. destruct a' as [l|e]; [|by eexists].
  destruct (Hl l up' eq_refl) as [[used ->] Ec]. destruct (crlf_in_line used Ec) as [text ->]. pose proof (zlen_nonneg text).
  rewrite index_range_ok; rewrite ?zlen_app; change (zlen PROXY_V1_SIGNATURE) with 6; change (zlen [13; 10]) with 2;
    change PROXY_V1_MIN_LEN with 6; try lia.
  by eexists.
Qed.

Lemma parse_proxy_script (up : upstream_r) peer : parses up (parse_proxy_protocol up peer).
Proof.
  apply read_or_invalid_script; [done|]. intros sig up1 Hs. case_bool_decide; [apply parse_v1_script|].
  apply read_or_invalid_script; [done|]. intros more up2 Hm. cbn zeta. case_bool_decide; [|apply parses_here].
  unfold parse_v2. destruct (negb _); [apply parses_here|]. cbn zeta.
  assert (forall c fp n addr up, zlen addr = Z.max 0 n -> parses up (Some (v2_info c fp n addr peer, up))) as Hinfo.
  { intros c fp n addr up3 Hl. destruct (v2_info_total c fp addr peer n Hl) as (a & -> & _). apply parses_here. }
  match goal with |- context [0 <? ?n] => destruct (Z.ltb_spec 0 n) end;
    [|apply Hinfo; change (zlen (@nil Z)) with 0; lia].
  apply read_or_invalid_script; [lia|]. intros addr up3 Hl. apply Hinfo. lia.
Qed.

Definition demo_src : SocketAddr := mkSocketAddr (V6 [0x20; 1; 0x0d; 0xb8; 0; 0; 0; 0; 0; 0; 0; 0; 0; 0; 0; 1]) 12345.
Definition demo_dst : SocketAddr := mkSocketAddr (V4 [10; 0; 0; 1]) 443.
Definition demo_line : bytes := V1Builder_build (V1Builder_tcp6 V1Builder_new demo_src demo_dst).

Lemma proxy_parse_total_witness :
  let input : upstream_r := [RdData (ztake 9 demo_line); RdPending; RdData (zdrop 9 demo_line ++ str "GET")] in
  exists a r', parse_proxy_protocol input demo_dst = Some (Done a, r') /\ rd_ok r' /\
    match a with
    | Ok info => exists hdr, rd_bytes input = hdr ++ rd_bytes r' /\ header_says demo_dst hdr info
    | Err e => e = PE_InvalidProxyProtocol /\
        forall hdr rest info, rd_bytes input = hdr ++ rest -> ~ header_says demo_dst hdr info
    end.
Proof.
  intros input. apply (proxy_parse_total input demo_dst). vm_compute. reflexivity.
Defined.

(** What is accepted and what is left. *)
Example demo_accepted :
  match parse_proxy_protocol [RdData (ztake 9 demo_line); RdPending; RdData (zdrop 9 demo_line ++ str "GET")] demo_dst with
  | Some (Done (Ok info), r) => (info, up_bytes r)
  | _ => (ProxyProtocolInfo_new demo_dst, [])
  end = (mkProxyProtocolInfo demo_src (Some demo_dst) 1, str "GET").
Proof. vm_compute. reflexivity. Qed.
