(* ===== verification/DnsOverrides.v ===== *)
(** * Name overrides: [network/dns_overrides.rs]

    Entries [host:port:ip] of the configuration replace the resolution of names at run time.  The
    process-wide map behind its lock is an explicit store; the lock is never poisoned here, since
    nothing panics while it is held. *)

From stdpp Require Import gmap.
From S2P Require Import Prelude NetAddr Errors.

Abbreviation OverrideMap := (gmap (bytes * Z) IpAddr) (only parsing).

Definition config_error {A} (msg : string) : result ProxyError A := Err (PE_Config msg).

(** [s.starts_with(c)], [s.ends_with(c)], [s.contains(c)], [s.rfind(c)] for an ASCII character *)
Definition starts_with (c : Z) (l : bytes) : bool := match l with b :: _ => b =? c | [] => false end.
Definition ends_with (c : Z) (l : bytes) : bool := match last l with Some b => b =? c | None => false end.
Definition contains (c : Z) (l : bytes) : bool := match find_char c l with Some _ => true | None => false end.
Fixpoint rfind_char (c : Z) (l : bytes) : option Z :=
  match l with
  | [] => None
  | b :: r =>
      match rfind_char c r with
      | Some i => Some (i + 1)
      | None => if b =? c then Some 0 else None
      end
  end.

(** [parse_ip_spec] (dns_overrides.rs:17-41) *)
Definition parse_ip_spec (ip_spec : bytes) : result ProxyError IpAddr :=
  if starts_with 91 ip_spec && ends_with 93 ip_spec then
    let inner := slice ip_spec 1 (zlen ip_spec - 1) in
    ipv6 ← ok_or (parse_ipv6 inner) (PE_Config "network.dns_overrides IPv6 override is invalid: '{ip_spec}'");
    Ok (V6 ipv6)
  else
    ip ← ok_or (parse_ip ip_spec) (PE_Config "network.dns_overrides IP is invalid: '{ip_spec}'");
    if is_ipv6 ip then config_error "network.dns_overrides IPv6 must be bracketed: '{ip_spec}'" else Ok ip.

(** [parse_entry] (dns_overrides.rs:43-90) *)
Definition parse_entry (entry : bytes) : result ProxyError (bytes * Z * IpAddr) :=
  let format_error := PE_Config "network.dns_overrides entry must use host:port:ip format: '{trimmed}'" in
  let trimmed := trim entry in
  if decide (trimmed = []) then config_error "network.dns_overrides entry cannot be empty"
  else
    first_sep ← ok_or (find_char 58 trimmed) format_error;
    second_sep ← ok_or ((fun idx => first_sep + 1 + idx) <$> find_char 58 (zdrop (first_sep + 1) trimmed)) format_error;
    let host := trim (ztake first_sep trimmed) in
    let port_str := trim (slice trimmed (first_sep + 1) second_sep) in
    let ip_str := trim (zdrop (second_sep + 1) trimmed) in
    if decide (host = []) then config_error "network.dns_overrides host cannot be empty: '{trimmed}'"
    else if contains 58 host then
      config_error "network.dns_overrides host must be a domain name without ':' in this format: '{trimmed}'"
    else
      port ← ok_or (parse_u16 port_str) (PE_Config "network.dns_overrides port is invalid: '{trimmed}'");
      ip ← parse_ip_spec ip_str;
      Ok (to_ascii_lowercase host, port, ip).

(** [parse_entries] (dns_overrides.rs:92-99): later entries win, the first error ends the loop. *)
Fixpoint parse_entries_loop (parsed : OverrideMap) (entries : list bytes) : result ProxyError OverrideMap :=
  match entries with
  | [] => Ok parsed
  | entry :: entries =>
      '(key, ip) ← parse_entry entry;
      parse_entries_loop (<[key := ip]> parsed) entries
  end.
Definition parse_entries (entries : list bytes) : result ProxyError OverrideMap := parse_entries_loop ∅ entries.

Definition validate_entries (entries : list bytes) : result ProxyError unit := _ ← parse_entries entries; Ok tt.

(** [install_entries]: the store is replaced as a whole, or not at all. *)
Definition install_entries (store : OverrideMap) (entries : list bytes) : result ProxyError unit * OverrideMap :=
  match parse_entries entries with
  | Ok parsed => (Ok tt, parsed)
  | Err e => (Err e, store)
  end.

Definition resolve (store : OverrideMap) (host : bytes) (port : Z) : option IpAddr :=
  store !! (to_ascii_lowercase host, port).

Definition resolve_socket_addr (store : OverrideMap) (host : bytes) (port : Z) : option SocketAddr :=
  (fun ip => mkSocketAddr ip port) <$> resolve store host port.

(** [split_host_port] (dns_overrides.rs:133-155) *)
Definition split_host_port (endpoint : bytes) : option (bytes * Z) :=
  if starts_with 91 endpoint then
    bracket_end ← find_char 93 endpoint;
    if decide (zget endpoint (bracket_end + 1) = Some 58) then
      let host := trim (slice endpoint 1 bracket_end) in
      port ← parse_u16 (trim (zdrop (bracket_end + 2) endpoint));
      if decide (host = []) then None else Some (to_ascii_lowercase host, port)
    else None
  else
    split_idx ← rfind_char 58 endpoint;
    let host := trim (ztake split_idx endpoint) in
    port ← parse_u16 (trim (zdrop (split_idx + 1) endpoint));
    if decide (host = []) then None
    else if contains 58 host then None
    else Some (to_ascii_lowercase host, port).

(** ** Texts without white space *)

Lemma trim_start_word b l : word_char b -> trim_start_loop O (b :: l) = b :: l.
Proof. intros Hb. cbn [trim_start_loop]. by rewrite ws_len_word. Qed.

Lemma trim_end_words l kept spaces :
  Forall word_char l -> l <> [] -> trim_end_loop O kept spaces l = kept ++ spaces ++ l.
Proof.
  intros Hl. revert kept spaces. induction Hl as [|b l Hb Hl IH]; intros kept spaces Hn; [done|].
  cbn [trim_end_loop]. rewrite ws_len_word by done. destruct l as [|c l].
  - done.
  - rewrite IH by done. by rewrite <-!app_assoc.
Qed.

Lemma trim_words l : Forall word_char l -> trim l = l.
Proof.
  intros Hl. unfold trim. destruct l as [|b l]; [done|]. inversion Hl; subst.
  rewrite trim_start_word by done. by rewrite trim_end_words.
Qed.

Lemma find_char_split c a l : Forall (fun b => b <> c) a -> find_char c (a ++ c :: l) = Some (zlen a).
Proof.
  induction 1 as [|b a Hb _ IH]; cbn [app find_char]; [by rewrite Z.eqb_refl|].
  destruct (Z.eqb_spec b c); [done|]. rewrite IH. cbn. f_equal. rewrite zlen_cons. lia.
Qed.

Lemma find_char_none c a : Forall (fun b => b <> c) a -> find_char c a = None.
Proof. induction 1 as [|b a Hb _ IH]; [done|]. cbn. destruct (Z.eqb_spec b c); [done|]. by rewrite IH. Qed.

Lemma rfind_char_none c a : Forall (fun b => b <> c) a -> rfind_char c a = None.
Proof. induction 1 as [|b a Hb _ IH]; [done|]. cbn. rewrite IH. by destruct (Z.eqb_spec b c). Qed.

Lemma rfind_char_split c a l : Forall (fun b => b <> c) l -> rfind_char c (a ++ c :: l) = Some (zlen a).
Proof.
  intros Hl. induction a as [|b a IH]; cbn [app rfind_char].
  - rewrite rfind_char_none by done. by rewrite Z.eqb_refl.
  - rewrite IH. f_equal. rewrite zlen_cons. lia.
Qed.

(** ** What is written is what is resolved *)

Definition host_ok (h : bytes) : Prop := h <> [] /\ Forall word_char h /\ Forall (fun b => b <> 58) h.

Definition spec_text (ip : IpAddr) : bytes :=
  match ip with V4 o => fmt_ipv4 o | V6 o => 91 :: fmt_ipv6 o ++ [93] end.

Record override := mkOverride { ov_host : bytes; ov_port : Z; ov_ip : IpAddr }.
Definition override_ok (o : override) : Prop :=
  host_ok (ov_host o) /\ 0 <= ov_port o < 2 ^ 16 /\ ip_ok (ov_ip o).
Definition entry_text (o : override) : bytes :=
  ov_host o ++ 58 :: fmt_num 10 (ov_port o) ++ 58 :: spec_text (ov_ip o).
Definition entry_key (o : override) : bytes * Z := (to_ascii_lowercase (ov_host o), ov_port o).

Lemma fmt_num_no_colon z : 0 <= z < 2 ^ 16 -> Forall (fun b => b <> 58) (fmt_num 10 z).
Proof.
  intros Hz. destruct (digits_of_spec 64 5 10 z) as (HF & _); [lia|lia|lia|]. cbn zeta in HF.
  unfold fmt_num. apply Forall_fmap. eapply Forall_impl; [exact HF|]. intros d Hd. cbn in Hd |- *. unfold digit_char.
  destruct (Z.ltb_spec d 10); lia.
Qed.

Lemma parse_ip_spec_text ip : ip_ok ip -> parse_ip_spec (spec_text ip) = Ok ip.
Proof.
  intros Hok. unfold parse_ip_spec. destruct ip as [o|o]; cbn [spec_text].
  - pose proof (parse_ip_fmt (V4 o) Hok) as E. cbn [fmt_ip] in E.
    assert (starts_with 91 (fmt_ipv4 o) = false) as ->.
    { destruct Hok as [Hl Hb]. destruct (zlen_4 o Hl) as (a & b & c & d & ->). rewrite fmt_ipv4_eq.
      unfold bytes_ok in Hb. rewrite !List.Forall_cons_iff in Hb. unfold is_byte in Hb.
      destruct (digits_of_spec 64 3 10 a) as (HF & _ & Hn & _); [lia|lia|lia|]. cbn zeta in *. unfold fmt_num at 1.
      destruct (digits_of 64 10 a) as [|x xs]; [cbn in Hn; lia|]. inversion HF; subst. cbn.
      unfold digit_char. destruct (Z.ltb_spec x 10); [|lia]. by destruct (Z.eqb_spec (48 + x) 91); [lia|]. }
    cbn [andb]. by rewrite E.
  - destruct Hok as [Hl Hb]. cbn [starts_with]. change (91 =? 91) with true.
    assert (ends_with 93 (91 :: fmt_ipv6 o ++ [93]) = true) as -> by (unfold ends_with; by rewrite app_comm_cons, last_snoc).
    cbn [andb]. assert (slice (91 :: fmt_ipv6 o ++ [93]) 1 (zlen (91 :: fmt_ipv6 o ++ [93]) - 1) = fmt_ipv6 o) as ->.
    { apply (slice_mid [91] (fmt_ipv6 o) [93]); [done|]. zlen_simpl. lia. }
    unfold parse_ipv6, parse_with. destruct (read_ipv6_fmt o Hl Hb) as [_ ->]. done.
Qed.

Lemma spec_text_words ip : ip_ok ip -> Forall word_char (spec_text ip).
Proof.
  intros Hok. destruct (fmt_ip_text ip Hok) as (_ & Hw & _). destruct ip; cbn [spec_text fmt_ip] in *; [done|].
  constructor; [unfold word_char; lia|]. apply Forall_app. split; [done|]. constructor; [unfold word_char; lia|constructor].
Qed.

Lemma parse_entry_text o : override_ok o -> parse_entry (entry_text o) = Ok (entry_key o, ov_ip o).
Proof.
  intros ((Hh & Hhw & Hhc) & Hp & Hip). destruct (fmt_num_text 10 5 (ov_port o)) as (Pn & Pw & _); [by left|lia|lia|].
  pose proof (spec_text_words _ Hip) as Sw. pose proof (fmt_num_no_colon _ Hp) as Pc.
  set (port := fmt_num 10 (ov_port o)) in *. set (spec := spec_text (ov_ip o)) in *. set (host := ov_host o) in *.
  assert (word_char 58) as W by (unfold word_char; lia).
  assert (Forall word_char (entry_text o)) as Tw.
  { unfold entry_text. fold port spec host. apply Forall_app. split; [done|]. constructor; [done|].
    apply Forall_app. split; [done|]. by constructor. }
  unfold parse_entry. rewrite (trim_words _ Tw). unfold entry_text. fold port spec host.
  rewrite decide_False by (destruct host; done). rewrite find_char_split by done. cbn [ok_or mbind result_bind].
  assert (zdrop (zlen host + 1) (host ++ 58 :: port ++ 58 :: spec) = port ++ 58 :: spec) as ->.
  { rewrite cons_middle, app_assoc. apply zdrop_app. zlen_simpl. lia. }
  rewrite find_char_split by done. cbn [fmap option_fmap option_map ok_or mbind result_bind].
  rewrite ztake_app by done. rewrite (trim_words host) by done.
  assert (slice (host ++ 58 :: port ++ 58 :: spec) (zlen host + 1) (zlen host + 1 + zlen port) = port) as ->.
  { rewrite cons_middle, app_assoc. apply slice_mid; zlen_simpl; lia. }
  assert (zdrop (zlen host + 1 + zlen port + 1) (host ++ 58 :: port ++ 58 :: spec) = spec) as ->.
  { rewrite (cons_middle 58 port spec), (cons_middle 58 host (port ++ [58] ++ spec)), !app_assoc. apply zdrop_app.
    zlen_simpl. lia. }
  rewrite !trim_words by done. rewrite decide_False by done. unfold contains. rewrite find_char_none by done.
  unfold port. rewrite parse_u16_fmt by done. cbn [ok_or mbind result_bind]. unfold spec.
  by rewrite parse_ip_spec_text.
Qed.

(** The entry that decides a name: the last one written for it. *)
Definition last_override (os : list override) (key : bytes * Z) : option IpAddr :=
  foldl (fun acc o => if decide (entry_key o = key) then Some (ov_ip o) else acc) None os.

Lemma parse_entries_texts os : forall m,
  Forall override_ok os ->
  exists m', parse_entries_loop m (entry_text <$> os) = Ok m' /\
    forall key, m' !! key = foldl (fun acc o => if decide (entry_key o = key) then Some (ov_ip o) else acc) (m !! key) os.
Proof.
  induction os as [|o os IH]; intros m Hok; [by exists m|]. inversion Hok; subst.
  cbn [fmap list_fmap parse_entries_loop foldl]. rewrite parse_entry_text by done. cbn [mbind result_bind].
  destruct (IH (<[entry_key o := ov_ip o]> m)) as (m' & E & Hm); [done|]. exists m'. split; [done|].
  intros key. rewrite Hm. f_equal. case_decide as Ek; [subst; by rewrite lookup_insert_eq|by rewrite lookup_insert_ne].
Qed.

(** The overrides written in the configuration (IPv4 addresses as they are, IPv6 addresses in
    brackets) are accepted, and afterwards a name and port resolve, whatever the case of the
    letters, to the address of the last entry for them and to nothing when there is none; when some
    entry is malformed the overrides in force stay as they were. *)
Theorem dns_overrides_resolve store os :
  Forall override_ok os ->
  (exists store', install_entries store (entry_text <$> os) = (Ok tt, store') /\
    forall host port, resolve store' host port = last_override os (to_ascii_lowercase host, port)) /\
  forall entries, is_ok (validate_entries entries) = false -> snd (install_entries store entries) = store.
Proof.
  intros Hok. split.
  - destruct (parse_entries_texts os ∅ Hok) as (m & E & Hm). exists m. unfold install_entries, parse_entries. rewrite E.
    split; [done|]. intros host port. unfold resolve, last_override. by rewrite Hm, lookup_empty.
  - intros entries. unfold validate_entries, install_entries. by destruct (parse_entries entries).
Qed.

Lemma to_ascii_lowercase_idem l : to_ascii_lowercase (to_ascii_lowercase l) = to_ascii_lowercase l.
Proof.
  unfold to_ascii_lowercase. rewrite <-list_fmap_compose. apply list_fmap_ext. intros _ b _. unfold compose.
  destruct ((65 <=? b) && (b <=? 90)) eqn:E; [|by rewrite E].
  destruct ((65 <=? b + 32) && (b + 32 <=? 90)) eqn:E'; lia.
Qed.

(** An endpoint splits into its host and port; a bare IPv6 address is not mistaken for a host. *)
Lemma split_host_port_name h p :
  host_ok h -> ~ starts_with 91 h -> 0 <= p < 2 ^ 16 ->
  split_host_port (h ++ 58 :: fmt_num 10 p) = Some (to_ascii_lowercase h, p).
Proof.
  intros (Hh & Hw & Hc) Hb Hp. destruct (fmt_num_text 10 5 p) as (Pn & Pw & _); [by left|lia|lia|].
  unfold split_host_port. destruct (starts_with 91 (h ++ _)) eqn:Es.
  { exfalso. apply Hb. destruct h; [done|]. cbn in *. by rewrite Es. }
  rewrite rfind_char_split by (by apply fmt_num_no_colon). cbn [mbind option_bind].
  assert (zdrop (zlen h + 1) (h ++ 58 :: fmt_num 10 p) = fmt_num 10 p) as ->.
  { rewrite cons_middle, app_assoc. apply zdrop_app. zlen_simpl. lia. }
  rewrite ztake_app, !trim_words, parse_u16_fmt by done. cbn [mbind option_bind]. rewrite decide_False by done.
  unfold contains. by rewrite find_char_none.
Qed.

Definition demo_overrides : list override :=
  [mkOverride (str "Example.com") 443 (V4 [127; 0; 0; 1]);
   mkOverride (str "example.net") 8443 (V6 [0x20; 1; 0x0d; 0xb8; 0; 0; 0; 0; 0; 0; 0; 0; 0; 0; 0; 16])].

