(* ===== verification/Socks.v ===== *)
(** * SOCKS clients: [transport/socks.rs]

    The two ways an upstream reaches Telegram through a SOCKS proxy, over any reader of the
    [AsyncIo] interface and a scripted writer.  The functions are awaited calls, which return or wait
    for ever on a proxy that has fallen silent.  Against them stand decoders of what a server reads (RFC 1928 and
    RFC 1929, and SOCKS4). *)

From stdpp Require Import pretty.
From S2P Require Import Prelude NetAddr Errors AsyncIo DnsOverrides.

(** ** Awaiting on a connection *)

(** What an awaited call comes to on a [TcpStream], its two directions: it returns, or it waits for an answer that never
    comes, with the stream as it was when the last await began. *)
Inductive awaited (A S : Type) := Returned (r : result ProxyError A) (s : S) | Waits (s : S).
Arguments Returned {A S} r s.
Arguments Waits {A S} s.

Definition socks_io (R A : Type) : Type := R * upstream_w -> awaited A (R * upstream_w).

Definition socks_ret {R A} (a : A) : socks_io R A := fun s => Returned (Ok a) s.
Definition socks_fail {R A} (e : ProxyError) : socks_io R A := fun s => Returned (Err e) s.
Definition socks_bind {R A B} (m : socks_io R A) (k : A -> socks_io R B) : socks_io R B := fun s =>
  match m s with
  | Waits s => Waits s
  | Returned (Err e) s => Returned (Err e) s
  | Returned (Ok a) s => k a s
  end.

Declare Scope socks_scope.
Delimit Scope socks_scope with socks.
Notation "'let?' x := m 'in' k" := (socks_bind m (fun x => k))
  (at level 10, x pattern, m at level 100, k at level 200) : socks_scope.
#[local] Open Scope socks_scope.

(** [stream.write_all(..).await.map_err(ProxyError::Io)?]: the writer's script bounds the polls. *)
Definition send {R} (data : bytes) : socks_io R unit := fun '(r, w) =>
  match write_all (length (w_script w) + 2) w data with
  | None => Waits (r, w)
  | Some (a, w) => Returned (map_err PE_Io a) (r, w)
  end.

(** [stream.read_exact(..).await.map_err(ProxyError::Io)?] *)
Definition recv `{AsyncRead R} (n : Z) : socks_io R bytes := fun '(r, w) =>
  match read_exact r n with
  | None => Waits (r, w)
  | Some (a, r) => Returned (map_err PE_Io a) (r, w)
  end.

Definition rejected (what : string) (code : Z) : ProxyError := PE_Proxy (String.append what (pretty code)).

Record SocksBoundAddr := mkBoundAddr { bound_addr : SocketAddr }.

(** ** The requests *)

Definition socks4_request (ip : bytes) (port : Z) (user : bytes) : bytes :=
  [4; 1] ++ be_bytes 2 port ++ ip ++ user ++ [0].

Definition socks5_methods (username : option bytes) : bytes :=
  [0] ++ match username with Some _ => [2] | None => [] end.

Definition socks5_greeting (username : option bytes) : bytes :=
  [5; u8 (zlen (socks5_methods username))] ++ socks5_methods username.

Definition socks5_auth (u p : bytes) : bytes := [1; u8 (zlen u)] ++ u ++ [u8 (zlen p)] ++ p.

Definition socks5_request (target : SocketAddr) : bytes :=
  [5; 1; 0] ++ match sa_ip target with V4 o => [1] ++ o | V6 o => [4] ++ o end ++ be_bytes 2 (sa_port target).

(** ** The clients *)

Section Clients.
Context `{AsyncRead R}.

Definition connect_socks4 (target : SocketAddr) (user_id : option bytes) : socks_io R SocksBoundAddr :=
  match sa_ip target with
  | V6 _ => socks_fail (PE_Proxy "SOCKS4 does not support IPv6")
  | V4 ip =>
      let? _ := send (socks4_request ip (sa_port target) (default [] user_id)) in
      let? resp := recv 8 in
      let code := nth 1 resp 0 in
      if code =? 90 then
        socks_ret (mkBoundAddr (mkSocketAddr (V4 (slice resp 4 8)) (be_val (slice resp 2 4))))
      else socks_fail (rejected "SOCKS4 request rejected: code " code)
  end.

(** The authentication the server chose (socks.rs:78-106) *)
Definition socks5_authenticate (username password : option bytes) (method : Z) : socks_io R unit :=
  if method =? 0 then socks_ret tt
  else if method =? 2 then
    match username, password with
    | Some u, Some p =>
        let? _ := send (socks5_auth u p) in
        let? auth_resp := recv 2 in
        if nth 1 auth_resp 0 =? 0 then socks_ret tt else socks_fail (PE_Proxy "SOCKS5 authentication failed")
    | _, _ => socks_fail (PE_Proxy "SOCKS5 server requires authentication")
    end
  else socks_fail (PE_Proxy "Unsupported SOCKS5 auth method").

(** The bound address of the answer (socks.rs:135-164) *)
Definition socks5_bound (atyp : Z) : socks_io R SocketAddr :=
  if atyp =? 1 then
    let? addr := recv (4 + 2) in
    socks_ret (mkSocketAddr (V4 (slice addr 0 4)) (be_val (slice addr 4 6)))
  else if atyp =? 3 then
    let? len := recv 1 in
    let? addr := recv (nth 0 len 0 + 2) in
    let port_pos := sat_sub (zlen addr) 2 in
    socks_ret (mkSocketAddr (V4 [0; 0; 0; 0]) (be_val (slice addr port_pos (port_pos + 2))))
  else if atyp =? 4 then
    let? addr := recv (16 + 2) in
    socks_ret (mkSocketAddr (V6 (slice addr 0 16)) (be_val (slice addr 16 18)))
  else socks_fail (PE_Proxy "Invalid address type in SOCKS5 response").

Definition connect_socks5 (target : SocketAddr) (username password : option bytes) : socks_io R SocksBoundAddr :=
  let? _ := send (socks5_greeting username) in
  let? resp := recv 2 in
  if nth 0 resp 0 =? 5 then
    let? _ := socks5_authenticate username password (nth 1 resp 0) in
    let? _ := send (socks5_request target) in
    let? head := recv 4 in
    if nth 1 head 0 =? 0 then
      let? addr := socks5_bound (nth 3 head 0) in
      socks_ret (mkBoundAddr addr)
    else socks_fail (rejected "SOCKS5 request failed: code " (nth 1 head 0))
  else socks_fail (PE_Proxy "Invalid SOCKS5 version").

End Clients.

(** ** What a server reads and answers *)

(** Decoders of the messages above: each takes one message off the front. *)
Definition decode {A} (n : Z) (l : bytes) (k : bytes -> bytes -> option A) : option A :=
  if n <=? zlen l then k (ztake n l) (zdrop n l) else None.

Definition read_greeting (l : bytes) : option (bytes * bytes) :=
  decode 2 l (fun head l =>
    if bool_decide (head !! 0%nat = Some 5) then decode (nth 1 head 0) l (fun methods l => Some (methods, l)) else None).

Definition read_auth (l : bytes) : option (bytes * bytes * bytes) :=
  decode 2 l (fun head l =>
    if bool_decide (head !! 0%nat = Some 1) then
      decode (nth 1 head 0) l (fun u l =>
        decode 1 l (fun plen l => decode (nth 0 plen 0) l (fun p l => Some (u, p, l))))
    else None).

Definition read_request (l : bytes) : option (SocketAddr * bytes) :=
  decode 4 l (fun head l =>
    if bool_decide (head = [5; 1; 0; 1]) then
      decode 6 l (fun a l => Some (mkSocketAddr (V4 (ztake 4 a)) (be_val (zdrop 4 a)), l))
    else if bool_decide (head = [5; 1; 0; 4]) then
      decode 18 l (fun a l => Some (mkSocketAddr (V6 (ztake 16 a)) (be_val (zdrop 16 a)), l))
    else None).

(** A whole session as a server that chose [method] reads it: the methods it was offered, the credentials it was given
    and the address it is to connect to, with nothing left over; the method must be one of those offered. *)
Definition read_session (method : Z) (l : bytes) : option (bytes * option (bytes * bytes) * SocketAddr) :=
  '(methods, l) ← read_greeting l;
  if bool_decide (method ∈ methods) then
    '(creds, l) ← (if method =? 2 then '(u, p, l) ← read_auth l; Some (Some (u, p), l) else Some (None, l));
    '(target, l) ← read_request l;
    if decide (l = []) then Some (methods, creds, target) else None
  else None.

Definition read_socks4 (l : bytes) : option (bytes * SocketAddr) :=
  decode 8 l (fun head l =>
    match find_char 0 l with
    | Some i =>
        if bool_decide (ztake 2 head = [4; 1]) && (i =? zlen l - 1) then
          Some (ztake i l, mkSocketAddr (V4 (zdrop 4 head)) (be_val (slice head 2 4)))
        else None
    | None => None
    end).

(** The address a server reports, a name included, and how it is sent. *)
Inductive Bound := BoundIp (a : SocketAddr) | BoundName (name : bytes) (port : Z).

Definition bound_bytes (b : Bound) : bytes :=
  match b with
  | BoundIp a => match sa_ip a with V4 o => [1] ++ o | V6 o => [4] ++ o end ++ be_bytes 2 (sa_port a)
  | BoundName name port => [3; zlen name] ++ name ++ be_bytes 2 port
  end.

Definition bound_seen (b : Bound) : SocketAddr :=
  match b with BoundIp a => a | BoundName _ port => mkSocketAddr (V4 [0; 0; 0; 0]) port end.

Definition bound_ok (b : Bound) : Prop :=
  match b with BoundIp a => addr_ok a | BoundName name port => zlen name < 256 /\ 0 <= port < 2 ^ 16 end.

(** The answers of a server that chooses [method] and reports [b]. *)
Definition socks5_answers (method ver rsv : Z) (b : Bound) : bytes :=
  [5; method] ++ (if method =? 2 then [ver; 0] else []) ++ [5; 0; rsv] ++ bound_bytes b.

(** Everything a client writes to a server that chooses [method]. *)
Definition socks5_auth_part (method : Z) (username password : option bytes) : bytes :=
  match username, password with Some u, Some p => if method =? 2 then socks5_auth u p else [] | _, _ => [] end.

Definition socks5_sends (method : Z) (username password : option bytes) (target : SocketAddr) : bytes :=
  socks5_greeting username ++ socks5_auth_part method username password ++ socks5_request target.

Definition can_answer (method : Z) (username password : option bytes) : Prop :=
  method = 0 \/ method = 2 /\ exists u p, username = Some u /\ password = Some p.

(** ** Awaited calls *)

Definition socks_wp {R A} (m : socks_io R A) (s : R * upstream_w) (Q : result ProxyError A -> R * upstream_w -> Prop) : Prop :=
  exists a s', m s = Returned a s' /\ Q a s'.

Lemma socks_wp_bind {R A B} (m : socks_io R A) (k : A -> socks_io R B) s (Q : result ProxyError B -> R * upstream_w -> Prop) :
  socks_wp m s (fun a s' => match a with Ok a => socks_wp (k a) s' Q | Err e => Q (Err e) s' end) ->
  socks_wp (socks_bind m k) s Q.
Proof. intros (a & s' & E & Hq). unfold socks_wp, socks_bind. rewrite E. destruct a as [a|e]; [done|by eexists _, _]. Qed.

Lemma socks_wp_mono {R A} (m : socks_io R A) s (P Q : result ProxyError A -> R * upstream_w -> Prop) :
  socks_wp m s P -> (forall a s', P a s' -> Q a s') -> socks_wp m s Q.
Proof. intros (a & s' & E & Hp) H. exists a, s'. auto. Qed.

Section Served.
Context `{AsyncReadOk R}.

(** A connection that works: the reader delivers what it holds, the writer accepts. *)
Lemma send_wp {A} data (k : unit -> socks_io R A) r w Q :
  healthy w ->
  (forall w', healthy w' -> w_sink w' = w_sink w ++ data -> socks_wp (k tt) (r, w') Q) ->
  socks_wp (socks_bind (send data) k) (r, w) Q.
Proof.
  intros Hw Hk. apply socks_wp_bind. unfold socks_wp, send.
  destruct (write_all_healthy (length (w_script w) + 2) w data Hw ltac:(lia)) as (w' & -> & Hs & Hw' & _).
  eexists _, _. split; [done|]. by apply Hk.
Qed.

Lemma recv_wp {A} n pre rest (k : bytes -> socks_io R A) r w Q :
  rd_ok r -> rd_bytes r = pre ++ rest -> zlen pre = n ->
  (forall r', rd_ok r' -> rd_bytes r' = rest -> socks_wp (k pre) (r', w) Q) ->
  socks_wp (socks_bind (recv n) k) (r, w) Q.
Proof.
  intros Hr Hb Hn Hk. pose proof (zlen_nonneg pre). pose proof (zlen_nonneg rest).
  destruct (read_exact_spec r n Hr) as (r' & E & Hr' & Hb'); [rewrite Hb, zlen_app; lia|].
  apply socks_wp_bind. unfold socks_wp, recv. rewrite E, Hb, ztake_app by done. eexists _, _. split; [done|].
  apply Hk; [done|]. by rewrite Hb', Hb, zdrop_app.
Qed.

(** The address of the answer, in its three forms. *)
Lemma socks5_bound_wp b rest atyp tail r w Q :
  bound_ok b -> bound_bytes b = atyp :: tail -> rd_ok r -> rd_bytes r = tail ++ rest ->
  (forall r', rd_ok r' -> rd_bytes r' = rest -> Q (Ok (bound_seen b)) (r', w)) ->
  socks_wp (socks5_bound atyp) (r, w) Q.
Proof.
  intros Hb Ht Hr Hd Hq.
  assert (forall a p, 0 <= p < 2 ^ 16 -> slice (a ++ be_bytes 2 p) (zlen a) (zlen a + 2) = be_bytes 2 p) as Hslice.
  { intros a p _. pose proof (slice_mid a (be_bytes 2 p) [] (zlen a) (zlen a + 2) eq_refl) as Es.
    rewrite app_nil_r in Es. apply Es. by rewrite zlen_be_bytes. }
  destruct b as [[[o|o] p]|name p]; cbn [bound_bytes bound_ok bound_seen sa_ip sa_port addr_ok app] in *; injection Ht as <- <-.
  - destruct Hb as [[Ho _] Hp]. cbn [sa_port] in Hp. unfold socks5_bound. change (1 =? 1) with true.
    apply (recv_wp _ (o ++ be_bytes 2 p) rest); [done|done|rewrite zlen_app, zlen_be_bytes; lia|].
    intros r' Hr' Hb'. eexists _, _. split; [done|]. rewrite slice_prefix by done.
    pose proof (Hslice o p Hp) as Es. rewrite Ho in Es. change (4 + 2) with 6 in Es. rewrite Es, be_val_be_bytes_small by (cbn; lia). auto.
  - destruct Hb as [[Ho _] Hp]. cbn [sa_port] in Hp. unfold socks5_bound. change (4 =? 1) with false. change (4 =? 3) with false. change (4 =? 4) with true.
    apply (recv_wp _ (o ++ be_bytes 2 p) rest); [done|done|rewrite zlen_app, zlen_be_bytes; lia|].
    intros r' Hr' Hb'. eexists _, _. split; [done|]. rewrite slice_prefix by done.
    pose proof (Hslice o p Hp) as Es. rewrite Ho in Es. change (16 + 2) with 18 in Es. rewrite Es, be_val_be_bytes_small by (cbn; lia). auto.
  - destruct Hb as [Ho Hp]. unfold socks5_bound. change (3 =? 1) with false. change (3 =? 3) with true.
    apply (recv_wp _ [zlen name] (name ++ be_bytes 2 p ++ rest)); [done|rewrite Hd; cbn [app]; by rewrite <-app_assoc|done|].
    intros r1 Hr1 Hb1. cbn [nth]. apply (recv_wp _ (name ++ be_bytes 2 p) rest); [done|by rewrite <-app_assoc|rewrite zlen_app, zlen_be_bytes; lia|].
    intros r' Hr' Hb'. eexists _, _. split; [done|]. cbv zeta. rewrite zlen_app, zlen_be_bytes. unfold sat_sub.
    pose proof (zlen_nonneg name). rewrite Z.max_r by lia. replace (zlen name + Z.of_nat 2 - 2) with (zlen name) by lia.
    rewrite Hslice, be_val_be_bytes_small by (cbn; lia). auto.
Qed.

(** The authentication. *)
Lemma socks5_authenticate_wp {A} method username password ver rest (k : unit -> socks_io R A) r w Q :
  can_answer method username password -> rd_ok r -> healthy w ->
  rd_bytes r = (if method =? 2 then [ver; 0] else []) ++ rest ->
  (forall r' w' auth, rd_ok r' -> healthy w' -> rd_bytes r' = rest -> w_sink w' = w_sink w ++ auth ->
     auth = socks5_auth_part method username password ->
     socks_wp (k tt) (r', w') Q) ->
  socks_wp (socks_bind (socks5_authenticate username password method) k) (r, w) Q.
Proof.
  intros [->|[-> (u & p & -> & ->)]] Hr Hw Hb Hk; apply socks_wp_bind; unfold socks5_authenticate.
  - change (0 =? 0) with true. eexists _, _. split; [done|]. apply (Hk r w []); [done..|by rewrite app_nil_r|by destruct username, password].
  - change (2 =? 0) with false. change (2 =? 2) with true in *. cbv iota in *.
    apply send_wp; [done|]. intros w1 Hw1 Hs1. apply (recv_wp _ [ver; 0] rest); [done..|]. intros r1 Hr1 Hb1.
    cbn [nth]. change (0 =? 0) with true. eexists _, _. split; [done|]. by apply (Hk r1 w1 (socks5_auth u p)).
Qed.

(** A session with a server that answers. *)
Lemma connect_socks5_wp method ver rsv b target username password rest r w :
  can_answer method username password -> bound_ok b ->
  rd_ok r -> healthy w -> rd_bytes r = socks5_answers method ver rsv b ++ rest ->
  socks_wp (connect_socks5 target username password) (r, w) (fun a s' =>
    a = Ok (mkBoundAddr (bound_seen b)) /\ rd_ok s'.1 /\ rd_bytes s'.1 = rest /\ healthy s'.2 /\
    w_sink s'.2 = w_sink w ++ socks5_sends method username password target).
Proof.
  intros Hc Hbd Hr Hw Hb. unfold connect_socks5, socks5_answers in *. rewrite <-!app_assoc in Hb.
  apply send_wp; [done|]. intros w1 Hw1 Hs1.
  eapply (recv_wp _ [5; method]); [done|exact Hb|done|]. intros r1 Hr1 Hb1.
  cbn [nth]. change (5 =? 5) with true. cbv iota.
  eapply socks5_authenticate_wp; [done..|exact Hb1|]. intros r2 w2 auth Hr2 Hw2 Hb2 Hs2 ->.
  apply send_wp; [done|]. intros w3 Hw3 Hs3.
  assert (exists atyp tail, bound_bytes b = atyp :: tail) as (atyp & tail & Ht) by (destruct b as [[[o|o] p]|n p]; by eexists _, _).
  eapply (recv_wp _ [5; 0; rsv; atyp]); [done|rewrite Hb2, Ht; done|done|]. intros r3 Hr3 Hb3.
  cbn [nth]. change (0 =? 0) with true. cbv iota. apply socks_wp_bind.
  eapply socks5_bound_wp; [done..|]. intros r4 Hr4 Hb4. eexists _, _. split; [done|].
  split_and!; [done..|]. cbn [snd]. by rewrite Hs3, Hs2, Hs1, <-!app_assoc.
Qed.

Lemma connect_socks4_wp target ip user_id ver b_port b_ip rest r w :
  sa_ip target = V4 ip -> 0 <= b_port < 2 ^ 16 -> zlen b_ip = 4 ->
  rd_ok r -> healthy w -> rd_bytes r = [ver; 90] ++ be_bytes 2 b_port ++ b_ip ++ rest ->
  socks_wp (connect_socks4 target user_id) (r, w) (fun a s' =>
    a = Ok (mkBoundAddr (mkSocketAddr (V4 b_ip) b_port)) /\ rd_ok s'.1 /\ rd_bytes s'.1 = rest /\ healthy s'.2 /\
    w_sink s'.2 = w_sink w ++ socks4_request ip (sa_port target) (default [] user_id)).
Proof.
  intros Ht Hp Hi Hr Hw Hb. unfold connect_socks4. rewrite Ht. apply send_wp; [done|]. intros w1 Hw1 Hs1.
  pose proof (zlen_be_bytes 2 b_port) as Lp.
  apply (recv_wp _ ([ver; 90] ++ be_bytes 2 b_port ++ b_ip) rest); [done|by rewrite <-!app_assoc|rewrite !zlen_app, Lp, Hi; done|].
  intros r1 Hr1 Hb1. cbv zeta. change (nth 1 ([ver; 90] ++ be_bytes 2 b_port ++ b_ip) 0) with 90. change (90 =? 90) with true. cbv iota. eexists _, _. split; [done|].
  split_and!; try done. rewrite (slice_mid [ver; 90] (be_bytes 2 b_port) b_ip 2 4) by (rewrite ?Lp; done).
  rewrite be_val_be_bytes_small by (cbn; lia). do 4 f_equal.
  pose proof (slice_mid ([ver; 90] ++ be_bytes 2 b_port) b_ip [] 4 8) as Es. rewrite app_nil_r, <-app_assoc in Es.
  apply Es; [|by rewrite Hi]. by rewrite zlen_app, Lp.
Qed.

End Served.

(** ** What the server decodes *)

Lemma decode_app {A} n a l (k : bytes -> bytes -> option A) : zlen a = n -> decode n (a ++ l) k = k a l.
Proof.
  intros <-. unfold decode. pose proof (zlen_nonneg l). rewrite zlen_app, ztake_app, zdrop_app by done.
  destruct (Z.leb_spec (zlen a) (zlen a + zlen l)); [done|lia].
Qed.

Lemma read_greeting_sent username l :
  read_greeting (socks5_greeting username ++ l) = Some (socks5_methods username, l).
Proof.
  unfold read_greeting, socks5_greeting. rewrite <-app_assoc. rewrite decode_app by done. rewrite bool_decide_true by done.
  rewrite decode_app; [done|by destruct username].
Qed.

Lemma read_auth_sent u p l :
  zlen u < 256 -> zlen p < 256 -> read_auth (socks5_auth u p ++ l) = Some (u, p, l).
Proof.
  intros Hu Hp. pose proof (zlen_nonneg u). pose proof (zlen_nonneg p). unfold read_auth, socks5_auth, u8.
  rewrite !Z.mod_small by lia. rewrite <-!app_assoc. rewrite decode_app by done. rewrite bool_decide_true by done.
  cbn [nth]. rewrite decode_app by done. rewrite decode_app by done. cbn [nth]. by rewrite decode_app.
Qed.

Lemma read_request_sent target l :
  addr_ok target -> read_request (socks5_request target ++ l) = Some (target, l).
Proof.
  destruct target as [[o|o] p]; intros [[Ho _] Hp]; unfold read_request, socks5_request; cbn [sa_ip sa_port] in *.
  - pose proof (decode_app 4 [5; 1; 0; 1] ((o ++ be_bytes 2 p) ++ l) (A := SocketAddr * bytes)) as E. rewrite <-!app_assoc in *. cbn [app] in *.
    rewrite E by done. rewrite bool_decide_true by done. rewrite app_assoc, decode_app by (rewrite zlen_app, zlen_be_bytes; lia).
    by rewrite ztake_app, zdrop_app, be_val_be_bytes_small by (cbn; lia).
  - pose proof (decode_app 4 [5; 1; 0; 4] ((o ++ be_bytes 2 p) ++ l) (A := SocketAddr * bytes)) as E. rewrite <-!app_assoc in *. cbn [app] in *.
    rewrite E by done. rewrite bool_decide_false, bool_decide_true by done. rewrite app_assoc, decode_app by (rewrite zlen_app, zlen_be_bytes; lia).
    by rewrite ztake_app, zdrop_app, be_val_be_bytes_small by (cbn; lia).
Qed.

(** What a client may offer: to go without credentials, and to give them when it has a user name. *)
Definition offer (username : option bytes) : bytes := match username with None => [0] | Some _ => [0; 2] end.

(** Credentials that fit their length fields come back, with the offer and the target. *)
Lemma read_session_sent method username password target :
  can_answer method username password -> addr_ok target ->
  from_option (fun u => zlen u < 256) True username -> from_option (fun p => zlen p < 256) True password ->
  read_session method (socks5_sends method username password target) =
    Some (offer username, if method =? 2 then u ← username; p ← password; Some (u, p) else None, target).
Proof.
  intros Hc Ht Hu Hp. unfold read_session, socks5_sends. rewrite read_greeting_sent. cbn [mbind option_bind].
  assert (socks5_methods username = offer username) as -> by (by destruct username).
  rewrite <-(app_nil_r (socks5_request target)).
  destruct Hc as [->|[-> (u & p & -> & ->)]].
  - rewrite bool_decide_true by (try destruct username; unfold offer; set_solver). change (0 =? 2) with false.
    assert (socks5_auth_part 0 username password = []) as -> by (by destruct username, password).
    cbn [app mbind option_bind]. rewrite read_request_sent by done. cbn [mbind option_bind]. by rewrite decide_True.
  - rewrite bool_decide_true by (try destruct username; unfold offer; set_solver). change (2 =? 2) with true. cbv iota.
    cbn [from_option] in *. unfold socks5_auth_part. change (2 =? 2) with true. cbv iota. rewrite read_auth_sent by done. cbn [mbind option_bind].
    rewrite read_request_sent by done. cbn [mbind option_bind]. by rewrite decide_True.
Qed.

Lemma read_socks4_sent ip port user :
  zlen ip = 4 -> 0 <= port < 2 ^ 16 -> Forall (fun b => b <> 0) user ->
  read_socks4 (socks4_request ip port user) = Some (user, mkSocketAddr (V4 ip) port).
Proof.
  intros Hi Hp Hu. unfold read_socks4, socks4_request. pose proof (zlen_be_bytes 2 port) as Lp.
  pose proof (decode_app 8 ([4; 1] ++ be_bytes 2 port ++ ip) (user ++ [0]) (A := bytes * SocketAddr)) as E.
  rewrite <-!app_assoc in E. rewrite E by (rewrite !zlen_app, Lp, Hi; done). clear E.
  rewrite find_char_split by done. rewrite zlen_app. change (zlen [0]) with 1.
  replace (zlen user =? zlen user + 1 - 1) with true by (symmetry; apply Z.eqb_eq; lia).
  rewrite (ztake_app 2) by done. rewrite bool_decide_true by done. cbn [andb]. rewrite ztake_app by done.
  rewrite app_assoc, (zdrop_app 4) by (rewrite zlen_app, Lp; done). rewrite <-app_assoc.
  rewrite (slice_mid [4; 1] (be_bytes 2 port) ip) by (rewrite ?Lp; done). by rewrite be_val_be_bytes_small by (cbn; lia).
Qed.

(** A SOCKS4 proxy that grants the request learns the user id and the target; an IPv6 target is refused before anything is sent. *)
Theorem socks4_session `{AsyncReadOk R} (r : R) w target user_id ver b_port b_ip rest :
  addr_ok target -> Forall (fun b => b <> 0) (default [] user_id) -> 0 <= b_port < 2 ^ 16 -> zlen b_ip = 4 ->
  rd_ok r -> healthy w -> w_sink w = [] -> rd_bytes r = [ver; 90] ++ be_bytes 2 b_port ++ b_ip ++ rest ->
  exists a r' w', connect_socks4 target user_id (r, w) = Returned a (r', w') /\
    if is_ipv6 (sa_ip target) then is_ok a = false /\ r' = r /\ w' = w
    else a = Ok (mkBoundAddr (mkSocketAddr (V4 b_ip) b_port)) /\ rd_bytes r' = rest /\
         read_socks4 (w_sink w') = Some (default [] user_id, target).
Proof.
  intros Ht Hu Hp Hi Hr Hw Hs Hb. destruct target as [[ip|ip] port].
  2:{ by eexists _, _, _. }
  destruct (connect_socks4_wp (mkSocketAddr (V4 ip) port) ip user_id ver b_port b_ip rest r w) as (a & [r' w'] & E & -> & _ & Hb' & _ & Hs'); [done..|].
  eexists _, _, _. split; [exact E|]. cbn [fst snd] in *. split_and!; [done..|]. rewrite Hs', Hs.
  destruct Ht as [[Hl _] Hport]. by apply read_socks4_sent.
Qed.

(** ** Any proxy on any network

    The reader is a script; what came over the connection and what was written are accounted for. *)

Abbreviation socks_conn := (list read_event * upstream_w)%type (only parsing).

Definition exchanged (s s' : socks_conn) (got sent : bytes) : Prop :=
  up_ends s'.1 = up_ends s.1 /\ up_bytes s.1 = got ++ up_bytes s'.1 /\ w_sink s'.2 = w_sink s.2 ++ sent.

Lemma exchanged_refl s : exchanged s s [] [].
Proof. split_and!; [done|done|by rewrite app_nil_r]. Qed.

Lemma exchanged_trans s s1 s2 g1 w1 g2 w2 : exchanged s s1 g1 w1 -> exchanged s1 s2 g2 w2 -> exchanged s s2 (g1 ++ g2) (w1 ++ w2).
Proof. intros (D1 & E1 & F1) (D2 & E2 & F2). split_and!; [congruence|by rewrite E1, E2, app_assoc|by rewrite F2, F1, app_assoc]. Qed.

(** [socks_any m s P]: [m] returns, or waits because the proxy has fallen silent; and [P] holds of its result ([None] when
    it waits), of what was read and of what was written. *)
Definition socks_any {A} (m : socks_io (list read_event) A) (s : socks_conn)
    (P : option (result ProxyError A) -> bytes -> bytes -> Prop) : Prop :=
  match m s with
  | Returned a s' => exists got sent, exchanged s s' got sent /\ P (Some a) got sent
  | Waits s' => up_ends s.1 = false /\ exists got sent, exchanged s s' got sent /\ P None got sent
  end.

Lemma any_ret {A} (a : A) s (P : option (result ProxyError A) -> bytes -> bytes -> Prop) : P (Some (Ok a)) [] [] -> socks_any (socks_ret a) s P.
Proof. intros HP. exists [], []. split; [apply exchanged_refl|done]. Qed.

Lemma any_fail {A} e s (P : option (result ProxyError A) -> bytes -> bytes -> Prop) : P (Some (Err e)) [] [] -> socks_any (socks_fail e) s P.
Proof. intros HP. exists [], []. split; [apply exchanged_refl|done]. Qed.

Lemma any_bind {A B} (m : socks_io _ A) (k : A -> socks_io _ B) s (P : option (result ProxyError B) -> bytes -> bytes -> Prop) :
  socks_any m s (fun a g1 w1 =>
    match a with
    | None => P None g1 w1
    | Some (Err e) => P (Some (Err e)) g1 w1
    | Some (Ok a) => forall s', socks_any (k a) s' (fun b g2 w2 => P b (g1 ++ g2) (w1 ++ w2))
    end) ->
  socks_any (socks_bind m k) s P.
Proof.
  unfold socks_any at 1 3, socks_bind. destruct (m s) as [[a|e] s1|s1]; [|done|done].
  intros (g1 & w1 & E1 & HP). specialize (HP s1). unfold socks_any in HP. destruct (k a s1) as [b s2|s2].
  - destruct HP as (g2 & w2 & E2 & HP). exists (g1 ++ g2), (w1 ++ w2). split; [by eapply exchanged_trans|done].
  - destruct HP as (He & g2 & w2 & E2 & HP). split; [by rewrite <-He, (proj1 E1)|].
    exists (g1 ++ g2), (w1 ++ w2). split; [by eapply exchanged_trans|done].
Qed.

Lemma any_send data s (P : option (result ProxyError unit) -> bytes -> bytes -> Prop) :
  P (Some (Ok tt)) [] data -> (forall e sent, sent `prefix_of` data -> P (Some (Err e)) [] sent) -> socks_any (send data) s P.
Proof.
  destruct s as [r w]. intros Hok Herr. unfold socks_any, send.
  destruct (write_all_script (length (w_script w) + 2) w data ltac:(lia)) as (a & w' & sent & rest & -> & -> & Hs & Ha & _).
  exists [], sent. split; [done|]. destruct a as [[]|e]; cbn [map_err].
  - rewrite (Ha eq_refl), app_nil_r in Hok. done.
  - apply Herr. by exists rest.
Qed.

Lemma any_recv n s (P : option (result ProxyError bytes) -> bytes -> bytes -> Prop) :
  (forall bs, zlen bs = Z.max 0 n -> P (Some (Ok bs)) bs []) -> (forall e got, P (Some (Err e)) got []) -> P None [] [] ->
  socks_any (recv n) s P.
Proof.
  destruct s as [r w]. intros Hok Herr Hwait. unfold socks_any, recv. destruct (Z.le_gt_cases 0 n) as [Hn|Hn].
  - pose proof (up_read_exact r n Hn) as Hr. destruct (read_exact r n) as [[a r']|].
    + destruct Hr as (He & got & Hb & Ha). exists got, []. split; [split_and!; [done|done|by rewrite app_nil_r]|].
      destruct a as [bs|e]; cbn [map_err]; [|done]. destruct Ha as [-> Hl]. apply Hok. cbn [app] in *. lia.
    + split; [done|]. exists [], []. split; [apply exchanged_refl|done].
  - unfold read_exact. cbn [read_exact_loop]. change (zlen []) with 0. destruct (Z.ltb_spec 0 n); [lia|].
    exists [], []. split; [apply exchanged_refl|]. apply Hok. change (zlen (@nil Z)) with 0. lia.
Qed.

(** How far a SOCKS5 client goes: the greeting; the credentials, when the server asked for them; the
    request, when the server wants no credentials or accepted them. *)
Definition succeeded {A} (a : option (result ProxyError A)) : Prop := exists x, a = Some (Ok x).

Inductive disclosed (target : SocketAddr) (username password : option bytes) {A} :
    option (result ProxyError A) -> bytes -> bytes -> Prop :=
| OnlyGreeting a got sent :
    ~ succeeded a -> sent `prefix_of` socks5_greeting username -> disclosed target username password a got sent
| Credentials a got sent u p :
    ~ succeeded a -> username = Some u -> password = Some p -> sent `prefix_of` socks5_auth u p ->
    disclosed target username password a ([5; 2] ++ got) (socks5_greeting username ++ sent)
| Requested a method accepted got auth sent :
    (method = 0 /\ accepted = [] /\ auth = [] \/
     method = 2 /\ (exists ver, accepted = [ver; 0]) /\
       exists u p, username = Some u /\ password = Some p /\ auth = socks5_auth u p) ->
    sent `prefix_of` socks5_request target -> (succeeded a -> sent = socks5_request target) ->
    disclosed target username password a ([5; method] ++ accepted ++ got) (socks5_greeting username ++ auth ++ sent).

Lemma not_succeeded_err {A} e : ~ succeeded (A := A) (Some (Err e)).
Proof. by intros [x E]. Qed.
Lemma not_succeeded_wait {A} : ~ succeeded (A := A) None.
Proof. by intros [x E]. Qed.
#[local] Hint Resolve not_succeeded_err not_succeeded_wait : core.

Lemma two_bytes (l : bytes) : zlen l = 2 -> exists a b, l = [a; b].
Proof. destruct l as [|a [|b [|]]]; intros E; unfold zlen in E; cbn in E; try lia. by eexists _, _. Qed.

(** Reading the answer to the request discloses nothing more. *)
Lemma socks5_bound_any atyp s (P : option (result ProxyError SocketAddr) -> bytes -> bytes -> Prop) :
  (forall a got, P a got []) -> socks_any (socks5_bound atyp) s P.
Proof.
  intros HP. unfold socks5_bound.
  assert (forall n (k : bytes -> SocketAddr) s P, (forall a got, P a got []) ->
    socks_any (let? addr := recv n in socks_ret (k addr)) s P) as Hread.
  { intros n k s0 P0 H0. apply any_bind, any_recv; [|intros; apply H0..]. intros bs _ s'. apply any_ret. apply H0. }
  repeat case_match; [by apply Hread| |by apply Hread|by apply any_fail].
  apply any_bind, any_recv; [|intros; apply HP..]. intros bs _ s'. eapply Hread. intros. apply HP.
Qed.

(** After the server's choice. *)
Lemma socks5_rest_any target username password method accepted auth s :
  (method = 0 /\ accepted = [] /\ auth = [] \/
   method = 2 /\ (exists ver, accepted = [ver; 0]) /\
     exists u p, username = Some u /\ password = Some p /\ auth = socks5_auth u p) ->
  socks_any
    (let? _ := send (socks5_request target) in
     let? head := recv 4 in
     if nth 1 head 0 =? 0 then let? addr := socks5_bound (nth 3 head 0) in socks_ret (mkBoundAddr addr)
     else socks_fail (rejected "SOCKS5 request failed: code " (nth 1 head 0))) s
    (fun a got sent => disclosed target username password a ([5; method] ++ accepted ++ got) (socks5_greeting username ++ auth ++ sent)).
Proof.
  intros Hm. assert (forall a got, disclosed target username password (A := SocksBoundAddr) a
    ([5; method] ++ accepted ++ got) (socks5_greeting username ++ auth ++ socks5_request target)) as Hall.
  { intros a got. by apply Requested. }
  apply any_bind, any_send; [|intros e sent Hs; apply Requested; [done|done|by intros [? ?]]].
  intros s1. apply any_bind, any_recv; [|intros e got; rewrite app_nil_r; apply Hall|pose proof (Hall None []) as Hw; by rewrite !app_nil_r in *].
  intros head _ s2. case_match; [|apply any_fail; rewrite !app_nil_r; apply Hall].
  apply any_bind, socks5_bound_any. intros [[addr|e]|] got; [|rewrite !app_nil_r; apply Hall..].
  intros s3. apply any_ret. rewrite !app_nil_r. apply Hall.
Qed.

Lemma connect_socks5_any target username password s :
  socks_any (connect_socks5 target username password) s (disclosed target username password).
Proof.
  unfold connect_socks5. apply any_bind, any_send; [|intros e sent Hs; by apply OnlyGreeting].
  intros s1. apply any_bind, any_recv; [|intros e got; rewrite ?app_nil_r; by apply OnlyGreeting|rewrite ?app_nil_r; by apply OnlyGreeting].
  intros resp Hl s2. apply two_bytes in Hl as (v & m & ->). cbn [nth]. destruct (Z.eqb_spec v 5) as [->|_].
  2:{ apply any_fail. rewrite !app_nil_r. by apply OnlyGreeting. }
  apply any_bind. unfold socks5_authenticate. destruct (Z.eqb_spec m 0) as [->|_].
  { apply any_ret. intros s3. by apply (socks5_rest_any target username password 0 [] []); left. }
  destruct (Z.eqb_spec m 2) as [->|_]; [|apply any_fail; rewrite !app_nil_r; by apply OnlyGreeting].
  destruct username as [u|] eqn:Eu, password as [p|] eqn:Ep; try (apply any_fail; rewrite !app_nil_r; by apply OnlyGreeting).
  apply any_bind, any_send; [|intros e sent Hs; by apply (Credentials _ _ _ _ [] sent u p)].
  intros s3. apply any_bind, any_recv; [|intros e got; cbn [app]; rewrite !app_nil_r; by apply (Credentials _ _ _ _ got _ u p)|
    cbn [app]; rewrite !app_nil_r; by apply (Credentials _ _ _ _ [] _ u p)].
  intros ans Hl s4. apply two_bytes in Hl as (ver & st & ->). cbn [nth]. destruct (Z.eqb_spec st 0) as [->|_].
  - apply any_ret. intros s5. rewrite !app_nil_r. cbn [app]. eapply (socks5_rest_any target (Some u) (Some p) 2 [ver; 0]).
    right. split_and!; [done|by eexists|by eexists _, _].
  - apply any_fail. cbn [app]. rewrite !app_nil_r. by apply (Credentials _ _ _ _ [ver; st] _ u p).
Qed.

(** ** The properties *)

(** C20: a SOCKS5 session works against a server written after the RFCs: whatever method the server chooses that the
    client can answer (none, or a user name and password, each of fewer than 256 bytes), when it accepts and reports an
    address, the client returns that address, or for a name 0.0.0.0 with the port reported, and leaves the stream right
    after the answer; and what it wrote is, to a decoder of the protocol, exactly its offer (to go without credentials
    and, only if it has a user name, to give them), the credentials, and a request for the target, with nothing missing
    and nothing left over. *)
Theorem socks5_session `{AsyncReadOk R} (r : R) w target username password method ver rsv b rest :
  addr_ok target -> bound_ok b -> can_answer method username password ->
  from_option (fun u => zlen u < 256) True username -> from_option (fun p => zlen p < 256) True password ->
  rd_ok r -> rd_bytes r = socks5_answers method ver rsv b ++ rest -> healthy w -> w_sink w = [] ->
  exists r' w', connect_socks5 target username password (r, w) =
      Returned (Ok (mkBoundAddr (match b with BoundIp a => a | BoundName _ port => mkSocketAddr (V4 [0; 0; 0; 0]) port end))) (r', w') /\
    rd_bytes r' = rest /\
    read_session method (w_sink w') =
      Some (match username with None => [0] | Some _ => [0; 2] end,
            if method =? 2 then u ← username; p ← password; Some (u, p) else None, target).
Proof.
  intros Ht Hb Hc Hu Hp Hr Hrb Hw Hs.
  destruct (connect_socks5_wp method ver rsv b target username password rest r w) as (a & [r' w'] & E & -> & _ & Hb' & _ & Hs'); [done..|].
  exists r', w'. split; [exact E|]. split; [exact Hb'|]. cbn [snd] in Hs'. rewrite Hs', Hs. by apply read_session_sent.
Qed.

(** C21: over any network and with any proxy, whatever it answers and wherever either direction fails, a SOCKS5
    connect returns unless the proxy falls silent without closing, when it waits for ever; and what it has written by
    then, returned or waiting, is the beginning of the greeting, or of the credentials after the server asked for them,
    or of the request after the server wanted no credentials or accepted them; only a whole request can give success. *)
Theorem socks5_discloses target username password (up : list read_event) w :
  exists a up' w' got sent,
    match a with
    | Some r => connect_socks5 target username password (up, w) = Returned r (up', w')
    | None => connect_socks5 target username password (up, w) = Waits (up', w') /\ up_ends up = false
    end /\
    up_bytes up = got ++ up_bytes up' /\ w_sink w' = w_sink w ++ sent /\
    disclosed target username password a got sent.
Proof.
  pose proof (connect_socks5_any target username password (up, w)) as Hc. unfold socks_any in Hc.
  destruct (connect_socks5 target username password (up, w)) as [a [up' w']|[up' w']].
  - destruct Hc as (got & sent & (_ & E1 & E2) & Hd). by exists (Some a), up', w', got, sent.
  - destruct Hc as (He & got & sent & (_ & E1 & E2) & Hd). by exists None, up', w', got, sent.
Qed.

(** ** At work *)

Definition demo_dc : SocketAddr := mkSocketAddr (V4 [149; 154; 167; 51]) 443.

(** A server that asks for credentials and answers byte by byte. *)
Definition demo_server : list read_event :=
  RdPending :: map (fun b => RdData [b]) (socks5_answers 2 1 0 (BoundName (str "me") 1080)).

Example demo_socks5 :
  match connect_socks5 demo_dc (Some (str "u")) (Some (str "pw")) (demo_server, mkUpW [WrAccept 2; WrPending] [] []) with
  | Returned (Ok b) (up, w) => (b, up_bytes up, w_sink w)
  | _ => (mkBoundAddr demo_dc, [], [])
  end = (mkBoundAddr (mkSocketAddr (V4 [0; 0; 0; 0]) 1080), [],
         [5; 2; 0; 2] ++ [1; 1] ++ str "u" ++ [2] ++ str "pw" ++ [5; 1; 0; 1; 149; 154; 167; 51; 1; 187]).
Proof. vm_compute. reflexivity. Qed.

(** A proxy that takes the greeting and says nothing. *)
Example demo_silent_proxy :
  match connect_socks5 demo_dc (Some (str "u")) (Some (str "pw")) ([RdPending; RdData [5]; RdSilent], mkUpW [] [] []) with
  | Waits (_, w) => w_sink w
  | _ => []
  end = [5; 2; 0; 2].
Proof. vm_compute. reflexivity. Qed.

(** A user name of 256 bytes announces the length 0: the server takes its bytes for something else. *)
Example demo_long_name :
  let u := zrepeat 256 97 in read_session 2 (socks5_sends 2 (Some u) (Some (str "p")) demo_dc) = None.
Proof. vm_compute. reflexivity. Qed.

Lemma socks5_session_witness :
  let w := mkUpW [WrAccept 2; WrPending] [] [] in
  up_live demo_server = true /\ healthy w /\
  exists r' w', connect_socks5 demo_dc (Some (str "u")) (Some (str "pw")) (demo_server, w) =
      Returned (Ok (mkBoundAddr (mkSocketAddr (V4 [0; 0; 0; 0]) 1080))) (r', w') /\
    up_bytes r' = [] /\ read_session 2 (w_sink w') = Some ([0; 2], Some (str "u", str "pw"), demo_dc).
Proof.
  intros w. assert (up_live demo_server = true) as Hl by (vm_compute; reflexivity).
  assert (healthy w) as Hw by (repeat constructor). split; [exact Hl|]. split; [exact Hw|].
  apply (@socks5_session _ _ script_read_ok demo_server w demo_dc (Some (str "u")) (Some (str "pw")) 2 1 0 (BoundName (str "me") 1080) []).
  - apply (bool_decide_unpack _). vm_compute. exact I.
  - vm_compute. repeat split; discriminate.
  - right. split; [reflexivity|]. eexists _, _. split; reflexivity.
  - vm_compute. reflexivity.
  - vm_compute. reflexivity.
  - exact Hl.
  - vm_compute. reflexivity.
  - exact Hw.
  - reflexivity.
Defined.
