(* ===== verification/Stun.v ===== *)
(** * Address discovery by STUN: [network/stun.rs]

    The probe sends a binding request and reads the reflected address from the answer.  The socket
    is an environment: what binding, name resolution and connecting answer, and the events of the
    exchanges in order; with no event left the probe is still running.  The attribute loop indexes
    into the datagram, so its definition keeps panics and the bound of the loop explicit. *)

From stdpp Require Import gmap.
From S2P Require Import Prelude NetAddr Errors Crypto DnsOverrides.
Open Scope outcome_scope.

Inductive IpFamily := FamV4 | FamV6.
#[global] Instance IpFamily_eq_dec : EqDecision IpFamily.
Proof. solve_decision. Defined.

Record StunProbeResult := mkStunProbeResult {
  local_addr : SocketAddr;
  reflected_addr : SocketAddr;
  stun_family : IpFamily
}.

Record DualStunResult := mkDualStunResult { ds_v4 : option StunProbeResult; ds_v6 : option StunProbeResult }.

(** ** The answer (stun.rs:117-200) *)

Definition STUN_MAGIC : bytes := be_bytes 4 0x2112A442.

(** The address an attribute carries: [None] leaves the loop. *)
Definition attribute_address (txid buf : bytes) (atype alen idx : Z) : outcome (option SocketAddr) :=
  if alen <? 8 then Done None
  else
    let! family_byte := index buf (idx + 1) in
    let! port := index_u16 buf (idx + 2) in
    let len_check := if family_byte =? 0x01 then 4 else if family_byte =? 0x02 then 16 else 0 in
    if (len_check =? 0) || (alen <? 4 + len_check) then Done None
    else
      let! raw_ip := index_range buf (idx + 4) (idx + 4 + len_check) in
      let wrap := if family_byte =? 0x01 then V4 else V6 in
      if atype =? 0x0020 then
        let port := Z.lxor port 0x2112 in
        Done (Some (mkSocketAddr (wrap (xor_bytes raw_ip (STUN_MAGIC ++ txid))) port))
      else Done (Some (mkSocketAddr (wrap raw_ip) port)).

(** The loop over the attributes of a datagram of [n] bytes: the first mapped address, or [None] when
    it ends without one. *)
Fixpoint stun_attributes (fuel : nat) (txid buf : bytes) (n idx : Z) : outcome (option SocketAddr) :=
  match fuel with
  | O => OutOfFuel
  | S fuel =>
      if idx + 4 <=? n then
        let! atype := index_u16 buf idx in
        let! alen := index_u16 buf (idx + 2) in
        let idx := idx + 4 in
        if n <? idx + alen then Done None
        else if (atype =? 0x0020) || (atype =? 0x0001) then attribute_address txid buf atype alen idx
        else stun_attributes fuel txid buf n (idx + Z.land (alen + 3) (Z.lnot 3))
      else Done None
  end.

(** ** The exchange (stun.rs:82-116, 200-206) *)

Definition binding_request (txid : bytes) : bytes := be_bytes 2 0x0001 ++ be_bytes 2 0 ++ STUN_MAGIC ++ txid.

Inductive stun_event :=
| SendFails (e : IoError)
| RecvFails (e : IoError)
| RecvTimeout
| Reply (datagram : bytes).

Inductive probe_state :=
| StillRunning (requests_sent : Z)
| Returned (r : result ProxyError (option StunProbeResult)).

(** Every turn sends the request and waits; [recv] truncates a datagram to the 256 bytes of [buf]. *)
Fixpoint stun_loop (local : io_result SocketAddr) (family : IpFamily) (txid buf : bytes) (attempt sent : Z)
    (events : list stun_event) : outcome probe_state :=
  match events with
  | [] => Done (StillRunning (sent + 1))
  | SendFails e :: _ => Done (Returned (Err (PE_Proxy "STUN send failed: {e}")))
  | RecvFails e :: _ => Done (Returned (Err (PE_Proxy "STUN recv failed: {e}")))
  | RecvTimeout :: events =>
      let attempt := attempt + 1 in
      if 3 <=? attempt then Done (Returned (Ok None)) else stun_loop local family txid buf attempt (sent + 1) events
  | Reply datagram :: events =>
      let data := ztake 256 datagram in
      let buf := splice buf 0 data in
      let n := zlen data in
      if n <? 20 then Done (Returned (Ok None))
      else
        let! found := stun_attributes (Z.to_nat n) txid buf n 20 in
        match found with
        | Some reflected =>
            match local with
            | Ok local => Done (Returned (Ok (Some (mkStunProbeResult local reflected family))))
            | Err e => Done (Returned (Err (PE_Proxy "STUN local_addr failed: {e}")))
            end
        | None => stun_loop local family txid buf attempt (sent + 1) events
        end
  end.

(** ** The probe (stun.rs:44-80, 208-234) *)

Record stun_env := mkStunEnv {
  env_bind : SocketAddr -> io_result unit;
  env_lookup : bytes -> io_result (list SocketAddr);
  env_connect : SocketAddr -> io_result unit;
  env_local : io_result SocketAddr;
  env_txid : bytes;
  env_events : list stun_event
}.

Definition family_matches (a : SocketAddr) (family : IpFamily) : bool :=
  match is_ipv4 (sa_ip a), family with true, FamV4 | false, FamV6 => true | _, _ => false end.

Definition resolve_stun_addr (env : stun_env) (store : OverrideMap) (stun_addr : bytes) (family : IpFamily)
  : result ProxyError (option SocketAddr) :=
  let pick addr := Ok (if family_matches addr family then Some addr else None) in
  match parse_socket_addr stun_addr with
  | Some addr => pick addr
  | None =>
      let override := '(host, port) ← split_host_port stun_addr; resolve_socket_addr store host port in
      match override with
      | Some addr => pick addr
      | None =>
          match env_lookup env stun_addr with
          | Err e => Err (PE_Proxy "STUN resolve failed: {e}")
          | Ok addrs => Ok (head (filter (fun a => family_matches a family) addrs))
          end
      end
  end.

Definition unspecified_v4 : bytes := zrepeat 4 0.
Definition unspecified_v6 : bytes := zrepeat 16 0.

Definition stun_probe_family_with_bind (env : stun_env) (store : OverrideMap) (stun_addr : bytes) (family : IpFamily)
    (bind_ip : option IpAddr) : outcome probe_state :=
  let bind_addr :=
    match family, bind_ip with
    | FamV4, Some (V4 ip) => Some (mkSocketAddr (V4 ip) 0)
    | FamV6, Some (V6 ip) => Some (mkSocketAddr (V6 ip) 0)
    | FamV4, Some (V6 _) | FamV6, Some (V4 _) => None
    | FamV4, None => Some (mkSocketAddr (V4 unspecified_v4) 0)
    | FamV6, None => Some (mkSocketAddr (V6 unspecified_v6) 0)
    end in
  match bind_addr with
  | None => Done (Returned (Ok None))
  | Some bind_addr =>
      match env_bind env bind_addr with
      | Err e =>
          Done (Returned (match bind_ip with Some _ => Ok None | None => Err (PE_Proxy "STUN bind failed: {e}") end))
      | Ok _ =>
          match resolve_stun_addr env store stun_addr family with
          | Err e => Done (Returned (Err e))
          | Ok None => Done (Returned (Ok None))
          | Ok (Some addr) =>
              match env_connect env addr with
              | Ok _ => stun_loop (env_local env) family (env_txid env) (zrepeat 256 0) 0 0 (env_events env)
              | Err e =>
                  if bool_decide (family = FamV6) &&
                     match err_kind e with
                     | NetworkUnreachable | HostUnreachable | Unsupported | NetworkDown => true
                     | _ => false
                     end
                  then Done (Returned (Ok None))
                  else Done (Returned (Err (PE_Proxy "STUN connect failed: {e}")))
              end
          end
      end
  end.

Definition stun_probe_family (env : stun_env) (store : OverrideMap) (stun_addr : bytes) (family : IpFamily)
  : outcome probe_state := stun_probe_family_with_bind env store stun_addr family None.

(** ** The parser is safe on any datagram *)

(** Attributes are padded to a multiple of four bytes. *)
Lemma align4 x : 0 <= x -> Z.land (x + 3) (Z.lnot 3) = 4 * ((x + 3) / 4).
Proof.
  intros Hx. change 3 with (Z.ones 2) at 2. rewrite <-Z.ldiff_land, Z.ldiff_ones_r by lia.
  rewrite Z.shiftl_mul_pow2, Z.shiftr_div_pow2 by lia. change (2 ^ 2) with 4. lia.
Qed.

Lemma align4_bounds x : 0 <= x -> x <= 4 * ((x + 3) / 4) < x + 4.
Proof. intros. pose proof (Z.div_mod (x + 3) 4 ltac:(lia)). pose proof (Z.mod_pos_bound (x + 3) 4 ltac:(lia)). lia. Qed.

Lemma zlen_xor_bytes a b : zlen a <= zlen b -> zlen (xor_bytes a b) = zlen a.
Proof. unfold zlen, xor_bytes. rewrite length_zip_with. lia. Qed.

Lemma xor_bytes_twice a k : zlen a <= zlen k -> xor_bytes (xor_bytes a k) k = a.
Proof.
  unfold xor_bytes, zlen. revert k. induction a as [|x a IH]; intros k Hk; [done|]. destruct k as [|y k]; [cbn in Hk; lia|].
  cbn. rewrite Z.lxor_assoc, Z.lxor_nilpotent, Z.lxor_0_r. f_equal. apply IH. cbn in Hk. lia.
Qed.

Lemma lxor_u16 p : 0 <= p < 2 ^ 16 -> 0 <= Z.lxor p 0x2112 < 2 ^ 16.
Proof.
  intros Hp. split; [apply Z.lxor_nonneg; lia|]. destruct (Z.eq_dec (Z.lxor p 0x2112) 0) as [->|Hn]; [lia|].
  apply Z.log2_lt_pow2; [pose proof (proj2 (Z.lxor_nonneg p 0x2112)); lia|].
  eapply Z.le_lt_trans; [apply Z.log2_lxor; lia|]. apply Z.max_lub_lt; [|cbn; lia].
  destruct (Z.eq_dec p 0); [subst; cbn; lia|]. apply Z.log2_lt_pow2; lia.
Qed.

Section Safe.
Context (txid buf : bytes).
Hypothesis Htx : zlen txid = 12 /\ bytes_ok txid.
Hypothesis Hbuf : bytes_ok buf.

Lemma key_ok : zlen (STUN_MAGIC ++ txid) = 16 /\ bytes_ok (STUN_MAGIC ++ txid).
Proof.
  destruct Htx as [Hl Hb]. split; [rewrite zlen_app; change (zlen STUN_MAGIC) with 4; lia|].
  apply bytes_ok_app. split; [apply be_bytes_ok|done].
Qed.

Definition found_ok (r : option SocketAddr) : Prop := match r with Some a => addr_ok a | None => True end.

Lemma attribute_address_safe atype alen idx :
  0 <= idx -> idx + alen <= zlen buf ->
  exists r, attribute_address txid buf atype alen idx = Done r /\ found_ok r.
Proof.
  intros Hi Hl. unfold attribute_address. destruct (Z.ltb_spec alen 8); [by eexists|].
  destruct (index_byte buf (idx + 1) Hbuf) as (fb & -> & Hfb); [lia|]. cbn [obind].
  destruct (index_u16_word buf (idx + 2) Hbuf) as (port & -> & Hport); [lia|lia|]. cbn [obind].
  destruct key_ok as [Kl Kb].
  assert (forall k wrap, (k = 4 /\ wrap = V4) \/ (k = 16 /\ wrap = V6) -> 4 + k <= alen ->
    exists r, (let! raw_ip := index_range buf (idx + 4) (idx + 4 + k) in
      if atype =? 0x0020 then Done (Some (mkSocketAddr (wrap (xor_bytes raw_ip (STUN_MAGIC ++ txid))) (Z.lxor port 0x2112)))
      else Done (Some (mkSocketAddr (wrap raw_ip) port))) = Done r /\ found_ok r) as Hk.
  { intros k wrap Hw Hle. assert (0 <= k <= 16) by (destruct Hw as [[-> _]|[-> _]]; lia).
    rewrite index_range_ok by lia. cbn [obind].
    assert (zlen (slice buf (idx + 4) (idx + 4 + k)) = k) as Ls by (rewrite zlen_slice; lia).
    assert (bytes_ok (slice buf (idx + 4) (idx + 4 + k))) as Bs by (by apply Forall_take, Forall_drop).
    destruct (atype =? 0x0020); eexists; (split; [done|]); unfold found_ok, addr_ok; cbn [sa_ip sa_port].
    - pose proof (lxor_u16 port Hport). pose proof (zlen_xor_bytes (slice buf (idx + 4) (idx + 4 + k)) (STUN_MAGIC ++ txid)) as Lx.
      pose proof (xor_bytes_ok _ _ Bs Kb) as Bx. destruct Hw as [[-> ->]|[-> ->]]; (split; [split; [lia|done]|lia]).
    - destruct Hw as [[-> ->]|[-> ->]]; (split; [split; [lia|done]|lia]). }
  destruct (Z.eqb_spec fb 1) as [->|H1]; [|destruct (Z.eqb_spec fb 2) as [->|H2]]; cbn [orb Z.eqb Pos.eqb].
  - destruct (Z.ltb_spec alen (4 + 4)); [by eexists|]. apply (Hk 4 V4); [by left|lia].
  - destruct (Z.ltb_spec alen (4 + 16)); [by eexists|]. apply (Hk 16 V6); [by right|lia].
  - by eexists.
Qed.

Lemma stun_attributes_safe fuel n : forall idx,
  0 <= idx -> n <= zlen buf -> (0 < fuel)%nat -> n - idx < Z.of_nat fuel ->
  exists r, stun_attributes fuel txid buf n idx = Done r /\ found_ok r.
Proof.
  induction fuel as [|fuel IH]; intros idx Hi Hn H0 Hf; cbn [stun_attributes].
  { lia. }
  destruct (Z.leb_spec (idx + 4) n); [|by eexists].
  destruct (index_u16_word buf idx Hbuf) as (atype & -> & _); [lia|lia|]. cbn [obind].
  destruct (index_u16_word buf (idx + 2) Hbuf) as (alen & -> & Ha); [lia|lia|]. cbn [obind].
  destruct (Z.ltb_spec n (idx + 4 + alen)); [by eexists|].
  destruct ((atype =? 0x0020) || (atype =? 0x0001)); [apply attribute_address_safe; lia|].
  rewrite align4 by lia. pose proof (align4_bounds alen ltac:(lia)). apply IH; lia.
Qed.

End Safe.

(** ** What a server reflects is what is found *)

Definition pad_to4 (v : bytes) : bytes := zrepeat (4 * ((zlen v + 3) / 4) - zlen v) 0.
Definition enc_attribute (a : Z * bytes) : bytes := be_bytes 2 a.1 ++ be_bytes 2 (zlen a.2) ++ a.2 ++ pad_to4 a.2.
Definition other_attribute (a : Z * bytes) : Prop := 0 <= a.1 < 2 ^ 16 /\ a.1 <> 0x0020 /\ a.1 <> 0x0001 /\ zlen a.2 < 2 ^ 16.

Definition ip_octets (a : IpAddr) : bytes := match a with V4 o => o | V6 o => o end.
Definition family_byte_of (a : IpAddr) : Z := if is_ipv4 a then 0x01 else 0x02.

(** The value of a XOR-MAPPED-ADDRESS attribute. *)
Definition xor_mapped (txid : bytes) (a : SocketAddr) : bytes :=
  [0; family_byte_of (sa_ip a)] ++ be_bytes 2 (Z.lxor (sa_port a) 0x2112) ++
  xor_bytes (ip_octets (sa_ip a)) (STUN_MAGIC ++ txid).

Lemma zlen_pad_to4 v : zlen v + zlen (pad_to4 v) = 4 * ((zlen v + 3) / 4).
Proof. unfold pad_to4. rewrite zlen_zrepeat. pose proof (align4_bounds (zlen v) (zlen_nonneg v)). lia. Qed.

Lemma attribute_skipped fuel txid pre a post n :
  other_attribute a -> n <= zlen (pre ++ enc_attribute a ++ post) -> zlen pre + 4 + zlen a.2 <= n ->
  stun_attributes (S fuel) txid (pre ++ enc_attribute a ++ post) n (zlen pre) =
  stun_attributes fuel txid (pre ++ enc_attribute a ++ post) n (zlen (pre ++ enc_attribute a)).
Proof.
  intros (Ht & H1 & H2 & Hl) Hn Hfit. destruct a as [t v]. cbn [fst snd] in *. pose proof (zlen_nonneg v). pose proof (zlen_nonneg pre).
  cbn [stun_attributes]. destruct (Z.leb_spec (zlen pre + 4) n); [|lia].
  unfold enc_attribute at 1 2. cbn [fst snd]. rewrite <-!app_assoc. rewrite index_u16_mid by (done || lia). cbn [obind].
  assert (zlen (be_bytes 2 t) = 2) as L2 by apply zlen_be_bytes.
  rewrite (app_assoc pre (be_bytes 2 t)), index_u16_mid by (rewrite ?zlen_app; lia). cbn [obind].
  destruct (Z.ltb_spec n (zlen pre + 4 + zlen v)); [lia|].
  destruct (Z.eqb_spec t 0x0020); [lia|]. destruct (Z.eqb_spec t 0x0001); [lia|]. cbn [orb].
  rewrite align4 by lia. unfold enc_attribute. cbn [fst snd]. rewrite <-!app_assoc. f_equal.
  rewrite !zlen_app, !zlen_be_bytes. pose proof (zlen_pad_to4 v). change (Z.of_nat 2) with 2. lia.
Qed.

Lemma attributes_skipped txid attrs : forall fuel pre post n,
  Forall other_attribute attrs -> n <= zlen (pre ++ (attrs ≫= enc_attribute) ++ post) ->
  zlen pre + zlen (attrs ≫= enc_attribute) <= n -> (length attrs <= fuel)%nat ->
  stun_attributes fuel txid (pre ++ (attrs ≫= enc_attribute) ++ post) n (zlen pre) =
  stun_attributes (fuel - length attrs) txid (pre ++ (attrs ≫= enc_attribute) ++ post) n
    (zlen (pre ++ (attrs ≫= enc_attribute))).
Proof.
  induction attrs as [|a attrs IH]; intros fuel pre post n Ha Hn Hfit Hf.
  { cbn [mbind list_bind app length]. by rewrite app_nil_r, Nat.sub_0_r. }
  inversion Ha; subst. destruct fuel as [|fuel]; [cbn in Hf; lia|]. cbn [mbind list_bind length Nat.sub] in *.
  pose proof (zlen_nonneg (mbind enc_attribute attrs)) as Hnn. pose proof (zlen_pad_to4 a.2) as Hp.
  pose proof (align4_bounds (zlen a.2) (zlen_nonneg _)).
  assert (zlen (enc_attribute a) = 4 + 4 * ((zlen a.2 + 3) / 4)) as Le.
  { unfold enc_attribute. rewrite !zlen_app, !zlen_be_bytes. change (Z.of_nat 2) with 2. lia. }
  rewrite <-!app_assoc in *. rewrite (attribute_skipped fuel txid pre a) by (first [done|rewrite ?zlen_app in *; lia]).
  rewrite (app_assoc pre (enc_attribute a)) in *.
  rewrite IH by (first [done|lia|rewrite ?zlen_app in *; lia]). by rewrite <-!app_assoc.
Qed.

Lemma zlen_xor_mapped txid a :
  zlen txid = 12 -> ip_ok (sa_ip a) ->
  zlen (xor_bytes (ip_octets (sa_ip a)) (STUN_MAGIC ++ txid)) = (if is_ipv4 (sa_ip a) then 4 else 16) /\
  zlen (xor_mapped txid a) = 4 + (if is_ipv4 (sa_ip a) then 4 else 16).
Proof.
  intros Htx Hip. assert (zlen (STUN_MAGIC ++ txid) = 16) as Kl by (rewrite zlen_app; change (zlen STUN_MAGIC) with 4; lia).
  assert (zlen (ip_octets (sa_ip a)) = (if is_ipv4 (sa_ip a) then 4 else 16)) as Eo by (destruct (sa_ip a); apply Hip).
  assert (zlen (xor_bytes (ip_octets (sa_ip a)) (STUN_MAGIC ++ txid)) = (if is_ipv4 (sa_ip a) then 4 else 16)) as Lx.
  { rewrite zlen_xor_bytes; [done|]. rewrite Eo, Kl. destruct (is_ipv4 _); lia. }
  split; [done|]. unfold xor_mapped. rewrite !zlen_app, zlen_be_bytes, Lx.
  change (zlen [0; family_byte_of (sa_ip a)]) with 2. lia.
Qed.

Lemma attribute_address_found txid pre a post :
  zlen txid = 12 -> addr_ok a ->
  attribute_address txid (pre ++ xor_mapped txid a ++ post) 0x0020 (zlen (xor_mapped txid a)) (zlen pre) = Done (Some a).
Proof.
  intros Htx [Hip Hp]%addr_ok_ip. destruct (zlen_xor_mapped txid a Htx Hip) as [Lx Lv].
  assert (zlen (STUN_MAGIC ++ txid) = 16) as Kl by (rewrite zlen_app; change (zlen STUN_MAGIC) with 4; lia).
  pose proof (lxor_u16 _ Hp) as Hxp. unfold attribute_address. rewrite Lv.
  unfold xor_mapped. set (ob := xor_bytes (ip_octets (sa_ip a)) (STUN_MAGIC ++ txid)) in *.
  set (fb := family_byte_of (sa_ip a)). set (pb := be_bytes 2 (Z.lxor (sa_port a) 0x2112)).
  assert (zlen pb = 2) as Lpb by apply zlen_be_bytes.
  replace (pre ++ ([0; fb] ++ pb ++ ob) ++ post) with ((pre ++ [0]) ++ fb :: pb ++ ob ++ post) by (by rewrite <-!app_assoc).
  destruct (Z.ltb_spec (4 + (if is_ipv4 (sa_ip a) then 4 else 16)) 8); [destruct (is_ipv4 _); lia|].
  rewrite index_mid by (rewrite zlen_app; done). cbn [obind].
  replace ((pre ++ [0]) ++ fb :: pb ++ ob ++ post) with ((pre ++ [0; fb]) ++ pb ++ ob ++ post) by (by rewrite <-!app_assoc).
  unfold pb at 1. rewrite index_u16_mid by (try done; rewrite zlen_app; done). fold pb. cbn [obind].
  rewrite (app_assoc (pre ++ [0; fb])).
  assert (forall k, zlen ob = k -> index_range (((pre ++ [0; fb]) ++ pb) ++ ob ++ post) (zlen pre + 4) (zlen pre + 4 + k) = Done ob) as Hr.
  { intros k Hk. assert (zlen ((pre ++ [0; fb]) ++ pb) = zlen pre + 4) as L.
    { rewrite !zlen_app, Lpb. change (zlen [0; fb]) with 2. lia. }
    pose proof (zlen_nonneg pre). pose proof (zlen_nonneg ob). pose proof (zlen_nonneg post).
    rewrite index_range_ok by (rewrite ?(zlen_app _ (ob ++ post)), ?(zlen_app ob), ?L; lia). f_equal. apply slice_mid; lia. }
  assert (xor_bytes ob (STUN_MAGIC ++ txid) = ip_octets (sa_ip a)) as Ex.
  { apply xor_bytes_twice. rewrite Kl. destruct (sa_ip a); destruct Hip; cbn; lia. }
  assert (Z.lxor (Z.lxor (sa_port a) 0x2112) 0x2112 = sa_port a) as Ep
    by (by rewrite Z.lxor_assoc, Z.lxor_nilpotent, Z.lxor_0_r).
  unfold fb, family_byte_of in *. destruct a as [[o|o] port]; cbn [sa_ip sa_port is_ipv4 ip_octets] in *;
    (rewrite Hr by done); cbn -[xor_bytes STUN_MAGIC Z.lxor app]; by rewrite Ex, Ep.
Qed.

Lemma address_found txid pre a post n :
  zlen txid = 12 -> addr_ok a -> n <= zlen (pre ++ enc_attribute (0x0020, xor_mapped txid a) ++ post) ->
  zlen pre + 4 + zlen (xor_mapped txid a) <= n ->
  stun_attributes 1 txid (pre ++ enc_attribute (0x0020, xor_mapped txid a) ++ post) n (zlen pre) = Done (Some a).
Proof.
  intros Htx Ha Hn Hfit. pose proof (zlen_nonneg (xor_mapped txid a)).
  destruct (zlen_xor_mapped txid a Htx) as [_ Lv]; [by apply addr_ok_ip in Ha as []|].
  set (v := xor_mapped txid a) in *. cbn [stun_attributes].
  destruct (Z.leb_spec (zlen pre + 4) n); [|lia].
  unfold enc_attribute. cbn [fst snd]. rewrite <-!app_assoc. rewrite index_u16_mid by (done || lia). cbn [obind].
  rewrite (app_assoc pre), index_u16_mid by (rewrite ?zlen_app, ?zlen_be_bytes; destruct (is_ipv4 _); lia). cbn [obind].
  destruct (Z.ltb_spec n (zlen pre + 4 + zlen v)); [lia|]. change ((32 =? 32) || (32 =? 1)) with true. cbv iota.
  rewrite (app_assoc _ (be_bytes 2 (zlen v))). set (pre' := (pre ++ be_bytes 2 32) ++ be_bytes 2 (zlen v)).
  assert (zlen pre + 4 = zlen pre') as -> by (unfold pre'; rewrite !zlen_app, !zlen_be_bytes; lia).
  by apply attribute_address_found.
Qed.

Lemma splice_prefix (buf d : bytes) : zlen d <= zlen buf -> splice buf 0 d = d ++ zdrop (zlen d) buf.
Proof. intros. unfold splice. by rewrite ztake_0, Z.add_0_l by lia. Qed.

Lemma enc_attributes_length attrs : 4 * Z.of_nat (length attrs) <= zlen (attrs ≫= enc_attribute).
Proof.
  induction attrs as [|a attrs IH]; [done|]. cbn [mbind list_bind length] in *. rewrite zlen_app.
  unfold enc_attribute at 1. rewrite !zlen_app, !zlen_be_bytes. pose proof (zlen_nonneg a.2).
  pose proof (zlen_nonneg (pad_to4 a.2)). lia.
Qed.

(** More fuel changes nothing. *)
Lemma stun_attributes_more fuel txid buf n : forall idx r,
  stun_attributes fuel txid buf n idx = Done r -> forall more, stun_attributes (fuel + more) txid buf n idx = Done r.
Proof.
  induction fuel as [|fuel IH]; intros idx r H more; [done|]. cbn [stun_attributes Nat.add] in *.
  destruct (idx + 4 <=? n); [|done]. destruct (index_u16 buf idx); try done. cbn [obind] in *.
  destruct (index_u16 buf (idx + 2)); try done. cbn [obind] in *. destruct (n <? idx + 4 + a0); [done|].
  destruct ((a =? 32) || (a =? 1)); [done|]. by apply IH.
Qed.

(** The answer of a server: a header, attributes the probe does not know, the reflected address, the
    rest. *)
Definition stun_answer (header : bytes) (attrs : list (Z * bytes)) (txid : bytes) (a : SocketAddr) (post : bytes) : bytes :=
  header ++ (attrs ≫= enc_attribute) ++ enc_attribute (0x0020, xor_mapped txid a) ++ post.

Lemma stun_answer_found header attrs txid a post buf :
  zlen header = 20 -> zlen txid = 12 -> addr_ok a -> Forall other_attribute attrs ->
  let d := stun_answer header attrs txid a post in
  zlen d <= 256 -> zlen buf = 256 ->
  stun_attributes (Z.to_nat (zlen d)) txid (splice buf 0 d) (zlen d) 20 = Done (Some a).
Proof.
  intros Hh Htx Ha Hattrs d Hd Hbuf. rewrite splice_prefix by lia. set (stale := zdrop (zlen d) buf).
  set (A := attrs ≫= enc_attribute). set (X := enc_attribute (0x0020, xor_mapped txid a)).
  assert (zlen d = 20 + zlen A + zlen X + zlen post) as Ld by (subst d; unfold stun_answer; rewrite !zlen_app; fold A X; lia).
  pose proof (enc_attributes_length attrs) as Lc. fold A in Lc. pose proof (zlen_nonneg post). pose proof (zlen_nonneg stale).
  assert (4 + zlen (xor_mapped txid a) <= zlen X) as LX.
  { subst X. unfold enc_attribute. cbn [fst snd]. rewrite !zlen_app, !zlen_be_bytes.
    pose proof (zlen_nonneg (pad_to4 (xor_mapped txid a))). lia. }
  pose proof (zlen_nonneg (xor_mapped txid a)).
  replace (d ++ stale) with (header ++ A ++ (X ++ post ++ stale)) by (subst d; unfold stun_answer; by rewrite <-!app_assoc).
  rewrite <-Hh at 1. unfold A at 1. rewrite attributes_skipped; [|done|fold A; rewrite !zlen_app; lia|fold A; lia|lia].
  fold A. rewrite (app_assoc header A).
  replace (Z.to_nat (zlen d) - length attrs)%nat with (1 + (Z.to_nat (zlen d) - length attrs - 1))%nat by lia.
  apply stun_attributes_more, address_found; [done|done|fold X; rewrite !zlen_app; lia|rewrite zlen_app; lia].
Qed.

(** The address a server reflects in a XOR-MAPPED-ADDRESS attribute, of either family and behind
    any attributes the probe does not know, is the address the probe returns, whatever the buffer held
    before and whatever comes later. *)
Theorem stun_reflects local family txid header attrs a post buf attempt sent events :
  zlen header = 20 -> zlen txid = 12 -> addr_ok a -> Forall other_attribute attrs ->
  zlen (stun_answer header attrs txid a post) <= 256 -> zlen buf = 256 ->
  stun_loop (Ok local) family txid buf attempt sent (Reply (stun_answer header attrs txid a post) :: events) =
    Done (Returned (Ok (Some (mkStunProbeResult local a family)))).
Proof.
  intros Hh Htx Ha Hattrs Hd Hbuf. cbn [stun_loop]. rewrite ztake_all by done.
  assert (20 <= zlen (stun_answer header attrs txid a post)) as H20.
  { unfold stun_answer. rewrite zlen_app. match goal with |- _ <= _ + zlen ?x => pose proof (zlen_nonneg x) end. lia. }
  destruct (Z.ltb_spec (zlen (stun_answer header attrs txid a post)) 20); [lia|].
  by rewrite stun_answer_found.
Qed.

Definition datagram_ok (e : stun_event) : Prop := match e with Reply d => bytes_ok d | _ => True end.

(** Whatever arrives, the probe neither panics nor loops inside one datagram, and an address it
    returns is a proper one; three timeouts end it; but answers that carry no address are not
    counted as attempts: as long as a server sends them, the probe sends one more request for each
    and goes on. *)
Theorem stun_probe_progress local family txid buf events :
  zlen txid = 12 -> bytes_ok txid -> zlen buf = 256 -> bytes_ok buf -> Forall datagram_ok events ->
  (forall attempt sent, exists s, stun_loop local family txid buf attempt sent events = Done s /\
     match s with Returned (Ok (Some r)) => addr_ok (reflected_addr r) | _ => True end) /\
  stun_loop local family txid buf 0 0 (RecvTimeout :: RecvTimeout :: RecvTimeout :: events) = Done (Returned (Ok None)) /\
  ((forall e, e ∈ events -> exists d, e = Reply d /\ 20 <= zlen d < 24) ->
   forall attempt sent, stun_loop local family txid buf attempt sent events =
     Done (StillRunning (sent + 1 + zlen events))).
Proof.
  intros Htx Btx Hl Hb Hev. split_and!; [|done|].
  - revert buf Hl Hb. induction Hev as [|e events He Hev IH]; intros buf Hl Hb attempt sent; [by eexists|].
    destruct e as [e|e| |d]; cbn [stun_loop]; [by eexists|by eexists| |].
    { destruct (3 <=? attempt + 1); [by eexists|by apply IH]. }
    destruct (zlen (ztake 256 d) <? 20) eqn:E20; [by eexists|].
    assert (zlen (splice buf 0 (ztake 256 d)) = 256) as Hl'.
    { rewrite zlen_splice; [done|lia|rewrite zlen_ztake; lia]. }
    assert (bytes_ok (splice buf 0 (ztake 256 d))) as Hb'.
    { unfold splice. apply bytes_ok_app. split; [by apply Forall_take|]. apply bytes_ok_app.
      split; [by apply Forall_take|by apply Forall_drop]. }
    destruct (stun_attributes_safe txid (splice buf 0 (ztake 256 d)) (conj Htx Btx) Hb'
      (Z.to_nat (zlen (ztake 256 d))) (zlen (ztake 256 d)) 20) as (r & -> & Hr);
      [lia|rewrite Hl', zlen_ztake; lia|lia|lia|].
    cbn [obind]. destruct r as [a|]; [|by apply IH]. destruct local; by eexists.
  - clear Hev Btx Hb. revert buf Hl. induction events as [|e events IH]; intros buf Hl Hall attempt sent.
    { cbn [stun_loop]. change (zlen []) with 0. do 2 f_equal. lia. }
    destruct (Hall e) as (d & -> & Hd); [by left|]. cbn [stun_loop]. rewrite ztake_all by lia.
    destruct (Z.ltb_spec (zlen d) 20); [lia|].
    destruct (Z.to_nat (zlen d)) as [|k] eqn:Ek; [lia|]. cbn [stun_attributes].
    destruct (Z.leb_spec (20 + 4) (zlen d)); [lia|]. cbn [obind].
    rewrite IH; [|rewrite zlen_splice; [done|lia|lia]|intros e' He'; apply Hall; by right].
    rewrite zlen_cons. do 2 f_equal. lia.
Qed.

Definition demo_stun_header : bytes := be_bytes 2 0x0101 ++ be_bytes 2 24 ++ STUN_MAGIC ++ zrepeat 12 7.
Definition demo_reflected : SocketAddr := mkSocketAddr (V4 [203; 0; 113; 9]) 40000.

