(* ===== verification/NetProbe.v ===== *)
(** * Which networks can be used: [network/probe.rs], [util/ip.rs]

    The start-up probe combines the addresses of the local interfaces, what STUN servers reflect and
    what HTTP services answer into the decision which address families to use.  The sockets and
    the HTTP client are arguments: the local addresses they report and the bodies they return. *)

From stdpp Require Import gmap.
From S2P Require Import Prelude NetAddr Errors DnsOverrides Stun.

(** ** Address classes ([std::net]) *)

Definition octet (o : bytes) (i : Z) : Z := default 0 (zget o i).
Definition seg (o : bytes) (i : Z) : Z := default 0 (zget (segments o) i).

Definition v4_is_private (o : bytes) : bool :=
  (octet o 0 =? 10) || ((octet o 0 =? 172) && (16 <=? octet o 1) && (octet o 1 <=? 31)) ||
  ((octet o 0 =? 192) && (octet o 1 =? 168)).
Definition v4_is_loopback (o : bytes) : bool := octet o 0 =? 127.
Definition v4_is_link_local (o : bytes) : bool := (octet o 0 =? 169) && (octet o 1 =? 254).
Definition v4_is_multicast (o : bytes) : bool := (224 <=? octet o 0) && (octet o 0 <=? 239).
Definition v4_is_broadcast (o : bytes) : bool := bool_decide (o = [255; 255; 255; 255]).
Definition v6_is_unspecified (o : bytes) : bool := bool_decide (o = zrepeat 16 0).
Definition v6_is_loopback (o : bytes) : bool := bool_decide (o = zrepeat 15 0 ++ [1]).
Definition v6_is_unique_local (o : bytes) : bool := Z.land (seg o 0) 0xfe00 =? 0xfc00.
Definition v6_is_multicast (o : bytes) : bool := octet o 0 =? 0xff.

(** ** [is_bogon] (probe.rs:286-353) *)

Definition is_bogon_v4 (ip : bytes) : bool :=
  if v4_is_private ip || v4_is_loopback ip || v4_is_link_local ip then true
  else if octet ip 0 =? 0 then true
  else if (octet ip 0 =? 100) && (Z.land (octet ip 1) 0xC0 =? 64) then true
  else if (octet ip 0 =? 192) && (octet ip 1 =? 0) && (octet ip 2 =? 0) then true
  else if (octet ip 0 =? 192) && (octet ip 1 =? 0) && (octet ip 2 =? 2) then true
  else if (octet ip 0 =? 198) && (Z.land (octet ip 1) 0xFE =? 18) then true
  else if (octet ip 0 =? 198) && (octet ip 1 =? 51) && (octet ip 2 =? 100) then true
  else if (octet ip 0 =? 203) && (octet ip 1 =? 0) && (octet ip 2 =? 113) then true
  else if v4_is_multicast ip then true
  else if 240 <=? octet ip 0 then true
  else v4_is_broadcast ip.

Definition is_bogon_v6 (ip : bytes) : bool :=
  if v6_is_unspecified ip || v6_is_loopback ip || v6_is_unique_local ip then true
  else if Z.land (seg ip 0) 0xFFC0 =? 0xFE80 then true
  else if bool_decide (ztake 5 (segments ip) = [0; 0; 0; 0; 0]) && (seg ip 5 =? 0xFFFF) then true
  else if (seg ip 0 =? 0x0100) && bool_decide (slice (segments ip) 1 4 = [0; 0; 0]) then true
  else if (seg ip 0 =? 0x2001) && (seg ip 1 =? 0x0db8) then true
  else if seg ip 0 =? 0x2002 then true
  else v6_is_multicast ip.

Definition is_bogon (ip : IpAddr) : bool := match ip with V4 o => is_bogon_v4 o | V6 o => is_bogon_v6 o end.

(** ** Configuration and results (probe.rs:15-56) *)

Record NetworkConfig := mkNetworkConfig {
  nc_ipv4 : bool;
  nc_ipv6 : option bool;
  nc_prefer : Z;
  nc_multipath : bool;
  nc_stun_use : bool;
  nc_stun_servers : list bytes
}.

Record NetworkProbe := mkNetworkProbe {
  detected_ipv4 : option bytes;
  detected_ipv6 : option bytes;
  reflected_ipv4 : option SocketAddr;
  reflected_ipv6 : option SocketAddr;
  ipv4_is_bogon : bool;
  ipv6_is_bogon : bool;
  ipv4_nat_detected : bool;
  ipv6_nat_detected : bool;
  ipv4_usable : bool;
  ipv6_usable : bool
}.

Record NetworkDecision := mkNetworkDecision {
  ipv4_dc : bool;
  ipv6_dc : bool;
  ipv4_me : bool;
  ipv6_me : bool;
  effective_prefer : Z;
  effective_multipath : bool
}.

Definition prefer_ipv6 (self : NetworkDecision) : bool := effective_prefer self =? 6.
Definition me_families (self : NetworkDecision) : list IpFamily :=
  (if ipv4_me self then [FamV4] else []) ++ (if ipv6_me self then [FamV6] else []).

(** ** Collecting what STUN servers say (probe.rs:149-235) *)

Definition collect_stun_servers (config : NetworkConfig) : list bytes :=
  foldl (fun out s => if negb (bool_decide (s = [])) && negb (bool_decide (s ∈ out)) then out ++ [s] else out)
    [] (nc_stun_servers config).

(** One vote per server that answered, kept with the first result for that address. *)
Abbreviation votes := (gmap IpAddr (Z * StunProbeResult)) (only parsing).
Definition vote (m : votes) (r : StunProbeResult) : votes :=
  let ip := sa_ip (reflected_addr r) in
  let entry := default (0, r) (m !! ip) in
  <[ip := (entry.1 + 1, entry.2)]> m.

(** The votes of the answers in the order in which the tasks finished; a task that failed, timed
    out or could not be joined brings none. *)
Definition count_votes (pick : DualStunResult -> option StunProbeResult) (answers : list DualStunResult) : votes :=
  foldl (fun m a => match pick a with Some r => vote m r | None => m end) ∅ answers.

(** [into_values().max_by_key(|(count, _)| *count)]: the last of the largest, in whatever order the
    map enumerates its values. *)
Fixpoint max_by_count (best : option (Z * StunProbeResult)) (values : list (Z * StunProbeResult))
  : option (Z * StunProbeResult) :=
  match values with
  | [] => best
  | v :: values =>
      max_by_count (match best with Some b => if v.1 <? b.1 then Some b else Some v | None => Some v end) values
  end.

Definition stun_quorum (answers : list DualStunResult) (order4 order6 : list (Z * StunProbeResult)) : DualStunResult :=
  mkDualStunResult (snd <$> max_by_count None order4) (snd <$> max_by_count None order6).

(** ** [detect_public_ipv4_http] (probe.rs:121-147): a body per URL that answered *)
Fixpoint detect_public_ipv4_http (bodies : list (option bytes)) : option bytes :=
  match bodies with
  | [] => None
  | None :: bodies => detect_public_ipv4_http bodies
  | Some body :: bodies =>
      match parse_ipv4 (trim body) with
      | None => detect_public_ipv4_http bodies
      | Some ip => if negb (is_bogon_v4 ip) then Some ip else detect_public_ipv4_http bodies
      end
  end.

(** ** [run_probe] (probe.rs:58-119) *)

Definition run_probe (config : NetworkConfig) (nat_probe : bool) (local4 local6 : option bytes)
    (stun : list bytes -> DualStunResult) (bodies : list (option bytes)) : NetworkProbe :=
  let bogon4 := match local4 with Some o => is_bogon_v4 o | None => false end in
  let bogon6 := match local6 with Some o => is_bogon_v6 o | None => false end in
  let stun_res :=
    if nat_probe && nc_stun_use config then
      let servers := collect_stun_servers config in
      if decide (servers = []) then mkDualStunResult None None else stun servers
    else mkDualStunResult None None in
  let reflected4 := reflected_addr <$> ds_v4 stun_res in
  let reflected6 := reflected_addr <$> ds_v6 stun_res in
  let reflected4 :=
    match reflected4 with
    | Some a => Some a
    | None =>
        if nat_probe && bogon4 then (fun ip => mkSocketAddr (V4 ip) 0) <$> detect_public_ipv4_http bodies else None
    end in
  let nat4 := match local4, reflected4 with Some det, Some r => bool_decide (V4 det <> sa_ip r) | _, _ => false end in
  let nat6 := match local6, reflected6 with Some det, Some r => bool_decide (V6 det <> sa_ip r) | _, _ => false end in
  let public r := match r with Some a => negb (is_bogon (sa_ip a)) | None => false end in
  let ipv6_enabled := default (bool_decide (is_Some local6)) (nc_ipv6 config) in
  mkNetworkProbe local4 local6 reflected4 reflected6 bogon4 bogon6 nat4 nat6
    (nc_ipv4 config && bool_decide (is_Some local4) && (negb bogon4 || public reflected4))
    (ipv6_enabled && bool_decide (is_Some local6) && (negb bogon6 || public reflected6)).

(** ** [decide_network_capabilities] (probe.rs:237-276) *)

Definition decide_network_capabilities (config : NetworkConfig) (probe : NetworkProbe) : NetworkDecision :=
  let det4 := bool_decide (is_Some (detected_ipv4 probe)) in
  let det6 := bool_decide (is_Some (detected_ipv6 probe)) in
  let dc4 := nc_ipv4 config && det4 in
  let ipv6_enabled := default det6 (nc_ipv6 config) in
  let dc6 := ipv6_enabled && det6 in
  let me4 := nc_ipv4 config && det4 && (negb (ipv4_is_bogon probe) || bool_decide (is_Some (reflected_ipv4 probe))) in
  let me6 := ipv6_enabled && det6 && (negb (ipv6_is_bogon probe) || bool_decide (is_Some (reflected_ipv6 probe))) in
  let prefer := if (nc_prefer config =? 6) && (me6 || dc6) then 6 else 4 in
  mkNetworkDecision dc4 dc6 me4 me6 prefer (nc_multipath config && me4 && me6).

(** ** [util/ip.rs] *)

Record IpInfo := mkIpInfo { info_ipv4 : option IpAddr; info_ipv6 : option IpAddr }.
Definition has_any (self : IpInfo) : bool := bool_decide (is_Some (info_ipv4 self)) || bool_decide (is_Some (info_ipv6 self)).
Definition preferred (self : IpInfo) (prefer_v6 : bool) : option IpAddr :=
  if prefer_v6 then option_or (info_ipv6 self) (info_ipv4 self) else option_or (info_ipv4 self) (info_ipv6 self).

Definition is_private_ip (ip : IpAddr) : bool :=
  match ip with
  | V4 o => v4_is_private o || v4_is_loopback o || v4_is_link_local o
  | V6 o => v6_is_loopback o || (Z.land (seg o 0) 0xfe00 =? 0xfc00)
  end.

Definition ip_is_loopback (ip : IpAddr) : bool := match ip with V4 o => v4_is_loopback o | V6 o => v6_is_loopback o end.

(** [detect_ip] (ip.rs:65-131): the local addresses, and the answers of the services for each family. *)
Fixpoint first_of_family (v4 : bool) (answers : list (option IpAddr)) : option IpAddr :=
  match answers with
  | [] => None
  | Some ip :: answers => if Bool.eqb (is_ipv4 ip) v4 then Some ip else first_of_family v4 answers
  | None :: answers => first_of_family v4 answers
  end.

Definition detect_ip (local4 local6 : option IpAddr) (answers4 answers6 : list (option IpAddr)) : IpInfo :=
  let ipv4 := match local4 with Some ip => if is_ipv4 ip && negb (ip_is_loopback ip) then Some ip else None | None => None end in
  let ipv6 := match local6 with Some ip => if is_ipv6 ip && negb (ip_is_loopback ip) then Some ip else None | None => None end in
  let need4 := match ipv4 with Some ip => is_private_ip ip | None => true end in
  let need6 := match ipv6 with Some ip => is_private_ip ip | None => true end in
  let ipv4 := if need4 then match first_of_family true answers4 with Some ip => Some ip | None => ipv4 end else ipv4 in
  let ipv6 := if need6 then match first_of_family false answers6 with Some ip => Some ip | None => ipv6 end else ipv6 in
  mkIpInfo ipv4 ipv6.

(** ** The vote *)

Lemma max_by_count_spec best values r :
  max_by_count best values = Some r ->
  (best = Some r \/ r ∈ values) /\ (forall b, best = Some b -> b.1 <= r.1) /\ (forall v, v ∈ values -> v.1 <= r.1).
Proof.
  revert best. induction values as [|v values IH]; intros best H; cbn [max_by_count] in H.
  { subst. split_and!; [by left|naive_solver|set_solver]. }
  apply IH in H as (H1 & H2 & H3). destruct best as [b|].
  - destruct (Z.ltb_spec v.1 b.1).
    + split_and!; [destruct H1; [by left|right; set_solver]|naive_solver|].
      intros v' [-> | Hv']%elem_of_cons; [specialize (H2 b eq_refl); lia|by apply H3].
    + split_and!; [right; destruct H1 as [[= ->]|?]; set_solver| |].
      * intros b' [= <-]. specialize (H2 v eq_refl). lia.
      * intros v' [-> | Hv']%elem_of_cons; [by apply H2|by apply H3].
  - split_and!; [right; destruct H1 as [[= ->]|?]; set_solver|done|].
    intros v' [-> | Hv']%elem_of_cons; [by apply H2|by apply H3].
Qed.

Lemma max_by_count_some v values : max_by_count (Some v) values <> None.
Proof. revert v. induction values as [|w values IH]; intros v; [done|]. cbn. destruct (w.1 <? v.1); apply IH. Qed.

(** The number of answers that reflect an address. *)
Fixpoint support (pick : DualStunResult -> option StunProbeResult) (ip : IpAddr) (answers : list DualStunResult) : Z :=
  match answers with
  | [] => 0
  | a :: answers =>
      (match pick a with Some r => if decide (sa_ip (reflected_addr r) = ip) then 1 else 0 | None => 0 end)
      + support pick ip answers
  end.

Definition tallied (m : votes) (ip : IpAddr) (n : Z) : Prop :=
  match m !! ip with Some (c, r) => c = n /\ 0 < n /\ sa_ip (reflected_addr r) = ip | None => n = 0 end.

Lemma vote_tallied m r ip n :
  tallied m ip n -> 0 <= n -> tallied (vote m r) ip ((if decide (sa_ip (reflected_addr r) = ip) then 1 else 0) + n).
Proof.
  unfold tallied, vote. intros H Hn. case_decide as E.
  - subst. rewrite lookup_insert_eq. destruct (m !! sa_ip (reflected_addr r)) as [[c r0]|]; cbn; [|naive_solver lia].
    destruct H as (-> & ? & ?). split_and!; [lia|lia|done].
  - rewrite lookup_insert_ne by done. by rewrite Z.add_0_l.
Qed.

Lemma support_nonneg pick ip answers : 0 <= support pick ip answers.
Proof. induction answers as [|a answers IH]; [done|]. cbn. case_match; [case_decide|]; lia. Qed.

Lemma count_votes_tallied pick answers ip : tallied (count_votes pick answers) ip (support pick ip answers).
Proof.
  unfold count_votes. cut (forall m n, tallied m ip n -> 0 <= n ->
    tallied (foldl (fun m a => match pick a with Some r => vote m r | None => m end) m answers) ip (support pick ip answers + n)).
  { intros H. specialize (H ∅ 0). rewrite Z.add_0_r in H. apply H; [|done]. unfold tallied. by rewrite lookup_empty. }
  induction answers as [|a answers IH]; intros m n Hm Hn; cbn [foldl support]; [done|].
  destruct (pick a) as [r|]; [|by apply IH].
  replace ((if decide _ then 1 else 0) + support pick ip answers + n)
    with (support pick ip answers + ((if decide (sa_ip (reflected_addr r) = ip) then 1 else 0) + n)) by lia.
  apply IH; [by apply vote_tallied|case_decide; lia].
Qed.

(** Whatever order the answers come in and the map enumerates its entries, the address the probe
    settles on is one that a server reflected, and no other address was reflected by more servers;
    some address is chosen as soon as one server answered. *)
Theorem stun_quorum_maximal answers order4 order6 :
  order4 ≡ₚ (map_to_list (count_votes ds_v4 answers)).*2 ->
  match ds_v4 (stun_quorum answers order4 order6) with
  | Some r =>
      (exists a r', a ∈ answers /\ ds_v4 a = Some r' /\ sa_ip (reflected_addr r') = sa_ip (reflected_addr r)) /\
      forall ip, support ds_v4 ip answers <= support ds_v4 (sa_ip (reflected_addr r)) answers
  | None => forall a, a ∈ answers -> ds_v4 a = None
  end.
Proof.
  intros Hperm. cbn [stun_quorum ds_v4].
  assert (forall ip c r, count_votes ds_v4 answers !! ip = Some (c, r) -> (c, r) ∈ order4) as Hin.
  { intros ip c r H. rewrite Hperm. apply list_elem_of_fmap. exists (ip, (c, r)). split; [done|]. by apply elem_of_map_to_list. }
  assert (forall ip, support ds_v4 ip answers <> 0 -> exists a r', a ∈ answers /\ ds_v4 a = Some r' /\ sa_ip (reflected_addr r') = ip)
    as Hsome.
  { intros ip. clear. induction answers as [|a answers IH]; [done|]. cbn [support]. intros H.
    destruct (ds_v4 a) as [r|] eqn:E.
    - case_decide as Er; [exists a, r; split; [by left|done]|]. destruct IH as (a' & r' & ? & ? & ?); [lia|].
      exists a', r'. split; [by right|done].
    - destruct IH as (a' & r' & ? & ? & ?); [lia|]. exists a', r'. split; [by right|done]. }
  destruct (max_by_count None order4) as [[c r]|] eqn:E; cbn [fmap option_fmap option_map snd].
  - apply max_by_count_spec in E as (H1 & _ & H3). destruct H1 as [|Hr]; [done|]. rewrite Hperm in Hr.
    apply list_elem_of_fmap in Hr as ([ip [c' r']] & [= <- <-] & Hl). apply elem_of_map_to_list in Hl.
    pose proof (count_votes_tallied ds_v4 answers ip) as T. unfold tallied in T. rewrite Hl in T. destruct T as (Hc & Hpos & Hip).
    rewrite Hip. split; [apply Hsome; lia|]. intros ip'. pose proof (count_votes_tallied ds_v4 answers ip') as T'. unfold tallied in T'.
    destruct (count_votes ds_v4 answers !! ip') as [[c2 r2]|] eqn:E2; [|lia].
    destruct T' as (Hc2 & _). specialize (H3 (c2, r2) (Hin _ _ _ E2)). cbn in H3. lia.
  - intros a Ha. destruct (ds_v4 a) as [r|] eqn:Er; [exfalso|done]. set (ip := sa_ip (reflected_addr r)).
    assert (0 < support ds_v4 ip answers) as Hpos.
    { clear -Ha Er. induction answers as [|b answers IH]; [set_solver|]. cbn [support].
      pose proof (support_nonneg ds_v4 ip answers). apply elem_of_cons in Ha as [-> | Ha].
      - rewrite Er. rewrite decide_True by done. lia.
      - specialize (IH Ha). case_match; [case_decide|]; lia. }
    pose proof (count_votes_tallied ds_v4 answers ip) as T. unfold tallied in T.
    destruct (count_votes ds_v4 answers !! ip) as [[c2 r2]|] eqn:E2; [|lia].
    apply Hin in E2. destruct order4 as [|v order4]; [set_solver|]. by apply (max_by_count_some v order4).
Qed.

Lemma public_some (o : option SocketAddr) :
  match o with Some a => negb (is_bogon (sa_ip a)) | None => false end = true -> is_Some o.
Proof. destruct o; [by eexists|done]. Qed.

(** The decision is consistent: a family is only preferred or used for middle proxies when an address
    was detected and the configuration allows it; two paths need both families; and whatever
    the probe calls usable is offered to the middle proxies. *)
Theorem network_decision_sound config nat_probe local4 local6 stun bodies :
  let probe := run_probe config nat_probe local4 local6 stun bodies in
  let d := decide_network_capabilities config probe in
  (ipv4_usable probe = true -> ipv4_me d = true) /\ (ipv6_usable probe = true -> ipv6_me d = true) /\
  (ipv4_me d = true -> ipv4_dc d = true) /\ (ipv6_me d = true -> ipv6_dc d = true) /\
  (prefer_ipv6 d = true -> ipv6_dc d = true /\ nc_prefer config = 6) /\
  (effective_multipath d = true -> me_families d = [FamV4; FamV6]) /\
  (effective_prefer d = 4 \/ effective_prefer d = 6).
Proof.
  cbv zeta. set (probe := run_probe _ _ _ _ _ _).
  assert (ipv4_usable probe = true -> nc_ipv4 config = true /\ is_Some (detected_ipv4 probe) /\
            (ipv4_is_bogon probe = false \/ is_Some (reflected_ipv4 probe))) as U4.
  { subst probe. unfold run_probe. cbn. rewrite !andb_true_iff, orb_true_iff, bool_decide_eq_true, negb_true_iff.
    intros [[? ?] [?|Hq]]; (split_and!; [done|done|]); [by left|right; exact (public_some _ Hq)]. }
  assert (ipv6_usable probe = true -> default (bool_decide (is_Some (detected_ipv6 probe))) (nc_ipv6 config) = true /\
            is_Some (detected_ipv6 probe) /\ (ipv6_is_bogon probe = false \/ is_Some (reflected_ipv6 probe))) as U6.
  { subst probe. unfold run_probe. cbn. rewrite !andb_true_iff, orb_true_iff, bool_decide_eq_true, negb_true_iff.
    intros [[? ?] [?|Hq]]; (split_and!; [done|done|]); [by left|right; exact (public_some _ Hq)]. }
  clearbody probe. unfold decide_network_capabilities, prefer_ipv6, me_families.
  cbn [ipv4_me ipv6_me ipv4_dc ipv6_dc effective_prefer effective_multipath].
  rewrite !andb_true_iff, !orb_true_iff, !negb_true_iff, !bool_decide_eq_true.
  split_and!; [tauto|tauto|tauto|tauto| | |].
  - destruct (Z.eqb_spec (nc_prefer config) 6) as [E|]; [|done]. cbn [andb].
    destruct (_ || _) eqn:Eo; [|done]. intros _. split; [|done].
    rewrite orb_true_iff, !andb_true_iff, bool_decide_eq_true in Eo. tauto.
  - intros [[_ [[H1 H2] H3]] [[H4 H5] H6]].
    repeat match goal with |- context [if ?b then _ else _] => replace b with true end; [done|..];
      symmetry; rewrite !andb_true_iff, orb_true_iff, negb_true_iff, !bool_decide_eq_true; tauto.
  - destruct (_ && _); [by right|by left].
Qed.
