(* ===== verification/MeNat.v ===== *)
(** * Addresses behind NAT: [transport/middle_proxy/pool_nat.rs]

    The middle-proxy handshake mixes both ends' addresses into the keys, so a proxy behind NAT has
    to use the address the other side sees.  It is configured, fetched once over HTTP, or reflected
    by STUN servers; reflections are cached and failures back off.  Time is a number of seconds, the
    STUN batch and the HTTP services are arguments, and the try-locks succeed. *)

From stdpp Require Import gmap sorting.
From S2P Require Import Prelude NetAddr AddrOrder Errors Crypto DnsOverrides Stun NetProbe.

Definition ip_is_unspecified (ip : IpAddr) : bool :=
  match ip with V4 o => bool_decide (o = zrepeat 4 0) | V6 o => v6_is_unspecified o end.

(** The fields of [MePool] that concern NAT. *)
Record NatState := mkNatState {
  nat_ip_cfg : option IpAddr;
  nat_ip_detected : option IpAddr;
  nat_stun : option bytes;
  nat_stun_servers : list bytes;
  nat_stun_live_servers : list bytes;
  nat_probe_attempts : Z;
  stun_backoff_until : option Z;
  nat_cache_v4 : option (Z * SocketAddr);
  nat_cache_v6 : option (Z * SocketAddr)
}.

Definition configured_stun_servers (self : NatState) : list bytes :=
  if negb (bool_decide (nat_stun_servers self = [])) then nat_stun_servers self
  else
    match nat_stun self with
    | Some s => if negb (bool_decide (trim s = [])) then [s] else []
    | None => []
    end.

(** ** One batch (pool_nat.rs:50-128) *)

(** What each server's task brought, in the order the tasks finished. *)
Abbreviation batch := (list (bytes * option SocketAddr)) (only parsing).

Definition batch_vote (m : gmap IpAddr (Z * SocketAddr)) (a : SocketAddr) : gmap IpAddr (Z * SocketAddr) :=
  let entry := default (0, a) (m !! sa_ip a) in
  <[sa_ip a := (entry.1 + 1, entry.2)]> m.

Fixpoint best_vote (best : option (Z * SocketAddr)) (values : list (Z * SocketAddr)) : option (Z * SocketAddr) :=
  match values with
  | [] => best
  | v :: values => best_vote (match best with Some b => if v.1 <? b.1 then Some b else Some v | None => Some v end) values
  end.

(** [sort_unstable] then [dedup]: the order on byte strings, without repetitions. *)
Fixpoint bytes_leb (a b : bytes) : bool :=
  match a, b with
  | [], _ => true
  | _ :: _, [] => false
  | x :: a, y :: b => if x =? y then bytes_leb a b else x <? y
  end.
Definition bytes_le (a b : bytes) : Prop := bytes_leb a b = true.
#[global] Instance bytes_le_dec a b : Decision (bytes_le a b).
Proof. unfold bytes_le. apply _. Defined.

Definition probe_stun_batch_for_family (results : batch) : list bytes * option SocketAddr :=
  let live := omap (fun r => match r.2 with Some _ => Some r.1 | None => None end) results in
  let best_by_ip := foldl (fun m r => match r.2 with Some a => batch_vote m a | None => m end) ∅ results in
  (dedup (merge_sort bytes_le live), snd <$> best_vote None (map_to_list best_by_ip).*2).

(** ** Translation (pool_nat.rs:130-173) *)

Definition translate_ip_for_nat (self : NatState) (ip : IpAddr) : IpAddr :=
  match option_or (nat_ip_cfg self) (nat_ip_detected self) with
  | None => ip
  | Some nat_ip =>
      match ip, nat_ip with
      | V4 src, V4 dst =>
          if is_bogon (V4 src) || v4_is_loopback src || ip_is_unspecified (V4 src) then V4 dst else ip
      | V6 src, V6 dst => if v6_is_loopback src || v6_is_unspecified src then V6 dst else ip
      | _, _ => ip
      end
  end.

Definition non_public (ip : IpAddr) : bool := is_bogon ip || ip_is_loopback ip || ip_is_unspecified ip.

Definition translate_our_addr_with_reflection (self : NatState) (addr : SocketAddr) (reflected : option SocketAddr)
  : SocketAddr :=
  let ip :=
    match reflected with
    | Some r => if non_public (sa_ip addr) then sa_ip r else translate_ip_for_nat self (sa_ip addr)
    | None => translate_ip_for_nat self (sa_ip addr)
    end in
  mkSocketAddr ip (sa_port addr).

(** [maybe_detect_nat_ip] (pool_nat.rs:175-205); [fetched] is what the HTTP services answer. *)
Definition maybe_detect_nat_ip (self : NatState) (local_ip : IpAddr) (fetched : result ProxyError (option bytes))
  : option IpAddr * NatState :=
  match nat_ip_cfg self with
  | Some ip => (Some ip, self)
  | None =>
      if negb (non_public local_ip) then (None, self)
      else
        match nat_ip_detected self with
        | Some ip => (Some ip, self)
        | None =>
            match fetched with
            | Ok (Some ip) =>
                (Some (V4 ip), mkNatState (nat_ip_cfg self) (Some (V4 ip)) (nat_stun self) (nat_stun_servers self)
                   (nat_stun_live_servers self) (nat_probe_attempts self) (stun_backoff_until self)
                   (nat_cache_v4 self) (nat_cache_v6 self))
            | _ => (None, self)
            end
        end
  end.

(** ** [maybe_reflect_public_addr] (pool_nat.rs:207-308) *)

Definition STUN_CACHE_TTL : Z := 600.

Definition nat_cache (self : NatState) (family : IpFamily) : option (Z * SocketAddr) :=
  match family with FamV4 => nat_cache_v4 self | FamV6 => nat_cache_v6 self end.

Definition with_cache (self : NatState) (family : IpFamily) (slot : option (Z * SocketAddr)) : NatState :=
  mkNatState (nat_ip_cfg self) (nat_ip_detected self) (nat_stun self) (nat_stun_servers self) (nat_stun_live_servers self)
    (nat_probe_attempts self) (stun_backoff_until self)
    (match family with FamV4 => slot | FamV6 => nat_cache_v4 self end)
    (match family with FamV4 => nat_cache_v6 self | FamV6 => slot end).
Definition with_attempts (self : NatState) (n : Z) : NatState :=
  mkNatState (nat_ip_cfg self) (nat_ip_detected self) (nat_stun self) (nat_stun_servers self) (nat_stun_live_servers self)
    n (stun_backoff_until self) (nat_cache_v4 self) (nat_cache_v6 self).
Definition with_live (self : NatState) (live : list bytes) : NatState :=
  mkNatState (nat_ip_cfg self) (nat_ip_detected self) (nat_stun self) (nat_stun_servers self) live
    (nat_probe_attempts self) (stun_backoff_until self) (nat_cache_v4 self) (nat_cache_v6 self).
Definition with_backoff (self : NatState) (until : option Z) : NatState :=
  mkNatState (nat_ip_cfg self) (nat_ip_detected self) (nat_stun self) (nat_stun_servers self) (nat_stun_live_servers self)
    (nat_probe_attempts self) until (nat_cache_v4 self) (nat_cache_v6 self).

(** [60 * 2u64.pow((attempt as u32).min(6))] *)
Definition backoff_secs (attempt : Z) : Z := 60 * 2 ^ (Z.min attempt 6).

(** [now] is the time of the call and [later] the time when the probes have ended; [probe] is the
    outcome of a batch over a list of servers.  The last component lists the batches that were run. *)
Definition maybe_reflect_public_addr (self : NatState) (family : IpFamily) (bind_ip : option IpAddr) (now later : Z)
    (probe : list bytes -> batch) : option SocketAddr * NatState * list (list bytes) :=
  let use_shared_cache := bool_decide (bind_ip = None) in
  let mismatched :=
    match family, bind_ip with
    | FamV4, Some (V4 _) | FamV6, Some (V6 _) | _, None => false
    | _, _ => true
    end in
  if mismatched then (None, self, [])
  else
    let backing_off := match stun_backoff_until self with Some until => now <? until | None => false end in
    if use_shared_cache && backing_off then (snd <$> nat_cache self family, self, [])
    else
      let fresh := match nat_cache self family with Some (ts, addr) => if now - ts <? STUN_CACHE_TTL then Some addr else None | None => None end in
      match (if use_shared_cache then fresh else None) with
      | Some addr => (Some addr, self, [])
      | None =>
          let attempt := if use_shared_cache then nat_probe_attempts self else 0 in
          let self := if use_shared_cache then with_attempts self (u8 (nat_probe_attempts self + 1)) else self in
          let configured := configured_stun_servers self in
          let primary := if bool_decide (nat_stun_live_servers self = []) then configured else nat_stun_live_servers self in
          let '(live, selected) := probe_stun_batch_for_family (probe primary) in
          let again := bool_decide (selected = None) && negb (bool_decide (configured = [])) && bool_decide (primary <> configured) in
          let '(live, selected) := if again then probe_stun_batch_for_family (probe configured) else (live, selected) in
          let batches := primary :: (if again then [configured] else []) in
          let self := with_live self live in
          match selected with
          | Some addr =>
              let self := if use_shared_cache then with_cache (with_attempts self 0) family (Some (later, addr)) else self in
              (Some addr, self, batches)
          | None =>
              (None, if use_shared_cache then with_backoff self (Some (later + backoff_secs attempt)) else self, batches)
          end
      end.

(** [reset_stun_state] (pool.rs:435-441) *)
Definition reset_stun_state (self : NatState) : NatState := with_live (with_attempts self 0) [].

(** ** Facts *)

(** A public address is never rewritten, and a rewritten one keeps its port. *)
Lemma translate_public self addr reflected :
  non_public (sa_ip addr) = false ->
  translate_our_addr_with_reflection self addr reflected = addr.
Proof.
  intros H. unfold translate_our_addr_with_reflection. rewrite H.
  assert (translate_ip_for_nat self (sa_ip addr) = sa_ip addr) as E.
  { unfold translate_ip_for_nat. destruct (option_or _ _) as [nat|]; [|done].
    unfold non_public in H. apply orb_false_iff in H as [[H1 H2]%orb_false_iff H3].
    destruct (sa_ip addr) as [src|src], nat as [dst|dst]; try done.
    - cbn [ip_is_loopback] in H2. by rewrite H1, H2, H3.
    - cbn [ip_is_loopback ip_is_unspecified] in *. by rewrite H2, H3. }
  destruct reflected; rewrite E; by destruct addr.
Qed.

Lemma best_vote_some v values : exists r, best_vote (Some v) values = Some r.
Proof. revert v. induction values as [|w values IH]; intros v; [by eexists|]. cbn. case_match; apply IH. Qed.

(** A batch finds an address exactly when a server answered. *)
Lemma batch_selects (results : batch) :
  (exists (s : bytes) (a : SocketAddr), (s, Some a) ∈ results) <-> is_Some (snd (probe_stun_batch_for_family results)).
Proof.
  unfold probe_stun_batch_for_family. cbn [snd].
  set (m := foldl _ ∅ results).
  assert (forall (rs : batch) (m0 : gmap IpAddr (Z * SocketAddr)),
    foldl (fun m (r : bytes * option SocketAddr) => match r.2 with Some a => batch_vote m a | None => m end) m0 rs = ∅ <->
    m0 = ∅ /\ forall (s : bytes) (a : SocketAddr), (s, Some a) ∉ rs) as Hm.
  { induction rs as [|[s [a|]] rs IH]; intros m0; cbn [foldl snd].
    - split; [intros ->; split; [done|set_solver]|tauto].
    - rewrite IH. split.
      + intros [H _]. unfold batch_vote in H. by apply insert_non_empty in H.
      + intros [_ H]. exfalso. apply (H s a). set_solver.
    - rewrite IH. split; intros [H1 H2]; (split; [done|]); intros s' a'; specialize (H2 s' a'); set_solver. }
  specialize (Hm results ∅). fold m in Hm.
  assert (is_Some (snd <$> best_vote None (map_to_list m).*2) <-> m <> ∅) as ->.
  { rewrite fmap_is_Some. destruct (map_to_list m) as [|[k v] l] eqn:E.
    - apply map_to_list_empty_iff in E. rewrite E. cbn. split; [by intros []|done].
    - split; [|intros _; apply best_vote_some]. intros _ ->. by rewrite map_to_list_empty in E. }
  split.
  - intros (s & a & Hin) Hemp. apply Hm in Hemp as [_ H]. by apply (H s a).
  - intros Hne. destruct (decide (Exists (fun r => is_Some r.2) results)) as [He|Hn].
    + apply Exists_exists in He as ([s o] & Hin & [a Ha]). cbn in Ha. subst. by exists s, a.
    + exfalso. apply Hne, Hm. split; [done|]. intros s a Hin. apply Hn, Exists_exists. exists (s, Some a). split; [done|by eexists].
Qed.

(** The shared reflection cache spares the STUN servers: a cached address younger than ten minutes
    is returned without a probe; after a probe that found nothing (at least one of whose batches was
    run over the known servers) no probe at all is made for 60 s, twice as long after each further
    failure up to 64 minutes, and what is cached is returned meanwhile; a probe that succeeds
    fills the cache and ends the count of failures. *)
Theorem reflection_backs_off self family now later probe :
  let '(r, self', batches) := maybe_reflect_public_addr self family None now later probe in
  (batches = [] -> self' = self) /\
  (batches <> [] -> match r with
    | Some a => nat_cache self' family = Some (later, a) /\ nat_probe_attempts self' = 0
    | None =>
        nat_probe_attempts self' = u8 (nat_probe_attempts self + 1) /\
        forall family' now' later' probe', now' < later + backoff_secs (nat_probe_attempts self) ->
          maybe_reflect_public_addr self' family' None now' later' probe' = (snd <$> nat_cache self' family', self', [])
    end) /\
  (forall ts a, nat_cache self family = Some (ts, a) -> now - ts < STUN_CACHE_TTL -> r = Some a /\ batches = []).
Proof.
  unfold maybe_reflect_public_addr at 1.
  replace (match family with FamV4 => false | FamV6 => false end) with false by (by destruct family).
  rewrite (bool_decide_true (None = None)) by done. cbn [andb].
  destruct (match stun_backoff_until self with Some until => now <? until | None => false end).
  { split_and!; [done|done|]. intros ts a Ha _. by rewrite Ha. }
  set (fresh := match nat_cache self family with Some (ts, addr) => if now - ts <? STUN_CACHE_TTL then Some addr else None | None => None end).
  assert (forall ts a, nat_cache self family = Some (ts, a) -> now - ts < STUN_CACHE_TTL -> fresh = Some a) as Hfresh.
  { intros ts a Ha Ht. unfold fresh. rewrite Ha. by destruct (Z.ltb_spec (now - ts) STUN_CACHE_TTL); [|lia]. }
  destruct fresh as [addr|].
  { split_and!; [done|done|]. intros ts a Ha Ht. split; [|done]. by apply Hfresh in Ha. }
  destruct (probe_stun_batch_for_family _) as [live selected].
  destruct (if _ && _ then _ else _) as [live' selected'].
  destruct selected' as [addr|]; (split_and!; [done|intros _|intros ts a Ha Ht; by apply Hfresh in Ha]).
  - by destruct family.
  - split; [done|]. intros family' now' later' probe' Hn. unfold maybe_reflect_public_addr.
    replace (match family' with FamV4 => false | FamV6 => false end) with false by (by destruct family').
    cbn [with_backoff stun_backoff_until]. destruct (Z.ltb_spec now' (later + backoff_secs (nat_probe_attempts self))); [done|lia].
Qed.
