(* ===== verification/Stats.v ===== *)
(** * Statistics: [stats/mod.rs] (counters) and [stats/telemetry.rs]

    Counters are relaxed atomics: an update is one step, and [fetch_add] wraps around at 64 bits.
    What is counted depends on the telemetry policy in force at the moment of the call.  The clock
    ([start_time], [uptime_secs]) is left out; the replay checker of the same source file is
    in [Replay]. *)

From stdpp Require Import gmap sorting.
From S2P Require Import Prelude NetAddr.

(** ** The telemetry policy (config/types.rs:65-96, stats/telemetry.rs) *)

Inductive MeTelemetryLevel := Normal | Silent | Debug.

Definition as_u8 (self : MeTelemetryLevel) : Z :=
  match self with Silent => 0 | Normal => 1 | Debug => 2 end.
Definition from_u8 (raw : Z) : MeTelemetryLevel :=
  if raw =? 0 then Silent else if raw =? 2 then Debug else Normal.
Definition allows_normal (self : MeTelemetryLevel) : bool := match self with Silent => false | _ => true end.
Definition allows_debug (self : MeTelemetryLevel) : bool := match self with Debug => true | _ => false end.

Record TelemetryPolicy := mkTelemetryPolicy {
  core_enabled : bool;
  user_enabled : bool;
  me_level : MeTelemetryLevel
}.

Definition TelemetryPolicy_default : TelemetryPolicy := mkTelemetryPolicy true true Normal.

(** [TelemetryPolicy::from_config]: the fields of [TelemetryConfig]. *)
Record TelemetryConfig := mkTelemetryConfig {
  cfg_core_enabled : bool;
  cfg_user_enabled : bool;
  cfg_me_level : MeTelemetryLevel
}.
Definition TelemetryPolicy_from_config (cfg : TelemetryConfig) : TelemetryPolicy :=
  mkTelemetryPolicy (cfg_core_enabled cfg) (cfg_user_enabled cfg) (cfg_me_level cfg).

(** ** The counters (stats/mod.rs:24-97) *)

(** The [AtomicU64] fields of [Stats]. *)
Inductive Counter :=
| connects_all | connects_bad
| handshake_timeouts | me_keepalive_sent
| me_keepalive_failed | me_keepalive_pong
| me_keepalive_timeout | me_reconnect_attempts
| me_reconnect_success | me_handshake_reject_total
| me_reader_eof_total | me_crc_mismatch
| me_seq_mismatch | me_endpoint_quarantine_total
| me_kdf_drift_total | me_kdf_port_only_drift_total
| me_hardswap_pending_reuse_total | me_hardswap_pending_ttl_expired_total
| me_single_endpoint_outage_enter_total | me_single_endpoint_outage_exit_total
| me_single_endpoint_outage_reconnect_attempt_total | me_single_endpoint_outage_reconnect_success_total
| me_single_endpoint_quarantine_bypass_total | me_single_endpoint_shadow_rotate_total
| me_single_endpoint_shadow_rotate_skipped_quarantine_total | me_floor_mode_switch_total
| me_floor_mode_switch_static_to_adaptive_total | me_floor_mode_switch_adaptive_to_static_total
| me_route_drop_no_conn | me_route_drop_channel_closed
| me_route_drop_queue_full | me_route_drop_queue_full_base
| me_route_drop_queue_full_high | me_socks_kdf_strict_reject
| me_socks_kdf_compat_fallback | secure_padding_invalid
| desync_total | desync_full_logged
| desync_suppressed | desync_frames_bucket_0
| desync_frames_bucket_1_2 | desync_frames_bucket_3_10
| desync_frames_bucket_gt_10 | pool_swap_total
| pool_drain_active | pool_force_close_total
| pool_stale_pick_total | me_writer_removed_total
| me_writer_removed_unexpected_total | me_refill_triggered_total
| me_refill_skipped_inflight_total | me_refill_failed_total
| me_writer_restored_same_endpoint_total | me_writer_restored_fallback_total
.

Definition all_counters : list Counter := [
  connects_all; connects_bad;
  handshake_timeouts; me_keepalive_sent;
  me_keepalive_failed; me_keepalive_pong;
  me_keepalive_timeout; me_reconnect_attempts;
  me_reconnect_success; me_handshake_reject_total;
  me_reader_eof_total; me_crc_mismatch;
  me_seq_mismatch; me_endpoint_quarantine_total;
  me_kdf_drift_total; me_kdf_port_only_drift_total;
  me_hardswap_pending_reuse_total; me_hardswap_pending_ttl_expired_total;
  me_single_endpoint_outage_enter_total; me_single_endpoint_outage_exit_total;
  me_single_endpoint_outage_reconnect_attempt_total; me_single_endpoint_outage_reconnect_success_total;
  me_single_endpoint_quarantine_bypass_total; me_single_endpoint_shadow_rotate_total;
  me_single_endpoint_shadow_rotate_skipped_quarantine_total; me_floor_mode_switch_total;
  me_floor_mode_switch_static_to_adaptive_total; me_floor_mode_switch_adaptive_to_static_total;
  me_route_drop_no_conn; me_route_drop_channel_closed;
  me_route_drop_queue_full; me_route_drop_queue_full_base;
  me_route_drop_queue_full_high; me_socks_kdf_strict_reject;
  me_socks_kdf_compat_fallback; secure_padding_invalid;
  desync_total; desync_full_logged;
  desync_suppressed; desync_frames_bucket_0;
  desync_frames_bucket_1_2; desync_frames_bucket_3_10;
  desync_frames_bucket_gt_10; pool_swap_total;
  pool_drain_active; pool_force_close_total;
  pool_stale_pick_total; me_writer_removed_total;
  me_writer_removed_unexpected_total; me_refill_triggered_total;
  me_refill_skipped_inflight_total; me_refill_failed_total;
  me_writer_restored_same_endpoint_total; me_writer_restored_fallback_total].

Definition counter_index (c : Counter) : nat :=
  match c with
  | connects_all => 0
  | connects_bad => 1
  | handshake_timeouts => 2
  | me_keepalive_sent => 3
  | me_keepalive_failed => 4
  | me_keepalive_pong => 5
  | me_keepalive_timeout => 6
  | me_reconnect_attempts => 7
  | me_reconnect_success => 8
  | me_handshake_reject_total => 9
  | me_reader_eof_total => 10
  | me_crc_mismatch => 11
  | me_seq_mismatch => 12
  | me_endpoint_quarantine_total => 13
  | me_kdf_drift_total => 14
  | me_kdf_port_only_drift_total => 15
  | me_hardswap_pending_reuse_total => 16
  | me_hardswap_pending_ttl_expired_total => 17
  | me_single_endpoint_outage_enter_total => 18
  | me_single_endpoint_outage_exit_total => 19
  | me_single_endpoint_outage_reconnect_attempt_total => 20
  | me_single_endpoint_outage_reconnect_success_total => 21
  | me_single_endpoint_quarantine_bypass_total => 22
  | me_single_endpoint_shadow_rotate_total => 23
  | me_single_endpoint_shadow_rotate_skipped_quarantine_total => 24
  | me_floor_mode_switch_total => 25
  | me_floor_mode_switch_static_to_adaptive_total => 26
  | me_floor_mode_switch_adaptive_to_static_total => 27
  | me_route_drop_no_conn => 28
  | me_route_drop_channel_closed => 29
  | me_route_drop_queue_full => 30
  | me_route_drop_queue_full_base => 31
  | me_route_drop_queue_full_high => 32
  | me_socks_kdf_strict_reject => 33
  | me_socks_kdf_compat_fallback => 34
  | secure_padding_invalid => 35
  | desync_total => 36
  | desync_full_logged => 37
  | desync_suppressed => 38
  | desync_frames_bucket_0 => 39
  | desync_frames_bucket_1_2 => 40
  | desync_frames_bucket_3_10 => 41
  | desync_frames_bucket_gt_10 => 42
  | pool_swap_total => 43
  | pool_drain_active => 44
  | pool_force_close_total => 45
  | pool_stale_pick_total => 46
  | me_writer_removed_total => 47
  | me_writer_removed_unexpected_total => 48
  | me_refill_triggered_total => 49
  | me_refill_skipped_inflight_total => 50
  | me_refill_failed_total => 51
  | me_writer_restored_same_endpoint_total => 52
  | me_writer_restored_fallback_total => 53
  end%nat.

Lemma counter_index_inv c : all_counters !! counter_index c = Some c.
Proof. by destruct c. Qed.

#[global] Instance Counter_eq_dec : EqDecision Counter.
Proof.
  refine (fun a b => cast_if (decide (counter_index a = counter_index b))); [|congruence].
  abstract (pose proof (counter_index_inv a); pose proof (counter_index_inv b); congruence).
Defined.

Record UserStats := mkUserStats {
  connects : Z;
  curr_connects : Z;
  octets_from_client : Z;
  octets_to_client : Z;
  msgs_from_client : Z;
  msgs_to_client : Z
}.

Definition UserStats_default : UserStats := mkUserStats 0 0 0 0 0 0.

(** The counters by field, the two maps, and the policy as it is stored. *)
Record Stats := mkStats {
  st_counter : Counter -> Z;
  me_handshake_error_codes : gmap Z Z;
  st_core_enabled : bool;
  st_user_enabled : bool;
  st_me_level : Z;
  user_stats : gmap string UserStats
}.

Definition telemetry_me_level (self : Stats) : MeTelemetryLevel := from_u8 (st_me_level self).
Definition telemetry_core_enabled (self : Stats) : bool := st_core_enabled self.
Definition telemetry_user_enabled (self : Stats) : bool := st_user_enabled self.
Definition telemetry_me_allows_normal (self : Stats) : bool := allows_normal (telemetry_me_level self).
Definition telemetry_me_allows_debug (self : Stats) : bool := allows_debug (telemetry_me_level self).

Definition apply_telemetry_policy (self : Stats) (policy : TelemetryPolicy) : Stats :=
  mkStats (st_counter self) (me_handshake_error_codes self) (core_enabled policy) (user_enabled policy)
    (as_u8 (me_level policy)) (user_stats self).

Definition telemetry_policy (self : Stats) : TelemetryPolicy :=
  mkTelemetryPolicy (telemetry_core_enabled self) (telemetry_user_enabled self) (telemetry_me_level self).

Definition Stats_default : Stats := mkStats (fun _ => 0) ∅ false false 0 ∅.
Definition Stats_new : Stats := apply_telemetry_policy Stats_default TelemetryPolicy_default.

(** [self.c.fetch_add(n)] and [self.c.load()] *)
Definition fetch_add (self : Stats) (c : Counter) (n : Z) : Stats :=
  mkStats (fun c' => if decide (c' = c) then u64 (st_counter self c + n) else st_counter self c')
    (me_handshake_error_codes self) (st_core_enabled self) (st_user_enabled self) (st_me_level self) (user_stats self).
Definition load (self : Stats) (c : Counter) : Z := st_counter self c.

(** ** Counting (stats/mod.rs:142-461) *)

Definition increment_connects_all (self : Stats) : Stats :=
  if telemetry_core_enabled self then fetch_add self connects_all 1 else self.
Definition increment_connects_bad (self : Stats) : Stats :=
  if telemetry_core_enabled self then fetch_add self connects_bad 1 else self.
Definition increment_handshake_timeouts (self : Stats) : Stats :=
  if telemetry_core_enabled self then fetch_add self handshake_timeouts 1 else self.
Definition increment_me_keepalive_sent (self : Stats) : Stats :=
  if telemetry_me_allows_debug self then fetch_add self me_keepalive_sent 1 else self.
Definition increment_me_keepalive_failed (self : Stats) : Stats :=
  if telemetry_me_allows_normal self then fetch_add self me_keepalive_failed 1 else self.
Definition increment_me_keepalive_pong (self : Stats) : Stats :=
  if telemetry_me_allows_debug self then fetch_add self me_keepalive_pong 1 else self.
Definition increment_me_keepalive_timeout (self : Stats) : Stats :=
  if telemetry_me_allows_normal self then fetch_add self me_keepalive_timeout 1 else self.
Definition increment_me_keepalive_timeout_by (self : Stats) (value : Z) : Stats :=
  if telemetry_me_allows_normal self then fetch_add self me_keepalive_timeout value else self.
Definition increment_me_reconnect_attempt (self : Stats) : Stats :=
  if telemetry_me_allows_normal self then fetch_add self me_reconnect_attempts 1 else self.
Definition increment_me_reconnect_success (self : Stats) : Stats :=
  if telemetry_me_allows_normal self then fetch_add self me_reconnect_success 1 else self.
Definition increment_me_handshake_reject_total (self : Stats) : Stats :=
  if telemetry_me_allows_normal self then fetch_add self me_handshake_reject_total 1 else self.
Definition increment_me_reader_eof_total (self : Stats) : Stats :=
  if telemetry_me_allows_normal self then fetch_add self me_reader_eof_total 1 else self.
Definition increment_me_crc_mismatch (self : Stats) : Stats :=
  if telemetry_me_allows_normal self then fetch_add self me_crc_mismatch 1 else self.
Definition increment_me_seq_mismatch (self : Stats) : Stats :=
  if telemetry_me_allows_normal self then fetch_add self me_seq_mismatch 1 else self.
Definition increment_me_route_drop_no_conn (self : Stats) : Stats :=
  if telemetry_me_allows_normal self then fetch_add self me_route_drop_no_conn 1 else self.
Definition increment_me_route_drop_channel_closed (self : Stats) : Stats :=
  if telemetry_me_allows_normal self then fetch_add self me_route_drop_channel_closed 1 else self.
Definition increment_me_route_drop_queue_full (self : Stats) : Stats :=
  if telemetry_me_allows_normal self then fetch_add self me_route_drop_queue_full 1 else self.
Definition increment_me_route_drop_queue_full_base (self : Stats) : Stats :=
  if telemetry_me_allows_normal self then fetch_add self me_route_drop_queue_full_base 1 else self.
Definition increment_me_route_drop_queue_full_high (self : Stats) : Stats :=
  if telemetry_me_allows_normal self then fetch_add self me_route_drop_queue_full_high 1 else self.
Definition increment_me_socks_kdf_strict_reject (self : Stats) : Stats :=
  if telemetry_me_allows_normal self then fetch_add self me_socks_kdf_strict_reject 1 else self.
Definition increment_me_socks_kdf_compat_fallback (self : Stats) : Stats :=
  if telemetry_me_allows_debug self then fetch_add self me_socks_kdf_compat_fallback 1 else self.
Definition increment_secure_padding_invalid (self : Stats) : Stats :=
  if telemetry_me_allows_normal self then fetch_add self secure_padding_invalid 1 else self.
Definition increment_desync_total (self : Stats) : Stats :=
  if telemetry_me_allows_normal self then fetch_add self desync_total 1 else self.
Definition increment_desync_full_logged (self : Stats) : Stats :=
  if telemetry_me_allows_normal self then fetch_add self desync_full_logged 1 else self.
Definition increment_desync_suppressed (self : Stats) : Stats :=
  if telemetry_me_allows_normal self then fetch_add self desync_suppressed 1 else self.
Definition increment_pool_swap_total (self : Stats) : Stats :=
  if telemetry_me_allows_normal self then fetch_add self pool_swap_total 1 else self.
Definition increment_pool_drain_active (self : Stats) : Stats :=
  if telemetry_me_allows_debug self then fetch_add self pool_drain_active 1 else self.
Definition increment_pool_force_close_total (self : Stats) : Stats :=
  if telemetry_me_allows_normal self then fetch_add self pool_force_close_total 1 else self.
Definition increment_pool_stale_pick_total (self : Stats) : Stats :=
  if telemetry_me_allows_normal self then fetch_add self pool_stale_pick_total 1 else self.
Definition increment_me_writer_removed_total (self : Stats) : Stats :=
  if telemetry_me_allows_debug self then fetch_add self me_writer_removed_total 1 else self.
Definition increment_me_writer_removed_unexpected_total (self : Stats) : Stats :=
  if telemetry_me_allows_normal self then fetch_add self me_writer_removed_unexpected_total 1 else self.
Definition increment_me_refill_triggered_total (self : Stats) : Stats :=
  if telemetry_me_allows_debug self then fetch_add self me_refill_triggered_total 1 else self.
Definition increment_me_refill_skipped_inflight_total (self : Stats) : Stats :=
  if telemetry_me_allows_debug self then fetch_add self me_refill_skipped_inflight_total 1 else self.
Definition increment_me_refill_failed_total (self : Stats) : Stats :=
  if telemetry_me_allows_normal self then fetch_add self me_refill_failed_total 1 else self.
Definition increment_me_writer_restored_same_endpoint_total (self : Stats) : Stats :=
  if telemetry_me_allows_normal self then fetch_add self me_writer_restored_same_endpoint_total 1 else self.
Definition increment_me_writer_restored_fallback_total (self : Stats) : Stats :=
  if telemetry_me_allows_normal self then fetch_add self me_writer_restored_fallback_total 1 else self.
Definition increment_me_endpoint_quarantine_total (self : Stats) : Stats :=
  if telemetry_me_allows_normal self then fetch_add self me_endpoint_quarantine_total 1 else self.
Definition increment_me_kdf_drift_total (self : Stats) : Stats :=
  if telemetry_me_allows_normal self then fetch_add self me_kdf_drift_total 1 else self.
Definition increment_me_kdf_port_only_drift_total (self : Stats) : Stats :=
  if telemetry_me_allows_debug self then fetch_add self me_kdf_port_only_drift_total 1 else self.
Definition increment_me_hardswap_pending_reuse_total (self : Stats) : Stats :=
  if telemetry_me_allows_debug self then fetch_add self me_hardswap_pending_reuse_total 1 else self.
Definition increment_me_hardswap_pending_ttl_expired_total (self : Stats) : Stats :=
  if telemetry_me_allows_normal self then fetch_add self me_hardswap_pending_ttl_expired_total 1 else self.
Definition increment_me_single_endpoint_outage_enter_total (self : Stats) : Stats :=
  if telemetry_me_allows_normal self then fetch_add self me_single_endpoint_outage_enter_total 1 else self.
Definition increment_me_single_endpoint_outage_exit_total (self : Stats) : Stats :=
  if telemetry_me_allows_normal self then fetch_add self me_single_endpoint_outage_exit_total 1 else self.
Definition increment_me_single_endpoint_outage_reconnect_attempt_total (self : Stats) : Stats :=
  if telemetry_me_allows_normal self then fetch_add self me_single_endpoint_outage_reconnect_attempt_total 1 else self.
Definition increment_me_single_endpoint_outage_reconnect_success_total (self : Stats) : Stats :=
  if telemetry_me_allows_normal self then fetch_add self me_single_endpoint_outage_reconnect_success_total 1 else self.
Definition increment_me_single_endpoint_quarantine_bypass_total (self : Stats) : Stats :=
  if telemetry_me_allows_normal self then fetch_add self me_single_endpoint_quarantine_bypass_total 1 else self.
Definition increment_me_single_endpoint_shadow_rotate_total (self : Stats) : Stats :=
  if telemetry_me_allows_normal self then fetch_add self me_single_endpoint_shadow_rotate_total 1 else self.
Definition increment_me_single_endpoint_shadow_rotate_skipped_quarantine_total (self : Stats) : Stats :=
  if telemetry_me_allows_normal self then fetch_add self me_single_endpoint_shadow_rotate_skipped_quarantine_total 1 else self.
Definition increment_me_floor_mode_switch_total (self : Stats) : Stats :=
  if telemetry_me_allows_normal self then fetch_add self me_floor_mode_switch_total 1 else self.
Definition increment_me_floor_mode_switch_static_to_adaptive_total (self : Stats) : Stats :=
  if telemetry_me_allows_normal self then fetch_add self me_floor_mode_switch_static_to_adaptive_total 1 else self.
Definition increment_me_floor_mode_switch_adaptive_to_static_total (self : Stats) : Stats :=
  if telemetry_me_allows_normal self then fetch_add self me_floor_mode_switch_adaptive_to_static_total 1 else self.

Definition increment_me_handshake_error_code (self : Stats) (code : Z) : Stats :=
  if negb (telemetry_me_allows_normal self) then self
  else
    let entry := default 0 (me_handshake_error_codes self !! code) in
    mkStats (st_counter self) (<[code := u64 (entry + 1)]> (me_handshake_error_codes self))
      (st_core_enabled self) (st_user_enabled self) (st_me_level self) (user_stats self).

Definition observe_desync_frames_ok (self : Stats) (frames_ok : Z) : Stats :=
  if negb (telemetry_me_allows_normal self) then self
  else if frames_ok =? 0 then fetch_add self desync_frames_bucket_0 1
  else if (1 <=? frames_ok) && (frames_ok <=? 2) then fetch_add self desync_frames_bucket_1_2 1
  else if (3 <=? frames_ok) && (frames_ok <=? 10) then fetch_add self desync_frames_bucket_3_10 1
  else fetch_add self desync_frames_bucket_gt_10 1.

(** The compare-exchange loop takes one from the value it finds, and nothing from zero. *)
Definition decrement_pool_drain_active (self : Stats) : Stats :=
  if negb (telemetry_me_allows_debug self) then self
  else if load self pool_drain_active =? 0 then self
  else fetch_add self pool_drain_active (-1).

(** ** Reading (stats/mod.rs:462-619, 735) *)

Definition get_connects_all (self : Stats) : Z := load self connects_all.
Definition get_connects_bad (self : Stats) : Z := load self connects_bad.
Definition get_me_keepalive_sent (self : Stats) : Z := load self me_keepalive_sent.
Definition get_me_keepalive_failed (self : Stats) : Z := load self me_keepalive_failed.
Definition get_me_keepalive_pong (self : Stats) : Z := load self me_keepalive_pong.
Definition get_me_keepalive_timeout (self : Stats) : Z := load self me_keepalive_timeout.
Definition get_me_reconnect_attempts (self : Stats) : Z := load self me_reconnect_attempts.
Definition get_me_reconnect_success (self : Stats) : Z := load self me_reconnect_success.
Definition get_me_handshake_reject_total (self : Stats) : Z := load self me_handshake_reject_total.
Definition get_me_reader_eof_total (self : Stats) : Z := load self me_reader_eof_total.
Definition get_me_crc_mismatch (self : Stats) : Z := load self me_crc_mismatch.
Definition get_me_seq_mismatch (self : Stats) : Z := load self me_seq_mismatch.
Definition get_me_endpoint_quarantine_total (self : Stats) : Z := load self me_endpoint_quarantine_total.
Definition get_me_kdf_drift_total (self : Stats) : Z := load self me_kdf_drift_total.
Definition get_me_kdf_port_only_drift_total (self : Stats) : Z := load self me_kdf_port_only_drift_total.
Definition get_me_hardswap_pending_reuse_total (self : Stats) : Z := load self me_hardswap_pending_reuse_total.
Definition get_me_hardswap_pending_ttl_expired_total (self : Stats) : Z := load self me_hardswap_pending_ttl_expired_total.
Definition get_me_single_endpoint_outage_enter_total (self : Stats) : Z := load self me_single_endpoint_outage_enter_total.
Definition get_me_single_endpoint_outage_exit_total (self : Stats) : Z := load self me_single_endpoint_outage_exit_total.
Definition get_me_single_endpoint_outage_reconnect_attempt_total (self : Stats) : Z := load self me_single_endpoint_outage_reconnect_attempt_total.
Definition get_me_single_endpoint_outage_reconnect_success_total (self : Stats) : Z := load self me_single_endpoint_outage_reconnect_success_total.
Definition get_me_single_endpoint_quarantine_bypass_total (self : Stats) : Z := load self me_single_endpoint_quarantine_bypass_total.
Definition get_me_single_endpoint_shadow_rotate_total (self : Stats) : Z := load self me_single_endpoint_shadow_rotate_total.
Definition get_me_single_endpoint_shadow_rotate_skipped_quarantine_total (self : Stats) : Z := load self me_single_endpoint_shadow_rotate_skipped_quarantine_total.
Definition get_me_floor_mode_switch_total (self : Stats) : Z := load self me_floor_mode_switch_total.
Definition get_me_floor_mode_switch_static_to_adaptive_total (self : Stats) : Z := load self me_floor_mode_switch_static_to_adaptive_total.
Definition get_me_floor_mode_switch_adaptive_to_static_total (self : Stats) : Z := load self me_floor_mode_switch_adaptive_to_static_total.
Definition get_me_route_drop_no_conn (self : Stats) : Z := load self me_route_drop_no_conn.
Definition get_me_route_drop_channel_closed (self : Stats) : Z := load self me_route_drop_channel_closed.
Definition get_me_route_drop_queue_full (self : Stats) : Z := load self me_route_drop_queue_full.
Definition get_me_route_drop_queue_full_base (self : Stats) : Z := load self me_route_drop_queue_full_base.
Definition get_me_route_drop_queue_full_high (self : Stats) : Z := load self me_route_drop_queue_full_high.
Definition get_me_socks_kdf_strict_reject (self : Stats) : Z := load self me_socks_kdf_strict_reject.
Definition get_me_socks_kdf_compat_fallback (self : Stats) : Z := load self me_socks_kdf_compat_fallback.
Definition get_secure_padding_invalid (self : Stats) : Z := load self secure_padding_invalid.
Definition get_desync_total (self : Stats) : Z := load self desync_total.
Definition get_desync_full_logged (self : Stats) : Z := load self desync_full_logged.
Definition get_desync_suppressed (self : Stats) : Z := load self desync_suppressed.
Definition get_desync_frames_bucket_0 (self : Stats) : Z := load self desync_frames_bucket_0.
Definition get_desync_frames_bucket_1_2 (self : Stats) : Z := load self desync_frames_bucket_1_2.
Definition get_desync_frames_bucket_3_10 (self : Stats) : Z := load self desync_frames_bucket_3_10.
Definition get_desync_frames_bucket_gt_10 (self : Stats) : Z := load self desync_frames_bucket_gt_10.
Definition get_pool_swap_total (self : Stats) : Z := load self pool_swap_total.
Definition get_pool_drain_active (self : Stats) : Z := load self pool_drain_active.
Definition get_pool_force_close_total (self : Stats) : Z := load self pool_force_close_total.
Definition get_pool_stale_pick_total (self : Stats) : Z := load self pool_stale_pick_total.
Definition get_me_writer_removed_total (self : Stats) : Z := load self me_writer_removed_total.
Definition get_me_writer_removed_unexpected_total (self : Stats) : Z := load self me_writer_removed_unexpected_total.
Definition get_me_refill_triggered_total (self : Stats) : Z := load self me_refill_triggered_total.
Definition get_me_refill_skipped_inflight_total (self : Stats) : Z := load self me_refill_skipped_inflight_total.
Definition get_me_refill_failed_total (self : Stats) : Z := load self me_refill_failed_total.
Definition get_me_writer_restored_same_endpoint_total (self : Stats) : Z := load self me_writer_restored_same_endpoint_total.
Definition get_me_writer_restored_fallback_total (self : Stats) : Z := load self me_writer_restored_fallback_total.
Definition get_handshake_timeouts (self : Stats) : Z := load self handshake_timeouts.

(** [out.sort_by_key(|(code, _)| *code)] *)
Definition code_le (a b : Z * Z) : Prop := a.1 <= b.1.
#[global] Instance code_le_dec a b : Decision (code_le a b).
Proof. unfold code_le. apply _. Defined.
Definition get_me_handshake_error_code_counts (self : Stats) : list (Z * Z) :=
  merge_sort code_le (map_to_list (me_handshake_error_codes self)).

(** ** Per-user statistics (stats/mod.rs:621-733) *)

Definition with_user_stats (self : Stats) (m : gmap string UserStats) : Stats :=
  mkStats (st_counter self) (me_handshake_error_codes self) (st_core_enabled self) (st_user_enabled self)
    (st_me_level self) m.

(** [self.user_stats.entry(user).or_default()], updated in place. *)
Definition entry_update (self : Stats) (user : string) (f : UserStats -> UserStats) : Stats :=
  with_user_stats self (<[user := f (default UserStats_default (user_stats self !! user))]> (user_stats self)).

Definition add_connects (u : UserStats) (n : Z) : UserStats :=
  mkUserStats (u64 (connects u + n)) (curr_connects u) (octets_from_client u) (octets_to_client u)
    (msgs_from_client u) (msgs_to_client u).
Definition set_curr_connects (u : UserStats) (v : Z) : UserStats :=
  mkUserStats (connects u) v (octets_from_client u) (octets_to_client u) (msgs_from_client u) (msgs_to_client u).
Definition add_octets_from (u : UserStats) (n : Z) : UserStats :=
  mkUserStats (connects u) (curr_connects u) (u64 (octets_from_client u + n)) (octets_to_client u)
    (msgs_from_client u) (msgs_to_client u).
Definition add_octets_to (u : UserStats) (n : Z) : UserStats :=
  mkUserStats (connects u) (curr_connects u) (octets_from_client u) (u64 (octets_to_client u + n))
    (msgs_from_client u) (msgs_to_client u).
Definition add_msgs_from (u : UserStats) (n : Z) : UserStats :=
  mkUserStats (connects u) (curr_connects u) (octets_from_client u) (octets_to_client u)
    (u64 (msgs_from_client u + n)) (msgs_to_client u).
Definition add_msgs_to (u : UserStats) (n : Z) : UserStats :=
  mkUserStats (connects u) (curr_connects u) (octets_from_client u) (octets_to_client u)
    (msgs_from_client u) (u64 (msgs_to_client u + n)).

Definition increment_user_connects (self : Stats) (user : string) : Stats :=
  if negb (telemetry_user_enabled self) then self
  else entry_update self user (fun u => add_connects u 1).

Definition increment_user_curr_connects (self : Stats) (user : string) : Stats :=
  if negb (telemetry_user_enabled self) then self
  else entry_update self user (fun u => set_curr_connects u (u64 (curr_connects u + 1))).

Definition decrement_user_curr_connects (self : Stats) (user : string) : Stats :=
  match user_stats self !! user with
  | Some u =>
      if curr_connects u =? 0 then self
      else with_user_stats self (<[user := set_curr_connects u (curr_connects u - 1)]> (user_stats self))
  | None => self
  end.

Definition get_user_curr_connects (self : Stats) (user : string) : Z :=
  match user_stats self !! user with Some u => curr_connects u | None => 0 end.

(** The fast path of the hot counters: an existing entry is updated, a new user gets one. *)
Definition hot_update (self : Stats) (user : string) (f : UserStats -> UserStats) : Stats :=
  if negb (telemetry_user_enabled self) then self
  else
    match user_stats self !! user with
    | Some u => with_user_stats self (<[user := f u]> (user_stats self))
    | None => entry_update self user f
    end.

Definition add_user_octets_from (self : Stats) (user : string) (bytes : Z) : Stats :=
  hot_update self user (fun u => add_octets_from u bytes).
Definition add_user_octets_to (self : Stats) (user : string) (bytes : Z) : Stats :=
  hot_update self user (fun u => add_octets_to u bytes).
Definition increment_user_msgs_from (self : Stats) (user : string) : Stats :=
  hot_update self user (fun u => add_msgs_from u 1).
Definition increment_user_msgs_to (self : Stats) (user : string) : Stats :=
  hot_update self user (fun u => add_msgs_to u 1).

(** The sum is a plain [+]: it wraps in a release build. *)
Definition get_user_total_octets (self : Stats) (user : string) : Z :=
  match user_stats self !! user with
  | Some u => u64 (octets_from_client u + octets_to_client u)
  | None => 0
  end.

(** ** What the counters count *)

(** Which switch of the policy a method obeys. *)
Inductive gate := GCore | GNormal | GDebug.
Definition gate_open (p : TelemetryPolicy) (g : gate) : bool :=
  match g with
  | GCore => core_enabled p
  | GNormal => allows_normal (me_level p)
  | GDebug => allows_debug (me_level p)
  end.

(** The methods that count one event, with their switch and their counter. *)
Record counting := mkCounting { cn_gate : gate; cn_counter : Counter; cn_method : Stats -> Stats }.
Definition counting_methods : list counting := [
  mkCounting GCore connects_all increment_connects_all;
  mkCounting GCore connects_bad increment_connects_bad;
  mkCounting GCore handshake_timeouts increment_handshake_timeouts;
  mkCounting GDebug me_keepalive_sent increment_me_keepalive_sent;
  mkCounting GNormal me_keepalive_failed increment_me_keepalive_failed;
  mkCounting GDebug me_keepalive_pong increment_me_keepalive_pong;
  mkCounting GNormal me_keepalive_timeout increment_me_keepalive_timeout;
  mkCounting GNormal me_reconnect_attempts increment_me_reconnect_attempt;
  mkCounting GNormal me_reconnect_success increment_me_reconnect_success;
  mkCounting GNormal me_handshake_reject_total increment_me_handshake_reject_total;
  mkCounting GNormal me_reader_eof_total increment_me_reader_eof_total;
  mkCounting GNormal me_crc_mismatch increment_me_crc_mismatch;
  mkCounting GNormal me_seq_mismatch increment_me_seq_mismatch;
  mkCounting GNormal me_route_drop_no_conn increment_me_route_drop_no_conn;
  mkCounting GNormal me_route_drop_channel_closed increment_me_route_drop_channel_closed;
  mkCounting GNormal me_route_drop_queue_full increment_me_route_drop_queue_full;
  mkCounting GNormal me_route_drop_queue_full_base increment_me_route_drop_queue_full_base;
  mkCounting GNormal me_route_drop_queue_full_high increment_me_route_drop_queue_full_high;
  mkCounting GNormal me_socks_kdf_strict_reject increment_me_socks_kdf_strict_reject;
  mkCounting GDebug me_socks_kdf_compat_fallback increment_me_socks_kdf_compat_fallback;
  mkCounting GNormal secure_padding_invalid increment_secure_padding_invalid;
  mkCounting GNormal desync_total increment_desync_total;
  mkCounting GNormal desync_full_logged increment_desync_full_logged;
  mkCounting GNormal desync_suppressed increment_desync_suppressed;
  mkCounting GNormal pool_swap_total increment_pool_swap_total;
  mkCounting GDebug pool_drain_active increment_pool_drain_active;
  mkCounting GNormal pool_force_close_total increment_pool_force_close_total;
  mkCounting GNormal pool_stale_pick_total increment_pool_stale_pick_total;
  mkCounting GDebug me_writer_removed_total increment_me_writer_removed_total;
  mkCounting GNormal me_writer_removed_unexpected_total increment_me_writer_removed_unexpected_total;
  mkCounting GDebug me_refill_triggered_total increment_me_refill_triggered_total;
  mkCounting GDebug me_refill_skipped_inflight_total increment_me_refill_skipped_inflight_total;
  mkCounting GNormal me_refill_failed_total increment_me_refill_failed_total;
  mkCounting GNormal me_writer_restored_same_endpoint_total increment_me_writer_restored_same_endpoint_total;
  mkCounting GNormal me_writer_restored_fallback_total increment_me_writer_restored_fallback_total;
  mkCounting GNormal me_endpoint_quarantine_total increment_me_endpoint_quarantine_total;
  mkCounting GNormal me_kdf_drift_total increment_me_kdf_drift_total;
  mkCounting GDebug me_kdf_port_only_drift_total increment_me_kdf_port_only_drift_total;
  mkCounting GDebug me_hardswap_pending_reuse_total increment_me_hardswap_pending_reuse_total;
  mkCounting GNormal me_hardswap_pending_ttl_expired_total increment_me_hardswap_pending_ttl_expired_total;
  mkCounting GNormal me_single_endpoint_outage_enter_total increment_me_single_endpoint_outage_enter_total;
  mkCounting GNormal me_single_endpoint_outage_exit_total increment_me_single_endpoint_outage_exit_total;
  mkCounting GNormal me_single_endpoint_outage_reconnect_attempt_total increment_me_single_endpoint_outage_reconnect_attempt_total;
  mkCounting GNormal me_single_endpoint_outage_reconnect_success_total increment_me_single_endpoint_outage_reconnect_success_total;
  mkCounting GNormal me_single_endpoint_quarantine_bypass_total increment_me_single_endpoint_quarantine_bypass_total;
  mkCounting GNormal me_single_endpoint_shadow_rotate_total increment_me_single_endpoint_shadow_rotate_total;
  mkCounting GNormal me_single_endpoint_shadow_rotate_skipped_quarantine_total increment_me_single_endpoint_shadow_rotate_skipped_quarantine_total;
  mkCounting GNormal me_floor_mode_switch_total increment_me_floor_mode_switch_total;
  mkCounting GNormal me_floor_mode_switch_static_to_adaptive_total increment_me_floor_mode_switch_static_to_adaptive_total;
  mkCounting GNormal me_floor_mode_switch_adaptive_to_static_total increment_me_floor_mode_switch_adaptive_to_static_total].

(** A history of calls and of policy changes, as any number of tasks make them. *)
Inductive call :=
| Call (m : counting)
| SetPolicy (p : TelemetryPolicy).

Definition run_call (s : Stats) (c : call) : Stats :=
  match c with
  | Call m => cn_method m s
  | SetPolicy p => apply_telemetry_policy s p
  end.

Definition call_ok (c : call) : Prop := match c with Call m => m ∈ counting_methods | SetPolicy _ => True end.

(** How many of the calls count towards [c] when they are made under the policy of that moment. *)
Fixpoint counted (c : Counter) (p : TelemetryPolicy) (calls : list call) : Z :=
  match calls with
  | [] => 0
  | Call m :: calls =>
      (if bool_decide (cn_counter m = c) && gate_open p (cn_gate m) then 1 else 0) + counted c p calls
  | SetPolicy p :: calls => counted c p calls
  end.

Lemma from_as_u8 l : from_u8 (as_u8 l) = l.
Proof. by destruct l. Qed.

Lemma telemetry_policy_apply s p : telemetry_policy (apply_telemetry_policy s p) = p.
Proof.
  destruct p as [c u l]. unfold telemetry_policy, telemetry_me_level, apply_telemetry_policy. cbn.
  by rewrite from_as_u8.
Qed.

(** Every counting method obeys its switch and touches its counter alone. *)
Lemma counting_methods_spec :
  Forall (fun m => forall s, cn_method m s =
    if gate_open (telemetry_policy s) (cn_gate m) then fetch_add s (cn_counter m) 1 else s) counting_methods.
Proof. repeat (constructor; [done|]). constructor. Qed.

Lemma load_fetch_add s c d n : load (fetch_add s c n) d = if decide (d = c) then u64 (load s c + n) else load s d.
Proof. done. Qed.

Lemma u64_add_l a b : u64 (u64 a + b) = u64 (a + b).
Proof. unfold u64. apply Zplus_mod_idemp_l. Qed.

(** After any history of counting calls and policy changes, a counter holds the number of its
    events that happened while the policy of the moment allowed them, modulo 2^64. *)
Theorem counters_count s calls c :
  Forall call_ok calls -> load s c = u64 (load s c) ->
  load (foldl run_call s calls) c = u64 (load s c + counted c (telemetry_policy s) calls).
Proof.
  intros Hok. revert s. induction Hok as [|cl calls Hc Hok IH]; intros s Hs; cbn [foldl counted].
  { by rewrite Z.add_0_r. }
  destruct cl as [m|p]; cbn [run_call].
  - cbn in Hc. pose proof counting_methods_spec as M. rewrite Forall_forall in M. rewrite (M m Hc s).
    destruct (gate_open (telemetry_policy s) (cn_gate m)) eqn:G; rewrite ?andb_false_r, ?andb_true_r.
    + assert (telemetry_policy (fetch_add s (cn_counter m) 1) = telemetry_policy s) as Ep by done.
      rewrite IH, Ep, load_fetch_add.
      * case_bool_decide as Ec; [subst; rewrite decide_True by done; by rewrite u64_add_l, Z.add_assoc|].
        rewrite decide_False by congruence. done.
      * rewrite load_fetch_add. case_decide; [|done]. unfold u64. by rewrite Zmod_mod.
    + by rewrite IH.
  - rewrite IH by done. by rewrite telemetry_policy_apply.
Qed.
