(* ===== verification/IpTracker.v ===== *)
(** * Per-user address limits: [ip_tracker.rs]

    The tracker keeps the set of addresses each user is connected from and refuses an address beyond
    the user's limit.  A method that holds the write lock is one step; the limit a check uses is read
    before, under the other lock. *)

From stdpp Require Import gmap sorting.
From S2P Require Import Prelude NetAddr.

Record UserIpTracker := mkUserIpTracker {
  active_ips : gmap string (gset IpAddr);
  max_ips : gmap string Z
}.

Definition UserIpTracker_new : UserIpTracker := mkUserIpTracker ∅ ∅.

Definition set_user_limit (self : UserIpTracker) (username : string) (max : Z) : UserIpTracker :=
  mkUserIpTracker (active_ips self) (<[username := max]> (max_ips self)).

(** The loop over the configuration's map: one insertion per entry. *)
Definition load_limits (self : UserIpTracker) (limits : gmap string Z) : UserIpTracker :=
  mkUserIpTracker (active_ips self)
    (map_fold (fun user limit max_ips => <[user := limit]> max_ips) (max_ips self) limits).

(** "IP limit reached for user '{}': {}/{} unique IPs already connected" *)
Inductive IpLimitError := IpLimitReached (user : string) (active limit : Z).

(** [entry(username).or_insert_with(HashSet::new)] *)
Definition user_ips (self : UserIpTracker) (username : string) : gset IpAddr :=
  default ∅ (active_ips self !! username).

Definition with_user_ips (self : UserIpTracker) (username : string) (ips : gset IpAddr) : UserIpTracker :=
  mkUserIpTracker (<[username := ips]> (active_ips self)) (max_ips self).

Definition zsize (ips : gset IpAddr) : Z := Z.of_nat (size ips).

(** [check_and_add] (ip_tracker.rs:66-108), after the limit has been read. *)
Definition check_and_add_under (limit : option Z) (self : UserIpTracker) (username : string) (ip : IpAddr)
  : result IpLimitError unit * UserIpTracker :=
  let ips := user_ips self username in
  match limit with
  | None => (Ok tt, with_user_ips self username ({[ip]} ∪ ips))
  | Some limit =>
      if decide (ip ∈ ips) then (Ok tt, with_user_ips self username ips)
      else if limit <=? zsize ips then (Err (IpLimitReached username (zsize ips) limit), with_user_ips self username ips)
      else (Ok tt, with_user_ips self username ({[ip]} ∪ ips))
  end.

Definition check_and_add (self : UserIpTracker) (username : string) (ip : IpAddr)
  : result IpLimitError unit * UserIpTracker :=
  check_and_add_under (max_ips self !! username) self username ip.

Definition remove_ip (self : UserIpTracker) (username : string) (ip : IpAddr) : UserIpTracker :=
  match active_ips self !! username with
  | Some ips =>
      let ips := ips ∖ {[ip]} in
      if decide (ips = ∅) then mkUserIpTracker (delete username (active_ips self)) (max_ips self)
      else with_user_ips self username ips
  | None => self
  end.

Definition get_active_ip_count (self : UserIpTracker) (username : string) : Z :=
  match active_ips self !! username with Some ips => zsize ips | None => 0 end.

(** The order of a [HashSet] is unspecified; this is one of its enumerations. *)
Definition get_active_ips (self : UserIpTracker) (username : string) : list IpAddr :=
  match active_ips self !! username with Some ips => elements ips | None => [] end.

Definition name_le (a b : string * Z * Z) : Prop := String.leb a.1.1 b.1.1 = true.
#[global] Instance name_le_dec a b : Decision (name_le a b).
Proof. unfold name_le. apply _. Defined.

Definition get_stats (self : UserIpTracker) : list (string * Z * Z) :=
  merge_sort name_le
    ((fun entry : string * gset IpAddr => (entry.1, zsize entry.2, default 0 (max_ips self !! entry.1)))
       <$> map_to_list (active_ips self)).

Definition clear_user_ips (self : UserIpTracker) (username : string) : UserIpTracker :=
  mkUserIpTracker (delete username (active_ips self)) (max_ips self).
Definition clear_all (self : UserIpTracker) : UserIpTracker := mkUserIpTracker ∅ (max_ips self).

Definition is_ip_active (self : UserIpTracker) (username : string) (ip : IpAddr) : bool :=
  match active_ips self !! username with Some ips => bool_decide (ip ∈ ips) | None => false end.

Definition get_user_limit (self : UserIpTracker) (username : string) : option Z := max_ips self !! username.

(** [format_stats] (ip_tracker.rs:232-258).  The width of a name counts characters. *)
Definition char_count (l : bytes) : nat := length (filter (fun b => negb ((0x80 <=? b) && (b <? 0xc0))) l).
Definition pad_right (width : nat) (l : bytes) : bytes := l ++ replicate (width - char_count l) 32.

Definition limit_text (limit : Z) : bytes := if 0 <? limit then fmt_num 10 limit else str "unlimited".

Definition format_stats (self : UserIpTracker) : bytes :=
  let stats := get_stats self in
  if decide (stats = []) then str "No active users"
  else
    str "User IP Statistics:" ++ [10] ++ str "==================" ++ [10] ++
    (stats ≫= (fun '(username, active_count, limit) =>
       str "User: " ++ pad_right 20 (str username) ++ str " Active IPs: " ++ fmt_num 10 active_count ++ [47] ++
       limit_text limit ++ [10] ++
       (get_active_ips self username ≫= (fun ip => [32; 32; 0xe2; 0x94; 0x94; 0xe2; 0x94; 0x80; 32] ++ fmt_ip ip ++ [10])))).

(** ** What each method does to the addresses of each user *)

Lemma user_ips_with self u ips v :
  user_ips (with_user_ips self u ips) v = if decide (v = u) then ips else user_ips self v.
Proof.
  unfold user_ips, with_user_ips. cbn. case_decide as E; [subst; by rewrite lookup_insert_eq|by rewrite lookup_insert_ne].
Qed.

Lemma user_ips_delete self u v :
  user_ips (mkUserIpTracker (delete u (active_ips self)) (max_ips self)) v = if decide (v = u) then ∅ else user_ips self v.
Proof.
  unfold user_ips. cbn. case_decide as E; [subst; by rewrite lookup_delete_eq|by rewrite lookup_delete_ne].
Qed.

Lemma remove_ip_user_ips self u ip v :
  user_ips (remove_ip self u ip) v = if decide (v = u) then user_ips self u ∖ {[ip]} else user_ips self v.
Proof.
  unfold remove_ip. destruct (active_ips self !! u) as [ips|] eqn:E.
  - assert (user_ips self u = ips) as -> by (unfold user_ips; by rewrite E). cbv zeta.
    case_decide as E2; [rewrite user_ips_delete|rewrite user_ips_with]; case_decide; congruence.
  - case_decide; [|done]. subst. unfold user_ips. rewrite E. cbn. set_solver.
Qed.

Lemma remove_ip_limits self u ip : max_ips (remove_ip self u ip) = max_ips self.
Proof. unfold remove_ip. case_match; [|done]. cbv zeta. by case_decide. Qed.

Lemma get_active_ip_count_spec self u : get_active_ip_count self u = zsize (user_ips self u).
Proof. unfold get_active_ip_count, user_ips. by destruct (active_ips self !! u). Qed.

Lemma is_ip_active_spec self u ip : is_ip_active self u ip = bool_decide (ip ∈ user_ips self u).
Proof. unfold is_ip_active, user_ips. destruct (active_ips self !! u); [done|]. cbn. symmetry. apply bool_decide_false. set_solver. Qed.

(** The abstract tracker: the sets of addresses, a limit that admits known addresses and new ones
    while there is room. *)
Definition admits (self : UserIpTracker) (u : string) (ip : IpAddr) : Prop :=
  match max_ips self !! u with
  | None => True
  | Some limit => ip ∈ user_ips self u \/ zsize (user_ips self u) < limit
  end.

#[global] Instance admits_dec self u ip : Decision (admits self u ip).
Proof. unfold admits. destruct (max_ips self !! u); apply _. Defined.

Lemma check_and_add_spec self u ip :
  let '(r, self') := check_and_add self u ip in
  (is_ok r = true <-> admits self u ip) /\ max_ips self' = max_ips self /\
  forall v, user_ips self' v =
    if decide (v = u) then (if is_ok r then {[ip]} ∪ user_ips self u else user_ips self u) else user_ips self v.
Proof.
  unfold check_and_add, check_and_add_under, admits. destruct (max_ips self !! u) as [limit|].
  2: { split_and!; [done|done|]. intros v. rewrite user_ips_with. by case_decide. }
  case_decide as Hin.
  { split_and!; [split; [by left|done]|done|]. intros v. rewrite user_ips_with.
    case_decide; [|done]. cbn. set_solver. }
  destruct (Z.leb_spec limit (zsize (user_ips self u))) as [Hle|Hlt].
  - split_and!; [split; [done|intros [?|?]; [done|lia]]|done|].
    intros v. rewrite user_ips_with. by case_decide.
  - split_and!; [split; [by right|done]|done|]. intros v. rewrite user_ips_with. by case_decide.
Qed.

Lemma zsize_add ip ips : ip ∉ ips -> zsize ({[ip]} ∪ ips) = zsize ips + 1.
Proof. intros. unfold zsize. rewrite size_union by set_solver. rewrite size_singleton. lia. Qed.

Lemma zsize_remove ip ips : zsize (ips ∖ {[ip]}) <= zsize ips.
Proof. unfold zsize. apply inj_le, subseteq_size. set_solver. Qed.

(** The invariant: nobody is over a limit. *)
Definition within_limits (self : UserIpTracker) : Prop :=
  forall u limit, max_ips self !! u = Some limit -> 0 <= limit -> zsize (user_ips self u) <= limit.

Lemma check_and_add_within self u ip : within_limits self -> within_limits (snd (check_and_add self u ip)).
Proof.
  intros Hw v limit. pose proof (check_and_add_spec self u ip) as H. destruct (check_and_add self u ip) as [r self'].
  destruct H as (Hr & Hm & Hu). cbn [snd]. rewrite Hm, Hu. intros Hl Hpos. case_decide as E; [subst v|by apply Hw].
  destruct (is_ok r); [|by apply Hw]. apply proj1 in Hr. specialize (Hr eq_refl). unfold admits in Hr. rewrite Hl in Hr.
  destruct (decide (ip ∈ user_ips self u)) as [Hin|Hin].
  - replace ({[ip]} ∪ user_ips self u) with (user_ips self u) by set_solver. by apply Hw.
  - rewrite zsize_add by done. destruct Hr; [done|lia].
Qed.

Lemma remove_ip_within self u ip : within_limits self -> within_limits (remove_ip self u ip).
Proof.
  intros Hw v limit. rewrite remove_ip_limits, remove_ip_user_ips. intros Hl Hpos.
  case_decide as E; [subst v|by apply Hw]. pose proof (zsize_remove ip (user_ips self u)). specialize (Hw u limit Hl Hpos). lia.
Qed.

Lemma within_limits_empty m : within_limits (mkUserIpTracker ∅ m).
Proof. intros u limit _ Hl. unfold user_ips, zsize. cbn. by rewrite lookup_empty. Qed.

Lemma load_limits_lookup self limits u :
  max_ips (load_limits self limits) !! u =
    match limits !! u with Some l => Some l | None => max_ips self !! u end.
Proof.
  unfold load_limits. cbn. revert u.
  apply (map_fold_weak_ind (fun (m limits : gmap string Z) => forall u,
     m !! u = match limits !! u with Some l => Some l | None => max_ips self !! u end)).
  - intros u. by rewrite lookup_empty.
  - intros k l limits' m _ IH u. destruct (decide (k = u)) as [->|Hn]; [by rewrite !lookup_insert_eq|].
    by rewrite !lookup_insert_ne, IH.
Qed.

Example ip_tracker_example :
  let ip n := V4 [10; 0; 0; n] in
  let t := set_user_limit UserIpTracker_new "alice" 2 in
  let t := snd (check_and_add t "alice" (ip 1)) in
  let t := snd (check_and_add t "alice" (ip 2)) in
  get_stats t = [("alice", 2, 2)] /\
  fst (check_and_add t "alice" (ip 3)) = Err (IpLimitReached "alice" 2 2) /\
  format_stats (remove_ip (remove_ip t "alice" (ip 1)) "alice" (ip 2)) = str "No active users".
Proof. split_and!; vm_compute; reflexivity. Qed.
