(* ===== verification/UserLimits.v ===== *)
(** * Admission of authenticated clients: [proxy/client.rs], with [ip_tracker.rs] and [stats/mod.rs]

    After the handshake a client passes [check_user_limits_static]; its session then holds a guard
    that releases the client's address when it is dropped, connects upstream, is counted while
    it relays, and ends.  Many sessions run at once: the second half of the file interleaves them as
    actions on the shared tracker and statistics. *)

From stdpp Require Import gmap.
From S2P Require Import Prelude NetAddr Errors Stats IpTracker.

(** The fields of [AccessConfig] the checks read; an instant is a number. *)
Record AccessLimits := mkAccessLimits {
  user_expirations : gmap string Z;
  user_max_tcp_conns : gmap string Z;
  user_data_quota : gmap string Z
}.

(** [check_user_limits_static] (client.rs:740-785) *)
Definition check_user_limits_static (user : string) (config : AccessLimits) (now : Z) (stats : Stats)
    (peer_ip : IpAddr) (ip_tracker : UserIpTracker) : result ProxyError unit * UserIpTracker :=
  let expired := match user_expirations config !! user with Some expiration => expiration <? now | None => false end in
  if expired then (Err (PE_UserExpired user), ip_tracker)
  else
    let '(reason, ip_tracker) := check_and_add ip_tracker user peer_ip in
    match reason with
    | Err _ => (Err (PE_ConnectionLimitExceeded user), ip_tracker)
    | Ok _ =>
        let too_many :=
          match user_max_tcp_conns config !! user with
          | Some limit => limit <=? get_user_curr_connects stats user
          | None => false
          end in
        if too_many then (Err (PE_ConnectionLimitExceeded user), ip_tracker)
        else
          let over_quota :=
            match user_data_quota config !! user with
            | Some quota => quota <=? get_user_total_octets stats user
            | None => false
            end in
          if over_quota then (Err (PE_DataQuotaExceeded user), ip_tracker) else (Ok tt, ip_tracker)
    end.

(** ** Sessions *)

(** A session holds its guard while it connects upstream and while it relays; the guard's [Drop]
    spawns the task that removes the address. *)
Inductive phase := Connecting | Relaying | Leaving.
Record session := mkSession { ss_user : string; ss_ip : IpAddr; ss_phase : phase }.

#[global] Instance phase_eq_dec : EqDecision phase.
Proof. solve_decision. Defined.

Record world := mkWorld {
  w_tracker : UserIpTracker;
  w_stats : Stats;
  w_sessions : gmap nat session
}.

Inductive action :=
| Connect (id : nat) (user : string) (ip : IpAddr) (now : Z)  (* the check, and the guard when it passes *)
| StartRelay (id : nat)                                       (* direct_relay.rs:58-59, middle_relay.rs *)
| Octets (id : nat) (from to : Z)                             (* bytes relayed *)
| Finish (id : nat)                                           (* the relay, or connecting, ends *)
| Cleanup (id : nat).                                         (* the spawned [remove_ip] *)

Definition set_phase (w : world) (id : nat) (s : session) (p : phase) : gmap nat session :=
  <[id := mkSession (ss_user s) (ss_ip s) p]> (w_sessions w).

Definition act (config : AccessLimits) (w : world) (a : action) : option world :=
  match a with
  | Connect id user ip now =>
      match w_sessions w !! id with
      | Some _ => None
      | None =>
          let '(r, tracker) := check_user_limits_static user config now (w_stats w) ip (w_tracker w) in
          Some (mkWorld tracker (w_stats w)
            (if is_ok r then <[id := mkSession user ip Connecting]> (w_sessions w) else w_sessions w))
      end
  | StartRelay id =>
      match w_sessions w !! id with
      | Some s =>
          if decide (ss_phase s = Connecting) then
            Some (mkWorld (w_tracker w)
              (increment_user_curr_connects (increment_user_connects (w_stats w) (ss_user s)) (ss_user s))
              (set_phase w id s Relaying))
          else None
      | None => None
      end
  | Octets id from to =>
      match w_sessions w !! id with
      | Some s =>
          if decide (ss_phase s = Relaying) then
            Some (mkWorld (w_tracker w)
              (add_user_octets_to (add_user_octets_from (w_stats w) (ss_user s) from) (ss_user s) to) (w_sessions w))
          else None
      | None => None
      end
  | Finish id =>
      match w_sessions w !! id with
      | Some s =>
          match ss_phase s with
          | Connecting => Some (mkWorld (w_tracker w) (w_stats w) (set_phase w id s Leaving))
          | Relaying =>
              Some (mkWorld (w_tracker w) (decrement_user_curr_connects (w_stats w) (ss_user s)) (set_phase w id s Leaving))
          | Leaving => None
          end
      | None => None
      end
  | Cleanup id =>
      match w_sessions w !! id with
      | Some s =>
          if decide (ss_phase s = Leaving) then
            Some (mkWorld (remove_ip (w_tracker w) (ss_user s) (ss_ip s)) (w_stats w) (delete id (w_sessions w)))
          else None
      | None => None
      end
  end.

Definition run (config : AccessLimits) (w : world) (acts : list action) : option world :=
  foldl (fun ow a => w ← ow; act config w a) (Some w) acts.

(** At start: the configured limits, nobody connected. *)
Definition start (limits : gmap string Z) (stats : Stats) : world :=
  mkWorld (load_limits UserIpTracker_new limits) stats ∅.

(** The sessions of a user that relay. *)
Definition relays_for (u : string) (e : nat * session) : Prop := ss_user e.2 = u /\ ss_phase e.2 = Relaying.
#[global] Instance relays_for_dec u e : Decision (relays_for u e).
Proof. unfold relays_for. apply _. Defined.
Definition relaying (w : world) (u : string) : Z := Z.of_nat (size (filter (relays_for u) (w_sessions w))).

(** The distinct addresses a user has sessions from. *)
Definition live_ips (w : world) (u : string) : gset IpAddr :=
  list_to_set (ss_ip <$> filter (fun s => ss_user s = u /\ ss_phase s <> Leaving) (map_to_list (w_sessions w)).*2).

(** ** The exact outcome of a check *)

Definition expired (config : AccessLimits) (now : Z) (u : string) : Prop :=
  exists e, user_expirations config !! u = Some e /\ e < now.
Definition below (m : gmap string Z) (value : Z) (u : string) : Prop :=
  match m !! u with Some limit => value < limit | None => True end.

(** The cases of the check. *)
Lemma check_user_limits_cases user config now stats ip tracker :
  let '(r, tracker') := check_user_limits_static user config now stats ip tracker in
  let conns_ok := below (user_max_tcp_conns config) (get_user_curr_connects stats user) user in
  let quota_ok := below (user_data_quota config) (get_user_total_octets stats user) user in
  let entered := ~ expired config now user /\ admits tracker user ip in
  match r with
  | Ok _ => entered /\ conns_ok /\ quota_ok
  | Err (PE_UserExpired u) => u = user /\ expired config now user
  | Err (PE_ConnectionLimitExceeded u) =>
      u = user /\ ~ expired config now user /\ ~ (admits tracker user ip /\ conns_ok)
  | Err (PE_DataQuotaExceeded u) => u = user /\ entered /\ conns_ok /\ ~ quota_ok
  | Err _ => False
  end /\
  max_ips tracker' = max_ips tracker /\
  (entered -> user_ips tracker' user = {[ip]} ∪ user_ips tracker user) /\
  (~ entered -> user_ips tracker' user = user_ips tracker user) /\
  forall v, v <> user -> user_ips tracker' v = user_ips tracker v.
Proof.
  unfold check_user_limits_static. cbv zeta.
  assert ((if match user_expirations config !! user with Some e => e <? now | None => false end then
             expired config now user else ~ expired config now user)) as He.
  { unfold expired. destruct (user_expirations config !! user) as [e|]; [|by intros (? & ? & ?)].
    destruct (Z.ltb_spec e now); [by exists e|]. intros (e' & [= <-] & ?). lia. }
  destruct (match user_expirations config !! user with Some e => e <? now | None => false end).
  { split_and!; try done. tauto. }
  pose proof (check_and_add_spec tracker user ip) as Hc. destruct (check_and_add tracker user ip) as [r tracker'].
  destruct Hc as (Hr & Hm & Hu).
  assert (forall v, v <> user -> user_ips tracker' v = user_ips tracker v) as Hother.
  { intros v Hv. rewrite Hu. by rewrite decide_False. }
  specialize (Hu user). rewrite decide_True in Hu by done.
  destruct r as [[]|e]; cbn [is_ok] in *.
  2: { assert (~ admits tracker user ip) by (rewrite <-Hr; done). split_and!; try done; tauto. }
  assert (admits tracker user ip) as Ha by (by apply Hr). unfold below.
  destruct (user_max_tcp_conns config !! user) as [limit|];
    [destruct (Z.leb_spec limit (get_user_curr_connects stats user)) as [H|H]|].
  1: { split_and!; try done; try tauto; lia. }
  all: destruct (user_data_quota config !! user) as [quota|];
    [destruct (Z.leb_spec quota (get_user_total_octets stats user)) as [H'|H']|]; split_and!; try done; try tauto; try lia.
Qed.

(** A client passes exactly when its account has not expired, its address is known or fits the
    user's address limit, the user has fewer counted connections than allowed and has not used up
    the quota; a refusal names the first of these that fails; and the address is entered in the
    tracker whenever the first two hold, also when one of the others then refuses the client. *)
Theorem check_user_limits_exact user config now stats ip tracker :
  let '(r, tracker') := check_user_limits_static user config now stats ip tracker in
  let conns_ok := below (user_max_tcp_conns config) (get_user_curr_connects stats user) user in
  let quota_ok := below (user_data_quota config) (get_user_total_octets stats user) user in
  let entered := ~ expired config now user /\ admits tracker user ip in
  match r with
  | Ok _ => entered /\ conns_ok /\ quota_ok
  | Err (PE_UserExpired u) => u = user /\ expired config now user
  | Err (PE_ConnectionLimitExceeded u) =>
      u = user /\ ~ expired config now user /\ ~ (admits tracker user ip /\ conns_ok)
  | Err (PE_DataQuotaExceeded u) => u = user /\ entered /\ conns_ok /\ ~ quota_ok
  | Err _ => False
  end /\
  max_ips tracker' = max_ips tracker /\
  (entered -> user_ips tracker' user = {[ip]} ∪ user_ips tracker user) /\
  (~ entered -> user_ips tracker' user = user_ips tracker user) /\
  forall v, v <> user -> user_ips tracker' v = user_ips tracker v.
Proof. apply check_user_limits_cases. Qed.

(** ** Counting sessions *)

Lemma get_user_curr_connects_entry s u f v :
  get_user_curr_connects (entry_update s u f) v =
    if decide (v = u) then curr_connects (f (default UserStats_default (user_stats s !! u)))
    else get_user_curr_connects s v.
Proof.
  unfold get_user_curr_connects, entry_update. cbn.
  case_decide as E; [subst; by rewrite lookup_insert_eq|by rewrite lookup_insert_ne].
Qed.

Lemma curr_connects_default s u :
  curr_connects (default UserStats_default (user_stats s !! u)) = get_user_curr_connects s u.
Proof. unfold get_user_curr_connects. by destruct (user_stats s !! u). Qed.

Lemma hot_update_entry s u f :
  hot_update s u f = if telemetry_user_enabled s then entry_update s u f else s.
Proof.
  unfold hot_update. destruct (telemetry_user_enabled s); cbn; [|done].
  destruct (user_stats s !! u) as [x|] eqn:E; [|done]. unfold entry_update. by rewrite E.
Qed.

(** An update that leaves [curr_connects] alone. *)
Lemma entry_keeps_curr s u f v :
  (forall x, curr_connects (f x) = curr_connects x) ->
  get_user_curr_connects (entry_update s u f) v = get_user_curr_connects s v.
Proof.
  intros Hf. rewrite get_user_curr_connects_entry. case_decide as E; [subst|done].
  by rewrite Hf, curr_connects_default.
Qed.

Lemma octets_keep_curr s u from to v :
  get_user_curr_connects (add_user_octets_to (add_user_octets_from s u from) u to) v = get_user_curr_connects s v /\
  telemetry_user_enabled (add_user_octets_to (add_user_octets_from s u from) u to) = telemetry_user_enabled s.
Proof.
  unfold add_user_octets_to, add_user_octets_from. rewrite !hot_update_entry.
  destruct (telemetry_user_enabled s) eqn:E; [|by rewrite E].
  change (telemetry_user_enabled (entry_update s u _)) with (telemetry_user_enabled s). rewrite E.
  split; [|done]. by rewrite !entry_keeps_curr.
Qed.

Lemma start_relay_curr s u v :
  telemetry_user_enabled s = true ->
  get_user_curr_connects (increment_user_curr_connects (increment_user_connects s u) u) v =
    if decide (v = u) then u64 (get_user_curr_connects s u + 1) else get_user_curr_connects s v.
Proof.
  intros He. unfold increment_user_curr_connects, increment_user_connects. rewrite He. cbn [negb].
  change (telemetry_user_enabled (entry_update s u _)) with (telemetry_user_enabled s). rewrite He. cbn [negb].
  rewrite get_user_curr_connects_entry. case_decide as E; [|by rewrite entry_keeps_curr].
  cbn [curr_connects set_curr_connects]. rewrite curr_connects_default. by rewrite entry_keeps_curr.
Qed.

Lemma decrement_curr s u v :
  get_user_curr_connects (decrement_user_curr_connects s u) v =
    if decide (v = u) then (if get_user_curr_connects s u =? 0 then 0 else get_user_curr_connects s u - 1)
    else get_user_curr_connects s v.
Proof.
  unfold decrement_user_curr_connects, get_user_curr_connects. destruct (user_stats s !! u) as [x|] eqn:E.
  - destruct (Z.eqb_spec (curr_connects x) 0) as [Hz|Hz].
    + case_decide; [subst; by rewrite E|done].
    + cbn. case_decide; [subst; by rewrite lookup_insert_eq|by rewrite lookup_insert_ne].
  - case_decide; [subst; by rewrite E|done].
Qed.

Lemma decrement_enabled s u : telemetry_user_enabled (decrement_user_curr_connects s u) = telemetry_user_enabled s.
Proof. unfold decrement_user_curr_connects. case_match; [|done]. by case_match. Qed.

(** How the number of relaying sessions changes with the phase of one of them. *)
Definition is_relaying (s : option session) (u : string) : bool :=
  match s with Some s => bool_decide (ss_user s = u /\ ss_phase s = Relaying) | None => false end.

Lemma relaying_insert (m : gmap nat session) id s u :
  Z.of_nat (size (filter (relays_for u) (<[id := s]> m))) =
  Z.of_nat (size (filter (relays_for u) m)) - Z.b2z (is_relaying (m !! id) u) + Z.b2z (is_relaying (Some s) u).
Proof.
  assert (Z.of_nat (size (filter (relays_for u) (delete id m))) =
          Z.of_nat (size (filter (relays_for u) m)) - Z.b2z (is_relaying (m !! id) u)) as Hd.
  { rewrite map_filter_delete. unfold is_relaying. destruct (m !! id) as [s0|] eqn:E.
    - case_bool_decide as Hp.
      + rewrite map_size_delete_Some by (exists s0; by apply map_lookup_filter_Some).
        assert (0 < size (filter (relays_for u) m))%nat; [|cbn [Z.b2z]; lia].
        destruct (decide (size (filter (relays_for u) m) = 0)%nat) as [Hz|]; [|lia].
        apply map_size_empty_inv in Hz. exfalso.
        assert (filter (relays_for u) m !! id = Some s0) as F by (by apply map_lookup_filter_Some).
        by rewrite Hz, lookup_empty in F.
      + rewrite map_size_delete_None; [cbn [Z.b2z]; lia|]. apply map_lookup_filter_None. right.
        intros x Hx. rewrite E in Hx. injection Hx as <-. done.
    - rewrite map_size_delete_None; [cbn [Z.b2z]; lia|]. apply map_lookup_filter_None. by left. }
  rewrite <-Hd, <-insert_delete_eq. cbn [is_relaying]. case_bool_decide as Hp.
  - rewrite map_filter_insert_True by done. rewrite map_size_insert_None; [cbn [Z.b2z]; lia|].
    apply map_lookup_filter_None. left. apply lookup_delete_eq.
  - rewrite map_filter_insert_False, delete_delete_eq by done. cbn [Z.b2z]. lia.
Qed.

Lemma relaying_delete (m : gmap nat session) id u :
  is_relaying (m !! id) u = false ->
  size (filter (relays_for u) (delete id m)) = size (filter (relays_for u) m).
Proof.
  intros E. rewrite map_filter_delete. apply map_size_delete_None, map_lookup_filter_None. right.
  intros x Hx. rewrite Hx in E. cbn in E. by apply bool_decide_eq_false in E.
Qed.

(** ** The accounting is right in every reachable state *)

(** After at most [n] actions: nobody over an address limit, and the count of the statistics is the
    number of sessions that relay. *)
Definition accounted (n : Z) (w : world) : Prop :=
  within_limits (w_tracker w) /\ telemetry_user_enabled (w_stats w) = true /\
  forall u, get_user_curr_connects (w_stats w) u = relaying w u /\ relaying w u <= n.

Lemma check_within user config now stats ip tracker :
  within_limits tracker -> within_limits (snd (check_user_limits_static user config now stats ip tracker)).
Proof.
  intros Hw. unfold check_user_limits_static. pose proof (check_and_add_within tracker user ip Hw) as H.
  destruct (check_and_add tracker user ip) as [[]]; cbn [snd] in H; by case_tests.
Qed.

Lemma relaying_set_phase tracker stats w id s p u :
  w_sessions w !! id = Some s ->
  relaying (mkWorld tracker stats (set_phase w id s p)) u =
    relaying w u - Z.b2z (bool_decide (ss_user s = u /\ ss_phase s = Relaying))
                 + Z.b2z (bool_decide (ss_user s = u /\ p = Relaying)).
Proof. intros E. unfold relaying, set_phase. cbn [w_sessions]. rewrite relaying_insert, E. done. Qed.

Lemma relaying_nonneg w u : 0 <= relaying w u.
Proof. unfold relaying. lia. Qed.

Lemma start_relay_accounted n w id s :
  accounted n w -> n + 1 < 2 ^ 64 -> w_sessions w !! id = Some s -> ss_phase s = Connecting ->
  accounted (n + 1) (mkWorld (w_tracker w)
    (increment_user_curr_connects (increment_user_connects (w_stats w) (ss_user s)) (ss_user s)) (set_phase w id s Relaying)).
Proof.
  intros (Hw & He & Hc) Hn Es Hp. split_and!; [done| |].
  { cbn [w_stats]. unfold increment_user_curr_connects, increment_user_connects. rewrite He. cbn [negb].
    change (telemetry_user_enabled (entry_update _ _ _)) with (telemetry_user_enabled (w_stats w)). by rewrite He. }
  intros u. destruct (Hc u) as [E1 E2]. rewrite relaying_set_phase by done. cbn [w_stats].
  rewrite start_relay_curr by done. rewrite Hp, (bool_decide_false (_ /\ Connecting = Relaying)) by naive_solver.
  pose proof (relaying_nonneg w u). case_decide as Eu.
  - subst u. rewrite bool_decide_true by done. cbn [Z.b2z]. rewrite E1. unfold u64. rewrite Z.mod_small; lia.
  - rewrite bool_decide_false by naive_solver. cbn [Z.b2z]. lia.
Qed.

Lemma finish_relay_accounted n w id s :
  accounted n w -> w_sessions w !! id = Some s -> ss_phase s = Relaying ->
  accounted (n + 1) (mkWorld (w_tracker w) (decrement_user_curr_connects (w_stats w) (ss_user s)) (set_phase w id s Leaving)).
Proof.
  intros (Hw & He & Hc) Es Hp. split_and!; [done|by cbn; rewrite decrement_enabled|]. intros u. destruct (Hc u) as [E1 E2].
  pose proof (relaying_set_phase (w_tracker w) (decrement_user_curr_connects (w_stats w) (ss_user s)) w id s Leaving u Es) as R.
  pose proof (relaying_nonneg (mkWorld (w_tracker w) (decrement_user_curr_connects (w_stats w) (ss_user s))
    (set_phase w id s Leaving)) u) as Hnn.
  rewrite Hp, (bool_decide_false (_ /\ Leaving = Relaying)) in R by naive_solver. cbn [w_stats]. rewrite decrement_curr.
  destruct (decide (u = ss_user s)) as [Eu|Eu].
  - subst u. rewrite bool_decide_true in R by done. cbn [Z.b2z] in R. rewrite E1.
    destruct (Z.eqb_spec (relaying w (ss_user s)) 0); lia.
  - rewrite bool_decide_false in R by naive_solver. cbn [Z.b2z] in R. lia.
Qed.

Lemma connect_accounted n w id user ip config now :
  accounted n w -> w_sessions w !! id = None ->
  let '(r, tracker) := check_user_limits_static user config now (w_stats w) ip (w_tracker w) in
  accounted (n + 1) (mkWorld tracker (w_stats w)
    (if is_ok r then <[id := mkSession user ip Connecting]> (w_sessions w) else w_sessions w)).
Proof.
  intros (Hw & He & Hc) Es. pose proof (check_within user config now (w_stats w) ip _ Hw) as Hw'.
  destruct (check_user_limits_static _ _ _ _ _ _) as [r tr]. cbn [snd] in Hw'.
  split_and!; [done|done|]. intros u. destruct (Hc u) as [E1 E2]. cbn [w_stats]. unfold relaying. cbn [w_sessions].
  destruct (is_ok r); [|unfold relaying in *; lia]. rewrite relaying_insert, Es. cbn [is_relaying ss_user ss_phase].
  rewrite bool_decide_false by naive_solver. cbn [Z.b2z]. unfold relaying in *. lia.
Qed.

Lemma act_accounted config n w a w' :
  accounted n w -> n + 1 < 2 ^ 64 -> act config w a = Some w' -> accounted (n + 1) w'.
Proof.
  intros Hacc Hn Ha. pose proof Hacc as (Hw & He & Hc).
  destruct a as [id user ip now|id|id from to|id|id]; cbn in Ha;
    destruct (w_sessions w !! id) as [s|] eqn:Es; try done.
  - pose proof (connect_accounted n w id user ip config now Hacc Es) as H.
    destruct (check_user_limits_static _ _ _ _ _ _) as [r tr]. by injection Ha as <-.
  - case_decide; [|done]. injection Ha as <-. by apply start_relay_accounted.
  - case_decide as Hp; [|done]. injection Ha as <-.
    split_and!; [done|cbn [w_stats]; by rewrite (proj2 (octets_keep_curr _ _ _ _ (ss_user s)))|]. intros u.
    cbn [w_stats]. rewrite (proj1 (octets_keep_curr _ _ _ _ u)). destruct (Hc u). unfold relaying in *. cbn [w_sessions]. lia.
  - destruct (ss_phase s) eqn:Hp; [..|done]; injection Ha as <-; [|by apply finish_relay_accounted].
    split_and!; [done|done|]. intros u. destruct (Hc u). rewrite relaying_set_phase by done. cbn [w_stats].
    rewrite Hp, !bool_decide_false by naive_solver. cbn [Z.b2z]. lia.
  - case_decide as Hp; [|done]. injection Ha as <-. split_and!; [by apply remove_ip_within|done|].
    intros u. destruct (Hc u). unfold relaying in *. cbn [w_sessions w_stats]. rewrite relaying_delete; [lia|].
    rewrite Es. cbn. apply bool_decide_false. rewrite Hp. naive_solver.
Qed.

Lemma run_app config w acts a : run config w (acts ++ [a]) = run config w acts ≫= fun w => act config w a.
Proof. unfold run. by rewrite foldl_app. Qed.

Lemma start_accounted limits stats :
  telemetry_user_enabled stats = true -> user_stats stats = ∅ -> accounted 0 (start limits stats).
Proof.
  intros He Hu. split_and!; [apply within_limits_empty|done|]. intros u. unfold get_user_curr_connects, relaying.
  cbn. rewrite Hu, lookup_empty, map_filter_empty. done.
Qed.

Lemma run_accounted config w acts w' :
  accounted 0 w -> zlen acts < 2 ^ 64 -> run config w acts = Some w' -> accounted (zlen acts) w'.
Proof.
  intros Hw. revert w'. induction acts as [|a acts IH] using rev_ind; intros w' Hl Hr.
  - unfold run in Hr. cbn in Hr. injection Hr as <-. done.
  - rewrite zlen_app in *. change (zlen [a]) with 1 in *. rewrite run_app in Hr.
    destruct (run config w acts) as [w1|]; [|done]. cbn in Hr.
    eapply act_accounted; [apply IH; [lia|done]|lia|done].
Qed.

(** C24: in a process that starts with no user counted and has per-user telemetry switched on
    ([telemetry_user_enabled], the default; switched off nothing is counted and the limits on
    connections and quota are void, see [telemetry_off_disables_limits]), in whatever order fewer than
    2^64 times clients connect, relay and leave, no user ever has more addresses in the tracker than
    the limit, and the connection count of the statistics (which the connection limit is checked
    against) is exactly the number of the user's relaying sessions. *)
Theorem session_accounting config limits stats acts w :
  telemetry_user_enabled stats = true -> user_stats stats = ∅ -> zlen acts < 2 ^ 64 ->
  run config (start limits stats) acts = Some w ->
  within_limits (w_tracker w) /\ forall u, get_user_curr_connects (w_stats w) u = relaying w u.
Proof.
  intros He Hu Hl Hr. destruct (run_accounted config _ acts w (start_accounted limits stats He Hu) Hl Hr) as (H1 & _ & H3).
  split; [done|]. intros u. apply H3.
Qed.

(** ** The connection limit *)

(** Clients one at a time: a client that passes the check is relaying before the next one is checked. *)
Definition act_serial (config : AccessLimits) (w : world) (a : action) : option world :=
  match a with
  | StartRelay _ => None
  | Connect id _ _ _ =>
      w ← act config w a;
      match w_sessions w !! id with Some _ => act config w (StartRelay id) | None => Some w end
  | _ => act config w a
  end.

Definition run_serial (config : AccessLimits) (w : world) (acts : list action) : option world :=
  foldl (fun ow a => w ← ow; act_serial config w a) (Some w) acts.

Definition conns_within (config : AccessLimits) (w : world) : Prop :=
  forall u limit, user_max_tcp_conns config !! u = Some limit -> 0 <= limit -> relaying w u <= limit.

(** Every action but the start of a relay leaves no user with more relaying sessions. *)
Lemma act_relaying_le config w a w' u :
  act config w a = Some w' -> (forall id, a <> StartRelay id) -> relaying w' u <= relaying w u.
Proof.
  intros Ha Hn. destruct a as [id user ip now|id|id from to|id|id]; cbn in Ha;
    destruct (w_sessions w !! id) as [s|] eqn:Es; try done.
  - destruct (check_user_limits_static _ _ _ _ _ _) as [r tr]. injection Ha as <-. unfold relaying. cbn [w_sessions].
    destruct (is_ok r); [|lia]. rewrite relaying_insert, Es. cbn [is_relaying ss_user ss_phase].
    rewrite bool_decide_false by naive_solver. cbn [Z.b2z]. lia.
  - by destruct (Hn id).
  - case_decide; [|done]. by injection Ha as <-.
  - destruct (ss_phase s) eqn:Hp; [..|done]; injection Ha as <-; rewrite relaying_set_phase by done;
      rewrite (bool_decide_false (_ /\ Leaving = Relaying)) by naive_solver; destruct (bool_decide _); cbn [Z.b2z]; lia.
  - case_decide as Hp; [|done]. injection Ha as <-. unfold relaying. cbn [w_sessions]. rewrite relaying_delete; [done|].
    rewrite Es. cbn. apply bool_decide_false. rewrite Hp. naive_solver.
Qed.

Lemma connect_admitted config w id user ip now w1 s :
  act config w (Connect id user ip now) = Some w1 -> w_sessions w1 !! id = Some s ->
  s = mkSession user ip Connecting /\ w_stats w1 = w_stats w /\
  below (user_max_tcp_conns config) (get_user_curr_connects (w_stats w) user) user.
Proof.
  cbn. destruct (w_sessions w !! id) eqn:Es; [done|].
  pose proof (check_user_limits_cases user config now (w_stats w) ip (w_tracker w)) as Hx.
  destruct (check_user_limits_static _ _ _ _ _ _) as [r tr]. cbv zeta in Hx. intros [= <-]. cbn [w_sessions w_stats].
  destruct r as [[]|e]; cbn [is_ok]; [|congruence]. rewrite lookup_insert_eq. intros [= <-]. tauto.
Qed.

Lemma act_serial_within config n w a w' :
  accounted n w -> n + 2 < 2 ^ 64 -> conns_within config w -> act_serial config w a = Some w' ->
  accounted (n + 2) w' /\ conns_within config w'.
Proof.
  intros Hacc Hn Hcw Ha.
  assert (forall m m' x, accounted m x -> m <= m' -> accounted m' x) as Hmono.
  { intros m m' x (? & ? & Hx) ?. split_and!; [done|done|]. intros u. destruct (Hx u). lia. }
  assert (forall a x, (forall id, a <> StartRelay id) -> act config w a = Some x -> conns_within config x) as Hkeep.
  { intros a0 x Hne Hax u limit Hl Hp. pose proof (act_relaying_le config w a0 x u Hax Hne). specialize (Hcw u limit Hl Hp). lia. }
  destruct a as [id user ip now|id|id from to|id|id]; cbn [act_serial] in Ha; [|done|..];
    [|by (split; [eapply Hmono; [eapply act_accounted; [exact Hacc|lia|exact Ha]|lia]|eapply Hkeep; [|exact Ha]; done])..].
  destruct (act config w (Connect id user ip now)) as [w1|] eqn:E1; [|done]. cbn [mbind option_bind] in Ha.
  assert (accounted (n + 1) w1) as Hacc1 by (eapply act_accounted; [exact Hacc|lia|exact E1]).
  destruct (w_sessions w1 !! id) as [s|] eqn:Es.
  2: { injection Ha as <-. split; [by eapply Hmono; [exact Hacc1|lia]|by eapply Hkeep; [|exact E1]]. }
  destruct (connect_admitted config w id user ip now w1 s E1 Es) as (-> & Est & Hb).
  split; [replace (n + 2) with (n + 1 + 1) by lia; eapply act_accounted; [exact Hacc1|lia|exact Ha]|].
  cbn in Ha. rewrite Es in Ha. cbn in Ha. injection Ha as <-. intros u limit Hl Hp.
  rewrite relaying_set_phase by done. cbn [ss_user ss_phase]. rewrite bool_decide_false by naive_solver.
  pose proof (act_relaying_le config w _ w1 u E1 ltac:(done)) as Hle. case_bool_decide as Eu; cbn [Z.b2z].
  - destruct Eu as [<- _]. unfold below in Hb. rewrite Hl in Hb. destruct Hacc as (_ & _ & Hc). destruct (Hc user) as [Hcu _]. lia.
  - specialize (Hcw u limit Hl Hp). lia.
Qed.

(** Who passes the check. *)
Lemma check_ok_iff user config now stats ip tracker :
  fst (check_user_limits_static user config now stats ip tracker) = Ok tt <->
  ~ expired config now user /\ admits tracker user ip /\
  below (user_max_tcp_conns config) (get_user_curr_connects stats user) user /\
  below (user_data_quota config) (get_user_total_octets stats user) user.
Proof.
  pose proof (check_user_limits_cases user config now stats ip tracker) as H.
  destruct (check_user_limits_static user config now stats ip tracker) as [r t]. cbv zeta in H. destruct H as [H _].
  cbn [fst]. destruct r as [[]|e]; [tauto|]. split; [done|]. intros (Hx & Ha & Hc & Hq). destruct e; tauto.
Qed.

(** The invariant of clients that are admitted one at a time. *)
Lemma run_serial_within config limits stats acts w :
  telemetry_user_enabled stats = true -> user_stats stats = ∅ -> 2 * zlen acts < 2 ^ 64 ->
  run_serial config (start limits stats) acts = Some w ->
  accounted (2 * zlen acts) w /\ conns_within config w.
Proof.
  intros He Hu. pose proof (start_accounted limits stats He Hu) as H0.
  revert w. induction acts as [|a acts IH] using rev_ind; intros w Hl Hr.
  { unfold run_serial in Hr. cbn in Hr. injection Hr as <-. split; [done|]. intros u limit _ Hp.
    unfold relaying, start. cbn. by rewrite map_filter_empty. }
  rewrite zlen_app in *. change (zlen [a]) with 1 in *. unfold run_serial in *. rewrite foldl_app in Hr. cbn [foldl] in Hr.
  destruct (foldl _ (Some (start limits stats)) acts) as [w1|]; [|done]. cbn [mbind option_bind] in Hr.
  destruct (IH w1 ltac:(lia) eq_refl) as [Ha Hc].
  replace (2 * (zlen acts + 1)) with (2 * zlen acts + 2) by lia. eapply act_serial_within; [exact Ha|lia|done|done].
Qed.

(** C38: in a process that starts with no user counted and has per-user telemetry switched on, as long
    as every admitted client is relaying before the next one is checked, no user ever has more relaying
    sessions than its configured number of connections, whoever connects, relays and leaves in whatever
    order; and the next client is let in exactly when its account has not expired, its address is known
    or fits the limit on addresses, fewer of the user's sessions relay than it may have, and the quota
    is not used up. (Clients that are checked together can exceed the limit:
    [limits_can_be_evaded].) *)
Theorem conn_limit_serial config limits stats acts w :
  telemetry_user_enabled stats = true -> user_stats stats = ∅ -> 2 * zlen acts < 2 ^ 64 ->
  run_serial config (start limits stats) acts = Some w ->
  conns_within config w /\
  forall user now ip,
    fst (check_user_limits_static user config now (w_stats w) ip (w_tracker w)) = Ok tt <->
    ~ expired config now user /\ admits (w_tracker w) user ip /\
    below (user_max_tcp_conns config) (relaying w user) user /\
    below (user_data_quota config) (get_user_total_octets (w_stats w) user) user.
Proof.
  intros He Hu Hl Hr. destruct (run_serial_within config limits stats acts w He Hu Hl Hr) as [(_ & _ & Ha) Hc].
  split; [done|]. intros user now ip. rewrite check_ok_iff. by rewrite (proj1 (Ha user)).
Qed.

(** ** Where the limits do not hold *)

Definition demo_ip (n : Z) : IpAddr := V4 [10; 0; 0; n].
Definition one_ip : gmap string Z := {["alice"%string := 1]}.
Definition one_conn : AccessLimits := mkAccessLimits ∅ {["alice"%string := 1]} ∅.
Definition no_access_limits : AccessLimits := mkAccessLimits ∅ ∅ ∅.

(** Two sessions from one address; when the first of them ends, the address is forgotten although the
    second goes on, and another address is admitted. *)
Definition shared_address : list action :=
  [Connect 0 "alice" (demo_ip 1) 0; StartRelay 0; Connect 1 "alice" (demo_ip 1) 0; StartRelay 1;
   Finish 0; Cleanup 0; Connect 2 "alice" (demo_ip 2) 0; StartRelay 2].

(** A client that the connection limit refuses after its address was entered; the address stays when
    everybody has left. *)
Definition refused_address : list action :=
  [Connect 0 "alice" (demo_ip 1) 0; StartRelay 0; Connect 1 "alice" (demo_ip 2) 0; Finish 0; Cleanup 0].

(** Two clients that are checked before either of them is counted. *)
Definition checked_together : list action :=
  [Connect 0 "alice" (demo_ip 1) 0; Connect 1 "alice" (demo_ip 1) 0; StartRelay 0; StartRelay 1].

(** The limits are evaded in three ways that the interleaving of sessions allows: with a limit of
    one address a user relays from two (an address shared by two sessions is released by the first
    that ends); a client that is refused for its number of connections leaves its address behind,
    so that it is still held when no session is left; and with a limit of one connection two
    clients relay (both were checked before either was counted). *)
Example limits_can_be_evaded :
  (exists w, run no_access_limits (start one_ip Stats_new) shared_address = Some w /\
     max_ips (w_tracker w) !! "alice"%string = Some 1 /\ zsize (live_ips w "alice") = 2) /\
  (exists w, run one_conn (start {["alice"%string := 2]} Stats_new) refused_address = Some w /\
     w_sessions w = ∅ /\ is_ip_active (w_tracker w) "alice" (demo_ip 2) = true) /\
  (exists w, run one_conn (start ∅ Stats_new) checked_together = Some w /\ relaying w "alice" = 2).
Proof.
  split_and!; (eexists; split; [vm_compute; reflexivity|]); split_and?; vm_compute; reflexivity.
Qed.

(** With per-user telemetry switched off nothing is counted, so neither the connection limit nor the
    quota ever refuses anybody. *)
Lemma disabled_counts_nothing s u from to :
  telemetry_user_enabled s = false ->
  increment_user_curr_connects (increment_user_connects s u) u = s /\
  add_user_octets_to (add_user_octets_from s u from) u to = s.
Proof.
  intros E. unfold increment_user_curr_connects, increment_user_connects, add_user_octets_to, add_user_octets_from.
  rewrite !hot_update_entry, E. cbn [negb]. by rewrite !E.
Qed.

Theorem telemetry_off_disables_limits user config now stats ip tracker :
  telemetry_user_enabled stats = false -> user_stats stats = ∅ ->
  (forall l, user_max_tcp_conns config !! user = Some l -> 0 < l) ->
  (forall q, user_data_quota config !! user = Some q -> 0 < q) ->
  ~ expired config now user -> admits tracker user ip ->
  fst (check_user_limits_static user config now stats ip tracker) = Ok tt.
Proof.
  intros He Hu Hl Hq Hx Ha. apply check_ok_iff.
  assert (get_user_curr_connects stats user = 0) as E1 by (unfold get_user_curr_connects; by rewrite Hu, lookup_empty).
  assert (get_user_total_octets stats user = 0) as E2 by (unfold get_user_total_octets; by rewrite Hu, lookup_empty).
  rewrite E1, E2. unfold below. split_and!; [done|done|..].
  - destruct (user_max_tcp_conns config !! user) as [l|]; [by apply Hl|done].
  - destruct (user_data_quota config !! user) as [q|]; [by apply Hq|done].
Qed.

Lemma session_accounting_witness :
  exists w, run no_access_limits (start one_ip Stats_new) shared_address = Some w /\
    within_limits (w_tracker w) /\ forall u, get_user_curr_connects (w_stats w) u = relaying w u.
Proof.
  eexists. split; [vm_compute; reflexivity|].
  apply (session_accounting no_access_limits one_ip Stats_new shared_address); [reflexivity|reflexivity|vm_compute; reflexivity|].
  vm_compute. reflexivity.
Defined.

(** Three clients one after the other with a limit of one connection: the second is refused. *)
Definition one_after_another : list action :=
  [Connect 0 "alice" (demo_ip 1) 0; Connect 1 "alice" (demo_ip 1) 0; Finish 0; Cleanup 0; Connect 2 "alice" (demo_ip 3) 0].

Lemma conn_limit_serial_witness :
  exists w, run_serial one_conn (start one_ip Stats_new) one_after_another = Some w /\ relaying w "alice" = 1 /\
    conns_within one_conn w.
Proof.
  eexists. split; [vm_compute; reflexivity|]. split; [vm_compute; reflexivity|].
  apply (conn_limit_serial one_conn one_ip Stats_new one_after_another); [reflexivity|reflexivity|vm_compute; reflexivity|].
  vm_compute. reflexivity.
Defined.
