(* ===== verification/Wire.v ===== *)
(** * Proxy requests on the wire: [transport/middle_proxy/wire.rs] *)

From S2P Require Import Prelude Constants NetAddr.

(** ** [extract_ip_material] (wire.rs:5-23) *)

Inductive IpMaterial := MV4 (octets : bytes) | MV6 (octets : bytes).

Definition extract_ip_material (addr : SocketAddr) : IpMaterial :=
  match sa_ip addr with
  | V4 v4 => MV4 v4
  | V6 v6 => match to_ipv4_mapped v6 with Some v4 => MV4 v4 | None => MV6 v6 end
  end.

(** ** [build_proxy_req_payload] (wire.rs:25-90) *)

Definition ipv4_to_mapped_v6_c_compat (ip : bytes) : bytes :=
  let buf := zrepeat 16 0 in
  let buf := splice buf 8 (le_bytes 4 (- 0x10000)) in
  splice buf 12 ip.

Definition append_mapped_addr_and_port (buf : bytes) (addr : SocketAddr) : bytes :=
  let buf :=
    match sa_ip addr with
    | V4 v4 => buf ++ ipv4_to_mapped_v6_c_compat v4
    | V6 v6 => buf ++ v6
    end in
  buf ++ le_bytes 4 (sa_port addr).

(** The TL encoding of the proxy tag, as it is appended. *)
Definition append_proxy_tag (b tag : bytes) : bytes :=
  let b := b ++ le_bytes 4 TL_PROXY_TAG_U32 in
  if zlen tag <? 254 then
    let b := b ++ [u8 (zlen tag)] in
    let b := b ++ tag in
    let pad := (4 - (1 + zlen tag) mod 4) mod 4 in
    b ++ zrepeat pad 0
  else
    let b := b ++ [0xfe] in
    let len_bytes := le_bytes 4 (u32 (zlen tag)) in
    let b := b ++ ztake 3 len_bytes in
    let b := b ++ tag in
    let pad := (4 - zlen tag mod 4) mod 4 in
    b ++ zrepeat pad 0.

Definition build_proxy_req_payload (conn_id : Z) (client_addr our_addr : SocketAddr) (data : bytes)
    (proxy_tag : option bytes) (proto_flags : Z) : bytes :=
  let b := le_bytes 4 RPC_PROXY_REQ_U32 in
  let b := b ++ le_bytes 4 proto_flags in
  let b := b ++ le_bytes 8 conn_id in
  let b := append_mapped_addr_and_port b client_addr in
  let b := append_mapped_addr_and_port b our_addr in
  let b :=
    if negb (Z.land proto_flags RPC_FLAG_HAS_AD_TAG =? 0) then
      let extra_start := zlen b in
      let b := b ++ le_bytes 4 0 in
      let b := match proxy_tag with Some tag => append_proxy_tag b tag | None => b end in
      let extra_bytes := u32 (zlen b - extra_start - 4) in
      splice b extra_start (le_bytes 4 extra_bytes)
    else b in
  b ++ data.

(** ** [proto_flags_for_tag] (wire.rs:92-105) *)

Definition proto_flags_for_tag (tag : ProtoTag) (has_proxy_tag : bool) : Z :=
  let flags := Z.lor RPC_FLAG_MAGIC RPC_FLAG_EXTMODE2 in
  let flags := if has_proxy_tag then Z.lor flags RPC_FLAG_HAS_AD_TAG else flags in
  match tag with
  | Abridged => Z.lor flags RPC_FLAG_ABRIDGED
  | Intermediate => Z.lor flags RPC_FLAG_INTERMEDIATE
  | Secure => Z.lor (Z.lor flags RPC_FLAG_PAD) RPC_FLAG_INTERMEDIATE
  end.

(** ** A reference decoder

    The request as the receiving side defines it: fixed fields, then, when the flags say so, a
    length-prefixed block of extra TL data, then the client's data. *)

Record ProxyReq := mkProxyReq {
  pr_flags : Z;
  pr_conn_id : Z;
  pr_client : bytes * Z;
  pr_our : bytes * Z;
  pr_tag : option bytes;
  pr_data : bytes
}.

(** A TL byte string: its contents, and what follows its padding. *)
Definition tl_string (d : bytes) : option (bytes * bytes) :=
  match d with
  | [] => None
  | b :: rest =>
      if b <? 254 then
        let used := 1 + b in
        if zlen d <? used + (4 - used mod 4) mod 4 then None
        else Some (ztake b rest, zdrop (used + (4 - used mod 4) mod 4) d)
      else
        let n := le_val (slice d 1 4) in
        let used := 4 + n in
        if zlen d <? used + (4 - used mod 4) mod 4 then None
        else Some (slice d 4 used, zdrop (used + (4 - used mod 4) mod 4) d)
  end.

Definition tl_proxy_tag (extra : bytes) : option (option bytes) :=
  if zlen extra =? 0 then Some None
  else if le_val (ztake 4 extra) =? TL_PROXY_TAG_U32 then
    match tl_string (zdrop 4 extra) with
    | Some (tag, []) => Some (Some tag)
    | _ => None
    end
  else None.

Definition parse_proxy_req (d : bytes) : option ProxyReq :=
  if zlen d <? 56 then None
  else if negb (le_val (slice d 0 4) =? RPC_PROXY_REQ_U32) then None
  else
    let flags := le_val (slice d 4 8) in
    let conn_id := le_val (slice d 8 16) in
    let client := (slice d 16 32, le_val (slice d 32 36)) in
    let our := (slice d 36 52, le_val (slice d 52 56)) in
    let rest := zdrop 56 d in
    if negb (Z.land flags RPC_FLAG_HAS_AD_TAG =? 0) then
      if zlen rest <? 4 then None
      else
        let n := le_val (ztake 4 rest) in
        if zlen rest <? 4 + n then None
        else
          tag ← tl_proxy_tag (slice rest 4 (4 + n));
          Some (mkProxyReq flags conn_id client our tag (zdrop (4 + n) rest))
    else Some (mkProxyReq flags conn_id client our None rest).

(** The 16 octets an address is sent as: an IPv4 address in its mapped form. *)
Definition mapped_octets (a : SocketAddr) : bytes :=
  match sa_ip a with V4 o => zrepeat 10 0 ++ [0xff; 0xff] ++ o | V6 o => o end.

(** ** Facts *)

Lemma zlen_mapped_octets a : addr_ok a -> zlen (mapped_octets a) = 16 /\ bytes_ok (mapped_octets a).
Proof.
  intros [Ha _]. unfold mapped_octets. destruct (sa_ip a) as [o|o], Ha as [Hl Hok]; [|done].
  rewrite !zlen_app, Hl. split; [done|]. apply bytes_ok_app. split; [|by repeat constructor].
  apply (bool_decide_unpack _). vm_compute. exact I.
Qed.

Lemma append_mapped_eq b a :
  addr_ok a -> append_mapped_addr_and_port b a = b ++ mapped_octets a ++ le_bytes 4 (sa_port a).
Proof.
  intros [Ha _]. unfold append_mapped_addr_and_port, mapped_octets. destruct (sa_ip a) as [o|o]; [|by rewrite <-app_assoc].
  destruct Ha as [Hl%(zlen_length _ 4) _]. destruct o as [|o0 [|o1 [|o2 [|o3 [|]]]]]; try done.
  by rewrite <-app_assoc.
Qed.

(** The extra block for a tag. *)
Definition tag_extra (tag : bytes) : bytes := append_proxy_tag [] tag.

Lemma append_proxy_tag_app b tag : append_proxy_tag b tag = b ++ tag_extra tag.
Proof. unfold tag_extra, append_proxy_tag. destruct (_ <? _); by rewrite <-!app_assoc. Qed.

Lemma tag_extra_short tag :
  bytes_ok tag -> zlen tag < 254 ->
  tl_proxy_tag (tag_extra tag) = Some (Some tag) /\ zlen (tag_extra tag) mod 4 = 0 /\
  0 <= zlen (tag_extra tag) < 2 ^ 32.
Proof.
  intros Hok Hs. pose proof (zlen_nonneg tag). unfold tag_extra, append_proxy_tag.
  destruct (Z.ltb_spec (zlen tag) 254); [|lia].
  set (pad := (4 - (1 + zlen tag) mod 4) mod 4).
  assert (0 <= pad < 4 /\ (1 + zlen tag + pad) mod 4 = 0) as [Hp Hp4]
    by (unfold pad; split; [apply Z.mod_pos_bound|Z.div_mod_to_equations]; lia).
  assert (u8 (zlen tag) = zlen tag) as -> by (unfold u8; rewrite Z.mod_small; lia).
  assert (zlen (((([] ++ le_bytes 4 TL_PROXY_TAG_U32) ++ [zlen tag]) ++ tag) ++ zrepeat pad 0) = 5 + zlen tag + pad) as Hlen.
  { rewrite !zlen_app, zlen_zrepeat, zlen_le_bytes. change (zlen [zlen tag]) with 1. change (zlen (@nil Z)) with 0. lia. }
  rewrite Hlen. split_and!; [|Z.div_mod_to_equations; lia|lia|lia].
  unfold tl_proxy_tag. rewrite Hlen. destruct (Z.eqb_spec (5 + zlen tag + pad) 0); [lia|].
  rewrite <-!app_assoc. change ([] ++ le_bytes 4 TL_PROXY_TAG_U32 ++ ?x) with (le_bytes 4 TL_PROXY_TAG_U32 ++ x).
  cbn [app]. rewrite ztake_app, zdrop_app by done. change (le_val (le_bytes 4 TL_PROXY_TAG_U32) =? TL_PROXY_TAG_U32) with true.
  cbn iota. unfold tl_string. cbn [app]. destruct (Z.ltb_spec (zlen tag) 254); [|lia]. fold pad.
  rewrite zlen_cons, zlen_app, zlen_zrepeat. destruct (Z.ltb_spec (1 + (zlen tag + Z.max 0 pad)) (1 + zlen tag + pad)); [lia|].
  rewrite ztake_app by done. rewrite zdrop_all; [done|]. rewrite zlen_cons, zlen_app, zlen_zrepeat. lia.
Qed.

Lemma tag_extra_long tag :
  bytes_ok tag -> 254 <= zlen tag < 2 ^ 24 ->
  tl_proxy_tag (tag_extra tag) = Some (Some tag) /\ zlen (tag_extra tag) mod 4 = 0 /\
  0 <= zlen (tag_extra tag) < 2 ^ 32.
Proof.
  intros Hok Hs. pose proof (zlen_nonneg tag). unfold tag_extra, append_proxy_tag.
  destruct (Z.ltb_spec (zlen tag) 254); [lia|].
  set (pad := (4 - zlen tag mod 4) mod 4).
  assert (0 <= pad < 4 /\ (zlen tag + pad) mod 4 = 0) as [Hp Hp4]
    by (unfold pad; split; [apply Z.mod_pos_bound|Z.div_mod_to_equations]; lia).
  assert (u32 (zlen tag) = zlen tag) as -> by (unfold u32; rewrite Z.mod_small; lia).
  change (ztake 3 (le_bytes 4 (zlen tag))) with (le_bytes 3 (zlen tag)).
  assert (zlen ((((([] ++ le_bytes 4 TL_PROXY_TAG_U32) ++ [254]) ++ le_bytes 3 (zlen tag)) ++ tag) ++ zrepeat pad 0) = 8 + zlen tag + pad) as Hlen.
  { rewrite !zlen_app, zlen_zrepeat, !zlen_le_bytes. change (zlen [254]) with 1. change (zlen (@nil Z)) with 0. lia. }
  rewrite Hlen. split_and!; [|Z.div_mod_to_equations; lia|lia|lia].
  unfold tl_proxy_tag. rewrite Hlen. destruct (Z.eqb_spec (8 + zlen tag + pad) 0); [lia|].
  rewrite <-!app_assoc. cbn [app]. rewrite ztake_app, zdrop_app by done.
  change (le_val (le_bytes 4 TL_PROXY_TAG_U32) =? TL_PROXY_TAG_U32) with true.
  cbn iota. unfold tl_string. change (254 <? 254) with false. cbn iota.
  change (254 :: le_bytes 3 (zlen tag) ++ tag ++ zrepeat pad 0) with ([254] ++ le_bytes 3 (zlen tag) ++ tag ++ zrepeat pad 0).
  rewrite (slice_mid [254] (le_bytes 3 (zlen tag))) by done.
  rewrite le_val_le_bytes_small by (cbn; lia).
  assert ((4 - (4 + zlen tag) mod 4) mod 4 = pad) as -> by (unfold pad; Z.div_mod_to_equations; lia).
  rewrite !zlen_app, zlen_zrepeat, zlen_le_bytes. change (zlen [254]) with 1.
  destruct (Z.ltb_spec (1 + (Z.of_nat 3 + (zlen tag + Z.max 0 pad))) (4 + zlen tag + pad)); [lia|].
  assert (slice ([254] ++ le_bytes 3 (zlen tag) ++ tag ++ zrepeat pad 0) 4 (4 + zlen tag) = tag) as ->
    by by apply (slice_mid ([254] ++ le_bytes 3 (zlen tag))).
  rewrite zdrop_all; [done|]. rewrite !zlen_app, zlen_zrepeat, zlen_le_bytes. change (zlen [254]) with 1. lia.
Qed.

Lemma tag_extra_decodes tag :
  bytes_ok tag -> zlen tag < 2 ^ 24 ->
  tl_proxy_tag (tag_extra tag) = Some (Some tag) /\ zlen (tag_extra tag) mod 4 = 0 /\
  0 <= zlen (tag_extra tag) < 2 ^ 32.
Proof.
  intros Hok Hl. destruct (Z.lt_ge_cases (zlen tag) 254); [by apply tag_extra_short|by apply tag_extra_long].
Qed.

(** The 56 bytes every request starts with. *)
Definition req_head (conn_id : Z) (client_addr our_addr : SocketAddr) (proto_flags : Z) : bytes :=
  le_bytes 4 RPC_PROXY_REQ_U32 ++ le_bytes 4 proto_flags ++ le_bytes 8 conn_id ++
  mapped_octets client_addr ++ le_bytes 4 (sa_port client_addr) ++
  mapped_octets our_addr ++ le_bytes 4 (sa_port our_addr).

Lemma build_proxy_req_eq conn_id client_addr our_addr data proxy_tag proto_flags :
  addr_ok client_addr -> addr_ok our_addr ->
  let extra := match proxy_tag with Some tag => tag_extra tag | None => [] end in
  build_proxy_req_payload conn_id client_addr our_addr data proxy_tag proto_flags =
    req_head conn_id client_addr our_addr proto_flags ++
    (if negb (Z.land proto_flags RPC_FLAG_HAS_AD_TAG =? 0) then le_bytes 4 (u32 (zlen extra)) ++ extra else []) ++ data.
Proof.
  intros Hc Ho. unfold build_proxy_req_payload. rewrite !append_mapped_eq by done.
  assert (((((le_bytes 4 RPC_PROXY_REQ_U32 ++ le_bytes 4 proto_flags) ++ le_bytes 8 conn_id) ++ mapped_octets client_addr ++
    le_bytes 4 (sa_port client_addr)) ++ mapped_octets our_addr ++ le_bytes 4 (sa_port our_addr)) =
    req_head conn_id client_addr our_addr proto_flags) as -> by (unfold req_head; by rewrite <-!app_assoc).
  set (H := req_head _ _ _ _). destruct (negb _); [|by rewrite app_nil_l]. cbn zeta.
  set (extra := match proxy_tag with Some tag => tag_extra tag | None => [] end).
  assert ((match proxy_tag with Some tag => append_proxy_tag (H ++ le_bytes 4 0) tag | None => H ++ le_bytes 4 0 end) =
    H ++ le_bytes 4 0 ++ extra) as ->.
  { unfold extra. destruct proxy_tag; [by rewrite append_proxy_tag_app, <-app_assoc|by rewrite app_nil_r]. }
  rewrite !zlen_app. replace (zlen H + (zlen (le_bytes 4 0) + zlen extra) - zlen H - 4) with (zlen extra)
    by (rewrite zlen_le_bytes; lia).
  rewrite splice_mid by done. by rewrite <-!app_assoc.
Qed.

Lemma req_head_fields conn_id client_addr our_addr flags rest :
  addr_ok client_addr -> addr_ok our_addr ->
  let d := req_head conn_id client_addr our_addr flags ++ rest in
  zlen (req_head conn_id client_addr our_addr flags) = 56 /\
  slice d 0 4 = le_bytes 4 RPC_PROXY_REQ_U32 /\ slice d 4 8 = le_bytes 4 flags /\
  slice d 8 16 = le_bytes 8 conn_id /\ slice d 16 32 = mapped_octets client_addr /\
  slice d 32 36 = le_bytes 4 (sa_port client_addr) /\ slice d 36 52 = mapped_octets our_addr /\
  slice d 52 56 = le_bytes 4 (sa_port our_addr).
Proof.
  intros [Hc _]%zlen_mapped_octets [Ho _]%zlen_mapped_octets. cbn zeta. unfold req_head.
  set (A := le_bytes 4 RPC_PROXY_REQ_U32). set (F := le_bytes 4 flags). set (C := le_bytes 8 conn_id).
  set (M := mapped_octets client_addr) in *. set (P := le_bytes 4 (sa_port client_addr)).
  set (N := mapped_octets our_addr) in *. set (Q := le_bytes 4 (sa_port our_addr)).
  assert (zlen A = 4 /\ zlen F = 4 /\ zlen C = 8 /\ zlen P = 4 /\ zlen Q = 4) as (HA & HF & HC & HP & HQ) by done.
  clearbody A F C M P N Q. rewrite <-!app_assoc. split_and!.
  - rewrite !zlen_app. lia.
  - apply (slice_mid []); [done|rewrite HA; done].
  - apply (slice_mid A); lia.
  - rewrite (app_assoc A). apply slice_mid; rewrite ?zlen_app; lia.
  - rewrite (app_assoc A), (app_assoc (A ++ F)). apply slice_mid; rewrite ?zlen_app; lia.
  - rewrite (app_assoc A), (app_assoc (A ++ F)), (app_assoc ((A ++ F) ++ C)). apply slice_mid; rewrite ?zlen_app; lia.
  - rewrite (app_assoc A), (app_assoc (A ++ F)), (app_assoc ((A ++ F) ++ C)), (app_assoc (((A ++ F) ++ C) ++ M)).
    apply slice_mid; rewrite ?zlen_app; lia.
  - rewrite (app_assoc A), (app_assoc (A ++ F)), (app_assoc ((A ++ F) ++ C)), (app_assoc (((A ++ F) ++ C) ++ M)),
      (app_assoc ((((A ++ F) ++ C) ++ M) ++ P)). apply slice_mid; rewrite ?zlen_app; lia.
Qed.

(** A proxy request decodes to what it was built from: flags, connection, both addresses (an
    IPv4 address as its mapped form) and ports, the client's data, and the proxy tag exactly when
    the flags announce one; the extra block before the data is 4-byte aligned. *)
Theorem proxy_req_roundtrip conn_id client_addr our_addr data proxy_tag flags :
  in_u64 conn_id -> in_u32 flags -> addr_ok client_addr -> addr_ok our_addr ->
  (forall tag, proxy_tag = Some tag -> bytes_ok tag /\ zlen tag < 2 ^ 24) ->
  let payload := build_proxy_req_payload conn_id client_addr our_addr data proxy_tag flags in
  parse_proxy_req payload =
    Some (mkProxyReq flags conn_id (mapped_octets client_addr, sa_port client_addr)
            (mapped_octets our_addr, sa_port our_addr)
            (if negb (Z.land flags RPC_FLAG_HAS_AD_TAG =? 0) then proxy_tag else None) data) /\
  (zlen payload - zlen data) mod 4 = 0.
Proof.
  intros Hid Hfl Hc Ho Htag. cbn zeta. rewrite build_proxy_req_eq by done. cbn zeta.
  set (extra := match proxy_tag with Some tag => tag_extra tag | None => [] end).
  assert (tl_proxy_tag extra = Some proxy_tag /\ zlen extra mod 4 = 0 /\ 0 <= zlen extra < 2 ^ 32) as (Hdec & Hal & Hrange).
  { unfold extra. destruct proxy_tag as [tag|]; [|done]. destruct (Htag tag eq_refl). by apply tag_extra_decodes. }
  set (blk := if negb _ then _ else _).
  destruct (req_head_fields conn_id client_addr our_addr flags (blk ++ data) Hc Ho)
    as (Hlen & F1 & F2 & F3 & F4 & F5 & F6 & F7). cbn zeta in *.
  pose proof Hc as [_ Hcp]. pose proof Ho as [_ Hop].
  assert (u32 (zlen extra) = zlen extra) as Hu by (unfold u32; rewrite Z.mod_small; lia).
  unfold parse_proxy_req. rewrite F1, F2, F3, F4, F5, F6, F7, zdrop_app by done.
  rewrite !le_val_le_bytes_small by (done || (cbn; lia)). rewrite zlen_app, Hlen.
  pose proof (zlen_nonneg (blk ++ data)). destruct (Z.ltb_spec (56 + zlen (blk ++ data)) 56); [lia|].
  rewrite Z.eqb_refl. cbn [negb]. unfold blk in *. destruct (negb (Z.land flags RPC_FLAG_HAS_AD_TAG =? 0)).
  - rewrite Hu in *. rewrite <-app_assoc, !zlen_app, zlen_le_bytes in *. change (Z.of_nat 4) with 4 in *.
    pose proof (zlen_nonneg data). destruct (Z.ltb_spec (4 + (zlen extra + zlen data)) 4); [lia|].
    rewrite ztake_app by done. rewrite le_val_le_bytes_small by (cbn; lia).
    destruct (Z.ltb_spec (4 + (zlen extra + zlen data)) (4 + zlen extra)); [lia|].
    rewrite (slice_mid (le_bytes 4 (zlen extra)) extra) by done. rewrite Hdec. cbn [mbind option_bind].
    rewrite app_assoc, zdrop_app by (rewrite zlen_app; done). split; [done|]. Z.div_mod_to_equations. lia.
  - rewrite app_nil_l in *. split; [done|]. replace (56 + zlen data - zlen data) with 56 by lia. done.
Qed.

(** The flags of a request: the tag bit is set exactly when a proxy tag is configured, and the
    transport bits determine the protocol of the client. *)
Theorem proto_flags_for_tag_spec tag has_tag :
  let flags := proto_flags_for_tag tag has_tag in
  in_u32 flags /\ negb (Z.land flags RPC_FLAG_HAS_AD_TAG =? 0) = has_tag /\
  (negb (Z.land flags RPC_FLAG_ABRIDGED =? 0), negb (Z.land flags RPC_FLAG_INTERMEDIATE =? 0),
   negb (Z.land flags RPC_FLAG_PAD =? 0)) =
  match tag with Abridged => (true, false, false) | Intermediate => (false, true, false) | Secure => (false, true, true) end.
Proof. destruct tag, has_tag; by vm_compute. Qed.

