(* ===== verification/Obfuscation.v ===== *)
(** * Obfuscated handshakes: [protocol/obfuscation.rs] and [proxy/handshake.rs]

    The first 64 bytes of a connection carry, in the clear, the material of both key streams
    (bytes 8 to 56), and, encrypted, the protocol tag and the data-centre index.  The proxy tries
    the secret of every user on a client's header, and builds such a header itself towards
    Telegram.  [hex::decode] and the clock are parameters; the iteration order of the user map is
    the order of a list. *)

From S2P Require Import Prelude Errors Crypto Random Replay Constants AsyncIo CryptoStream NetAddr Wire.

Section Obfuscation.
Context `{StreamCipher} `{Digests}.

(** ** [ObfuscationParams] (obfuscation.rs:13-115) *)

Record ObfuscationParams := mkObfuscationParams {
  decrypt_key : bytes;
  decrypt_iv : Z;
  encrypt_key : bytes;
  encrypt_iv : Z;
  op_proto_tag : ProtoTag;
  op_dc_idx : Z
}.

Fixpoint from_handshake (handshake : bytes) (secrets : list (string * bytes))
  : option (ObfuscationParams * string) :=
  let dec_prekey_iv := slice handshake SKIP_LEN (SKIP_LEN + PREKEY_LEN + IV_LEN) in
  let dec_prekey := ztake PREKEY_LEN dec_prekey_iv in
  let dec_iv_bytes := zdrop PREKEY_LEN dec_prekey_iv in
  let enc_prekey_iv := reverse dec_prekey_iv in
  let enc_prekey := ztake PREKEY_LEN enc_prekey_iv in
  let enc_iv_bytes := zdrop PREKEY_LEN enc_prekey_iv in
  match secrets with
  | [] => None
  | (username, secret) :: secrets =>
      let dec_key := sha256 (dec_prekey ++ secret) in
      let dec_iv := be_val dec_iv_bytes in
      let '(decrypted, _) := AesCtr_decrypt (AesCtr_new dec_key dec_iv) handshake in
      let tag_bytes := slice decrypted PROTO_TAG_POS (PROTO_TAG_POS + 4) in
      match ProtoTag_from_bytes tag_bytes with
      | None => from_handshake handshake secrets
      | Some proto_tag =>
          let dc_idx := i16 (le_val (slice decrypted DC_IDX_POS (DC_IDX_POS + 2))) in
          let enc_key := sha256 (enc_prekey ++ secret) in
          let enc_iv := be_val enc_iv_bytes in
          Some (mkObfuscationParams dec_key dec_iv enc_key enc_iv proto_tag dc_idx, username)
      end
  end.

Definition create_decryptor (p : ObfuscationParams) : AesCtr := AesCtr_new (decrypt_key p) (decrypt_iv p).
Definition create_encryptor (p : ObfuscationParams) : AesCtr := AesCtr_new (encrypt_key p) (encrypt_iv p).
Definition enc_key_iv (p : ObfuscationParams) : bytes := encrypt_key p ++ be_bytes 16 (encrypt_iv p).

(** ** Nonces (obfuscation.rs:117-182) *)

Definition is_valid_nonce (nonce : bytes) : bool :=
  if bool_decide (default 0 (zget nonce 0) ∈ RESERVED_NONCE_FIRST_BYTES) then false
  else if bool_decide (ztake 4 nonce ∈ RESERVED_NONCE_BEGINNINGS) then false
  else if bool_decide (slice nonce 4 8 ∈ RESERVED_NONCE_CONTINUES) then false
  else true.

(** The loops over random draws run on fuel: one unit per draw. *)
Fixpoint generate_nonce {G} `{Rng G} (fuel : nat) (rng : G) : option (bytes * G) :=
  match fuel with
  | O => None
  | S fuel =>
      let '(nonce, rng) := rng_bytes rng HANDSHAKE_LEN in
      if is_valid_nonce nonce then Some (nonce, rng) else generate_nonce fuel rng
  end.

Definition prepare_tg_nonce (nonce : bytes) (proto_tag : ProtoTag) (key_iv : option bytes) : bytes :=
  let nonce := splice nonce PROTO_TAG_POS (ProtoTag_to_bytes proto_tag) in
  match key_iv with
  | Some key_iv => splice nonce SKIP_LEN (reverse key_iv)
  | None => nonce
  end.

(** The deprecated helper. *)
Definition encrypt_nonce (nonce : bytes) : bytes :=
  let key_iv := slice nonce SKIP_LEN (SKIP_LEN + KEY_LEN + IV_LEN) in
  let enc_key := sha256 key_iv in
  let enc_iv := be_val (ztake IV_LEN key_iv) in
  let '(encrypted_part, _) := AesCtr_encrypt (AesCtr_new enc_key enc_iv) (zdrop PROTO_TAG_POS nonce) in
  splice nonce PROTO_TAG_POS encrypted_part.

(** ** The client's handshake (handshake.rs:26-44, 217-333) *)

Record HandshakeSuccess := mkHandshakeSuccess {
  hs_user : string;
  hs_dc_idx : Z;
  hs_proto_tag : ProtoTag;
  hs_dec_key : bytes;
  hs_dec_iv : Z;
  hs_enc_key : bytes;
  hs_enc_iv : Z;
  hs_peer : SocketAddr;
  hs_is_tls : bool
}.

(** The configuration the handshake reads: [access.users], [general.modes] and
    [general.crypto_pending_buffer]. *)
Record HandshakeConfig := mkHandshakeConfig {
  cfg_users : list (string * string);
  cfg_classic : bool;
  cfg_secure : bool;
  cfg_tls : bool;
  cfg_crypto_pending_buffer : Z
}.

Definition mode_ok (config : HandshakeConfig) (is_tls : bool) (proto_tag : ProtoTag) : bool :=
  match proto_tag with
  | Secure =>
      if is_tls then cfg_tls config || cfg_secure config else cfg_secure config || cfg_tls config
  | Intermediate | Abridged => cfg_classic config
  end.

Context `{LruCache}.
Variable default_hash : bytes -> Z.
Variable instant_min : Z.
Variable hex_decode : string -> option bytes.

(** The loop over the users. *)
Fixpoint try_users {R W : Type} (handshake : bytes) (config : HandshakeConfig) (peer : SocketAddr) (is_tls : bool)
    (reader : R) (writer : W) (users : list (string * string))
  : HandshakeResult (CryptoReader R * CryptoWriter W * HandshakeSuccess) R W :=
  let dec_prekey_iv := slice handshake SKIP_LEN (SKIP_LEN + PREKEY_LEN + IV_LEN) in
  let enc_prekey_iv := reverse dec_prekey_iv in
  match users with
  | [] => HBadClient reader writer
  | (user, secret_hex) :: users =>
      match hex_decode secret_hex with
      | None => try_users handshake config peer is_tls reader writer users
      | Some secret =>
          let dec_prekey := ztake PREKEY_LEN dec_prekey_iv in
          let dec_iv_bytes := zdrop PREKEY_LEN dec_prekey_iv in
          let dec_key := sha256 (dec_prekey ++ secret) in
          let dec_iv := be_val dec_iv_bytes in
          let '(decrypted, decryptor) := AesCtr_decrypt (AesCtr_new dec_key dec_iv) handshake in
          let tag_bytes := slice decrypted PROTO_TAG_POS (PROTO_TAG_POS + 4) in
          match ProtoTag_from_bytes tag_bytes with
          | None => try_users handshake config peer is_tls reader writer users
          | Some proto_tag =>
              if negb (mode_ok config is_tls proto_tag) then
                try_users handshake config peer is_tls reader writer users
              else
                let dc_idx := i16 (le_val (slice decrypted DC_IDX_POS (DC_IDX_POS + 2))) in
                let enc_prekey := ztake PREKEY_LEN enc_prekey_iv in
                let enc_iv_bytes := zdrop PREKEY_LEN enc_prekey_iv in
                let enc_key := sha256 (enc_prekey ++ secret) in
                let enc_iv := be_val enc_iv_bytes in
                let encryptor := AesCtr_new enc_key enc_iv in
                let success := mkHandshakeSuccess user dc_idx proto_tag dec_key dec_iv enc_key enc_iv peer is_tls in
                HSuccess (CryptoReader_new reader decryptor,
                          CryptoWriter_new writer encryptor (cfg_crypto_pending_buffer config), success)
          end
      end
  end.

(** [now] is the instant the replay checker reads; [None] is a panic of the checker. *)
Definition handle_mtproto_handshake {R W : Type} (handshake : bytes) (reader : R) (writer : W) (peer : SocketAddr)
    (config : HandshakeConfig) (replay_checker : ReplayChecker) (now : Z) (is_tls : bool)
  : option (HandshakeResult (CryptoReader R * CryptoWriter W * HandshakeSuccess) R W * ReplayChecker) :=
  let dec_prekey_iv := slice handshake SKIP_LEN (SKIP_LEN + PREKEY_LEN + IV_LEN) in
  match check_and_add_handshake default_hash instant_min replay_checker dec_prekey_iv now with
  | None => None
  | Some (true, replay_checker) => Some (HBadClient reader writer, replay_checker)
  | Some (false, replay_checker) =>
      Some (try_users handshake config peer is_tls reader writer (cfg_users config), replay_checker)
  end.

(** ** The handshake towards Telegram (handshake.rs:335-409) *)

Fixpoint generate_tg_nonce {G} `{Rng G} (fuel : nat) (proto_tag : ProtoTag) (dc_idx : Z)
    (client_enc_key : bytes) (client_enc_iv : Z) (rng : G) (fast_mode : bool)
  : option (bytes * bytes * Z * bytes * Z * G) :=
  match fuel with
  | O => None
  | S fuel =>
      let '(nonce, rng) := rng_bytes rng HANDSHAKE_LEN in
      if bool_decide (default 0 (zget nonce 0) ∈ RESERVED_NONCE_FIRST_BYTES) then
        generate_tg_nonce fuel proto_tag dc_idx client_enc_key client_enc_iv rng fast_mode
      else if bool_decide (ztake 4 nonce ∈ RESERVED_NONCE_BEGINNINGS) then
        generate_tg_nonce fuel proto_tag dc_idx client_enc_key client_enc_iv rng fast_mode
      else if bool_decide (slice nonce 4 8 ∈ RESERVED_NONCE_CONTINUES) then
        generate_tg_nonce fuel proto_tag dc_idx client_enc_key client_enc_iv rng fast_mode
      else
        let nonce := splice nonce PROTO_TAG_POS (ProtoTag_to_bytes proto_tag) in
        let nonce := splice nonce DC_IDX_POS (le_bytes 2 dc_idx) in
        let nonce :=
          if fast_mode then
            splice nonce SKIP_LEN (reverse (client_enc_key ++ be_bytes 16 client_enc_iv))
          else nonce in
        let enc_key_iv := slice nonce SKIP_LEN (SKIP_LEN + KEY_LEN + IV_LEN) in
        let dec_key_iv := reverse enc_key_iv in
        let tg_enc_key := ztake KEY_LEN enc_key_iv in
        let tg_enc_iv := be_val (zdrop KEY_LEN enc_key_iv) in
        let tg_dec_key := ztake KEY_LEN dec_key_iv in
        let tg_dec_iv := be_val (zdrop KEY_LEN dec_key_iv) in
        Some (nonce, tg_enc_key, tg_enc_iv, tg_dec_key, tg_dec_iv, rng)
  end.

Definition encrypt_tg_nonce_with_ciphers (nonce : bytes) : bytes * AesCtr * AesCtr :=
  let enc_key_iv := slice nonce SKIP_LEN (SKIP_LEN + KEY_LEN + IV_LEN) in
  let dec_key_iv := reverse enc_key_iv in
  let enc_key := ztake KEY_LEN enc_key_iv in
  let enc_iv := be_val (zdrop KEY_LEN enc_key_iv) in
  let dec_key := ztake KEY_LEN dec_key_iv in
  let dec_iv := be_val (zdrop KEY_LEN dec_key_iv) in
  let '(encrypted_full, encryptor) := AesCtr_encrypt (AesCtr_new enc_key enc_iv) nonce in
  let result := ztake PROTO_TAG_POS nonce ++ zdrop PROTO_TAG_POS encrypted_full in
  let decryptor := AesCtr_new dec_key dec_iv in
  (result, encryptor, decryptor).

Definition encrypt_tg_nonce (nonce : bytes) : bytes :=
  let '(encrypted, _, _) := encrypt_tg_nonce_with_ciphers nonce in encrypted.

End Obfuscation.

(** ** What the other end does

    The sender of a header draws 64 bytes, writes the tag and the data-centre index into them and
    encrypts the last 8 bytes where they stand in the key stream; both key streams come from the
    48 bytes in the clear. *)

Section Peer.
Context `{StreamCipher} `{Digests}.

Definition key_material (header : bytes) : bytes := slice header 8 56.

Definition stream_of (kdf : bytes -> bytes) (material : bytes) : AesCtr :=
  AesCtr_new (kdf (ztake 32 material)) (be_val (zdrop 32 material)).

(** The key stream from the header's sender, and the one towards it. *)
Definition from_sender (kdf : bytes -> bytes) (header : bytes) : AesCtr := stream_of kdf (key_material header).
Definition to_sender (kdf : bytes -> bytes) (header : bytes) : AesCtr := stream_of kdf (reverse (key_material header)).

Definition fill_in (nonce : bytes) (tag : ProtoTag) (dc_idx : Z) : bytes :=
  splice (splice nonce 56 (ProtoTag_to_bytes tag)) 60 (le_bytes 2 dc_idx).

Definition seal (c : AesCtr) (nonce : bytes) : bytes := ztake 56 nonce ++ zdrop 56 (fst (AesCtr_encrypt c nonce)).

(** A client mixes its secret into the keys; the proxy, towards Telegram, does not. *)
Definition with_secret (secret : bytes) (prekey : bytes) : bytes := sha256 (prekey ++ secret).

Definition header_of (kdf : bytes -> bytes) (nonce : bytes) (tag : ProtoTag) (dc_idx : Z) : bytes :=
  let nonce := fill_in nonce tag dc_idx in seal (from_sender kdf nonce) nonce.

(** What a receiver reads from a header. *)
Definition open_header (kdf : bytes -> bytes) (header : bytes) : option (ProtoTag * Z) :=
  let decrypted := fst (AesCtr_decrypt (from_sender kdf header) header) in
  match ProtoTag_from_bytes (slice decrypted 56 60) with
  | Some tag => Some (tag, i16 (le_val (slice decrypted 60 62)))
  | None => None
  end.

End Peer.

Section Headers.
Context `{StreamCipherOk}.

Lemma nonce_parts (n : bytes) : zlen n = 64 ->
  exists p t d z, n = p ++ t ++ d ++ z /\ zlen p = 56 /\ zlen t = 4 /\ zlen d = 2 /\ zlen z = 2.
Proof.
  intros Hn. exists (ztake 56 n), (slice n 56 60), (slice n 60 62), (zdrop 62 n).
  rewrite !zlen_slice, zlen_ztake, zlen_zdrop by lia. split_and!; try lia. unfold slice.
  rewrite <-(ztake_zdrop 56 n) at 1. f_equal. rewrite <-(ztake_zdrop 4 (zdrop 56 n)) at 1. f_equal.
  rewrite zdrop_zdrop by lia. rewrite <-(ztake_zdrop 2 (zdrop (4 + 56) n)) at 1. f_equal.
  by rewrite zdrop_zdrop by lia.
Qed.

Lemma zlen_tag tag : zlen (ProtoTag_to_bytes tag) = 4.
Proof. by destruct tag. Qed.

Lemma fill_in_parts p t d z tag dc :
  zlen p = 56 -> zlen t = 4 -> zlen d = 2 ->
  fill_in (p ++ t ++ d ++ z) tag dc = p ++ ProtoTag_to_bytes tag ++ le_bytes 2 dc ++ z.
Proof.
  intros Hp Ht Hd. unfold fill_in. rewrite (splice_mid p t (d ++ z)) by (rewrite ?zlen_tag; lia).
  rewrite app_assoc. rewrite (splice_mid _ d z); [by rewrite <-app_assoc|rewrite zlen_app, zlen_tag; lia|].
  by rewrite zlen_le_bytes, Hd.
Qed.

Lemma key_material_prefix p q : zlen p = 56 -> key_material (p ++ q) = key_material p.
Proof. intros Hp. unfold key_material. apply slice_app_l; lia. Qed.

(** Only the last 8 bytes change, and they decrypt where they stand. *)
Lemma seal_parts c p q :
  zlen p = 56 -> seal c (p ++ q) = p ++ fst (AesCtr_apply (snd (AesCtr_apply c p)) q).
Proof.
  intros Hp. unfold seal, AesCtr_encrypt. rewrite AesCtr_apply_app. cbn [fst].
  rewrite ztake_app by done. by rewrite zdrop_app by (rewrite AesCtr_apply_zlen; lia).
Qed.

Lemma seal_open c p q :
  zlen p = 56 -> bytes_ok q ->
  AesCtr_decrypt c (seal c (p ++ q)) = (fst (AesCtr_apply c p) ++ q, snd (AesCtr_apply c (p ++ q))).
Proof.
  intros Hp Hq. rewrite seal_parts by done. unfold AesCtr_decrypt, AesCtr_encrypt. rewrite !AesCtr_apply_app. cbn [fst snd].
  f_equal; [by rewrite AesCtr_apply_inv|]. apply AesCtr_apply_state, AesCtr_apply_length.
Qed.

(** Sealing what a header decrypts to gives the header back. *)
Lemma seal_unseal c p q :
  zlen p = 56 -> bytes_ok q -> seal c (p ++ zdrop 56 (fst (AesCtr_decrypt c (p ++ q)))) = p ++ q.
Proof.
  intros Hp Hq. unfold AesCtr_decrypt, AesCtr_encrypt. rewrite AesCtr_apply_app. cbn [fst].
  rewrite zdrop_app by (rewrite AesCtr_apply_zlen; lia). rewrite seal_parts by done. f_equal. by apply AesCtr_apply_inv.
Qed.

Lemma zlen_header_of kdf nonce tag dc : zlen nonce = 64 -> zlen (header_of kdf nonce tag dc) = 64.
Proof.
  intros Hn. destruct (nonce_parts nonce Hn) as (p & t & d & z & -> & Hp & Ht & Hd & Hz). unfold header_of.
  rewrite fill_in_parts, seal_parts, zlen_app, AesCtr_apply_zlen, !zlen_app, zlen_tag, zlen_le_bytes by done. lia.
Qed.

Lemma i16_le_bytes z : in_i16 z -> i16 (le_val (le_bytes 2 z)) = z.
Proof.
  intros Hz. rewrite le_val_le_bytes. change (256 ^ Z.of_nat 2) with (2 ^ 16). unfold i16, in_i16 in *.
  rewrite Zplus_mod_idemp_l, Z.mod_small by lia. lia.
Qed.

(** Opening a sealed header gives the tag and the index it carries, and leaves both ends at the
    same place of the key stream. *)
Lemma open_sealed kdf p z tag dc :
  zlen p = 56 -> bytes_ok z -> in_i16 dc ->
  let n := p ++ ProtoTag_to_bytes tag ++ le_bytes 2 dc ++ z in
  let h := seal (from_sender kdf n) n in
  zlen h = zlen n /\ ztake 56 h = p /\ key_material h = key_material n /\ open_header kdf h = Some (tag, dc) /\
  snd (AesCtr_decrypt (from_sender kdf h) h) = snd (AesCtr_encrypt (from_sender kdf n) n).
Proof.
  intros Hp Hz Hdc. cbv zeta. set (q := ProtoTag_to_bytes tag ++ le_bytes 2 dc ++ z).
  assert (bytes_ok q) as Hq.
  { unfold q. rewrite !bytes_ok_app. split_and!; [apply le_bytes_ok|apply le_bytes_ok|done]. }
  set (c := from_sender kdf (p ++ q)).
  assert (key_material (seal c (p ++ q)) = key_material (p ++ q)) as Hk.
  { rewrite seal_parts, !key_material_prefix by done. done. }
  assert (from_sender kdf (seal c (p ++ q)) = c) as Hc by (unfold from_sender; by rewrite Hk).
  split_and!; [| |done| |].
  - rewrite seal_parts, !zlen_app, AesCtr_apply_zlen by done. done.
  - rewrite seal_parts by done. by rewrite ztake_app by done.
  - unfold open_header. rewrite Hc, seal_open by done. cbn [fst].
    assert (zlen (fst (AesCtr_apply c p)) = 56) as Hl by (rewrite AesCtr_apply_zlen; lia). unfold q.
    rewrite slice_mid by (rewrite ?zlen_tag; lia). rewrite ProtoTag_from_to. do 2 f_equal.
    rewrite app_assoc, slice_mid by (rewrite ?zlen_app, ?zlen_tag, ?zlen_le_bytes; lia). by apply i16_le_bytes.
  - rewrite Hc, seal_open by done. done.
Qed.

Lemma open_header_of kdf nonce tag dc :
  zlen nonce = 64 -> bytes_ok nonce -> in_i16 dc ->
  let n := fill_in nonce tag dc in
  let h := header_of kdf nonce tag dc in
  key_material h = key_material n /\ open_header kdf h = Some (tag, dc) /\
  snd (AesCtr_decrypt (from_sender kdf h) h) = snd (AesCtr_encrypt (from_sender kdf n) n).
Proof.
  intros Hn Hok Hdc. destruct (nonce_parts nonce Hn) as (p & t & d & z & -> & Hp & Ht & Hd & Hz).
  unfold header_of. rewrite fill_in_parts by done. cbv zeta. rewrite !bytes_ok_app in Hok.
  destruct (open_sealed kdf p z tag dc Hp ltac:(tauto) Hdc) as (_ & _ & ? & ? & ?). done.
Qed.

(** Every header that opens was made by a sender with the same keys. *)
Lemma open_header_inv kdf h tag dc :
  zlen h = 64 -> bytes_ok h -> open_header kdf h = Some (tag, dc) ->
  exists nonce, zlen nonce = 64 /\ bytes_ok nonce /\ in_i16 dc /\ h = header_of kdf nonce tag dc.
Proof.
  intros Hl Hok Ho. destruct (nonce_parts h Hl) as (p & t & d & z & -> & Hp & Ht & Hd & Hz).
  set (q := t ++ d ++ z) in *. set (c := from_sender kdf (p ++ q)).
  assert (bytes_ok p /\ bytes_ok q) as [Hokp Hokq] by by apply bytes_ok_app.
  assert (zlen q = 8) as Hlq by (unfold q; rewrite !zlen_app; lia).
  assert (fst (AesCtr_decrypt c (p ++ q)) = fst (AesCtr_apply c p) ++ fst (AesCtr_apply (snd (AesCtr_apply c p)) q)) as Hdec.
  { unfold AesCtr_decrypt, AesCtr_encrypt. by rewrite AesCtr_apply_app. }
  set (q' := fst (AesCtr_apply (snd (AesCtr_apply c p)) q)) in *.
  assert (zlen q' = 8) as Hlq' by (unfold q'; by rewrite AesCtr_apply_zlen).
  assert (bytes_ok q') as Hokq' by by apply AesCtr_apply_ok.
  assert (zlen (fst (AesCtr_apply c p)) = 56) as Hlc by (rewrite AesCtr_apply_zlen; lia).
  unfold open_header in Ho. fold c in Ho. rewrite Hdec, !slice_app_r, Hlc in Ho by lia. cbn in Ho.
  destruct (nonce_parts (p ++ q')) as (p1 & t1 & d1 & z1 & E & Hp1 & Ht1 & Hd1 & Hz1); [rewrite zlen_app; lia|].
  apply app_inj_1 in E as [<- Eq']; [|unfold zlen in *; lia]. rewrite Eq' in Ho.
  rewrite slice_prefix in Ho by lia. rewrite (slice_mid t1 d1 z1) in Ho by lia.
  destruct (ProtoTag_from_bytes t1) as [tag'|] eqn:Etag; [|done]. injection Ho as -> <-.
  rewrite Eq', !bytes_ok_app in Hokq'. destruct Hokq' as (Hokt & Hokd & Hokz).
  apply ProtoTag_from_bytes_inv in Etag; [|unfold zlen in *; lia|done]. subst t1.
  exists (p ++ q'). rewrite zlen_app, bytes_ok_app, Eq', !bytes_ok_app.
  split_and!; try done; [rewrite <-Eq'; lia| |].
  { unfold in_i16, i16. pose proof (Z.mod_pos_bound (le_val d1 + 2 ^ 15) (2 ^ 16) ltac:(lia)). lia. }
  unfold header_of. rewrite fill_in_parts by (rewrite ?zlen_tag; lia).
  assert (le_bytes 2 (i16 (le_val d1)) = d1) as Ed.
  { rewrite <-(le_bytes_le_val d1 Hokd) at 2. replace (length d1) with 2%nat by (unfold zlen in *; lia).
    rewrite <-(le_bytes_mod 2 (i16 _)), <-(le_bytes_mod 2 (le_val d1)). f_equal. unfold i16.
    change (256 ^ Z.of_nat 2) with (2 ^ 16). rewrite Zminus_mod_idemp_l. f_equal. lia. }
  rewrite Ed, <-Eq'. unfold from_sender. rewrite key_material_prefix, <-(key_material_prefix p q) by done.
  fold (from_sender kdf (p ++ q)). fold c.
  pose proof (seal_unseal c p q Hp Hokq) as Hs. rewrite Hdec, zdrop_app in Hs by lia. by rewrite Hs.
Qed.

End Headers.

(** ** The client's side of the proxy *)

Section Client.
Context `{StreamCipherOk} `{Digests} `{LruCacheOk}.
Variable default_hash : bytes -> Z.
Variable instant_min : Z.
Variable hex_decode : string -> option bytes.
Context {R W : Type}.
Local Notation handle := (handle_mtproto_handshake default_hash instant_min hex_decode (R := R) (W := W)).
Local Notation try_all := (try_users hex_decode (R := R) (W := W)).

(** What the proxy sets up for a user whose secret opens the header. *)
Definition session (secret header : bytes) (config : HandshakeConfig) (user : string) (tag : ProtoTag) (dc_idx : Z)
    (peer : SocketAddr) (is_tls : bool) (reader : R) (writer : W)
  : CryptoReader R * CryptoWriter W * HandshakeSuccess :=
  let kdf := with_secret secret in
  let material := key_material header in
  (CryptoReader_new reader (snd (AesCtr_decrypt (from_sender kdf header) header)),
   CryptoWriter_new writer (to_sender kdf header) (cfg_crypto_pending_buffer config),
   mkHandshakeSuccess user dc_idx tag (kdf (ztake 32 material)) (be_val (zdrop 32 material))
     (kdf (ztake 32 (reverse material))) (be_val (zdrop 32 (reverse material))) peer is_tls).

Lemma try_users_cons header config peer is_tls reader writer user secret_hex users :
  try_all header config peer is_tls reader writer ((user, secret_hex) :: users) =
    match hex_decode secret_hex with
    | None => try_all header config peer is_tls reader writer users
    | Some secret =>
        match open_header (with_secret secret) header with
        | Some (tag, dc_idx) =>
            if mode_ok config is_tls tag
            then HSuccess (session secret header config user tag dc_idx peer is_tls reader writer)
            else try_all header config peer is_tls reader writer users
        | None => try_all header config peer is_tls reader writer users
        end
    end.
Proof.
  cbn [try_users]. destruct (hex_decode secret_hex) as [secret|]; [|done]. unfold open_header.
  change (AesCtr_new (sha256 (ztake PREKEY_LEN (slice header SKIP_LEN (SKIP_LEN + PREKEY_LEN + IV_LEN)) ++ secret))
    (be_val (zdrop PREKEY_LEN (slice header SKIP_LEN (SKIP_LEN + PREKEY_LEN + IV_LEN)))))
    with (from_sender (with_secret secret) header). unfold session.
  destruct (AesCtr_decrypt (from_sender (with_secret secret) header) header) as [decrypted decryptor]. cbn [fst snd].
  change (slice decrypted PROTO_TAG_POS (PROTO_TAG_POS + 4)) with (slice decrypted 56 60).
  destruct (ProtoTag_from_bytes (slice decrypted 56 60)) as [tag|]; [|done]. by destruct (mode_ok config is_tls tag).
Qed.

(** A user under whose secret the header does not open with an enabled mode. *)
Definition not_for (header : bytes) (config : HandshakeConfig) (is_tls : bool) (entry : string * string) : Prop :=
  match hex_decode entry.2 with
  | None => True
  | Some secret =>
      match open_header (with_secret secret) header with
      | Some (tag, _) => mode_ok config is_tls tag = false
      | None => True
      end
  end.

Lemma try_users_skip header config peer is_tls reader writer others users :
  Forall (not_for header config is_tls) others ->
  try_all header config peer is_tls reader writer (others ++ users) =
  try_all header config peer is_tls reader writer users.
Proof.
  induction 1 as [|[u x] others Hn Ho IH]; cbn [app]; [done|]. rewrite try_users_cons. unfold not_for in Hn. cbn in Hn.
  destruct (hex_decode x) as [secret|]; [|done].
  destruct (open_header (with_secret secret) header) as [[tag dc]|]; [|done]. by rewrite Hn.
Qed.

Lemma try_users_success header config peer is_tls reader writer users x :
  try_all header config peer is_tls reader writer users = HSuccess x ->
  exists user secret_hex secret tag dc_idx, (user, secret_hex) ∈ users /\ hex_decode secret_hex = Some secret /\
    open_header (with_secret secret) header = Some (tag, dc_idx) /\ mode_ok config is_tls tag = true /\
    x = session secret header config user tag dc_idx peer is_tls reader writer.
Proof.
  induction users as [|[u hx] users IH]; [done|]. rewrite try_users_cons.
  assert (Hrec : try_all header config peer is_tls reader writer users = HSuccess x ->
    exists user secret_hex secret tag dc_idx, (user, secret_hex) ∈ (u, hx) :: users /\ hex_decode secret_hex = Some secret /\
    open_header (with_secret secret) header = Some (tag, dc_idx) /\ mode_ok config is_tls tag = true /\
    x = session secret header config user tag dc_idx peer is_tls reader writer).
  { intros (user & secret_hex & secret & tag & dc_idx & Hin & Hr)%IH. exists user, secret_hex, secret, tag, dc_idx.
    split; [by right|done]. }
  destruct (hex_decode hx) as [secret|] eqn:Eh; [|done].
  destruct (open_header (with_secret secret) header) as [[tag dc]|] eqn:Eo; [|done].
  destruct (mode_ok config is_tls tag) eqn:Em; [|done]. intros [= <-]. exists u, hx, secret, tag, dc.
  split_and!; try done. left.
Qed.

Lemma try_users_answers header config peer is_tls reader writer users :
  try_all header config peer is_tls reader writer users = HBadClient reader writer \/
  exists x, try_all header config peer is_tls reader writer users = HSuccess x.
Proof.
  induction users as [|[u hx] users IH]; [by left|]. rewrite try_users_cons. destruct (hex_decode hx) as [secret|]; [|done].
  destruct (open_header (with_secret secret) header) as [[tag dc]|]; [|done]. destruct (mode_ok config is_tls tag); [|done].
  right. by eexists.
Qed.

Lemma handle_eq header reader writer peer config checker now is_tls found checker' :
  check_and_add_internal default_hash instant_min checker (key_material header) now = Some (found, checker') ->
  handle header reader writer peer config checker now is_tls =
    Some (if found then HBadClient reader writer
          else try_all header config peer is_tls reader writer (cfg_users config), checker').
Proof.
  intros E. unfold handle_mtproto_handshake, check_and_add_handshake.
  change (slice header SKIP_LEN (SKIP_LEN + PREKEY_LEN + IV_LEN)) with (key_material header). rewrite E. by destruct found.
Qed.

(** C15: the header of a genuine client is accepted.  When a client who knows a user's secret sends
    a header that is fresh to the replay checker and asks for an enabled mode, and no user tried
    before matches by accident, the proxy answers with that user, the client's tag and
    data-centre index; its reader continues exactly where the client's key stream stands after
    the header, and its writer uses the key stream the client will decrypt with. *)
Theorem client_handshake_accepted user secret_hex secret nonce tag dc_idx others users config reader writer peer
    checker checker' now is_tls :
  let header := header_of (with_secret secret) nonce tag dc_idx in
  let filled := fill_in nonce tag dc_idx in
  zlen nonce = 64 -> bytes_ok nonce -> in_i16 dc_idx -> hex_decode secret_hex = Some secret ->
  cfg_users config = others ++ (user, secret_hex) :: users -> Forall (not_for header config is_tls) others ->
  mode_ok config is_tls tag = true ->
  check_and_add_internal default_hash instant_min checker (key_material header) now = Some (false, checker') ->
  exists success,
    handle header reader writer peer config checker now is_tls =
      Some (HSuccess
        (CryptoReader_new reader (snd (AesCtr_encrypt (from_sender (with_secret secret) filled) filled)),
         CryptoWriter_new writer (to_sender (with_secret secret) filled) (cfg_crypto_pending_buffer config),
         success), checker') /\
    hs_user success = user /\ hs_proto_tag success = tag /\ hs_dc_idx success = dc_idx /\
    AesCtr_new (hs_enc_key success) (hs_enc_iv success) = to_sender (with_secret secret) filled.
Proof.
  intros header filled Hn Hok Hdc Hhex Husers Hothers Hmode Hfresh.
  destruct (open_header_of (with_secret secret) nonce tag dc_idx Hn Hok Hdc) as (Hk & Ho & Hs).
  fold header filled in Hk, Ho, Hs.
  rewrite (handle_eq header reader writer peer config checker now is_tls false checker' Hfresh).
  rewrite Husers, try_users_skip, try_users_cons, Hhex, Ho, Hmode by done.
  unfold session, to_sender. rewrite Hs, Hk. eexists. split; [done|]. done.
Qed.

(** Only headers made with a user's secret are accepted, and only fresh ones: when the proxy
    reports success, the header is one that a sender with that user's secret makes for the
    reported tag and data centre, the mode is enabled, and the replay checker had not seen its key
    material. *)
Theorem client_handshake_sound header reader writer peer config checker now is_tls rd wr success checker' :
  zlen header = 64 -> bytes_ok header ->
  handle header reader writer peer config checker now is_tls = Some (HSuccess (rd, wr, success), checker') ->
  exists secret_hex secret nonce,
    (hs_user success, secret_hex) ∈ cfg_users config /\ hex_decode secret_hex = Some secret /\
    zlen nonce = 64 /\ in_i16 (hs_dc_idx success) /\
    header = header_of (with_secret secret) nonce (hs_proto_tag success) (hs_dc_idx success) /\
    mode_ok config is_tls (hs_proto_tag success) = true /\
    check_and_add_internal default_hash instant_min checker (key_material header) now = Some (false, checker').
Proof.
  intros Hl Hok Hh.
  destruct (check_and_add_internal default_hash instant_min checker (key_material header) now) as [[found c]|] eqn:Ec.
  2:{ unfold handle_mtproto_handshake, check_and_add_handshake in Hh.
      change (slice header SKIP_LEN (SKIP_LEN + PREKEY_LEN + IV_LEN)) with (key_material header) in Hh. by rewrite Ec in Hh. }
  rewrite (handle_eq _ _ _ _ _ _ _ _ _ _ Ec) in Hh. destruct found; [done|]. injection Hh as Hh ->.
  apply try_users_success in Hh as (user & secret_hex & secret & tag & dc & Hin & Hhex & Ho & Hm & [= -> -> ->]). cbn.
  destruct (open_header_inv _ _ _ _ Hl Hok Ho) as (nonce & ? & ? & ? & ?). exists secret_hex, secret, nonce. done.
Qed.

(** C25: a replayed header is refused.  Once a header has been accepted, any header with the same
    key material presented within the replay window is turned away with its streams untouched, as
    long as fewer other strings than a shard holds have reached the same shard meanwhile. *)
Theorem replayed_handshake_refused cap window pre mid t0 t1 checker0 checker1 header header'
    reader writer peer config is_tls x reader' writer' peer' is_tls' :
  zlen pre + zlen mid + 2 < 2 ^ 64 -> key_material header' = key_material header ->
  replay_run default_hash instant_min (ReplayChecker_new cap window) pre = Some checker0 ->
  handle header reader writer peer config checker0 t0 is_tls = Some (HSuccess x, checker1) ->
  Forall (recent instant_min window t0) (map op_time mid ++ [t1]) ->
  Z.of_nat (size (shard_keys default_hash (key_material header) mid ∖ {[key_material header]})) < shard_capacity cap ->
  exists checker2 checker3, replay_run default_hash instant_min checker1 mid = Some checker2 /\
    handle header' reader' writer' peer' config checker2 t1 is_tls' = Some (HBadClient reader' writer', checker3).
Proof.
  intros Hn Hk Hpre Hh Hrec Hsize.
  destruct (check_and_add_internal default_hash instant_min checker0 (key_material header) t0) as [[found c]|] eqn:Ec.
  2:{ unfold handle_mtproto_handshake, check_and_add_handshake in Hh.
      change (slice header SKIP_LEN (SKIP_LEN + PREKEY_LEN + IV_LEN)) with (key_material header) in Hh. by rewrite Ec in Hh. }
  rewrite (handle_eq _ _ _ _ _ _ _ _ _ _ Ec) in Hh. destruct found; [done|]. injection Hh as _ ->.
  destruct (replay_caught default_hash instant_min cap window pre (key_material header) t0 mid t1 checker0 checker1)
    as (c2 & c3 & Hrun & Hc3); [done..|].
  exists c2, c3. split; [done|]. apply (handle_eq _ _ _ _ _ _ _ _ true). by rewrite Hk.
Qed.

(** [ObfuscationParams::from_handshake] and the handshake handler find the same user and the
    same parameters when every mode is enabled. *)
Theorem from_handshake_agrees header secrets config peer is_tls reader writer :
  cfg_classic config = true -> cfg_secure config = true ->
  Forall2 (fun entry user => entry.1 = user.1 /\ hex_decode entry.2 = Some user.2) (cfg_users config) secrets ->
  from_handshake header secrets =
    match try_all header config peer is_tls reader writer (cfg_users config) with
    | HSuccess (_, _, s) =>
        Some (mkObfuscationParams (hs_dec_key s) (hs_dec_iv s) (hs_enc_key s) (hs_enc_iv s)
                (hs_proto_tag s) (hs_dc_idx s), hs_user s)
    | _ => None
    end.
Proof.
  intros Hc Hsec. generalize (cfg_users config) as users. intros users.
  induction 1 as [|[u hx] [u' secret] users secrets [Hu Hx] _ IH]; [done|]. cbn in Hu, Hx. subst u'.
  rewrite try_users_cons, Hx. cbn [from_handshake]. unfold open_header.
  change (AesCtr_new (sha256 (ztake PREKEY_LEN (slice header SKIP_LEN (SKIP_LEN + PREKEY_LEN + IV_LEN)) ++ secret))
    (be_val (zdrop PREKEY_LEN (slice header SKIP_LEN (SKIP_LEN + PREKEY_LEN + IV_LEN)))))
    with (from_sender (with_secret secret) header). unfold session.
  destruct (AesCtr_decrypt (from_sender (with_secret secret) header) header) as [decrypted decryptor]. cbn [fst snd].
  change (slice decrypted PROTO_TAG_POS (PROTO_TAG_POS + 4)) with (slice decrypted 56 60).
  destruct (ProtoTag_from_bytes (slice decrypted 56 60)) as [tag|]; [|done].
  assert (mode_ok config is_tls tag = true) as ->; [|done].
  unfold mode_ok. rewrite Hc, Hsec. destruct tag; [done|done|]. destruct is_tls; [by rewrite orb_true_r|done].
Qed.

End Client.

(** ** Towards Telegram *)

Section Telegram.
Context `{StreamCipherOk} {G : Type} `{RngOk G}.

(** The [i]-th draw of a generator. *)
Fixpoint nonce_draw (i : nat) (rng : G) : bytes :=
  match i with
  | O => fst (rng_bytes rng HANDSHAKE_LEN)
  | S i => nonce_draw i (snd (rng_bytes rng HANDSHAKE_LEN))
  end.

Definition tg_fill (nonce : bytes) (tag : ProtoTag) (dc_idx : Z) (client_enc_key : bytes) (client_enc_iv : Z)
    (fast_mode : bool) : bytes :=
  let nonce := fill_in nonce tag dc_idx in
  if fast_mode then splice nonce 8 (reverse (client_enc_key ++ be_bytes 16 client_enc_iv)) else nonce.

Lemma generate_tg_nonce_S fuel tag dc key iv (rng : G) fast :
  generate_tg_nonce (S fuel) tag dc key iv rng fast =
    let '(nonce, rng) := rng_bytes rng HANDSHAKE_LEN in
    if is_valid_nonce nonce then
      let n := tg_fill nonce tag dc key iv fast in
      let material := key_material n in
      Some (n, ztake 32 material, be_val (zdrop 32 material), ztake 32 (reverse material),
            be_val (zdrop 32 (reverse material)), rng)
    else generate_tg_nonce fuel tag dc key iv rng fast.
Proof. cbn [generate_tg_nonce]. destruct (rng_bytes rng HANDSHAKE_LEN) as [nonce r]. unfold is_valid_nonce. by repeat case_match. Qed.

Lemma generate_tg_nonce_draw fuel i tag dc key iv (rng : G) fast :
  (i < fuel)%nat -> is_valid_nonce (nonce_draw i rng) = true ->
  exists nonce rng', zlen nonce = 64 /\ bytes_ok nonce /\ is_valid_nonce nonce = true /\
    let n := tg_fill nonce tag dc key iv fast in
    let material := key_material n in
    generate_tg_nonce fuel tag dc key iv rng fast =
      Some (n, ztake 32 material, be_val (zdrop 32 material), ztake 32 (reverse material),
            be_val (zdrop 32 (reverse material)), rng').
Proof.
  revert i rng. induction fuel as [|fuel IH]; intros i rng Hi Hv; [lia|]. rewrite generate_tg_nonce_S.
  pose proof (rng_bytes_len rng HANDSHAKE_LEN ltac:(done)) as Hl. pose proof (rng_bytes_ok rng HANDSHAKE_LEN) as Hok.
  destruct i as [|i]; cbn [nonce_draw] in Hv; destruct (rng_bytes rng HANDSHAKE_LEN) as [nonce r]; cbn [fst snd] in *;
    (destruct (is_valid_nonce nonce) eqn:E; [by exists nonce, r|]); [done|]. apply (IH i r); [lia|done].
Qed.

Lemma generate_tg_nonce_some fuel tag dc key iv (rng : G) fast x :
  generate_tg_nonce fuel tag dc key iv rng fast = Some x ->
  exists i, (i < fuel)%nat /\ is_valid_nonce (nonce_draw i rng) = true.
Proof.
  revert rng. induction fuel as [|fuel IH]; intros rng; [done|]. rewrite generate_tg_nonce_S.
  destruct (rng_bytes rng HANDSHAKE_LEN) as [nonce r] eqn:Er. destruct (is_valid_nonce nonce) eqn:E.
  - intros _. exists O. split; [lia|]. cbn [nonce_draw]. by rewrite Er.
  - intros Hg. destruct (IH r Hg) as (i & Hi & Hv). exists (S i). split; [lia|]. cbn [nonce_draw]. by rewrite Er.
Qed.

Lemma is_valid_nonce_head a b : zlen a = 8 -> is_valid_nonce (a ++ b) = is_valid_nonce a.
Proof.
  intros Ha. unfold is_valid_nonce. rewrite ztake_app_le, slice_app_l by lia.
  destruct a as [|x a]; [by rewrite zlen_nil in Ha|]. done.
Qed.

(** The filled nonce keeps its first 8 bytes and ends with tag and index; in fast mode its key
    material is the client's. *)
Lemma tg_fill_parts nonce tag dc key iv fast :
  zlen nonce = 64 -> bytes_ok nonce -> zlen key = 32 -> bytes_ok key ->
  exists a m z, tg_fill nonce tag dc key iv fast = a ++ m ++ ProtoTag_to_bytes tag ++ le_bytes 2 dc ++ z /\
    zlen a = 8 /\ zlen m = 48 /\ zlen z = 2 /\ bytes_ok z /\ is_valid_nonce a = is_valid_nonce nonce /\
    (fast = true -> m = reverse (key ++ be_bytes 16 iv)).
Proof.
  intros Hn Hok Hk Hkok. destruct (nonce_parts nonce Hn) as (p & t & d & z & -> & Hp & Ht & Hd & Hz).
  rewrite <-(ztake_zdrop 8 p). assert (zlen (ztake 8 p) = 8) as H8 by (rewrite zlen_ztake; lia).
  unfold tg_fill. rewrite !bytes_ok_app in Hok. rewrite fill_in_parts by (rewrite ?ztake_zdrop; lia).
  set (rest := ProtoTag_to_bytes tag ++ le_bytes 2 dc ++ z).
  assert (is_valid_nonce (ztake 8 p) = is_valid_nonce ((ztake 8 p ++ zdrop 8 p) ++ t ++ d ++ z)) as Hv.
  { rewrite <-app_assoc. by rewrite is_valid_nonce_head. }
  assert (zlen (reverse (key ++ be_bytes 16 iv)) = 48) as Hr by (rewrite zlen_reverse, zlen_app, zlen_be_bytes; lia).
  assert (zlen (zdrop 8 p) = 48) as Hd48 by (rewrite zlen_zdrop; lia).
  destruct fast.
  - exists (ztake 8 p), (reverse (key ++ be_bytes 16 iv)), z.
    rewrite <-app_assoc, splice_mid by lia. split_and!; try done; try lia. tauto.
  - exists (ztake 8 p), (zdrop 8 p), z. rewrite <-app_assoc. split_and!; try done; try lia. tauto.
Qed.

Lemma encrypt_tg_nonce_eq nonce :
  let c := from_sender (fun k => k) nonce in
  encrypt_tg_nonce_with_ciphers nonce = (seal c nonce, snd (AesCtr_encrypt c nonce), to_sender (fun k => k) nonce).
Proof.
  unfold encrypt_tg_nonce_with_ciphers, seal.
  change (AesCtr_new (ztake KEY_LEN (slice nonce SKIP_LEN (SKIP_LEN + KEY_LEN + IV_LEN)))
    (be_val (zdrop KEY_LEN (slice nonce SKIP_LEN (SKIP_LEN + KEY_LEN + IV_LEN))))) with (from_sender (fun k => k) nonce).
  by destruct (AesCtr_encrypt (from_sender (fun k => k) nonce) nonce).
Qed.

(** What the proxy, and the data centre, have after a header is sent. *)
Definition tg_opened (tag : ProtoTag) (dc_idx : Z) (client_enc_key : bytes) (client_enc_iv : Z) (fast_mode : bool)
    (tg_dec_key : bytes) (tg_dec_iv : Z) (sent : bytes * AesCtr * AesCtr) : Prop :=
  let '(header, encryptor, decryptor) := sent in
  zlen header = 64 /\ is_valid_nonce header = true /\
  open_header (fun k => k) header = Some (tag, dc_idx) /\
  encryptor = snd (AesCtr_decrypt (from_sender (fun k => k) header) header) /\
  decryptor = to_sender (fun k => k) header /\ decryptor = AesCtr_new tg_dec_key tg_dec_iv /\
  (fast_mode = true -> tg_dec_key = client_enc_key /\ tg_dec_iv = client_enc_iv).

Lemma tg_header_opens fuel i tag dc_idx client_enc_key client_enc_iv (rng : G) fast_mode :
  (i < fuel)%nat -> is_valid_nonce (nonce_draw i rng) = true -> in_i16 dc_idx ->
  zlen client_enc_key = 32 -> bytes_ok client_enc_key -> 0 <= client_enc_iv < 2 ^ 128 ->
  exists nonce tg_enc_key tg_enc_iv tg_dec_key tg_dec_iv rng',
    generate_tg_nonce fuel tag dc_idx client_enc_key client_enc_iv rng fast_mode =
      Some (nonce, tg_enc_key, tg_enc_iv, tg_dec_key, tg_dec_iv, rng') /\
    tg_opened tag dc_idx client_enc_key client_enc_iv fast_mode tg_dec_key tg_dec_iv (encrypt_tg_nonce_with_ciphers nonce).
Proof.
  intros Hi Hv Hdc Hk Hkok Hiv.
  destruct (generate_tg_nonce_draw fuel i tag dc_idx client_enc_key client_enc_iv rng fast_mode Hi Hv)
    as (nonce & rng' & Hn & Hok & Hvn & Hgen).
  destruct (tg_fill_parts nonce tag dc_idx client_enc_key client_enc_iv fast_mode Hn Hok Hk Hkok)
    as (a & m & z & Hfill & Ha & Hm & Hz & Hzok & Hav & Hfast).
  cbv zeta in Hgen. do 6 eexists. split; [exact Hgen|]. rewrite encrypt_tg_nonce_eq. unfold tg_opened. cbv zeta. rewrite Hfill, app_assoc.
  destruct (open_sealed (fun k => k) (a ++ m) z tag dc_idx) as (Hl & Ht & Hkm & Ho & Hs); [rewrite zlen_app; lia|done..|].
  set (n := (a ++ m) ++ ProtoTag_to_bytes tag ++ le_bytes 2 dc_idx ++ z) in *.
  assert (key_material n = m) as Hkn.
  { unfold n, key_material. rewrite <-app_assoc. apply slice_mid; lia. }
  split_and!; [| |done|done| |done|].
  - rewrite Hl. unfold n. rewrite !zlen_app, zlen_tag, zlen_le_bytes. lia.
  - rewrite <-(ztake_zdrop 56 (seal _ n)), Ht, <-app_assoc, is_valid_nonce_head by done. by rewrite Hav.
  - unfold to_sender. by rewrite Hkm.
  - intros ->. rewrite Hkn, Hfast, reverse_involutive by done.
    rewrite ztake_app, zdrop_app by done. split; [done|]. apply be_val_be_bytes_small. lia.
Qed.

(** C27: the header sent to Telegram.  When one of the draws is acceptable, a nonce is produced; the
    header made from it does not look like another protocol, opens at the data centre to the tag
    and index requested, and the proxy's encryptor and decryptor are exactly the data centre's key
    streams, at the same position.  In fast mode the stream from the data centre is the client's
    own, so its bytes can be passed on without being decrypted. *)
Theorem tg_handshake_opens fuel i tag dc_idx client_enc_key client_enc_iv (rng : G) fast_mode :
  (i < fuel)%nat -> is_valid_nonce (nonce_draw i rng) = true -> in_i16 dc_idx ->
  zlen client_enc_key = 32 -> bytes_ok client_enc_key -> 0 <= client_enc_iv < 2 ^ 128 ->
  exists nonce tg_enc_key tg_enc_iv tg_dec_key tg_dec_iv rng',
    generate_tg_nonce fuel tag dc_idx client_enc_key client_enc_iv rng fast_mode =
      Some (nonce, tg_enc_key, tg_enc_iv, tg_dec_key, tg_dec_iv, rng') /\
    let '(header, encryptor, decryptor) := encrypt_tg_nonce_with_ciphers nonce in
    zlen header = 64 /\ is_valid_nonce header = true /\
    open_header (fun k => k) header = Some (tag, dc_idx) /\
    encryptor = snd (AesCtr_decrypt (from_sender (fun k => k) header) header) /\
    decryptor = to_sender (fun k => k) header /\ decryptor = AesCtr_new tg_dec_key tg_dec_iv /\
    (fast_mode = true -> tg_dec_key = client_enc_key /\ tg_dec_iv = client_enc_iv).
Proof. apply tg_header_opens. Qed.

End Telegram.

(** ** Runs of the handshakes *)

Import Crypto.Demo Random.DemoRng.

Definition demo_hex (s : string) : option bytes :=
  if decide (s = "aa") then Some [170] else if decide (s = "bb") then Some [187; 1] else None.
Definition demo_config : HandshakeConfig :=
  mkHandshakeConfig [("zed", "not hex"); ("ann", "aa"); ("bob", "bb")] true true true 0.
Definition demo_nonce : bytes := map (fun i => (Z.of_nat i * 5 + 1) mod 256) (seq 0 64).
Definition demo_peer : SocketAddr := mkSocketAddr (V4 [10; 0; 0; 1]) 443.
Definition demo_header : bytes := header_of (with_secret [187; 1]) demo_nonce Secure (-2).
Definition demo_checker : ReplayChecker := ReplayChecker_new 64 100.
Definition demo_after : bool * ReplayChecker :=
  default (true, demo_checker) (check_and_add_internal le_val (-1000) demo_checker (key_material demo_header) 5).

Lemma client_handshake_accepted_witness :
  exists success,
    handle_mtproto_handshake le_val (-1000) demo_hex demo_header tt tt demo_peer demo_config demo_checker 5 true =
      Some (HSuccess
        (CryptoReader_new tt (snd (AesCtr_encrypt (from_sender (with_secret [187; 1]) (fill_in demo_nonce Secure (-2)))
           (fill_in demo_nonce Secure (-2)))),
         CryptoWriter_new tt (to_sender (with_secret [187; 1]) (fill_in demo_nonce Secure (-2))) 0,
         success), snd demo_after) /\
    hs_user success = "bob" /\ hs_proto_tag success = Secure /\ hs_dc_idx success = -2 /\
    AesCtr_new (hs_enc_key success) (hs_enc_iv success) = to_sender (with_secret [187; 1]) (fill_in demo_nonce Secure (-2)).
Proof.
  apply (client_handshake_accepted le_val (-1000) demo_hex "bob" "bb" [187; 1] demo_nonce Secure (-2)
    [("zed", "not hex"); ("ann", "aa")] [] demo_config tt tt demo_peer demo_checker (snd demo_after) 5 true).
  - reflexivity.
  - apply (bool_decide_unpack _). vm_compute. exact I.
  - unfold in_i16. lia.
  - reflexivity.
  - reflexivity.
  - apply List.Forall_cons; [exact I|]. apply List.Forall_cons; [vm_compute; exact I|]. apply List.Forall_nil.
  - reflexivity.
  - vm_eq.
Defined.

Definition demo_session : CryptoReader unit * CryptoWriter unit * HandshakeSuccess :=
  session [187; 1] demo_header demo_config "bob" Secure (-2) demo_peer true tt tt.

Lemma replayed_handshake_refused_witness :
  exists checker2 checker3, replay_run le_val (-1000) (snd demo_after) [RCheckAdd [1] 20] = Some checker2 /\
    handle_mtproto_handshake le_val (-1000) demo_hex demo_header tt tt demo_peer demo_config checker2 60 false =
      Some (HBadClient tt tt, checker3).
Proof.
  apply (replayed_handshake_refused le_val (-1000) demo_hex 64 100 [] [RCheckAdd [1] 20] 5 60 demo_checker (snd demo_after)
    demo_header demo_header tt tt demo_peer demo_config true demo_session tt tt demo_peer false).
  - vm_eq.
  - reflexivity.
  - reflexivity.
  - vm_eq.
  - cbn. repeat (apply List.Forall_cons; [unfold recent; lia|]). apply List.Forall_nil.
  - vm_eq.
Defined.

Lemma tg_handshake_opens_witness :
  exists nonce tg_enc_key tg_enc_iv tg_dec_key tg_dec_iv rng',
    generate_tg_nonce 2 Intermediate 4 (repeat 7 32) 9 0 true =
      Some (nonce, tg_enc_key, tg_enc_iv, tg_dec_key, tg_dec_iv, rng') /\
    let '(header, encryptor, decryptor) := encrypt_tg_nonce_with_ciphers nonce in
    zlen header = 64 /\ is_valid_nonce header = true /\
    open_header (fun k => k) header = Some (Intermediate, 4) /\
    encryptor = snd (AesCtr_decrypt (from_sender (fun k => k) header) header) /\
    decryptor = to_sender (fun k => k) header /\ decryptor = AesCtr_new tg_dec_key tg_dec_iv /\
    (true = true -> tg_dec_key = repeat 7 32 /\ tg_dec_iv = 9).
Proof.
  apply (tg_handshake_opens 2 1 Intermediate 4 (repeat 7 32) 9 0 true).
  - lia.
  - reflexivity.
  - unfold in_i16. lia.
  - reflexivity.
  - apply (bool_decide_unpack _). vm_compute. exact I.
  - lia.
Defined.
