(* ===== verification/DirectRelay.v ===== *)
(** * The direct path: [proxy/relay.rs] and [proxy/direct_relay.rs]

    A client that is not sent through a middle proxy is connected to a data centre, the obfuscation header is
    sent there, and [relay_bidirectional] moves bytes both ways until one side is done or nothing has
    moved on the client's side for half an hour.  [tokio::io::copy_bidirectional] is not this code: what it polls,
    and when, is the relay's list of events, and so is the moment the watchdog's sleep ends.  An instant is a
    number of nanoseconds. *)

From stdpp Require Import gmap.
From S2P Require Import Prelude NetAddr Errors Crypto Random Constants AsyncIo CryptoStream Stats Obfuscation.

(** ** The relay (relay.rs:64-196) *)

(** [ACTIVITY_TIMEOUT] in milliseconds, [WATCHDOG_INTERVAL] in nanoseconds. *)
Definition ACTIVITY_TIMEOUT : Z := 1800 * 1000.
Definition WATCHDOG_INTERVAL : Z := 10 * 1000000000.

Record CombinedStream (R W : Type) := mkCombined { cs_reader : R; cs_writer : W }.
Arguments mkCombined {_ _} _ _.
Arguments cs_reader {_ _} _.
Arguments cs_writer {_ _} _.

(** [AsyncWriteExt::shutdown().await], whose result the relay ignores. *)
Class AsyncShutdown (W : Type) := { shutdown : W -> option W }.

Section Combined.
Context `{AsyncRead R} `{AsyncWrite W} `{!AsyncShutdown W}.

Definition combined_poll_read (this : CombinedStream R W) (cap : Z) : option (Poll (io_result bytes) * CombinedStream R W) :=
  '(p, r) ← poll_read (cs_reader this) cap; Some (p, mkCombined r (cs_writer this)).
Definition combined_poll_write (this : CombinedStream R W) (buf : bytes) : option (Poll (io_result Z) * CombinedStream R W) :=
  '(p, w) ← poll_write (cs_writer this) buf; Some (p, mkCombined (cs_reader this) w).
Definition combined_poll_flush (this : CombinedStream R W) : option (Poll (io_result unit) * CombinedStream R W) :=
  '(p, w) ← poll_flush (cs_writer this); Some (p, mkCombined (cs_reader this) w).
Definition combined_shutdown (this : CombinedStream R W) : option (CombinedStream R W) :=
  w ← shutdown (cs_writer this); Some (mkCombined (cs_reader this) w).

End Combined.

Record SharedCounters := mkSharedCounters {
  c2s_bytes : Z;
  s2c_bytes : Z;
  c2s_ops : Z;
  s2c_ops : Z;
  last_activity_ms : Z
}.

Definition SharedCounters_new : SharedCounters := mkSharedCounters 0 0 0 0 0.

(** [now.duration_since(epoch).as_millis() as u64] *)
Definition millis_since (now epoch : Z) : Z := u64 (sat_sub now epoch / 1000000).

Definition touch (self : SharedCounters) (now epoch : Z) : SharedCounters :=
  mkSharedCounters (c2s_bytes self) (s2c_bytes self) (c2s_ops self) (s2c_ops self) (millis_since now epoch).

(** In milliseconds. *)
Definition idle_duration (self : SharedCounters) (now epoch : Z) : Z :=
  sat_sub (millis_since now epoch) (last_activity_ms self).

Definition count_c2s (self : SharedCounters) (n : Z) : SharedCounters :=
  mkSharedCounters (u64 (c2s_bytes self + n)) (s2c_bytes self) (u64 (c2s_ops self + 1)) (s2c_ops self) (last_activity_ms self).
Definition count_s2c (self : SharedCounters) (n : Z) : SharedCounters :=
  mkSharedCounters (c2s_bytes self) (u64 (s2c_bytes self + n)) (c2s_ops self) (u64 (s2c_ops self + 1)) (last_activity_ms self).

(** ** [StatsIo] (relay.rs:198-293)

    The counters are shared with the watchdog, which runs in the same task; the statistics are the whole
    proxy's and are passed along. *)

Record StatsIo (S : Type) := mkStatsIo { si_inner : S; si_counters : SharedCounters; si_user : string; si_epoch : Z }.
Arguments mkStatsIo {_} _ _ _ _.
Arguments si_inner {_} _.
Arguments si_counters {_} _.
Arguments si_user {_} _.
Arguments si_epoch {_} _.

Definition StatsIo_new {S} (inner : S) (counters : SharedCounters) (user : string) (epoch now : Z) : StatsIo S :=
  mkStatsIo inner (touch counters now epoch) user epoch.

Section StatsIo.
Context `{AsyncRead R} `{AsyncWrite W} `{!AsyncShutdown W}.
Abbreviation client_io := (StatsIo (CombinedStream R W)) (only parsing).

Definition stats_poll_read (this : client_io) (stats : Stats) (cap now : Z)
    : option (Poll (io_result bytes) * client_io * Stats) :=
  '(p, inner) ← combined_poll_read (si_inner this) cap;
  match p with
  | Ready (Ok bs) =>
      let n := zlen bs in
      if 0 <? n then
        let counters := touch (count_c2s (si_counters this) n) now (si_epoch this) in
        let stats := add_user_octets_from stats (si_user this) n in
        let stats := increment_user_msgs_from stats (si_user this) in
        Some (p, mkStatsIo inner counters (si_user this) (si_epoch this), stats)
      else Some (p, mkStatsIo inner (si_counters this) (si_user this) (si_epoch this), stats)
  | _ => Some (p, mkStatsIo inner (si_counters this) (si_user this) (si_epoch this), stats)
  end.

Definition stats_poll_write (this : client_io) (stats : Stats) (buf : bytes) (now : Z)
    : option (Poll (io_result Z) * client_io * Stats) :=
  '(p, inner) ← combined_poll_write (si_inner this) buf;
  match p with
  | Ready (Ok n) =>
      if 0 <? n then
        let counters := touch (count_s2c (si_counters this) n) now (si_epoch this) in
        let stats := add_user_octets_to stats (si_user this) n in
        let stats := increment_user_msgs_to stats (si_user this) in
        Some (p, mkStatsIo inner counters (si_user this) (si_epoch this), stats)
      else Some (p, mkStatsIo inner (si_counters this) (si_user this) (si_epoch this), stats)
  | _ => Some (p, mkStatsIo inner (si_counters this) (si_user this) (si_epoch this), stats)
  end.

Definition stats_poll_flush (this : client_io) : option (Poll (io_result unit) * client_io) :=
  '(p, inner) ← combined_poll_flush (si_inner this);
  Some (p, mkStatsIo inner (si_counters this) (si_user this) (si_epoch this)).

Definition stats_shutdown (this : client_io) : option client_io :=
  inner ← combined_shutdown (si_inner this);
  Some (mkStatsIo inner (si_counters this) (si_user this) (si_epoch this)).

End StatsIo.

(** ** [relay_bidirectional] (relay.rs:315-465) *)

Inductive side := Client | Server.

Definition same_side (a b : side) : bool :=
  match a, b with Client, Client | Server, Server => true | _, _ => false end.

(** What the copying future polls next, and what the poll answers. *)
Inductive copy_call := CallRead (from : side) (cap : Z) | CallWrite (to : side) (data : bytes) | CallFlush (to : side).
Inductive copy_answer := AnsRead (p : Poll (io_result bytes)) | AnsWrite (p : Poll (io_result Z)) | AnsFlush (p : Poll (io_result unit)).

(** One thing the select may do: the copying future polls a stream or returns, or the watchdog's sleep is over. *)
Inductive relay_event :=
| EvCopy (call : copy_call) (now : Z)
| EvCopied (res : io_result (Z * Z))
| EvTick (now : Z).

(** How the select ends. *)
Inductive ending := ByCopy (res : io_result (Z * Z)) | ByTimeout.

Record history_item := mkItem { it_call : copy_call; it_answer : copy_answer; it_time : Z }.
Abbreviation trace := (list history_item) (only parsing).

Section Relay.
Context {CR CW SR SW : Type} `{AsyncRead CR} `{AsyncWrite CW} `{!AsyncShutdown CW}.
Context `{AsyncRead SR} `{AsyncWrite SW} `{!AsyncShutdown SW}.

(** The two streams, the statistics, and the watchdog's locals. *)
Record Relay := mkRelay {
  rl_client : StatsIo (CombinedStream CR CW);
  rl_server : CombinedStream SR SW;
  rl_stats : Stats;
  prev_c2s : Z;
  prev_s2c : Z
}.

Definition relay_start (client_reader : CR) (client_writer : CW) (server_reader : SR) (server_writer : SW)
    (user : string) (stats : Stats) (epoch now : Z) : Relay :=
  let client_combined := mkCombined client_reader client_writer in
  let server := mkCombined server_reader server_writer in
  let client := StatsIo_new client_combined SharedCounters_new user epoch now in
  mkRelay client server stats 0 0.

Definition with_server (self : Relay) (server : CombinedStream SR SW) : Relay :=
  mkRelay (rl_client self) server (rl_stats self) (prev_c2s self) (prev_s2c self).
Definition with_client (self : Relay) (client : StatsIo (CombinedStream CR CW)) (stats : Stats) : Relay :=
  mkRelay client (rl_server self) stats (prev_c2s self) (prev_s2c self).

Definition copy_poll (self : Relay) (call : copy_call) (now : Z) : option (copy_answer * Relay) :=
  match call with
  | CallRead Client cap =>
      '(p, client, stats) ← stats_poll_read (rl_client self) (rl_stats self) cap now;
      Some (AnsRead p, with_client self client stats)
  | CallRead Server cap =>
      '(p, server) ← combined_poll_read (rl_server self) cap; Some (AnsRead p, with_server self server)
  | CallWrite Client data =>
      '(p, client, stats) ← stats_poll_write (rl_client self) (rl_stats self) data now;
      Some (AnsWrite p, with_client self client stats)
  | CallWrite Server data =>
      '(p, server) ← combined_poll_write (rl_server self) data; Some (AnsWrite p, with_server self server)
  | CallFlush Client =>
      '(p, client) ← stats_poll_flush (rl_client self); Some (AnsFlush p, with_client self client (rl_stats self))
  | CallFlush Server =>
      '(p, server) ← combined_poll_flush (rl_server self); Some (AnsFlush p, with_server self server)
  end.

(** The watchdog after a sleep: it returns, or logs the rates and sleeps again. *)
Definition watchdog_wakes (self : Relay) (now : Z) : bool * Relay :=
  let wd_counters := si_counters (rl_client self) in
  if ACTIVITY_TIMEOUT <=? idle_duration wd_counters now (si_epoch (rl_client self)) then (true, self)
  else (false, mkRelay (rl_client self) (rl_server self) (rl_stats self) (c2s_bytes wd_counters) (s2c_bytes wd_counters)).

Fixpoint relay_run (self : Relay) (evs : list relay_event) : option (Relay * trace * option ending) :=
  match evs with
  | [] => Some (self, [], None)
  | EvCopied res :: _ => Some (self, [], Some (ByCopy res))
  | EvTick now :: evs =>
      let '(timeout, self) := watchdog_wakes self now in
      if timeout then Some (self, [], Some ByTimeout) else relay_run self evs
  | EvCopy call now :: evs =>
      '(answer, self) ← copy_poll self call now;
      '(self, tr, e) ← relay_run self evs;
      Some (self, mkItem call answer now :: tr, e)
  end.

(** The result: [None] while the select has not ended. *)
Definition relay_result (e : ending) : result ProxyError unit :=
  match e with
  | ByCopy (Ok _) => Ok tt
  | ByCopy (Err e) => Err (PE_Io e)
  | ByTimeout => Ok tt
  end.

Definition relay_close (self : Relay) : option Relay :=
  client ← stats_shutdown (rl_client self);
  server ← combined_shutdown (rl_server self);
  Some (with_server (with_client self client (rl_stats self)) server).

Definition relay_bidirectional (client_reader : CR) (client_writer : CW) (server_reader : SR) (server_writer : SW)
    (user : string) (stats : Stats) (epoch now : Z) (evs : list relay_event)
    : option (option (result ProxyError unit) * Relay) :=
  '(self, _, e) ← relay_run (relay_start client_reader client_writer server_reader server_writer user stats epoch now) evs;
  match e with
  | Some e => self ← relay_close self; Some (Some (relay_result e), self)
  | None => Some (None, self)
  end.

End Relay.
Arguments Relay : clear implicits.

(** ** Data-centre addresses (constants.rs:12-32, direct_relay.rs:82-146) *)

Definition TG_DATACENTER_PORT : Z := 443.

Definition TG_DATACENTERS_V4 : list IpAddr :=
  [V4 [149; 154; 175; 50]; V4 [149; 154; 167; 51]; V4 [149; 154; 175; 100]; V4 [149; 154; 167; 91]; V4 [149; 154; 171; 5]].

(** [s.parse().unwrap()] *)
Definition parsed_ipv6 (s : string) : IpAddr := V6 (default [] (parse_ipv6 (str s))).

Definition TG_DATACENTERS_V6 : list IpAddr :=
  map parsed_ipv6 ["2001:b28:f23d:f001::a"; "2001:67c:04e8:f002::a"; "2001:b28:f23d:f003::a"; "2001:67c:04e8:f004::a";
                   "2001:b28:f23f:f005::a"]%string.

(** What these functions read of the configuration. *)
Record DcConfig := mkDcConfig {
  network_prefer : Z;
  network_ipv6 : option bool;
  dc_overrides : gmap bytes (list bytes);
  default_dc : option Z;
  unknown_dc_log_path : bool;
  dc_crypto_pending_buffer : Z;
  dc_fast_mode : bool
}.

(** [i16::to_string] and [i16::unsigned_abs] *)
Definition i16_to_string (z : Z) : bytes := fmt_int z.

Definition prefers_v6 (config : DcConfig) : bool :=
  (network_prefer config =? 6) && default true (network_ipv6 config).

(** The address, and the index that is appended to the log of unknown data centres. *)
Definition get_dc_addr_static (dc_idx : Z) (config : DcConfig) : result ProxyError SocketAddr * option Z :=
  let prefer_v6 := prefers_v6 config in
  let datacenters := if prefer_v6 then TG_DATACENTERS_V6 else TG_DATACENTERS_V4 in
  let num_dcs := zlen datacenters in
  let at_index i := mkSocketAddr (nth (Z.to_nat i) datacenters (V4 [])) TG_DATACENTER_PORT in
  let dc_key := i16_to_string dc_idx in
  let override :=
    match dc_overrides config !! dc_key with
    | Some addrs =>
        let parsed := omap parse_socket_addr addrs in
        option_or (snd <$> list_find (fun a => Bool.eqb (is_ipv6 (sa_ip a)) prefer_v6 = true) parsed) (head parsed)
    | None => None
    end in
  match override with
  | Some addr => (Ok addr, None)
  | None =>
      let abs_dc := Z.abs dc_idx in
      if (1 <=? abs_dc) && (abs_dc <=? num_dcs) then (Ok (at_index (abs_dc - 1)), None)
      else
        let log :=
          match dc_overrides config !! dc_key with
          | None => if unknown_dc_log_path config then Some dc_idx else None
          | Some _ => None
          end in
        let default_dc := default 2 (default_dc config) in
        let fallback_idx := if (1 <=? default_dc) && (default_dc <=? num_dcs) then default_dc - 1 else 1 in
        (Ok (at_index fallback_idx), log)
  end.

(** ** The handshake with the data centre (direct_relay.rs:148-186) *)

Section Direct.
Context `{StreamCipher} `{Digests} {G : Type} `{Rng G}.
Context {SR SW : Type} `{AsyncRead SR} `{AsyncWrite SW} `{!AsyncShutdown SW}.

#[export] Instance crypto_shutdown : AsyncShutdown (CryptoWriter SW) := {|
  shutdown this :=
    this ← crypto_poll_shutdown this;
    up ← shutdown (cw_upstream this);
    Some (cw_set_state this up (cw_state this))
|}.

(** A [TcpStream] is its two halves. *)
Definition do_tg_handshake_static (fuel : nat) (stream : CombinedStream SR SW) (success : HandshakeSuccess)
    (config : DcConfig) (rng : G) : option (result ProxyError (CryptoReader SR * CryptoWriter SW) * G) :=
  match generate_tg_nonce fuel (hs_proto_tag success) (hs_dc_idx success) (hs_enc_key success) (hs_enc_iv success) rng
          (dc_fast_mode config) with
  | None => None
  | Some (nonce, _, _, _, _, rng) =>
      let '(encrypted_nonce, tg_encryptor, tg_decryptor) := encrypt_tg_nonce_with_ciphers nonce in
      match write_all fuel (cs_writer stream) encrypted_nonce with
      | None => None
      | Some (Err e, _) => Some (Err (PE_Io e), rng)
      | Some (Ok _, w) =>
          match flush_await fuel w with
          | None => None
          | Some (Err e, _) => Some (Err (PE_Io e), rng)
          | Some (Ok _, write_half) =>
              let max_pending := dc_crypto_pending_buffer config in
              Some (Ok (CryptoReader_new (cs_reader stream) tg_decryptor,
                        CryptoWriter_new write_half tg_encryptor max_pending), rng)
          end
      end
  end.

(** [user.strip_prefix("scope_").filter(|s| !s.is_empty())] *)
Definition scope_of (user : string) : option string :=
  if String.prefix "scope_" user then
    let s := String.substring 6 (String.length user - 6) user in
    if String.eqb s "" then None else Some s
  else None.

(** ** [handle_via_direct] (direct_relay.rs:20-80)

    [connect] is the upstream manager's answer; the statistics come back as they are when the function
    returns, or as far as it got ([None]). *)
Definition handle_via_direct {CR CW : Type} `{AsyncRead CR} `{AsyncWrite CW} `{!AsyncShutdown CW}
    (fuel : nat) (client_reader : CR) (client_writer : CW) (success : HandshakeSuccess)
    (connect : SocketAddr -> option Z -> option string -> result ProxyError (CombinedStream SR SW))
    (stats : Stats) (config : DcConfig) (rng : G) (epoch now : Z) (evs : list relay_event)
    : option (option (result ProxyError unit) * Stats * G) :=
  let user := hs_user success in
  match get_dc_addr_static (hs_dc_idx success) config with
  | (Err e, _) => Some (Some (Err e), stats, rng)
  | (Ok dc_addr, _) =>
      match connect dc_addr (Some (hs_dc_idx success)) (scope_of user) with
      | Err e => Some (Some (Err e), stats, rng)
      | Ok tg_stream =>
          match do_tg_handshake_static fuel tg_stream success config rng with
          | None => None
          | Some (Err e, rng) => Some (Some (Err e), stats, rng)
          | Some (Ok (tg_reader, tg_writer), rng) =>
              let stats := increment_user_connects stats user in
              let stats := increment_user_curr_connects stats user in
              match relay_bidirectional client_reader client_writer tg_reader tg_writer user stats epoch now evs with
              | None => None
              | Some (None, relay) => Some (None, rl_stats relay, rng)
              | Some (Some relay_result, relay) =>
                  let stats := decrement_user_curr_connects (rl_stats relay) user in
                  Some (Some relay_result, stats, rng)
              end
          end
      end
  end.

End Direct.

(** ** What a run did, from its history *)

Section History.

Definition caps_of (s : side) (it : history_item) : list Z :=
  match it_call it with CallRead s' cap => if same_side s' s then [cap] else [] | _ => [] end.
Definition ops_of (s : side) (it : history_item) : list write_op :=
  match it_call it with
  | CallWrite s' data => if same_side s' s then [OpWrite data] else []
  | CallFlush s' => if same_side s' s then [OpFlush] else []
  | _ => []
  end.

(** The bytes an item moved from the stream of [s], and those the stream of [s] accepted. *)
Definition item_read (s : side) (it : history_item) : bytes :=
  match it with
  | mkItem (CallRead s' _) (AnsRead (Ready (Ok bs))) _ => if same_side s' s then bs else []
  | _ => []
  end.
Definition item_written (s : side) (it : history_item) : bytes :=
  match it with
  | mkItem (CallWrite s' data) (AnsWrite (Ready (Ok n))) _ => if same_side s' s then ztake n data else []
  | _ => []
  end.

Definition read_from (s : side) (tr : trace) : bytes := tr ≫= item_read s.
Definition written_to (s : side) (tr : trace) : bytes := tr ≫= item_written s.

(** [copy_bidirectional] offers a side only what it has read from the other and not yet had accepted: [held s]
    is what it holds for [s]. *)
Definition other (s : side) : side := match s with Client => Server | Server => Client end.

Fixpoint copies (held : side -> bytes) (tr : trace) : bool :=
  match tr with
  | [] => true
  | it :: tr =>
      match it_call it with CallWrite s data => bool_decide (data `prefix_of` held s) | _ => true end &&
      copies (fun s => zdrop (zlen (item_written s it)) (held s) ++ item_read (other s) it) tr
  end.

Lemma copies_prefix held tr s :
  copies held tr = true -> written_to s tr `prefix_of` held s ++ read_from (other s) tr.
Proof.
  revert held. induction tr as [|it tr IH]; intros held; cbn [copies]; [intros; apply prefix_nil|].
  intros [Hd Hc]%andb_prop. apply IH in Hc. unfold written_to, read_from in *. rewrite !bind_cons.
  assert (item_written s it `prefix_of` held s) as [k Hk].
  { destruct it as [[|s0 data|] [|[|[n|]]|] t]; try apply prefix_nil. cbn in *. destruct (same_side s0 s) eqn:Es; [|apply prefix_nil].
    assert (s0 = s) as -> by (by destruct s0, s). apply bool_decide_eq_true in Hd. etransitivity; [|exact Hd]. exists (zdrop n data). by rewrite ztake_zdrop. }
  rewrite Hk in *. rewrite zdrop_app in Hc by done. rewrite <-!app_assoc in *. by apply prefix_app.
Qed.

End History.

(** ** The relay is nothing but polls of its streams *)

(** The cases of a poll: which stream it reaches, and what that stream answers. *)
Ltac poll_cases :=
  cbn; unfold stats_poll_read, stats_poll_write, stats_poll_flush, combined_poll_read, combined_poll_write,
    combined_poll_flush; cbn;
  try destruct (poll_read _ _) as [[? ?]|] eqn:E; try destruct (poll_write _ _) as [[? ?]|] eqn:E;
  try destruct (poll_flush _) as [[? ?]|] eqn:E; cbn; try done;
  repeat match goal with p : Poll _ |- _ => destruct p as [|[?|?]] end; cbn;
  try destruct (0 <? _) eqn:Ez.

Section RelayOk.
Context {CR CW SR SW : Type} `{AsyncRead CR} `{AsyncWrite CW} `{!AsyncShutdown CW}.
Context `{AsyncRead SR} `{AsyncWrite SW} `{!AsyncShutdown SW}.
Abbreviation relay := (Relay CR CW SR SW) (only parsing).

Definition client_reader (self : relay) : CR := cs_reader (si_inner (rl_client self)).
Definition client_writer (self : relay) : CW := cs_writer (si_inner (rl_client self)).
Definition server_reader (self : relay) : SR := cs_reader (rl_server self).
Definition server_writer (self : relay) : SW := cs_writer (rl_server self).

(** What one poll does to the relay: to the streams, to the counters, to the statistics. *)
Definition count_item (it : history_item) (epoch : Z) (c : SharedCounters) : SharedCounters :=
  let r := zlen (item_read Client it) in
  let w := zlen (item_written Client it) in
  if 0 <? r then touch (count_c2s c r) (it_time it) epoch
  else if 0 <? w then touch (count_s2c c w) (it_time it) epoch
  else c.
Definition count_stats (it : history_item) (user : string) (s : Stats) : Stats :=
  let r := zlen (item_read Client it) in
  let w := zlen (item_written Client it) in
  if 0 <? r then increment_user_msgs_from (add_user_octets_from s user r) user
  else if 0 <? w then increment_user_msgs_to (add_user_octets_to s user w) user
  else s.

(** Writers do not claim to have accepted more than they were offered. *)
Definition item_sane (it : history_item) : Prop :=
  match it with mkItem (CallWrite _ data) (AnsWrite (Ready (Ok n))) _ => 0 <= n <= zlen data | _ => True end.

Definition polled (self : relay) (it : history_item) (self' : relay) : Prop :=
  drive_reads (client_reader self) (caps_of Client it) = Some (item_read Client it, client_reader self') /\
  drive_writes (client_writer self) (ops_of Client it) = Some (item_written Client it, client_writer self') /\
  drive_reads (server_reader self) (caps_of Server it) = Some (item_read Server it, server_reader self') /\
  drive_writes (server_writer self) (ops_of Server it) = Some (item_written Server it, server_writer self').

Definition counted (self : relay) (it : history_item) (self' : relay) : Prop :=
  si_user (rl_client self') = si_user (rl_client self) /\ si_epoch (rl_client self') = si_epoch (rl_client self) /\
  si_counters (rl_client self') = count_item it (si_epoch (rl_client self)) (si_counters (rl_client self)) /\
  rl_stats self' = count_stats it (si_user (rl_client self)) (rl_stats self).

Lemma copy_poll_polled (self : relay) call now answer self' :
  copy_poll self call now = Some (answer, self') -> polled self (mkItem call answer now) self'.
Proof.
  destruct self as [[[cr cw] c u ep] [sr sw] st p1 p2]. unfold polled, client_reader, client_writer, server_reader, server_writer.
  destruct call as [[] cap|[] data|[]]; poll_cases; intros [= <- <-]; cbn; rewrite ?E; cbn; rewrite ?app_nil_r; try done.
Qed.

Lemma copy_poll_counted (self : relay) call now answer self' :
  copy_poll self call now = Some (answer, self') -> item_sane (mkItem call answer now) ->
  counted self (mkItem call answer now) self'.
Proof.
  destruct self as [[[cr cw] c u ep] [sr sw] st p1 p2]. unfold counted, count_item, count_stats.
  destruct call as [[] cap|[] data|[]]; poll_cases; intros [= <- <-]; cbn; intros Hs; try done.
  all: rewrite ?zlen_ztake, ?Z.min_l, ?Z.max_r by lia; cbn; rewrite ?Ez; done.
Qed.

(** Over a whole run each stream is driven by its own polls. *)
Definition ran (self : relay) (tr : trace) (self' : relay) : Prop :=
  drive_reads (client_reader self) (tr ≫= caps_of Client) = Some (read_from Client tr, client_reader self') /\
  drive_writes (client_writer self) (tr ≫= ops_of Client) = Some (written_to Client tr, client_writer self') /\
  drive_reads (server_reader self) (tr ≫= caps_of Server) = Some (read_from Server tr, server_reader self') /\
  drive_writes (server_writer self) (tr ≫= ops_of Server) = Some (written_to Server tr, server_writer self').

Lemma relay_run_ran (self : relay) evs self' tr e : relay_run self evs = Some (self', tr, e) -> ran self tr self'.
Proof.
  revert self tr. induction evs as [|[call now|res|now] evs IH]; intros self tr; cbn [relay_run].
  - by intros [= <- <- <-].
  - destruct (copy_poll self call now) as [[answer self1]|] eqn:E1; [|done]. cbn [mbind option_bind].
    destruct (relay_run self1 evs) as [[[self2 tr2] e2]|] eqn:E2; [|done]. cbn [mbind option_bind].
    intros [= <- <- <-]. apply copy_poll_polled in E1 as (P1 & P2 & P3 & P4). apply IH in E2 as (Q1 & Q2 & Q3 & Q4).
    unfold ran, read_from, written_to. rewrite !bind_cons.
    split_and!; eauto using drive_reads_app, drive_writes_app.
  - by intros [= <- <- <-].
  - unfold watchdog_wakes. destruct (_ <=? _); [by intros [= <- <- <-]|]. intros E. by apply IH in E.
Qed.

Lemma relay_run_counted (self : relay) evs self' tr e :
  relay_run self evs = Some (self', tr, e) -> Forall item_sane tr ->
  let epoch := si_epoch (rl_client self) in let user := si_user (rl_client self) in
  si_epoch (rl_client self') = epoch /\ si_user (rl_client self') = user /\
  si_counters (rl_client self') = foldl (fun c it => count_item it epoch c) (si_counters (rl_client self)) tr /\
  rl_stats self' = foldl (fun s it => count_stats it user s) (rl_stats self) tr.
Proof.
  revert self tr. induction evs as [|[call now|res|now] evs IH]; intros self tr; cbn [relay_run].
  - by intros [= <- <- <-].
  - destruct (copy_poll self call now) as [[answer self1]|] eqn:E1; [|done]. cbn [mbind option_bind].
    destruct (relay_run self1 evs) as [[[self2 tr2] e2]|] eqn:E2; [|done]. cbn [mbind option_bind].
    intros [= <- <- <-] [Hs Hs2]%Forall_cons. destruct (copy_poll_counted _ _ _ _ _ E1 Hs) as (P1 & P2 & P3 & P4).
    destruct (IH _ _ E2 Hs2) as (Q1 & Q2 & Q3 & Q4). cbv zeta in *. cbn [foldl]. by rewrite Q1, Q2, Q3, Q4, P1, P2, P3, P4.
  - by intros [= <- <- <-].
  - unfold watchdog_wakes. destruct (_ <=? _); [by intros [= <- <- <-]|]. intros E Hs. exact (IH _ _ E Hs).
Qed.

End RelayOk.

(** ** Over streams that keep their contracts *)

Section Contracts.
Context {CR CW SR SW : Type} `{AsyncReadOk CR} `{AsyncWriteOk CW} `{!AsyncShutdown CW}.
Context `{AsyncReadOk SR} `{AsyncWriteOk SW} `{!AsyncShutdown SW}.
Abbreviation relay := (Relay CR CW SR SW) (only parsing).

Definition streams_ok (self : relay) (a b : bytes) : Prop :=
  rd_ok (client_reader self) /\ wr_accepted (client_writer self) a /\
  rd_ok (server_reader self) /\ wr_accepted (server_writer self) b.

(** Nobody reads into an empty buffer. *)
Definition event_ok (ev : relay_event) : Prop :=
  match ev with EvCopy (CallRead _ cap) _ => 0 < cap | _ => True end.

Lemma copy_poll_ok (self : relay) call now a b :
  streams_ok self a b -> event_ok (EvCopy call now) ->
  exists answer self', copy_poll self call now = Some (answer, self') /\
    let it := mkItem call answer now in
    item_sane it /\ streams_ok self' (a ++ item_written Client it) (b ++ item_written Server it).
Proof.
  destruct self as [[[cr cw] c u ep] [sr sw] st p1 p2]. unfold streams_ok, client_reader, client_writer, server_reader, server_writer.
  cbn. intros (Hcr & Hcw & Hsr & Hsw) Hev.
  destruct call as [[] cap|[] data|[]]; cbn in *;
    unfold stats_poll_read, stats_poll_write, stats_poll_flush, combined_poll_read, combined_poll_write, combined_poll_flush; cbn.
  - destruct (poll_read_spec cr cap Hev Hcr) as (p & r & -> & Hr & _). cbn.
    destruct p as [|[bs|e]]; [|destruct (0 <? _)|]; eexists _, _; (split; [done|]); cbn; rewrite ?app_nil_r; tauto.
  - destruct (poll_read_spec sr cap Hev Hsr) as (p & r & -> & Hr & _). cbn.
    destruct p as [|[bs|e]]; eexists _, _; (split; [done|]); cbn; rewrite ?app_nil_r; tauto.
  - destruct (poll_write_spec cw a data Hcw) as (p & w & -> & Hp). cbn.
    destruct p as [|[n|e]]; [|destruct Hp as [Hn Hp]; destruct (0 <? _)|]; eexists _, _; (split; [done|]); cbn; rewrite ?app_nil_r; tauto.
  - destruct (poll_write_spec sw b data Hsw) as (p & w & -> & Hp). cbn.
    destruct p as [|[n|e]]; [|destruct Hp as [Hn Hp]|]; eexists _, _; (split; [done|]); cbn; rewrite ?app_nil_r; tauto.
  - destruct (poll_flush_spec cw a Hcw) as (p & w & -> & Hp). cbn. eexists _, _; (split; [done|]); cbn; rewrite ?app_nil_r; tauto.
  - destruct (poll_flush_spec sw b Hsw) as (p & w & -> & Hp). cbn. eexists _, _; (split; [done|]); cbn; rewrite ?app_nil_r; tauto.
Qed.

Lemma relay_run_total (self : relay) evs a b :
  streams_ok self a b -> Forall event_ok evs ->
  exists self' tr e, relay_run self evs = Some (self', tr, e) /\ Forall item_sane tr /\
    (forall s, Forall (fun cap => 0 < cap) (tr ≫= caps_of s)) /\
    streams_ok self' (a ++ written_to Client tr) (b ++ written_to Server tr).
Proof.
  revert self a b. induction evs as [|[call now|res|now] evs IH]; intros self a b Hs Hev; cbn [relay_run].
  - eexists _, _, _. split; [done|]. cbn. rewrite !app_nil_r. by split_and!.
  - apply Forall_cons in Hev as [Hev Hevs].
    destruct (copy_poll_ok self call now a b Hs Hev) as (answer & self1 & -> & Hsane & Hs1). cbn [mbind option_bind].
    destruct (IH _ _ _ Hs1 Hevs) as (self' & tr & e & -> & Hsane' & Hcaps & Hs'). cbn [mbind option_bind].
    eexists _, _, _. split; [done|]. unfold written_to. rewrite !bind_cons, !app_assoc.
    split_and!; [by constructor| |done]. intros s. rewrite bind_cons. apply Forall_app. split; [|done].
    destruct call; cbn; [|done..]. destruct (same_side _ _); [|done]. by repeat constructor.
  - eexists _, _, _. split; [done|]. cbn. rewrite !app_nil_r. by split_and!.
  - apply Forall_cons in Hev as [_ Hevs]. unfold watchdog_wakes. destruct (_ <=? _); [|by apply IH].
    eexists _, _, _. split; [done|]. cbn. rewrite !app_nil_r. by split_and!.
Qed.

(** What a faithful copy gives either side is a prefix of what the other side's stream holds. *)
Lemma relay_moves (self : relay) evs a b :
  streams_ok self a b -> Forall event_ok evs ->
  exists self' tr e, relay_run self evs = Some (self', tr, e) /\ ran self tr self' /\ Forall item_sane tr /\
    wr_accepted (client_writer self') (a ++ written_to Client tr) /\
    (copies (fun _ => []) tr = true ->
     written_to Server tr `prefix_of` rd_bytes (client_reader self) /\
     written_to Client tr `prefix_of` rd_bytes (server_reader self)).
Proof.
  intros Hs Hev. destruct (relay_run_total self evs a b Hs Hev) as (self' & tr & e & E & Hsane & Hcaps & _ & Hcw & _).
  exists self', tr, e. pose proof (relay_run_ran _ _ _ _ _ E) as Hran. split_and!; try done.
  intros Hc. destruct Hran as (R1 & _ & R3 & _). destruct Hs as (Hcr & _ & Hsr & _).
  destruct (drive_reads_spec _ _ (Hcaps Client) Hcr) as (ds & r1 & D1 & _ & B1 & _). rewrite R1 in D1. injection D1 as <- _.
  destruct (drive_reads_spec _ _ (Hcaps Server) Hsr) as (ds' & r2 & D2 & _ & B2 & _). rewrite R3 in D2. injection D2 as <- _.
  pose proof (copies_prefix _ _ Server Hc) as P1. pose proof (copies_prefix _ _ Client Hc) as P2. cbn [other app] in P1, P2.
  rewrite B1, B2. split; by apply prefix_app_r.
Qed.

End Contracts.

(** ** The counters and the statistics *)

Section Accounting.

Lemma item_one_way s it : zlen (item_read s it) = 0 \/ zlen (item_written s it) = 0.
Proof. destruct it as [[s' cap|s' data|s'] answer t]; [by right|by left|by left]. Qed.

Lemma read_one s it : read_from s [it] = item_read s it.
Proof. apply app_nil_r. Qed.
Lemma written_one s it : written_to s [it] = item_written s it.
Proof. apply app_nil_r. Qed.

(** Whether bytes moved on the client's side, and when they last did. *)
Definition moves (it : history_item) : bool :=
  (0 <? zlen (item_read Client it)) || (0 <? zlen (item_written Client it)).
Definition last_move (start : Z) (tr : trace) : Z := foldl (fun t it => if moves it then it_time it else t) start tr.

Lemma count_item_last it epoch c la :
  last_activity_ms c = millis_since la epoch ->
  last_activity_ms (count_item it epoch c) = millis_since (if moves it then it_time it else la) epoch.
Proof. intros Hl. unfold count_item, moves. by repeat case_match. Qed.

Lemma u64_idemp a : u64 (u64 a) = u64 a.
Proof. unfold u64. apply Zmod_mod. Qed.

Lemma counters_total tr epoch c :
  let c' := foldl (fun c it => count_item it epoch c) c tr in
  u64 (c2s_bytes c') = u64 (c2s_bytes c + zlen (read_from Client tr)) /\
  u64 (s2c_bytes c') = u64 (s2c_bytes c + zlen (written_to Client tr)).
Proof.
  revert c. induction tr as [|it tr IH]; intros c; cbn [foldl]; [by rewrite !Z.add_0_r|].
  destruct (IH (count_item it epoch c)) as [H1 H2]. cbv zeta in *. rewrite H1, H2.
  unfold read_from, written_to. rewrite !bind_cons, !zlen_app. unfold count_item, count_c2s, count_s2c, touch.
  pose proof (zlen_nonneg (item_read Client it)). pose proof (zlen_nonneg (item_written Client it)).
  pose proof (item_one_way Client it).
  destruct (Z.ltb_spec 0 (zlen (item_read Client it))), (Z.ltb_spec 0 (zlen (item_written Client it)));
    cbn [c2s_bytes s2c_bytes]; rewrite ?u64_add_l; split; f_equal; lia.
Qed.

(** A user's record, as [entry(user).or_default()] sees it. *)
Definition user_record (s : Stats) (user : string) : UserStats := default UserStats_default (user_stats s !! user).

Lemma hot_update_record s user f v :
  user_record (hot_update s user f) v =
    (if telemetry_user_enabled s && bool_decide (v = user) then f (user_record s user) else user_record s v).
Proof.
  unfold hot_update, entry_update, with_user_stats, user_record. destruct (telemetry_user_enabled s); cbn; [|done].
  case_bool_decide as Hv; [subst v|]; destruct (user_stats s !! user) eqn:E; cbn; rewrite ?lookup_insert_eq; try done.
  all: by rewrite lookup_insert_ne by done.
Qed.

Lemma hot_update_enabled s user f : telemetry_user_enabled (hot_update s user f) = telemetry_user_enabled s.
Proof. unfold hot_update. by repeat case_match. Qed.

Lemma count_stats_enabled it user s : telemetry_user_enabled (count_stats it user s) = telemetry_user_enabled s.
Proof.
  unfold count_stats, add_user_octets_from, add_user_octets_to, increment_user_msgs_from, increment_user_msgs_to.
  repeat case_match; by rewrite ?hot_update_enabled.
Qed.

(** What was moved is what the user is charged; nobody else is, and with the user telemetry off nobody is. *)
Definition charged (s : Stats) (user : string) (tr : trace) (s' : Stats) : Prop :=
  (forall v, v <> user \/ telemetry_user_enabled s = false -> user_record s' v = user_record s v) /\
  (telemetry_user_enabled s = true ->
   u64 (octets_from_client (user_record s' user)) = u64 (octets_from_client (user_record s user) + zlen (read_from Client tr)) /\
   u64 (octets_to_client (user_record s' user)) = u64 (octets_to_client (user_record s user) + zlen (written_to Client tr)) /\
   connects (user_record s' user) = connects (user_record s user) /\
   curr_connects (user_record s' user) = curr_connects (user_record s user)).

Lemma count_stats_charged it user s : charged s user [it] (count_stats it user s).
Proof.
  unfold charged, count_stats, add_user_octets_from, add_user_octets_to, increment_user_msgs_from, increment_user_msgs_to.
  rewrite read_one, written_one. split.
  - intros v Hv. repeat case_match; rewrite ?hot_update_record, ?hot_update_enabled; try done.
    all: destruct Hv as [Hv| ->]; [by rewrite !bool_decide_eq_false_2, !andb_false_r by done|done].
  - intros Ht.
    pose proof (zlen_nonneg (item_read Client it)). pose proof (zlen_nonneg (item_written Client it)).
    pose proof (item_one_way Client it).
    destruct (Z.ltb_spec 0 (zlen (item_read Client it))), (Z.ltb_spec 0 (zlen (item_written Client it)));
      rewrite ?hot_update_record, ?hot_update_enabled, ?Ht, ?bool_decide_eq_true_2 by done;
      cbn; rewrite ?u64_idemp; split_and!; try done; f_equal; lia.
Qed.

Lemma stats_charged tr user s : charged s user tr (foldl (fun s it => count_stats it user s) s tr).
Proof.
  revert s. induction tr as [|it tr IH]; intros s; cbn [foldl].
  { split; [done|]. cbn. by rewrite !Z.add_0_r. }
  destruct (IH (count_stats it user s)) as [H1 H2]. destruct (count_stats_charged it user s) as [G1 G2].
  rewrite count_stats_enabled in *. split.
  - intros v Hv. rewrite H1, G1; done.
  - intros Ht. destruct (H2 Ht) as (-> & -> & -> & ->). destruct (G2 Ht) as (E1 & E2 & -> & ->).
    rewrite read_one, written_one in *. unfold read_from, written_to. rewrite !bind_cons, !zlen_app.
    rewrite <-(u64_add_l (octets_from_client _)), <-(u64_add_l (octets_to_client _)), E1, E2, !u64_add_l.
    split_and!; try done; f_equal; lia.
Qed.

End Accounting.

(** ** The watchdog

    [clock] says that events happen in the order of their times, up to [stop]; [ticks_within] that the watchdog is
    never left asleep for more than [period] (its sleep is [WATCHDOG_INTERVAL]; the scheduler may be late). *)

Section Watchdog.
Context {CR CW SR SW : Type} `{AsyncReadOk CR} `{AsyncWriteOk CW} `{!AsyncShutdown CW}.
Context `{AsyncReadOk SR} `{AsyncWriteOk SW} `{!AsyncShutdown SW}.
Abbreviation relay := (Relay CR CW SR SW) (only parsing).

Fixpoint clock (from : Z) (evs : list relay_event) (stop : Z) : Prop :=
  match evs with
  | [] => from <= stop
  | (EvCopy _ t | EvTick t) :: evs => from <= t /\ clock t evs stop
  | EvCopied _ :: _ => from <= stop
  end.

Fixpoint ticks_within (period last : Z) (evs : list relay_event) (stop : Z) : Prop :=
  match evs with
  | [] => stop - last <= period
  | EvTick t :: evs => t - last <= period /\ ticks_within period t evs stop
  | _ :: evs => ticks_within period last evs stop
  end.

(** Half an hour, and the instants a number of milliseconds can count. *)
Definition TIMEOUT_NS : Z := ACTIVITY_TIMEOUT * 1000000.
Definition countable (epoch now : Z) : Prop := 0 <= now - epoch < 2 ^ 64 * 1000000.

Lemma millis_since_countable epoch now : countable epoch now -> millis_since now epoch = (now - epoch) / 1000000.
Proof.
  unfold countable, millis_since, sat_sub, u64. intros Hc. rewrite Z.max_r by lia. apply Z.mod_small.
  pose proof (Z.div_lt_upper_bound (now - epoch) 1000000 (2 ^ 64) ltac:(lia) ltac:(lia)).
  pose proof (Z.div_pos (now - epoch) 1000000 ltac:(lia) ltac:(lia)). lia.
Qed.

(** The millisecond clock is off by less than a millisecond. *)
Lemma watchdog_wakes_spec (self : relay) la now :
  let epoch := si_epoch (rl_client self) in
  last_activity_ms (si_counters (rl_client self)) = millis_since la epoch ->
  countable epoch la -> countable epoch now -> la <= now ->
  if fst (watchdog_wakes self now) then TIMEOUT_NS - 1000000 < now - la else now - la < TIMEOUT_NS + 1000000.
Proof.
  cbv zeta. intros Hl Hla Hnow Hle. unfold watchdog_wakes, idle_duration, TIMEOUT_NS. rewrite Hl, !millis_since_countable by done.
  unfold sat_sub. set (epoch := si_epoch (rl_client self)) in *. unfold countable in *.
  pose proof (Z.div_mod (la - epoch) 1000000 ltac:(lia)). pose proof (Z.mod_pos_bound (la - epoch) 1000000 ltac:(lia)).
  pose proof (Z.div_mod (now - epoch) 1000000 ltac:(lia)). pose proof (Z.mod_pos_bound (now - epoch) 1000000 ltac:(lia)).
  unfold ACTIVITY_TIMEOUT. destruct (Z.leb_spec (1800 * 1000) (Z.max 0 ((now - epoch) / 1000000 - (la - epoch) / 1000000))); cbn; lia.
Qed.

Lemma clock_le from evs stop : clock from evs stop -> from <= stop.
Proof.
  revert from. induction evs as [|[call t|res|t] evs IH]; intros from; cbn; [done| |done|]; intros [Hf Hc]; apply IH in Hc; lia.
Qed.

Lemma relay_run_watched evs : forall (self : relay) la pt from tr self' e stop period,
  relay_run self evs = Some (self', tr, e) -> Forall item_sane tr ->
  let epoch := si_epoch (rl_client self) in
  last_activity_ms (si_counters (rl_client self)) = millis_since la epoch ->
  epoch <= la <= from -> pt <= from -> clock from evs stop -> stop - epoch < 2 ^ 64 * 1000000 ->
  pt - la < TIMEOUT_NS + 1000000 ->
  (e = Some ByTimeout ->
   exists pre t post, evs = pre ++ EvTick t :: post /\ TIMEOUT_NS - 1000000 < t - last_move la tr) /\
  (e = None -> ticks_within period pt evs stop -> stop - last_move la tr < TIMEOUT_NS + 1000000 + period).
Proof.
  induction evs as [|[call now|res|now] evs IH]; intros self la pt from tr self' e stop period; cbn [relay_run clock ticks_within].
  - intros [= <- <- <-] _. cbn. intros. split; [done|]. intros. lia.
  - destruct (copy_poll self call now) as [[answer self1]|] eqn:E1; [|done]. cbn [mbind option_bind].
    destruct (relay_run self1 evs) as [[[self2 tr2] e2]|] eqn:E2; [|done]. cbn [mbind option_bind].
    intros [= <- <- <-] [Hs Hs2]%Forall_cons Hl Hla Hpt [Hfrom Hclock] Hstop Hw.
    destruct (copy_poll_counted _ _ _ _ _ E1 Hs) as (_ & Hep & Hc & _).
    apply (count_item_last (mkItem call answer now) (si_epoch (rl_client self))) in Hl. rewrite <-Hc in Hl. cbn [last_move foldl].
    set (la' := if moves _ then _ else _) in *. assert (la <= la' <= now) as Hla' by (unfold la'; cbn; destruct (moves _); lia).
    destruct (IH self1 la' pt now tr2 self2 e2 stop period) as [I1 I2]; rewrite ?Hep; try done || lia.
    split; [|done]. intros He. destruct (I1 He) as (pre & t & post & -> & Ht). by exists (EvCopy call now :: pre), t, post.
  - intros [= <- <- <-] _. done.
  - intros E Hs Hl Hla Hpt [Hfrom Hclock] Hstop Hw. pose proof (clock_le _ _ _ Hclock).
    pose proof (watchdog_wakes_spec self la now) as Hwake. cbv zeta in Hwake.
    specialize (Hwake Hl ltac:(unfold countable; lia) ltac:(unfold countable; lia) ltac:(lia)).
    unfold watchdog_wakes in *. destruct (_ <=? _); cbn in Hwake.
    + injection E as <- <- <-. split; [|done]. intros _. by exists [], now, evs.
    + destruct (IH _ la now now tr self' e stop period E Hs) as [I1 I2]; cbn; try done || lia.
      split; [|by intros He [_ Ht]; apply I2].
      intros He. destruct (I1 He) as (pre & t & post & -> & Ht). by exists (EvTick now :: pre), t, post.
Qed.

(** C12: the activity timeout.  Over streams that keep their contracts, whatever is polled and when, the watchdog ends the
    relay only at a wake-up before which no byte has moved on the client's side for half an hour (less
    the millisecond of the clock); and a relay that is still running at some moment
    has moved a byte, or was started, within the last half hour and the time between two wake-ups. *)
Theorem relay_watchdog_exact (cr : CR) (cw : CW) (sr : SR) (sw : SW) user stats epoch started evs stop period a b :
  rd_ok cr -> wr_accepted cw a -> rd_ok sr -> wr_accepted sw b -> Forall event_ok evs ->
  epoch <= started -> clock started evs stop -> stop - epoch < 2 ^ 64 * 1000000 ->
  exists self tr e,
    relay_run (relay_start cr cw sr sw user stats epoch started) evs = Some (self, tr, e) /\
    (e = Some ByTimeout ->
     exists pre t post, evs = pre ++ EvTick t :: post /\ TIMEOUT_NS - 1000000 < t - last_move started tr) /\
    (e = None -> ticks_within period started evs stop -> stop - last_move started tr < TIMEOUT_NS + 1000000 + period).
Proof.
  intros Hcr Hcw Hsr Hsw Hev Hst Hclock Hstop.
  destruct (relay_run_total (relay_start cr cw sr sw user stats epoch started) evs a b) as (self & tr & e & E & Hsane & _ & _);
    [by split_and!|done|].
  destruct (relay_run_watched evs _ started started started tr self e stop period E Hsane) as [I1 I2]; try done || lia.
  { cbn. unfold TIMEOUT_NS, ACTIVITY_TIMEOUT. lia. }
  exists self, tr, e. by split_and!.
Qed.

End Watchdog.

(** ** The header on the wire *)

(** A script that has already been given [header], as the writer of what comes after it. *)
Definition script_after (header : bytes) : @AsyncWriteOk upstream_w _.
Proof.
  refine {| wr_accepted w acc := w_sink w = header ++ acc |}.
  - intros w acc data Hw. destruct (poll_write_spec (AsyncWriteOk := script_write_ok) w (header ++ acc) data Hw) as (p & w' & E & Hp).
    exists p, w'. split; [done|]. destruct p as [|[n|e]]; [done| |done]. by rewrite app_assoc.
  - intros w acc Hw. by destruct (poll_flush_spec (AsyncWriteOk := script_write_ok) w (header ++ acc) Hw) as (p & w' & E & Hp); exists p, w'.
Defined.

(** ** From the client to the data centre *)

Section EndToEnd.
Context `{StreamCipherOk} {G : Type} `{RngOk G}.
Context {CR CW SR : Type} `{AsyncReadOk CR} `{AsyncWriteOk CW} `{!AsyncShutdown CW} `{AsyncReadOk SR} `{!AsyncShutdown upstream_w}.

(** What a client's handshake has left in a [HandshakeSuccess]. *)
Definition success_ok (success : HandshakeSuccess) : Prop :=
  in_i16 (hs_dc_idx success) /\ zlen (hs_enc_key success) = 32 /\ bytes_ok (hs_enc_key success) /\
  0 <= hs_enc_iv success < 2 ^ 128.

(** The data centre's key streams, once it has read the header. *)
Definition dc_receives (header : bytes) : AesCtr := snd (AesCtr_decrypt (from_sender (fun k => k) header) header).
Definition dc_sends (header : bytes) : AesCtr := to_sender (fun k => k) header.

Lemma do_tg_handshake_wire fuel (sr : SR) script flush success config (rng rng' : G) rd wr :
  success_ok success ->
  do_tg_handshake_static fuel (mkCombined sr (mkUpW script [] flush)) success config rng = Some (Ok (rd, wr), rng') ->
  exists header up, zlen header = 64 /\
    open_header (fun k => k) header = Some (hs_proto_tag success, hs_dc_idx success) /\
    rd = CryptoReader_new sr (dc_sends header) /\ w_sink up = header /\
    wr = CryptoWriter_new up (dc_receives header) (dc_crypto_pending_buffer config).
Proof.
  intros (Hdc & Hk & Hkok & Hiv). unfold do_tg_handshake_static.
  destruct (generate_tg_nonce _ _ _ _ _ _ _) as [[[[[[nonce ek] eiv] dk] div] rng1]|] eqn:Eg; [|done].
  destruct (generate_tg_nonce_some _ _ _ _ _ _ _ _ Eg) as (i & Hi & Hv).
  destruct (tg_header_opens fuel i (hs_proto_tag success) (hs_dc_idx success) (hs_enc_key success) (hs_enc_iv success) rng
    (dc_fast_mode config) Hi Hv Hdc Hk Hkok Hiv) as (? & ? & ? & ? & ? & ? & Eg' & Ho).
  rewrite Eg in Eg'. injection Eg' as <- <- <- <- <- <-.
  destruct (encrypt_tg_nonce_with_ciphers nonce) as [[header enc] dec]. destruct Ho as (Hl & _ & Hopen & -> & -> & _ & _).
  cbn [cs_writer cs_reader]. destruct (write_all _ _ _) as [[[[]|e] w]|] eqn:Ew; [|done|done].
  destruct (flush_await fuel w) as [[[[]|e] up]|] eqn:Ef; [|done|done]. intros [= <- <- <-].
  apply (write_all_accepts (H0 := script_write_ok) _ _ [] _ _) in Ew; [|done].
  apply (flush_await_accepts (H0 := script_write_ok) _ _ header) in Ef; [|done]. by exists header, up.
Qed.

(** C8: the direct path from end to end.  After the handshake with the data centre has gone through, over any network
    and whatever the copying future polls, the relay runs; the data centre opens the header to the client's
    protocol and data-centre index, and when the copying is faithful, what it decrypts is at every moment a
    prefix of what the client sent (all that was accepted for it when nothing is held back), and
    what the client is given is a prefix of what the data centre sent.  The counters of the watchdog and the user's
    statistics are the bytes read from the client and accepted by it, and nobody else is charged. *)
Theorem direct_relay_end_to_end fuel (cr : CR) (cw : CW) (sr : SR) script flush success config (rng rng' : G) rd wr
    stats epoch started evs :
  rd_ok cr -> wr_accepted cw [] -> rd_ok sr -> bytes_ok (rd_bytes cr) -> success_ok success ->
  0 <= dc_crypto_pending_buffer config -> Forall event_ok evs ->
  do_tg_handshake_static fuel (mkCombined sr (mkUpW script [] flush)) success config rng = Some (Ok (rd, wr), rng') ->
  exists header rest self tr e,
    relay_run (relay_start cr cw rd wr (hs_user success) stats epoch started) evs = Some (self, tr, e) /\
    w_sink (cw_upstream (server_writer self)) = header ++ rest /\
    open_header (fun k => k) header = Some (hs_proto_tag success, hs_dc_idx success) /\
    wr_accepted (client_writer self) (written_to Client tr) /\
    (copies (fun _ => []) tr = true ->
     fst (AesCtr_decrypt (dc_receives header) rest) `prefix_of` rd_bytes cr /\
     (cw_state (server_writer self) = CwIdle ->
      fst (AesCtr_decrypt (dc_receives header) rest) = written_to Server tr) /\
     written_to Client tr `prefix_of` fst (AesCtr_decrypt (dc_sends header) (rd_bytes sr))) /\
    u64 (c2s_bytes (si_counters (rl_client self))) = u64 (zlen (read_from Client tr)) /\
    u64 (s2c_bytes (si_counters (rl_client self))) = u64 (zlen (written_to Client tr)) /\
    charged stats (hs_user success) tr (rl_stats self).
Proof.
  intros Hcr Hcw Hsr Hok Hsucc Hmax Hev Ehs.
  destruct (do_tg_handshake_wire _ _ _ _ _ _ _ _ _ _ Hsucc Ehs) as (header & up & _ & Hopen & -> & Hup & ->).
  set (start := relay_start cr cw _ _ _ stats epoch started).
  pose (after := script_after header). assert (wr_accepted up []) as Hup0 by (cbn; by rewrite app_nil_r).
  assert (streams_ok start [] []) as Hs.
  { split_and!; try done. exists (dc_receives header). by apply cw_new_inv. }
  destruct (relay_moves start evs [] [] Hs Hev) as (self & tr & e & E & (R1 & R2 & R3 & R4) & Hsane & Hacc & Hcopy).
  destruct (cw_drive_inv (dc_receives header) up (dc_crypto_pending_buffer config) (tr ≫= ops_of Server) Hmax Hup0)
    as (acc & wr' & Ew & (_ & sent & Hsent & Hst) & _).
  change (server_writer start) with (CryptoWriter_new up (dc_receives header) (dc_crypto_pending_buffer config)) in R4.
  rewrite R4 in Ew. injection Ew as <- <-.
  assert (sent `prefix_of` fst (AesCtr_apply (dc_receives header) (written_to Server tr))) as Hpre.
  { destruct (cw_state _); [by destruct Hst as [-> _]| |done]. destruct Hst as [<- _]. by eexists. }
  destruct (relay_run_counted _ _ _ _ _ E Hsane) as (_ & _ & Hc & Hs').
  destruct (counters_total tr epoch (si_counters (rl_client start))) as [C1 C2]. cbv zeta in *.
  exists header, sent, self, tr, e. rewrite Hc, Hs'. split_and!; try done; [|by apply stats_charged].
  intros Hcp. destruct (Hcopy Hcp) as [P1 P2].
  assert (bytes_ok (written_to Server tr)) as Hwok.
  { destruct P1 as [k Hk]. cbn in Hk. rewrite Hk in Hok. by apply bytes_ok_app in Hok as [? _]. }
  split_and!; [| |exact P2].
  - etransitivity; [by apply ctr_prefix|exact P1].
  - intros Hidle. rewrite Hidle in Hst. destruct Hst as [-> _]. by apply AesCtr_apply_inv.
Qed.

End EndToEnd.

(** ** Data-centre addresses and the accounting of a session *)

Lemma datacenters_length (v6 : bool) : zlen (if v6 then TG_DATACENTERS_V6 else TG_DATACENTERS_V4) = 5.
Proof. by destruct v6. Qed.

Definition dc_table (config : DcConfig) : list IpAddr := if prefers_v6 config then TG_DATACENTERS_V6 else TG_DATACENTERS_V4.

(** Without an override an index from 1 to 5 reaches its data centre whatever its sign; any other one the default,
    and the second data centre when there is no usable default. *)
Lemma dc_address_spec dc_idx config :
  dc_overrides config !! i16_to_string dc_idx = None ->
  let at_dc n := Ok (mkSocketAddr (nth (Z.to_nat (n - 1)) (dc_table config) (V4 [])) TG_DATACENTER_PORT) in
  fst (get_dc_addr_static dc_idx config) =
    if (1 <=? Z.abs dc_idx) && (Z.abs dc_idx <=? 5) then at_dc (Z.abs dc_idx)
    else match default_dc config with Some d => if (1 <=? d) && (d <=? 5) then at_dc d else at_dc 2 | None => at_dc 2 end.
Proof.
  intros Hno. cbv zeta. unfold get_dc_addr_static, dc_table. rewrite Hno, datacenters_length.
  destruct ((1 <=? Z.abs dc_idx) && (Z.abs dc_idx <=? 5)); [done|]. cbn [fst].
  destruct (default_dc config) as [d|]; [|done]. cbn [default from_option id]. by destruct ((1 <=? d) && (d <=? 5)).
Qed.

(** With an override, the first valid address of the preferred family, or else the first valid one, is taken. *)
Lemma dc_override_spec dc_idx config addrs a :
  dc_overrides config !! i16_to_string dc_idx = Some addrs -> head (omap parse_socket_addr addrs) = Some a ->
  exists b, fst (get_dc_addr_static dc_idx config) = Ok b /\ b ∈ (omap parse_socket_addr addrs : list SocketAddr) /\
    ((exists c, c ∈ (omap parse_socket_addr addrs : list SocketAddr) /\ is_ipv6 (sa_ip c) = prefers_v6 config) ->
     is_ipv6 (sa_ip b) = prefers_v6 config).
Proof.
  intros Ho Hh. unfold get_dc_addr_static. rewrite Ho. set (parsed := omap parse_socket_addr addrs) in *.
  set (f := fun b : SocketAddr => Bool.eqb (is_ipv6 (sa_ip b)) (prefers_v6 config) = true).
  destruct (list_find _ parsed) as [[i b]|] eqn:E; cbn.
  - apply list_find_Some in E as (Hi & Hb & _). exists b. split; [done|]. apply Bool.eqb_prop in Hb.
    split; [by eapply list_elem_of_lookup_2|done].
  - rewrite Hh. exists a. split; [done|]. split.
    + destruct parsed; [done|]. injection Hh as ->. by left.
    + intros (c & Hc & Hf). apply list_find_None in E. rewrite Forall_forall in E. destruct (E c Hc). unfold f. rewrite Hf. by rewrite Bool.eqb_reflx.
Qed.

Section Sessions.
Context {CR CW SR SW : Type} `{AsyncRead CR} `{AsyncWrite CW} `{!AsyncShutdown CW}.
Context `{AsyncRead SR} `{AsyncWrite SW} `{!AsyncShutdown SW}.
Abbreviation relay := (Relay CR CW SR SW) (only parsing).

(** The relay leaves the number of sessions alone. *)
Definition same_sessions (s s' : Stats) : Prop :=
  telemetry_user_enabled s' = telemetry_user_enabled s /\
  (forall v, get_user_curr_connects s' v = get_user_curr_connects s v).

#[local] Instance same_sessions_preorder : PreOrder same_sessions.
Proof. split; [done|]. intros a b c [? ?] [? ?]. split; congruence. Qed.

Lemma curr_connects_record s v : get_user_curr_connects s v = curr_connects (user_record s v).
Proof. unfold get_user_curr_connects, user_record. by destruct (_ !! v). Qed.

Lemma hot_update_same s user f :
  (forall u, curr_connects (f u) = curr_connects u) -> same_sessions s (hot_update s user f).
Proof.
  intros Hf. split; [by apply hot_update_enabled|]. intros v. rewrite !curr_connects_record, hot_update_record.
  destruct (telemetry_user_enabled s); cbn; [|done]. case_bool_decide; [subst; apply Hf|done].
Qed.

Lemma copy_poll_same (self : relay) call now answer (self' : relay) :
  copy_poll self call now = Some (answer, self') -> same_sessions (rl_stats self) (rl_stats self').
Proof.
  assert (forall s u n, same_sessions s (increment_user_msgs_from (add_user_octets_from s u n) u)) as Hfrom
    by (intros; etransitivity; by apply hot_update_same).
  assert (forall s u n, same_sessions s (increment_user_msgs_to (add_user_octets_to s u n) u)) as Hto
    by (intros; etransitivity; by apply hot_update_same).
  destruct self as [[[cr cw] c u ep] [sr sw] st p1 p2].
  destruct call as [[] cap|[] data|[]]; poll_cases; intros [= <- <-]; done || apply Hfrom || apply Hto.
Qed.

Lemma relay_run_same (self : relay) evs (self' : relay) tr e :
  relay_run self evs = Some (self', tr, e) -> same_sessions (rl_stats self) (rl_stats self').
Proof.
  revert self tr. induction evs as [|[call now|res|now] evs IH]; intros self tr; cbn [relay_run].
  - by intros [= <- <- <-].
  - destruct (copy_poll self call now) as [[answer self1]|] eqn:E1; [|done]. cbn [mbind option_bind].
    destruct (relay_run self1 evs) as [[[self2 tr2] e2]|] eqn:E2; [|done]. cbn [mbind option_bind].
    intros [= <- <- <-]. etransitivity; [by eapply copy_poll_same|by eapply IH].
  - by intros [= <- <- <-].
  - unfold watchdog_wakes. destruct (_ <=? _); [by intros [= <- <- <-]|]. intros E. by apply IH in E.
Qed.

Lemma relay_bidirectional_same (cr : CR) (cw : CW) (sr : SR) (sw : SW) user stats epoch now evs r (self' : relay) :
  relay_bidirectional cr cw sr sw user stats epoch now evs = Some (r, self') -> same_sessions stats (rl_stats self').
Proof.
  unfold relay_bidirectional. destruct (relay_run _ evs) as [[[self tr] e]|] eqn:E; [|done]. cbn.
  apply relay_run_same in E. cbn in E. destruct e as [e|]; [|by intros [= <- <-]].
  unfold relay_close. destruct (stats_shutdown _) as [client|]; [|done]. cbn.
  destruct (combined_shutdown _) as [server|]; [|done]. cbn. by intros [= <- <-].
Qed.

Lemma increments_sessions s user :
  telemetry_user_enabled s = true ->
  let s' := increment_user_curr_connects (increment_user_connects s user) user in
  telemetry_user_enabled s' = true /\ get_user_curr_connects s' user = u64 (get_user_curr_connects s user + 1).
Proof.
  intros Ht. cbv zeta. unfold increment_user_curr_connects, increment_user_connects, entry_update.
  rewrite !Ht. cbn [negb]. unfold telemetry_user_enabled, with_user_stats in *. cbn. rewrite Ht. cbn. split; [done|].
  rewrite !curr_connects_record. unfold user_record. cbn. rewrite !lookup_insert_eq. done.
Qed.

End Sessions.

Section SessionCount.
Context `{StreamCipher} `{Digests} {G : Type} `{Rng G}.
Context {CR CW SR SW : Type} `{AsyncRead CR} `{AsyncWrite CW} `{!AsyncShutdown CW}.
Context `{AsyncRead SR} `{AsyncWrite SW} `{!AsyncShutdown SW}.

(** Once a session is over, as many sessions of its user are counted as before it, if user telemetry is on.  If it is off, one
    fewer is: the decrement does not look at the policy. *)
Lemma direct_session_count fuel (cr : CR) (cw : CW) success (sr : SR) (sw : SW) rd wr connect stats config (rng rng1 rng2 : G)
    epoch now evs r stats' addr :
  get_dc_addr_static (hs_dc_idx success) config = addr ->
  (forall a, addr = (Ok a, snd addr) ->
   connect a (Some (hs_dc_idx success)) (scope_of (hs_user success)) = Ok (mkCombined sr sw)) -> is_ok (fst addr) = true ->
  do_tg_handshake_static fuel (mkCombined sr sw) success config rng = Some (Ok (rd, wr), rng1) ->
  handle_via_direct fuel cr cw success connect stats config rng epoch now evs = Some (Some r, stats', rng2) ->
  let count s := get_user_curr_connects s (hs_user success) in
  0 <= count stats < 2 ^ 64 - 1 ->
  count stats' = if telemetry_user_enabled stats then count stats else Z.max 0 (count stats - 1).
Proof.
  intros Ha Hc Hok Hh Hrun count Hb. unfold handle_via_direct in Hrun. rewrite Ha in Hrun.
  destruct addr as [[a|e] log]; [|done]. rewrite (Hc a eq_refl), Hh in Hrun.
  destruct (relay_bidirectional _ _ _ _ _ _ _ _ _) as [[[r1|] self]|] eqn:E; [|done..]. injection Hrun as <- <- <-.
  apply relay_bidirectional_same in E as [_ Hs]. specialize (Hs (hs_user success)). fold (count (rl_stats self)) in Hs.
  assert (count (decrement_user_curr_connects (rl_stats self) (hs_user success)) = Z.max 0 (count (rl_stats self) - 1) \/
          count (rl_stats self) < 0) as Hd.
  { subst count. cbn in *. unfold decrement_user_curr_connects. unfold get_user_curr_connects at 1 2 3.
    destruct (user_stats (rl_stats self) !! hs_user success) as [u|] eqn:Eu; [|rewrite Eu; left; lia].
    destruct (Z.eqb_spec (curr_connects u) 0) as [Hz|]; [rewrite Eu; left; lia|]. cbn. rewrite lookup_insert_eq. cbn. lia. }
  destruct (telemetry_user_enabled stats) eqn:Et.
  - destruct (increments_sessions stats (hs_user success) Et) as [_ Hi]. rewrite Hi in Hs.
    unfold u64 in Hs. rewrite Z.mod_small in Hs by (fold (count stats); lia). fold (count stats) in Hs. lia.
  - unfold increment_user_curr_connects, increment_user_connects in Hs. rewrite !Et in Hs. cbn in Hs. rewrite Et in Hs. cbn in Hs.
    fold (count stats) in Hs. lia.
Qed.

End SessionCount.

(** ** Runs *)

Import Crypto.Demo Random.DemoRng.

#[local] Instance demo_shutdown : AsyncShutdown upstream_w := {| shutdown w := Some w |}.

Definition demo_success : HandshakeSuccess :=
  mkHandshakeSuccess "ann" (-2) Secure (repeat 1 32) 3 (repeat 2 32) 4 demo_peer false.
Definition demo_dc : DcConfig := mkDcConfig 4 None ∅ None true 0 false.

Example demo_addresses :
  get_dc_addr_static (-2) demo_dc = (Ok (mkSocketAddr (V4 [149; 154; 167; 51]) 443), None) /\
  get_dc_addr_static 203 demo_dc = (Ok (mkSocketAddr (V4 [149; 154; 167; 51]) 443), Some 203) /\
  get_dc_addr_static 203 (mkDcConfig 6 None {[str "203" := [str "bad"; str "1.2.3.4:80"]]} (Some 4) true 0 false) =
    (Ok (mkSocketAddr (V4 [1; 2; 3; 4]) 80), None) /\
  get_dc_addr_static 9 (mkDcConfig 6 None ∅ (Some 4) false 0 false) =
    (Ok (mkSocketAddr (V6 [32; 1; 6; 124; 4; 232; 240; 4; 0; 0; 0; 0; 0; 0; 0; 10]) 443), None) /\
  scope_of "scope_eu" = Some "eu"%string /\ scope_of "scope_" = None.
Proof. split_and!; vm_eq. Qed.

Definition demo_answers : list read_event := [RdPending; RdData [9; 8; 7]].
Definition demo_script : list write_event := [WrAccept 10; WrPending].
Definition demo_wired : option (CryptoReader (list read_event) * CryptoWriter upstream_w * Z) :=
  match do_tg_handshake_static 20 (mkCombined demo_answers (mkUpW demo_script [] [Pending])) demo_success demo_dc 7 with
  | Some (Ok streams, rng) => Some (streams, rng)
  | _ => None
  end.
Definition demo_pair : CryptoReader (list read_event) * CryptoWriter upstream_w :=
  match demo_wired with
  | Some (streams, _) => streams
  | None => (CryptoReader_new [] (AesCtr_new [] 0), CryptoWriter_new (mkUpW [] [] []) (AesCtr_new [] 0) 0)
  end.
Definition demo_uploads : list read_event := [RdData [5; 6; 7; 8]].

Definition sec : Z := 1000000000.

(** The client uploads, the data centre answers, then nothing happens. *)
Definition demo_relay_events : list relay_event :=
  [EvCopy (CallRead Client 3) sec; EvCopy (CallWrite Server [5; 6; 7]) sec; EvCopy (CallRead Server 8) (2 * sec);
   EvTick (10 * sec); EvCopy (CallRead Server 8) (11 * sec); EvCopy (CallFlush Server) (11 * sec);
   EvCopy (CallWrite Client [108; 100]) (12 * sec); EvTick (20 * sec); EvTick (1812 * sec)].

Lemma direct_relay_end_to_end_witness :
  exists header rest (self : Relay (list read_event) upstream_w (CryptoReader (list read_event)) (CryptoWriter upstream_w)) tr e,
    relay_run (relay_start demo_uploads (mkUpW [] [] []) demo_pair.1 demo_pair.2 "ann" Stats_new 0 0) demo_relay_events =
      Some (self, tr, e) /\
    w_sink (cw_upstream (server_writer self)) = header ++ rest /\
    open_header (fun k => k) header = Some (Secure, -2) /\
    wr_accepted (client_writer self) (written_to Client tr) /\
    (copies (fun _ => []) tr = true ->
     fst (AesCtr_decrypt (dc_receives header) rest) `prefix_of` rd_bytes demo_uploads /\
     (cw_state (server_writer self) = CwIdle ->
      fst (AesCtr_decrypt (dc_receives header) rest) = written_to Server tr) /\
     written_to Client tr `prefix_of` fst (AesCtr_decrypt (dc_sends header) (rd_bytes demo_answers))) /\
    u64 (c2s_bytes (si_counters (rl_client self))) = u64 (zlen (read_from Client tr)) /\
    u64 (s2c_bytes (si_counters (rl_client self))) = u64 (zlen (written_to Client tr)) /\
    charged Stats_new "ann" tr (rl_stats self).
Proof.
  apply (direct_relay_end_to_end 20 demo_uploads (mkUpW [] [] []) demo_answers demo_script [Pending] demo_success demo_dc 7
    (match demo_wired with Some (_, rng) => rng | None => 0 end) demo_pair.1 demo_pair.2 Stats_new 0 0 demo_relay_events).
  - reflexivity.
  - reflexivity.
  - reflexivity.
  - apply (bool_decide_unpack _). vm_compute. exact I.
  - unfold success_ok, in_i16. split_and!; try (cbn; lia); apply (bool_decide_unpack _); vm_compute; exact I.
  - cbn. lia.
  - repeat constructor.
  - vm_eq.
Defined.

Lemma relay_watchdog_exact_witness :
  exists (self : Relay (list read_event) upstream_w (list read_event) upstream_w) tr e,
    relay_run (relay_start demo_uploads (mkUpW [] [] []) demo_answers (mkUpW [] [] []) "ann" Stats_new 0 0) demo_relay_events =
      Some (self, tr, e) /\
    (e = Some ByTimeout ->
     exists pre t post, demo_relay_events = pre ++ EvTick t :: post /\ TIMEOUT_NS - 1000000 < t - last_move 0 tr) /\
    (e = None -> ticks_within (1800 * sec) 0 demo_relay_events (1900 * sec) ->
     1900 * sec - last_move 0 tr < TIMEOUT_NS + 1000000 + 1800 * sec).
Proof.
  apply (relay_watchdog_exact demo_uploads (mkUpW [] [] []) demo_answers (mkUpW [] [] []) "ann" Stats_new 0 0 demo_relay_events
    (1900 * sec) (1800 * sec) [] []).
  - reflexivity.
  - reflexivity.
  - reflexivity.
  - reflexivity.
  - repeat constructor.
  - lia.
  - cbn. unfold sec. lia.
  - unfold sec. lia.
Defined.

Example demo_relay_times_out :
  match relay_run (relay_start demo_uploads (mkUpW [] [] []) demo_pair.1 demo_pair.2 "ann" Stats_new 0 0) demo_relay_events with
  | Some (self, tr, e) =>
      e = Some ByTimeout /\ copies (fun _ => []) tr = true /\ c2s_bytes (si_counters (rl_client self)) = 3 /\
      s2c_bytes (si_counters (rl_client self)) = 2
  | None => False
  end.
Proof. vm_compute. split_and!; reflexivity. Qed.
