(* ===== verification/TlsHello.v ===== *)
(** * The fake TLS handshake: [protocol/tls.rs]

    A client proves that it knows a user's secret by the digest it puts in the random field of its
    ClientHello; the proxy answers with a ServerHello, a ChangeCipherSpec and random application
    data, authenticated the same way.  The parsers of the ClientHello index into untrusted input:
    their definitions make every out-of-range access and every loop bound explicit, so that a
    panic or a missing bound would show as a value. *)

From S2P Require Import Prelude Crypto Random Constants NetAddr.
Open Scope outcome_scope.

(** ** Constants (tls.rs:17-49) *)

Definition TLS_DIGEST_LEN : Z := 32.
Definition TLS_DIGEST_POS : Z := 11.
Definition TLS_DIGEST_HALF_LEN : Z := 16.
Definition TIME_SKEW_MIN : Z := -20 * 60.
Definition TIME_SKEW_MAX : Z := 10 * 60.
Definition KEY_SHARE : Z := 0x0033.
Definition SUPPORTED_VERSIONS : Z := 0x002b.
Definition ALPN : Z := 0x0010.
Definition TLS_AES_128_GCM_SHA256 : bytes := [0x13; 0x01].
Definition X25519 : Z := 0x001d.

Record TlsValidation := mkTlsValidation {
  tv_user : string;
  tv_session_id : bytes;
  tv_digest : bytes;
  tv_timestamp : Z
}.

(** ** [TlsExtensionBuilder] (tls.rs:70-157): the extensions collected so far *)

Definition TlsExtensionBuilder : Type := list Z.
Definition TlsExtensionBuilder_new : TlsExtensionBuilder := [].

Definition add_key_share (extensions : TlsExtensionBuilder) (public_key : bytes) : TlsExtensionBuilder :=
  let entry_len := 2 + 2 + 32 in
  extensions ++ be_bytes 2 KEY_SHARE ++ be_bytes 2 entry_len ++ be_bytes 2 X25519 ++ be_bytes 2 32 ++ public_key.

Definition add_supported_versions (extensions : TlsExtensionBuilder) (version : Z) : TlsExtensionBuilder :=
  extensions ++ be_bytes 2 SUPPORTED_VERSIONS ++ be_bytes 2 2 ++ be_bytes 2 version.

Definition add_alpn (extensions : TlsExtensionBuilder) (proto : bytes) : TlsExtensionBuilder :=
  let proto_len := u8 (zlen proto) in
  let list_len := u16 (1 + proto_len) in
  let ext_len := u16 (2 + list_len) in
  extensions ++ be_bytes 2 ALPN ++ be_bytes 2 ext_len ++ be_bytes 2 list_len ++ [proto_len] ++ proto.

Definition TlsExtensionBuilder_build (extensions : TlsExtensionBuilder) : bytes :=
  be_bytes 2 (u16 (zlen extensions)) ++ extensions.

(** ** [ServerHelloBuilder] (tls.rs:162-272) *)

Record ServerHelloBuilder := mkServerHelloBuilder {
  sh_random : bytes;
  sh_session_id : bytes;
  sh_cipher_suite : bytes;
  sh_compression : Z;
  sh_extensions : TlsExtensionBuilder;
  sh_alpn : option bytes
}.

Definition ServerHelloBuilder_new (session_id : bytes) : ServerHelloBuilder :=
  mkServerHelloBuilder (zrepeat 32 0) session_id TLS_AES_128_GCM_SHA256 0x00 TlsExtensionBuilder_new None.

Definition with_x25519_key (b : ServerHelloBuilder) (key : bytes) : ServerHelloBuilder :=
  mkServerHelloBuilder (sh_random b) (sh_session_id b) (sh_cipher_suite b) (sh_compression b)
    (add_key_share (sh_extensions b) key) (sh_alpn b).

Definition with_tls13_version (b : ServerHelloBuilder) : ServerHelloBuilder :=
  mkServerHelloBuilder (sh_random b) (sh_session_id b) (sh_cipher_suite b) (sh_compression b)
    (add_supported_versions (sh_extensions b) 0x0304) (sh_alpn b).

Definition with_alpn (b : ServerHelloBuilder) (proto : option bytes) : ServerHelloBuilder :=
  mkServerHelloBuilder (sh_random b) (sh_session_id b) (sh_cipher_suite b) (sh_compression b)
    (sh_extensions b) proto.

Definition build_message (b : ServerHelloBuilder) : bytes :=
  let extensions :=
    match sh_alpn b with Some alpn => add_alpn (sh_extensions b) alpn | None => sh_extensions b end in
  let extensions_len := u16 (zlen extensions) in
  let body_len := 2 + 32 + 1 + zlen (sh_session_id b) + 2 + 1 + 2 + zlen extensions in
  let len_bytes := be_bytes 4 (u32 body_len) in
  [0x02] ++ slice len_bytes 1 4 ++ TLS_VERSION ++ sh_random b ++
  [u8 (zlen (sh_session_id b))] ++ sh_session_id b ++ sh_cipher_suite b ++ [sh_compression b] ++
  be_bytes 2 extensions_len ++ extensions.

Definition build_hello_record (b : ServerHelloBuilder) : bytes :=
  let message := build_message b in
  [TLS_RECORD_HANDSHAKE] ++ TLS_VERSION ++ be_bytes 2 (u16 (zlen message)) ++ message.

(** ** Validation of a ClientHello (tls.rs:279-352) *)

Section Validate.
Context `{Digests}.

Definition xor_digests (a b : bytes) : bytes := zip_with Z.lxor a b.

(** The loop over the users; [now] is the Unix time in seconds. *)
Fixpoint validate_users (msg digest session_id : bytes) (now : Z) (ignore_time_skew : bool)
    (secrets : list (string * bytes)) : option TlsValidation :=
  match secrets with
  | [] => None
  | (user, secret) :: secrets =>
      let computed := sha256_hmac secret msg in
      let xored := xor_digests digest computed in
      if negb (forallb (fun b => b =? 0) (ztake 28 xored)) then
        validate_users msg digest session_id now ignore_time_skew secrets
      else
        let timestamp := le_val (slice xored 28 32) in
        let time_diff := now - timestamp in
        let is_boot_time := timestamp <? 60 * 60 * 24 * 1000 in
        if negb ignore_time_skew &&
           (negb is_boot_time && negb ((TIME_SKEW_MIN <=? time_diff) && (time_diff <=? TIME_SKEW_MAX)))
        then validate_users msg digest session_id now ignore_time_skew secrets
        else Some (mkTlsValidation user session_id digest timestamp)
  end.

Definition validate_tls_handshake (handshake : bytes) (secrets : list (string * bytes)) (ignore_time_skew : bool)
    (now : Z) : option TlsValidation :=
  if zlen handshake <? TLS_DIGEST_POS + TLS_DIGEST_LEN + 1 then None
  else
    let digest := slice handshake TLS_DIGEST_POS (TLS_DIGEST_POS + TLS_DIGEST_LEN) in
    let session_id_len_pos := TLS_DIGEST_POS + TLS_DIGEST_LEN in
    match zget handshake session_id_len_pos with
    | None => None
    | Some session_id_len =>
        let session_id_start := session_id_len_pos + 1 in
        if zlen handshake <? session_id_start + session_id_len then None
        else
          let session_id := slice handshake session_id_start (session_id_start + session_id_len) in
          let msg := splice handshake TLS_DIGEST_POS (zrepeat TLS_DIGEST_LEN 0) in
          validate_users msg digest session_id now ignore_time_skew secrets
    end.

End Validate.

(** ** The response (tls.rs:354-462) *)

Definition curve25519_prime : Z := Z.shiftl 1 255 - 19.

(** The little-endian bytes of a number below [2^256], padded to 32. *)
Definition gen_fake_x25519_key {G} `{Rng G} (rng : G) : bytes * G :=
  let '(n_bytes, rng) := rng_bytes rng 32 in
  let n := le_val n_bytes in
  let pk := (n * n) mod curve25519_prime in
  (le_bytes 32 pk, rng).

Definition MIN_APP_DATA : Z := 64.
Definition MAX_APP_DATA : Z := 16640.

(** An ApplicationData record around [data]. *)
Definition app_data_record (data : bytes) : bytes :=
  [TLS_RECORD_APPLICATION] ++ TLS_VERSION ++ be_bytes 2 (u16 (zlen data)) ++ data.

Fixpoint build_tickets {G} `{Rng G} (n : nat) (rng : G) : list bytes * G :=
  match n with
  | O => ([], rng)
  | S n =>
      let '(r, rng) := rng_range rng 48 in
      let ticket_len := r + 48 in
      let '(data, rng) := rng_bytes rng ticket_len in
      let '(tickets, rng) := build_tickets n rng in
      (app_data_record data :: tickets, rng)
  end.

Definition change_cipher_spec : bytes := [TLS_RECORD_CHANGE_CIPHER] ++ TLS_VERSION ++ [0x00; 0x01] ++ [0x01].

Definition build_server_hello `{Digests} {G} `{Rng G} (secret client_digest session_id : bytes) (fake_cert_len : Z)
    (rng : G) (alpn : option bytes) (new_session_tickets : Z) : bytes * G :=
  let fake_cert_len := Z.min (Z.max fake_cert_len MIN_APP_DATA) MAX_APP_DATA in
  let '(x25519_key, rng) := gen_fake_x25519_key rng in
  let server_hello :=
    build_hello_record (with_alpn (with_tls13_version (with_x25519_key (ServerHelloBuilder_new session_id) x25519_key)) alpn) in
  let '(fake_cert, rng) := rng_bytes rng fake_cert_len in
  let '(tickets, rng) := build_tickets (Z.to_nat new_session_tickets) rng in
  let response := server_hello ++ change_cipher_spec ++ app_data_record fake_cert ++ concat tickets in
  let response_digest := sha256_hmac secret (client_digest ++ response) in
  (splice response TLS_DIGEST_POS response_digest, rng).

(** ** Reading a ClientHello (tls.rs:464-586) *)

Fixpoint sni_names (fuel : nat) (handshake : bytes) (sn_pos sn_end : Z) : outcome (option bytes) :=
  match fuel with
  | O => OutOfFuel
  | S fuel =>
      if sn_pos + 3 <=? sn_end then
        let! name_type := index handshake sn_pos in
        let! name_len := index_u16 handshake (sn_pos + 1) in
        let sn_pos := sn_pos + 3 in
        if sn_end <? sn_pos + name_len then Done None
        else
          let! host :=
            (if (name_type =? 0) && (0 <? name_len) then
               let! name := index_range handshake sn_pos (sn_pos + name_len) in
               Done (if utf8_valid name then Some name else None)
             else Done None) in
          match host with
          | Some host => Done (Some host)
          | None => sni_names fuel handshake (sn_pos + name_len) sn_end
          end
      else Done None
  end.

Fixpoint sni_extensions (fuel : nat) (handshake : bytes) (pos ext_end : Z) : outcome (option bytes) :=
  match fuel with
  | O => OutOfFuel
  | S fuel =>
      if pos + 4 <=? ext_end then
        let! etype := index_u16 handshake pos in
        let! elen := index_u16 handshake (pos + 2) in
        let pos := pos + 4 in
        if ext_end <? pos + elen then Done None
        else
          let! host :=
            (if (etype =? 0x0000) && (5 <=? elen) then
               let! list_len := index_u16 handshake pos in
               let sn_pos := pos + 2 in
               let sn_end := Z.min (sn_pos + list_len) (pos + elen) in
               sni_names (S (length handshake)) handshake sn_pos sn_end
             else Done None) in
          match host with
          | Some host => Done (Some host)
          | None => sni_extensions fuel handshake (pos + elen) ext_end
          end
      else Done None
  end.

Definition extract_sni_from_client_hello (handshake : bytes) : outcome (option bytes) :=
  if zlen handshake <? 43 then Done None
  else
    let! first := index handshake 0 in
    if negb (first =? TLS_RECORD_HANDSHAKE) then Done None
    else
      let pos := 5 in
      match zget handshake pos with
      | None => Done None
      | Some ty =>
          if negb (ty =? 0x01) then Done None
          else
            let pos := pos + 4 in
            let pos := pos + (2 + 32) in
            if zlen handshake <? pos + 1 then Done None
            else
              match zget handshake pos with
              | None => Done None
              | Some session_id_len =>
                  let pos := pos + (1 + session_id_len) in
                  if zlen handshake <? pos + 2 then Done None
                  else
                    let! cipher_suites_len := index_u16 handshake pos in
                    let pos := pos + (2 + cipher_suites_len) in
                    if zlen handshake <? pos + 1 then Done None
                    else
                      match zget handshake pos with
                      | None => Done None
                      | Some comp_len =>
                          let pos := pos + (1 + comp_len) in
                          if zlen handshake <? pos + 2 then Done None
                          else
                            let! ext_len := index_u16 handshake pos in
                            let pos := pos + 2 in
                            let ext_end := pos + ext_len in
                            if zlen handshake <? ext_end then Done None
                            else sni_extensions (S (length handshake)) handshake pos ext_end
                      end
              end
      end.

Fixpoint alpn_names (fuel : nat) (handshake : bytes) (lp list_end : Z) (out : list bytes) : outcome (list bytes) :=
  match fuel with
  | O => OutOfFuel
  | S fuel =>
      if lp <? list_end then
        let! plen := index handshake lp in
        let lp := lp + 1 in
        if list_end <? lp + plen then Done out
        else
          let! name := index_range handshake lp (lp + plen) in
          alpn_names fuel handshake (lp + plen) list_end (out ++ [name])
      else Done out
  end.

Fixpoint alpn_extensions (fuel : nat) (handshake : bytes) (pos ext_end : Z) : outcome (list bytes) :=
  match fuel with
  | O => OutOfFuel
  | S fuel =>
      if pos + 4 <=? ext_end then
        let! etype := index_u16 handshake pos in
        let! elen := index_u16 handshake (pos + 2) in
        let pos := pos + 4 in
        if ext_end <? pos + elen then Done []
        else if (etype =? ALPN) && (3 <=? elen) then
          let! list_len := index_u16 handshake pos in
          let lp := pos + 2 in
          let list_end := Z.min (Z.min (pos + 2 + list_len) usize_max) (pos + elen) in
          alpn_names (S (length handshake)) handshake lp list_end []
        else alpn_extensions fuel handshake (pos + elen) ext_end
      else Done []
  end.

Definition extract_alpn_from_client_hello (handshake : bytes) : outcome (list bytes) :=
  let pos := 5 in
  if negb (bool_decide (zget handshake pos = Some 0x01)) then Done []
  else
    let pos := pos + 4 in
    let pos := pos + (2 + 32) in
    if zlen handshake <=? pos then Done []
    else
      let session_id_len := default 0 (zget handshake pos) in
      let pos := pos + (1 + session_id_len) in
      if zlen handshake <? pos + 2 then Done []
      else
        let! cipher_len := index_u16 handshake pos in
        let pos := pos + (2 + cipher_len) in
        if zlen handshake <=? pos then Done []
        else
          let comp_len := default 0 (zget handshake pos) in
          let pos := pos + (1 + comp_len) in
          if zlen handshake <? pos + 2 then Done []
          else
            let! ext_len := index_u16 handshake pos in
            let pos := pos + 2 in
            let ext_end := pos + ext_len in
            if zlen handshake <? ext_end then Done []
            else alpn_extensions (S (length handshake)) handshake pos ext_end.

(** ** Record headers (tls.rs:589-613) *)

Definition is_tls_handshake (first_bytes : bytes) : bool :=
  if zlen first_bytes <? 3 then false
  else bool_decide (ztake 3 first_bytes = [TLS_RECORD_HANDSHAKE; 0x03; 0x01]).

Definition parse_tls_record_header (header : bytes) : option (Z * Z) :=
  let record_type := default 0 (zget header 0) in
  let version := slice header 1 3 in
  if negb (bool_decide (version = [0x03; 0x01])) && negb (bool_decide (version = TLS_VERSION)) then None
  else Some (record_type, be_val (slice header 3 5)).

(** ** The parsers never panic and never run out of fuel *)

Definition returns {A} (m : outcome A) : Prop := exists a, m = Done a.

Lemma returns_done {A} (a : A) : returns (Done a).
Proof. by exists a. Qed.
#[local] Hint Resolve returns_done : core.

Section Total.
Variable h : bytes.
Hypothesis Hok : bytes_ok h.

Lemma sni_names_total fuel sn_pos sn_end :
  0 <= sn_pos -> sn_end <= zlen h -> 0 < Z.of_nat fuel -> zlen h - sn_pos < Z.of_nat fuel ->
  returns (sni_names fuel h sn_pos sn_end).
Proof.
  revert sn_pos. induction fuel as [|fuel IH]; intros sn_pos Hp He Hf0 Hf; [lia|]. cbn [sni_names].
  destruct (Z.leb_spec (sn_pos + 3) sn_end); [|done].
  destruct (index_byte h sn_pos Hok) as (ty & -> & _); [lia|]. cbn [obind].
  destruct (index_u16_word h (sn_pos + 1) Hok) as (len & -> & Hlen); [lia..|]. cbn [obind].
  destruct (Z.ltb_spec sn_end (sn_pos + 3 + len)); [done|].
  assert (returns (sni_names fuel h (sn_pos + 3 + len) sn_end)) as Hrec by (apply IH; lia).
  destruct ((ty =? 0) && (0 <? len)); [|done]. rewrite index_range_ok by lia. cbn [obind].
  by destruct (utf8_valid _).
Qed.

Lemma sni_extensions_total fuel pos ext_end :
  0 <= pos -> ext_end <= zlen h -> 0 < Z.of_nat fuel -> zlen h - pos < Z.of_nat fuel ->
  returns (sni_extensions fuel h pos ext_end).
Proof.
  revert pos. induction fuel as [|fuel IH]; intros pos Hp He Hf0 Hf; [lia|]. cbn [sni_extensions].
  destruct (Z.leb_spec (pos + 4) ext_end); [|done].
  destruct (index_u16_word h pos Hok) as (ty & -> & _); [lia..|]. cbn [obind].
  destruct (index_u16_word h (pos + 2) Hok) as (len & -> & Hlen); [lia..|]. cbn [obind].
  destruct (Z.ltb_spec ext_end (pos + 4 + len)); [done|].
  assert (returns (sni_extensions fuel h (pos + 4 + len) ext_end)) as Hrec by (apply IH; lia).
  destruct ((ty =? 0) && (5 <=? len)) eqn:E; [|done]. apply andb_true_iff in E as [_ ?%Z.leb_le].
  destruct (index_u16_word h (pos + 4) Hok) as (ll & -> & Hll); [lia..|]. cbn [obind].
  destruct (sni_names_total (S (length h)) (pos + 4 + 2) (Z.min (pos + 4 + 2 + ll) (pos + 4 + len))) as [r ->];
    [lia|lia|lia|unfold zlen; lia|]. cbn [obind]. by destruct r.
Qed.

Lemma alpn_names_total fuel lp list_end out :
  0 <= lp -> list_end <= zlen h -> 0 < Z.of_nat fuel -> zlen h - lp < Z.of_nat fuel ->
  returns (alpn_names fuel h lp list_end out).
Proof.
  revert lp out. induction fuel as [|fuel IH]; intros lp out Hp He Hf0 Hf; [lia|]. cbn [alpn_names].
  destruct (Z.ltb_spec lp list_end); [|done].
  destruct (index_byte h lp Hok) as (len & -> & Hlen); [lia|]. unfold is_byte in Hlen. cbn [obind].
  destruct (Z.ltb_spec list_end (lp + 1 + len)); [done|]. rewrite index_range_ok by lia. cbn [obind]. apply IH; lia.
Qed.

Lemma alpn_extensions_total fuel pos ext_end :
  0 <= pos -> ext_end <= zlen h -> 0 < Z.of_nat fuel -> zlen h - pos < Z.of_nat fuel ->
  returns (alpn_extensions fuel h pos ext_end).
Proof.
  revert pos. induction fuel as [|fuel IH]; intros pos Hp He Hf0 Hf; [lia|]. cbn [alpn_extensions].
  destruct (Z.leb_spec (pos + 4) ext_end); [|done].
  destruct (index_u16_word h pos Hok) as (ty & -> & _); [lia..|]. cbn [obind].
  destruct (index_u16_word h (pos + 2) Hok) as (len & -> & Hlen); [lia..|]. cbn [obind].
  destruct (Z.ltb_spec ext_end (pos + 4 + len)); [done|].
  destruct ((ty =? ALPN) && (3 <=? len)) eqn:E; [|apply IH; lia]. apply andb_true_iff in E as [_ ?%Z.leb_le].
  destruct (index_u16_word h (pos + 4) Hok) as (ll & -> & Hll); [lia..|]. cbn [obind].
  apply alpn_names_total; [lia|lia|lia|unfold zlen; lia].
Qed.

End Total.

(** The ClientHello parsers are safe on untrusted input: whatever bytes arrive, looking for
    the server name and for the ALPN list terminates and never indexes out of range. *)
Theorem client_hello_parsers_total handshake :
  bytes_ok handshake ->
  returns (extract_sni_from_client_hello handshake) /\ returns (extract_alpn_from_client_hello handshake).
Proof.
  intros Hok. pose proof (zlen_nonneg handshake). split.
  - unfold extract_sni_from_client_hello. destruct (Z.ltb_spec (zlen handshake) 43); [done|].
    destruct (index_byte handshake 0 Hok) as (b0 & -> & _); [lia|]. cbn [obind]. destruct (negb _); [done|].
    destruct (zget handshake 5) as [ty|]; [|done]. destruct (negb _); [done|].
    destruct (Z.ltb_spec (zlen handshake) (5 + 4 + (2 + 32) + 1)); [done|].
    destruct (zget_in handshake (5 + 4 + (2 + 32))) as (sid & -> & Hs%(proj1 (Forall_forall _ _) Hok)); [lia|].
    unfold is_byte in Hs. destruct (Z.ltb_spec (zlen handshake) (5 + 4 + (2 + 32) + (1 + sid) + 2)); [done|].
    destruct (index_u16_word handshake (5 + 4 + (2 + 32) + (1 + sid)) Hok) as (cs & -> & Hcs); [lia..|]. cbn [obind].
    destruct (Z.ltb_spec (zlen handshake) (5 + 4 + (2 + 32) + (1 + sid) + (2 + cs) + 1)); [done|].
    destruct (zget_in handshake (5 + 4 + (2 + 32) + (1 + sid) + (2 + cs))) as (cm & -> & Hm%(proj1 (Forall_forall _ _) Hok)); [lia|].
    unfold is_byte in Hm. destruct (Z.ltb_spec (zlen handshake) (5 + 4 + (2 + 32) + (1 + sid) + (2 + cs) + (1 + cm) + 2)); [done|].
    destruct (index_u16_word handshake (5 + 4 + (2 + 32) + (1 + sid) + (2 + cs) + (1 + cm)) Hok) as (el & -> & Hel); [lia..|]. cbn [obind].
    destruct (Z.ltb_spec (zlen handshake) (5 + 4 + (2 + 32) + (1 + sid) + (2 + cs) + (1 + cm) + 2 + el)); [done|].
    apply sni_extensions_total; [done|lia|lia|lia|unfold zlen; lia].
  - unfold extract_alpn_from_client_hello. destruct (negb _); [done|].
    destruct (Z.leb_spec (zlen handshake) (5 + 4 + (2 + 32))); [done|].
    destruct (zget_in handshake (5 + 4 + (2 + 32))) as (sid & -> & Hs%(proj1 (Forall_forall _ _) Hok)); [lia|].
    change (default 0 (Some sid)) with sid. unfold is_byte in Hs. destruct (Z.ltb_spec (zlen handshake) (5 + 4 + (2 + 32) + (1 + sid) + 2)); [done|].
    destruct (index_u16_word handshake (5 + 4 + (2 + 32) + (1 + sid)) Hok) as (cs & -> & Hcs); [lia..|]. cbn [obind].
    destruct (Z.leb_spec (zlen handshake) (5 + 4 + (2 + 32) + (1 + sid) + (2 + cs))); [done|].
    destruct (zget_in handshake (5 + 4 + (2 + 32) + (1 + sid) + (2 + cs))) as (cm & -> & Hm%(proj1 (Forall_forall _ _) Hok)); [lia|].
    change (default 0 (Some cm)) with cm. unfold is_byte in Hm. destruct (Z.ltb_spec (zlen handshake) (5 + 4 + (2 + 32) + (1 + sid) + (2 + cs) + (1 + cm) + 2)); [done|].
    destruct (index_u16_word handshake (5 + 4 + (2 + 32) + (1 + sid) + (2 + cs) + (1 + cm)) Hok) as (el & -> & Hel); [lia..|]. cbn [obind].
    destruct (Z.ltb_spec (zlen handshake) (5 + 4 + (2 + 32) + (1 + sid) + (2 + cs) + (1 + cm) + 2 + el)); [done|].
    apply alpn_extensions_total; [done|lia|lia|lia|unfold zlen; lia].
Qed.

(** ** A ClientHello as a client writes it (RFC 8446, 4.1.2) *)

Record ClientHello := mkClientHello {
  ch_version : bytes;
  ch_random : bytes;
  ch_session_id : bytes;
  ch_cipher_suites : bytes;
  ch_compression : bytes;
  ch_extensions : list (Z * bytes)
}.

Definition enc_extension (e : Z * bytes) : bytes := be_bytes 2 e.1 ++ be_bytes 2 (zlen e.2) ++ e.2.
Definition enc_extensions (es : list (Z * bytes)) : bytes := concat (map enc_extension es).

Definition hello_prefix (c : ClientHello) : bytes :=
  ch_version c ++ ch_random c ++ (zlen (ch_session_id c) :: ch_session_id c) ++
  (be_bytes 2 (zlen (ch_cipher_suites c)) ++ ch_cipher_suites c) ++
  (zlen (ch_compression c) :: ch_compression c) ++ be_bytes 2 (zlen (enc_extensions (ch_extensions c))).

Definition hello_body (c : ClientHello) : bytes := hello_prefix c ++ enc_extensions (ch_extensions c).

Definition enc_client_hello (c : ClientHello) : bytes :=
  let message := [0x01] ++ be_bytes 3 (zlen (hello_body c)) ++ hello_body c in
  [TLS_RECORD_HANDSHAKE; 0x03; 0x01] ++ be_bytes 2 (zlen message) ++ message.

Definition extension_ok (e : Z * bytes) : Prop := 0 <= e.1 < 65536 /\ zlen e.2 < 65536.

Definition client_hello_ok (c : ClientHello) : Prop :=
  zlen (ch_version c) = 2 /\ zlen (ch_random c) = 32 /\ zlen (ch_session_id c) < 256 /\
  zlen (ch_cipher_suites c) < 65536 /\ zlen (ch_compression c) < 256 /\
  Forall extension_ok (ch_extensions c) /\ zlen (enc_extensions (ch_extensions c)) < 65536.

#[global] Instance client_hello_ok_dec c : Decision (client_hello_ok c).
Proof. unfold client_hello_ok, extension_ok. apply _. Defined.

(** The server_name extension for one host, and the ALPN extension for a list of protocols. *)
Definition sni_data (host : bytes) : bytes := be_bytes 2 (3 + zlen host) ++ [0] ++ be_bytes 2 (zlen host) ++ host.
Definition alpn_list (protos : list bytes) : bytes := concat (map (fun p => zlen p :: p) protos).
Definition alpn_data (protos : list bytes) : bytes := be_bytes 2 (zlen (alpn_list protos)) ++ alpn_list protos.

Lemma zlen_enc_extension e : zlen (enc_extension e) = 4 + zlen e.2.
Proof. unfold enc_extension. rewrite !zlen_app, !zlen_be_bytes. lia. Qed.

(** One turn of the extension loops. *)
Lemma sni_extension_turn fuel a e b pos ext_end :
  extension_ok e -> pos = zlen a -> pos + zlen (enc_extension e) <= ext_end ->
  (e.1 <> 0 \/ zlen e.2 < 5) ->
  sni_extensions (S fuel) (a ++ enc_extension e ++ b) pos ext_end =
  sni_extensions fuel (a ++ enc_extension e ++ b) (zlen (a ++ enc_extension e)) ext_end.
Proof.
  intros [Ht Hl] -> He Hn. cbn [sni_extensions]. rewrite zlen_app, zlen_enc_extension in *. pose proof (zlen_nonneg e.2).
  destruct (Z.leb_spec (zlen a + 4) ext_end); [|lia]. unfold enc_extension. rewrite <-!app_assoc.
  rewrite index_u16_mid by lia. cbn [obind]. rewrite (app_assoc a (be_bytes 2 e.1)).
  rewrite index_u16_mid by (rewrite ?zlen_app, ?zlen_be_bytes; lia). cbn [obind]. rewrite <-app_assoc.
  destruct (Z.ltb_spec ext_end (zlen a + 4 + zlen e.2)); [lia|].
  destruct ((e.1 =? 0) && (5 <=? zlen e.2)) eqn:E.
  { apply andb_true_iff in E as [?%Z.eqb_eq ?%Z.leb_le]. lia. }
  cbn [obind]. f_equal. lia.
Qed.

Lemma sni_extension_found fuel a host b pos ext_end :
  0 < zlen host -> zlen (sni_data host) < 65536 -> utf8_valid host = true ->
  pos = zlen a -> pos + zlen (enc_extension (0, sni_data host)) <= ext_end ->
  sni_extensions (S fuel) (a ++ enc_extension (0, sni_data host) ++ b) pos ext_end = Done (Some host).
Proof.
  intros Hh Hl Hu -> He. cbn [sni_extensions]. rewrite zlen_enc_extension in He. cbn [fst snd] in He.
  assert (zlen (sni_data host) = 5 + zlen host) as Hsd.
  { unfold sni_data. rewrite !zlen_app, !zlen_be_bytes, zlen_cons, zlen_nil. lia. }
  destruct (Z.leb_spec (zlen a + 4) ext_end); [|lia]. unfold enc_extension. cbn [fst snd]. rewrite <-!app_assoc.
  rewrite index_u16_mid by lia. cbn [obind]. rewrite (app_assoc a (be_bytes 2 0)).
  rewrite index_u16_mid by (rewrite ?zlen_app, ?zlen_be_bytes; lia). cbn [obind]. rewrite Hsd.
  destruct (Z.ltb_spec ext_end (zlen a + 4 + (5 + zlen host))); [lia|].
  destruct ((0 =? 0) && (5 <=? 5 + zlen host)) eqn:E; [|apply andb_false_iff in E as [E|E%Z.leb_gt]; [done|lia]].
  set (a2 := (a ++ be_bytes 2 0) ++ be_bytes 2 (5 + zlen host)).
  assert (zlen a2 = zlen a + 4) as Ha2 by (unfold a2; rewrite !zlen_app, !zlen_be_bytes; lia).
  rewrite (app_assoc (a ++ be_bytes 2 0)). fold a2. rewrite <-Ha2. unfold sni_data. rewrite <-!app_assoc.
  rewrite index_u16_mid by lia. cbn [obind sni_names]. rewrite <-Ha2 in *.
  set (a3 := a2 ++ be_bytes 2 (3 + zlen host)).
  assert (zlen a3 = zlen a2 + 2) as Ha3 by (unfold a3; rewrite zlen_app, zlen_be_bytes; lia).
  rewrite (app_assoc a2). fold a3. rewrite <-Ha3. cbn [app].
  destruct (Z.leb_spec (zlen a3 + 3) (Z.min (zlen a3 + (3 + zlen host)) (zlen a2 + (5 + zlen host)))); [|lia].
  rewrite index_mid by done. cbn [obind]. rewrite (cons_middle 0 a3), (app_assoc a3 [0]).
  rewrite index_u16_mid by (rewrite ?zlen_app, ?zlen_cons, ?zlen_nil; lia). cbn [obind].
  destruct (Z.ltb_spec (Z.min (zlen a3 + (3 + zlen host)) (zlen a2 + (5 + zlen host))) (zlen a3 + 3 + zlen host)); [lia|].
  destruct ((0 =? 0) && (0 <? zlen host)) eqn:E2; [|apply andb_false_iff in E2 as [E2|E2%Z.ltb_ge]; [done|lia]].
  rewrite index_range_ok by (rewrite ?zlen_app, ?zlen_cons, ?zlen_nil, ?zlen_be_bytes; pose proof (zlen_nonneg a3); pose proof (zlen_nonneg b); lia).
  cbn [obind]. rewrite (app_assoc (a3 ++ [0])), slice_mid by (rewrite ?zlen_app, ?zlen_cons, ?zlen_nil, ?zlen_be_bytes; lia).
  by rewrite Hu.
Qed.

Lemma zlen_alpn_cons p protos : zlen (alpn_list (p :: protos)) = 1 + zlen p + zlen (alpn_list protos).
Proof. unfold alpn_list. cbn [map concat]. rewrite zlen_app, zlen_cons. lia. Qed.

Lemma alpn_names_list fuel a protos b out lp list_end :
  (length protos < fuel)%nat -> lp = zlen a -> list_end = lp + zlen (alpn_list protos) ->
  alpn_names fuel (a ++ alpn_list protos ++ b) lp list_end out = Done (out ++ protos).
Proof.
  intros Hf -> ->. revert a out fuel Hf. induction protos as [|p protos IH]; intros a out fuel Hf; (destruct fuel as [|fuel]; [cbn in Hf; lia|]).
  - cbn [alpn_names]. change (zlen (alpn_list [])) with 0. rewrite Z.add_0_r, Z.ltb_irrefl. by rewrite app_nil_r.
  - cbn [alpn_names]. rewrite zlen_alpn_cons. pose proof (zlen_nonneg p). pose proof (zlen_nonneg (alpn_list protos)).
    pose proof (zlen_nonneg a). pose proof (zlen_nonneg b).
    destruct (Z.ltb_spec (zlen a) (zlen a + (1 + zlen p + zlen (alpn_list protos)))); [|lia].
    change (alpn_list (p :: protos)) with ((zlen p :: p) ++ alpn_list protos). cbn [app]. rewrite index_mid by done. cbn [obind].
    destruct (Z.ltb_spec (zlen a + (1 + zlen p + zlen (alpn_list protos))) (zlen a + 1 + zlen p)); [lia|].
    rewrite cons_middle, (app_assoc a [zlen p]), <-(app_assoc p).
    rewrite index_range_ok by (rewrite ?zlen_app, ?zlen_cons, ?zlen_nil; lia).
    cbn [obind]. rewrite slice_mid by (rewrite ?zlen_app, ?zlen_cons, ?zlen_nil; lia).
    rewrite (app_assoc (a ++ [zlen p])). specialize (IH ((a ++ [zlen p]) ++ p) (out ++ [p]) fuel ltac:(cbn in Hf; lia)).
    rewrite !zlen_app, zlen_cons, zlen_nil in IH.
    replace (zlen a + 1 + zlen p) with (zlen a + (1 + 0) + zlen p) by lia.
    replace (zlen a + (1 + zlen p + zlen (alpn_list protos))) with (zlen a + (1 + 0) + zlen p + zlen (alpn_list protos)) by lia.
    rewrite IH. by rewrite <-app_assoc.
Qed.

Lemma alpn_extension_turn fuel a e b pos ext_end :
  extension_ok e -> pos = zlen a -> pos + zlen (enc_extension e) <= ext_end ->
  (e.1 <> ALPN \/ zlen e.2 < 3) ->
  alpn_extensions (S fuel) (a ++ enc_extension e ++ b) pos ext_end =
  alpn_extensions fuel (a ++ enc_extension e ++ b) (zlen (a ++ enc_extension e)) ext_end.
Proof.
  intros [Ht Hl] -> He Hn. cbn [alpn_extensions]. rewrite zlen_app, zlen_enc_extension in *. pose proof (zlen_nonneg e.2).
  destruct (Z.leb_spec (zlen a + 4) ext_end); [|lia]. unfold enc_extension. rewrite <-!app_assoc.
  rewrite index_u16_mid by lia. cbn [obind]. rewrite (app_assoc a (be_bytes 2 e.1)).
  rewrite index_u16_mid by (rewrite ?zlen_app, ?zlen_be_bytes; lia). cbn [obind]. rewrite <-app_assoc.
  destruct (Z.ltb_spec ext_end (zlen a + 4 + zlen e.2)); [lia|].
  destruct ((e.1 =? ALPN) && (3 <=? zlen e.2)) eqn:E.
  { apply andb_true_iff in E as [?%Z.eqb_eq ?%Z.leb_le]. lia. }
  f_equal. lia.
Qed.

Lemma alpn_extension_found fuel a protos b pos ext_end :
  zlen (alpn_data protos) < 65536 -> 3 <= zlen (alpn_data protos) ->
  pos = zlen a -> pos + zlen (enc_extension (ALPN, alpn_data protos)) <= ext_end -> ext_end <= usize_max ->
  alpn_extensions (S fuel) (a ++ enc_extension (ALPN, alpn_data protos) ++ b) pos ext_end = Done protos.
Proof.
  intros Hl H3 -> He Hmax. cbn [alpn_extensions]. rewrite zlen_enc_extension in He. cbn [fst snd] in He.
  assert (zlen (alpn_data protos) = 2 + zlen (alpn_list protos)) as Had.
  { unfold alpn_data. rewrite zlen_app, zlen_be_bytes. lia. }
  destruct (Z.leb_spec (zlen a + 4) ext_end); [|lia]. unfold enc_extension. cbn [fst snd]. rewrite <-!app_assoc.
  rewrite index_u16_mid by (unfold ALPN; lia). cbn [obind]. rewrite (app_assoc a (be_bytes 2 ALPN)).
  rewrite index_u16_mid by (rewrite ?zlen_app, ?zlen_be_bytes; lia). cbn [obind].
  destruct (Z.ltb_spec ext_end (zlen a + 4 + zlen (alpn_data protos))); [lia|].
  destruct ((ALPN =? ALPN) && (3 <=? zlen (alpn_data protos))) eqn:E; [|apply andb_false_iff in E as [E|E%Z.leb_gt]; [done|lia]].
  set (a2 := (a ++ be_bytes 2 ALPN) ++ be_bytes 2 (zlen (alpn_data protos))).
  assert (zlen a2 = zlen a + 4) as Ha2 by (unfold a2; rewrite !zlen_app, !zlen_be_bytes; lia).
  rewrite (app_assoc (a ++ be_bytes 2 ALPN)). fold a2. rewrite <-Ha2 in *. rewrite Had in *. unfold alpn_data. rewrite <-!app_assoc.
  pose proof (zlen_nonneg (alpn_list protos)). rewrite index_u16_mid by lia. cbn [obind].
  rewrite (app_assoc a2). apply (alpn_names_list _ _ protos b []).
  - rewrite !length_app. assert (forall ps, length ps <= length (alpn_list ps))%nat as Hle.
    { intros ps. induction ps as [|q ps IHp]; [done|]. unfold alpn_list in *. cbn. rewrite length_app. lia. }
    specialize (Hle protos). lia.
  - by rewrite zlen_app, zlen_be_bytes.
  - lia.
Qed.

(** Where the extensions of a written ClientHello begin. *)
Definition hello_head (c : ClientHello) : bytes :=
  [TLS_RECORD_HANDSHAKE; 0x03; 0x01] ++
  be_bytes 2 (zlen ([0x01] ++ be_bytes 3 (zlen (hello_body c)) ++ hello_body c)) ++
  [0x01] ++ be_bytes 3 (zlen (hello_body c)) ++ hello_prefix c.

Lemma hello_head_app c : enc_client_hello c = hello_head c ++ enc_extensions (ch_extensions c).
Proof. unfold enc_client_hello, hello_head, hello_body. by rewrite <-!app_assoc. Qed.

(** The fixed part of the head, and the three fields with their lengths in front. *)
Lemma hello_head_parts c :
  client_hello_ok c ->
  exists fixed, zlen fixed = 37 /\ zget (enc_client_hello c) 0 = Some TLS_RECORD_HANDSHAKE /\
    hello_head c = [TLS_RECORD_HANDSHAKE; 0x03; 0x01] ++ be_bytes 2 (zlen ([0x01] ++ be_bytes 3 (zlen (hello_body c)) ++ hello_body c)) ++
      [0x01] ++ fixed ++ (zlen (ch_session_id c) :: ch_session_id c) ++
      (be_bytes 2 (zlen (ch_cipher_suites c)) ++ ch_cipher_suites c) ++
      (zlen (ch_compression c) :: ch_compression c) ++ be_bytes 2 (zlen (enc_extensions (ch_extensions c))).
Proof.
  intros (Hv & Hr & _). exists (be_bytes 3 (zlen (hello_body c)) ++ ch_version c ++ ch_random c).
  split; [rewrite !zlen_app, zlen_be_bytes; lia|]. split; [done|].
  unfold hello_head, hello_prefix. by rewrite <-!app_assoc.
Qed.

(** The length fields of a written ClientHello, where the parsers look for them. *)
Lemma hello_fields c :
  client_hello_ok c ->
  let h := enc_client_hello c in
  let sid := zlen (ch_session_id c) in
  let cs := zlen (ch_cipher_suites c) in
  let cm := zlen (ch_compression c) in
  let ex := zlen (enc_extensions (ch_extensions c)) in
  zlen (hello_head c) = 49 + sid + cs + cm /\ zlen h = 49 + sid + cs + cm + ex /\
  zget h 0 = Some TLS_RECORD_HANDSHAKE /\ zget h 5 = Some 0x01 /\ zget h (5 + 4 + (2 + 32)) = Some sid /\
  index_u16 h (5 + 4 + (2 + 32) + (1 + sid)) = Done cs /\
  zget h (5 + 4 + (2 + 32) + (1 + sid) + (2 + cs)) = Some cm /\
  index_u16 h (5 + 4 + (2 + 32) + (1 + sid) + (2 + cs) + (1 + cm)) = Done ex.
Proof.
  intros Hc h lsid lcs lcm lex. destruct (hello_head_parts c Hc) as (fixed & Hf & H0 & Hhead). pose proof Hc as (_ & _ & Hs & Hcs & Hcm & _ & He).
  set (a := [TLS_RECORD_HANDSHAKE; 0x03; 0x01] ++ be_bytes 2 (zlen ([0x01] ++ be_bytes 3 (zlen (hello_body c)) ++ hello_body c))) in *.
  set (sid := ch_session_id c) in *. set (cs := ch_cipher_suites c) in *. set (cm := ch_compression c) in *.
  set (ex := enc_extensions (ch_extensions c)) in *.
  assert (zlen a = 5) as Ha by (unfold a; rewrite zlen_app, zlen_be_bytes; done).
  rewrite app_assoc in Hhead. fold a in Hhead.
  assert (h = a ++ 0x01 :: (fixed ++ (zlen sid :: sid) ++ (be_bytes 2 (zlen cs) ++ cs) ++ (zlen cm :: cm) ++ be_bytes 2 (zlen ex) ++ ex)) as E0.
  { unfold h. rewrite hello_head_app, Hhead. fold ex. rewrite <-!app_assoc. done. }
  set (b1 := a ++ [0x01] ++ fixed).
  assert (h = b1 ++ zlen sid :: (sid ++ (be_bytes 2 (zlen cs) ++ cs) ++ (zlen cm :: cm) ++ be_bytes 2 (zlen ex) ++ ex)) as E1.
  { rewrite E0. unfold b1. by rewrite <-!app_assoc. }
  set (b2 := b1 ++ zlen sid :: sid).
  assert (h = b2 ++ be_bytes 2 (zlen cs) ++ (cs ++ (zlen cm :: cm) ++ be_bytes 2 (zlen ex) ++ ex)) as E2.
  { rewrite E1. unfold b2. by rewrite <-!app_assoc. }
  set (b3 := b2 ++ be_bytes 2 (zlen cs) ++ cs).
  assert (h = b3 ++ zlen cm :: (cm ++ be_bytes 2 (zlen ex) ++ ex)) as E3.
  { rewrite E2. unfold b3. by rewrite <-!app_assoc. }
  set (b4 := b3 ++ zlen cm :: cm).
  assert (h = b4 ++ be_bytes 2 (zlen ex) ++ ex) as E4.
  { rewrite E3. unfold b4. by rewrite <-!app_assoc. }
  pose proof (zlen_nonneg sid). pose proof (zlen_nonneg cs). pose proof (zlen_nonneg cm). pose proof (zlen_nonneg ex).
  assert (zlen b1 = 43) as L1 by (unfold b1; rewrite !zlen_app, zlen_cons, zlen_nil; lia).
  assert (zlen b2 = 44 + zlen sid) as L2 by (unfold b2; rewrite zlen_app, zlen_cons; lia).
  assert (zlen b3 = 46 + zlen sid + zlen cs) as L3 by (unfold b3; rewrite !zlen_app, zlen_be_bytes; lia).
  assert (zlen b4 = 47 + zlen sid + zlen cs + zlen cm) as L4 by (unfold b4; rewrite zlen_app, zlen_cons; lia).
  assert (zlen h = 49 + zlen sid + zlen cs + zlen cm + zlen ex) as Lh by (rewrite E4, !zlen_app, zlen_be_bytes; lia).
  assert (zlen (hello_head c) = 49 + zlen sid + zlen cs + zlen cm) as Lhd.
  { assert (zlen h = zlen (hello_head c) + zlen ex) as Lx by (unfold h; rewrite hello_head_app; apply zlen_app). lia. }
  split_and!; [done|done|done|rewrite E0; by apply zget_mid|rewrite E1; by apply zget_mid| | |].
  - rewrite E2. apply index_u16_mid; unfold lsid, lcs; fold sid cs; lia.
  - rewrite E3. apply zget_mid. unfold lsid, lcs; fold sid cs; lia.
  - rewrite E4. apply index_u16_mid; unfold lsid, lcs, lcm, lex; fold sid cs cm ex; lia.
Qed.

Lemma extract_enters_extensions c :
  client_hello_ok c ->
  let h := enc_client_hello c in
  zlen h = zlen (hello_head c) + zlen (enc_extensions (ch_extensions c)) /\ zlen h < 2 ^ 20 /\
  extract_sni_from_client_hello h = sni_extensions (S (length h)) h (zlen (hello_head c)) (zlen h) /\
  extract_alpn_from_client_hello h = alpn_extensions (S (length h)) h (zlen (hello_head c)) (zlen h).
Proof.
  intros Hc h. destruct (hello_fields c Hc) as (Lhd & Lh & H0 & G5 & G43 & Gcs & Gcm & Gex). fold h in Lh, H0, G5, G43, Gcs, Gcm, Gex.
  pose proof Hc as (_ & _ & Hs & Hcs & Hcm & _ & He).
  set (sid := ch_session_id c) in *. set (cs := ch_cipher_suites c) in *. set (cm := ch_compression c) in *.
  set (ex := enc_extensions (ch_extensions c)) in *.
  pose proof (zlen_nonneg sid). pose proof (zlen_nonneg cs). pose proof (zlen_nonneg cm). pose proof (zlen_nonneg ex).
  split_and!; [lia|lia| |].
  - unfold extract_sni_from_client_hello, index. rewrite H0. destruct (Z.ltb_spec (zlen h) 43); [lia|].
    cbn [obind]. change (negb (TLS_RECORD_HANDSHAKE =? TLS_RECORD_HANDSHAKE)) with false. cbv iota. rewrite G5.
    change (negb (1 =? 1)) with false. cbv iota. destruct (Z.ltb_spec (zlen h) (5 + 4 + (2 + 32) + 1)); [lia|]. rewrite G43.
    destruct (Z.ltb_spec (zlen h) (5 + 4 + (2 + 32) + (1 + zlen sid) + 2)); [lia|]. rewrite Gcs. cbn [obind].
    destruct (Z.ltb_spec (zlen h) (5 + 4 + (2 + 32) + (1 + zlen sid) + (2 + zlen cs) + 1)); [lia|]. rewrite Gcm.
    destruct (Z.ltb_spec (zlen h) (5 + 4 + (2 + 32) + (1 + zlen sid) + (2 + zlen cs) + (1 + zlen cm) + 2)); [lia|]. rewrite Gex. cbn [obind].
    destruct (Z.ltb_spec (zlen h) (5 + 4 + (2 + 32) + (1 + zlen sid) + (2 + zlen cs) + (1 + zlen cm) + 2 + zlen ex)); [lia|].
    f_equal; lia.
  - unfold extract_alpn_from_client_hello. rewrite G5, bool_decide_true by done. cbn [negb]. cbv iota.
    destruct (Z.leb_spec (zlen h) (5 + 4 + (2 + 32))); [lia|]. rewrite G43. change (default 0 (Some (zlen sid))) with (zlen sid).
    destruct (Z.ltb_spec (zlen h) (5 + 4 + (2 + 32) + (1 + zlen sid) + 2)); [lia|]. rewrite Gcs. cbn [obind].
    destruct (Z.leb_spec (zlen h) (5 + 4 + (2 + 32) + (1 + zlen sid) + (2 + zlen cs))); [lia|]. rewrite Gcm.
    change (default 0 (Some (zlen cm))) with (zlen cm).
    destruct (Z.ltb_spec (zlen h) (5 + 4 + (2 + 32) + (1 + zlen sid) + (2 + zlen cs) + (1 + zlen cm) + 2)); [lia|]. rewrite Gex. cbn [obind].
    destruct (Z.ltb_spec (zlen h) (5 + 4 + (2 + 32) + (1 + zlen sid) + (2 + zlen cs) + (1 + zlen cm) + 2 + zlen ex)); [lia|].
    f_equal; lia.
Qed.

Lemma sni_skip es fuel a b ext_end :
  Forall extension_ok es -> Forall (fun e => e.1 <> 0) es -> zlen a + zlen (enc_extensions es) <= ext_end ->
  sni_extensions (length es + fuel) (a ++ enc_extensions es ++ b) (zlen a) ext_end =
  sni_extensions fuel (a ++ enc_extensions es ++ b) (zlen (a ++ enc_extensions es)) ext_end.
Proof.
  intros Hok Hne. revert a. induction Hok as [|e es He Hes IH]; intros a Hend; [by rewrite app_nil_r|].
  apply Forall_cons in Hne as [Hn Hne]. change (enc_extensions (e :: es)) with (enc_extension e ++ enc_extensions es) in *.
  rewrite zlen_app in Hend. pose proof (zlen_nonneg (enc_extensions es)). rewrite <-!(app_assoc (enc_extension e)).
  cbn [length Nat.add]. rewrite sni_extension_turn by (try done; try lia; by left).
  rewrite (app_assoc a (enc_extension e) (enc_extensions es ++ b)), IH by (try done; rewrite zlen_app; lia).
  by rewrite !(app_assoc a (enc_extension e)).
Qed.

Lemma alpn_skip es fuel a b ext_end :
  Forall extension_ok es -> Forall (fun e => e.1 <> ALPN) es -> zlen a + zlen (enc_extensions es) <= ext_end ->
  alpn_extensions (length es + fuel) (a ++ enc_extensions es ++ b) (zlen a) ext_end =
  alpn_extensions fuel (a ++ enc_extensions es ++ b) (zlen (a ++ enc_extensions es)) ext_end.
Proof.
  intros Hok Hne. revert a. induction Hok as [|e es He Hes IH]; intros a Hend; [by rewrite app_nil_r|].
  apply Forall_cons in Hne as [Hn Hne]. change (enc_extensions (e :: es)) with (enc_extension e ++ enc_extensions es) in *.
  rewrite zlen_app in Hend. pose proof (zlen_nonneg (enc_extensions es)). rewrite <-!(app_assoc (enc_extension e)).
  cbn [length Nat.add]. rewrite alpn_extension_turn by (try done; try lia; by left).
  rewrite (app_assoc a (enc_extension e) (enc_extensions es ++ b)), IH by (try done; rewrite zlen_app; lia).
  by rewrite !(app_assoc a (enc_extension e)).
Qed.

Lemma enc_extensions_split es e es' :
  enc_extensions (es ++ e :: es') = enc_extensions es ++ enc_extension e ++ enc_extensions es'.
Proof. unfold enc_extensions. rewrite map_app, concat_app. done. Qed.

Lemma fuel_enough es (a b : bytes) : exists fuel, S (length (a ++ enc_extensions es ++ b)) = (length es + S fuel)%nat.
Proof.
  assert (length es <= length (enc_extensions es))%nat as Hle.
  { induction es as [|e es IH]; [done|]. unfold enc_extensions in *. cbn. rewrite length_app.
    pose proof (zlen_enc_extension e) as L. pose proof (zlen_nonneg e.2). unfold zlen in *. lia. }
  exists (length (a ++ enc_extensions es ++ b) - length es)%nat. rewrite !length_app in *. lia.
Qed.

Lemma hello_sni_found c pre host post :
  client_hello_ok c -> ch_extensions c = pre ++ (0, sni_data host) :: post -> Forall (fun e => e.1 <> 0) pre ->
  0 < zlen host -> utf8_valid host = true -> extract_sni_from_client_hello (enc_client_hello c) = Done (Some host).
Proof.
  intros Hc Hs Hpre Hh Hu. destruct (extract_enters_extensions c Hc) as (Hlen & Hbig & -> & _).
  destruct Hc as (_ & _ & _ & _ & _ & Hexts & _). rewrite hello_head_app in *.
  rewrite Hs in Hexts. apply Forall_app in Hexts as [Hok [[_ Hsd] _]%Forall_cons]. rewrite Hs, enc_extensions_split in *.
  rewrite zlen_app in Hlen. destruct (fuel_enough pre (hello_head c) (enc_extension (0, sni_data host) ++ enc_extensions post)) as [fuel ->].
  pose proof (zlen_nonneg (enc_extensions post)). pose proof (zlen_nonneg (enc_extension (0, sni_data host))).
  rewrite sni_skip by (try done; rewrite !zlen_app in *; lia). rewrite (app_assoc (hello_head c)).
  apply sni_extension_found; try done. rewrite !zlen_app in *; lia.
Qed.

Lemma hello_alpn_found c pre protos post :
  client_hello_ok c -> ch_extensions c = pre ++ (ALPN, alpn_data protos) :: post -> Forall (fun e => e.1 <> ALPN) pre -> protos <> [] ->
  extract_alpn_from_client_hello (enc_client_hello c) = Done protos.
Proof.
  intros Hc Ha Hpre Hp. destruct (extract_enters_extensions c Hc) as (Hlen & Hbig & _ & ->).
  destruct Hc as (_ & _ & _ & _ & _ & Hexts & _). rewrite hello_head_app in *.
  rewrite Ha in Hexts. apply Forall_app in Hexts as [Hok [[_ Had] _]%Forall_cons]. rewrite Ha, enc_extensions_split in *.
  rewrite zlen_app in Hlen. destruct (fuel_enough pre (hello_head c) (enc_extension (ALPN, alpn_data protos) ++ enc_extensions post)) as [fuel ->].
  pose proof (zlen_nonneg (enc_extensions post)). pose proof (zlen_nonneg (enc_extension (ALPN, alpn_data protos))).
  rewrite alpn_skip by (try done; rewrite !zlen_app in *; lia). rewrite (app_assoc (hello_head c)).
  apply alpn_extension_found; try done; try (rewrite !zlen_app in *; unfold usize_max; lia).
  destruct protos as [|p protos]; [done|]. unfold alpn_data. rewrite zlen_app, zlen_be_bytes, zlen_alpn_cons.
  pose proof (zlen_nonneg p). pose proof (zlen_nonneg (alpn_list protos)). lia.
Qed.

(** The names in a ClientHello are found.  In any well-formed ClientHello, whatever its other
    fields, the host of the server_name extension is returned when it is well-formed text, and the
    protocols of the ALPN extension are returned in the order offered. *)
Theorem client_hello_names_found c pre host protos post pre' post' :
  client_hello_ok c ->
  ch_extensions c = pre ++ (0, sni_data host) :: post -> Forall (fun e => e.1 <> 0) pre ->
  0 < zlen host -> utf8_valid host = true ->
  ch_extensions c = pre' ++ (ALPN, alpn_data protos) :: post' -> Forall (fun e => e.1 <> ALPN) pre' -> protos <> [] ->
  extract_sni_from_client_hello (enc_client_hello c) = Done (Some host) /\
  extract_alpn_from_client_hello (enc_client_hello c) = Done protos.
Proof. intros. split; [by eapply hello_sni_found|by eapply hello_alpn_found]. Qed.

(** ** Validation *)

Section Validation.
Context `{DigestsOk}.

Definition zeroed (hello : bytes) : bytes := splice hello 11 (zrepeat 32 0).

(** What a client puts in the random field: the HMAC of its hello without the field, with the time
    mixed into the last four bytes. *)
Definition hello_digest (secret hello : bytes) (timestamp : Z) : bytes :=
  xor_digests (sha256_hmac secret (zeroed hello)) (zrepeat 28 0 ++ le_bytes 4 timestamp).
Definition sign_hello (secret hello : bytes) (timestamp : Z) : bytes :=
  splice hello 11 (hello_digest secret hello timestamp).

Definition time_ok (ignore_time_skew : bool) (now timestamp : Z) : Prop :=
  ignore_time_skew = true \/ timestamp < 60 * 60 * 24 * 1000 \/ TIME_SKEW_MIN <= now - timestamp <= TIME_SKEW_MAX.

Lemma xor_digests_cancel a b : length a = length b -> xor_digests (xor_digests a b) a = b.
Proof.
  unfold xor_digests. revert b. induction a as [|x a IH]; intros [|y b]; try done. intros [= L]. cbn. f_equal; [|by apply IH].
  by rewrite (Z.lxor_comm x y), Z.lxor_assoc, Z.lxor_nilpotent, Z.lxor_0_r.
Qed.

Lemma xor_digests_comm a b : xor_digests a b = xor_digests b a.
Proof.
  unfold xor_digests. revert b. induction a as [|x a IH]; intros [|y b]; try done. cbn. by rewrite IH, Z.lxor_comm.
Qed.

Lemma xor_digests_len a b : length a = length b -> length (xor_digests a b) = length a.
Proof. intros. unfold xor_digests. rewrite length_zip_with. lia. Qed.

Lemma xor_digests_ok a b : bytes_ok a -> bytes_ok b -> bytes_ok (xor_digests a b).
Proof.
  intros Ha. revert b. induction Ha as [|x a Hx Ha IH]; intros [|y b] Hb; try constructor.
  - apply Forall_cons in Hb as [? _]. by apply lxor_byte.
  - apply Forall_cons in Hb as [_ ?]. by apply IH.
Qed.

Lemma hello_digest_len secret hello ts : length (hello_digest secret hello ts) = 32%nat.
Proof. unfold hello_digest. rewrite xor_digests_len; rewrite hmac_len; [done|]. rewrite length_app, le_bytes_length. done. Qed.

(** Replacing the random field leaves the rest of the hello alone. *)
Lemma zlen_digest secret hello ts : zlen (hello_digest secret hello ts) = 32.
Proof. unfold zlen. by rewrite hello_digest_len. Qed.

Lemma splice_parts (hello : bytes) :
  44 <= zlen hello -> exists a d b, hello = a ++ d ++ b /\ zlen a = 11 /\ zlen d = 32 /\ zlen b = zlen hello - 43.
Proof.
  intros Hl. exists (ztake 11 hello), (slice hello 11 43), (zdrop 43 hello).
  rewrite zlen_slice, zlen_ztake, zlen_zdrop by lia. split_and!; try lia. unfold slice.
  rewrite <-(ztake_zdrop 11 hello) at 1. f_equal. rewrite <-(ztake_zdrop 32 (zdrop 11 hello)) at 1. f_equal.
  by rewrite zdrop_zdrop by lia.
Qed.

Lemma sign_hello_facts secret hello ts :
  44 <= zlen hello ->
  let h := sign_hello secret hello ts in
  zlen h = zlen hello /\ slice h 11 43 = hello_digest secret hello ts /\ zeroed h = zeroed hello /\
  zdrop 43 h = zdrop 43 hello.
Proof.
  intros Hl. destruct (splice_parts hello Hl) as (a & d & b & -> & Ha & Hd & Hb). unfold sign_hello.
  set (g := hello_digest secret (a ++ d ++ b) ts). assert (zlen g = 32) as Hg by apply zlen_digest.
  rewrite (splice_mid a d b g) by lia. unfold zeroed. split_and!.
  - rewrite !zlen_app. lia.
  - by apply slice_mid; lia.
  - rewrite (splice_mid a g b), (splice_mid a d b) by (rewrite ?zlen_zrepeat; lia). done.
  - rewrite !app_assoc. rewrite (zdrop_app 43 (a ++ d)), (zdrop_app 43 (a ++ g)) by (rewrite zlen_app; lia). done.
Qed.

Lemma validate_users_cons msg digest sid now ign e secrets :
  validate_users msg digest sid now ign (e :: secrets) =
    match validate_users msg digest sid now ign [e] with
    | Some v => Some v
    | None => validate_users msg digest sid now ign secrets
    end.
Proof. destruct e as [u s]. cbn. by repeat case_match. Qed.

Lemma forallb_zeros n : forallb (fun b => b =? 0) (replicate n 0) = true.
Proof. induction n; done. Qed.

Lemma forallb_zeros_inv l : forallb (fun b => b =? 0) l = true -> l = replicate (length l) 0.
Proof. induction l as [|x l IH]; [done|]. cbn. intros [->%Z.eqb_eq Hl]%andb_true_iff. f_equal. by apply IH. Qed.

(** The mask of a time: 28 zeros and the time. *)
Definition time_mask (ts : Z) : bytes := zrepeat 28 0 ++ le_bytes 4 ts.

Lemma time_mask_zeros x :
  length x = 32%nat -> bytes_ok x ->
  forallb (fun b => b =? 0) (ztake 28 x) = true <-> x = time_mask (le_val (slice x 28 32)).
Proof.
  intros Hx Hxok. unfold time_mask. split; intros E.
  - apply forallb_zeros_inv in E. rewrite <-(ztake_zdrop 28 x) at 1. f_equal.
    + rewrite E. unfold ztake. by rewrite length_take, Hx.
    + assert (slice x 28 32 = zdrop 28 x) as -> by (unfold slice; apply ztake_all; rewrite zlen_zdrop; unfold zlen; lia).
      pose proof (le_bytes_le_val (zdrop 28 x)) as El. unfold zdrop in *. rewrite length_drop, Hx in El.
      symmetry. apply El. by apply Forall_drop.
  - rewrite E, ztake_app by done. apply forallb_zeros.
Qed.

Lemma time_mask_val ts : in_u32 ts -> le_val (slice (time_mask ts) 28 32) = ts.
Proof.
  intros Hts. unfold time_mask. rewrite slice_app_r by (change (zlen (zrepeat 28 0)) with 28; lia).
  change (zlen (zrepeat 28 0)) with 28. rewrite slice_full by (rewrite ?zlen_le_bytes; lia).
  rewrite le_val_le_bytes_small; [done|]. unfold in_u32 in Hts. lia.
Qed.

Lemma xor_mask_iff digest computed ts :
  length digest = 32%nat -> length computed = 32%nat ->
  digest = xor_digests computed (time_mask ts) <-> xor_digests digest computed = time_mask ts.
Proof.
  intros Hd Hc. assert (length (time_mask ts) = 32%nat) as Hm by (unfold time_mask; by rewrite length_app, le_bytes_length).
  split; intros E.
  - rewrite E. apply xor_digests_cancel. congruence.
  - rewrite <-E, (xor_digests_comm digest), xor_digests_comm. symmetry. apply xor_digests_cancel. congruence.
Qed.

Lemma skew_test ign now ts :
  negb ign && (negb (ts <? 60 * 60 * 24 * 1000) && negb ((TIME_SKEW_MIN <=? now - ts) && (now - ts <=? TIME_SKEW_MAX))) = false
  <-> time_ok ign now ts.
Proof.
  unfold time_ok. destruct ign; [by split; [left|]|].
  destruct (Z.ltb_spec ts (60 * 60 * 24 * 1000)), (Z.leb_spec TIME_SKEW_MIN (now - ts)), (Z.leb_spec (now - ts) TIME_SKEW_MAX);
    cbn [negb andb]; split; try done; try lia.
Qed.

(** One user: the digest must be the one the user's secret gives for some acceptable time. *)
Lemma validate_one msg digest sid now ign user secret v :
  length digest = 32%nat -> bytes_ok digest ->
  validate_users msg digest sid now ign [(user, secret)] = Some v <->
  exists ts, in_u32 ts /\ digest = xor_digests (sha256_hmac secret msg) (time_mask ts) /\
    time_ok ign now ts /\ v = mkTlsValidation user sid digest ts.
Proof.
  intros Hl Hok. cbn [validate_users]. pose proof (hmac_len secret msg) as Hc.
  set (x := xor_digests digest (sha256_hmac secret msg)).
  assert (length x = 32%nat) as Hx by (unfold x; rewrite xor_digests_len; congruence).
  assert (bytes_ok x) as Hxok by (apply xor_digests_ok; [done|apply hmac_bytes]).
  set (ts := le_val (slice x 28 32)).
  assert (in_u32 ts) as Hts.
  { unfold ts, in_u32. pose proof (le_val_bound (slice x 28 32)) as Hb. rewrite zlen_slice in Hb by (unfold zlen; lia).
    change (2 ^ 32) with (256 ^ (32 - 28)). apply Hb. unfold slice, ztake, zdrop. by apply Forall_take, Forall_drop. }
  assert (Huniq : forall ts', in_u32 ts' -> x = time_mask ts' -> ts' = ts).
  { intros ts' Hts' E. unfold ts. by rewrite E, time_mask_val. }
  pose proof (time_mask_zeros x Hx Hxok) as Hzero. fold ts in Hzero.
  pose proof (skew_test ign now ts) as Ht. pose proof (xor_mask_iff digest (sha256_hmac secret msg)) as Hiff. fold x in Hiff.
  destruct (forallb (fun b => b =? 0) (ztake 28 x)) eqn:Ez; cbn [negb].
  2:{ split; [done|]. intros (ts' & Hts' & E%Hiff & _); [|done..]. rewrite (Huniq ts' Hts' E) in E. by apply Hzero in E. }
  assert (x = time_mask ts) as E by by apply Hzero.
  destruct (negb ign && _) eqn:Eb.
  - split; [done|]. intros (ts' & Hts' & E'%Hiff & Hok' & _); [|done..]. rewrite (Huniq ts' Hts' E') in Hok'. by apply Ht in Hok'.
  - split.
    + intros [= <-]. exists ts. split_and!; try done; [by apply Hiff|by apply Ht].
    + intros (ts' & Hts' & E'%Hiff & _ & ->); [|done..]. by rewrite (Huniq ts' Hts' E').
Qed.

(** [validate_tls_handshake] on a hello whose session identifier is inside it. *)
Lemma validate_eq hello secrets ign now n :
  44 <= zlen hello -> zget hello 43 = Some n -> 44 + n <= zlen hello ->
  validate_tls_handshake hello secrets ign now =
    validate_users (zeroed hello) (slice hello 11 43) (slice hello 44 (44 + n)) now ign secrets.
Proof.
  intros Hl Hn Hs. unfold validate_tls_handshake. change (TLS_DIGEST_POS + TLS_DIGEST_LEN) with 43.
  destruct (Z.ltb_spec (zlen hello) (43 + 1)); [lia|]. rewrite Hn. destruct (Z.ltb_spec (zlen hello) (43 + 1 + n)); [lia|]. done.
Qed.

Lemma validate_users_app msg digest sid now ign others secrets :
  Forall (fun e => validate_users msg digest sid now ign [e] = None) others ->
  validate_users msg digest sid now ign (others ++ secrets) = validate_users msg digest sid now ign secrets.
Proof. induction 1 as [|e others He _ IH]; [done|]. cbn [app]. by rewrite validate_users_cons, He, IH. Qed.

Lemma validate_users_in msg digest sid now ign secrets v :
  validate_users msg digest sid now ign secrets = Some v ->
  exists e, e ∈ secrets /\ validate_users msg digest sid now ign [e] = Some v.
Proof.
  induction secrets as [|e secrets IH]; [done|]. rewrite validate_users_cons.
  destruct (validate_users msg digest sid now ign [e]) as [v'|] eqn:E.
  - intros [= ->]. exists e. split; [left|done].
  - intros (e' & ? & ?)%IH. exists e'. split; [by right|done].
Qed.

Lemma bytes_ok_slice l a b : bytes_ok l -> bytes_ok (slice l a b).
Proof. intros. unfold slice, ztake, zdrop. by apply Forall_take, Forall_drop. Qed.

Lemma zget_zdrop (a b : bytes) i j : zdrop j a = zdrop j b -> 0 <= j <= i -> zget a i = zget b i.
Proof.
  intros E Hj. unfold zget. rewrite !decide_True by lia. unfold zdrop in E.
  apply (f_equal (fun l => l !! (Z.to_nat i - Z.to_nat j)%nat)) in E. rewrite !lookup_drop in E.
  by replace (Z.to_nat j + (Z.to_nat i - Z.to_nat j))%nat with (Z.to_nat i) in E by lia.
Qed.

Lemma hello_digest_ok secret hello ts : bytes_ok (hello_digest secret hello ts).
Proof.
  apply xor_digests_ok; [apply hmac_bytes|]. apply bytes_ok_app. split; [|apply le_bytes_ok].
  apply Forall_replicate. unfold is_byte. lia.
Qed.

Lemma sign_hello_ok secret hello ts : bytes_ok hello -> bytes_ok (sign_hello secret hello ts).
Proof.
  intros Hok. unfold sign_hello, splice. rewrite !bytes_ok_app. split_and!; [by apply Forall_take|apply hello_digest_ok|by apply Forall_drop].
Qed.

(** A client with a user's secret is recognised.  A ClientHello signed with a user's secret at
    an acceptable time, whose session identifier is inside it, validates as that user with its
    session identifier, its digest and the client's time, unless an earlier user happens to match. *)
Theorem tls_client_recognised hello secret user ts others secrets ign now n :
  44 <= zlen hello -> bytes_ok hello -> zget hello 43 = Some n -> 44 + n <= zlen hello -> in_u32 ts -> time_ok ign now ts ->
  let h := sign_hello secret hello ts in
  Forall (fun e => validate_tls_handshake h [e] ign now = None) others ->
  validate_tls_handshake h (others ++ (user, secret) :: secrets) ign now =
    Some (mkTlsValidation user (slice hello 44 (44 + n)) (hello_digest secret hello ts) ts).
Proof.
  intros Hl Hok Hn Hs Hts Ht h Ho. destruct (sign_hello_facts secret hello ts Hl) as (Hlh & Hd & Hz & Hdrop). fold h in Hlh, Hd, Hz, Hdrop.
  assert (0 <= n) as Hn0.
  { assert (n ∈ hello) as Hin by (unfold zget in Hn; rewrite decide_True in Hn by lia; by eapply list_elem_of_lookup_2).
    unfold bytes_ok in Hok. rewrite Forall_forall in Hok. by destruct (Hok n Hin). }
  assert (zget h 43 = Some n) as Hn' by (rewrite (zget_zdrop h hello 43 43); [done|done|lia]).
  assert (slice h 44 (44 + n) = slice hello 44 (44 + n)) as Hsid.
  { unfold slice. f_equal. replace 44 with (1 + 43) by lia. rewrite <-!zdrop_zdrop by lia. by rewrite Hdrop. }
  assert (Heq : forall ss, validate_tls_handshake h ss ign now =
            validate_users (zeroed hello) (hello_digest secret hello ts) (slice hello 44 (44 + n)) now ign ss).
  { intros ss. rewrite (validate_eq h ss ign now n) by (try done; lia). by rewrite Hz, Hd, Hsid. }
  rewrite Heq, validate_users_app, validate_users_cons by (eapply Forall_impl; [exact Ho|]; intros e He; by rewrite <-Heq).
  pose proof (hello_digest_ok secret hello ts) as Hdok.
  assert (validate_users (zeroed hello) (hello_digest secret hello ts) (slice hello 44 (44 + n)) now ign [(user, secret)] =
    Some (mkTlsValidation user (slice hello 44 (44 + n)) (hello_digest secret hello ts) ts)) as ->; [|done].
  apply validate_one; [apply hello_digest_len|done|]. by exists ts.
Qed.

(** Nobody else is.  Whatever validates carries the digest that the reported user's secret gives
    for the rest of the hello at the reported time, that time is acceptable, and the session
    identifier and digest reported are those of the hello. *)
Theorem tls_validation_sound hello secrets ign now v :
  bytes_ok hello -> validate_tls_handshake hello secrets ign now = Some v ->
  exists secret, (tv_user v, secret) ∈ secrets /\ hello = sign_hello secret hello (tv_timestamp v) /\
    time_ok ign now (tv_timestamp v) /\ tv_digest v = slice hello 11 43 /\
    exists n, zget hello 43 = Some n /\ tv_session_id v = slice hello 44 (44 + n) /\ zlen (tv_session_id v) = n.
Proof.
  intros Hok Hv. unfold validate_tls_handshake in Hv. change (TLS_DIGEST_POS + TLS_DIGEST_LEN) with 43 in Hv.
  change TLS_DIGEST_POS with 11 in Hv. change TLS_DIGEST_LEN with 32 in Hv.
  destruct (Z.ltb_spec (zlen hello) (43 + 1)) as [|Hl]; [done|].
  destruct (zget_in hello 43) as (n & Hn & Hin); [lia|]. rewrite Hn in Hv.
  destruct (Z.ltb_spec (zlen hello) (43 + 1 + n)) as [|Hs]; [done|].
  assert (is_byte n) as Hnb by (unfold bytes_ok in Hok; rewrite Forall_forall in Hok; by apply Hok). unfold is_byte in Hnb.
  apply validate_users_in in Hv as ([user secret] & Hu & Hv).
  apply validate_one in Hv as (ts & Hts & Hd & Ht & ->); [|apply zlen_length; rewrite zlen_slice; lia|by apply bytes_ok_slice].
  exists secret. cbn. split_and!; try done.
  - unfold sign_hello, hello_digest, zeroed. destruct (splice_parts hello) as (a & d & b & -> & Ha & Hdl & _); [lia|].
    unfold time_mask in Hd. rewrite <-Hd.
    rewrite (slice_mid a d b) by lia. by rewrite (splice_mid a d b) by lia.
  - exists n. split_and!; [done|done|]. rewrite zlen_slice by lia. lia.
Qed.

End Validation.

(** ** The server's answer, as a client reads it *)

(** Splitting a byte string into TLS records. *)
Fixpoint split_records (fuel : nat) (w : bytes) : option (list (Z * bytes)) :=
  match fuel with
  | O => None
  | S fuel =>
      if zlen w =? 0 then Some []
      else if zlen w <? 5 then None
      else
        match parse_tls_record_header (ztake 5 w) with
        | None => None
        | Some (ty, len) =>
            if zlen w <? 5 + len then None
            else
              match split_records fuel (zdrop (5 + len) w) with
              | Some records => Some ((ty, slice w 5 (5 + len)) :: records)
              | None => None
              end
        end
  end.

Definition record_bytes (r : Z * bytes) : bytes := [r.1] ++ TLS_VERSION ++ be_bytes 2 (zlen r.2) ++ r.2.

Lemma split_records_bytes rs fuel :
  Forall (fun r => zlen r.2 < 65536) rs -> (length rs < fuel)%nat ->
  split_records fuel (concat (map record_bytes rs)) = Some rs.
Proof.
  intros Hrs. revert fuel. induction Hrs as [|[ty body] rs Hb Hrs IH]; intros fuel Hf; (destruct fuel as [|fuel]; [cbn in Hf; lia|]); [done|].
  cbn [map concat split_records]. cbn [snd] in Hb. pose proof (zlen_nonneg body).
  set (rest := concat (map record_bytes rs)). pose proof (zlen_nonneg rest).
  set (hdr := [ty] ++ TLS_VERSION ++ be_bytes 2 (zlen body)).
  assert (zlen hdr = 5) as Hh by (unfold hdr; rewrite !zlen_app, zlen_be_bytes; done).
  assert (record_bytes (ty, body) = hdr ++ body) as Er by (unfold record_bytes, hdr; cbn [fst snd]; by rewrite <-!app_assoc).
  rewrite Er, <-app_assoc, !zlen_app, Hh.
  destruct (Z.eqb_spec (5 + (zlen body + zlen rest)) 0); [lia|]. destruct (Z.ltb_spec (5 + (zlen body + zlen rest)) 5); [lia|].
  rewrite ztake_app by done.
  assert (parse_tls_record_header hdr = Some (ty, zlen body)) as ->.
  { unfold parse_tls_record_header, hdr. change (slice ([ty] ++ TLS_VERSION ++ be_bytes 2 (zlen body)) 1 3) with TLS_VERSION.
    rewrite (bool_decide_true (TLS_VERSION = TLS_VERSION)) by done. rewrite andb_false_r. cbn [negb].
    rewrite (app_assoc [ty]). rewrite slice_app_r by (change (zlen ([ty] ++ TLS_VERSION)) with 3; lia).
    change (zlen ([ty] ++ TLS_VERSION)) with 3. rewrite slice_full by (rewrite ?zlen_be_bytes; lia).
    rewrite be_val_be_bytes_small by lia. done. }
  destruct (Z.ltb_spec (5 + (zlen body + zlen rest)) (5 + zlen body)); [lia|].
  rewrite slice_mid by lia. rewrite app_assoc, zdrop_app by (rewrite zlen_app; lia). unfold rest. rewrite IH; [done|cbn in Hf; lia].
Qed.

Section Answer.
Context `{DigestsOk} {G : Type} `{RngOk G}.

Lemma build_tickets_spec n (rng : G) :
  exists ts, concat (fst (build_tickets n rng)) = concat (map record_bytes (map (pair TLS_RECORD_APPLICATION) ts)) /\
    length ts = n /\ Forall (fun t => 48 <= zlen t <= 95) ts.
Proof.
  revert rng. induction n as [|n IH]; intros rng; cbn [build_tickets]; [by exists []|].
  pose proof (rng_range_bound rng 48 ltac:(lia)) as Hr. destruct (rng_range rng 48) as [r rng1]. cbn [fst] in Hr.
  pose proof (rng_bytes_len rng1 (r + 48) ltac:(lia)) as Hl. destruct (rng_bytes rng1 (r + 48)) as [data rng2]. cbn [fst] in Hl.
  destruct (IH rng2) as (ts & Hts & Hlen & Hall). destruct (build_tickets n rng2) as [tickets rng3]. cbn [fst] in *.
  exists (data :: ts). cbn [map concat]. rewrite Hts. split; [|split; [cbn; by rewrite Hlen|by constructor; [lia|]]].
  f_equal. unfold app_data_record, record_bytes. cbn [fst snd]. unfold u16. by rewrite Z.mod_small by lia.
Qed.

(** The extensions of the answer, in order. *)
Definition answer_extensions (key : bytes) (alpn : option bytes) : list (Z * bytes) :=
  [(KEY_SHARE, be_bytes 2 X25519 ++ be_bytes 2 32 ++ key); (SUPPORTED_VERSIONS, [0x03; 0x04])] ++
  match alpn with Some p => [(ALPN, alpn_data [p])] | None => [] end.

(** The fields of the answer that a profile of a real server may set. *)
Record HelloProfile := mkHelloProfile { hp_version : bytes; hp_cipher_suite : bytes; hp_compression : Z }.
Definition plain_profile : HelloProfile := mkHelloProfile TLS_VERSION TLS_AES_128_GCM_SHA256 0x00.
Definition profile_ok (p : HelloProfile) : Prop := zlen (hp_version p) = 2 /\ zlen (hp_cipher_suite p) = 2.

Definition answer_body (p : HelloProfile) (random session_id key : bytes) (alpn : option bytes) : bytes :=
  let extensions := enc_extensions (answer_extensions key alpn) in
  hp_version p ++ random ++ (zlen session_id :: session_id) ++ hp_cipher_suite p ++ [hp_compression p] ++
  be_bytes 2 (zlen extensions) ++ extensions.

Definition answer_message (p : HelloProfile) (random session_id key : bytes) (alpn : option bytes) : bytes :=
  let body := answer_body p random session_id key alpn in [0x02] ++ be_bytes 3 (zlen body) ++ body.

Lemma hello_extensions key alpn :
  zlen key = 32 -> (forall p, alpn = Some p -> zlen p < 256) ->
  match alpn with
  | Some p => add_alpn (add_supported_versions (add_key_share [] key) 0x0304) p
  | None => add_supported_versions (add_key_share [] key) 0x0304
  end = enc_extensions (answer_extensions key alpn) /\
  zlen (enc_extensions (answer_extensions key alpn)) < 400.
Proof.
  intros Hk Ha. unfold enc_extensions, answer_extensions, enc_extension, add_supported_versions, add_key_share.
  assert (zlen (be_bytes 2 X25519 ++ be_bytes 2 32 ++ key) = 36) as Lk by (rewrite !zlen_app, !zlen_be_bytes; lia).
  destruct alpn as [p|]; cbn [app map concat fst snd]; rewrite Lk.
  - specialize (Ha p eq_refl). pose proof (zlen_nonneg p). unfold add_alpn, u8, u16.
    assert (alpn_list [p] = zlen p :: p) as El by (unfold alpn_list; cbn; by rewrite app_nil_r).
    assert (zlen (alpn_data [p]) = 3 + zlen p) as Ld by (unfold alpn_data; rewrite El, zlen_app, zlen_be_bytes, zlen_cons; lia).
    rewrite Ld, !(Z.mod_small (zlen p)), !(Z.mod_small (1 + zlen p)), (Z.mod_small (2 + (1 + zlen p))) by lia. split.
    + rewrite app_nil_r. unfold alpn_data. change (zlen [3; 4]) with 2. rewrite El, zlen_cons. replace (2 + (1 + zlen p)) with (3 + zlen p) by lia.
      rewrite <-!app_assoc. done.
    + rewrite !zlen_app, !zlen_be_bytes, Ld, Hk. change (zlen (@nil Z)) with 0. change (zlen [3; 4]) with 2. lia.
  - split; [by rewrite <-!app_assoc|]. rewrite !zlen_app, !zlen_be_bytes, Hk. change (zlen (@nil Z)) with 0. change (zlen [3; 4]) with 2. lia.
Qed.

Lemma be_bytes_3 v : 0 <= v < 2 ^ 24 -> slice (be_bytes 4 v) 1 4 = be_bytes 3 v.
Proof.
  intros Hv. unfold be_bytes. cbn [le_bytes]. rewrite !reverse_cons.
  change (reverse (@nil Z)) with (@nil Z). cbn. rewrite !Z.div_div by lia. done.
Qed.

Lemma zlen_answer_body p random session_id key alpn :
  profile_ok p ->
  zlen (answer_body p random session_id key alpn) =
    2 + zlen random + 1 + zlen session_id + 2 + 1 + 2 + zlen (enc_extensions (answer_extensions key alpn)).
Proof.
  intros [Hv Hc]. unfold answer_body. cbv zeta. rewrite !zlen_app, zlen_cons, zlen_be_bytes, Hv, Hc.
  change (zlen [hp_compression p]) with 1. lia.
Qed.

Lemma build_message_eq session_id key alpn :
  zlen key = 32 -> zlen session_id < 256 -> (forall p, alpn = Some p -> zlen p < 256) ->
  build_message (with_alpn (with_tls13_version (with_x25519_key (ServerHelloBuilder_new session_id) key)) alpn) =
    answer_message plain_profile (zrepeat 32 0) session_id key alpn /\
  zlen (answer_message plain_profile (zrepeat 32 0) session_id key alpn) < 2000.
Proof.
  intros Hk Hs Ha. pose proof (zlen_nonneg session_id). unfold build_message, answer_message.
  cbn [with_alpn with_tls13_version with_x25519_key ServerHelloBuilder_new sh_random sh_session_id sh_cipher_suite
    sh_compression sh_extensions sh_alpn]. unfold TlsExtensionBuilder_new.
  destruct (hello_extensions key alpn Hk Ha) as [-> Hl]. pose proof (zlen_nonneg (enc_extensions (answer_extensions key alpn))).
  pose proof (zlen_answer_body plain_profile (zrepeat 32 0) session_id key alpn (conj eq_refl eq_refl)) as Lb. change (zlen (zrepeat 32 0)) with 32 in Lb.
  unfold u8, u16, u32. rewrite (Z.mod_small (zlen session_id)), (Z.mod_small (zlen (enc_extensions _))) by lia.
  rewrite (Z.mod_small (2 + 32 + 1 + _ + 2 + 1 + 2 + _)) by lia. rewrite be_bytes_3 by lia. split.
  - rewrite Lb. done.
  - rewrite !zlen_app, zlen_be_bytes, zlen_cons, zlen_nil. lia.
Qed.

(** The answer before its digest is put in: the records it is made of. *)
Lemma response_records session_id key alpn cert tickets :
  zlen key = 32 -> zlen session_id < 256 -> (forall p, alpn = Some p -> zlen p < 256) -> zlen cert < 65536 ->
  build_hello_record (with_alpn (with_tls13_version (with_x25519_key (ServerHelloBuilder_new session_id) key)) alpn) ++
    change_cipher_spec ++ app_data_record cert ++ concat (map record_bytes (map (pair TLS_RECORD_APPLICATION) tickets)) =
  concat (map record_bytes ([(TLS_RECORD_HANDSHAKE, answer_message plain_profile (zrepeat 32 0) session_id key alpn);
    (TLS_RECORD_CHANGE_CIPHER, [0x01]); (TLS_RECORD_APPLICATION, cert)] ++ map (pair TLS_RECORD_APPLICATION) tickets)).
Proof.
  intros Hk Hs Ha Hc. pose proof (zlen_nonneg cert).
  destruct (build_message_eq session_id key alpn Hk Hs Ha) as [Em Hm]. unfold build_hello_record. rewrite Em.
  set (msg := answer_message plain_profile (zrepeat 32 0) session_id key alpn) in *. pose proof (zlen_nonneg msg).
  unfold app_data_record, u16. rewrite !Z.mod_small by lia. cbn [app map concat].
  assert (change_cipher_spec = record_bytes (TLS_RECORD_CHANGE_CIPHER, [0x01])) as -> by done.
  unfold record_bytes at 2 4. cbn [fst snd]. by rewrite <-!app_assoc.
Qed.

(** Putting the digest in changes the random field of the first record and nothing else. *)
Lemma splice_digest p digest session_id key alpn rest :
  profile_ok p ->
  length digest = 32%nat ->
  splice (record_bytes (TLS_RECORD_HANDSHAKE, answer_message p (zrepeat 32 0) session_id key alpn) ++ rest) 11 digest =
  record_bytes (TLS_RECORD_HANDSHAKE, answer_message p digest session_id key alpn) ++ rest.
Proof.
  intros Hp Hd. assert (zlen digest = 32) as Hd' by (unfold zlen; by rewrite Hd).
  assert (zlen (answer_body p digest session_id key alpn) = zlen (answer_body p (zrepeat 32 0) session_id key alpn)) as Lb.
  { rewrite !zlen_answer_body by done. by rewrite Hd'. }
  unfold record_bytes, answer_message. cbn [fst snd]. rewrite !(zlen_app [2]), !(zlen_app (be_bytes 3 _)), !zlen_be_bytes, Lb.
  set (n := zlen (answer_body p (zrepeat 32 0) session_id key alpn)).
  set (m := be_bytes 2 (zlen [2] + (Z.of_nat 3 + n))). unfold answer_body. cbv zeta.
  set (tl := (zlen session_id :: session_id) ++ _).
  assert (forall r, ([TLS_RECORD_HANDSHAKE] ++ TLS_VERSION ++ m ++ [2] ++ be_bytes 3 n ++ hp_version p ++ r ++ tl) ++ rest =
     ([TLS_RECORD_HANDSHAKE] ++ TLS_VERSION ++ m ++ [2] ++ be_bytes 3 n ++ hp_version p) ++ r ++ (tl ++ rest)) as Hr.
  { intros r. by rewrite <-!app_assoc. }
  rewrite !Hr. apply splice_mid; [|by rewrite Hd'].
  destruct Hp as [Hv _]. rewrite !zlen_app, Hv. unfold m. rewrite !zlen_be_bytes. done.
Qed.

Lemma zlen_hmac k d : zlen (sha256_hmac k d) = 32.
Proof. unfold zlen. by rewrite hmac_len. Qed.

Lemma length_records rs : (length rs < S (length (concat (map record_bytes rs))))%nat.
Proof.
  induction rs as [|r rs IH]; [cbn; lia|]. cbn [map concat length]. rewrite length_app. unfold record_bytes at 1.
  rewrite !length_app. cbn [length]. lia.
Qed.

Lemma answer_random p d session_id key alpn rest :
  profile_ok p ->
  zlen d = 32 -> slice (record_bytes (TLS_RECORD_HANDSHAKE, answer_message p d session_id key alpn) ++ rest) 11 43 = d.
Proof.
  intros [Hv _] Hd. unfold record_bytes, answer_message, answer_body. cbn [fst snd]. cbv zeta.
  set (tl := (zlen session_id :: session_id) ++ _). set (k := be_bytes 2 _). set (n := be_bytes 3 _).
  rewrite <-!app_assoc. rewrite (app_assoc [TLS_RECORD_HANDSHAKE]), (app_assoc _ k), (app_assoc _ [2]), (app_assoc _ n), (app_assoc _ (hp_version p)).
  apply slice_mid; [|lia]. rewrite !zlen_app, Hv. unfold k, n. rewrite !zlen_be_bytes. done.
Qed.

Lemma zlen_answer_message p d session_id key alpn :
  profile_ok p ->
  zlen key = 32 -> zlen session_id < 256 -> (forall p, alpn = Some p -> zlen p < 256) -> zlen d = 32 ->
  43 <= 5 + zlen (answer_message p d session_id key alpn) /\ zlen (answer_message p d session_id key alpn) < 65536.
Proof.
  intros Hp Hk Hs Ha Hd. destruct (hello_extensions key alpn Hk Ha) as [_ Hl]. pose proof (zlen_nonneg session_id).
  pose proof (zlen_nonneg (enc_extensions (answer_extensions key alpn))).
  unfold answer_message. rewrite !zlen_app, zlen_be_bytes, zlen_answer_body by done. rewrite zlen_cons, zlen_nil, Hd. lia.
Qed.

Lemma small_tickets (ts : list bytes) :
  Forall (fun t => 48 <= zlen t <= 95) ts -> Forall (fun r : Z * bytes => zlen r.2 < 65536) (map (pair TLS_RECORD_APPLICATION) ts).
Proof. induction 1 as [|t ts Ht _ IH]; [constructor|]. apply Forall_cons_2; [cbn [snd]; lia|done]. Qed.

(** A signed answer: the records of the answer with the HMAC of the unsigned one in its random field. *)
Lemma signed_answer p secret client_digest session_id key alpn rest :
  profile_ok p -> zlen key = 32 -> zlen session_id < 256 -> (forall a, alpn = Some a -> zlen a < 256) ->
  Forall (fun r : Z * bytes => zlen r.2 < 65536) rest ->
  let answer d := (TLS_RECORD_HANDSHAKE, answer_message p d session_id key alpn) :: rest in
  let unsigned := concat (map record_bytes (answer (zrepeat 32 0))) in
  let d := sha256_hmac secret (client_digest ++ unsigned) in
  let response := splice unsigned 11 d in
  zeroed response = unsigned /\ split_records (S (length response)) response = Some (answer d) /\ slice response 11 43 = d.
Proof.
  intros Hp Hk Hs Ha Hr answer unsigned d response. assert (zlen d = 32) as Ld by apply zlen_hmac.
  assert (response = concat (map record_bytes (answer d))) as Er by (apply (splice_digest p); [done|apply hmac_len]).
  split_and!.
  - unfold zeroed, response. rewrite splice_splice; [|by rewrite Ld|lia|].
    + unfold unsigned, answer. cbn [map concat]. by apply splice_digest.
    + destruct (zlen_answer_message p (zrepeat 32 0) session_id key alpn) as [Hge _]; [done..|].
      unfold unsigned, answer. cbn [map concat]. unfold record_bytes at 1. cbn [fst snd].
      rewrite !zlen_app, zlen_be_bytes, Ld. pose proof (zlen_nonneg (concat (map record_bytes rest))).
      change (zlen [TLS_RECORD_HANDSHAKE]) with 1. change (zlen TLS_VERSION) with 2. lia.
  - rewrite Er. apply split_records_bytes; [|apply length_records]. apply Forall_cons_2; [|done]. by apply zlen_answer_message.
  - rewrite Er. by apply answer_random.
Qed.

(** The server's answer.  It is a handshake record, a ChangeCipherSpec record, an application
    data record of the configured size (within limits) and the tickets asked for; the handshake
    record holds a well-formed ServerHello that echoes the session identifier and offers a public
    key that is a square modulo the curve's prime; and its random field is the HMAC, under the
    user's secret, of the client's digest and of the answer with that field zeroed, which is what
    the client recomputes. *)
Definition plain_answer (secret client_digest session_id : bytes) (fake_cert_len : Z) (alpn : option bytes) (tickets : Z)
    (response : bytes) : Prop :=
  let digest := sha256_hmac secret (client_digest ++ zeroed response) in
  exists key n cert ts,
    split_records (S (length response)) response =
      Some ([(TLS_RECORD_HANDSHAKE, answer_message plain_profile digest session_id key alpn); (TLS_RECORD_CHANGE_CIPHER, [0x01]);
             (TLS_RECORD_APPLICATION, cert)] ++ map (pair TLS_RECORD_APPLICATION) ts) /\
    slice response 11 43 = digest /\
    zlen key = 32 /\ le_val key = (n * n) mod curve25519_prime /\
    zlen cert = Z.min (Z.max fake_cert_len MIN_APP_DATA) MAX_APP_DATA /\
    zlen ts = tickets /\ Forall (fun t => 48 <= zlen t <= 95) ts.

Theorem server_hello_verifies secret client_digest session_id fake_cert_len (rng : G) alpn tickets :
  zlen session_id < 256 -> (forall p, alpn = Some p -> zlen p < 256) -> 0 <= tickets ->
  plain_answer secret client_digest session_id fake_cert_len alpn tickets
    (fst (build_server_hello secret client_digest session_id fake_cert_len rng alpn tickets)).
Proof.
  intros Hs Ha Ht. unfold plain_answer, build_server_hello, gen_fake_x25519_key.
  destruct (rng_bytes rng 32) as [nb rng1]. set (n := le_val nb). set (key := le_bytes 32 ((n * n) mod curve25519_prime)).
  set (clen := Z.min (Z.max fake_cert_len MIN_APP_DATA) MAX_APP_DATA).
  assert (64 <= clen <= 16640) as Hcl by (unfold clen, MIN_APP_DATA, MAX_APP_DATA; lia).
  pose proof (rng_bytes_len rng1 clen ltac:(lia)) as Lc. destruct (rng_bytes rng1 clen) as [cert rng2]. cbn [fst] in Lc.
  destruct (build_tickets_spec (Z.to_nat tickets) rng2) as (ts & Ets & Lts & Hts).
  destruct (build_tickets (Z.to_nat tickets) rng2) as [tk rng3]. cbn [fst] in *. rewrite Ets.
  assert (zlen key = 32) as Lk by (unfold key; apply zlen_le_bytes).
  rewrite response_records by (done || lia).
  set (rest := [(TLS_RECORD_CHANGE_CIPHER, [0x01]); (TLS_RECORD_APPLICATION, cert)] ++ map (pair TLS_RECORD_APPLICATION) ts).
  change ([(TLS_RECORD_HANDSHAKE, answer_message plain_profile (zrepeat 32 0) session_id key alpn); (TLS_RECORD_CHANGE_CIPHER, [0x01]);
    (TLS_RECORD_APPLICATION, cert)] ++ map (pair TLS_RECORD_APPLICATION) ts)
    with ((TLS_RECORD_HANDSHAKE, answer_message plain_profile (zrepeat 32 0) session_id key alpn) :: rest).
  change TLS_DIGEST_POS with 11.
  destruct (signed_answer plain_profile secret client_digest session_id key alpn rest) as (Ez & Er & Es); [done..| |].
  { unfold rest. repeat (apply Forall_cons_2; cbn [snd]; [done || lia|]). by apply small_tickets. }
  rewrite Ez. exists key, n, cert, ts. split_and!; try done.
  - unfold key. apply le_val_le_bytes_small. pose proof (Z.mod_pos_bound (n * n) curve25519_prime ltac:(done)).
    assert (curve25519_prime < 256 ^ Z.of_nat 32) by done. lia.
  - unfold zlen. lia.
Qed.

End Answer.

(** ** Runs of the handshake *)

Import Crypto.Demo Random.DemoRng.

Definition demo_hello : ClientHello :=
  mkClientHello [3; 3] (repeat 9 32) (repeat 5 4) [0x13; 0x01; 0x13; 0x02] [0]
    [(43, [2; 3; 4]); (0, sni_data [97; 46; 98]); (ALPN, alpn_data [[104; 50]; [104; 51; 51]]); (5, [1])].

Definition demo_signed : bytes := sign_hello [1; 2] (enc_client_hello demo_hello) 1700000000.

