(* ===== verification/TlsFront.v ===== *)
(** * The certificate emulation: [tls_front/types.rs], [tls_front/emulator.rs], [tls_front/cache.rs]

    What a real server answered for a domain is kept in a cache; the emulator builds an answer that looks like it: the
    same version and cipher suite, application data records of nearly the same sizes, and in their bodies either the
    captured certificate message or a short description of the certificate.  The full message goes to an address only
    once per period.  Fetching (a TLS client) and the files of the disk cache are outside; what a file holds is an argument. *)

From Equations.Prop Require Import Equations.
From stdpp Require Import sorting.
From S2P Require Import Prelude NetAddr Crypto Random Constants TlsHello.

(** ** Data (types.rs) *)

Record TlsExtension := mkTlsExtension { ext_type : Z; ext_data : bytes }.

Record ParsedServerHello := mkParsedServerHello {
  psh_version : bytes;
  psh_random : bytes;
  psh_session_id : bytes;
  psh_cipher_suite : bytes;
  psh_compression : Z;
  psh_extensions : list TlsExtension
}.

Record ParsedCertificateInfo := mkParsedCertificateInfo {
  not_after_unix : option Z;
  not_before_unix : option Z;
  issuer_cn : option bytes;
  subject_cn : option bytes;
  san_names : list bytes
}.

Record TlsCertPayload := mkTlsCertPayload { cert_chain_der : list bytes; certificate_message : bytes }.

(** [fetched_at] is in seconds of the system clock. *)
Record CachedTlsData := mkCachedTlsData {
  server_hello_template : ParsedServerHello;
  cert_info : option ParsedCertificateInfo;
  cert_payload : option TlsCertPayload;
  app_data_records_sizes : list Z;
  total_app_data_len : Z;
  fetched_at : Z;
  domain : bytes
}.

Record TlsFetchResult := mkTlsFetchResult {
  fr_server_hello_parsed : ParsedServerHello;
  fr_app_data_records_sizes : list Z;
  fr_total_app_data_len : Z;
  fr_cert_info : option ParsedCertificateInfo;
  fr_cert_payload : option TlsCertPayload
}.

(** ** Record sizes (emulator.rs:8-60) *)

Definition clamp (x lo hi : Z) : Z := Z.min (Z.max x lo) hi.

(** [((base as f64) * 0.03).round()]: 0.03 is the double [8646911284551352 / 2 ^ 58]; the product is rounded to 53 bits,
    ties to even, and then to an integer, ties away from zero. *)
Definition F64_003 : Z := 8646911284551352.
Definition f64_round_bits (n : Z) : Z :=
  let s := Z.log2 n - 52 in
  if s <=? 0 then n
  else
    let q := n / 2 ^ s in
    let r := n mod 2 ^ s in
    let half := 2 ^ (s - 1) in
    (if (half <? r) || ((half =? r) && Z.odd q) then q + 1 else q) * 2 ^ s.
Definition jitter_range_of (base : Z) : Z := (2 * f64_round_bits (base * F64_003) + 2 ^ 58) / 2 ^ 59.

Section Sizes.
Context {G : Type} `{Rng G}.

Definition jitter_size (size : Z) (rng : G) : Z * G :=
  let base := clamp size MIN_APP_DATA MAX_APP_DATA in
  let jitter_range := jitter_range_of base in
  if jitter_range =? 0 then (base, rng)
  else
    let '(rand_bytes, rng) := rng_bytes rng 2 in
    let span := 2 * jitter_range + 1 in
    let delta := le_val rand_bytes mod span - jitter_range in
    (clamp (base + delta) MIN_APP_DATA MAX_APP_DATA, rng).

Fixpoint jitter_and_clamp_sizes (sizes : list Z) (rng : G) : list Z * G :=
  match sizes with
  | [] => ([], rng)
  | size :: sizes =>
      let '(adjusted, rng) := jitter_size size rng in
      let '(rest, rng) := jitter_and_clamp_sizes sizes rng in
      (adjusted :: rest, rng)
  end.

End Sizes.

Definition app_data_body_capacity (sizes : list Z) : Z := foldr Z.add 0 (map (fun size => sat_sub size 17) sizes).

(** The [while] loop: records are added until the bodies hold the payload. *)
Equations? add_records (payload_len body_total : Z) (sizes : list Z) : list Z
  by wf (Z.to_nat (payload_len - body_total)) lt :=
add_records payload_len body_total sizes with decide (body_total < payload_len) := {
  | left _ =>
      let remaining := payload_len - body_total in
      let chunk := clamp (remaining + 17) MIN_APP_DATA MAX_APP_DATA in
      add_records payload_len (body_total + sat_sub chunk 17) (sizes ++ [chunk])
  | right _ => sizes }.
Proof. subst chunk remaining. unfold clamp, sat_sub, MIN_APP_DATA, MAX_APP_DATA. lia. Qed.

Definition ensure_payload_capacity (sizes : list Z) (payload_len : Z) : list Z :=
  if payload_len =? 0 then sizes
  else
    let body_total := app_data_body_capacity sizes in
    if payload_len <=? body_total then sizes
    else
      match last sizes with
      | Some last_size =>
          let free := sat_sub MAX_APP_DATA last_size in
          let grow := Z.min free (payload_len - body_total) in
          add_records payload_len (body_total + grow) (removelast sizes ++ [last_size + grow])
      | None => add_records payload_len body_total sizes
      end.

(** ** The description of a certificate (emulator.rs:62-101) *)

Fixpoint join_with (sep : bytes) (items : list bytes) : bytes :=
  match items with
  | [] => []
  | [i] => i
  | i :: items => i ++ sep ++ join_with sep items
  end.

Definition build_compact_cert_info_payload (cert_info : ParsedCertificateInfo) : option bytes :=
  let field {A} (name : string) (show : A -> bytes) (value : option A) :=
    match value with Some v => [str name ++ show v] | None => [] end in
  let fields :=
    field "CN="%string id (subject_cn cert_info) ++
    field "ISSUER="%string id (issuer_cn cert_info) ++
    field "NB="%string fmt_int (not_before_unix cert_info) ++
    field "NA="%string fmt_int (not_after_unix cert_info) ++
    (if decide (san_names cert_info = []) then []
     else [str "SAN=" ++ join_with (str ",") (take 8 (san_names cert_info))]) in
  if decide (fields = []) then None
  else
    let payload := join_with (str ";") fields in
    Some (if 512 <? zlen payload then ztake 512 payload else payload).

(** ** The answer (emulator.rs:103-294) *)

Section Emulator.
Context {G : Type} `{Rng G}.

(** The extensions of the ServerHello. *)
Definition emulated_extensions (key : bytes) (alpn : option bytes) : bytes :=
  be_bytes 2 0x0033 ++ be_bytes 2 (2 + 2 + 32) ++ be_bytes 2 0x001d ++ be_bytes 2 32 ++ key ++
  be_bytes 2 0x002b ++ be_bytes 2 2 ++ be_bytes 2 0x0304 ++
  match alpn with
  | Some alpn_proto =>
      let list_len := u16 (1 + u16 (zlen alpn_proto)) in
      let ext_len := u16 (2 + list_len) in
      be_bytes 2 0x0010 ++ be_bytes 2 ext_len ++ be_bytes 2 list_len ++ [u8 (zlen alpn_proto)] ++ alpn_proto
  | None => []
  end.

Definition emulated_cipher (cached : CachedTlsData) : bytes :=
  if decide (psh_cipher_suite (server_hello_template cached) = [0; 0]) then [0x13; 0x01]
  else psh_cipher_suite (server_hello_template cached).

Definition emulated_server_hello (session_id key : bytes) (cached : CachedTlsData) (alpn : option bytes) : bytes :=
  let extensions := emulated_extensions key alpn in
  let extensions_len := u16 (zlen extensions) in
  let body_len := 2 + 32 + 1 + zlen session_id + 2 + 1 + 2 + zlen extensions in
  let len_bytes := be_bytes 4 (u32 body_len) in
  let message :=
    [0x02] ++ slice len_bytes 1 4 ++ psh_version (server_hello_template cached) ++ zrepeat 32 0 ++
    [u8 (zlen session_id)] ++ session_id ++ emulated_cipher cached ++
    [psh_compression (server_hello_template cached)] ++ be_bytes 2 extensions_len ++ extensions in
  [TLS_RECORD_HANDSHAKE] ++ TLS_VERSION ++ be_bytes 2 (u16 (zlen message)) ++ message.

(** The payload the records carry. *)
Definition select_payload (cached : CachedTlsData) (use_full_cert_payload : bool) : option bytes :=
  let compact_payload := cert_info cached ≫= build_compact_cert_info_payload in
  if use_full_cert_payload then
    let full := certificate_message <$> cert_payload cached in
    match full with
    | Some payload => if decide (payload = []) then compact_payload else Some payload
    | None => compact_payload
    end
  else compact_payload.

(** The body of a record of [size] bytes: what is left of the payload, random filling, a marker and a random tag. *)
Definition emulated_record_data (size : Z) (payload : option bytes) (payload_offset : Z) (rng : G) : bytes * Z * G :=
  if 17 <? size then
    let body_len := size - 17 in
    match payload with
    | Some payload =>
        let remaining := sat_sub (zlen payload) payload_offset in
        let copy_len := Z.min remaining body_len in
        let copied := if 0 <? copy_len then slice payload payload_offset (payload_offset + copy_len) else [] in
        let payload_offset := payload_offset + copy_len in
        let '(filling, rng) := if copy_len <? body_len then rng_bytes rng (body_len - copy_len) else ([], rng) in
        let '(tag, rng) := rng_bytes rng 16 in
        (copied ++ filling ++ [0x16] ++ tag, payload_offset, rng)
    | None =>
        let '(body, rng) := rng_bytes rng body_len in
        let '(tag, rng) := rng_bytes rng 16 in
        (body ++ [0x16] ++ tag, payload_offset, rng)
    end
  else
    let '(data, rng) := rng_bytes rng size in (data, payload_offset, rng).

Fixpoint emulated_app_data (sizes : list Z) (payload : option bytes) (payload_offset : Z) (rng : G) : bytes * G :=
  match sizes with
  | [] => ([], rng)
  | size :: sizes =>
      let '(data, payload_offset, rng) := emulated_record_data size payload payload_offset rng in
      let rec := [TLS_RECORD_APPLICATION] ++ TLS_VERSION ++ be_bytes 2 (u16 size) ++ data in
      let '(app_data, rng) := emulated_app_data sizes payload payload_offset rng in
      (rec ++ app_data, rng)
  end.

Definition record_sizes (cached : CachedTlsData) (payload : option bytes) (rng : G) : list Z * G :=
  let sizes :=
    if decide (app_data_records_sizes cached = []) then [Z.max (total_app_data_len cached) 1024]
    else app_data_records_sizes cached in
  let '(sizes, rng) := jitter_and_clamp_sizes sizes rng in
  (match payload with Some payload => ensure_payload_capacity sizes (zlen payload) | None => sizes end, rng).

Definition build_emulated_server_hello `{Digests} (secret client_digest session_id : bytes) (cached : CachedTlsData)
    (use_full_cert_payload : bool) (rng : G) (alpn : option bytes) (new_session_tickets : Z) : bytes * G :=
  let '(key, rng) := gen_fake_x25519_key rng in
  let server_hello := emulated_server_hello session_id key cached alpn in
  let selected_payload := select_payload cached use_full_cert_payload in
  let '(sizes, rng) := record_sizes cached selected_payload rng in
  let '(app_data, rng) := emulated_app_data sizes selected_payload 0 rng in
  let '(tickets, rng) := build_tickets (Z.to_nat new_session_tickets) rng in
  let response := server_hello ++ change_cipher_spec ++ app_data ++ concat tickets in
  let digest := sha256_hmac secret (client_digest ++ response) in
  (splice response TLS_DIGEST_POS digest, rng).

End Emulator.

(** ** Sizes *)

Definition size_ok (size : Z) : Prop := MIN_APP_DATA <= size <= MAX_APP_DATA.

Lemma clamp_ok x : size_ok (clamp x MIN_APP_DATA MAX_APP_DATA).
Proof. unfold size_ok, clamp, MIN_APP_DATA, MAX_APP_DATA. lia. Qed.

(** *** The jitter in floating point *)

Lemma f64_round_split n s :
  s = Z.log2 n - 52 -> 0 < s ->
  exists q r, n = q * 2 ^ s + r /\ 0 <= r < 2 ^ s /\ 2 ^ s = 2 * 2 ^ (s - 1) /\
    f64_round_bits n = (if (2 ^ (s - 1) <? r) || ((2 ^ (s - 1) =? r) && Z.odd q) then q + 1 else q) * 2 ^ s.
Proof.
  intros Hs Hpos. exists (n / 2 ^ s), (n mod 2 ^ s). pose proof (Z.pow_pos_nonneg 2 s ltac:(lia) ltac:(lia)) as Hp. split_and!.
  - pose proof (Z.div_mod n (2 ^ s)). lia.
  - apply Z.mod_pos_bound; lia.
  - apply Z.mod_pos_bound; lia.
  - rewrite <-Z.pow_succ_r by lia. f_equal. lia.
  - unfold f64_round_bits. rewrite <-Hs. destruct (Z.leb_spec s 0); [lia|done].
Qed.

(** The nearest double is at most half a unit away. *)
Lemma f64_round_near n : 0 < n < 2 ^ 67 -> Z.abs (f64_round_bits n - n) <= 2 ^ 13.
Proof.
  intros Hn. destruct (Z.leb_spec (Z.log2 n - 52) 0) as [Hs|Hs].
  { unfold f64_round_bits. destruct (Z.leb_spec (Z.log2 n - 52) 0); lia. }
  destruct (f64_round_split n _ eq_refl Hs) as (q & r & E & Hr & Hh & ->).
  assert (2 ^ (Z.log2 n - 52 - 1) <= 2 ^ 13) as Hhalf.
  { apply Z.pow_le_mono_r; [lia|]. assert (Z.log2 n < 67) by (apply Z.log2_lt_pow2; lia). lia. }
  set (half := 2 ^ (Z.log2 n - 52 - 1)) in *. set (unit := 2 ^ (Z.log2 n - 52)) in *.
  destruct (Z.ltb_spec half r); cbn [orb]; [lia|]. destruct (Z.eqb_spec half r); cbn [andb]; [destruct (Z.odd q)|]; lia.
Qed.

(** A number less than half a unit below a multiple of the unit is rounded to it. *)
Lemma f64_round_up m d :
  0 < d -> 0 < m * 2 ^ 57 - d < 2 ^ 67 -> 2 ^ 54 * d <= m * 2 ^ 57 - d -> f64_round_bits (m * 2 ^ 57 - d) = m * 2 ^ 57.
Proof.
  intros Hd Hn Hle. set (n := m * 2 ^ 57 - d) in *.
  pose proof (Z.log2_spec n ltac:(lia)) as [Hlo Hhi]. assert (Z.log2 n < 67) as Hlt by (apply Z.log2_lt_pow2; lia).
  assert (54 <= Z.log2 n) as Hge by (apply Z.log2_le_pow2; lia).
  destruct (f64_round_split n _ eq_refl ltac:(lia)) as (q & r & E & Hr & Hh & ->). set (s := Z.log2 n - 52) in *.
  assert (d < 2 ^ (s - 1)) as Hdh.
  { assert (2 ^ Z.succ (Z.log2 n) = 2 ^ 54 * 2 ^ (s - 1)) by (rewrite <-Z.pow_add_r by lia; f_equal; lia). nia. }
  assert (2 ^ 57 = 2 ^ (57 - s) * 2 ^ s) as E57 by (rewrite <-Z.pow_add_r by lia; f_equal; lia).
  assert (q + 1 = m * 2 ^ (57 - s)) as Hq by nia.
  assert (r = 2 ^ s - d) as -> by nia. destruct (Z.ltb_spec (2 ^ (s - 1)) (2 ^ s - d)); [|lia]. cbn [orb]. rewrite Hq. nia.
Qed.

(** In floating point as in the integers: three per cent, halves rounded up. *)
Lemma jitter_range_exact base : size_ok base -> jitter_range_of base = (3 * base + 50) / 100.
Proof.
  intros Hb. unfold size_ok, MIN_APP_DATA, MAX_APP_DATA in Hb. unfold jitter_range_of, F64_003. set (n := base * 8646911284551352).
  pose proof (f64_round_near n ltac:(unfold n; lia)) as Hnear.
  pose proof (Z.div_mod (3 * base + 50) 100 ltac:(lia)) as Hdiv. pose proof (Z.mod_pos_bound (3 * base + 50) 100 ltac:(lia)) as Hmod.
  set (k := (3 * base + 50) / 100) in *. set (r := (3 * base + 50) mod 100) in *. symmetry.
  destruct (decide (r = 0)) as [Hr|Hr].
  - assert (f64_round_bits n = (2 * k - 1) * 2 ^ 57) as ->; [|apply (Z.div_unique_pos _ _ _ 0); lia].
    assert (exists j, base = 100 * j + 50) as [j Hj]. { clearbody k r. clear Hnear n. exists ((k - 2) / 3). pose proof (Z.div_mod (k - 2) 3). pose proof (Z.mod_pos_bound (k - 2) 3). lia. }
    replace n with ((2 * k - 1) * 2 ^ 57 - (32 * j + 16)) by (unfold n; lia).
    apply f64_round_up; lia.
  - apply (Z.div_unique_pos _ _ _ (2 * f64_round_bits n + 2 ^ 58 - 2 ^ 59 * k)); [|lia]. unfold n in *. lia.
Qed.

(** A jittered size: within three per cent of the clamped one. *)
Definition jittered (size size' : Z) : Prop :=
  let base := clamp size MIN_APP_DATA MAX_APP_DATA in Z.abs (size' - base) <= (3 * base + 50) / 100 /\ size_ok size'.

Lemma jitter_size_spec {G} `{RngOk G} size (rng : G) : jittered size (fst (jitter_size size rng)).
Proof.
  unfold jitter_size, jittered. pose proof (clamp_ok size) as Hb. set (base := clamp size _ _) in *.
  rewrite (jitter_range_exact base Hb). set (j := (3 * base + 50) / 100).
  assert (1 <= j) as Hj.
  { apply Z.div_le_lower_bound; [done|]. unfold size_ok, MIN_APP_DATA in Hb. lia. }
  destruct (Z.eqb_spec j 0); [lia|]. destruct (rng_bytes rng 2) as [r rng']. cbn [fst].
  pose proof (Z.mod_pos_bound (le_val r) (2 * j + 1) ltac:(lia)) as Hd. set (d := le_val r mod (2 * j + 1) - j).
  split; [|apply clamp_ok]. revert Hb. unfold size_ok, clamp, MIN_APP_DATA, MAX_APP_DATA. lia.
Qed.

Lemma jitter_sizes_spec {G} `{RngOk G} sizes : forall rng : G, Forall2 jittered sizes (fst (jitter_and_clamp_sizes sizes rng)).
Proof.
  induction sizes as [|size sizes IH]; intros rng; cbn [jitter_and_clamp_sizes]; [constructor|].
  pose proof (jitter_size_spec size rng) as Hs. destruct (jitter_size size rng) as [s rng1]. cbn [fst] in Hs.
  specialize (IH rng1). destruct (jitter_and_clamp_sizes sizes rng1) as [ss rng2]. by constructor.
Qed.

Lemma capacity_app a b : app_data_body_capacity (a ++ b) = app_data_body_capacity a + app_data_body_capacity b.
Proof. unfold app_data_body_capacity. induction a as [|x a IH]; [done|]. cbn [app map foldr] in *. rewrite IH. lia. Qed.

Lemma capacity_snoc sizes size :
  size_ok size -> app_data_body_capacity (sizes ++ [size]) = app_data_body_capacity sizes + (size - 17).
Proof.
  intros Hs. rewrite capacity_app. unfold app_data_body_capacity at 2. cbn [map foldr].
  unfold sat_sub, size_ok, MIN_APP_DATA in *. lia.
Qed.

Lemma add_records_spec payload_len body_total sizes :
  body_total = app_data_body_capacity sizes -> Forall size_ok sizes ->
  payload_len <= app_data_body_capacity (add_records payload_len body_total sizes) /\
  Forall size_ok (add_records payload_len body_total sizes) /\ sizes `prefix_of` add_records payload_len body_total sizes.
Proof.
  funelim (add_records payload_len body_total sizes); intros Hb Hs; [|split_and!; [lia|done|done]].
  rename H into IH. destruct IH as (Hc & Hf & Hp).
  - rewrite capacity_app. unfold app_data_body_capacity at 2. cbn. lia.
  - apply Forall_app_2; [done|]. apply Forall_cons_2; [apply clamp_ok|by apply Forall_nil_2].
  - split_and!; [done|done|]. etransitivity; [|exact Hp]. by apply prefix_app_r.
Qed.

(** The records only grow. *)
Definition grown (sizes sizes' : list Z) : Prop := exists l, l `prefix_of` sizes' /\ Forall2 Z.le sizes l.

Lemma grown_refl sizes : grown sizes sizes.
Proof. exists sizes. split; [done|]. reflexivity. Qed.

Lemma ensure_capacity_spec sizes payload_len :
  0 <= payload_len -> Forall size_ok sizes ->
  let sizes' := ensure_payload_capacity sizes payload_len in
  payload_len <= app_data_body_capacity sizes' /\ Forall size_ok sizes' /\ grown sizes sizes'.
Proof.
  intros Hl Hs. cbv zeta. unfold ensure_payload_capacity.
  assert (0 <= app_data_body_capacity sizes) as Hc.
  { unfold app_data_body_capacity. clear Hs. induction sizes as [|x l IH]; cbn [map foldr]; [done|].
    assert (0 <= sat_sub x 17) by (unfold sat_sub; lia). lia. }
  destruct (Z.eqb_spec payload_len 0); [split_and!; [lia|done|apply grown_refl]|].
  destruct (Z.leb_spec payload_len (app_data_body_capacity sizes)); [split_and!; [done|done|apply grown_refl]|].
  destruct sizes as [|x l _] using rev_ind.
  - cbn [last]. destruct (add_records_spec payload_len (app_data_body_capacity []) []) as (Hp & Hf & _); [done|done|].
    split_and!; [done|done|]. exists []. split; [apply prefix_nil|constructor].
  - rewrite last_snoc, removelast_last. apply Forall_app in Hs as [Hs Hx]. apply Forall_cons in Hx as [Hx _].
    set (x' := x + Z.min (sat_sub MAX_APP_DATA x) (payload_len - app_data_body_capacity (l ++ [x]))).
    assert (x <= x' /\ size_ok x') as [Hle Hx'] by (revert Hx; unfold x', size_ok, sat_sub, MIN_APP_DATA, MAX_APP_DATA; lia).
    edestruct (add_records_spec payload_len) as (Hp & Hf & Hg); [| |split_and!; [exact Hp|exact Hf|]].
    + rewrite (capacity_snoc l x' Hx'). pose proof (capacity_snoc l x Hx). unfold x'. lia.
    + apply Forall_app_2; [done|]. apply Forall_cons_2; [done|by apply Forall_nil_2].
    + exists (l ++ [x']). split; [done|]. apply Forall2_app; [reflexivity|by constructor].
Qed.

(** ** Records *)

Section Records.
Context {G : Type} `{RngOk G}.

(** The body of a record: what is before the marker and the tag. *)
Definition record_body (data : bytes) : bytes := ztake (zlen data - 17) data.
Definition marked (data : bytes) : Prop := zget data (zlen data - 17) = Some 0x16.

(** One list is the beginning of the other. *)
Definition agree (a b : bytes) : Prop := a `prefix_of` b \/ b `prefix_of` a.

Lemma agree_app c a b : agree a b -> agree (c ++ a) (c ++ b).
Proof. intros [Ha|Ha]; [left|right]; by apply prefix_app. Qed.

Lemma body_of body tag : zlen tag = 16 -> record_body (body ++ [0x16] ++ tag) = body /\ marked (body ++ [0x16] ++ tag).
Proof.
  intros Ht. unfold record_body, marked. rewrite !zlen_app. change (zlen [22]) with 1.
  replace (zlen body + (1 + zlen tag) - 17) with (zlen body) by lia. split; [by apply ztake_app|].
  by apply zget_mid.
Qed.

(** What a record carries: with a payload, its body and the records after it agree with the rest of the payload. *)
Lemma emulated_record_spec size payload o (rng : G) :
  size_ok size -> (forall p, payload = Some p -> 0 <= o <= zlen p) ->
  let '(data, o', _) := emulated_record_data size payload o rng in
  zlen data = size /\ marked data /\
  forall p, payload = Some p -> o <= o' <= zlen p /\
    forall bodies, agree (zdrop o' p) bodies -> agree (zdrop o p) (record_body data ++ bodies).
Proof.
  unfold size_ok, MIN_APP_DATA, MAX_APP_DATA. intros Hs Ho. unfold emulated_record_data.
  destruct (Z.ltb_spec 17 size); [|lia]. destruct payload as [p|].
  - specialize (Ho p eq_refl). unfold sat_sub. set (copy := Z.min (Z.max 0 (zlen p - o)) (size - 17)).
    set (copied := if 0 <? copy then _ else []). assert (copied = slice p o (o + copy) /\ zlen copied = copy) as [Ec Lc].
    { unfold copied. destruct (Z.ltb_spec 0 copy); [split; [done|rewrite zlen_slice; lia]|].
      assert (copy = 0) as -> by lia. rewrite Z.add_0_r. unfold slice. by rewrite Z.sub_diag. }
    destruct (if copy <? size - 17 then _ else _) as [filling rng1] eqn:Ef.
    assert (zlen filling = size - 17 - copy /\ (copy = size - 17 -> filling = [])) as [Lf Hf].
    { destruct (Z.ltb_spec copy (size - 17)); [|injection Ef as <- _; split; [rewrite zlen_nil; lia|done]].
      apply (f_equal fst) in Ef. cbn [fst] in Ef. rewrite <-Ef. split; [apply rng_bytes_len; lia|lia]. }
    pose proof (rng_bytes_len rng1 16 ltac:(lia)) as Lt. destruct (rng_bytes rng1 16) as [tag rng2]. cbn [fst] in Lt.
    rewrite (app_assoc copied). destruct (body_of (copied ++ filling) tag Lt) as [Hb Hm]. rewrite Hb.
    split_and!; [rewrite !zlen_app; change (zlen [22]) with 1; lia|done|]. intros ? [= <-]. split; [lia|]. intros bodies Hag.
    assert (zdrop o p = copied ++ zdrop (o + copy) p) as ->.
    { rewrite Ec. unfold slice. rewrite <-(ztake_zdrop copy (zdrop o p)) at 1. rewrite zdrop_zdrop by lia. f_equal; f_equal; lia. }
    rewrite <-app_assoc. apply agree_app. destruct (Z.leb_spec (zlen p - o) (size - 17)) as [Hfit|Hfit].
    + rewrite (zdrop_all (o + copy)) by lia. left. apply prefix_nil.
    + rewrite Hf by lia. done.
  - pose proof (rng_bytes_len rng (size - 17) ltac:(lia)) as Lb. destruct (rng_bytes rng (size - 17)) as [body rng1].
    pose proof (rng_bytes_len rng1 16 ltac:(lia)) as Lt. destruct (rng_bytes rng1 16) as [tag rng2]. cbn [fst] in *.
    destruct (body_of body tag Lt) as [_ Hm]. split_and!; [rewrite !zlen_app; change (zlen [22]) with 1; lia|done|done].
Qed.

Lemma emulated_app_data_spec sizes payload : forall o (rng : G),
  Forall size_ok sizes -> (forall p, payload = Some p -> 0 <= o <= zlen p) ->
  exists parts, fst (emulated_app_data sizes payload o rng) = concat (map record_bytes (map (pair TLS_RECORD_APPLICATION) parts)) /\
    map zlen parts = sizes /\ Forall marked parts /\
    forall p, payload = Some p -> agree (zdrop o p) (concat (map record_body parts)).
Proof.
  induction sizes as [|size sizes IH]; intros o rng Hs Ho; cbn [emulated_app_data].
  { exists []. split_and!; [done..|by apply Forall_nil_2|]. intros p _. right. apply prefix_nil. }
  apply Forall_cons in Hs as [Hsize Hs]. pose proof (emulated_record_spec size payload o rng Hsize Ho) as Hr.
  destruct (emulated_record_data size payload o rng) as [[data o'] rng1]. destruct Hr as (Hl & Hm & Hag).
  destruct (IH o' rng1) as (parts & Ep & Hsizes & Hmarks & Hrest); [done| |].
  { intros p Hp. specialize (Ho p Hp). destruct (Hag p Hp). lia. }
  destruct (emulated_app_data sizes payload o' rng1) as [app_data rng2]. cbn [fst] in *. exists (data :: parts).
  cbn [map concat]. split_and!.
  - rewrite Ep. unfold record_bytes at 2. cbn [fst snd]. unfold u16, size_ok, MIN_APP_DATA, MAX_APP_DATA in *.
    rewrite Z.mod_small by lia. by rewrite Hl, <-!app_assoc.
  - by rewrite Hl, Hsizes.
  - by apply Forall_cons_2.
  - intros p Hp. apply (Hag p Hp). by apply Hrest.
Qed.

Lemma zlen_bodies parts :
  Forall size_ok (map zlen parts) -> zlen (concat (map record_body parts)) = app_data_body_capacity (map zlen parts).
Proof.
  induction parts as [|d parts IH]; [done|]. cbn [map concat]. intros Hf. apply Forall_cons in Hf as [Hd Hf].
  rewrite zlen_app, IH by done. unfold app_data_body_capacity. cbn [map foldr]. f_equal. unfold record_body, sat_sub.
  unfold size_ok, MIN_APP_DATA in Hd. rewrite zlen_ztake. lia.
Qed.

Lemma agree_prefix a b : agree a b -> zlen a <= zlen b -> a `prefix_of` b.
Proof.
  intros [Hp|[k ->]] Hl; [done|]. rewrite zlen_app in Hl. pose proof (zlen_nonneg k).
  destruct k; [by rewrite app_nil_r|rewrite zlen_cons in *; pose proof (zlen_nonneg k); lia].
Qed.

(** ** The answer *)

Definition emulated_profile (cached : CachedTlsData) : HelloProfile :=
  mkHelloProfile (psh_version (server_hello_template cached)) (emulated_cipher cached)
    (psh_compression (server_hello_template cached)).

(** The template has the lengths its array types say. *)
Definition template_ok (cached : CachedTlsData) : Prop :=
  zlen (psh_version (server_hello_template cached)) = 2 /\ zlen (psh_cipher_suite (server_hello_template cached)) = 2.

Lemma emulated_profile_ok cached : template_ok cached -> profile_ok (emulated_profile cached).
Proof. intros [Hv Hc]. split; [done|]. cbn [emulated_profile hp_cipher_suite]. unfold emulated_cipher. by case_decide. Qed.

Lemma emulated_extensions_eq key alpn :
  zlen key = 32 -> (forall p, alpn = Some p -> zlen p < 256) ->
  emulated_extensions key alpn = enc_extensions (answer_extensions key alpn).
Proof.
  intros Hk Ha. destruct (hello_extensions key alpn Hk Ha) as [<- _]. unfold emulated_extensions.
  destruct alpn as [p|]; [|by rewrite app_nil_r].
  specialize (Ha p eq_refl). pose proof (zlen_nonneg p). unfold add_alpn, u8, u16.
  rewrite !(Z.mod_small (zlen p)) by lia. unfold add_supported_versions, add_key_share. by rewrite <-!app_assoc.
Qed.

Lemma emulated_hello_record session_id key cached alpn :
  template_ok cached -> zlen key = 32 -> zlen session_id < 256 -> (forall p, alpn = Some p -> zlen p < 256) ->
  emulated_server_hello session_id key cached alpn =
    record_bytes (TLS_RECORD_HANDSHAKE, answer_message (emulated_profile cached) (zrepeat 32 0) session_id key alpn).
Proof.
  intros Ht Hk Hs Ha. pose proof (emulated_profile_ok cached Ht) as Hp. pose proof (zlen_nonneg session_id).
  unfold emulated_server_hello. rewrite (emulated_extensions_eq key alpn Hk Ha).
  destruct (hello_extensions key alpn Hk Ha) as [_ Hl]. set (exts := enc_extensions _) in *. pose proof (zlen_nonneg exts).
  pose proof (zlen_answer_body (emulated_profile cached) (zrepeat 32 0) session_id key alpn Hp) as Lb.
  fold exts in Lb. change (zlen (zrepeat 32 0)) with 32 in Lb.
  assert (u16 (zlen exts) = zlen exts) as -> by (unfold u16; apply Z.mod_small; lia).
  unfold u8, u32. rewrite !(Z.mod_small (zlen session_id)) by lia.
  rewrite (Z.mod_small (2 + 32 + 1 + _ + 2 + 1 + 2 + _)), be_bytes_3, <-Lb by lia.
  set (message := [2] ++ _).
  assert (message = answer_message (emulated_profile cached) (zrepeat 32 0) session_id key alpn) as -> by done.
  destruct (zlen_answer_message (emulated_profile cached) (zrepeat 32 0) session_id key alpn) as [? Hm]; [done..|].
  pose proof (zlen_nonneg (answer_message (emulated_profile cached) (zrepeat 32 0) session_id key alpn)).
  unfold record_bytes. cbn [fst snd]. unfold u16. rewrite Z.mod_small by lia. done.
Qed.

(** The sizes before there is a payload to carry. *)
Definition profile_sizes (cached : CachedTlsData) : list Z :=
  if decide (app_data_records_sizes cached = []) then [Z.max (total_app_data_len cached) 1024]
  else app_data_records_sizes cached.

Lemma record_sizes_spec cached payload (rng : G) :
  let sizes := fst (record_sizes cached payload rng) in
  Forall size_ok sizes /\
  (exists js, Forall2 jittered (profile_sizes cached) js /\ (payload = None -> sizes = js) /\ grown js sizes) /\
  forall p, payload = Some p -> zlen p <= app_data_body_capacity sizes.
Proof.
  unfold record_sizes, profile_sizes. pose proof (jitter_sizes_spec (profile_sizes cached) rng) as Hj. unfold profile_sizes in Hj.
  destruct (jitter_and_clamp_sizes _ rng) as [js rng1]. cbn [fst] in *.
  assert (Forall size_ok js) as Hok by (induction Hj as [|? ? ? ? [_ Hx]]; [by apply Forall_nil_2|by apply Forall_cons_2]).
  destruct payload as [p|].
  - destruct (ensure_capacity_spec js (zlen p) (zlen_nonneg p) Hok) as (Hc & Hf & Hg).
    split_and!; [done|by exists js|by intros ? [= <-]].
  - split_and!; [done|exists js; split_and!; [done..|apply grown_refl]|done].
Qed.

(** The emulated answer.  It is a handshake record with a ServerHello of the cached version, cipher suite and
    compression, a ChangeCipherSpec record, application data records and the tickets asked for.  There is a record
    for each cached one, within three per cent of its size unless it was grown for the payload; every record's body
    is closed by the handshake marker and a tag, and the bodies together begin with the whole certificate payload.  The random field is
    the HMAC that the client recomputes. *)
Definition emulated_answer `{Digests} (secret client_digest session_id : bytes) (cached : CachedTlsData) (full : bool)
    (alpn : option bytes) (tickets : Z) (response : bytes) : Prop :=
  let digest := sha256_hmac secret (client_digest ++ zeroed response) in
  exists key js parts ts,
    split_records (S (length response)) response =
      Some ([(TLS_RECORD_HANDSHAKE, answer_message (emulated_profile cached) digest session_id key alpn);
             (TLS_RECORD_CHANGE_CIPHER, [0x01])] ++
            map (pair TLS_RECORD_APPLICATION) parts ++ map (pair TLS_RECORD_APPLICATION) ts) /\
    slice response 11 43 = digest /\ zlen key = 32 /\
    Forall2 jittered (profile_sizes cached) js /\ grown js (map zlen parts) /\
    Forall (fun d => size_ok (zlen d) /\ marked d) parts /\
    match select_payload cached full with
    | Some payload => payload `prefix_of` concat (map record_body parts)
    | None => map zlen parts = js
    end /\
    zlen ts = tickets /\ Forall (fun t => 48 <= zlen t <= 95) ts.

Theorem emulated_hello_verifies `{DigestsOk} secret client_digest session_id cached full (rng : G) alpn tickets :
  template_ok cached -> zlen session_id < 256 -> (forall p, alpn = Some p -> zlen p < 256) -> 0 <= tickets ->
  emulated_answer secret client_digest session_id cached full alpn tickets
    (fst (build_emulated_server_hello secret client_digest session_id cached full rng alpn tickets)).
Proof.
  intros Ht Hs Ha Htk. unfold emulated_answer, build_emulated_server_hello, gen_fake_x25519_key.
  destruct (rng_bytes rng 32) as [nb rng1]. set (key := le_bytes 32 _).
  assert (zlen key = 32) as Lk by (unfold key; apply zlen_le_bytes). set (payload := select_payload cached full).
  destruct (record_sizes_spec cached payload rng1) as (Hsz & (js & Hj & Hjs & Hg) & Hcap).
  destruct (record_sizes cached payload rng1) as [sizes rng2]. cbn [fst] in *.
  destruct (emulated_app_data_spec sizes payload 0 rng2 Hsz) as (parts & Ep & <- & Hm & Hag).
  { intros p _. pose proof (zlen_nonneg p). lia. }
  destruct (emulated_app_data _ payload 0 rng2) as [app_data rng3]. cbn [fst] in Ep. rewrite Ep.
  destruct (build_tickets_spec (Z.to_nat tickets) rng3) as (ts & Ets & Lts & Hts).
  destruct (build_tickets (Z.to_nat tickets) rng3) as [tk rng4]. cbn [fst] in *. rewrite Ets.
  rewrite emulated_hello_record by done. change change_cipher_spec with (record_bytes (TLS_RECORD_CHANGE_CIPHER, [0x01])).
  set (rest := (TLS_RECORD_CHANGE_CIPHER, [0x01]) ::
    map (pair TLS_RECORD_APPLICATION) parts ++ map (pair TLS_RECORD_APPLICATION) ts).
  assert (forall d, record_bytes (TLS_RECORD_HANDSHAKE, d) ++ record_bytes (TLS_RECORD_CHANGE_CIPHER, [0x01]) ++
    concat (map record_bytes (map (pair TLS_RECORD_APPLICATION) parts)) ++
    concat (map record_bytes (map (pair TLS_RECORD_APPLICATION) ts)) =
    concat (map record_bytes ((TLS_RECORD_HANDSHAKE, d) :: rest))) as Er.
  { intros d. unfold rest. cbn [map concat]. by rewrite map_app, concat_app. }
  rewrite Er. assert (Forall size_ok (map zlen parts)) as Hok by done. rewrite Forall_map in Hok.
  destruct (signed_answer (emulated_profile cached) secret client_digest session_id key alpn rest) as (Ez & Esp & Esl);
    [by apply emulated_profile_ok|done..| |].
  { apply Forall_cons_2; [done|]. apply Forall_app_2; [|by apply small_tickets]. apply Forall_map.
    eapply Forall_impl; [exact Hok|]. unfold size_ok, MAX_APP_DATA, compose. cbn. lia. }
  change TLS_DIGEST_POS with 11. rewrite Ez. exists key, js, parts, ts. split_and!; try done.
  - apply Forall_and. split; [done|exact Hm].
  - destruct payload as [p|]; [|by apply Hjs]. specialize (Hag p eq_refl). rewrite zdrop_0 in Hag by lia.
    apply agree_prefix; [done|]. rewrite zlen_bodies by done. by apply Hcap.
  - unfold zlen. lia.
Qed.

End Records.

(** ** The cache (cache.rs) *)

(** Instants and durations are in nanoseconds. *)
Record TlsFrontCache := mkTlsFrontCache {
  memory : gmap bytes CachedTlsData;
  default_entry : CachedTlsData;
  full_cert_sent : gmap IpAddr Z;
  disk_path : bytes
}.

Definition default_template : ParsedServerHello :=
  mkParsedServerHello [0x03; 0x03] (zrepeat 32 0) [] [0x13; 0x01] 0 [].

Definition TlsFrontCache_new (domains : list bytes) (default_len : Z) (disk_path : bytes) (now : Z) : TlsFrontCache :=
  let default := mkCachedTlsData default_template None None [default_len] default_len now (str "default") in
  let map := foldl (fun m d => <[d := default]> m) ∅ domains in
  mkTlsFrontCache map default ∅ disk_path.

Definition cache_get (self : TlsFrontCache) (sni : bytes) : CachedTlsData :=
  default (default_entry self) (memory self !! sni).
Definition contains_domain (self : TlsFrontCache) (domain : bytes) : bool := bool_decide (is_Some (memory self !! domain)).

Definition with_sent (self : TlsFrontCache) (sent : gmap IpAddr Z) : TlsFrontCache :=
  mkTlsFrontCache (memory self) (default_entry self) sent (disk_path self).

Definition take_full_cert_budget_for_ip (self : TlsFrontCache) (client_ip : IpAddr) (ttl now : Z) : bool * TlsFrontCache :=
  if ttl =? 0 then (true, with_sent self (<[client_ip := now]> (full_cert_sent self)))
  else
    let guard := filter (fun e : IpAddr * Z => sat_sub now e.2 < ttl) (full_cert_sent self) in
    match guard !! client_ip with
    | Some seen_at =>
        if ttl <=? sat_sub now seen_at then (true, with_sent self (<[client_ip := now]> guard))
        else (false, with_sent self guard)
    | None => (true, with_sent self (<[client_ip := now]> guard))
    end.

Definition cache_set (self : TlsFrontCache) (domain : bytes) (data : CachedTlsData) : TlsFrontCache :=
  mkTlsFrontCache (<[domain := data]> (memory self)) (default_entry self) (full_cert_sent self) (disk_path self).

(** An entry of the directory: its name if it is text, what reading and parsing it gave, and its modification time. *)
Record DiskEntry := mkDiskEntry { de_name : option bytes; de_cached : option CachedTlsData; de_modified : option Z }.

Definition is_domain_char (b : Z) : bool :=
  in_range b 48 57 || in_range b 65 90 || in_range b 97 122 || (b =? 46) || (b =? 45).
Definition valid_domain (domain : bytes) : bool :=
  negb (bool_decide (domain = [])) && negb (255 <? zlen domain) && forallb is_domain_char domain.
Definition STALE_AGE : Z := 72 * 3600 * 1000000000.

Definition ends_with (suffix l : bytes) : bool := bool_decide (suffix `suffix_of` l).

Definition with_fetched_at (data : CachedTlsData) (t : Z) : CachedTlsData :=
  mkCachedTlsData (server_hello_template data) (cert_info data) (cert_payload data) (app_data_records_sizes data)
    (total_app_data_len data) t (domain data).

(** What one entry adds to the cache. *)
Definition load_entry (entry : DiskEntry) (now : Z) : option CachedTlsData :=
  name ← de_name entry;
  if negb (ends_with (str ".json") name) then None
  else
    cached ← de_cached entry;
    if negb (valid_domain (domain cached)) then None
    else
      let cached := match de_modified entry with Some modified => with_fetched_at cached modified | None => cached end in
      if (fetched_at cached <=? now) && (STALE_AGE <? now - fetched_at cached) then None
      else Some cached.

(** [dir] is [None] when the directory cannot be created or read. *)
Definition load_from_disk (self : TlsFrontCache) (dir : option (list DiskEntry)) (now : Z) : TlsFrontCache :=
  foldl (fun self cached => cache_set self (domain cached) cached) self (omap (fun e => load_entry e now) (default [] dir)).

(** The name of the file [persist] writes. *)
Definition persist_name (domain : bytes) : bytes :=
  map (fun b => if (b =? 47) || (b =? 92) then 95 else b) domain ++ str ".json".

(** The cache, and the file that is written. *)
Definition update_from_fetch (self : TlsFrontCache) (domain : bytes) (fetched : TlsFetchResult) (now : Z)
    : TlsFrontCache * (bytes * CachedTlsData) :=
  let data :=
    mkCachedTlsData (fr_server_hello_parsed fetched) (fr_cert_info fetched) (fr_cert_payload fetched)
      (fr_app_data_records_sizes fetched) (fr_total_app_data_len fetched) now domain in
  (cache_set self domain data, (persist_name domain, data)).

(** *** The budget of full certificates *)

(** The specification: when each address was last given the full payload. *)
Definition budget_spec (last : IpAddr -> option Z) (ttl : Z) (ip : IpAddr) (now : Z) : bool :=
  match last ip with Some t => ttl <=? now - t | None => true end.
Definition budget_next (last : IpAddr -> option Z) (granted : bool) (ip : IpAddr) (now : Z) : IpAddr -> option Z :=
  if granted then fun ip' => if decide (ip' = ip) then Some now else last ip' else last.

Fixpoint spec_answers (last : IpAddr -> option Z) (ttl : Z) (calls : list (IpAddr * Z)) : list bool :=
  match calls with
  | [] => []
  | (ip, now) :: calls =>
      let granted := budget_spec last ttl ip now in granted :: spec_answers (budget_next last granted ip now) ttl calls
  end.

Fixpoint cache_answers (self : TlsFrontCache) (ttl : Z) (calls : list (IpAddr * Z)) : list bool :=
  match calls with
  | [] => []
  | (ip, now) :: calls =>
      let '(granted, self) := take_full_cert_budget_for_ip self ip ttl now in granted :: cache_answers self ttl calls
  end.

(** The map holds the last grants, those older than the period excepted. *)
Definition budget_rel (ttl t0 : Z) (sent : gmap IpAddr Z) (last : IpAddr -> option Z) : Prop :=
  forall ip, match last ip with
             | Some t => t <= t0 /\ (sent !! ip = Some t \/ sent !! ip = None /\ ttl <= t0 - t)
             | None => sent !! ip = None
             end.

Lemma budget_step ttl t0 self last ip now :
  0 < ttl -> t0 <= now -> budget_rel ttl t0 (full_cert_sent self) last ->
  let '(granted, self') := take_full_cert_budget_for_ip self ip ttl now in
  granted = budget_spec last ttl ip now /\ budget_rel ttl now (full_cert_sent self') (budget_next last granted ip now).
Proof.
  intros Ht Hn Hr. unfold take_full_cert_budget_for_ip. destruct (Z.eqb_spec ttl 0); [lia|]. unfold sat_sub.
  set (guard := filter _ _). assert (budget_rel ttl now guard last) as Hg.
  { intros ip'. specialize (Hr ip'). destruct (last ip') as [t|].
    - split; [lia|]. destruct Hr as [Hle [Hs|[Hs Hold]]].
      + destruct (Z.lt_ge_cases (now - t) ttl); [left|right]; unfold guard.
        * apply map_lookup_filter_Some. cbn. split; [done|lia].
        * split; [|lia]. apply map_lookup_filter_None. right. intros x Hx. simplify_eq. cbn. lia.
      + right. split; [|lia]. apply map_lookup_filter_None. by left.
    - apply map_lookup_filter_None. by left. }
  assert (budget_rel ttl now (<[ip := now]> guard) (budget_next last true ip now)) as Hset.
  { intros ip'. unfold budget_next. case_decide as Heq; [subst; split; [lia|left; apply lookup_insert_eq]|].
    rewrite lookup_insert_ne by done. apply Hg. }
  pose proof (Hg ip) as Hip. unfold budget_spec. destruct (guard !! ip) as [seen|] eqn:Es.
  - assert (Z.max 0 (now - seen) < ttl) as Hfresh by (by apply map_lookup_filter_Some in Es as [_ Hf]).
    destruct (last ip) as [t|]; [|done]. destruct Hip as [_ [Hip|[? _]]]; [injection Hip as <-|done].
    destruct (Z.leb_spec ttl (Z.max 0 (now - seen))); [lia|]. destruct (Z.leb_spec ttl (now - seen)); [lia|]. by split.
  - split; [|exact Hset]. destruct (last ip) as [t|]; [|done]. destruct Hip as [_ [|[_ Hold]]]; [done|].
    by destruct (Z.leb_spec ttl (now - t)); [|lia].
Qed.

Lemma budget_run ttl calls : forall self last t0,
  0 < ttl -> budget_rel ttl t0 (full_cert_sent self) last ->
  StronglySorted Z.le (map snd calls) -> Forall (Z.le t0) (map snd calls) ->
  cache_answers self ttl calls = spec_answers last ttl calls.
Proof.
  induction calls as [|[ip now] calls IH]; intros self last t0 Ht Hr Hs Hall; [done|]. cbn [cache_answers spec_answers].
  cbn [map snd] in *. apply Forall_cons in Hall as [Hle _]. inversion Hs as [|? ? Hs' Hge]; subst.
  pose proof (budget_step ttl t0 self last ip now Ht Hle Hr) as Hstep.
  destruct (take_full_cert_budget_for_ip self ip ttl now) as [granted self']. destruct Hstep as [-> Hr']. f_equal.
  by apply (IH _ _ now).
Qed.

(** C31: the budget of full certificate payloads.  At calls in the order of the clock, an address is given the full
    payload exactly when it has not been given it within the period before. *)
Theorem cert_budget_exact domains len path t0 ttl calls :
  0 < ttl -> Sorted Z.le (map snd calls) ->
  cache_answers (TlsFrontCache_new domains len path t0) ttl calls = spec_answers (fun _ => None) ttl calls.
Proof.
  intros Ht Hs. apply (Sorted_StronglySorted _) in Hs. destruct calls as [|[ip now] calls]; [done|].
  apply (budget_run ttl _ _ _ now); [done|intros ?; apply lookup_empty|done|].
  cbn [map snd] in *. inversion Hs; subst. by apply Forall_cons_2.
Qed.

(** With the period 0 no address is ever forgotten: the map has an entry for every address that has called. *)
Lemma zero_ttl_never_forgets self ip ip' now :
  is_Some (full_cert_sent self !! ip') ->
  is_Some (full_cert_sent (snd (take_full_cert_budget_for_ip self ip 0 now)) !! ip').
Proof. intros Hs. cbn. rewrite lookup_insert_is_Some. destruct (decide (ip = ip')); [by left|by right]. Qed.

(** ** Runs *)

Import Crypto.Demo Random.DemoRng.

Definition demo_info : ParsedCertificateInfo :=
  mkParsedCertificateInfo (Some (-5)) None (Some (str "CA")) (Some (str "a.b")) [str "a.b"; str "c.d"].
Definition demo_cached : CachedTlsData :=
  mkCachedTlsData (mkParsedServerHello [3; 3] (zrepeat 32 7) [] [0x13; 0x02] 0 []) (Some demo_info)
    (Some (mkTlsCertPayload [] (zrepeat 300 9))) [100; 60] 160 0 (str "a.b").

Example demo_compact :
  build_compact_cert_info_payload demo_info = Some (str "CN=a.b;ISSUER=CA;NA=-5;SAN=a.b,c.d") /\
  ensure_payload_capacity [100; 64] 17000 = [100; 16640; 311] /\ persist_name (str "a/b") = str "a_b.json".
Proof. split_and!; vm_eq. Qed.

Definition demo_calls : list (IpAddr * Z) :=
  [(V4 [1; 1; 1; 1], 5); (V4 [2; 2; 2; 2], 6); (V4 [1; 1; 1; 1], 14); (V4 [1; 1; 1; 1], 15); (V4 [2; 2; 2; 2], 15)].

Lemma cert_budget_exact_witness :
  cache_answers (TlsFrontCache_new [str "a.b"] 1024 (str "tlsfront") 0) 10 demo_calls =
    spec_answers (fun _ => None) 10 demo_calls /\
  spec_answers (fun _ => None) 10 demo_calls = [true; true; false; true; false].
Proof.
  split; [|reflexivity]. apply (cert_budget_exact [str "a.b"] 1024 (str "tlsfront") 0 10 demo_calls).
  - lia.
  - unfold demo_calls. cbn. repeat constructor; lia.
Defined.
