(* ===== verification/TlsFetch.v ===== *)
(** * Asking a real server: [tls_front/fetcher.rs]

    For each domain the proxy imitates it asks the real server twice: once with a ClientHello of its own, to see the
    ServerHello and the sizes of the records that follow, and once through a TLS library, to get the certificates.  What
    it learns is what [TlsFront] imitates.  The library, the certificate parser and the connections are outcomes of the
    surroundings; [None] is a call that never returns. *)

From S2P Require Import Prelude NetAddr Crypto Random Constants AsyncIo ProxyProtocol DnsOverrides TlsHello TlsFront.

(** [anyhow::Error], as far as its sources differ. *)
Inductive FetchError := FE_Io (e : IoError) | FE_Elapsed | FE_NoServerHello | FE_InvalidName | FE_Tls | FE_Connect.

(** ** The ClientHello (fetcher.rs:96-215) *)

Definition gen_key_share {G} `{Rng G} (rng : G) : bytes * G := rng_bytes rng 32.

Definition probe_cipher_suites : bytes := [0x13; 0x01; 0x13; 0x02; 0x13; 0x03; 0x00; 0x2f; 0x00; 0xff].
Definition TARGET_EXT_LEN : Z := 180.

Definition probe_sni_ext (sni : bytes) : bytes := be_bytes 2 (u16 (u16 (zlen sni) + 3)) ++ [0] ++ be_bytes 2 (u16 (zlen sni)) ++ sni.

(** The extensions before the padding. *)
Definition probe_extensions (sni key : bytes) : bytes :=
  let sni_ext := probe_sni_ext sni in
  let keyshare := be_bytes 2 0x001d ++ be_bytes 2 (u16 (zlen key)) ++ key in
  let alpn_proto := str "http/1.1" in
  (be_bytes 2 0x0000 ++ be_bytes 2 (u16 (zlen sni_ext)) ++ sni_ext) ++
  (be_bytes 2 0x000a ++ be_bytes 2 (2 + 2 * 2) ++ be_bytes 2 (2 * 2) ++ be_bytes 2 0x001d ++ be_bytes 2 0x0017) ++
  (be_bytes 2 0x000d ++ be_bytes 2 (2 + 4 * 2) ++ be_bytes 2 (4 * 2) ++
   be_bytes 2 0x0804 ++ be_bytes 2 0x0805 ++ be_bytes 2 0x0403 ++ be_bytes 2 0x0503) ++
  (be_bytes 2 0x002b ++ be_bytes 2 (1 + 2 * 2) ++ [2 * 2] ++ be_bytes 2 0x0304 ++ be_bytes 2 0x0303) ++
  (be_bytes 2 0x0033 ++ be_bytes 2 (u16 (2 + zlen keyshare)) ++ be_bytes 2 (u16 (zlen keyshare)) ++ keyshare) ++
  (be_bytes 2 0x0010 ++ be_bytes 2 (u16 (2 + 1 + zlen alpn_proto)) ++ be_bytes 2 (u16 (1 + zlen alpn_proto)) ++
   [u8 (zlen alpn_proto)] ++ alpn_proto).

Definition pad_extensions (exts : bytes) : bytes :=
  if zlen exts <? TARGET_EXT_LEN then
    let remaining := TARGET_EXT_LEN - zlen exts in
    if 4 <? remaining then
      let pad_len := remaining - 4 in
      exts ++ be_bytes 2 0x0015 ++ be_bytes 2 (u16 pad_len) ++ zrepeat pad_len 0
    else exts
  else exts.

Definition build_client_hello {G} `{Rng G} (sni : bytes) (rng : G) : bytes * G :=
  let '(random, rng) := rng_bytes rng 32 in
  let '(key, rng) := gen_key_share rng in
  let exts := pad_extensions (probe_extensions sni key) in
  let body :=
    [0x03; 0x03] ++ random ++ [0] ++ be_bytes 2 (u16 (zlen probe_cipher_suites)) ++ probe_cipher_suites ++ [1; 0] ++
    be_bytes 2 (u16 (zlen exts)) ++ exts in
  let handshake := [0x01] ++ slice (be_bytes 4 (u32 (zlen body))) 1 4 ++ body in
  ([TLS_RECORD_HANDSHAKE; 0x03; 0x01] ++ be_bytes 2 (u16 (zlen handshake)) ++ handshake, rng).

(** ** Reading the answer (fetcher.rs:217-283) *)

#[local] Open Scope rio_scope.

Definition read_tls_record `{AsyncRead R} : rio R (Z * bytes) :=
  let? header := (fun r => read_exact r 5) in
  let len := be_val (slice header 3 5) in
  let? body := (fun r => read_exact r len) in
  rio_ret (nth 0 header 0, body).

#[local] Close Scope rio_scope.

(** [body.get(a..b)], and two bytes at a position. *)
Definition get_range (body : bytes) (a b : Z) : option bytes :=
  if (0 <=? a) && (a <=? b) && (b <=? zlen body) then Some (slice body a b) else None.
Definition get_two (body : bytes) (pos : Z) : option bytes :=
  x ← zget body pos; y ← zget body (pos + 1); Some [x; y].

Fixpoint server_extensions (fuel : nat) (body : bytes) (pos ext_end : Z) (extensions : list TlsExtension) : option (list TlsExtension) :=
  match fuel with
  | O => None
  | S fuel =>
      if pos + 4 <=? ext_end then
        etype ← get_two body pos;
        elen ← get_two body (pos + 2);
        let pos := pos + 4 in
        let elen := be_val elen in
        data ← get_range body pos (pos + elen);
        server_extensions fuel body (pos + elen) ext_end (extensions ++ [mkTlsExtension (be_val etype) data])
      else Some extensions
  end.

Definition parse_server_hello (body : bytes) : option ParsedServerHello :=
  if (zlen body <? 4) || negb (bool_decide (zget body 0 = Some 0x02)) then None
  else
    let msg_len := be_val (0 :: slice body 1 4) in
    if zlen body <? msg_len + 4 then None
    else
      let pos := 4 in
      version ← get_two body pos;
      let pos := pos + 2 in
      random ← get_range body pos (pos + 32);
      let pos := pos + 32 in
      session_len ← zget body pos;
      let pos := pos + 1 in
      session_id ← get_range body pos (pos + session_len);
      let pos := pos + session_len in
      cipher_suite ← get_two body pos;
      let pos := pos + 2 in
      compression ← zget body pos;
      let pos := pos + 1 in
      ext_len ← get_two body pos;
      let pos := pos + 2 in
      let ext_end := pos + be_val ext_len in
      if zlen body <? ext_end then None
      else
        extensions ← server_extensions (S (length body)) body pos ext_end [];
        Some (mkParsedServerHello version random session_id cipher_suite compression extensions).

(** ** Certificates (fetcher.rs:285-340, 391-418) *)

(** What the [x509_parser] crate reads in a certificate: the times of its validity, the common names of issuer and subject
    ([None] where a name is no text), and the alternative names when there is exactly one such extension ([None] where one
    is no DNS name). *)
Record X509 := mkX509 {
  x_not_before : Z; x_not_after : Z; x_issuer_cns : list (option bytes); x_subject_cns : list (option bytes);
  x_alt_names : option (list (option bytes))
}.

Definition parse_cert_info (from_der : bytes -> option X509) (certs : list bytes) : option ParsedCertificateInfo :=
  first ← head certs;
  cert ← from_der first;
  Some (mkParsedCertificateInfo (Some (x_not_after cert)) (Some (x_not_before cert)) (mjoin (head (x_issuer_cns cert)))
          (mjoin (head (x_subject_cns cert))) (from_option (omap id) [] (x_alt_names cert))).

Definition u24_bytes (value : Z) : option bytes :=
  if 0x00ffffff <? value then None
  else Some [u8 (Z.land (Z.shiftr value 16) 0xff); u8 (Z.land (Z.shiftr value 8) 0xff); u8 (Z.land value 0xff)].

Fixpoint certificate_entries (cert_chain_der : list bytes) : option bytes :=
  match cert_chain_der with
  | [] => Some []
  | cert :: rest =>
      if decide (cert = []) then None
      else
        len ← u24_bytes (zlen cert);
        entries ← certificate_entries rest;
        Some ((len ++ cert ++ be_bytes 2 0) ++ entries)
  end.

Definition encode_tls13_certificate_message (cert_chain_der : list bytes) : option bytes :=
  if decide (cert_chain_der = []) then None
  else
    certificate_list ← certificate_entries cert_chain_der;
    let body_len := 1 + 3 + zlen certificate_list in
    len ← u24_bytes body_len;
    list_len ← u24_bytes (zlen certificate_list);
    Some ([0x0b] ++ len ++ [0x00] ++ list_len ++ certificate_list).

(** ** The raw probe (fetcher.rs:420-482) *)

Definition probe_header (proxy_protocol : Z) : list bytes :=
  if 0 <? proxy_protocol then
    [if proxy_protocol =? 2 then V2Builder_build V2Builder_new else V1Builder_build V1Builder_new]
  else [].

(** [stream.write_all(part).await?] for each part, then [stream.flush().await?]. *)
Fixpoint write_parts (w : upstream_w) (parts : list bytes) : option (io_result unit * upstream_w) :=
  match parts with
  | [] => flush_await (S (length (w_flush w))) w
  | part :: parts =>
      match write_all (length (w_script w) + 2) w part with
      | Some (Ok _, w) => write_parts w parts
      | r => r
      end
  end.

(** Up to [turns] more records; [late i]: the time for the [i]-th is over first, as it is for a read that never ends. *)
Fixpoint read_records `{AsyncRead R} (turns : nat) (late : nat -> bool) (i : nat) (records : list (Z * bytes)) (r : R)
    : result FetchError (list (Z * bytes)) :=
  match turns with
  | O => Ok records
  | S turns =>
      if late i then Ok records
      else
        match read_tls_record r with
        | None => Ok records
        | Some (Err e, _) => Err (FE_Io e)
        | Some (Ok rec, r) =>
            let records := records ++ [rec] in
            if (3 <=? zlen records) && existsb (fun rec => rec.1 =? TLS_RECORD_APPLICATION) records then Ok records
            else read_records turns late (S i) records r
        end
  end.

Fixpoint scan_records (records : list (Z * bytes)) (server_hello : option ParsedServerHello) (app_sizes : list Z)
    : option ParsedServerHello * list Z :=
  match records with
  | [] => (server_hello, app_sizes)
  | (t, body) :: records =>
      if (t =? TLS_RECORD_HANDSHAKE) && match server_hello with None => true | Some _ => false end then
        scan_records records (parse_server_hello body) app_sizes
      else if t =? TLS_RECORD_APPLICATION then scan_records records server_hello (app_sizes ++ [zlen body])
      else scan_records records server_hello app_sizes
  end.

Definition raw_result (records : list (Z * bytes)) : result FetchError TlsFetchResult :=
  let '(server_hello, app_sizes) := scan_records records None [] in
  parsed ← ok_or server_hello FE_NoServerHello;
  let total_app_data_len := Z.max (foldr Z.add 0 app_sizes) 1024 in
  Ok (mkTlsFetchResult parsed (if decide (app_sizes = []) then [total_app_data_len] else app_sizes) total_app_data_len None None).

(** The result, and what the connection carried unless its time was over. *)
Definition fetch_via_raw_tls_stream `{AsyncRead R} {G} `{Rng G} (late_write : bool) (late : nat -> bool) (s : R * upstream_w)
    (sni : bytes) (proxy_protocol : Z) (rng : G) : result FetchError TlsFetchResult * option upstream_w :=
  let '(r, w) := s in
  let '(client_hello, _) := build_client_hello sni rng in
  if late_write then (Err FE_Elapsed, None)
  else
    match write_parts w (probe_header proxy_protocol ++ [client_hello]) with
    | None => (Err FE_Elapsed, None)
    | Some (Err e, w) => (Err (FE_Io e), Some w)
    | Some (Ok _, w) =>
        (records ← read_records 4 late 0 [] r; raw_result records, Some w)
    end.

(** ** Connecting (fetcher.rs:342-389) *)

(** What the ways to the server lead to; [None] is a time that is over, or an upstream that fails. *)
Record Dialing (S : Type) := mkDialing {
  dl_unix : bytes -> option (io_result S);
  dl_manager : SocketAddr -> option S;
  dl_lookup : option (list SocketAddr);
  dl_tcp : SocketAddr + bytes * Z -> option (io_result S)
}.
Arguments mkDialing {S}.
Arguments dl_unix {S}.
Arguments dl_manager {S}.
Arguments dl_lookup {S}.
Arguments dl_tcp {S}.

Definition in_time {A} (r : option (io_result A)) : result FetchError A :=
  match r with Some r => map_err FE_Io r | None => Err FE_Elapsed end.

Definition connect_with_dns_override {S : Type} (store : OverrideMap) (d : Dialing S) (host : bytes) (port : Z) : result FetchError S :=
  match resolve_socket_addr store host port with
  | Some addr => in_time (dl_tcp d (inl addr))
  | None => in_time (dl_tcp d (inr (host, port)))
  end.

Definition connect_tcp_with_upstream {S : Type} (store : OverrideMap) (d : Dialing S) (host : bytes) (port : Z) (upstream : bool)
    : result FetchError S :=
  let target :=
    match resolve_socket_addr store host port with
    | Some addr => Some addr
    | None => addrs ← dl_lookup d; head (filter (fun a => is_ipv4 (sa_ip a) = true) addrs)
    end in
  match (if upstream then target ≫= dl_manager d else None) with
  | Some stream => Ok stream
  | None => connect_with_dns_override store d host port
  end.

(** The mask's unix socket when it can be reached, else TCP. *)
Definition connect_fetch {S : Type} (store : OverrideMap) (d : Dialing S) (host : bytes) (port : Z) (upstream : bool) (unix_sock : option bytes)
    : result FetchError S :=
  match unix_sock ≫= dl_unix d with
  | Some (Ok stream) => Ok stream
  | _ => connect_tcp_with_upstream store d host port upstream
  end.

(** ** The certificates (fetcher.rs:529-659) *)

Section Fetch.
Context `{AsyncRead R} {G : Type} `{Rng G}.

(** The certificate parser, the names the TLS library accepts, and what its handshake gives: the cipher suite and the
    certificates. *)
Context (from_der : bytes -> option X509) (valid_name : bytes -> bool).
Context (tls_connect : bytes -> R * upstream_w -> option (result FetchError (option Z * list bytes))).
Context (store : OverrideMap).

Definition rustls_result (cipher_suite : option Z) (certs : list bytes) : TlsFetchResult :=
  let cert_payload := mkTlsCertPayload certs <$> encode_tls13_certificate_message certs in
  let total_cert_len :=
    Z.max match cert_payload with
          | Some payload => zlen (certificate_message payload)
          | None => foldr Z.add 0 (zlen <$> certs)
          end 1024 in
  let app_data_records_sizes :=
    if 3000 <? total_cert_len then [total_cert_len / 2; total_cert_len - total_cert_len / 2] else [total_cert_len] in
  let parsed := mkParsedServerHello [0x03; 0x03] (zrepeat 32 0) [] (from_option (be_bytes 2) [0x13; 0x01] cipher_suite) 0 [] in
  mkTlsFetchResult parsed app_data_records_sizes (foldr Z.add 0 app_data_records_sizes) (parse_cert_info from_der certs) cert_payload.

Definition fetch_via_rustls_stream (s : R * upstream_w) (host sni : bytes) (proxy_protocol : Z) : option (result FetchError TlsFetchResult) :=
  let '(r, w) := s in
  match (if 0 <? proxy_protocol then write_parts w (probe_header proxy_protocol) else Some (Ok tt, w)) with
  | None => None
  | Some (Err e, _) => Some (Err (FE_Io e))
  | Some (Ok _, w) =>
      match (if valid_name sni then Some sni else if valid_name host then Some host else None) with
      | None => Some (Err FE_InvalidName)
      | Some server_name =>
          session ← tls_connect server_name (r, w);
          Some ('(cipher_suite, certs) ← session; Ok (rustls_result cipher_suite certs))
      end
  end.

Definition fetch_via_raw_tls (d : Dialing (R * upstream_w)) (late_write : bool) (late : nat -> bool) (host : bytes) (port : Z) (sni : bytes)
    (upstream : bool) (proxy_protocol : Z) (unix_sock : option bytes) (rng : G) : result FetchError TlsFetchResult * option upstream_w :=
  match connect_fetch store d host port upstream unix_sock with
  | Ok stream => fetch_via_raw_tls_stream late_write late stream sni proxy_protocol rng
  | Err e => (Err e, None)
  end.

Definition fetch_via_rustls (d : Dialing (R * upstream_w)) (host : bytes) (port : Z) (sni : bytes) (upstream : bool) (proxy_protocol : Z)
    (unix_sock : option bytes) : option (result FetchError TlsFetchResult) :=
  match connect_fetch store d host port upstream unix_sock with
  | Ok stream => fetch_via_rustls_stream stream host sni proxy_protocol
  | Err e => Some (Err e)
  end.

(** The records of the probe with the certificates of the other connection, or what there is (fetcher.rs:696-723). *)
Definition merge_fetched (rustls raw : result FetchError TlsFetchResult) : result FetchError TlsFetchResult :=
  match rustls, raw with
  | Ok rustls, Ok raw =>
      Ok (mkTlsFetchResult (fr_server_hello_parsed raw) (fr_app_data_records_sizes raw) (fr_total_app_data_len raw)
            (fr_cert_info rustls) (fr_cert_payload rustls))
  | Ok rustls, Err _ => Ok rustls
  | Err _, Ok raw => Ok raw
  | Err e, Err _ => Err e
  end.

(** [fetch_real_tls] (fetcher.rs:661-724): two connections, and what both gave. *)
Definition fetch_real_tls (d d' : Dialing (R * upstream_w)) (late_write : bool) (late : nat -> bool) (host : bytes) (port : Z) (sni : bytes)
    (upstream : bool) (proxy_protocol : Z) (unix_sock : option bytes) (rng : G) : option (result FetchError TlsFetchResult) :=
  let raw := (fetch_via_raw_tls d late_write late host port sni upstream proxy_protocol unix_sock rng).1 in
  rustls ← fetch_via_rustls d' host port sni upstream proxy_protocol unix_sock;
  Some (merge_fetched rustls raw).

End Fetch.

(** ** The ClientHello is well formed *)

Definition probe_base (sni key : bytes) : list (Z * bytes) :=
  [(0, sni_data sni);
   (10, be_bytes 2 4 ++ be_bytes 2 0x001d ++ be_bytes 2 0x0017);
   (13, be_bytes 2 8 ++ be_bytes 2 0x0804 ++ be_bytes 2 0x0805 ++ be_bytes 2 0x0403 ++ be_bytes 2 0x0503);
   (43, [4] ++ be_bytes 2 0x0304 ++ be_bytes 2 0x0303);
   (51, be_bytes 2 36 ++ be_bytes 2 0x001d ++ be_bytes 2 32 ++ key);
   (ALPN, alpn_data [str "http/1.1"])].

Definition probe_padding (n : Z) : list (Z * bytes) := if n <? 176 then [(21, zrepeat (176 - n) 0)] else [].

(** The hello the probe makes, in the terms of RFC 8446. *)
Definition probe_hello (sni random key : bytes) : ClientHello :=
  mkClientHello [0x03; 0x03] random [] probe_cipher_suites [0] (probe_base sni key ++ probe_padding (99 + zlen sni)).

Lemma probe_extensions_eq sni key :
  zlen sni < 65000 -> zlen key = 32 ->
  probe_extensions sni key = enc_extensions (probe_base sni key) /\ zlen (probe_extensions sni key) = 99 + zlen sni.
Proof.
  intros Hs Hk. pose proof (zlen_nonneg sni).
  assert (probe_sni_ext sni = sni_data sni) as Es by (unfold probe_sni_ext, sni_data, u16; rewrite (Z.mod_small (zlen sni)), (Z.mod_small (zlen sni + 3)), (Z.add_comm 3) by lia; done).
  assert (zlen (sni_data sni) = 5 + zlen sni) as Ls by (unfold sni_data; rewrite !zlen_app, !zlen_be_bytes, zlen_cons, zlen_nil; lia).
  assert (probe_extensions sni key = enc_extensions (probe_base sni key)) as E.
  { unfold probe_extensions, enc_extensions, probe_base, enc_extension. cbv zeta. rewrite Es. cbn [map concat fst snd].
    rewrite !zlen_app, !zlen_be_bytes, Hk, Ls. unfold u16 at 1. rewrite Z.mod_small by lia. rewrite app_nil_r, <-!app_assoc. done. }
  split; [exact E|]. rewrite E. unfold enc_extensions, probe_base. cbn [map concat].
  rewrite !zlen_app, !zlen_enc_extension. cbn [fst snd]. rewrite !zlen_app, !zlen_be_bytes, Hk, Ls.
  change (zlen [4]) with 1. change (zlen (alpn_data _)) with 11. change (zlen (@nil Z)) with 0. lia.
Qed.

Lemma enc_extensions_app a b : enc_extensions (a ++ b) = enc_extensions a ++ enc_extensions b.
Proof. unfold enc_extensions. by rewrite map_app, concat_app. Qed.

Lemma pad_extensions_eq sni key :
  zlen sni < 65000 -> zlen key = 32 ->
  let exts := enc_extensions (probe_base sni key ++ probe_padding (99 + zlen sni)) in
  pad_extensions (probe_extensions sni key) = exts /\ zlen exts = (if zlen sni <? 77 then 180 else 99 + zlen sni).
Proof.
  intros Hs Hk exts. destruct (probe_extensions_eq sni key Hs Hk) as [E L]. pose proof (zlen_nonneg sni).
  unfold exts, pad_extensions, TARGET_EXT_LEN, probe_padding. rewrite enc_extensions_app, <-E, L.
  destruct (Z.ltb_spec (99 + zlen sni) 176).
  - destruct (Z.ltb_spec (99 + zlen sni) 180); [|lia]. destruct (Z.ltb_spec 4 (180 - (99 + zlen sni))); [|lia]. destruct (Z.ltb_spec (zlen sni) 77); [|lia].
    unfold enc_extensions. cbn [map concat]. unfold enc_extension. cbn [fst snd]. rewrite zlen_zrepeat, app_nil_r, !zlen_app, L, !zlen_be_bytes, zlen_zrepeat.
    unfold u16. rewrite (Z.mod_small (180 - (99 + zlen sni) - 4)) by lia. replace (180 - (99 + zlen sni) - 4) with (176 - (99 + zlen sni)) by lia.
    rewrite Z.max_r by lia. split; [done|lia].
  - destruct (Z.ltb_spec (zlen sni) 77); [lia|]. change (enc_extensions []) with (@nil Z). rewrite app_nil_r, L.
    split; [|lia]. destruct (Z.ltb_spec (99 + zlen sni) 180); [|done]. destruct (Z.ltb_spec 4 (180 - (99 + zlen sni))); [lia|done].
Qed.

Lemma probe_hello_ok sni random key : zlen sni < 65000 -> zlen random = 32 -> zlen key = 32 -> client_hello_ok (probe_hello sni random key).
Proof.
  intros Hs Hr Hk. pose proof (zlen_nonneg sni). destruct (pad_extensions_eq sni key Hs Hk) as [_ L]. cbv zeta in L.
  assert (zlen (sni_data sni) = 5 + zlen sni) as Ls by (unfold sni_data; rewrite !zlen_app, !zlen_be_bytes, zlen_cons, zlen_nil; lia).
  unfold client_hello_ok, probe_hello. cbn [ch_version ch_random ch_session_id ch_cipher_suites ch_compression ch_extensions].
  split_and!; [done..| |rewrite L; destruct (zlen sni <? 77); lia]. apply Forall_app. split.
  - unfold probe_base. repeat apply Forall_cons_2; [| | | | | |by apply Forall_nil_2]; (split; [done|]); cbn [snd]; [lia|done..| |done].
    rewrite !zlen_app, !zlen_be_bytes, Hk. lia.
  - unfold probe_padding. destruct (Z.ltb_spec (99 + zlen sni) 176); [|by apply Forall_nil_2]. apply Forall_cons_2; [|by apply Forall_nil_2].
    split; [done|]. cbn [snd]. rewrite zlen_zrepeat. lia.
Qed.

Lemma build_client_hello_eq {G} `{RngOk G} sni (rng : G) :
  zlen sni < 65000 -> exists random key,
    zlen random = 32 /\ zlen key = 32 /\ fst (build_client_hello sni rng) = enc_client_hello (probe_hello sni random key).
Proof.
  intros Hs. unfold build_client_hello, gen_key_share. pose proof (rng_bytes_len rng 32 ltac:(lia)) as Hr.
  destruct (rng_bytes rng 32) as [random rng1]. cbn [fst] in Hr. pose proof (rng_bytes_len rng1 32 ltac:(lia)) as Hk.
  destruct (rng_bytes rng1 32) as [key rng2]. cbn [fst] in Hk. exists random, key. split; [done|]. split; [done|]. cbn [fst].
  pose proof (zlen_nonneg sni). destruct (pad_extensions_eq sni key Hs Hk) as [-> L]. cbv zeta in L.
  set (exts := enc_extensions _) in *. assert (zlen exts < 65100) as Hl by (rewrite L; destruct (zlen sni <? 77); lia).
  pose proof (zlen_nonneg exts). unfold enc_client_hello.
  assert (hello_body (probe_hello sni random key) =
    [0x03; 0x03] ++ random ++ [0] ++ be_bytes 2 (u16 (zlen probe_cipher_suites)) ++ probe_cipher_suites ++ [1; 0] ++ be_bytes 2 (u16 (zlen exts)) ++ exts) as ->.
  { unfold hello_body, hello_prefix, probe_hello, u16. cbn [ch_version ch_random ch_session_id ch_cipher_suites ch_compression ch_extensions].
    fold exts. rewrite (Z.mod_small (zlen exts)) by lia. by rewrite <-!app_assoc. }
  set (body := [3; 3] ++ _). assert (zlen body = 51 + zlen exts) as Lb.
  { unfold body. rewrite !zlen_app, !zlen_be_bytes, Hr. change (zlen [3; 3]) with 2. change (zlen [0]) with 1.
    change (zlen probe_cipher_suites) with 10. change (zlen [1; 0]) with 2. lia. }
  cbv zeta. unfold u32. rewrite (Z.mod_small (zlen body)), be_bytes_3 by lia. unfold u16.
  rewrite (Z.mod_small (zlen ([1] ++ _ ++ body))); [done|]. rewrite !zlen_app, zlen_be_bytes, Lb. change (zlen [1]) with 1. change (Z.of_nat 3) with 3. lia.
Qed.

(** ** The ServerHello is read *)

(** A ServerHello as a server writes it (RFC 8446, 4.1.3). *)
Definition enc_server_hello (h : ParsedServerHello) : bytes :=
  let extensions := enc_extensions ((fun e => (ext_type e, ext_data e)) <$> psh_extensions h) in
  let body :=
    psh_version h ++ psh_random h ++ (zlen (psh_session_id h) :: psh_session_id h) ++ psh_cipher_suite h ++ [psh_compression h] ++
    be_bytes 2 (zlen extensions) ++ extensions in
  [0x02] ++ be_bytes 3 (zlen body) ++ body.

Definition server_hello_ok (h : ParsedServerHello) : Prop :=
  zlen (psh_version h) = 2 /\ zlen (psh_random h) = 32 /\ zlen (psh_session_id h) < 256 /\ zlen (psh_cipher_suite h) = 2 /\
  Forall (fun e => extension_ok (ext_type e, ext_data e)) (psh_extensions h) /\
  zlen (enc_extensions ((fun e => (ext_type e, ext_data e)) <$> psh_extensions h)) < 65536.

(** Reading at a cursor: what is left from there on. *)
Lemma cursor_step (body : bytes) pos n rest : 0 <= pos -> 0 <= n -> zdrop pos body = rest -> zdrop (pos + n) body = zdrop n rest.
Proof. intros Hp Hn <-. rewrite zdrop_zdrop by lia. f_equal. lia. Qed.

Lemma cursor_byte (body : bytes) pos x rest :
  0 <= pos -> zdrop pos body = x :: rest -> zget body pos = Some x /\ zdrop (pos + 1) body = rest.
Proof.
  intros Hp E. pose proof (ztake_zdrop pos body) as Hb. rewrite E in Hb.
  assert (zlen (ztake pos body) = pos) as L.
  { rewrite zlen_ztake. pose proof (f_equal zlen E) as El. rewrite zlen_zdrop, zlen_cons in El. pose proof (zlen_nonneg rest). lia. }
  split; [by rewrite <-Hb, zget_mid|]. by rewrite (cursor_step body pos 1 _ Hp ltac:(lia) E).
Qed.

Lemma cursor_range (body : bytes) pos x rest :
  0 <= pos -> zdrop pos body = x ++ rest -> pos + zlen x <= zlen body ->
  get_range body pos (pos + zlen x) = Some x /\ zdrop (pos + zlen x) body = rest.
Proof.
  intros Hp E Hl. pose proof (zlen_nonneg x). unfold get_range.
  destruct (Z.leb_spec 0 pos); [|lia]. destruct (Z.leb_spec pos (pos + zlen x)); [|lia]. destruct (Z.leb_spec (pos + zlen x) (zlen body)); [|lia].
  cbn [andb]. split; [|by rewrite (cursor_step body pos (zlen x) _ Hp ltac:(lia) E), zdrop_app].
  unfold slice. replace (pos + zlen x - pos) with (zlen x) by lia. by rewrite E, ztake_app.
Qed.

Lemma cursor_two (body : bytes) pos x rest :
  0 <= pos -> zdrop pos body = x ++ rest -> zlen x = 2 -> get_two body pos = Some x /\ zdrop (pos + 2) body = rest.
Proof.
  intros Hp E Hx. destruct x as [|a [|b [|]]]; try (unfold zlen in Hx; cbn in Hx; lia). cbn [app] in E.
  destruct (cursor_byte _ _ _ _ Hp E) as [E1 E2]. destruct (cursor_byte body (pos + 1) b rest ltac:(lia) E2) as [E3 E4].
  unfold get_two. rewrite E1. cbn [mbind option_bind]. rewrite E3. split; [done|]. by replace (pos + 2) with (pos + 1 + 1) by lia.
Qed.

Lemma server_extensions_read (body : bytes) ext_end rest es : forall fuel pos acc,
  Forall (fun e => extension_ok (ext_type e, ext_data e)) es -> 0 <= pos ->
  zdrop pos body = enc_extensions ((fun e => (ext_type e, ext_data e)) <$> es) ++ rest ->
  ext_end = pos + zlen (enc_extensions ((fun e => (ext_type e, ext_data e)) <$> es)) -> ext_end <= zlen body -> (length es < fuel)%nat ->
  server_extensions fuel body pos ext_end acc = Some (acc ++ es).
Proof.
  induction es as [|[t d] es IH]; intros fuel pos acc Hok Hp E He Hl Hf; (destruct fuel as [|fuel]; [cbn in Hf; lia|]); cbn [server_extensions].
  { change (zlen (enc_extensions _)) with 0 in He. destruct (Z.leb_spec (pos + 4) ext_end); [lia|]. by rewrite app_nil_r. }
  apply Forall_cons in Hok as [[Ht Hd] Hok]. cbn [ext_type ext_data fst snd] in *. set (f := fun e => (ext_type e, ext_data e)) in *.
  change (enc_extensions (f <$> mkTlsExtension t d :: es)) with (enc_extension (t, d) ++ enc_extensions (f <$> es)) in *.
  rewrite zlen_app, zlen_enc_extension in He. cbn [snd] in He. pose proof (zlen_nonneg d). pose proof (zlen_nonneg (enc_extensions (f <$> es))).
  destruct (Z.leb_spec (pos + 4) ext_end); [|lia]. unfold enc_extension in E. cbn [fst snd] in E. rewrite <-!app_assoc in E.
  destruct (cursor_two _ _ _ _ Hp E (zlen_be_bytes 2 t)) as [-> E1]. cbn [mbind option_bind].
  destruct (cursor_two _ (pos + 2) _ _ ltac:(lia) E1 (zlen_be_bytes 2 (zlen d))) as [-> E2]. cbn [mbind option_bind].
  rewrite !be_val_be_bytes_small by (change (256 ^ Z.of_nat 2) with 65536; lia). replace (pos + 2 + 2) with (pos + 4) in E2 by lia.
  destruct (cursor_range _ (pos + 4) d _ ltac:(lia) E2 ltac:(lia)) as [-> E3]. cbn [mbind option_bind].
  rewrite (IH fuel (pos + 4 + zlen d)); [by rewrite <-app_assoc|done|lia|exact E3|lia|lia|cbn in Hf; lia].
Qed.

Lemma length_extensions es : (length es <= length (enc_extensions es))%nat.
Proof.
  induction es as [|e es IH]; [done|]. change (enc_extensions (e :: es)) with (enc_extension e ++ enc_extensions es).
  rewrite length_app. pose proof (zlen_enc_extension e). pose proof (zlen_nonneg (snd e)). unfold zlen in *. cbn [length]. lia.
Qed.

Lemma be_val_0 l : be_val (0 :: l) = be_val l.
Proof. unfold be_val. rewrite reverse_cons, le_val_app. cbn [le_val]. lia. Qed.

Lemma parse_server_hello_read h rest : server_hello_ok h -> parse_server_hello (enc_server_hello h ++ rest) = Some h.
Proof.
  destruct h as [v r sid cs c es]. unfold server_hello_ok, enc_server_hello.
  cbn [psh_version psh_random psh_session_id psh_cipher_suite psh_compression psh_extensions].
  set (f := fun e => (ext_type e, ext_data e)). set (exts := enc_extensions (f <$> es)). intros (Hv & Hr & Hs & Hc & Hes & Hx).
  pose proof (zlen_nonneg sid). pose proof (zlen_nonneg exts). pose proof (zlen_nonneg rest).
  set (hello := v ++ _). set (body := (_ ++ _ ++ hello) ++ rest).
  assert (zlen hello = 40 + zlen sid + zlen exts) as Lh.
  { unfold hello. rewrite !zlen_app, zlen_cons, zlen_be_bytes, Hv, Hr, Hc. change (zlen [c]) with 1. lia. }
  assert (zlen body = 44 + zlen sid + zlen exts + zlen rest) as L.
  { unfold body. rewrite !zlen_app, zlen_be_bytes, Lh. change (zlen [2]) with 1. lia. }
  assert (zdrop 0 body = 2 :: be_bytes 3 (zlen hello) ++ hello ++ rest) as E by (unfold body; rewrite zdrop_0 by lia; by rewrite <-!app_assoc).
  destruct (cursor_byte _ 0 _ _ ltac:(lia) E) as [E0 E1]. destruct (cursor_range _ 1 _ _ ltac:(lia) E1 ltac:(rewrite zlen_be_bytes; lia)) as [Em E2].
  rewrite zlen_be_bytes in Em, E2. change (1 + Z.of_nat 3) with 4 in *. unfold hello in E2. rewrite <-!app_assoc in E2.
  destruct (cursor_two _ 4 _ _ ltac:(lia) E2 Hv) as [Ev E3]. destruct (cursor_range _ 6 _ _ ltac:(lia) E3 ltac:(lia)) as [Er E4]. rewrite Hr in Er, E4.
  cbn [app] in E4. destruct (cursor_byte _ 38 _ _ ltac:(lia) E4) as [El E5]. destruct (cursor_range _ 39 _ _ ltac:(lia) E5 ltac:(lia)) as [Es E6].
  destruct (cursor_two _ (39 + zlen sid) _ _ ltac:(lia) E6 Hc) as [Ec E7]. change ([c] ++ _) with (c :: be_bytes 2 (zlen exts) ++ exts ++ rest) in E7.
  destruct (cursor_byte _ (39 + zlen sid + 2) _ _ ltac:(lia) E7) as [Eo E8].
  destruct (cursor_two _ (39 + zlen sid + 2 + 1) _ _ ltac:(lia) E8 (zlen_be_bytes 2 _)) as [Ex E9].
  unfold parse_server_hello. destruct (Z.ltb_spec (zlen body) 4); [lia|]. rewrite E0. rewrite bool_decide_true by done. cbn [negb orb].
  replace (slice body 1 4) with (be_bytes 3 (zlen hello)) by (unfold get_range in Em; case_match; congruence).
  rewrite be_val_0, be_val_be_bytes_small by (change (256 ^ Z.of_nat 3) with 16777216; lia).
  change (6 + 32) with 38 in Er. cbv zeta. change (4 + 2) with 6. change (6 + 32) with 38. change (38 + 1) with 39.
  rewrite Ev. cbn [mbind option_bind]. rewrite Er. cbn [mbind option_bind]. rewrite El. cbn [mbind option_bind]. rewrite Es.
  cbn [mbind option_bind]. rewrite Ec. cbn [mbind option_bind]. rewrite Eo. cbn [mbind option_bind]. rewrite Ex. cbn [mbind option_bind].
  rewrite be_val_be_bytes_small by (change (256 ^ Z.of_nat 2) with 65536; lia).
  destruct (Z.ltb_spec (zlen body) (zlen hello + 4)); [lia|]. destruct (Z.ltb_spec (zlen body) (39 + zlen sid + 2 + 1 + 2 + zlen exts)); [lia|].
  rewrite (server_extensions_read body (39 + zlen sid + 2 + 1 + 2 + zlen exts) rest es); [done|done|lia|exact E9|done|lia|].
  pose proof (length_extensions (f <$> es)) as Le. rewrite length_fmap in Le. fold exts in Le. unfold zlen in *. lia.
Qed.

(** ** The records that follow *)

#[local] Open Scope rio_scope.

Lemma read_tls_record_wp `{AsyncReadOk R} (r : R) rec rest :
  rd_ok r -> 0 <= zlen rec.2 < 65536 -> rd_bytes r = record_bytes rec ++ rest ->
  rio_wp read_tls_record r (fun a r' => a = Ok rec /\ rd_ok r' /\ rd_bytes r' = rest).
Proof.
  destruct rec as [t d]. cbn [fst snd]. intros Hr Hd Hb. unfold read_tls_record.
  set (hdr := [t] ++ TLS_VERSION ++ be_bytes 2 (zlen d)).
  apply (rio_wp_read r 5 hdr (d ++ rest)); [done|by rewrite Hb; unfold hdr, record_bytes; cbn [fst snd]; rewrite <-!app_assoc|done|].
  intros r1 Hr1 Hb1. change (slice hdr 3 5) with (be_bytes 2 (zlen d)).
  rewrite be_val_be_bytes_small by (change (256 ^ Z.of_nat 2) with 65536; lia).
  apply (rio_wp_read r1 (zlen d) d rest); [done..|]. intros r2 Hr2 Hb2. by apply rio_wp_ret.
Qed.

#[local] Close Scope rio_scope.

Definition has_app (records : list (Z * bytes)) : bool := existsb (fun rec => rec.1 =? TLS_RECORD_APPLICATION) records.

(** The records that are read: three when there is application data among them, else four. *)
Definition probe_records (rs : list (Z * bytes)) : Prop := zlen rs = 3 /\ has_app rs = true \/ zlen rs = 4 /\ has_app (take 3 rs) = false.
Definition record_ok (rec : Z * bytes) : Prop := zlen rec.2 < 65536.

Lemma read_records_step `{AsyncReadOk R} turns late i records (r : R) rec rest :
  late i = false -> rd_ok r -> record_ok rec -> rd_bytes r = record_bytes rec ++ rest ->
  exists r', rd_ok r' /\ rd_bytes r' = rest /\
    read_records (S turns) late i records r =
      if (3 <=? zlen (records ++ [rec])) && has_app (records ++ [rec]) then Ok (records ++ [rec])
      else read_records turns late (S i) (records ++ [rec]) r'.
Proof.
  intros Hl Hr Hok Hb. pose proof (zlen_nonneg rec.2). destruct (read_tls_record_wp r rec rest Hr ltac:(done) Hb) as (a & r' & E & -> & Hr' & Hb').
  exists r'. split; [done|]. split; [done|]. cbn [read_records]. by rewrite Hl, E.
Qed.

Lemma read_records_all `{AsyncReadOk R} (late : nat -> bool) (r : R) rs rest :
  probe_records rs -> Forall record_ok rs -> rd_ok r -> rd_bytes r = concat (map record_bytes rs) ++ rest ->
  (forall i, (i < 4)%nat -> late i = false) -> read_records 4 late 0 [] r = Ok rs.
Proof.
  intros Hp Hok Hr Hb Hl.
  destruct rs as [|a [|b [|c rs]]]; try (destruct Hp as [[Hp _]|[Hp _]]; unfold zlen in Hp; cbn in Hp; lia).
  apply Forall_cons in Hok as [Ha [Hb' [Hc Hok]%Forall_cons]%Forall_cons]. cbn [map concat] in Hb. rewrite <-!app_assoc in Hb.
  destruct (read_records_step 3 late 0 [] r a _ (Hl 0%nat ltac:(lia)) Hr Ha Hb) as (r1 & Hr1 & Hb1 & ->). cbn [app].
  change (3 <=? zlen [a]) with false. cbn [andb].
  destruct (read_records_step 2 late 1 [a] r1 b _ (Hl 1%nat ltac:(lia)) Hr1 Hb' Hb1) as (r2 & Hr2 & Hb2 & ->). cbn [app].
  change (3 <=? zlen [a; b]) with false. cbn [andb].
  destruct (read_records_step 1 late 2 [a; b] r2 c _ (Hl 2%nat ltac:(lia)) Hr2 Hc Hb2) as (r3 & Hr3 & Hb3 & ->). cbn [app].
  change (3 <=? zlen [a; b; c]) with true. cbn [andb]. destruct Hp as [[Hn Ha3]|[Hn Ha3]].
  - assert (rs = []) as -> by (destruct rs; [done|unfold zlen in Hn; cbn in Hn; lia]). by rewrite Ha3.
  - change (take 3 (a :: b :: c :: rs)) with [a; b; c] in Ha3. rewrite Ha3. destruct rs as [|x [|]]; try (unfold zlen in Hn; cbn in Hn; lia).
    apply Forall_cons in Hok as [Hx _]. cbn [map concat] in Hb3. rewrite <-!app_assoc in Hb3.
    destruct (read_records_step 0 late 3 [a; b; c] r3 x _ (Hl 3%nat ltac:(lia)) Hr3 Hx Hb3) as (r4 & _ & _ & ->). by case_match.
Qed.

(** The sizes of the application data records. *)
Definition app_sizes_of (rs : list (Z * bytes)) : list Z := zlen ∘ snd <$> filter (fun rec => rec.1 = TLS_RECORD_APPLICATION) rs.

Lemma scan_after_hello h rs : forall sizes, scan_records rs (Some h) sizes = (Some h, sizes ++ app_sizes_of rs).
Proof.
  induction rs as [|[t d] rs IH]; intros sizes; [by rewrite app_nil_r|]. cbn [scan_records]. rewrite andb_false_r. unfold app_sizes_of.
  rewrite filter_cons. cbn [fst]. destruct (Z.eqb_spec t TLS_RECORD_APPLICATION).
  - rewrite decide_True by done. rewrite IH. cbn [fmap list_fmap]. by rewrite <-app_assoc.
  - rewrite decide_False by done. apply IH.
Qed.

(** What the probe learns from the records. *)
Definition probe_result (h : ParsedServerHello) (rs : list (Z * bytes)) : TlsFetchResult :=
  let sizes := app_sizes_of rs in
  let total := Z.max (foldr Z.add 0 sizes) 1024 in
  mkTlsFetchResult h (if decide (sizes = []) then [total] else sizes) total None None.

Lemma raw_result_eq h more rs :
  server_hello_ok h -> raw_result ((TLS_RECORD_HANDSHAKE, enc_server_hello h ++ more) :: rs) = Ok (probe_result h rs).
Proof.
  intros Hh. unfold raw_result. cbn [scan_records]. rewrite Z.eqb_refl, (parse_server_hello_read h more Hh), scan_after_hello. done.
Qed.

Lemma write_parts_healthy parts : forall w, healthy w -> exists w', write_parts w parts = Some (Ok tt, w') /\ w_sink w' = w_sink w ++ concat parts.
Proof.
  induction parts as [|part parts IH]; intros w Hw; cbn [write_parts concat].
  - destruct (flush_await_healthy (S (length (w_flush w))) w Hw ltac:(lia)) as (w' & E & Hs & _). exists w'. by rewrite app_nil_r.
  - destruct (write_all_healthy (length (w_script w) + 2) w part Hw ltac:(lia)) as (w1 & -> & Hs & Hw1 & _).
    destruct (IH w1 Hw1) as (w' & E & Hs'). exists w'. split; [done|]. by rewrite Hs', Hs, <-app_assoc.
Qed.

Lemma raw_probe_runs `{AsyncReadOk R} `{RngOk G} late (r : R) w sni proxy_protocol (rng : G) h more rs rest :
  healthy w -> rd_ok r -> (forall i, (i < 4)%nat -> late i = false) -> server_hello_ok h ->
  let hello := (TLS_RECORD_HANDSHAKE, enc_server_hello h ++ more) in
  probe_records (hello :: rs) -> Forall record_ok (hello :: rs) -> rd_bytes r = concat (map record_bytes (hello :: rs)) ++ rest ->
  exists w', fetch_via_raw_tls_stream false late (r, w) sni proxy_protocol rng = (Ok (probe_result h rs), Some w') /\
    w_sink w' = w_sink w ++ concat (probe_header proxy_protocol) ++ (build_client_hello sni rng).1.
Proof.
  intros Hw Hr Hl Hh hello Hp Hok Hb. unfold fetch_via_raw_tls_stream. destruct (build_client_hello sni rng) as [client_hello rng'].
  destruct (write_parts_healthy (probe_header proxy_protocol ++ [client_hello]) w Hw) as (w' & -> & Hsink).
  rewrite (read_records_all late r _ rest Hp Hok Hr Hb Hl). exists w'. cbn [mbind result_bind]. unfold hello.
  rewrite raw_result_eq by done. split; [done|]. rewrite Hsink, concat_app. cbn [concat]. by rewrite app_nil_r.
Qed.

(** C32: The probe of a real server.  Over a connection that does not fail it sends the PROXY header asked for and one
    ClientHello that carries the server's name and the one protocol, as the proxy's own parser reads them.  When the server answers
    in time with a record that begins with a ServerHello and two or three more, the probe gives that ServerHello, field by field, and the sizes of
    the application data records, in order. *)
Theorem raw_probe_spec `{AsyncReadOk R} `{RngOk G} late (r : R) w sni proxy_protocol (rng : G) h more rs rest :
  0 < zlen sni < 65000 -> utf8_valid sni = true -> healthy w -> rd_ok r -> (forall i, (i < 4)%nat -> late i = false) -> server_hello_ok h ->
  let hello := (TLS_RECORD_HANDSHAKE, enc_server_hello h ++ more) in
  probe_records (hello :: rs) -> Forall record_ok (hello :: rs) -> rd_bytes r = concat (map record_bytes (hello :: rs)) ++ rest ->
  exists w' client_hello,
    fetch_via_raw_tls_stream false late (r, w) sni proxy_protocol rng = (Ok (probe_result h rs), Some w') /\
    w_sink w' = w_sink w ++ concat (probe_header proxy_protocol) ++ client_hello /\
    extract_sni_from_client_hello client_hello = Done (Some sni) /\
    extract_alpn_from_client_hello client_hello = Done [str "http/1.1"].
Proof.
  intros Hs Hu Hw Hr Hl Hh hello Hp Hok Hb. destruct (build_client_hello_eq sni rng ltac:(lia)) as (random & key & Lr & Lk & Eh).
  destruct (raw_probe_runs late r w sni proxy_protocol rng h more rs rest) as (w' & E & Hsink); [done..|].
  exists w', (build_client_hello sni rng).1. split; [done|]. split; [done|].
  pose proof (probe_hello_ok sni random key ltac:(lia) Lr Lk) as Hc. rewrite Eh. split.
  - by apply (hello_sni_found _ [] sni (tail (ch_extensions (probe_hello sni random key)))); [..|lia|].
  - by apply (hello_alpn_found _ (take 5 (probe_base sni key)) [str "http/1.1"] (probe_padding (99 + zlen sni))); [| |repeat constructor|].
Qed.

Lemma merge_probed rustls h rs :
  exists f, merge_fetched rustls (Ok (probe_result h rs)) = Ok f /\ fr_server_hello_parsed f = h /\
    (if decide (fr_app_data_records_sizes f = []) then [Z.max (fr_total_app_data_len f) 1024] else fr_app_data_records_sizes f) =
      (if decide (app_sizes_of rs = []) then [1024] else app_sizes_of rs) /\
    fr_cert_payload f = match rustls with Ok f => fr_cert_payload f | Err _ => None end.
Proof.
  assert ((if decide (fr_app_data_records_sizes (probe_result h rs) = []) then [Z.max (fr_total_app_data_len (probe_result h rs)) 1024]
    else fr_app_data_records_sizes (probe_result h rs)) = (if decide (app_sizes_of rs = []) then [1024] else app_sizes_of rs)) as E.
  { unfold probe_result. cbn [fr_app_data_records_sizes]. destruct (decide (app_sizes_of rs = [])) as [->|]; [done|by rewrite decide_False]. }
  destruct rustls as [f|e]; eexists; (split; [done|]); done.
Qed.

Section Learn.
Context (from_der : bytes -> option X509) (valid_name : bytes -> bool).

(** C33: What the proxy learns is what it imitates.  After a fetch whose probe was answered in time, and whose other
    connection ended in whatever way, the cache holds for the domain, and for no other, the version, cipher suite, compression
    and record sizes of the real server with the certificates of the other connection; and every answer built from it verifies for
    a client with the secret and shows that version, suite and compression and those sizes, up to the jitter. *)
Theorem emulation_follows_server `{AsyncReadOk R} `{RngOk G} `{DigestsOk}
    (tls_connect : bytes -> R * upstream_w -> option (result FetchError (option Z * list bytes)))
    store d d' late (r : R) w host port sni upstream proxy_protocol unix_sock (rng : G) rustls h more rs rest self now :
  0 < zlen sni < 65000 -> healthy w -> rd_ok r -> (forall i, (i < 4)%nat -> late i = false) -> server_hello_ok h ->
  let hello := (TLS_RECORD_HANDSHAKE, enc_server_hello h ++ more) in
  probe_records (hello :: rs) -> Forall record_ok (hello :: rs) -> rd_bytes r = concat (map record_bytes (hello :: rs)) ++ rest ->
  connect_fetch store d host port upstream unix_sock = Ok (r, w) ->
  fetch_via_rustls from_der valid_name tls_connect store d' host port sni upstream proxy_protocol unix_sock = Some rustls ->
  exists fetched,
    fetch_real_tls from_der valid_name tls_connect store d d' false late host port sni upstream proxy_protocol unix_sock rng = Some (Ok fetched) /\
    let self' := (update_from_fetch self sni fetched now).1 in
    let cached := cache_get self' sni in
    (forall other, other <> sni -> cache_get self' other = cache_get self other) /\
    cert_payload cached = match rustls with Ok f => fr_cert_payload f | Err _ => None end /\
    emulated_profile cached =
      mkHelloProfile (psh_version h) (if decide (psh_cipher_suite h = [0; 0]) then [0x13; 0x01] else psh_cipher_suite h) (psh_compression h) /\
    profile_sizes cached = (if decide (app_sizes_of rs = []) then [1024] else app_sizes_of rs) /\
    forall secret client_digest session_id full alpn tickets (rng' : G),
      zlen session_id < 256 -> (forall p, alpn = Some p -> zlen p < 256) -> 0 <= tickets ->
      emulated_answer secret client_digest session_id cached full alpn tickets
        (fst (build_emulated_server_hello secret client_digest session_id cached full rng' alpn tickets)).
Proof.
  intros Hs Hw Hr Hl Hh hello Hp Hok Hb Hd Hd'.
  destruct (raw_probe_runs late r w sni proxy_protocol rng h more rs rest) as (w' & E & _); [done..|].
  unfold fetch_real_tls, fetch_via_raw_tls. rewrite Hd, Hd', E. cbn [mbind option_bind fst].
  destruct (merge_probed rustls h rs) as (f & -> & Ef & Hsizes & Hcert). exists f. split; [done|].
  unfold update_from_fetch, cache_get, cache_set. cbn [fst memory default_entry]. rewrite lookup_insert_eq. cbn [default].
  split; [intros other Hne; by rewrite lookup_insert_ne|]. cbn [cert_payload]. split; [done|].
  split; [unfold emulated_profile, emulated_cipher; cbn [server_hello_template]; by rewrite Ef|].
  split; [done|]. intros. apply emulated_hello_verifies; [|done..]. unfold template_ok. cbn [server_hello_template].
  rewrite Ef. by destruct Hh as (? & _ & _ & ? & _).
Qed.

End Learn.

(** ** Examples *)

Import Crypto.Demo Random.DemoRng.

Definition demo_server_hello : ParsedServerHello :=
  mkParsedServerHello [3; 3] (zrepeat 32 7) [] [0x13; 0x02] 0 [mkTlsExtension 43 [3; 4]].
Definition demo_follow : list (Z * bytes) := [(TLS_RECORD_CHANGE_CIPHER, [1]); (TLS_RECORD_APPLICATION, zrepeat 600 9)].
Definition demo_records : list (Z * bytes) := (TLS_RECORD_HANDSHAKE, enc_server_hello demo_server_hello ++ []) :: demo_follow.
Definition demo_reader : upstream_r := [RdPending; RdData (concat (map record_bytes demo_records))].
Definition demo_dial : Dialing (upstream_r * upstream_w) :=
  mkDialing (fun _ => None) (fun _ => None) None (fun _ => Some (Ok (demo_reader, mkUpW [] [] []))).

(** A second application data record is not waited for, and a server that says nothing after the connection is
    awaited for ever. *)
Example demo_third_record : forall late, (forall i, late i = false) ->
  read_records 4 late 0 [] [RdData (concat (map record_bytes (demo_records ++ [(TLS_RECORD_APPLICATION, [1])])))] = Ok demo_records.
Proof. intros late Hl. cbn [read_records]. rewrite !Hl. vm_compute. reflexivity. Qed.

Example demo_silent_server late rng :
  fetch_real_tls (fun _ => None) (fun _ => true) (fun _ (_ : upstream_r * upstream_w) => None) ∅ demo_dial demo_dial false late (str "a.b") 443 (str "a.b") false
    0 None (rng : Z) = None.
Proof. reflexivity. Qed.

Lemma demo_fetched_ok : probe_records demo_records /\ Forall record_ok demo_records /\ server_hello_ok demo_server_hello.
Proof.
  split; [by left|]. split; [by repeat (apply Forall_cons_2; [done|])|]. unfold server_hello_ok. split_and!; try done.
  apply Forall_cons_2; [|by apply Forall_nil_2]. by split.
Qed.

Lemma raw_probe_spec_witness :
  exists w' client_hello,
    fetch_via_raw_tls_stream false (fun _ => false) (demo_reader, mkUpW [] [] []) (str "a.b") 2 (5 : Z) =
      (Ok (probe_result demo_server_hello demo_follow), Some w') /\
    w_sink w' = [] ++ concat (probe_header 2) ++ client_hello /\
    extract_sni_from_client_hello client_hello = Done (Some (str "a.b")) /\
    extract_alpn_from_client_hello client_hello = Done [str "http/1.1"].
Proof.
  destruct demo_fetched_ok as (H1 & H2 & H3).
  apply (raw_probe_spec (fun _ => false) demo_reader (mkUpW [] [] []) (str "a.b") 2 (5 : Z) demo_server_hello [] demo_follow []);
    [by vm_compute|reflexivity|by repeat constructor|reflexivity|reflexivity|exact H3|exact H1|exact H2|].
  rewrite app_nil_r. cbn [rd_bytes script_read_ok demo_reader up_bytes]. apply app_nil_r.
Defined.

Lemma emulation_follows_server_witness :
  exists fetched,
    fetch_real_tls (fun _ => None) (fun _ => true) (fun _ _ => Some (Err FE_Tls)) ∅ demo_dial demo_dial false (fun _ => false) (str "a.b") 443 (str "a.b")
      false 0 None (5 : Z) = Some (Ok fetched) /\
    profile_sizes (cache_get (update_from_fetch (TlsFrontCache_new [] 1024 (str "tlsfront") 0) (str "a.b") fetched 9).1 (str "a.b")) = [600].
Proof.
  destruct demo_fetched_ok as (H1 & H2 & H3).
  destruct (emulation_follows_server (fun _ => None) (fun _ => true) (fun _ _ => Some (Err FE_Tls)) ∅ demo_dial demo_dial (fun _ => false)
    demo_reader (mkUpW [] [] []) (str "a.b") 443 (str "a.b") false 0 None (5 : Z) (Err FE_Tls) demo_server_hello [] demo_follow []
    (TlsFrontCache_new [] 1024 (str "tlsfront") 0) 9) as (fetched & E & _ & _ & _ & Es & _);
    [by vm_compute|by repeat constructor|reflexivity|reflexivity|exact H3|exact H1|exact H2| |reflexivity|reflexivity|].
  - rewrite app_nil_r. cbn [rd_bytes script_read_ok demo_reader up_bytes]. apply app_nil_r.
  - exists fetched. split; [exact E|]. rewrite Es. reflexivity.
Defined.
