(* ===== verification/MeHandshake.v ===== *)
(** * The middle-proxy handshake: [transport/middle_proxy/handshake.rs], the key derivation of
    [crypto/hash.rs] and the proxy secret of [pool.rs] and [pool_config.rs]

    The proxy sends a nonce, checks the middle proxy's nonce, derives the keys of both directions
    from the nonces, the secret and the addresses of both ends, sends its encrypted handshake frame
    and waits for the middle proxy's.  Clocks, the random nonce, the HTTP and STUN services and the
    sockets are what the call observes ([HsEnv], [HsConn]). *)

From stdpp Require Import gmap.
From S2P Require Import Prelude NetAddr Errors Crypto Constants AsyncIo RpcCodec Stun NetProbe MeNat Stats Wire.

(** ** The key derivation (hash.rs:63-149) *)

Section Kdf.
Context `{Digests}.

Definition EMPTY_IP : bytes := [0; 0; 0; 0].

Definition build_middleproxy_prekey (nonce_srv nonce_clt clt_ts : bytes) (srv_ip : option bytes) (clt_port purpose : bytes)
    (clt_ip : option bytes) (srv_port secret : bytes) (clt_ipv6 srv_ipv6 : option bytes) : bytes :=
  let srv_ip := default EMPTY_IP srv_ip in
  let clt_ip := default EMPTY_IP clt_ip in
  let s := nonce_srv in
  let s := s ++ nonce_clt in
  let s := s ++ clt_ts in
  let s := s ++ srv_ip in
  let s := s ++ clt_port in
  let s := s ++ purpose in
  let s := s ++ clt_ip in
  let s := s ++ srv_port in
  let s := s ++ secret in
  let s := s ++ nonce_srv in
  let s := match clt_ipv6, srv_ipv6 with Some clt_v6, Some srv_v6 => (s ++ clt_v6) ++ srv_v6 | _, _ => s end in
  s ++ nonce_clt.

Definition derive_middleproxy_keys (nonce_srv nonce_clt clt_ts : bytes) (srv_ip : option bytes) (clt_port purpose : bytes)
    (clt_ip : option bytes) (srv_port secret : bytes) (clt_ipv6 srv_ipv6 : option bytes) : bytes * bytes :=
  let s := build_middleproxy_prekey nonce_srv nonce_clt clt_ts srv_ip clt_port purpose clt_ip srv_port secret clt_ipv6 srv_ipv6 in
  let md5_1 := md5 (zdrop 1 s) in
  let sha1_sum := sha1 s in
  let md5_2 := md5 (zdrop 2 s) in
  let key := zrepeat 32 0 in
  let key := splice key 0 (ztake 12 md5_1) in
  let key := splice key 12 sha1_sum in
  (key, md5_2).

End Kdf.

(** ** The proxy secret (pool.rs:63-68, 243-256, pool_config.rs:78-101) *)

Record SecretSnapshot := mkSecretSnapshot { ss_epoch : Z; ss_key_selector : Z; ss_secret : bytes }.

Definition key_selector_of (secret : bytes) : Z := if 4 <=? zlen secret then le_val (slice secret 0 4) else 0.

Definition SecretSnapshot_new (proxy_secret : bytes) : SecretSnapshot :=
  mkSecretSnapshot 1 (key_selector_of proxy_secret) proxy_secret.

(** [true]: the secret changed, and every connection is made anew. *)
Definition update_secret (guard : SecretSnapshot) (new_secret : bytes) : bool * SecretSnapshot :=
  if zlen new_secret <? 32 then (false, guard)
  else if negb (bool_decide (ss_secret guard = new_secret)) then
    (true, mkSecretSnapshot (Z.min (ss_epoch guard + 1) (2 ^ 64 - 1)) (key_selector_of new_secret) new_secret)
  else (false, guard).

(** ** Routes (upstream.rs:160-174, config/types.rs:109-131, handshake.rs:41-56, 86-168) *)

Inductive UpstreamRouteKind := Direct | Socks4 | Socks5.

Record UpstreamEgressInfo := mkEgress {
  route_kind : UpstreamRouteKind;
  eg_local_addr : option SocketAddr;
  direct_bind_ip : option IpAddr;
  socks_bound_addr : option SocketAddr;
  socks_proxy_addr : option SocketAddr
}.

Inductive MeSocksKdfPolicy := Strict | Compat.
Definition MeSocksKdfPolicy_as_u8 (self : MeSocksKdfPolicy) : Z := match self with Strict => 0 | Compat => 1 end.
Definition MeSocksKdfPolicy_from_u8 (raw : Z) : MeSocksKdfPolicy := if raw =? 1 then Compat else Strict.

Inductive KdfClientPortSource := LocalSocket | SocksBound.
Definition from_socks_bound_port (socks_bound_port : option Z) : KdfClientPortSource :=
  match socks_bound_port with Some _ => SocksBound | None => LocalSocket end.

(** The map of a family, in the order it is iterated. *)
Fixpoint resolve_dc_idx (map : list (Z * list (IpAddr * Z))) (addr : SocketAddr) : option Z :=
  match map with
  | [] => None
  | (dc, addrs) :: map =>
      if existsb (fun a => bool_decide (mkSocketAddr a.1 a.2 = addr)) addrs then
        let abs_dc := Z.abs dc in
        if (0 <? abs_dc) && (abs_dc <? 2 ^ 15) then Some abs_dc else resolve_dc_idx map addr
      else resolve_dc_idx map addr
  end.
Definition resolve_dc_idx_for_endpoint (map_v4 map_v6 : list (Z * list (IpAddr * Z))) (addr : SocketAddr) : option Z :=
  if is_ipv4 (sa_ip addr) then resolve_dc_idx map_v4 addr else resolve_dc_idx map_v6 addr.

Definition direct_bind_ip_for_stun (family : IpFamily) (upstream_egress : option UpstreamEgressInfo) : option IpAddr :=
  match upstream_egress with
  | None => None
  | Some info =>
      match route_kind info with
      | Direct =>
          match family, direct_bind_ip info with
          | FamV4, Some (V4 ip) => Some (V4 ip)
          | FamV6, Some (V6 ip) => Some (V6 ip)
          | _, _ => None
          end
      | _ => None
      end
  end.

Definition family_matches (family : IpFamily) (ip : IpAddr) : bool :=
  match family, ip with FamV4, V4 _ | FamV6, V6 _ => true | _, _ => false end.

Definition select_socks_bound_addr (family : IpFamily) (upstream_egress : option UpstreamEgressInfo) : option SocketAddr :=
  match upstream_egress with
  | None => None
  | Some info =>
      match route_kind info with
      | Direct => None
      | Socks4 | Socks5 =>
          match socks_bound_addr info with
          | None => None
          | Some bound =>
              if negb (family_matches family (sa_ip bound)) || is_bogon (sa_ip bound) || ip_is_unspecified (sa_ip bound)
              then None else Some bound
          end
      end
  end.

Definition is_socks_route (upstream_egress : option UpstreamEgressInfo) : bool :=
  match route_kind <$> upstream_egress with Some (Socks4 | Socks5) => true | _ => false end.

(** ** The state of a handshake *)

(** The fields of [MePool] the handshake uses; [hp_kdf] is [kdf_material_fingerprint]. *)
Record HsPool := mkHsPool {
  hp_nat : NatState;
  hp_nat_probe : bool;
  hp_socks_kdf_policy : MeSocksKdfPolicy;
  hp_secret_atomic_snapshot : bool;
  hp_stats : Stats;
  hp_kdf : gmap SocketAddr (Z * Z)
}.

Definition with_nat (p : HsPool) (n : NatState) : HsPool :=
  mkHsPool n (hp_nat_probe p) (hp_socks_kdf_policy p) (hp_secret_atomic_snapshot p) (hp_stats p) (hp_kdf p).
Definition with_hs_stats (p : HsPool) (s : Stats) : HsPool :=
  mkHsPool (hp_nat p) (hp_nat_probe p) (hp_socks_kdf_policy p) (hp_secret_atomic_snapshot p) s (hp_kdf p).
Definition with_kdf (p : HsPool) (m : gmap SocketAddr (Z * Z)) : HsPool :=
  mkHsPool (hp_nat p) (hp_nat_probe p) (hp_socks_kdf_policy p) (hp_secret_atomic_snapshot p) (hp_stats p) m.

(** What one call observes: the addresses of its socket, the times around the reflection, the HTTP
    and STUN answers, [rng.bytes(16)], the wall clock, the secret as it is at the two moments the
    call may read it, the process id and the clock of [build_handshake_payload], whether the nonce
    arrives in time, and how many turns of the response loop begin before the deadline. *)
Record HsEnv := mkHsEnv {
  he_local_addr : io_result SocketAddr;
  he_peer_addr : io_result SocketAddr;
  he_now : Z;
  he_later : Z;
  he_fetched : result ProxyError (option bytes);
  he_probe : list bytes -> list (bytes * option SocketAddr);
  he_nonce : bytes;
  he_secs : Z;
  he_secret1 : SecretSnapshot;
  he_secret2 : SecretSnapshot;
  he_pid : Z;
  he_utime : Z;
  he_nonce_in_time : bool;
  he_turns : nat
}.

(** The halves of the stream: what is still to be read, what has been handed to [write_all], and how
    the next writes end (when the list is exhausted they succeed). *)
Record HsConn (R : Type) := mkHsConn { hc_rd : R; hc_sent : bytes; hc_writes : list (option IoError) }.
Arguments mkHsConn {R}.
Arguments hc_rd {R}.
Arguments hc_sent {R}.
Arguments hc_writes {R}.

(** [wr.write_all(data)] and [wr.flush()] *)
Definition hc_write {R} (c : HsConn R) (data : bytes) : io_result unit * HsConn R :=
  match hc_writes c with
  | Some e :: ws => (Err e, mkHsConn (hc_rd c) (hc_sent c) ws)
  | ws => (Ok tt, mkHsConn (hc_rd c) (hc_sent c ++ data) (tail ws))
  end.

(** ** The reflected address (handshake.rs:259-298) *)

Definition reflect (p : HsPool) (env : HsEnv) (family : IpFamily) (egress : option UpstreamEgressInfo)
  : option SocketAddr * HsPool :=
  let bind_ip := direct_bind_ip_for_stun family egress in
  let '(r, n, _) := maybe_reflect_public_addr (hp_nat p) family bind_ip (he_now env) (he_later env) (he_probe env) in
  (r, with_nat p n).

Definition strict_reject : ProxyError :=
  PE_InvalidHandshake "SOCKS route returned no valid BND.ADDR for ME KDF (strict policy)" [].

Definition choose_reflected (p : HsPool) (env : HsEnv) (family : IpFamily) (egress : option UpstreamEgressInfo)
  : result ProxyError (option SocketAddr) * HsPool :=
  match select_socks_bound_addr family egress with
  | Some bound => (Ok (Some bound), p)
  | None =>
      if is_socks_route egress then
        match hp_socks_kdf_policy p with
        | Strict => (Err strict_reject, with_hs_stats p (increment_me_socks_kdf_strict_reject (hp_stats p)))
        | Compat =>
            let p := with_hs_stats p (increment_me_socks_kdf_compat_fallback (hp_stats p)) in
            if hp_nat_probe p then let '(r, p) := reflect p env family egress in (Ok r, p) else (Ok None, p)
        end
      else if hp_nat_probe p then let '(r, p) := reflect p env family egress in (Ok r, p)
      else (Ok None, p)
  end.

(** ** The nonces (handshake.rs:300-360) *)

(** The key selector and the secret: from one snapshot, or from the two reads of the compatible mode. *)
Definition read_secret (p : HsPool) (env : HsEnv) : Z * bytes :=
  if hp_secret_atomic_snapshot p then (ss_key_selector (he_secret1 env), ss_secret (he_secret1 env))
  else (ss_key_selector (he_secret1 env), ss_secret (he_secret2 env)).

Definition abs_diff (a b : Z) : Z := Z.abs (a - b).

Definition check_nonce (ks crypto_ts srv_seq : Z) (srv_nonce_payload : bytes) : result ProxyError bytes :=
  if negb (srv_seq =? -2) then Err (PE_InvalidHandshake "Expected seq=-2, got {srv_seq}" [srv_seq])
  else
    match parse_nonce_payload srv_nonce_payload with
    | Err e => Err e
    | Ok (srv_key_select, schema, srv_ts, srv_nonce) =>
        if negb (schema =? RPC_CRYPTO_AES_U32) then
          Err (PE_InvalidHandshake "Unsupported crypto schema: 0x{schema:x}" [schema])
        else if negb (srv_key_select =? ks) then
          Err (PE_InvalidHandshake "Server key_select 0x{srv_key_select:08x} != client 0x{ks:08x}" [srv_key_select; ks])
        else
          let skew := abs_diff crypto_ts srv_ts in
          if 30 <? skew then
            Err (PE_InvalidHandshake
                   "nonce crypto_ts skew too large: client={crypto_ts}, server={srv_ts}, skew={skew}s" [crypto_ts; srv_ts; skew])
          else Ok srv_nonce
    end.

(** ** The key material (handshake.rs:376-498) *)

Record KdfMaterial := mkKdfMaterial {
  km_srv_ip : option bytes;
  km_clt_ip : option bytes;
  km_clt_v6 : option bytes;
  km_srv_v6 : option bytes;
  km_hs_our_ip : bytes;
  km_hs_peer_ip : bytes
}.

Definition mixed_families : ProxyError :=
  PE_InvalidHandshake "mixed IPv4/IPv6 endpoints are not supported for ME key derivation" [].

Definition kdf_material (peer_addr_nat local_addr_nat : SocketAddr) : result ProxyError KdfMaterial :=
  match extract_ip_material peer_addr_nat, extract_ip_material local_addr_nat with
  | MV4 srv, MV4 clt =>
      let srv := reverse srv in
      let clt := reverse clt in
      Ok (mkKdfMaterial (Some srv) (Some clt) None None clt srv)
  | MV6 srv, MV6 clt =>
      let zero := zrepeat 4 0 in
      Ok (mkKdfMaterial None None (Some clt) (Some srv) zero zero)
  | _, _ => Err mixed_families
  end.

Definition bound_port (bound : option SocketAddr) : option Z :=
  match bound with Some b => if negb (sa_port b =? 0) then Some (sa_port b) else None | None => None end.

Definition CLIENT : bytes := [67; 76; 73; 69; 78; 84].
Definition SERVER : bytes := [83; 69; 82; 86; 69; 82].

Section Handshake.
Context `{Digests} `{BlockCipher}.

(** [DefaultHasher] over the five values. *)
Variable kdf_material_fingerprint :
  IpAddr -> SocketAddr -> option IpAddr -> option IpAddr -> KdfClientPortSource -> Z.

(** The memory of the material used with an endpoint; a change is counted, and not refused
    ([ME_KDF_DRIFT_STRICT] is [false]). *)
Definition ME_KDF_DRIFT_STRICT : bool := false.

Definition note_drift (p : HsPool) (peer_addr_nat : SocketAddr) (fingerprint client_port : Z) : result ProxyError unit * HsPool :=
  let insert p := (Ok tt, with_kdf p (<[peer_addr_nat := (fingerprint, client_port)]> (hp_kdf p))) in
  match hp_kdf p !! peer_addr_nat with
  | Some (prev_fingerprint, prev_client_port) =>
      if negb (prev_fingerprint =? fingerprint) then
        let p := with_hs_stats p (increment_me_kdf_drift_total (hp_stats p)) in
        if ME_KDF_DRIFT_STRICT then (Err (PE_InvalidHandshake "ME KDF material drift detected (strict mode)" []), p)
        else insert p
      else if negb (prev_client_port =? client_port) then
        insert (with_hs_stats p (increment_me_kdf_port_only_drift_total (hp_stats p)))
      else insert p
  | None => insert p
  end.

Definition me_keys (m : KdfMaterial) (srv_nonce my_nonce ts_bytes client_port_bytes purpose server_port_bytes secret : bytes)
  : bytes * bytes :=
  derive_middleproxy_keys srv_nonce my_nonce ts_bytes (km_srv_ip m) client_port_bytes purpose (km_clt_ip m)
    server_port_bytes secret (km_clt_v6 m) (km_srv_v6 m).

(** ** The response (handshake.rs:554-644) *)

Record HsBufs := mkHsBufs { hb_enc : bytes; hb_dec : bytes; hb_iv : bytes }.

(** One frame of the response: the negotiated mode. *)
Definition hs_frame_mode (st : Stats) (frame : bytes) (fl : Z) : result ProxyError RpcChecksumMode * Stats :=
  let pe := fl - 4 in
  let ec := le_val (slice frame pe (pe + 4)) in
  let ac := rpc_crc Crc32 (ztake pe frame) in
  if negb (ec =? ac) then (Err (PE_InvalidHandshake "HS CRC mismatch: 0x{ec:08x} vs 0x{ac:08x}" [ec; ac]), st)
  else
    let hs_payload := slice frame 8 pe in
    if zlen hs_payload <? 4 then (Err (PE_InvalidHandshake "Handshake payload too short" []), st)
    else
      let hs_type := le_val (slice hs_payload 0 4) in
      if hs_type =? RPC_HANDSHAKE_ERROR_U32 then
        let err_code := if 8 <=? zlen hs_payload then i32 (le_val (slice hs_payload 4 8)) else -1 in
        let st := increment_me_handshake_reject_total st in
        let st := increment_me_handshake_error_code st err_code in
        (Err (PE_InvalidHandshake "ME rejected handshake (error={err_code})" [err_code]), st)
      else
        match parse_handshake_flags hs_payload with
        | Err e => (Err e, st)
        | Ok hs_flags =>
            if negb (Z.land hs_flags 0xff =? 0) then
              (Err (PE_InvalidHandshake "Unsupported handshake flags: 0x{hs_flags:08x}" [hs_flags]), st)
            else if negb (Z.land hs_flags (advertised_flags Crc32c) =? 0) then (Ok (from_handshake_flags hs_flags), st)
            else if negb (Z.land hs_flags USE_CRC32C =? 0) then
              (Err (PE_InvalidHandshake "Peer negotiated unsupported CRC flags: 0x{hs_flags:08x}" [hs_flags]), st)
            else (Ok Crc32, st)
        end.

(** [while dec_buf.len() >= 4]: [Ok None] when the frame is not complete yet.  Every turn that stays
    in the loop takes a padding word off the buffer. *)
Fixpoint hs_frames (fuel : nat) (st : Stats) (dec : bytes)
  : option (result ProxyError (option RpcChecksumMode) * Stats * bytes) :=
  match fuel with
  | O => None
  | S fuel =>
      if 4 <=? zlen dec then
        let fl := le_val (slice dec 0 4) in
        if fl =? 4 then hs_frames fuel st (zdrop 4 dec)
        else if negb ((12 <=? fl) && (fl <=? Z.shiftl 1 24)) then
          Some (Err (PE_InvalidHandshake "Bad HS response frame len: {fl}" [fl]), st, dec)
        else if zlen dec <? fl then Some (Ok None, st, dec)
        else
          let '(r, st) := hs_frame_mode st (ztake fl dec) fl in
          Some (match r with Ok m => Ok (Some m) | Err e => Err e end, st, zdrop fl dec)
      else Some (Ok None, st, dec)
  end.

Definition hs_decrypt (rk : bytes) (b : HsBufs) : result ProxyError HsBufs :=
  let blocks := zlen (hb_enc b) / 16 * 16 in
  if 0 <? blocks then
    match cbc_decrypt_inplace rk (hb_iv b) (ztake blocks (hb_enc b)) with
    | Err e => Err e
    | Ok (chunk, iv) => Ok (mkHsBufs (zdrop blocks (hb_enc b)) (hb_dec b ++ chunk) iv)
    end
  else Ok b.

Definition me_closed : ProxyError := PE_Io (mkIoError UnexpectedEof "ME closed during handshake" []).

(** The read loop; what is left in the buffers when the handshake is done is dropped with them. *)
Fixpoint hs_response {R} `{AsyncRead R} (turns : nat) (rk : bytes) (b : HsBufs) (st : Stats) (rd : R)
  : option (result ProxyError (RpcChecksumMode * bytes) * Stats * R) :=
  match turns with
  | O => Some (Err PE_TgHandshakeTimeout, st, rd)
  | S turns =>
      match async_read rd 256 with
      | None => None
      | Some (Err e, rd) => Some (Err (PE_Io e), st, rd)
      | Some (Ok tmp, rd) =>
          if zlen tmp =? 0 then Some (Err me_closed, st, rd)
          else
            match hs_decrypt rk (mkHsBufs (hb_enc b ++ tmp) (hb_dec b) (hb_iv b)) with
            | Err e => Some (Err e, st, rd)
            | Ok b =>
                match hs_frames (S (length (hb_dec b))) st (hb_dec b) with
                | None => None
                | Some (Err e, st, _) => Some (Err e, st, rd)
                | Some (Ok (Some mode), st, _) => Some (Ok (mode, hb_iv b), st, rd)
                | Some (Ok None, st, dec) => hs_response turns rk (mkHsBufs (hb_enc b) dec (hb_iv b)) st rd
                end
            end
      end
  end.

(** ** [handshake_only] (handshake.rs:244-657) *)

Record HandshakeOutput (R : Type) := mkHandshakeOutput {
  ho_conn : HsConn R;
  ho_read_key : bytes;
  ho_read_iv : bytes;
  ho_write_key : bytes;
  ho_write_iv : bytes;
  ho_crc_mode : RpcChecksumMode
}.

Definition family_of (ip : IpAddr) : IpFamily := if is_ipv4 ip then FamV4 else FamV6.

(** From the derived keys on (handshake.rs:500-657): the encrypted handshake frame and its response. *)
Definition hs_exchange {R} `{AsyncRead R} (p : HsPool) (env : HsEnv) (c : HsConn R) (local_addr peer_addr : SocketAddr)
    (m : KdfMaterial) (wk wi rk ri : bytes) : option (result ProxyError (HandshakeOutput R) * HsPool * HsConn R) :=
  let hs_payload := build_handshake_payload (he_pid env) (he_utime env) (km_hs_our_ip m) (sa_port local_addr)
    (km_hs_peer_ip m) (sa_port peer_addr) (advertised_flags Crc32c) in
  let hs_frame := build_rpc_frame (-1) hs_payload Crc32 in
  match cbc_encrypt_padded wk wi hs_frame with
  | Err e => Some (Err e, p, c)
  | Ok (encrypted_hs, write_iv) =>
      match hc_write c encrypted_hs with
      | (Err e, c) => Some (Err (PE_Io e), p, c)
      | (Ok _, c) =>
          match hs_response (he_turns env) rk (mkHsBufs [] [] ri) (hp_stats p) (hc_rd c) with
          | None => None
          | Some (r, st, rd) =>
              let p := with_hs_stats p st in
              let c := mkHsConn rd (hc_sent c) (hc_writes c) in
              match r with
              | Err e => Some (Err e, p, c)
              | Ok (crc_mode, read_iv) => Some (Ok (mkHandshakeOutput R c rk read_iv wk write_iv crc_mode), p, c)
              end
          end
      end
  end.

(** From the accepted nonce on (handshake.rs:376-498). *)
Definition hs_derive {R} `{AsyncRead R} (p : HsPool) (env : HsEnv) (c : HsConn R) (local_addr peer_addr : SocketAddr)
    (local_addr_nat peer_addr_nat : SocketAddr) (reflected bound : option SocketAddr) (crypto_ts : Z) (secret srv_nonce : bytes)
  : option (result ProxyError (HandshakeOutput R) * HsPool * HsConn R) :=
  let ts_bytes := le_bytes 4 crypto_ts in
  let server_port_bytes := le_bytes 2 (sa_port peer_addr_nat) in
  let socks_bound_port := bound_port bound in
  let client_port_for_kdf := default (sa_port local_addr_nat) socks_bound_port in
  let client_port_source := from_socks_bound_port socks_bound_port in
  let fingerprint := kdf_material_fingerprint (sa_ip local_addr_nat) peer_addr_nat (sa_ip <$> reflected) (sa_ip <$> bound)
    client_port_source in
  match note_drift p peer_addr_nat fingerprint client_port_for_kdf with
  | (Err e, p) => Some (Err e, p, c)
  | (Ok _, p) =>
      let client_port_bytes := le_bytes 2 client_port_for_kdf in
      match kdf_material peer_addr_nat local_addr_nat with
      | Err e => Some (Err e, p, c)
      | Ok m =>
          let '(wk, wi) := me_keys m srv_nonce (he_nonce env) ts_bytes client_port_bytes CLIENT server_port_bytes secret in
          let '(rk, ri) := me_keys m srv_nonce (he_nonce env) ts_bytes client_port_bytes SERVER server_port_bytes secret in
          hs_exchange p env c local_addr peer_addr m wk wi rk ri
      end
  end.

Definition handshake_only {R} `{AsyncRead R} (p : HsPool) (env : HsEnv) (c : HsConn R) (addr : SocketAddr)
    (egress : option UpstreamEgressInfo) : option (result ProxyError (HandshakeOutput R) * HsPool * HsConn R) :=
  match he_local_addr env, he_peer_addr env with
  | Err e, _ => Some (Err (PE_Io e), p, c)
  | Ok _, Err e => Some (Err (PE_Io e), p, c)
  | Ok local_addr, Ok _ =>
      let peer_addr := addr in
      let p := with_nat p (snd (maybe_detect_nat_ip (hp_nat p) (sa_ip local_addr) (he_fetched env))) in
      let family := family_of (sa_ip local_addr) in
      let bound := select_socks_bound_addr family egress in
      match choose_reflected p env family egress with
      | (Err e, p) => Some (Err e, p, c)
      | (Ok reflected, p) =>
          let local_addr_nat := translate_our_addr_with_reflection (hp_nat p) local_addr reflected in
          let peer_addr_nat := mkSocketAddr (translate_ip_for_nat (hp_nat p) (sa_ip peer_addr)) (sa_port peer_addr) in
          let crypto_ts := u32 (he_secs env) in
          let '(ks, secret) := read_secret p env in
          let nonce_payload := build_nonce_payload ks crypto_ts (he_nonce env) in
          let nonce_frame := build_rpc_frame (-2) nonce_payload Crc32 in
          match hc_write c nonce_frame with
          | (Err e, c) => Some (Err (PE_Io e), p, c)
          | (Ok _, c) =>
              if negb (he_nonce_in_time env) then Some (Err PE_TgHandshakeTimeout, p, c)
              else
                match read_rpc_frame_plaintext (hc_rd c) with
                | None => None
                | Some (r, rd) =>
                    let c := mkHsConn rd (hc_sent c) (hc_writes c) in
                    match r with
                    | Err e => Some (Err e, p, c)
                    | Ok (srv_seq, srv_nonce_payload) =>
                        match check_nonce ks crypto_ts srv_seq srv_nonce_payload with
                        | Err e => Some (Err e, p, c)
                        | Ok srv_nonce =>
                            hs_derive p env c local_addr peer_addr local_addr_nat peer_addr_nat reflected bound crypto_ts
                              secret srv_nonce
                        end
                    end
                end
          end
      end
  end.

End Handshake.

(** ** Facts on the response *)

Section ResponseFacts.
Context `{DigestsOk} `{BlockCipherOk}.

Lemma tail_iv_next iv d : aligned d -> d <> [] -> tail_iv d = next_iv iv d.
Proof.
  intros [Hm _] Hne. unfold tail_iv, next_iv. pose proof (zlen_nonneg d).
  assert (16 <= zlen d).
  { destruct d; [done|]. rewrite zlen_cons in *. pose proof (zlen_nonneg d). Z.div_mod_to_equations. lia. }
  by destruct (Z.leb_spec 16 (zlen d)); [|lia].
Qed.

Lemma hs_decrypt_spec rk ri whole b rest :
  block_ok ri -> aligned whole -> hb_iv b = next_iv ri whole -> hb_dec b = cbc_dec rk ri whole ->
  aligned (whole ++ hb_enc b ++ rest) ->
  exists blk b', hs_decrypt rk b = Ok b' /\ hb_enc b = blk ++ hb_enc b' /\ aligned (whole ++ blk) /\ zlen (hb_enc b') < 16 /\
    hb_iv b' = next_iv ri (whole ++ blk) /\ hb_dec b' = cbc_dec rk ri (whole ++ blk).
Proof.
  intros Hri Hw Hiv Hdec Hall. unfold hs_decrypt. set (enc := hb_enc b) in *. pose proof (zlen_nonneg enc).
  set (blocks := zlen enc / 16 * 16).
  assert (0 <= blocks <= zlen enc /\ zlen enc - blocks < 16 /\ blocks mod 16 = 0) as (Hb1 & Hb2 & Hb3).
  { unfold blocks. rewrite Z.mod_mul by lia. Z.div_mod_to_equations. lia. }
  assert (bytes_ok enc) as Hok by (destruct Hall as [_ Ho]; apply bytes_ok_app in Ho as [_ Ho]; apply bytes_ok_app in Ho; tauto).
  destruct (Z.ltb_spec 0 blocks).
  2:{ exists [], b. rewrite app_nil_r. split_and!; try done. fold enc. lia. }
  assert (zlen (ztake blocks enc) = blocks) as Hlen by (rewrite zlen_ztake; lia).
  assert (aligned (ztake blocks enc)) as Hblk by (split; [by rewrite Hlen|by apply Forall_take]).
  unfold cbc_decrypt_inplace.
  destruct (AesCbc_decrypt_ok (mkAesCbc rk (hb_iv b)) (ztake blocks enc)) as [_ ->];
    [cbn [cbc_iv]; rewrite Hiv; by apply next_iv_ok|done|]. cbn [cbc_key cbc_iv].
  eexists (ztake blocks enc), _. split; [done|]. cbn [hb_enc hb_dec hb_iv]. rewrite ztake_zdrop, zlen_zdrop, Hiv, Hdec.
  split_and!; [done|by apply aligned_app|lia| |].
  - rewrite <-next_iv_app by done. apply tail_iv_next; [done|]. intros E. rewrite E in Hlen.
    change (zlen (@nil Z)) with 0 in Hlen. lia.
  - by rewrite cbc_dec_app by done.
Qed.

(** The response the handshake waits for: a frame with a handshake payload whose flags have a zero low byte. *)
Definition hs_reply (seq pid secs : Z) (our_ip : bytes) (our_port : Z) (peer_ip : bytes) (peer_port flags : Z) : bytes :=
  build_rpc_frame seq (build_handshake_payload pid secs our_ip our_port peer_ip peer_port flags) Crc32.

Section Reply.
Variables (seq pid secs our_port peer_port flags : Z) (our_ip peer_ip : bytes).
Hypothesis Hours : zlen our_ip = 4 /\ bytes_ok our_ip.
Hypothesis Hpeer : zlen peer_ip = 4 /\ bytes_ok peer_ip.
Hypothesis Hflags : in_u32 flags /\ Z.land flags 0xff = 0.

Let payload := build_handshake_payload pid secs our_ip our_port peer_ip peer_port flags.
Let frame := hs_reply seq pid secs our_ip our_port peer_ip peer_port flags.

Lemma hs_frame_mode_reply st : hs_frame_mode st frame 44 = (Ok (from_handshake_flags flags), st).
Proof.
  destruct (build_handshake_payload_ok pid secs our_ip our_port peer_ip peer_port flags Hours Hpeer) as (Hl & Hp & Ht & Hf).
  fold payload in Hl, Hp, Ht, Hf. destruct (rpc_frame_fields seq payload Crc32 [] Hp) as (_ & _ & F3 & F4).
  fold payload in F3, F4. cbn zeta in F3, F4. rewrite Hl in F3, F4.
  unfold hs_frame_mode. change (44 - 4) with (32 + 12 - 4). unfold frame, hs_reply. fold payload.
  rewrite F4, F3, le_val_le_bytes_small, Z.eqb_refl, Hl by apply (rpc_crc_range Crc32). cbn [negb]. cbn iota.
  change (32 <? 4) with false. cbn iota.
  assert (slice payload 0 4 = le_bytes 4 RPC_HANDSHAKE_U32) as E0 by (unfold slice; rewrite zdrop_0 by lia; done).
  destruct Hflags as [Hr Hlow]. unfold parse_handshake_flags. rewrite E0, Hl, Hf.
  rewrite !le_val_le_bytes_small by (done || vm_compute; split; congruence).
  change (RPC_HANDSHAKE_U32 =? RPC_HANDSHAKE_ERROR_U32) with false. rewrite !Z.eqb_refl. cbn [negb]. cbn iota.
  rewrite Hlow. cbn [negb Z.eqb]. unfold from_handshake_flags. cbn [advertised_flags].
  by destruct (Z.land flags USE_CRC32C =? 0).
Qed.

Lemma hs_frames_reply st dec later rest n :
  dec ++ later = frame ++ rest ->
  hs_frames (S n) st dec =
    if 44 <=? zlen dec then Some (Ok (Some (from_handshake_flags flags)), st, zdrop 44 dec) else Some (Ok None, st, dec).
Proof.
  intros E. destruct (build_handshake_payload_ok pid secs our_ip our_port peer_ip peer_port flags Hours Hpeer) as (Hl & Hp & _ & _).
  fold payload in Hl, Hp. destruct (rpc_frame_fields seq payload Crc32 rest Hp) as (F1 & _).
  destruct (build_rpc_frame_eq seq payload Crc32 Hp) as (_ & Hlen & _). fold payload in F1, Hlen. rewrite Hl in F1, Hlen.
  change (build_rpc_frame seq payload Crc32) with frame in F1, Hlen.
  cbn [hs_frames]. destruct (Z.leb_spec 4 (zlen dec)) as [H4|H4].
  2:{ by destruct (Z.leb_spec 44 (zlen dec)); [lia|]. }
  assert (slice dec 0 4 = le_bytes 4 44) as ->.
  { unfold slice. rewrite zdrop_0 by lia. change (4 - 0) with 4. change 44 with (32 + 12).
    rewrite <-F1, <-E, ztake_app_le by lia. done. }
  rewrite le_val_le_bytes_small by (cbn; lia). cbn [Z.eqb Z.leb Z.compare andb negb]. cbn -[hs_frame_mode ztake zdrop zlen Z.ltb Z.leb].
  change (44 <=? Z.shiftl 1 24) with true. change (12 <=? 44) with true. cbn [andb negb].
  destruct (Z.ltb_spec (zlen dec) 44), (Z.leb_spec 44 (zlen dec)); try lia; [done|].
  assert (ztake 44 dec = frame) as ->.
  { transitivity (ztake 44 (dec ++ later)); [by rewrite ztake_app_le by lia|]. rewrite E. apply ztake_app. by rewrite Hlen. }
  by rewrite hs_frame_mode_reply.
Qed.

Lemma zlen_hs_reply : zlen frame = 44.
Proof.
  destruct (build_handshake_payload_ok pid secs our_ip our_port peer_ip peer_port flags Hours Hpeer) as (Hl & Hp & _ & _).
  destruct (build_rpc_frame_eq seq payload Crc32 Hp) as (_ & Hlen & _). unfold frame, hs_reply. fold payload.
  fold payload in Hlen, Hl. rewrite Hlen, Hl. done.
Qed.

(** Before the response is complete there is more to read. *)
Lemma hs_more rk ri total rest whole enc later :
  block_ok ri -> aligned total -> cbc_dec rk ri total = frame ++ rest -> aligned whole -> zlen whole < 44 -> zlen enc < 16 ->
  total = whole ++ enc ++ later -> later <> [].
Proof.
  intros Hri Htot Hdec [Hw _] Hl He Et ->. destruct (cbc_dec_aligned rk ri total Hri Htot) as [_ Hz].
  rewrite Hdec, zlen_app, zlen_hs_reply in Hz. destruct Htot as [Hm _]. rewrite app_nil_r in Et. subst total.
  rewrite zlen_app in *. pose proof (zlen_nonneg rest). pose proof (zlen_nonneg enc). Z.div_mod_to_equations. lia.
Qed.

(** The loop finds the response however it arrives, whatever follows it. *)
Lemma hs_response_reply `{AsyncReadOk R} rk ri total rest st turns b whole (rd : R) :
  block_ok ri -> aligned total -> cbc_dec rk ri total = frame ++ rest ->
  aligned whole -> zlen whole < 44 -> zlen (hb_enc b) < 16 -> hb_iv b = next_iv ri whole -> hb_dec b = cbc_dec rk ri whole ->
  rd_ok rd -> total = whole ++ hb_enc b ++ rd_bytes rd -> zlen (rd_bytes rd) <= Z.of_nat turns ->
  exists whole' enc rd', hs_response turns rk b st rd = Some (Ok (from_handshake_flags flags, next_iv ri whole'), st, rd') /\
    rd_ok rd' /\ total = whole' ++ enc ++ rd_bytes rd' /\ 44 <= zlen whole' /\ zlen enc < 16 /\ aligned whole'.
Proof.
  intros Hri Htot Hdec. revert b whole rd. induction turns as [|turns IH];
    intros b whole rd Hw Hl He Hiv Hd Hrd Et Hturns; cbn [hs_response];
    pose proof (hs_more _ _ _ _ _ _ _ Hri Htot Hdec Hw Hl He Et) as Hne.
  { exfalso. apply Hne, zlen_zero_nil. pose proof (zlen_nonneg (rd_bytes rd)). lia. }
  destruct (async_read_spec rd 256 ltac:(lia) Hrd) as ([tmp|e] & rd1 & -> & Hrd1 & Ha); [|by destruct Ha].
  destruct Ha as (_ & Eb & Hnil). destruct (Z.eqb_spec (zlen tmp) 0) as [Hz|Hz].
  { exfalso. apply zlen_zero_nil in Hz. by apply Hne, Hnil. }
  set (b1 := mkHsBufs (hb_enc b ++ tmp) (hb_dec b) (hb_iv b)).
  assert (total = whole ++ hb_enc b1 ++ rd_bytes rd1) as Et1 by (cbn; rewrite Et, Eb, !app_assoc; done).
  destruct (hs_decrypt_spec rk ri whole b1 (rd_bytes rd1) Hri Hw Hiv Hd) as (blk & b2 & -> & Eenc & Hw2 & Hl2 & Hiv2 & Hd2);
    [by rewrite <-Et1|].
  set (whole2 := whole ++ blk) in *.
  assert (total = whole2 ++ hb_enc b2 ++ rd_bytes rd1) as Et2 by (unfold whole2; rewrite Et1, Eenc, !app_assoc; done).
  assert (aligned (hb_enc b2 ++ rd_bytes rd1)) as Hal.
  { destruct Htot as [Hm Ho], Hw2 as [Hm2 _]. rewrite Et2 in Hm, Ho. apply bytes_ok_app in Ho as [_ Ho]. split; [|done].
    rewrite zlen_app in Hm. Z.div_mod_to_equations. lia. }
  rewrite (hs_frames_reply st (hb_dec b2) (cbc_dec rk (next_iv ri whole2) (hb_enc b2 ++ rd_bytes rd1)) rest).
  2:{ by rewrite Hd2, <-cbc_dec_app, <-Et2. }
  destruct (cbc_dec_aligned rk ri whole2 Hri Hw2) as [_ Hz2]. rewrite Hd2, Hz2.
  destruct (Z.leb_spec 44 (zlen whole2)).
  { exists whole2, (hb_enc b2), rd1. rewrite Hiv2. by split_and!. }
  apply (IH _ whole2); try done. rewrite Eb, zlen_app in Hturns. pose proof (zlen_nonneg tmp). lia.
Qed.

End Reply.

Lemma derive_keys_eq nonce_srv nonce_clt clt_ts srv_ip clt_port purpose clt_ip srv_port secret clt_v6 srv_v6 :
  let s := build_middleproxy_prekey nonce_srv nonce_clt clt_ts srv_ip clt_port purpose clt_ip srv_port secret clt_v6 srv_v6 in
  derive_middleproxy_keys nonce_srv nonce_clt clt_ts srv_ip clt_port purpose clt_ip srv_port secret clt_v6 srv_v6 =
    (ztake 12 (md5 (zdrop 1 s)) ++ sha1 s, md5 (zdrop 2 s)).
Proof.
  cbn zeta. unfold derive_middleproxy_keys. set (s := build_middleproxy_prekey _ _ _ _ _ _ _ _ _ _ _). f_equal.
  pose proof (md5_len (zdrop 1 s)) as Hm. pose proof (sha1_len s) as Hs.
  assert (zlen (ztake 12 (md5 (zdrop 1 s))) = 12) as Ht by (rewrite zlen_ztake; unfold zlen; lia).
  assert (splice (zrepeat 32 0) 0 (ztake 12 (md5 (zdrop 1 s))) = ztake 12 (md5 (zdrop 1 s)) ++ zrepeat 20 0) as ->.
  { unfold splice. rewrite ztake_0 by lia. rewrite Ht. done. }
  transitivity (ztake 12 (md5 (zdrop 1 s)) ++ sha1 s ++ []); [|by rewrite app_nil_r].
  rewrite <-(app_nil_r (zrepeat 20 0)). apply splice_mid; [done|]. unfold zlen. by rewrite Hs.
Qed.

(** ** The middle proxy

    The other side of the protocol, by the layout documented at [build_middleproxy_prekey]: it knows the
    secret, its own address and the address it sees the proxy at. *)

Record MeServer := mkMeServer {
  sv_secret : bytes;
  sv_nonce : bytes;
  sv_ts : Z;
  sv_addr : SocketAddr;
  sv_client : SocketAddr;
  sv_seq : Z;
  sv_pid : Z;
  sv_utime : Z;
  sv_our_ip : bytes;
  sv_peer_ip : bytes;
  sv_flags : Z
}.

Definition ip4_or_zero (ip : IpAddr) : bytes := match ip with V4 o => reverse o | V6 _ => [0; 0; 0; 0] end.
Definition ip6_or_none (ip : IpAddr) : bytes := match ip with V4 _ => [] | V6 o => o end.

Definition sv_prekey (sv : MeServer) (purpose nonce_clt : bytes) (clt_ts : Z) : bytes :=
  sv_nonce sv ++ nonce_clt ++ le_bytes 4 clt_ts ++ ip4_or_zero (sa_ip (sv_addr sv)) ++ le_bytes 2 (sa_port (sv_client sv)) ++
  purpose ++ ip4_or_zero (sa_ip (sv_client sv)) ++ le_bytes 2 (sa_port (sv_addr sv)) ++ sv_secret sv ++ sv_nonce sv ++
  (ip6_or_none (sa_ip (sv_client sv)) ++ ip6_or_none (sa_ip (sv_addr sv))) ++ nonce_clt.
Definition sv_key (sv : MeServer) (purpose nonce_clt : bytes) (clt_ts : Z) : bytes :=
  let s := sv_prekey sv purpose nonce_clt clt_ts in ztake 12 (md5 (zdrop 1 s)) ++ sha1 s.
Definition sv_iv (sv : MeServer) (purpose nonce_clt : bytes) (clt_ts : Z) : bytes :=
  md5 (zdrop 2 (sv_prekey sv purpose nonce_clt clt_ts)).

Definition sv_nonce_frame (sv : MeServer) : bytes :=
  build_rpc_frame (-2) (build_nonce_payload (key_selector_of (sv_secret sv)) (sv_ts sv) (sv_nonce sv)) Crc32.
Definition sv_reply (sv : MeServer) : bytes :=
  hs_reply (sv_seq sv) (sv_pid sv) (sv_utime sv) (sv_our_ip sv) (sa_port (sv_addr sv)) (sv_peer_ip sv)
    (sa_port (sv_client sv)) (sv_flags sv).
Definition sv_cipher (sv : MeServer) (nonce_clt : bytes) (clt_ts : Z) : bytes :=
  cbc_enc (sv_key sv SERVER nonce_clt clt_ts) (sv_iv sv SERVER nonce_clt clt_ts) (pad_to_block (sv_reply sv)).

Definition one_family (a b : IpAddr) : Prop :=
  match a, b with
  | V4 _, V4 _ => True
  | V6 a, V6 b => to_ipv4_mapped a = None /\ to_ipv4_mapped b = None
  | _, _ => False
  end.
#[global] Instance one_family_dec a b : Decision (one_family a b).
Proof. destruct a, b; cbn; apply _. Defined.

(** A well-formed middle proxy; its flags have a zero low byte. *)
Definition sv_ok (sv : MeServer) : Prop :=
  bytes_ok (sv_secret sv) /\ (zlen (sv_nonce sv) = 16 /\ bytes_ok (sv_nonce sv)) /\ in_u32 (sv_ts sv) /\
  addr_ok (sv_addr sv) /\ addr_ok (sv_client sv) /\ one_family (sa_ip (sv_addr sv)) (sa_ip (sv_client sv)) /\
  (zlen (sv_our_ip sv) = 4 /\ bytes_ok (sv_our_ip sv)) /\ (zlen (sv_peer_ip sv) = 4 /\ bytes_ok (sv_peer_ip sv)) /\
  (in_u32 (sv_flags sv) /\ Z.land (sv_flags sv) 0xff = 0).
#[global] Instance sv_ok_dec sv : Decision (sv_ok sv).
Proof. unfold sv_ok, in_u32. apply _. Defined.

(** Both ends derive the same keys. *)
Lemma me_keys_agree sv nonce ts :
  one_family (sa_ip (sv_addr sv)) (sa_ip (sv_client sv)) ->
  exists m, kdf_material (sv_addr sv) (sv_client sv) = Ok m /\
    (forall purpose, me_keys m (sv_nonce sv) nonce (le_bytes 4 ts) (le_bytes 2 (sa_port (sv_client sv))) purpose
      (le_bytes 2 (sa_port (sv_addr sv))) (sv_secret sv) = (sv_key sv purpose nonce ts, sv_iv sv purpose nonce ts)) /\
    km_hs_our_ip m = ip4_or_zero (sa_ip (sv_client sv)) /\ km_hs_peer_ip m = ip4_or_zero (sa_ip (sv_addr sv)).
Proof.
  intros Hf. unfold kdf_material, extract_ip_material, me_keys, sv_key, sv_iv.
  unfold sv_prekey.
  destruct (sa_ip (sv_addr sv)) as [so|so], (sa_ip (sv_client sv)) as [co|co]; try done.
  - eexists. split; [done|]. split; [|done]. intros purpose. rewrite derive_keys_eq.
    cbn [km_srv_ip km_clt_ip km_clt_v6 km_srv_v6 ip4_or_zero ip6_or_none]. unfold build_middleproxy_prekey. cbn [default app].
    by rewrite <-!app_assoc.
  - destruct Hf as [-> ->]. eexists. split; [done|]. split; [|done]. intros purpose. rewrite derive_keys_eq.
    cbn [km_srv_ip km_clt_ip km_clt_v6 km_srv_v6 ip4_or_zero ip6_or_none]. unfold build_middleproxy_prekey. cbn [default].
    by rewrite <-!app_assoc.
Qed.

Lemma sv_iv_ok sv purpose nonce ts : block_ok (sv_iv sv purpose nonce ts).
Proof. split; [apply md5_len|apply md5_bytes]. Qed.

Lemma key_selector_range secret : bytes_ok secret -> in_u32 (key_selector_of secret).
Proof.
  intros Hs. unfold key_selector_of. destruct (Z.leb_spec 4 (zlen secret)); [|by split].
  assert (bytes_ok (slice secret 0 4)) as Hb by (by apply Forall_take, Forall_drop).
  pose proof (le_val_bound _ Hb) as Hv. rewrite zlen_slice in Hv by lia. exact Hv.
Qed.

Lemma check_nonce_ok ks ts srv_ts nonce :
  in_u32 ks -> in_u32 srv_ts -> zlen nonce = 16 -> abs_diff ts srv_ts <= 30 ->
  check_nonce ks ts (-2) (build_nonce_payload ks srv_ts nonce) = Ok nonce.
Proof.
  intros Hk Ht Hn Hd. unfold check_nonce. cbn [Z.eqb negb].
  destruct (handshake_payloads_roundtrip ks srv_ts nonce 0 0 [0;0;0;0] 0 [0;0;0;0] 0 Crc32) as [-> _]; try done.
  rewrite !Z.eqb_refl. cbn [negb]. by destruct (Z.ltb_spec 30 (abs_diff ts srv_ts)); [lia|].
Qed.

(** The whole stream of the middle proxy's response. *)
Lemma sv_cipher_spec sv nonce ts :
  sv_ok sv -> exists pad, aligned (sv_cipher sv nonce ts) /\ zlen (sv_cipher sv nonce ts) = 48 /\
    cbc_dec (sv_key sv SERVER nonce ts) (sv_iv sv SERVER nonce ts) (sv_cipher sv nonce ts) = sv_reply sv ++ pad.
Proof.
  intros (_ & _ & _ & _ & _ & _ & Ho & Hp & _). pose proof (sv_iv_ok sv SERVER nonce ts) as Hiv.
  assert (zlen (sv_reply sv) = 44) as Hz by (unfold sv_reply; apply zlen_hs_reply; assumption).
  assert (bytes_ok (sv_reply sv)) as Hok.
  { unfold sv_reply, hs_reply. apply build_rpc_frame_eq. apply (build_handshake_payload_ok _ _ (sv_our_ip sv) _ (sv_peer_ip sv)); assumption. }
  destruct (pad_to_block_spec (sv_reply sv) Hok) as (pad & E & Ha & Hl). unfold sv_cipher. rewrite E.
  destruct (cbc_enc_aligned (sv_key sv SERVER nonce ts) _ _ Hiv Ha) as [Hca Hlen]. exists pad.
  split_and!; [done| |by apply cbc_dec_enc]. rewrite Hlen. destruct Ha as [Hm _]. rewrite zlen_app, Hz in *.
  pose proof (zlen_nonneg pad). Z.div_mod_to_equations. lia.
Qed.

Lemma ip4_or_zero_ok a : addr_ok a -> zlen (ip4_or_zero (sa_ip a)) = 4 /\ bytes_ok (ip4_or_zero (sa_ip a)).
Proof.
  intros [Ha _]. destruct (sa_ip a) as [o|o]; cbn [ip4_or_zero]; [|by repeat constructor].
  destruct Ha as [L Ho]. rewrite zlen_reverse. split; [done|]. by apply Forall_reverse.
Qed.

End ResponseFacts.

(** ** The handshake with an honest middle proxy *)

Section Honest.
Context `{DigestsOk} `{BlockCipherOk}.
Variable fp : IpAddr -> SocketAddr -> option IpAddr -> option IpAddr -> KdfClientPortSource -> Z.

(** The pool after NAT detection and the choice of the reflected address. *)
Definition hs_choice (p : HsPool) (env : HsEnv) (egress : option UpstreamEgressInfo) (local : SocketAddr)
  : result ProxyError (option SocketAddr) * HsPool :=
  choose_reflected (with_nat p (snd (maybe_detect_nat_ip (hp_nat p) (sa_ip local) (he_fetched env)))) env
    (family_of (sa_ip local)) egress.

(** Both ends know the same secret, see the same addresses, and their clocks agree to 30 s. *)
Record agrees (p : HsPool) (env : HsEnv) (addr local : SocketAddr) (reflected : option SocketAddr)
    (egress : option UpstreamEgressInfo) (sv : MeServer) : Prop := {
  ag_secret : read_secret p env = (key_selector_of (sv_secret sv), sv_secret sv);
  ag_client_ip : sa_ip (translate_our_addr_with_reflection (hp_nat p) local reflected) = sa_ip (sv_client sv);
  ag_client_port :
    default (sa_port local) (bound_port (select_socks_bound_addr (family_of (sa_ip local)) egress)) = sa_port (sv_client sv);
  ag_server : mkSocketAddr (translate_ip_for_nat (hp_nat p) (sa_ip addr)) (sa_port addr) = sv_addr sv;
  ag_clock : abs_diff (u32 (he_secs env)) (sv_ts sv) <= 30
}.

Definition our_nonce_frame (env : HsEnv) (sv : MeServer) : bytes :=
  build_rpc_frame (-2) (build_nonce_payload (key_selector_of (sv_secret sv)) (u32 (he_secs env)) (he_nonce env)) Crc32.
Definition our_hs_frame (env : HsEnv) (addr local : SocketAddr) (sv : MeServer) : bytes :=
  hs_reply (-1) (he_pid env) (he_utime env) (ip4_or_zero (sa_ip (sv_client sv))) (sa_port local)
    (ip4_or_zero (sa_ip (sv_addr sv))) (sa_port addr) (advertised_flags Crc32c).

(** What a successful handshake with [sv] has established. *)
Record established {R} `{AsyncReadOk R} (env : HsEnv) (c : HsConn R) (addr local : SocketAddr) (sv : MeServer)
    (out : HandshakeOutput R) : Prop := {
  es_crc : ho_crc_mode R out = from_handshake_flags (sv_flags sv);
  es_read_key : ho_read_key R out = sv_key sv SERVER (he_nonce env) (u32 (he_secs env));
  es_write_key : ho_write_key R out = sv_key sv CLIENT (he_nonce env) (u32 (he_secs env));
  es_sent : exists hs_cipher pad,
    hc_sent (ho_conn R out) = hc_sent c ++ our_nonce_frame env sv ++ hs_cipher /\
    cbc_decrypt_inplace (sv_key sv CLIENT (he_nonce env) (u32 (he_secs env))) (sv_iv sv CLIENT (he_nonce env) (u32 (he_secs env)))
      hs_cipher = Ok (our_hs_frame env addr local sv ++ pad, ho_write_iv R out) /\ zlen pad < 16
}.

Lemma note_drift_ok p peer f port : exists p', note_drift p peer f port = (Ok tt, p').
Proof.
  unfold note_drift. cbn [ME_KDF_DRIFT_STRICT]. destruct (hp_kdf p !! peer) as [[f' port']|]; [|by eexists].
  destruct (negb (f' =? f)); [by eexists|]. destruct (negb (port' =? port)); by eexists.
Qed.

(** The last phase, on a stream that continues with [extra]. *)
Lemma hs_exchange_reply `{AsyncReadOk R} p env (c : HsConn R) local addr m sv extra :
  sv_ok sv -> aligned extra -> hc_writes c = [] -> rd_ok (hc_rd c) ->
  km_hs_our_ip m = ip4_or_zero (sa_ip (sv_client sv)) -> km_hs_peer_ip m = ip4_or_zero (sa_ip (sv_addr sv)) ->
  let nonce := he_nonce env in let ts := u32 (he_secs env) in
  rd_bytes (hc_rd c) = sv_cipher sv nonce ts ++ extra -> 48 + zlen extra <= Z.of_nat (he_turns env) ->
  exists out p', hs_exchange p env c local addr m (sv_key sv CLIENT nonce ts) (sv_iv sv CLIENT nonce ts)
      (sv_key sv SERVER nonce ts) (sv_iv sv SERVER nonce ts) = Some (Ok out, p', ho_conn R out) /\
    ho_crc_mode R out = from_handshake_flags (sv_flags sv) /\
    ho_read_key R out = sv_key sv SERVER nonce ts /\ ho_write_key R out = sv_key sv CLIENT nonce ts /\
    (exists hs_cipher pad, hc_sent (ho_conn R out) = hc_sent c ++ hs_cipher /\
      cbc_decrypt_inplace (sv_key sv CLIENT nonce ts) (sv_iv sv CLIENT nonce ts) hs_cipher =
        Ok (our_hs_frame env addr local sv ++ pad, ho_write_iv R out) /\ zlen pad < 16) /\
    exists whole enc, sv_cipher sv nonce ts ++ extra = whole ++ enc ++ rd_bytes (hc_rd (ho_conn R out)) /\
      aligned whole /\ 44 <= zlen whole /\ zlen enc < 16 /\ ho_read_iv R out = next_iv (sv_iv sv SERVER nonce ts) whole.
Proof.
  intros Hsv Hex Hws Hrd Eo Ep nonce ts Hb Hturns. unfold hs_exchange. rewrite Eo, Ep.
  change (build_rpc_frame (-1) _ Crc32) with (our_hs_frame env addr local sv).
  destruct Hsv as (Hsec & Hn & Hts & Ha & Hc & Hf & Hours & Hpeer & Hfl) eqn:Esv.
  assert (bytes_ok (our_hs_frame env addr local sv)) as Hok.
  { apply build_rpc_frame_eq. apply build_handshake_payload_ok; by apply ip4_or_zero_ok. }
  destruct (cbc_padded_roundtrip (sv_key sv CLIENT nonce ts) (sv_iv sv CLIENT nonce ts) _ (sv_iv_ok sv CLIENT nonce ts) Hok)
    as (cipher & iv & pad & -> & Hd & Hpad & _).
  unfold hc_write. rewrite Hws. cbn [hc_rd hc_sent hc_writes tail].
  destruct (sv_cipher_spec sv nonce ts Hsv) as (spad & Hca & Hcl & Hdec).
  pose proof (sv_iv_ok sv SERVER nonce ts) as Hri.
  destruct (hs_response_reply (sv_seq sv) (sv_pid sv) (sv_utime sv) (sa_port (sv_addr sv)) (sa_port (sv_client sv)) (sv_flags sv)
    (sv_our_ip sv) (sv_peer_ip sv) Hours Hpeer Hfl (sv_key sv SERVER nonce ts) (sv_iv sv SERVER nonce ts)
    (sv_cipher sv nonce ts ++ extra) (spad ++ cbc_dec (sv_key sv SERVER nonce ts) (next_iv (sv_iv sv SERVER nonce ts) (sv_cipher sv nonce ts)) extra)
    (hp_stats p) (he_turns env) (mkHsBufs [] [] (sv_iv sv SERVER nonce ts)) [] (hc_rd c))
    as (whole & enc & rd' & -> & Hrd' & Et & Hl & He & Hw); try done.
  - by apply aligned_app.
  - rewrite cbc_dec_app, Hdec, <-app_assoc by done. done.
  - by split; [|constructor].
  - rewrite Hb, zlen_app, Hcl. done.
  - eexists (mkHandshakeOutput R _ _ _ _ _ _), _. split; [reflexivity|]. cbn [ho_crc_mode ho_read_key ho_write_key ho_conn hc_sent hc_rd ho_read_iv ho_write_iv].
    split_and!; [done|done|done|by exists cipher, pad|by exists whole, enc].
Qed.

(** Up to the keys: the nonces are exchanged and both ends derive the same keys. *)
Lemma handshake_reaches_exchange `{AsyncReadOk R} p env (c : HsConn R) addr egress local remote reflected p1 sv later :
  he_local_addr env = Ok local -> he_peer_addr env = Ok remote -> hs_choice p env egress local = (Ok reflected, p1) ->
  agrees p1 env addr local reflected egress sv -> sv_ok sv -> zlen (he_nonce env) = 16 /\ bytes_ok (he_nonce env) ->
  he_nonce_in_time env = true -> hc_writes c = [] -> rd_ok (hc_rd c) -> rd_bytes (hc_rd c) = sv_nonce_frame sv ++ later ->
  exists p2 rd m, rd_ok rd /\ rd_bytes rd = later /\
    km_hs_our_ip m = ip4_or_zero (sa_ip (sv_client sv)) /\ km_hs_peer_ip m = ip4_or_zero (sa_ip (sv_addr sv)) /\
    handshake_only fp p env c addr egress =
      hs_exchange p2 env (mkHsConn rd (hc_sent c ++ our_nonce_frame env sv) []) local addr m
        (sv_key sv CLIENT (he_nonce env) (u32 (he_secs env))) (sv_iv sv CLIENT (he_nonce env) (u32 (he_secs env)))
        (sv_key sv SERVER (he_nonce env) (u32 (he_secs env))) (sv_iv sv SERVER (he_nonce env) (u32 (he_secs env))).
Proof.
  intros El Er Ech [Hsec Hip Hport Hsrv Hclk] Hsv Hn Ht Hws Hrd Hb. destruct Hsv as (Hs & Hsn & Hts & Ha & Hc & Hf & _).
  unfold handshake_only. rewrite El, Er. fold (hs_choice p env egress local). rewrite Ech, Hsec, Hsrv.
  unfold hc_write. rewrite Hws, Ht. cbn [tail hc_rd hc_sent hc_writes negb].
  assert (rpc_payload_ok (build_nonce_payload (key_selector_of (sv_secret sv)) (sv_ts sv) (sv_nonce sv))) as Hpl.
  { destruct Hsn as [Ln Hn1]. rewrite build_nonce_payload_eq by done. unfold rpc_payload_ok.
    rewrite !zlen_app, !zlen_le_bytes, Ln, !bytes_ok_app. split_and!; done || apply le_bytes_ok. }
  destruct (rpc_frame_plaintext_roundtrip (-2) _ later (hc_rd c) ltac:(by split) Hpl Hrd Hb) as (rd & -> & Hrd1 & Hb1).
  destruct Hsn as [Ln Hn1]. rewrite check_nonce_ok by (done || by apply key_selector_range).
  unfold hs_derive. destruct (note_drift_ok p1 (sv_addr sv) (fp (sa_ip (translate_our_addr_with_reflection (hp_nat p1) local reflected))
    (sv_addr sv) (sa_ip <$> reflected) (sa_ip <$> select_socks_bound_addr (family_of (sa_ip local)) egress)
    (from_socks_bound_port (bound_port (select_socks_bound_addr (family_of (sa_ip local)) egress))))
    (default (sa_port (translate_our_addr_with_reflection (hp_nat p1) local reflected)) (bound_port (select_socks_bound_addr (family_of (sa_ip local)) egress))))
    as [p2 ->].
  assert (forall a b c, sa_ip b = sa_ip c -> kdf_material a b = kdf_material a c) as Hm
    by (intros a b c' E; unfold kdf_material, extract_ip_material; by rewrite E).
  rewrite (Hm _ _ (sv_client sv) Hip).
  change (sa_port (translate_our_addr_with_reflection (hp_nat p1) local reflected)) with (sa_port local). rewrite Hport.
  destruct (me_keys_agree sv (he_nonce env) (u32 (he_secs env)) Hf) as (m & -> & Hk & Eo & Ep). rewrite !Hk.
  exists p2, rd, m. by split_and!.
Qed.

(** C7: the handshake succeeds with an honest middle proxy, however its bytes arrive: when both ends share the
    secret, see each other at the same addresses (after NAT translation and SOCKS binding) and their clocks differ by
    at most 30 s, the proxy ends with the keys the middle proxy derives, the checksum mode of the middle proxy's
    flags and the read IV after the response, having consumed exactly the response; and what it sent
    decrypts under the middle proxy's keys to the handshake frame, up to padding, leaving both ends with the
    same write IV. *)
Theorem handshake_with_honest_me `{AsyncReadOk R} p env (c : HsConn R) addr egress local remote reflected p1 sv :
  he_local_addr env = Ok local -> he_peer_addr env = Ok remote -> hs_choice p env egress local = (Ok reflected, p1) ->
  agrees p1 env addr local reflected egress sv -> sv_ok sv -> zlen (he_nonce env) = 16 /\ bytes_ok (he_nonce env) ->
  he_nonce_in_time env = true -> (48 <= he_turns env)%nat -> hc_writes c = [] -> rd_ok (hc_rd c) ->
  rd_bytes (hc_rd c) = sv_nonce_frame sv ++ sv_cipher sv (he_nonce env) (u32 (he_secs env)) ->
  exists out p', handshake_only fp p env c addr egress = Some (Ok out, p', ho_conn R out) /\
    established env c addr local sv out /\ rd_bytes (hc_rd (ho_conn R out)) = [] /\
    ho_read_iv R out = next_iv (sv_iv sv SERVER (he_nonce env) (u32 (he_secs env))) (sv_cipher sv (he_nonce env) (u32 (he_secs env))).
Proof.
  intros El Er Ech Hag Hsv Hn Ht Hturns Hws Hrd Hb.
  destruct (handshake_reaches_exchange p env c addr egress local remote reflected p1 sv _ El Er Ech Hag Hsv Hn Ht Hws Hrd Hb)
    as (p2 & rd & m & Hrd1 & Hb1 & Eo & Ep & ->).
  destruct (hs_exchange_reply p2 env (mkHsConn rd (hc_sent c ++ our_nonce_frame env sv) []) local addr m sv [])
    as (out & p' & E & G1 & G2 & G3 & (cipher & pad & G4 & G5 & G6) & whole & enc & Et & Hw & Hl & He & Hiv); try done.
  - by split; [|constructor].
  - by rewrite app_nil_r.
  - change (zlen (@nil Z)) with 0. lia.
  - exists out, p'. split; [done|]. split.
    { constructor; try done. exists cipher, pad. split_and!; [|done|done]. rewrite G4. cbn [hc_sent]. by rewrite app_assoc. }
    destruct (sv_cipher_spec sv (he_nonce env) (u32 (he_secs env)) Hsv) as (_ & _ & Hcl & _).
    rewrite app_nil_r in Et. pose proof (f_equal zlen Et) as Hz. rewrite !zlen_app, Hcl in Hz.
    pose proof (zlen_nonneg enc). pose proof (zlen_nonneg (rd_bytes (hc_rd (ho_conn R out)))). destruct Hw as [Hm _].
    assert (enc = [] /\ rd_bytes (hc_rd (ho_conn R out)) = []) as [-> En]
      by (split; apply zlen_zero_nil; Z.div_mod_to_equations; lia).
    rewrite En in *. rewrite !app_nil_r in Et. by rewrite Hiv, Et.
Qed.

End Honest.

(** ** The secret *)

Definition secret_ok (s : SecretSnapshot) : Prop := ss_key_selector s = key_selector_of (ss_secret s).

Lemma update_secret_ok s new : secret_ok s -> secret_ok (snd (update_secret s new)).
Proof. intros Hs. unfold update_secret. destruct (_ <? 32); [done|]. by destruct (negb _). Qed.

(** With atomic snapshots the selector sent is always the one of the secret used; the compatible mode
    may mix two updates. *)
Lemma atomic_snapshot_consistent p env :
  hp_secret_atomic_snapshot p = true -> secret_ok (he_secret1 env) ->
  exists s, read_secret p env = (key_selector_of s, s).
Proof. intros Ha Hs. unfold read_secret. rewrite Ha, Hs. by eexists. Qed.

(** ** Witnesses *)

Section HandshakeWitnesses.
Import Crypto.Demo.

Definition demo_fp (a : IpAddr) (b : SocketAddr) (c d : option IpAddr) (k : KdfClientPortSource) : Z := sa_port b.
Definition demo_nat : NatState := mkNatState None None None [] [] 0 None None None.
Definition demo_hs_pool : HsPool := mkHsPool demo_nat false Strict true Stats_new ∅.
Definition demo_local : SocketAddr := mkSocketAddr (V4 [8; 8; 4; 4]) 40000.
Definition demo_me : SocketAddr := mkSocketAddr (V4 [149; 154; 175; 50]) 8888.
Definition demo_secret : SecretSnapshot := SecretSnapshot_new (repeat 85 40).
Definition demo_hs_env (turns : nat) : HsEnv :=
  mkHsEnv (Ok demo_local) (Ok demo_me) 0 0 (Ok None) (fun _ => []) (repeat 34 16) 1700000000 demo_secret demo_secret 77 1700000000
    true turns.
Definition demo_sv : MeServer :=
  mkMeServer (repeat 85 40) (repeat 17 16) 1700000010 demo_me demo_local (-1) 5 6 [1; 2; 3; 4] [5; 6; 7; 8] 0x800.
Definition demo_hs_cipher : bytes := sv_cipher demo_sv (repeat 34 16) 1700000000.
Definition demo_hs_conn : HsConn (list read_event) :=
  mkHsConn [RdData (sv_nonce_frame demo_sv ++ ztake 5 demo_hs_cipher); RdPending; RdData (zdrop 5 demo_hs_cipher)] [] [].

Lemma handshake_with_honest_me_witness :
  exists out p', handshake_only demo_fp demo_hs_pool (demo_hs_env 48) demo_hs_conn demo_me None = Some (Ok out, p', ho_conn _ out) /\
    established (demo_hs_env 48) demo_hs_conn demo_me demo_local demo_sv out /\ rd_bytes (hc_rd (ho_conn _ out)) = [] /\
    ho_read_iv _ out = next_iv (sv_iv demo_sv SERVER (repeat 34 16) 1700000000) demo_hs_cipher.
Proof.
  apply (handshake_with_honest_me demo_fp demo_hs_pool (demo_hs_env 48) demo_hs_conn demo_me None demo_local demo_me None
    demo_hs_pool demo_sv).
  - reflexivity.
  - reflexivity.
  - reflexivity.
  - constructor; vm_compute; congruence.
  - apply (bool_decide_unpack _). vm_compute. exact I.
  - apply (bool_decide_unpack _). vm_compute. exact I.
  - reflexivity.
  - vm_compute. lia.
  - reflexivity.
  - vm_compute. reflexivity.
  - vm_compute. reflexivity.
Defined.

(** What the middle proxy sends right behind its response is lost when it arrives in the same read: the buffers of the
    handshake end with it, and the reader that continues on the stream starts with empty ones. *)
Example handshake_drops_early_data :
  let early := repeat 7 32 in
  let c := mkHsConn [RdData (sv_nonce_frame demo_sv); RdData (demo_hs_cipher ++ early)] [] [] in
  exists out p', handshake_only demo_fp demo_hs_pool (demo_hs_env 48) c demo_me None = Some (Ok out, p', ho_conn _ out) /\
    rd_bytes (hc_rd (ho_conn _ out)) = [] /\ ho_read_iv _ out = repeat 7 16.
Proof. eexists (mkHandshakeOutput _ _ _ _ _ _ _), _. split; [vm_compute; reflexivity|split; reflexivity]. Qed.

End HandshakeWitnesses.
