(* ===== verification/Registry.v ===== *)
(** * The connection registry of the middle proxy: [transport/middle_proxy/registry.rs]

    Client connections, the writers to the middle proxies, and which writer serves which
    connection.  The maps are finite maps; every operation runs under the registry's lock, so an
    interleaving of tasks is a sequence of operations.  A channel is a handle into a table of
    queues, because senders are cloned and shared. *)

From stdpp Require Import gmap.
From S2P Require Import Prelude RpcCodec NetAddr Wire.

(** ** Data (registry.rs:18-72) *)

Inductive MeResponse :=
| MeData (flags : Z) (data : bytes)
| MeAck (cfm : Z)
| MeClose.

Inductive RouteResult := Routed | NoConn | ChannelClosed | QueueFullBase | QueueFullHigh.

#[global] Instance RouteResult_eq_dec : EqDecision RouteResult.
Proof. solve_decision. Defined.

Record ConnMeta := mkConnMeta {
  cm_target_dc : Z;
  cm_client_addr : SocketAddr;
  cm_our_addr : SocketAddr;
  cm_proto_flags : Z
}.

Record BoundConn := mkBoundConn { bc_conn_id : Z; bc_meta : ConnMeta }.

(** [mpsc::Sender]: a handle of its channel. *)
Record ConnWriter := mkConnWriter { cwr_writer_id : Z; cwr_tx : Z }.

Record RegistryInner := mkInner {
  ri_map : gmap Z Z;
  ri_writers : gmap Z Z;
  ri_writer_for_conn : gmap Z Z;
  ri_conns_for_writer : gmap Z (gset Z);
  ri_meta : gmap Z ConnMeta
}.

Definition RegistryInner_new : RegistryInner := mkInner ∅ ∅ ∅ ∅ ∅.

(** ** Channels ([tokio::sync::mpsc], bounded) *)

Definition ROUTE_CHANNEL_CAPACITY : Z := 4096.

Record Channel := mkChannel { ch_queue : list MeResponse; ch_open : bool }.

Definition channel_capacity (c : Channel) : Z := ROUTE_CHANNEL_CAPACITY - zlen (ch_queue c).

Inductive TrySend := SentOk (c : Channel) | SendClosed | SendFull.

Definition try_send (c : Channel) (resp : MeResponse) : TrySend :=
  if negb (ch_open c) then SendClosed
  else if ROUTE_CHANNEL_CAPACITY <=? zlen (ch_queue c) then SendFull
  else SentOk (mkChannel (ch_queue c ++ [resp]) true).

Record ConnRegistry := mkRegistry {
  cg_inner : RegistryInner;
  cg_next_id : Z;
  cg_base_timeout_ms : Z;
  cg_high_timeout_ms : Z;
  cg_high_watermark_pct : Z;
  cg_channels : gmap Z Channel;
  cg_next_channel : Z
}.

(** ** Construction and policy (registry.rs:74-109); [start] is the random first id *)

Definition ConnRegistry_new (start : Z) : ConnRegistry :=
  mkRegistry RegistryInner_new (Z.lor (u64 start) 1) 25 120 80 ∅ 0.

Definition update_route_backpressure_policy (reg : ConnRegistry)
    (base_timeout_ms high_timeout_ms high_watermark_pct : Z) : ConnRegistry :=
  let base := Z.max base_timeout_ms 1 in
  let high := Z.max high_timeout_ms base in
  let watermark := Z.max 1 (Z.min high_watermark_pct 100) in
  mkRegistry (cg_inner reg) (cg_next_id reg) base high watermark (cg_channels reg) (cg_next_channel reg).

Definition set_inner (reg : ConnRegistry) (inner : RegistryInner) : ConnRegistry :=
  mkRegistry inner (cg_next_id reg) (cg_base_timeout_ms reg) (cg_high_timeout_ms reg)
    (cg_high_watermark_pct reg) (cg_channels reg) (cg_next_channel reg).

Definition set_channel (reg : ConnRegistry) (tx : Z) (c : Channel) : ConnRegistry :=
  mkRegistry (cg_inner reg) (cg_next_id reg) (cg_base_timeout_ms reg) (cg_high_timeout_ms reg)
    (cg_high_watermark_pct reg) (<[tx := c]> (cg_channels reg)) (cg_next_channel reg).

(** ** [register] and [unregister] (registry.rs:111-131) *)

Definition register (reg : ConnRegistry) : (Z * Z) * ConnRegistry :=
  let id := cg_next_id reg in
  let tx := cg_next_channel reg in
  let inner := cg_inner reg in
  ((id, tx),
   mkRegistry
     (mkInner (<[id := tx]> (ri_map inner)) (ri_writers inner) (ri_writer_for_conn inner)
        (ri_conns_for_writer inner) (ri_meta inner))
     (u64 (id + 1)) (cg_base_timeout_ms reg) (cg_high_timeout_ms reg) (cg_high_watermark_pct reg)
     (<[tx := mkChannel [] true]> (cg_channels reg)) (tx + 1)).

Definition unregister (reg : ConnRegistry) (id : Z) : option Z * ConnRegistry :=
  let inner := cg_inner reg in
  let map := delete id (ri_map inner) in
  let meta := delete id (ri_meta inner) in
  match ri_writer_for_conn inner !! id with
  | Some writer_id =>
      let conns :=
        match ri_conns_for_writer inner !! writer_id with
        | Some set => <[writer_id := set ∖ {[id]}]> (ri_conns_for_writer inner)
        | None => ri_conns_for_writer inner
        end in
      (Some writer_id,
       set_inner reg (mkInner map (ri_writers inner) (delete id (ri_writer_for_conn inner)) conns meta))
  | None =>
      (None, set_inner reg (mkInner map (ri_writers inner) (ri_writer_for_conn inner) (ri_conns_for_writer inner) meta))
  end.

(** ** [route] (registry.rs:133-186)

    [freed] is the number of responses the receiver takes from the queue between the failed
    [try_send] and the reading of [capacity()]; [wait] is how the bounded wait ends: the response
    is sent once the receiver has drained at least one place, or the receiver is gone, or the
    time is over. *)

Inductive WaitOutcome := WaitSent (drained : Z) | WaitClosed | WaitTimeout.

Definition route_timeout (reg : ConnRegistry) (capacity : Z) : bool * Z :=
  let base_timeout_ms := Z.max (cg_base_timeout_ms reg) 1 in
  let high_timeout_ms := Z.max (cg_high_timeout_ms reg) base_timeout_ms in
  let high_watermark_pct := Z.max 1 (Z.min (cg_high_watermark_pct reg) 100) in
  let used := sat_sub ROUTE_CHANNEL_CAPACITY capacity in
  let used_pct := if ROUTE_CHANNEL_CAPACITY =? 0 then 100 else u8 (used * 100 / ROUTE_CHANNEL_CAPACITY) in
  let high_profile := high_watermark_pct <=? used_pct in
  (high_profile, if high_profile then high_timeout_ms else base_timeout_ms).

Definition route (reg : ConnRegistry) (id : Z) (resp : MeResponse) (freed : Z) (wait : WaitOutcome)
    : RouteResult * ConnRegistry :=
  match ri_map (cg_inner reg) !! id with
  | None => (NoConn, reg)
  | Some tx =>
      match cg_channels reg !! tx with
      | None => (ChannelClosed, reg)
      | Some c =>
          match try_send c resp with
          | SentOk c => (Routed, set_channel reg tx c)
          | SendClosed => (ChannelClosed, reg)
          | SendFull =>
              let '(high_profile, timeout_ms) := route_timeout reg (channel_capacity c + freed) in
              match wait with
              | WaitSent drained =>
                  (Routed, set_channel reg tx (mkChannel (zdrop (Z.max 1 drained) (ch_queue c) ++ [resp]) true))
              | WaitClosed => (ChannelClosed, reg)
              | WaitTimeout => (if high_profile then QueueFullHigh else QueueFullBase, reg)
              end
          end
      end
  end.

(** ** [bind_writer] and [get_writer] (registry.rs:188-212) *)

Definition bind_writer (reg : ConnRegistry) (conn_id writer_id tx : Z) (meta : ConnMeta) : ConnRegistry :=
  let inner := cg_inner reg in
  let meta' := match ri_meta inner !! conn_id with Some _ => ri_meta inner | None => <[conn_id := meta]> (ri_meta inner) end in
  let writer_for_conn := <[conn_id := writer_id]> (ri_writer_for_conn inner) in
  let writers := match ri_writers inner !! writer_id with Some _ => ri_writers inner | None => <[writer_id := tx]> (ri_writers inner) end in
  let set := default ∅ (ri_conns_for_writer inner !! writer_id) in
  let conns := <[writer_id := {[conn_id]} ∪ set]> (ri_conns_for_writer inner) in
  set_inner reg (mkInner (ri_map inner) writers writer_for_conn conns meta').

Definition get_writer (reg : ConnRegistry) (conn_id : Z) : option ConnWriter :=
  writer_id ← ri_writer_for_conn (cg_inner reg) !! conn_id;
  writer ← ri_writers (cg_inner reg) !! writer_id;
  Some (mkConnWriter writer_id writer).

(** ** [writer_lost] (registry.rs:214-235); the order of the connections is unspecified *)

Definition writer_lost (reg : ConnRegistry) (writer_id : Z) : list BoundConn * ConnRegistry :=
  let inner := cg_inner reg in
  let writers := delete writer_id (ri_writers inner) in
  let conns := elements (default ∅ (ri_conns_for_writer inner !! writer_id)) in
  let conns_for_writer := delete writer_id (ri_conns_for_writer inner) in
  let '(writer_for_conn, out) :=
    fold_left (fun '(writer_for_conn, out) conn_id =>
      (delete conn_id writer_for_conn,
       match ri_meta inner !! conn_id with Some m => out ++ [mkBoundConn conn_id m] | None => out end))
      conns (ri_writer_for_conn inner, []) in
  (out, set_inner reg (mkInner (ri_map inner) writers writer_for_conn conns_for_writer (ri_meta inner))).

(** ** [get_meta] and [is_writer_empty] (registry.rs:237-248) *)

Definition get_meta (reg : ConnRegistry) (conn_id : Z) : option ConnMeta := ri_meta (cg_inner reg) !! conn_id.

Definition is_writer_empty (reg : ConnRegistry) (writer_id : Z) : bool :=
  match ri_conns_for_writer (cg_inner reg) !! writer_id with
  | Some s => bool_decide (s = ∅)
  | None => true
  end.

(** ** Operations and reachable states

    A connection is bound only when [get_writer] finds no writer for it, as
    [MePool::send_proxy_req] does (send.rs:49, 203, 241).  A client task receives from its
    channel, and closes it when it ends. *)

Inductive reg_step : ConnRegistry -> ConnRegistry -> Prop :=
| st_register reg : reg_step reg (snd (register reg))
| st_unregister reg id : reg_step reg (snd (unregister reg id))
| st_route reg id resp freed wait : reg_step reg (snd (route reg id resp freed wait))
| st_bind reg conn_id writer_id tx meta :
    get_writer reg conn_id = None -> reg_step reg (bind_writer reg conn_id writer_id tx meta)
| st_writer_lost reg writer_id : reg_step reg (snd (writer_lost reg writer_id))
| st_recv reg tx resp queue open :
    cg_channels reg !! tx = Some (mkChannel (resp :: queue) open) ->
    reg_step reg (set_channel reg tx (mkChannel queue open))
| st_close reg tx queue open :
    cg_channels reg !! tx = Some (mkChannel queue open) -> reg_step reg (set_channel reg tx (mkChannel queue false))
| st_policy reg base high pct : reg_step reg (update_route_backpressure_policy reg base high pct).

Inductive reg_reachable (start : Z) : ConnRegistry -> Prop :=
| reach_new : reg_reachable start (ConnRegistry_new start)
| reach_step reg reg' : reg_reachable start reg -> reg_step reg reg' -> reg_reachable start reg'.

(** The two directions of the binding agree, and a bound connection has its metadata and a
    writer that can be sent to. *)
Definition inner_consistent (i : RegistryInner) : Prop :=
  (forall c w, ri_writer_for_conn i !! c = Some w <->
     exists s, ri_conns_for_writer i !! w = Some s /\ c ∈ s) /\
  (forall c w, ri_writer_for_conn i !! c = Some w ->
     is_Some (ri_writers i !! w) /\ is_Some (ri_meta i !! c)).

(** Every registered connection has a channel of its own, and no queue exceeds its capacity. *)
Definition channels_private (reg : ConnRegistry) : Prop :=
  (forall id tx, ri_map (cg_inner reg) !! id = Some tx ->
     is_Some (cg_channels reg !! tx) /\ tx < cg_next_channel reg) /\
  (forall id id' tx, ri_map (cg_inner reg) !! id = Some tx -> ri_map (cg_inner reg) !! id' = Some tx -> id = id') /\
  (forall tx c, cg_channels reg !! tx = Some c -> zlen (ch_queue c) <= ROUTE_CHANNEL_CAPACITY).

(** ** Preservation *)

Lemma consistent_unregister reg id :
  inner_consistent (cg_inner reg) -> inner_consistent (cg_inner (snd (unregister reg id))).
Proof.
  intros [Hb Hl]. unfold unregister. destruct (ri_writer_for_conn (cg_inner reg) !! id) as [w0|] eqn:E;
    cbn [snd set_inner cg_inner].
  - apply Hb in E as E'. destruct E' as (s0 & Hs0 & Hin). rewrite Hs0. split; cbn [ri_writer_for_conn ri_conns_for_writer ri_writers ri_meta].
    + intros c w. rewrite lookup_delete_Some, Hb. split.
      * intros (Hne & s & Hs & Hc). destruct (decide (w = w0)) as [->|].
        -- exists (s0 ∖ {[id]}). rewrite lookup_insert_eq. split; [done|]. set_solver.
        -- exists s. by rewrite lookup_insert_ne.
      * intros (s & Hs & Hc). destruct (decide (w = w0)) as [->|].
        -- rewrite lookup_insert_eq in Hs. injection Hs as <-. split; [set_solver|]. exists s0. set_solver.
        -- rewrite lookup_insert_ne in Hs by done. split; [|by exists s]. intros <-.
           assert (ri_writer_for_conn (cg_inner reg) !! id = Some w) by (apply Hb; by exists s). congruence.
    + intros c w [Hne Hc]%lookup_delete_Some. destruct (Hl c w Hc). by rewrite lookup_delete_ne.
  - split; cbn [ri_writer_for_conn ri_conns_for_writer ri_writers ri_meta]; [done|].
    intros c w Hc. destruct (Hl c w Hc). rewrite lookup_delete_ne by congruence. done.
Qed.

Lemma consistent_bind reg conn_id writer_id tx meta :
  inner_consistent (cg_inner reg) -> get_writer reg conn_id = None ->
  inner_consistent (cg_inner (bind_writer reg conn_id writer_id tx meta)).
Proof.
  intros [Hb Hl] Hg. assert (ri_writer_for_conn (cg_inner reg) !! conn_id = None) as Hfree.
  { destruct (ri_writer_for_conn _ !! conn_id) as [w|] eqn:E; [|done]. destruct (Hl _ _ E) as [[t Ht] _].
    unfold get_writer in Hg. rewrite E in Hg. cbn in Hg. by rewrite Ht in Hg. }
  unfold bind_writer. split; cbn [set_inner cg_inner ri_writer_for_conn ri_conns_for_writer ri_writers ri_meta].
  - intros c w. destruct (decide (c = conn_id)) as [->|Hc]; destruct (decide (w = writer_id)) as [->|Hw].
    + rewrite !lookup_insert_eq. split; [|done]. intros _. eexists. split; [done|]. set_solver.
    + rewrite lookup_insert_eq, lookup_insert_ne by done. split; [congruence|]. rewrite <-Hb. congruence.
    + rewrite lookup_insert_eq, lookup_insert_ne, Hb by done. split.
      * intros (s & Hs & Hin). rewrite Hs. eexists. split; [done|]. set_solver.
      * intros (s & [= <-] & Hin). destruct (ri_conns_for_writer _ !! writer_id) as [s|]; cbn in Hin; [exists s|]; set_solver.
    + by rewrite !lookup_insert_ne, Hb by done.
  - intros c w Hc.
    assert (w = writer_id \/ ri_writer_for_conn (cg_inner reg) !! c = Some w) as Hw
      by (destruct (decide (c = conn_id)) as [->|]; [rewrite lookup_insert_eq in Hc|rewrite lookup_insert_ne in Hc by done]; naive_solver).
    assert (c = conn_id \/ ri_writer_for_conn (cg_inner reg) !! c = Some w) as Hm
      by (destruct (decide (c = conn_id)) as [->|]; [by left|rewrite lookup_insert_ne in Hc by done; by right]).
    split.
    + destruct (ri_writers (cg_inner reg) !! writer_id) eqn:E; destruct Hw as [->|Hw].
      * done.
      * by apply Hl in Hw as [? _].
      * by rewrite lookup_insert_eq.
      * apply Hl in Hw as [? _]. destruct (decide (w = writer_id)) as [->|]; [by rewrite lookup_insert_eq|].
        by rewrite lookup_insert_ne.
    + destruct (ri_meta (cg_inner reg) !! conn_id) eqn:E; destruct Hm as [->|Hm].
      * done.
      * by apply Hl in Hm as [_ ?].
      * by rewrite lookup_insert_eq.
      * apply Hl in Hm as [_ ?]. destruct (decide (c = conn_id)) as [->|]; [by rewrite lookup_insert_eq|].
        by rewrite lookup_insert_ne.
Qed.

(** The loop of [writer_lost]. *)
Lemma writer_lost_loop (metas : gmap Z ConnMeta) (conns : list Z) (wfc : gmap Z Z) out :
  fold_left (fun '(writer_for_conn, out) conn_id =>
      (delete conn_id writer_for_conn,
       match metas !! conn_id with Some m => out ++ [mkBoundConn conn_id m] | None => out end))
    conns (wfc, out) =
  (foldr delete wfc (reverse conns),
   out ++ omap (fun c => mkBoundConn c <$> metas !! c) conns).
Proof.
  revert wfc out. induction conns as [|c conns IH]; intros wfc out; cbn [fold_left].
  - cbn. by rewrite app_nil_r.
  - rewrite IH, reverse_cons, foldr_app. f_equal. cbn. destruct (metas !! c); cbn; [|done]. by rewrite <-app_assoc.
Qed.

Lemma lookup_foldr_delete (wfc : gmap Z Z) l c :
  foldr delete wfc l !! c = if decide (c ∈ l) then None else wfc !! c.
Proof.
  induction l as [|x l IH]; [by rewrite decide_False by apply not_elem_of_nil|]. cbn [foldr].
  destruct (decide (c = x)) as [->|Hne].
  - rewrite lookup_delete_eq, decide_True by left. done.
  - rewrite lookup_delete_ne, IH by done.
    destruct (decide (c ∈ l)); [rewrite decide_True by by right|rewrite decide_False by set_solver]; done.
Qed.

Lemma writer_lost_lookup reg w c :
  ri_writer_for_conn (cg_inner (snd (writer_lost reg w))) !! c =
    if decide (c ∈ default ∅ (ri_conns_for_writer (cg_inner reg) !! w)) then None
    else ri_writer_for_conn (cg_inner reg) !! c.
Proof.
  unfold writer_lost. rewrite writer_lost_loop. cbn [snd set_inner cg_inner ri_writer_for_conn].
  rewrite lookup_foldr_delete. destruct (decide (c ∈ default _ _)) as [Hin|Hout].
  - by rewrite decide_True by by rewrite elem_of_reverse, elem_of_elements.
  - rewrite decide_False; [done|]. by rewrite elem_of_reverse, elem_of_elements.
Qed.

Lemma consistent_writer_lost reg w :
  inner_consistent (cg_inner reg) -> inner_consistent (cg_inner (snd (writer_lost reg w))).
Proof.
  intros [Hb Hl].
  assert (forall c, c ∈ default ∅ (ri_conns_for_writer (cg_inner reg) !! w) <->
    ri_writer_for_conn (cg_inner reg) !! c = Some w) as Hset.
  { intros c. rewrite Hb. destruct (ri_conns_for_writer _ !! w) as [s|] eqn:E; cbn; [naive_solver|].
    split; [by intros ?%not_elem_of_empty|naive_solver]. }
  assert (forall c w', ri_writer_for_conn (cg_inner (snd (writer_lost reg w))) !! c = Some w' <->
    w' <> w /\ ri_writer_for_conn (cg_inner reg) !! c = Some w') as Hkeep.
  { intros c w'. rewrite writer_lost_lookup. destruct (decide _) as [Hin|Hout].
    - apply Hset in Hin. naive_solver.
    - split; [|naive_solver]. intros Hc. split; [|done]. intros ->. by apply Hout, Hset. }
  split.
  - intros c w'. rewrite Hkeep, Hb. unfold writer_lost. rewrite writer_lost_loop. cbn [snd set_inner cg_inner ri_conns_for_writer].
    destruct (decide (w' = w)) as [->|]; [rewrite lookup_delete_eq; naive_solver|]. rewrite lookup_delete_ne by done. naive_solver.
  - intros c w' [Hne Hc]%Hkeep. destruct (Hl c w' Hc). unfold writer_lost. rewrite writer_lost_loop.
    cbn [snd set_inner cg_inner ri_writers ri_meta]. by rewrite lookup_delete_ne.
Qed.

Lemma route_inner reg id resp freed wait : cg_inner (snd (route reg id resp freed wait)) = cg_inner reg.
Proof.
  unfold route. destruct (ri_map _ !! id); [|done]. destruct (cg_channels reg !! _); [|done].
  destruct (try_send _ _); [done|done|]. destruct (route_timeout _ _). by destruct wait.
Qed.

Lemma step_consistent reg reg' : reg_step reg reg' -> inner_consistent (cg_inner reg) -> inner_consistent (cg_inner reg').
Proof.
  intros Hst IH.
  destruct Hst as [reg|reg id|reg id resp freed wait|reg conn_id writer_id tx meta Hg|reg w| | |reg base high pct].
  - exact IH.
  - by apply consistent_unregister.
  - by rewrite route_inner.
  - by apply consistent_bind.
  - by apply consistent_writer_lost.
  - exact IH.
  - exact IH.
  - exact IH.
Qed.

Lemma new_consistent start : inner_consistent (cg_inner (ConnRegistry_new start)).
Proof.
  split; intros c w; cbn [ConnRegistry_new cg_inner RegistryInner_new ri_writer_for_conn ri_conns_for_writer];
    rewrite lookup_empty; [|done]. split; [done|]. intros (s & Hs & _). by rewrite lookup_empty in Hs.
Qed.

Lemma reachable_consistent start reg : reg_reachable start reg -> inner_consistent (cg_inner reg).
Proof. induction 1; eauto using new_consistent, step_consistent. Qed.

Lemma unregister_map reg id : ri_map (cg_inner (snd (unregister reg id))) = delete id (ri_map (cg_inner reg)).
Proof. unfold unregister. by destruct (ri_writer_for_conn _ !! id). Qed.

(** Replacing a queue by one within the capacity keeps the channels in order. *)
Lemma channels_set reg tx c c' :
  channels_private reg -> cg_channels reg !! tx = Some c -> zlen (ch_queue c') <= ROUTE_CHANNEL_CAPACITY ->
  channels_private (set_channel reg tx c').
Proof.
  intros (Hc & Hi & Hq) Htx Hlen. split_and!; cbn [set_channel cg_inner cg_channels cg_next_channel]; [|done|].
  - intros id t [Hch Hlt]%Hc. split; [|done].
    destruct (decide (tx = t)) as [->|]; [by rewrite lookup_insert_eq|by rewrite lookup_insert_ne].
  - intros t ch. destruct (decide (tx = t)) as [->|]; [rewrite lookup_insert_eq; by intros [= <-]|].
    rewrite lookup_insert_ne by done. apply Hq.
Qed.

Lemma try_send_spec c resp :
  match try_send c resp with
  | SentOk c' => c' = mkChannel (ch_queue c ++ [resp]) true /\ zlen (ch_queue c') <= ROUTE_CHANNEL_CAPACITY
  | SendClosed => ch_open c = false
  | SendFull => ROUTE_CHANNEL_CAPACITY <= zlen (ch_queue c)
  end.
Proof.
  unfold try_send. destruct (ch_open c); [|done]. cbn [negb].
  destruct (Z.leb_spec ROUTE_CHANNEL_CAPACITY (zlen (ch_queue c))); [done|]. split; [done|]. cbn [ch_queue].
  rewrite zlen_app. change (zlen [resp]) with 1. lia.
Qed.

Lemma channels_route reg id resp freed wait :
  channels_private reg -> channels_private (snd (route reg id resp freed wait)).
Proof.
  intros Hp. unfold route. destruct (ri_map _ !! id) as [tx|]; [|done].
  destruct (cg_channels reg !! tx) as [c|] eqn:Etx; [|done]. pose proof (try_send_spec c resp) as Hs.
  destruct (try_send c resp) as [c'| |]; [destruct Hs; by eapply channels_set|done|].
  destruct (route_timeout _ _). destruct wait as [drained| |]; [|done|done].
  eapply channels_set; [done|done|]. cbn [ch_queue]. pose proof Hp as (_ & _ & Hq). apply Hq in Etx.
  rewrite zlen_app, zlen_zdrop. change (zlen [resp]) with 1. unfold ROUTE_CHANNEL_CAPACITY in *. lia.
Qed.

Lemma channels_register reg : channels_private reg -> channels_private (snd (register reg)).
Proof.
  intros (Hc & Hi & Hq). unfold register. split_and!; cbn [snd cg_inner ri_map cg_channels cg_next_channel].
  - intros id tx. destruct (decide (id = cg_next_id reg)) as [->|Hne].
    + rewrite lookup_insert_eq. intros [= <-]. rewrite lookup_insert_eq. split; [done|lia].
    + rewrite lookup_insert_ne by done. intros [Hch Hlt]%Hc. rewrite lookup_insert_ne by lia. split; [done|lia].
  - intros id id' tx. destruct (decide (id = cg_next_id reg)) as [->|Hne], (decide (id' = cg_next_id reg)) as [->|Hne'];
      rewrite ?lookup_insert_eq, ?lookup_insert_ne by done; intros H1 H2; simplify_eq; [done| | |by eapply Hi].
    + apply Hc in H2 as [_ ?]. lia.
    + apply Hc in H1 as [_ ?]. lia.
  - intros tx c. destruct (decide (tx = cg_next_channel reg)) as [->|].
    + rewrite lookup_insert_eq. by intros [= <-].
    + rewrite lookup_insert_ne by done. apply Hq.
Qed.

Lemma channels_unregister reg id : channels_private reg -> channels_private (snd (unregister reg id)).
Proof.
  intros (Hc & Hi & Hq). assert (cg_channels (snd (unregister reg id)) = cg_channels reg /\
    cg_next_channel (snd (unregister reg id)) = cg_next_channel reg) as [E1 E2]
    by (unfold unregister; by destruct (ri_writer_for_conn _ !! id)).
  split_and!; rewrite ?unregister_map, ?E1, ?E2; [| |done].
  - intros ? ? [_ ?]%lookup_delete_Some. by eapply Hc.
  - intros ? ? ? [_ ?]%lookup_delete_Some [_ ?]%lookup_delete_Some. by eapply Hi.
Qed.

Lemma step_channels reg reg' : reg_step reg reg' -> channels_private reg -> channels_private reg'.
Proof.
  intros Hst IH.
  destruct Hst as [reg|reg id|reg id resp freed wait|reg conn_id writer_id tx meta Hg|reg w|reg tx resp queue open E
    |reg tx queue open E|reg base high pct].
  - by apply channels_register.
  - by apply channels_unregister.
  - by apply channels_route.
  - done.
  - unfold writer_lost. rewrite writer_lost_loop. done.
  - eapply channels_set; [done|done|]. destruct IH as (_ & _ & Hq). apply Hq in E. cbn [ch_queue] in *.
    rewrite zlen_cons in E. lia.
  - eapply channels_set; [done|done|]. destruct IH as (_ & _ & Hq). by apply Hq in E.
  - done.
Qed.

Lemma new_channels start : channels_private (ConnRegistry_new start).
Proof. split_and!; cbn [ConnRegistry_new cg_inner cg_channels RegistryInner_new ri_map]; intros *; by rewrite lookup_empty. Qed.

Lemma reachable_channels start reg : reg_reachable start reg -> channels_private reg.
Proof. induction 1; eauto using new_channels, step_channels. Qed.

(** ** Claims *)

(** In every reachable registry the two maps of the binding are inverse to each other, and a
    bound connection has its metadata and a live writer: so [get_writer] answers exactly for
    bound connections and [is_writer_empty] exactly for writers that serve none. *)
Theorem registry_binding_consistent start reg conn_id writer_id :
  reg_reachable start reg ->
  (ri_writer_for_conn (cg_inner reg) !! conn_id = Some writer_id <->
     exists s, ri_conns_for_writer (cg_inner reg) !! writer_id = Some s /\ conn_id ∈ s) /\
  (get_writer reg conn_id = None <-> ri_writer_for_conn (cg_inner reg) !! conn_id = None) /\
  (is_writer_empty reg writer_id = true <->
     forall c, ri_writer_for_conn (cg_inner reg) !! c <> Some writer_id).
Proof.
  intros [Hb Hl]%reachable_consistent. split; [done|]. split.
  - unfold get_writer. destruct (ri_writer_for_conn _ !! conn_id) as [w|] eqn:E; cbn; [|done].
    destruct (Hl _ _ E) as [[t Ht] _]. rewrite Ht. done.
  - unfold is_writer_empty. destruct (ri_conns_for_writer _ !! writer_id) as [s|] eqn:E.
    + rewrite bool_decide_eq_true. split.
      * intros -> c (s' & Hs & Hc)%Hb. simplify_eq. by apply not_elem_of_empty in Hc.
      * intros Hno. apply set_eq. intros c. split; [|by intros ?%not_elem_of_empty].
        intros Hc. destruct (Hno c). apply Hb. by exists s.
    + split; [|done]. intros _ c (s & Hs & _)%Hb. congruence.
Qed.

Lemma bound_conn_ids (metas : gmap Z ConnMeta) l :
  Forall (fun c => is_Some (metas !! c)) l -> map bc_conn_id (omap (fun c => mkBoundConn c <$> metas !! c) l) = l.
Proof. induction 1 as [|c l [m Hm] _ IH]; [done|]. cbn. rewrite Hm. cbn. f_equal. exact IH. Qed.

Lemma writer_lost_spec reg writer_id :
  inner_consistent (cg_inner reg) ->
  let '(lost, reg') := writer_lost reg writer_id in
  NoDup (map bc_conn_id lost) /\
  (forall b, b ∈ lost <-> ri_writer_for_conn (cg_inner reg) !! bc_conn_id b = Some writer_id /\
                         get_meta reg (bc_conn_id b) = Some (bc_meta b)) /\
  (forall c, ri_writer_for_conn (cg_inner reg') !! c =
     if decide (ri_writer_for_conn (cg_inner reg) !! c = Some writer_id) then None
     else ri_writer_for_conn (cg_inner reg) !! c).
Proof.
  intros [Hb Hl]. pose proof (writer_lost_lookup reg writer_id) as Hlk.
  destruct (writer_lost reg writer_id) as [lost reg'] eqn:E. cbn [snd] in Hlk.
  set (conns := default ∅ (ri_conns_for_writer (cg_inner reg) !! writer_id)) in *.
  assert (forall c, c ∈ conns <-> ri_writer_for_conn (cg_inner reg) !! c = Some writer_id) as Hset.
  { intros c. rewrite Hb. unfold conns. destruct (ri_conns_for_writer _ !! writer_id) as [s|]; cbn; [naive_solver|].
    split; [by intros ?%not_elem_of_empty|naive_solver]. }
  assert (lost = omap (fun c => mkBoundConn c <$> ri_meta (cg_inner reg) !! c) (elements conns)) as ->.
  { unfold writer_lost in E. rewrite writer_lost_loop in E. injection E as <- _. done. }
  split_and!.
  - rewrite bound_conn_ids.
    2:{ apply Forall_forall. intros c Hc. apply elem_of_elements, Hset, Hl in Hc as [_ ?]. done. }
    apply NoDup_elements.
  - intros [c m]. rewrite list_elem_of_omap. cbn [bc_conn_id bc_meta]. unfold get_meta. split.
    + intros (c' & Hc' & Hm). apply elem_of_elements, Hset in Hc'. apply fmap_Some in Hm as (m' & Hm' & [= <- <-]). done.
    + intros [Hc Hm]. exists c. rewrite elem_of_elements, Hset, Hm. done.
  - intros c. rewrite Hlk. destruct (decide (c ∈ conns)) as [Hc|Hc], (decide (_ = _)) as [Hw|Hw]; try done;
      exfalso; rewrite Hset in Hc; done.
Qed.

(** Losing a writer reports exactly the connections it served, each once and with its
    metadata, unbinds them, and leaves every other connection bound as before. *)
Theorem writer_lost_exact start reg writer_id :
  reg_reachable start reg ->
  let '(lost, reg') := writer_lost reg writer_id in
  NoDup (map bc_conn_id lost) /\
  (forall b, b ∈ lost <-> ri_writer_for_conn (cg_inner reg) !! bc_conn_id b = Some writer_id /\
                         get_meta reg (bc_conn_id b) = Some (bc_meta b)) /\
  (forall c, ri_writer_for_conn (cg_inner reg') !! c =
     if decide (ri_writer_for_conn (cg_inner reg) !! c = Some writer_id) then None
     else ri_writer_for_conn (cg_inner reg) !! c).
Proof. intros Hr. by eapply writer_lost_spec, reachable_consistent. Qed.

Lemma route_spec reg id resp freed wait :
  channels_private reg -> 0 <= freed ->
  let '(r, reg') := route reg id resp freed wait in
  cg_inner reg' = cg_inner reg /\
  (ri_map (cg_inner reg) !! id = None <-> r = NoConn) /\
  (forall tx c, ri_map (cg_inner reg) !! id = Some tx -> cg_channels reg !! tx = Some c ->
     ch_open c = true -> zlen (ch_queue c) < ROUTE_CHANNEL_CAPACITY ->
     r = Routed /\ cg_channels reg' !! tx = Some (mkChannel (ch_queue c ++ [resp]) true)) /\
  (forall id' tx', id' <> id -> ri_map (cg_inner reg) !! id' = Some tx' ->
     cg_channels reg' !! tx' = cg_channels reg !! tx') /\
  (r = QueueFullBase -> 0 < freed).
Proof.
  intros (Hc & Hi & Hq) Hf. pose proof (route_inner reg id resp freed wait) as Hin. revert Hin. unfold route.
  destruct (ri_map (cg_inner reg) !! id) as [tx|] eqn:Eid; [|intros _; split_and!; done].
  destruct (Hc _ _ Eid) as [[c Htx] _]. rewrite Htx.
  assert (forall c', forall id' tx', id' <> id -> ri_map (cg_inner reg) !! id' = Some tx' ->
    <[tx := c']> (cg_channels reg) !! tx' = cg_channels reg !! tx') as Hother.
  { intros c' id' tx' Hne Hid'. rewrite lookup_insert_ne; [done|]. intros ->. by destruct Hne; eapply Hi. }
  pose proof (try_send_spec c resp) as Hs. destruct (try_send c resp) as [c'| |] eqn:Es.
  - destruct Hs as [-> _]. cbn [snd set_channel cg_inner cg_channels]. intros _. split_and!; [done|done| |apply Hother|done].
    intros tx0 c0 [= <-] Hc0 _ _. rewrite lookup_insert_eq. split; [done|]. congruence.
  - cbn [snd]. intros _. split_and!; [done|done| |done|done]. intros tx0 c0 [= <-] Hc0 Ho. congruence.
  - pose proof (Hq _ _ Htx) as Hle.
    destruct (route_timeout reg (channel_capacity c + freed)) as [high ms] eqn:Et.
    assert (forall tx0 c0, Some tx = Some tx0 -> cg_channels reg !! tx0 = Some c0 ->
      ch_open c0 = true -> zlen (ch_queue c0) < ROUTE_CHANNEL_CAPACITY -> False) as Hfull
      by (intros tx0 c0 [= <-] Hc0 _ Hlt; replace c0 with c in * by congruence; lia).
    destruct wait; cbn [snd set_channel cg_inner cg_channels]; intros _;
      (split_and!; [done|by destruct high|by intros; exfalso; eapply Hfull|done || apply Hother|]); [done|done|].
    intros Hbase. destruct high; [done|]. destruct (Z.eq_dec freed 0) as [->|]; [|lia].
    unfold route_timeout, channel_capacity in Et. injection Et as Ehigh _. exfalso. revert Ehigh.
    replace (zlen (ch_queue c)) with ROUTE_CHANNEL_CAPACITY by lia.
    change (u8 (sat_sub ROUTE_CHANNEL_CAPACITY (ROUTE_CHANNEL_CAPACITY - ROUTE_CHANNEL_CAPACITY + 0) * 100 / ROUTE_CHANNEL_CAPACITY)) with 100.
    change (ROUTE_CHANNEL_CAPACITY =? 0) with false. cbn iota. rewrite Z.leb_gt. lia.
Qed.

(** Routing.  A response for a registered connection whose queue has room is appended to that
    queue and to no other, and never waits; an unknown connection is reported as such; nothing
    but queues changes; and a full queue is judged by the high profile unless the receiver takes
    something from it between the two looks at it. *)
Theorem route_delivers start reg id resp freed wait :
  reg_reachable start reg -> 0 <= freed ->
  let '(r, reg') := route reg id resp freed wait in
  cg_inner reg' = cg_inner reg /\
  (ri_map (cg_inner reg) !! id = None <-> r = NoConn) /\
  (forall tx c, ri_map (cg_inner reg) !! id = Some tx -> cg_channels reg !! tx = Some c ->
     ch_open c = true -> zlen (ch_queue c) < ROUTE_CHANNEL_CAPACITY ->
     r = Routed /\ cg_channels reg' !! tx = Some (mkChannel (ch_queue c ++ [resp]) true)) /\
  (forall id' tx', id' <> id -> ri_map (cg_inner reg) !! id' = Some tx' ->
     cg_channels reg' !! tx' = cg_channels reg !! tx') /\
  (r = QueueFullBase -> 0 < freed).
Proof. intros Hr. by eapply route_spec, reachable_channels. Qed.

(** ** Instances *)

Definition demo_addr : SocketAddr := mkSocketAddr (V4 [10; 0; 0; 1]) 443.
Definition demo_meta : ConnMeta := mkConnMeta 2 demo_addr demo_addr 0.
Definition demo_registered : ConnRegistry := snd (register (ConnRegistry_new 6)).
Definition demo_registry : ConnRegistry := bind_writer demo_registered 7 1 100 demo_meta.

Lemma demo_registry_reachable : reg_reachable 6 demo_registry.
Proof.
  apply (reach_step _ demo_registered); [|by apply st_bind].
  apply (reach_step _ (ConnRegistry_new 6)); [apply reach_new|apply st_register].
Qed.

