(* ===== verification/MeReader.v ===== *)
(** * The middle-proxy reader task: [transport/middle_proxy/reader.rs]

    The task decrypts the CBC stream of one middle-proxy connection in whole blocks, cuts it into
    RPC frames, checks them, and dispatches each payload: answers and acknowledgements go to the
    client connection they name, closes unregister it, pings are answered.  The registry, the
    queue to the writer task and the statistics are the environment the task works on.  The
    round-trip-time averages kept for pongs are floating point and are not modelled; the samples
    they are fed are. *)

From stdpp Require Import gmap.
From S2P Require Import Prelude Errors Crypto Constants RpcCodec NetAddr Wire Registry.

(** ** Environment *)

Record MeStats := mkMeStats {
  ms_reader_eof : Z;
  ms_crc_mismatch : Z;
  ms_seq_mismatch : Z;
  ms_drop_no_conn : Z;
  ms_drop_channel_closed : Z;
  ms_drop_queue_full : Z;
  ms_drop_queue_full_base : Z;
  ms_drop_queue_full_high : Z;
  ms_keepalive_pong : Z
}.

(** [me_waits] decides how the waits of [route] end, in turn; [me_rtt_samples] are the trackers'
    entries that pongs have matched. *)
Record MeEnv := mkMeEnv {
  me_reg : ConnRegistry;
  me_tx : list WriterCommand;
  me_tx_open : bool;
  me_stats : MeStats;
  me_pings : gmap Z (Z * Z);
  me_rtt_samples : list (Z * Z);
  me_waits : list (Z * WaitOutcome)
}.

Definition with_reg (e : MeEnv) (reg : ConnRegistry) : MeEnv :=
  mkMeEnv reg (me_tx e) (me_tx_open e) (me_stats e) (me_pings e) (me_rtt_samples e) (me_waits e).
Definition with_stats (e : MeEnv) (st : MeStats) : MeEnv :=
  mkMeEnv (me_reg e) (me_tx e) (me_tx_open e) st (me_pings e) (me_rtt_samples e) (me_waits e).

(** [tx.send(cmd).await]: fails when the writer task is gone. *)
Definition tx_send (e : MeEnv) (cmd : WriterCommand) : bool * MeEnv :=
  if me_tx_open e then
    (true, mkMeEnv (me_reg e) (me_tx e ++ [cmd]) true (me_stats e) (me_pings e) (me_rtt_samples e) (me_waits e))
  else (false, e).

Definition me_route (e : MeEnv) (cid : Z) (resp : MeResponse) : RouteResult * MeEnv :=
  let '(freed, wait) := default (0, WaitTimeout) (head (me_waits e)) in
  let '(r, reg) := route (me_reg e) cid resp freed wait in
  (r, mkMeEnv reg (me_tx e) (me_tx_open e) (me_stats e) (me_pings e) (me_rtt_samples e) (tail (me_waits e))).

Definition me_unregister (e : MeEnv) (cid : Z) : MeEnv := with_reg e (snd (unregister (me_reg e) cid)).

(** [send_close_conn] (reader.rs:220-226) *)
Definition send_close_conn (e : MeEnv) (conn_id : Z) : MeEnv :=
  snd (tx_send e (WDataAndFlush (le_bytes 4 RPC_CLOSE_CONN_U32 ++ le_bytes 8 conn_id))).

(** The statistics of a response that could not be routed. *)
Definition count_drop (routed : RouteResult) (s : MeStats) : MeStats :=
  match routed with
  | NoConn => mkMeStats (ms_reader_eof s) (ms_crc_mismatch s) (ms_seq_mismatch s) (ms_drop_no_conn s + 1)
      (ms_drop_channel_closed s) (ms_drop_queue_full s) (ms_drop_queue_full_base s) (ms_drop_queue_full_high s) (ms_keepalive_pong s)
  | ChannelClosed => mkMeStats (ms_reader_eof s) (ms_crc_mismatch s) (ms_seq_mismatch s) (ms_drop_no_conn s)
      (ms_drop_channel_closed s + 1) (ms_drop_queue_full s) (ms_drop_queue_full_base s) (ms_drop_queue_full_high s) (ms_keepalive_pong s)
  | QueueFullBase => mkMeStats (ms_reader_eof s) (ms_crc_mismatch s) (ms_seq_mismatch s) (ms_drop_no_conn s)
      (ms_drop_channel_closed s) (ms_drop_queue_full s + 1) (ms_drop_queue_full_base s + 1) (ms_drop_queue_full_high s) (ms_keepalive_pong s)
  | QueueFullHigh => mkMeStats (ms_reader_eof s) (ms_crc_mismatch s) (ms_seq_mismatch s) (ms_drop_no_conn s)
      (ms_drop_channel_closed s) (ms_drop_queue_full s + 1) (ms_drop_queue_full_base s) (ms_drop_queue_full_high s + 1) (ms_keepalive_pong s)
  | Routed => s
  end.

(** Routing an answer or an acknowledgement: a connection it cannot reach is unregistered and
    the middle proxy is told to close it. *)
Definition route_or_close (e : MeEnv) (cid : Z) (resp : MeResponse) : MeEnv :=
  let '(routed, e) := me_route e cid resp in
  if decide (routed = Routed) then e
  else
    let e := with_stats e (count_drop routed (me_stats e)) in
    send_close_conn (me_unregister e cid) cid.

(** ** Dispatch of one payload (reader.rs:112-216); [false] leaves the frame loop *)

Definition handle_payload (e : MeEnv) (payload : bytes) : MeEnv * bool :=
  if zlen payload <? 4 then (e, true)
  else
    let pt := le_val (slice payload 0 4) in
    let body := zdrop 4 payload in
    if (pt =? RPC_PROXY_ANS_U32) && (12 <=? zlen body) then
      let flags := le_val (slice body 0 4) in
      let cid := le_val (slice body 4 12) in
      let data := zdrop 12 body in
      (route_or_close e cid (MeData flags data), true)
    else if (pt =? RPC_SIMPLE_ACK_U32) && (12 <=? zlen body) then
      let cid := le_val (slice body 0 8) in
      let cfm := le_val (slice body 8 12) in
      (route_or_close e cid (MeAck cfm), true)
    else if (pt =? RPC_CLOSE_EXT_U32) && (8 <=? zlen body) then
      let cid := le_val (slice body 0 8) in
      (me_unregister (snd (me_route e cid MeClose)) cid, true)
    else if (pt =? RPC_CLOSE_CONN_U32) && (8 <=? zlen body) then
      let cid := le_val (slice body 0 8) in
      (me_unregister (snd (me_route e cid MeClose)) cid, true)
    else if (pt =? RPC_PING_U32) && (8 <=? zlen body) then
      let ping_id := i64 (le_val (slice body 0 8)) in
      let '(sent, e) := tx_send e (WDataAndFlush (le_bytes 4 RPC_PONG_U32 ++ le_bytes 8 ping_id)) in
      (e, sent)
    else if (pt =? RPC_PONG_U32) && (8 <=? zlen body) then
      let ping_id := i64 (le_val (slice body 0 8)) in
      let s := me_stats e in
      let e := with_stats e (mkMeStats (ms_reader_eof s) (ms_crc_mismatch s) (ms_seq_mismatch s) (ms_drop_no_conn s)
        (ms_drop_channel_closed s) (ms_drop_queue_full s) (ms_drop_queue_full_base s) (ms_drop_queue_full_high s)
        (ms_keepalive_pong s + 1)) in
      match me_pings e !! ping_id with
      | Some sample =>
          (mkMeEnv (me_reg e) (me_tx e) (me_tx_open e) (me_stats e) (delete ping_id (me_pings e))
             (me_rtt_samples e ++ [sample]) (me_waits e), true)
      | None => (e, true)
      end
    else (e, true).

(** ** The loop (reader.rs:23-218) *)

Record ReaderLoop := mkReaderLoop {
  rl_raw : bytes;
  rl_div : bytes;
  rl_dec : bytes;
  rl_expected_seq : Z;
  rl_env : MeEnv
}.

Definition count_crc (s : MeStats) : MeStats :=
  mkMeStats (ms_reader_eof s) (ms_crc_mismatch s + 1) (ms_seq_mismatch s) (ms_drop_no_conn s)
    (ms_drop_channel_closed s) (ms_drop_queue_full s) (ms_drop_queue_full_base s) (ms_drop_queue_full_high s) (ms_keepalive_pong s).
Definition count_seq (s : MeStats) : MeStats :=
  mkMeStats (ms_reader_eof s) (ms_crc_mismatch s) (ms_seq_mismatch s + 1) (ms_drop_no_conn s)
    (ms_drop_channel_closed s) (ms_drop_queue_full s) (ms_drop_queue_full_base s) (ms_drop_queue_full_high s) (ms_keepalive_pong s).
Definition count_eof (s : MeStats) : MeStats :=
  mkMeStats (ms_reader_eof s + 1) (ms_crc_mismatch s) (ms_seq_mismatch s) (ms_drop_no_conn s)
    (ms_drop_channel_closed s) (ms_drop_queue_full s) (ms_drop_queue_full_base s) (ms_drop_queue_full_high s) (ms_keepalive_pong s).

Definition rl_update (st : ReaderLoop) (dec : bytes) (seq : Z) (env : MeEnv) : ReaderLoop :=
  mkReaderLoop (rl_raw st) (rl_div st) dec seq env.

Section Loop.
Context `{Digests} `{BlockCipher}.
Variable dk : bytes.
Variable crc_mode : RpcChecksumMode.

(** [while dec.len() >= 12]: every turn that stays in the loop consumes at least 4 bytes. *)
Fixpoint rl_frames (fuel : nat) (st : ReaderLoop) : option (result ProxyError unit * ReaderLoop) :=
  match fuel with
  | O => None
  | S fuel =>
      let dec := rl_dec st in
      let env := rl_env st in
      if 12 <=? zlen dec then
        let fl := le_val (slice dec 0 4) in
        if fl =? 4 then rl_frames fuel (rl_update st (zdrop 4 dec) (rl_expected_seq st) env)
        else if negb ((12 <=? fl) && (fl <=? Z.shiftl 1 24)) then
          Some (Ok tt, rl_update st [] (rl_expected_seq st) env)
        else if zlen dec <? fl then Some (Ok tt, st)
        else
          let frame := ztake fl dec in
          let dec := zdrop fl dec in
          let pe := fl - 4 in
          let ec := le_val (slice frame pe (pe + 4)) in
          let actual_crc := rpc_crc crc_mode (ztake pe frame) in
          if negb (actual_crc =? ec) then
            Some (Err (PE_Proxy "CRC mismatch (crypto desync)"),
                  rl_update st dec (rl_expected_seq st) (with_stats env (count_crc (me_stats env))))
          else
            let seq_no := i32 (le_val (slice frame 4 8)) in
            if negb (seq_no =? rl_expected_seq st) then
              Some (Err (PE_SeqNoMismatch (rl_expected_seq st) seq_no),
                    rl_update st dec (rl_expected_seq st) (with_stats env (count_seq (me_stats env))))
            else
              let expected_seq := i32 (rl_expected_seq st + 1) in
              let payload := slice frame 8 pe in
              let '(env, continue) := handle_payload env payload in
              let st := rl_update st dec expected_seq env in
              if continue : bool then rl_frames fuel st else Some (Ok tt, st)
      else Some (Ok tt, st)
  end.

(** The decryption of the whole blocks received so far. *)
Definition rl_decrypt (st : ReaderLoop) : result ProxyError ReaderLoop :=
  let raw := rl_raw st in
  let blocks := zlen raw / 16 * 16 in
  if 0 <? blocks then
    let new_iv := slice raw (blocks - 16) blocks in
    match AesCbc_decrypt_in_place (mkAesCbc dk (rl_div st)) (ztake blocks raw) with
    | Err _ => Err (PE_Crypto "{e}" [])
    | Ok chunk =>
        Ok (mkReaderLoop (zdrop blocks raw) new_iv (rl_dec st ++ chunk) (rl_expected_seq st) (rl_env st))
    end
  else Ok st.

(** One turn of the outer loop: [rd.read] has returned the bytes [tmp]. *)
Definition rl_step (st : ReaderLoop) (tmp : bytes) : option (result ProxyError unit * ReaderLoop) :=
  if zlen tmp =? 0 then
    Some (Err (PE_Io (mkIoError UnexpectedEof "ME socket closed by peer" [])),
          rl_update st (rl_dec st) (rl_expected_seq st) (with_stats (rl_env st) (count_eof (me_stats (rl_env st)))))
  else
    let st := mkReaderLoop (rl_raw st ++ tmp) (rl_div st) (rl_dec st) (rl_expected_seq st) (rl_env st) in
    match rl_decrypt st with
    | Err e => Some (Err e, st)
    | Ok st => rl_frames (S (length (rl_dec st))) st
    end.

Fixpoint rl_steps (st : ReaderLoop) (reads : list bytes) : option (result ProxyError unit * ReaderLoop) :=
  match reads with
  | [] => Some (Ok tt, st)
  | tmp :: reads =>
      match rl_step st tmp with
      | Some (Ok _, st) => rl_steps st reads
      | r => r
      end
  end.

(** [reader_loop(...)] enters with what the handshake has left over. *)
Definition reader_loop_start (div enc_leftover dec : bytes) (env : MeEnv) : ReaderLoop :=
  mkReaderLoop enc_leftover div dec 0 env.

End Loop.

(** ** Facts *)

Lemma tx_send_open e cmd : me_tx_open (snd (tx_send e cmd)) = me_tx_open e /\ fst (tx_send e cmd) = me_tx_open e.
Proof. unfold tx_send. by destruct (me_tx_open e) eqn:E. Qed.

Lemma me_route_open e cid resp : me_tx_open (snd (me_route e cid resp)) = me_tx_open e.
Proof.
  unfold me_route. destruct (default _ _) as [freed wait]. by destruct (route (me_reg e) cid resp freed wait).
Qed.

Lemma route_or_close_open e cid resp : me_tx_open (route_or_close e cid resp) = me_tx_open e.
Proof.
  unfold route_or_close. pose proof (me_route_open e cid resp) as Hr. destruct (me_route e cid resp) as [r e'].
  cbn [snd] in Hr. destruct (decide (r = Routed)); [done|]. unfold send_close_conn.
  by rewrite (proj1 (tx_send_open _ _)).
Qed.

(** While the writer task lives, dispatching never leaves the loop. *)
Lemma handle_payload_open e p :
  me_tx_open e = true -> me_tx_open (fst (handle_payload e p)) = true /\ snd (handle_payload e p) = true.
Proof.
  intros Ho. unfold handle_payload. destruct (_ <? 4); [done|].
  destruct (_ && _); [by rewrite <-Ho at 1; cbn; rewrite route_or_close_open|].
  destruct (_ && _); [by rewrite <-Ho at 1; cbn; rewrite route_or_close_open|].
  destruct (_ && _); [cbn; by rewrite me_route_open|]. destruct (_ && _); [cbn; by rewrite me_route_open|].
  destruct (_ && _).
  - pose proof (tx_send_open e (WDataAndFlush (le_bytes 4 RPC_PONG_U32 ++ le_bytes 8 (i64 (le_val (slice (zdrop 4 p) 0 8)))))) as [H1 H2].
    destruct (tx_send e _). cbn [fst snd] in *. by rewrite H1, H2.
  - destruct (_ && _); [|done]. by destruct (_ !! _).
Qed.

(** What the task has done after the payloads [ps]. *)
Definition handled (env : MeEnv) (ps : list bytes) : MeEnv := fold_left (fun e p => fst (handle_payload e p)) ps env.

Definition seq_after (seq : Z) (ps : list bytes) : Z := fold_left (fun s _ => i32 (s + 1)) ps seq.

(** A payload of a frame that fills whole words. *)
Definition link_payload (p : bytes) : Prop := rpc_payload_ok p /\ zlen p mod 4 = 0.

#[global] Instance link_payload_dec p : Decision (link_payload p).
Proof. unfold link_payload. apply _. Defined.

Section LinkFacts.
Context `{DigestsOk} `{BlockCipherOk}.
Variable dk : bytes.
Variable mode : RpcChecksumMode.

Lemma fillers_cons j : fillers (S j) = PADDING_FILLER ++ fillers j.
Proof. done. Qed.

Lemma rpc_plain_cons seq p ps :
  link_payload p -> exists k,
    rpc_plain mode seq (p :: ps) = build_rpc_frame seq p mode ++ fillers k ++ rpc_plain mode (i32 (seq + 1)) ps.
Proof.
  intros [Hp Hm]. destruct (build_rpc_frame_eq seq p mode Hp) as (_ & Hlen & _).
  destruct (pad_to_block_fillers (build_rpc_frame seq p mode)) as (k & E & _).
  { rewrite Hlen. Z.div_mod_to_equations. lia. }
  exists k. cbn [rpc_plain]. by rewrite E, <-app_assoc.
Qed.

(** The prefix of a common list. *)
Lemma app_prefix_take {A} (a b c d : list A) : a ++ b = c ++ d -> zlen c <= zlen a -> a = c ++ zdrop (zlen c) a /\ zdrop (zlen c) a ++ b = d.
Proof.
  intros E Hl. assert (ztake (zlen c) a = c) as Ht.
  { apply (f_equal (ztake (zlen c))) in E. rewrite ztake_app_le, (ztake_app _ c) in E by done. done. }
  split; [by rewrite <-Ht at 1; rewrite ztake_zdrop|].
  apply (app_inv_head c). rewrite <-E, app_assoc. f_equal. by rewrite <-Ht at 1; rewrite ztake_zdrop.
Qed.

(** What a run of the frame loop achieves on a buffer that is a prefix of the plaintext of the
    payloads [ps], after [j] padding words: it handles the complete frames. *)
Definition frames_post (st : ReaderLoop) (later : bytes) (ps : list bytes) (st' : ReaderLoop) : Prop :=
  exists ps1 ps2 j', ps = ps1 ++ ps2 /\ rl_env st' = handled (rl_env st) ps1 /\
    rl_expected_seq st' = seq_after (rl_expected_seq st) ps1 /\ rl_raw st' = rl_raw st /\ rl_div st' = rl_div st /\
    rl_dec st' ++ later = fillers j' ++ rpc_plain mode (rl_expected_seq st') ps2 /\
    in_i32 (rl_expected_seq st') /\ me_tx_open (rl_env st') = true /\ (later = [] -> ps2 = []).

Lemma frame_prefix seq p rest buf later :
  link_payload p -> buf ++ later = build_rpc_frame seq p mode ++ rest -> 12 <= zlen buf ->
  slice buf 0 4 = le_bytes 4 (zlen p + 12) /\ zlen (build_rpc_frame seq p mode) = zlen p + 12 /\
  (zlen p + 12 <= zlen buf -> ztake (zlen p + 12) buf = build_rpc_frame seq p mode /\ zdrop (zlen p + 12) buf ++ later = rest).
Proof.
  intros [Hp Hm] E Hl. destruct (build_rpc_frame_eq seq p mode Hp) as (_ & Hlen & _).
  destruct (rpc_frame_fields seq p mode rest Hp) as (F1 & _). split_and!; [|done|].
  - unfold slice. rewrite zdrop_0 by lia. change (4 - 0) with 4. rewrite <-F1, <-E, ztake_app_le by lia. done.
  - intros Hfit. destruct (app_prefix_take buf later (build_rpc_frame seq p mode) rest E) as [E1 E2]; [lia|].
    rewrite Hlen in *. split; [|done]. rewrite E1. by apply ztake_app.
Qed.

Lemma frames_nil_later buf seq ps j :
  Forall link_payload ps -> buf = fillers j ++ rpc_plain mode seq ps -> zlen buf < 12 -> ps = [].
Proof.
  intros Hps E Hl. destruct ps as [|p ps]; [done|]. apply Forall_cons in Hps as [Hp _].
  destruct (rpc_plain_cons seq p ps Hp) as [k Ek]. destruct Hp as [Hp _].
  destruct (build_rpc_frame_eq seq p mode Hp) as (_ & Hlen & _).
  rewrite E, Ek, !zlen_app, zlen_fillers, Hlen in Hl. pose proof (zlen_nonneg p). pose proof (zlen_nonneg (fillers k)).
  pose proof (zlen_nonneg (rpc_plain mode (i32 (seq + 1)) ps)). lia.
Qed.

Lemma rl_frames_spec fuel st later ps j :
  Forall link_payload ps -> in_i32 (rl_expected_seq st) -> me_tx_open (rl_env st) = true ->
  rl_dec st ++ later = fillers j ++ rpc_plain mode (rl_expected_seq st) ps -> (length (rl_dec st) < fuel)%nat ->
  exists st', rl_frames mode fuel st = Some (Ok tt, st') /\ frames_post st later ps st'.
Proof.
  revert st ps j. induction fuel as [|fuel IH]; intros st ps j Hps Hseq Hopen E Hf; [lia|]. cbn [rl_frames].
  destruct (Z.leb_spec 12 (zlen (rl_dec st))) as [H12|H12].
  2:{ exists st. split; [done|]. exists [], ps, j. split_and!; try done. intros ->. rewrite app_nil_r in E.
      by eapply frames_nil_later. }
  destruct j as [|j].
  - destruct ps as [|p ps].
    { cbn in E. apply app_eq_nil in E as [E _]. rewrite E in H12. done. }
    apply Forall_cons in Hps as [Hp Hps]. destruct (rpc_plain_cons (rl_expected_seq st) p ps Hp) as [k Ek].
    rewrite Ek in E. cbn [fillers replicate concat app] in E.
    destruct (frame_prefix _ _ _ _ _ Hp E H12) as (Hlb & Hlen & Hfull). rewrite Hlb. pose proof (zlen_nonneg p).
    pose proof Hp as [[_ Hmax] _]. rewrite le_val_le_bytes_small by (cbn; lia).
    destruct (Z.eqb_spec (zlen p + 12) 4); [lia|].
    assert ((12 <=? zlen p + 12) && (zlen p + 12 <=? Z.shiftl 1 24) = true) as ->
      by (apply andb_true_intro; split; apply Z.leb_le; [lia|change (Z.shiftl 1 24) with (2 ^ 24); lia]).
    cbn [negb]. destruct (Z.ltb_spec (zlen (rl_dec st)) (zlen p + 12)) as [Hshort|Hfit].
    { exists st. split; [done|]. exists [], (p :: ps), O. split_and!; try done.
      - by rewrite Ek.
      - intros ->. rewrite app_nil_r in E. rewrite E, zlen_app, Hlen in Hshort.
        pose proof (zlen_nonneg (fillers k ++ rpc_plain mode (i32 (rl_expected_seq st + 1)) ps)). lia. }
    destruct (Hfull Hfit) as [-> Hrest]. destruct Hp as [Hp Hm].
    destruct (rpc_frame_fields (rl_expected_seq st) p mode [] Hp) as (_ & F2 & F3 & F4). cbn zeta in *.
    rewrite F4, F2, F3, le_val_le_bytes_small, Z.eqb_refl, i32_le_bytes, Z.eqb_refl by (done || apply rpc_crc_range).
    cbn [negb]. destruct (handle_payload_open (rl_env st) p Hopen) as [Ho Hc].
    destruct (handle_payload (rl_env st) p) as [env' cont] eqn:Eh. cbn [fst snd] in Ho, Hc. subst cont.
    edestruct (IH (rl_update st (zdrop (zlen p + 12) (rl_dec st)) (i32 (rl_expected_seq st + 1)) env') ps k)
      as (st' & -> & ps1 & ps2 & j' & -> & Henv & Hs & Hr & Hd & Hdec & Hin & Hop & Hnil).
    + done.
    + apply i32_in_range.
    + done.
    + done.
    + unfold rl_update, zdrop, zlen in *. cbn [rl_dec]. rewrite length_drop. lia.
    + exists st'. split; [done|]. exists (p :: ps1), ps2, j'. cbn [rl_update rl_env rl_expected_seq rl_raw rl_div] in *.
      split_and!; try done. unfold handled in *. cbn [fold_left]. by rewrite Eh.
  - rewrite fillers_cons, <-app_assoc in E.
    destruct (app_prefix_take (rl_dec st) later PADDING_FILLER _ E) as [E1 E2]; [change (zlen PADDING_FILLER) with 4; lia|].
    assert (slice (rl_dec st) 0 4 = PADDING_FILLER) as -> by (rewrite E1; by apply slice_prefix).
    change (le_val PADDING_FILLER =? 4) with true. cbn iota. change (zlen PADDING_FILLER) with 4 in E2.
    edestruct (IH (rl_update st (zdrop 4 (rl_dec st)) (rl_expected_seq st) (rl_env st)) ps j)
      as (st' & -> & Hpost); [done|done|done|done| |by exists st'].
    unfold rl_update, zdrop, zlen in *. cbn [rl_dec]. rewrite length_drop. lia.
Qed.

(** ** The decrypted stream *)

Variable iv0 : bytes.
Hypothesis iv0_ok : block_ok iv0.

(** The reader has received [received], the middle proxy will have sent [total], the encryption
    of the frames of [ps]: the frames that are complete have been handled. *)
Definition link_inv (env0 : MeEnv) (ps : list bytes) (total received : bytes) (st : ReaderLoop) : Prop :=
  exists whole todo ps1 ps2 j,
    received = whole ++ rl_raw st /\ total = whole ++ todo /\ aligned whole /\ zlen (rl_raw st) < 16 /\
    rl_div st = next_iv iv0 whole /\ ps = ps1 ++ ps2 /\ rl_env st = handled env0 ps1 /\
    rl_expected_seq st = seq_after 0 ps1 /\ in_i32 (rl_expected_seq st) /\ me_tx_open (rl_env st) = true /\
    rl_dec st ++ cbc_dec dk (next_iv iv0 whole) todo = fillers j ++ rpc_plain mode (rl_expected_seq st) ps2 /\
    (todo = [] -> ps2 = []).

Lemma aligned_suffix a b : aligned (a ++ b) -> aligned a -> aligned b.
Proof.
  intros [Hab Hok] [Ha _]. apply bytes_ok_app in Hok as [_ Hb]. split; [|done].
  rewrite zlen_app in Hab. Z.div_mod_to_equations. lia.
Qed.

(** Decrypting the whole blocks of what has arrived. *)
Lemma rl_decrypt_spec st tmp env0 ps total received rest :
  Forall link_payload ps -> aligned total -> total = (received ++ tmp) ++ rest -> link_inv env0 ps total received st ->
  exists st1, rl_decrypt dk (mkReaderLoop (rl_raw st ++ tmp) (rl_div st) (rl_dec st) (rl_expected_seq st) (rl_env st)) = Ok st1 /\
    exists whole todo ps1 ps2 j, received ++ tmp = whole ++ rl_raw st1 /\ total = whole ++ todo /\ aligned whole /\
      zlen (rl_raw st1) < 16 /\ rl_div st1 = next_iv iv0 whole /\ ps = ps1 ++ ps2 /\ rl_env st1 = handled env0 ps1 /\
      rl_expected_seq st1 = seq_after 0 ps1 /\ in_i32 (rl_expected_seq st1) /\ me_tx_open (rl_env st1) = true /\
      rl_dec st1 ++ cbc_dec dk (next_iv iv0 whole) todo = fillers j ++ rpc_plain mode (rl_expected_seq st1) ps2 /\ aligned todo.
Proof.
  intros Hps Htot Etot (whole & todo & ps1 & ps2 & j & Er & Et & Hw & Hraw & Hdiv & Eps & Henv & Hseq & Hin & Hop & Hdec & _).
  set (raw := rl_raw st ++ tmp). assert (received ++ tmp = whole ++ raw) as Er' by (unfold raw; by rewrite Er, app_assoc).
  assert (todo = raw ++ rest) as Etodo.
  { rewrite Er', Et in Etot. rewrite <-app_assoc in Etot. by apply app_inv_head in Etot. }
  assert (aligned todo) as Hal by (eapply aligned_suffix; [by rewrite <-Et|done]).
  assert (bytes_ok raw) as Hok by (destruct Hal as [_ Hb]; rewrite Etodo in Hb; apply bytes_ok_app in Hb; tauto).
  unfold rl_decrypt. cbn [rl_raw rl_div rl_dec rl_expected_seq rl_env]. fold raw.
  pose proof (zlen_nonneg raw). set (blocks := zlen raw / 16 * 16).
  assert (0 <= blocks <= zlen raw /\ zlen raw - blocks < 16 /\ blocks mod 16 = 0) as (Hb1 & Hb2 & Hb3).
  { unfold blocks. rewrite Z.mod_mul by lia. Z.div_mod_to_equations. lia. }
  destruct (Z.ltb_spec 0 blocks).
  - assert (aligned (ztake blocks raw)) as Hchunk.
    { split; [|by apply Forall_take]. rewrite zlen_ztake. replace (Z.max 0 (Z.min blocks (zlen raw))) with blocks by lia. done. }
    assert (block_ok (rl_div st)) as Hiv by (rewrite Hdiv; by apply next_iv_ok).
    destruct (AesCbc_decrypt_ok (mkAesCbc dk (rl_div st)) _ Hiv Hchunk) as [_ ->]. eexists. split; [done|].
    assert (aligned (zdrop blocks raw ++ rest)) as Hrest.
    { eapply (aligned_suffix (ztake blocks raw)); [|done]. by rewrite app_assoc, ztake_zdrop, <-Etodo. }
    exists (whole ++ ztake blocks raw), (zdrop blocks raw ++ rest), ps1, ps2, j.
    cbn [rl_raw rl_div rl_dec rl_expected_seq rl_env cbc_key cbc_iv].
    assert (slice raw (blocks - 16) blocks = next_iv iv0 (whole ++ ztake blocks raw)) as Hnew.
    { rewrite <-next_iv_app by done. unfold next_iv at 1. rewrite zlen_ztake.
      replace (Z.max 0 (Z.min blocks (zlen raw))) with blocks by lia.
      destruct (Z.leb_spec 16 blocks); [|Z.div_mod_to_equations; lia].
      rewrite <-(ztake_zdrop blocks raw) at 1. rewrite slice_app_l by (rewrite ?zlen_ztake; lia).
      unfold slice. rewrite ztake_all; [done|]. rewrite zlen_zdrop, zlen_ztake. lia. }
    split_and!; try done.
    + by rewrite <-app_assoc, ztake_zdrop.
    + by rewrite <-app_assoc, (app_assoc _ (zdrop blocks raw)), ztake_zdrop, <-Etodo.
    + by apply aligned_app.
    + rewrite zlen_zdrop. lia.
    + rewrite <-next_iv_app, <-Hdiv, <-app_assoc by done. rewrite <-cbc_dec_app by done.
      by rewrite app_assoc, ztake_zdrop, <-Etodo, Hdiv.
  - eexists. split; [done|]. exists whole, todo, ps1, ps2, j. cbn [rl_raw rl_div rl_dec rl_expected_seq rl_env].
    split_and!; try done. lia.
Qed.

Lemma seq_after_app seq a b : seq_after seq (a ++ b) = seq_after (seq_after seq a) b.
Proof. unfold seq_after. by rewrite fold_left_app. Qed.

Lemma handled_app env a b : handled env (a ++ b) = handled (handled env a) b.
Proof. unfold handled. by rewrite fold_left_app. Qed.

Lemma rl_step_inv st tmp env0 ps total received rest :
  Forall link_payload ps -> aligned total -> total = (received ++ tmp) ++ rest -> tmp <> [] ->
  link_inv env0 ps total received st ->
  exists st', rl_step dk mode st tmp = Some (Ok tt, st') /\ link_inv env0 ps total (received ++ tmp) st'.
Proof.
  intros Hps Htot Etot Hne Hi. unfold rl_step. destruct (Z.eqb_spec (zlen tmp) 0) as [Hz|_]; [by apply zlen_zero_nil in Hz|].
  destruct (rl_decrypt_spec st tmp env0 ps total received rest Hps Htot Etot Hi)
    as (st1 & -> & whole & todo & ps1 & ps2 & j & Er & Et & Hw & Hraw & Hdiv & Eps & Henv & Hseq & Hin & Hop & Hdec & Htodo).
  assert (Forall link_payload ps2) as Hps2 by (rewrite Eps in Hps; by apply Forall_app in Hps as [_ ?]).
  destruct (rl_frames_spec (S (length (rl_dec st1))) st1 _ ps2 j Hps2 Hin Hop Hdec (Nat.lt_succ_diag_r _))
    as (st' & -> & qs1 & qs2 & j' & -> & Henv' & Hs' & Hr' & Hd' & Hdec' & Hin' & Hop' & Hnil).
  exists st'. split; [done|]. exists whole, todo, (ps1 ++ qs1), qs2, j'.
  rewrite Hr', Hd', handled_app, seq_after_app, <-Henv, <-Hseq, Eps, <-app_assoc. split_and!; try done.
  intros ->. apply Hnil. done.
Qed.

Lemma rl_steps_inv reads st env0 ps total received rest :
  Forall link_payload ps -> aligned total -> Forall (fun r => r <> []) reads ->
  total = (received ++ concat reads) ++ rest -> link_inv env0 ps total received st ->
  exists st', rl_steps dk mode st reads = Some (Ok tt, st') /\ link_inv env0 ps total (received ++ concat reads) st'.
Proof.
  intros Hps Htot Hne. revert st received. induction Hne as [|tmp reads Htmp _ IH]; intros st received Etot Hi; cbn [rl_steps concat].
  { exists st. by rewrite app_nil_r. }
  cbn [concat] in Etot. rewrite app_assoc in Etot.
  destruct (rl_step_inv st tmp env0 ps total received (concat reads ++ rest) Hps Htot) as (st1 & -> & Hi1);
    [by rewrite app_assoc|done|done|]. destruct (IH st1 (received ++ tmp) Etot Hi1) as (st' & -> & Hi').
  exists st'. by rewrite app_assoc.
Qed.

(** C4: the middle-proxy link.  The payloads a writer sends, of lengths that are multiples of 4,
    encrypted in one CBC stream, arrive
    at a reader with the same key and IV in whatever pieces the network makes of them: the reader
    never reports an error, has at any time handled exactly the payloads of a prefix, in order and
    once each, and has handled all of them when everything has arrived. *)
Theorem me_link_delivers w env0 ps reads rest :
  rw_sink w = [] -> rw_key w = dk -> rw_iv w = iv0 -> rw_seq_no w = 0 -> rw_crc_mode w = mode ->
  Forall link_payload ps -> me_tx_open env0 = true -> Forall (fun r => r <> []) reads ->
  concat reads ++ rest = rw_sink (rpc_sends w ps) ->
  exists st' ps1 ps2,
    rl_steps dk mode (reader_loop_start iv0 [] [] env0) reads = Some (Ok tt, st') /\
    ps = ps1 ++ ps2 /\ rl_env st' = handled env0 ps1 /\ rl_expected_seq st' = seq_after 0 ps1 /\
    (rest = [] -> ps2 = []).
Proof.
  intros Hsink Hkey Hiv Hseq Hmode Hps Hopen Hreads Htot.
  assert (Forall rpc_payload_ok ps) as Hps' by (eapply Forall_impl; [exact Hps|]; by intros ? []).
  rewrite rpc_sends_cipher, Hsink, Hkey, Hiv, Hseq, Hmode in Htot by (done || by rewrite Hiv). cbn [app] in Htot.
  pose proof (rpc_plain_aligned mode 0 ps Hps') as Hpa. destruct (cbc_enc_aligned dk iv0 _ iv0_ok Hpa) as [Hta Htl].
  destruct (rl_steps_inv reads (reader_loop_start iv0 [] [] env0) env0 ps (concat reads ++ rest) [] rest Hps)
    as (st' & E & whole & todo & ps1 & ps2 & j & Er & Et & Hw & Hraw & Hdiv & Eps & Henv & Hs & Hin & Hop & Hdec & Hnil);
    [by rewrite Htot|done|done| |].
  - exists [], (concat reads ++ rest), [], ps, O. cbn [reader_loop_start rl_raw rl_div rl_dec rl_env rl_expected_seq app].
    split_and!; try done.
    + by split; [|constructor].
    + rewrite Htot. change (next_iv iv0 []) with iv0. by rewrite cbc_dec_enc.
    + intros Hz. rewrite Htot in Hz. rewrite Hz in Htl. symmetry in Htl. apply zlen_zero_nil in Htl.
      eapply (frames_nil_later [] 0 ps 0); [done|by rewrite Htl|done].
  - exists st', ps1, ps2. split_and!; try done. intros ->. apply Hnil.
    assert (aligned todo) as Htodo by (eapply aligned_suffix; [rewrite <-Et, Htot|]; done).
    rewrite app_nil_r in Et. cbn [app] in Er. rewrite Er in Et. apply app_inv_head in Et. rewrite <-Et in *.
    destruct Htodo as [Hm _]. pose proof (zlen_nonneg (rl_raw st')). rewrite Z.mod_small in Hm by lia. by apply zlen_zero_nil.
Qed.

End LinkFacts.

(** ** Dispatch *)

Definition answer_payload (flags cid : Z) (data : bytes) : bytes :=
  le_bytes 4 RPC_PROXY_ANS_U32 ++ le_bytes 4 flags ++ le_bytes 8 cid ++ data.
Definition close_payload (cid : Z) : bytes := le_bytes 4 RPC_CLOSE_EXT_U32 ++ le_bytes 8 cid.
Definition ping_payload (ping_id : bytes) : bytes := le_bytes 4 RPC_PING_U32 ++ ping_id.

Lemma handle_answer e flags cid data :
  in_u32 flags -> in_u64 cid ->
  handle_payload e (answer_payload flags cid data) = (route_or_close e cid (MeData flags data), true).
Proof.
  intros Hf Hc. unfold handle_payload, answer_payload. pose proof (zlen_nonneg data).
  rewrite !zlen_app, !zlen_le_bytes. destruct (Z.ltb_spec (Z.of_nat 4 + (Z.of_nat 4 + (Z.of_nat 8 + zlen data))) 4); [lia|].
  rewrite (slice_prefix (le_bytes 4 RPC_PROXY_ANS_U32)) by done. rewrite zdrop_app by done.
  change (le_val (le_bytes 4 RPC_PROXY_ANS_U32) =? RPC_PROXY_ANS_U32) with true.
  rewrite !zlen_app, !zlen_le_bytes. destruct (Z.leb_spec 12 (Z.of_nat 4 + (Z.of_nat 8 + zlen data))); [|lia]. cbn [andb].
  rewrite (slice_prefix (le_bytes 4 flags)) by done. rewrite (slice_mid (le_bytes 4 flags) (le_bytes 8 cid)) by done.
  rewrite !le_val_le_bytes_small by done. rewrite app_assoc, zdrop_app by done. done.
Qed.

Lemma route_room reg id resp tx c freed wait :
  ri_map (cg_inner reg) !! id = Some tx -> cg_channels reg !! tx = Some c ->
  ch_open c = true -> zlen (ch_queue c) < ROUTE_CHANNEL_CAPACITY ->
  route reg id resp freed wait = (Routed, set_channel reg tx (mkChannel (ch_queue c ++ [resp]) true)).
Proof.
  intros Hid Hc Ho Hl. unfold route, try_send. rewrite Hid, Hc, Ho. cbn [negb].
  destruct (Z.leb_spec ROUTE_CHANNEL_CAPACITY (zlen (ch_queue c))); [lia|done].
Qed.

Lemma route_unknown reg id resp freed wait :
  ri_map (cg_inner reg) !! id = None -> route reg id resp freed wait = (NoConn, reg).
Proof. intros Hid. unfold route. by rewrite Hid. Qed.

Lemma unregister_gone reg id :
  ri_map (cg_inner (snd (unregister reg id))) !! id = None /\ get_writer (snd (unregister reg id)) id = None /\
  get_meta (snd (unregister reg id)) id = None.
Proof.
  rewrite unregister_map. split; [apply lookup_delete_eq|]. unfold unregister, get_writer, get_meta.
  destruct (ri_writer_for_conn (cg_inner reg) !! id) eqn:E; cbn [snd set_inner cg_inner ri_writer_for_conn ri_meta];
    rewrite lookup_delete_eq; [by rewrite lookup_delete_eq|by rewrite E].
Qed.

(** An answer from the middle proxy reaches the queue of the connection it names when that
    queue has room, and nothing else changes; when the connection is unknown it is counted, and the
    middle proxy is told to close it. *)
Theorem me_answer_dispatch env flags cid data :
  in_u32 flags -> in_u64 cid -> me_tx_open env = true ->
  let env' := fst (handle_payload env (answer_payload flags cid data)) in
  (forall tx c, ri_map (cg_inner (me_reg env)) !! cid = Some tx -> cg_channels (me_reg env) !! tx = Some c ->
     ch_open c = true -> zlen (ch_queue c) < ROUTE_CHANNEL_CAPACITY ->
     me_reg env' = set_channel (me_reg env) tx (mkChannel (ch_queue c ++ [MeData flags data]) true) /\
     me_tx env' = me_tx env /\ me_stats env' = me_stats env) /\
  (ri_map (cg_inner (me_reg env)) !! cid = None ->
     me_tx env' = me_tx env ++ [WDataAndFlush (le_bytes 4 RPC_CLOSE_CONN_U32 ++ le_bytes 8 cid)] /\
     ms_drop_no_conn (me_stats env') = ms_drop_no_conn (me_stats env) + 1 /\
     get_writer (me_reg env') cid = None).
Proof.
  intros Hf Hc Ho. cbn zeta. rewrite handle_answer by done. cbn [fst]. unfold route_or_close, me_route.
  destruct (default (0, WaitTimeout) (head (me_waits env))) as [freed wait]. split.
  - intros tx c Hid Hch Hop Hl. by rewrite (route_room _ _ _ _ _ _ _ Hid Hch Hop Hl).
  - intros Hid. rewrite route_unknown by done. rewrite decide_False by done.
    unfold send_close_conn, tx_send, me_unregister. cbn [with_reg with_stats me_tx_open me_tx me_stats me_reg count_drop].
    rewrite Ho. cbn [snd me_tx me_stats me_reg ms_drop_no_conn]. split_and!; [done|done|apply unregister_gone].
Qed.

(** A close from the middle proxy removes the connection and its binding from the registry,
    and a ping is answered with a pong that carries the same eight bytes. *)
Theorem me_control_dispatch env cid ping_id :
  in_u64 cid -> zlen ping_id = 8 -> bytes_ok ping_id -> me_tx_open env = true ->
  (let env' := fst (handle_payload env (close_payload cid)) in
   ri_map (cg_inner (me_reg env')) !! cid = None /\ get_writer (me_reg env') cid = None /\ get_meta (me_reg env') cid = None) /\
  handle_payload env (ping_payload ping_id) =
    (mkMeEnv (me_reg env) (me_tx env ++ [WDataAndFlush (le_bytes 4 RPC_PONG_U32 ++ ping_id)]) true (me_stats env)
       (me_pings env) (me_rtt_samples env) (me_waits env), true).
Proof.
  intros Hc Hl Hok Ho. split.
  - cbn zeta. unfold handle_payload, close_payload.
    change (zlen (le_bytes 4 RPC_CLOSE_EXT_U32 ++ le_bytes 8 cid) <? 4) with false. cbn iota.
    rewrite (slice_prefix (le_bytes 4 RPC_CLOSE_EXT_U32)) by done. rewrite zdrop_app by done.
    change (le_val (le_bytes 4 RPC_CLOSE_EXT_U32) =? RPC_PROXY_ANS_U32) with false.
    change (le_val (le_bytes 4 RPC_CLOSE_EXT_U32) =? RPC_SIMPLE_ACK_U32) with false.
    change (le_val (le_bytes 4 RPC_CLOSE_EXT_U32) =? RPC_CLOSE_EXT_U32) with true.
    change (8 <=? zlen (le_bytes 8 cid)) with true. cbn [andb fst].
    rewrite slice_full by done. rewrite le_val_le_bytes_small by done.
    unfold me_unregister, with_reg. cbn [me_reg]. apply unregister_gone.
  - unfold handle_payload, ping_payload. rewrite zlen_app, Hl.
    change (zlen (le_bytes 4 RPC_PING_U32) + 8 <? 4) with false. cbn iota.
    rewrite (slice_prefix (le_bytes 4 RPC_PING_U32)) by done. rewrite zdrop_app by done. rewrite Hl.
    change (le_val (le_bytes 4 RPC_PING_U32)) with RPC_PING_U32. cbn [andb Z.eqb].
    change (RPC_PING_U32 =? RPC_PROXY_ANS_U32) with false. change (RPC_PING_U32 =? RPC_SIMPLE_ACK_U32) with false.
    change (RPC_PING_U32 =? RPC_CLOSE_EXT_U32) with false. change (RPC_PING_U32 =? RPC_CLOSE_CONN_U32) with false.
    change (RPC_PING_U32 =? RPC_PING_U32) with true. change (8 <=? 8) with true. cbn [andb].
    rewrite slice_full by done. unfold tx_send. rewrite Ho. do 5 f_equal.
    rewrite <-(le_bytes_mod 8 (i64 _)). unfold i64. change (256 ^ Z.of_nat 8) with (2 ^ 64). rewrite Zminus_mod_idemp_l.
    replace (le_val ping_id + 2 ^ 63 - 2 ^ 63) with (le_val ping_id) by lia.
    change (2 ^ 64) with (256 ^ Z.of_nat 8). rewrite le_bytes_mod.
    apply (zlen_length _ 8) in Hl. rewrite <-Hl, le_bytes_le_val by done. done.
Qed.

Section MeWitnesses.
Import Crypto.Demo.

Definition demo_stats : MeStats := mkMeStats 0 0 0 0 0 0 0 0 0.
Definition demo_env : MeEnv := mkMeEnv demo_registry [] true demo_stats ∅ [] [].
Definition demo_rpc_writer : RpcWriter := mkRpcWriter [] (repeat 1 32) (repeat 2 16) 0 Crc32c.
Definition demo_payloads : list bytes := [answer_payload 0 7 [1; 2; 3; 4]; ping_payload (repeat 9 8)].
Definition demo_wire : bytes := rw_sink (rpc_sends demo_rpc_writer demo_payloads).

Lemma me_link_delivers_witness :
  exists st' ps1 ps2,
    rl_steps (repeat 1 32) Crc32c (reader_loop_start (repeat 2 16) [] [] demo_env) [ztake 5 demo_wire; zdrop 5 demo_wire] =
      Some (Ok tt, st') /\
    demo_payloads = ps1 ++ ps2 /\ rl_env st' = handled demo_env ps1 /\ rl_expected_seq st' = seq_after 0 ps1 /\
    (([] : bytes) = [] -> ps2 = []).
Proof.
  apply (me_link_delivers (repeat 1 32) Crc32c (repeat 2 16)) with (w := demo_rpc_writer);
    try reflexivity; try (apply (bool_decide_unpack _); vm_compute; exact I).
Defined.

End MeWitnesses.
