(* ===== verification/MiddleRelay.v ===== *)
(** * The relay between a client and the middle proxy: [proxy/middle_relay.rs]

    A session reads the client's frames and queues them for a sender task, which hands them to the
    middle-proxy pool; a writer task frames the middle proxy's responses for the client.  The first part
    is the framing; the second runs the three tasks of a session in any interleaving.  Logging
    is left out, and with it the fields that only feed it. *)

From stdpp Require Import gmap.
From S2P Require Import Prelude NetAddr Errors Random Constants FrameCodec AsyncIo Wire Registry Stats.

(** ** Desynchronisation reports (middle_relay.rs:27-164) *)

(** Instants are numbers of nanoseconds. *)
Definition DESYNC_DEDUP_WINDOW : Z := 60 * 10 ^ 9.
Definition DESYNC_ERROR_CLASS : string := "frame_too_large_crypto_desync".
Definition C2ME_CHANNEL_CAPACITY : Z := 1024.
Definition C2ME_SENDER_FAIRNESS_BUDGET : Z := 32.

Record RelayForensicsState := mkForensics {
  fo_trace_id : Z;
  fo_conn_id : Z;
  fo_user : string;
  fo_peer : SocketAddr;
  fo_peer_hash : Z;
  fo_bytes_c2me : Z;
  fo_bytes_me2c : Z;
  fo_desync_all_full : bool
}.

Definition should_emit_full_desync (dedup : gmap Z Z) (key : Z) (all_full : bool) (now : Z) : bool * gmap Z Z :=
  if all_full then (true, dedup)
  else
    let guard := filter (fun kv : Z * Z => now - kv.2 < DESYNC_DEDUP_WINDOW) dedup in
    match guard !! key with
    | Some seen_at => if DESYNC_DEDUP_WINDOW <=? now - seen_at then (true, <[key := now]> guard) else (false, guard)
    | None => (true, <[key := now]> guard)
    end.

(** What the client side of a session works on: its reader, the number of frames read, and the shared
    statistics and deduplication map. *)
Record RelayIn (R : Type) := mkRelayIn {
  in_reader : R;
  in_frame_counter : Z;
  in_stats : Stats;
  in_dedup : gmap Z Z
}.
Arguments mkRelayIn {R}.
Arguments in_reader {R}.
Arguments in_frame_counter {R}.
Arguments in_stats {R}.
Arguments in_dedup {R}.

Section Reading.
Context {R : Type} `{AsyncRead R}.

(** [hash_value] over the user, the peer's hash, the protocol and the error class. *)
Variable hash_desync : string -> Z -> ProtoTag -> string -> Z.

Definition report_desync_frame_too_large (state : RelayForensicsState) (proto_tag : ProtoTag) (max_frame len : Z) (now : Z)
    (st : RelayIn R) : ProxyError * RelayIn R :=
  let dedup_key := hash_desync (fo_user state) (fo_peer_hash state) proto_tag DESYNC_ERROR_CLASS in
  let '(emit_full, dedup) := should_emit_full_desync (in_dedup st) dedup_key (fo_desync_all_full state) now in
  let stats := increment_desync_total (in_stats st) in
  let stats := observe_desync_frames_ok stats (in_frame_counter st) in
  let stats := if emit_full then increment_desync_full_logged stats else increment_desync_suppressed stats in
  (PE_Proxy "Frame too large: {len} (max {max_frame}), frames_ok={frame_counter}, conn_id={}, trace_id=0x{:016x}",
   mkRelayIn (in_reader st) (in_frame_counter st) stats dedup).

(** ** Reading a client frame (middle_relay.rs:473-588) *)

(** The header: its length and QuickACK bit, or the end of the stream. *)
Definition read_client_header (proto_tag : ProtoTag) (r : R) : option (result ProxyError (option (Z * bool)) * R) :=
  match proto_tag with
  | Abridged =>
      match read_exact r 1 with
      | None => None
      | Some (Err e, r) => if decide (err_kind e = UnexpectedEof) then Some (Ok None, r) else Some (Err (PE_Io e), r)
      | Some (Ok first, r) =>
          let first := nth 0 first 0 in
          let quickack := negb (Z.land first 0x80 =? 0) in
          let len_words :=
            if Z.land first 0x7f =? 0x7f then
              match read_exact r 3 with
              | None => None
              | Some (Err e, r) => Some (Err (PE_Io e), r)
              | Some (Ok ext, r) => Some (Ok (le_val (ext ++ [0])), r)
              end
            else Some (Ok (Z.land first 0x7f), r) in
          match len_words with
          | None => None
          | Some (Err e, r) => Some (Err e, r)
          | Some (Ok len_words, r) =>
              if usize_max <? len_words * 4 then Some (Err (PE_Proxy "Abridged frame length overflow"), r)
              else Some (Ok (Some (len_words * 4, quickack)), r)
          end
      end
  | Intermediate | Secure =>
      match read_exact r 4 with
      | None => None
      | Some (Err e, r) => if decide (err_kind e = UnexpectedEof) then Some (Ok None, r) else Some (Err (PE_Io e), r)
      | Some (Ok len_buf, r) =>
          let quickack := negb (Z.land (nth 3 len_buf 0) 0x80 =? 0) in
          Some (Ok (Some (Z.land (le_val len_buf) 0x7fffffff, quickack)), r)
      end
  end.

Definition with_reader (st : RelayIn R) (r : R) : RelayIn R :=
  mkRelayIn r (in_frame_counter st) (in_stats st) (in_dedup st).

(** The loop skips empty frames; [fuel] bounds their number, and every one takes bytes off the stream. *)
Fixpoint read_client_payload (fuel : nat) (proto_tag : ProtoTag) (max_frame : Z) (forensics : RelayForensicsState) (now : Z)
    (st : RelayIn R) : option (result ProxyError (option (bytes * bool)) * RelayIn R) :=
  match fuel with
  | O => None
  | S fuel =>
      match read_client_header proto_tag (in_reader st) with
      | None => None
      | Some (Err e, r) => Some (Err e, with_reader st r)
      | Some (Ok None, r) => Some (Ok None, with_reader st r)
      | Some (Ok (Some (len, quickack)), r) =>
          let st := with_reader st r in
          if len =? 0 then read_client_payload fuel proto_tag max_frame forensics now st
          else if (len <? 4) && negb (bool_decide (proto_tag = Abridged)) then
            Some (Err (PE_Proxy "Frame too small: {len}"), st)
          else if max_frame <? len then
            let '(e, st) := report_desync_frame_too_large forensics proto_tag max_frame len now st in Some (Err e, st)
          else
            let secure_payload_len :=
              if decide (proto_tag = Secure) then secure_payload_len_from_wire_len len else Some len in
            match secure_payload_len with
            | None =>
                Some (Err (PE_Proxy "Invalid secure frame length: {len}"),
                      mkRelayIn (in_reader st) (in_frame_counter st) (increment_secure_padding_invalid (in_stats st)) (in_dedup st))
            | Some secure_payload_len =>
                match read_exact (in_reader st) len with
                | None => None
                | Some (Err e, r) => Some (Err (PE_Io e), with_reader st r)
                | Some (Ok payload, r) =>
                    let payload := if decide (proto_tag = Secure) then ztake secure_payload_len payload else payload in
                    Some (Ok (Some (payload, quickack)),
                          mkRelayIn r (u64 (in_frame_counter st + 1)) (in_stats st) (in_dedup st))
                end
            end
      end
  end.

End Reading.

(** ** Writing to the client (middle_relay.rs:590-691): the bytes handed to [write_all] *)

Section Writing.
Context {G : Type} `{Rng G}.

Definition write_client_payload (proto_tag : ProtoTag) (flags : Z) (data : bytes) (rng : G) : result ProxyError bytes * G :=
  let quickack := negb (Z.land flags RPC_FLAG_QUICKACK =? 0) in
  match proto_tag with
  | Abridged =>
      if negb (is_multiple_of (zlen data) 4) then (Err (PE_Proxy "Abridged payload must be 4-byte aligned, got {}"), rng)
      else
        let len_words := zlen data / 4 in
        if len_words <? 0x7f then
          let first := u8 len_words in
          let first := if quickack then Z.lor first 0x80 else first in
          (Ok ([first] ++ data), rng)
        else if len_words <? Z.shiftl 1 24 then
          let first := 0x7f in
          let first := if quickack then Z.lor first 0x80 else first in
          let lw := le_bytes 4 (u32 len_words) in
          (Ok (([first] ++ ztake 3 lw) ++ data), rng)
        else (Err (PE_Proxy "Abridged frame too large: {}"), rng)
  | Intermediate | Secure =>
      let padding :=
        if decide (proto_tag = Secure) then
          if negb (is_valid_secure_payload_len (zlen data)) then None else Some (secure_padding_len (zlen data) rng)
        else Some (0, rng) in
      match padding with
      | None => (Err (PE_Proxy "Secure payload must be 4-byte aligned, got {}"), rng)
      | Some (padding_len, rng) =>
          let len_val := u32 (zlen data + padding_len) in
          let len_val := if quickack then Z.lor len_val 0x80000000 else len_val in
          let frame_buf := le_bytes 4 len_val ++ data in
          if 0 <? padding_len then let '(pad, rng) := rng_bytes rng padding_len in (Ok (frame_buf ++ pad), rng)
          else (Ok frame_buf, rng)
      end
  end.

Definition write_client_ack (proto_tag : ProtoTag) (confirm : Z) : bytes :=
  if decide (proto_tag = Abridged) then be_bytes 4 confirm else le_bytes 4 confirm.

End Writing.

(** ** Framing facts *)

Lemma high_bit b : is_byte b -> negb (Z.land b 0x80 =? 0) = (0x80 <=? b).
Proof.
  unfold is_byte. intros Hb. change 0x80 with (2 ^ 7).
  assert (Z.land b (2 ^ 7) = if Z.testbit b 7 then 2 ^ 7 else 0) as ->.
  { apply Z.bits_inj'. intros n Hn. rewrite Z.land_spec, Z.pow2_bits_eqb by lia.
    destruct (Z.eqb_spec 7 n) as [<-|]; [|rewrite andb_false_r; destruct (Z.testbit b 7); rewrite ?Z.pow2_bits_eqb, ?Z.bits_0 by lia; by destruct (Z.eqb_spec 7 n)].
    destruct (Z.testbit b 7); [by rewrite Z.pow2_bits_eqb|done]. }
  rewrite Z.testbit_eqb by lia. change (2 ^ 7) with 128.
  destruct (Z.leb_spec 128 b).
  - replace (b / 128) with 1 by (Z.div_mod_to_equations; lia). done.
  - replace (b / 128) with 0 by (Z.div_mod_to_equations; lia). done.
Qed.

(** The length word, as the relay takes it apart. *)
Lemma relay_len_word src :
  bytes_ok src -> 4 <= zlen src ->
  read_len_word src =
    (if negb (Z.land (nth 3 (ztake 4 src) 0) 0x80 =? 0) then with_quickack FrameMeta_new else FrameMeta_new,
     Z.land (le_val (ztake 4 src)) 0x7fffffff).
Proof.
  intros Hok Hl. destruct src as [|a [|b [|c [|d src]]]]; try (unfold zlen in Hl; cbn in Hl; lia).
  unfold bytes_ok in Hok. rewrite !List.Forall_cons_iff in Hok. destruct Hok as (Ha & Hb & Hc & Hd & _).
  unfold read_len_word. change (ztake 4 (a :: b :: c :: d :: src)) with [a; b; c; d]. cbn [nth].
  rewrite high_bit by done. change 0x7fffffff with (Z.ones 31). rewrite Z.land_ones by lia.
  assert (le_val [a; b; c; d] = a + 256 * (b + 256 * (c + 256 * d))) as -> by (cbn [le_val]; lia).
  unfold is_byte in *. destruct (Z.leb_spec 0x80000000 (a + 256 * (b + 256 * (c + 256 * d)))), (Z.leb_spec 0x80 d); try lia.
  - f_equal. change (2 ^ 31) with 2147483648. Z.div_mod_to_equations. lia.
  - f_equal. change (2 ^ 31) with 2147483648. rewrite Z.mod_small by lia. done.
Qed.

Section ReadingFacts.
Context {R : Type} `{AsyncReadOk R}.
Variable hash_desync : string -> Z -> ProtoTag -> string -> Z.

Lemma read_client_header_spec tag (r : R) meta h len :
  rd_ok r -> bytes_ok (rd_bytes r) -> frame_header tag (rd_bytes r) = Some (meta, h, len) ->
  exists r', read_client_header tag r = Some (Ok (Some (len, quickack meta)), r') /\ rd_ok r' /\ rd_bytes r' = zdrop h (rd_bytes r).
Proof.
  intros Hr Hok Hh. pose proof (frame_header_len _ _ _ _ _ Hok Hh) as [_ Hlen].
  assert (tag <> Abridged -> exists r', read_client_header tag r = Some (Ok (Some (len, quickack meta)), r') /\ rd_ok r' /\
    rd_bytes r' = zdrop h (rd_bytes r)) as Hword.
  { intros Ht. assert (4 <= zlen (rd_bytes r) /\ read_len_word (rd_bytes r) = (meta, len) /\ h = 4) as (Hl & Hw & ->).
    { unfold frame_header in Hh. destruct (Z.ltb_spec (zlen (rd_bytes r)) 4); [by destruct tag|].
      destruct tag; [done| |]; injection Hh as <- <- <-; split_and!; try done; by destruct (read_len_word _). }
    destruct (read_exact_spec r 4 Hr) as (r1 & E & Hr1 & Hb1); [lia|]. rewrite relay_len_word in Hw by done.
    injection Hw as Hm Hv. exists r1. split; [|done]. unfold read_client_header.
    destruct tag; [done| |]; rewrite E; rewrite Hv, <-Hm; by destruct (negb _). }
  destruct tag; [|by apply Hword..]. clear Hword.
  unfold frame_header in Hh. destruct (rd_bytes r) as [|b src] eqn:Eb; [done|].
  destruct (read_exact_spec r 1 Hr) as (r1 & E1 & Hr1 & Hb1); [rewrite Eb, zlen_cons; pose proof (zlen_nonneg src); lia|].
  rewrite Eb in E1, Hb1. change (ztake 1 (b :: src)) with [b] in E1. change (zdrop 1 (b :: src)) with src in Hb1.
  unfold read_client_header. rewrite E1. cbn [nth]. unfold bytes_ok in Hok. apply List.Forall_cons_iff in Hok as [Hb _].
  rewrite high_bit by done.
  assert (quickack (if 0x80 <=? b then with_quickack FrameMeta_new else FrameMeta_new) = (0x80 <=? b)) as Hq by by destruct (0x80 <=? b).
  destruct (Z.land b 127 =? 127).
  - destruct (Z.ltb_spec (zlen (b :: src)) 4) as [|Hl]; [done|]. injection Hh as <- <- <-. rewrite zlen_cons in Hl.
    destruct (read_exact_spec r1 3 Hr1) as (r2 & E2 & Hr2 & Hb2); [rewrite Hb1; lia|]. rewrite E2, Hb1.
    change (slice (b :: src) 1 4) with (ztake 3 src) in *. unfold usize_max.
    destruct (Z.ltb_spec (2 ^ 64 - 1) (le_val (ztake 3 src ++ [0]) * 4)); [lia|]. exists r2. rewrite Hb2, Hb1, Hq. done.
  - injection Hh as <- <- <-. unfold usize_max. destruct (Z.ltb_spec (2 ^ 64 - 1) (Z.land b 127 * 4)); [lia|].
    exists r1. by rewrite Hb1, Hq.
Qed.

(** The frames the relay takes from a client: empty ones are skipped, and a non-empty one has at least 4 bytes. *)
Definition relayable (f : Frame) : Prop := frame_data f = [] \/ 4 <= zlen (frame_data f).

#[global] Instance relayable_dec f : Decision (relayable f).
Proof. unfold relayable. apply _. Defined.

(** The body of a frame as the relay takes it. *)
Lemma frame_body_relay tag meta body f :
  frame_body tag meta body = Ok (Some f) -> relayable f -> zlen body <> 0 ->
  frame_data f <> [] /\ 4 <= zlen body /\
  (if decide (tag = Secure) then secure_payload_len_from_wire_len (zlen body) else Some (zlen body)) = Some (zlen (frame_data f)) /\
  frame_data f = (if decide (tag = Secure) then ztake (zlen (frame_data f)) body else body) /\
  quickack (frame_meta f) = quickack meta.
Proof.
  intros Hf Hrel Hne. assert (body <> []) as Hnil by (intros ->; done).
  destruct tag; cbn [frame_body] in Hf.
  1-2: injection Hf as <-; cbn [frame_data frame_meta Frame_with_meta] in *; destruct Hrel as [Hrel|Hrel]; [done|];
    split_and!; by try case_decide.
  unfold secure_payload_len_from_wire_len in *. destruct (Z.ltb_spec (zlen body) 4) as [|H4]; [done|].
  injection Hf as <-. cbn [frame_data frame_meta Frame_with_meta] in *.
  assert (zlen (ztake (zlen body - zlen body mod 4) body) = zlen body - zlen body mod 4) as Hz
    by (rewrite zlen_ztake; Z.div_mod_to_equations; lia).
  rewrite !decide_True by done. rewrite Hz. split_and!; try done.
  intros Hn. rewrite Hn in Hz. change (zlen (@nil Z)) with 0 in Hz. Z.div_mod_to_equations. lia.
Qed.

Variables (forensics : RelayForensicsState) (now : Z).

(** One frame: the relay reads what the codec decodes. *)
Lemma read_client_payload_frame tag max (st : RelayIn R) f rest :
  rd_ok (in_reader st) -> bytes_ok (rd_bytes (in_reader st)) ->
  decode_tag tag max (rd_bytes (in_reader st)) = (Ok (Some f), rest) -> relayable f ->
  exists r', rd_ok r' /\ rd_bytes r' = rest /\
    if decide (frame_data f = []) then
      forall fuel, read_client_payload hash_desync (S fuel) tag max forensics now st =
        read_client_payload hash_desync fuel tag max forensics now (with_reader st r')
    else forall fuel, read_client_payload hash_desync (S fuel) tag max forensics now st =
        Some (Ok (Some (frame_data f, quickack (frame_meta f))),
              mkRelayIn r' (u64 (in_frame_counter st + 1)) (in_stats st) (in_dedup st)).
Proof.
  intros Hr Hok Hdec Hrel. rewrite decode_tag_spec in Hdec by done. unfold decode_spec in Hdec.
  set (src := rd_bytes (in_reader st)) in *.
  destruct (frame_header tag src) as [[[meta h] len]|] eqn:Eh; [|done].
  destruct (frame_header_len _ _ _ _ _ Hok Eh) as [Hh Hlen].
  destruct (_ && _); [done|]. destruct (Z.ltb_spec max len) as [|Hmax]; [done|].
  destruct (Z.ltb_spec (zlen src) (h + len)) as [|Hfit]; [done|].
  destruct (read_client_header_spec tag _ meta h len Hr Hok Eh) as (r1 & E1 & Hr1 & Hb1).
  fold src in Hb1. cbn [read_client_payload]. rewrite E1. cbn [with_reader in_reader in_frame_counter in_stats in_dedup].
  set (body := slice src h (h + len)) in *.
  assert (zlen body = len) as Hlb by (unfold body; rewrite zlen_slice by lia; lia).
  assert (zdrop (h + len) src = zdrop len (zdrop h src)) as Hrest by (rewrite zdrop_zdrop by lia; f_equal; lia).
  assert (body = ztake len (zdrop h src)) as Hbody by (unfold body, slice; f_equal; lia).
  destruct (Z.eqb_spec len 0) as [Hz0|Hz0].
  { assert (body = []) as Hnil by (apply zlen_zero_nil; lia). rewrite Hnil in Hdec.
    destruct tag; cbn [frame_body] in Hdec; [| |done]; injection Hdec as <- <-;
      exists r1; (split_and!; [done|rewrite Hb1; f_equal; lia|]); rewrite decide_True by done; done. }
  destruct (frame_body tag meta body) as [[g|]|] eqn:Ef; [|done|done]. injection Hdec as <- <-.
  destruct (frame_body_relay tag meta body g Ef Hrel) as (Hne & H4 & Hsec & Hf & Hq); [lia|]. rewrite Hlb in H4, Hsec.
  destruct (Z.ltb_spec len 4); [lia|]. cbn [andb]. destruct (Z.ltb_spec max len); [lia|]. rewrite Hsec.
  destruct (read_exact_spec r1 len Hr1) as (r2 & E2 & Hr2 & Hb2); [rewrite Hb1, zlen_zdrop; lia|].
  rewrite E2, Hb1, <-Hbody. exists r2. split_and!; [done|by rewrite Hb2, Hb1, Hrest|].
  rewrite decide_False by done. intros fuel. rewrite <-Hf, Hq. done.
Qed.

(** Reading until the client stops: the payloads, and how it ended. *)
Fixpoint read_client_frames (n fuel : nat) (tag : ProtoTag) (max : Z) (st : RelayIn R)
  : option (list (bytes * bool) * result ProxyError unit * RelayIn R) :=
  match n with
  | O => None
  | S n =>
      match read_client_payload hash_desync fuel tag max forensics now st with
      | None => None
      | Some (Err e, st) => Some ([], Err e, st)
      | Some (Ok None, st) => Some ([], Ok tt, st)
      | Some (Ok (Some p), st) =>
          match read_client_frames n fuel tag max st with
          | None => None
          | Some (ps, r, st) => Some (p :: ps, r, st)
          end
      end
  end.

Definition eof_or_io (r : result ProxyError unit) : Prop := match r with Ok _ => True | Err e => exists io, e = PE_Io io end.

Lemma read_client_frames_eof tag max (st : RelayIn R) n fuel :
  rd_ok (in_reader st) -> rd_bytes (in_reader st) = [] ->
  exists r st', read_client_frames (S n) (S fuel) tag max st = Some ([], r, st') /\ eof_or_io r /\ in_stats st' = in_stats st.
Proof.
  intros Hr Hb. cbn [read_client_frames read_client_payload].
  assert (exists a r', read_client_header tag (in_reader st) = Some (a, r') /\
    match a with Ok None => True | Ok _ => False | Err e => exists io, e = PE_Io io end) as (a & r' & -> & Ha).
  { unfold read_client_header.
    assert (forall k, 0 < k -> exists e r', read_exact (in_reader st) k = Some (Err e, r')) as Hk.
    { intros k Hk. destruct (read_exact_short (in_reader st) k Hr) as (e & r' & E & _); [rewrite Hb; done|]. by eexists _, _. }
    destruct (Hk 1 ltac:(lia)) as (e1 & r1 & E1), (Hk 4 ltac:(lia)) as (e4 & r4 & E4).
    destruct tag; rewrite ?E1, ?E4; case_decide; (eexists _, _; split; [done|]; by try eexists). }
  destruct a as [[]|e]; [done|by eexists (Ok tt), _|]. by eexists (Err e), _.
Qed.

Definition payloads_of (fs : list Frame) : list (bytes * bool) :=
  omap (fun f => if decide (frame_data f = []) then None else Some (frame_data f, quickack (frame_meta f))) fs.

(** The client's encoder and the relay's reader agree. *)
Lemma client_frames_spec `{RngOk G} (c : FrameCodec G) fs dst tag max :
  fc_proto_tag c = tag -> fc_max_frame_size c = max ->
  Forall (encodable tag max) fs -> Forall relayable fs ->
  exists wire c', encode_frames c fs dst = Some (dst ++ wire, c') /\ bytes_ok wire /\
    forall (st : RelayIn R) n fuel k, rd_ok (in_reader st) -> rd_bytes (in_reader st) = wire ->
      (length fs <= n)%nat -> (length fs < fuel)%nat -> (length fs < k)%nat -> (k <= fuel)%nat ->
      exists r st',
        match read_client_payload hash_desync k tag max forensics now st with
        | None => None
        | Some (Err e, st) => Some ([], Err e, st)
        | Some (Ok None, st) => Some ([], Ok tt, st)
        | Some (Ok (Some p), st) =>
            match read_client_frames n fuel tag max st with None => None | Some (ps, r, st) => Some (p :: ps, r, st) end
        end = Some (payloads_of fs, r, st') /\ eof_or_io r /\ in_stats st' = in_stats st.
Proof.
  intros Ht Hm Hfs. revert c dst Ht Hm. induction Hfs as [|f fs Hf Hfs IH]; intros c dst Ht Hm Hrel.
  { exists [], c. rewrite app_nil_r. split_and!; [done|constructor|]. intros st n fuel k Hr Hb Hn _ Hk _.
    destruct k as [|k]; [cbn in Hk; lia|].
    destruct (read_client_frames_eof tag max st 0 k Hr Hb) as (r & st' & E & Hr' & Hs). exists r, st'. split; [|done].
    cbn [read_client_frames] in E. by destruct (read_client_payload _ _ _ _ _ _ _) as [[[[?|]|?] ?]|]. }
  apply List.Forall_cons_iff in Hrel as [Hrf Hrel]. subst tag max.
  destruct (FrameCodec_encode_image c f dst Hf) as (h & b & c1 & pad & E & Ht1 & Hm1 & Hi & _).
  destruct (IH c1 (dst ++ h ++ b) Ht1 Hm1 Hrel) as (wire & c' & Ew & Hwok & Hread).
  exists ((h ++ b) ++ wire), c'. cbn [encode_frames]. rewrite E, Ew, <-app_assoc. split; [done|].
  pose proof (wire_image_decode c f h b pad wire Hi Hwok) as Hdec. destruct Hi as (meta & _ & _ & _ & _ & Oh & Ob & _).
  split; [by rewrite !bytes_ok_app|]. intros st n fuel k Hr Hb Hn Hfu Hk Hle.
  set (g := mkFrame (frame_data f) (mkFrameMeta (quickack (frame_meta f)) false pad)) in *.
  destruct (read_client_payload_frame (fc_proto_tag c) (fc_max_frame_size c) st g wire Hr) as (r1 & Hr1 & Hb1 & Hp).
  - by rewrite Hb, !bytes_ok_app.
  - rewrite Hb. change (FrameCodec_decode c ((h ++ b) ++ wire) = (Ok (Some g), wire)) in Hdec. rewrite <-Hdec. by destruct c as [[]].
  - done.
  - cbn [length] in *. destruct k as [|k]; [lia|]. destruct n as [|n]; [lia|]. cbn [payloads_of omap list_omap].
    change (frame_data g) with (frame_data f) in Hp. change (quickack (frame_meta g)) with (quickack (frame_meta f)) in Hp.
    destruct (decide (frame_data f = [])); rewrite Hp.
    + destruct (Hread (with_reader st r1) (S n) fuel k) as (r & st' & -> & Hrr & Hss); [done..|lia|lia|lia|lia|]. by exists r, st'.
    + destruct fuel as [|fuel]; [lia|].
      destruct (Hread (mkRelayIn r1 (u64 (in_frame_counter st + 1)) (in_stats st) (in_dedup st)) n (S fuel) (S fuel))
        as (r & st' & Er & Hrr & Hss); [done..|lia|lia|lia|lia|]. cbn [read_client_frames]. rewrite Er. by exists r, st'.
Qed.

End ReadingFacts.

Section WritingFacts.
Context {G : Type} `{RngOk G}.

(** The frame the codec would make for a response. *)
Definition response_frame (flags : Z) (data : bytes) : Frame :=
  mkFrame data (mkFrameMeta (negb (Z.land flags RPC_FLAG_QUICKACK =? 0)) false 0).

Lemma write_client_payload_encodes tag max flags data (rng : G) :
  let '(r, dst, c) := FrameCodec_encode (mkFrameCodec tag max rng) (response_frame flags data) [] in
  let '(w, rng') := write_client_payload tag flags data rng in
  rng' = fc_rng c /\ match w with Ok bs => r = Ok tt /\ dst = bs | Err _ => is_ok r = false end.
Proof.
  unfold FrameCodec_encode, write_client_payload, response_frame. cbn [fc_proto_tag fc_rng fc_max_frame_size].
  set (q := negb (Z.land flags RPC_FLAG_QUICKACK =? 0)). destruct tag.
  - unfold encode_abridged. cbn [frame_data frame_meta simple_ack quickack].
    destruct (negb (is_multiple_of (zlen data) 4)); [done|]. destruct (zlen data / 4 <? 127); [done|].
    by destruct (zlen data / 4 <? Z.shiftl 1 24).
  - unfold encode_intermediate. cbn [frame_data frame_meta simple_ack quickack]. rewrite decide_False by done.
    cbn [fst snd]. rewrite Z.add_0_r. done.
  - unfold encode_secure. cbn [frame_data frame_meta simple_ack quickack]. rewrite decide_True by done.
    destruct (negb (is_valid_secure_payload_len (zlen data))); [done|].
    destruct (secure_padding_len (zlen data) rng) as [pad rng1]. destruct (0 <? pad); [|done]. by destruct (rng_bytes rng1 pad).
Qed.

End WritingFacts.

Section RelayClaims.
Context {R : Type} `{AsyncReadOk R} {G : Type} `{RngOk G}.
Variable hash_desync : string -> Z -> ProtoTag -> string -> Z.

(** What a client's frame encoder sends is what the relay reads: whatever frames it encodes (within the
    limit, each empty or of at least 4 bytes) and however the bytes arrive, the relay takes exactly the
    non-empty payloads, in order, with their QuickACK requests, then sees the end of the stream (or the
    error that ended it), and reports no desynchronisation. *)
Theorem client_frames_relayed (c : FrameCodec G) fs forensics now :
  let tag := fc_proto_tag c in let max := fc_max_frame_size c in
  Forall (encodable tag max) fs -> Forall relayable fs ->
  exists wire c', encode_frames c fs [] = Some (wire, c') /\
    forall (st : RelayIn R) n, rd_ok (in_reader st) -> rd_bytes (in_reader st) = wire -> (length fs < n)%nat ->
      exists r st', read_client_frames hash_desync forensics now n n tag max st = Some (payloads_of fs, r, st') /\
        eof_or_io r /\ in_stats st' = in_stats st.
Proof.
  intros tag max Hfs Hrel.
  destruct (client_frames_spec hash_desync forensics now c fs [] tag max eq_refl eq_refl Hfs Hrel) as (wire & c' & E & _ & Hread).
  exists wire, c'. split; [done|]. intros st n Hr Hb Hn. destruct n as [|n]; [lia|].
  cbn [read_client_frames]. apply (Hread st n (S n) (S n)); try done; lia.
Qed.

(** The relay frames the middle proxy's answers as the codec does: the same bytes, the same padding drawn
    from the same generator and the same refusals, QuickACK when the flags ask for it; and an acknowledgement is
    written as the codec writes a simple acknowledgement. *)
Theorem relay_writes_codec_frames tag max flags data confirm (rng : G) :
  (let '(r, dst, c) := FrameCodec_encode (mkFrameCodec tag max rng) (response_frame flags data) [] in
   let '(w, rng') := write_client_payload tag flags data rng in
   rng' = fc_rng c /\ match w with Ok bs => r = Ok tt /\ dst = bs | Err _ => is_ok r = false end) /\
  FrameCodec_encode (mkFrameCodec tag max rng) (Frame_simple_ack (le_bytes 4 confirm)) [] =
    (Ok tt, write_client_ack tag confirm, mkFrameCodec tag max rng).
Proof. split; [apply write_client_payload_encodes|]. by destruct tag. Qed.

End RelayClaims.

Section RelayWitnesses.
Import DemoRng.

End RelayWitnesses.
