(* ===== verification/RelaySession.v ===== *)
(** * A middle-proxy session: [handle_via_middle_proxy] of [proxy/middle_relay.rs]

    Three tasks share a session: the main loop reads the client and fills the command queue, the sender
    task empties it into the pool, the writer task answers the client.  A session is a state with one
    step per thing a task can do next; the scheduler, the pool and the network choose the order, so a run is
    any sequence of enabled steps. *)

From stdpp Require Import gmap.
From S2P Require Import Prelude NetAddr Errors Random Constants FrameCodec AsyncIo Wire Registry Stats NetProbe MiddleRelay.

(** ** The request flags (middle_relay.rs:240-256, 397-408) *)

Inductive C2MeCommand :=
| CData (payload : bytes) (flags : Z)
| CClose.

(** A tag is used when it is 16 bytes of valid hexadecimal; [hex_decode] is [hex::decode]. *)
Definition usable_tag (hex_decode : bytes -> option bytes) (s : option bytes) : option bytes :=
  match s ≫= hex_decode with Some v => if zlen v =? 16 then Some v else None | None => None end.
Definition effective_tag (hex_decode : bytes -> option bytes) (user_tag global_tag : option bytes) : option bytes :=
  option_or (usable_tag hex_decode user_tag) (usable_tag hex_decode global_tag).

Definition request_flags (proto_flags : Z) (payload : bytes) (quickack : bool) : Z :=
  let flags := proto_flags in
  let flags := if quickack then Z.lor flags RPC_FLAG_QUICKACK else flags in
  if (8 <=? zlen payload) && forallb (fun b => b =? 0) (ztake 8 payload) then Z.lor flags RPC_FLAG_NOT_ENCRYPTED else flags.

(** ** State *)

(** The main loop: reading, waiting for room in the command queue, left with its result (and whether the client
    closed), waiting for the writer after the sender has ended, finished. *)
Inductive MainTask :=
| MReading
| MEnqueue (cmd : C2MeCommand)
| MLeft (main_result : result ProxyError unit) (client_closed : bool)
| MStopping (main_result : result ProxyError unit) (client_closed : bool) (c2me_result : result ProxyError unit)
| MDone (r : result ProxyError unit).

Inductive SenderTask := SRunning | SEnded (r : result ProxyError unit).

(** The writer waits for a response, or is in the batch that ends with one flush. *)
Inductive WriterTask := WIdle | WBatch | WEnded (r : result ProxyError unit).

(** [ss_in] holds the client reader and the shared statistics; [ss_queue] is the command channel and [ss_me] the channel of
    the middle proxy's responses; [ss_sent] and [ss_closes] are the requests and closes the pool has accepted, [ss_out] the bytes
    handed to the client's writer.  [ss_read], [ss_eof] and [ss_answered] are the history: payloads read, the end of
    the client's stream seen, responses written. *)
Record Session (R G : Type) := mkSession {
  ss_in : RelayIn R;
  ss_main : MainTask;
  ss_queue : list C2MeCommand;
  ss_sender : SenderTask;
  ss_sent : list (bytes * Z);
  ss_closes : nat;
  ss_me : list MeResponse;
  ss_me_open : bool;
  ss_writer : WriterTask;
  ss_out : bytes;
  ss_rng : G;
  ss_registered : bool;
  ss_read : list (bytes * bool);
  ss_eof : bool;
  ss_answered : list MeResponse
}.
Arguments mkSession {R G}.
Arguments ss_in {R G}.
Arguments ss_main {R G}.
Arguments ss_queue {R G}.
Arguments ss_sender {R G}.
Arguments ss_sent {R G}.
Arguments ss_closes {R G}.
Arguments ss_me {R G}.
Arguments ss_me_open {R G}.
Arguments ss_writer {R G}.
Arguments ss_out {R G}.
Arguments ss_rng {R G}.
Arguments ss_registered {R G}.
Arguments ss_read {R G}.
Arguments ss_eof {R G}.
Arguments ss_answered {R G}.

Record SessionCfg := mkSessionCfg {
  sc_user : string;
  sc_proto_tag : ProtoTag;
  sc_frame_limit : Z;
  sc_proto_flags : Z;
  sc_forensics : RelayForensicsState
}.

(** What can happen next.  A read may skip [fuel] empty frames before it returns; [ESend] carries the outcome of
    [send_proxy_req], [EWrite] how writing to the client ends. *)
Inductive event :=
| ERead (fuel : nat) (now : Z)
| EEnqueue
| ESend (r : result ProxyError unit)
| EArrive (m : MeResponse)
| ELost
| EWrite (w : option IoError)
| EStopSeen
| EJoinSender
| EFinish.

Section Steps.
Context {R G : Type} `{AsyncRead R} `{Rng G}.
Variable hash_desync : string -> Z -> ProtoTag -> string -> Z.
Variable cfg : SessionCfg.

Definition set_main (s : Session R G) (m : MainTask) : Session R G :=
  mkSession (ss_in s) m (ss_queue s) (ss_sender s) (ss_sent s) (ss_closes s) (ss_me s) (ss_me_open s) (ss_writer s)
    (ss_out s) (ss_rng s) (ss_registered s) (ss_read s) (ss_eof s) (ss_answered s).
Definition set_queue (s : Session R G) (q : list C2MeCommand) : Session R G :=
  mkSession (ss_in s) (ss_main s) q (ss_sender s) (ss_sent s) (ss_closes s) (ss_me s) (ss_me_open s) (ss_writer s)
    (ss_out s) (ss_rng s) (ss_registered s) (ss_read s) (ss_eof s) (ss_answered s).
Definition set_sender (s : Session R G) (q : list C2MeCommand) (t : SenderTask) (sent : list (bytes * Z)) (closes : nat)
  : Session R G :=
  mkSession (ss_in s) (ss_main s) q t sent closes (ss_me s) (ss_me_open s) (ss_writer s)
    (ss_out s) (ss_rng s) (ss_registered s) (ss_read s) (ss_eof s) (ss_answered s).
Definition set_me (s : Session R G) (me : list MeResponse) (open : bool) : Session R G :=
  mkSession (ss_in s) (ss_main s) (ss_queue s) (ss_sender s) (ss_sent s) (ss_closes s) me open (ss_writer s)
    (ss_out s) (ss_rng s) (ss_registered s) (ss_read s) (ss_eof s) (ss_answered s).
Definition set_writer (s : Session R G) (me : list MeResponse) (w : WriterTask) (out : bytes) (rng : G)
    (answered : list MeResponse) : Session R G :=
  mkSession (ss_in s) (ss_main s) (ss_queue s) (ss_sender s) (ss_sent s) (ss_closes s) me (ss_me_open s) w
    out rng (ss_registered s) (ss_read s) (ss_eof s) answered.
Definition set_in (s : Session R G) (i : RelayIn R) (m : MainTask) (read : list (bytes * bool)) (eof : bool) : Session R G :=
  mkSession i m (ss_queue s) (ss_sender s) (ss_sent s) (ss_closes s) (ss_me s) (ss_me_open s) (ss_writer s)
    (ss_out s) (ss_rng s) (ss_registered s) read eof (ss_answered s).
Definition map_stats (s : Session R G) (f : Stats -> Stats) : Session R G :=
  let i := ss_in s in
  set_in s (mkRelayIn (in_reader i) (in_frame_counter i) (f (in_stats i)) (in_dedup i)) (ss_main s) (ss_read s) (ss_eof s).

Definition command_of (p : bytes * bool) : C2MeCommand :=
  CData p.1 (request_flags (sc_proto_flags cfg) p.1 p.2).

(** ** The main loop (middle_relay.rs:382-429) *)

Definition main_read (s : Session R G) (fuel : nat) (now : Z) : option (Session R G) :=
  match read_client_payload hash_desync fuel (sc_proto_tag cfg) (sc_frame_limit cfg) (sc_forensics cfg) now (ss_in s) with
  | None => None
  | Some (Ok (Some p), i) =>
      let s := set_in s i (MEnqueue (command_of p)) (ss_read s ++ [p]) (ss_eof s) in
      Some (map_stats s (fun st => add_user_octets_from st (sc_user cfg) (zlen p.1)))
  | Some (Ok None, i) => Some (set_in s i (MEnqueue CClose) (ss_read s) true)
  | Some (Err e, i) => Some (set_in s i (MLeft (Err e) false) (ss_read s) (ss_eof s))
  end.

(** [enqueue_c2me_command]: waits for room, fails when the sender is gone. *)
Definition main_enqueue (s : Session R G) (cmd : C2MeCommand) : option (Session R G) :=
  match ss_sender s with
  | SEnded _ =>
      Some (set_main s (match cmd with
                        | CData _ _ => MLeft (Err (PE_Proxy "ME sender channel closed")) false
                        | CClose => MLeft (Ok tt) true
                        end))
  | SRunning =>
      if zlen (ss_queue s) <? C2ME_CHANNEL_CAPACITY then
        Some (set_main (set_queue s (ss_queue s ++ [cmd])) (match cmd with CData _ _ => MReading | CClose => MLeft (Ok tt) true end))
      else None
  end.

(** ** The sender (middle_relay.rs:272-303) *)

Definition tx_dropped (m : MainTask) : bool := match m with MReading | MEnqueue _ => false | _ => true end.

Definition sender_step (s : Session R G) (r : result ProxyError unit) : option (Session R G) :=
  match ss_sender s with
  | SEnded _ => None
  | SRunning =>
      match ss_queue s with
      | CData payload flags :: q =>
          match r with
          | Ok _ => Some (set_sender s q SRunning (ss_sent s ++ [(payload, flags)]) (ss_closes s))
          | Err e => Some (set_sender s q (SEnded (Err e)) (ss_sent s) (ss_closes s))
          end
      | CClose :: q => Some (set_sender s q (SEnded (Ok tt)) (ss_sent s) (S (ss_closes s)))
      | [] => if tx_dropped (ss_main s) then Some (set_sender s [] (SEnded (Ok tt)) (ss_sent s) (ss_closes s)) else None
      end
  end.

(** ** The writer (middle_relay.rs:312-380) *)

Definition me_lost : ProxyError := PE_Proxy "ME connection lost".

(** The bytes of a response. *)
Definition response_bytes (m : MeResponse) (rng : G) : result ProxyError bytes * G :=
  match m with
  | MeData flags data => write_client_payload (sc_proto_tag cfg) flags data rng
  | MeAck confirm => (Ok (write_client_ack (sc_proto_tag cfg) confirm), rng)
  | MeClose => (Ok [], rng)
  end.

Definition count_response (m : MeResponse) (st : Stats) : Stats :=
  match m with MeData _ data => add_user_octets_to st (sc_user cfg) (zlen data) | _ => st end.

(** After a response: data opens (or stays in) a batch, an acknowledgement has been flushed, a close ends the task. *)
Definition after_response (m : MeResponse) (w : WriterTask) : WriterTask :=
  match m with MeData _ _ => WBatch | MeAck _ => w | MeClose => WEnded (Ok tt) end.

Definition write_response (s : Session R G) (m : MeResponse) (me : list MeResponse) (w : option IoError) : Session R G :=
  let s := map_stats s (count_response m) in
  let '(b, rng) := response_bytes m (ss_rng s) in
  match b with
  | Err e => set_writer s me (WEnded (Err e)) (ss_out s) rng (ss_answered s)
  | Ok bs =>
      match m, w with
      | MeClose, _ | _, None => set_writer s me (after_response m (ss_writer s)) (ss_out s ++ bs) rng (ss_answered s ++ [m])
      | _, Some e => set_writer s me (WEnded (Err (PE_Io e))) (ss_out s) rng (ss_answered s)
      end
  end.

Definition writer_step (s : Session R G) (w : option IoError) : option (Session R G) :=
  match ss_writer s, ss_me s with
  | WEnded _, _ => None
  | _, m :: me => Some (write_response s m me w)
  | WBatch, [] =>
      Some (set_writer s [] (match w with None => WIdle | Some e => WEnded (Err (PE_Io e)) end) (ss_out s) (ss_rng s) (ss_answered s))
  | WIdle, [] =>
      if ss_me_open s then None else Some (set_writer s [] (WEnded (Err me_lost)) (ss_out s) (ss_rng s) (ss_answered s))
  end.

(** ** The end (middle_relay.rs:431-471) *)

Definition is_me_lost (r : result ProxyError unit) : bool :=
  match r with Err (PE_Proxy msg) => bool_decide (msg = "ME connection lost"%string) | _ => false end.

Definition session_result (main_result c2me_result writer_result : result ProxyError unit) (client_closed : bool)
  : result ProxyError unit :=
  let writer_result := if client_closed && is_me_lost writer_result then Ok tt else writer_result in
  match main_result, c2me_result, writer_result with
  | Ok _, Ok _, Ok _ => Ok tt
  | Err e, _, _ => Err e
  | _, Err e, _ => Err e
  | _, _, Err e => Err e
  end.

Definition finish (s : Session R G) : Session R G :=
  let s := map_stats s (fun st => decrement_user_curr_connects st (sc_user cfg)) in
  mkSession (ss_in s) (ss_main s) (ss_queue s) (ss_sender s) (ss_sent s) (ss_closes s) (ss_me s) (ss_me_open s) (ss_writer s)
    (ss_out s) (ss_rng s) false (ss_read s) (ss_eof s) (ss_answered s).

Definition step (s : Session R G) (ev : event) : option (Session R G) :=
  match ev with
  | ERead fuel now => match ss_main s with MReading => main_read s fuel now | _ => None end
  | EEnqueue => match ss_main s with MEnqueue cmd => main_enqueue s cmd | _ => None end
  | ESend r => sender_step s r
  | EArrive m =>
      match ss_writer s with
      | WEnded _ => None
      | _ => if ss_me_open s then Some (set_me s (ss_me s ++ [m]) true) else None
      end
  | ELost => Some (set_me s (ss_me s) false)
  | EWrite w => writer_step s w
  | EStopSeen =>
      match ss_writer s, ss_main s with
      | WIdle, MStopping _ _ _ => Some (set_writer s (ss_me s) (WEnded (Ok tt)) (ss_out s) (ss_rng s) (ss_answered s))
      | _, _ => None
      end
  | EJoinSender =>
      match ss_main s, ss_sender s with
      | MLeft r closed, SEnded c2me_result => Some (set_main s (MStopping r closed c2me_result))
      | _, _ => None
      end
  | EFinish =>
      match ss_main s, ss_writer s with
      | MStopping r closed c2me_result, WEnded writer_result =>
          Some (set_main (finish s) (MDone (session_result r c2me_result writer_result closed)))
      | _, _ => None
      end
  end.

Fixpoint run (s : Session R G) (evs : list event) : option (Session R G) :=
  match evs with
  | [] => Some s
  | ev :: evs => match step s ev with Some s => run s evs | None => None end
  end.

(** The session as [handle_via_middle_proxy] sets it up (middle_relay.rs:216-239). *)
Definition session_start (reader : R) (stats : Stats) (dedup : gmap Z Z) (rng : G) : Session R G :=
  let stats := increment_user_connects stats (sc_user cfg) in
  let stats := increment_user_curr_connects stats (sc_user cfg) in
  mkSession (mkRelayIn reader 0 stats dedup) MReading [] SRunning [] 0 [] true WIdle [] rng true [] false [].

End Steps.

(** ** The client's frames on the wire *)

(** [wire] carries the frames [fs], each as an image the codec decodes. *)
Inductive frames_wire (tag : ProtoTag) (max : Z) : list Frame -> bytes -> Prop :=
| fw_nil : frames_wire tag max [] []
| fw_cons f g fs img wire :
    (forall rest, bytes_ok rest -> decode_tag tag max (img ++ rest) = (Ok (Some g), rest)) ->
    frame_data g = frame_data f -> quickack (frame_meta g) = quickack (frame_meta f) ->
    bytes_ok img -> relayable f -> frames_wire tag max fs wire -> frames_wire tag max (f :: fs) (img ++ wire).

Lemma frames_wire_ok tag max fs wire : frames_wire tag max fs wire -> bytes_ok wire.
Proof. induction 1; [constructor|]. by apply bytes_ok_app. Qed.

Lemma encode_frames_wire `{RngOk G} (c : FrameCodec G) fs dst :
  Forall (encodable (fc_proto_tag c) (fc_max_frame_size c)) fs -> Forall relayable fs ->
  exists wire c', encode_frames c fs dst = Some (dst ++ wire, c') /\
    frames_wire (fc_proto_tag c) (fc_max_frame_size c) fs wire.
Proof.
  revert c dst. induction fs as [|f fs IH]; intros c dst Hfs Hrel.
  { exists [], c. rewrite app_nil_r. split; [done|constructor]. }
  apply List.Forall_cons_iff in Hfs as [Hf Hfs], Hrel as [Hr Hrel].
  destruct (FrameCodec_encode_image c f dst Hf) as (h & b & c1 & pad & E & Ht & Hm & Hi & _).
  rewrite <-Ht, <-Hm in Hfs. destruct (IH c1 (dst ++ h ++ b) Hfs Hrel) as (wire & c' & Ew & Hw). rewrite Ht, Hm in Hw.
  exists ((h ++ b) ++ wire), c'. cbn [encode_frames]. rewrite E, Ew, <-app_assoc. split; [done|].
  eapply (fw_cons _ _ f (mkFrame (frame_data f) (mkFrameMeta (quickack (frame_meta f)) false pad))); try done.
  - intros rest Hrest. pose proof (wire_image_decode c f h b pad rest Hi Hrest) as Hd. rewrite <-Hd. by destruct c as [[]].
  - destruct Hi as (meta & _ & _ & _ & _ & Oh & Ob & _). by apply bytes_ok_app.
Qed.

Section ClientReads.
Context {R : Type} `{AsyncReadOk R}.
Variable hash_desync : string -> Z -> ProtoTag -> string -> Z.
Variables (tag : ProtoTag) (max : Z) (forensics : RelayForensicsState).

Definition carries (fs : list Frame) (r : R) : Prop := rd_ok r /\ frames_wire tag max fs (rd_bytes r).

Lemma payloads_of_app a b : payloads_of (a ++ b) = payloads_of a ++ payloads_of b.
Proof. unfold payloads_of. apply omap_app. Qed.

Lemma relay_reads_one fs k now (st st' : RelayIn R) a :
  carries fs (in_reader st) -> read_client_payload hash_desync k tag max forensics now st = Some (a, st') ->
  match a with
  | Ok (Some p) => exists fs1 fs2, fs = fs1 ++ fs2 /\ payloads_of fs1 = [p] /\ carries fs2 (in_reader st')
  | Ok None => payloads_of fs = []
  | Err _ => True
  end.
Proof.
  revert fs st. induction k as [|k IH]; intros fs st [Hr Hw] E; [done|]. inversion Hw as [Enl Hb|f g fs' img wire Hdec Hd Hq Himg Hrel Hw' Ef Hb].
  { destruct (read_client_frames_eof hash_desync forensics now tag max st 0 k Hr (eq_sym Hb)) as (r & st1 & E1 & _).
    cbn [read_client_frames] in E1. rewrite E in E1. subst fs. by destruct a as [[p|]|e]. }
  subst fs. pose proof (frames_wire_ok _ _ _ _ Hw') as Hok.
  destruct (read_client_payload_frame hash_desync forensics now tag max st g wire Hr) as (r1 & Hr1 & Hb1 & Hp).
  - rewrite <-Hb. by apply bytes_ok_app.
  - rewrite <-Hb. by apply Hdec.
  - unfold relayable in *. by rewrite Hd.
  - rewrite Hd, Hq in Hp.
    assert (payloads_of (f :: fs') = payloads_of [f] ++ payloads_of fs') as Eapp by apply (payloads_of_app [f] fs').
    destruct (decide (frame_data f = [])) as [Hn|Hn]; rewrite Hp in E.
    + assert (payloads_of [f] = []) as Enil by (cbn; by rewrite decide_True).
      assert (carries fs' (in_reader (with_reader st r1))) as Hc by (split; [done|]; cbn; by rewrite Hb1).
      specialize (IH fs' (with_reader st r1) Hc E). destruct a as [[p|]|e]; [|by rewrite Eapp, Enil, IH|done].
      destruct IH as (fs1 & fs2 & -> & Hps & Hc2). exists (f :: fs1), fs2. split_and!; [done| |done].
      rewrite (payloads_of_app [f] fs1 : payloads_of (f :: fs1) = _), Enil, Hps. done.
    + injection E as <- <-. exists [f], fs'. split_and!; [done| |split; [done|]; cbn; by rewrite Hb1].
      cbn. by rewrite decide_False.
Qed.

End ClientReads.

(** ** What a run preserves *)

Section Invariants.
Context {R G : Type} `{AsyncReadOk R} `{RngOk G}.
Variable hash_desync : string -> Z -> ProtoTag -> string -> Z.
Variable cfg : SessionCfg.

Abbreviation session := (Session R G) (only parsing).
Abbreviation do_step := (step hash_desync cfg) (only parsing).
Abbreviation cmd_of := (command_of cfg) (only parsing).

(** The commands the main loop has produced, those the pool has taken, and the one that waits for room. *)
Definition issued (s : session) : list C2MeCommand := map cmd_of (ss_read s) ++ (if ss_eof s then [CClose] else []).
Definition taken (s : session) : list C2MeCommand :=
  map (fun p => CData p.1 p.2) (ss_sent s) ++ replicate (ss_closes s) CClose.
Definition waiting (m : MainTask) : list C2MeCommand := match m with MEnqueue cmd => [cmd] | _ => [] end.

Definition main_eof (s : session) : Prop :=
  match ss_main s with
  | MReading | MEnqueue (CData _ _) => ss_eof s = false
  | MEnqueue CClose => ss_eof s = true
  | MLeft r closed | MStopping r closed _ => (is_ok r = true -> closed = true) /\ (closed = true -> ss_eof s = true)
  | MDone r => is_ok r = true -> ss_eof s = true
  end.

(** No command is lost, repeated or reordered on its way to the pool. *)
Record in_order (s : session) : Prop := {
  io_run : ss_sender s = SRunning -> taken s ++ ss_queue s ++ waiting (ss_main s) = issued s /\ ss_closes s = O;
  io_prefix : taken s `prefix_of` issued s /\ (ss_closes s <= 1)%nat;
  io_ok : forall r, ss_sender s = SEnded r -> is_ok r = true -> taken s = issued s /\ tx_dropped (ss_main s) = true;
  io_stop : match ss_main s with MStopping _ _ c => ss_sender s = SEnded c | _ => True end;
  io_done : match ss_main s with MDone r => is_ok r = true -> exists c, ss_sender s = SEnded c /\ is_ok c = true | _ => True end;
  io_eof : main_eof s
}.

Lemma in_order_start reader stats dedup rng : in_order (session_start cfg reader stats dedup rng).
Proof. constructor; cbn; try done. by split; [exists []|lia]. Qed.

(** Steps of the writer and the middle proxy do not touch the commands. *)
Definition same_commands (s s' : session) : Prop :=
  ss_main s' = ss_main s /\ ss_queue s' = ss_queue s /\ ss_sender s' = ss_sender s /\ ss_sent s' = ss_sent s /\
  ss_closes s' = ss_closes s /\ ss_read s' = ss_read s /\ ss_eof s' = ss_eof s.

Lemma in_order_same s s' : same_commands s s' -> in_order s -> in_order s'.
Proof.
  intros (E1 & E2 & E3 & E4 & E5 & E6 & E7) [I1 I2 I3 I4 I5 I6].
  constructor; unfold taken, issued, main_eof in *; by rewrite ?E1, ?E2, ?E3, ?E4, ?E5, ?E6, ?E7.
Qed.

Lemma write_response_same s m me w : same_commands s (write_response cfg s m me w).
Proof. unfold write_response. destruct (response_bytes _ _ _) as [[bs|e] rng]; [|done]. by destruct m, w. Qed.

Ltac order_case I6 Em :=
  constructor; unfold taken, issued, main_eof in *; cbn -[map]; rewrite ?I6, ?Em, ?app_nil_r in *; cbn [waiting] in *; try done.

Lemma in_order_read s fuel now s' : ss_main s = MReading -> main_read hash_desync cfg s fuel now = Some s' -> in_order s -> in_order s'.
Proof.
  intros Em Er [I1 I2 I3 I4 I5 I6]. unfold main_read in Er. unfold main_eof in I6. rewrite Em in I6.
  assert (forall r, ss_sender s = SEnded r -> is_ok r = true -> False) as Hno
    by (intros r Es Hok; destruct (I3 r Es Hok) as [_ Ht]; by rewrite Em in Ht).
  destruct (read_client_payload _ _ _ _ _ _ _) as [[[[p|]|e] i]|]; [| | |done]; injection Er as <-.
  - order_case I6 Em.
    + intros Es. destruct (I1 Es) as [E Hc]. split; [|done]. rewrite map_app, app_assoc. by rewrite E.
    + destruct I2 as [Hp Hc]. split; [|done]. rewrite map_app. by apply prefix_app_r.
    + intros r Es Hok. by destruct (Hno r Es Hok).
  - order_case I6 Em.
    + intros Es. destruct (I1 Es) as [E Hc]. split; [|done]. by rewrite app_assoc, E.
    + destruct I2 as [Hp Hc]. split; [|done]. by apply prefix_app_r.
    + intros r Es Hok. by destruct (Hno r Es Hok).
  - order_case I6 Em.
    intros r Es Hok. by destruct (Hno r Es Hok).
Qed.

Lemma in_order_enqueue s cmd s' : ss_main s = MEnqueue cmd -> main_enqueue s cmd = Some s' -> in_order s -> in_order s'.
Proof.
  intros Em Er [I1 I2 I3 I4 I5 I6]. unfold main_enqueue in Er. unfold main_eof in I6. rewrite Em in I6.
  destruct (ss_sender s) as [|r0] eqn:Es.
  - destruct (_ <? _); [|done]. injection Er as <-. destruct (I1 eq_refl) as [E Hc]. rewrite Em in E. cbn [waiting] in E.
    constructor; unfold taken, issued, main_eof in *; cbn -[map]; rewrite ?Es; try done.
    + intros _. split; [|done]. destruct cmd; cbn [waiting]; by rewrite app_nil_r.
    + by destruct cmd.
    + by destruct cmd.
    + by destruct cmd.
  - injection Er as <-. constructor; unfold taken, issued, main_eof in *; cbn -[map]; rewrite ?Es; try done.
    + intros r [= <-] Hok. destruct (I3 r0 eq_refl Hok) as [_ Ht]. by rewrite Em in Ht.
    + by destruct cmd.
    + by destruct cmd.
    + by destruct cmd.
Qed.

(** A close can only be the last command. *)
Lemma close_is_last (sent : list (bytes * Z)) (read : list (bytes * bool)) rest (eof : bool) :
  map (fun p => CData p.1 p.2) sent ++ CClose :: rest = map cmd_of read ++ (if eof then [CClose] else []) ->
  rest = [] /\ eof = true.
Proof.
  revert read. induction sent as [|p sent IH]; intros [|q read] E; cbn [map app] in E.
  - destruct eof; by simplify_eq.
  - done.
  - by destruct eof.
  - injection E as _ _ E. by apply (IH read).
Qed.

Lemma in_order_send s r s' : sender_step s r = Some s' -> in_order s -> in_order s'.
Proof.
  intros Er [I1 I2 I3 I4 I5 I6]. unfold sender_step in Er. destruct (ss_sender s) as [|r0] eqn:Es; [|done].
  destruct (I1 eq_refl) as [E Hc]. clear I1 I3. unfold taken, issued, main_eof in *. rewrite Hc in *.
  assert (match ss_main s with MDone r => is_ok r = false | MStopping _ _ _ => False | _ => True end) as Hm.
  { destruct (ss_main s) as [| | | |r1]; try done. destruct (is_ok r1); [|done]. by destruct (I5 eq_refl) as (? & ? & _). }
  cbn [replicate] in *. rewrite app_nil_r in *.
  destruct (ss_queue s) as [|[payload flags|] q] eqn:Eq.
  - destruct (tx_dropped (ss_main s)) eqn:Et; [|done]. injection Er as <-.
    assert (waiting (ss_main s) = []) as Hw by by destruct (ss_main s). rewrite Hw, app_nil_r in E.
    constructor; unfold taken, issued, main_eof; cbn -[map]; rewrite ?Hc, ?app_nil_r; cbn [replicate]; rewrite ?app_nil_r; try done.
    + by destruct (ss_main s).
    + destruct (ss_main s); try done. by rewrite Hm.
  - destruct r as [[]|e]; injection Er as <-.
    + constructor; unfold taken, issued, main_eof; cbn -[map]; rewrite ?Hc; cbn [replicate]; rewrite ?app_nil_r; try done.
      * intros _. split; [|done]. rewrite map_app, <-E, <-app_assoc. done.
      * split; [|lia]. rewrite map_app, <-E. exists (q ++ waiting (ss_main s)). by rewrite <-app_assoc.
    + constructor; unfold taken, issued, main_eof; cbn -[map]; rewrite ?Hc; cbn [replicate]; rewrite ?app_nil_r; try done.
      * by intros ? [= <-].
      * by destruct (ss_main s).
      * destruct (ss_main s); try done. by rewrite Hm.
  - injection Er as <-. cbn [app] in E. destruct (close_is_last _ _ _ _ E) as [Hnil He]. rewrite Hnil in E.
    assert (tx_dropped (ss_main s) = true) as Ht.
    { apply app_eq_nil in Hnil as [_ Hw]. rewrite He in I6. by destruct (ss_main s) as [|[]| | |]. }
    constructor; unfold taken, issued, main_eof; cbn -[map]; rewrite ?Hc; cbn [replicate]; rewrite ?E; try done.
    + by destruct (ss_main s).
    + destruct (ss_main s); try done. by rewrite Hm.
Qed.

Lemma session_result_ok r c w closed : is_ok (session_result r c w closed) = true -> is_ok r = true /\ is_ok c = true.
Proof. unfold session_result. set (w' := if closed && is_me_lost w then Ok tt else w). by destruct r, c, w'. Qed.

Lemma in_order_step s ev s' : do_step s ev = Some s' -> in_order s -> in_order s'.
Proof.
  intros Es HI. destruct ev as [fuel now| |r|m| |w| | |]; cbn [step] in Es.
  - destruct (ss_main s) eqn:Em; try done. by eapply in_order_read.
  - destruct (ss_main s) eqn:Em; try done. by eapply in_order_enqueue.
  - by eapply in_order_send.
  - destruct (ss_writer s); try done; destruct (ss_me_open s); try done; injection Es as <-; by apply (in_order_same s).
  - injection Es as <-. by apply (in_order_same s).
  - unfold writer_step in Es. destruct (ss_writer s), (ss_me s); try done;
      try (injection Es as <-; apply (in_order_same s); [|done]; try apply write_response_same; done).
    destruct (ss_me_open s); [done|]. injection Es as <-. by apply (in_order_same s).
  - destruct (ss_writer s), (ss_main s); try done. injection Es as <-. by apply (in_order_same s).
  - destruct HI as [I1 I2 I3 I4 I5 I6]. destruct (ss_main s) eqn:Em; try done. destruct (ss_sender s) eqn:Eq; try done. injection Es as <-.
    unfold main_eof in I6. rewrite Em in I6.
    constructor; unfold taken, issued, main_eof in *; cbn -[map]; by rewrite ?Eq.
  - destruct HI as [I1 I2 I3 I4 I5 I6]. destruct (ss_main s) as [| | |r closed c|] eqn:Em; try done.
    destruct (ss_writer s) as [| |wr]; try done. injection Es as <-. unfold main_eof in I6. rewrite Em in I6.
    constructor; unfold taken, issued, main_eof in *; cbn -[map session_result]; rewrite ?I4; try done.
    + intros r0 [= <-] Hok. by destruct (I3 _ I4 Hok).
    + intros Hok. exists c. split; [done|]. by apply session_result_ok in Hok as [_ ?].
    + intros Hok. apply I6, I6. by apply session_result_ok in Hok as [? _].
Qed.

(** ** The client's side *)

Variable fs : list Frame.

(** What has been read is the payloads of the first frames; the rest is still to come. *)
Definition reads_frames (s : session) : Prop :=
  exists fs1 fs2, fs = fs1 ++ fs2 /\ ss_read s = payloads_of fs1 /\ (ss_eof s = true -> payloads_of fs2 = []) /\
    (tx_dropped (ss_main s) = false -> ss_eof s = false -> carries (sc_proto_tag cfg) (sc_frame_limit cfg) fs2 (in_reader (ss_in s))).

Lemma reads_frames_frame s s' :
  ss_read s' = ss_read s -> ss_eof s' = ss_eof s -> in_reader (ss_in s') = in_reader (ss_in s) ->
  (tx_dropped (ss_main s') = false -> tx_dropped (ss_main s) = false) -> reads_frames s -> reads_frames s'.
Proof.
  intros E1 E2 E3 Ht (fs1 & fs2 & -> & Er & He & Hc). exists fs1, fs2. rewrite E1, E2, E3. split_and!; try done. intros Hd. by apply Hc, Ht.
Qed.

Lemma reads_frames_step s ev s' : do_step s ev = Some s' -> main_eof s -> reads_frames s -> reads_frames s'.
Proof.
  intros Es Heof HI. destruct ev as [fuel now| |r|m| |w| | |]; cbn [step] in Es.
  - destruct (ss_main s) eqn:Em; try done. unfold main_read in Es. unfold main_eof in Heof. rewrite Em in Heof.
    destruct HI as (fs1 & fs2 & E & Er & He & Hc). rewrite Em in Hc. specialize (Hc eq_refl Heof).
    destruct (read_client_payload _ _ _ _ _ _ _) as [[a i]|] eqn:Ep; [|done].
    pose proof (relay_reads_one hash_desync _ _ (sc_forensics cfg) fs2 fuel now (ss_in s) i a Hc Ep) as Ha.
    destruct a as [[p|]|e]; injection Es as <-.
    + destruct Ha as (fa & fb & -> & Hp & Hcb). exists (fs1 ++ fa), fb. cbn. rewrite payloads_of_app, Hp, Er.
      split_and!; [by rewrite E, app_assoc|done|by rewrite Heof|done].
    + exists fs1, fs2. cbn. by split_and!.
    + exists fs1, fs2. cbn. by split_and!.
  - destruct (ss_main s) as [|cmd| | |] eqn:Em; try done. unfold main_enqueue in Es.
    destruct (ss_sender s); [destruct (_ <? _); [|done]|]; injection Es as <-; apply (reads_frames_frame s); try done; by rewrite Em.
  - unfold sender_step in Es. destruct (ss_sender s); [|done].
    destruct (ss_queue s) as [|[] q]; [destruct (tx_dropped _) eqn:Et; [|done]|destruct r as [[]|]|]; injection Es as <-;
      apply (reads_frames_frame s); try done; cbn; by rewrite ?Et.
  - destruct (ss_writer s); try done; destruct (ss_me_open s); try done; injection Es as <-; by apply (reads_frames_frame s).
  - injection Es as <-. by apply (reads_frames_frame s).
  - assert (forall m me, reads_frames (write_response cfg s m me w)) as Hw.
    { intros m me. apply (reads_frames_frame s); [..|done]; unfold write_response;
        destruct (response_bytes _ _ _) as [[bs|e] rng]; try done; by destruct m, w. }
    unfold writer_step in Es. destruct (ss_writer s), (ss_me s); try done;
      try (injection Es as <-; try apply Hw; by apply (reads_frames_frame s)).
    destruct (ss_me_open s); [done|]. injection Es as <-. by apply (reads_frames_frame s).
  - destruct (ss_writer s), (ss_main s) eqn:Em; try done. injection Es as <-. apply (reads_frames_frame s); [..|done]; cbn; by rewrite ?Em.
  - destruct (ss_main s) eqn:Em; try done. destruct (ss_sender s); try done. injection Es as <-.
    apply (reads_frames_frame s); [..|done]; cbn; by rewrite ?Em.
  - destruct (ss_main s) eqn:Em; try done. destruct (ss_writer s); try done. injection Es as <-.
    apply (reads_frames_frame s); [..|done]; cbn; by rewrite ?Em.
Qed.

End Invariants.

(** ** The writer's side *)

Section Answers.
Context {R G : Type} `{AsyncReadOk R} `{RngOk G}.
Variable hash_desync : string -> Z -> ProtoTag -> string -> Z.
Variable cfg : SessionCfg.

(** The bytes of a list of responses, and the generator after them. *)
Fixpoint respond (rng : G) (ms : list MeResponse) : option (bytes * G) :=
  match ms with
  | [] => Some ([], rng)
  | m :: ms =>
      match response_bytes cfg m rng with
      | (Err _, _) => None
      | (Ok bs, rng) => match respond rng ms with Some (o, rng) => Some (bs ++ o, rng) | None => None end
      end
  end.

Lemma respond_snoc rng ms o rng1 m bs rng2 :
  respond rng ms = Some (o, rng1) -> response_bytes cfg m rng1 = (Ok bs, rng2) -> respond rng (ms ++ [m]) = Some (o ++ bs, rng2).
Proof.
  revert rng o. induction ms as [|m0 ms IH]; intros rng o E Em; cbn [respond app] in *.
  - injection E as <- <-. by rewrite Em, app_nil_r.
  - destruct (response_bytes cfg m0 rng) as [[bs0|] rng0]; [|done]. destruct (respond rng0 ms) as [[o0 r0]|] eqn:E0; [|done].
    injection E as <- <-. rewrite (IH _ _ E0 Em). by rewrite app_assoc.
Qed.

Definition arrived (evs : list event) : list MeResponse := omap (fun ev => match ev with EArrive m => Some m | _ => None end) evs.

(** The client has been sent the frames of the first responses; while the writer lives, the others wait in the channel. *)
Definition answers (rng0 : G) (ms : list MeResponse) (s : Session R G) : Prop :=
  exists rng', respond rng0 (ss_answered s) = Some (ss_out s, rng') /\
    match ss_writer s with
    | WEnded _ => ss_answered s `prefix_of` ms
    | _ => rng' = ss_rng s /\ ss_answered s ++ ss_me s = ms
    end.

Lemma answers_frame rng0 ms s s' :
  ss_answered s' = ss_answered s -> ss_out s' = ss_out s -> ss_writer s' = ss_writer s -> ss_rng s' = ss_rng s -> ss_me s' = ss_me s ->
  answers rng0 ms s -> answers rng0 ms s'.
Proof. intros E1 E2 E3 E4 E5 (rng' & E & Hw). exists rng'. by rewrite E1, E2, E3, E4, E5. Qed.

Lemma answers_end rng0 ms s s' r :
  ss_answered s' = ss_answered s -> ss_out s' = ss_out s -> ss_writer s' = WEnded r -> answers rng0 ms s -> answers rng0 ms s'.
Proof.
  intros E1 E2 E3 (rng' & E & Hw). exists rng'. rewrite E1, E2, E3. split; [done|].
  destruct (ss_writer s); [destruct Hw as [_ <-]; by apply prefix_app_r..|done].
Qed.

Lemma answers_write rng0 ms s m me w :
  (match ss_writer s with WEnded _ => False | _ => True end) -> ss_me s = m :: me ->
  answers rng0 ms s -> answers rng0 ms (write_response cfg s m me w).
Proof.
  intros Hlive Em HI. pose proof HI as (rng' & E & Hw). assert (rng' = ss_rng s /\ ss_answered s ++ ss_me s = ms) as [-> Hms] by by destruct (ss_writer s).
  unfold write_response. change (ss_rng (map_stats s (count_response cfg m))) with (ss_rng s).
  destruct (response_bytes cfg m (ss_rng s)) as [[bs|e] rng1] eqn:Er; [|by eapply (answers_end rng0 ms s)].
  assert (answers rng0 ms (set_writer (map_stats s (count_response cfg m)) me (after_response m (ss_writer s)) (ss_out s ++ bs) rng1 (ss_answered s ++ [m]))) as Hok.
  { exists rng1. split; [by eapply respond_snoc|]. cbn [ss_writer set_writer ss_rng ss_me ss_answered]. rewrite Em in Hms.
    destruct m; cbn [after_response]; [by rewrite <-app_assoc|destruct (ss_writer s); [by rewrite <-app_assoc..|done]|].
    rewrite <-Hms. exists me. by rewrite <-app_assoc. }
  destruct m, w; try done; by eapply (answers_end rng0 ms s).
Qed.

Lemma answers_step rng0 ms s ev s' :
  step hash_desync cfg s ev = Some s' -> answers rng0 ms s -> answers rng0 (ms ++ arrived [ev]) s'.
Proof.
  intros Es HI. assert ((exists m, ev = EArrive m) \/ arrived [ev] = []) as [[m ->]|Ea] by (destruct ev; try (right; done); left; by eexists).
  - cbn [step arrived omap list_omap] in *. destruct HI as (rng' & E & Hw). exists rng'.
    destruct (ss_writer s) eqn:Ew; [| |done]; destruct (ss_me_open s); try done; injection Es as <-; cbn; rewrite Ew;
      destruct Hw as [-> <-]; by rewrite app_assoc.
  - rewrite Ea, app_nil_r. destruct ev as [fuel now| |r|m| |w| | |]; cbn [step] in Es.
    + destruct (ss_main s); try done. unfold main_read in Es.
      destruct (read_client_payload _ _ _ _ _ _ _) as [[[[p|]|e] i]|]; try done; injection Es as <-; by apply (answers_frame rng0 ms s).
    + destruct (ss_main s) as [|cmd| | |]; try done. unfold main_enqueue in Es.
      destruct (ss_sender s); [destruct (_ <? _); [|done]|]; injection Es as <-; by apply (answers_frame rng0 ms s).
    + unfold sender_step in Es. destruct (ss_sender s); [|done].
      destruct (ss_queue s) as [|[] q]; [destruct (tx_dropped _); [|done]|destruct r as [[]|]|]; injection Es as <-; by apply (answers_frame rng0 ms s).
    + done.
    + injection Es as <-. by apply (answers_frame rng0 ms s).
    + unfold writer_step in Es. destruct (ss_writer s) eqn:Ew, (ss_me s) as [|m me] eqn:Em; try done.
      * destruct (ss_me_open s); [done|]. injection Es as <-. by eapply (answers_end rng0 ms s).
      * injection Es as <-. apply answers_write; [by rewrite Ew|done|done].
      * destruct w; injection Es as <-; [by eapply (answers_end rng0 ms s)|].
        destruct HI as (rng' & E & Hw). exists rng'. cbn. rewrite Ew, Em in Hw. done.
      * injection Es as <-. apply answers_write; [by rewrite Ew|done|done].
    + destruct (ss_writer s) eqn:Ew; try done. destruct (ss_main s); try done. injection Es as <-. by eapply (answers_end rng0 ms s).
    + destruct (ss_main s); try done. destruct (ss_sender s); try done. injection Es as <-. by apply (answers_frame rng0 ms s).
    + destruct (ss_main s); try done. destruct (ss_writer s) eqn:Ew; try done. injection Es as <-. by apply (answers_frame rng0 ms s).
Qed.

End Answers.

Section SessionClaims.
Context {R G : Type} `{AsyncReadOk R} `{RngOk G}.
Variable hash_desync : string -> Z -> ProtoTag -> string -> Z.
Variable cfg : SessionCfg.

Lemma run_invariants fs rng0 (s : Session R G) evs s' ms :
  run hash_desync cfg s evs = Some s' -> in_order cfg s -> reads_frames cfg fs s -> answers cfg rng0 ms s ->
  in_order cfg s' /\ reads_frames cfg fs s' /\ answers cfg rng0 (ms ++ arrived evs) s'.
Proof.
  revert s ms. induction evs as [|ev evs IH]; intros s ms E HI HR HA; cbn [run] in E.
  { injection E as <-. by rewrite app_nil_r. }
  destruct (step hash_desync cfg s ev) as [s1|] eqn:Es; [|done].
  destruct (IH s1 (ms ++ arrived [ev]) E) as (HI' & HR' & HA').
  - by eapply in_order_step.
  - eapply reads_frames_step; [done| |done]. by destruct HI.
  - by eapply answers_step.
  - split_and!; [done|done|]. rewrite <-app_assoc in HA'. unfold arrived in *. rewrite <-omap_app in HA'. done.
Qed.

Lemma sent_eq (sent : list (bytes * Z)) (cmds : list (bytes * bool)) n :
  map (fun p => CData p.1 p.2) sent ++ replicate n CClose = map (command_of cfg) cmds ++ [CClose] ->
  sent = map (fun p => (p.1, request_flags (sc_proto_flags cfg) p.1 p.2)) cmds /\ n = 1%nat.
Proof.
  revert cmds. induction sent as [|[p f] sent IH]; intros [|q cmds] E; cbn [map app] in E.
  - destruct n as [|[|n]]; [done|done|]. cbn in E. by simplify_eq.
  - by destruct n.
  - done.
  - injection E as -> -> E. by destruct (IH cmds E) as [-> ->].
Qed.

(** C5: whatever the scheduler, the pool and the network do, a session passes on what it is given: the requests
    the pool has accepted are, in order and with the right flags, the first of the client's non-empty frames, a close only
    after all of them; when the session ends without error they are all of them and exactly one close; and the bytes sent to the
    client are the frames of the first of the middle proxy's responses, in order (of the responses, a clean end promises no
    more: those still queued when the client leaves are not sent). *)
Theorem session_relays_in_order (c : FrameCodec G) fs reader stats dedup rng evs s :
  fc_proto_tag c = sc_proto_tag cfg -> fc_max_frame_size c = sc_frame_limit cfg ->
  Forall (encodable (sc_proto_tag cfg) (sc_frame_limit cfg)) fs -> Forall relayable fs ->
  rd_ok reader -> fst <$> encode_frames c fs [] = Some (rd_bytes reader) ->
  run hash_desync cfg (session_start cfg reader stats dedup rng) evs = Some s ->
  taken s `prefix_of` map (command_of cfg) (payloads_of fs) ++ [CClose] /\
  (ss_main s = MDone (Ok tt) ->
    ss_sent s = map (fun p => (p.1, request_flags (sc_proto_flags cfg) p.1 p.2)) (payloads_of fs) /\ ss_closes s = 1%nat) /\
  ss_answered s `prefix_of` arrived evs /\ exists rng', respond cfg rng (ss_answered s) = Some (ss_out s, rng').
Proof.
  intros Ht Hm Hfs Hrel Hr Hw E. rewrite <-Ht, <-Hm in Hfs.
  destruct (encode_frames_wire c fs [] Hfs Hrel) as (wire & c' & Ew & Hwire). rewrite Ew in Hw. injection Hw as Hw.
  destruct (run_invariants fs rng _ evs s [] E) as ([_ [Hp _] Hok _ Hdone Heof] & (fs1 & fs2 & Efs & Erd & Hnil & _) & rng' & Hresp & Hans).
  - apply in_order_start.
  - exists [], fs. split_and!; [done|done|done|]. intros _ _. split; [done|]. cbn. rewrite <-Hw, <-Ht, <-Hm. done.
  - exists rng. by split_and!.
  - assert (payloads_of fs = ss_read s ++ payloads_of fs2) as Eps by (by rewrite Efs, payloads_of_app, Erd).
    split_and!.
    + etrans; [apply Hp|]. unfold issued. rewrite Eps, map_app. destruct (ss_eof s).
      * rewrite (Hnil eq_refl). cbn [map]. by rewrite app_nil_r.
      * rewrite app_nil_r, <-app_assoc. by apply prefix_app_r.
    + intros Em. unfold main_eof in Heof. rewrite Em in Hdone, Heof. destruct (Hdone eq_refl) as (c2 & Hs & Hc2).
      specialize (Heof eq_refl). destruct (Hok c2 Hs Hc2) as [Et _]. unfold issued, taken in Et. rewrite Heof in Et.
      rewrite Eps, (Hnil Heof), app_nil_r. by apply sent_eq.
    + destruct (ss_writer s); [destruct Hans as [_ Hans]; by exists (ss_me s)..|done].
    + by exists rng'.
Qed.

(** Nothing but the client makes the main loop leave: after the middle proxy has closed the connection, or the writer
    has failed, the session stays until the client sends or closes. *)
Lemma only_client_ends_session (s : Session R G) evs s' :
  ss_main s = MReading -> Forall (fun ev => match ev with ERead _ _ => False | _ => True end) evs ->
  run hash_desync cfg s evs = Some s' -> ss_main s' = MReading.
Proof.
  intros Em Hev. revert s Em. induction Hev as [|ev evs Hev _ IH]; intros s Em E; cbn [run] in E; [by simplify_eq|].
  destruct (step hash_desync cfg s ev) as [s1|] eqn:Es; [|done]. apply (IH s1); [|done]. clear IH E.
  destruct ev as [fuel now| |r|m| |w| | |]; cbn [step] in Es; rewrite ?Em in Es; try done.
  - unfold sender_step in Es. rewrite Em in Es. destruct (ss_sender s); [|done].
    destruct (ss_queue s) as [|[] q]; [done|destruct r as [[]|]|]; by injection Es as <-.
  - destruct (ss_writer s); try done; destruct (ss_me_open s); try done; by injection Es as <-.
  - by injection Es as <-.
  - unfold writer_step in Es. destruct (ss_writer s), (ss_me s); try done; try destruct (ss_me_open s); try done; injection Es as <-; try done;
      by rewrite (proj1 (write_response_same cfg s _ _ _)).
  - by destruct (ss_writer s).
Qed.

End SessionClaims.

Section SessionWitnesses.
Import DemoRng.

Definition demo_forensics : RelayForensicsState :=
  mkForensics 1 1 "alice" (mkSocketAddr (V4 [1; 2; 3; 4]) 5000) 7 0 0 false.
Definition demo_cfg : SessionCfg := mkSessionCfg "alice" Intermediate 1000 (proto_flags_for_tag Intermediate false) demo_forensics.
Definition demo_frames : list Frame := [Frame_new [1; 2; 3; 4]; Frame_new []; Frame_quickack [0; 0; 0; 0; 0; 0; 0; 0]].
Definition demo_client_codec : FrameCodec Z := mkFrameCodec Intermediate 1000 0.
Definition demo_client_reader : list read_event :=
  [RdData [4; 0; 0; 0; 1; 2]; RdPending; RdData [3; 4; 0; 0; 0; 0; 8; 0; 0]; RdData ([128] ++ repeat 0 8)].
Definition demo_hash (u : string) (h : Z) (t : ProtoTag) (c : string) : Z := h.

(** A session in which an answer arrives while the client is still sending. *)
Definition demo_events : list event :=
  [ERead 5 0; EEnqueue; EArrive (MeData 0 [9; 9; 9; 9]); ERead 5 0; EWrite None; EEnqueue; ESend (Ok tt); EArrive (MeAck 7); EWrite None;
   ERead 5 0; EWrite None; EEnqueue; ESend (Ok tt); ESend (Ok tt); EJoinSender; EStopSeen; EFinish].

Lemma session_relays_in_order_witness :
  exists s, run demo_hash demo_cfg (session_start demo_cfg demo_client_reader Stats_new ∅ 0) demo_events = Some s /\
    ss_main s = MDone (Ok tt) /\
    ss_sent s = map (fun p => (p.1, request_flags (sc_proto_flags demo_cfg) p.1 p.2)) (payloads_of demo_frames) /\ ss_closes s = 1%nat.
Proof.
  destruct (run demo_hash demo_cfg (session_start demo_cfg demo_client_reader Stats_new ∅ 0) demo_events) as [s|] eqn:E.
  - exists s. split; [reflexivity|].
    destruct (session_relays_in_order demo_hash demo_cfg demo_client_codec demo_frames demo_client_reader Stats_new ∅ 0 demo_events s)
      as (_ & Hd & _).
    + reflexivity.
    + reflexivity.
    + apply (bool_decide_unpack _). vm_compute. exact I.
    + apply (bool_decide_unpack _). vm_compute. exact I.
    + vm_compute. reflexivity.
    + vm_compute. reflexivity.
    + exact E.
    + assert (ss_main <$> run demo_hash demo_cfg (session_start demo_cfg demo_client_reader Stats_new ∅ 0) demo_events = Some (MDone (Ok tt))) as Em
        by (vm_compute; reflexivity).
      rewrite E in Em. injection Em as Em. split; [exact Em|]. apply Hd. exact Em.
  - exfalso. assert (ss_main <$> run demo_hash demo_cfg (session_start demo_cfg demo_client_reader Stats_new ∅ 0) demo_events = Some (MDone (Ok tt))) as Em
        by (vm_compute; reflexivity). rewrite E in Em. discriminate Em.
Defined.

End SessionWitnesses.
