(* ===== verification/MePool.v ===== *)
(** * The pool of middle-proxy writers: [transport/middle_proxy/pool.rs], [pool_writer.rs], [pool_config.rs]

    The pool keeps one writer per connection to a middle proxy.  The flags and the command channel of a writer are
    behind [Arc]s, so a snapshot of the writer list sees later changes: they are kept in one table by writer id,
    while the list holds what is copied.  A channel is the part of the command history that the writer task has not
    received yet.  Instants are nanoseconds, wall-clock times seconds; both come with the environment of a call, as do
    the outcomes of waiting. *)

From stdpp Require Import gmap sorting.
From S2P Require Import Prelude NetAddr Errors RpcCodec Stun NetProbe Stats Wire MeHandshake Registry.

(** ** Writers (pool.rs:19-68) *)

Record RefillDcKey := mkRefillDcKey { rk_dc : Z; rk_family : IpFamily }.

#[global] Instance RefillDcKey_eq_dec : EqDecision RefillDcKey.
Proof. solve_decision. Defined.
#[global] Instance RefillDcKey_countable : Countable RefillDcKey.
Proof.
  refine (inj_countable' (fun k => (rk_dc k, match rk_family k with FamV4 => true | FamV6 => false end))
            (fun p => mkRefillDcKey p.1 (if p.2 then FamV4 else FamV6)) _).
  by intros [? []].
Defined.
#[global] Instance WriterCommand_eq_dec : EqDecision WriterCommand.
Proof. solve_decision. Defined.

Inductive WriterContour := Warm | Active | Draining.
Definition WriterContour_as_u8 (self : WriterContour) : Z := match self with Warm => 0 | Active => 1 | Draining => 2 end.
Definition WriterContour_from_u8 (value : Z) : WriterContour :=
  if value =? 0 then Warm else if value =? 1 then Active else Draining.

(** What a clone of a writer copies, and what all its clones share. *)
Record MeWriter := mkMeWriter {
  mw_id : Z;
  mw_addr : SocketAddr;
  mw_generation : Z;
  mw_created_at : Z
}.

Record WriterShared := mkWriterShared {
  ws_contour : Z;
  ws_degraded : bool;
  ws_draining : bool;
  ws_draining_started_at_epoch_secs : Z;
  ws_allow_drain_fallback : bool;
  ws_cancelled : bool;
  ws_open : bool;
  ws_received : nat
}.

Definition WriterShared_new (contour : WriterContour) : WriterShared :=
  mkWriterShared (WriterContour_as_u8 contour) false false 0 false false true 0.

(** ** Policies (config/types.rs:134-184) *)

Inductive MeBindStaleMode := Never | Ttl | Always.
Definition MeBindStaleMode_as_u8 (self : MeBindStaleMode) : Z := match self with Never => 0 | Ttl => 1 | Always => 2 end.
Definition MeBindStaleMode_from_u8 (raw : Z) : MeBindStaleMode :=
  if raw =? 0 then Never else if raw =? 2 then Always else Ttl.

Inductive MeFloorMode := Static | Adaptive.
#[global] Instance MeFloorMode_eq_dec : EqDecision MeFloorMode.
Proof. solve_decision. Defined.
Definition MeFloorMode_as_u8 (self : MeFloorMode) : Z := match self with Static => 0 | Adaptive => 1 end.
Definition MeFloorMode_from_u8 (raw : Z) : MeFloorMode := if raw =? 1 then Adaptive else Static.

(** The settings that [update_runtime_reinit_policy] replaces; the minimal fresh ratio is kept in thousandths. *)
Record ReinitPolicy := mkReinitPolicy {
  hardswap : bool;
  pool_drain_ttl_secs : Z;
  pool_force_close_secs : Z;
  pool_min_fresh_ratio_permille : Z;
  hardswap_warmup_delay_min_ms : Z;
  hardswap_warmup_delay_max_ms : Z;
  hardswap_warmup_extra_passes : Z;
  hardswap_warmup_pass_backoff_base_ms : Z;
  me_bind_stale_mode : Z;
  bind_stale_ttl_secs : Z;
  secret_atomic_snapshot : bool;
  deterministic_writer_sort : bool;
  single_endpoint_shadow_writers : Z;
  outage_mode_enabled : bool;
  outage_disable_quarantine : bool;
  outage_backoff_min_ms : Z;
  outage_backoff_max_ms : Z;
  shadow_rotate_every_secs : Z;
  me_floor_mode : Z;
  adaptive_floor_idle_secs : Z;
  adaptive_floor_min_writers_single_endpoint : Z;
  adaptive_floor_recover_grace_secs : Z
}.

Record PoolCfg := mkPoolCfg {
  pc_decision : NetworkDecision;
  pc_proxy_tag : option bytes;
  pc_reconnect_backoff_cap_ms : Z;
  pc_reconnect_fast_retry_count : Z;
  pc_policy : ReinitPolicy
}.

Abbreviation ProxyMap := (gmap Z (list (IpAddr * Z))) (only parsing).
Record ProxyMaps := mkProxyMaps { proxy_map_v4 : ProxyMap; proxy_map_v6 : ProxyMap; default_dc : Z }.

Record Generations := mkGenerations {
  gen_generation : Z;
  gen_active : Z;
  gen_warm : Z;
  gen_pending : Z;
  gen_pending_started_at_epoch_secs : Z;
  gen_pending_map_hash : Z
}.

(** ** The pool (pool.rs:70-148); [mp_refills] and [mp_drains] are the refill and drain tasks it has spawned *)

Record MePool := mkMePool {
  mp_cfg : PoolCfg;
  mp_registry : ConnRegistry;
  mp_writers : list MeWriter;
  mp_shared : gmap Z WriterShared;
  mp_history : list (Z * WriterCommand);
  mp_stats : Stats;
  mp_conn_count : Z;
  mp_next_writer_id : Z;
  mp_rr : Z;
  mp_maps : ProxyMaps;
  mp_gens : Generations;
  mp_quarantine : gmap SocketAddr Z;
  mp_inflight : gset SocketAddr * gset RefillDcKey;
  mp_refills : list SocketAddr;
  mp_drains : list (Z * option Z);
  mp_secret : SecretSnapshot
}.

Definition with_cfg (p : MePool) (x : PoolCfg) : MePool :=
  mkMePool x (mp_registry p) (mp_writers p) (mp_shared p) (mp_history p) (mp_stats p) (mp_conn_count p)
    (mp_next_writer_id p) (mp_rr p) (mp_maps p) (mp_gens p) (mp_quarantine p) (mp_inflight p) (mp_refills p)
    (mp_drains p) (mp_secret p).
Definition with_registry (p : MePool) (x : ConnRegistry) : MePool :=
  mkMePool (mp_cfg p) x (mp_writers p) (mp_shared p) (mp_history p) (mp_stats p) (mp_conn_count p)
    (mp_next_writer_id p) (mp_rr p) (mp_maps p) (mp_gens p) (mp_quarantine p) (mp_inflight p) (mp_refills p)
    (mp_drains p) (mp_secret p).
Definition with_writers (p : MePool) (x : list MeWriter) : MePool :=
  mkMePool (mp_cfg p) (mp_registry p) x (mp_shared p) (mp_history p) (mp_stats p) (mp_conn_count p)
    (mp_next_writer_id p) (mp_rr p) (mp_maps p) (mp_gens p) (mp_quarantine p) (mp_inflight p) (mp_refills p)
    (mp_drains p) (mp_secret p).
Definition with_shared (p : MePool) (x : gmap Z WriterShared) : MePool :=
  mkMePool (mp_cfg p) (mp_registry p) (mp_writers p) x (mp_history p) (mp_stats p) (mp_conn_count p)
    (mp_next_writer_id p) (mp_rr p) (mp_maps p) (mp_gens p) (mp_quarantine p) (mp_inflight p) (mp_refills p)
    (mp_drains p) (mp_secret p).
Definition with_history (p : MePool) (x : list (Z * WriterCommand)) : MePool :=
  mkMePool (mp_cfg p) (mp_registry p) (mp_writers p) (mp_shared p) x (mp_stats p) (mp_conn_count p)
    (mp_next_writer_id p) (mp_rr p) (mp_maps p) (mp_gens p) (mp_quarantine p) (mp_inflight p) (mp_refills p)
    (mp_drains p) (mp_secret p).
Definition with_stats (p : MePool) (x : Stats) : MePool :=
  mkMePool (mp_cfg p) (mp_registry p) (mp_writers p) (mp_shared p) (mp_history p) x (mp_conn_count p)
    (mp_next_writer_id p) (mp_rr p) (mp_maps p) (mp_gens p) (mp_quarantine p) (mp_inflight p) (mp_refills p)
    (mp_drains p) (mp_secret p).
Definition with_conn_count (p : MePool) (x : Z) : MePool :=
  mkMePool (mp_cfg p) (mp_registry p) (mp_writers p) (mp_shared p) (mp_history p) (mp_stats p) x (mp_next_writer_id p)
    (mp_rr p) (mp_maps p) (mp_gens p) (mp_quarantine p) (mp_inflight p) (mp_refills p) (mp_drains p) (mp_secret p).
Definition with_next_writer_id (p : MePool) (x : Z) : MePool :=
  mkMePool (mp_cfg p) (mp_registry p) (mp_writers p) (mp_shared p) (mp_history p) (mp_stats p) (mp_conn_count p) x
    (mp_rr p) (mp_maps p) (mp_gens p) (mp_quarantine p) (mp_inflight p) (mp_refills p) (mp_drains p) (mp_secret p).
Definition with_rr (p : MePool) (x : Z) : MePool :=
  mkMePool (mp_cfg p) (mp_registry p) (mp_writers p) (mp_shared p) (mp_history p) (mp_stats p) (mp_conn_count p)
    (mp_next_writer_id p) x (mp_maps p) (mp_gens p) (mp_quarantine p) (mp_inflight p) (mp_refills p) (mp_drains p)
    (mp_secret p).
Definition with_maps (p : MePool) (x : ProxyMaps) : MePool :=
  mkMePool (mp_cfg p) (mp_registry p) (mp_writers p) (mp_shared p) (mp_history p) (mp_stats p) (mp_conn_count p)
    (mp_next_writer_id p) (mp_rr p) x (mp_gens p) (mp_quarantine p) (mp_inflight p) (mp_refills p) (mp_drains p)
    (mp_secret p).
Definition with_gens (p : MePool) (x : Generations) : MePool :=
  mkMePool (mp_cfg p) (mp_registry p) (mp_writers p) (mp_shared p) (mp_history p) (mp_stats p) (mp_conn_count p)
    (mp_next_writer_id p) (mp_rr p) (mp_maps p) x (mp_quarantine p) (mp_inflight p) (mp_refills p) (mp_drains p)
    (mp_secret p).
Definition with_quarantine (p : MePool) (x : gmap SocketAddr Z) : MePool :=
  mkMePool (mp_cfg p) (mp_registry p) (mp_writers p) (mp_shared p) (mp_history p) (mp_stats p) (mp_conn_count p)
    (mp_next_writer_id p) (mp_rr p) (mp_maps p) (mp_gens p) x (mp_inflight p) (mp_refills p) (mp_drains p)
    (mp_secret p).
Definition with_inflight (p : MePool) (x : gset SocketAddr * gset RefillDcKey) : MePool :=
  mkMePool (mp_cfg p) (mp_registry p) (mp_writers p) (mp_shared p) (mp_history p) (mp_stats p) (mp_conn_count p)
    (mp_next_writer_id p) (mp_rr p) (mp_maps p) (mp_gens p) (mp_quarantine p) x (mp_refills p) (mp_drains p)
    (mp_secret p).
Definition with_refills (p : MePool) (x : list SocketAddr) : MePool :=
  mkMePool (mp_cfg p) (mp_registry p) (mp_writers p) (mp_shared p) (mp_history p) (mp_stats p) (mp_conn_count p)
    (mp_next_writer_id p) (mp_rr p) (mp_maps p) (mp_gens p) (mp_quarantine p) (mp_inflight p) x (mp_drains p)
    (mp_secret p).
Definition with_drains (p : MePool) (x : list (Z * option Z)) : MePool :=
  mkMePool (mp_cfg p) (mp_registry p) (mp_writers p) (mp_shared p) (mp_history p) (mp_stats p) (mp_conn_count p)
    (mp_next_writer_id p) (mp_rr p) (mp_maps p) (mp_gens p) (mp_quarantine p) (mp_inflight p) (mp_refills p) x
    (mp_secret p).
Definition with_secret (p : MePool) (x : SecretSnapshot) : MePool :=
  mkMePool (mp_cfg p) (mp_registry p) (mp_writers p) (mp_shared p) (mp_history p) (mp_stats p) (mp_conn_count p)
    (mp_next_writer_id p) (mp_rr p) (mp_maps p) (mp_gens p) (mp_quarantine p) (mp_inflight p) (mp_refills p)
    (mp_drains p) x.

(** [MePool::new] (pool.rs:173-344), the registry's first id being [start]. *)
Definition MePool_new (cfg : PoolCfg) (start : Z) (stats : Stats) (proxy_secret : bytes) (map_v4 map_v6 : ProxyMap)
    (default_dc : option Z) (base_timeout_ms high_timeout_ms high_watermark_pct : Z) : MePool :=
  let registry := update_route_backpressure_policy (ConnRegistry_new start) base_timeout_ms high_timeout_ms high_watermark_pct in
  mkMePool cfg registry [] ∅ [] stats 0 1 0 (mkProxyMaps map_v4 map_v6 (default 0 default_dc)) (mkGenerations 1 1 0 0 0 0)
    ∅ (∅, ∅) [] [] (SecretSnapshot_new proxy_secret).

Definition connection_count (p : MePool) : Z := mp_conn_count p.
Definition current_generation (p : MePool) : Z := gen_active (mp_gens p).

(** ** Shared state and command channels *)

Definition shared (p : MePool) (id : Z) : WriterShared := default (WriterShared_new Draining) (mp_shared p !! id).
Definition upd_shared (p : MePool) (id : Z) (f : WriterShared -> WriterShared) : MePool :=
  with_shared p (<[id := f (shared p id)]> (mp_shared p)).

Definition WRITER_CHANNEL_CAPACITY : Z := 4096.

Definition commands_to (id : Z) (history : list (Z * WriterCommand)) : list WriterCommand :=
  (filter (fun e => e.1 = id) history).*2.
Definition channel_queue (p : MePool) (id : Z) : list WriterCommand :=
  drop (ws_received (shared p id)) (commands_to id (mp_history p)).
Definition tx_capacity (p : MePool) (id : Z) : Z := WRITER_CHANNEL_CAPACITY - zlen (channel_queue p id).
Definition tx_is_closed (p : MePool) (id : Z) : bool := negb (ws_open (shared p id)).

Definition push_command (p : MePool) (id : Z) (cmd : WriterCommand) : MePool := with_history p (mp_history p ++ [(id, cmd)]).

Definition set_cancelled (s : WriterShared) : WriterShared :=
  mkWriterShared (ws_contour s) (ws_degraded s) (ws_draining s) (ws_draining_started_at_epoch_secs s)
    (ws_allow_drain_fallback s) true (ws_open s) (ws_received s).
Definition set_closed (s : WriterShared) : WriterShared :=
  mkWriterShared (ws_contour s) (ws_degraded s) (ws_draining s) (ws_draining_started_at_epoch_secs s)
    (ws_allow_drain_fallback s) (ws_cancelled s) false (ws_received s).
Definition set_received (n : nat) (s : WriterShared) : WriterShared :=
  mkWriterShared (ws_contour s) (ws_degraded s) (ws_draining s) (ws_draining_started_at_epoch_secs s)
    (ws_allow_drain_fallback s) (ws_cancelled s) (ws_open s) (ws_received s + n).

Inductive TrySendCmd := TsOk (p : MePool) | TsFull | TsClosed.

Definition try_send_cmd (p : MePool) (id : Z) (cmd : WriterCommand) : TrySendCmd :=
  if tx_is_closed p id then TsClosed
  else if tx_capacity p id <=? 0 then TsFull
  else TsOk (push_command p id cmd).

(** How waiting for room ends: the writer task receives [S n] commands, or goes away. *)
Inductive SendWait := Drained (n : nat) | Gone.

(** [tx.send(cmd).await] *)
Definition send_cmd (wait : SendWait) (p : MePool) (id : Z) (cmd : WriterCommand) : bool * MePool :=
  match try_send_cmd p id cmd with
  | TsOk p => (true, p)
  | TsClosed => (false, p)
  | TsFull =>
      match wait with
      | Drained n => (true, push_command (upd_shared p id (set_received (S n))) id cmd)
      | Gone => (false, upd_shared p id set_closed)
      end
  end.

(** What a call observes of its surroundings. *)
Record PoolEnv := mkPoolEnv {
  pe_now : Z;
  pe_epoch_secs : Z;
  pe_send_wait : Z -> SendWait;
  pe_route_wait : Z -> Z * WaitOutcome;
  pe_connect : SocketAddr -> result ProxyError unit;
  pe_map_order : ProxyMap -> list (Z * list (IpAddr * Z));
  pe_shuffle : list (IpAddr * Z) -> list (IpAddr * Z)
}.

(** ** Quarantine (pool_refill.rs:14-45) *)

Definition SECS : Z := 10 ^ 9.
Definition ME_FLAP_UPTIME_THRESHOLD_SECS : Z := 20.
Definition ME_FLAP_QUARANTINE_SECS : Z := 25.

Definition drop_expired (now : Z) (q : gmap SocketAddr Z) : gmap SocketAddr Z := filter (fun kv => now < kv.2) q.

Definition maybe_quarantine_flapping_endpoint (now : Z) (p : MePool) (addr : SocketAddr) (uptime : Z) : MePool :=
  if ME_FLAP_UPTIME_THRESHOLD_SECS * SECS <? uptime then p
  else
    let until := now + ME_FLAP_QUARANTINE_SECS * SECS in
    with_stats (with_quarantine p (<[addr := until]> (drop_expired now (mp_quarantine p))))
      (increment_me_endpoint_quarantine_total (mp_stats p)).

(** ** Removal (pool_writer.rs:27-43, 259-305) *)

Definition find_writer (ws : list MeWriter) (writer_id : Z) : option MeWriter :=
  snd <$> list_find (fun w => mw_id w = writer_id) ws.
Definition without_writer (ws : list MeWriter) (writer_id : Z) : list MeWriter :=
  match list_find (fun w => mw_id w = writer_id) ws with Some (pos, _) => list_delete pos ws | None => ws end.

(** The part under the lock of the writer list: the writer, and whether it was draining. *)
Definition take_writer (p : MePool) (writer_id : Z) : option (MeWriter * bool) * MePool :=
  match find_writer (mp_writers p) writer_id with
  | None => (None, p)
  | Some w =>
      let was_draining := ws_draining (shared p writer_id) in
      let stats := mp_stats p in
      let stats := if was_draining then decrement_pool_drain_active stats else stats in
      let stats := increment_me_writer_removed_total stats in
      let stats := if was_draining then stats else increment_me_writer_removed_unexpected_total stats in
      let p := with_writers p (without_writer (mp_writers p) writer_id) in
      let p := upd_shared p writer_id set_cancelled in
      let p := with_conn_count (with_stats p stats) (u64 (mp_conn_count p - 1)) in
      (Some (w, was_draining), p)
  end.

(** What follows the removal of a writer from the list: its task is told to end, and unless it was draining its
    endpoint may be quarantined and a refill task starts. *)
Definition after_removal (e : PoolEnv) (p : MePool) (writer_id : Z) (removed : option (MeWriter * bool)) : MePool :=
  match removed with
  | Some (w, was_draining) =>
      let p := snd (send_cmd (pe_send_wait e writer_id) p writer_id WClose) in
      if was_draining then p
      else
        let p := maybe_quarantine_flapping_endpoint (pe_now e) p (mw_addr w) (pe_now e - mw_created_at w) in
        with_refills p (mp_refills p ++ [mw_addr w])
  | None => p
  end.

Definition remove_writer_only (e : PoolEnv) (p : MePool) (writer_id : Z) : list BoundConn * MePool :=
  let '(removed, p) := take_writer p writer_id in
  let p := after_removal e p writer_id removed in
  let '(conns, reg) := writer_lost (mp_registry p) writer_id in
  (conns, with_registry p reg).

Definition close_client (e : PoolEnv) (reg : ConnRegistry) (bound : BoundConn) : ConnRegistry :=
  let '(freed, wait) := pe_route_wait e (bc_conn_id bound) in
  let reg := snd (route reg (bc_conn_id bound) MeClose freed wait) in
  snd (unregister reg (bc_conn_id bound)).

Definition remove_writer_and_close_clients (e : PoolEnv) (p : MePool) (writer_id : Z) : MePool :=
  let '(conns, p) := remove_writer_only e p writer_id in
  with_registry p (foldl (close_client e) (mp_registry p) conns).

Definition prune_closed_writers (e : PoolEnv) (p : MePool) : MePool :=
  let closed_writer_ids := mw_id <$> filter (fun w => tx_is_closed p (mw_id w) = true) (mp_writers p) in
  foldl (fun p writer_id =>
    if is_writer_empty (mp_registry p) writer_id then snd (remove_writer_only e p writer_id)
    else remove_writer_and_close_clients e p writer_id) p closed_writer_ids.

(** ** Connecting (pool_writer.rs:45-119) *)

(** The connection and the handshake succeed or fail as [pe_connect] says. *)
Definition register_writer (p : MePool) (addr : SocketAddr) (generation now : Z) (contour : WriterContour) : MePool :=
  let writer_id := mp_next_writer_id p in
  let p := with_next_writer_id p (u64 (writer_id + 1)) in
  let p := with_shared p (<[writer_id := WriterShared_new contour]> (mp_shared p)) in
  let p := with_writers p (mp_writers p ++ [mkMeWriter writer_id addr generation now]) in
  with_conn_count p (u64 (mp_conn_count p + 1)).

Definition connect_one_with_generation_contour (e : PoolEnv) (p : MePool) (addr : SocketAddr) (generation : Z)
    (contour : WriterContour) : result ProxyError unit * MePool :=
  if zlen (ss_secret (mp_secret p)) <? 32 then (Err (PE_Proxy "proxy-secret too short for ME auth"), p)
  else
    match pe_connect e addr with
    | Err err => (Err err, p)
    | Ok _ => (Ok tt, register_writer p addr generation (pe_now e) contour)
    end.

Definition connect_one (e : PoolEnv) (p : MePool) (addr : SocketAddr) : result ProxyError unit * MePool :=
  connect_one_with_generation_contour e p addr (current_generation p) Active.

(** ** Draining (pool_writer.rs:307-398) *)

Definition set_draining (allow_drain_fallback : bool) (epoch_secs : Z) (s : WriterShared) : WriterShared :=
  mkWriterShared (WriterContour_as_u8 Draining) (ws_degraded s) true epoch_secs allow_drain_fallback
    (ws_cancelled s) (ws_open s) (ws_received s).

Definition mark_writer_draining_with_timeout (e : PoolEnv) (p : MePool) (writer_id : Z) (timeout : option Z)
    (allow_drain_fallback : bool) : MePool :=
  let timeout := match timeout with Some d => if d =? 0 then None else Some d | None => None end in
  match find_writer (mp_writers p) writer_id with
  | None => p
  | Some _ =>
      let already_draining := ws_draining (shared p writer_id) in
      let p := upd_shared p writer_id (set_draining allow_drain_fallback (pe_epoch_secs e)) in
      let p := if already_draining then p else with_stats p (increment_pool_drain_active (mp_stats p)) in
      with_drains p (mp_drains p ++ [(writer_id, (fun t => pe_now e + t) <$> timeout)])
  end.

Definition mark_writer_draining (e : PoolEnv) (p : MePool) (writer_id : Z) : MePool :=
  mark_writer_draining_with_timeout e p writer_id (Some (300 * SECS)) false.

(** One turn of a drain task: [true] when the task goes on. *)
Definition drain_turn (e : PoolEnv) (p : MePool) (writer_id : Z) (deadline : option Z) : bool * MePool :=
  if match deadline with Some d => d <=? pe_now e | None => false end then
    let p := with_stats p (increment_pool_force_close_total (mp_stats p)) in
    (false, remove_writer_and_close_clients e p writer_id)
  else if is_writer_empty (mp_registry p) writer_id then (false, snd (remove_writer_only e p writer_id))
  else (true, p).

Definition bind_stale_mode (p : MePool) : MeBindStaleMode := MeBindStaleMode_from_u8 (me_bind_stale_mode (pc_policy (mp_cfg p))).

Definition writer_accepts_new_binding (epoch_secs : Z) (p : MePool) (w : MeWriter) : bool :=
  let s := shared p (mw_id w) in
  if negb (ws_draining s) then true
  else if negb (ws_allow_drain_fallback s) then false
  else
    match bind_stale_mode p with
    | Never => false
    | Always => true
    | Ttl =>
        let ttl_secs := bind_stale_ttl_secs (pc_policy (mp_cfg p)) in
        if ttl_secs =? 0 then true
        else if ws_draining_started_at_epoch_secs s =? 0 then false
        else sat_sub epoch_secs (ws_draining_started_at_epoch_secs s) <=? ttl_secs
    end.

(** ** Settings (pool.rs:350-597) *)

Definition floor_mode (p : MePool) : MeFloorMode := MeFloorMode_from_u8 (me_floor_mode (pc_policy (mp_cfg p))).

Definition update_runtime_reinit_policy (p : MePool) (policy : ReinitPolicy) : MePool :=
  let previous_floor_mode := floor_mode p in
  let cfg := mp_cfg p in
  let p := with_cfg p (mkPoolCfg (pc_decision cfg) (pc_proxy_tag cfg) (pc_reconnect_backoff_cap_ms cfg)
                         (pc_reconnect_fast_retry_count cfg) policy) in
  if bool_decide (previous_floor_mode = floor_mode p) then p
  else
    let stats := increment_me_floor_mode_switch_total (mp_stats p) in
    with_stats p
      match previous_floor_mode, floor_mode p with
      | Static, Adaptive => increment_me_floor_mode_switch_static_to_adaptive_total stats
      | Adaptive, Static => increment_me_floor_mode_switch_adaptive_to_static_total stats
      | _, _ => stats
      end.

Definition force_close_timeout (p : MePool) : option Z :=
  let secs := pool_force_close_secs (pc_policy (mp_cfg p)) in
  if secs =? 0 then None else Some (secs * SECS).

Definition required_writers_for_dc (p : MePool) (endpoint_count : Z) : Z :=
  if endpoint_count =? 0 then 0
  else if endpoint_count =? 1 then Z.max (1 + single_endpoint_shadow_writers (pc_policy (mp_cfg p))) 3
  else Z.max endpoint_count 3.

Definition required_writers_for_dc_with_floor_mode (p : MePool) (endpoint_count : Z) (reduce_for_idle : bool) : Z :=
  let base_required := required_writers_for_dc p endpoint_count in
  if negb reduce_for_idle then base_required
  else if negb (endpoint_count =? 1) || negb (bool_decide (floor_mode p = Adaptive)) then base_required
  else
    let min_writers := Z.max (adaptive_floor_min_writers_single_endpoint (pc_policy (mp_cfg p))) 1 in
    Z.min base_required min_writers.

Definition single_endpoint_outage_backoff_bounds_ms (p : MePool) : Z * Z :=
  let min_ms := outage_backoff_min_ms (pc_policy (mp_cfg p)) in
  let max_ms := outage_backoff_max_ms (pc_policy (mp_cfg p)) in
  if min_ms <=? max_ms then (min_ms, max_ms) else (max_ms, min_ms).

Definition single_endpoint_shadow_rotate_interval (p : MePool) : option Z :=
  let secs := shadow_rotate_every_secs (pc_policy (mp_cfg p)) in
  if secs =? 0 then None else Some (secs * SECS).

Definition family_order (p : MePool) : list IpFamily :=
  let d := pc_decision (mp_cfg p) in
  let v4 := if ipv4_me d then [FamV4] else [] in
  let v6 := if ipv6_me d then [FamV6] else [] in
  if prefer_ipv6 d then v6 ++ v4 else v4 ++ v6.

Definition proxy_map_for_family (p : MePool) (family : IpFamily) : ProxyMap :=
  match family with FamV4 => proxy_map_v4 (mp_maps p) | FamV6 => proxy_map_v6 (mp_maps p) end.

(** ** Configuration snapshots (pool_config.rs) *)

Inductive SnapshotApplyOutcome := AppliedChanged | AppliedNoDelta | RejectedEmpty.
Definition SnapshotApplyOutcome_changed (self : SnapshotApplyOutcome) : bool :=
  match self with AppliedChanged => true | _ => false end.

(** Negative entries mirror positive ones when absent. *)
Definition mirror_key (guard : ProxyMap) (k : Z) : ProxyMap :=
  if 0 <? k then
    match guard !! (- k), guard !! k with
    | None, Some addrs => <[- k := addrs]> guard
    | _, _ => guard
    end
  else guard.
Definition mirror_negative (guard : ProxyMap) : ProxyMap := foldl mirror_key guard (map_to_list guard).*1.

Definition update_proxy_maps (p : MePool) (new_v4 : ProxyMap) (new_v6 : option ProxyMap) : SnapshotApplyOutcome * MePool :=
  if bool_decide (new_v4 = ∅) && match new_v6 with None => true | Some v => bool_decide (v = ∅) end then (RejectedEmpty, p)
  else
    let maps := mp_maps p in
    let apply4 := negb (bool_decide (new_v4 = ∅)) && negb (bool_decide (proxy_map_v4 maps = new_v4)) in
    let v4 := if apply4 then new_v4 else proxy_map_v4 maps in
    let apply6 := match new_v6 with
                  | Some v6 => negb (bool_decide (v6 = ∅)) && negb (bool_decide (proxy_map_v6 maps = v6))
                  | None => false
                  end in
    let v6 := if apply6 then default ∅ new_v6 else proxy_map_v6 maps in
    (if apply4 || apply6 then AppliedChanged else AppliedNoDelta,
     with_maps p (mkProxyMaps (mirror_negative v4) (mirror_negative v6) (default_dc maps))).

(** Every connection is replaced by a new one to the same endpoint; the n-th attempt sees [env n]. *)
Fixpoint reconnect_writers (env : nat -> PoolEnv) (n : nat) (p : MePool) (ws : list MeWriter) : MePool :=
  match ws with
  | [] => p
  | w :: ws =>
      let '(r, p) := connect_one (env n) p (mw_addr w) in
      let p := match r with Ok _ => mark_writer_draining (env n) p (mw_id w) | Err _ => p end in
      reconnect_writers env (S n) p ws
  end.
Definition reconnect_all (env : nat -> PoolEnv) (p : MePool) : MePool := reconnect_writers env 0 p (mp_writers p).

Definition pool_update_secret (env : nat -> PoolEnv) (p : MePool) (new_secret : bytes) : bool * MePool :=
  let '(changed, secret) := update_secret (mp_secret p) new_secret in
  let p := with_secret p secret in
  if changed then (true, reconnect_all env p) else (false, p).

(** ** The writer list *)

Lemma find_writer_cons w ws id : find_writer (w :: ws) id = if decide (mw_id w = id) then Some w else find_writer ws id.
Proof.
  unfold find_writer. cbn [list_find]. case_decide; [done|]. destruct (list_find _ ws) as [[i x]|]; done.
Qed.

Lemma without_writer_cons w ws id :
  without_writer (w :: ws) id = if decide (mw_id w = id) then ws else w :: without_writer ws id.
Proof.
  unfold without_writer. cbn [list_find]. case_decide; [done|]. destruct (list_find _ ws) as [[i x]|]; done.
Qed.

Lemma find_writer_Some ws id w : find_writer ws id = Some w -> w ∈ ws /\ mw_id w = id.
Proof.
  induction ws as [|x ws IH]; [done|]. rewrite find_writer_cons. case_decide; [intros [= <-]; split; [by left|done]|].
  intros [? ?]%IH. split; [by right|done].
Qed.

Lemma find_writer_None ws id : find_writer ws id = None <-> id ∉ mw_id <$> ws.
Proof.
  induction ws as [|x ws IH]; [split; [intros _; apply not_elem_of_nil|done]|].
  rewrite find_writer_cons, fmap_cons, not_elem_of_cons. case_decide; naive_solver.
Qed.

Lemma filter_all {A} (P : A -> Prop) `{!forall x, Decision (P x)} (l : list A) : Forall P l -> filter P l = l.
Proof. induction 1 as [|x l Hx _ IH]; [done|]. rewrite filter_cons, decide_True by done. by rewrite IH. Qed.

Lemma without_writer_filter ws id :
  NoDup (mw_id <$> ws) -> without_writer ws id = filter (fun w => mw_id w <> id) ws.
Proof.
  induction ws as [|x ws IH]; [done|]. rewrite fmap_cons. intros [Hx Hn]%NoDup_cons. rewrite without_writer_cons.
  rewrite filter_cons. case_decide as E.
  - rewrite decide_False by naive_solver. subst id. symmetry. apply filter_all. apply Forall_forall. intros y Hy E. apply Hx. rewrite <-E. by apply list_elem_of_fmap_2.
  - rewrite decide_True by done. by rewrite IH.
Qed.

Lemma zlen_without_writer ws id w : find_writer ws id = Some w -> zlen (without_writer ws id) = zlen ws - 1.
Proof.
  induction ws as [|x ws IH]; [done|]. rewrite find_writer_cons, without_writer_cons. rewrite zlen_cons.
  case_decide; [intros _; lia|]. intros E%IH. rewrite zlen_cons. lia.
Qed.

(** ** Steps of the operations

    What the functions of the pool are made of: an operation of the registry, taking a writer out of the list, entering a
    new one with its counting, a command, a change of a writer's flags or of its channel by its owner, and any change of
    the fields that do not concern the writers.  These steps serve to prove that each function, run by itself, keeps the
    pool well formed; how tasks interleave, a connection's entering and counting apart and the end of a reader task
    included, is the relation [pool_step] further down, of which these are runs ([op_step_tasks]).  The ids do not run
    out: a pool makes fewer than 2^64 writers. *)

Record same_core (p p' : MePool) : Prop := {
  core_registry : mp_registry p' = mp_registry p;
  core_writers : mp_writers p' = mp_writers p;
  core_shared : mp_shared p' = mp_shared p;
  core_history : mp_history p' = mp_history p;
  core_conn_count : mp_conn_count p' = mp_conn_count p;
  core_next : mp_next_writer_id p' = mp_next_writer_id p
}.

Inductive op_step : MePool -> MePool -> Prop :=
| ps_registry p reg :
    reg_step (mp_registry p) reg -> ri_writers (cg_inner reg) ⊆ ri_writers (cg_inner (mp_registry p)) ->
    op_step p (with_registry p reg)
| ps_bind p conn_id writer_id meta :
    get_writer (mp_registry p) conn_id = None ->
    op_step p (with_registry p (bind_writer (mp_registry p) conn_id writer_id writer_id meta))
| ps_take p writer_id : op_step p (snd (take_writer p writer_id))
| ps_new p addr generation now contour :
    mp_next_writer_id p + 1 < 2 ^ 64 -> op_step p (register_writer p addr generation now contour)
| ps_command p id cmd : op_step p (push_command p id cmd)
| ps_shared p id f : op_step p (upd_shared p id f)
| ps_fields p p' : same_core p p' -> op_step p p'.

Abbreviation op_steps := (rtc op_step) (only parsing).

(** A pool at rest: the list and its counter agree (no connection is between its entry and its count, and no reader has
    dropped a writer first), ids are fresh, and the registry's bindings are consistent; a handle in the registry is the
    channel of the writer it is kept for. *)
Record pool_ok (p : MePool) : Prop := {
  ok_ids : NoDup (mw_id <$> mp_writers p);
  ok_below : Forall (fun w => mw_id w < mp_next_writer_id p) (mp_writers p);
  ok_next : zlen (mp_writers p) < mp_next_writer_id p < 2 ^ 64;
  ok_count : mp_conn_count p = zlen (mp_writers p);
  ok_registry : inner_consistent (cg_inner (mp_registry p));
  ok_channels : channels_private (mp_registry p);
  ok_handles : forall w t, ri_writers (cg_inner (mp_registry p)) !! w = Some t -> t = w
}.

Lemma find_new p w : pool_ok p -> w ∈ mp_writers p -> mw_id w <> mp_next_writer_id p.
Proof. intros Hp Hw E. pose proof (ok_below p Hp) as H. rewrite Forall_forall in H. apply H in Hw. lia. Qed.

Lemma take_ok p id : pool_ok p -> pool_ok (snd (take_writer p id)).
Proof.
  intros [Hids Hb Hn Hc Hr Hch Hh]. unfold take_writer. destruct (find_writer _ id) as [w|] eqn:E; [|by split].
  pose proof (zlen_without_writer _ _ _ E) as Hl. split; cbn [snd mp_writers with_conn_count with_stats upd_shared with_shared with_writers
    mp_next_writer_id mp_conn_count mp_registry]; try done.
  - rewrite without_writer_filter by done. refine (sublist_NoDup _ _ Hids _). apply fmap_sublist, sublist_filter.
  - rewrite without_writer_filter by done. rewrite Forall_forall in *. intros x [_ Hx]%list_elem_of_filter. auto.
  - lia.
  - rewrite Hl, Hc. unfold u64. apply Z.mod_small. pose proof (zlen_nonneg (without_writer (mp_writers p) id)). lia.
Qed.

Lemma register_writer_ok p addr generation now contour :
  mp_next_writer_id p + 1 < 2 ^ 64 -> pool_ok p -> pool_ok (register_writer p addr generation now contour).
Proof.
  intros Hlt Hp. pose proof Hp as [Hids Hb Hn Hc Hr Hch Hh]. pose proof (zlen_nonneg (mp_writers p)).
  assert (u64 (mp_next_writer_id p + 1) = mp_next_writer_id p + 1) as En by (unfold u64; rewrite Z.mod_small; lia).
  assert (u64 (mp_conn_count p + 1) = mp_conn_count p + 1) as Ec by (unfold u64; rewrite Z.mod_small; lia).
  split; cbn [register_writer mp_writers mp_next_writer_id mp_conn_count mp_registry with_conn_count with_writers with_shared
    with_next_writer_id]; rewrite ?En, ?Ec; try done.
  - rewrite fmap_app. apply NoDup_app. split_and!; [done| |apply NoDup_singleton].
    intros x [w [-> Hw]]%list_elem_of_fmap. cbn. rewrite list_elem_of_singleton. by apply find_new.
  - apply Forall_app. split; [eapply Forall_impl; [exact Hb|]; cbn; intros; lia|]. constructor; [cbn; lia|done].
  - rewrite zlen_app. change (zlen [_]) with 1. lia.
  - rewrite zlen_app, Hc. change (zlen [_]) with 1. lia.
Qed.

Lemma handles_bind reg c w meta :
  (forall w t, ri_writers (cg_inner reg) !! w = Some t -> t = w) ->
  forall w' t, ri_writers (cg_inner (bind_writer reg c w w meta)) !! w' = Some t -> t = w'.
Proof.
  intros Hh w' t. unfold bind_writer. cbn [set_inner cg_inner ri_writers]. destruct (ri_writers (cg_inner reg) !! w); [apply Hh|].
  rewrite lookup_insert_Some. naive_solver.
Qed.

Lemma op_step_ok p p' : op_step p p' -> pool_ok p -> pool_ok p'.
Proof.
  intros Hst Hp. pose proof Hp as [Hids Hb Hn Hc Hr Hch Hh].
  destruct Hst as [p reg Hs Hsub|p c w meta Hg|p id|p addr generation now contour Hlt|p id cmd|p id f|p p' [Er Ew _ _ Ec En]].
  - split; try done; cbn [with_registry mp_registry].
    + by eapply step_consistent.
    + by eapply step_channels.
    + intros w t Hw. by apply Hh, (lookup_weaken _ _ _ _ Hw).
  - split; try done; cbn [with_registry mp_registry].
    + by apply consistent_bind.
    + by apply (handles_bind _ c w meta).
  - by apply take_ok.
  - by apply register_writer_ok.
  - done.
  - done.
  - split; rewrite ?Er, ?Ew, ?Ec, ?En; done.
Qed.

Lemma op_steps_ok p p' : op_steps p p' -> pool_ok p -> pool_ok p'.
Proof. induction 1; eauto using op_step_ok. Qed.

(** The operations are made of these steps. *)

Lemma steps_fields p p' : same_core p p' -> op_steps p p'.
Proof. intros H. by apply rtc_once, ps_fields. Qed.

Lemma send_cmd_steps wait p id cmd : op_steps p (snd (send_cmd wait p id cmd)).
Proof.
  unfold send_cmd, try_send_cmd. destruct (tx_is_closed p id); [done|].
  destruct (tx_capacity p id <=? 0); [|apply rtc_once, ps_command].
  destruct wait as [n|]; [|apply rtc_once, ps_shared]. eapply rtc_l; [apply ps_shared|]. apply rtc_once, ps_command.
Qed.

Lemma with_registry_idemp p reg reg' : with_registry (with_registry p reg) reg' = with_registry p reg'.
Proof. done. Qed.

Lemma unregister_writers reg id : ri_writers (cg_inner (snd (unregister reg id))) = ri_writers (cg_inner reg).
Proof. unfold unregister. by destruct (ri_writer_for_conn _ !! id). Qed.

Lemma writer_lost_writers reg w : ri_writers (cg_inner (snd (writer_lost reg w))) = delete w (ri_writers (cg_inner reg)).
Proof. unfold writer_lost. by rewrite writer_lost_loop. Qed.

Lemma writer_lost_steps p w : op_steps p (with_registry p (snd (writer_lost (mp_registry p) w))).
Proof.
  apply rtc_once, ps_registry; [apply st_writer_lost|]. rewrite writer_lost_writers. apply delete_subseteq.
Qed.

Lemma unregister_steps p id : op_steps p (with_registry p (snd (unregister (mp_registry p) id))).
Proof. apply rtc_once, ps_registry; [apply st_unregister|]. by rewrite unregister_writers. Qed.

Lemma close_client_steps e p b : op_steps p (with_registry p (close_client e (mp_registry p) b)).
Proof.
  unfold close_client. destruct (pe_route_wait e _) as [freed wait].
  eapply rtc_l; [apply ps_registry; [apply (st_route _ (bc_conn_id b) MeClose freed wait)|]|].
  - by rewrite route_inner.
  - apply (unregister_steps (with_registry p _)).
Qed.

Lemma close_clients_steps e p conns : op_steps p (with_registry p (foldl (close_client e) (mp_registry p) conns)).
Proof.
  revert p. induction conns as [|b conns IH]; intros p; cbn [foldl].
  - by destruct p.
  - etrans; [apply (close_client_steps e p b)|]. apply (IH (with_registry p _)).
Qed.

Lemma quarantine_steps now p addr uptime : op_steps p (maybe_quarantine_flapping_endpoint now p addr uptime).
Proof. unfold maybe_quarantine_flapping_endpoint. case_match; [done|]. by apply steps_fields. Qed.

Lemma take_steps p id : op_steps p (snd (take_writer p id)).
Proof. apply rtc_once, ps_take. Qed.

Lemma after_removal_steps e p id removed : op_steps p (after_removal e p id removed).
Proof.
  destruct removed as [[w []]|]; [apply send_cmd_steps| |done]. cbn [after_removal].
  etrans; [apply (send_cmd_steps (pe_send_wait e id) p id WClose)|].
  etrans; [apply quarantine_steps|]. by apply steps_fields.
Qed.

Lemma remove_writer_only_eq e p id :
  let p2 := after_removal e (snd (take_writer p id)) id (fst (take_writer p id)) in
  remove_writer_only e p id = (fst (writer_lost (mp_registry p2) id), with_registry p2 (snd (writer_lost (mp_registry p2) id))).
Proof.
  unfold remove_writer_only. destruct (take_writer p id) as [removed p1]. cbn [fst snd]. by destruct (writer_lost _ _).
Qed.

Lemma remove_writer_only_steps e p id : op_steps p (snd (remove_writer_only e p id)).
Proof.
  rewrite remove_writer_only_eq. cbn [snd]. etrans; [apply take_steps|]. etrans; [apply after_removal_steps|].
  apply writer_lost_steps.
Qed.

Lemma remove_writer_steps e p id : op_steps p (remove_writer_and_close_clients e p id).
Proof.
  unfold remove_writer_and_close_clients. pose proof (remove_writer_only_steps e p id) as H.
  destruct (remove_writer_only e p id) as [conns p1]. etrans; [exact H|]. apply close_clients_steps.
Qed.

Lemma prune_steps e p : op_steps p (prune_closed_writers e p).
Proof.
  unfold prune_closed_writers. generalize (mw_id <$> filter (fun w => tx_is_closed p (mw_id w) = true) (mp_writers p)) as ids.
  intros ids. revert p. induction ids as [|id ids IH]; intros p; cbn [foldl]; [done|]. etrans; [|apply IH].
  destruct (is_writer_empty _ _); [apply remove_writer_only_steps|apply remove_writer_steps].
Qed.

Lemma connect_steps e p addr generation contour :
  mp_next_writer_id p + 1 < 2 ^ 64 -> op_steps p (snd (connect_one_with_generation_contour e p addr generation contour)).
Proof.
  intros H. unfold connect_one_with_generation_contour. case_match; [done|]. case_match; [|done]. by apply rtc_once, ps_new.
Qed.

Lemma mark_draining_steps e p id timeout allow : op_steps p (mark_writer_draining_with_timeout e p id timeout allow).
Proof.
  unfold mark_writer_draining_with_timeout. destruct (find_writer _ id); [|done]. eapply rtc_l; [apply ps_shared|].
  destruct (ws_draining _); by apply steps_fields.
Qed.

Lemma drain_turn_steps e p id deadline : op_steps p (snd (drain_turn e p id deadline)).
Proof.
  unfold drain_turn. destruct (match deadline with Some d => d <=? pe_now e | None => false end);
    [|destruct (is_writer_empty _ _); [apply remove_writer_only_steps|done]].
  etrans; [|apply remove_writer_steps]. by apply steps_fields.
Qed.

Lemma update_proxy_maps_steps p new_v4 new_v6 : op_steps p (snd (update_proxy_maps p new_v4 new_v6)).
Proof. unfold update_proxy_maps. case_match; [done|]. by apply steps_fields. Qed.

Lemma MePool_new_ok cfg start stats secret map_v4 map_v6 default_dc base high pct :
  pool_ok (MePool_new cfg start stats secret map_v4 map_v6 default_dc base high pct).
Proof.
  split; cbn [MePool_new mp_writers mp_next_writer_id mp_conn_count mp_registry]; try done.
  - constructor.
  - apply new_consistent.
Qed.

(** ** Removing a writer *)

Lemma close_client_map e reg b : ri_map (cg_inner (close_client e reg b)) = delete (bc_conn_id b) (ri_map (cg_inner reg)).
Proof. unfold close_client. destruct (pe_route_wait e _). by rewrite unregister_map, route_inner. Qed.

Lemma close_client_bound e reg b c :
  ri_writer_for_conn (cg_inner (close_client e reg b)) !! c =
    if decide (c = bc_conn_id b) then None else ri_writer_for_conn (cg_inner reg) !! c.
Proof.
  unfold close_client. destruct (pe_route_wait e _) as [freed wait]. rewrite <-(route_inner reg (bc_conn_id b) MeClose freed wait).
  generalize (snd (route reg (bc_conn_id b) MeClose freed wait)) as r. intros r. unfold unregister.
  destruct (ri_writer_for_conn (cg_inner r) !! bc_conn_id b) eqn:E; cbn [snd set_inner cg_inner ri_writer_for_conn];
    case_decide as Ec; subst; rewrite ?lookup_delete_eq; try done. by rewrite lookup_delete_ne.
Qed.

Lemma unregister_channels reg id : cg_channels (snd (unregister reg id)) = cg_channels reg.
Proof. unfold unregister. by destruct (ri_writer_for_conn _ !! id). Qed.

(** The waits of a call are waits for a number of responses. *)
Definition waits_ok (e : PoolEnv) : Prop := forall c, 0 <= fst (pe_route_wait e c).

Lemma route_frame reg id resp freed wait tx :
  ri_map (cg_inner reg) !! id <> Some tx ->
  cg_channels (snd (route reg id resp freed wait)) !! tx = cg_channels reg !! tx.
Proof.
  intros H. unfold route. destruct (ri_map _ !! id) as [t|]; [|done]. assert (t <> tx) by congruence.
  destruct (cg_channels reg !! t) as [c|]; [|done].
  destruct (try_send c resp); [cbn; by rewrite lookup_insert_ne|done|]. destruct (route_timeout _ _).
  destruct wait; cbn; by rewrite ?lookup_insert_ne.
Qed.

Lemma close_client_channels e reg b :
  waits_ok e -> channels_private reg ->
  (forall tx c, ri_map (cg_inner reg) !! bc_conn_id b = Some tx -> cg_channels reg !! tx = Some c ->
     ch_open c = true -> zlen (ch_queue c) < ROUTE_CHANNEL_CAPACITY ->
     cg_channels (close_client e reg b) !! tx = Some (mkChannel (ch_queue c ++ [MeClose]) true)) /\
  (forall tx, ri_map (cg_inner reg) !! bc_conn_id b <> Some tx ->
     cg_channels (close_client e reg b) !! tx = cg_channels reg !! tx) /\
  channels_private (close_client e reg b).
Proof.
  intros Hw Hp. specialize (Hw (bc_conn_id b)). unfold close_client. destruct (pe_route_wait e _) as [freed wait]. cbn in Hw.
  rewrite unregister_channels. pose proof (route_spec reg (bc_conn_id b) MeClose freed wait Hp Hw) as Hr.
  pose proof (channels_route reg (bc_conn_id b) MeClose freed wait Hp) as Hp'.
  split_and!; [|intros tx; apply route_frame|by apply channels_unregister].
  destruct (route reg _ _ _ _) as [r reg']. cbn [snd] in *. destruct Hr as (_ & _ & Hroom & _).
  intros tx c H1 H2 H3 H4. by destruct (Hroom tx c H1 H2 H3 H4).
Qed.

(** Closing the clients one after the other. *)
Lemma close_clients_maps e conns reg :
  let reg' := foldl (close_client e) reg conns in
  (forall c, ri_map (cg_inner reg') !! c = if decide (c ∈ bc_conn_id <$> conns) then None else ri_map (cg_inner reg) !! c) /\
  (forall c, ri_writer_for_conn (cg_inner reg') !! c =
     if decide (c ∈ bc_conn_id <$> conns) then None else ri_writer_for_conn (cg_inner reg) !! c).
Proof.
  revert reg. induction conns as [|b conns IH]; intros reg reg'; cbn [foldl] in reg'.
  { split; intros c; rewrite decide_False by apply not_elem_of_nil; done. }
  destruct (IH (close_client e reg b)) as (Hmap & Hbound). fold reg' in Hmap, Hbound. rewrite close_client_map in Hmap.
  split; intros c.
  - rewrite Hmap. destruct (decide (c = bc_conn_id b)) as [->|Hc].
    + rewrite (decide_True (P := _ ∈ bc_conn_id <$> b :: conns)) by (rewrite fmap_cons; by left). rewrite lookup_delete_eq. by case_decide.
    + rewrite lookup_delete_ne by done. repeat case_decide; set_solver.
  - rewrite Hbound, close_client_bound. repeat case_decide; set_solver.
Qed.

Lemma close_clients_channels e conns : forall reg,
  waits_ok e -> channels_private reg -> NoDup (bc_conn_id <$> conns) ->
  let reg' := foldl (close_client e) reg conns in
  (forall id tx c, id ∈ bc_conn_id <$> conns -> ri_map (cg_inner reg) !! id = Some tx -> cg_channels reg !! tx = Some c ->
     ch_open c = true -> zlen (ch_queue c) < ROUTE_CHANNEL_CAPACITY ->
     cg_channels reg' !! tx = Some (mkChannel (ch_queue c ++ [MeClose]) true)) /\
  (forall tx, (forall id, id ∈ bc_conn_id <$> conns -> ri_map (cg_inner reg) !! id <> Some tx) ->
     cg_channels reg' !! tx = cg_channels reg !! tx).
Proof.
  induction conns as [|b conns IH]; intros reg Hw Hp Hn reg'; cbn [foldl] in reg'.
  { split; [|done]. intros id tx c Hin. by apply not_elem_of_nil in Hin. }
  rewrite fmap_cons in Hn. apply NoDup_cons in Hn as [Hb Hn].
  destruct (close_client_channels e reg b Hw Hp) as (Hclose & Hkeep & Hp').
  destruct (IH _ Hw Hp' Hn) as (Hin & Hout). fold reg' in Hin, Hout. rewrite close_client_map in Hin, Hout.
  destruct Hp as (_ & Hinj & _). split.
  - intros id tx c Hid Hm Hc Ho Hr. rewrite fmap_cons, elem_of_cons in Hid. destruct (decide (id = bc_conn_id b)) as [->|Hne].
    + rewrite <-(Hclose tx c Hm Hc Ho Hr). apply Hout. intros id Hid' Hm'%lookup_delete_Some. naive_solver.
    + apply (Hin id); [naive_solver|by rewrite lookup_delete_ne| |done|done].
      rewrite Hkeep; [done|]. intros Hm'. naive_solver.
  - intros tx Hno. rewrite Hout; [apply Hkeep|].
    + apply Hno. rewrite fmap_cons. by left.
    + intros id Hid [_ Hm]%lookup_delete_Some. apply (Hno id); [rewrite fmap_cons; by right|done].
Qed.

Lemma send_cmd_keeps wait p id cmd :
  let p' := snd (send_cmd wait p id cmd) in
  mp_registry p' = mp_registry p /\ mp_writers p' = mp_writers p /\ mp_conn_count p' = mp_conn_count p /\
  mp_refills p' = mp_refills p /\ mp_stats p' = mp_stats p /\ mp_quarantine p' = mp_quarantine p.
Proof.
  unfold send_cmd, try_send_cmd. destruct (tx_is_closed p id); [done|]. destruct (tx_capacity p id <=? 0); [|done]. by destruct wait.
Qed.

Lemma detach_keeps e p id :
  let p' := after_removal e (snd (take_writer p id)) id (fst (take_writer p id)) in
  mp_registry p' = mp_registry p /\ mp_writers p' = without_writer (mp_writers p) id /\
  mp_conn_count p' = mp_conn_count (snd (take_writer p id)) /\
  mp_refills p' = mp_refills p ++
    match find_writer (mp_writers p) id with Some w => if ws_draining (shared p id) then [] else [mw_addr w] | None => [] end.
Proof.
  unfold take_writer. destruct (find_writer (mp_writers p) id) as [w|] eqn:E; cbn [fst snd after_removal].
  - match goal with |- context [send_cmd ?a ?b ?c ?d] => pose proof (send_cmd_keeps a b c d) as (H1 & H2 & H3 & H4 & _); set (q := snd (send_cmd a b c d)) in * end.
    cbn [mp_registry mp_writers mp_conn_count mp_refills with_conn_count with_stats upd_shared with_shared with_writers] in H1, H2, H3, H4.
    destruct (ws_draining (shared p id)); cbn [with_refills mp_registry mp_writers mp_conn_count mp_refills].
    + rewrite H1, H2, H3, H4, app_nil_r. done.
    + unfold maybe_quarantine_flapping_endpoint. destruct (_ <? _); cbn; rewrite H1, H2, H3, H4; done.
  - rewrite app_nil_r. split_and!; [done| |done|done]. apply find_writer_None in E. clear -E. revert E.
    induction (mp_writers p) as [|x ws IH]; [done|]. rewrite fmap_cons, not_elem_of_cons, without_writer_cons. intros [H1 H2].
    rewrite decide_False by done. by rewrite <-IH.
Qed.

Lemma elem_of_bound (conns : list BoundConn) c : c ∈ bc_conn_id <$> conns <-> exists b, b ∈ conns /\ bc_conn_id b = c.
Proof. rewrite list_elem_of_fmap. naive_solver. Qed.

(** C14: removing a writer takes exactly that writer out of the pool and off the connection count, and starts a refill of its
    endpoint unless it was draining; every client it served is unregistered and unbound and its session is told
    to close; and all other clients keep their registration, their binding and their queues. *)
Theorem writer_removal_exact e p w :
  pool_ok p -> waits_ok e ->
  let p' := remove_writer_and_close_clients e p w in
  let reg := mp_registry p in let reg' := mp_registry p' in
  mp_writers p' = filter (fun x => mw_id x <> w) (mp_writers p) /\
  mp_conn_count p' = zlen (mp_writers p') /\
  mp_refills p' = mp_refills p ++
    match find_writer (mp_writers p) w with Some x => if ws_draining (shared p w) then [] else [mw_addr x] | None => [] end /\
  (forall c, ri_writer_for_conn (cg_inner reg) !! c = Some w ->
     ri_map (cg_inner reg') !! c = None /\ get_writer reg' c = None /\
     forall tx ch, ri_map (cg_inner reg) !! c = Some tx -> cg_channels reg !! tx = Some ch -> ch_open ch = true ->
       zlen (ch_queue ch) < ROUTE_CHANNEL_CAPACITY -> cg_channels reg' !! tx = Some (mkChannel (ch_queue ch ++ [MeClose]) true)) /\
  (forall c, ri_writer_for_conn (cg_inner reg) !! c <> Some w ->
     ri_map (cg_inner reg') !! c = ri_map (cg_inner reg) !! c /\
     ri_writer_for_conn (cg_inner reg') !! c = ri_writer_for_conn (cg_inner reg) !! c /\
     forall tx, ri_map (cg_inner reg) !! c = Some tx -> cg_channels reg' !! tx = cg_channels reg !! tx).
Proof.
  intros Hp Hw p' reg reg'. pose proof (op_steps_ok _ _ (remove_writer_steps e p w) Hp) as Hp'. fold p' in Hp'.
  unfold p', remove_writer_and_close_clients in *. subst reg'. rewrite remove_writer_only_eq in *.
  destruct (detach_keeps e p w) as (Hr & Hws & _ & Hrf).
  set (q := after_removal e (snd (take_writer p w)) w (fst (take_writer p w))) in *.
  cbn [with_registry mp_writers mp_registry mp_conn_count mp_refills] in *. rewrite Hr in *. fold reg.
  pose proof (writer_lost_spec reg w (ok_registry p Hp)) as Hlost.
  assert (ri_map (cg_inner (snd (writer_lost reg w))) = ri_map (cg_inner reg) /\ cg_channels (snd (writer_lost reg w)) = cg_channels reg) as [Hm Hch]
    by (unfold writer_lost; by rewrite writer_lost_loop).
  pose proof (step_channels _ _ (st_writer_lost reg w) (ok_channels p Hp)) as Hpriv.
  destruct (writer_lost reg w) as [conns reg1]. cbn [fst snd] in *. destruct Hlost as (Hnd & Hmem & Hunb).
  destruct (close_clients_maps e conns reg1) as (Hmap & Hbound).
  destruct (close_clients_channels e conns reg1 Hw Hpriv Hnd) as (Hin & Hout). rewrite Hm, Hch in *.
  assert (forall c, c ∈ bc_conn_id <$> conns <-> ri_writer_for_conn (cg_inner reg) !! c = Some w) as Hc.
  { intros c. rewrite elem_of_bound. split; [intros (b & Hb & <-); by apply Hmem in Hb as [? _]|].
    intros E. destruct (ok_registry p Hp) as [_ Hl]. destruct (Hl _ _ E) as [_ [m Em]]. exists (mkBoundConn c m).
    split; [|done]. by apply Hmem. }
  destruct Hp' as [_ _ _ Hcount _ _ _]. cbn [with_registry mp_conn_count mp_writers] in Hcount.
  split_and!; [by rewrite Hws, without_writer_filter by apply (ok_ids p Hp)|done|done|..].
  - intros c E. pose proof E as Ein%Hc. split_and!.
    + by rewrite Hmap, decide_True.
    + unfold get_writer. rewrite Hbound, decide_True by done. done.
    + intros tx ch Htx Hq Ho Hroom. by apply (Hin c).
  - intros c E. assert (c ∉ bc_conn_id <$> conns) as Eout by by rewrite Hc. split_and!.
    + by rewrite Hmap, decide_False.
    + by rewrite Hbound, decide_False, Hunb, decide_False.
    + intros tx Htx. apply Hout. intros id Hid Hid'. destruct (ok_channels p Hp) as (_ & Hinj & _).
      assert (id = c) as -> by by eapply Hinj. done.
Qed.

(** ** The end of a reader task (pool_writer.rs:158-172)

    The reader drops its writer from the list without the bookkeeping of [take_writer]; it counts on the removal
    that it, or the ping task, has begun. *)
Definition reader_retain (p : MePool) (writer_id : Z) : MePool :=
  with_writers p (filter (fun w => mw_id w <> writer_id) (mp_writers p)).

(** When the ping task has claimed the removal and the reader gets to the list first, the removal finds nothing:
    the connection stays counted, and no refill starts. *)
Lemma retain_race_leaks e p w x :
  pool_ok p -> find_writer (mp_writers p) w = Some x ->
  let p' := remove_writer_and_close_clients e (reader_retain p w) w in
  mp_conn_count p' = zlen (mp_writers p') + 1 /\ mp_refills p' = mp_refills p.
Proof.
  intros Hp Hx p'. unfold p', remove_writer_and_close_clients. rewrite remove_writer_only_eq.
  cbn [with_registry mp_conn_count mp_writers mp_refills].
  assert (find_writer (mp_writers (reader_retain p w)) w = None) as E.
  { apply find_writer_None. intros (y & Ey & [Hy _]%list_elem_of_filter)%list_elem_of_fmap. by rewrite <-Ey in Hy. }
  unfold take_writer. rewrite E. cbn [fst snd after_removal reader_retain with_writers mp_conn_count mp_writers mp_refills].
  split; [|done]. rewrite (ok_count p Hp), <-without_writer_filter by apply (ok_ids p Hp).
  rewrite (zlen_without_writer _ _ _ Hx). lia.
Qed.

(** ** The tasks around a pool

    The pool with what is under way: the ids drawn for connections that are not entered yet (pool_writer.rs:70), how many
    writers are entered but not counted (between lines 117 and 118), and how many a reader task dropped from the list
    that no removal had taken (line 170). *)
Record Tasks := mkTasks { tk_pool : MePool; tk_reserved : gset Z; tk_uncounted : Z; tk_dropped : Z }.

Definition reserve_id (p : MePool) : MePool := with_next_writer_id p (u64 (mp_next_writer_id p + 1)).
Definition push_writer (p : MePool) (writer_id : Z) (addr : SocketAddr) (generation now : Z) (contour : WriterContour) : MePool :=
  let p := with_shared p (<[writer_id := WriterShared_new contour]> (mp_shared p)) in
  with_writers p (mp_writers p ++ [mkMeWriter writer_id addr generation now]).
Definition count_writer (p : MePool) : MePool := with_conn_count p (u64 (mp_conn_count p + 1)).

Lemma register_writer_pieces p addr generation now contour :
  register_writer p addr generation now contour = count_writer (push_writer (reserve_id p) (mp_next_writer_id p) addr generation now contour).
Proof. done. Qed.

(** One atomic action of some task. *)
Inductive pool_step : Tasks -> Tasks -> Prop :=
| pt_registry p r u d reg :
    reg_step (mp_registry p) reg -> ri_writers (cg_inner reg) ⊆ ri_writers (cg_inner (mp_registry p)) ->
    pool_step (mkTasks p r u d) (mkTasks (with_registry p reg) r u d)
| pt_bind p r u d conn_id writer_id meta :
    get_writer (mp_registry p) conn_id = None ->
    pool_step (mkTasks p r u d) (mkTasks (with_registry p (bind_writer (mp_registry p) conn_id writer_id writer_id meta)) r u d)
| pt_take p r u d writer_id : pool_step (mkTasks p r u d) (mkTasks (snd (take_writer p writer_id)) r u d)
| pt_reserve p r u d :
    mp_next_writer_id p + 1 < 2 ^ 64 ->
    pool_step (mkTasks p r u d) (mkTasks (reserve_id p) ({[mp_next_writer_id p]} ∪ r) u d)
| pt_push p r u d writer_id addr generation now contour :
    writer_id ∈ r ->
    pool_step (mkTasks p r u d) (mkTasks (push_writer p writer_id addr generation now contour) (r ∖ {[writer_id]}) (u + 1) d)
| pt_count p r u d : 0 < u -> pool_step (mkTasks p r u d) (mkTasks (count_writer p) r (u - 1) d)
| pt_retain p r u d writer_id :
    pool_step (mkTasks p r u d)
      (mkTasks (reader_retain p writer_id) r u (if find_writer (mp_writers p) writer_id is Some _ then d + 1 else d))
| pt_command p r u d id cmd : pool_step (mkTasks p r u d) (mkTasks (push_command p id cmd) r u d)
| pt_shared p r u d id f : pool_step (mkTasks p r u d) (mkTasks (upd_shared p id f) r u d)
| pt_fields p p' r u d : same_core p p' -> pool_step (mkTasks p r u d) (mkTasks p' r u d).

(** A step of an operation is a run of such actions. *)
Lemma op_step_tasks p p' r u d :
  op_step p p' -> mp_next_writer_id p ∉ r -> 0 <= u -> rtc pool_step (mkTasks p r u d) (mkTasks p' r u d).
Proof.
  intros [] Hr Hu; try (apply rtc_once; by constructor). rewrite register_writer_pieces.
  eapply rtc_l; [by apply pt_reserve|]. eapply rtc_l; [apply (pt_push _ _ _ _ (mp_next_writer_id p0)); set_solver|].
  eapply rtc_l; [apply pt_count; lia|]. replace (({[mp_next_writer_id p0]} ∪ r) ∖ {[mp_next_writer_id p0]}) with r by set_solver.
  replace (u + 1 - 1) with u by lia. done.
Qed.

(** The pool as it would be with its counter put right. *)
Definition recount (p : MePool) : MePool := with_conn_count p (zlen (mp_writers p)).

Record tasks_ok (t : Tasks) : Prop := {
  tk_rest : pool_ok (recount (tk_pool t));
  tk_count : mp_conn_count (tk_pool t) = u64 (zlen (mp_writers (tk_pool t)) - tk_uncounted t + tk_dropped t);
  tk_ids : forall id, id ∈ tk_reserved t -> id < mp_next_writer_id (tk_pool t) /\ id ∉ mw_id <$> mp_writers (tk_pool t);
  tk_room : zlen (mp_writers (tk_pool t)) + Z.of_nat (size (tk_reserved t)) < mp_next_writer_id (tk_pool t)
}.

Lemma recount_take p id : pool_ok (recount p) -> recount (snd (take_writer p id)) = snd (take_writer (recount p) id).
Proof.
  intros Hp. unfold take_writer. change (find_writer (mp_writers (recount p)) id) with (find_writer (mp_writers p) id).
  destruct (find_writer (mp_writers p) id) as [w|] eqn:E; [|done]. pose proof (zlen_without_writer _ _ _ E) as El. destruct (ok_next _ Hp) as [Hn Hm].
  pose proof (zlen_nonneg (without_writer (mp_writers p) id)). change (mp_writers (recount p)) with (mp_writers p) in *.
  change (mp_next_writer_id (recount p)) with (mp_next_writer_id p) in *.
  assert (u64 (zlen (mp_writers p) - 1) = zlen (without_writer (mp_writers p) id)) as Eu by (rewrite El; unfold u64; apply Z.mod_small; lia).
  cbn [snd]. unfold recount at 1. cbn [mp_writers with_conn_count with_stats upd_shared with_shared with_writers]. rewrite <-Eu. done.
Qed.

Lemma take_tasks p r u d id : tasks_ok (mkTasks p r u d) -> tasks_ok (mkTasks (snd (take_writer p id)) r u d).
Proof.
  intros [Ho Hc Hi Hr]. cbn [tk_pool tk_reserved tk_uncounted tk_dropped] in *. split; cbn [tk_pool tk_reserved tk_uncounted tk_dropped].
  - rewrite recount_take by done. by apply take_ok.
  - unfold take_writer. destruct (find_writer (mp_writers p) id) as [w|] eqn:E; [|done]. cbn. rewrite (zlen_without_writer _ _ _ E), Hc.
    unfold u64. rewrite Zminus_mod_idemp_l. f_equal. lia.
  - intros x Hx. destruct (Hi x Hx) as [Hl Hn]. unfold take_writer. destruct (find_writer (mp_writers p) id) as [w|] eqn:E; [|done]. cbn.
    split; [done|]. rewrite without_writer_filter by exact (ok_ids _ Ho). intros (y & -> & [_ Hy]%list_elem_of_filter)%list_elem_of_fmap.
    by apply Hn, list_elem_of_fmap_2.
  - unfold take_writer. destruct (find_writer (mp_writers p) id) as [w|] eqn:E; [|done]. cbn. rewrite (zlen_without_writer _ _ _ E). lia.
Qed.

Lemma push_tasks p r u d id addr generation now contour :
  id ∈ r -> tasks_ok (mkTasks p r u d) -> tasks_ok (mkTasks (push_writer p id addr generation now contour) (r ∖ {[id]}) (u + 1) d).
Proof.
  intros Hid [Ho Hc Hi Hr]. cbn [tk_pool tk_reserved tk_uncounted tk_dropped] in *. destruct (Hi id Hid) as [Hlt Hnew].
  assert (size (r ∖ {[id]}) = size r - 1)%nat as Es by (rewrite size_difference by set_solver; by rewrite size_singleton).
  assert (0 < size r)%nat as Hpos by (apply Nat.neq_0_lt_0; rewrite size_non_empty_iff; set_solver).
  destruct Ho as [Hids Hb Hn _ Hreg Hch Hh]. cbn [recount with_conn_count mp_writers mp_next_writer_id mp_registry] in *.
  split; cbn [tk_pool tk_reserved tk_uncounted tk_dropped push_writer with_writers with_shared mp_writers mp_next_writer_id mp_conn_count].
  - split; cbn [recount push_writer with_conn_count with_writers with_shared mp_writers mp_next_writer_id mp_conn_count mp_registry]; try done.
    + rewrite fmap_app. apply NoDup_app. split_and!; [done| |apply NoDup_singleton]. intros x Hx. cbn. rewrite list_elem_of_singleton. by intros ->.
    + apply Forall_app. split; [done|]. by constructor.
    + rewrite zlen_app. change (zlen [_]) with 1. lia.
  - rewrite Hc, zlen_app. change (zlen [_]) with 1. f_equal. lia.
  - intros x [Hx Hne]%elem_of_difference. destruct (Hi x Hx) as [? Hx']. split; [done|]. rewrite fmap_app, not_elem_of_app. split; [done|].
    cbn. rewrite list_elem_of_singleton. set_solver.
  - rewrite zlen_app, Es. change (zlen [_]) with 1. lia.
Qed.

Lemma retain_tasks p r u d id :
  tasks_ok (mkTasks p r u d) -> tasks_ok (mkTasks (reader_retain p id) r u (if find_writer (mp_writers p) id is Some _ then d + 1 else d)).
Proof.
  intros [Ho Hc Hi Hr]. cbn [tk_pool tk_reserved tk_uncounted tk_dropped] in *. pose proof (ok_ids _ Ho) as Hids. change (mp_writers (recount p)) with (mp_writers p) in Hids.
  assert (mp_writers (reader_retain p id) = without_writer (mp_writers p) id) as Ew by (cbn; by rewrite without_writer_filter).
  assert (zlen (without_writer (mp_writers p) id) = zlen (mp_writers p) - (if find_writer (mp_writers p) id is Some _ then 1 else 0)) as El.
  { destruct (find_writer (mp_writers p) id) as [w|] eqn:E; [by rewrite (zlen_without_writer _ _ _ E)|].
    rewrite without_writer_filter, filter_all; [lia| |done]. apply find_writer_None in E. apply Forall_forall. intros y Hy <-. by apply E, list_elem_of_fmap_2. }
  split; cbn [tk_pool tk_reserved tk_uncounted tk_dropped].
  - destruct Ho as [_ Hb Hn _ Hreg Hch Hh]. cbn [recount with_conn_count mp_writers mp_next_writer_id mp_registry] in *.
    split; cbn [recount with_conn_count mp_writers mp_next_writer_id mp_conn_count mp_registry]; try done.
    + cbn. refine (sublist_NoDup _ _ Hids _). apply fmap_sublist, sublist_filter.
    + cbn. rewrite Forall_forall in *. intros x [_ Hx]%list_elem_of_filter. auto.
    + rewrite Ew, El. change (mp_next_writer_id (reader_retain p id)) with (mp_next_writer_id p). destruct (find_writer _ _); lia.
  - rewrite Ew, El. change (mp_conn_count (reader_retain p id)) with (mp_conn_count p). rewrite Hc. f_equal. destruct (find_writer _ _); lia.
  - intros x Hx. destruct (Hi x Hx) as [? Hn]. split; [done|]. cbn. intros (y & -> & [_ Hy]%list_elem_of_filter)%list_elem_of_fmap. by apply Hn, list_elem_of_fmap_2.
  - rewrite Ew, El. change (mp_next_writer_id (reader_retain p id)) with (mp_next_writer_id p). destruct (find_writer _ _); lia.
Qed.

(** An action that leaves the list, the counter and the ids alone. *)
Lemma other_tasks p p' r u d :
  op_step (recount p) (recount p') -> mp_writers p' = mp_writers p -> mp_conn_count p' = mp_conn_count p -> mp_next_writer_id p' = mp_next_writer_id p ->
  tasks_ok (mkTasks p r u d) -> tasks_ok (mkTasks p' r u d).
Proof.
  intros Hs Ew Ec En [Ho Hc Hi Hr]. split; cbn [tk_pool tk_reserved tk_uncounted tk_dropped] in *; rewrite ?Ew, ?Ec, ?En; try done. by apply (op_step_ok (recount p)).
Qed.

Lemma pool_step_ok t t' : pool_step t t' -> tasks_ok t -> tasks_ok t'.
Proof.
  intros Hst Ht. destruct Hst as [p r u d reg Hs Hsub|p r u d c w meta Hg|p r u d w|p r u d Hlt|p r u d w addr g now ct Hw|p r u d Hu|p r u d w|p r u d w cmd|p r u d w f|p p' r u d Hf].
  - apply (other_tasks p); [|done..]. by apply (ps_registry (recount p)).
  - apply (other_tasks p); [|done..]. by apply (ps_bind (recount p)).
  - by apply take_tasks.
  - destruct Ht as [Ho Hc Hi Hr]. cbn [tk_pool tk_reserved tk_uncounted tk_dropped] in *. destruct (ok_next _ Ho) as [Hn _].
    assert (mp_next_writer_id (reserve_id p) = mp_next_writer_id p + 1) as En by (cbn; unfold u64; apply Z.mod_small; cbn in Hn; pose proof (zlen_nonneg (mp_writers p)); lia).
    pose proof (ok_below _ Ho) as Hb. change (mp_writers (recount p)) with (mp_writers p) in Hb. change (mp_next_writer_id (recount p)) with (mp_next_writer_id p) in *.
    split; cbn [tk_pool tk_reserved tk_uncounted tk_dropped]; [|exact Hc| |].
    + destruct Ho as [Hids _ _ _ Hreg Hch Hh]. split; try done; change (mp_next_writer_id (recount (reserve_id p))) with (mp_next_writer_id (reserve_id p)); rewrite En.
      * eapply Forall_impl; [exact Hb|]. cbn. intros; lia.
      * change (mp_writers (recount (reserve_id p))) with (mp_writers p). lia.
    + rewrite En. change (mp_writers (reserve_id p)) with (mp_writers p). intros x [->%elem_of_singleton|Hx]%elem_of_union.
      * split; [lia|]. intros (y & E & Hy)%list_elem_of_fmap. rewrite Forall_forall in Hb. apply Hb in Hy. lia.
      * destruct (Hi x Hx). split; [lia|done].
    + rewrite En. change (mp_writers (reserve_id p)) with (mp_writers p). rewrite size_union, size_singleton; [lia|].
      intros x ->%elem_of_singleton Hx. destruct (Hi _ Hx). lia.
  - by apply push_tasks.
  - destruct Ht as [Ho Hc Hi Hr]. cbn [tk_pool tk_reserved tk_uncounted tk_dropped] in *. split; try done. cbn. rewrite Hc. unfold u64. rewrite Zplus_mod_idemp_l. f_equal. lia.
  - by apply retain_tasks.
  - apply (other_tasks p); [|done..]. apply (ps_command (recount p)).
  - apply (other_tasks p); [|done..]. apply (ps_shared (recount p)).
  - destruct Hf as [Er Ew Es Eh Ec En]. apply (other_tasks p); [|done..]. apply ps_fields. split; try done. cbn. by rewrite Ew.
Qed.

Lemma MePool_new_tasks cfg start stats secret map_v4 map_v6 dc base high pct :
  tasks_ok (mkTasks (MePool_new cfg start stats secret map_v4 map_v6 dc base high pct) ∅ 0 0).
Proof.
  split; [exact (MePool_new_ok cfg start stats secret map_v4 map_v6 dc base high pct)|done| |done].
  intros id Hid. by apply elem_of_empty in Hid.
Qed.

Lemma pool_steps_ok t t' : rtc pool_step t t' -> tasks_ok t -> tasks_ok t'.
Proof. induction 1; eauto using pool_step_ok. Qed.

(** C40: whatever the tasks around a pool do, in any interleaving of their atomic actions - new connections draw their
    ids, enter their writer and count it at different moments, removals, clean-ups, drains and bindings come in between, and
    the reader task of a dead connection drops its writer from the list whether or not a removal took it - the connection
    count is the number of writers, without those not counted yet and with those only a reader dropped, modulo 2^64; no two
    writers share an id, not with a connection about to enter either; a connection has a writer exactly when that writer's
    set holds it; and what is sent to the writer of a connection goes to that writer's own channel. *)
Theorem pool_accounting cfg start stats secret map_v4 map_v6 dc base high pct t :
  rtc pool_step (mkTasks (MePool_new cfg start stats secret map_v4 map_v6 dc base high pct) ∅ 0 0) t ->
  let p := tk_pool t in
  mp_conn_count p = (zlen (mp_writers p) - tk_uncounted t + tk_dropped t) mod 2 ^ 64 /\
  NoDup (mw_id <$> mp_writers p) /\ (forall id, id ∈ tk_reserved t -> id ∉ mw_id <$> mp_writers p) /\
  (forall c w, ri_writer_for_conn (cg_inner (mp_registry p)) !! c = Some w <->
     exists s, ri_conns_for_writer (cg_inner (mp_registry p)) !! w = Some s /\ c ∈ s) /\
  (forall c w, ri_writer_for_conn (cg_inner (mp_registry p)) !! c = Some w -> get_writer (mp_registry p) c = Some (mkConnWriter w w)).
Proof.
  intros H p. apply pool_steps_ok in H; [|apply MePool_new_tasks].
  destruct H as [[Hids _ _ _ [Hb Hl] _ Hh] Hc Hi _].
  split; [exact Hc|]. split; [exact Hids|]. split; [by intros id Hid; apply Hi|]. split; [exact Hb|].
  intros c w E. unfold get_writer. rewrite E. destruct (Hl c w E) as [[tx Et] _]. pose proof (Hh _ _ Et) as ->.
  change (mp_registry (recount (tk_pool t))) with (mp_registry p) in Et. cbn. by rewrite Et.
Qed.

(** ** Configuration snapshots *)

Lemma mirror_key_lookup g k d :
  mirror_key g k !! d =
    match g !! d with
    | Some a => Some a
    | None => if decide (0 < k /\ d = - k) then g !! k else None
    end.
Proof.
  unfold mirror_key. destruct (Z.ltb_spec 0 k).
  - destruct (g !! (- k)) eqn:E1, (g !! k) eqn:E2.
    + destruct (g !! d) eqn:Ed; [done|]. case_decide as Ek; [|done]. destruct Ek as [_ ->]. congruence.
    + destruct (g !! d) eqn:Ed; [done|]. by case_decide.
    + destruct (decide (d = - k)) as [->|Hd].
      * rewrite lookup_insert_eq, E1, decide_True by done. done.
      * rewrite lookup_insert_ne by done. destruct (g !! d); [done|]. rewrite decide_False; [done|tauto].
    + destruct (g !! d) eqn:Ed; [done|]. by case_decide.
  - destruct (g !! d); [done|]. rewrite decide_False; [done|lia].
Qed.

Lemma mirror_keys_lookup ks : forall g d,
  foldl mirror_key g ks !! d =
    match g !! d with
    | Some a => Some a
    | None => if decide (d < 0 /\ - d ∈ ks) then g !! (- d) else None
    end.
Proof.
  induction ks as [|k ks IH]; intros g d; cbn [foldl].
  { destruct (g !! d); [done|]. rewrite decide_False; [done|]. intros [_ H]. by apply not_elem_of_nil in H. }
  rewrite IH, !mirror_key_lookup. destruct (g !! d) eqn:E; [done|].
  destruct (decide (0 < k /\ d = - k)) as [[Hk ->]|Hne].
  - rewrite Z.opp_involutive. rewrite (decide_True (P := - k < 0 /\ k ∈ k :: ks)) by (split; [lia|by left]).
    destruct (g !! k) eqn:Ek; [done|]. case_decide; [|done]. rewrite decide_False by lia. done.
  - destruct (decide (d < 0 /\ - d ∈ ks)) as [[Hd Hin]|Hout].
    + rewrite (decide_True (P := d < 0 /\ - d ∈ k :: ks)) by (split; [done|by right]).
      destruct (g !! (- d)); [done|]. rewrite decide_False; [done|lia].
    + rewrite decide_False; [done|]. intros [Hd [<-|Hin]%elem_of_cons]; [lia|tauto].
Qed.

Lemma mirror_lookup (g : ProxyMap) d :
  mirror_negative g !! d = match g !! d with Some a => Some a | None => if d <? 0 then g !! (- d) else None end.
Proof.
  unfold mirror_negative. rewrite mirror_keys_lookup. destruct (g !! d) eqn:E; [done|].
  destruct (Z.ltb_spec d 0) as [Hd|Hd]; [|rewrite decide_False; [done|lia]].
  destruct (g !! (- d)) eqn:E'; [|by case_decide]. rewrite decide_True; [done|]. split; [done|].
  apply list_elem_of_fmap. exists (- d, l). split; [done|]. by apply elem_of_map_to_list.
Qed.

(** A snapshot with no entry at all is rejected and changes nothing.  Any other replaces the map of each family it has
    entries for, and afterwards every data centre has the endpoints of its entry, or, when it is negative and has
    none, those of its positive counterpart. *)
Theorem update_proxy_maps_exact p new_v4 new_v6 :
  let '(r, p') := update_proxy_maps p new_v4 new_v6 in
  let new6 := default ∅ new_v6 in
  (new_v4 = ∅ -> new6 = ∅ -> r = RejectedEmpty /\ p' = p) /\
  (new_v4 <> ∅ \/ new6 <> ∅ ->
     r <> RejectedEmpty /\
     forall family d,
       let given := match family with FamV4 => new_v4 | FamV6 => new6 end in
       let m := if decide (given = ∅) then proxy_map_for_family p family else given in
       proxy_map_for_family p' family !! d = match m !! d with Some a => Some a | None => if d <? 0 then m !! (- d) else None end).
Proof.
  unfold update_proxy_maps.
  replace (match new_v6 with None => true | Some v => bool_decide (v = ∅) end) with (bool_decide (default ∅ new_v6 = ∅))
    by (by destruct new_v6).
  destruct (bool_decide (new_v4 = ∅) && bool_decide (default ∅ new_v6 = ∅)) eqn:E.
  { apply andb_true_iff in E as [->%bool_decide_eq_true ->%bool_decide_eq_true]. split; [done|]. by intros []. }
  split.
  { intros H4 H6. by rewrite (bool_decide_eq_true_2 _ H4), (bool_decide_eq_true_2 _ H6) in E. }
  intros _. split; [by destruct (_ || _)|]. intros family d. destruct family;
    cbn [proxy_map_for_family with_maps mp_maps proxy_map_v4 proxy_map_v6]; rewrite mirror_lookup.
  - repeat case_bool_decide; repeat case_decide; subst; done || congruence.
  - destruct new_v6 as [v6|]; cbn [default]; [|by rewrite decide_True].
    cbn. repeat case_bool_decide; repeat case_decide; subst; done || congruence.
Qed.

(** The stored map is the mirrored one, but a snapshot is compared as it comes: one that lacks a negative entry is
    reported as a change each time it is applied. *)
Lemma snapshot_changes_again p new_v4 new_v6 k addrs :
  0 < k -> new_v4 !! k = Some addrs -> new_v4 !! (- k) = None ->
  fst (update_proxy_maps (snd (update_proxy_maps p new_v4 new_v6)) new_v4 new_v6) = AppliedChanged.
Proof.
  intros Hk Hp Hn. assert (new_v4 <> ∅) as Hne by (intros ->; by rewrite lookup_empty in Hp).
  pose proof (update_proxy_maps_exact p new_v4 new_v6) as H. destruct (update_proxy_maps p new_v4 new_v6) as [r p'].
  destruct H as [_ [_ H]]; [by left|]. specialize (H FamV4 (- k)). cbn in H. rewrite decide_False in H by done.
  rewrite Hn, Z.opp_involutive, Hp in H. destruct (Z.ltb_spec (- k) 0); [|lia]. cbn [snd].
  unfold update_proxy_maps. rewrite (bool_decide_eq_false_2 (new_v4 = ∅)) by done. cbn [andb negb].
  rewrite bool_decide_eq_false_2; [done|]. intros E. rewrite E in H. congruence.
Qed.

(** The writers asked for are at least three for any data centre with endpoints, at least one per endpoint unless idle
    adaptive mode lowers the number for a single endpoint, and never none. *)
Lemma required_writers_bounds p n idle :
  0 <= n -> 0 <= single_endpoint_shadow_writers (pc_policy (mp_cfg p)) ->
  let r := required_writers_for_dc_with_floor_mode p n idle in
  (r = 0 <-> n = 0) /\ r <= required_writers_for_dc p n /\
  (idle = false \/ n <> 1 \/ floor_mode p = Static -> n <= r /\ (n <> 0 -> 3 <= r)).
Proof.
  intros Hn Hs. unfold required_writers_for_dc_with_floor_mode, required_writers_for_dc.
  destruct (Z.eqb_spec n 0), (Z.eqb_spec n 1), idle; cbn [negb orb]; repeat case_bool_decide as E; cbn [negb];
    split_and!; intros; try lia; destruct_or?; try lia; congruence.
Qed.

(** ** An example *)

Section PoolWitnesses.

Definition demo_pool_env : PoolEnv :=
  mkPoolEnv 0 1000 (fun _ => Gone) (fun _ => (0, WaitTimeout)) (fun _ => Ok tt) (fun m => map_to_list m) (fun l => l).
Definition demo_policy : ReinitPolicy :=
  mkReinitPolicy false 90 300 800 100 200 1 500 (MeBindStaleMode_as_u8 Ttl) 90 true true 2 true true 250 3000 900
    (MeFloorMode_as_u8 Static) 90 1 180.
Definition demo_pool_cfg : PoolCfg := mkPoolCfg (mkNetworkDecision true false true false 4 false) None 30000 3 demo_policy.
Definition demo_me_endpoint : SocketAddr := mkSocketAddr (V4 [149; 154; 175; 50]) 8888.
Definition demo_map_v4 : ProxyMap := {[2 := [(V4 [149; 154; 175; 50], 8888)]]}.
Definition demo_pool_new : MePool := MePool_new demo_pool_cfg 6 Stats_new (repeat 85 40) demo_map_v4 ∅ (Some 2) 25 120 80.

(** Two writers to one endpoint, the second of a newer generation, and a client. *)
Definition demo_pool : MePool :=
  let p := register_writer demo_pool_new demo_me_endpoint 1 0 Active in
  let p := register_writer p demo_me_endpoint 1 0 Active in
  with_registry p (snd (register (mp_registry p))).

Lemma demo_pool_ok : pool_ok demo_pool.
Proof.
  apply (op_steps_ok demo_pool_new); [|apply MePool_new_ok].
  eapply rtc_l; [apply (ps_new demo_pool_new demo_me_endpoint 1 0 Active); vm_compute; reflexivity|].
  eapply rtc_l; [apply (ps_new _ demo_me_endpoint 1 0 Active); vm_compute; reflexivity|].
  apply rtc_once, ps_registry; [apply st_register|done].
Qed.

(** Two connections are under way at once, the second entered first; then a reader drops the first one's writer before any
    removal takes it: the count stays at two with one writer left. *)
Definition demo_tasks : Tasks :=
  let p := push_writer (push_writer (reserve_id (reserve_id demo_pool_new)) 2 demo_me_endpoint 1 0 Active) 1 demo_me_endpoint 1 0 Active in
  mkTasks (reader_retain (count_writer (count_writer p)) 1) ∅ 0 1.

Lemma demo_tasks_run : rtc pool_step (mkTasks demo_pool_new ∅ 0 0) demo_tasks.
Proof.
  eapply rtc_l; [by apply pt_reserve|]. eapply rtc_l; [by apply pt_reserve|].
  eapply rtc_l; [apply (pt_push _ _ _ _ 2 demo_me_endpoint 1 0 Active); vm_compute; done|].
  eapply rtc_l; [apply (pt_push _ _ _ _ 1 demo_me_endpoint 1 0 Active); vm_compute; done|].
  eapply rtc_l; [by apply pt_count|]. eapply rtc_l; [by apply pt_count|].
  apply rtc_once. exact (pt_retain _ ∅ 0 0 1).
Qed.

Lemma pool_accounting_witness :
  mp_conn_count (tk_pool demo_tasks) = (zlen (mp_writers (tk_pool demo_tasks)) - 0 + 1) mod 2 ^ 64 /\
  (mp_conn_count (tk_pool demo_tasks), mw_id <$> mp_writers (tk_pool demo_tasks)) = (2, [2]).
Proof.
  split; [|vm_compute; reflexivity].
  exact (proj1 (pool_accounting demo_pool_cfg 6 Stats_new (repeat 85 40) demo_map_v4 ∅ (Some 2) 25 120 80 demo_tasks demo_tasks_run)).
Defined.

Lemma writer_removal_exact_witness :
  let p' := remove_writer_and_close_clients demo_pool_env demo_pool 1 in
  mw_id <$> mp_writers p' = [2] /\ mp_conn_count p' = 1.
Proof.
  intros p'.
  destruct (writer_removal_exact demo_pool_env demo_pool 1 demo_pool_ok ltac:(intros c; vm_compute; discriminate)) as (H1 & H2 & _).
  subst p'. split; [rewrite H1; vm_compute; reflexivity|rewrite H2, H1; vm_compute; reflexivity].
Defined.

End PoolWitnesses.
