(* ===== verification/MeSend.v ===== *)
(** * Sending through the pool: [transport/middle_proxy/send.rs]

    A request goes to the writer of its connection; an unbound connection is bound to a writer chosen for the data
    centre.  Between any two atomic actions the other tasks may act: [other n] is what they do before the n-th
    observation of the call, [env n] what the call observes there (clocks, connection attempts, waits, the order of a
    hash map), and [notified n] whether the wait for a new writer is ended by one.  Indices into the snapshot of the
    writer list stand as the writers themselves. *)

From stdpp Require Import gmap.
From S2P Require Import Prelude NetAddr Errors Constants RpcCodec Stun NetProbe MeNat Stats Wire MeHandshake Registry MePool.

(** ** The candidates for a data centre (send.rs:278-370) *)

Definition writer_eligible_for_selection (epoch_secs : Z) (p : MePool) (include_warm : bool) (w : MeWriter) : bool :=
  if negb (writer_accepts_new_binding epoch_secs p w) then false
  else
    match WriterContour_from_u8 (ws_contour (shared p (mw_id w))) with
    | Active => true
    | Warm => include_warm
    | Draining => true
    end.

Definition writer_contour_rank_for_selection (p : MePool) (w : MeWriter) : Z :=
  match WriterContour_from_u8 (ws_contour (shared p (mw_id w))) with Active => 0 | Warm => 1 | Draining => 2 end.

Definition endpoints_of (entry : option (list (IpAddr * Z))) : list SocketAddr :=
  (fun a => mkSocketAddr a.1 a.2) <$> default [] entry.

Definition if_empty {A} (l m : list A) : list A := match l with [] => m | _ => l end.

Fixpoint preferred_endpoints (p : MePool) (key : Z) (families : list IpFamily) (preferred : list SocketAddr) : list SocketAddr :=
  match families with
  | [] => preferred
  | family :: families =>
      let map := proxy_map_for_family p family in
      let preferred := preferred ++ endpoints_of (map !! key) in
      let preferred := if_empty preferred (endpoints_of (map !! Z.abs key)) in
      let preferred := if_empty preferred (endpoints_of (map !! (- Z.abs key))) in
      let def := default_dc (mp_maps p) in
      let preferred := if_empty preferred (if def =? 0 then [] else endpoints_of (map !! def)) in
      if negb (bool_decide (preferred = [])) && negb (effective_multipath (pc_decision (mp_cfg p))) then preferred
      else preferred_endpoints p key families preferred
  end.

Definition candidate_indices_for_dc (epoch_secs : Z) (p : MePool) (writers : list MeWriter) (target_dc : Z)
    (include_warm : bool) : list MeWriter :=
  let eligible := filter (fun w => writer_eligible_for_selection epoch_secs p include_warm w = true) writers in
  let preferred := preferred_endpoints p target_dc (family_order p) [] in
  if bool_decide (preferred = []) then eligible
  else
    let out := filter (fun w => mw_addr w ∈ preferred) eligible in
    if_empty out eligible.

(** ** The order of the candidates (send.rs:156-190) *)

(** The orders of the standard library: on [IpAddr] and [SocketAddr], and lexicographic on tuples. *)
Definition ip_cmp (a b : IpAddr) : comparison :=
  match a, b with
  | V4 _, V6 _ => Lt
  | V6 _, V4 _ => Gt
  | V4 x, V4 y | V6 x, V6 y => if bool_decide (x = y) then Eq else if bytes_leb x y then Lt else Gt
  end.
Definition addr_cmp (a b : SocketAddr) : comparison :=
  match ip_cmp (sa_ip a) (sa_ip b) with Eq => sa_port a ?= sa_port b | c => c end.

Definition then_cmp (c d : comparison) : comparison := match c with Eq => d | _ => c end.

Definition selection_cmp (p : MePool) (l r : MeWriter) : comparison :=
  let stale w := Z.b2z (mw_generation w <? current_generation p) in
  let degraded w := Z.b2z (ws_degraded (shared p (mw_id w))) in
  then_cmp (writer_contour_rank_for_selection p l ?= writer_contour_rank_for_selection p r)
    (then_cmp (stale l ?= stale r)
       (then_cmp (degraded l ?= degraded r) (tx_capacity p (mw_id r) ?= tx_capacity p (mw_id l)))).

Definition deterministic_cmp (p : MePool) (l r : MeWriter) : comparison :=
  then_cmp (selection_cmp p l r) (then_cmp (addr_cmp (mw_addr l) (mw_addr r)) (mw_id l ?= mw_id r)).

(** A stable sort. *)
Fixpoint insert_by {A} (cmp : A -> A -> comparison) (x : A) (l : list A) : list A :=
  match l with
  | [] => [x]
  | y :: l => match cmp x y with Gt => y :: insert_by cmp x l | _ => x :: y :: l end
  end.
Definition sort_by {A} (cmp : A -> A -> comparison) (l : list A) : list A := foldr (insert_by cmp) [] l.

Definition sort_candidates (p : MePool) (candidates : list MeWriter) : list MeWriter :=
  if deterministic_writer_sort (pc_policy (mp_cfg p)) then sort_by (deterministic_cmp p) candidates
  else sort_by (selection_cmp p) candidates.

(** The elements from index [start] on, then those before it. *)
Definition rotate_from {A} (start : Z) (l : list A) : list A := zdrop start l ++ ztake start l.

(** ** Actions of a call *)

Record World := mkWorld { wd_pool : MePool; wd_n : nat }.

Definition SendM (A : Type) : Type := World -> A * World.
#[global] Instance SendM_ret : MRet SendM := fun A a w => (a, w).
#[global] Instance SendM_bind : MBind SendM := fun A B f m w => let '(a, w) := m w in f a w.

Definition get_pool : SendM MePool := fun w => (wd_pool w, w).
(** An atomic action on the pool. *)
Definition atomically {A} (f : MePool -> A * MePool) : SendM A :=
  fun w => let '(a, p) := f (wd_pool w) in (a, mkWorld p (wd_n w)).
Definition modify (f : MePool -> MePool) : SendM unit := atomically (fun p => (tt, f p)).

Section Send.
Variable env : nat -> PoolEnv.
Variable other : nat -> MePool -> MePool.
Variable notified : nat -> bool.

Definition observe : SendM PoolEnv := fun w => (env (wd_n w), mkWorld (other (wd_n w) (wd_pool w)) (S (wd_n w))).
Definition wait_notified : SendM bool := fun w => (notified (wd_n w), mkWorld (other (wd_n w) (wd_pool w)) (S (wd_n w))).

Definition remove_writer (writer_id : Z) : SendM unit :=
  e ← observe; modify (fun p => remove_writer_and_close_clients e p writer_id).

(** The endpoints of one entry, up to the first that can be connected. *)
Fixpoint connect_first (addrs : list (IpAddr * Z)) : SendM unit :=
  match addrs with
  | [] => mret tt
  | a :: addrs =>
      e ← observe;
      r ← atomically (fun p => connect_one e p (mkSocketAddr a.1 a.2));
      match r with Ok _ => mret tt | Err _ => connect_first addrs end
  end.

Fixpoint for_each {A} (f : A -> SendM unit) (l : list A) : SendM unit :=
  match l with [] => mret tt | a :: l => f a ≫= fun _ => for_each f l end.

(** The writer list is empty (send.rs:72-102): every data centre of the maps is tried. *)
Definition recover_family (family : IpFamily) : SendM unit :=
  e ← observe;
  p ← get_pool;
  for_each (fun entry => connect_first entry.2) (pe_map_order e (proxy_map_for_family p family)).

(** What becomes of a turn of the loop: the call returns, or goes on with a number of emergency attempts. *)
Inductive turn := Return (r : result ProxyError unit) | Continue (emergency_attempts : Z).

Definition recover (emergency_attempts : Z) : SendM turn :=
  p ← get_pool;
  _ ← for_each recover_family (family_order p);
  _ ← observe;
  p ← get_pool;
  if negb (bool_decide (mp_writers p = [])) then mret (Continue emergency_attempts)
  else
    woken ← wait_notified;
    p ← get_pool;
    if (woken : bool) then mret (Continue emergency_attempts)
    else if negb (bool_decide (mp_writers p = [])) then mret (Continue emergency_attempts)
    else mret (Return (Err (PE_Proxy "All ME connections dead (waited 3s)"))).

(** Both looks for candidates: without, then with warm writers. *)
Definition find_candidates (snapshot : list MeWriter) (target_dc : Z) : SendM (list MeWriter) :=
  e ← observe;
  p ← get_pool;
  match candidate_indices_for_dc (pe_epoch_secs e) p snapshot target_dc false with
  | [] =>
      e ← observe;
      p ← get_pool;
      mret (candidate_indices_for_dc (pe_epoch_secs e) p snapshot target_dc true)
  | candidates => mret candidates
  end.

(** Connecting on demand (send.rs:113-154): the families in order, up to the first that brings candidates. *)
Fixpoint emergency_connect (target_dc : Z) (families : list IpFamily) : SendM (list MeWriter) :=
  match families with
  | [] => mret []
  | family :: families =>
      e ← observe;
      p ← get_pool;
      match proxy_map_for_family p family !! target_dc with
      | None => emergency_connect target_dc families
      | Some addrs =>
          _ ← connect_first (pe_shuffle e addrs);
          _ ← observe;
          p ← get_pool;
          candidates ← find_candidates (mp_writers p) target_dc;
          match candidates with [] => emergency_connect target_dc families | _ => mret candidates end
      end
  end.

Variable conn_id : Z.
Variable payload : bytes.
Variable meta : ConnMeta.

Definition bind_to (w : MeWriter) : SendM unit :=
  _ ← observe;
  _ ← modify (fun p => with_registry p (bind_writer (mp_registry p) conn_id (mw_id w) (mw_id w) meta));
  modify (fun p => if mw_generation w <? current_generation p then with_stats p (increment_pool_stale_pick_total (mp_stats p)) else p).

(** One pass over the candidates (send.rs:193-229): [inl] when the request is sent, [inr] the first full one. *)
Fixpoint try_candidates (candidates : list MeWriter) (fallback : option MeWriter) : SendM (unit + option MeWriter) :=
  match candidates with
  | [] => mret (inr fallback)
  | w :: candidates =>
      e ← observe;
      p ← get_pool;
      if negb (writer_accepts_new_binding (pe_epoch_secs e) p w) then try_candidates candidates fallback
      else
        match try_send_cmd p (mw_id w) (WData payload) with
        | TsOk p => _ ← modify (fun _ => p); _ ← bind_to w; mret (inl tt)
        | TsFull => try_candidates candidates (match fallback with None => Some w | _ => fallback end)
        | TsClosed => _ ← remove_writer (mw_id w); try_candidates candidates fallback
        end
  end.

(** The blocking fallback (send.rs:231-253). *)
Definition send_blocking (w : MeWriter) (emergency_attempts : Z) : SendM turn :=
  e ← observe;
  p ← get_pool;
  if negb (writer_accepts_new_binding (pe_epoch_secs e) p w) then mret (Continue emergency_attempts)
  else
    e ← observe;
    sent ← atomically (fun p => send_cmd (pe_send_wait e (mw_id w)) p (mw_id w) (WData payload));
    if (sent : bool) then _ ← bind_to w; mret (Return (Ok tt))
    else _ ← remove_writer (mw_id w); mret (Continue emergency_attempts).

Definition use_candidates (candidates : list MeWriter) (emergency_attempts : Z) : SendM turn :=
  candidates ← atomically (fun p =>
    let sorted := sort_candidates p candidates in
    (rotate_from (mp_rr p mod zlen sorted) sorted, with_rr p (u64 (mp_rr p + 1))));
  r ← try_candidates candidates None;
  match r with
  | inl _ => mret (Return (Ok tt))
  | inr None => mret (Continue emergency_attempts)
  | inr (Some w) => send_blocking w emergency_attempts
  end.

Definition no_writers : ProxyError := PE_Proxy "No ME writers available for target DC".

(** Without a writer of its own (send.rs:70-253). *)
Definition choose_writer (target_dc emergency_attempts : Z) : SendM turn :=
  _ ← observe;
  p ← get_pool;
  match mp_writers p with
  | [] => recover emergency_attempts
  | snapshot =>
      candidates ← find_candidates snapshot target_dc;
      match candidates with
      | [] =>
          if 3 <=? emergency_attempts then mret (Return (Err no_writers))
          else
            p ← get_pool;
            candidates ← emergency_connect target_dc (family_order p);
            match candidates with
            | [] => mret (Return (Err no_writers))
            | _ => use_candidates candidates (emergency_attempts + 1)
            end
      | _ => use_candidates candidates emergency_attempts
      end
  end.

(** One turn of the loop (send.rs:50-254). *)
Definition send_turn (target_dc emergency_attempts : Z) : SendM turn :=
  e ← observe;
  p ← get_pool;
  match get_writer (mp_registry p) conn_id with
  | Some current =>
      match try_send_cmd p (cwr_tx current) (WData payload) with
      | TsOk p => _ ← modify (fun _ => p); mret (Return (Ok tt))
      | TsFull =>
          e ← observe;
          sent ← atomically (fun p => send_cmd (pe_send_wait e (cwr_tx current)) p (cwr_tx current) (WData payload));
          if (sent : bool) then mret (Return (Ok tt))
          else _ ← remove_writer (cwr_writer_id current); mret (Continue emergency_attempts)
      | TsClosed => _ ← remove_writer (cwr_writer_id current); mret (Continue emergency_attempts)
      end
  | None => choose_writer target_dc emergency_attempts
  end.

Fixpoint send_loop (fuel : nat) (target_dc emergency_attempts : Z) : World -> option (result ProxyError unit * World) :=
  match fuel with
  | O => fun _ => None
  | S fuel => fun w =>
      let '(t, w) := send_turn target_dc emergency_attempts w in
      match t with
      | Return r => Some (r, w)
      | Continue emergency_attempts => send_loop fuel target_dc emergency_attempts w
      end
  end.

End Send.

(** [send_proxy_req] (send.rs:23-255) *)
Definition send_proxy_req (env : nat -> PoolEnv) (other : nat -> MePool -> MePool) (notified : nat -> bool) (fuel : nat)
    (conn_id target_dc : Z) (client_addr our_addr : SocketAddr) (data : bytes) (proto_flags : Z) (tag_override : option bytes)
    (w : World) : option (result ProxyError unit * World) :=
  let tag := option_or tag_override (pc_proxy_tag (mp_cfg (wd_pool w))) in
  let payload := build_proxy_req_payload conn_id client_addr our_addr data tag proto_flags in
  let meta := mkConnMeta target_dc client_addr our_addr proto_flags in
  send_loop env other notified conn_id payload meta fuel target_dc 0 w.

(** [send_close] (send.rs:257-272) *)
Definition send_close (env : nat -> PoolEnv) (other : nat -> MePool -> MePool) (conn_id : Z) : SendM (result ProxyError unit) :=
  e ← observe env other;
  p ← get_pool;
  _ ← match get_writer (mp_registry p) conn_id with
      | Some w =>
          let close := le_bytes 4 RPC_CLOSE_EXT_U32 ++ le_bytes 8 conn_id in
          e ← observe env other;
          sent ← atomically (fun p => send_cmd (pe_send_wait e (cwr_tx w)) p (cwr_tx w) (WDataAndFlush close));
          if (sent : bool) then mret tt else remove_writer env other (cwr_writer_id w)
      | None => mret tt
      end;
  _ ← observe env other;
  _ ← modify (fun p => with_registry p (snd (unregister (mp_registry p) conn_id)));
  mret (Ok tt).

(** ** What a call adds to the command channels *)

Section ExactlyOnce.
Variable env : nat -> PoolEnv.
Variable other : nat -> MePool -> MePool.
Variable notified : nat -> bool.
Variable conn_id : Z.
Variable payload : bytes.
Variable meta : ConnMeta.

(** The copies of the request among all commands. *)
Definition copies (p : MePool) : list (Z * WriterCommand) := filter (fun e => e.2 = WData payload) (mp_history p).

Hypothesis others_do_not_send : forall n p, copies (other n p) = copies p.

(** An action adds one copy when its result satisfies [sent], and none otherwise. *)
Definition sends {A} (sent : A -> bool) (m : SendM A) : Prop :=
  forall w, let '(a, w') := m w in
    if sent a then exists id, copies (wd_pool w') = copies (wd_pool w) ++ [(id, WData payload)]
    else copies (wd_pool w') = copies (wd_pool w).

Abbreviation quiet := (sends (fun _ => false)) (only parsing).

Lemma sends_ret {A} (sent : A -> bool) a : sent a = false -> sends sent (mret a).
Proof. intros E w. cbn. by rewrite E. Qed.

Lemma sends_bind {A B} (sent : B -> bool) (m : SendM A) (f : A -> SendM B) :
  quiet m -> (forall a, sends sent (f a)) -> sends sent (m ≫= f).
Proof.
  intros Hm Hf w. specialize (Hm w). unfold mbind, SendM_bind. destruct (m w) as [a w1]. specialize (Hf a w1).
  destruct (f a w1) as [b w2]. cbn in Hm. by rewrite Hm in Hf.
Qed.

(** The copy may be added by the first part, when what follows adds none. *)
Lemma sends_first {A B} (sent : A -> bool) (sent' : B -> bool) (m : SendM A) (f : A -> SendM B) :
  sends sent m -> (forall a, if sent a then quiet (f a) /\ (forall w, sent' (fst (f a w)) = true) else sends sent' (f a)) ->
  sends sent' (m ≫= f).
Proof.
  intros Hm Hf w. specialize (Hm w). unfold mbind, SendM_bind. destruct (m w) as [a w1]. specialize (Hf a).
  destruct (sent a).
  - destruct Hf as [Hq Ht]. specialize (Hq w1). specialize (Ht w1). destruct (f a w1) as [b w2]. cbn in *. rewrite Ht.
    destruct Hm as [id Hm]. exists id. by rewrite Hq, Hm.
  - specialize (Hf w1). destruct (f a w1) as [b w2]. by rewrite Hm in Hf.
Qed.

Lemma sends_observe : quiet (observe env other).
Proof. intros w. cbn. apply others_do_not_send. Qed.
Lemma sends_wait : quiet (wait_notified other notified).
Proof. intros w. cbn. apply others_do_not_send. Qed.
Lemma sends_get : quiet get_pool.
Proof. by intros w. Qed.
Lemma sends_atomically {A} (f : MePool -> A * MePool) : (forall p, copies (snd (f p)) = copies p) -> quiet (atomically f).
Proof. intros H w. unfold atomically. specialize (H (wd_pool w)). by destruct (f _). Qed.
Lemma sends_modify (f : MePool -> MePool) : (forall p, copies (f p) = copies p) -> quiet (modify f).
Proof. intros H. by apply sends_atomically. Qed.

Lemma copies_push p id cmd :
  copies (push_command p id cmd) = if decide (cmd = WData payload) then copies p ++ [(id, cmd)] else copies p.
Proof.
  unfold copies. cbn [push_command with_history mp_history]. rewrite filter_app, filter_cons, filter_nil. cbn [snd].
  case_decide; [done|by rewrite app_nil_r].
Qed.

Lemma copies_send_cmd wait p id cmd :
  let '(ok, p') := send_cmd wait p id cmd in
  if ok && bool_decide (cmd = WData payload) then copies p' = copies p ++ [(id, WData payload)] else copies p' = copies p.
Proof.
  assert (forall q, copies q = copies p -> if true && bool_decide (cmd = WData payload) then
    copies (push_command q id cmd) = copies p ++ [(id, WData payload)] else copies (push_command q id cmd) = copies p) as H.
  { intros q E. rewrite copies_push, E. case_bool_decide; case_decide; try done. by subst. }
  unfold send_cmd, try_send_cmd. destruct (tx_is_closed p id); [done|]. destruct (tx_capacity p id <=? 0); [|by apply H].
  destruct wait; [by apply H|done].
Qed.

Lemma copies_remove e p id : copies (remove_writer_and_close_clients e p id) = copies p.
Proof.
  unfold remove_writer_and_close_clients. rewrite remove_writer_only_eq.
  change (copies (after_removal e (snd (take_writer p id)) id (fst (take_writer p id))) = copies p).
  assert (copies (snd (take_writer p id)) = copies p) as E by (unfold take_writer; by destruct (find_writer _ id)).
  rewrite <-E. generalize (snd (take_writer p id)), (fst (take_writer p id)). intros q [[w d]|]; [|done]. cbn [after_removal].
  pose proof (copies_send_cmd (pe_send_wait e id) q id WClose) as H. destruct (send_cmd _ q id WClose) as [ok q']. cbn [snd].
  rewrite bool_decide_eq_false_2, andb_false_r in H by done. destruct d; [done|]. rewrite <-H.
  unfold maybe_quarantine_flapping_endpoint. by destruct (_ <? _).
Qed.

Lemma sends_remove id : quiet (remove_writer env other id).
Proof. apply sends_bind; [apply sends_observe|]. intros e. apply sends_modify. intros p. apply copies_remove. Qed.

Lemma sends_connect_first addrs : quiet (connect_first env other addrs).
Proof.
  induction addrs as [|a addrs IH]; cbn [connect_first]; [by apply sends_ret|].
  apply sends_bind; [apply sends_observe|]. intros e. apply sends_bind.
  - apply sends_atomically. intros p. unfold connect_one, connect_one_with_generation_contour. case_match; [done|]. by case_match.
  - intros [[]|err]; [by apply sends_ret|done].
Qed.

Lemma sends_for_each {A} (f : A -> SendM unit) l : (forall a, quiet (f a)) -> quiet (for_each f l).
Proof. intros Hf. induction l as [|a l IH]; cbn [for_each]; [by apply sends_ret|]. by apply sends_bind. Qed.

Lemma sends_candidates snapshot dc : quiet (find_candidates env other snapshot dc).
Proof.
  apply sends_bind; [apply sends_observe|]. intros e. apply sends_bind; [apply sends_get|]. intros p. case_match; [|by apply sends_ret].
  apply sends_bind; [apply sends_observe|]. intros e'. apply sends_bind; [apply sends_get|]. intros p'. by apply sends_ret.
Qed.

Lemma sends_emergency dc families : quiet (emergency_connect env other dc families).
Proof.
  induction families as [|family families IH]; cbn [emergency_connect]; [by apply sends_ret|].
  apply sends_bind; [apply sends_observe|]. intros e. apply sends_bind; [apply sends_get|]. intros p. case_match; [|done].
  apply sends_bind; [apply sends_connect_first|]. intros _. apply sends_bind; [apply sends_observe|]. intros e'.
  apply sends_bind; [apply sends_get|]. intros p'. apply sends_bind; [apply sends_candidates|]. intros [|]; [done|by apply sends_ret].
Qed.

Definition returned_ok (t : turn) : bool := match t with Return (Ok _) => true | _ => false end.

Lemma sends_recover attempts : sends returned_ok (recover env other notified attempts).
Proof.
  apply sends_bind; [apply sends_get|]. intros p. apply sends_bind.
  { apply sends_for_each. intros family. apply sends_bind; [apply sends_observe|]. intros e.
    apply sends_bind; [apply sends_get|]. intros q. apply sends_for_each. intros entry. apply sends_connect_first. }
  intros _. apply sends_bind; [apply sends_observe|]. intros e. apply sends_bind; [apply sends_get|]. intros q.
  case_match; [by apply sends_ret|]. apply sends_bind; [apply sends_wait|]. intros woken.
  apply sends_bind; [apply sends_get|]. intros r. destruct woken; [by apply sends_ret|]. case_match; by apply sends_ret.
Qed.

Lemma sends_bind_to w : quiet (bind_to env other conn_id meta w).
Proof.
  apply sends_bind; [apply sends_observe|]. intros e. apply sends_bind; [by apply sends_modify|]. intros _.
  apply sends_modify. intros p. by case_match.
Qed.

Definition is_inl {A B} (s : A + B) : bool := match s with inl _ => true | inr _ => false end.

(** Handing the request to a channel, with what follows it. *)
Lemma sends_try_send {B} (sent : B -> bool) id (ok : SendM B) (full closed : SendM B) :
  quiet ok -> (forall w, sent (fst (ok w)) = true) -> sends sent full -> sends sent closed ->
  forall w, let '(a, w') := (match try_send_cmd (wd_pool w) id (WData payload) with
                             | TsOk p => _ ← modify (fun _ => p); ok
                             | TsFull => full
                             | TsClosed => closed
                             end) w in
    if sent a then exists id, copies (wd_pool w') = copies (wd_pool w) ++ [(id, WData payload)]
    else copies (wd_pool w') = copies (wd_pool w).
Proof.
  intros Hok Ht Hfull Hclosed w. unfold try_send_cmd. destruct (tx_is_closed _ id); [apply Hclosed|].
  destruct (tx_capacity _ id <=? 0); [apply Hfull|]. unfold mbind, SendM_bind, modify, atomically. lazy beta iota zeta.
  set (w1 := mkWorld _ _). specialize (Hok w1). specialize (Ht w1). destruct (ok w1) as [b w2]. lazy beta iota in Hok. cbn [fst] in Ht. rewrite Ht, Hok.
  exists id. unfold w1. cbn [wd_pool]. rewrite copies_push. by rewrite decide_True.
Qed.

Lemma sends_get_then {B} (sent : B -> bool) (f : MePool -> SendM B) :
  (forall w, let '(a, w') := f (wd_pool w) w in
     if sent a then exists id, copies (wd_pool w') = copies (wd_pool w) ++ [(id, WData payload)]
     else copies (wd_pool w') = copies (wd_pool w)) -> sends sent (get_pool ≫= f).
Proof. intros H w. apply H. Qed.

Lemma sends_try_candidates cands : forall fallback, sends is_inl (try_candidates env other conn_id payload meta cands fallback).
Proof.
  induction cands as [|w cands IH]; intros fallback; cbn [try_candidates]; [by apply sends_ret|].
  apply sends_bind; [apply sends_observe|]. intros e. apply sends_get_then. intros wd. destruct (negb _); [apply IH|].
  apply (sends_try_send is_inl (mw_id w) (_ ← bind_to env other conn_id meta w; mret (inl tt))).
  - apply sends_bind; [apply sends_bind_to|]. intros _. by apply sends_ret.
  - intros w'. unfold mbind, SendM_bind. by destruct (bind_to _ _ _ _ _ w').
  - apply IH.
  - apply sends_bind; [apply sends_remove|]. intros _. apply IH.
Qed.

(** Waiting for room in a channel. *)
Lemma sends_blocking_cmd wait id :
  sends (fun ok : bool => ok) (atomically (fun p => send_cmd wait p id (WData payload))).
Proof.
  intros w. unfold atomically. pose proof (copies_send_cmd wait (wd_pool w) id (WData payload)) as H.
  destruct (send_cmd _ _ _ _) as [ok p']. rewrite bool_decide_eq_true_2, andb_true_r in H by done. cbn [wd_pool].
  destruct ok; [by exists id|done].
Qed.

Lemma sends_send_blocking w attempts : sends returned_ok (send_blocking env other conn_id payload meta w attempts).
Proof.
  apply sends_bind; [apply sends_observe|]. intros e. apply sends_bind; [apply sends_get|]. intros p.
  case_match; [by apply sends_ret|]. apply sends_bind; [apply sends_observe|]. intros e'.
  apply (sends_first (fun ok : bool => ok)); [apply sends_blocking_cmd|]. intros [|].
  - split; [apply sends_bind; [apply sends_bind_to|]; intros _; by apply sends_ret|].
    intros w'. unfold mbind, SendM_bind. by destruct (bind_to _ _ _ _ _ w').
  - apply sends_bind; [apply sends_remove|]. intros _. by apply sends_ret.
Qed.

Lemma sends_use_candidates cands attempts : sends returned_ok (use_candidates env other conn_id payload meta cands attempts).
Proof.
  apply sends_bind; [by apply sends_atomically|]. intros sorted. apply (sends_first is_inl); [apply sends_try_candidates|].
  intros [[]|[w|]]; cbn [is_inl]; [split; [by apply sends_ret|done]|apply sends_send_blocking|by apply sends_ret].
Qed.

Lemma sends_choose_writer dc attempts : sends returned_ok (choose_writer env other notified conn_id payload meta dc attempts).
Proof.
  apply sends_bind; [apply sends_observe|]. intros e. apply sends_bind; [apply sends_get|]. intros p.
  destruct (mp_writers p); [apply sends_recover|]. apply sends_bind; [apply sends_candidates|]. intros [|]; [|apply sends_use_candidates].
  case_match; [by apply sends_ret|]. apply sends_bind; [apply sends_get|]. intros q. apply sends_bind; [apply sends_emergency|].
  intros [|]; [by apply sends_ret|apply sends_use_candidates].
Qed.

Lemma sends_turn dc attempts : sends returned_ok (send_turn env other notified conn_id payload meta dc attempts).
Proof.
  apply sends_bind; [apply sends_observe|]. intros e. apply sends_get_then. intros w.
  destruct (get_writer (mp_registry (wd_pool w)) conn_id) as [current|]; [|apply sends_choose_writer].
  apply (sends_try_send returned_ok (cwr_tx current) (mret (Return (Ok tt)))).
  - by apply sends_ret.
  - done.
  - apply sends_bind; [apply sends_observe|]. intros e'. apply (sends_first (fun ok : bool => ok)); [apply sends_blocking_cmd|].
    intros [|]; [split; [by apply sends_ret|done]|]. apply sends_bind; [apply sends_remove|]. intros _. by apply sends_ret.
  - apply sends_bind; [apply sends_remove|]. intros _. by apply sends_ret.
Qed.

Lemma sends_loop fuel dc : forall attempts w r w',
  send_loop env other notified conn_id payload meta fuel dc attempts w = Some (r, w') ->
  if is_ok r then exists id, copies (wd_pool w') = copies (wd_pool w) ++ [(id, WData payload)]
  else copies (wd_pool w') = copies (wd_pool w).
Proof.
  induction fuel as [|fuel IH]; intros attempts w r w'; cbn [send_loop]; [done|]. pose proof (sends_turn dc attempts w) as Ht.
  destruct (send_turn _ _ _ _ _ _ _ _ w) as [[res|att] w1]; cbn [returned_ok] in Ht.
  - intros [= <- <-]. by destruct res.
  - intros H%IH. by rewrite Ht in H.
Qed.

End ExactlyOnce.

(** C6: a request is sent at most once: whatever the other tasks do in between (short of sending the same request),
    a call that succeeds has put exactly one copy of the request into the command channels, and a call that fails
    none, through all its retries, removals of dead writers and emergency connections. *)
Theorem request_sent_exactly_once env other notified fuel conn_id target_dc client_addr our_addr data proto_flags tag p n r p' n' :
  let payload := build_proxy_req_payload conn_id client_addr our_addr data (option_or tag (pc_proxy_tag (mp_cfg p))) proto_flags in
  (forall k q, copies payload (other k q) = copies payload q) ->
  send_proxy_req env other notified fuel conn_id target_dc client_addr our_addr data proto_flags tag (mkWorld p n) = Some (r, mkWorld p' n') ->
  match r with
  | Ok _ => exists id, copies payload p' = copies payload p ++ [(id, WData payload)]
  | Err _ => copies payload p' = copies payload p
  end.
Proof. intros payload Ho H. apply sends_loop in H; [|exact Ho]. cbn [wd_pool] in H. by destruct r. Qed.

(** ** The choice of a writer *)

Lemma insert_by_perm {A} cmp (x : A) l : insert_by cmp x l ≡ₚ x :: l.
Proof. induction l as [|y l IH]; [done|]. cbn. destruct (cmp x y); [done|done|]. rewrite IH. apply perm_swap. Qed.

Lemma sort_by_perm {A} cmp (l : list A) : sort_by cmp l ≡ₚ l.
Proof. induction l as [|x l IH]; [done|]. cbn. by rewrite insert_by_perm, IH. Qed.

Lemma rotate_from_perm {A} k (l : list A) : rotate_from k l ≡ₚ l.
Proof. unfold rotate_from, zdrop, ztake. rewrite Permutation_app_comm. by rewrite take_drop. Qed.

Lemma sort_candidates_perm p l : sort_candidates p l ≡ₚ l.
Proof. unfold sort_candidates. case_match; apply sort_by_perm. Qed.

(** Only eligible writers are candidates, and when one of them serves an endpoint of the data centre, all do. *)
Lemma candidates_spec epoch p ws dc warm w :
  w ∈ candidate_indices_for_dc epoch p ws dc warm ->
  w ∈ ws /\ writer_eligible_for_selection epoch p warm w = true /\
  forall x, x ∈ ws -> writer_eligible_for_selection epoch p warm x = true ->
    mw_addr x ∈ preferred_endpoints p dc (family_order p) [] -> mw_addr w ∈ preferred_endpoints p dc (family_order p) [].
Proof.
  unfold candidate_indices_for_dc. set (pref := preferred_endpoints p dc (family_order p) []).
  set (el := filter (fun w => writer_eligible_for_selection epoch p warm w = true) ws).
  assert (forall x, x ∈ el <-> writer_eligible_for_selection epoch p warm x = true /\ x ∈ ws) as Hel
    by (intros x; unfold el; by rewrite list_elem_of_filter).
  case_bool_decide as Ep.
  { intros [? ?]%Hel. split_and!; [done|done|]. intros x _ _ Hx. rewrite Ep in Hx. by apply not_elem_of_nil in Hx. }
  destruct (filter (fun w => mw_addr w ∈ pref) el) as [|y l] eqn:Ef; cbn [if_empty].
  - intros [? ?]%Hel. split_and!; [done|done|]. intros x Hx Hxe Hp. exfalso. apply (not_elem_of_nil x). rewrite <-Ef.
    apply list_elem_of_filter. split; [done|]. by apply Hel.
  - rewrite <-Ef. intros [Hw [? ?]%Hel]%list_elem_of_filter. done.
Qed.

Lemma candidates_none epoch p ws dc warm x :
  x ∈ ws -> writer_eligible_for_selection epoch p warm x = true ->
  mw_addr x ∈ preferred_endpoints p dc (family_order p) [] -> x ∈ candidate_indices_for_dc epoch p ws dc warm.
Proof.
  intros Hx He Hp. unfold candidate_indices_for_dc. rewrite bool_decide_eq_false_2 by (intros E; rewrite E in Hp; by apply not_elem_of_nil in Hp).
  assert (x ∈ filter (fun w => mw_addr w ∈ preferred_endpoints p dc (family_order p) [])
                (filter (fun w => writer_eligible_for_selection epoch p warm w = true) ws)) as H.
  { apply list_elem_of_filter. split; [done|]. by apply list_elem_of_filter. }
  destruct (filter _ (filter _ ws)); [by apply not_elem_of_nil in H|done].
Qed.

(** A writer that takes new connections: in the active set, not draining, its task alive and with room. *)
Definition live (p : MePool) (w : MeWriter) : Prop :=
  ws_draining (shared p (mw_id w)) = false /\ ws_contour (shared p (mw_id w)) = 1 /\
  ws_open (shared p (mw_id w)) = true /\ 0 < tx_capacity p (mw_id w).

Lemma live_accepts epoch p w : live p w -> writer_accepts_new_binding epoch p w = true.
Proof. intros (Hd & _). unfold writer_accepts_new_binding. by rewrite Hd. Qed.

Lemma live_eligible epoch p w warm : live p w -> writer_eligible_for_selection epoch p warm w = true.
Proof.
  intros H. unfold writer_eligible_for_selection. rewrite live_accepts by done. cbn [negb]. destruct H as (_ & -> & _). done.
Qed.

(** Removing a writer whose task is gone leaves the rest of the pool as it was. *)
Lemma remove_closed e p id w :
  ws_open (shared p id) = false -> live p w ->
  let p' := remove_writer_and_close_clients e p id in mp_history p' = mp_history p /\ live p' w.
Proof.
  intros Hc Hl p'. assert (mw_id w <> id) as Hne by (intros E; destruct Hl as (_ & _ & Ho & _); congruence).
  assert (mp_history p' = mp_history p /\ shared p' (mw_id w) = shared p (mw_id w)) as [Eh Es].
  { unfold p', remove_writer_and_close_clients. rewrite remove_writer_only_eq.
    set (q := after_removal e (snd (take_writer p id)) id (fst (take_writer p id))).
    change (mp_history q = mp_history p /\ shared q (mw_id w) = shared p (mw_id w)). unfold q, take_writer.
    destruct (find_writer (mp_writers p) id) as [x|]; [|done]. cbn [fst snd after_removal].
    set (q1 := with_conn_count _ _).
    assert (shared q1 id = set_cancelled (shared p id)) as E1 by (unfold q1, shared at 1; cbn; by rewrite lookup_insert_eq).
    assert (send_cmd (pe_send_wait e id) q1 id WClose = (false, q1)) as ->.
    { unfold send_cmd, try_send_cmd, tx_is_closed. rewrite E1. cbn [set_cancelled ws_open]. by rewrite Hc. }
    cbn [snd]. assert (mp_history q1 = mp_history p /\ shared q1 (mw_id w) = shared p (mw_id w)) as H.
    { split; [done|]. unfold q1, shared. cbn. by rewrite lookup_insert_ne. }
    destruct (ws_draining _); [done|]. unfold maybe_quarantine_flapping_endpoint. by destruct (_ <? _). }
  split; [done|]. unfold live, tx_capacity, channel_queue in *. by rewrite Es, Eh.
Qed.

Lemma unbound_iff p c : pool_ok p -> get_writer (mp_registry p) c = None <-> ri_writer_for_conn (cg_inner (mp_registry p)) !! c = None.
Proof.
  intros Hp. unfold get_writer. destruct (ri_writer_for_conn _ !! c) as [w|] eqn:E; [|done]. cbn.
  destruct (ok_registry p Hp) as [_ Hl]. destruct (Hl _ _ E) as [[t ->] _]. done.
Qed.

Lemma remove_unbound e p id c :
  pool_ok p -> get_writer (mp_registry p) c = None ->
  get_writer (mp_registry (remove_writer_and_close_clients e p id)) c = None.
Proof.
  intros Hp Hg. pose proof (op_steps_ok _ _ (remove_writer_steps e p id) Hp) as Hp'. apply unbound_iff in Hg; [|done].
  apply unbound_iff; [done|]. unfold remove_writer_and_close_clients. rewrite remove_writer_only_eq.
  cbn [with_registry mp_registry]. destruct (detach_keeps e p id) as (-> & _).
  match goal with |- context [foldl (close_client e) ?r ?l] => destruct (close_clients_maps e l r) as [_ ->] end.
  case_decide; [done|]. rewrite writer_lost_lookup. by case_decide.
Qed.

Lemma bind_get_writer p c w meta :
  pool_ok p -> get_writer (bind_writer (mp_registry p) c w w meta) c = Some (mkConnWriter w w).
Proof.
  intros Hp. unfold get_writer, bind_writer. cbn [set_inner cg_inner ri_writer_for_conn ri_writers]. rewrite lookup_insert_eq. cbn.
  destruct (ri_writers (cg_inner (mp_registry p)) !! w) as [t|] eqn:E.
  - rewrite E. cbn. by rewrite (ok_handles p Hp _ _ E).
  - by rewrite lookup_insert_eq.
Qed.

(** With nobody interfering, the pass over the candidates ends at one of them when one is live. *)
Lemma try_candidates_live env conn_id payload meta cands : forall fallback p n,
  pool_ok p -> get_writer (mp_registry p) conn_id = None -> (exists w, w ∈ cands /\ live p w) ->
  exists w' p' n', try_candidates env (fun _ q => q) conn_id payload meta cands fallback (mkWorld p n) = (inl tt, mkWorld p' n') /\
    w' ∈ cands /\ mp_history p' = mp_history p ++ [(mw_id w', WData payload)] /\
    get_writer (mp_registry p') conn_id = Some (mkConnWriter (mw_id w') (mw_id w')).
Proof.
  induction cands as [|x cands IH]; intros fallback p n Hp Hg (w & Hw & Hl); [by apply not_elem_of_nil in Hw|].
  cbn [try_candidates]. unfold mbind, SendM_bind, observe, get_pool. lazy beta iota zeta. cbn [wd_pool wd_n].
  assert (live p x \/ (w ∈ cands)) as Hor by (apply elem_of_cons in Hw as [->|]; [by left|by right]).
  destruct (negb (writer_accepts_new_binding _ p x)) eqn:Ea.
  { destruct Hor as [Hx|Hin]; [by rewrite live_accepts in Ea|].
    destruct (IH fallback p (S n) Hp Hg) as (w' & p' & n' & E & H1 & H2); [by exists w|]. exists w', p', n'. split; [exact E|].
    split; [by right|done]. }
  unfold try_send_cmd, tx_is_closed. destruct (ws_open (shared p (mw_id x))) eqn:Eo; cbn [negb].
  - destruct (Z.leb_spec (tx_capacity p (mw_id x)) 0) as [Hc|Hc].
    + destruct Hor as [(_ & _ & _ & ?)|Hin]; [lia|].
      destruct (IH (match fallback with None => Some x | _ => fallback end) p (S n) Hp Hg) as (w' & p' & n' & E & H1 & H2); [by exists w|].
      exists w', p', n'. split; [exact E|]. split; [by right|done].
    + exists x. eexists _, _. split; [reflexivity|]. split; [by left|]. split; [by destruct (_ <? _)|].
      assert (pool_ok (push_command p (mw_id x) (WData payload))) as Hp' by (eapply op_step_ok; [apply ps_command|done]).
      pose proof (bind_get_writer _ conn_id (mw_id x) meta Hp') as Hb. by destruct (_ <? _).
  - destruct Hor as [(_ & _ & ? & _)|Hin]; [congruence|].
    destruct (remove_closed (env (S n)) p (mw_id x) w Eo Hl) as [Eh Hl'].
    destruct (IH fallback (remove_writer_and_close_clients (env (S n)) p (mw_id x)) (S (S n))) as (w' & p' & n' & E & H1 & H2 & H3).
    + eapply op_steps_ok; [apply remove_writer_steps|done].
    + by apply remove_unbound.
    + by exists w.
    + exists w', p', n'. split; [exact E|]. rewrite Eh in H2. split; [by right|done].
Qed.

Lemma use_candidates_live env conn_id payload meta cands attempts p n :
  pool_ok p -> get_writer (mp_registry p) conn_id = None -> (exists w, w ∈ cands /\ live p w) ->
  exists w' p' n', use_candidates env (fun _ q => q) conn_id payload meta cands attempts (mkWorld p n) = (Return (Ok tt), mkWorld p' n') /\
    w' ∈ cands /\ mp_history p' = mp_history p ++ [(mw_id w', WData payload)] /\
    get_writer (mp_registry p') conn_id = Some (mkConnWriter (mw_id w') (mw_id w')).
Proof.
  intros Hp Hg (x & Hx & Hl). unfold use_candidates, mbind, SendM_bind, atomically. lazy beta iota zeta. cbn [wd_pool wd_n].
  set (sorted := sort_candidates p cands). set (order := rotate_from _ sorted). set (q := with_rr p _).
  assert (order ≡ₚ cands) as Hperm by (unfold order, sorted; by rewrite rotate_from_perm, sort_candidates_perm).
  destruct (try_candidates_live env conn_id payload meta order None q n) as (w & p' & n' & E & Hw & Hh & Hb).
  - apply (op_step_ok p); [apply ps_fields; by split|done].
  - done.
  - exists x. split; [by rewrite Hperm|done].
  - rewrite E. rewrite Hperm in Hw. by exists w, p', n'.
Qed.

Lemma find_candidates_first env snapshot dc p n x :
  x ∈ candidate_indices_for_dc (pe_epoch_secs (env n)) p snapshot dc false ->
  find_candidates env (fun _ q => q) snapshot dc (mkWorld p n) =
    (candidate_indices_for_dc (pe_epoch_secs (env n)) p snapshot dc false, mkWorld p (S n)).
Proof.
  intros Hx. unfold find_candidates, mbind, SendM_bind, observe, get_pool. lazy beta iota zeta. cbn [wd_pool wd_n].
  by destruct (candidate_indices_for_dc _ _ _ _ _); [apply not_elem_of_nil in Hx|].
Qed.

(** C39: an unbound connection is served when a writer for its data centre is live and no other task touches the pool
    between the awaits of the call (another task could take the room of that writer's channel, drain it or lose it; what holds
    whatever others do is that nothing is sent twice, below): the call returns in its first turn,
    has put the request, and nothing else, into the channel of one writer, has bound the connection to that writer,
    and the writer is one that takes new connections and serves the data centre. *)
Theorem request_binds_writer env notified fuel conn_id target_dc client_addr our_addr data proto_flags tag p n :
  let payload := build_proxy_req_payload conn_id client_addr our_addr data (option_or tag (pc_proxy_tag (mp_cfg p))) proto_flags in
  let preferred := preferred_endpoints p target_dc (family_order p) [] in
  pool_ok p -> get_writer (mp_registry p) conn_id = None ->
  (exists w, w ∈ mp_writers p /\ live p w /\ mw_addr w ∈ preferred) ->
  exists w p' n',
    send_proxy_req env (fun _ q => q) notified (S fuel) conn_id target_dc client_addr our_addr data proto_flags tag (mkWorld p n)
      = Some (Ok tt, mkWorld p' n') /\
    w ∈ mp_writers p /\ mw_addr w ∈ preferred /\ (exists epoch, writer_eligible_for_selection epoch p false w = true) /\
    mp_history p' = mp_history p ++ [(mw_id w, WData payload)] /\
    get_writer (mp_registry p') conn_id = Some (mkConnWriter (mw_id w) (mw_id w)).
Proof.
  intros payload preferred Hp Hg (x & Hx & Hl & Hpref). unfold send_proxy_req. cbn [wd_pool]. fold payload.
  set (meta := mkConnMeta _ _ _ _). cbn [send_loop]. unfold send_turn, mbind, SendM_bind, observe, get_pool. lazy beta iota zeta.
  cbn [wd_pool wd_n]. rewrite Hg. unfold choose_writer, mbind, SendM_bind, observe, get_pool. lazy beta iota zeta. cbn [wd_pool wd_n].
  set (epoch := pe_epoch_secs (env (S (S n)))).
  pose proof (candidates_none epoch p (mp_writers p) target_dc false x Hx (live_eligible _ _ _ _ Hl) Hpref) as Hin.
  destruct (mp_writers p) as [|w0 ws] eqn:Ews; [by apply not_elem_of_nil in Hx|]. rewrite <-Ews in *.
  rewrite (find_candidates_first env (mp_writers p) target_dc p (S (S n)) x Hin). fold epoch.
  set (cands := candidate_indices_for_dc _ _ _ _ _) in *.
  assert (exists w p' n', use_candidates env (fun _ q => q) conn_id payload meta cands 0 (mkWorld p (S (S (S n)))) =
      (Return (Ok tt), mkWorld p' n') /\ w ∈ cands /\ mp_history p' = mp_history p ++ [(mw_id w, WData payload)] /\
      get_writer (mp_registry p') conn_id = Some (mkConnWriter (mw_id w) (mw_id w))) as (w & p' & n' & E & Hw & Hh & Hb)
    by (apply use_candidates_live; [done|done|by exists x]).
  exists w, p', n'. unfold cands in Hw. apply candidates_spec in Hw as (H1 & H2 & H3). split_and!; try done.
  - destruct cands; [by apply not_elem_of_nil in Hin|]. by rewrite E.
  - apply (H3 x); [done|by apply live_eligible|done].
  - by exists epoch.
Qed.

Lemma unregister_unbound reg c : ri_writer_for_conn (cg_inner (snd (unregister reg c))) !! c = None.
Proof.
  unfold unregister. destruct (ri_writer_for_conn (cg_inner reg) !! c) eqn:E; cbn [snd set_inner cg_inner ri_writer_for_conn];
    [apply lookup_delete_eq|done].
Qed.

(** Closing a bound connection tells the middle proxy, when its writer has room, and removes the connection. *)
Theorem send_close_spec env conn_id p n w :
  pool_ok p -> get_writer (mp_registry p) conn_id = Some w ->
  ws_open (shared p (cwr_tx w)) = true -> 0 < tx_capacity p (cwr_tx w) ->
  exists p' n', send_close env (fun _ q => q) conn_id (mkWorld p n) = (Ok tt, mkWorld p' n') /\
    mp_history p' = mp_history p ++ [(cwr_tx w, WDataAndFlush (le_bytes 4 RPC_CLOSE_EXT_U32 ++ le_bytes 8 conn_id))] /\
    ri_map (cg_inner (mp_registry p')) !! conn_id = None /\ get_writer (mp_registry p') conn_id = None.
Proof.
  intros Hp Hg Ho Hc. unfold send_close, mbind, SendM_bind, observe, get_pool. lazy beta iota zeta. cbn [wd_pool wd_n].
  rewrite Hg. unfold atomically. lazy beta iota zeta. cbn [wd_pool wd_n].
  assert (forall wait cmd, send_cmd wait p (cwr_tx w) cmd = (true, push_command p (cwr_tx w) cmd)) as Es.
  { intros wait cmd. unfold send_cmd, try_send_cmd, tx_is_closed. rewrite Ho. cbn [negb]. by rewrite (proj2 (Z.leb_gt _ _) Hc). }
  rewrite Es. eexists _, _. split; [reflexivity|]. cbn [mp_history mp_registry with_registry push_command with_history].
  split_and!; [done|by rewrite unregister_map, lookup_delete_eq|]. unfold get_writer. by rewrite unregister_unbound.
Qed.

(** ** Examples *)

Section SendWitnesses.

(** A writer that drains, kept as a fallback, is chosen although a fresh one is idle: the candidates are sorted by
    preference, but the pass starts at the place the round-robin counter names. *)
Definition demo_draining_pool : MePool :=
  let p := mark_writer_draining_with_timeout demo_pool_env demo_pool 1 None true in
  with_rr p 1.

Example draining_writer_chosen :
  exists p' n', send_proxy_req (fun _ => demo_pool_env) (fun _ q => q) (fun _ => false) 1 7 2 demo_me_endpoint demo_me_endpoint
      [1; 2; 3; 4] 0 None (mkWorld demo_draining_pool 0) = Some (Ok tt, mkWorld p' n') /\
    cwr_writer_id <$> get_writer (mp_registry p') 7 = Some 1 /\
    mw_id <$> sort_candidates demo_draining_pool (mp_writers demo_draining_pool) = [2; 1] /\
    live demo_draining_pool (mkMeWriter 2 demo_me_endpoint 1 0).
Proof.
  eexists _, _. split; [vm_compute; reflexivity|]. split; [vm_compute; reflexivity|]. split; [vm_compute; reflexivity|].
  split_and!; vm_compute; reflexivity.
Qed.

Lemma request_sent_exactly_once_witness :
  exists p' n' id,
    send_proxy_req (fun _ => demo_pool_env) (fun _ q => q) (fun _ => false) 1 7 2 demo_me_endpoint demo_me_endpoint
      [1; 2; 3; 4] 0 None (mkWorld demo_pool 0) = Some (Ok tt, mkWorld p' n') /\
    copies (build_proxy_req_payload 7 demo_me_endpoint demo_me_endpoint [1; 2; 3; 4] None 0) p' =
      [(id, WData (build_proxy_req_payload 7 demo_me_endpoint demo_me_endpoint [1; 2; 3; 4] None 0))].
Proof.
  eexists _, _.
  destruct (request_sent_exactly_once (fun _ => demo_pool_env) (fun _ q => q) (fun _ => false) 1 7 2 demo_me_endpoint demo_me_endpoint
    [1; 2; 3; 4] 0 None demo_pool 0 (Ok tt) _ _ ltac:(intros; reflexivity) ltac:(vm_compute; reflexivity)) as [id Hid].
  exists id. split; [vm_compute; reflexivity|exact Hid].
Defined.

Lemma request_binds_writer_witness :
  exists w p' n',
    send_proxy_req (fun _ => demo_pool_env) (fun _ q => q) (fun _ => false) 1 7 2 demo_me_endpoint demo_me_endpoint
      [1; 2; 3; 4] 0 None (mkWorld demo_pool 0) = Some (Ok tt, mkWorld p' n') /\
    get_writer (mp_registry p') 7 = Some (mkConnWriter (mw_id w) (mw_id w)).
Proof.
  destruct (request_binds_writer (fun _ => demo_pool_env) (fun _ => false) 0 7 2 demo_me_endpoint demo_me_endpoint [1; 2; 3; 4] 0 None
    demo_pool 0 demo_pool_ok) as (w & p' & n' & E & _ & _ & _ & _ & Hb).
  - vm_compute. reflexivity.
  - exists (mkMeWriter 1 demo_me_endpoint 1 0). split; [vm_compute; left|]. split; [split_and!; vm_compute; reflexivity|].
    vm_compute. left.
  - exists w, p', n'. split; [exact E|exact Hb].
Defined.

End SendWitnesses.
