(* ===== verification/MeRefill.v ===== *)
(** * Refilling the pool: [transport/middle_proxy/pool_refill.rs]

    When a writer is lost a task is started that reconnects to its endpoint, or to another of the same data centre.
    Endpoints whose writers flap are avoided for a while, and two sets keep the tasks apart: the endpoints and the data
    centres that are being refilled.  [env n] is what the n-th observation of a call sees, [other n] what other tasks do
    before it. *)

From stdpp Require Import gmap.
From S2P Require Import Prelude NetAddr Errors Stun NetProbe Stats MeHandshake Registry MePool MeSend.

(** ** Endpoints (pool_refill.rs:40-137, 179-228) *)

Definition is_endpoint_quarantined (now : Z) (p : MePool) (addr : SocketAddr) : bool * MePool :=
  let guard := drop_expired now (mp_quarantine p) in
  (bool_decide (is_Some (guard !! addr)), with_quarantine p guard).

(** The endpoints that are not in quarantine, and the one whose quarantine ends first. *)
Fixpoint split_quarantine (guard : gmap SocketAddr Z) (endpoints ready : list SocketAddr) (earliest : option (SocketAddr * Z))
    : list SocketAddr * option (SocketAddr * Z) :=
  match endpoints with
  | [] => (ready, earliest)
  | addr :: endpoints =>
      match guard !! addr with
      | Some expiry =>
          let earliest := match earliest with
                          | Some (a, current_expiry) => if current_expiry <=? expiry then Some (a, current_expiry) else Some (addr, expiry)
                          | None => Some (addr, expiry)
                          end in
          split_quarantine guard endpoints ready earliest
      | None => split_quarantine guard endpoints (ready ++ [addr]) earliest
      end
  end.

Definition connectable_endpoints (now : Z) (p : MePool) (endpoints : list SocketAddr) : list SocketAddr * MePool :=
  match endpoints with
  | [] => ([], p)
  | _ =>
      let guard := drop_expired now (mp_quarantine p) in
      let '(ready, earliest) := split_quarantine guard endpoints [] None in
      (match ready, earliest with
       | _ :: _, _ => ready
       | [], Some (addr, _) => [addr]
       | [], None => []
       end, with_quarantine p guard)
  end.

Definition lists_addr (addr : SocketAddr) (entry : Z * list (IpAddr * Z)) : bool :=
  existsb (fun a => bool_decide (mkSocketAddr a.1 a.2 = addr)) entry.2.

Definition resolve_refill_dc_key_for_addr (e : PoolEnv) (p : MePool) (addr : SocketAddr) : option RefillDcKey :=
  let family := if is_ipv4 (sa_ip addr) then FamV4 else FamV6 in
  (fun entry => mkRefillDcKey (Z.abs entry.1) family) <$>
    (snd <$> list_find (fun entry => lists_addr addr entry = true) (pe_map_order e (proxy_map_for_family p family))).

Definition resolve_refill_dc_keys_for_endpoints (e : PoolEnv) (p : MePool) (endpoints : list SocketAddr) : gset RefillDcKey :=
  list_to_set (omap (resolve_refill_dc_key_for_addr e p) endpoints).

Definition has_refill_inflight_for_endpoints (e : PoolEnv) (p : MePool) (endpoints : list SocketAddr) : bool :=
  match endpoints with
  | [] => false
  | _ =>
      if existsb (fun addr => bool_decide (addr ∈ (mp_inflight p).1)) endpoints then true
      else
        existsb (fun key => bool_decide (key ∈ (mp_inflight p).2)) (elements (resolve_refill_dc_keys_for_endpoints e p endpoints))
  end.

(** One family's part of [endpoints_for_same_dc]: the data centres that list the address, and the endpoints of all
    data centres found so far. *)
Definition same_dc_of_family (map : ProxyMap) (addr : SocketAddr) (acc : gset Z * gset SocketAddr) : gset Z * gset SocketAddr :=
  let target_dc := acc.1 ∪ list_to_set ((fun entry => Z.abs entry.1) <$> filter (fun entry => lists_addr addr entry = true) (map_to_list map)) in
  let found := elements target_dc ≫= (fun dc => endpoints_of (map !! dc) ++ endpoints_of (map !! (- dc))) in
  (target_dc, acc.2 ∪ list_to_set found).

Definition endpoints_for_same_dc (p : MePool) (addr : SocketAddr) : list SocketAddr :=
  let d := pc_decision (mp_cfg p) in
  let acc := (∅, ∅) in
  let acc := if ipv4_me d then same_dc_of_family (proxy_map_v4 (mp_maps p)) addr acc else acc in
  let acc := if ipv6_me d then same_dc_of_family (proxy_map_v6 (mp_maps p)) addr acc else acc in
  sort_by addr_cmp (elements acc.2).

(** ** Connecting (pool_refill.rs:139-177, 230-290) *)

Section Refill.
Variable env : nat -> PoolEnv.
Variable other : nat -> MePool -> MePool.

Fixpoint connect_in_order (addrs : list SocketAddr) (generation : Z) (contour : WriterContour) : SendM bool :=
  match addrs with
  | [] => mret false
  | addr :: addrs =>
      e ← observe env other;
      r ← atomically (fun p => connect_one_with_generation_contour e p addr generation contour);
      match r with Ok _ => mret true | Err _ => connect_in_order addrs generation contour end
  end.

Definition connect_endpoints_round_robin_with_generation_contour (endpoints : list SocketAddr) (generation : Z)
    (contour : WriterContour) : SendM bool :=
  e ← observe env other;
  candidates ← atomically (fun p => connectable_endpoints (pe_now e) p endpoints);
  match candidates with
  | [] => mret false
  | _ =>
      order ← atomically (fun p => (rotate_from (mp_rr p mod zlen candidates) candidates, with_rr p (u64 (mp_rr p + 1))));
      connect_in_order order generation contour
  end.

Definition connect_endpoints_round_robin (endpoints : list SocketAddr) : SendM bool :=
  p ← get_pool;
  connect_endpoints_round_robin_with_generation_contour endpoints (current_generation p) Active.

Definition count (f : Stats -> Stats) : SendM unit := modify (fun p => with_stats p (f (mp_stats p))).

Fixpoint retry_same_endpoint (attempts : nat) (addr : SocketAddr) : SendM bool :=
  match attempts with
  | O => mret false
  | S attempts =>
      _ ← count increment_me_reconnect_attempt;
      e ← observe env other;
      r ← atomically (fun p => connect_one e p addr);
      match r with
      | Ok _ => _ ← count increment_me_reconnect_success; _ ← count increment_me_writer_restored_same_endpoint_total; mret true
      | Err _ => retry_same_endpoint attempts addr
      end
  end.

Fixpoint retry_dc_endpoints (attempts : nat) (endpoints : list SocketAddr) : SendM bool :=
  match attempts with
  | O => mret false
  | S attempts =>
      _ ← count increment_me_reconnect_attempt;
      ok ← connect_endpoints_round_robin endpoints;
      if (ok : bool) then
        _ ← count increment_me_reconnect_success; _ ← count increment_me_writer_restored_fallback_total; mret true
      else retry_dc_endpoints attempts endpoints
  end.

Definition refill_writer_after_loss (addr : SocketAddr) : SendM bool :=
  p ← get_pool;
  let fast_retries := Z.to_nat (Z.max (pc_reconnect_fast_retry_count (mp_cfg p)) 1) in
  e ← observe env other;
  same_endpoint_quarantined ← atomically (fun p => is_endpoint_quarantined (pe_now e) p addr);
  restored ← if (same_endpoint_quarantined : bool) then mret false else retry_same_endpoint fast_retries addr;
  if (restored : bool) then mret true
  else
    _ ← observe env other;
    p ← get_pool;
    match endpoints_for_same_dc p addr with
    | [] => _ ← count increment_me_refill_failed_total; mret false
    | dc_endpoints =>
        restored ← retry_dc_endpoints fast_retries dc_endpoints;
        if (restored : bool) then mret true else _ ← count increment_me_refill_failed_total; mret false
    end.

End Refill.

(** ** The refill task (pool_refill.rs:292-335)

    [trigger_immediate_refill] spawns it.  It takes its endpoint, then its data centres, or gives up; both are
    released when the refill has ended. *)

Inductive refill_task :=
| RfStarted (addr : SocketAddr)
| RfKeyed (addr : SocketAddr) (dc_keys : gset RefillDcKey)
| RfHoldsAddr (addr : SocketAddr) (dc_keys : gset RefillDcKey)
| RfGivesUp (addr : SocketAddr)
| RfRunning (addr : SocketAddr) (dc_keys : gset RefillDcKey)
| RfReleasing (addr : SocketAddr) (dc_keys : gset RefillDcKey)
| RfReleasingDc (dc_keys : gset RefillDcKey)
| RfDone.

(** One step of a task.  What the refill does to the pool while the task is running happens in steps of the pool; here
    it ends. *)
Definition refill_task_step (e : PoolEnv) (t : refill_task) (p : MePool) : refill_task * MePool :=
  let '(inflight, inflight_dc) := mp_inflight p in
  match t with
  | RfStarted addr => (RfKeyed addr (resolve_refill_dc_keys_for_endpoints e p (endpoints_for_same_dc p addr)), p)
  | RfKeyed addr dc_keys =>
      if decide (addr ∈ inflight) then
        (RfDone, with_stats p (increment_me_refill_skipped_inflight_total (mp_stats p)))
      else (RfHoldsAddr addr dc_keys, with_inflight p ({[addr]} ∪ inflight, inflight_dc))
  | RfHoldsAddr addr dc_keys =>
      if decide (dc_keys ## inflight_dc) then
        (RfRunning addr dc_keys,
         with_stats (with_inflight p (inflight, dc_keys ∪ inflight_dc)) (increment_me_refill_triggered_total (mp_stats p)))
      else (RfGivesUp addr, with_stats p (increment_me_refill_skipped_inflight_total (mp_stats p)))
  | RfGivesUp addr => (RfDone, with_inflight p (inflight ∖ {[addr]}, inflight_dc))
  | RfRunning addr dc_keys => (RfReleasing addr dc_keys, p)
  | RfReleasing addr dc_keys => (RfReleasingDc dc_keys, with_inflight p (inflight ∖ {[addr]}, inflight_dc))
  | RfReleasingDc dc_keys => (RfDone, with_inflight p (inflight, inflight_dc ∖ dc_keys))
  | RfDone => (RfDone, p)
  end.

Record RefillWorld := mkRefillWorld { rw_pool : MePool; rw_tasks : gmap nat refill_task }.

Inductive refill_step : RefillWorld -> RefillWorld -> Prop :=
| rf_spawn p tasks i addr rest :
    mp_refills p = addr :: rest -> tasks !! i = None ->
    refill_step (mkRefillWorld p tasks) (mkRefillWorld (with_refills p rest) (<[i := RfStarted addr]> tasks))
| rf_task p tasks i t e :
    tasks !! i = Some t ->
    refill_step (mkRefillWorld p tasks)
      (mkRefillWorld (snd (refill_task_step e t p)) (<[i := fst (refill_task_step e t p)]> tasks))
| rf_pool p tasks p' : mp_inflight p' = mp_inflight p -> refill_step (mkRefillWorld p tasks) (mkRefillWorld p' tasks).

(** ** Which task holds what *)

Definition held_addr (t : refill_task) : gset SocketAddr :=
  match t with RfHoldsAddr a _ | RfGivesUp a | RfRunning a _ | RfReleasing a _ => {[a]} | _ => ∅ end.
Definition held_keys (t : refill_task) : gset RefillDcKey :=
  match t with RfRunning _ k | RfReleasing _ k | RfReleasingDc k => k | _ => ∅ end.

Section Held.
Context `{Countable X}.
Variable held : refill_task -> gset X.

(** The set is the disjoint union of what the tasks hold. *)
Definition partitioned (tasks : gmap nat refill_task) (s : gset X) : Prop :=
  (forall x, x ∈ s <-> exists i t, tasks !! i = Some t /\ x ∈ held t) /\
  (forall i j ti tj x, tasks !! i = Some ti -> tasks !! j = Some tj -> x ∈ held ti -> x ∈ held tj -> i = j).

Lemma partitioned_acquire tasks s i t' :
  partitioned tasks s -> (forall t, tasks !! i = Some t -> held t = ∅) -> held t' ## s ->
  partitioned (<[i := t']> tasks) (held t' ∪ s).
Proof.
  intros [Hs Hd] Hnone Hfresh. split.
  - intros x. rewrite elem_of_union, Hs. split.
    + intros [Hx|(j & tj & Hj & Hx)]; [exists i, t'; by rewrite lookup_insert_eq|]. exists j, tj.
      rewrite lookup_insert_ne; [done|]. intros ->. by rewrite (Hnone tj Hj) in Hx.
    + intros (j & tj & Hj & Hx). apply lookup_insert_Some in Hj as [[-> ->]|[_ Hj]]; [by left|right; by exists j, tj].
  - intros j k tj tk x Hj Hk Hxj Hxk. apply lookup_insert_Some in Hj as [[<- <-]|[Hij Hj]], Hk as [[<- <-]|[Hik Hk]].
    + done.
    + exfalso. apply (Hfresh x Hxj), Hs. by exists k, tk.
    + exfalso. apply (Hfresh x Hxk), Hs. by exists j, tj.
    + by eapply Hd.
Qed.

Lemma partitioned_spawn tasks s i t' :
  partitioned tasks s -> tasks !! i = None -> held t' = ∅ -> partitioned (<[i := t']> tasks) s.
Proof.
  intros Hp Hi E. replace s with (held t' ∪ s) by (rewrite E; set_solver).
  apply partitioned_acquire; [done|congruence|rewrite E; set_solver].
Qed.

Lemma partitioned_release tasks s i t t' :
  partitioned tasks s -> tasks !! i = Some t -> held t' = ∅ -> partitioned (<[i := t']> tasks) (s ∖ held t).
Proof.
  intros [Hs Hd] Hi Hnone. split.
  - intros x. rewrite elem_of_difference, Hs. split.
    + intros [(j & tj & Hj & Hx) Hn]. exists j, tj. rewrite lookup_insert_ne; [done|]. intros ->. naive_solver.
    + intros (j & tj & Hj & Hx). apply lookup_insert_Some in Hj as [[-> ->]|[Hij Hj]]; [set_solver|].
      split; [by exists j, tj|]. intros Hx'. apply Hij. by eapply Hd.
  - intros j k tj tk x Hj Hk Hxj Hxk. apply lookup_insert_Some in Hj as [[<- <-]|[Hij Hj]], Hk as [[<- <-]|[Hik Hk]];
      [done|set_solver|set_solver|by eapply Hd].
Qed.

Lemma partitioned_same tasks s i t t' :
  partitioned tasks s -> tasks !! i = Some t -> held t' = held t -> partitioned (<[i := t']> tasks) s.
Proof.
  intros [Hs Hd] Hi E. split.
  - intros x. rewrite Hs. split; intros (j & tj & Hj & Hx).
    + destruct (decide (j = i)) as [->|Hne]; [|exists j, tj; by rewrite lookup_insert_ne].
      exists i, t'. rewrite lookup_insert_eq. split; [done|]. rewrite E. naive_solver.
    + apply lookup_insert_Some in Hj as [[-> ->]|[_ Hj]]; [exists j, t; by rewrite <-E|by exists j, tj].
  - intros j k tj tk x Hj Hk Hxj Hxk. apply lookup_insert_Some in Hj as [[<- <-]|[Hij Hj]], Hk as [[<- <-]|[Hik Hk]];
      rewrite ?E in *; [done|by eapply Hd..].
Qed.

End Held.

Definition refill_inv (w : RefillWorld) : Prop :=
  partitioned held_addr (rw_tasks w) (mp_inflight (rw_pool w)).1 /\ partitioned held_keys (rw_tasks w) (mp_inflight (rw_pool w)).2.

Lemma refill_step_inv w w' : refill_step w w' -> refill_inv w -> refill_inv w'.
Proof.
  intros Hst [Ha Hk]. destruct Hst as [p tasks i addr rest _ Hi|p tasks i t e Hi|p tasks p' E]; cbn [rw_tasks rw_pool] in Ha, Hk;
    unfold refill_inv; cbn [rw_tasks rw_pool].
  - split; by apply partitioned_spawn.
  - unfold refill_task_step. destruct (mp_inflight p) as [inflight inflight_dc] eqn:Ep. cbn [fst snd] in Ha, Hk.
    destruct t as [addr|addr dc_keys|addr dc_keys|addr|addr dc_keys|addr dc_keys|dc_keys|]; repeat case_decide;
      cbn [fst snd with_stats with_inflight mp_inflight]; rewrite ?Ep; cbn [fst snd]; split;
      try (by eapply partitioned_same).
    + apply (partitioned_acquire held_addr tasks inflight i (RfHoldsAddr addr dc_keys)); [done|naive_solver|set_solver].
    + apply (partitioned_acquire held_keys tasks inflight_dc i (RfRunning addr dc_keys)); [done|naive_solver|done].
    + by apply (partitioned_release held_addr tasks inflight i (RfGivesUp addr)).
    + by apply (partitioned_release held_addr tasks inflight i (RfReleasing addr dc_keys)).
    + by apply (partitioned_release held_keys tasks inflight_dc i (RfReleasingDc dc_keys)).
  - by rewrite E.
Qed.

Lemma refill_steps_inv w w' : rtc refill_step w w' -> refill_inv w -> refill_inv w'.
Proof. induction 1; eauto using refill_step_inv. Qed.

Lemma refill_start_inv p : mp_inflight p = (∅, ∅) -> refill_inv (mkRefillWorld p ∅).
Proof.
  intros E. split; cbn [rw_pool rw_tasks]; rewrite E; (split; [|intros *; by rewrite lookup_empty]);
    intros x; (split; [by intros ?%not_elem_of_empty|]); intros (i & t & Hi & _); by rewrite lookup_empty in Hi.
Qed.

(** C22: at any time at most one refill runs per endpoint and per data centre, in whatever order the refill tasks are
    started and take their steps and whatever the rest of the program does to the pool; what is running is visible to
    the health check; and when every task has ended nothing is left marked, so no endpoint stays blocked. *)
Theorem refills_exclusive p0 p tasks :
  mp_inflight p0 = (∅, ∅) -> rtc refill_step (mkRefillWorld p0 ∅) (mkRefillWorld p tasks) ->
  (forall i j a b k l, tasks !! i = Some (RfRunning a k) -> tasks !! j = Some (RfRunning b l) -> i <> j -> a <> b /\ k ## l) /\
  (forall i a k e endpoints, tasks !! i = Some (RfRunning a k) -> a ∈ endpoints -> has_refill_inflight_for_endpoints e p endpoints = true) /\
  ((forall i t, tasks !! i = Some t -> t = RfDone) -> mp_inflight p = (∅, ∅)).
Proof.
  intros E Hst. apply refill_steps_inv in Hst; [|by apply refill_start_inv].
  destruct Hst as [[Ha Hda] [Hk Hdk]]. cbn [rw_tasks rw_pool] in *. split_and!.
  - intros i j a b k l Hi Hj Hne. split.
    + intros <-. apply Hne. apply (Hda i j _ _ a Hi Hj); cbn; set_solver.
    + intros x Hx Hy. apply Hne. by apply (Hdk i j _ _ x Hi Hj).
  - intros i a k e endpoints Hi Hin. unfold has_refill_inflight_for_endpoints.
    destruct endpoints as [|x l] eqn:El; [by apply not_elem_of_nil in Hin|]. rewrite <-El in *.
    assert (existsb (fun addr => bool_decide (addr ∈ (mp_inflight p).1)) endpoints = true) as ->; [|done].
    apply existsb_exists. exists a. split; [by apply list_elem_of_In|]. apply bool_decide_eq_true, Ha. exists i, (RfRunning a k).
    split; [done|]. cbn. set_solver.
  - intros Hdone. destruct (mp_inflight p) as [s d]. cbn [fst snd] in *. f_equal; apply set_eq; intros x; [rewrite Ha|rewrite Hk];
      (split; [|by intros ?%not_elem_of_empty]); intros (i & t & Hi & Hx); by rewrite (Hdone _ _ Hi) in Hx.
Qed.

(** Every task ends after at most six of its steps. *)
Fixpoint run_task (n : nat) (e : PoolEnv) (t : refill_task) (p : MePool) : refill_task * MePool :=
  match n with O => (t, p) | S n => let '(t, p) := refill_task_step e t p in run_task n e t p end.

Definition steps_left (t : refill_task) : nat :=
  match t with
  | RfStarted _ => 6 | RfKeyed _ _ => 5 | RfHoldsAddr _ _ => 4 | RfRunning _ _ => 3 | RfReleasing _ _ => 2
  | RfReleasingDc _ | RfGivesUp _ => 1 | RfDone => 0
  end.

Lemma refill_task_step_left e t p : (steps_left (fst (refill_task_step e t p)) <= steps_left t - 1)%nat.
Proof. unfold refill_task_step. destruct (mp_inflight p), t; repeat case_decide; cbn; lia. Qed.

Lemma run_task_left n e t p : (steps_left (fst (run_task n e t p)) <= steps_left t - n)%nat.
Proof.
  revert t p. induction n as [|n IH]; intros t p; cbn [run_task]; [cbn; lia|]. pose proof (refill_task_step_left e t p) as H.
  destruct (refill_task_step e t p) as [t' p']. specialize (IH t' p'). cbn [fst] in H. lia.
Qed.

Lemma refill_task_ends e addr p : fst (run_task 6 e (RfStarted addr) p) = RfDone.
Proof.
  pose proof (run_task_left 6 e (RfStarted addr) p) as H. destruct (fst (run_task 6 e (RfStarted addr) p)); cbn in H; lia || done.
Qed.

(** ** Which endpoints are tried *)

Definition earliest_ok (guard : gmap SocketAddr Z) (seen : list SocketAddr) (earliest : option (SocketAddr * Z)) : Prop :=
  match earliest with
  | Some (a, u) => a ∈ seen /\ guard !! a = Some u /\ forall b v, b ∈ seen -> guard !! b = Some v -> u <= v
  | None => forall b, b ∈ seen -> guard !! b = None
  end.

Lemma split_quarantine_spec guard endpoints : forall seen ready earliest,
  ready = filter (fun a => guard !! a = None) seen -> earliest_ok guard seen earliest ->
  let '(ready', earliest') := split_quarantine guard endpoints ready earliest in
  ready' = filter (fun a => guard !! a = None) (seen ++ endpoints) /\ earliest_ok guard (seen ++ endpoints) earliest'.
Proof.
  induction endpoints as [|a endpoints IH]; intros seen ready earliest Hr He; cbn [split_quarantine]; [by rewrite app_nil_r|].
  replace (seen ++ a :: endpoints) with ((seen ++ [a]) ++ endpoints) by by rewrite <-app_assoc.
  destruct (guard !! a) as [u|] eqn:Ea; apply IH.
  - rewrite filter_app, filter_cons, decide_False, filter_nil, app_nil_r by congruence. done.
  - assert (forall b, b ∈ seen ++ [a] -> b ∈ seen \/ b = a) as Hs by (intros b [?|?%list_elem_of_singleton]%elem_of_app; auto).
    destruct earliest as [[b v]|]; cbn in He |- *.
    + destruct He as (Hb & Hv & Hmin). destruct (Z.leb_spec v u); (split; [apply elem_of_app; try (by left); right; by apply list_elem_of_singleton|]);
        (split; [done|]); intros c x Hc Hx; destruct (Hs c Hc) as [Hc'| ->]; try (specialize (Hmin c x Hc' Hx)); try lia; simplify_eq; lia.
    + split; [apply elem_of_app; right; by apply list_elem_of_singleton|]. split; [done|]. intros c x Hc Hx.
      destruct (Hs c Hc) as [Hc'| ->]; [by rewrite (He c Hc') in Hx|]. simplify_eq. lia.
  - rewrite filter_app, filter_cons, decide_True, filter_nil by done. by rewrite Hr.
  - assert (forall b, b ∈ seen ++ [a] -> b ∈ seen \/ b = a) as Hs by (intros b [?|?%list_elem_of_singleton]%elem_of_app; auto).
    destruct earliest as [[b v]|]; cbn in He |- *.
    + destruct He as (Hb & Hv & Hmin). split; [apply elem_of_app; by left|]. split; [done|]. intros c x Hc Hx.
      destruct (Hs c Hc) as [Hc'| ->]; [by eapply Hmin|congruence].
    + intros c Hc. destruct (Hs c Hc) as [Hc'| ->]; [by apply He|done].
Qed.

(** Endpoints in quarantine are left out, except that when all of them are in quarantine the one whose quarantine ends
    first is tried: there is always something to try. *)
Theorem connectable_endpoints_spec now p endpoints :
  let guard := drop_expired now (mp_quarantine p) in
  let l := fst (connectable_endpoints now p endpoints) in
  (l = [] <-> endpoints = []) /\
  (forall a, a ∈ l -> a ∈ endpoints) /\
  (forall a, a ∈ endpoints -> guard !! a = None -> a ∈ l) /\
  (forall a u, a ∈ l -> guard !! a = Some u -> l = [a] /\ forall b, b ∈ endpoints -> exists v, guard !! b = Some v /\ u <= v).
Proof.
  intros guard l. unfold l, connectable_endpoints. clear l. destruct endpoints as [|x xs] eqn:E.
  { split_and!; [done|done|by intros a ?%not_elem_of_nil|by intros a u ?%not_elem_of_nil]. }
  rewrite <-E. fold guard. pose proof (split_quarantine_spec guard endpoints [] [] None eq_refl) as H.
  destruct (split_quarantine guard endpoints [] None) as [ready earliest]. cbn [app] in H.
  destruct H as [Hr He]; [by intros b ?%not_elem_of_nil|].
  assert (endpoints <> []) as Hne by by rewrite E.
  assert (forall a, a ∈ ready <-> guard !! a = None /\ a ∈ endpoints) as Hin by (intros a; rewrite Hr; by rewrite list_elem_of_filter).
  destruct ready as [|r rs] eqn:Er.
  - assert (forall b, b ∈ endpoints -> guard !! b <> None) as Hq.
    { intros b Hb Eb. apply (not_elem_of_nil b). by apply Hin. }
    destruct earliest as [[a u]|]; cbn [fst].
    + destruct He as (Ha & Hu & Hmin). split_and!; [done|by intros b ->%list_elem_of_singleton|intros b Hb Eb; by destruct (Hq b Hb)|].
      intros b v ->%list_elem_of_singleton Hv. simplify_eq. split; [done|]. intros c Hc.
      destruct (guard !! c) as [w|] eqn:Ec; [exists w; split; [done|by eapply Hmin]|by destruct (Hq c Hc)].
    + exfalso. destruct endpoints as [|y ys]; [done|]. apply (Hq y); [by left|]. apply He. by left.
  - cbn [fst]. split_and!; [done|by intros a [_ ?]%Hin|intros a Ha Eg; by apply Hin|].
    intros a u [Ha _]%Hin Hu. congruence.
Qed.

Lemma run_task_steps n e i t p tasks :
  rtc refill_step (mkRefillWorld p (<[i := t]> tasks))
    (mkRefillWorld (snd (run_task n e t p)) (<[i := fst (run_task n e t p)]> tasks)).
Proof.
  revert t p. induction n as [|n IH]; intros t p; cbn [run_task]; [done|].
  eapply rtc_l; [apply (rf_task p _ i t e), lookup_insert_eq|]. rewrite insert_insert_eq.
  destruct (refill_task_step e t p) as [t' p']. cbn [fst snd]. apply IH.
Qed.

(** ** An example *)

Section RefillWitnesses.

(** Two losses at one endpoint: the first task runs, the second finds the endpoint taken. *)
Definition demo_lost : MePool := with_refills demo_pool [demo_me_endpoint; demo_me_endpoint].
Definition demo_refill1 : refill_task * MePool :=
  run_task 3 demo_pool_env (RfStarted demo_me_endpoint) (with_refills demo_lost [demo_me_endpoint]).
Definition demo_refill2 : refill_task * MePool :=
  run_task 2 demo_pool_env (RfStarted demo_me_endpoint) (with_refills demo_refill1.2 []).

Lemma demo_refill_steps :
  rtc refill_step (mkRefillWorld demo_lost ∅) (mkRefillWorld demo_refill2.2 (<[1%nat := demo_refill2.1]> (<[0%nat := demo_refill1.1]> ∅))).
Proof.
  eapply rtc_l; [apply (rf_spawn demo_lost ∅ 0 demo_me_endpoint [demo_me_endpoint]); reflexivity|].
  etrans; [apply (run_task_steps 3 demo_pool_env)|].
  eapply rtc_l; [apply (rf_spawn demo_refill1.2 _ 1 demo_me_endpoint []); vm_compute; reflexivity|].
  apply (run_task_steps 2 demo_pool_env).
Qed.

Lemma refills_exclusive_witness :
  demo_refill1.1 = RfRunning demo_me_endpoint {[mkRefillDcKey 2 FamV4]} /\ demo_refill2.1 = RfDone /\
  has_refill_inflight_for_endpoints demo_pool_env demo_refill2.2 [demo_me_endpoint] = true.
Proof.
  split; [vm_compute; reflexivity|]. split; [vm_compute; reflexivity|].
  destruct (refills_exclusive demo_lost demo_refill2.2 _ eq_refl demo_refill_steps) as (_ & H & _).
  apply (H 0%nat demo_me_endpoint {[mkRefillDcKey 2 FamV4]}); [vm_compute; reflexivity|left].
Defined.

End RefillWitnesses.
