(* ===== verification/MeHealth.v ===== *)
(** * The health of the pool: [transport/middle_proxy/health.rs]

    Every second a task prunes dead writers and sees to it that each data centre has the writers it needs: it reconnects
    with a growing back-off, treats the outage of a centre with a single endpoint apart, renews such a centre's spare
    writers, and lets an idle one do with fewer.  The task's own maps are its state; the pool is reached through the
    actions of [MeSend], between which other tasks act.  A call that its timeout cuts off has done no more than what
    other tasks may do meanwhile. *)

From stdpp Require Import gmap sorting.
From S2P Require Import Prelude NetAddr AddrOrder Errors Stun NetProbe Stats MeHandshake Registry MePool MeSend MeRefill.

Definition JITTER_FRAC_NUM : Z := 2.
Definition SHADOW_ROTATE_RETRY_SECS : Z := 30.
Definition MILLIS : Z := 10 ^ 6.

(** The maps of [me_health_monitor], by data centre and family; instants are nanoseconds, back-offs milliseconds. *)
Record Health := mkHealth {
  h_backoff : gmap RefillDcKey Z;
  h_next_attempt : gmap RefillDcKey Z;
  h_inflight : gmap RefillDcKey Z;
  h_outage_backoff : gmap RefillDcKey Z;
  h_outage_next_attempt : gmap RefillDcKey Z;
  h_single_endpoint_outage : gset RefillDcKey;
  h_shadow_rotate_deadline : gmap RefillDcKey Z;
  h_adaptive_idle_since : gmap RefillDcKey Z;
  h_adaptive_recover_until : gmap RefillDcKey Z
}.
Definition Health_new : Health := mkHealth ∅ ∅ ∅ ∅ ∅ ∅ ∅ ∅ ∅.

Definition with_attempts (h : Health) (backoff next_attempt inflight : gmap RefillDcKey Z) : Health :=
  mkHealth backoff next_attempt inflight (h_outage_backoff h) (h_outage_next_attempt h) (h_single_endpoint_outage h)
    (h_shadow_rotate_deadline h) (h_adaptive_idle_since h) (h_adaptive_recover_until h).
Definition with_outage (h : Health) (backoff next_attempt : gmap RefillDcKey Z) (outage : gset RefillDcKey) : Health :=
  mkHealth (h_backoff h) (h_next_attempt h) (h_inflight h) backoff next_attempt outage
    (h_shadow_rotate_deadline h) (h_adaptive_idle_since h) (h_adaptive_recover_until h).
Definition with_deadline (h : Health) (deadline : gmap RefillDcKey Z) : Health :=
  mkHealth (h_backoff h) (h_next_attempt h) (h_inflight h) (h_outage_backoff h) (h_outage_next_attempt h) (h_single_endpoint_outage h)
    deadline (h_adaptive_idle_since h) (h_adaptive_recover_until h).
Definition with_adaptive (h : Health) (idle_since recover_until : gmap RefillDcKey Z) : Health :=
  mkHealth (h_backoff h) (h_next_attempt h) (h_inflight h) (h_outage_backoff h) (h_outage_next_attempt h) (h_single_endpoint_outage h)
    (h_shadow_rotate_deadline h) idle_since recover_until.

(** What the task reads of the pool's construction. *)
Record HealthSettings := mkHealthSettings { reconnect_backoff_base_ms : Z; reconnect_max_concurrent_per_dc : Z }.

(** The writers that are not draining, as they are when a check begins. *)
Definition live_writers (p : MePool) : list MeWriter := filter (fun w => ws_draining (shared p (mw_id w)) = false) (mp_writers p).

Definition writers_at (live : list MeWriter) (addr : SocketAddr) : list MeWriter := filter (fun w => mw_addr w = addr) live.

Definition alive_count (live : list MeWriter) (endpoints : list SocketAddr) : Z :=
  foldr Z.add 0 ((fun addr => zlen (writers_at live addr)) <$> endpoints).

(** The endpoints of each data centre, negative entries with the positive ones ([abs], of an [i32] above its least). *)
Definition dc_endpoints (map : ProxyMap) : gmap Z (list SocketAddr) :=
  (fun endpoints => dedup (merge_sort addr_le endpoints)) <$>
  foldl (fun (m : gmap Z (list SocketAddr)) (e : Z * list (IpAddr * Z)) =>
           <[Z.abs e.1 := default [] (m !! Z.abs e.1) ++ endpoints_of (Some e.2)]> m) ∅ (map_to_list map).

Section Health.
Variable env : nat -> PoolEnv.
Variable other : nat -> MePool -> MePool.
(** Whether the n-th observation is the end of a call's time, the draw of a jitter up to a bound, and the order in which
    the task's hash map of data centres is gone through. *)
Variable cut : nat -> bool.
Variable jitter : nat -> Z -> Z.
Variable dc_order : gmap Z (list SocketAddr) -> list (Z * list SocketAddr).
Variable settings : HealthSettings.

Definition draw (bound : Z) : SendM Z := fun w => (jitter (wd_n w) bound, w).

(** [timeout(pool.me_one_timeout, call).await] *)
Definition within {A} (call : SendM A) : SendM (option A) := fun w =>
  if cut (wd_n w) then (None, snd (observe env other w)) else let '(a, w) := call w in (Some a, w).

(** [pool.connect_one(endpoint, rng).await] *)
Definition try_connect_one (endpoint : SocketAddr) : SendM bool :=
  e ← observe env other;
  r ← atomically (fun p => connect_one e p endpoint);
  mret (is_ok r).

Definition ok_in_time (r : option bool) : bool := match r with Some ok => ok | None => false end.

(** *** The floor of an idle centre (health.rs:290-336) *)

Fixpoint has_bound_clients_on_endpoint (writers : list MeWriter) : SendM bool :=
  match writers with
  | [] => mret false
  | w :: writers =>
      _ ← observe env other;
      p ← get_pool;
      if is_writer_empty (mp_registry p) (mw_id w) then has_bound_clients_on_endpoint writers else mret true
  end.

Definition should_reduce_floor_for_idle (h : Health) (key : RefillDcKey) (endpoints : list SocketAddr) (live : list MeWriter)
    : SendM (bool * Health) :=
  p ← get_pool;
  match endpoints with
  | [endpoint] =>
      if bool_decide (floor_mode p = Adaptive) then
        e ← observe env other;
        let now := pe_now e in
        has_bound_clients ← has_bound_clients_on_endpoint (writers_at live endpoint);
        p ← get_pool;
        if (has_bound_clients : bool) then
          let grace := adaptive_floor_recover_grace_secs (pc_policy (mp_cfg p)) * SECS in
          mret (false, with_adaptive h (delete key (h_adaptive_idle_since h)) (<[key := now + grace]> (h_adaptive_recover_until h)))
        else if match h_adaptive_recover_until h !! key with Some recover_until => now <? recover_until | None => false end then
          mret (false, with_adaptive h (delete key (h_adaptive_idle_since h)) (h_adaptive_recover_until h))
        else
          let idle_since := default now (h_adaptive_idle_since h !! key) in
          mret (adaptive_floor_idle_secs (pc_policy (mp_cfg p)) * SECS <=? sat_sub now idle_since,
                with_adaptive h (<[key := idle_since]> (h_adaptive_idle_since h)) (delete key (h_adaptive_recover_until h)))
      else mret (false, with_adaptive h (delete key (h_adaptive_idle_since h)) (delete key (h_adaptive_recover_until h)))
  | _ => mret (false, with_adaptive h (delete key (h_adaptive_idle_since h)) (delete key (h_adaptive_recover_until h)))
  end.

(** *** The outage of a single endpoint (health.rs:338-441) *)

(** [current.saturating_mul(2).min(cap)] *)
Definition doubled (current cap : Z) : Z := Z.min (Z.min (current * 2) (2 ^ 64 - 1)) cap.

(** The wait after a back-off, with its jitter. *)
Definition wait_after (now backoff_ms : Z) : SendM Z :=
  j ← draw (Z.max (backoff_ms / JITTER_FRAC_NUM) 1);
  mret (now + backoff_ms * MILLIS + j * MILLIS).

Definition recover_single_endpoint_outage (h : Health) (key : RefillDcKey) (endpoint : SocketAddr) : SendM Health :=
  e ← observe env other;
  let now := pe_now e in
  if match h_outage_next_attempt h !! key with Some ts => now <? ts | None => false end then mret h
  else
    p ← get_pool;
    let '(min_backoff_ms, max_backoff_ms) := single_endpoint_outage_backoff_bounds_ms p in
    _ ← count increment_me_single_endpoint_outage_reconnect_attempt_total;
    attempt ← if outage_disable_quarantine (pc_policy (mp_cfg p)) then
                _ ← count increment_me_single_endpoint_quarantine_bypass_total;
                within (try_connect_one endpoint)
              else within (connect_endpoints_round_robin env other [endpoint]);
    if ok_in_time attempt then
      _ ← count increment_me_single_endpoint_outage_reconnect_success_total;
      _ ← count increment_me_reconnect_success;
      next ← wait_after now min_backoff_ms;
      mret (with_outage h (<[key := min_backoff_ms]> (h_outage_backoff h)) (<[key := next]> (h_outage_next_attempt h)) (h_single_endpoint_outage h))
    else
      _ ← count increment_me_reconnect_attempt;
      let next_ms := doubled (default min_backoff_ms (h_outage_backoff h !! key)) max_backoff_ms in
      next ← wait_after now next_ms;
      mret (with_outage h (<[key := next_ms]> (h_outage_backoff h)) (<[key := next]> (h_outage_next_attempt h)) (h_single_endpoint_outage h)).

(** *** Renewing a spare writer (health.rs:443-553) *)

Fixpoint first_empty_writer (writers : list MeWriter) : SendM (option MeWriter) :=
  match writers with
  | [] => mret None
  | w :: writers =>
      _ ← observe env other;
      p ← get_pool;
      if is_writer_empty (mp_registry p) (mw_id w) then mret (Some w) else first_empty_writer writers
  end.

Definition rotate_later (h : Health) (key : RefillDcKey) (at_ : Z) : Health := with_deadline h (<[key := at_]> (h_shadow_rotate_deadline h)).

Definition maybe_rotate_single_endpoint_shadow (h : Health) (key : RefillDcKey) (endpoints : list SocketAddr) (alive required : Z)
    (live : list MeWriter) : SendM Health :=
  p ← get_pool;
  match endpoints, single_endpoint_shadow_rotate_interval p with
  | [endpoint], Some interval =>
      if alive <? required then mret h
      else
        e ← observe env other;
        let now := pe_now e in
        if match h_shadow_rotate_deadline h !! key with Some deadline => now <? deadline | None => false end then mret h
        else
          let retry := rotate_later h key (now + SHADOW_ROTATE_RETRY_SECS * SECS) in
          e ← observe env other;
          quarantined ← atomically (fun p => is_endpoint_quarantined (pe_now e) p endpoint);
          if (quarantined : bool) then
            _ ← count increment_me_single_endpoint_shadow_rotate_skipped_quarantine_total;
            mret retry
          else
            candidate ← first_empty_writer (writers_at live endpoint);
            match candidate with
            | None => mret retry
            | Some old =>
                rotate_ok ← within (try_connect_one endpoint);
                if ok_in_time rotate_ok then
                  e ← observe env other;
                  _ ← modify (fun p => mark_writer_draining_with_timeout e p (mw_id old) (force_close_timeout p) false);
                  _ ← count increment_me_single_endpoint_shadow_rotate_total;
                  mret (rotate_later h key (now + interval))
                else mret (rotate_later h key (now + Z.min interval (SHADOW_ROTATE_RETRY_SECS * SECS)))
            end
  | _, _ => mret h
  end.

(** *** One data centre (health.rs:125-288) *)

(** The attempts for the writers that are missing: how many were restored. *)
Fixpoint restore (missing : nat) (endpoints : list SocketAddr) : SendM Z :=
  match missing with
  | O => mret 0
  | S missing =>
      r ← within (connect_endpoints_round_robin env other endpoints);
      _ ← count (if ok_in_time r then increment_me_reconnect_success else increment_me_reconnect_attempt);
      n ← restore missing endpoints;
      mret (if ok_in_time r then 1 + n else n)
  end.

Definition bump (m : gmap RefillDcKey Z) (key : RefillDcKey) : gmap RefillDcKey Z := <[key := default 0 (m !! key) + 1]> m.
Definition unbump (m : gmap RefillDcKey Z) (key : RefillDcKey) : gmap RefillDcKey Z := alter (fun v => sat_sub v 1) key m.

Definition reconnect_dc (h : Health) (key : RefillDcKey) (endpoints : list SocketAddr) (alive required : Z) : SendM Health :=
  e ← observe env other;
  let now := pe_now e in
  if match h_next_attempt h !! key with Some ts => now <? ts | None => false end then mret h
  else if Z.max (reconnect_max_concurrent_per_dc settings) 1 <=? default 0 (h_inflight h !! key) then mret h
  else
    e ← observe env other;
    p ← get_pool;
    if has_refill_inflight_for_endpoints e p endpoints then mret h
    else
      let h := with_attempts h (h_backoff h) (h_next_attempt h) (bump (h_inflight h) key) in
      restored ← restore (Z.to_nat (required - alive)) endpoints;
      p ← get_pool;
      let base := reconnect_backoff_base_ms settings in
      let backoff_ms := if required <=? alive + restored then base
                        else doubled (default base (h_backoff h !! key)) (pc_reconnect_backoff_cap_ms (mp_cfg p)) in
      next ← wait_after now backoff_ms;
      mret (with_attempts h (<[key := backoff_ms]> (h_backoff h)) (<[key := next]> (h_next_attempt h)) (unbump (h_inflight h) key)).

(** The end of an outage clears what is kept about the centre. *)
Definition leave_outage (h : Health) (key : RefillDcKey) : Health :=
  mkHealth (h_backoff h) (h_next_attempt h) (h_inflight h) (delete key (h_outage_backoff h)) (delete key (h_outage_next_attempt h))
    (h_single_endpoint_outage h ∖ {[key]}) (delete key (h_shadow_rotate_deadline h)) (delete key (h_adaptive_idle_since h))
    (delete key (h_adaptive_recover_until h)).

Definition check_dc (family : IpFamily) (live : list MeWriter) (dc : Z) (endpoints : list SocketAddr) (h : Health) : SendM Health :=
  match endpoints with
  | [] => mret h
  | endpoint :: others =>
      let key := mkRefillDcKey dc family in
      '(reduce_for_idle, h) ← should_reduce_floor_for_idle h key endpoints live;
      p ← get_pool;
      let required := required_writers_for_dc_with_floor_mode p (zlen endpoints) reduce_for_idle in
      let alive := alive_count live endpoints in
      if bool_decide (others = []) && outage_mode_enabled (pc_policy (mp_cfg p)) && (alive =? 0) then
        _ ← (if decide (key ∈ h_single_endpoint_outage h) then mret tt else count increment_me_single_endpoint_outage_enter_total);
        recover_single_endpoint_outage
          (with_outage h (h_outage_backoff h) (h_outage_next_attempt h) ({[key]} ∪ h_single_endpoint_outage h)) key endpoint
      else
        h ← (if decide (key ∈ h_single_endpoint_outage h) then
               _ ← count increment_me_single_endpoint_outage_exit_total; mret (leave_outage h key)
             else mret h);
        if required <=? alive then maybe_rotate_single_endpoint_shadow h key endpoints alive required live
        else reconnect_dc h key endpoints alive required
  end.

Fixpoint check_dcs (family : IpFamily) (live : list MeWriter) (dcs : list (Z * list SocketAddr)) (h : Health) : SendM Health :=
  match dcs with
  | [] => mret h
  | (dc, endpoints) :: dcs => h ← check_dc family live dc endpoints h; check_dcs family live dcs h
  end.

Definition check_family (family : IpFamily) (h : Health) : SendM Health :=
  p ← get_pool;
  let decision := pc_decision (mp_cfg p) in
  if match family with FamV4 => ipv4_me decision | FamV6 => ipv6_me decision end then
    _ ← observe env other;
    p ← get_pool;
    let dcs := dc_endpoints (proxy_map_for_family p family) in
    let h := if bool_decide (floor_mode p = Static) then with_adaptive h ∅ ∅ else h in
    _ ← observe env other;
    p ← get_pool;
    check_dcs family (live_writers p) (dc_order dcs) h
  else mret h.

(** One turn of the loop of [me_health_monitor], after its sleep of a second. *)
Definition health_turn (h : Health) : SendM Health :=
  e ← observe env other;
  _ ← modify (prune_closed_writers e);
  h ← check_family FamV4 h;
  check_family FamV6 h.

Fixpoint me_health_monitor (turns : nat) (h : Health) : SendM Health :=
  match turns with O => mret h | S turns => h ← health_turn h; me_health_monitor turns h end.

End Health.

(** ** What a call does to the pool *)

Section Does.
Variable env : nat -> PoolEnv.
Variable other : nat -> MePool -> MePool.
Variable cut : nat -> bool.
Variable jitter : nat -> Z -> Z.
Hypothesis quiet : forall n p, other n p = p.

Definition does {A} (m : SendM A) (p : MePool) (Q : A -> MePool -> Prop) : Prop := forall n, Q (m (mkWorld p n)).1 (wd_pool (m (mkWorld p n)).2).

Lemma does_ret {A} (a : A) p (Q : A -> MePool -> Prop) : Q a p -> does (mret a) p Q.
Proof. by intros H n. Qed.

Lemma does_bind {A B} (m : SendM A) (k : A -> SendM B) p (P : A -> MePool -> Prop) (Q : B -> MePool -> Prop) :
  does m p P -> (forall a p', P a p' -> does (k a) p' Q) -> does (m ≫= k) p Q.
Proof.
  intros Hm Hk n. specialize (Hm n). unfold mbind, SendM_bind. destruct (m (mkWorld p n)) as [a [p' n']] eqn:E.
  cbn [fst snd wd_pool] in Hm. by apply (Hk a p').
Qed.

Lemma does_mono {A} (m : SendM A) p (P Q : A -> MePool -> Prop) : does m p P -> (forall a p', P a p' -> Q a p') -> does m p Q.
Proof. intros Hm H n. apply H, Hm. Qed.

Lemma does_observe {B} (k : PoolEnv -> SendM B) p Q : (forall n, does (k (env n)) p Q) -> does (observe env other ≫= k) p Q.
Proof. intros Hk n. unfold mbind, SendM_bind, observe. cbn [wd_n wd_pool]. rewrite quiet. apply Hk. Qed.

Lemma does_get {B} (k : MePool -> SendM B) p Q : does (k p) p Q -> does (get_pool ≫= k) p Q.
Proof. intros Hk n. apply Hk. Qed.

Lemma does_atomically {A B} (f : MePool -> A * MePool) (k : A -> SendM B) p Q :
  does (k (f p).1) (f p).2 Q -> does (atomically f ≫= k) p Q.
Proof. intros Hk n. unfold mbind, SendM_bind, atomically. cbn [wd_n wd_pool]. specialize (Hk n). by destruct (f p). Qed.

Lemma does_modify {B} (f : MePool -> MePool) (k : unit -> SendM B) p Q : does (k tt) (f p) Q -> does (modify f ≫= k) p Q.
Proof. apply (does_atomically (fun p => (tt, f p))). Qed.

Lemma does_wait {B} now b (k : Z -> SendM B) p Q : (forall z, does (k z) p Q) -> does (wait_after jitter now b ≫= k) p Q.
Proof. intros Hk n. unfold mbind, SendM_bind, wait_after, draw. cbn. apply Hk. Qed.

Lemma does_within {A B} (m : SendM A) (k : option A -> SendM B) p Q :
  (forall n, cut n = true -> does (k None) p Q) -> does m p (fun a p' => does (k (Some a)) p' Q) ->
  does (within env other cut m ≫= k) p Q.
Proof.
  intros Hn Hm n. unfold mbind, SendM_bind, within. cbn [wd_n]. destruct (cut n) eqn:Ec.
  - unfold observe. cbn [snd wd_n wd_pool]. rewrite quiet. by apply (Hn n).
  - specialize (Hm n). destruct (m (mkWorld p n)) as [a [p' n']]. apply Hm.
Qed.

(** *** The number of live writers *)

Definition alive (p : MePool) (endpoints : list SocketAddr) : Z := alive_count (live_writers p) endpoints.

(** From [p] to [p']: at most [budget] writers were made, and at least [gain] more are alive at the endpoints. *)
Record advanced (endpoints : list SocketAddr) (budget gain : Z) (p p' : MePool) : Prop := {
  adv_ok : pool_ok p';
  adv_next : mp_next_writer_id p <= mp_next_writer_id p' <= mp_next_writer_id p + budget;
  adv_alive : alive p endpoints + gain <= alive p' endpoints;
  adv_live : forall w, w ∈ live_writers p -> w ∈ live_writers p';
  adv_registry : mp_registry p' = mp_registry p;
  adv_cfg : mp_cfg p' = mp_cfg p;
  adv_secret : mp_secret p' = mp_secret p
}.

Lemma advanced_refl eps p : pool_ok p -> advanced eps 0 0 p p.
Proof. intros H. split; done || lia. Qed.

Lemma advanced_trans eps b1 g1 b2 g2 p p1 p2 : advanced eps b1 g1 p p1 -> advanced eps b2 g2 p1 p2 -> advanced eps (b1 + b2) (g1 + g2) p p2.
Proof. intros [] []. split; [done|lia|lia|auto|congruence..]. Qed.

Lemma advanced_weaken eps b b' g g' p p' : advanced eps b g p p' -> b <= b' -> g' <= g -> advanced eps b' g' p p'.
Proof. intros [] ? ?. split; done || lia. Qed.

(** A change that leaves the writers, their flags, the settings and the secret alone. *)
Lemma advanced_fields eps p p' :
  same_core p p' -> mp_cfg p' = mp_cfg p -> mp_secret p' = mp_secret p -> pool_ok p -> advanced eps 0 0 p p'.
Proof.
  intros Hc Ec Es Hp. pose proof Hc as [? Hw Hs ? ? Hn]. assert (live_writers p' = live_writers p) as El by (unfold live_writers, shared; by rewrite Hw, Hs).
  split; [|lia| |by rewrite El|done..].
  - by apply (op_steps_ok p); [apply steps_fields|].
  - unfold alive. rewrite El. lia.
Qed.

Lemma alive_count_app l w eps : alive_count l eps <= alive_count (l ++ [w]) eps /\ (mw_addr w ∈ eps -> alive_count l eps + 1 <= alive_count (l ++ [w]) eps).
Proof.
  unfold alive_count. induction eps as [|a eps [IH1 IH2]]; cbn [fmap list_fmap foldr]; [split; [lia|by intros ?%elem_of_nil]|].
  assert (zlen (writers_at (l ++ [w]) a) = zlen (writers_at l a) + (if decide (mw_addr w = a) then 1 else 0)) as E.
  { unfold writers_at. rewrite filter_app, zlen_app. f_equal. rewrite filter_cons. by destruct (decide (mw_addr w = a)). }
  rewrite E. split; [destruct (decide (mw_addr w = a)); lia|]. rewrite elem_of_cons. destruct (decide (mw_addr w = a)); [lia|].
  intros [He|H]; [by rewrite He in *|]. specialize (IH2 H). lia.
Qed.

Lemma filter_agree {A} (P Q : A -> Prop) `{!forall x, Decision (P x), !forall x, Decision (Q x)} (l : list A) :
  Forall (fun x => P x <-> Q x) l -> filter P l = filter Q l.
Proof. induction 1 as [|x l Hx _ IH]; [done|]. rewrite !filter_cons, IH. destruct (decide (P x)), (decide (Q x)); tauto. Qed.

Lemma register_live p addr generation now contour :
  pool_ok p -> live_writers (register_writer p addr generation now contour) =
  live_writers p ++ [mkMeWriter (mp_next_writer_id p) addr generation now].
Proof.
  intros Hp. unfold live_writers, register_writer. cbn [mp_writers with_conn_count with_writers with_shared with_next_writer_id]. rewrite filter_app. f_equal.
  - apply filter_agree. apply Forall_forall. intros w Hw. unfold shared. cbn. by rewrite lookup_insert_ne by (intros E; by apply (find_new p w Hp Hw)).
  - rewrite filter_cons, decide_True; [done|]. unfold shared. cbn. by rewrite lookup_insert_eq.
Qed.

(** One connection: a writer at the endpoint, or nothing. *)
Lemma connect_advanced eps e p addr generation contour :
  pool_ok p -> mp_next_writer_id p + 1 < 2 ^ 64 -> addr ∈ eps ->
  let r := connect_one_with_generation_contour e p addr generation contour in
  advanced eps 1 (if is_ok r.1 then 1 else 0) p r.2.
Proof.
  intros Hp Hn Ha. unfold connect_one_with_generation_contour. cbv zeta.
  assert (advanced eps 1 0 p p) as H0 by (eapply advanced_weaken; [by apply advanced_refl|lia|lia]).
  destruct (_ <? 32); [exact H0|]. destruct (pe_connect e addr); [|exact H0]. cbn [is_ok fst snd]. split.
  - by apply register_writer_ok.
  - cbn. unfold u64. destruct (ok_next p Hp). pose proof (zlen_nonneg (mp_writers p)). rewrite Z.mod_small by lia. lia.
  - unfold alive. rewrite register_live by done. by apply alive_count_app.
  - intros w Hw. rewrite register_live by done. set_solver.
  - done.
  - done.
  - done.
Qed.

Definition connects (p : MePool) : Prop := 32 <= zlen (ss_secret (mp_secret p)) /\ forall n a, exists u, pe_connect (env n) a = Ok u.

(** [gained b]: the writer that a successful call has made. *)
Definition gained (ok : bool) : Z := if ok then 1 else 0.

Lemma connect_in_order_advanced eps addrs generation contour : forall p,
  pool_ok p -> mp_next_writer_id p + 1 < 2 ^ 64 -> (forall a, a ∈ addrs -> a ∈ eps) ->
  does (connect_in_order env other addrs generation contour) p (fun ok p' =>
    advanced eps 1 (gained ok) p p' /\ (addrs <> [] -> connects p -> ok = true)).
Proof.
  induction addrs as [|a addrs IH]; intros p Hp Hn Hin; cbn [connect_in_order].
  { apply does_ret. split; [|done]. eapply advanced_weaken; [by apply advanced_refl|lia|cbn; lia]. }
  apply does_observe. intros n. apply does_atomically.
  pose proof (connect_advanced eps (env n) p a generation contour Hp Hn ltac:(apply Hin; set_solver)) as Hc. cbv zeta in Hc.
  destruct (connect_one_with_generation_contour (env n) p a generation contour) as [[u|e] p'] eqn:E; cbn [fst snd is_ok] in *.
  - apply does_ret. split; [exact Hc|done].
  - assert (p' = p) as ->.
    { revert E. unfold connect_one_with_generation_contour. destruct (_ <? 32); [by intros [= _ <-]|]. destruct (pe_connect _ _); [done|by intros [= _ <-]]. }
    eapply does_mono; [apply (IH p Hp Hn); set_solver|]. intros ok p'' [Ha Hok]. split; [done|]. intros _ [Hs Hall]. exfalso.
    revert E. unfold connect_one_with_generation_contour. destruct (Z.ltb_spec (zlen (ss_secret (mp_secret p))) 32); [lia|].
    destruct (Hall n a) as [u ->]. done.
Qed.

Lemma split_quarantine_sub guard endpoints : forall ready earliest,
  let r := split_quarantine guard endpoints ready earliest in
  (forall a, a ∈ r.1 -> a ∈ ready \/ a ∈ endpoints) /\
  (forall a x, r.2 = Some (a, x) -> (exists x', earliest = Some (a, x')) \/ a ∈ endpoints) /\
  (r.1 = [] -> r.2 = None -> ready = [] /\ earliest = None /\ endpoints = []).
Proof.
  induction endpoints as [|b endpoints IH]; intros ready earliest; cbn [split_quarantine]; cbv zeta.
  { cbn. split_and!; [by left|intros a x ->; left; by eexists|done]. }
  destruct (guard !! b) as [expiry|].
  - set (e2 := match earliest with Some _ => _ | None => _ end). destruct (IH ready e2) as (H1 & H2 & H3). split_and!.
    + intros a Ha. destruct (H1 a Ha); [by left|right; by apply list_elem_of_further].
    + intros a x Hx. destruct (H2 a x Hx) as [[x' Hx']|]; [|right; by apply list_elem_of_further]. unfold e2 in Hx'.
      destruct earliest as [[c cx]|]; [|injection Hx' as <- _; right; apply list_elem_of_here].
      destruct (cx <=? expiry); injection Hx' as <- _; [left; by eexists|right; apply list_elem_of_here].
    + intros E1 E2. destruct (H3 E1 E2) as (_ & E & _). exfalso. unfold e2 in E. destruct earliest as [[c cx]|]; [|done]. by destruct (cx <=? expiry).
  - destruct (IH (ready ++ [b]) earliest) as (H1 & H2 & H3). split_and!.
    + intros a Ha. destruct (H1 a Ha) as [[|Hb]%elem_of_app|]; [by left|right; set_solver|right; by apply list_elem_of_further].
    + intros a x Hx. destruct (H2 a x Hx); [by left|right; by apply list_elem_of_further].
    + intros E1 E2. destruct (H3 E1 E2) as (E & _). by destruct ready.
Qed.

Lemma connectable_sub now p endpoints :
  let r := connectable_endpoints now p endpoints in
  (forall a, a ∈ r.1 -> a ∈ endpoints) /\ (endpoints <> [] -> r.1 <> []) /\ (pool_ok p -> forall eps, advanced eps 0 0 p r.2).
Proof.
  unfold connectable_endpoints. destruct endpoints as [|e es]; cbv zeta; [split_and!; [done|done|intros; by apply advanced_refl]|].
  pose proof (split_quarantine_sub (drop_expired now (mp_quarantine p)) (e :: es) [] None) as H. cbv zeta in H.
  destruct (split_quarantine _ (e :: es) [] None) as [ready earliest]. cbn [fst snd] in *. destruct H as (H1 & H2 & H3). split_and!.
  - intros a. destruct ready as [|r rs].
    + destruct earliest as [[x t]|]; [|by intros ?%elem_of_nil]. intros ->%list_elem_of_singleton. destruct (H2 x t eq_refl) as [[? ?]|]; done.
    + intros Ha. destruct (H1 a Ha) as [?%elem_of_nil|]; done.
  - intros _. destruct ready; [|done]. destruct earliest as [[x t]|]; [done|]. by destruct (H3 eq_refl eq_refl) as (_ & _ & ?).
  - intros Hp eps. by apply advanced_fields.
Qed.

Lemma rotate_from_elem {A} start (l : list A) a : a ∈ rotate_from start l <-> a ∈ l.
Proof.
  unfold rotate_from. rewrite elem_of_app. rewrite <-(ztake_zdrop start l) at 3. rewrite elem_of_app. tauto.
Qed.

Lemma round_robin_advanced eps endpoints p :
  pool_ok p -> mp_next_writer_id p + 1 < 2 ^ 64 -> (forall a, a ∈ endpoints -> a ∈ eps) ->
  does (connect_endpoints_round_robin env other endpoints) p (fun ok p' =>
    advanced eps 1 (gained ok) p p' /\ (endpoints <> [] -> connects p -> ok = true)).
Proof.
  intros Hp Hn Hin. unfold connect_endpoints_round_robin. apply does_get. unfold connect_endpoints_round_robin_with_generation_contour.
  apply does_observe. intros n. apply does_atomically.
  destruct (connectable_sub (pe_now (env n)) p endpoints) as (Hsub & Hne & Hadv).
  destruct (connectable_endpoints (pe_now (env n)) p endpoints) as [candidates p1]. cbn [fst snd] in *. specialize (Hadv Hp eps).
  pose proof Hadv as [Hp1 Hn1 _ _ _ Hc1 Hs1]. destruct candidates as [|c cs].
  { apply does_ret. split; [eapply advanced_weaken; [exact Hadv|lia|cbn; lia]|]. intros H. by destruct (Hne H). }
  apply does_atomically. cbn [fst snd]. set (p2 := with_rr p1 _).
  assert (advanced eps 0 0 p1 p2) as Hadv2 by (by apply advanced_fields). pose proof Hadv2 as [Hp2 Hn2 _ _ _ _ Hs2].
  eapply does_mono; [apply (connect_in_order_advanced eps); [done|lia|]|].
  { intros a Ha. apply rotate_from_elem in Ha. by apply Hin, Hsub. }
  intros ok p' [Ha Hok]. split; [pose proof (advanced_trans _ _ _ _ _ _ _ _ Hadv (advanced_trans _ _ _ _ _ _ _ _ Hadv2 Ha)) as H; exact H|].
  intros _ [Hs Hall]. apply Hok; [|by split; [rewrite Hs2, Hs1|]]. intros E. pose proof (proj2 (rotate_from_elem (mp_rr p1 mod zlen (c :: cs)) (c :: cs) c)) as H.
  rewrite E in H. by apply (elem_of_nil c), H, list_elem_of_here.
Qed.

Lemma stats_advanced eps p s : pool_ok p -> advanced eps 0 0 p (with_stats p s).
Proof. intros Hp. by apply advanced_fields. Qed.

Lemma connects_kept eps b g p p' : advanced eps b g p p' -> connects p -> connects p'.
Proof. intros [_ _ _ _ _ _ Hs] [H1 H2]. split; [by rewrite Hs|done]. Qed.

Lemma try_connect_advanced eps endpoint p :
  pool_ok p -> mp_next_writer_id p + 1 < 2 ^ 64 -> endpoint ∈ eps ->
  does (try_connect_one env other endpoint) p (fun ok p' => advanced eps 1 (gained ok) p p' /\ (connects p -> ok = true)).
Proof.
  intros Hp Hn Hin. unfold try_connect_one. apply does_observe. intros n. apply does_atomically. apply does_ret.
  pose proof (connect_advanced eps (env n) p endpoint (current_generation p) Active Hp Hn Hin) as Hc. unfold connect_one. split; [exact Hc|].
  intros [Hs Hall]. unfold connect_one_with_generation_contour. destruct (Z.ltb_spec (zlen (ss_secret (mp_secret p))) 32); [lia|].
  by destruct (Hall n endpoint) as [u ->].
Qed.

(** Restoring writers: as many as are counted, and all when connections succeed in time. *)
Lemma restore_advanced endpoints missing : forall p,
  pool_ok p -> mp_next_writer_id p + Z.of_nat missing < 2 ^ 64 -> endpoints <> [] ->
  does (restore env other cut missing endpoints) p (fun k p' =>
    advanced endpoints (Z.of_nat missing) k p p' /\ 0 <= k /\ (connects p -> (forall n, cut n = false) -> k = Z.of_nat missing)).
Proof.
  induction missing as [|missing IH]; intros p Hp Hn Hne; cbn [restore].
  { apply does_ret. split; [by apply advanced_refl|done]. }
  assert (forall r p1 b, pool_ok p1 -> advanced endpoints b (gained (ok_in_time r)) p p1 -> b <= 1 ->
    does (_ ← count (if ok_in_time r then increment_me_reconnect_success else increment_me_reconnect_attempt);
          k ← restore env other cut missing endpoints; mret (if ok_in_time r then 1 + k else k)) p1
      (fun k p' => advanced endpoints (Z.of_nat (S missing)) k p p' /\ 0 <= k /\
        (connects p -> (forall n, cut n = false) -> ok_in_time r = true -> k = Z.of_nat (S missing)))) as Hnext.
  { intros r p1 b Hp1 Ha Hb. unfold count. apply does_modify. set (p2 := with_stats p1 _). pose proof (stats_advanced endpoints p1 _ Hp1 : advanced endpoints 0 0 p1 p2) as Hs.
    pose proof (advanced_trans _ _ _ _ _ _ _ _ Ha Hs) as Ha2. pose proof Ha2 as [Hp2 Hn2 _ _ _ _ _].
    eapply does_bind; [apply (IH p2 Hp2); [lia|done]|]. intros k p3 (Hk & Hpos & Hall). apply does_ret. split; [|split; [destruct (ok_in_time r); lia|]].
    - eapply advanced_weaken; [exact (advanced_trans _ _ _ _ _ _ _ _ Ha2 Hk)|lia|destruct (ok_in_time r); cbn; lia].
    - intros Hc Hcut ->. rewrite Hall; [lia| |done]. by eapply connects_kept. }
  apply does_within.
  - intros n Hc. eapply does_mono; [apply (Hnext None p 0); [done|by apply advanced_refl|lia]|]. intros k p' (H1 & H2 & _). split_and!; [done..|].
    intros _ Hcut. by rewrite Hcut in Hc.
  - eapply does_mono; [apply (round_robin_advanced endpoints); [done|lia|done]|]. intros ok p1 [Ha Hok]. pose proof Ha as [Hp1 _ _ _ _ _ _].
    eapply does_mono; [apply (Hnext (Some ok) p1 1); [done|exact Ha|lia]|]. intros k p' (H1 & H2 & H3). split_and!; [done..|]. intros Hc Hcut. apply H3; auto.
Qed.

(** *** Draining a writer *)

Lemma filter_most (P Q : MeWriter -> Prop) `{!forall w, Decision (P w), !forall w, Decision (Q w)} l :
  Forall (fun w => P w -> Q w) l -> zlen (filter P l) <= zlen (filter Q l).
Proof. induction 1 as [|w l Hw _ IH]; [done|]. rewrite !filter_cons. destruct (decide (P w)), (decide (Q w)); rewrite ?zlen_cons; tauto || lia. Qed.

Lemma filter_but_one (P Q : MeWriter -> Prop) `{!forall w, Decision (P w), !forall w, Decision (Q w)} id l :
  NoDup (mw_id <$> l) -> (forall w, mw_id w <> id -> P w -> Q w) -> zlen (filter P l) - 1 <= zlen (filter Q l).
Proof.
  intros Hn Hi. induction l as [|w l IH]; [unfold zlen; cbn; lia|]. cbn [fmap list_fmap] in Hn. apply NoDup_cons in Hn as [Hw Hn].
  specialize (IH Hn). rewrite !filter_cons. destruct (decide (mw_id w = id)) as [<-|Hne].
  - assert (zlen (filter P l) <= zlen (filter Q l)) as Hle.
    { apply filter_most, Forall_forall. intros x Hx. apply Hi. intros E. apply Hw. rewrite <-E. by apply list_elem_of_fmap_2. }
    destruct (decide (P w)), (decide (Q w)); rewrite ?zlen_cons; lia.
  - specialize (Hi w Hne). destruct (decide (P w)), (decide (Q w)); rewrite ?zlen_cons; tauto || lia.
Qed.

Lemma mark_draining_alive e p id timeout allow a :
  pool_ok p ->
  let p' := mark_writer_draining_with_timeout e p id timeout allow in
  alive p [a] - 1 <= alive p' [a] /\ (forall w, w ∈ live_writers p -> mw_id w <> id -> w ∈ live_writers p') /\
  mp_next_writer_id p' = mp_next_writer_id p.
Proof.
  intros Hp p'. assert (mp_writers p' = mp_writers p /\ mp_next_writer_id p' = mp_next_writer_id p /\
    forall w, mw_id w <> id -> ws_draining (shared p' (mw_id w)) = ws_draining (shared p (mw_id w))) as (Hw & Hn & Hs).
  { unfold p', mark_writer_draining_with_timeout. destruct (find_writer (mp_writers p) id); [|done]. cbv zeta.
    split_and!; [by destruct (ws_draining _)..|]. intros w Hne.
    assert (shared (upd_shared p id (set_draining allow (pe_epoch_secs e))) (mw_id w) = shared p (mw_id w)) as E by (unfold shared; cbn; by rewrite lookup_insert_ne).
    destruct (ws_draining (shared p id)); unfold shared in *; cbn in *; by rewrite E. }
  split_and!; [| |done].
  - unfold alive, alive_count, writers_at, live_writers. cbn [fmap list_fmap foldr]. rewrite Hw, !Z.add_0_r, !list_filter_filter.
    apply (filter_but_one _ _ id); [apply (ok_ids p Hp)|]. intros w Hne [? ?]. split; [done|]. by rewrite Hs.
  - intros w [Hd Hin]%list_elem_of_filter Hne. apply list_elem_of_filter. rewrite Hw, Hs by done. done.
Qed.

(** From [p] to [p']: like [advanced], but a writer without clients may have been drained. *)
Record checked (endpoints : list SocketAddr) (p p' : MePool) : Prop := {
  ck_ok : pool_ok p';
  ck_alive : alive p endpoints <= alive p' endpoints;
  ck_live : forall w, w ∈ live_writers p -> w ∈ live_writers p' \/ is_writer_empty (mp_registry p) (mw_id w) = true
}.

Lemma advanced_checked eps b g p p' : advanced eps b g p p' -> 0 <= g -> checked eps p p'.
Proof. intros [] ?. split; [done|lia|]. intros w Hw. left. auto. Qed.

Lemma first_empty_writer_does writers p :
  does (first_empty_writer env other writers) p (fun r p' => p' = p /\ forall w, r = Some w -> is_writer_empty (mp_registry p) (mw_id w) = true).
Proof.
  induction writers as [|w writers IH]; cbn [first_empty_writer]; [by apply does_ret|]. apply does_observe. intros n. apply does_get.
  destruct (is_writer_empty (mp_registry p) (mw_id w)) eqn:E; [|exact IH]. apply does_ret. split; [done|]. by intros ? [= <-].
Qed.

Lemma rotate_checked h key endpoint others alive0 required live p :
  pool_ok p -> mp_next_writer_id p + 1 < 2 ^ 64 ->
  does (maybe_rotate_single_endpoint_shadow env other cut h key (endpoint :: others) alive0 required live) p (fun _ p' => checked (endpoint :: others) p p').
Proof.
  intros Hp Hn. unfold maybe_rotate_single_endpoint_shadow. apply does_get.
  assert (forall p' eps b, advanced eps b 0 p p' -> checked eps p p') as Hadv by (intros; by eapply advanced_checked).
  assert (forall eps, checked eps p p) as H0 by (intros eps; eapply Hadv; by apply advanced_refl).
  destruct others as [|]; [|destruct (single_endpoint_shadow_rotate_interval p); by apply does_ret].
  destruct (single_endpoint_shadow_rotate_interval p) as [interval|]; [|by apply does_ret].
  destruct (alive0 <? required); [by apply does_ret|]. apply does_observe. intros n. cbv zeta.
  destruct (match h_shadow_rotate_deadline h !! key with Some _ => _ | None => _ end); [by apply does_ret|].
  apply does_observe. intros n2. apply does_atomically. unfold is_endpoint_quarantined. cbn [fst snd].
  set (p1 := with_quarantine p _). assert (forall eps, advanced eps 0 0 p p1) as Ha1 by (intros; by apply advanced_fields).
  destruct (bool_decide _).
  { unfold count. apply does_modify, does_ret. eapply Hadv. exact (advanced_trans _ _ _ _ _ _ _ _ (Ha1 _) (stats_advanced _ p1 _ (adv_ok _ _ _ _ _ (Ha1 [])))). }
  eapply does_bind; [apply first_empty_writer_does|]. intros old p2 [-> Hold]. destruct old as [old|]; [|apply does_ret; by eapply Hadv].
  pose proof (Ha1 [endpoint]) as [Hp1 Hn1 _ _ Hr1 _ _]. apply does_within; [intros; apply does_ret; by eapply Hadv|].
  eapply does_mono; [apply (try_connect_advanced [endpoint] endpoint p1); [done|lia|set_solver]|]. intros ok p3 [Ha3 _].
  pose proof (advanced_trans _ _ _ _ _ _ _ _ (Ha1 [endpoint]) Ha3) as Ha. cbn [ok_in_time]. destruct ok.
  2:{ apply does_ret. eapply Hadv. exact Ha. }
  apply does_observe. intros n3. apply does_modify. destruct (mark_draining_alive (env n3) p3 (mw_id old) (force_close_timeout p3) false endpoint (adv_ok _ _ _ _ _ Ha)) as (Hl & Hk & _).
  pose proof (op_steps_ok _ _ (mark_draining_steps (env n3) p3 (mw_id old) (force_close_timeout p3) false) (adv_ok _ _ _ _ _ Ha)) as Hp4.
  set (p4 := mark_writer_draining_with_timeout _ p3 _ _ _) in *. unfold count. apply does_modify, does_ret.
  pose proof (stats_advanced [endpoint] p4 (increment_me_single_endpoint_shadow_rotate_total (mp_stats p4)) Hp4) as [Hp5 _ H5 Hl5 _ _ _].
  destruct Ha as [_ _ Hga Hla _ _ _]. cbn in Hga. split; [done|cbn in *; lia|]. intros w Hw. destruct (decide (mw_id w = mw_id old)) as [->|Hne].
  - right. rewrite <-Hr1. by apply Hold.
  - left. apply Hl5, Hk; [by apply Hla|done].
Qed.

(** *** One data centre *)

Lemma has_bound_does writers p :
  does (has_bound_clients_on_endpoint env other writers) p (fun r p' =>
    p' = p /\ r = negb (forallb (fun w => is_writer_empty (mp_registry p) (mw_id w)) writers)).
Proof.
  induction writers as [|w writers IH]; cbn [has_bound_clients_on_endpoint]; [by apply does_ret|]. apply does_observe. intros n. apply does_get.
  cbn [forallb]. destruct (is_writer_empty _ _); [exact IH|by apply does_ret].
Qed.

(** A centre that may do with fewer writers: in adaptive mode, with a single endpoint none of whose live writers carries a
    client, whose last client's time of grace is over, and which has been known to be idle for as long as configured. *)
Definition idle_long (h : Health) (key : RefillDcKey) (endpoints : list SocketAddr) (p : MePool) (now : Z) : bool :=
  match endpoints with
  | [endpoint] =>
      bool_decide (floor_mode p = Adaptive) &&
      forallb (fun w => is_writer_empty (mp_registry p) (mw_id w)) (writers_at (live_writers p) endpoint) &&
      match h_adaptive_recover_until h !! key with Some until => until <=? now | None => true end &&
      (adaptive_floor_idle_secs (pc_policy (mp_cfg p)) * SECS <=?
       match h_adaptive_idle_since h !! key with Some since => Z.max 0 (now - since) | None => 0 end)
  | _ => false
  end.

(** What the wait of a reconnection depends on. *)
Definition same_waits (h h' : Health) : Prop :=
  h_next_attempt h' = h_next_attempt h /\ h_inflight h' = h_inflight h /\ h_outage_next_attempt h' = h_outage_next_attempt h /\
  h_single_endpoint_outage h' = h_single_endpoint_outage h.

Lemma reduce_does h key endpoints p :
  does (should_reduce_floor_for_idle env other h key endpoints (live_writers p)) p (fun r p' =>
    p' = p /\ same_waits h r.2 /\ exists n, r.1 = idle_long h key endpoints p (pe_now (env n))).
Proof.
  assert (forall (h' : Health) p', p' = p -> same_waits h h' -> idle_long h key endpoints p (pe_now (env 0%nat)) = false ->
    does (mret (false, h')) p' (fun r p' => p' = p /\ same_waits h r.2 /\ exists n, r.1 = idle_long h key endpoints p (pe_now (env n)))) as Hno.
  { intros h' p' -> Hs E. apply does_ret. split; [done|]. split; [done|]. exists 0%nat. by rewrite E. }
  unfold should_reduce_floor_for_idle. apply does_get. destruct endpoints as [|endpoint [|? ?]]; [by apply Hno| |by apply Hno].
  destruct (bool_decide (floor_mode p = Adaptive)) eqn:Em; [|apply Hno; [done|done|unfold idle_long; by rewrite Em]].
  unfold idle_long. rewrite Em. apply does_observe. intros n. eapply does_bind; [apply has_bound_does|].
  intros b p' [-> ->]. apply does_get. cbv zeta. clear Hno. destruct (forallb _ _); cbn [negb andb].
  2:{ apply does_ret. split; [done|]. split; [done|]. by exists n. }
  assert (match h_adaptive_recover_until h !! key with Some until => until <=? pe_now (env n) | None => true end =
    negb (match h_adaptive_recover_until h !! key with Some until => pe_now (env n) <? until | None => false end)) as Hrec
    by (destruct (_ !! key); [lia|done]).
  destruct (match h_adaptive_recover_until h !! key with Some until => pe_now (env n) <? until | None => false end).
  - apply does_ret. split; [done|]. split; [done|]. exists n. by rewrite Hrec.
  - apply does_ret. split; [done|]. split; [done|]. exists n. rewrite Hrec. cbn [negb andb fst]. f_equal. unfold sat_sub.
    destruct (h_adaptive_idle_since h !! key); cbn [default]; unfold from_option, id; lia.
Qed.

(** Neither a back-off nor a running reconnection holds one back. *)
Definition rested (h : Health) (key : RefillDcKey) : Prop :=
  h_next_attempt h !! key = None /\ h_outage_next_attempt h !! key = None /\ h_inflight h !! key = None.

Variable settings : HealthSettings.

(** An attempt in its time, after other advances. *)
Lemma within_advanced eps (m : SendM bool) p p2 :
  advanced eps 0 0 p p2 -> does m p2 (fun ok p' => advanced eps 1 (gained ok) p2 p' /\ (connects p2 -> ok = true)) ->
  does (within env other cut m) p2 (fun r p' =>
    advanced eps 1 (gained (ok_in_time r)) p p' /\ (connects p -> (forall n, cut n = false) -> ok_in_time r = true)).
Proof.
  intros Ha Hm n. specialize (Hm n). unfold within. cbn [wd_n]. destruct (cut n) eqn:Ec.
  - unfold observe. cbn [fst snd wd_n wd_pool ok_in_time]. rewrite quiet.
    split; [eapply advanced_weaken; [exact Ha|lia|cbn; lia]|]. intros _ Hc. by rewrite Hc in Ec.
  - destruct (m (mkWorld p2 n)) as [ok [p' n']]. cbn [fst snd wd_pool ok_in_time] in *. destruct Hm as [Hm Hok].
    split; [exact (advanced_trans _ _ _ _ _ _ _ _ Ha Hm)|]. intros Hc _. apply Hok. by eapply connects_kept.
Qed.

Lemma outage_checked h key endpoint p :
  pool_ok p -> mp_next_writer_id p + 1 < 2 ^ 64 ->
  does (recover_single_endpoint_outage env other cut jitter h key endpoint) p (fun _ p' =>
    checked [endpoint] p p' /\
    (connects p -> (forall n, cut n = false) -> h_outage_next_attempt h !! key = None -> alive p [endpoint] + 1 <= alive p' [endpoint])).
Proof.
  intros Hp Hn. unfold recover_single_endpoint_outage. apply does_observe. intros n. cbv zeta.
  destruct (match h_outage_next_attempt h !! key with Some _ => _ | None => _ end) eqn:Ew.
  { apply does_ret. split; [eapply advanced_checked; [by apply advanced_refl|lia]|]. intros _ _ E. by rewrite E in Ew. }
  apply does_get. destruct (single_endpoint_outage_backoff_bounds_ms p) as [lo hi]. unfold count at 1. apply does_modify. set (p1 := with_stats p _).
  pose proof (stats_advanced [endpoint] p (increment_me_single_endpoint_outage_reconnect_attempt_total (mp_stats p)) Hp : advanced _ 0 0 p p1) as H1.
  assert (forall k, (forall r p2, advanced [endpoint] 1 (gained (ok_in_time r)) p p2 -> does (k r) p2 (fun (_ : Health) p' => advanced [endpoint] 1 (gained (ok_in_time r)) p p')) ->
    does ((if outage_disable_quarantine (pc_policy (mp_cfg p)) then
             _ ← count increment_me_single_endpoint_quarantine_bypass_total; within env other cut (try_connect_one env other endpoint)
           else within env other cut (connect_endpoints_round_robin env other [endpoint])) ≫= k) p1
      (fun _ p' => checked [endpoint] p p' /\
         (connects p -> (forall n, cut n = false) -> h_outage_next_attempt h !! key = None -> alive p [endpoint] + 1 <= alive p' [endpoint]))) as Hattempt.
  { intros k Hk.
    eapply (does_bind _ _ _ (fun r p' => advanced [endpoint] 1 (gained (ok_in_time r)) p p' /\ (connects p -> (forall n, cut n = false) -> ok_in_time r = true))).
    - pose proof (adv_ok _ _ _ _ _ H1) as Hp1. destruct (outage_disable_quarantine _).
      + unfold count. apply does_modify. pose proof (stats_advanced [endpoint] p1 (increment_me_single_endpoint_quarantine_bypass_total (mp_stats p1)) Hp1) as H2.
        pose proof (advanced_trans _ _ _ _ _ _ _ _ H1 H2) as H12. pose proof H12 as [Hp2 Hn2 _ _ _ _ _]. apply within_advanced; [exact H12|].
        apply try_connect_advanced; [done|lia|set_solver].
      + apply within_advanced; [exact H1|]. eapply does_mono; [apply (round_robin_advanced [endpoint]); [done|exact Hn|done]|].
        intros ok p' [Ha Hok]. split; [done|]. intros Hc. by apply Hok.
    - intros r p2 [Ha Hok]. eapply does_mono; [by apply Hk|]. intros h' p' Ha'. split; [eapply advanced_checked; [exact Ha'|unfold gained; destruct (ok_in_time r); lia]|].
      intros Hc Hcut _. destruct Ha' as [_ _ Hal _ _ _ _]. by rewrite (Hok Hc Hcut) in Hal. }
  apply Hattempt. intros r p2 Ha. unfold count. destruct (ok_in_time r).
  - do 2 apply does_modify. apply does_wait. intros z. apply does_ret.
    pose proof (stats_advanced [endpoint] p2 (increment_me_single_endpoint_outage_reconnect_success_total (mp_stats p2)) (adv_ok _ _ _ _ _ Ha)) as H2.
    set (p3 := with_stats p2 _) in *. pose proof (stats_advanced [endpoint] p3 (increment_me_reconnect_success (mp_stats p3)) (adv_ok _ _ _ _ _ H2)) as H3.
    exact (advanced_trans _ _ _ _ _ _ _ _ Ha (advanced_trans _ _ _ _ _ _ _ _ H2 H3)).
  - apply does_modify, does_wait. intros z. apply does_ret.
    exact (advanced_trans _ _ _ _ _ _ _ _ Ha (stats_advanced [endpoint] p2 (increment_me_reconnect_attempt (mp_stats p2)) (adv_ok _ _ _ _ _ Ha))).
Qed.

Lemma reconnect_checked h key endpoints alive0 required p :
  pool_ok p -> mp_next_writer_id p + Z.max 0 (required - alive0) < 2 ^ 64 -> endpoints <> [] ->
  does (reconnect_dc env other cut jitter settings h key endpoints alive0 required) p (fun _ p' =>
    checked endpoints p p' /\
    (connects p -> (forall n, cut n = false) -> h_next_attempt h !! key = None -> h_inflight h !! key = None -> (forall n, has_refill_inflight_for_endpoints (env n) p endpoints = false) ->
     alive p endpoints + Z.max 0 (required - alive0) <= alive p' endpoints)).
Proof.
  intros Hp Hn Hne. unfold reconnect_dc. apply does_observe. intros n. cbv zeta.
  assert (checked endpoints p p) as H0 by (eapply advanced_checked; [by apply advanced_refl|lia]).
  destruct (match h_next_attempt h !! key with Some _ => _ | None => _ end) eqn:Ew.
  { apply does_ret. split; [done|]. intros _ _ E _ _. by rewrite E in Ew. }
  destruct (Z.leb_spec (Z.max (reconnect_max_concurrent_per_dc settings) 1) (default 0 (h_inflight h !! key))) as [Hm|_].
  { apply does_ret. split; [done|]. intros _ _ _ E _. rewrite E in Hm. cbn in Hm. lia. }
  apply does_observe. intros n2. apply does_get. destruct (has_refill_inflight_for_endpoints (env n2) p endpoints) eqn:Er.
  { apply does_ret. split; [done|]. intros _ _ _ _ E. by rewrite E in Er. }
  eapply does_bind; [apply (restore_advanced endpoints (Z.to_nat (required - alive0)) p); [done|lia|done]|].
  intros k p1 (Ha & Hpos & Hk). apply does_get, does_wait. intros z. apply does_ret. split.
  - by eapply advanced_checked.
  - intros Hc Hcut _ _ _. rewrite (Hk Hc Hcut) in Ha. destruct Ha as [_ _ Hal _ _ _ _]. lia.
Qed.

Lemma alive_nonneg p eps : 0 <= alive p eps.
Proof. unfold alive, alive_count. induction eps as [|a eps IH]; cbn [fmap list_fmap foldr]; [done|]. pose proof (zlen_nonneg (writers_at (live_writers p) a)). lia. Qed.

(** The writers a centre should have: three at least, one for each endpoint, and for a single endpoint the spare ones
    besides its own; and the number an idle single endpoint may do with. *)
Definition full_floor (p : MePool) (endpoints : list SocketAddr) : Z :=
  Z.max 3 (if decide (zlen endpoints = 1) then 1 + single_endpoint_shadow_writers (pc_policy (mp_cfg p)) else zlen endpoints).
Definition idle_floor (p : MePool) (endpoints : list SocketAddr) : Z :=
  Z.min (full_floor p endpoints) (Z.max 1 (adaptive_floor_min_writers_single_endpoint (pc_policy (mp_cfg p)))).

Lemma required_floor h key p endpoints now :
  endpoints <> [] -> required_writers_for_dc_with_floor_mode p (zlen endpoints) (idle_long h key endpoints p now) =
    if idle_long h key endpoints p now then idle_floor p endpoints else full_floor p endpoints.
Proof.
  intros Hne. assert (required_writers_for_dc p (zlen endpoints) = full_floor p endpoints) as E.
  { unfold required_writers_for_dc, full_floor. destruct endpoints as [|e es]; [done|]. rewrite zlen_cons. pose proof (zlen_nonneg es).
    destruct (Z.eqb_spec (1 + zlen es) 0); [lia|]. destruct (Z.eqb_spec (1 + zlen es) 1), (decide (1 + zlen es = 1)); lia. }
  unfold required_writers_for_dc_with_floor_mode, idle_floor. rewrite E. destruct (idle_long h key endpoints p now) eqn:Ei; [|done]. cbn [negb].
  unfold idle_long in Ei. destruct endpoints as [|e [|? ?]]; [done| |done]. destruct (bool_decide (floor_mode p = Adaptive)); [|done]. cbn [negb orb]. 
  change (zlen [e]) with 1. cbn [Z.eqb negb orb]. change (1 =? 1) with true. cbn. lia.
Qed.

Lemma floor_bounds p endpoints : endpoints <> [] -> idle_floor p endpoints <= full_floor p endpoints.
Proof. unfold idle_floor. lia. Qed.

Lemma checked_after_stats eps p s p' : checked eps (with_stats p s) p' -> checked eps p p'.
Proof. intros [? ? ?]. by split. Qed.

(** What is reached at the endpoints: the full number of writers, the reduced one if the centre has long been idle, or one
    again after the outage of a single endpoint. *)
Definition floor_reached (h : Health) (key : RefillDcKey) (endpoints : list SocketAddr) (p p' : MePool) : Prop :=
  full_floor p endpoints <= alive p' endpoints \/
  (exists n, idle_long h key endpoints p (pe_now (env n)) = true) /\ idle_floor p endpoints <= alive p' endpoints \/
  zlen endpoints = 1 /\ outage_mode_enabled (pc_policy (mp_cfg p)) = true /\ alive p endpoints = 0 /\ 1 <= alive p' endpoints.

(** Nothing keeps a check from connecting, and connections succeed in time. *)
Definition unhindered (h : Health) (key : RefillDcKey) (endpoints : list SocketAddr) (p : MePool) : Prop :=
  connects p /\ (forall n, cut n = false) /\ rested h key /\ (forall n, has_refill_inflight_for_endpoints (env n) p endpoints = false).

Lemma outage_floor h h2 key endpoint p s :
  pool_ok p -> mp_next_writer_id p + 1 < 2 ^ 64 -> outage_mode_enabled (pc_policy (mp_cfg p)) = true -> alive p [endpoint] = 0 ->
  h_outage_next_attempt h2 = h_outage_next_attempt h ->
  does (recover_single_endpoint_outage env other cut jitter h2 key endpoint) (with_stats p s) (fun _ p' =>
    checked [endpoint] p p' /\ (unhindered h key [endpoint] p -> floor_reached h key [endpoint] p p')).
Proof.
  intros Hp Hn Em Ez E2. eapply does_mono; [apply outage_checked; [exact (adv_ok _ _ _ _ _ (stats_advanced [] p s Hp))|exact Hn]|].
  intros h' p' [Hck Ha]. split; [exact (checked_after_stats _ _ _ _ Hck)|]. intros (Hc & Hcut & (_ & Eo' & _) & _). right; right.
  split_and!; [done..|]. specialize (Ha Hc Hcut). rewrite E2 in Ha. specialize (Ha Eo').
  change (alive (with_stats p s) [endpoint]) with (alive p [endpoint]) in Ha. lia.
Qed.

(** C11: one check of a data centre, when nothing else acts on the pool meanwhile: whatever fails or is cut off, the
    pool stays well formed, the centre's endpoints do not lose a live writer on balance, and no writer that carries
    clients is drained.  When connections succeed in time and neither a back-off nor a refill holds the check back, the
    centre has afterwards the writers it should have: three at least, one for each endpoint, for a single endpoint the
    spare ones too; fewer only if it has a single endpoint in adaptive mode none of whose live writers carries a client,
    its time of grace is over and it has been idle for the configured time - then the configured minimum -, or if it
    starts from the outage of a single endpoint, then one. *)
Theorem health_check_floor family dc endpoint others h p :
  let endpoints := endpoint :: others in
  let key := mkRefillDcKey dc family in
  pool_ok p -> mp_next_writer_id p + Z.max 1 (full_floor p endpoints) < 2 ^ 64 ->
  does (check_dc env other cut jitter settings family (live_writers p) dc endpoints h) p (fun _ p' =>
    checked endpoints p p' /\ (unhindered h key endpoints p -> floor_reached h key endpoints p p')).
Proof.
  intros endpoints key Hp Hn. unfold check_dc, endpoints. fold endpoints key. cbv zeta.
  eapply does_bind; [apply reduce_does|]. intros [reduce h1] p0 (-> & (Ea & Ei & Eo & _) & n0 & Er). cbn [fst snd] in *. subst reduce. apply does_get.
  rewrite (required_floor h key p endpoints (pe_now (env n0))) by done. pose proof (floor_bounds p endpoints ltac:(done)) as Hreq.
  set (required := if idle_long h key endpoints p (pe_now (env n0)) then _ else _) in *.
  assert (required <= full_floor p endpoints) as Hle by (unfold required; destruct (idle_long _ _ _ _ _); lia).
  assert (forall p', required <= alive p' endpoints -> floor_reached h key endpoints p p') as Hfl.
  { intros p' Hr. unfold required in Hr. destruct (idle_long h key endpoints p (pe_now (env n0))) eqn:E; [right; left; split; [by exists n0|done]|by left]. }
  change (alive_count (live_writers p) endpoints) with (alive p endpoints).
  destruct (bool_decide (others = []) && _ && _) eqn:Eout.
  - apply andb_true_iff in Eout as [[->%bool_decide_eq_true Em]%andb_true_iff Ez%Z.eqb_eq].
    eapply (does_bind _ _ _ (fun _ p1 => exists s, p1 = with_stats p s)).
    { destruct (decide (key ∈ h_single_endpoint_outage h1)); [apply does_ret; exists (mp_stats p); by destruct p|]. unfold count, modify. intros m. by eexists. }
    intros _ p1 [s ->]. apply outage_floor; [done|lia|done..].
  - eapply (does_bind _ _ _ (fun h2 p1 => (exists s, p1 = with_stats p s) /\ h_next_attempt h2 = h_next_attempt h /\ h_inflight h2 = h_inflight h)).
    { destruct (decide (key ∈ h_single_endpoint_outage h1)); [unfold count; apply does_modify|]; apply does_ret; [by split; [eexists|]|].
      split; [exists (mp_stats p); by destruct p|done]. }
    intros h2 p1 ((s & ->) & Ea2 & Ei2). pose proof (adv_ok _ _ _ _ _ (stats_advanced [] p s Hp)) as Hp1.
    destruct (Z.leb_spec required (alive p endpoints)) as [Hra|Hlt].
    + eapply does_mono; [apply rotate_checked; [done|cbn; lia]|]. intros h' p' Hck. pose proof (ck_alive _ _ _ Hck) as Hal.
      change (alive (with_stats p s) (endpoint :: others)) with (alive p endpoints) in Hal. fold endpoints in Hal.
      split; [exact (checked_after_stats _ _ _ _ Hck)|]. intros _. apply Hfl. lia.
    + eapply does_mono; [apply reconnect_checked; [done|change (mp_next_writer_id (with_stats p s)) with (mp_next_writer_id p); pose proof (alive_nonneg p endpoints); lia|done]|]. intros h' p' [Hck Ha].
      split; [exact (checked_after_stats _ _ _ _ Hck)|]. intros (Hc & Hcut & (R1 & R2 & R3) & Hr). apply Hfl.
      rewrite Ea2, Ei2 in Ha. specialize (Ha Hc Hcut R1 R3 Hr).
      change (alive (with_stats p s) endpoints) with (alive p endpoints) in Ha. lia.
Qed.

End Does.

(** ** The limit on concurrent reconnections *)

Section Limit.
Variable env : nat -> PoolEnv.
Variable other : nat -> MePool -> MePool.
Variable cut : nat -> bool.
Variable jitter : nat -> Z -> Z.
Variable dc_order : gmap Z (list SocketAddr) -> list (Z * list SocketAddr).

(** Two computations do the same, and return what satisfies [P]. *)
Definition agree {A} (m m' : SendM A) (P : A -> Prop) : Prop := forall w, m w = m' w /\ P (m w).1.

Lemma agree_ret {A} (a : A) (P : A -> Prop) : P a -> agree (mret a) (mret a) P.
Proof. done. Qed.

Lemma agree_bind {A B} (m m' : SendM A) (k k' : A -> SendM B) (P : A -> Prop) (Q : B -> Prop) :
  agree m m' P -> (forall a, P a -> agree (k a) (k' a) Q) -> agree (m ≫= k) (m' ≫= k') Q.
Proof.
  intros Hm Hk w. destruct (Hm w) as [E HP]. unfold mbind, SendM_bind. rewrite <-E. destruct (m w) as [a w']. by apply Hk.
Qed.

(** The first step is the same, whatever it returns. *)
Lemma agree_step {A B} (m : SendM A) (k k' : A -> SendM B) (Q : B -> Prop) : (forall a, agree (k a) (k' a) Q) -> agree (m ≫= k) (m ≫= k') Q.
Proof. intros Hk. by apply (agree_bind _ _ _ _ (fun _ => True)). Qed.

Lemma agree_mono {A} (m m' : SendM A) (P Q : A -> Prop) : agree m m' P -> (forall a, P a -> Q a) -> agree m m' Q.
Proof. intros H HPQ w. destruct (H w). auto. Qed.

(** No reconnection is counted as running. *)
Definition idle (h : Health) : Prop := map_Forall (fun _ v => v = 0) (h_inflight h).

Lemma idle_same h h' : h_inflight h' = h_inflight h -> idle h -> idle h'.
Proof. unfold idle. by intros ->. Qed.

Lemma bump_unbump m (key : RefillDcKey) : map_Forall (fun _ v => v = 0) m -> map_Forall (fun _ v => v = 0) (unbump (bump m key) key).
Proof.
  intros Hm k v. unfold unbump, bump. rewrite lookup_alter_Some. intros [(-> & x & Hx & ->)|[Hne Hv]].
  - rewrite lookup_insert_eq in Hx. injection Hx as <-. destruct (m !! k) as [y|] eqn:E; [|done]. by rewrite (Hm _ _ E).
  - apply lookup_insert_Some in Hv as [[? _]|[_ Hv]]; [congruence|by apply (Hm k)].
Qed.

Ltac keeps := repeat first [apply agree_ret; done | apply agree_step; intros ? | case_match; cbv zeta].

Lemma reduce_keeps h key endpoints live :
  agree (should_reduce_floor_for_idle env other h key endpoints live) (should_reduce_floor_for_idle env other h key endpoints live)
    (fun r => h_inflight r.2 = h_inflight h).
Proof. unfold should_reduce_floor_for_idle. keeps. Qed.

Lemma outage_keeps h key endpoint :
  agree (recover_single_endpoint_outage env other cut jitter h key endpoint) (recover_single_endpoint_outage env other cut jitter h key endpoint)
    (fun h' => h_inflight h' = h_inflight h).
Proof. unfold recover_single_endpoint_outage. keeps. Qed.

Lemma rotate_keeps h key endpoints alive0 required live :
  agree (maybe_rotate_single_endpoint_shadow env other cut h key endpoints alive0 required live)
    (maybe_rotate_single_endpoint_shadow env other cut h key endpoints alive0 required live) (fun h' => h_inflight h' = h_inflight h).
Proof. unfold maybe_rotate_single_endpoint_shadow. keeps. Qed.

Variables settings settings' : HealthSettings.
Hypothesis base : reconnect_backoff_base_ms settings = reconnect_backoff_base_ms settings'.

Lemma reconnect_agrees h key endpoints alive0 required :
  idle h -> agree (reconnect_dc env other cut jitter settings h key endpoints alive0 required)
    (reconnect_dc env other cut jitter settings' h key endpoints alive0 required) idle.
Proof.
  intros Hi. unfold reconnect_dc. apply agree_step. intros e. cbv zeta. case_match; [by apply agree_ret|].
  assert (default 0 (h_inflight h !! key) = 0) as -> by (destruct (h_inflight h !! key) eqn:E; [by apply (Hi key)|done]).
  destruct (Z.leb_spec (Z.max (reconnect_max_concurrent_per_dc settings) 1) 0); [lia|].
  destruct (Z.leb_spec (Z.max (reconnect_max_concurrent_per_dc settings') 1) 0); [lia|]. rewrite base. do 2 (apply agree_step; intros ?).
  destruct (has_refill_inflight_for_endpoints _ _ _); [by apply agree_ret|]. do 3 (apply agree_step; intros ?). apply agree_ret. by apply bump_unbump.
Qed.

Lemma check_dc_agrees family live dc endpoints h :
  idle h -> agree (check_dc env other cut jitter settings family live dc endpoints h)
    (check_dc env other cut jitter settings' family live dc endpoints h) idle.
Proof.
  intros Hi. unfold check_dc. destruct endpoints as [|endpoint others]; [by apply agree_ret|]. cbv zeta.
  eapply agree_bind; [apply reduce_keeps|]. intros [reduce h1] E1. cbn in E1. apply (idle_same _ _ E1) in Hi as Hi1.
  apply agree_step. intros p. destruct (_ && _ && _).
  - apply agree_step. intros _. eapply agree_mono; [apply outage_keeps|]. intros h2 E2. by apply (idle_same _ _ E2).
  - eapply (agree_bind _ _ _ _ idle). { case_match; keeps. }
    intros h2 Hi2. destruct (_ <=? _); [|by apply reconnect_agrees]. eapply agree_mono; [apply rotate_keeps|]. intros h3 E3. by apply (idle_same _ _ E3).
Qed.

Lemma check_dcs_agrees family live dcs : forall h,
  idle h -> agree (check_dcs env other cut jitter settings family live dcs h) (check_dcs env other cut jitter settings' family live dcs h) idle.
Proof.
  induction dcs as [|[dc endpoints] dcs IH]; intros h Hi; cbn [check_dcs]; [by apply agree_ret|].
  eapply agree_bind; [by apply check_dc_agrees|]. exact IH.
Qed.

Lemma check_family_agrees family h :
  idle h -> agree (check_family env other cut jitter dc_order settings family h) (check_family env other cut jitter dc_order settings' family h) idle.
Proof.
  intros Hi. unfold check_family. apply agree_step. intros p. cbv zeta. destruct (match family with FamV4 => _ | FamV6 => _ end); [|by apply agree_ret].
  do 4 (apply agree_step; intros ?). apply check_dcs_agrees. by case_match.
Qed.

(** C34: the limit on concurrent reconnections of a data centre never takes effect: however other tasks act and
    whatever fails, the monitor does the same under any two limits, because a reconnection is over, and no longer
    counted, before the next one is considered. *)
Theorem reconnect_limit_idle turns w :
  me_health_monitor env other cut jitter dc_order settings turns Health_new w = me_health_monitor env other cut jitter dc_order settings' turns Health_new w.
Proof.
  assert (forall h, idle h -> agree (me_health_monitor env other cut jitter dc_order settings turns h) (me_health_monitor env other cut jitter dc_order settings' turns h) idle)
    as H; [|by apply H].
  induction turns as [|turns IH]; intros h Hi; cbn [me_health_monitor]; [by apply agree_ret|]. eapply agree_bind; [|exact IH].
  unfold health_turn. do 2 (apply agree_step; intros ?). eapply agree_bind; [by apply check_family_agrees|]. apply check_family_agrees.
Qed.

End Limit.

(** ** A pool whose only writer is lost *)

Definition demo_envs (n : nat) : PoolEnv := demo_pool_env.
Definition demo_alone (n : nat) (p : MePool) : MePool := p.
Definition demo_health_settings (limit : Z) : HealthSettings := mkHealthSettings 1000 limit.
Definition demo_empty_pool : MePool := with_writers demo_pool [].

Example demo_turn :
  let '(h, w) := me_health_monitor demo_envs demo_alone (fun _ => false) (fun _ _ => 0) map_to_list (demo_health_settings 1) 1 Health_new
                   (mkWorld demo_empty_pool 0) in
  (mw_addr <$> mp_writers (wd_pool w), h_outage_backoff h !! mkRefillDcKey 2 FamV4) = ([demo_me_endpoint], Some 250).
Proof. vm_compute. reflexivity. Qed.

Definition demo_second_endpoint : SocketAddr := mkSocketAddr (V4 [149; 154; 175; 51]) 8888.

(** Two endpoints that should have three writers, and do have two. *)
Lemma health_check_floor_witness :
  let endpoints := [demo_me_endpoint; demo_second_endpoint] in
  let p' := wd_pool (check_dc demo_envs demo_alone (fun _ => false) (fun _ _ => 0) (demo_health_settings 1) FamV4 (live_writers demo_pool) 2
                       endpoints Health_new (mkWorld demo_pool 0)).2 in
  alive demo_pool endpoints = 2 /\ full_floor demo_pool endpoints = 3 /\ checked endpoints demo_pool p' /\ 3 <= alive p' endpoints.
Proof.
  split; [vm_compute; reflexivity|]. split; [vm_compute; reflexivity|].
  destruct (health_check_floor demo_envs demo_alone (fun _ => false) (fun _ _ => 0) (fun _ _ => eq_refl) (demo_health_settings 1) FamV4 2
              demo_me_endpoint [demo_second_endpoint] Health_new demo_pool demo_pool_ok ltac:(vm_compute; reflexivity) 0%nat) as [Hc Hr].
  split; [exact Hc|]. destruct Hr as [H|[[[n H] _]|[H _]]].
  - split; [split; [vm_compute; discriminate|intros n a; by exists tt]|]. split; [done|]. split; [by split_and!|]. intros n. vm_compute. reflexivity.
  - exact H.
  - discriminate H.
  - vm_compute in H. discriminate H.
Defined.

Lemma reconnect_limit_idle_witness :
  me_health_monitor demo_envs demo_alone (fun _ => false) (fun _ _ => 0) map_to_list (demo_health_settings 1) 3 Health_new (mkWorld demo_pool 0) =
  me_health_monitor demo_envs demo_alone (fun _ => false) (fun _ _ => 0) map_to_list (demo_health_settings 50) 3 Health_new (mkWorld demo_pool 0).
Proof. exact (reconnect_limit_idle demo_envs demo_alone (fun _ => false) (fun _ _ => 0) map_to_list (demo_health_settings 1) (demo_health_settings 50) eq_refl 3 (mkWorld demo_pool 0)). Defined.
