(* ===== verification/MeReinit.v ===== *)
(** * Replacing the writers without an interruption: [transport/middle_proxy/pool_reinit.rs]

    After a change of the endpoint map the pool connects to what is missing and drains what is stale, but only once every
    data centre is covered; in hardswap mode a whole new generation is warmed up first.  [hash_endpoints] stands for the
    standard hasher over the sorted endpoint map, [map_order] for the order in which a hash map is iterated.  The ratio of
    covered data centres is compared exactly; the numbers are small enough for the floats of the source to agree. *)

From stdpp Require Import gmap.
From S2P Require Import Prelude NetAddr Errors Stun NetProbe Stats MeHandshake Registry MePool MeSend MeRefill.

Definition ME_HARDSWAP_PENDING_TTL_SECS : Z := 1800.

(** ** Generations (pool_reinit.rs:38-61) *)

Definition set_generation (p : MePool) (g : Z) : MePool :=
  let s := mp_gens p in
  with_gens p (mkGenerations g (gen_active s) (gen_warm s) (gen_pending s) (gen_pending_started_at_epoch_secs s) (gen_pending_map_hash s)).
Definition set_active_and_warm (p : MePool) (active warm : Z) : MePool :=
  let s := mp_gens p in
  with_gens p (mkGenerations (gen_generation s) active warm (gen_pending s) (gen_pending_started_at_epoch_secs s) (gen_pending_map_hash s)).
Definition set_pending (p : MePool) (pending started_at map_hash warm : Z) : MePool :=
  let s := mp_gens p in
  with_gens p (mkGenerations (gen_generation s) (gen_active s) warm pending started_at map_hash).

Definition clear_pending_hardswap_state (p : MePool) : MePool := set_pending p 0 0 0 0.

Definition set_contour (c : WriterContour) (s : WriterShared) : WriterShared :=
  mkWriterShared (WriterContour_as_u8 c) (ws_degraded s) (ws_draining s) (ws_draining_started_at_epoch_secs s)
    (ws_allow_drain_fallback s) (ws_cancelled s) (ws_open s) (ws_received s).

Definition promote_warm_generation_to_active (p : MePool) (generation : Z) : MePool :=
  let p := set_active_and_warm p generation 0 in
  foldl (fun p w =>
    if ws_draining (shared p (mw_id w)) then p
    else if mw_generation w =? generation then upd_shared p (mw_id w) (set_contour Active) else p) p (mp_writers p).

(** ** Coverage (pool_reinit.rs:63-91, 125-149, 177-199) *)

Abbreviation Desired := (gmap Z (gset SocketAddr)) (only parsing).

Definition add_desired (out : Desired) (entry : Z * list (IpAddr * Z)) : Desired :=
  <[Z.abs entry.1 := default ∅ (out !! Z.abs entry.1) ∪ list_to_set (endpoints_of (Some entry.2))]> out.

Definition desired_dc_endpoints (p : MePool) : Desired :=
  let d := pc_decision (mp_cfg p) in
  let out := ∅ in
  let out := if ipv4_me d then foldl add_desired out (map_to_list (proxy_map_v4 (mp_maps p))) else out in
  if ipv6_me d then foldl add_desired out (map_to_list (proxy_map_v6 (mp_maps p))) else out.

Definition sorted_endpoints (s : gset SocketAddr) : list SocketAddr := sort_by addr_cmp (elements s).

Definition desired_map_hash (hash_endpoints : list (Z * list SocketAddr) -> Z) (desired_by_dc : Desired) : Z :=
  hash_endpoints ((fun dc => (dc, sorted_endpoints (default ∅ (desired_by_dc !! dc)))) <$>
                  sort_by Z.compare (map_to_list desired_by_dc).*1).

Definition not_draining (p : MePool) (w : MeWriter) : bool := negb (ws_draining (shared p (mw_id w))).

Definition active_writer_addrs (p : MePool) : gset SocketAddr :=
  list_to_set (mw_addr <$> filter (fun w => not_draining p w = true) (mp_writers p)).

Definition covers (active : gset SocketAddr) (endpoints : gset SocketAddr) : bool := bool_decide (endpoints ∩ active <> ∅).

(** How many data centres are covered, out of how many, and which are missing. *)
Definition coverage_ratio (desired_by_dc : Desired) (active : gset SocketAddr) : Z * Z * list Z :=
  if bool_decide (desired_by_dc = ∅) then (1, 1, [])
  else
    let dcs := filter (fun e : Z * gset SocketAddr => e.2 <> ∅) (map_to_list desired_by_dc) in
    let covered := filter (fun e => covers active e.2 = true) dcs in
    let missing := filter (fun e => covers active e.2 = false) dcs in
    (zlen covered, Z.max (zlen (map_to_list desired_by_dc)) 1, sort_by Z.compare missing.*1).

Definition below_min_ratio (p : MePool) (covered total : Z) : bool :=
  covered * 1000 <? Z.min (pool_min_fresh_ratio_permille (pc_policy (mp_cfg p))) 1000 * total.

Definition is_fresh (p : MePool) (generation : Z) (endpoints : gset SocketAddr) (w : MeWriter) : Prop :=
  not_draining p w = true /\ mw_generation w = generation /\ mw_addr w ∈ endpoints.

Definition fresh_writer_count_for_endpoints (p : MePool) (generation : Z) (endpoints : gset SocketAddr) : Z :=
  zlen (filter (fun w => mw_addr w ∈ endpoints)
          (filter (fun w => mw_generation w = generation) (filter (fun w => not_draining p w = true) (mp_writers p)))).

Definition active_writer_count_for_endpoints (p : MePool) (endpoints : gset SocketAddr) : Z :=
  zlen (filter (fun w => mw_addr w ∈ endpoints) (filter (fun w => not_draining p w = true) (mp_writers p))).

(** ** Delays of the warm-up (pool_reinit.rs:151-175); [draw lo hi] is the random number between the bounds *)

Definition hardswap_warmup_connect_delay_ms (draw : Z -> Z -> Z) (p : MePool) : Z :=
  let min_ms := hardswap_warmup_delay_min_ms (pc_policy (mp_cfg p)) in
  let max_ms := hardswap_warmup_delay_max_ms (pc_policy (mp_cfg p)) in
  let '(min_ms, max_ms) := if min_ms <=? max_ms then (min_ms, max_ms) else (max_ms, min_ms) in
  if min_ms =? max_ms then min_ms else draw min_ms max_ms.

Definition hardswap_warmup_backoff_ms (draw : Z -> Z -> Z) (p : MePool) (pass_idx : Z) : Z :=
  let base_ms := hardswap_warmup_pass_backoff_base_ms (pc_policy (mp_cfg p)) in
  let cap_ms := Z.max (pc_reconnect_backoff_cap_ms (mp_cfg p)) base_ms in
  let shift := Z.min (u32 pass_idx) 20 in
  let scaled := Z.min (base_ms * Z.shiftl 1 shift) (2 ^ 64 - 1) in
  let core := Z.min scaled cap_ms in
  let jitter := Z.max (core / 2) 1 in
  Z.min (core + draw 0 jitter) (2 ^ 64 - 1).

(** ** The choice of the generation (pool_reinit.rs:318-369) *)

Definition next_generation (p : MePool) : Z * MePool :=
  let g := u64 (gen_generation (mp_gens p) + 1) in (g, set_generation p g).

(** [generation.fetch_add(1) + 1] wraps around, and overflows only after 2^64 changes. *)
Definition choose_generation (now_epoch_secs map_hash : Z) (p : MePool) : Z * MePool :=
  if hardswap (pc_policy (mp_cfg p)) then
    let s := mp_gens p in
    let pending_age_secs := sat_sub now_epoch_secs (gen_pending_started_at_epoch_secs s) in
    let pending_ttl_expired :=
      (0 <? gen_pending_started_at_epoch_secs s) && (ME_HARDSWAP_PENDING_TTL_SECS <? pending_age_secs) in
    let pending_matches_map := negb (gen_pending_map_hash s =? 0) && (gen_pending_map_hash s =? map_hash) in
    if negb (gen_pending s =? 0) && (current_generation p <=? gen_pending s) && pending_matches_map && negb pending_ttl_expired then
      (gen_pending s, with_stats p (increment_me_hardswap_pending_reuse_total (mp_stats p)))
    else
      let p := if negb (gen_pending s =? 0) && pending_ttl_expired
               then with_stats p (increment_me_hardswap_pending_ttl_expired_total (mp_stats p)) else p in
      let '(g, p) := next_generation p in
      (g, set_pending p g now_epoch_secs map_hash g)
  else next_generation (clear_pending_hardswap_state p).

(** ** The decision (pool_reinit.rs:379-487)

    It is taken under the lock of the writer list, so the list does not change between the checks and the choice of the
    stale writers. *)

Definition fresh_missing_dc (p : MePool) (generation : Z) (desired_by_dc : Desired) : list (Z * Z * Z) :=
  (fun e : Z * gset SocketAddr =>
     (e.1, fresh_writer_count_for_endpoints p generation e.2, required_writers_for_dc p (Z.of_nat (size e.2)))) <$>
  filter (fun e : Z * gset SocketAddr =>
    e.2 <> ∅ /\ fresh_writer_count_for_endpoints p generation e.2 < required_writers_for_dc p (Z.of_nat (size e.2))) (map_to_list desired_by_dc).

Definition desired_addrs (desired_by_dc : Desired) : gset SocketAddr := union_list (map_to_list desired_by_dc).*2.

Definition stale_writer_ids (p : MePool) (generation : Z) (desired_by_dc : Desired) (is_hardswap : bool) : list Z :=
  mw_id <$> filter (fun w => (if is_hardswap then mw_generation w <? generation else negb (bool_decide (mw_addr w ∈ desired_addrs desired_by_dc))) = true)
              (filter (fun w => not_draining p w = true) (mp_writers p)).

Definition drain_stale (e : PoolEnv) (p : MePool) (ids : list Z) (is_hardswap : bool) : MePool :=
  foldl (fun p id => mark_writer_draining_with_timeout e p id (force_close_timeout p) (negb is_hardswap)) p ids.

Definition reinit_commit (e : PoolEnv) (p : MePool) (generation : Z) (desired_by_dc : Desired) (is_hardswap : bool) : MePool :=
  let '(covered, total, missing_dc) := coverage_ratio desired_by_dc (active_writer_addrs p) in
  if negb is_hardswap && below_min_ratio p covered total then p
  else if is_hardswap && negb (bool_decide (fresh_missing_dc p generation desired_by_dc = [])) then p
  else if negb is_hardswap && negb (bool_decide (missing_dc = [])) then p
  else
    let p := if is_hardswap then promote_warm_generation_to_active p generation else p in
    let stale := stale_writer_ids p generation desired_by_dc is_hardswap in
    match stale with
    | [] => if is_hardswap then clear_pending_hardswap_state p else p
    | _ =>
        let p := with_stats p (increment_pool_swap_total (mp_stats p)) in
        let p := drain_stale e p stale is_hardswap in
        if is_hardswap then clear_pending_hardswap_state p else p
    end.

(** ** The whole cycle (pool_reinit.rs:93-123, 201-377) *)

Section Reinit.
Variable env : nat -> PoolEnv.
Variable other : nat -> MePool -> MePool.
Variable hash_endpoints : list (Z * list SocketAddr) -> Z.
Variable map_order : Desired -> list (Z * gset SocketAddr).

Fixpoint reconcile_families (current : gset SocketAddr) (families : list IpFamily) : SendM unit :=
  match families with
  | [] => mret tt
  | family :: families =>
      e ← observe env other;
      p ← get_pool;
      _ ← for_each (fun entry : Z * list (IpAddr * Z) =>
             let dc_addrs := endpoints_of (Some entry.2) in
             if existsb (fun a => bool_decide (a ∈ current)) dc_addrs then mret tt
             else connect_first env other (pe_shuffle e entry.2))
           (pe_map_order e (proxy_map_for_family p family));
      if negb (effective_multipath (pc_decision (mp_cfg p))) && negb (bool_decide (current = ∅)) then mret tt
      else reconcile_families current families
  end.

Definition reconcile_connections : SendM unit :=
  _ ← observe env other;
  p ← get_pool;
  reconcile_families (active_writer_addrs p) (family_order p).

(** [missing] attempts, each after a delay. *)
Fixpoint warmup_attempts (missing : nat) (endpoint_list : list SocketAddr) (generation : Z) : SendM unit :=
  match missing with
  | O => mret tt
  | S missing =>
      _ ← observe env other;
      _ ← connect_endpoints_round_robin_with_generation_contour env other endpoint_list generation Warm;
      warmup_attempts missing endpoint_list generation
  end.

Fixpoint warmup_passes (passes : nat) (endpoints : gset SocketAddr) (required last_fresh_count generation : Z) : SendM unit :=
  match passes with
  | O => mret tt
  | S passes =>
      if required <=? last_fresh_count then mret tt
      else
        _ ← warmup_attempts (Z.to_nat (sat_sub required last_fresh_count)) (sorted_endpoints endpoints) generation;
        _ ← observe env other;
        p ← get_pool;
        let last_fresh_count := fresh_writer_count_for_endpoints p generation endpoints in
        if required <=? last_fresh_count then mret tt
        else warmup_passes passes endpoints required last_fresh_count generation
  end.

Definition warmup_generation_for_all_dcs (generation : Z) (desired_by_dc : Desired) : SendM unit :=
  p ← get_pool;
  let total_passes := 1 + Z.min (hardswap_warmup_extra_passes (pc_policy (mp_cfg p))) 10 in
  for_each (fun entry : Z * gset SocketAddr =>
      if bool_decide (entry.2 = ∅) then mret tt
      else
        _ ← observe env other;
        p ← get_pool;
        let required := required_writers_for_dc p (Z.of_nat (size entry.2)) in
        warmup_passes (Z.to_nat total_passes) entry.2 required (fresh_writer_count_for_endpoints p generation entry.2) generation)
    (map_order desired_by_dc).

Definition zero_downtime_reinit_after_map_change : SendM unit :=
  e ← observe env other;
  p ← get_pool;
  let desired_by_dc := desired_dc_endpoints p in
  if bool_decide (desired_by_dc = ∅) then mret tt
  else
    let map_hash := desired_map_hash hash_endpoints desired_by_dc in
    let is_hardswap := hardswap (pc_policy (mp_cfg p)) in
    generation ← atomically (choose_generation (pe_epoch_secs e) map_hash);
    _ ← if is_hardswap then
          _ ← modify (fun p => set_active_and_warm p (gen_active (mp_gens p)) generation);
          warmup_generation_for_all_dcs generation desired_by_dc
        else reconcile_connections;
    e ← observe env other;
    modify (fun p => reinit_commit e p generation desired_by_dc is_hardswap).

Definition zero_downtime_reinit_periodic : SendM unit := zero_downtime_reinit_after_map_change.

End Reinit.

(** ** Draining leaves the other writers alone *)

Definition same_list (p p' : MePool) : Prop := mp_writers p' = mp_writers p /\ mp_cfg p' = mp_cfg p /\ mp_gens p' = mp_gens p.

Lemma mark_draining_keeps e p id timeout allow :
  let p' := mark_writer_draining_with_timeout e p id timeout allow in
  same_list p p' /\ forall w, mw_id w <> id -> not_draining p' w = not_draining p w.
Proof.
  unfold mark_writer_draining_with_timeout. destruct (find_writer (mp_writers p) id); [|done].
  assert (forall w, mw_id w <> id -> not_draining (upd_shared p id (set_draining allow (pe_epoch_secs e))) w = not_draining p w) as H.
  { intros w Hw. unfold not_draining, shared. cbn. by rewrite lookup_insert_ne. }
  destruct (ws_draining _); split; try done.
Qed.

Lemma drain_stale_keeps e ids hs : forall p,
  let p' := drain_stale e p ids hs in
  same_list p p' /\ forall w, mw_id w ∉ ids -> not_draining p' w = not_draining p w.
Proof.
  unfold drain_stale. induction ids as [|id ids IH]; intros p; cbn [foldl]; [done|].
  destruct (mark_draining_keeps e p id (force_close_timeout p) (negb hs)) as [(H1 & H2 & H3) Hd].
  destruct (IH (mark_writer_draining_with_timeout e p id (force_close_timeout p) (negb hs))) as [(G1 & G2 & G3) Gd].
  split; [split_and!; congruence|]. intros w [Hne Hw]%not_elem_of_cons. by rewrite Gd, Hd.
Qed.

Lemma promote_keeps p g :
  let p' := promote_warm_generation_to_active p g in
  mp_writers p' = mp_writers p /\ mp_cfg p' = mp_cfg p /\ current_generation p' = g /\ forall w, not_draining p' w = not_draining p w.
Proof.
  cut (forall ws p, let p' := foldl (fun p w =>
      if ws_draining (shared p (mw_id w)) then p
      else if mw_generation w =? g then upd_shared p (mw_id w) (set_contour Active) else p) p ws in
    same_list p p' /\ forall w, not_draining p' w = not_draining p w).
  { intros H. unfold promote_warm_generation_to_active. destruct (H (mp_writers p) (set_active_and_warm p g 0)) as [(H1 & H2 & H3) Hd].
    split_and!; [done|done|exact (f_equal gen_active H3)|done]. }
  induction ws as [|x ws IH]; intros q; cbn [foldl]; [done|].
  match goal with |- context [foldl _ ?q1 ws] => destruct (IH q1) as [(H1 & H2 & H3) Hd];
    assert (same_list q q1 /\ forall w, not_draining q1 w = not_draining q w) as [(G1 & G2 & G3) Gd] end.
  - destruct (ws_draining (shared q (mw_id x))) eqn:E; [done|]. destruct (mw_generation x =? g); [|done]. split; [done|].
    intros w. unfold not_draining. unfold shared at 1. cbn. destruct (decide (mw_id w = mw_id x)) as [->|Hne];
      [rewrite lookup_insert_eq; cbn; by rewrite E|by rewrite lookup_insert_ne].
  - split; [split_and!; congruence|]. intros w. by rewrite Hd, Gd.
Qed.

(** The stale writers are those of older generations, or those whose endpoint is no longer wanted. *)
Definition stale (generation : Z) (desired_by_dc : Desired) (is_hardswap : bool) (w : MeWriter) : Prop :=
  if is_hardswap then mw_generation w < generation else mw_addr w ∉ desired_addrs desired_by_dc.

Lemma elem_of_stale p g desired hs w :
  NoDup (mw_id <$> mp_writers p) -> w ∈ mp_writers p -> mw_id w ∈ stale_writer_ids p g desired hs -> stale g desired hs w.
Proof.
  intros Hnd Hw (x & Ex & [Hs [_ Hx]%list_elem_of_filter]%list_elem_of_filter)%list_elem_of_fmap.
  assert (w = x) as ->.
  { clear Hs. induction (mp_writers p) as [|y ws IH]; [by apply not_elem_of_nil in Hw|]. rewrite fmap_cons in Hnd.
    apply NoDup_cons in Hnd as [Hy Hnd]. apply elem_of_cons in Hw as [->|Hw], Hx as [->|Hx]; [done| | |by apply IH].
    - destruct Hy. rewrite Ex. by apply list_elem_of_fmap_2.
    - destruct Hy. rewrite <-Ex. by apply list_elem_of_fmap_2. }
  unfold stale. destruct hs; [by apply Z.ltb_lt|]. by apply negb_true_iff, bool_decide_eq_false in Hs.
Qed.

Lemma fresh_count_ext p p' g endpoints :
  mp_writers p' = mp_writers p -> (forall w, w ∈ mp_writers p -> mw_generation w = g -> not_draining p' w = not_draining p w) ->
  fresh_writer_count_for_endpoints p' g endpoints = fresh_writer_count_for_endpoints p g endpoints.
Proof.
  intros Ew H. unfold fresh_writer_count_for_endpoints. rewrite Ew. do 2 f_equal. revert H. generalize (mp_writers p) as ws. intros ws.
  induction ws as [|w ws IH]; intros H; [done|]. rewrite !(filter_cons (fun w => not_draining _ w = true)).
  assert (mw_generation w = g -> not_draining p' w = not_draining p w) as Hw by (apply H; by left).
  assert (filter (fun w => mw_generation w = g) (filter (fun w => not_draining p' w = true) ws) =
          filter (fun w => mw_generation w = g) (filter (fun w => not_draining p w = true) ws)) as IH'
    by (apply IH; intros x Hx; apply H; by right).
  repeat case_decide; rewrite ?filter_cons; repeat case_decide; rewrite ?IH'; try done; exfalso; by (rewrite Hw in *).
Qed.

Lemma sort_by_nil {A} cmp (l : list A) : sort_by cmp l = [] -> l = [].
Proof. intros E. pose proof (sort_by_perm cmp l) as H. rewrite E in H. by apply Permutation_nil. Qed.

Lemma filter_nil_all {A} (P : A -> Prop) `{!forall x, Decision (P x)} (l : list A) : filter P l = [] -> forall x, x ∈ l -> ~ P x.
Proof. intros E x Hx Hp. apply (not_elem_of_nil x). rewrite <-E. by apply list_elem_of_filter. Qed.

(** With nothing missing, every data centre that wants endpoints has a writer at one of them. *)
Lemma covered_writer p desired dc endpoints :
  snd (coverage_ratio desired (active_writer_addrs p)) = [] -> desired !! dc = Some endpoints -> endpoints <> ∅ ->
  exists w, w ∈ mp_writers p /\ not_draining p w = true /\ mw_addr w ∈ endpoints.
Proof.
  unfold coverage_ratio. case_bool_decide as Ed; [subst; by rewrite lookup_empty|]. cbn [snd].
  intros E%sort_by_nil%fmap_nil_inv Hdc Hne. apply elem_of_map_to_list in Hdc.
  assert (covers (active_writer_addrs p) endpoints <> false) as Hc.
  { apply (filter_nil_all _ _ E (dc, endpoints)). by apply list_elem_of_filter. }
  apply not_false_iff_true, bool_decide_eq_true, set_choose_L in Hc as [a [Ha Hact]%elem_of_intersection].
  apply elem_of_list_to_set, list_elem_of_fmap in Hact as (w & -> & [Hn Hw]%list_elem_of_filter). by exists w.
Qed.

Lemma fresh_complete p g desired dc endpoints :
  fresh_missing_dc p g desired = [] -> desired !! dc = Some endpoints -> endpoints <> ∅ ->
  required_writers_for_dc p (Z.of_nat (size endpoints)) <= fresh_writer_count_for_endpoints p g endpoints.
Proof.
  intros E%fmap_nil_inv Hdc Hne. apply elem_of_map_to_list in Hdc.
  pose proof (filter_nil_all _ _ E (dc, endpoints) Hdc) as H. cbn in H. destruct (Z.le_gt_cases
    (required_writers_for_dc p (Z.of_nat (size endpoints))) (fresh_writer_count_for_endpoints p g endpoints)); [done|].
  destruct H. split; [done|lia].
Qed.

Lemma required_ext p p' n : mp_cfg p' = mp_cfg p -> required_writers_for_dc p' n = required_writers_for_dc p n.
Proof. intros E. unfold required_writers_for_dc. by rewrite E. Qed.

(** What a commit that drains something has checked and done. *)
Lemma reinit_commit_drains e p g desired hs w :
  let p' := reinit_commit e p g desired hs in
  not_draining p' w <> not_draining p w ->
  (if hs then fresh_missing_dc p g desired = [] else snd (coverage_ratio desired (active_writer_addrs p)) = []) /\
  exists ids : list Z, (forall x, mw_id x ∉ ids -> not_draining p' x = not_draining p x) /\
    (forall x, NoDup (mw_id <$> mp_writers p) -> x ∈ mp_writers p -> mw_id x ∈ ids -> stale g desired hs x) /\
    mp_writers p' = mp_writers p /\ mp_cfg p' = mp_cfg p /\ (hs = true -> current_generation p' = g).
Proof.
  unfold reinit_commit. destruct (coverage_ratio desired (active_writer_addrs p)) as [[covered total] missing]. cbn [snd].
  destruct hs; cbn [negb andb].
  - case_bool_decide as Ef; cbn [negb]; [|done]. destruct (promote_keeps p g) as (Ew & Ec & Eg & Ed).
    set (q := promote_warm_generation_to_active p g) in *.
    assert (forall x, not_draining (clear_pending_hardswap_state x) w = not_draining x w) as Hclear by done.
    destruct (stale_writer_ids q g desired true) as [|id ids] eqn:Es; [by rewrite Hclear, Ed|]. rewrite <-Es. intros _.
    split; [done|]. exists (stale_writer_ids q g desired true).
    destruct (drain_stale_keeps e (stale_writer_ids q g desired true) true (with_stats q (increment_pool_swap_total (mp_stats q)))) as [(H1 & H2 & H3) Hd].
    split_and!.
    + intros x Hx. etrans; [exact (Hd x Hx)|]. apply Ed.
    + intros x Hnd Hx Hid. apply (elem_of_stale q); [by rewrite Ew|by rewrite Ew|done].
    + etrans; [exact H1|exact Ew].
    + etrans; [exact H2|exact Ec].
    + intros _. etrans; [exact (f_equal gen_active H3)|exact Eg].
  - destruct (below_min_ratio p covered total); [done|]. case_bool_decide as Em; cbn [negb]; [|done].
    destruct (stale_writer_ids p g desired false) as [|id ids] eqn:Es; [done|]. rewrite <-Es. intros _. split; [done|].
    exists (stale_writer_ids p g desired false).
    destruct (drain_stale_keeps e (stale_writer_ids p g desired false) false (with_stats p (increment_pool_swap_total (mp_stats p)))) as [(H1 & H2 & _) Hd].
    split_and!; [exact Hd|intros x Hnd Hx Hid; by apply (elem_of_stale p)|exact H1|exact H2|done].
Qed.

(** C9: the writers are replaced without an interruption.  If a cycle drains any writer, then every data centre that wants
    endpoints still has a writer that is not draining at one of them; in hardswap mode it has as many of the new
    generation as are required, and that generation has become the active one.  Only stale writers are drained, and none
    is taken off the list. *)
Theorem reinit_keeps_coverage e p g desired hs w :
  NoDup (mw_id <$> mp_writers p) ->
  let p' := reinit_commit e p g desired hs in
  w ∈ mp_writers p -> not_draining p w = true -> not_draining p' w = false ->
  stale g desired hs w /\ mp_writers p' = mp_writers p /\ (hs = true -> current_generation p' = g) /\
  forall dc endpoints, desired !! dc = Some endpoints -> endpoints <> ∅ ->
    (exists x, x ∈ mp_writers p' /\ not_draining p' x = true /\ mw_addr x ∈ endpoints) /\
    (hs = true -> required_writers_for_dc p' (Z.of_nat (size endpoints)) <= fresh_writer_count_for_endpoints p' g endpoints).
Proof.
  intros Hnd p' Hw Hn Hn'. destruct (reinit_commit_drains e p g desired hs w) as (Hchk & ids & Hkeep & Hstale & Ew & Ec & Eg).
  { fold p'. congruence. }
  fold p' in Hkeep, Ew, Ec, Eg. split_and!; [|done|done|].
  { apply Hstale; [done|done|]. destruct (decide (mw_id w ∈ ids)) as [|Hni]; [done|]. rewrite (Hkeep w Hni) in Hn'. congruence. }
  intros dc endpoints Hdc Hne. destruct hs.
  - assert (fresh_writer_count_for_endpoints p' g endpoints = fresh_writer_count_for_endpoints p g endpoints) as Ef.
    { apply fresh_count_ext; [done|]. intros x Hx Hg. apply Hkeep. intros Hid. apply (Hstale x Hnd Hx) in Hid. cbn in Hid. lia. }
    pose proof (fresh_complete p g desired dc endpoints Hchk Hdc Hne) as Hr. rewrite Ef, (required_ext p p') by done.
    split; [|done]. assert (0 < fresh_writer_count_for_endpoints p' g endpoints) as Hpos.
    { rewrite Ef. eapply Z.lt_le_trans; [|exact Hr]. unfold required_writers_for_dc.
      assert (size endpoints <> 0%nat) by (by intros E%size_empty_inv%leibniz_equiv). repeat case_match; lia. }
    unfold fresh_writer_count_for_endpoints in Hpos. destruct (filter _ (filter _ (filter _ (mp_writers p')))) as [|x l] eqn:El; [by cbn in Hpos|].
    assert (x ∈ x :: l) as Hx by by left. rewrite <-El in Hx. rewrite !list_elem_of_filter in Hx. naive_solver.
  - destruct (covered_writer p desired dc endpoints Hchk Hdc Hne) as (x & Hx & Hxn & Hxa). split; [|done].
    exists x. rewrite Ew. split_and!; [done| |done]. rewrite Hkeep; [done|]. intros Hid. apply (Hstale x Hnd Hx) in Hid.
    apply Hid. unfold desired_addrs. apply elem_of_union_list. exists endpoints. split; [|done].
    apply list_elem_of_fmap. exists (dc, endpoints). split; [done|]. by apply elem_of_map_to_list.
Qed.

(** Generations only grow: nothing is ahead of the counter, and the active generation is not ahead of a pending one that
    is reused. *)
Definition gens_ok (p : MePool) : Prop :=
  let s := mp_gens p in 0 < gen_active s <= gen_generation s /\ 0 <= gen_pending s <= gen_generation s.

(** A cycle works on a generation at least as new as the active one; in hardswap mode it is recorded as pending, and it is the
    one of an earlier cycle only if that one was for the same map and not more than half an hour ago; otherwise it is newer
    than every generation so far. *)
Theorem choose_generation_spec now map_hash p :
  gens_ok p -> gen_generation (mp_gens p) + 1 < 2 ^ 64 ->
  let '(g, p') := choose_generation now map_hash p in
  gens_ok p' /\ current_generation p <= g /\ current_generation p' = current_generation p /\
  (hardswap (pc_policy (mp_cfg p)) = true -> gen_pending (mp_gens p') = g) /\
  (g = gen_generation (mp_gens p) + 1 \/
   (g = gen_pending (mp_gens p) /\ gen_pending_map_hash (mp_gens p) = map_hash /\
    (0 < gen_pending_started_at_epoch_secs (mp_gens p) ->
     now - gen_pending_started_at_epoch_secs (mp_gens p) <= ME_HARDSWAP_PENDING_TTL_SECS))).
Proof.
  intros [Ha Hp] Hlt. unfold choose_generation, next_generation, gens_ok, current_generation, sat_sub in *.
  assert (u64 (gen_generation (mp_gens p) + 1) = gen_generation (mp_gens p) + 1) as Eu by (unfold u64; rewrite Z.mod_small; lia).
  destruct (hardswap (pc_policy (mp_cfg p))); cbn [mp_gens clear_pending_hardswap_state set_pending with_gens gen_generation]; [|
    rewrite Eu; cbn; split_and!; try done; try lia; by left].
  set (expired := (0 <? gen_pending_started_at_epoch_secs (mp_gens p)) && (_ <? _)).
  destruct (negb (gen_pending (mp_gens p) =? 0) && (gen_active (mp_gens p) <=? gen_pending (mp_gens p)) && _ && negb expired) eqn:E.
  - apply andb_true_iff in E as [E Hexp%negb_true_iff]. apply andb_true_iff in E as [E Hm]. apply andb_true_iff in E as [E Hle].
    apply andb_true_iff in Hm as [_ Hm]. cbn. split_and!; try done; try lia. right. split_and!; [done|lia|]. intros Hpos.
    apply andb_false_iff in Hexp as [?|?]; lia.
  - destruct (negb _ && expired); cbn; rewrite Eu; cbn; split_and!; try done; try lia; by left.
Qed.

(** The delays of the warm-up stay within what is configured. *)
Lemma warmup_delay_bounds draw p :
  (forall lo hi, lo <= hi -> lo <= draw lo hi <= hi) ->
  let lo := hardswap_warmup_delay_min_ms (pc_policy (mp_cfg p)) in
  let hi := hardswap_warmup_delay_max_ms (pc_policy (mp_cfg p)) in
  Z.min lo hi <= hardswap_warmup_connect_delay_ms draw p <= Z.max lo hi.
Proof.
  intros Hd lo hi. unfold hardswap_warmup_connect_delay_ms. fold lo hi. destruct (Z.leb_spec lo hi).
  - destruct (Z.eqb_spec lo hi); [lia|]. specialize (Hd lo hi). lia.
  - destruct (Z.eqb_spec hi lo); [lia|]. specialize (Hd hi lo). lia.
Qed.

Lemma warmup_backoff_bounds draw p pass_idx :
  (forall lo hi, lo <= hi -> lo <= draw lo hi <= hi) -> 0 <= pass_idx ->
  0 <= hardswap_warmup_pass_backoff_base_ms (pc_policy (mp_cfg p)) < 2 ^ 64 -> 0 <= pc_reconnect_backoff_cap_ms (mp_cfg p) < 2 ^ 64 ->
  let base := hardswap_warmup_pass_backoff_base_ms (pc_policy (mp_cfg p)) in
  let cap := Z.max (pc_reconnect_backoff_cap_ms (mp_cfg p)) base in
  base <= hardswap_warmup_backoff_ms draw p pass_idx <= Z.min (cap + cap / 2 + 1) (2 ^ 64 - 1).
Proof.
  intros Hd Hi Hb Hc base cap. unfold hardswap_warmup_backoff_ms. fold base cap.
  assert (1 <= Z.shiftl 1 (Z.min (u32 pass_idx) 20)) as Hs.
  { rewrite Z.shiftl_mul_pow2 by (unfold u32; pose proof (Z.mod_pos_bound pass_idx (2 ^ 32)); lia).
    pose proof (Z.pow_pos_nonneg 2 (Z.min (u32 pass_idx) 20)) as H. unfold u32 in *. pose proof (Z.mod_pos_bound pass_idx (2 ^ 32)). lia. }
  set (sh := Z.shiftl 1 _) in *. assert (base <= base * sh) by nia.
  set (core := Z.min (Z.min (base * sh) (2 ^ 64 - 1)) cap). assert (base <= core <= cap) as Hcore by (unfold core, cap, base in *; lia).
  assert (core / 2 <= cap / 2) by (apply Z.div_le_mono; lia).
  specialize (Hd 0 (Z.max (core / 2) 1)). pose proof (Z.div_pos core 2). unfold base in *. lia.
Qed.

(** ** An example *)

Section ReinitWitnesses.

(** One writer of the first generation and the three of the second that a single endpoint asks for. *)
Definition demo_two_generations : MePool :=
  foldl (fun p g => register_writer p demo_me_endpoint g 0 Warm) demo_pool_new [1; 2; 2; 2].

Definition demo_endpoints : gset SocketAddr := {[demo_me_endpoint]}.
Definition demo_desired : gmap Z (gset SocketAddr) := {[2 := demo_endpoints]}.
Abbreviation demo_committed := (reinit_commit demo_pool_env demo_two_generations 2 demo_desired true) (only parsing).

Lemma reinit_keeps_coverage_witness :
  not_draining demo_committed (mkMeWriter 1 demo_me_endpoint 1 0) = false /\ current_generation demo_committed = 2 /\
  required_writers_for_dc demo_committed (Z.of_nat (size demo_endpoints)) <=
    fresh_writer_count_for_endpoints demo_committed 2 demo_endpoints.
Proof.
  split; [vm_compute; reflexivity|].
  destruct (reinit_keeps_coverage demo_pool_env demo_two_generations 2 demo_desired true (mkMeWriter 1 demo_me_endpoint 1 0))
    as (_ & _ & Hg & Hc).
  - apply (bool_decide_unpack _). vm_compute. exact I.
  - vm_compute. left.
  - vm_compute. reflexivity.
  - vm_compute. reflexivity.
  - split; [exact (Hg eq_refl)|]. refine (proj2 (Hc 2 demo_endpoints _ _) eq_refl); [apply lookup_singleton_eq|].
    apply non_empty_singleton_L.
Defined.

End ReinitWitnesses.
