(* ===== verification/MeInit.v ===== *)
(** * Starting the pool: [transport/middle_proxy/pool_init.rs]

    For each address family every data centre without a live writer gets one, the data centres in parallel and for each of
    them up to two connections at a time; then reserve writers are made in the background.  The parallel tasks are states
    that a scheduler advances one connection attempt at a time, between the actions of other tasks ([MeSend]). *)

From stdpp Require Import gmap sorting pretty.
From S2P Require Import Prelude NetAddr AddrOrder Errors Stun NetProbe Stats MeHandshake Registry MePool MeSend MeRefill MeReinit MeHealth.

(** ** The groups of endpoints (pool_init.rs:27-45) *)

Abbreviation DcAddrs := (list (Z * list SocketAddr)) (only parsing).

Definition dc_le (a b : Z * list SocketAddr) : Prop := a.1 <= b.1.
#[export] Instance dc_le_dec a b : Decision (dc_le a b).
Proof. unfold dc_le. apply _. Defined.

(** Without entries that have no endpoint, by data centre. *)
Definition init_dc_addrs (map : ProxyMap) : DcAddrs :=
  merge_sort dc_le (filter (fun e => e.2 <> []) (map_to_list (dc_endpoints map))).

(** ** A data centre's first writer (pool_init.rs:136-197) *)

(** [connect_primary_for_dc] between two waits: its shuffled addresses, the index of the next one, and the attempts that run. *)
Record Primary := mkPrimary { pr_addrs : list SocketAddr; pr_next_idx : nat; pr_running : list SocketAddr }.

Definition CONCURRENCY : nat := 2.

(** [while next_idx < addrs.len() && join.len() < concurrency]: the room is filled. *)
Definition start_attempts (t : Primary) : Primary :=
  let room := (CONCURRENCY - length (pr_running t))%nat in
  let started := take room (drop (pr_next_idx t) (pr_addrs t)) in
  mkPrimary (pr_addrs t) (pr_next_idx t + length started) (pr_running t ++ started).

Definition connect_primary (addrs : list SocketAddr) : Primary := start_attempts (mkPrimary addrs 0 []).

(** The attempts a task can still finish. *)
Definition attempts_left (t : Primary) : nat := length (pr_addrs t) - pr_next_idx t + length (pr_running t).
Definition all_attempts (tasks : list Primary) : nat := foldr Nat.add 0%nat (attempts_left <$> tasks).

Section Init.
Variable env : nat -> PoolEnv.
Variable other : nat -> MePool -> MePool.
(** The task and the attempt that end next; whether an attempt that is aborted has been made all the same; how far the tasks
    have come when the next one is spawned; and the shuffled order of addresses. *)
Variable pick : nat -> nat * nat.
Variable late : nat -> bool.
Variable early : nat -> nat.
Variable shuffle : nat -> list SocketAddr -> list SocketAddr.
Variable stagger : bool.

Definition aborted (addr : SocketAddr) : SendM unit := fun w =>
  if late (wd_n w) then (tt, snd (try_connect_one env other addr w)) else (tt, snd (observe env other w)).

(** One attempt ends; a success aborts the others and ends the task, and so does the last failure. *)
Definition finish_attempt (t : Primary) (i : nat) (addr : SocketAddr) : SendM (option Primary) :=
  ok ← try_connect_one env other addr;
  let rest := delete i (pr_running t) in
  if (ok : bool) then _ ← for_each aborted rest; mret None
  else
    let t := start_attempts (mkPrimary (pr_addrs t) (pr_next_idx t) rest) in
    mret (if decide (pr_running t = []) then None else Some t).

Definition finish_some (tasks : list Primary) : SendM (list Primary) := fun w =>
  let '(i, j) := pick (wd_n w) in
  let i := (i mod length tasks)%nat in
  match tasks !! i with
  | None => (tasks, w)
  | Some t =>
      let j := (j mod length (pr_running t))%nat in
      match pr_running t !! j with
      | None => (delete i tasks, w)
      | Some addr =>
          let '(r, w) := finish_attempt t j addr w in
          (match r with Some t => <[i := t]> tasks | None => delete i tasks end, w)
      end
  end.

(** So many attempts end, or all that there are. *)
Fixpoint run_primaries (fuel : nat) (tasks : list Primary) : SendM (list Primary) :=
  match fuel, tasks with
  | O, _ | _, [] => mret tasks
  | S fuel, _ => tasks ← finish_some tasks; run_primaries fuel tasks
  end.

(** ** Initialisation (pool_init.rs:14-134) *)

Definition shuffled (addrs : list SocketAddr) : SendM (list SocketAddr) := fun w => (shuffle (wd_n w) addrs, w).
Definition progress : SendM nat := fun w => (early (wd_n w), w).

Fixpoint spawn_primaries (dc_addrs : DcAddrs) (tasks : list Primary) : SendM (list Primary) :=
  match dc_addrs with
  | [] => mret tasks
  | (_, addrs) :: dc_addrs =>
      fuel ← progress;
      tasks ← run_primaries fuel tasks;
      _ ← observe env other;
      p ← get_pool;
      if 0 <? active_writer_count_for_endpoints p (list_to_set addrs) then spawn_primaries dc_addrs tasks
      else
        addrs ← shuffled addrs;
        spawn_primaries dc_addrs (tasks ++ [connect_primary addrs])
  end.

Fixpoint missing_dcs (dc_addrs : DcAddrs) : SendM (list Z) :=
  match dc_addrs with
  | [] => mret []
  | (dc, addrs) :: dc_addrs =>
      _ ← observe env other;
      p ← get_pool;
      missing ← missing_dcs dc_addrs;
      mret (if active_writer_count_for_endpoints p (list_to_set addrs) =? 0 then dc :: missing else missing)
  end.

(** [{:?}] of the list. *)
Definition debug_list (l : list Z) : string := ("[" +:+ String.concat ", " (pretty <$> l) +:+ "]")%string.
Definition init_incomplete (missing : list Z) : ProxyError :=
  PE_Proxy ("ME init incomplete: no live writers for DC groups " +:+ debug_list missing)%string.

Definition init_family (family : IpFamily) : SendM (result ProxyError DcAddrs) :=
  _ ← observe env other;
  p ← get_pool;
  let dc_addrs := init_dc_addrs (proxy_map_for_family p family) in
  tasks ← spawn_primaries dc_addrs [];
  _ ← run_primaries (S (all_attempts tasks)) tasks;
  missing ← missing_dcs dc_addrs;
  mret (if decide (missing = []) then Ok dc_addrs else Err (init_incomplete missing)).

(** The groups whose background tasks were spawned come along. *)
Fixpoint init_families (families : list IpFamily) (spawned : list DcAddrs) : SendM (result ProxyError unit * list DcAddrs) :=
  match families with
  | [] => mret (Ok tt, spawned)
  | family :: families =>
      r ← init_family family;
      match r with
      | Err e => mret (Err e, spawned)
      | Ok dc_addrs =>
          let spawned := spawned ++ [dc_addrs] in
          p ← get_pool;
          if negb (effective_multipath (pc_decision (mp_cfg p))) && (0 <? connection_count p) then mret (Ok tt, spawned)
          else init_families families spawned
      end
  end.

Definition init : SendM (result ProxyError unit * list DcAddrs) :=
  p ← get_pool;
  r ← init_families (family_order p) [];
  match r.1 with
  | Err _ => mret r
  | Ok _ =>
      _ ← observe env other;
      p ← get_pool;
      mret (if decide (mp_writers p = []) then Err (PE_Proxy "No ME connections") else Ok tt, r.2)
  end.

(** ** The reserve (pool_init.rs:77-120) *)

(** One data centre's endpoints; with [stagger] there is a pause before each. *)
Fixpoint warm_dc (pool_size : Z) (addrs : list SocketAddr) : SendM unit :=
  match addrs with
  | [] => mret tt
  | addr :: addrs =>
      _ ← observe env other;
      p ← get_pool;
      if pool_size <=? connection_count p then mret tt
      else
        _ ← (if stagger then _ ← observe env other; mret tt else mret tt);
        _ ← try_connect_one env other addr;
        warm_dc pool_size addrs
  end.

Fixpoint warm_reserve (pool_size : Z) (dc_addrs : DcAddrs) : SendM unit :=
  match dc_addrs with
  | [] => mret tt
  | (_, addrs) :: dc_addrs =>
      _ ← warm_dc pool_size addrs;
      if stagger then warm_reserve pool_size dc_addrs
      else
        _ ← observe env other;
        p ← get_pool;
        if pool_size <=? connection_count p then mret tt else warm_reserve pool_size dc_addrs
  end.

End Init.

(** ** What a connection does *)

(** From [p] to [p']: [k] writers were made, and nothing else changed. *)
Record made (k : Z) (p p' : MePool) : Prop := mkMade {
  md_ok : pool_ok p';
  md_count : connection_count p' = connection_count p + k;
  md_next : mp_next_writer_id p' = mp_next_writer_id p + k;
  md_live : forall w, w ∈ live_writers p -> w ∈ live_writers p';
  md_maps : mp_maps p' = mp_maps p;
  md_cfg : mp_cfg p' = mp_cfg p;
  md_secret : mp_secret p' = mp_secret p
}.

Lemma made_refl p : pool_ok p -> made 0 p p.
Proof. intros H. split; done || lia. Qed.

Lemma made_trans k1 k2 p p1 p2 : made k1 p p1 -> made k2 p1 p2 -> made (k1 + k2) p p2.
Proof. intros [] []. split; [done|lia|lia|auto|congruence..]. Qed.

(** A data centre has a live writer. *)
Definition covered (p : MePool) (addrs : list SocketAddr) : Prop := exists w, w ∈ live_writers p /\ mw_addr w ∈ addrs.

Lemma covered_made k p p' addrs : made k p p' -> covered p addrs -> covered p' addrs.
Proof. intros Hm (w & Hw & Ha). exists w. split; [by apply (md_live _ _ _ Hm)|done]. Qed.

Lemma covered_count p addrs : covered p addrs <-> 0 < active_writer_count_for_endpoints p (list_to_set addrs).
Proof.
  assert (forall w, w ∈ filter (fun w => mw_addr w ∈ (list_to_set addrs : gset SocketAddr)) (filter (fun w => not_draining p w = true) (mp_writers p)) <->
    w ∈ live_writers p /\ mw_addr w ∈ addrs) as Hel.
  { intros w. unfold live_writers, not_draining. rewrite !list_elem_of_filter, elem_of_list_to_set, negb_true_iff. tauto. }
  unfold active_writer_count_for_endpoints. split.
  - intros (w & Hw). apply Hel in Hw. destruct (filter _ (filter _ _)) as [|x l]; [by apply elem_of_nil in Hw|]. rewrite zlen_cons. pose proof (zlen_nonneg l). lia.
  - intros Hpos. destruct (filter _ (filter _ _)) as [|w l] eqn:E; [change (zlen []) with 0 in Hpos; lia|]. exists w. apply Hel. apply list_elem_of_here.
Qed.

Lemma count_nonneg p eps : 0 <= active_writer_count_for_endpoints p eps.
Proof. apply zlen_nonneg. Qed.

(** What other tasks do meanwhile: no writer is made, lost or drained, and the configuration stays; they may bind
    clients, count, note quarantines and record what they see. *)
Definition calm_step (p p' : MePool) : Prop := made 0 p p' /\ forall w, w ∈ live_writers p' -> w ∈ live_writers p.

Lemma calm_refl p : pool_ok p -> calm_step p p.
Proof. intros Hp. split; [by apply made_refl|done]. Qed.

Lemma calm_trans p q r : calm_step p q -> calm_step q r -> calm_step p r.
Proof. intros [M1 L1] [M2 L2]. split; [exact (made_trans 0 0 _ _ _ M1 M2)|auto]. Qed.

Lemma made_calm k p q p' : calm_step p q -> made k q p' -> made k p p'.
Proof. intros [M _] M'. exact (made_trans 0 k _ _ _ M M'). Qed.

Lemma calm_made k p p' q : made k p p' -> calm_step p' q -> made k p q.
Proof. intros M [M' _]. rewrite <-(Z.add_0_r k). exact (made_trans k 0 _ _ _ M M'). Qed.

Lemma covered_calm p q addrs : calm_step p q -> covered p addrs <-> covered q addrs.
Proof. intros [M L]. split; [by apply (covered_made 0)|]. intros (w & Hw & Ha). exists w. auto. Qed.

Lemma calm_next p q : calm_step p q -> pool_ok q /\ mp_next_writer_id q = mp_next_writer_id p.
Proof. intros [M _]. split; [exact (md_ok _ _ _ M)|]. rewrite (md_next _ _ _ M). lia. Qed.

Section InitSpec.
Variable env : nat -> PoolEnv.
Variable other : nat -> MePool -> MePool.
Hypothesis calm : forall n p, pool_ok p -> calm_step p (other n p).

Lemma does_calmly {B} (k : PoolEnv -> SendM B) p Q :
  pool_ok p -> (forall n q, calm_step p q -> does (k (env n)) q Q) -> does (observe env other ≫= k) p Q.
Proof. intros Hp Hk n. unfold mbind, SendM_bind, observe. cbn [wd_n wd_pool]. by apply Hk, calm. Qed.

Lemma try_connect_made addr p0 :
  pool_ok p0 -> mp_next_writer_id p0 + 1 < 2 ^ 64 ->
  does (try_connect_one env other addr) p0 (fun ok p' =>
    made (gained ok) p0 p' /\ (ok = true -> forall addrs, addr ∈ addrs -> covered p' addrs) /\ (connects env p0 -> ok = true)).
Proof.
  intros Hp0 Hn0. unfold try_connect_one. apply does_calmly; [done|]. intros n p Hcalm. destruct (calm_next _ _ Hcalm) as [Hp Hn]. rewrite <-Hn in Hn0. clear Hn. rename Hn0 into Hn.
  apply does_atomically. apply does_ret.
  assert (forall k p', made k p p' -> made k p0 p') as Hm by (intros ? ?; by apply made_calm).
  assert (connects env p0 -> connects env p) as Hcon by (intros [? ?]; split; [by rewrite (md_secret _ _ _ (proj1 Hcalm))|done]).
  unfold connect_one, connect_one_with_generation_contour. pose proof (made_refl p Hp) as H0.
  destruct (Z.ltb_spec (zlen (ss_secret (mp_secret p))) 32); [split_and!; [by apply Hm|done|]; intros [Hs _]%Hcon; lia|].
  destruct (pe_connect (env n) addr) as [u|e] eqn:E; cbn [fst snd is_ok gained].
  - split_and!; [|intros _ addrs Ha; exists (mkMeWriter (mp_next_writer_id p) addr (current_generation p) (pe_now (env n)));
      rewrite register_live by done; split; [set_solver|done]|done].
    apply Hm. destruct (ok_next p Hp) as [Hl Hb]. pose proof (zlen_nonneg (mp_writers p)). split; try done.
    + by apply register_writer_ok.
    + unfold connection_count, register_writer. cbn. rewrite (ok_count p Hp). unfold u64. rewrite Z.mod_small by lia. done.
    + unfold register_writer. cbn. unfold u64. rewrite Z.mod_small by lia. done.
    + intros w Hw. rewrite register_live by done. set_solver.
  - split_and!; [by apply Hm|done|]. intros [_ Hall]%Hcon. destruct (Hall n addr) as [u Hu]. by rewrite Hu in E.
Qed.

Lemma connects_made k p p' : made k p p' -> connects env p -> connects env p'.
Proof. intros Hm [H1 H2]. split; [by rewrite (md_secret _ _ _ Hm)|done]. Qed.

(** ** The reserve *)

Definition reserve_addrs (dc_addrs : DcAddrs) : Z := foldr Z.add 0 ((fun e => zlen e.2) <$> dc_addrs).

(** From [p] to [p'] with [n] endpoints tried at most: the target is not exceeded, and it is reached when connections succeed. *)
Definition reserved (pool_size n : Z) (p p' : MePool) : Prop :=
  exists k, made k p p' /\ 0 <= k <= n /\ (0 < k -> connection_count p' <= pool_size) /\
    (connects env p -> connection_count p' < pool_size -> k = n).

Lemma reserved_stop size n p : pool_ok p -> 0 <= n -> size <= connection_count p \/ n = 0 -> reserved size n p p.
Proof. intros Hp Hn Hs. exists 0. split; [by apply made_refl|]. split; [lia|]. split; [lia|]. intros _ Hlt. lia. Qed.

Lemma reserved_trans size n1 n2 p p1 p' : reserved size n1 p p1 -> reserved size n2 p1 p' -> reserved size (n1 + n2) p p'.
Proof.
  intros (k1 & M1 & B1 & S1 & C1) (k2 & M2 & B2 & S2 & C2). pose proof (md_count _ _ _ M2) as E. exists (k1 + k2).
  split; [by eapply made_trans|]. split; [lia|]. split.
  - intros Hk. destruct (decide (0 < k2)); [by apply S2|]. assert (k2 = 0) as -> by lia. rewrite E, Z.add_0_r. apply S1. lia.
  - intros Hc Hlt. rewrite (C1 Hc), (C2 (connects_made _ _ _ M1 Hc)); lia.
Qed.

Lemma reserved_calm size n p q p' : calm_step p q -> reserved size n q p' -> reserved size n p p'.
Proof.
  intros Hq (k & M & B & S & C). exists k. split; [by eapply made_calm|]. split; [done|]. split; [done|]. intros Hc. apply C. exact (connects_made _ _ _ (proj1 Hq) Hc).
Qed.

Lemma reserved_ok size n p p' : reserved size n p p' -> pool_ok p' /\ mp_next_writer_id p' <= mp_next_writer_id p + n.
Proof. intros (k & M & B & _). split; [exact (md_ok _ _ _ M)|]. rewrite (md_next _ _ _ M). lia. Qed.

Variable stagger : bool.

Lemma warm_dc_spec size addrs : forall p,
  pool_ok p -> mp_next_writer_id p + zlen addrs < 2 ^ 64 -> does (warm_dc env other stagger size addrs) p (fun _ p' => reserved size (zlen addrs) p p').
Proof.
  induction addrs as [|addr addrs IH]; intros p Hp Hn; cbn [warm_dc]; [apply does_ret; apply reserved_stop; [done|apply zlen_nonneg|by right]|].
  rewrite zlen_cons in *. pose proof (zlen_nonneg addrs). apply does_calmly; [done|]. intros n q Hq. destruct (calm_next _ _ Hq) as [Hp1 Hn1]. apply does_get.
  destruct (Z.leb_spec size (connection_count q)); [apply does_ret; apply (reserved_calm _ _ _ _ _ Hq), reserved_stop; [done|lia|by left]|].
  apply (does_bind _ _ _ (fun (_ : unit) p' => calm_step q p')).
  { destruct stagger; [|by apply does_ret, calm_refl]. apply does_calmly; [done|]. intros n' q' Hq'. by apply does_ret. }
  intros _ p0 Hq0. pose proof (calm_trans _ _ _ Hq Hq0) as Hc0. clear Hp1 Hn1. destruct (calm_next _ _ Hc0) as [Hp0 Hn0]. eapply does_bind; [apply try_connect_made; [done|lia]|]. intros ok p1 (M & _ & C).
  assert (reserved size 1 p p1) as H1.
  { pose proof (md_count _ _ _ (proj1 Hq0)). apply (reserved_calm _ _ _ _ _ Hc0). exists (gained ok). split; [done|]. pose proof (md_count _ _ _ M).
    split; [by destruct ok|]. split; [destruct ok; cbn [gained] in *; lia|]. intros Hc _. by rewrite (C Hc). }
  destruct (reserved_ok _ _ _ _ H1) as [Hp1 Hn1]. eapply does_mono; [apply (IH p1); [done|lia]|]. intros u p' H2. by eapply reserved_trans.
Qed.

(** The reserve is filled and not exceeded.  With or without pauses, and whatever fails, the background task keeps every live
    writer, adds at most one for each endpoint, never makes one once the pool has its target size, and when connections succeed it stops
    only at the target or when every endpoint was used. *)
Theorem reserve_bounded size dc_addrs : forall p,
  pool_ok p -> mp_next_writer_id p + reserve_addrs dc_addrs < 2 ^ 64 ->
  does (warm_reserve env other stagger size dc_addrs) p (fun _ p' => reserved size (reserve_addrs dc_addrs) p p').
Proof.
  induction dc_addrs as [|[dc addrs] dc_addrs IH]; intros p Hp Hn; cbn [warm_reserve]; [apply does_ret; apply reserved_stop; [done|done|by right]|].
  assert (forall l : DcAddrs, 0 <= reserve_addrs l) as Hpos.
  { intros l. unfold reserve_addrs. induction l as [|e l IHl]; cbn [fmap list_fmap foldr]; [lia|]. pose proof (zlen_nonneg e.2). lia. }
  change (reserve_addrs ((dc, addrs) :: dc_addrs)) with (zlen addrs + reserve_addrs dc_addrs) in *. specialize (Hpos dc_addrs).
  eapply does_bind; [apply (warm_dc_spec size addrs); [done|lia]|]. intros u p1 H1. cbv beta in H1. destruct (reserved_ok _ _ _ _ H1) as [Hp1 Hn1].
  assert (forall q, calm_step p1 q -> does (warm_reserve env other stagger size dc_addrs) q (fun _ p' => reserved size (zlen addrs + reserve_addrs dc_addrs) p p')) as Hgo.
  { intros q Hq. destruct (calm_next _ _ Hq) as [Hpq Hnq]. eapply does_mono; [apply (IH q); [done|lia]|].
    intros u1 p' H2. exact (reserved_trans _ _ _ _ _ _ H1 (reserved_calm _ _ _ _ _ Hq H2)). }
  destruct stagger; [exact (Hgo p1 (calm_refl _ Hp1))|]. apply does_calmly; [done|]. intros n q Hq. apply does_get.
  destruct (Z.leb_spec size (connection_count q)); [|exact (Hgo q Hq)]. apply does_ret. eapply reserved_trans; [exact H1|].
  apply (reserved_calm _ _ _ _ _ Hq), reserved_stop; [exact (proj1 (calm_next _ _ Hq))|lia|by left].
Qed.

(** ** The parallel tasks *)

Variable pick : nat -> nat * nat.
Variable late : nat -> bool.

Record primary_ok (t : Primary) : Prop := mkPrimaryOk {
  po_running : forall a, a ∈ pr_running t -> a ∈ pr_addrs t;
  po_two : (length (pr_running t) <= 2)%nat;
  po_some : pr_running t <> []
}.

Lemma start_attempts_spec t :
  (forall a, a ∈ pr_running t -> a ∈ pr_addrs t) -> (length (pr_running t) <= 2)%nat ->
  let t' := start_attempts t in
  pr_addrs t' = pr_addrs t /\ (forall a, a ∈ pr_running t' -> a ∈ pr_addrs t) /\ (length (pr_running t') <= 2)%nat /\
  (attempts_left t' <= attempts_left t)%nat.
Proof.
  intros Hr Hl. unfold start_attempts, attempts_left, CONCURRENCY. cbn [pr_addrs pr_next_idx pr_running].
  set (started := take _ _). assert (length started <= length (pr_addrs t) - pr_next_idx t)%nat as H1 by (unfold started; rewrite length_take, length_drop; lia).
  assert (length started <= 2 - length (pr_running t))%nat as H2 by (unfold started; rewrite length_take; lia).
  rewrite length_app. split_and!; [done| |lia|lia]. intros a [Ha|Ha]%elem_of_app; [by apply Hr|].
  unfold started in Ha. by apply subseteq_take, subseteq_drop in Ha.
Qed.

Lemma connect_primary_ok addrs : addrs <> [] -> primary_ok (connect_primary addrs) /\ pr_addrs (connect_primary addrs) = addrs.
Proof.
  intros Hne. destruct (start_attempts_spec (mkPrimary addrs 0 [])) as (H1 & H2 & H3 & _); [by intros ? ?%elem_of_nil|cbn; lia|].
  split; [|done]. split; [done|done|]. by destruct addrs.
Qed.

Lemma aborted_made addr p :
  pool_ok p -> mp_next_writer_id p + 1 < 2 ^ 64 -> does (aborted env other late addr) p (fun _ p' => exists k, 0 <= k <= 1 /\ made k p p').
Proof.
  intros Hp Hn n. unfold aborted. cbn [wd_n]. destruct (late n).
  - cbn [snd]. destruct (try_connect_made addr p Hp Hn n) as [Hm _]. cbn [fst] in *. eexists. split; [|exact Hm]. unfold gained. by destruct (_ : bool).
  - unfold observe. cbn [snd wd_n wd_pool]. exists 0. split; [lia|]. by apply calm.
Qed.

(** How a task goes on from one attempt. *)
Definition went_on (t : Primary) (p : MePool) (r : option Primary) (p' : MePool) : Prop :=
  exists k, made k p p' /\ 0 <= k /\
  match r with
  | None => k <= 2 /\ (connects env p -> covered p' (pr_addrs t))
  | Some t' => k = 0 /\ primary_ok t' /\ pr_addrs t' = pr_addrs t /\ (attempts_left t' < attempts_left t)%nat
  end.

Lemma finish_attempt_spec t i addr p :
  pool_ok p -> mp_next_writer_id p + 2 < 2 ^ 64 -> primary_ok t -> pr_running t !! i = Some addr ->
  does (finish_attempt env other late t i addr) p (went_on t p).
Proof.
  intros Hp Hn [Hr Hl _] Ei. pose proof (lookup_lt_Some _ _ _ Ei) as Hi. pose proof (length_delete _ i ltac:(by eexists)) as Hd.
  unfold finish_attempt. eapply does_bind; [apply try_connect_made; [done|lia]|]. intros ok p1 (Hm & Hcov & Hcon). destruct ok.
  - pose proof Hm as [Hp1 _ Hn1 _ _ _ _]. cbn [gained] in *.
    assert (covered p1 (pr_addrs t)) as Hc by (by apply Hcov; [|apply Hr; eapply list_elem_of_lookup_2]).
    destruct (delete i (pr_running t)) as [|a [|]] eqn:Ed; cbn [length] in Hd; [| |lia]; cbn [for_each].
    + intros n. exists 1. split; [exact Hm|]. split; [lia|]. split; [lia|]. by intros.
    + apply (does_bind _ _ _ (fun (_ : unit) p' => exists k, 0 <= k <= 1 /\ made k p1 p')).
      { eapply does_bind; [apply aborted_made; [done|lia]|]. intros u p2 H. by apply does_ret. }
      intros u p2 (k & Hk & Hm2). apply does_ret. exists (1 + k). split; [by eapply made_trans|]. split; [lia|]. split; [lia|]. intros. by eapply covered_made.
  - cbn [gained] in Hm. set (t1 := mkPrimary (pr_addrs t) (pr_next_idx t) (delete i (pr_running t))).
    destruct (start_attempts_spec t1) as (E1 & E2 & E3 & E4).
    { intros a Ha. apply Hr. cbn in Ha. by apply list_elem_of_delete_inv in Ha. }
    { cbn. lia. }
    apply does_ret. exists 0. split; [done|]. split; [lia|]. destruct (decide (pr_running (start_attempts t1) = [])).
    + split; [lia|]. intros Hc. by discriminate (Hcon Hc).
    + split; [done|]. split; [by split|]. split; [done|]. unfold attempts_left in *. cbn [t1 pr_addrs pr_next_idx pr_running] in *. lia.
Qed.

Lemma all_attempts_cons t tasks : all_attempts (t :: tasks) = (attempts_left t + all_attempts tasks)%nat.
Proof. done. Qed.

Lemma all_attempts_split tasks i t :
  tasks !! i = Some t -> all_attempts tasks = (attempts_left t + all_attempts (delete i tasks))%nat.
Proof.
  revert i. induction tasks as [|x tasks IH]; intros [|i] E; [done|done|by injection E as ->|].
  change (delete (S i) (x :: tasks)) with (x :: delete i tasks). rewrite !all_attempts_cons, (IH i E). lia.
Qed.

Lemma all_attempts_insert tasks i t t' :
  tasks !! i = Some t -> (all_attempts (<[i := t']> tasks) + attempts_left t = all_attempts tasks + attempts_left t')%nat.
Proof.
  revert i. induction tasks as [|x tasks IH]; intros [|i] E; [done|done|injection E as ->|].
  - change (<[0%nat := t']> (t :: tasks)) with (t' :: tasks). rewrite !all_attempts_cons. lia.
  - change (<[S i := t']> (x :: tasks)) with (x :: <[i := t']> tasks). rewrite !all_attempts_cons. specialize (IH i E). lia.
Qed.

(** From the tasks [tasks] in [p] to [left] in [p']: each task that ended made at most two writers, and covered its data centre
    if connections succeed. *)
Record advanced_tasks (tasks : list Primary) (p : MePool) (left : list Primary) (p' : MePool) (k : Z) : Prop := mkAdvancedTasks {
  at_made : made k p p';
  at_bound : 0 <= k /\ k + 2 * zlen left <= 2 * zlen tasks;
  at_ok : Forall primary_ok left;
  at_left : (all_attempts left <= all_attempts tasks)%nat;
  at_covers : connects env p -> forall t, t ∈ tasks -> covered p' (pr_addrs t) \/ exists t', t' ∈ left /\ pr_addrs t' = pr_addrs t
}.

Lemma finish_some_spec tasks p :
  pool_ok p -> mp_next_writer_id p + 2 < 2 ^ 64 -> Forall primary_ok tasks -> tasks <> [] ->
  does (finish_some env other pick late tasks) p (fun left p' =>
    (exists k, advanced_tasks tasks p left p' k) /\ (all_attempts left < all_attempts tasks)%nat).
Proof.
  intros Hp Hn Hok Hne n. unfold finish_some. cbn [wd_n]. destruct (pick n) as [i0 j0].
  set (i := (i0 mod length tasks)%nat). assert (i < length tasks)%nat as Hi by (apply Nat.mod_upper_bound; by destruct tasks).
  destruct (lookup_lt_is_Some_2 tasks i Hi) as [t Ht]. rewrite Ht. pose proof (proj1 (Forall_lookup _ _) Hok i t Ht) as Hto.
  set (j := (j0 mod length (pr_running t))%nat).
  assert (j < length (pr_running t))%nat as Hj by (apply Nat.mod_upper_bound; pose proof (po_some t Hto); by destruct (pr_running t)).
  destruct (lookup_lt_is_Some_2 (pr_running t) j Hj) as [addr Ea]. rewrite Ea.
  pose proof (finish_attempt_spec t j addr p Hp Hn Hto Ea n) as Hf.
  destruct (finish_attempt env other late t j addr (mkWorld p n)) as [r [p' n']]. cbn [fst snd wd_pool] in *.
  destruct Hf as (k & Hm & Hk & Hr). pose proof (all_attempts_split tasks i t Ht) as Es. destruct r as [t'|].
  - destruct Hr as (-> & Hto' & Ea' & Hlt). pose proof (all_attempts_insert tasks i t t' Ht) as Ei.
    split; [exists 0; split; try done|lia].
    + unfold zlen. rewrite length_insert. lia.
    + by apply Forall_insert.
    + lia.
    + intros _ u Hu. right. apply list_elem_of_lookup in Hu as [x Hx]. destruct (decide (x = i)) as [->|Hxi].
      * rewrite Ht in Hx. injection Hx as <-. exists t'. split; [|done]. apply list_elem_of_lookup. exists i. by apply list_lookup_insert_eq.
      * exists u. split; [|done]. apply list_elem_of_lookup. exists x. by rewrite list_lookup_insert_ne.
  - destruct Hr as [Hk2 Hc]. pose proof (length_delete tasks i ltac:(by eexists)) as Ld.
    assert (0 < attempts_left t)%nat as Hpos by (unfold attempts_left; lia). split; [exists k; split; try done|lia].
    + unfold zlen. rewrite Ld. lia.
    + by apply Forall_delete.
    + lia.
    + intros Hcon u Hu. apply list_elem_of_lookup in Hu as [x Hx]. destruct (decide (x = i)) as [->|Hxi].
      * rewrite Ht in Hx. injection Hx as <-. left. by apply Hc.
      * right. exists u. split; [|done]. pose proof (delete_Permutation tasks i t Ht) as Hperm.
        assert (u ∈ t :: delete i tasks) as Hin by (rewrite <-Hperm; by eapply list_elem_of_lookup_2).
        apply elem_of_cons in Hin as [->|]; [|done]. apply list_elem_of_lookup.
        destruct (decide (x < i)%nat); [exists x; by rewrite list_lookup_delete_lt|]. exists (x - 1)%nat. rewrite list_lookup_delete_ge by lia.
        by replace (S (x - 1)) with x by lia.
Qed.

Lemma advanced_tasks_refl tasks p : pool_ok p -> Forall primary_ok tasks -> advanced_tasks tasks p tasks p 0.
Proof. intros Hp Hok. split; [by apply made_refl|lia|done|done|]. intros _ t Ht. right. by exists t. Qed.

Lemma advanced_tasks_trans tasks p left p1 k1 left' p' k2 :
  advanced_tasks tasks p left p1 k1 -> advanced_tasks left p1 left' p' k2 -> advanced_tasks tasks p left' p' (k1 + k2).
Proof.
  intros [M1 B1 O1 L1 C1] [M2 B2 O2 L2 C2]. split; [by eapply made_trans|lia|done|lia|]. intros Hc t Ht.
  destruct (C1 Hc t Ht) as [Hcov|(t1 & Ht1 & E1)]; [left; by eapply covered_made|].
  destruct (C2 (connects_made _ _ _ M1 Hc) t1 Ht1) as [Hcov|(t2 & Ht2 & E2)]; rewrite E1 in *; [by left|right; by exists t2].
Qed.

Lemma run_primaries_spec fuel : forall tasks p,
  pool_ok p -> mp_next_writer_id p + 2 * zlen tasks < 2 ^ 64 -> Forall primary_ok tasks ->
  does (run_primaries env other pick late fuel tasks) p (fun left p' =>
    (exists k, advanced_tasks tasks p left p' k) /\ ((all_attempts tasks < fuel)%nat -> left = [])).
Proof.
  induction fuel as [|fuel IH]; intros tasks p Hp Hn Hok; cbn [run_primaries].
  { apply does_ret. split; [exists 0; by apply advanced_tasks_refl|lia]. }
  destruct tasks as [|t tasks]; [apply does_ret; split; [exists 0; by apply advanced_tasks_refl|done]|].
  rewrite zlen_cons in Hn. pose proof (zlen_nonneg tasks).
  eapply does_bind; [apply finish_some_spec; [done|lia|done|done]|]. intros left p1 [[k1 H1] Hlt]. pose proof H1 as [M1 B1 O1 L1 _].
  rewrite zlen_cons in B1. eapply does_mono; [apply (IH left p1); [exact (md_ok _ _ _ M1)|rewrite (md_next _ _ _ M1); lia|done]|].
  intros left' p' [[k2 H2] Hend]. split; [exists (k1 + k2); by eapply advanced_tasks_trans|]. intros. apply Hend. lia.
Qed.

(** ** Spawning them, and what is missing *)

Variable early : nat -> nat.
Variable shuffle : nat -> list SocketAddr -> list SocketAddr.
Hypothesis shuffle_perm : forall n l, shuffle n l ≡ₚ l.

Lemma does_read {A B} (f : nat -> A) (k : A -> SendM B) p Q : (forall n, does (k (f n)) p Q) -> does ((fun w => (f (wd_n w), w)) ≫= k) p Q.
Proof. intros H n. exact (H n n). Qed.


(** The groups that are still to be covered by [tasks]. *)
Definition underway (tasks : list Primary) (p : MePool) (addrs : list SocketAddr) : Prop :=
  covered p addrs \/ exists t, t ∈ tasks /\ pr_addrs t ≡ₚ addrs.

Lemma underway_advanced tasks p left p' k addrs :
  advanced_tasks tasks p left p' k -> connects env p -> underway tasks p addrs -> underway left p' addrs.
Proof.
  intros [M _ _ _ C] Hc [Hcov|(t & Ht & E)]; [left; by eapply covered_made|].
  assert (forall q, covered q (pr_addrs t) -> covered q addrs) as Hq by (intros q (w & Hw & Ha); exists w; by rewrite <-E).
  destruct (C Hc t Ht) as [Hcov|(t' & Ht' & E')]; [left; by apply Hq|right]. exists t'. by rewrite E'.
Qed.

Lemma advanced_tasks_calm tasks p left p' q k : advanced_tasks tasks p left p' k -> calm_step p' q -> advanced_tasks tasks p left q k.
Proof.
  intros [M B O L C] Hq. split; [by eapply calm_made|done..|]. intros Hc t Ht. destruct (C Hc t Ht); [left; by apply (covered_calm _ _ _ Hq)|by right].
Qed.

Lemma spawn_primaries_spec dc_addrs : forall tasks p,
  pool_ok p -> mp_next_writer_id p + 2 * (zlen tasks + zlen dc_addrs) < 2 ^ 64 -> Forall primary_ok tasks ->
  Forall (fun e => e.2 <> []) dc_addrs ->
  does (spawn_primaries env other pick late early shuffle dc_addrs tasks) p (fun left p' => exists k,
    made k p p' /\ 0 <= k /\ k + 2 * zlen left <= 2 * (zlen tasks + zlen dc_addrs) /\ Forall primary_ok left /\
    (connects env p -> (forall addrs, underway tasks p addrs -> underway left p' addrs) /\
       forall e, e ∈ dc_addrs -> underway left p' e.2)).
Proof.
  induction dc_addrs as [|[dc addrs] dc_addrs IH]; intros tasks p Hp Hn Hok Hne; cbn [spawn_primaries].
  { change (zlen (@nil (Z * list SocketAddr))) with 0. apply does_ret. exists 0. split; [by apply made_refl|]. split; [lia|]. split; [lia|].
    split; [done|]. intros _. split; [done|]. by intros e ?%elem_of_nil. }
  apply Forall_cons in Hne as [Ha Hne]. cbn [snd] in Ha. rewrite zlen_cons in *. pose proof (zlen_nonneg dc_addrs).
  apply (does_read early). intros n0. eapply does_bind; [apply run_primaries_spec; [done|lia|done]|].
  intros left p0 [[k1 H0] _]. apply does_calmly; [exact (md_ok _ _ _ (at_made _ _ _ _ _ H0))|]. intros n1 p1 Hq.
  pose proof (advanced_tasks_calm _ _ _ _ _ _ H0 Hq) as H1. pose proof H1 as [M1 B1 O1 _ _]. pose proof (md_next _ _ _ M1) as N1. apply does_get.
  destruct (Z.ltb_spec 0 (active_writer_count_for_endpoints p1 (list_to_set addrs))) as [Hpos|_].
  - apply covered_count in Hpos.
    eapply does_mono; [apply (IH left p1); [exact (md_ok _ _ _ M1)|lia|done|done]|]. intros left' p' (k2 & M2 & P2 & B2 & O2 & C2).
    exists (k1 + k2). split; [by eapply made_trans|]. split; [lia|]. split; [lia|]. split; [done|]. intros Hc.
    destruct (C2 (connects_made _ _ _ M1 Hc)) as [Ct Cd]. split; [intros; by eapply Ct, underway_advanced|].
    intros e [->|He]%elem_of_cons; [left; by eapply covered_made|by apply Cd].
  - apply (does_read (fun n => shuffle n addrs)). intros n2. set (t := connect_primary (shuffle n2 addrs)).
    destruct (connect_primary_ok (shuffle n2 addrs)) as [Ht Et]; [intros E; apply Ha, Permutation_nil_r; by rewrite <-E|].
    eapply does_mono; [apply (IH (left ++ [t]) p1); [exact (md_ok _ _ _ M1)|rewrite zlen_app; change (zlen [t]) with 1; lia|by apply Forall_app_2; [|apply Forall_cons_2; [|apply Forall_nil_2]]|done]|].
    intros left' p' (k2 & M2 & P2 & B2 & O2 & C2). rewrite zlen_app in B2. change (zlen [t]) with 1 in B2.
    exists (k1 + k2). split; [by eapply made_trans|]. split; [lia|]. split; [lia|]. split; [done|]. intros Hc.
    destruct (C2 (connects_made _ _ _ M1 Hc)) as [Ct Cd]. split.
    + intros x Hx. apply Ct. destruct (underway_advanced _ _ _ _ _ _ H1 Hc Hx) as [|(u & Hu & Eu)]; [by left|right; exists u; split; [apply elem_of_app; by left|done]].
    + intros e [->|He]%elem_of_cons; [|by apply Cd]. apply Ct. right. exists t. split; [apply elem_of_app; right; apply list_elem_of_here|]. cbn [snd]. unfold t. rewrite Et. apply shuffle_perm.
Qed.

Lemma missing_dcs_spec dc_addrs : forall p, pool_ok p ->
  does (missing_dcs env other dc_addrs) p (fun missing p' =>
    calm_step p p' /\ forall dc, dc ∈ missing <-> exists addrs, (dc, addrs) ∈ dc_addrs /\ ~ covered p addrs).
Proof.
  induction dc_addrs as [|[dc addrs] dc_addrs IH]; intros p Hp; cbn [missing_dcs].
  { apply does_ret. split; [by apply calm_refl|]. intros dc. split; [by intros ?%elem_of_nil|]. by intros (? & ?%elem_of_nil & _). }
  apply does_calmly; [done|]. intros n q Hq. apply does_get. eapply does_bind; [apply (IH q), (proj1 (calm_next _ _ Hq))|].
  intros missing p' [Hc Hm]. apply does_ret. split; [by eapply calm_trans|]. setoid_rewrite <-(covered_calm _ _ _ Hq) in Hm.
  intros d. pose proof (count_nonneg q (list_to_set addrs)). pose proof (covered_calm _ _ addrs Hq) as Heq. rewrite covered_count in Heq.
  setoid_rewrite elem_of_cons. destruct (Z.eqb_spec (active_writer_count_for_endpoints q (list_to_set addrs)) 0).
  - rewrite elem_of_cons, Hm. split.
    + intros [->|(x & Hx & Hn)]; [exists addrs; split; [by left|]|exists x; auto]. rewrite (covered_calm _ _ _ Hq), covered_count. lia.
    + intros (x & [[= -> ->]|Hx] & Hn); [by left|right; by exists x].
  - rewrite Hm. split.
    + intros (x & Hx & Hn). exists x. auto.
    + intros (x & [[= -> ->]|Hx] & Hn); [|by exists x]. destruct Hn. apply (covered_calm _ _ _ Hq), covered_count. lia.
Qed.

(** ** Initialisation *)

Definition family_dcs (p : MePool) (family : IpFamily) : DcAddrs := init_dc_addrs (proxy_map_for_family p family).
Definition all_dcs (p : MePool) (families : list IpFamily) : Z := foldr Z.add 0 ((fun f => zlen (family_dcs p f)) <$> families).

Lemma family_dcs_made k p p' f : made k p p' -> family_dcs p' f = family_dcs p f.
Proof. intros M. unfold family_dcs, proxy_map_for_family. by rewrite (md_maps _ _ _ M). Qed.

Lemma all_dcs_made k p p' fs : made k p p' -> all_dcs p' fs = all_dcs p fs.
Proof. intros M. unfold all_dcs. f_equal. apply list_fmap_ext. intros i f _. by rewrite (family_dcs_made _ _ _ _ M). Qed.

Lemma all_dcs_nonneg p fs : 0 <= all_dcs p fs.
Proof. induction fs as [|f fs IH]; unfold all_dcs in *; cbn [fmap list_fmap foldr]; [lia|]. pose proof (zlen_nonneg (family_dcs p f)). lia. Qed.

Lemma family_dcs_some p f : Forall (fun e => e.2 <> []) (family_dcs p f).
Proof.
  apply Forall_forall. intros e He. unfold family_dcs, init_dc_addrs in He. rewrite merge_sort_Permutation in He.
  by apply list_elem_of_filter in He as [? _].
Qed.

Lemma init_family_spec family p0 :
  pool_ok p0 -> mp_next_writer_id p0 + 2 * zlen (family_dcs p0 family) < 2 ^ 64 ->
  does (init_family env other pick late early shuffle family) p0 (fun r p' => exists k, made k p0 p' /\ 0 <= k <= 2 * zlen (family_dcs p0 family) /\
    match r with
    | Ok dcs => dcs = family_dcs p0 family /\ forall e, e ∈ dcs -> covered p' e.2
    | Err _ => exists e, e ∈ family_dcs p0 family /\ ~ covered p' e.2
    end /\ (connects env p0 -> is_ok r = true)).
Proof.
  intros Hp0 Hn0. unfold init_family. apply does_calmly; [done|]. intros n0 p Hcalm. destruct (calm_next _ _ Hcalm) as [Hp Hn]. rewrite <-Hn in Hn0. clear Hn. rename Hn0 into Hn.
  apply does_get. cbv zeta. fold (family_dcs p family). rewrite <-(family_dcs_made _ _ _ family (proj1 Hcalm)) in *.
  set (D := family_dcs p family) in *. pose proof (zlen_nonneg D).
  assert (forall k p', made k p p' -> made k p0 p') as Hfrom by (intros ? ?; by apply made_calm).
  assert (connects env p0 -> connects env p) as Hcon by (intros [? ?]; split; [by rewrite (md_secret _ _ _ (proj1 Hcalm))|done]).
  eapply does_bind; [apply (spawn_primaries_spec D [] p); [done|change (zlen []) with 0; lia|by apply Forall_nil_2|apply family_dcs_some]|].
  change (zlen (@nil Primary)) with 0. intros tasks p1 (k1 & M1 & P1 & B1 & O1 & C1). pose proof (zlen_nonneg tasks).
  eapply does_bind; [apply run_primaries_spec; [exact (md_ok _ _ _ M1)|rewrite (md_next _ _ _ M1); lia|done]|].
  intros left p2 [[k2 H2'] Hend]. specialize (Hend ltac:(lia)). subst left.
  eapply does_bind; [apply missing_dcs_spec; exact (md_ok _ _ _ (at_made _ _ _ _ _ H2'))|]. intros missing p3 [Hc2 Hm].
  pose proof (advanced_tasks_calm _ _ _ _ _ _ H2' Hc2) as H2. pose proof H2 as [M2 B2 _ _ _]. change (zlen (@nil Primary)) with 0 in B2. apply does_ret.
  setoid_rewrite (covered_calm _ _ _ Hc2) in Hm. exists (k1 + k2). split; [apply Hfrom; by eapply made_trans|]. split; [lia|].
  assert (forall e, e ∈ D -> missing = [] -> covered p3 e.2) as Hnone.
  { intros [dc addrs] He ->. destruct (decide (0 < active_writer_count_for_endpoints p3 (list_to_set addrs))) as [Hd|Hd]; [by apply covered_count|].
    rewrite <-covered_count in Hd. exfalso. apply (elem_of_nil dc), Hm. by exists addrs. }
  destruct (decide (missing = [])) as [E|E]; [split; [split; [done|]; intros e He; by apply Hnone|done]|].
  destruct missing as [|dc missing]; [done|]. destruct (proj1 (Hm dc) ltac:(apply list_elem_of_here)) as (addrs & Hd & Hnc).
  split; [by exists (dc, addrs)|]. intros Hc%Hcon. destruct (C1 Hc) as [_ Ce]. exfalso. apply Hnc.
  destruct (underway_advanced _ _ _ _ _ _ H2 (connects_made _ _ _ M1 Hc) (Ce _ Hd)) as [|(t & Ht%elem_of_nil & _)]; done.
Qed.

Lemma all_dcs_cons p f fs : all_dcs p (f :: fs) = zlen (family_dcs p f) + all_dcs p fs.
Proof. done. Qed.

(** What the families in [done] have come to. *)
Definition families_covered (p p' : MePool) (families : list IpFamily) : Prop :=
  forall f e, f ∈ families -> e ∈ family_dcs p f -> covered p' e.2.

Lemma init_families_spec families : forall spawned p,
  pool_ok p -> mp_next_writer_id p + 2 * all_dcs p families < 2 ^ 64 ->
  does (init_families env other pick late early shuffle families spawned) p (fun r p' => exists k finished, made k p p' /\ 0 <= k <= 2 * all_dcs p families /\
    r.2 = spawned ++ (family_dcs p <$> finished) /\ finished `prefix_of` families /\ families_covered p p' finished /\
    match r.1 with
    | Ok _ => finished = families \/ effective_multipath (pc_decision (mp_cfg p)) = false /\ 0 < connection_count p'
    | Err _ => exists f e, f ∈ families /\ e ∈ family_dcs p f /\ ~ covered p' e.2
    end /\ (connects env p -> is_ok r.1 = true)).
Proof.
  induction families as [|f families IH]; intros spawned p Hp Hn; cbn [init_families].
  { apply does_ret. exists 0, []. split; [by apply made_refl|]. split; [unfold all_dcs; cbn; lia|]. split; [by rewrite app_nil_r|].
    split; [done|]. split; [by intros f e ?%elem_of_nil|]. split; [by left|done]. }
  rewrite all_dcs_cons in *. pose proof (all_dcs_nonneg p families). pose proof (zlen_nonneg (family_dcs p f)).
  eapply does_bind; [apply init_family_spec; [done|lia]|]. intros r p1 (k1 & M1 & B1 & R1 & C1). destruct r as [dcs|err].
  2:{ apply does_ret. exists k1, []. split; [done|]. split; [lia|]. split; [by rewrite app_nil_r|]. split; [apply prefix_nil|].
      split; [by intros f' e ?%elem_of_nil|]. destruct R1 as (e & He & Hnc). split; [|done]. exists f, e. split; [apply list_elem_of_here|done]. }
  destruct R1 as [-> Hcov]. apply does_get. rewrite (md_cfg _ _ _ M1).
  destruct (negb _ && _) eqn:Eb.
  - apply andb_prop in Eb as [Em Ec]. apply negb_true_iff in Em. apply Z.ltb_lt in Ec. apply does_ret. exists k1, [f].
    split; [done|]. split; [lia|]. split; [done|]. split; [by exists families|]. split; [intros f' e ->%list_elem_of_singleton; by apply Hcov|].
    split; [by right|done].
  - eapply does_mono; [apply (IH (spawned ++ [family_dcs p f]) p1); [exact (md_ok _ _ _ M1)|rewrite (md_next _ _ _ M1), (all_dcs_made _ _ _ _ M1); lia]|].
    intros r p' (k2 & finished & M2 & B2 & S2 & P2 & F2 & R2 & C2). rewrite (all_dcs_made _ _ _ _ M1) in B2.
    assert (forall x, family_dcs p1 x = family_dcs p x) as Ed by (intros; by eapply family_dcs_made).
    exists (k1 + k2), (f :: finished). split; [by eapply made_trans|]. split; [lia|]. split.
    { rewrite S2, <-app_assoc. f_equal. cbn [fmap list_fmap app]. f_equal. apply list_fmap_ext. intros i x _. apply Ed. }
    split; [by apply prefix_cons|]. split.
    { intros x e [->|Hx]%elem_of_cons He; [eapply covered_made; [exact M2|by apply Hcov]|]. apply (F2 x); [done|by rewrite Ed]. }
    split; [|intros; by eapply C2, connects_made]. destruct r.1 as [u|err].
    + destruct R2 as [->|[Hm Hc]]; [by left|right]. by rewrite <-(md_cfg _ _ _ M1).
    + destruct R2 as (x & e & Hx & He & Hnc). exists x, e. rewrite Ed in He. split; [by apply list_elem_of_further|done].
Qed.

(** C10: The pool is ready when every data centre has a writer.  While [init] runs, other tasks may act on the pool at every
    await, as long as they make, lose and drain no writer and leave its configuration (the hypothesis [calm] of this section:
    no connection dies meanwhile, and no reserve writer of an earlier family is made).  Whatever order the tasks are scheduled in, which attempts are
    aborted too late and which connections fail, [init] returns and makes at most two writers for each data centre it looked at.  When it
    succeeds, each data centre of each family it finished has a live writer, and with multipath these are all families; when it fails,
    there is a data centre without one, or no writer at all.  When connections succeed and there is a data centre, it succeeds. *)
Theorem init_covers p :
  pool_ok p -> mp_next_writer_id p + 2 * all_dcs p (family_order p) < 2 ^ 64 ->
  does (init env other pick late early shuffle) p (fun r p' => exists k finished,
    made k p p' /\ 0 <= k <= 2 * all_dcs p (family_order p) /\
    finished `prefix_of` family_order p /\ r.2 = family_dcs p <$> finished /\ families_covered p p' finished /\
    match r.1 with
    | Ok _ => mp_writers p' <> [] /\ (effective_multipath (pc_decision (mp_cfg p)) = true -> finished = family_order p)
    | Err _ => mp_writers p' = [] \/ exists f e, f ∈ family_order p /\ e ∈ family_dcs p f /\ ~ covered p' e.2
    end /\
    (connects env p -> (exists f, f ∈ family_order p /\ family_dcs p f <> []) -> is_ok r.1 = true)).
Proof.
  intros Hp Hn. unfold init. apply does_get.
  eapply does_bind; [apply init_families_spec; [done|done]|]. intros r p1 (k & fin & M & B & S & P & F & R & C). destruct r as [res sp].
  cbn [fst snd] in *. destruct res as [u|err].
  2:{ apply does_ret. exists k, fin. split_and!; try done; [lia|lia|by right|]. intros Hc. by discriminate (C Hc). }
  apply does_calmly; [exact (md_ok _ _ _ M)|]. intros n q Hq. apply does_get. apply does_ret. cbn [fst snd]. exists k, fin.
  pose proof (md_count _ _ _ (proj1 Hq)) as Ec. apply (calm_made _ _ _ _ M) in Hq as M'.
  assert (families_covered p q fin) as F' by (intros f e Hf He; by apply (covered_calm _ _ _ Hq), (F f)).
  assert (connects env p -> (exists f, f ∈ family_order p /\ family_dcs p f <> []) -> mp_writers q <> []) as Hw.
  { intros _ (f & Hf & Hd) E. destruct R as [->|[_ Hc]].
    - destruct (family_dcs p f) as [|e es] eqn:Ed; [done|]. destruct (F' f e Hf) as (w & Hw & _); [rewrite Ed; apply list_elem_of_here|].
      apply list_elem_of_filter in Hw as [_ Hw]. rewrite E in Hw. by apply elem_of_nil in Hw.
    - unfold connection_count in *. rewrite (ok_count _ (md_ok _ _ _ M')), E in Ec. change (zlen []) with 0 in Ec. lia. }
  destruct (decide (mp_writers q = [])) as [E|E]; (split_and!; try done; try lia; try by left).
  - intros Hc Hd. by destruct (Hw Hc Hd).
  - intros Hm. destruct R as [->|[Hm' _]]; congruence.
Qed.

End InitSpec.

(** ** Examples *)

Definition demo_two_map : ProxyMap := {[2 := [(V4 [1; 1; 1; 1], 443); (V4 [1; 1; 1; 2], 443)]; (-2) := [(V4 [1; 1; 1; 1], 443)]]}.
Definition demo_empty_pool : MePool := MePool_new demo_pool_cfg 6 Stats_new (repeat 85 40) demo_two_map ∅ (Some 2) 25 120 80.

Example demo_init :
  family_dcs demo_empty_pool FamV4 = [(2, [mkSocketAddr (V4 [1; 1; 1; 1]) 443; mkSocketAddr (V4 [1; 1; 1; 2]) 443])] /\
  debug_list [1; -2] = "[1, -2]"%string.
Proof. split; vm_compute; reflexivity. Qed.

Lemma demo_empty_ok : pool_ok demo_empty_pool.
Proof. apply MePool_new_ok. Qed.

Definition demo_order (n : nat) (l : list SocketAddr) : list SocketAddr := if Nat.even n then l else reverse l.

Lemma init_covers_witness :
  let r := init (fun _ => demo_pool_env) (fun _ p => p) (fun n => (n, n)) Nat.even (fun _ => 0%nat) demo_order (mkWorld demo_empty_pool 0) in
  is_ok r.1.1 = true /\ mp_writers (wd_pool r.2) <> [].
Proof.
  assert (forall n l, demo_order n l ≡ₚ l) as Hperm by (intros n l; unfold demo_order; destruct (Nat.even n); [done|apply reverse_Permutation]).
  destruct (init_covers (fun _ => demo_pool_env) (fun _ p => p) (fun _ => calm_refl) (fun n => (n, n)) Nat.even (fun _ => 0%nat) demo_order Hperm
    demo_empty_pool demo_empty_ok ltac:(vm_compute; reflexivity) 0%nat) as (k & fin & _ & _ & _ & _ & _ & R & C).
  intros r. specialize (C ltac:(split; [vm_compute; discriminate|intros n a; by exists tt])
    ltac:(exists FamV4; split; [vm_compute; left|vm_compute; discriminate])).
  split; [exact C|]. unfold r in *. destruct (init _ _ _ _ _ _ _) as [[[u|err] sp] w]; [exact (proj1 R)|discriminate C].
Defined.
