(* ===== verification/ConfigTypes.v ===== *)
(** * The configuration: [config/types.rs] and [config/defaults.rs]

    The sections of the configuration as records with the source's fields, in its order, and their default values.
    Texts are their UTF-8 bytes, except the names and secrets of users, which are strings; a date is a number of
    seconds.  Deserialisation is derived by [serde]: it is not code of the repository. *)

From stdpp Require Import gmap sorting.
From S2P Require Import Prelude NetAddr Stats MeHandshake MePool.

(** ** Values *)

(** A single-precision number: every finite one is a whole number of units of 2^-149. *)
Inductive f32 := F32_NaN | F32_Inf (negative : bool) | F32_Units (units : Z).

(** [n * 2^-e] *)
Definition f32_scaled (n e : Z) : f32 := F32_Units (n * 2 ^ (149 - e)).

(** [(0.0..=1.0).contains(&x)] *)
Definition f32_in_unit_interval (x : f32) : bool :=
  match x with F32_Units u => (0 <=? u) && (u <=? 2 ^ 149) | _ => false end.

(** [==]: a NaN is not equal to itself. *)
Definition f32_eqb (x y : f32) : bool :=
  match x, y with
  | F32_Units a, F32_Units b => a =? b
  | F32_Inf a, F32_Inf b => Bool.eqb a b
  | _, _ => false
  end.

Record IpNetwork := mkIpNetwork { net_ip : IpAddr; net_prefix : Z }.

(** ** Enumerations (types.rs:10-58, 1085-1123) *)

Inductive LogLevel := LogLevel_Debug | LogLevel_Verbose | LogLevel_Normal | LogLevel_Silent.

#[global] Instance LogLevel_eq_dec : EqDecision LogLevel.
Proof. solve_decision. Defined.

Definition to_filter_str (self : LogLevel) : string :=
  match self with
  | LogLevel_Debug => "trace"
  | LogLevel_Verbose => "debug"
  | LogLevel_Normal => "info"
  | LogLevel_Silent => "warn"
  end.

(** On the lower-case form of the text. *)
Definition from_str_loose (s : string) : LogLevel :=
  if decide (s = "debug" \/ s = "trace")%string then LogLevel_Debug
  else if decide (s = "verbose")%string then LogLevel_Verbose
  else if decide (s = "normal" \/ s = "info")%string then LogLevel_Normal
  else if decide (s = "silent" \/ s = "quiet" \/ s = "error" \/ s = "warn")%string then LogLevel_Silent
  else LogLevel_Normal.

Definition MeBindStaleMode_default : MeBindStaleMode := Ttl.
Definition MeFloorMode_default : MeFloorMode := Static.

Inductive ShowLink := ShowNone | ShowAll | ShowSpecific (names : list string).

Definition ShowLink_is_empty (self : ShowLink) : bool :=
  match self with ShowNone => true | ShowAll => false | ShowSpecific v => bool_decide (v = []) end.

Definition default_links_show : ShowLink := ShowAll.

(** ** Default values (defaults.rs) *)

Definition DEFAULT_NETWORK_IPV6 : option bool := Some false.
Definition DEFAULT_STUN_TCP_FALLBACK : bool := true.
Definition DEFAULT_MIDDLE_PROXY_WARM_STANDBY : Z := 16.
Definition DEFAULT_ME_RECONNECT_MAX_CONCURRENT_PER_DC : Z := 8.
Definition DEFAULT_ME_RECONNECT_FAST_RETRY_COUNT : Z := 16.
Definition DEFAULT_ME_SINGLE_ENDPOINT_SHADOW_WRITERS : Z := 2.
Definition DEFAULT_ME_ADAPTIVE_FLOOR_IDLE_SECS : Z := 90.
Definition DEFAULT_ME_ADAPTIVE_FLOOR_MIN_WRITERS_SINGLE_ENDPOINT : Z := 1.
Definition DEFAULT_ME_ADAPTIVE_FLOOR_RECOVER_GRACE_SECS : Z := 180.
Definition DEFAULT_UPSTREAM_CONNECT_RETRY_ATTEMPTS : Z := 3.
Definition DEFAULT_UPSTREAM_UNHEALTHY_FAIL_THRESHOLD : Z := 4.
Definition DEFAULT_LISTEN_ADDR_IPV6 : bytes := str "::".
Definition DEFAULT_ACCESS_USER : string := "default".
Definition DEFAULT_ACCESS_SECRET : string := "00000000000000000000000000000000".
Definition default_true : bool := true.
Definition default_port : Z := 443.
Definition default_tls_domain : bytes := str "petrovich.ru".
Definition default_mask_port : Z := 443.
Definition default_fake_cert_len : Z := 2048.
Definition default_tls_front_dir : bytes := str "tlsfront".
Definition default_replay_check_len : Z := 65536.
Definition default_replay_window_secs : Z := 1800.
Definition default_handshake_timeout : Z := 30.
Definition default_connect_timeout : Z := 10.
Definition default_keepalive : Z := 60.
Definition default_ack_timeout : Z := 300.
Definition default_me_one_retry : Z := 12.
Definition default_me_one_timeout : Z := 1200.
Definition default_listen_addr : bytes := str "0.0.0.0".
Definition default_listen_addr_ipv4 : option bytes := Some default_listen_addr.
Definition default_weight : Z := 1.
Definition default_metrics_whitelist : list IpNetwork :=
  [mkIpNetwork (V4 [127; 0; 0; 1]) 32; mkIpNetwork (V6 (zrepeat 15 0 ++ [1])) 128].
Definition default_prefer_4 : Z := 4.
Definition default_network_ipv6 : option bool := DEFAULT_NETWORK_IPV6.
Definition default_stun_tcp_fallback : bool := DEFAULT_STUN_TCP_FALLBACK.
Definition default_unknown_dc_log_path : option bytes := Some (str "unknown-dc.txt").
Definition default_pool_size : Z := 8.
Definition default_proxy_secret_path : option bytes := Some (str "proxy-secret").
Definition default_middle_proxy_nat_stun : option bytes := None.
Definition default_middle_proxy_nat_stun_servers : list bytes := [].
Definition default_stun_nat_probe_concurrency : Z := 8.
Definition default_middle_proxy_warm_standby : Z := DEFAULT_MIDDLE_PROXY_WARM_STANDBY.
Definition default_keepalive_interval : Z := 8.
Definition default_keepalive_jitter : Z := 2.
Definition default_warmup_step_delay_ms : Z := 500.
Definition default_warmup_step_jitter_ms : Z := 300.
Definition default_reconnect_backoff_base_ms : Z := 500.
Definition default_reconnect_backoff_cap_ms : Z := 30000.
Definition default_me_reconnect_max_concurrent_per_dc : Z := DEFAULT_ME_RECONNECT_MAX_CONCURRENT_PER_DC.
Definition default_me_reconnect_fast_retry_count : Z := DEFAULT_ME_RECONNECT_FAST_RETRY_COUNT.
Definition default_me_single_endpoint_shadow_writers : Z := DEFAULT_ME_SINGLE_ENDPOINT_SHADOW_WRITERS.
Definition default_me_single_endpoint_outage_mode_enabled : bool := true.
Definition default_me_single_endpoint_outage_disable_quarantine : bool := true.
Definition default_me_single_endpoint_outage_backoff_min_ms : Z := 250.
Definition default_me_single_endpoint_outage_backoff_max_ms : Z := 3000.
Definition default_me_single_endpoint_shadow_rotate_every_secs : Z := 900.
Definition default_me_adaptive_floor_idle_secs : Z := DEFAULT_ME_ADAPTIVE_FLOOR_IDLE_SECS.
Definition default_me_adaptive_floor_min_writers_single_endpoint : Z :=
  DEFAULT_ME_ADAPTIVE_FLOOR_MIN_WRITERS_SINGLE_ENDPOINT.
Definition default_me_adaptive_floor_recover_grace_secs : Z := DEFAULT_ME_ADAPTIVE_FLOOR_RECOVER_GRACE_SECS.
Definition default_upstream_connect_retry_attempts : Z := DEFAULT_UPSTREAM_CONNECT_RETRY_ATTEMPTS.
Definition default_upstream_connect_retry_backoff_ms : Z := 250.
Definition default_upstream_unhealthy_fail_threshold : Z := DEFAULT_UPSTREAM_UNHEALTHY_FAIL_THRESHOLD.
Definition default_crypto_pending_buffer : Z := 256 * 1024.
Definition default_max_client_frame : Z := 16 * 1024 * 1024.
Definition default_desync_all_full : bool := false.
Definition default_me_route_backpressure_base_timeout_ms : Z := 25.
Definition default_me_route_backpressure_high_timeout_ms : Z := 120.
Definition default_me_route_backpressure_high_watermark_pct : Z := 80.
Definition default_beobachten_minutes : Z := 10.
Definition default_beobachten_flush_secs : Z := 15.
Definition default_beobachten_file : bytes := str "cache/beobachten.txt".
Definition default_tls_new_session_tickets : Z := 0.
Definition default_tls_full_cert_ttl_secs : Z := 90.
Definition default_server_hello_delay_min_ms : Z := 0.
Definition default_server_hello_delay_max_ms : Z := 0.
Definition default_alpn_enforce : bool := true.
Definition default_stun_servers : list bytes :=
  [str "stun.l.google.com:5349";
   str "stun1.l.google.com:3478";
   str "stun.gmx.net:3478";
   str "stun.l.google.com:19302";
   str "stun.1und1.de:3478";
   str "stun1.l.google.com:19302";
   str "stun2.l.google.com:19302";
   str "stun3.l.google.com:19302";
   str "stun4.l.google.com:19302";
   str "stun.services.mozilla.com:3478";
   str "stun.stunprotocol.org:3478";
   str "stun.nextcloud.com:3478";
   str "stun.voip.eutelia.it:3478"].
Definition default_http_ip_detect_urls : list bytes := [str "https://ifconfig.me/ip"; str "https://api.ipify.org"].
Definition default_cache_public_ip_path : bytes := str "cache/public_ip.txt".
Definition default_proxy_secret_reload_secs : Z := 60 * 60.
Definition default_proxy_config_reload_secs : Z := 60 * 60.
Definition default_update_every_secs : Z := 5 * 60.
Definition default_update_every : option Z := Some default_update_every_secs.
Definition default_me_reinit_every_secs : Z := 15 * 60.
Definition default_me_reinit_singleflight : bool := true.
Definition default_me_reinit_trigger_channel : Z := 64.
Definition default_me_reinit_coalesce_window_ms : Z := 200.
Definition default_me_hardswap_warmup_delay_min_ms : Z := 1000.
Definition default_me_hardswap_warmup_delay_max_ms : Z := 2000.
Definition default_me_hardswap_warmup_extra_passes : Z := 3.
Definition default_me_hardswap_warmup_pass_backoff_base_ms : Z := 500.
Definition default_me_config_stable_snapshots : Z := 2.
Definition default_me_config_apply_cooldown_secs : Z := 300.
Definition default_me_snapshot_require_http_2xx : bool := true.
Definition default_me_snapshot_reject_empty_map : bool := true.
Definition default_me_snapshot_min_proxy_for_lines : Z := 1.
Definition default_proxy_secret_stable_snapshots : Z := 2.
Definition default_proxy_secret_rotate_runtime : bool := true.
Definition default_me_secret_atomic_snapshot : bool := true.
Definition default_proxy_secret_len_max : Z := 256.
Definition default_me_reinit_drain_timeout_secs : Z := 120.
Definition default_me_pool_drain_ttl_secs : Z := 90.
Definition default_me_bind_stale_ttl_secs : Z := default_me_pool_drain_ttl_secs.
(** The nearest single-precision number to 0.8. *)
Definition default_me_pool_min_fresh_ratio : f32 := f32_scaled 13421773 24.
Definition default_me_deterministic_writer_sort : bool := true.
Definition default_hardswap : bool := true.
Definition default_ntp_check : bool := true.
Definition default_ntp_servers : list bytes := [str "pool.ntp.org"].
Definition default_fast_mode_min_tls_record : Z := 0.
Definition default_degradation_min_unavailable_dc_groups : Z := 2.
Definition default_listen_addr_ipv6 : bytes := DEFAULT_LISTEN_ADDR_IPV6.
Definition default_listen_addr_ipv6_opt : option bytes := Some default_listen_addr_ipv6.
Definition default_access_users : gmap string string := {[DEFAULT_ACCESS_USER := DEFAULT_ACCESS_SECRET]}.

(** ** Sections (types.rs:186-960) *)

Definition TelemetryConfig_default : TelemetryConfig := mkTelemetryConfig default_true default_true Normal.

Record ProxyModes := mkProxyModes {
  classic : bool;
  secure : bool;
  tls : bool
}.

Definition ProxyModes_default : ProxyModes := {|
  classic := false;
  secure := false;
  tls := default_true
|}.

Record NetworkConfig := mkNetworkConfig {
  ipv4 : bool;
  ipv6 : option bool;
  prefer : Z;
  multipath : bool;
  stun_use : bool;
  stun_servers : list bytes;
  stun_tcp_fallback : bool;
  http_ip_detect_urls : list bytes;
  cache_public_ip_path : bytes;
  dns_overrides : list bytes
}.

Definition NetworkConfig_default : NetworkConfig := {|
  ipv4 := default_true;
  ipv6 := default_network_ipv6;
  prefer := default_prefer_4;
  multipath := false;
  stun_use := default_true;
  stun_servers := default_stun_servers;
  stun_tcp_fallback := default_stun_tcp_fallback;
  http_ip_detect_urls := default_http_ip_detect_urls;
  cache_public_ip_path := default_cache_public_ip_path;
  dns_overrides := []
|}.

Record LinksConfig := mkLinksConfig {
  show : ShowLink;
  public_host : option bytes;
  public_port : option Z
}.

Definition LinksConfig_default : LinksConfig := {|
  show := default_links_show;
  public_host := None;
  public_port := None
|}.

Record GeneralConfig := mkGeneralConfig {
  modes : ProxyModes;
  prefer_ipv6 : bool;
  fast_mode : bool;
  use_middle_proxy : bool;
  proxy_secret_path : option bytes;
  ad_tag : option bytes;
  middle_proxy_nat_ip : option IpAddr;
  middle_proxy_nat_probe : bool;
  middle_proxy_nat_stun : option bytes;
  middle_proxy_nat_stun_servers : list bytes;
  stun_nat_probe_concurrency : Z;
  middle_proxy_pool_size : Z;
  middle_proxy_warm_standby : Z;
  me_keepalive_enabled : bool;
  me_keepalive_interval_secs : Z;
  me_keepalive_jitter_secs : Z;
  me_keepalive_payload_random : bool;
  crypto_pending_buffer : Z;
  max_client_frame : Z;
  desync_all_full : bool;
  beobachten : bool;
  beobachten_minutes : Z;
  beobachten_flush_secs : Z;
  beobachten_file : bytes;
  hardswap : bool;
  me_warmup_stagger_enabled : bool;
  me_warmup_step_delay_ms : Z;
  me_warmup_step_jitter_ms : Z;
  me_reconnect_max_concurrent_per_dc : Z;
  me_reconnect_backoff_base_ms : Z;
  me_reconnect_backoff_cap_ms : Z;
  me_reconnect_fast_retry_count : Z;
  me_single_endpoint_shadow_writers : Z;
  me_single_endpoint_outage_mode_enabled : bool;
  me_single_endpoint_outage_disable_quarantine : bool;
  me_single_endpoint_outage_backoff_min_ms : Z;
  me_single_endpoint_outage_backoff_max_ms : Z;
  me_single_endpoint_shadow_rotate_every_secs : Z;
  me_floor_mode : MeFloorMode;
  me_adaptive_floor_idle_secs : Z;
  me_adaptive_floor_min_writers_single_endpoint : Z;
  me_adaptive_floor_recover_grace_secs : Z;
  upstream_connect_retry_attempts : Z;
  upstream_connect_retry_backoff_ms : Z;
  upstream_unhealthy_fail_threshold : Z;
  stun_iface_mismatch_ignore : bool;
  unknown_dc_log_path : option bytes;
  log_level : LogLevel;
  disable_colors : bool;
  telemetry : TelemetryConfig;
  me_socks_kdf_policy : MeSocksKdfPolicy;
  me_route_backpressure_base_timeout_ms : Z;
  me_route_backpressure_high_timeout_ms : Z;
  me_route_backpressure_high_watermark_pct : Z;
  links : LinksConfig;
  fast_mode_min_tls_record : Z;
  update_every : option Z;
  me_reinit_every_secs : Z;
  me_hardswap_warmup_delay_min_ms : Z;
  me_hardswap_warmup_delay_max_ms : Z;
  me_hardswap_warmup_extra_passes : Z;
  me_hardswap_warmup_pass_backoff_base_ms : Z;
  me_config_stable_snapshots : Z;
  me_config_apply_cooldown_secs : Z;
  me_snapshot_require_http_2xx : bool;
  me_snapshot_reject_empty_map : bool;
  me_snapshot_min_proxy_for_lines : Z;
  proxy_secret_stable_snapshots : Z;
  proxy_secret_rotate_runtime : bool;
  me_secret_atomic_snapshot : bool;
  proxy_secret_len_max : Z;
  me_pool_drain_ttl_secs : Z;
  me_bind_stale_mode : MeBindStaleMode;
  me_bind_stale_ttl_secs : Z;
  me_pool_min_fresh_ratio : f32;
  me_reinit_drain_timeout_secs : Z;
  proxy_secret_auto_reload_secs : Z;
  proxy_config_auto_reload_secs : Z;
  me_reinit_singleflight : bool;
  me_reinit_trigger_channel : Z;
  me_reinit_coalesce_window_ms : Z;
  me_deterministic_writer_sort : bool;
  ntp_check : bool;
  ntp_servers : list bytes;
  auto_degradation_enabled : bool;
  degradation_min_unavailable_dc_groups : Z
}.

Definition GeneralConfig_default : GeneralConfig := {|
  modes := ProxyModes_default;
  prefer_ipv6 := false;
  fast_mode := default_true;
  use_middle_proxy := default_true;
  proxy_secret_path := default_proxy_secret_path;
  ad_tag := None;
  middle_proxy_nat_ip := None;
  middle_proxy_nat_probe := default_true;
  middle_proxy_nat_stun := default_middle_proxy_nat_stun;
  middle_proxy_nat_stun_servers := default_middle_proxy_nat_stun_servers;
  stun_nat_probe_concurrency := default_stun_nat_probe_concurrency;
  middle_proxy_pool_size := default_pool_size;
  middle_proxy_warm_standby := default_middle_proxy_warm_standby;
  me_keepalive_enabled := default_true;
  me_keepalive_interval_secs := default_keepalive_interval;
  me_keepalive_jitter_secs := default_keepalive_jitter;
  me_keepalive_payload_random := default_true;
  crypto_pending_buffer := default_crypto_pending_buffer;
  max_client_frame := default_max_client_frame;
  desync_all_full := default_desync_all_full;
  beobachten := default_true;
  beobachten_minutes := default_beobachten_minutes;
  beobachten_flush_secs := default_beobachten_flush_secs;
  beobachten_file := default_beobachten_file;
  hardswap := default_hardswap;
  me_warmup_stagger_enabled := default_true;
  me_warmup_step_delay_ms := default_warmup_step_delay_ms;
  me_warmup_step_jitter_ms := default_warmup_step_jitter_ms;
  me_reconnect_max_concurrent_per_dc := default_me_reconnect_max_concurrent_per_dc;
  me_reconnect_backoff_base_ms := default_reconnect_backoff_base_ms;
  me_reconnect_backoff_cap_ms := default_reconnect_backoff_cap_ms;
  me_reconnect_fast_retry_count := default_me_reconnect_fast_retry_count;
  me_single_endpoint_shadow_writers := default_me_single_endpoint_shadow_writers;
  me_single_endpoint_outage_mode_enabled := default_me_single_endpoint_outage_mode_enabled;
  me_single_endpoint_outage_disable_quarantine := default_me_single_endpoint_outage_disable_quarantine;
  me_single_endpoint_outage_backoff_min_ms := default_me_single_endpoint_outage_backoff_min_ms;
  me_single_endpoint_outage_backoff_max_ms := default_me_single_endpoint_outage_backoff_max_ms;
  me_single_endpoint_shadow_rotate_every_secs := default_me_single_endpoint_shadow_rotate_every_secs;
  me_floor_mode := MeFloorMode_default;
  me_adaptive_floor_idle_secs := default_me_adaptive_floor_idle_secs;
  me_adaptive_floor_min_writers_single_endpoint := default_me_adaptive_floor_min_writers_single_endpoint;
  me_adaptive_floor_recover_grace_secs := default_me_adaptive_floor_recover_grace_secs;
  upstream_connect_retry_attempts := default_upstream_connect_retry_attempts;
  upstream_connect_retry_backoff_ms := default_upstream_connect_retry_backoff_ms;
  upstream_unhealthy_fail_threshold := default_upstream_unhealthy_fail_threshold;
  stun_iface_mismatch_ignore := false;
  unknown_dc_log_path := default_unknown_dc_log_path;
  log_level := LogLevel_Normal;
  disable_colors := false;
  telemetry := TelemetryConfig_default;
  me_socks_kdf_policy := Strict;
  me_route_backpressure_base_timeout_ms := default_me_route_backpressure_base_timeout_ms;
  me_route_backpressure_high_timeout_ms := default_me_route_backpressure_high_timeout_ms;
  me_route_backpressure_high_watermark_pct := default_me_route_backpressure_high_watermark_pct;
  links := LinksConfig_default;
  fast_mode_min_tls_record := default_fast_mode_min_tls_record;
  update_every := default_update_every;
  me_reinit_every_secs := default_me_reinit_every_secs;
  me_hardswap_warmup_delay_min_ms := default_me_hardswap_warmup_delay_min_ms;
  me_hardswap_warmup_delay_max_ms := default_me_hardswap_warmup_delay_max_ms;
  me_hardswap_warmup_extra_passes := default_me_hardswap_warmup_extra_passes;
  me_hardswap_warmup_pass_backoff_base_ms := default_me_hardswap_warmup_pass_backoff_base_ms;
  me_config_stable_snapshots := default_me_config_stable_snapshots;
  me_config_apply_cooldown_secs := default_me_config_apply_cooldown_secs;
  me_snapshot_require_http_2xx := default_me_snapshot_require_http_2xx;
  me_snapshot_reject_empty_map := default_me_snapshot_reject_empty_map;
  me_snapshot_min_proxy_for_lines := default_me_snapshot_min_proxy_for_lines;
  proxy_secret_stable_snapshots := default_proxy_secret_stable_snapshots;
  proxy_secret_rotate_runtime := default_proxy_secret_rotate_runtime;
  me_secret_atomic_snapshot := default_me_secret_atomic_snapshot;
  proxy_secret_len_max := default_proxy_secret_len_max;
  me_pool_drain_ttl_secs := default_me_pool_drain_ttl_secs;
  me_bind_stale_mode := MeBindStaleMode_default;
  me_bind_stale_ttl_secs := default_me_bind_stale_ttl_secs;
  me_pool_min_fresh_ratio := default_me_pool_min_fresh_ratio;
  me_reinit_drain_timeout_secs := default_me_reinit_drain_timeout_secs;
  proxy_secret_auto_reload_secs := default_proxy_secret_reload_secs;
  proxy_config_auto_reload_secs := default_proxy_config_reload_secs;
  me_reinit_singleflight := default_me_reinit_singleflight;
  me_reinit_trigger_channel := default_me_reinit_trigger_channel;
  me_reinit_coalesce_window_ms := default_me_reinit_coalesce_window_ms;
  me_deterministic_writer_sort := default_me_deterministic_writer_sort;
  ntp_check := default_ntp_check;
  ntp_servers := default_ntp_servers;
  auto_degradation_enabled := default_true;
  degradation_min_unavailable_dc_groups := default_degradation_min_unavailable_dc_groups
|}.

Record ListenerConfig := mkListenerConfig {
  listener_ip : IpAddr;
  listener_announce : option bytes;
  listener_announce_ip : option IpAddr;
  listener_proxy_protocol : option bool;
  listener_reuse_allow : bool
}.

Record ServerConfig := mkServerConfig {
  port : Z;
  listen_addr_ipv4 : option bytes;
  listen_addr_ipv6 : option bytes;
  listen_unix_sock : option bytes;
  listen_unix_sock_perm : option bytes;
  listen_tcp : option bool;
  proxy_protocol : bool;
  metrics_port : option Z;
  metrics_whitelist : list IpNetwork;
  listeners : list ListenerConfig
}.

Definition ServerConfig_default : ServerConfig := {|
  port := default_port;
  listen_addr_ipv4 := default_listen_addr_ipv4;
  listen_addr_ipv6 := default_listen_addr_ipv6_opt;
  listen_unix_sock := None;
  listen_unix_sock_perm := None;
  listen_tcp := None;
  proxy_protocol := false;
  metrics_port := None;
  metrics_whitelist := default_metrics_whitelist;
  listeners := []
|}.

Record TimeoutsConfig := mkTimeoutsConfig {
  client_handshake : Z;
  tg_connect : Z;
  client_keepalive : Z;
  client_ack : Z;
  me_one_retry : Z;
  me_one_timeout_ms : Z
}.

Definition TimeoutsConfig_default : TimeoutsConfig := {|
  client_handshake := default_handshake_timeout;
  tg_connect := default_connect_timeout;
  client_keepalive := default_keepalive;
  client_ack := default_ack_timeout;
  me_one_retry := default_me_one_retry;
  me_one_timeout_ms := default_me_one_timeout
|}.

Record AntiCensorshipConfig := mkAntiCensorshipConfig {
  tls_domain : bytes;
  tls_domains : list bytes;
  mask : bool;
  mask_host : option bytes;
  mask_port : Z;
  mask_unix_sock : option bytes;
  fake_cert_len : Z;
  tls_emulation : bool;
  tls_front_dir : bytes;
  server_hello_delay_min_ms : Z;
  server_hello_delay_max_ms : Z;
  tls_new_session_tickets : Z;
  tls_full_cert_ttl_secs : Z;
  alpn_enforce : bool;
  mask_proxy_protocol : Z
}.

Definition AntiCensorshipConfig_default : AntiCensorshipConfig := {|
  tls_domain := default_tls_domain;
  tls_domains := [];
  mask := default_true;
  mask_host := None;
  mask_port := default_mask_port;
  mask_unix_sock := None;
  fake_cert_len := default_fake_cert_len;
  tls_emulation := true;
  tls_front_dir := default_tls_front_dir;
  server_hello_delay_min_ms := default_server_hello_delay_min_ms;
  server_hello_delay_max_ms := default_server_hello_delay_max_ms;
  tls_new_session_tickets := default_tls_new_session_tickets;
  tls_full_cert_ttl_secs := default_tls_full_cert_ttl_secs;
  alpn_enforce := default_alpn_enforce;
  mask_proxy_protocol := 0
|}.

Record AccessConfig := mkAccessConfig {
  users : gmap string string;
  user_ad_tags : gmap string string;
  user_max_tcp_conns : gmap string Z;
  user_expirations : gmap string Z;
  user_data_quota : gmap string Z;
  user_max_unique_ips : gmap string Z;
  replay_check_len : Z;
  replay_window_secs : Z;
  ignore_time_skew : bool
}.

Definition AccessConfig_default : AccessConfig := {|
  users := default_access_users;
  user_ad_tags := ∅;
  user_max_tcp_conns := ∅;
  user_expirations := ∅;
  user_data_quota := ∅;
  user_max_unique_ips := ∅;
  replay_check_len := default_replay_check_len;
  replay_window_secs := default_replay_window_secs;
  ignore_time_skew := false
|}.

(** ** Upstreams and the whole configuration (types.rs:1010-1072, load.rs:98-137) *)

Inductive UpstreamType :=
| UpDirect (interface : option bytes) (bind_addresses : option (list bytes))
| UpSocks4 (address : bytes) (interface : option bytes) (user_id : option bytes)
| UpSocks5 (address : bytes) (interface : option bytes) (username password : option bytes).

Record UpstreamConfig := mkUpstreamConfig {
  upstream_type : UpstreamType;
  weight : Z;
  enabled : bool;
  scopes : bytes;
  selected_scope : bytes
}.

Record ProxyConfig := mkProxyConfig {
  general : GeneralConfig;
  network : NetworkConfig;
  server : ServerConfig;
  timeouts : TimeoutsConfig;
  censorship : AntiCensorshipConfig;
  access : AccessConfig;
  upstreams : list UpstreamConfig;
  show_link : ShowLink;
  cfg_dc_overrides : gmap bytes (list bytes);
  cfg_default_dc : option Z
}.

(** [#[derive(Default)]] *)
Definition ProxyConfig_default : ProxyConfig :=
  mkProxyConfig GeneralConfig_default NetworkConfig_default ServerConfig_default TimeoutsConfig_default
    AntiCensorshipConfig_default AccessConfig_default [] ShowNone ∅ None.

(** ** Derived values (types.rs, [impl GeneralConfig]) *)

Definition effective_update_every_secs (self : GeneralConfig) : Z :=
  match update_every self with
  | Some v => v
  | None => Z.min (proxy_secret_auto_reload_secs self) (proxy_config_auto_reload_secs self)
  end.
Definition effective_me_reinit_every_secs (self : GeneralConfig) : Z := me_reinit_every_secs self.
Definition effective_me_pool_force_close_secs (self : GeneralConfig) : Z := me_reinit_drain_timeout_secs self.

(** [ShowLink::resolve_users]: all names, sorted, or the names given. *)
Definition name_le (a b : string) : Prop := String.compare a b <> Gt.
#[global] Instance name_le_dec a b : Decision (name_le a b).
Proof. unfold name_le. apply _. Defined.
Definition resolve_users (self : ShowLink) (all_users : gmap string string) : list string :=
  match self with
  | ShowNone => []
  | ShowAll => merge_sort name_le (map_to_list all_users).*1
  | ShowSpecific names => names
  end.

(** [OneOrMany] and [deserialize_dc_overrides] (defaults.rs:434-467) *)
Inductive OneOrMany := One (s : bytes) | Many (v : list bytes).
Definition one_or_many (x : OneOrMany) : list bytes := match x with One s => [s] | Many v => v end.
Definition deserialize_dc_overrides (raw : list (bytes * OneOrMany)) : gmap bytes (list bytes) :=
  foldl (fun out '(dc, val) =>
    let addrs := filter (fun s : bytes => trim s <> []) (one_or_many val) in
    if decide (addrs = []) then out else <[dc := addrs]> out) ∅ raw.
