(* ===== verification/Upstream.v ===== *)
(** * Upstreams: [transport/upstream.rs]

    The ways out to Telegram: which upstream carries a connection, from which address it leaves, how a
    failing upstream is taken out of use and comes back, and the pings and health checks that keep the
    per-centre latencies.  The vector of upstream states behind its lock is a list; each section under
    the write lock is one atomic [Act], and between two of them other tasks may act.  Sockets, the
    clock and the interfaces of the machine are a script of [Dial]s, one for each connect attempt. *)

From Stdlib Require Import Floats.SpecFloat.
From stdpp Require Import gmap sorting.
From S2P Require Import Prelude NetAddr AddrOrder Errors AsyncIo DnsOverrides Socks MeHandshake DirectRelay ConfigTypes.

(** ** Floating point

    [f64] is the IEEE double of the Standard Library's [SpecFloat]: 53 bits of precision, exponents up to 1024. *)

Abbreviation f64 := spec_float (only parsing).
Definition f_add : f64 -> f64 -> f64 := SFadd 53 1024.
Definition f_sub : f64 -> f64 -> f64 := SFsub 53 1024.
Definition f_mul : f64 -> f64 -> f64 := SFmul 53 1024.
Definition f_div : f64 -> f64 -> f64 := SFdiv 53 1024.
Definition f_of_Z (z : Z) : f64 := binary_normalize 53 1024 z 0 false.
(** The literal [0.3]: the double nearest to it. *)
Definition f_0_3 : f64 := S754_finite false 5404319552844595 (-54).

(** ** Latency averages (upstream.rs:41-62) *)

Record LatencyEma := mkEma { value_ms : option f64; alpha : f64 }.

Definition LatencyEma_new (alpha : f64) : LatencyEma := mkEma None alpha.
Definition LatencyEma_update (self : LatencyEma) (sample_ms : f64) : LatencyEma :=
  mkEma (Some match value_ms self with
              | None => sample_ms
              | Some prev => f_add (f_mul prev (f_sub (f_of_Z 1) (alpha self))) (f_mul sample_ms (alpha self))
              end) (alpha self).
Definition LatencyEma_get (self : LatencyEma) : option f64 := value_ms self.

(** ** The state of an upstream (upstream.rs:64-139) *)

Inductive IpPreference := Unknown | PreferV6 | PreferV4 | BothWork | Unavailable.

(** [last_check] is only written. *)
Record UpstreamState := mkUp {
  up_config : UpstreamConfig;
  up_healthy : bool;
  up_fails : Z;
  dc_latency : list LatencyEma;
  dc_ip_pref : list IpPreference;
  bind_rr : Z
}.

Definition NUM_DCS : nat := 5.
Definition MIN_HEALTHY_DC_GROUPS : Z := 3.

Definition UpstreamState_new (config : UpstreamConfig) : UpstreamState :=
  mkUp config true 0 (repeat (LatencyEma_new f_0_3) NUM_DCS) (repeat Unknown NUM_DCS) 0.

Definition with_health (u : UpstreamState) (healthy : bool) (fails : Z) : UpstreamState :=
  mkUp (up_config u) healthy fails (dc_latency u) (dc_ip_pref u) (bind_rr u).
Definition with_latency (u : UpstreamState) (l : list LatencyEma) : UpstreamState :=
  mkUp (up_config u) (up_healthy u) (up_fails u) l (dc_ip_pref u) (bind_rr u).
Definition with_prefs (u : UpstreamState) (p : list IpPreference) : UpstreamState :=
  mkUp (up_config u) (up_healthy u) (up_fails u) (dc_latency u) p (bind_rr u).
Definition with_bind_rr (u : UpstreamState) (rr : Z) : UpstreamState :=
  mkUp (up_config u) (up_healthy u) (up_fails u) (dc_latency u) (dc_ip_pref u) rr.

Definition dc_array_idx (dc_idx : Z) : option nat :=
  let abs_dc := Z.abs dc_idx in
  if abs_dc =? 0 then None
  else if (1 <=? abs_dc) && (abs_dc <=? Z.of_nat NUM_DCS) then Some (Z.to_nat (abs_dc - 1))
  else Some 1%nat.

Definition effective_latency (self : UpstreamState) (dc_idx : option Z) : option f64 :=
  match (di ← dc_idx ≫= dc_array_idx; ema ← dc_latency self !! di; LatencyEma_get ema) with
  | Some ms => Some ms
  | None =>
      let '(sum, count) := foldl (fun '(s, c) v => (f_add s v, c + 1)) (f_of_Z 0, 0) (omap LatencyEma_get (dc_latency self)) in
      if 0 <? count then Some (f_div sum (f_of_Z count)) else None
  end.

(** ** The manager (upstream.rs:185-211) *)

Record UpstreamManager := mkManager {
  connect_retry_attempts : Z;
  connect_retry_backoff_ms : Z;
  unhealthy_fail_threshold : Z
}.

Definition UpstreamManager_new (configs : list UpstreamConfig) (attempts backoff_ms threshold : Z)
    : UpstreamManager * list UpstreamState :=
  (mkManager (Z.max attempts 1) backoff_ms (Z.max threshold 1),
   UpstreamState_new <$> filter (fun c => enabled c = true) configs).

(** *** What is done under the write lock *)

Inductive Act :=
| ActConnected (idx : nat) (dc_idx : option Z) (rtt_ms : f64)
| ActFailed (idx : nat)
| ActChecked (idx : nat) (updates : list (nat * f64)) (enough_groups : bool)
| ActPinged (idx : nat) (dc_zero_idx : nat) (rtt_ms : f64)
| ActPreferred (idx : nat) (prefs : list IpPreference)
| ActBound (idx : nat).

Definition update_latency (u : UpstreamState) (di : nat) (rtt_ms : f64) : UpstreamState :=
  with_latency u (alter (fun ema => LatencyEma_update ema rtt_ms) di (dc_latency u)).

Definition record_success (u : UpstreamState) : UpstreamState := with_health u true 0.

Definition record_failure (threshold : Z) (u : UpstreamState) : UpstreamState :=
  let fails := u32 (up_fails u + 1) in
  with_health u (if threshold <=? fails then false else up_healthy u) fails.

Definition act_on (threshold : Z) (a : Act) (u : UpstreamState) : UpstreamState :=
  match a with
  | ActConnected _ dc_idx rtt_ms =>
      let u := record_success u in
      match dc_idx ≫= dc_array_idx with Some di => update_latency u di rtt_ms | None => u end
  | ActFailed _ => record_failure threshold u
  | ActChecked _ updates enough_groups =>
      let u := foldl (fun u '(di, rtt_ms) => update_latency u di rtt_ms) u updates in
      if enough_groups then record_success u else record_failure threshold u
  | ActPinged _ di rtt_ms => update_latency u di rtt_ms
  | ActPreferred _ prefs => with_prefs u prefs
  | ActBound _ => with_bind_rr u (u64 (bind_rr u + 1))
  end.

Definition act_index (a : Act) : nat :=
  match a with
  | ActConnected i _ _ | ActFailed i | ActChecked i _ _ | ActPinged i _ _ | ActPreferred i _ | ActBound i => i
  end.

(** [if let Some(u) = guard.get_mut(idx)] *)
Definition apply_act (threshold : Z) (ups : list UpstreamState) (a : Act) : list UpstreamState :=
  alter (act_on threshold a) (act_index a) ups.

Definition replay (threshold : Z) : list UpstreamState -> list Act -> list UpstreamState := foldl (apply_act threshold).

(** ** The choice of an upstream (upstream.rs:352-429) *)

(** [s.split(',')] *)
Fixpoint split_on (c : Z) (cur l : bytes) : list bytes :=
  match l with
  | [] => [cur]
  | b :: l => if b =? c then cur :: split_on c [] l else split_on c (cur ++ [b]) l
  end.

Definition in_scope (scope : option bytes) (config : UpstreamConfig) : bool :=
  match scope with
  | None => bool_decide (scopes config = [])
  | Some req_scope => existsb (fun s => bool_decide (s = req_scope)) (trim <$> split_on 44 [] (scopes config))
  end.

(** The draws of the thread's generator: below a bound, and in a range of floats. *)
Record Draw := mkDraw { gen_index : Z -> Z; gen_f64 : f64 -> f64 }.

Definition filtered_upstreams (ups : list UpstreamState) (scope : option bytes) : list nat :=
  filter (fun i => from_option (fun u => in_scope scope (up_config u)) false (ups !! i) = true) (seq 0 (length ups)).

Definition healthy_of (ups : list UpstreamState) (l : list nat) : list nat :=
  filter (fun i => from_option up_healthy false (ups !! i) = true) l.

Definition latency_factor (latency : option f64) : f64 :=
  match latency with
  | Some ms => if SFltb (f_of_Z 1) ms then f_div (f_of_Z 1000) ms else f_of_Z 1000
  | None => f_of_Z 1
  end.

Definition upstream_weight (u : UpstreamState) (dc_idx : option Z) : f64 :=
  f_mul (f_of_Z (weight (up_config u))) (latency_factor (effective_latency u dc_idx)).

Fixpoint pick_weighted (choice : f64) (weights : list (nat * f64)) (otherwise : nat) : nat :=
  match weights with
  | [] => otherwise
  | (idx, w) :: weights => if SFltb choice w then idx else pick_weighted (f_sub choice w) weights otherwise
  end.

Definition select_upstream (draw : Draw) (ups : list UpstreamState) (dc_idx : option Z) (scope : option bytes) : option nat :=
  let filtered := filtered_upstreams ups scope in
  let healthy := healthy_of ups filtered in
  match filtered, healthy with
  | [], _ => None
  | _, [] => filtered !! Z.to_nat (gen_index draw (zlen filtered))
  | _, [i] => Some i
  | _, first :: _ =>
      let weights := omap (fun i => (fun u => (i, upstream_weight u dc_idx)) <$> (ups !! i)) healthy in
      let total := foldl f_add (f_of_Z 0) (snd <$> weights) in
      if SFleb total (f_of_Z 0) then healthy !! Z.to_nat (gen_index draw (zlen healthy))
      else Some (pick_weighted (gen_f64 draw total) weights first)
  end.

(** ** The local address (upstream.rs:213-325, socket.rs:134-155) *)

(** What [getifaddrs] lists: the name of an interface and one of its addresses; nothing when it fails. *)
Abbreviation Interfaces := (list (bytes * option IpAddr)) (only parsing).

Definition family_addrs (ifs : Interfaces) (name : bytes) (want_ipv6 : bool) : list IpAddr :=
  omap (fun '(n, address) =>
    if bool_decide (n = name) then
      match address with
      | Some ip => if Bool.eqb (is_ipv6 ip) want_ipv6 then Some ip else None
      | None => None
      end
    else None) ifs.

Definition resolve_interface_addrs (ifs : Interfaces) (name : bytes) (want_ipv6 : bool) : list IpAddr :=
  dedup (merge_sort ip_le (family_addrs ifs name want_ipv6)).

Definition resolve_interface_ip (ifs : Interfaces) (name : bytes) (want_ipv6 : bool) : option IpAddr :=
  head (family_addrs ifs name want_ipv6).

(** An interface given by its name. *)
Definition named_interface (interface : option bytes) : option bytes :=
  iface ← interface; match parse_ip iface with Some _ => None | None => Some iface end.

(** The configured addresses that may be used (upstream.rs:250-295) *)
Definition bind_candidates (ifs : Interfaces) (interface : option bytes) (addrs : list bytes) (want_ipv6 validate : bool)
    : list IpAddr :=
  let candidates := filter (fun ip => is_ipv6 ip = want_ipv6) (omap parse_ip addrs) in
  match named_interface interface with
  | Some iface =>
      if validate then
        match resolve_interface_addrs ifs iface want_ipv6 with
        | [] => []
        | iface_addrs => filter (fun ip => ip ∈ iface_addrs) candidates
        end
      else candidates
  | None => candidates
  end.

(** The address of the interface, by its name or as an address. *)
Definition interface_bind (ifs : Interfaces) (interface : option bytes) (want_ipv6 : bool) : option IpAddr :=
  iface ← interface;
  match parse_ip iface with
  | Some ip => if Bool.eqb (is_ipv6 ip) want_ipv6 then Some ip else None
  | None => resolve_interface_ip ifs iface want_ipv6
  end.

(** The address to bind to, and whether the counter of the round robin was advanced. *)
Definition resolve_bind_address (ifs : Interfaces) (interface : option bytes) (bind_addresses : option (list bytes))
    (target : SocketAddr) (rr : option Z) (validate_ip_on_interface : bool) : option IpAddr * bool :=
  let want_ipv6 := is_ipv6 (sa_ip target) in
  match bind_addresses with
  | None => (interface_bind ifs interface want_ipv6, false)
  | Some addrs =>
      match bind_candidates ifs interface addrs want_ipv6 validate_ip_on_interface with
      | [] =>
          if validate_ip_on_interface && bool_decide (is_Some (named_interface interface)) then (None, false)
          else (interface_bind ifs interface want_ipv6, false)
      | candidates =>
          match rr with
          | Some counter => (candidates !! Z.to_nat (counter mod zlen candidates), true)
          | None => (head candidates, false)
          end
      end
  end.

(** ** One connect attempt (upstream.rs:327-350, 536-756) *)

(** [ConnectStart]: what the non-blocking [connect] says; [opening] holds of [EINPROGRESS] and [WouldBlock]. *)
Inductive ConnectStart := Started | StartErr (opening : bool) (e : IoError).

(** The sockets, the machine and the proxy during one attempt: the system calls that make and bind a socket,
    connecting it, its becoming writable ([None] when the time is up), the connection to a name, the two ends,
    the bytes of the connection, and whether the SOCKS handshake is cut off by its timeout; then the whole
    attempt's outer timeout, its duration, and what other tasks do to the upstreams meanwhile. *)
Record Dial := mkDial {
  d_ifs : list (bytes * option IpAddr);
  d_socket : bool -> io_result unit;
  d_nonblocking : io_result unit;
  d_nodelay : io_result unit;
  d_bind : SocketAddr -> io_result unit;
  d_nonblocking_again : io_result unit;
  d_connect : SocketAddr -> ConnectStart;
  d_into_tokio : io_result unit;
  d_writable : option (io_result unit);
  d_take_error : io_result (option IoError);
  d_by_name : SocketAddr + bytes -> option (io_result unit);
  d_stream : list read_event * upstream_w;
  d_local : option SocketAddr;
  d_peer : option SocketAddr;
  d_socks_late : bool;
  d_late : bool;
  d_rtt_ms : f64;
  d_others : list Act
}.

Definition to_text (l : bytes) : string := String.string_of_list_ascii ((fun b => Ascii.ascii_of_N (Z.to_N b)) <$> l).
Definition timed_out {A} (what : bytes) : result ProxyError A := Err (PE_ConnectionTimeout (to_text what)).

(** [create_outgoing_socket_bound] (socket.rs:100-123); the argument of [d_socket] is whether the domain is IPv4. *)
Definition create_outgoing_socket_bound (d : Dial) (addr : SocketAddr) (bind_addr : option IpAddr) : io_result unit :=
  _ ← d_socket d (is_ipv4 (sa_ip addr));
  _ ← d_nonblocking d;
  _ ← d_nodelay d;
  match bind_addr with
  | Some bind_ip => d_bind d (mkSocketAddr bind_ip 0)
  | None => Ok tt
  end.

(** A socket to [target], bound to [bind_ip], once it is connected. *)
Definition open_socket (d : Dial) (target : SocketAddr) (bind_ip : option IpAddr) : result ProxyError unit :=
  _ ← map_err PE_Io (create_outgoing_socket_bound d target bind_ip);
  _ ← map_err PE_Io (d_nonblocking_again d);
  _ ← match d_connect d target with
      | Started | StartErr true _ => Ok tt
      | StartErr false e => Err (PE_Io e)
      end;
  _ ← map_err PE_Io (d_into_tokio d);
  _ ← match d_writable d with
      | Some (Ok tt) => Ok tt
      | Some (Err e) => Err (PE_Io e)
      | None => timed_out (fmt_socket_addr target)
      end;
  error ← map_err PE_Io (d_take_error d);
  match error with Some e => Err (PE_Io e) | None => Ok tt end.

Definition connect_hostname_with_dns_override (store : OverrideMap) (d : Dial) (address : bytes) : result ProxyError unit :=
  let answer (shown : bytes) o :=
    match o with
    | Some (Ok tt) => Ok tt
    | Some (Err e) => Err (PE_Io e)
    | None => timed_out shown
    end in
  match ('(host, port) ← split_host_port address; resolve_socket_addr store host port) with
  | Some addr => answer (fmt_socket_addr addr) (d_by_name d (inl addr))
  | None => answer address (d_by_name d (inr address))
  end.

(** The connection to a SOCKS proxy. *)
Definition open_proxy (store : OverrideMap) (d : Dial) (address : bytes) (interface : option bytes) (rr : option Z)
    : result ProxyError unit :=
  match parse_socket_addr address with
  | Some proxy_addr =>
      let '(bind_ip, _) := resolve_bind_address (d_ifs d) interface None proxy_addr rr false in
      open_socket d proxy_addr bind_ip
  | None => connect_hostname_with_dns_override store d address
  end.

(** [timeout(connect_timeout, connect_socks(..))]: a call that waits for a silent proxy runs into the timeout. *)
Definition socks_within (d : Dial) (target : SocketAddr) (call : socks_io (list read_event) SocksBoundAddr)
    : result ProxyError (SocketAddr * socks_conn) :=
  if d_socks_late d then timed_out (fmt_socket_addr target)
  else
    match call (d_stream d) with
    | Returned (Ok bound) stream => Ok (bound_addr bound, stream)
    | Returned (Err e) _ => Err e
    | Waits _ => timed_out (fmt_socket_addr target)
    end.

Definition selected (config : UpstreamConfig) : option bytes :=
  if decide (selected_scope config = []) then None else Some (selected_scope config).

(** The stream and its way out, and whether the round robin was advanced. *)
Definition connect_via_upstream (store : OverrideMap) (d : Dial) (config : UpstreamConfig) (target : SocketAddr) (rr : option Z)
    : result ProxyError (socks_conn * UpstreamEgressInfo) * bool :=
  match upstream_type config with
  | UpDirect interface bind_addresses =>
      let '(bind_ip, advanced) := resolve_bind_address (d_ifs d) interface bind_addresses target rr true in
      (_ ← open_socket d target bind_ip;
       Ok (d_stream d, mkEgress Direct (d_local d) bind_ip None None), advanced)
  | UpSocks4 address interface user_id =>
      (_ ← open_proxy store d address interface rr;
       '(bound, stream) ← socks_within d target (connect_socks4 target (option_or (selected config) user_id));
       Ok (stream, mkEgress Socks4 (d_local d) None (Some bound) (d_peer d)), false)
  | UpSocks5 address interface username password =>
      (_ ← open_proxy store d address interface rr;
       '(bound, stream) ← socks_within d target
         (connect_socks5 target (option_or (selected config) username) (option_or (selected config) password));
       Ok (stream, mkEgress Socks5 (d_local d) None (Some bound) (d_peer d)), false)
  end.

(** ** The world of the upstream tasks *)

Record World := mkWorld { w_ups : list UpstreamState; w_dials : list Dial }.

(** When the script is over, nothing becomes writable any more. *)
Definition silent_dial : Dial :=
  mkDial [] (fun _ => Ok tt) (Ok tt) (Ok tt) (fun _ => Ok tt) (Ok tt) (fun _ => Started) (Ok tt) None (Ok None) (fun _ => None)
    ([], mkUpW [] [] []) None None true true (f_of_Z 0) [].

Section Manager.
Context (threshold : Z) (store : OverrideMap).

Definition act (w : World) (a : Act) : World := mkWorld (apply_act threshold (w_ups w) a) (w_dials w).

(** [connect_via_upstream(&config, target, bind_rr)] for the upstream [idx]: the counter is the shared one of
    its state, read and advanced at once; then other tasks act until the attempt is over. *)
Definition attempt (w : World) (idx : nat) (config : UpstreamConfig) (target : SocketAddr)
    : result ProxyError (socks_conn * UpstreamEgressInfo) * Dial * World :=
  let '(d, dials) := match w_dials w with [] => (silent_dial, []) | d :: dials => (d, dials) end in
  let '(r, advanced) := connect_via_upstream store d config target (bind_rr <$> (w_ups w !! idx)) in
  let w := mkWorld (w_ups w) dials in
  let w := if advanced then act w (ActBound idx) else w in
  (r, d, mkWorld (replay threshold (w_ups w) (d_others d)) (w_dials w)).

(** *** Connecting (upstream.rs:437-534)

    [attempts_loop] is the loop with [remaining] attempts to go. *)
Fixpoint attempts_loop (remaining : nat) (idx : nat) (config : UpstreamConfig) (target : SocketAddr) (dc_idx : option Z)
    (last_error : option ProxyError) (w : World) : result ProxyError (socks_conn * UpstreamEgressInfo) * World :=
  match remaining with
  | O =>
      let error := default (PE_Config "Upstream connect attempts exhausted") last_error in
      (Err error, act w (ActFailed idx))
  | S remaining =>
      let '(r, d, w) := attempt w idx config target in
      match r with
      | Ok conn => (Ok conn, act w (ActConnected idx dc_idx (d_rtt_ms d)))
      | Err e => attempts_loop remaining idx config target dc_idx (Some e) w
      end
  end.

Definition with_scope (config : UpstreamConfig) (scope : option bytes) : UpstreamConfig :=
  match scope with
  | Some s => mkUpstreamConfig (upstream_type config) (weight config) (enabled config) (scopes config) s
  | None => config
  end.

Definition connect_with_details (self : UpstreamManager) (draw : Draw) (target : SocketAddr) (dc_idx : option Z) (scope : option bytes)
    (w : World) : outcome (result ProxyError (socks_conn * UpstreamEgressInfo) * World) :=
  match select_upstream draw (w_ups w) dc_idx scope with
  | None => Done (Err (PE_Config "No upstreams available"), w)
  | Some idx =>
      match w_ups w !! idx with
      | None => Panicked
      | Some u =>
          Done (attempts_loop (Z.to_nat (connect_retry_attempts self)) idx (with_scope (up_config u) scope) target dc_idx None w)
      end
  end.

Definition connect (self : UpstreamManager) (draw : Draw) (target : SocketAddr) (dc_idx : option Z) (scope : option bytes) (w : World)
    : outcome (result ProxyError socks_conn * World) :=
  match connect_with_details self draw target dc_idx scope w with
  | Done (Ok (stream, _), w) => Done (Ok stream, w)
  | Done (Err e, w) => Done (Err e, w)
  | Panicked => Panicked
  | OutOfFuel => OutOfFuel
  end.

(** *** Pings at start-up (upstream.rs:758-1001) *)

Record DcPingResult := mkPing {
  ping_dc_idx : Z;
  ping_dc_addr : SocketAddr;
  ping_rtt_ms : option f64;
  ping_error : option bytes
}.

Record StartupPingResult := mkStartup {
  v6_results : list DcPingResult;
  v4_results : list DcPingResult;
  upstream_name : bytes;
  both_available : bool
}.

(** [timeout(.., self.ping_single_dc(..))] and the result that is reported. *)
Definition ping_single_dc (w : World) (idx : nat) (config : UpstreamConfig) (target : SocketAddr) (dc_idx : Z)
    : DcPingResult * World :=
  let '(r, d, w) := attempt w idx config target in
  (if d_late d then mkPing dc_idx target None (Some (str "timeout"))
   else match r with
        | Ok _ => mkPing dc_idx target (Some (d_rtt_ms d)) None
        | Err e => mkPing dc_idx target None (Some (ProxyError_fmt e))
        end, w).

Definition describe (config : UpstreamConfig) : bytes :=
  match upstream_type config with
  | UpDirect interface bind_addresses =>
      let dev := match interface with Some (_ :: _ as dev) => [str "dev=" ++ dev] | _ => [] end in
      let src := match bind_addresses with Some (_ :: _ as src) => [str "src=" ++ join 44 src] | _ => [] end in
      match dev ++ src with [] => str "direct" | parts => str "direct " ++ join 32 parts end
  | UpSocks4 address _ _ => str "socks4://" ++ address
  | UpSocks5 address _ _ _ => str "socks5://" ++ address
  end.

(** The five data centres of one family, numbered from [di]. *)
Fixpoint ping_family (w : World) (idx : nat) (config : UpstreamConfig) (enabled : bool) (label : bytes) (di : nat) (dcs : list IpAddr)
    : list DcPingResult * World :=
  match dcs with
  | [] => ([], w)
  | dc :: dcs =>
      let addr := mkSocketAddr dc TG_DATACENTER_PORT in
      let dc_idx := Z.of_nat di + 1 in
      let '(res, w) :=
        if enabled then
          let '(res, w) := ping_single_dc w idx config addr dc_idx in
          (res, match ping_rtt_ms res with Some rtt => act w (ActPinged idx di rtt) | None => w end)
        else (mkPing dc_idx addr None (Some label), w) in
      let '(rest, w) := ping_family w idx config enabled label (S di) dcs in
      (res :: rest, w)
  end.

Definition parse_i16 : bytes -> option Z := parse_signed (2 ^ 15).

(** The overrides of the map, in the order of its iteration, whose key is a positive number. *)
Definition override_addrs (overrides : list (bytes * list bytes)) : list (Z * SocketAddr) :=
  '(key, addrs) ← overrides;
  match parse_i16 key with
  | Some v => if 0 <? v then (fun a => (v, a)) <$> omap parse_socket_addr addrs else []
  | None => []
  end.

Fixpoint ping_overrides (w : World) (idx : nat) (config : UpstreamConfig) (ipv4_enabled ipv6_enabled : bool)
    (targets : list (Z * SocketAddr)) : list DcPingResult * list DcPingResult * World :=
  match targets with
  | [] => ([], [], w)
  | (dc_idx, addr) :: targets =>
      let v6 := is_ipv6 (sa_ip addr) in
      if (v6 && negb ipv6_enabled) || (negb v6 && negb ipv4_enabled) then
        ping_overrides w idx config ipv4_enabled ipv6_enabled targets
      else
        let '(res, w) := ping_single_dc w idx config addr dc_idx in
        let '(v6s, v4s, w) := ping_overrides w idx config ipv4_enabled ipv6_enabled targets in
        if v6 then (res :: v6s, v4s, w) else (v6s, res :: v4s, w)
  end.

Definition works (r : DcPingResult) : bool := match ping_rtt_ms r with Some _ => true | None => false end.

Definition preference (v6_ok v4_ok : bool) : IpPreference :=
  match v6_ok, v4_ok with
  | true, true => BothWork
  | true, false => PreferV6
  | false, true => PreferV4
  | false, false => Unavailable
  end.

Definition ping_upstream (overrides : list (bytes * list bytes)) (ipv4_enabled ipv6_enabled : bool) (w : World) (idx : nat)
    (config : UpstreamConfig) : StartupPingResult * World :=
  let '(v6, w) := ping_family w idx config ipv6_enabled (str "ipv6 disabled") 0 TG_DATACENTERS_V6 in
  let '(v4, w) := ping_family w idx config ipv4_enabled (str "ipv4 disabled") 0 TG_DATACENTERS_V4 in
  let '(v6', v4', w) := ping_overrides w idx config ipv4_enabled ipv6_enabled (override_addrs overrides) in
  let prefs := zip_with (fun a b => preference (works a) (works b)) v6 v4 in
  let w := act w (ActPreferred idx prefs) in
  let v6 := v6 ++ v6' in
  let v4 := v4 ++ v4' in
  (mkStartup v6 v4 (describe config) (existsb works v6 && existsb works v4), w).

Fixpoint ping_upstreams (overrides : list (bytes * list bytes)) (ipv4_enabled ipv6_enabled : bool) (w : World) (idx : nat)
    (configs : list UpstreamConfig) : list StartupPingResult * World :=
  match configs with
  | [] => ([], w)
  | config :: configs =>
      let '(res, w) := ping_upstream overrides ipv4_enabled ipv6_enabled w idx config in
      let '(rest, w) := ping_upstreams overrides ipv4_enabled ipv6_enabled w (S idx) configs in
      (res :: rest, w)
  end.

Definition ping_all_dcs (overrides : list (bytes * list bytes)) (ipv4_enabled ipv6_enabled : bool) (w : World)
    : list StartupPingResult * World :=
  ping_upstreams overrides ipv4_enabled ipv6_enabled w 0 (up_config <$> w_ups w).

(** *** Health checks (upstream.rs:1003-1267) *)

Record HealthCheckGroup := mkGroup {
  group_dc_idx : Z;
  primary : list SocketAddr;
  fallback : list SocketAddr
}.

Definition required_healthy_group_count (total_groups : Z) : Z :=
  if total_groups =? 0 then 0 else Z.min total_groups MIN_HEALTHY_DC_GROUPS.

Definition push_endpoint (m : gmap Z (list SocketAddr)) (e : Z * SocketAddr) : gmap Z (list SocketAddr) :=
  <[e.1 := default [] (m !! e.1) ++ [e.2]]> m.

(** The endpoints of one family: those of the table and those of the overrides. *)
Definition family_endpoints (enabled v6 : bool) (table : list IpAddr) (overrides : list (bytes * list bytes)) : list (Z * SocketAddr) :=
  if enabled then
    imap (fun idx dc_ip => (i16 (Z.of_nat (idx + 1)), mkSocketAddr dc_ip TG_DATACENTER_PORT)) table ++
    filter (fun e => is_ipv6 (sa_ip e.2) = v6) (override_addrs overrides)
  else [].

Definition by_dc (endpoints : list (Z * SocketAddr)) : gmap Z (list SocketAddr) :=
  (fun addrs => dedup (merge_sort addr_le addrs)) <$> foldl push_endpoint ∅ endpoints.

Definition build_health_check_groups (prefer_ipv6 ipv4_enabled ipv6_enabled : bool) (overrides : list (bytes * list bytes))
    : list HealthCheckGroup :=
  let v4_by_dc := by_dc (family_endpoints ipv4_enabled false TG_DATACENTERS_V4 overrides) in
  let v6_by_dc := by_dc (family_endpoints ipv6_enabled true TG_DATACENTERS_V6 overrides) in
  let all_dcs := merge_sort Z.le (elements (dom v4_by_dc ∪ dom v6_by_dc)) in
  omap (fun dc_idx =>
    let v4_endpoints := default [] (v4_by_dc !! dc_idx) in
    let v6_endpoints := default [] (v6_by_dc !! dc_idx) in
    let '(primary, fallback) := if prefer_ipv6 then (v6_endpoints, v4_endpoints) else (v4_endpoints, v6_endpoints) in
    match primary, fallback with
    | [], [] => None
    | _, _ => Some (mkGroup dc_idx primary fallback)
    end) all_dcs.

Abbreviation Rotation := (gmap (nat * Z * bool) Z) (only parsing).

(** The loop over the endpoints of one family, [steps] of them still to be tried: whether one was reached,
    how fast, and where the next check starts. *)
Fixpoint try_endpoints (steps : nat) (step : Z) (start_idx : Z) (endpoints : list SocketAddr) (idx : nat) (config : UpstreamConfig)
    (w : World) : option (f64 * Z) * World :=
  match steps with
  | O => (None, w)
  | S steps =>
      let endpoint_idx := (start_idx + step) mod zlen endpoints in
      match endpoints !! Z.to_nat endpoint_idx with
      | None => (None, w)
      | Some endpoint =>
          let '(r, d, w) := attempt w idx config endpoint in
          match r with
          | Ok _ =>
              if d_late d then try_endpoints steps (step + 1) start_idx endpoints idx config w
              else (Some (d_rtt_ms d, (endpoint_idx + 1) mod zlen endpoints), w)
          | Err _ => try_endpoints steps (step + 1) start_idx endpoints idx config w
          end
      end
  end.

Definition check_family (is_primary : bool) (endpoints : list SocketAddr) (dc_idx : Z) (idx : nat) (config : UpstreamConfig)
    (rotation : Rotation) (w : World) : option f64 * Rotation * World :=
  match endpoints with
  | [] => (None, rotation, w)
  | _ =>
      let key := (idx, dc_idx, is_primary) in
      let start_idx := default 0 (rotation !! key) mod zlen endpoints in
      let '(reached, w) := try_endpoints (length endpoints) 0 start_idx endpoints idx config w in
      match reached with
      | Some (rtt_ms, next_idx) => (Some rtt_ms, <[key := next_idx]> rotation, w)
      | None => (None, <[key := (start_idx + 1) mod zlen endpoints]> rotation, w)
      end
  end.

(** One group: its fallback endpoints are tried when no primary one was reached. *)
Definition check_group (group : HealthCheckGroup) (idx : nat) (config : UpstreamConfig) (rotation : Rotation) (w : World)
    : option f64 * Rotation * World :=
  let '(rtt, rotation, w) := check_family true (primary group) (group_dc_idx group) idx config rotation w in
  match rtt with
  | Some rtt => (Some rtt, rotation, w)
  | None => check_family false (fallback group) (group_dc_idx group) idx config rotation w
  end.

Fixpoint check_groups (groups : list HealthCheckGroup) (idx : nat) (config : UpstreamConfig) (rotation : Rotation) (w : World)
    : Z * list (nat * f64) * Rotation * World :=
  match groups with
  | [] => (0, [], rotation, w)
  | group :: groups =>
      let '(rtt, rotation, w) := check_group group idx config rotation w in
      let '(healthy, updates, rotation, w) := check_groups groups idx config rotation w in
      match rtt with
      | Some rtt_ms =>
          (1 + healthy, match dc_array_idx (group_dc_idx group) with Some di => (di, rtt_ms) :: updates | None => updates end, rotation, w)
      | None => (healthy, updates, rotation, w)
      end
  end.

(** One upstream. *)
Definition check_upstream (groups : list HealthCheckGroup) (idx : nat) (config : UpstreamConfig) (rotation : Rotation) (w : World)
    : Rotation * World :=
  let '(healthy_groups, latency_updates, rotation, w) := check_groups groups idx config rotation w in
  (rotation, act w (ActChecked idx latency_updates (required_healthy_group_count (zlen groups) <=? healthy_groups))).

Fixpoint check_upstreams (groups : list HealthCheckGroup) (idx : nat) (configs : list UpstreamConfig) (rotation : Rotation) (w : World)
    : Rotation * World :=
  match configs with
  | [] => (rotation, w)
  | config :: configs =>
      let '(rotation, w) := check_upstream groups idx config rotation w in
      check_upstreams groups (S idx) configs rotation w
  end.

(** One turn of the loop of [run_health_checks], after its sleep. *)
Definition health_check_turn (groups : list HealthCheckGroup) (rotation : Rotation) (w : World) : Rotation * World :=
  match groups with
  | [] => (rotation, w)
  | _ =>
      if required_healthy_group_count (zlen groups) =? 0 then (rotation, w)
      else check_upstreams groups 0 (up_config <$> w_ups w) rotation w
  end.

(** [run_health_checks], for a number of turns; other tasks act while it sleeps. *)
Fixpoint run_health_checks (turns : list (list Act)) (groups : list HealthCheckGroup) (rotation : Rotation) (w : World) : World :=
  match turns with
  | [] => w
  | others :: turns =>
      let '(rotation, w) := health_check_turn groups rotation (mkWorld (replay threshold (w_ups w) others) (w_dials w)) in
      run_health_checks turns groups rotation w
  end.

End Manager.

(** *** Preferences (upstream.rs:1269-1293) *)

Definition get_dc_ip_preference (ups : list UpstreamState) (dc_idx : Z) : option IpPreference :=
  u ← head ups; idx ← dc_array_idx dc_idx; dc_ip_pref u !! idx.

Definition get_dc_addr (dc_idx : Z) (prefer_ipv6 : bool) : option SocketAddr :=
  arr_idx ← dc_array_idx dc_idx;
  ip ← (if prefer_ipv6 then TG_DATACENTERS_V6 else TG_DATACENTERS_V4) !! arr_idx;
  Some (mkSocketAddr ip TG_DATACENTER_PORT).

(** ** The choice *)

Definition draw_ok (draw : Draw) : Prop := forall n, 0 < n -> 0 <= gen_index draw n < n.

Lemma filtered_spec ups scope i :
  i ∈ filtered_upstreams ups scope <-> exists u, ups !! i = Some u /\ in_scope scope (up_config u) = true.
Proof.
  unfold filtered_upstreams. rewrite list_elem_of_filter, elem_of_seq. split.
  - intros [Hs _]. destruct (ups !! i) as [u|]; [|done]. by exists u.
  - intros (u & E & Hs). rewrite E. split; [done|]. apply lookup_lt_Some in E. lia.
Qed.

Lemma healthy_of_spec ups l i : i ∈ healthy_of ups l <-> i ∈ l /\ exists u, ups !! i = Some u /\ up_healthy u = true.
Proof.
  unfold healthy_of. rewrite list_elem_of_filter. destruct (ups !! i) as [u|]; cbn [from_option]; split.
  - intros [? ?]. eauto.
  - intros [? (u' & [= <-] & ?)]. done.
  - by intros [? _].
  - by intros [_ (? & ? & _)].
Qed.

Lemma gen_index_elem draw {A} (l : list A) i :
  draw_ok draw -> l !! Z.to_nat (gen_index draw (zlen l)) = i -> l <> [] -> exists x, i = Some x /\ x ∈ l.
Proof.
  intros Hd Hi Hne. assert (0 < zlen l) as Hl by (destruct l; [done|rewrite zlen_cons; pose proof (zlen_nonneg l); lia]).
  specialize (Hd _ Hl). destruct (lookup_lt_is_Some_2 l (Z.to_nat (gen_index draw (zlen l)))) as [x Hx]; [unfold zlen in *; lia|].
  exists x. rewrite <-Hi. split; [done|]. by eapply list_elem_of_lookup_2.
Qed.

Lemma pick_weighted_elem choice weights otherwise : pick_weighted choice weights otherwise ∈ otherwise :: weights.*1.
Proof.
  revert choice. induction weights as [|[i w] weights IH]; intros choice; cbn [pick_weighted fmap list_fmap fst]; [set_solver|].
  destruct (SFltb choice w); [set_solver|]. specialize (IH (f_sub choice w)). set_solver.
Qed.

Lemma weights_index {B} (ups : list UpstreamState) (l : list nat) (f : UpstreamState -> B) i :
  i ∈ (omap (fun i => (fun u => (i, f u)) <$> (ups !! i)) l).*1 -> i ∈ l.
Proof.
  rewrite list_elem_of_fmap. intros ([j w] & -> & Hj). apply list_elem_of_omap in Hj as (k & Hk & E).
  destruct (ups !! k); [|done]. by injection E as <- <-.
Qed.

Lemma select_upstream_cases draw ups dc_idx scope :
  draw_ok draw ->
  match select_upstream draw ups dc_idx scope with
  | None => filtered_upstreams ups scope = []
  | Some i => i ∈ filtered_upstreams ups scope /\
      (i ∈ healthy_of ups (filtered_upstreams ups scope) \/ healthy_of ups (filtered_upstreams ups scope) = [])
  end.
Proof.
  intros Hd. unfold select_upstream. cbv zeta.
  set (filtered := filtered_upstreams ups scope). set (healthy := healthy_of ups filtered).
  assert (forall i, i ∈ healthy -> i ∈ filtered) as Hsub by (intros i; unfold healthy; rewrite healthy_of_spec; tauto).
  destruct filtered as [|f0 fs] eqn:Ef; [done|]. rewrite <-Ef in *. destruct healthy as [|h [|h' hs]] eqn:Eh.
  - destruct (gen_index_elem draw filtered _ Hd eq_refl) as (x & -> & Hx); [by rewrite Ef|]. eauto.
  - assert (h ∈ [h]) by set_solver. eauto.
  - rewrite <-Eh in *. destruct (SFleb _ _).
    + destruct (gen_index_elem draw healthy _ Hd eq_refl) as (x & -> & Hx); [by rewrite Eh|]. eauto.
    + match goal with |- context [pick_weighted ?c ?w ?o] => pose proof (pick_weighted_elem c w o) as Hp; set (x := pick_weighted c w o) in * end.
      assert (x ∈ healthy) as Hx; [|by eauto].
      apply elem_of_cons in Hp as [->|Hp]; [rewrite Eh; apply list_elem_of_here|]. exact (weights_index ups _ (fun u => upstream_weight u dc_idx) _ Hp).
Qed.

(** ** The circuit breaker *)

(** The failures of an upstream since its last success. *)
Definition count_act (idx : nat) (n : Z) (a : Act) : Z :=
  match a with
  | ActConnected i _ _ => if decide (i = idx) then 0 else n
  | ActFailed i => if decide (i = idx) then n + 1 else n
  | ActChecked i _ enough => if decide (i = idx) then if enough then 0 else n + 1 else n
  | _ => n
  end.
Definition trailing_failures (idx : nat) (acts : list Act) : Z := foldl (count_act idx) 0 acts.

Lemma apply_act_lookup threshold ups a idx :
  apply_act threshold ups a !! idx = (if decide (act_index a = idx) then act_on threshold a else id) <$> ups !! idx.
Proof.
  unfold apply_act. rewrite list_lookup_alter. destruct (decide (act_index a = idx)) as [->|Hn]; [done|]. by destruct (ups !! idx).
Qed.

Lemma update_latency_health u di rtt :
  up_healthy (update_latency u di rtt) = up_healthy u /\ up_fails (update_latency u di rtt) = up_fails u.
Proof. done. Qed.

Lemma updates_health updates u :
  let u' := foldl (fun u '(di, rtt_ms) => update_latency u di rtt_ms) u updates in
  up_healthy u' = up_healthy u /\ up_fails u' = up_fails u.
Proof. revert u. induction updates as [|[di rtt] updates IH]; intros u; cbn; [done|]. by destruct (IH (update_latency u di rtt)). Qed.

Definition breaker_state (threshold n : Z) (u : UpstreamState) : Prop := up_fails u = n /\ up_healthy u = (n <? threshold).

Lemma record_failure_breaker threshold n u :
  0 <= n < 2 ^ 32 - 1 -> breaker_state threshold n u -> breaker_state threshold (n + 1) (record_failure threshold u).
Proof.
  intros Hn [Hf Hh]. unfold breaker_state, record_failure, u32. cbn [up_fails up_healthy with_health]. rewrite Hf, Hh, Z.mod_small by lia.
  split; [done|]. destruct (Z.leb_spec threshold (n + 1)), (Z.ltb_spec n threshold), (Z.ltb_spec (n + 1) threshold); lia || done.
Qed.

Lemma act_breaker threshold a idx n u :
  1 <= threshold -> 0 <= n < 2 ^ 32 - 1 -> act_index a = idx ->
  breaker_state threshold n u -> breaker_state threshold (count_act idx n a) (act_on threshold a u).
Proof.
  intros Ht Hn <- Hb.
  assert (forall v, breaker_state threshold 0 (record_success v)) as Hs.
  { intros v. split; [done|]. cbn. by destruct (Z.ltb_spec 0 threshold); [|lia]. }
  destruct a as [i dc rtt|i|i upd ok|i di rtt|i prefs|i]; cbn [count_act act_on act_index]; rewrite ?decide_True by done; try done.
  - cbv zeta. by destruct (dc ≫= dc_array_idx); apply Hs.
  - by apply record_failure_breaker.
  - destruct (updates_health upd u) as [E1 E2]. cbv zeta in *. destruct ok; [apply Hs|]. apply record_failure_breaker; [done|].
    destruct Hb as [Hf Hh]. split; [by rewrite E2|by rewrite E1].
Qed.

Lemma count_act_bound idx n a : 0 <= n -> 0 <= count_act idx n a <= n + 1.
Proof. intros Hn. destruct a as [i d r|i|i u ok|i d r|i p|i]; cbn; try lia; destruct (decide (i = idx)); try destruct ok; lia. Qed.

Lemma count_act_other idx n a : act_index a <> idx -> count_act idx n a = n.
Proof. destruct a; cbn; intros; by rewrite ?decide_False by done. Qed.

Lemma replay_breaker threshold acts : forall ups n idx u,
  1 <= threshold -> 0 <= n -> n + zlen acts < 2 ^ 32 ->
  (forall v, ups !! idx = Some v -> breaker_state threshold n v) ->
  replay threshold ups acts !! idx = Some u -> breaker_state threshold (foldl (count_act idx) n acts) u.
Proof.
  induction acts as [|a acts IH]; intros ups n idx u Ht Hn Hl Hb Hu; [by apply Hb|].
  rewrite zlen_cons in Hl. pose proof (zlen_nonneg acts). pose proof (count_act_bound idx n a Hn).
  cbn [replay foldl] in *. eapply IH; [done|lia|lia| |exact Hu]. intros v Hv. rewrite apply_act_lookup in Hv.
  destruct (decide (act_index a = idx)) as [E|E].
  - destruct (ups !! idx) as [u0|]; [|done]. injection Hv as <-. apply act_breaker; [done|lia|done|by apply Hb].
  - rewrite count_act_other by done. apply Hb. by destruct (ups !! idx).
Qed.

(** ** The history of the upstreams

    What the manager does to the upstreams is a sequence of acts, its own and those of other tasks. *)

Section History.
Context (threshold : Z) (store : OverrideMap).

Lemma replay_app ups a b : replay threshold ups (a ++ b) = replay threshold (replay threshold ups a) b.
Proof. apply foldl_app. Qed.

Definition extends (w w' : World) : Prop := exists acts, w_ups w' = replay threshold (w_ups w) acts.

Lemma extends_refl w : extends w w.
Proof. by exists []. Qed.
Lemma extends_trans w1 w2 w3 : extends w1 w2 -> extends w2 w3 -> extends w1 w3.
Proof. intros [a Ha] [b Hb]. exists (a ++ b). by rewrite replay_app, <-Ha. Qed.
Lemma extends_act w a : extends w (act threshold w a).
Proof. by exists [a]. Qed.

(** An attempt uses one dial, and does to the upstreams what the dial lets other tasks do, after advancing
    the counter of its own upstream at most. *)
Definition foreign (idx : nat) (dials : list Dial) (a : Act) : Prop := a = ActBound idx \/ Exists (fun d => a ∈ d_others d) dials.

Lemma attempt_history w idx config target r d w' :
  attempt threshold store w idx config target = (r, d, w') ->
  d = default silent_dial (head (w_dials w)) /\ w_dials w' = tail (w_dials w) /\
  r = (connect_via_upstream store d config target (bind_rr <$> (w_ups w !! idx))).1 /\
  exists acts, w_ups w' = replay threshold (w_ups w) acts /\ Forall (foreign idx [d]) acts.
Proof.
  unfold attempt. destruct (w_dials w) as [|d0 dials]; cbn [head tail default].
  all: destruct (connect_via_upstream _ _ _ _ _) as [r0 advanced] eqn:E; intros [= <- <- <-]; rewrite E.
  all: split; [done|]; split; [by destruct advanced|]; split; [done|].
  - exists (if advanced then [ActBound idx] else []). by destruct advanced; (split; [done|]); repeat constructor.
  - exists ((if advanced then [ActBound idx] else []) ++ d_others d0). rewrite replay_app. split; [by destruct advanced|].
    apply Forall_app. split; [destruct advanced; repeat constructor|].
    apply Forall_forall. intros a Ha. right. by constructor.
Qed.

Lemma attempt_extends w idx config target : extends w (attempt threshold store w idx config target).2.
Proof.
  destruct (attempt threshold store w idx config target) as [[r d] w'] eqn:E.
  destruct (attempt_history _ _ _ _ _ _ _ E) as (_ & _ & _ & acts & Ha & _). by exists acts.
Qed.

Lemma foreign_more idx d ds ds' a :
  d = default silent_dial (head ds) -> foreign idx [d] a \/ foreign idx ds' a -> foreign idx (take 1 ds ++ ds') a.
Proof.
  intros -> [[->|H]|[->|H]]; try by left.
  - right. apply Exists_app. left. destruct ds; cbn in *; [|done]. by apply Exists_cons in H as [H%elem_of_nil|H%Exists_nil].
  - right. apply Exists_app. by right.
Qed.

(** [tried k]: what the [k]-th dial of the script answers, for some value of the counter. *)
Definition tried (dials : list Dial) (config : UpstreamConfig) (target : SocketAddr) (k : nat)
    (r : result ProxyError (socks_conn * UpstreamEgressInfo)) : Prop :=
  exists rr, r = (connect_via_upstream store (nth k dials silent_dial) config target rr).1.

(** The loop with [n] attempts to go uses [used] dials; all but the last of them failed, the last one decides,
    and one act records it. *)
Lemma attempts_history n idx config target dc_idx : forall last w r w',
  attempts_loop threshold store n idx config target dc_idx last w = (r, w') ->
  exists used acts own, (used <= n)%nat /\ w_dials w' = drop used (w_dials w) /\
    w_ups w' = replay threshold (w_ups w) (acts ++ [own]) /\ Forall (foreign idx (take used (w_dials w))) acts /\
    (forall k, (S k < used)%nat -> exists e, tried (w_dials w) config target k (Err e)) /\
    ((0 < n)%nat -> (0 < used)%nat /\ tried (w_dials w) config target (pred used) r) /\
    match r with
    | Ok _ => own = ActConnected idx dc_idx (d_rtt_ms (nth (pred used) (w_dials w) silent_dial))
    | Err _ => used = n /\ own = ActFailed idx
    end.
Proof.
  induction n as [|n IH]; intros last w r w'; cbn [attempts_loop].
  { intros [= <- <-]. exists 0%nat, [], (ActFailed idx). cbn. split_and!; try done; intros; lia. }
  destruct (attempt threshold store w idx config target) as [[r1 d] w1] eqn:E.
  destruct (attempt_history _ _ _ _ _ _ _ E) as (Hd & Hds & Hr & acts1 & Ha1 & Hf1).
  assert (nth 0 (w_dials w) silent_dial = d) as Hn0 by (rewrite Hd; by destruct (w_dials w)).
  assert (tried (w_dials w) config target 0 r1) as Ht1 by (eexists; rewrite Hn0; exact Hr).
  destruct r1 as [conn|e].
  - intros [= <- <-]. exists 1%nat, acts1, (ActConnected idx dc_idx (d_rtt_ms d)).
    split; [lia|]. split; [cbn [act w_dials]; by rewrite Hds; destruct (w_dials w)|].
    split; [rewrite replay_app, <-Ha1; done|]. split.
    { eapply Forall_impl; [exact Hf1|]. intros a Ha. rewrite <-(app_nil_r (take 1 _)). eapply foreign_more; [done|by left]. }
    split; [intros k Hk; lia|]. split; [intros _; split; [lia|done]|cbn [pred]; by rewrite Hn0].
  - intros E2. destruct (IH _ _ _ _ E2) as (used & acts & own & Hu & Hds2 & Ha2 & Hf2 & Hprev & Hlast & Hown).
    assert (forall k, nth k (w_dials w1) silent_dial = nth (S k) (w_dials w) silent_dial) as Hnth.
    { intros k. rewrite Hds. destruct (w_dials w); [by destruct k|done]. }
    exists (S used), (acts1 ++ acts), own. split; [lia|]. split; [rewrite Hds2, Hds; destruct (w_dials w); cbn [tail]; [by rewrite !drop_nil|done]|].
    split; [by rewrite Ha2, Ha1, <-replay_app, app_assoc|].
    assert (take (S used) (w_dials w) = take 1 (w_dials w) ++ take used (w_dials w1)) as -> by (rewrite Hds; destruct (w_dials w); cbn [tail]; [by rewrite !take_nil|done]).
    split; [|split; [|split]].
    + apply Forall_app. split; (eapply Forall_impl; [eassumption|]); intros a Ha; eapply foreign_more; eauto.
    + intros [|k] Hk; [by exists e|]. destruct (Hprev k) as (e' & rr & He'); [lia|]. exists e', rr. by rewrite <-Hnth.
    + intros _. split; [lia|]. destruct used as [|used]; [|destruct Hlast as (_ & rr & Hrr); [lia|exists rr; cbn [pred] in *; by rewrite <-Hnth]].
      destruct n as [|n]; [|destruct Hlast; lia]. cbn [attempts_loop] in E2. by injection E2 as <- _.
    + destruct r as [conn|e']; [|destruct Hown; split; [lia|done]]. rewrite Hown. destruct used as [|used]; [|cbn [pred]; by rewrite Hnth].
      destruct n as [|n]; [|destruct Hlast; lia]. cbn [attempts_loop] in E2. done.
Qed.

End History.

(** *** Pings and health checks only continue the history *)

Section Tasks.
Context (threshold : Z) (store : OverrideMap).

Lemma ping_single_extends w idx config target dc : extends threshold w (ping_single_dc threshold store w idx config target dc).2.
Proof.
  unfold ping_single_dc. pose proof (attempt_extends threshold store w idx config target) as H.
  by destruct (attempt threshold store w idx config target) as [[r d] w'].
Qed.

Lemma ping_family_extends idx config on label dcs : forall di w,
  extends threshold w (ping_family threshold store w idx config on label di dcs).2.
Proof.
  induction dcs as [|dc dcs IH]; intros di w; cbn [ping_family]; [apply extends_refl|]. destruct on.
  - pose proof (ping_single_extends w idx config (mkSocketAddr dc TG_DATACENTER_PORT) (Z.of_nat di + 1)) as H.
    destruct (ping_single_dc _ _ _ _ _ _ _) as [res w1]. cbn [snd] in H.
    match goal with |- context [ping_family _ _ ?w2] => assert (extends threshold w w2) as H2 by
      (destruct (ping_rtt_ms res); [eapply extends_trans; [exact H|apply extends_act]|exact H]); specialize (IH (S di) w2); revert IH H2; generalize w2 end.
    intros w2 IH H2. destruct (ping_family _ _ w2 _ _ _ _ _ _) as [rest w3]. by eapply extends_trans.
  - specialize (IH (S di) w). by destruct (ping_family _ _ w _ _ _ _ _ _).
Qed.

Lemma ping_overrides_extends idx config v4 v6 targets : forall w,
  extends threshold w (ping_overrides threshold store w idx config v4 v6 targets).2.
Proof.
  induction targets as [|[dc addr] targets IH]; intros w; cbn [ping_overrides]; [apply extends_refl|].
  destruct ((is_ipv6 (sa_ip addr) && negb v6) || (negb (is_ipv6 (sa_ip addr)) && negb v4)); [apply IH|].
  pose proof (ping_single_extends w idx config addr dc) as H. destruct (ping_single_dc _ _ _ _ _ _ _) as [res w1].
  specialize (IH w1). destruct (ping_overrides _ _ _ _ _ _ _ _) as [[v6s v4s] w2].
  destruct (is_ipv6 (sa_ip addr)); by eapply extends_trans.
Qed.

Lemma ping_upstreams_extends overrides v4 v6 configs : forall idx w,
  extends threshold w (ping_upstreams threshold store overrides v4 v6 w idx configs).2.
Proof.
  induction configs as [|config configs IH]; intros idx w; cbn [ping_upstreams]; [apply extends_refl|].
  assert (extends threshold w (ping_upstream threshold store overrides v4 v6 w idx config).2) as H.
  { unfold ping_upstream. pose proof (ping_family_extends idx config v6 (str "ipv6 disabled") TG_DATACENTERS_V6 0 w) as H1.
    destruct (ping_family _ _ w _ _ _ _ _ _) as [r6 w1]. pose proof (ping_family_extends idx config v4 (str "ipv4 disabled") TG_DATACENTERS_V4 0 w1) as H2.
    destruct (ping_family _ _ w1 _ _ _ _ _ _) as [r4 w2]. pose proof (ping_overrides_extends idx config v4 v6 (override_addrs overrides) w2) as H3.
    destruct (ping_overrides _ _ w2 _ _ _ _ _) as [[o6 o4] w3]. cbn [snd] in *.
    do 3 (eapply extends_trans; [eassumption|]). apply extends_act. }
  destruct (ping_upstream _ _ _ _ _ w _ _) as [res w1]. specialize (IH (S idx) w1).
  destruct (ping_upstreams _ _ _ _ _ w1 _ _) as [rest w2]. by eapply extends_trans.
Qed.

Lemma try_endpoints_extends steps idx config endpoints start : forall step w,
  extends threshold w (try_endpoints threshold store steps step start endpoints idx config w).2.
Proof.
  induction steps as [|steps IH]; intros step w; cbn [try_endpoints]; [apply extends_refl|]. cbv zeta.
  destruct (endpoints !! _) as [e|]; [|apply extends_refl].
  pose proof (attempt_extends threshold store w idx config e) as H. destruct (attempt _ _ w idx config e) as [[r d] w1].
  destruct r as [conn|]; [destruct (d_late d)|]; try (eapply extends_trans; [exact H|apply IH]). exact H.
Qed.

Lemma check_family_extends is_primary endpoints dc idx config rotation w :
  extends threshold w (check_family threshold store is_primary endpoints dc idx config rotation w).2.
Proof.
  unfold check_family. destruct endpoints as [|e es]; [apply extends_refl|]. cbv zeta.
  match goal with |- context [try_endpoints _ _ ?n ?s ?st ?es ?i ?c ?w0] =>
    pose proof (try_endpoints_extends n i c es st s w0) as H; destruct (try_endpoints threshold store n s st es i c w0) as [[[rtt next]|] w1] end; exact H.
Qed.

Lemma check_groups_extends groups idx config : forall rotation w,
  extends threshold w (check_groups threshold store groups idx config rotation w).2.
Proof.
  induction groups as [|g groups IH]; intros rotation w; cbn [check_groups]; [apply extends_refl|].
  assert (extends threshold w (check_group threshold store g idx config rotation w).2) as H.
  { unfold check_group. pose proof (check_family_extends true (primary g) (group_dc_idx g) idx config rotation w) as H1.
    destruct (check_family _ _ true _ _ _ _ _ w) as [[[rtt|] rot1] w1]; [exact H1|].
    eapply extends_trans; [exact H1|]. apply check_family_extends. }
  destruct (check_group _ _ g _ _ _ w) as [[rtt rot1] w1]. specialize (IH rot1 w1).
  destruct (check_groups _ _ _ _ _ _ w1) as [[[h u] rot2] w2]. destruct rtt; by eapply extends_trans.
Qed.

Lemma check_upstreams_extends groups configs : forall idx rotation w,
  extends threshold w (check_upstreams threshold store groups idx configs rotation w).2.
Proof.
  induction configs as [|config configs IH]; intros idx rotation w; cbn [check_upstreams]; [apply extends_refl|].
  unfold check_upstream. pose proof (check_groups_extends groups idx config rotation w) as H.
  destruct (check_groups _ _ _ _ _ _ w) as [[[h u] rot1] w1]. eapply extends_trans; [exact H|].
  eapply extends_trans; [apply extends_act|]. apply IH.
Qed.

Lemma run_health_checks_extends groups turns : forall rotation w,
  extends threshold w (run_health_checks threshold store turns groups rotation w).
Proof.
  induction turns as [|others turns IH]; intros rotation w; cbn [run_health_checks]; [apply extends_refl|].
  set (w0 := mkWorld (replay threshold (w_ups w) others) (w_dials w)). assert (extends threshold w w0) as H0 by (by exists others).
  assert (extends threshold w0 (health_check_turn threshold store groups rotation w0).2) as H1.
  { unfold health_check_turn. destruct groups; [apply extends_refl|]. destruct (_ =? 0); [apply extends_refl|]. apply check_upstreams_extends. }
  destruct (health_check_turn _ _ _ _ w0) as [rot1 w1]. eapply extends_trans; [exact H0|]. eapply extends_trans; [exact H1|]. apply IH.
Qed.

End Tasks.

(** ** The groups of the health check *)

Lemma push_endpoints_spec endpoints : forall m dc a,
  a ∈ default [] (foldl push_endpoint m endpoints !! dc) <-> a ∈ default [] (m !! dc) \/ (dc, a) ∈ endpoints.
Proof.
  induction endpoints as [|[dc' a'] endpoints IH]; intros m dc a; cbn [foldl]; [set_solver|].
  rewrite IH. unfold push_endpoint. cbn [fst snd]. rewrite elem_of_cons. destruct (decide (dc = dc')) as [->|Hn].
  - rewrite lookup_insert_eq. cbn [from_option]. unfold id at 1. rewrite elem_of_app, list_elem_of_singleton. naive_solver.
  - rewrite lookup_insert_ne by done. naive_solver.
Qed.

Lemma by_dc_spec endpoints dc a : a ∈ default [] (by_dc endpoints !! dc) <-> (dc, a) ∈ endpoints.
Proof.
  unfold by_dc. rewrite lookup_fmap. transitivity (a ∈ default [] (foldl push_endpoint ∅ endpoints !! dc)).
  - destruct (foldl push_endpoint ∅ endpoints !! dc) as [l|]; cbn; [|done]. by rewrite dedup_elem, merge_sort_Permutation.
  - rewrite push_endpoints_spec, lookup_empty. cbn. set_solver.
Qed.

Lemma by_dc_NoDup endpoints dc : NoDup (default [] (by_dc endpoints !! dc)).
Proof.
  unfold by_dc. rewrite lookup_fmap. destruct (foldl push_endpoint ∅ endpoints !! dc) as [l|]; cbn; [|constructor].
  apply (dedup_NoDup addr_le). apply StronglySorted_merge_sort; apply _.
Qed.

(** The entries of one data centre, and that their order does not matter. *)
Definition entries_of (dc : Z) (endpoints : list (Z * SocketAddr)) : list SocketAddr :=
  omap (fun e => if decide (e.1 = dc) then Some e.2 else None) endpoints.

Lemma push_endpoints_lookup endpoints : forall m dc,
  foldl push_endpoint m endpoints !! dc =
  match entries_of dc endpoints with [] => m !! dc | es => Some (default [] (m !! dc) ++ es) end.
Proof.
  induction endpoints as [|[dc' a] endpoints IH]; intros m dc; [done|]. cbn [foldl]. rewrite IH. unfold push_endpoint, entries_of. cbn [omap list_omap fst snd].
  fold (entries_of dc endpoints). destruct (decide (dc' = dc)) as [->|Hn].
  - rewrite lookup_insert_eq. unfold id. destruct (entries_of dc endpoints); cbn; [done|]. by rewrite <-app_assoc.
  - rewrite lookup_insert_ne by done. done.
Qed.

Lemma by_dc_perm l l' : l ≡ₚ l' -> by_dc l = by_dc l'.
Proof.
  intros Hp. apply map_eq. intros dc. unfold by_dc. rewrite !lookup_fmap, !push_endpoints_lookup, lookup_empty.
  assert (entries_of dc l ≡ₚ entries_of dc l') as He by (unfold entries_of; by rewrite Hp).
  destruct (entries_of dc l) as [|e es], (entries_of dc l') as [|e' es']; try done.
  - by apply Permutation_nil_l in He.
  - by apply symmetry, Permutation_nil_l in He.
  - cbn [fmap option_fmap option_map]. f_equal. f_equal. by apply sorted_canonical.
Qed.

Lemma omap_sorted {A B} (key : B -> A) (R : A -> A -> Prop) (f : A -> option B) (l : list A) :
  (forall a b, f a = Some b -> key b = a) -> StronglySorted R l -> StronglySorted R (key <$> omap f l).
Proof.
  intros Hk. induction 1 as [|a l Hs IH Ha]; [constructor|]. cbn. destruct (f a) as [b|] eqn:E; [|done]. cbn. constructor; [done|].
  rewrite (Hk _ _ E). rewrite Forall_forall in *. intros x Hx. apply list_elem_of_fmap in Hx as (y & -> & Hy).
  apply list_elem_of_omap in Hy as (z & Hz & E2). rewrite (Hk _ _ E2). auto.
Qed.

(** The local address a connection is bound to. *)
Lemma family_addrs_spec ifs name want ip : ip ∈ family_addrs ifs name want <-> (name, Some ip) ∈ ifs /\ is_ipv6 ip = want.
Proof.
  unfold family_addrs. rewrite list_elem_of_omap. split.
  - intros ([n [a|]] & Hin & E); case_bool_decide; try done. subst n. destruct (eqb_spec (is_ipv6 a) want); [|done]. by injection E as ->.
  - intros [Hin <-]. exists (name, Some ip). split; [done|]. by rewrite bool_decide_true, eqb_reflx by done.
Qed.

Lemma interface_bind_spec ifs interface want ip :
  interface_bind ifs interface want = Some ip ->
  is_ipv6 ip = want /\ exists iface, interface = Some iface /\ (parse_ip iface = Some ip \/ (iface, Some ip) ∈ ifs).
Proof.
  unfold interface_bind. destruct interface as [iface|]; [|done]. cbn. destruct (parse_ip iface) as [a|] eqn:E.
  - destruct (eqb_spec (is_ipv6 a) want); [|done]. intros [= ->]. eauto.
  - unfold resolve_interface_ip. intros Hh. assert (ip ∈ family_addrs ifs iface want) as Hin by (destruct (family_addrs ifs iface want); [done|]; injection Hh as ->; set_solver).
    apply family_addrs_spec in Hin as [? ?]. eauto.
Qed.

Lemma bind_candidates_spec ifs interface addrs want ip :
  ip ∈ bind_candidates ifs interface addrs want true ->
  is_ipv6 ip = want /\ (exists s, s ∈ addrs /\ parse_ip s = Some ip) /\
  forall iface, named_interface interface = Some iface -> (iface, Some ip) ∈ ifs.
Proof.
  unfold bind_candidates. set (cs := filter _ _).
  assert (ip ∈ cs -> is_ipv6 ip = want /\ exists s, s ∈ addrs /\ parse_ip s = Some ip) as Hcs.
  { unfold cs. rewrite list_elem_of_filter, list_elem_of_omap. naive_solver. }
  destruct (named_interface interface) as [iface|]; [|intros Hin; destruct (Hcs Hin); split_and!; done].
  destruct (resolve_interface_addrs ifs iface want) as [|b bs] eqn:E; [by intros ?%elem_of_nil|]. rewrite <-E.
  intros [Hi Hin]%list_elem_of_filter. destruct (Hcs Hin) as [H1 H2]. split_and!; [done..|]. intros i' [= <-].
  unfold resolve_interface_addrs in Hi. rewrite dedup_elem, merge_sort_Permutation in Hi. by apply family_addrs_spec in Hi as [? _].
Qed.

(** A direct connection is bound to an address of the target's family; with configured addresses and a named interface, to a
    configured one the interface has; and without configured addresses to the interface's, or to none. *)
Theorem local_address_sound ifs interface bind_addresses target rr ip advanced :
  resolve_bind_address ifs interface bind_addresses target rr true = (Some ip, advanced) ->
  is_ipv6 ip = is_ipv6 (sa_ip target) /\
  ((exists addrs s, bind_addresses = Some addrs /\ s ∈ addrs /\ parse_ip s = Some ip /\
      forall iface, named_interface interface = Some iface -> (iface, Some ip) ∈ ifs) \/
   exists iface, interface = Some iface /\ (parse_ip iface = Some ip \/ (iface, Some ip) ∈ ifs)).
Proof.
  unfold resolve_bind_address. cbv zeta.
  assert (forall b, (interface_bind ifs interface (is_ipv6 (sa_ip target)), b) = (Some ip, advanced) ->
    is_ipv6 ip = is_ipv6 (sa_ip target) /\ exists iface, interface = Some iface /\ (parse_ip iface = Some ip \/ (iface, Some ip) ∈ ifs)) as Hi.
  { intros b [= E _]. by apply interface_bind_spec. }
  destruct bind_addresses as [addrs|]; [|intros E; destruct (Hi _ E); auto].
  destruct (bind_candidates ifs interface addrs (is_ipv6 (sa_ip target)) true) as [|c cs] eqn:Ec.
  { destruct (true && _); [done|]. intros E. destruct (Hi _ E). auto. }
  assert (ip ∈ c :: cs -> is_ipv6 ip = is_ipv6 (sa_ip target) /\ exists addrs0 s, Some addrs = Some addrs0 /\ s ∈ addrs0 /\ parse_ip s = Some ip /\
    forall iface, named_interface interface = Some iface -> (iface, Some ip) ∈ ifs) as Hc.
  { rewrite <-Ec. intros Hin. apply bind_candidates_spec in Hin as (Hv & (s & Hs & Hp) & Hn). split; [done|]. by exists addrs, s. }
  destruct rr as [counter|]; intros [= E _].
  - destruct Hc as [? ?]; [by eapply list_elem_of_lookup_2|]. auto.
  - destruct Hc as [? ?]; [subst; set_solver|]. auto.
Qed.

(** ** The properties *)

Definition preferred_endpoints (prefer_ipv6 v6 : bool) (g : HealthCheckGroup) : list SocketAddr :=
  if Bool.eqb prefer_ipv6 v6 then primary g else fallback g.

Lemma groups_elem prefer_ipv6 v4on v6on overrides g :
  g ∈ build_health_check_groups prefer_ipv6 v4on v6on overrides <->
  (primary g <> [] \/ fallback g <> []) /\
  preferred_endpoints prefer_ipv6 false g = default [] (by_dc (family_endpoints v4on false TG_DATACENTERS_V4 overrides) !! group_dc_idx g) /\
  preferred_endpoints prefer_ipv6 true g = default [] (by_dc (family_endpoints v6on true TG_DATACENTERS_V6 overrides) !! group_dc_idx g).
Proof.
  unfold build_health_check_groups, preferred_endpoints. set (m4 := by_dc _). set (m6 := by_dc _). rewrite list_elem_of_omap. split.
  - intros (dc & _ & E). destruct prefer_ipv6; cbv beta iota zeta in E; destruct (default [] (m4 !! dc)) eqn:E4, (default [] (m6 !! dc)) eqn:E6;
      try discriminate E; injection E as <-; cbn [primary fallback group_dc_idx Bool.eqb]; rewrite ?E4, ?E6; split_and!; auto.
  - destruct g as [dc p f]. cbn [primary fallback group_dc_idx]. intros (Hne & H4 & H6). exists dc. split.
    + rewrite merge_sort_Permutation, elem_of_elements, elem_of_union, !elem_of_dom.
      destruct prefer_ipv6; cbn in H4, H6; subst; destruct (m4 !! dc), (m6 !! dc); cbn in Hne; eauto; naive_solver.
    + destruct prefer_ipv6; cbn in H4, H6; cbv beta iota zeta; rewrite <-H4, <-H6; destruct p, f; naive_solver.
Qed.

(** The groups of the health check are exactly the enabled endpoints: a data centre has one group, the groups come in
    increasing order, each family's endpoints are those of the built-in table and of the valid overrides, without repetition,
    the preferred family first, no group is empty; and the order in which the map of overrides is iterated does not matter. *)
Theorem health_groups_exact prefer_ipv6 ipv4_enabled ipv6_enabled overrides :
  let groups := build_health_check_groups prefer_ipv6 ipv4_enabled ipv6_enabled overrides in
  StronglySorted Z.lt (group_dc_idx <$> groups) /\
  (forall g, g ∈ groups -> (primary g <> [] \/ fallback g <> []) /\ NoDup (primary g) /\ NoDup (fallback g)) /\
  (forall dc addr,
     ((exists g, g ∈ groups /\ group_dc_idx g = dc /\ addr ∈ preferred_endpoints prefer_ipv6 false g) <->
      (dc, addr) ∈ family_endpoints ipv4_enabled false TG_DATACENTERS_V4 overrides) /\
     ((exists g, g ∈ groups /\ group_dc_idx g = dc /\ addr ∈ preferred_endpoints prefer_ipv6 true g) <->
      (dc, addr) ∈ family_endpoints ipv6_enabled true TG_DATACENTERS_V6 overrides)) /\
  (forall overrides', overrides ≡ₚ overrides' -> groups = build_health_check_groups prefer_ipv6 ipv4_enabled ipv6_enabled overrides').
Proof.
  intros groups. set (e4 := family_endpoints ipv4_enabled false TG_DATACENTERS_V4 overrides).
  set (e6 := family_endpoints ipv6_enabled true TG_DATACENTERS_V6 overrides).
  set (pick dc := let d4 := default [] (by_dc e4 !! dc) in let d6 := default [] (by_dc e6 !! dc) in
                  if prefer_ipv6 then mkGroup dc d6 d4 else mkGroup dc d4 d6).
  assert (forall v6 dc addr, addr ∈ preferred_endpoints prefer_ipv6 v6 (pick dc) -> pick dc ∈ groups) as Hpick.
  { intros v6 dc addr Ha. apply groups_elem. unfold pick, preferred_endpoints in *.
    destruct prefer_ipv6, v6; cbn [primary fallback group_dc_idx Bool.eqb] in *; (split; [|by split]); [left|right|right|left]; intros Hnil; rewrite Hnil in Ha; by apply elem_of_nil in Ha. }
  split_and!.
  - apply omap_sorted.
    { intros a g. destruct prefer_ipv6; cbv beta iota zeta; repeat case_match; by intros [= <-]. }
    apply StronglySorted_lt; [apply StronglySorted_merge_sort; apply _|]. rewrite merge_sort_Permutation. apply NoDup_elements.
  - intros g Hg. apply groups_elem in Hg as (Hne & H4 & H6). split; [done|].
    pose proof (by_dc_NoDup e4 (group_dc_idx g)) as N4. pose proof (by_dc_NoDup e6 (group_dc_idx g)) as N6.
    unfold e4, e6 in *. rewrite <-H4 in N4. rewrite <-H6 in N6. unfold preferred_endpoints in *. by destruct prefer_ipv6.
  - intros dc addr. unfold e4, e6 in *. rewrite <-!by_dc_spec. split; split.
    1, 3: intros (g & Hg & <- & Ha); apply groups_elem in Hg as (_ & H4 & H6); by rewrite <-?H4, <-?H6.
    all: intros Ha; exists (pick dc); assert (group_dc_idx (pick dc) = dc) as Hdc by (unfold pick; by destruct prefer_ipv6).
    + assert (addr ∈ preferred_endpoints prefer_ipv6 false (pick dc)) by (unfold preferred_endpoints, pick; by destruct prefer_ipv6). eauto.
    + assert (addr ∈ preferred_endpoints prefer_ipv6 true (pick dc)) by (unfold preferred_endpoints, pick; by destruct prefer_ipv6). eauto.
  - intros overrides' Hp. assert (forall on v6 t, by_dc (family_endpoints on v6 t overrides) = by_dc (family_endpoints on v6 t overrides')) as Hby.
    { intros on v6 t. apply by_dc_perm. unfold family_endpoints, override_addrs. destruct on; [|done]. by rewrite Hp. }
    unfold groups, build_health_check_groups. by rewrite !Hby.
Qed.

(** C19: the circuit breaker is exact: whatever the manager's tasks and others did to the upstreams, in whatever order,
    an upstream's failure counter is the number of its failed connections and health checks since its last success, and it
    is healthy exactly while that number is below the threshold (at least 1); and every task (a connection, the pings at
    start-up, the health checks) only continues such a history. *)
Theorem circuit_breaker configs attempts backoff threshold store :
  let '(self, ups) := UpstreamManager_new configs attempts backoff threshold in
  let thr := unhealthy_fail_threshold self in
  (forall acts idx u, zlen acts < 2 ^ 32 -> replay thr ups acts !! idx = Some u ->
     up_fails u = trailing_failures idx acts /\
     up_healthy u = (trailing_failures idx acts <? Z.max threshold 1)) /\
  (forall draw target dc_idx scope w r w', connect_with_details thr store self draw target dc_idx scope w = Done (r, w') ->
     extends thr w w') /\
  (forall overrides v4 v6 w, extends thr w (ping_all_dcs thr store overrides v4 v6 w).2) /\
  (forall turns groups rotation w, extends thr w (run_health_checks thr store turns groups rotation w)).
Proof.
  unfold UpstreamManager_new. cbv zeta. cbn [unhealthy_fail_threshold]. split_and!.
  - intros acts idx u Hl Hu. apply (replay_breaker (Z.max threshold 1) acts _ 0 idx u) in Hu; [exact Hu|lia|lia|lia|].
    intros v Hv. rewrite list_lookup_fmap in Hv. destruct (filter _ configs !! idx) as [c|]; [|done]. injection Hv as <-.
    split; [done|]. cbn. by destruct (Z.ltb_spec 0 (Z.max threshold 1)); [|lia].
  - intros draw target dc_idx scope w r w'. unfold connect_with_details. destruct (select_upstream _ _ _ _) as [idx|].
    2:{ intros [= _ <-]. apply extends_refl. }
    destruct (w_ups w !! idx) as [u|]; [|done]. intros [= E].
    destruct (attempts_history _ _ _ _ _ _ _ _ _ _ _ E) as (used & acts & own & _ & _ & Ha & _). by exists (acts ++ [own]).
  - intros. apply ping_upstreams_extends.
  - intros. apply run_health_checks_extends.
Qed.

(** C18: a connection through the upstreams: none in scope gives an error and changes nothing.  Else one upstream in scope is
    chosen, a healthy one when there is any; it is tried at most as often as configured, each attempt on the next dial, until
    one succeeds; the result is that of the last attempt; and the upstreams change by one act recording it (a success resets
    the failures and updates the latency, a failure counts once however many attempts were made), after what the round robin
    and other tasks did meanwhile. *)
Theorem connect_recorded threshold store self draw target dc_idx scope w :
  draw_ok draw -> 1 <= connect_retry_attempts self ->
  exists r w', connect_with_details threshold store self draw target dc_idx scope w = Done (r, w') /\
  ((forall i u, w_ups w !! i = Some u -> in_scope scope (up_config u) = false) /\ is_ok r = false /\ w' = w \/
   exists idx u used acts own,
     w_ups w !! idx = Some u /\ in_scope scope (up_config u) = true /\
     (up_healthy u = true \/ forall j v, w_ups w !! j = Some v -> in_scope scope (up_config v) = true -> up_healthy v = false) /\
     1 <= Z.of_nat used <= connect_retry_attempts self /\ w_dials w' = drop used (w_dials w) /\
     (forall k, (S k < used)%nat -> exists e, tried store (w_dials w) (with_scope (up_config u) scope) target k (Err e)) /\
     tried store (w_dials w) (with_scope (up_config u) scope) target (pred used) r /\
     w_ups w' = replay threshold (w_ups w) (acts ++ [own]) /\ Forall (foreign idx (take used (w_dials w))) acts /\
     match r with
     | Ok _ => own = ActConnected idx dc_idx (d_rtt_ms (nth (pred used) (w_dials w) silent_dial))
     | Err _ => Z.of_nat used = connect_retry_attempts self /\ own = ActFailed idx
     end).
Proof.
  intros Hd Hn. unfold connect_with_details. pose proof (select_upstream_cases draw (w_ups w) dc_idx scope Hd) as Hs.
  destruct (select_upstream draw (w_ups w) dc_idx scope) as [idx|].
  2:{ eexists _, _. split; [done|]. left. split_and!; [|done..]. intros i u Hu. destruct (in_scope scope (up_config u)) eqn:E; [|done].
      assert (i ∈ filtered_upstreams (w_ups w) scope) as Hi by (apply filtered_spec; eauto). rewrite Hs in Hi. by apply elem_of_nil in Hi. }
  destruct Hs as [Hin Hh]. pose proof Hin as (u & Hu & Hsc)%filtered_spec. rewrite Hu.
  destruct (attempts_loop threshold store (Z.to_nat (connect_retry_attempts self)) idx (with_scope (up_config u) scope) target dc_idx None w) as [r w'] eqn:E.
  eexists _, _. split; [done|]. right.
  destruct (attempts_history _ _ _ _ _ _ _ _ _ _ _ E) as (used & acts & own & Hle & Hds & Hups & Hf & Hprev & Hlast & Hown).
  destruct Hlast as [Hpos Hlast]; [lia|]. exists idx, u, used, acts, own. split; [done|]. split; [done|]. split.
  { destruct Hh as [(_ & v & Hv & Hhv)%healthy_of_spec|Hnone]; [left; congruence|]. right. intros j v Hv Hjs.
    destruct (up_healthy v) eqn:Ehv; [|done]. assert (j ∈ healthy_of (w_ups w) (filtered_upstreams (w_ups w) scope)) as Hj.
    { apply healthy_of_spec. split; [apply filtered_spec|]; eauto. }
    rewrite Hnone in Hj. by apply elem_of_nil in Hj. }
  split; [lia|]. split_and!; [done..|]. destruct r; [done|]. destruct Hown. split; [lia|done].
Qed.

(** ** At work *)

Definition demo_config (t : UpstreamType) (s : string) : UpstreamConfig := mkUpstreamConfig t 10 true (str s) [].
Definition demo_direct : UpstreamConfig := demo_config (UpDirect None (Some [str "192.0.2.7"; str "192.0.2.8"; str "2001:db8::1"])) "".
Definition demo_scoped : UpstreamConfig := demo_config (UpSocks5 (str "198.51.100.9:1080") None None None) "media, chat".

Definition demo_manager := UpstreamManager_new [demo_direct; demo_scoped] 2 100 2.
Definition demo_target : SocketAddr := mkSocketAddr (V4 [149; 154; 167; 51]) 443.
Definition demo_draw : Draw := mkDraw (fun _ => 0) (fun _ => f_of_Z 0).

Definition dial_with (writable : option (io_result unit)) (rtt : Z) (others : list Act) : Dial :=
  mkDial [] (fun _ => Ok tt) (Ok tt) (Ok tt) (fun _ => Ok tt) (Ok tt) (fun _ => StartErr true (mkIoError WouldBlock "" [])) (Ok tt)
    writable (Ok None) (fun _ => None) ([], mkUpW [] [] []) None None false false (f_of_Z rtt) others.
Definition demo_world : World :=
  mkWorld demo_manager.2 [dial_with None 0 [ActFailed 1]; dial_with (Some (Ok tt)) 80 []].

(** The first attempt times out while another connection fails through the other upstream; the second leaves from the next address. *)
Example demo_connect :
  match connect_with_details 2 ∅ demo_manager.1 demo_draw demo_target (Some (-2)) None demo_world with
  | Done (Ok (_, egress), w) => (direct_bind_ip egress, map (fun u => (up_healthy u, up_fails u, bind_rr u)) (w_ups w),
                                 map value_ms (from_option dc_latency [] (w_ups w !! 0%nat)))
  | _ => (None, [], [])
  end = (Some (V4 [192; 0; 2; 8]), [(true, 0, 2); (true, 1, 0)], [None; Some (f_of_Z 80); None; None; None]).
Proof. vm_compute. reflexivity. Qed.

(** With the scope of the second upstream only that one is taken; an unknown scope has none. *)
Example demo_scope :
  (select_upstream demo_draw demo_manager.2 None (Some (str "chat")), select_upstream demo_draw demo_manager.2 None (Some (str "x"))) =
  (Some 1%nat, None).
Proof. vm_compute. reflexivity. Qed.

(** An override of centre 9 makes a group of its own; the test of the source. *)
Example demo_groups :
  let gs := build_health_check_groups false true false [(str "9", [str "198.51.100.1:443"; str "198.51.100.2:443"; str "198.51.100.1:443"])] in
  map (fun g => (group_dc_idx g, zlen (primary g), zlen (fallback g))) gs =
  [(1, 1, 0); (2, 1, 0); (3, 1, 0); (4, 1, 0); (5, 1, 0); (9, 2, 0)].
Proof. vm_compute. reflexivity. Qed.

Lemma connect_recorded_witness :
  exists r w', connect_with_details 2 ∅ demo_manager.1 demo_draw demo_target (Some 2) None demo_world = Done (r, w') /\ is_ok r = true.
Proof.
  destruct (connect_recorded 2 ∅ demo_manager.1 demo_draw demo_target (Some 2) None demo_world) as (r & w' & E & _).
  - intros n Hn. cbn. lia.
  - vm_compute. discriminate.
  - exists r, w'. split; [exact E|]. vm_compute in E. injection E as <- _. reflexivity.
Defined.

(** Two failures in a row take the first upstream out of use; a successful health check brings it back. *)
Lemma circuit_breaker_witness :
  let acts := [ActFailed 0; ActFailed 1; ActFailed 0] in
  match replay 2 demo_manager.2 acts !! 0%nat with Some u => up_healthy u = false | None => False end /\
  match replay 2 demo_manager.2 (acts ++ [ActChecked 0 [] true]) !! 0%nat with Some u => up_healthy u = true | None => False end.
Proof.
  intros acts. destruct (circuit_breaker [demo_direct; demo_scoped] 2 100 2 ∅) as (H & _). cbv zeta in H. split.
  - destruct (replay 2 demo_manager.2 acts !! 0%nat) as [u|] eqn:E; [|vm_compute in E; discriminate].
    destruct (H acts 0%nat u) as [_ ->]; [reflexivity|exact E|reflexivity].
  - destruct (replay 2 demo_manager.2 (acts ++ [ActChecked 0 [] true]) !! 0%nat) as [u|] eqn:E; [|vm_compute in E; discriminate].
    destruct (H (acts ++ [ActChecked 0 [] true]) 0%nat u) as [_ ->]; [reflexivity|exact E|reflexivity].
Defined.

Lemma health_groups_exact_witness :
  let overrides := [(str "9", [str "198.51.100.2:443"; str "198.51.100.1:443"]); (str "2", [str "[2001:db8::10]:443"])] in
  build_health_check_groups true true true overrides = build_health_check_groups true true true (reverse overrides).
Proof. intros overrides. apply (health_groups_exact true true true overrides). vm_compute. apply perm_swap. Defined.
