(* ===== verification/ConfigLoad.v ===== *)
(** * Loading the configuration: [config/load.rs]

    [load] reads a file, expands its include lines, parses it and then checks, migrates and completes what was parsed.  The file
    system is a parameter; so are the TOML parser with the derived deserialisation, which give the keys of two tables
    and a [ProxyConfig], and the number drawn for the length of the fake certificate.  The order in which a [HashMap] is
    iterated is that of [map_to_list].  Paths are Unix paths. *)

From stdpp Require Import gmap.
From coqutil Require Import Datatypes.RecordSetters.
From S2P Require Import Prelude NetAddr Errors DnsOverrides ConfigTypes.
Import DoubleBraceUpdate.

(** ** Text and paths *)

(** [str::lines]: a line ends at a line feed, with the carriage return before it; the last one may be unterminated. *)
Definition strip_cr (l : bytes) : bytes :=
  match reverse l with 13 :: r => reverse r | _ => l end.
Fixpoint lines_from (cur : bytes) (l : bytes) : list bytes :=
  match l with
  | [] => if decide (cur = []) then [] else [cur]
  | b :: l => if b =? 10 then strip_cr cur :: lines_from [] l else lines_from (cur ++ [b]) l
  end.
Definition lines (content : bytes) : list bytes := lines_from [] content.

Fixpoint strip_prefix (prefix l : bytes) : option bytes :=
  match prefix, l with
  | [], _ => Some l
  | p :: prefix, b :: l => if p =? b then strip_prefix prefix l else None
  | _ :: _, [] => None
  end.

Fixpoint drop_while (b : Z) (l : bytes) : bytes :=
  match l with [] => [] | x :: r => if x =? b then drop_while b r else l end.
(** [trim_matches(c)] *)
Definition trim_matches (c : Z) (l : bytes) : bytes := reverse (drop_while c (reverse (drop_while c l))).

Definition SLASH : Z := 47.
Definition DOT : Z := 46.

(** [Path::join] *)
Definition path_join (base path : bytes) : bytes :=
  if decide (head path = Some SLASH) then path
  else if decide (base = []) then path
  else if decide (last base = Some SLASH) then base ++ path
  else base ++ SLASH :: path.

(** On a reversed path: trailing separators and [/.] are not components. *)
Fixpoint trim_rev (fuel : nat) (r : bytes) : bytes :=
  match fuel, r with
  | S fuel, [b] => r
  | S fuel, b :: r' =>
      if b =? SLASH then trim_rev fuel r'
      else match r' with
           | b2 :: r'' => if (b =? DOT) && (b2 =? SLASH) then trim_rev fuel r' else r
           | [] => r
           end
  | _, _ => r
  end.
Fixpoint drop_component (r : bytes) : bytes :=
  match r with [] => [] | b :: r' => if b =? SLASH then r else drop_component r' end.

(** [Path::parent]: [None] for the root and for the empty path. *)
Definition path_parent (p : bytes) : option bytes :=
  let r := trim_rev (length p) (reverse p) in
  if decide (r = [] \/ r = [SLASH]) then None
  else let r := drop_component r in Some (reverse (trim_rev (length r) r)).

(** ** Includes (load.rs:16-40) *)

(** The path of an [include = "path"] line. *)
Definition include_target (line : bytes) : option bytes :=
  let trimmed := trim line in
  rest ← strip_prefix (str "include") trimmed;
  let rest := trim rest in
  rest ← strip_prefix (str "=") rest;
  Some (trim_matches 34 (trim rest)).

Definition config_error {A} (msg : string) : result ProxyError A := Err (PE_Config msg).

Section Includes.
Variable read_to_string : bytes -> result string bytes.

Definition read_config_file (path : bytes) : result ProxyError bytes :=
  match read_to_string path with Ok content => Ok content | Err e => config_error e end.

(** The lines of one file, given what an included file expands to. *)
Fixpoint expand_lines (include : bytes -> bytes -> result ProxyError bytes) (base_dir : bytes) (ls : list bytes)
    : result ProxyError bytes :=
  match ls with
  | [] => Ok []
  | line :: ls =>
      match include_target line with
      | Some path_str =>
          let resolved := path_join base_dir path_str in
          included ← read_config_file resolved;
          let included_dir := default base_dir (path_parent resolved) in
          expanded ← include included included_dir;
          output ← expand_lines include base_dir ls;
          Ok (expanded ++ 10 :: output)
      | None =>
          output ← expand_lines include base_dir ls;
          Ok (line ++ 10 :: output)
      end
  end.

(** [budget] is 11 less the depth. *)
Fixpoint preprocess_includes (budget : nat) (content base_dir : bytes) : result ProxyError bytes :=
  match budget with
  | O => config_error "Include depth > 10"
  | S budget => expand_lines (preprocess_includes budget) base_dir (lines content)
  end.

End Includes.

(** ** Helpers (load.rs:42-93) *)

Definition validate_network_cfg (net : NetworkConfig) : result ProxyError NetworkConfig :=
  let ipv6_off := bool_decide (ipv6 net = Some false) in
  if negb (ipv4 net) && ipv6_off then config_error "Both ipv4 and ipv6 are disabled in [network]"
  else if negb (prefer net =? 4) && negb (prefer net =? 6) then config_error "network.prefer must be 4 or 6"
  else
    let net := if negb (ipv4 net) && (prefer net =? 4) then net {{ prefer := 6 }} else net in
    let net := if ipv6_off && (prefer net =? 6) then net {{ prefer := 4 }} else net in
    Ok net.

Definition push_unique_nonempty (target : list bytes) (value : bytes) : list bytes :=
  let trimmed := trim value in
  if decide (trimmed = []) then target
  else if decide (trimmed ∈ target) then target
  else target ++ [trimmed].

Definition is_ascii_hexdigit (b : Z) : bool := in_range b 48 57 || in_range b 65 70 || in_range b 97 102.
Definition is_valid_ad_tag (tag : bytes) : bool := (zlen tag =? 32) && forallb is_ascii_hexdigit tag.

Definition sanitize_ad_tag (ad_tag : option bytes) : option bytes :=
  match ad_tag with
  | Some tag => if is_valid_ad_tag tag then ad_tag else None
  | None => None
  end.

(** ** [ProxyConfig::load] (load.rs:139-564) *)

(** What the parsed text says: the keys of the [general] and [network] tables, and the deserialised configuration. *)
Record ParsedToml := mkParsedToml {
  general_table : list string;
  network_table : list string;
  try_into : result string ProxyConfig
}.

(** Which of the migrated settings are written in the file. *)
Record Explicit := mkExplicit {
  update_every_is_explicit : bool;
  legacy_secret_is_explicit : bool;
  legacy_config_is_explicit : bool;
  stun_servers_is_explicit : bool
}.

Definition explicit_of (parsed : ParsedToml) : Explicit :=
  let has table key := bool_decide (key ∈ table) in
  mkExplicit (has (general_table parsed) "update_every"%string)
    (has (general_table parsed) "proxy_secret_auto_reload_secs"%string)
    (has (general_table parsed) "proxy_config_auto_reload_secs"%string)
    (has (network_table parsed) "stun_servers"%string).

(** Lines 148-202: the reload period and the STUN servers of older files. *)
Definition migrate_update_every (e : Explicit) (config : ProxyConfig) : ProxyConfig :=
  if negb (update_every_is_explicit e) && (legacy_secret_is_explicit e || legacy_config_is_explicit e)
  then config {{ general -> update_every := None }} else config.

Definition option_list {A} (x : option A) : list A := match x with Some a => [a] | None => [] end.

Definition migrate_stun_servers (e : Explicit) (config : ProxyConfig) : ProxyConfig :=
  let legacy_nat_stun := middle_proxy_nat_stun (general config) in
  let legacy_nat_stun_servers := middle_proxy_nat_stun_servers (general config) in
  let servers :=
    if stun_servers_is_explicit e then foldl push_unique_nonempty [] (stun_servers (network config))
    else
      let unified := foldl push_unique_nonempty default_stun_servers (option_list legacy_nat_stun) in
      foldl push_unique_nonempty unified legacy_nat_stun_servers in
  config {{ general -> middle_proxy_nat_stun := None; general -> middle_proxy_nat_stun_servers := [];
            network -> stun_servers := servers }}.

Definition migrate_ad_tag (config : ProxyConfig) : ProxyConfig :=
  config {{ general -> ad_tag ::= sanitize_ad_tag }}.

(** Lines 206-391: the checks, in order; the first that fails is the error. *)
Definition check := (bool * string)%type.
Fixpoint first_failure (cs : list check) : option string :=
  match cs with
  | [] => None
  | (fails, msg) :: cs => if fails : bool then Some msg else first_failure cs
  end.

Definition check_update (g : GeneralConfig) : check :=
  match update_every g with
  | Some v => (v =? 0, "general.update_every must be > 0"%string)
  | None =>
      (Z.min (proxy_secret_auto_reload_secs g) (proxy_config_auto_reload_secs g) =? 0,
       "legacy proxy_*_auto_reload_secs values must be > 0 when general.update_every is not set"%string)
  end.

Definition refuse (fails : bool) (msg : string) : check := (fails, msg).

Definition checks (g : GeneralConfig) : list check :=
  [check_update g;
   refuse (stun_nat_probe_concurrency g =? 0) "general.stun_nat_probe_concurrency must be > 0";
   refuse (upstream_connect_retry_attempts g =? 0) "general.upstream_connect_retry_attempts must be > 0";
   refuse (upstream_unhealthy_fail_threshold g =? 0) "general.upstream_unhealthy_fail_threshold must be > 0";
   refuse (me_reinit_every_secs g =? 0) "general.me_reinit_every_secs must be > 0";
   refuse (32 <? me_single_endpoint_shadow_writers g)
     "general.me_single_endpoint_shadow_writers must be within [0, 32]";
   refuse ((me_adaptive_floor_min_writers_single_endpoint g =? 0) || (32 <? me_adaptive_floor_min_writers_single_endpoint g))
     "general.me_adaptive_floor_min_writers_single_endpoint must be within [1, 32]";
   refuse (me_single_endpoint_outage_backoff_min_ms g =? 0)
     "general.me_single_endpoint_outage_backoff_min_ms must be > 0";
   refuse (me_single_endpoint_outage_backoff_max_ms g =? 0)
     "general.me_single_endpoint_outage_backoff_max_ms must be > 0";
   refuse (me_single_endpoint_outage_backoff_max_ms g <? me_single_endpoint_outage_backoff_min_ms g)
     "general.me_single_endpoint_outage_backoff_min_ms must be <= general.me_single_endpoint_outage_backoff_max_ms";
   refuse (beobachten_minutes g =? 0) "general.beobachten_minutes must be > 0";
   refuse (beobachten_flush_secs g =? 0) "general.beobachten_flush_secs must be > 0";
   refuse (bool_decide (trim (beobachten_file g) = [])) "general.beobachten_file cannot be empty";
   refuse (me_hardswap_warmup_delay_max_ms g =? 0) "general.me_hardswap_warmup_delay_max_ms must be > 0";
   refuse (me_hardswap_warmup_delay_max_ms g <? me_hardswap_warmup_delay_min_ms g)
     "general.me_hardswap_warmup_delay_min_ms must be <= general.me_hardswap_warmup_delay_max_ms";
   refuse (10 <? me_hardswap_warmup_extra_passes g) "general.me_hardswap_warmup_extra_passes must be within [0, 10]";
   refuse (me_hardswap_warmup_pass_backoff_base_ms g =? 0)
     "general.me_hardswap_warmup_pass_backoff_base_ms must be > 0";
   refuse (me_config_stable_snapshots g =? 0) "general.me_config_stable_snapshots must be > 0";
   refuse (me_snapshot_min_proxy_for_lines g =? 0) "general.me_snapshot_min_proxy_for_lines must be > 0";
   refuse (proxy_secret_stable_snapshots g =? 0) "general.proxy_secret_stable_snapshots must be > 0";
   refuse (me_reinit_trigger_channel g =? 0) "general.me_reinit_trigger_channel must be > 0";
   refuse (negb ((32 <=? proxy_secret_len_max g) && (proxy_secret_len_max g <=? 4096)))
     "general.proxy_secret_len_max must be within [32, 4096]";
   refuse (negb (f32_in_unit_interval (me_pool_min_fresh_ratio g)))
     "general.me_pool_min_fresh_ratio must be within [0.0, 1.0]";
   refuse (me_route_backpressure_base_timeout_ms g =? 0) "general.me_route_backpressure_base_timeout_ms must be > 0";
   refuse (me_route_backpressure_high_timeout_ms g <? me_route_backpressure_base_timeout_ms g)
     "general.me_route_backpressure_high_timeout_ms must be >= general.me_route_backpressure_base_timeout_ms";
   refuse (negb ((1 <=? me_route_backpressure_high_watermark_pct g) && (me_route_backpressure_high_watermark_pct g <=? 100)))
     "general.me_route_backpressure_high_watermark_pct must be within [1, 100]"].

(** Lines 393-403 *)
Definition bump_force_close (config : ProxyConfig) : ProxyConfig :=
  let close := effective_me_pool_force_close_secs (general config) in
  if (0 <? close) && (close <? me_pool_drain_ttl_secs (general config))
  then config {{ general -> me_reinit_drain_timeout_secs := me_pool_drain_ttl_secs (general config) }} else config.

(** Lines 405-444: secrets, the TLS domain and the masking target. *)
Definition secret_ok (secret : string) : bool := is_valid_ad_tag (str secret).
Definition bad_secret (users : gmap string string) : option string :=
  fst <$> head (filter (fun e : string * string => secret_ok e.2 = false) (map_to_list users)).

Definition check_masking (c : AntiCensorshipConfig) : option string :=
  if decide (tls_domain c = []) then Some "tls_domain cannot be empty"%string
  else
    match mask_unix_sock c with
    | Some sock_path =>
        if decide (sock_path = []) then Some "mask_unix_sock cannot be empty"%string
        else if 107 <? zlen sock_path then Some "mask_unix_sock path too long (max 107)"%string
        else if bool_decide (is_Some (mask_host c)) then Some "mask_unix_sock and mask_host are mutually exclusive"%string
        else None
    | None => None
    end.

(** Lines 446-464: the masking host, and the domains without duplicates. *)
Definition default_mask_host (config : ProxyConfig) : ProxyConfig :=
  let c := censorship config in
  match mask_host c, mask_unix_sock c with
  | None, None => config {{ censorship -> mask_host := Some (tls_domain c) }}
  | _, _ => config
  end.

Definition push_domain (all : list bytes) (d : bytes) : list bytes :=
  if decide (d <> [] /\ d ∉ all) then all ++ [d] else all.
Definition merge_domains (config : ProxyConfig) : ProxyConfig :=
  let all := foldl push_domain [tls_domain (censorship config)] (tls_domains (censorship config)) in
  config {{ censorship -> tls_domains := tail all }}.

(** Lines 466-478 *)
Definition migrate_prefer_ipv6 (config : ProxyConfig) : ProxyConfig :=
  if prefer_ipv6 (general config) && (prefer (network config) =? 4) then config {{ network -> prefer := 6 }} else config.
Definition enable_nat_probe (config : ProxyConfig) : ProxyConfig :=
  if use_middle_proxy (general config) && negb (middle_proxy_nat_probe (general config))
  then config {{ general -> middle_proxy_nat_probe := true }} else config.

(** Lines 487-490; [drawn] is what [gen_range(1024..4096)] gives. *)
Definition draw_cert_len (drawn : Z) (config : ProxyConfig) : ProxyConfig :=
  let c := censorship config in
  if negb (tls_emulation c) && (fake_cert_len c =? default_fake_cert_len)
  then config {{ censorship -> fake_cert_len := drawn }} else config.

(** Lines 492-561: listeners, links, upstreams and the override of data centre 203. *)
Definition resolve_listen_tcp (s : ServerConfig) : bool :=
  match listen_tcp s with
  | Some b => b
  | None =>
      match listen_unix_sock s with
      | Some _ => bool_decide (is_Some (listen_addr_ipv4 s)) || negb (bool_decide (listeners s = []))
      | None => true
      end
  end.

Definition plain_listener (ip : IpAddr) : ListenerConfig := mkListenerConfig ip None None None false.
Definition populate_listeners (config : ProxyConfig) : ProxyConfig :=
  let s := server config in
  if bool_decide (listeners s = []) && resolve_listen_tcp s then
    let ipv4_str := default (str "0.0.0.0") (listen_addr_ipv4 s) in
    let v4 := plain_listener <$> option_list (parse_ip ipv4_str) in
    let v6 := plain_listener <$> option_list (listen_addr_ipv6 s ≫= parse_ip) in
    config {{ server -> listeners := v4 ++ v6 }}
  else config.

Definition migrate_announce (l : ListenerConfig) : ListenerConfig :=
  match listener_announce l, listener_announce_ip l with
  | None, Some ip => l {{ listener_announce_ip := None; listener_announce := Some (fmt_ip ip) }}
  | _, _ => l
  end.
Definition migrate_announces (config : ProxyConfig) : ProxyConfig :=
  config {{ server -> listeners ::= map migrate_announce }}.

Definition migrate_show_link (config : ProxyConfig) : ProxyConfig :=
  if negb (ShowLink_is_empty (show_link config)) && ShowLink_is_empty (show (links (general config)))
  then config {{ general -> links -> show := show_link config }} else config.

Definition default_upstream : UpstreamConfig := mkUpstreamConfig (UpDirect None None) 1 true [] [].
Definition populate_upstreams (config : ProxyConfig) : ProxyConfig :=
  if decide (upstreams config = []) then config {{ upstreams := [default_upstream] }} else config.

Definition ensure_dc203 (config : ProxyConfig) : ProxyConfig :=
  match cfg_dc_overrides config !! str "203" with
  | Some _ => config
  | None => config {{ cfg_dc_overrides ::= <[str "203" := [str "91.105.192.100:443"]]> }}
  end.

(** Everything after deserialisation. *)
Definition migrate_first (e : Explicit) (config : ProxyConfig) : ProxyConfig :=
  migrate_ad_tag (migrate_stun_servers e (migrate_update_every e config)).
Definition migrate_middle (config : ProxyConfig) : ProxyConfig :=
  enable_nat_probe (migrate_prefer_ipv6 (merge_domains (default_mask_host config))).
Definition migrate_last (drawn : Z) (config : ProxyConfig) : ProxyConfig :=
  ensure_dc203 (populate_upstreams (migrate_show_link (migrate_announces (populate_listeners (draw_cert_len drawn config))))).

Definition with_network (config : ProxyConfig) (net : NetworkConfig) : ProxyConfig := config {{ network := net }}.

Definition finish (e : Explicit) (drawn : Z) (config : ProxyConfig) : result ProxyError ProxyConfig :=
  let config := migrate_first e config in
  match first_failure (checks (general config)) with
  | Some msg => config_error msg
  | None =>
      let config := bump_force_close config in
      match bad_secret (users (access config)) with
      | Some user => Err (PE_InvalidSecret user "Must be 32 hex characters")
      | None =>
          match check_masking (censorship config) with
          | Some msg => config_error msg
          | None =>
              let config := migrate_middle config in
              net ← validate_network_cfg (network config);
              let config := with_network config net in
              _ ← validate_entries (dns_overrides (network config));
              Ok (migrate_last drawn config)
          end
      end
  end.

Section Load.
Variable read_to_string : bytes -> result string bytes.
Variable toml_from_str : bytes -> result string ParsedToml.

Definition config_read {A} (r : result string A) : result ProxyError A :=
  match r with Ok a => Ok a | Err e => config_error e end.

Definition load (path : bytes) (drawn : Z) : result ProxyError ProxyConfig :=
  content ← config_read (read_to_string path);
  let base_dir := default (str ".") (path_parent path) in
  processed ← preprocess_includes read_to_string 11 content base_dir;
  parsed_toml ← config_read (toml_from_str processed);
  config ← config_read (try_into parsed_toml);
  finish (explicit_of parsed_toml) drawn config.

End Load.

(** ** [ProxyConfig::validate] (load.rs:566-598) *)

Definition no_byte (b : Z) (l : bytes) : bool := negb (bool_decide (b ∈ l)).
Definition bad_ad_tag (tags : gmap string string) : option string :=
  fst <$> head (filter (fun e : string * string => is_valid_ad_tag (str e.2) = false) (map_to_list tags)).

Definition validate (self : ProxyConfig) : result ProxyError unit :=
  if decide (users (access self) = ∅) then config_error "No users configured"
  else if negb (classic (modes (general self))) && negb (secure (modes (general self))) && negb (tls (modes (general self)))
  then config_error "No modes enabled"
  else if negb (no_byte 32 (tls_domain (censorship self)) && no_byte SLASH (tls_domain (censorship self)))
  then config_error "Invalid tls_domain. Must be a valid domain name"
  else
    match bad_ad_tag (user_ad_tags (access self)) with
    | Some user => config_error "access.user_ad_tags must be exactly 32 hex characters"
    | None => validate_entries (dns_overrides (network self))
    end.

(** ** What a loaded configuration satisfies *)

(** Settings that must not be zero. *)
Definition positive_settings (g : GeneralConfig) : list Z :=
  [effective_update_every_secs g; stun_nat_probe_concurrency g; upstream_connect_retry_attempts g;
   upstream_unhealthy_fail_threshold g; me_reinit_every_secs g; me_adaptive_floor_min_writers_single_endpoint g;
   me_single_endpoint_outage_backoff_min_ms g; me_single_endpoint_outage_backoff_max_ms g; beobachten_minutes g;
   beobachten_flush_secs g; me_hardswap_warmup_delay_max_ms g; me_hardswap_warmup_pass_backoff_base_ms g;
   me_config_stable_snapshots g; me_snapshot_min_proxy_for_lines g; proxy_secret_stable_snapshots g;
   me_reinit_trigger_channel g; me_route_backpressure_base_timeout_ms g].

(** The fields are unsigned. *)
Definition unsigned_settings (g : GeneralConfig) : list Z :=
  tail (positive_settings g) ++ option_list (update_every g) ++
  [proxy_secret_auto_reload_secs g; proxy_config_auto_reload_secs g; me_reinit_drain_timeout_secs g; me_pool_drain_ttl_secs g].

Definition config_typed (config : ProxyConfig) : Prop := Forall (fun x => 0 <= x) (unsigned_settings (general config)).

Record general_ok (g : GeneralConfig) : Prop := {
  go_positive : Forall (fun x => 0 < x) (positive_settings g);
  go_shadow : me_single_endpoint_shadow_writers g <= 32;
  go_floor : me_adaptive_floor_min_writers_single_endpoint g <= 32;
  go_outage : me_single_endpoint_outage_backoff_min_ms g <= me_single_endpoint_outage_backoff_max_ms g;
  go_warmup : me_hardswap_warmup_delay_min_ms g <= me_hardswap_warmup_delay_max_ms g;
  go_passes : me_hardswap_warmup_extra_passes g <= 10;
  go_secret_len : 32 <= proxy_secret_len_max g <= 4096;
  go_ratio : f32_in_unit_interval (me_pool_min_fresh_ratio g) = true;
  go_backpressure : me_route_backpressure_base_timeout_ms g <= me_route_backpressure_high_timeout_ms g;
  go_watermark : 1 <= me_route_backpressure_high_watermark_pct g <= 100;
  go_file : trim (beobachten_file g) <> [];
  go_ad_tag : forall tag, ad_tag g = Some tag -> is_valid_ad_tag tag = true;
  go_close : me_reinit_drain_timeout_secs g = 0 \/ me_pool_drain_ttl_secs g <= me_reinit_drain_timeout_secs g;
  go_probe : use_middle_proxy g = true -> middle_proxy_nat_probe g = true;
  go_legacy : middle_proxy_nat_stun g = None /\ middle_proxy_nat_stun_servers g = []
}.

(** The preferred family is one that is not disabled. *)
Record network_ok (n : NetworkConfig) : Prop := {
  no_prefer : prefer n = 4 /\ ipv4 n = true \/ prefer n = 6 /\ ipv6 n <> Some false;
  no_stun : NoDup (stun_servers n) /\ Forall (fun s => s <> [] /\ trim s = s) (stun_servers n);
  no_dns : is_ok (validate_entries (dns_overrides n)) = true
}.

(** One masking target; the domains are distinct. *)
Record censorship_ok (c : AntiCensorshipConfig) : Prop := {
  co_domains : NoDup (tls_domain c :: tls_domains c) /\ [] ∉ (tls_domain c :: tls_domains c : list bytes);
  co_mask :
    match mask_unix_sock c with
    | Some sock => 0 < zlen sock <= 107 /\ mask_host c = None
    | None => is_Some (mask_host c)
    end
}.

Record config_ok (c : ProxyConfig) : Prop := {
  ok_general : general_ok (general c);
  ok_network : network_ok (network c);
  ok_censorship : censorship_ok (censorship c);
  ok_secrets : map_Forall (fun _ secret => secret_ok secret = true) (users (access c));
  ok_upstreams : upstreams c <> [];
  ok_dc203 : is_Some (cfg_dc_overrides c !! str "203");
  ok_listeners : Forall (fun l => listener_announce l = None -> listener_announce_ip l = None) (listeners (server c))
}.

(** ** Lemmas *)

Lemma first_failure_none cs : first_failure cs = None -> Forall (fun b => b = false) (map fst cs).
Proof. induction cs as [|[[] msg] cs IH]; cbn [first_failure map fst]; [by constructor|done|]. intros Hf. constructor; auto. Qed.

(** What the checks establish, and the migrations after them leave alone. *)
Definition checked (g : GeneralConfig) : Prop :=
  Forall (fun x => 0 < x) (positive_settings g) /\
  me_single_endpoint_shadow_writers g <= 32 /\ me_adaptive_floor_min_writers_single_endpoint g <= 32 /\
  me_single_endpoint_outage_backoff_min_ms g <= me_single_endpoint_outage_backoff_max_ms g /\
  me_hardswap_warmup_delay_min_ms g <= me_hardswap_warmup_delay_max_ms g /\ me_hardswap_warmup_extra_passes g <= 10 /\
  32 <= proxy_secret_len_max g <= 4096 /\ f32_in_unit_interval (me_pool_min_fresh_ratio g) = true /\
  me_route_backpressure_base_timeout_ms g <= me_route_backpressure_high_timeout_ms g /\
  1 <= me_route_backpressure_high_watermark_pct g <= 100 /\ trim (beobachten_file g) <> [].

Lemma check_update_positive g :
  Forall (fun x => 0 <= x) (option_list (update_every g) ++
    [proxy_secret_auto_reload_secs g; proxy_config_auto_reload_secs g; me_reinit_drain_timeout_secs g; me_pool_drain_ttl_secs g]) ->
  (check_update g).1 = false -> 0 < effective_update_every_secs g.
Proof.
  rewrite Forall_app, !Forall_cons. unfold check_update, effective_update_every_secs.
  destruct (update_every g); cbn; rewrite ?Forall_cons; intros; destruct_and!; lia.
Qed.

Lemma checks_general g :
  Forall (fun x => 0 <= x) (unsigned_settings g) -> first_failure (checks g) = None -> checked g.
Proof.
  unfold unsigned_settings, checked. intros [Hu Hm]%Forall_app Hc. apply first_failure_none in Hc.
  unfold positive_settings in *. cbn [tail] in Hu. rewrite !Forall_cons in Hu. rewrite !Forall_cons.
  unfold checks, refuse in Hc. cbn [map fst] in Hc. rewrite !Forall_cons in Hc.
  destruct Hc as [Hup Hc]. pose proof (check_update_positive g Hm Hup). clear Hm Hup.
  destruct_and!. repeat match goal with H : (_ || _) = false |- _ => apply orb_false_iff in H as [? ?] end.
  split_and!; try done; try lia; [by apply negb_false_iff|by eapply bool_decide_eq_false_1].
Qed.

(** A migration touches only its own section: the others are read through it, one migration at a time. *)
Ltac through f c M := transitivity (f c); [unfold M; by repeat case_match|].
Ltac by_migration :=
  intros; unfold migrate_middle, migrate_last; cbv zeta;
  repeat
    match goal with
    | |- ?f (migrate_update_every _ ?c) = _ => through f c migrate_update_every
    | |- ?f (migrate_stun_servers _ ?c) = _ => through f c migrate_stun_servers
    | |- ?f (migrate_ad_tag ?c) = _ => through f c migrate_ad_tag
    | |- ?f (bump_force_close ?c) = _ => through f c bump_force_close
    | |- ?f (default_mask_host ?c) = _ => through f c default_mask_host
    | |- ?f (merge_domains ?c) = _ => through f c merge_domains
    | |- ?f (migrate_prefer_ipv6 ?c) = _ => through f c migrate_prefer_ipv6
    | |- ?f (enable_nat_probe ?c) = _ => through f c enable_nat_probe
    | |- ?f (draw_cert_len _ ?c) = _ => through f c draw_cert_len
    | |- ?f (populate_listeners ?c) = _ => through f c populate_listeners
    | |- ?f (migrate_announces ?c) = _ => through f c migrate_announces
    | |- ?f (migrate_show_link ?c) = _ => through f c migrate_show_link
    | |- ?f (populate_upstreams ?c) = _ => through f c populate_upstreams
    | |- ?f (ensure_dc203 ?c) = _ => through f c ensure_dc203
    end;
  first [reflexivity | assumption].

Lemma push_unique_ok target value :
  NoDup target /\ Forall (fun s => s <> [] /\ trim s = s) target ->
  NoDup (push_unique_nonempty target value) /\ Forall (fun s => s <> [] /\ trim s = s) (push_unique_nonempty target value).
Proof.
  intros [Hd Hf]. unfold push_unique_nonempty. destruct (decide (trim value = [])); [done|]. destruct (decide _) as [|Hn]; [done|].
  split; [|apply Forall_app; split; [done|]; by repeat constructor; [|apply trim_idem]].
  apply NoDup_app. split_and!; [done| |apply NoDup_singleton]. intros x Hx ->%list_elem_of_singleton. done.
Qed.

Lemma push_all_ok target values :
  NoDup target /\ Forall (fun s => s <> [] /\ trim s = s) target ->
  NoDup (foldl push_unique_nonempty target values) /\
  Forall (fun s => s <> [] /\ trim s = s) (foldl push_unique_nonempty target values).
Proof. revert target. induction values as [|v vs IH]; intros target Ht; [done|]. by apply IH, push_unique_ok. Qed.

Lemma push_all_same target values :
  NoDup (target ++ values) -> Forall (fun s => s <> [] /\ trim s = s) values -> foldl push_unique_nonempty target values = target ++ values.
Proof.
  revert target. induction values as [|v vs IH]; intros target Hd Hf; cbn [foldl]; [by rewrite app_nil_r|].
  apply Forall_cons in Hf as [[Hne Ht] Hf]. unfold push_unique_nonempty at 2. rewrite Ht, decide_False by done.
  assert (v ∉ target) by (intros Hin; apply NoDup_app in Hd as (_ & Hd & _); by apply (Hd v Hin); left).
  rewrite decide_False by done. rewrite IH; rewrite <-?app_assoc; done.
Qed.

Lemma default_stun_ok : NoDup default_stun_servers /\ Forall (fun s => s <> [] /\ trim s = s) default_stun_servers.
Proof. split; apply (bool_decide_unpack _); by vm_compute. Qed.

Lemma push_domain_ok all d :
  NoDup all /\ [] ∉ (all : list bytes) -> NoDup (push_domain all d) /\ [] ∉ (push_domain all d : list bytes).
Proof.
  intros [Hd Hn]. unfold push_domain. case_decide as Hc; [|done]. split.
  - apply NoDup_app. split_and!; [done| |apply NoDup_singleton]. intros x Hx ->%list_elem_of_singleton. tauto.
  - rewrite elem_of_app, list_elem_of_singleton. naive_solver.
Qed.

Lemma push_domains_ok all ds :
  NoDup all /\ [] ∉ (all : list bytes) ->
  NoDup (foldl push_domain all ds) /\ [] ∉ (foldl push_domain all ds : list bytes).
Proof. revert all. induction ds as [|d ds IH]; intros all Ha; [done|]. by apply IH, push_domain_ok. Qed.

Lemma push_domains_prefix all ds : all `prefix_of` foldl push_domain all ds.
Proof.
  revert all. induction ds as [|d ds IH]; intros all; [done|]. cbn [foldl]. etransitivity; [|apply IH].
  unfold push_domain. case_decide; [|done]. by eexists.
Qed.

Lemma push_domains_same all ds :
  NoDup (all ++ ds) -> [] ∉ (ds : list bytes) -> foldl push_domain all ds = all ++ ds.
Proof.
  revert all. induction ds as [|d ds IH]; intros all Hd Hn; cbn [foldl]; [by rewrite app_nil_r|].
  unfold push_domain at 2. rewrite decide_True.
  - rewrite IH; rewrite <-?app_assoc; [done|done|]. intros ?. apply Hn. by right.
  - split; [intros ->; apply Hn; by left|]. intros Hin. apply NoDup_app in Hd as (_ & Hd & _). apply (Hd d Hin). by left.
Qed.

(** ** Every loaded configuration is well formed *)

Lemma bad_secret_none m : bad_secret m = None -> map_Forall (fun _ secret => secret_ok secret = true) m.
Proof.
  unfold bad_secret. intros Hb u secret Hu. destruct (secret_ok secret) eqn:E; [done|].
  assert ((u, secret) ∈ filter (fun e : string * string => secret_ok e.2 = false) (map_to_list m)) as Hin
    by (apply list_elem_of_filter; split; [done|by apply elem_of_map_to_list]).
  by destruct (filter _ _) as [|x l]; [apply not_elem_of_nil in Hin|].
Qed.

Lemma Ok_inj {E A} (a b : A) : @Ok E A a = Ok b -> a = b.
Proof. by intros [= ->]. Qed.

(** The steps of [finish]. *)
Lemma finish_inv e drawn c c' :
  finish e drawn c = Ok c' ->
  let c1 := migrate_first e c in let c2 := bump_force_close c1 in let c3 := migrate_middle c2 in
  first_failure (checks (general c1)) = None /\ bad_secret (users (access c2)) = None /\
  check_masking (censorship c2) = None /\
  exists net, validate_network_cfg (network c3) = Ok net /\ is_ok (validate_entries (dns_overrides net)) = true /\
    c' = migrate_last drawn (with_network c3 net).
Proof.
  unfold finish. cbv zeta. destruct (first_failure _); [done|]. destruct (bad_secret _); [done|]. destruct (check_masking _); [done|].
  set (c3 := migrate_middle _). destruct (validate_network_cfg (network c3)) as [net|] eqn:En; [|done]. cbn [mbind result_bind].
  destruct (validate_entries _) as [[]|] eqn:Ee; [|done]. cbn [mbind result_bind]. intros E%Ok_inj.
  split_and!; [done..|]. exists net. split_and!; [done| |by rewrite <-E].
  change (dns_overrides (network (with_network c3 net))) with (dns_overrides net) in Ee. by rewrite Ee.
Qed.

Lemma validate_network_ok n n' :
  validate_network_cfg n = Ok n' ->
  (prefer n' = 4 /\ ipv4 n' = true \/ prefer n' = 6 /\ ipv6 n' <> Some false) /\
  stun_servers n' = stun_servers n /\ dns_overrides n' = dns_overrides n.
Proof.
  unfold validate_network_cfg. destruct (ipv4 n) eqn:E4, (bool_decide (ipv6 n = Some false)) eqn:E6; cbn; try done;
    destruct (Z.eqb_spec (prefer n) 4), (Z.eqb_spec (prefer n) 6); cbn; try done; try lia; intros [= <-]; cbn;
    try apply bool_decide_eq_true_1 in E6; try apply bool_decide_eq_false_1 in E6; auto.
Qed.

Lemma checked_update g d p l :
  checked g -> checked (g {{ me_reinit_drain_timeout_secs := d; middle_proxy_nat_probe := p; links := l }}).
Proof. intros H. exact H. Qed.

(** After the checks only these settings of [general] change. *)
Lemma bump_general c :
  exists d, general (bump_force_close c) = (general c) {{ me_reinit_drain_timeout_secs := d }} /\
    (0 <= me_reinit_drain_timeout_secs (general c) -> d = 0 \/ me_pool_drain_ttl_secs (general c) <= d).
Proof.
  unfold bump_force_close, effective_me_pool_force_close_secs.
  destruct (_ && _) eqn:E; [exists (me_pool_drain_ttl_secs (general c)); split; [done|right; lia]|].
  exists (me_reinit_drain_timeout_secs (general c)). split; [by destruct (general c)|lia].
Qed.

Lemma nat_probe_general c :
  exists p, general (enable_nat_probe c) = (general c) {{ middle_proxy_nat_probe := p }} /\
    (use_middle_proxy (general c) = true -> p = true).
Proof.
  unfold enable_nat_probe. destruct (_ && _) eqn:E; [by exists true|].
  exists (middle_proxy_nat_probe (general c)). split; [by destruct (general c)|].
  intros Hu. rewrite Hu in E. by apply negb_false_iff.
Qed.

Lemma show_link_general c : exists l, general (migrate_show_link c) = (general c) {{ links := l }}.
Proof.
  unfold migrate_show_link. destruct (_ && _); [by eexists|]. exists (links (general c)). by destruct (general c).
Qed.

Lemma general_last c : general (ensure_dc203 (populate_upstreams c)) = general c.
Proof. by_migration. Qed.
Lemma general_listeners drawn c : general (migrate_announces (populate_listeners (draw_cert_len drawn c))) = general c.
Proof. by_migration. Qed.
Lemma general_prefer c : general (migrate_prefer_ipv6 (merge_domains (default_mask_host c))) = general c.
Proof. by_migration. Qed.

Lemma with_network_frame c net :
  general (with_network c net) = general c /\ network (with_network c net) = net /\
  censorship (with_network c net) = censorship c /\ access (with_network c net) = access c.
Proof. done. Qed.

Lemma general_frame drawn net c :
  let c' := migrate_last drawn (with_network (migrate_middle (bump_force_close c)) net) in
  exists d p l,
    general c' = (general c) {{ me_reinit_drain_timeout_secs := d; middle_proxy_nat_probe := p; links := l }} /\
    (0 <= me_reinit_drain_timeout_secs (general c) -> d = 0 \/ me_pool_drain_ttl_secs (general c) <= d) /\
    (use_middle_proxy (general c) = true -> p = true).
Proof.
  cbv zeta. unfold migrate_middle, migrate_last. rewrite general_last.
  destruct (bump_general c) as (d & E2 & Hd). revert E2. generalize (bump_force_close c) as c2. intros c2 E2.
  pose proof (general_prefer c2) as E3. revert E3. generalize (migrate_prefer_ipv6 (merge_domains (default_mask_host c2))) as c3.
  intros c3 E3. destruct (nat_probe_general c3) as (p & E4 & Hp). revert E4. generalize (enable_nat_probe c3) as c4. intros c4 E4.
  pose proof (general_listeners drawn (with_network c4 net)) as E5. revert E5.
  generalize (migrate_announces (populate_listeners (draw_cert_len drawn (with_network c4 net)))) as c5. intros c5 E5.
  destruct (show_link_general c5) as (l & E6). exists d, p, l.
  destruct (with_network_frame c4 net) as (E7 & _). rewrite E7 in E5. rewrite E6, E5, E4, E3, E2.
  rewrite E3, E2 in Hp. by split_and!.
Qed.

(** The other sections of the result. *)
Lemma first_general_ad_tag e c tag : ad_tag (general (migrate_first e c)) = Some tag -> is_valid_ad_tag tag = true.
Proof.
  unfold migrate_first. set (c1 := migrate_stun_servers _ _).
  change (ad_tag (general (migrate_ad_tag c1))) with (sanitize_ad_tag (ad_tag (general c1))). unfold sanitize_ad_tag.
  destruct (ad_tag (general c1)) as [t|]; [|done]. destruct (is_valid_ad_tag t) eqn:E; [by intros [= <-]|done].
Qed.

Lemma first_stun e c :
  NoDup (stun_servers (network (migrate_first e c))) /\
  Forall (fun s => s <> [] /\ trim s = s) (stun_servers (network (migrate_first e c))).
Proof.
  unfold migrate_first. set (c1 := migrate_update_every e c).
  change (stun_servers (network (migrate_ad_tag (migrate_stun_servers e c1)))) with
    (stun_servers (network (migrate_stun_servers e c1))).
  unfold migrate_stun_servers. destruct (stun_servers_is_explicit e).
  - apply (push_all_ok []). split; constructor.
  - apply push_all_ok, push_all_ok, default_stun_ok.
Qed.

Lemma middle_network c :
  stun_servers (network (migrate_middle c)) = stun_servers (network c) /\
  dns_overrides (network (migrate_middle c)) = dns_overrides (network c).
Proof.
  unfold migrate_middle. set (c1 := merge_domains _). assert (network c1 = network c) as <- by (unfold c1; by_migration).
  assert (network (enable_nat_probe (migrate_prefer_ipv6 c1)) = network (migrate_prefer_ipv6 c1)) as -> by by_migration.
  unfold migrate_prefer_ipv6. by destruct (_ && _).
Qed.

Lemma last_network drawn c : network (migrate_last drawn c) = network c.
Proof. unfold migrate_last; by_migration. Qed.

Lemma last_censorship drawn c :
  let r := censorship (migrate_last drawn c) in
  tls_domain r = tls_domain (censorship c) /\ tls_domains r = tls_domains (censorship c) /\
  mask_host r = mask_host (censorship c) /\ mask_unix_sock r = mask_unix_sock (censorship c).
Proof.
  cbv zeta. assert (censorship (migrate_last drawn c) = censorship (draw_cert_len drawn c)) as -> by (unfold migrate_last; by_migration).
  unfold draw_cert_len. by destruct (_ && _).
Qed.

Lemma middle_censorship c :
  let r := censorship (migrate_middle c) in
  tls_domain r = tls_domain (censorship c) /\
  tls_domains r = tail (foldl push_domain [tls_domain (censorship c)] (tls_domains (censorship c))) /\
  mask_unix_sock r = mask_unix_sock (censorship c) /\
  mask_host r =
    match mask_host (censorship c), mask_unix_sock (censorship c) with
    | None, None => Some (tls_domain (censorship c))
    | h, _ => h
    end.
Proof.
  cbv zeta. assert (censorship (migrate_middle c) = censorship (merge_domains (default_mask_host c))) as ->
    by (unfold migrate_middle; by_migration).
  unfold merge_domains, default_mask_host.
  destruct (mask_host (censorship c)) eqn:Eh, (mask_unix_sock (censorship c)) eqn:Es; cbn; rewrite ?Eh, ?Es; done.
Qed.

Lemma masking_checked c :
  check_masking c = None ->
  tls_domain c <> [] /\ match mask_unix_sock c with Some sock => 0 < zlen sock <= 107 /\ mask_host c = None | None => True end.
Proof.
  unfold check_masking. case_decide as Hd; [done|]. intros Hc. split; [done|].
  destruct (mask_unix_sock c) as [sock|]; [|done]. case_decide as Hs; [done|].
  destruct (Z.ltb_spec 107 (zlen sock)); [done|]. case_bool_decide as Hh; [done|].
  split; [|by apply eq_None_not_Some]. destruct sock; [done|]. rewrite zlen_cons in *. pose proof (zlen_nonneg sock). lia.
Qed.

(** One masking target, and distinct domains, the first of them the primary one. *)
Lemma middle_censorship_ok c : check_masking (censorship c) = None -> censorship_ok (censorship (migrate_middle c)).
Proof.
  intros [Hne Hm]%masking_checked. destruct (middle_censorship c) as (E1 & E2 & E3 & E4). cbv zeta in *. constructor.
  - rewrite E1, E2. destruct (push_domains_prefix [tls_domain (censorship c)] (tls_domains (censorship c))) as [k Hk].
    pose proof (push_domains_ok [tls_domain (censorship c)] (tls_domains (censorship c))) as Hok.
    rewrite Hk in *. cbn [app tail] in *. apply Hok. split; [apply NoDup_singleton|]. intros Hx%list_elem_of_singleton. congruence.
  - rewrite E3, E4. destruct (mask_unix_sock _); [|destruct (mask_host (censorship c)); by eexists]. destruct Hm as [? ->]. done.
Qed.

Lemma last_access drawn c : access (migrate_last drawn c) = access c.
Proof. by_migration. Qed.
Lemma middle_access c : access (migrate_middle c) = access c.
Proof. by_migration. Qed.
Lemma last_server c : server (ensure_dc203 (populate_upstreams (migrate_show_link c))) = server c.
Proof. by_migration. Qed.

Lemma populate_upstreams_some c : upstreams (populate_upstreams c) <> [].
Proof. unfold populate_upstreams. by case_decide. Qed.
Lemma ensure_dc203_some c : is_Some (cfg_dc_overrides (ensure_dc203 c) !! str "203").
Proof.
  unfold ensure_dc203. destruct (cfg_dc_overrides c !! str "203") eqn:E; [by rewrite E|].
  change (cfg_dc_overrides (c {{ cfg_dc_overrides ::= <[str "203" := [str "91.105.192.100:443"]]> }})) with
    (<[str "203" := [str "91.105.192.100:443"]]> (cfg_dc_overrides c)).
  by rewrite lookup_insert_eq.
Qed.

Lemma last_rest drawn c :
  upstreams (migrate_last drawn c) <> [] /\ is_Some (cfg_dc_overrides (migrate_last drawn c) !! str "203") /\
  Forall (fun l => listener_announce l = None -> listener_announce_ip l = None) (listeners (server (migrate_last drawn c))).
Proof.
  unfold migrate_last. split_and!; [|apply ensure_dc203_some|].
  - generalize (migrate_show_link (migrate_announces (populate_listeners (draw_cert_len drawn c)))) as c1. intros c1.
    assert (upstreams (ensure_dc203 (populate_upstreams c1)) = upstreams (populate_upstreams c1)) as -> by by_migration.
    apply populate_upstreams_some.
  - rewrite last_server. generalize (populate_listeners (draw_cert_len drawn c)) as c1. intros c1.
    change (listeners (server (migrate_announces c1))) with (map migrate_announce (listeners (server c1))).
    apply Forall_fmap, Forall_true. intros l. unfold compose, migrate_announce.
    destruct (listener_announce l) eqn:Ea, (listener_announce_ip l) eqn:Ei; cbn; rewrite ?Ea, ?Ei; done.
Qed.

Lemma migrate_first_typed e c : config_typed c -> config_typed (migrate_first e c).
Proof.
  unfold config_typed, migrate_first, unsigned_settings. intros H.
  change (Forall (fun x => 0 <= x) (unsigned_settings (general (migrate_update_every e c)))).
  unfold migrate_update_every. destruct (_ && _); [|exact H]. apply Forall_app in H as [H1 H2].
  apply Forall_app in H2 as [_ H2]. apply Forall_app. by split.
Qed.

Lemma finish_well_formed e drawn c c' : config_typed c -> finish e drawn c = Ok c' -> config_ok c'.
Proof.
  intros Ht Hf. apply finish_inv in Hf. cbv zeta in Hf. destruct Hf as (Hchk & Hsec & Hmask & net & Hnet & Hdns & Ec).
  pose proof (migrate_first_typed e c Ht) as Ht1. pose proof (first_stun e c) as Hstun.
  pose proof (first_general_ad_tag e c) as Htag. set (c1 := migrate_first e c) in *.
  destruct (general_frame drawn net c1) as (d & p & l & Eg & Hd & Hp). pose proof (checks_general _ Ht1 Hchk) as Hg.
  destruct (validate_network_ok _ _ Hnet) as (Hpref & Es & Ed).
  destruct (middle_network (bump_force_close c1)) as [Es2 _].
  assert (network (bump_force_close c1) = network c1) as En by by_migration. rewrite Es2, En in Es.
  destruct (last_rest drawn (with_network (migrate_middle (bump_force_close c1)) net)) as (Hup & H203 & Hlis).
  destruct (last_censorship drawn (with_network (migrate_middle (bump_force_close c1)) net)) as (E1 & E2 & E3 & E4).
  destruct (with_network_frame (migrate_middle (bump_force_close c1)) net) as (_ & F2 & F3 & F4).
  cbv zeta in *. rewrite Ec. clear Ec. constructor; [| | | |exact Hup|exact H203|exact Hlis].
  - rewrite Eg. destruct Hg as (? & ? & ? & ? & ? & ? & ? & ? & ? & ? & ?). constructor; try assumption.
    + apply Hd. unfold config_typed, unsigned_settings in Ht1. rewrite !Forall_app, !Forall_cons in Ht1. tauto.
    + by split.
  - rewrite last_network, F2. rewrite <-Es in Hstun. constructor; [exact Hpref|exact Hstun|exact Hdns].
  - pose proof (middle_censorship_ok _ Hmask) as [H1 H2]. rewrite F3 in *. constructor; [by rewrite E1, E2|by rewrite E3, E4].
  - rewrite last_access, F4, middle_access. by apply bad_secret_none.
Qed.

(** ** Loading again what was loaded *)

(** What [finish] also leaves: nothing more to migrate. *)
Record settled (c : ProxyConfig) : Prop := {
  se_prefer : prefer_ipv6 (general c) = true -> prefer (network c) = 4 -> ipv6 (network c) = Some false;
  se_cert : tls_emulation (censorship c) = true \/ fake_cert_len (censorship c) <> default_fake_cert_len;
  se_listeners : populate_listeners c = c;
  se_announce : Forall (fun l => listener_announce l = None -> listener_announce_ip l = None) (listeners (server c));
  se_link : ShowLink_is_empty (show_link c) = true \/ ShowLink_is_empty (show (links (general c))) = false
}.

Definition all_explicit : Explicit := mkExplicit true true true true.

Lemma checks_pass g : general_ok g -> first_failure (checks g) = None.
Proof.
  intros [Hp ? ? ? ? ? ? ? ? ? ? _ _ _ _]. unfold positive_settings in Hp. rewrite !Forall_cons in Hp. destruct_and!.
  assert (forall cs, Forall (fun b => b = false) (map fst cs) -> first_failure cs = None) as Hnone.
  { induction cs as [|[[] msg] cs IH]; cbn [map fst first_failure]; [done|by intros [? _]%Forall_cons|].
    intros [_ Hc]%Forall_cons. auto. }
  apply Hnone. unfold checks, refuse. cbn [map fst]. rewrite !Forall_cons.
  split_and!; try done; try lia.
  - unfold check_update, effective_update_every_secs in *. destruct (update_every g); cbn; lia.
  - by apply bool_decide_eq_false_2.
  - by apply negb_false_iff.
Qed.

Lemma bad_secret_pass m : map_Forall (fun _ secret => secret_ok secret = true) m -> bad_secret m = None.
Proof.
  intros Hm. unfold bad_secret. destruct (filter _ _) as [|[u s] l] eqn:E; [done|].
  assert ((u, s) ∈ filter (fun e : string * string => secret_ok e.2 = false) (map_to_list m)) as Hin by (rewrite E; left).
  apply list_elem_of_filter in Hin as [Hf Hin%elem_of_map_to_list]. cbn in Hf. by rewrite (Hm u s Hin) in Hf.
Qed.

Lemma check_masking_pass c : censorship_ok c -> check_masking c = None.
Proof.
  intros [[_ Hd] Hm]. unfold check_masking. rewrite decide_False by (intros E; apply Hd; rewrite E; left).
  destruct (mask_unix_sock c) as [sock|]; [|done]. destruct Hm as [Hl ->].
  rewrite decide_False by (intros ->; destruct Hl as [Hl _]; by vm_compute in Hl). destruct (Z.ltb_spec 107 (zlen sock)); [lia|done].
Qed.

Lemma first_same c : config_ok c -> migrate_first all_explicit c = c.
Proof.
  intros [Hg [_ [Hs Hf] _] _ _ _ _ _]. destruct (go_legacy _ Hg) as [H1 H2]. pose proof (go_ad_tag _ Hg) as H3.
  unfold migrate_first, migrate_update_every. cbn [all_explicit update_every_is_explicit negb andb].
  unfold migrate_stun_servers. cbn [stun_servers_is_explicit].
  rewrite (push_all_same []) by done. cbn [app]. unfold migrate_ad_tag.
  assert (sanitize_ad_tag (ad_tag (general c)) = ad_tag (general c)) as H4.
  { unfold sanitize_ad_tag. destruct (ad_tag (general c)) as [t|]; [|done]. by rewrite H3. }
  destruct c as [g n]. destruct g, n. cbn in H1, H2, H4. subst. cbn. by rewrite H4.
Qed.

Lemma bump_same c : general_ok (general c) -> bump_force_close c = c.
Proof.
  intros Hg. pose proof (go_close _ Hg). unfold bump_force_close, effective_me_pool_force_close_secs.
  destruct (_ && _) eqn:E; [lia|done].
Qed.

Lemma merge_domains_same c : censorship_ok (censorship c) -> merge_domains c = c.
Proof.
  intros [[Hd Hn] _]. unfold merge_domains. rewrite (push_domains_same [tls_domain (censorship c)]); [|done|].
  - cbn [app tail]. by destruct c as [? ? ? ? []].
  - intros ?. apply Hn. by right.
Qed.

Lemma mask_host_same c : censorship_ok (censorship c) -> default_mask_host c = c.
Proof.
  intros [_ Hm]. unfold default_mask_host. destruct (mask_host (censorship c)), (mask_unix_sock (censorship c)); try done.
Qed.

(** A preference for IPv6 that the network cannot follow is undone at once. *)
Lemma network_same c :
  network_ok (network c) -> settled c ->
  exists net, validate_network_cfg (network (migrate_prefer_ipv6 c)) = Ok net /\
    with_network (migrate_prefer_ipv6 c) net = c /\ network c = net.
Proof.
  intros [Hp _ _] Hs. pose proof (se_prefer _ Hs) as H6. exists (network c). unfold migrate_prefer_ipv6.
  assert (validate_network_cfg (network c) = Ok (network c)) as Hv.
  { unfold validate_network_cfg. cbv zeta. destruct Hp as [[Hp Hq]|[Hp Hq]].
    - rewrite Hq, Hp. cbn [negb andb Z.eqb Pos.eqb]. by rewrite Hp, andb_false_r.
    - rewrite (bool_decide_eq_false_2 _ Hq), Hp, andb_false_r. cbn [negb andb Z.eqb Pos.eqb]. by rewrite andb_false_r. }
  destruct (prefer_ipv6 (general c)); cbn [andb]; [|by destruct c].
  destruct (Z.eqb_spec (prefer (network c)) 4) as [E|]; [|by destruct c]. specialize (H6 eq_refl E).
  destruct c as [g n]. destruct n. cbn in *. subst. destruct Hp as [[_ ->]|[? _]]; [done|lia].
Qed.

Lemma middle_same c net :
  config_ok c -> network c = net -> with_network (migrate_prefer_ipv6 c) net = c ->
  network (migrate_middle c) = network (migrate_prefer_ipv6 c) /\ with_network (migrate_middle c) net = c.
Proof.
  intros [Hg _ Hc _ _ _ _] Hn Hw. unfold migrate_middle. rewrite mask_host_same, merge_domains_same by done.
  assert (enable_nat_probe (migrate_prefer_ipv6 c) = migrate_prefer_ipv6 c) as ->; [|done].
  unfold enable_nat_probe. assert (general (migrate_prefer_ipv6 c) = general c) as -> by by_migration.
  destruct (use_middle_proxy (general c)) eqn:E; [|done]. by rewrite (go_probe _ Hg E).
Qed.

Lemma last_same drawn c : config_ok c -> settled c -> migrate_last drawn c = c.
Proof.
  intros [_ _ _ _ Hu [a Ha] _] [_ Hcert Hlis Hann Hlink]. unfold migrate_last.
  assert (draw_cert_len drawn c = c) as ->.
  { unfold draw_cert_len. destruct Hcert as [->|Hcert]; [done|]. destruct (tls_emulation (censorship c)); [done|].
    destruct (Z.eqb_spec (fake_cert_len (censorship c)) default_fake_cert_len); done. }
  rewrite Hlis. assert (migrate_announces c = c) as ->.
  { unfold migrate_announces. assert (map migrate_announce (listeners (server c)) = listeners (server c)) as E.
    { induction Hann as [|l ls Hl _ IH]; [done|]. cbn [map]. rewrite IH. f_equal. unfold migrate_announce.
      destruct (listener_announce l); [done|]. by rewrite Hl. }
    destruct c as [? ? s]. destruct s. cbn in *. by rewrite E. }
  assert (migrate_show_link c = c) as ->.
  { unfold migrate_show_link. destruct Hlink as [->| ->]; [done|]. by rewrite andb_false_r. }
  unfold populate_upstreams. rewrite decide_False by done. unfold ensure_dc203. by rewrite Ha.
Qed.

Lemma finish_same drawn c : config_ok c -> settled c -> finish all_explicit drawn c = Ok c.
Proof.
  intros Hok Hs. unfold finish. rewrite (first_same c Hok). rewrite (checks_pass _ (ok_general _ Hok)).
  rewrite (bump_same c (ok_general _ Hok)), (bad_secret_pass _ (ok_secrets _ Hok)), (check_masking_pass _ (ok_censorship _ Hok)).
  destruct (network_same c (ok_network _ Hok) Hs) as (net & Hv & Hw & Hn).
  destruct (middle_same c net Hok Hn Hw) as [E1 E2]. cbv zeta. rewrite E1, Hv. cbn [mbind result_bind]. rewrite E2.
  pose proof (no_dns _ (ok_network _ Hok)) as Hd. destruct (validate_entries _) as [[]|]; [|done]. cbn [mbind result_bind].
  by rewrite (last_same drawn c Hok Hs).
Qed.

Lemma validate_network_prefer n n' :
  validate_network_cfg n = Ok n' -> prefer n <> 4 -> prefer n' = 4 -> ipv6 n' = Some false.
Proof.
  unfold validate_network_cfg. cbv zeta. destruct (negb (ipv4 n) && _); [done|]. destruct (negb (prefer n =? 4) && _); [done|].
  intros E%Ok_inj Hp. rewrite <-E. clear E. destruct (Z.eqb_spec (prefer n) 4); [done|]. rewrite andb_false_r.
  destruct (bool_decide (ipv6 n = Some false)) eqn:E6; cbn [andb]; [|done]. apply bool_decide_eq_true_1 in E6.
  by destruct (prefer n =? 6).
Qed.

Lemma draw_cert_len_settled drawn c :
  drawn <> default_fake_cert_len ->
  tls_emulation (censorship (draw_cert_len drawn c)) = true \/
  fake_cert_len (censorship (draw_cert_len drawn c)) <> default_fake_cert_len.
Proof.
  intros Hd. unfold draw_cert_len. destruct (tls_emulation (censorship c)) eqn:E; cbn [negb andb]; [by left|].
  destruct (Z.eqb_spec (fake_cert_len (censorship c)) default_fake_cert_len); by right.
Qed.

(** Listeners are populated once: there are some, or there is nothing to listen on. *)
Definition no_more_listeners (s : ServerConfig) : Prop :=
  listeners s = [] -> resolve_listen_tcp s = true ->
  option_list (parse_ip (default (str "0.0.0.0") (listen_addr_ipv4 s))) = [] /\
  option_list (listen_addr_ipv6 s ≫= parse_ip) = [].

Lemma populate_same c : no_more_listeners (server c) -> populate_listeners c = c.
Proof.
  unfold no_more_listeners, populate_listeners. destruct (listeners (server c)) as [|l ls] eqn:E; [|done].
  destruct (resolve_listen_tcp (server c)); [|done]. intros H. destruct (H eq_refl eq_refl) as [-> ->].
  destruct c as [? ? s]. destruct s. cbn in *. by rewrite E.
Qed.

Lemma populate_no_more c : no_more_listeners (server (populate_listeners c)).
Proof.
  unfold no_more_listeners, populate_listeners. destruct (bool_decide (listeners (server c) = [])) eqn:E; cbn [andb]; [|].
  - destruct (resolve_listen_tcp (server c)) eqn:Er; [|congruence].
    destruct c as [? ? s]. destruct s. cbn. intros [E1%fmap_nil_inv E2%fmap_nil_inv]%app_nil _. done.
  - apply bool_decide_eq_false_1 in E. done.
Qed.

Lemma announces_no_more c : no_more_listeners (server c) -> no_more_listeners (server (migrate_announces c)).
Proof.
  unfold no_more_listeners. destruct c as [? ? s]. destruct s as [? ? ? ? ? ? ? ? ? ls]. cbn.
  unfold resolve_listen_tcp. cbn. destruct ls; done.
Qed.

Lemma show_link_settled c :
  ShowLink_is_empty (show_link (migrate_show_link c)) = true \/
  ShowLink_is_empty (show (links (general (migrate_show_link c)))) = false.
Proof.
  unfold migrate_show_link. destruct (ShowLink_is_empty (show_link c)) eqn:E1; cbn [negb andb]; [by left|].
  destruct (ShowLink_is_empty (show (links (general c)))) eqn:E2; by right.
Qed.

Lemma last_settled drawn c :
  drawn <> default_fake_cert_len ->
  (prefer_ipv6 (general c) = true -> prefer (network c) = 4 -> ipv6 (network c) = Some false) ->
  settled (migrate_last drawn c).
Proof.
  intros Hd Hp. pose proof (last_rest drawn c) as (_ & _ & Ha). pose proof (last_network drawn c) as En.
  assert (prefer_ipv6 (general (migrate_last drawn c)) = prefer_ipv6 (general c)) as Ep.
  { unfold migrate_last. rewrite general_last.
    pose proof (general_listeners drawn c) as E. revert E.
    generalize (migrate_announces (populate_listeners (draw_cert_len drawn c))) as c1. intros c1 E.
    destruct (show_link_general c1) as [l El]. by rewrite El, <-E. }
  constructor; [by rewrite Ep, En| | |exact Ha|].
  - assert (censorship (migrate_last drawn c) = censorship (draw_cert_len drawn c)) as ->
      by (unfold migrate_last; generalize (draw_cert_len drawn c); by_migration).
    by apply draw_cert_len_settled.
  - apply populate_same. unfold migrate_last. rewrite last_server. apply announces_no_more, populate_no_more.
  - unfold migrate_last. generalize (migrate_announces (populate_listeners (draw_cert_len drawn c))) as c1. intros c1.
    rewrite general_last.
    assert (show_link (ensure_dc203 (populate_upstreams (migrate_show_link c1))) = show_link (migrate_show_link c1)) as ->
      by (generalize (migrate_show_link c1); by_migration).
    apply show_link_settled.
Qed.

Lemma finish_settled e drawn c c' :
  finish e drawn c = Ok c' -> drawn <> default_fake_cert_len -> settled c'.
Proof.
  intros Hf Hd. apply finish_inv in Hf. cbv zeta in Hf. destruct Hf as (_ & _ & _ & net & Hnet & _ & ->).
  revert Hnet. generalize (bump_force_close (migrate_first e c)) as c1. intros c1 Hnet.
  apply last_settled; [done|]. destruct (with_network_frame (migrate_middle c1) net) as (-> & -> & _).
  unfold migrate_middle in *. revert Hnet. generalize (merge_domains (default_mask_host c1)) as c2. intros c2.
  assert (network (enable_nat_probe (migrate_prefer_ipv6 c2)) = network (migrate_prefer_ipv6 c2)) as -> by by_migration.
  destruct (nat_probe_general (migrate_prefer_ipv6 c2)) as (p & Eg & _). rewrite Eg.
  assert (general (migrate_prefer_ipv6 c2) = general c2) as -> by by_migration. intros Hnet Hpref.
  change (prefer_ipv6 (general c2) = true) in Hpref. apply (validate_network_prefer _ _ Hnet).
  unfold migrate_prefer_ipv6. rewrite Hpref. destruct (Z.eqb_spec (prefer (network c2)) 4); done.
Qed.

(** ** Claims *)

(** What [load] gives is well formed. *)
Lemma load_config_ok read_to_string toml_from_str path drawn c' :
  (forall text parsed c, toml_from_str text = Ok parsed -> try_into parsed = Ok c -> config_typed c) ->
  load read_to_string toml_from_str path drawn = Ok c' -> config_ok c'.
Proof.
  intros Htyped. unfold load. destruct (read_to_string path); [|done]. cbn [config_read mbind result_bind].
  destruct (preprocess_includes _ _ _ _) as [text|]; [|done]. cbn [config_read mbind result_bind].
  destruct (toml_from_str text) as [parsed|] eqn:Ep; [|done]. cbn [config_read mbind result_bind].
  destruct (try_into parsed) as [c|] eqn:Et; [|done]. cbn [config_read mbind result_bind].
  specialize (Htyped text parsed c Ep Et). generalize (explicit_of parsed) as e. intros e Hf. by eapply finish_well_formed.
Qed.

(** C23: whatever the file, its includes and the parser give, a configuration that [load] accepts is well formed: every
    range the code checks holds for the settings as they are in force, the force-close timeout is 0 or at least the
    drain time, the preferred address family is enabled, the STUN servers and the TLS domains are distinct and
    not empty, there is one masking target, every secret is 32 hexadecimal digits, there is an upstream, and data centre 203
    has an address. *)
Theorem load_well_formed read_to_string toml_from_str path drawn c' :
  (forall text parsed c, toml_from_str text = Ok parsed -> try_into parsed = Ok c -> config_typed c) ->
  load read_to_string toml_from_str path drawn = Ok c' -> config_ok c'.
Proof. apply load_config_ok. Qed.

(** C28: loading is idempotent.  When the configuration that [load] gives is written out with every setting explicit and
    loaded again, from any file and with any includes, the result is that same configuration, as long as the length
    drawn for the fake certificate is not its default value. *)
Theorem load_idempotent e drawn c c' read_to_string toml_from_str path text processed drawn' :
  config_typed c -> finish e drawn c = Ok c' -> drawn <> default_fake_cert_len ->
  read_to_string path = Ok text ->
  preprocess_includes read_to_string 11 text (default (str ".") (path_parent path)) = Ok processed ->
  toml_from_str processed =
    Ok (mkParsedToml ["update_every"; "proxy_secret_auto_reload_secs"; "proxy_config_auto_reload_secs"]%string
          ["stun_servers"%string] (Ok c')) ->
  load read_to_string toml_from_str path drawn' = Ok c'.
Proof.
  intros Ht Hf Hd Hr Hinc Htoml. pose proof (finish_well_formed e drawn c c' Ht Hf) as Hok.
  pose proof (finish_settled e drawn c c' Hf Hd) as Hs. unfold load. rewrite Hr. cbn [config_read mbind result_bind].
  rewrite Hinc. cbn [mbind result_bind]. rewrite Htoml. cbn [config_read mbind result_bind try_into].
  change (explicit_of _) with all_explicit. by apply finish_same.
Qed.

(** ** Includes *)

(** Text without include lines is kept, with every line terminated. *)
Lemma expand_lines_plain read include base_dir ls :
  Forall (fun l => include_target l = None) ls ->
  expand_lines read include base_dir ls = Ok (ls ≫= (fun l => l ++ [10])).
Proof.
  induction 1 as [|l ls Hl _ IH]; [done|]. cbn [expand_lines]. rewrite Hl, IH. cbn [mbind result_bind]. rewrite bind_cons.
  f_equal. by rewrite <-app_assoc.
Qed.

(** A file that includes itself, directly or through others, is an error: expansion ends after eleven files. *)
Lemma include_cycle_refused read_to_string content base_dir path budget :
  include_target content = Some path -> lines content = [content] ->
  read_to_string (path_join base_dir path) = Ok content -> path_parent (path_join base_dir path) = Some base_dir ->
  preprocess_includes read_to_string budget content base_dir = config_error "Include depth > 10".
Proof.
  intros Ht Hl Hr Hp. induction budget as [|budget IH]; [done|]. cbn [preprocess_includes]. rewrite Hl. cbn [expand_lines].
  rewrite Ht. unfold read_config_file. rewrite Hr. cbn [mbind result_bind]. rewrite Hp. change (default base_dir (Some base_dir)) with base_dir. by rewrite IH.
Qed.

(** ** The deprecated top-level setting *)

(** [show_link] is only looked at when [general.links.show] is written as an empty list: its default is to show all. *)
Lemma legacy_show_link_ignored c :
  links (general c) = LinksConfig_default -> show (links (general (migrate_show_link c))) = ShowAll.
Proof. intros E. unfold migrate_show_link. rewrite E. cbn. rewrite andb_false_r. by rewrite E. Qed.

(** ** Runs *)

Definition demo_files (p : bytes) : result string bytes :=
  if decide (p = str "etc/telemt.toml") then Ok (str "[general]" ++ 10 :: str " include = users.toml ")
  else if decide (p = str "etc/users.toml") then Ok (str "[access]")
  else Err "not found"%string.

(** A parser that knows the expanded text, and finds the default values in it; and one that finds [c], all written out. *)
Definition demo_toml (text : bytes) : result string ParsedToml :=
  if decide (text = str "[general]" ++ 10 :: str "[access]" ++ [10; 10])
  then Ok (mkParsedToml [] [] (Ok ProxyConfig_default)) else Err "syntax"%string.
Definition demo_toml_of (c : ProxyConfig) (text : bytes) : result string ParsedToml :=
  Ok (mkParsedToml ["update_every"; "proxy_secret_auto_reload_secs"; "proxy_config_auto_reload_secs"]%string
        ["stun_servers"%string] (Ok c)).

Definition demo_loaded : ProxyConfig :=
  match load demo_files demo_toml (str "etc/telemt.toml") 3000 with Ok c => c | Err _ => ProxyConfig_default end.

(** What the default values become. *)
Example demo_load :
  is_ok (load demo_files demo_toml (str "etc/telemt.toml") 3000) = true /\
  mask_host (censorship demo_loaded) = Some (str "petrovich.ru") /\ fake_cert_len (censorship demo_loaded) = 2048 /\
  map listener_ip (listeners (server demo_loaded)) = [V4 [0; 0; 0; 0]; V6 (zrepeat 16 0)] /\
  upstreams demo_loaded = [default_upstream] /\ is_ok (validate demo_loaded) = true /\
  path_parent (str "/etc//telemt/./x.toml") = Some (str "/etc//telemt") /\ path_parent (str "/") = None /\
  path_join (str "conf") (str "a.toml") = str "conf/a.toml".
Proof. split_and!; vm_eq. Qed.

Lemma load_well_formed_witness : config_ok demo_loaded.
Proof.
  apply (load_well_formed demo_files demo_toml (str "etc/telemt.toml") 3000).
  - intros text parsed c. unfold demo_toml. case_decide; [|done]. intros [= <-]. cbn [try_into]. intros [= <-].
    apply (bool_decide_unpack _). vm_compute. exact I.
  - vm_eq.
Defined.

Lemma load_idempotent_witness :
  load demo_files (demo_toml_of demo_loaded) (str "etc/telemt.toml") 7 = Ok demo_loaded.
Proof.
  apply (load_idempotent (mkExplicit false false false false) 3000 ProxyConfig_default demo_loaded demo_files
    (demo_toml_of demo_loaded) (str "etc/telemt.toml")
    (str "[general]" ++ 10 :: str " include = users.toml ") (str "[general]" ++ 10 :: str "[access]" ++ [10; 10]) 7).
  - apply (bool_decide_unpack _). vm_compute. exact I.
  - vm_eq.
  - done.
  - vm_eq.
  - vm_eq.
  - reflexivity.
Defined.
