(* ===== verification/ConfigUpdater.v ===== *)
(** * Configuration snapshots from Telegram: [transport/middle_proxy/config_updater.rs], [secret.rs], [rotation.rs]

    The updater downloads the lists of middle proxies and the proxy secret, and lets a change through only after it has
    been seen often enough in a row and the cooldown is over; a scheduler turns changes and the passing of time into
    reinitialisations of the pool.  HTTP answers, files and clocks come with the environment of a cycle; between its
    awaits other tasks act on the pool.  The standard hasher is a function of what is fed to it. *)

From stdpp Require Import gmap sorting pretty.
From S2P Require Import Prelude NetAddr AddrOrder Errors DnsOverrides Stats Stun MeNat MeHandshake MePool ConfigTypes ConfigLoad.

(** ** Parsing (config_updater.rs:131-258) *)

(** [l.trim_start_matches(prefix)], for a prefix that is not empty, and [l.trim_end_matches(c)] *)
Fixpoint trim_start_matches_loop (fuel : nat) (prefix l : bytes) : bytes :=
  match fuel with
  | O => l
  | S fuel => match strip_prefix prefix l with Some rest => trim_start_matches_loop fuel prefix rest | None => l end
  end.
Definition trim_start_matches (prefix l : bytes) : bytes := trim_start_matches_loop (length l) prefix l.
Definition trim_end_char (c : Z) (l : bytes) : bytes := reverse (drop_while c (reverse l)).

Definition parse_i32 : bytes -> option Z := parse_signed (2 ^ 31).

Definition host_and_port (host port_str : bytes) : option (IpAddr * Z) :=
  ip ← parse_ip host; port ← parse_u16 port_str; Some (ip, port).

Definition parse_host_port (s : bytes) : option (IpAddr * Z) :=
  let plain := idx ← rfind_char 58 s; host_and_port (ztake idx s) (zdrop (idx + 1) s) in
  match rfind_char 93 s with
  | Some bracket_end =>
      if starts_with 91 s && (bracket_end + 1 <? zlen s) && bool_decide (zget s (bracket_end + 1) = Some 58) then
        host_and_port (slice s 1 bracket_end) (zdrop (bracket_end + 2) s)
      else plain
  | None => plain
  end.

Definition parse_proxy_line (line : bytes) : option (Z * IpAddr * Z) :=
  let trimmed := trim line in
  match strip_prefix (str "proxy_for") trimmed with
  | None => None
  | Some _ =>
      let without_prefix := trim (trim_start_matches (str "proxy_for") trimmed) in
      match split_whitespace without_prefix with
      | dc_str :: rest :: _ =>
          let host_port := trim_end_char 59 rest in
          dc ← parse_i32 dc_str;
          '(ip, port) ← parse_host_port host_port;
          Some (dc, ip, port)
      | _ => None
      end
  end.

Record ProxyConfigData := mkProxyConfigData {
  pcd_map : ProxyMap;
  pcd_default_dc : option Z;
  http_status : Z;
  proxy_for_lines : Z
}.

Definition add_proxy_line (acc : ProxyMap * Z) (line : bytes) : ProxyMap * Z :=
  match parse_proxy_line line with
  | Some (dc, ip, port) => (<[dc := default [] (acc.1 !! dc) ++ [(ip, port)]]> acc.1, Z.min (acc.2 + 1) (2 ^ 32 - 1))
  | None => acc
  end.

Definition parse_default_line (l : bytes) : option Z :=
  rest ← strip_prefix (str "default") (trim l); parse_i32 (trim_end_char 59 (trim rest)).

Definition parse_proxy_config (status : Z) (text : bytes) : ProxyConfigData :=
  let '(map, n) := foldl add_proxy_line (∅, 0) (lines text) in
  mkProxyConfigData map (head (omap parse_default_line (lines text))) status n.

(** What a GET brings: no answer, or a status and a body that may fail to arrive. *)
Inductive HttpAnswer := NoAnswer | Answer (status : Z) (body : option bytes).

Definition fetch_proxy_config (answer : HttpAnswer) : result ProxyError ProxyConfigData :=
  match answer with
  | NoAnswer => Err (PE_Proxy "fetch_proxy_config GET failed: {e}")
  | Answer status (Some text) => Ok (parse_proxy_config status text)
  | Answer _ None => Err (PE_Proxy "fetch_proxy_config read failed: {e}")
  end.

(** [retry_fetch]: an attempt for each of the three delays. *)
Fixpoint retry_loop (attempts : nat) (i : nat) (answers : nat -> HttpAnswer) : option ProxyConfigData :=
  match attempts with
  | O => None
  | S attempts => match fetch_proxy_config (answers i) with Ok cfg => Some cfg | Err _ => retry_loop attempts (S i) answers end
  end.
Definition retry_fetch (answers : nat -> HttpAnswer) : option ProxyConfigData := retry_loop 3 0 answers.

Definition snapshot_passes_guards (cfg : GeneralConfig) (snapshot : ProxyConfigData) : bool :=
  if me_snapshot_require_http_2xx cfg && negb ((200 <=? http_status snapshot) && (http_status snapshot <=? 299)) then false
  else negb (proxy_for_lines snapshot <? me_snapshot_min_proxy_for_lines cfg).

(** ** The proxy secret (secret.rs) *)

Definition PROXY_SECRET_MIN_LEN : Z := 32.

Definition bytes_message (before : string) (n : Z) (middle : string) (m : Z) (after : string) : ProxyError :=
  PE_Proxy (String.append before (String.append (pretty n) (String.append middle (String.append (pretty m) after)))).

Definition validate_proxy_secret_len (data_len max_len : Z) : result ProxyError unit :=
  if max_len <? PROXY_SECRET_MIN_LEN then
    Err (bytes_message "proxy-secret max length is invalid: " max_len " bytes (must be >= " PROXY_SECRET_MIN_LEN ")")
  else if data_len <? PROXY_SECRET_MIN_LEN then
    Err (bytes_message "proxy-secret too short: " data_len " bytes (need >= " PROXY_SECRET_MIN_LEN ")")
  else if max_len <? data_len then
    Err (bytes_message "proxy-secret too long: " data_len " bytes (limit = " max_len ")")
  else Ok tt.

Definition download_proxy_secret_with_max_len (answer : HttpAnswer) (max_len : Z) : result ProxyError bytes :=
  match answer with
  | NoAnswer => Err (PE_Proxy "Failed to download proxy-secret: {e}")
  | Answer status body =>
      if negb ((200 <=? status) && (status <=? 299)) then Err (PE_Proxy "proxy-secret download HTTP {status}")
      else
        match body with
        | None => Err (PE_Proxy "Read proxy-secret body: {e}")
        | Some data => _ ← validate_proxy_secret_len (zlen data) max_len; Ok data
        end
  end.

(** The result, and the file afterwards: [file] is what reading the cache gives, [writable] whether it can be written. *)
Definition fetch_proxy_secret (answer : HttpAnswer) (file : option bytes) (writable : bool) (max_len : Z)
    : result ProxyError bytes * option bytes :=
  match download_proxy_secret_with_max_len answer max_len with
  | Ok data => (Ok data, if writable then Some data else file)
  | Err _ =>
      (match file with
       | Some data => _ ← validate_proxy_secret_len (zlen data) max_len; Ok data
       | None => Err (PE_Proxy "Failed to read proxy-secret cache after download failure: {e}")
       end, file)
  end.

(** ** Snapshots (config_updater.rs:45-129) *)

Record StableSnapshot := mkStable {
  candidate_hash : option Z;
  candidate_hits : Z;
  applied_hash : option Z
}.
Definition StableSnapshot_default : StableSnapshot := mkStable None 0 None.

Definition ss_observe (self : StableSnapshot) (hash : Z) : StableSnapshot :=
  if decide (candidate_hash self = Some hash) then mkStable (candidate_hash self) (Z.min (candidate_hits self + 1) 255) (applied_hash self)
  else mkStable (Some hash) 1 (applied_hash self).
Definition is_applied (self : StableSnapshot) (hash : Z) : bool := bool_decide (applied_hash self = Some hash).
Definition mark_applied (self : StableSnapshot) (hash : Z) : StableSnapshot :=
  mkStable (candidate_hash self) (candidate_hits self) (Some hash).

Record UpdaterState := mkUpdater {
  config_v4 : StableSnapshot;
  config_v6 : StableSnapshot;
  up_secret : StableSnapshot;
  last_map_apply_at : option Z
}.
Definition UpdaterState_default : UpdaterState :=
  mkUpdater StableSnapshot_default StableSnapshot_default StableSnapshot_default None.

(** What is fed to the hasher. *)
Inductive HashItem :=
| HashDefaultDc (dc : option Z)
| HashDc (dc : Z)
| HashIp (ip : IpAddr)
| HashPort (port : Z)
| HashBytes (data : bytes).

(** The entries in the order of their keys, which are different. *)
Definition sorted_entries (map : ProxyMap) : list (Z * list (IpAddr * Z)) :=
  (fun dc => (dc, default [] (map !! dc))) <$> merge_sort Z.le (map_to_list map).*1.

Definition to_addrs (addrs : list (IpAddr * Z)) : list SocketAddr := (fun a => mkSocketAddr a.1 a.2) <$> addrs.

Definition proxy_config_items (cfg : ProxyConfigData) : list HashItem :=
  HashDefaultDc (pcd_default_dc cfg) ::
  ('(dc, addrs) ← sorted_entries (pcd_map cfg);
   HashDc dc :: (a ← merge_sort addr_le (to_addrs addrs); [HashIp (sa_ip a); HashPort (sa_port a)])).

(** Instants are nanoseconds; a cooldown is given in seconds. *)
Definition map_apply_cooldown_ready (now : Z) (last_applied : option Z) (cooldown_secs : Z) : bool :=
  if cooldown_secs =? 0 then true
  else match last_applied with Some ts => cooldown_secs * SECS <=? now - ts | None => true end.
Definition map_apply_cooldown_remaining_secs (now last_applied cooldown_secs : Z) : Z :=
  if cooldown_secs =? 0 then 0 else Z.max 0 (cooldown_secs * SECS - (now - last_applied)) / SECS.

(** ** One cycle (config_updater.rs:260-435) *)

(** [ratio_to_permille] (pool.rs): an exact product rounded to 24 significant bits, ties to even, then to a whole number. *)
Definition f32_round (units : Z) : Z :=
  let e := Z.max 0 (Z.log2 units + 1 - 24) in
  let q := units / 2 ^ e in
  let r := units mod 2 ^ e in
  let up := if 2 * r =? 2 ^ e then Z.odd q else 2 ^ e <? 2 * r in
  (if up then q + 1 else q) * 2 ^ e.
Definition ratio_to_permille (ratio : f32) : Z :=
  match ratio with
  | F32_NaN => 0
  | F32_Inf negative => if negative then 0 else 1000
  | F32_Units u => let clamped := Z.max 0 (Z.min u (2 ^ 149)) in (f32_round (clamped * 1000) + 2 ^ 148) / 2 ^ 149
  end.

Definition runtime_policy (g : GeneralConfig) : ReinitPolicy :=
  mkReinitPolicy (hardswap g) (me_pool_drain_ttl_secs g) (effective_me_pool_force_close_secs g)
    (ratio_to_permille (me_pool_min_fresh_ratio g)) (me_hardswap_warmup_delay_min_ms g) (me_hardswap_warmup_delay_max_ms g)
    (me_hardswap_warmup_extra_passes g) (me_hardswap_warmup_pass_backoff_base_ms g)
    (MeBindStaleMode_as_u8 (me_bind_stale_mode g)) (me_bind_stale_ttl_secs g) (me_secret_atomic_snapshot g)
    (me_deterministic_writer_sort g) (me_single_endpoint_shadow_writers g) (me_single_endpoint_outage_mode_enabled g)
    (me_single_endpoint_outage_disable_quarantine g) (me_single_endpoint_outage_backoff_min_ms g)
    (me_single_endpoint_outage_backoff_max_ms g) (me_single_endpoint_shadow_rotate_every_secs g)
    (MeFloorMode_as_u8 (me_floor_mode g)) (me_adaptive_floor_idle_secs g) (me_adaptive_floor_min_writers_single_endpoint g)
    (me_adaptive_floor_recover_grace_secs g).

(** *** Triggers (rotation.rs:12-40) *)

Inductive MeReinitTrigger := Periodic | MapChanged.
#[global] Instance MeReinitTrigger_eq_dec : EqDecision MeReinitTrigger.
Proof. solve_decision. Defined.

(** The bounded channel to the scheduler. *)
Record TriggerChannel := mkTriggers { tr_queue : list MeReinitTrigger; tr_capacity : Z; tr_open : bool }.

Definition enqueue_reinit_trigger (tx : TriggerChannel) (trigger : MeReinitTrigger) : TriggerChannel :=
  if tr_open tx && (zlen (tr_queue tx) <? tr_capacity tx) then
    mkTriggers (tr_queue tx ++ [trigger]) (tr_capacity tx) (tr_open tx)
  else tx.

(** *** The cycle *)

(** What one cycle meets: the answers to the attempts for the two lists and to the download of the secret, two readings
    of the clock, what other tasks do to the pool at each await, and what the reconnections of a new secret see. *)
Record CycleEnv := mkCycleEnv {
  ce_v4 : nat -> HttpAnswer;
  ce_v6 : nat -> HttpAnswer;
  ce_secret : HttpAnswer;
  ce_now : Z;
  ce_now_applied : Z;
  ce_others : nat -> MePool -> MePool;
  ce_pool : nat -> PoolEnv
}.

Record UpdaterWorld := mkUpdaterWorld {
  uw_state : UpdaterState;
  uw_pool : MePool;
  uw_nat : NatState;
  uw_triggers : TriggerChannel
}.

Section Cycle.
Context (finish : list HashItem -> Z).

Definition hash_proxy_config (cfg : ProxyConfigData) : Z := finish (proxy_config_items cfg).
Definition hash_secret (secret : bytes) : Z := finish [HashBytes secret].

(** An observation, and whether it is stable and new. *)
Definition stable_gate (s : StableSnapshot) (hash required : Z) : bool * StableSnapshot :=
  let s := ss_observe s hash in
  (negb (candidate_hits s <? required) && negb (is_applied s hash), s).

Definition config_gate (cfg : GeneralConfig) (s : StableSnapshot) (fetched : option ProxyConfigData)
    : option (ProxyConfigData * Z) * StableSnapshot :=
  match fetched with
  | Some snapshot =>
      if snapshot_passes_guards cfg snapshot then
        let hash := hash_proxy_config snapshot in
        let '(ready, s) := stable_gate s hash (Z.max (me_config_stable_snapshots cfg) 1) in
        (if ready then Some (snapshot, hash) else None, s)
      else (None, s)
  | None => (None, s)
  end.

Definition store_default_dc (p : MePool) (dc : option Z) : MePool :=
  match dc with
  | Some dc => with_maps p (mkProxyMaps (proxy_map_v4 (mp_maps p)) (proxy_map_v6 (mp_maps p)) dc)
  | None => p
  end.

Definition mark_ready (s : StableSnapshot) (ready : option (ProxyConfigData * Z)) : StableSnapshot :=
  match ready with Some (_, hash) => mark_applied s hash | None => s end.

(** The maps that are ready (config_updater.rs:344-395): whether they changed, the new state and pool. *)
Definition apply_stable (e : CycleEnv) (cfg : GeneralConfig) (s : UpdaterState) (p : MePool)
    (ready_v4 ready_v6 : option (ProxyConfigData * Z)) : bool * UpdaterState * MePool :=
  if map_apply_cooldown_ready (ce_now e) (last_map_apply_at s) (me_config_apply_cooldown_secs cfg) then
    let update_v4 := from_option (fun r => pcd_map r.1) ∅ ready_v4 in
    let update_v6 := (fun r => pcd_map r.1) <$> ready_v6 in
    let update_is_empty := bool_decide (update_v4 = ∅) && match update_v6 with None => true | Some v => bool_decide (v = ∅) end in
    let '(outcome, p) :=
      if update_is_empty && negb (me_snapshot_reject_empty_map cfg) then (AppliedNoDelta, p)
      else update_proxy_maps (ce_others e 2 p) update_v4 update_v6 in
    match outcome with
    | RejectedEmpty => (false, s, p)
    | _ =>
        let p := match ready_v4 with Some (snapshot, _) => store_default_dc p (pcd_default_dc snapshot) | None => p end in
        (SnapshotApplyOutcome_changed outcome,
         mkUpdater (mark_ready (config_v4 s) ready_v4) (mark_ready (config_v6 s) ready_v6) (up_secret s) (Some (ce_now_applied e)), p)
    end
  else (false, s, p).

Definition apply_ready (e : CycleEnv) (cfg : GeneralConfig) (s : UpdaterState) (p : MePool)
    (ready_v4 ready_v6 : option (ProxyConfigData * Z)) : bool * UpdaterState * MePool :=
  match ready_v4, ready_v6 with
  | None, None => (false, s, p)
  | _, _ => apply_stable e cfg s p ready_v4 ready_v6
  end.

(** The secret (config_updater.rs:403-434) *)
Definition update_proxy_secret (e : CycleEnv) (cfg : GeneralConfig) (s : UpdaterState) (p : MePool) : UpdaterState * MePool :=
  if proxy_secret_rotate_runtime cfg then
    let p := ce_others e 3 p in
    match download_proxy_secret_with_max_len (ce_secret e) (proxy_secret_len_max cfg) with
    | Ok secret =>
        let hash := hash_secret secret in
        let '(ready, snap) := stable_gate (up_secret s) hash (Z.max (proxy_secret_stable_snapshots cfg) 1) in
        if ready then
          let '(_, p) := pool_update_secret (ce_pool e) p secret in
          (mkUpdater (config_v4 s) (config_v6 s) (mark_applied snap hash) (last_map_apply_at s), p)
        else (mkUpdater (config_v4 s) (config_v6 s) snap (last_map_apply_at s), p)
    | Err _ => (s, p)
    end
  else (s, p).

Definition run_update_cycle (e : CycleEnv) (cfg : GeneralConfig) (w : UpdaterWorld) : UpdaterWorld :=
  let s := uw_state w in
  let p := update_runtime_reinit_policy (uw_pool w) (runtime_policy cfg) in
  let p := ce_others e 0 p in
  let '(ready_v4, v4) := config_gate cfg (config_v4 s) (retry_fetch (ce_v4 e)) in
  let p := ce_others e 1 p in
  let '(ready_v6, v6) := config_gate cfg (config_v6 s) (retry_fetch (ce_v6 e)) in
  let s := mkUpdater v4 v6 (up_secret s) (last_map_apply_at s) in
  let '(maps_changed, s, p) := apply_ready e cfg s p ready_v4 ready_v6 in
  let tx := if maps_changed then enqueue_reinit_trigger (uw_triggers w) MapChanged else uw_triggers w in
  let nat := reset_stun_state (uw_nat w) in
  let '(s, p) := update_proxy_secret e cfg s p in
  mkUpdaterWorld s p nat tx.

(** *** The task (config_updater.rs:437-530)

    Either the next tick has come, or the configuration changed; the task ends when its sender is gone. *)
Inductive UpdaterEvent :=
| UpdTick (e : CycleEnv) (now : Z)
| UpdConfig (cfg : GeneralConfig) (e : CycleEnv) (now : Z).

Record UpdaterTask := mkUpdaterTask {
  ut_world : UpdaterWorld;
  ut_config : GeneralConfig;
  update_every_secs : Z;
  next_tick : Z
}.

Definition interval_of (cfg : GeneralConfig) : Z := Z.max (effective_update_every_secs cfg) 1.

Definition me_config_updater_start (w : UpdaterWorld) (cfg : GeneralConfig) (now : Z) : UpdaterTask :=
  mkUpdaterTask w cfg (interval_of cfg) (now + interval_of cfg * SECS).

Definition updater_step (t : UpdaterTask) (ev : UpdaterEvent) : UpdaterTask :=
  match ev with
  | UpdTick e now =>
      let cfg := ut_config t in
      let secs := interval_of cfg in
      mkUpdaterTask (run_update_cycle e cfg (ut_world t)) cfg secs (now + secs * SECS)
  | UpdConfig cfg e now =>
      let w := ut_world t in
      let w := mkUpdaterWorld (uw_state w) (update_runtime_reinit_policy (uw_pool w) (runtime_policy cfg)) (uw_nat w) (uw_triggers w) in
      let secs := interval_of cfg in
      if secs =? update_every_secs t then mkUpdaterTask w cfg (update_every_secs t) (next_tick t)
      else if secs <? update_every_secs t then mkUpdaterTask (run_update_cycle e cfg w) cfg secs (now + secs * SECS)
      else mkUpdaterTask w cfg secs (now + secs * SECS)
  end.

End Cycle.

(** ** Periodic reinitialisation (rotation.rs:42-180) *)

(** What the scheduler takes from the channel: the first trigger, and those that arrive within the coalescing window. *)
Definition reinit_reason (first : MeReinitTrigger) (window_ms : Z) (within : list MeReinitTrigger) : bool * bool :=
  let all := if window_ms =? 0 then [first] else first :: within in
  (bool_decide (MapChanged ∈ all), bool_decide (Periodic ∈ all)).

Record RotationTask := mkRotation { interval_secs : Z; rot_next_tick : Z; rot_triggers : TriggerChannel }.

Definition reinit_interval (cfg : GeneralConfig) : Z := Z.max (effective_me_reinit_every_secs cfg) 1.

Definition me_rotation_start (cfg : GeneralConfig) (tx : TriggerChannel) (now : Z) : RotationTask :=
  mkRotation (reinit_interval cfg) (now + reinit_interval cfg * SECS) tx.

Inductive RotationEvent := RotTick (now : Z) | RotConfig (now : Z).

(** [cfg] is the configuration the receiver holds when the event is handled. *)
Definition rotation_step (cfg : GeneralConfig) (t : RotationTask) (ev : RotationEvent) : RotationTask :=
  let new_secs := reinit_interval cfg in
  match ev with
  | RotTick now => mkRotation new_secs (now + new_secs * SECS) (enqueue_reinit_trigger (rot_triggers t) Periodic)
  | RotConfig now =>
      if new_secs =? interval_secs t then t
      else if new_secs <? interval_secs t then
        mkRotation new_secs (now + new_secs * SECS) (enqueue_reinit_trigger (rot_triggers t) Periodic)
      else mkRotation new_secs (now + new_secs * SECS) (rot_triggers t)
  end.

(** ** Lists that are written are read back *)

(** A list as Telegram serves it: one line for each endpoint. *)
Definition proxy_line (dc : Z) (a : SocketAddr) : bytes :=
  str "proxy_for " ++ fmt_int dc ++ [32] ++ fmt_socket_addr a ++ [59].
Definition proxy_text (entries : list (Z * SocketAddr)) : bytes := '(dc, a) ← entries; proxy_line dc a ++ [10].

Lemma fmt_num_digits z : 0 <= z < 2 ^ 64 -> Forall (fun b => 48 <= b <= 57) (fmt_num 10 z).
Proof.
  intros Hz. destruct (digits_of_spec 64 20 10 z) as (HF & _); [lia|lia|lia|]. cbn zeta in HF. unfold fmt_num.
  apply Forall_fmap. eapply Forall_impl; [exact HF|]. intros d Hd. cbn in Hd |- *. unfold digit_char. destruct (Z.ltb_spec d 10); lia.
Qed.

Lemma fmt_num_no c z : 0 <= z < 2 ^ 64 -> (c < 48 \/ 57 < c) -> Forall (fun b => b <> c) (fmt_num 10 z).
Proof. intros Hz Hc. eapply Forall_impl; [by apply fmt_num_digits|]. cbn. lia. Qed.

Lemma fmt_socket_addr_words a : addr_ok a -> Forall word_char (fmt_socket_addr a) /\ fmt_socket_addr a <> [].
Proof.
  destruct a as [ip port]. intros [Hip Hp]%addr_ok_ip. cbn [sa_ip sa_port] in *. destruct (fmt_ip_text ip Hip) as (Hn & Hw & _).
  assert (Forall word_char (fmt_num 10 port)) as Hwp.
  { eapply Forall_impl; [apply fmt_num_digits; lia|]. unfold word_char. cbn. lia. }
  unfold fmt_socket_addr. cbn [sa_ip sa_port]. assert (word_char 58 /\ word_char 91 /\ word_char 93) as (W1 & W2 & W3) by (unfold word_char; lia).
  destruct ip; (split; [|by destruct (fmt_ip _)]); repeat first [apply Forall_app; split | constructor; [done|] | done].
Qed.

Lemma host_and_port_fmt ip port : ip_ok ip -> 0 <= port < 2 ^ 16 -> host_and_port (fmt_ip ip) (fmt_num 10 port) = Some (ip, port).
Proof. intros Hi Hp. unfold host_and_port. by rewrite parse_ip_fmt, parse_u16_fmt. Qed.

Lemma parse_host_port_fmt a : addr_ok a -> parse_host_port (fmt_socket_addr a) = Some (sa_ip a, sa_port a).
Proof.
  destruct a as [ip port]. intros [Hip Hp]%addr_ok_ip. cbn [sa_ip sa_port] in *.
  pose proof (fmt_num_no 93 port ltac:(lia) ltac:(lia)) as H93. pose proof (fmt_num_no 58 port ltac:(lia) ltac:(lia)) as H58.
  unfold parse_host_port, fmt_socket_addr. cbn [sa_ip sa_port]. destruct ip as [o|o].
  - assert (Forall (fun b => b <> 93) (fmt_ip (V4 o))) as Hno.
    { cbn [fmt_ip]. unfold fmt_ipv4. apply join_Forall; [done|]. apply Forall_fmap. destruct Hip as [_ Hb]. eapply Forall_impl; [exact Hb|].
      intros z Hz. cbn. unfold is_byte in Hz. apply fmt_num_no; lia. }
    rewrite rfind_char_none by (apply Forall_app; split; [done|by constructor]).
    rewrite rfind_char_split by done. cbn [mbind option_bind]. rewrite ztake_app by done.
    rewrite cons_middle, app_assoc, zdrop_app by (zlen_simpl; lia). by apply host_and_port_fmt.
  - set (t := fmt_ip (V6 o)). set (p := fmt_num 10 port) in *. pose proof (zlen_nonneg p).
    change (91 :: t ++ 93 :: 58 :: p) with ((91 :: t) ++ 93 :: 58 :: p).
    rewrite rfind_char_split by (by constructor). cbv zeta. change (starts_with 91 ((91 :: t) ++ 93 :: 58 :: p)) with true.
    replace (zlen (91 :: t) + 1 <? zlen ((91 :: t) ++ 93 :: 58 :: p)) with true by (symmetry; apply Z.ltb_lt; zlen_simpl; lia).
    rewrite (cons_middle 93 (91 :: t) (58 :: p)), app_assoc, zget_mid by (zlen_simpl; lia). rewrite bool_decide_true by done. cbn [andb].
    rewrite (cons_middle 58 _ p), (app_assoc _ [58] p), zdrop_app by (zlen_simpl; lia).
    rewrite <-!app_assoc. change (slice ((91 :: t) ++ [93] ++ [58] ++ p) 1 (zlen (91 :: t))) with (slice ([91] ++ t ++ [93] ++ [58] ++ p) 1 (zlen (91 :: t))).
    rewrite slice_mid by (zlen_simpl; lia). by apply host_and_port_fmt.
Qed.

Lemma fmt_int_words dc : in_i32 dc -> Forall word_char (fmt_int dc) /\ fmt_int dc <> [].
Proof.
  intros Hdc. unfold in_i32 in Hdc. unfold fmt_int.
  assert (forall z, 0 <= z < 2 ^ 64 -> Forall word_char (fmt_num 10 z)) as Hw.
  { intros z Hz. eapply Forall_impl; [by apply fmt_num_digits|]. unfold word_char. cbn. lia. }
  destruct (Z.ltb_spec dc 0).
  - split; [|done]. constructor; [unfold word_char; lia|]. apply Hw. lia.
  - split; [apply Hw; lia|]. destruct (fmt_num_head dc) as (b & r & -> & _); [lia|done].
Qed.

Lemma trim_end_semicolon l b : b <> 59 -> trim_end_char 59 ((l ++ [b]) ++ [59]) = l ++ [b].
Proof.
  intros Hb. unfold trim_end_char. rewrite reverse_snoc. cbn [drop_while]. change (59 =? 59) with true. cbv iota.
  rewrite reverse_snoc. cbn [drop_while]. destruct (Z.eqb_spec b 59); [done|]. by rewrite reverse_cons, reverse_involutive.
Qed.

Lemma fmt_socket_addr_last a : addr_ok a -> exists l b, fmt_socket_addr a = l ++ [b] /\ b <> 59.
Proof.
  intros Ha. destruct a as [ip port]. pose proof (proj1 (addr_ok_ip _) Ha) as [_ Hp]. cbn [sa_port] in Hp.
  pose proof (fmt_num_digits port ltac:(lia)) as Hd. destruct (fmt_num_head port) as (b0 & r0 & E0 & _); [lia|].
  destruct (fmt_num 10 port) as [|b r _] eqn:E using rev_ind; [done|]. apply Forall_app in Hd as [_ Hd]. inversion Hd; subst.
  unfold fmt_socket_addr. cbn [sa_ip sa_port]. rewrite E. destruct ip; eexists _, b; (split; [|lia]).
  - by rewrite (cons_middle 58 _ (r ++ [b])), !app_assoc.
  - rewrite app_comm_cons. by rewrite (cons_middle 93 _ (58 :: r ++ [b])), (cons_middle 58 [93] (r ++ [b])), !app_assoc.
Qed.

(** A text of ASCII characters between two word characters has nothing to trim. *)
Definition ascii (b : Z) : Prop := 0 <= b < 128.

Lemma ws_len_ascii b r : ascii b -> ws_len (b :: r) = if (b =? 32) || ((9 <=? b) && (b <=? 13)) then 1%nat else 0%nat.
Proof.
  unfold ascii. intros Hb. unfold ws_len. destruct ((b =? 32) || ((9 <=? b) && (b <=? 13))); [done|]. destruct r as [|c r]; [done|].
  replace (b =? 0xc2) with false by lia. cbn [andb]. destruct r as [|d r]; [done|].
  replace (b =? 0xe1) with false by lia. replace (b =? 0xe2) with false by lia. by replace (b =? 0xe3) with false by lia.
Qed.

Lemma trim_end_ascii l b : Forall ascii l -> word_char b -> forall kept spaces, trim_end_loop O kept spaces (l ++ [b]) = kept ++ spaces ++ l ++ [b].
Proof.
  intros Hl Hb. induction Hl as [|c l Hc Hl IH]; intros kept spaces; cbn [app trim_end_loop].
  - by rewrite ws_len_word.
  - rewrite ws_len_ascii by done. destruct ((c =? 32) || _); rewrite IH; by rewrite <-!app_assoc.
Qed.

Lemma trim_between a l b : word_char a -> Forall ascii l -> word_char b -> trim (a :: l ++ [b]) = a :: l ++ [b].
Proof.
  intros Ha Hl Hb. unfold trim. rewrite trim_start_word by done. change (a :: l ++ [b]) with ((a :: l) ++ [b]).
  rewrite trim_end_ascii; [done| |done]. constructor; [unfold ascii, word_char in *; lia|done].
Qed.

Lemma strip_prefix_app p l : strip_prefix p (p ++ l) = Some l.
Proof. induction p as [|b p IH]; [done|]. cbn. by rewrite Z.eqb_refl. Qed.

Lemma parse_i32_fmt dc : in_i32 dc -> parse_i32 (fmt_int dc) = Some dc.
Proof. intros H. unfold in_i32 in H. apply parse_signed_fmt; lia. Qed.

Lemma word_ascii l : Forall word_char l -> Forall ascii l.
Proof. intros H. eapply Forall_impl; [exact H|]. unfold word_char, ascii. cbn. lia. Qed.

Lemma parse_proxy_line_fmt dc a : in_i32 dc -> addr_ok a -> parse_proxy_line (proxy_line dc a) = Some (dc, sa_ip a, sa_port a).
Proof.
  intros Hdc Ha. destruct (fmt_int_words dc Hdc) as [Hdw Hdn]. destruct (fmt_socket_addr_words a Ha) as [Haw Han].
  set (ds := fmt_int dc) in *. set (at_ := fmt_socket_addr a) in *. unfold parse_proxy_line, proxy_line. fold ds at_.
  assert (word_char 59) as W59 by (unfold word_char; lia).
  assert (Forall ascii (str "roxy_for " ++ ds ++ [32] ++ at_)) as Hasc.
  { repeat (apply Forall_app; split); try (by apply word_ascii); repeat constructor; unfold ascii; lia. }
  assert (trim (str "proxy_for " ++ ds ++ [32] ++ at_ ++ [59]) = str "proxy_for " ++ ds ++ [32] ++ at_ ++ [59]) as ->.
  { pose proof (trim_between 112 (str "roxy_for " ++ ds ++ [32] ++ at_) 59 ltac:(unfold word_char; lia) Hasc W59) as E.
    rewrite <-!app_assoc in E. exact E. }
  change (str "proxy_for " ++ ds ++ [32] ++ at_ ++ [59]) with (str "proxy_for" ++ (32 :: ds ++ [32] ++ at_ ++ [59])).
  rewrite strip_prefix_app. unfold trim_start_matches.
  assert (trim_start_matches_loop (length (str "proxy_for" ++ (32 :: ds ++ [32] ++ at_ ++ [59]))) (str "proxy_for")
    (str "proxy_for" ++ (32 :: ds ++ [32] ++ at_ ++ [59])) = 32 :: ds ++ [32] ++ at_ ++ [59]) as -> by done.
  assert (trim (32 :: ds ++ [32] ++ at_ ++ [59]) = join 32 [ds; at_ ++ [59]]) as ->.
  { destruct ds as [|d ds]; [done|]. inversion Hdw; subst. unfold trim. cbn [trim_start_loop]. change (ws_len (32 :: _)) with 1%nat. cbv iota.
    change (trim_start_loop 0 ((d :: ds) ++ [32] ++ at_ ++ [59])) with (trim_start_loop 0 (d :: (ds ++ [32] ++ at_ ++ [59]))).
    rewrite trim_start_word by done. pose proof (trim_end_ascii (d :: ds ++ [32] ++ at_) 59) as E. cbn [join app] in *.
    rewrite <-!app_assoc in E. cbn [app] in E. rewrite E; [done| |done]. constructor; [by unfold ascii, word_char in *; lia|].
    apply Forall_app. split; [by apply word_ascii|]. constructor; [unfold ascii; lia|]. by apply word_ascii. }
  rewrite split_whitespace_words.
  2:{ repeat constructor; try done; [by destruct at_|]. apply Forall_app. by repeat constructor. }
  destruct (fmt_socket_addr_last a Ha) as (l & b & El & Hb). fold at_ in El. rewrite El, trim_end_semicolon, <-El by done.
  unfold ds. rewrite parse_i32_fmt by done. cbn [mbind option_bind]. unfold at_. by rewrite parse_host_port_fmt.
Qed.

Lemma lines_from_line l rest : Forall (fun b => b <> 10) l -> forall cur, lines_from cur (l ++ 10 :: rest) = strip_cr (cur ++ l) :: lines_from [] rest.
Proof.
  induction 1 as [|b l Hb _ IH]; intros cur; cbn [app lines_from].
  - change (10 =? 10) with true. by rewrite app_nil_r.
  - destruct (Z.eqb_spec b 10); [done|]. rewrite IH. by rewrite <-app_assoc.
Qed.

Definition entry_ok (e : Z * SocketAddr) : Prop := in_i32 e.1 /\ addr_ok e.2.

Lemma proxy_line_no_lf dc a : entry_ok (dc, a) -> Forall (fun b => b <> 10) (proxy_line dc a).
Proof.
  intros [Hdc Ha]. cbn [fst snd] in *. destruct (fmt_int_words dc Hdc) as [Hd _]. destruct (fmt_socket_addr_words a Ha) as [Hs _]. unfold proxy_line.
  assert (forall l, Forall word_char l -> Forall (fun b => b <> 10) l) as Hw.
  { intros l Hl. eapply Forall_impl; [exact Hl|]. unfold word_char. cbn. lia. }
  apply Forall_app. split; [by repeat constructor|]. apply Forall_app. split; [by apply Hw|]. apply Forall_app. split; [by repeat constructor|].
  apply Forall_app. split; [by apply Hw|by repeat constructor].
Qed.

Lemma lines_proxy_text entries : Forall entry_ok entries -> lines (proxy_text entries) = (fun e => proxy_line e.1 e.2) <$> entries.
Proof.
  unfold lines. induction 1 as [|[dc a] entries He _ IH]; [done|]. cbn [proxy_text mbind list_bind fmap list_fmap fst snd].
  fold (proxy_text entries). rewrite <-app_assoc. cbn [app]. rewrite lines_from_line by (by apply proxy_line_no_lf).
  rewrite app_nil_l. f_equal; [|exact IH]. unfold strip_cr, proxy_line. rewrite !app_assoc, reverse_snoc. done.
Qed.

Lemma parsed_lines entries : Forall entry_ok entries -> forall m n, 0 <= n -> n + zlen entries < 2 ^ 32 ->
  foldl add_proxy_line (m, n) ((fun e => proxy_line e.1 e.2) <$> entries) =
  (foldl (fun m e => <[e.1 := default [] (m !! e.1) ++ [(sa_ip e.2, sa_port e.2)]]> m) m entries, n + zlen entries).
Proof.
  induction 1 as [|[dc a] entries [Hdc Ha] _ IH]; intros m n Hn Hl; cbn [fmap list_fmap foldl fst snd] in *; [by rewrite zlen_nil, Z.add_0_r|].
  unfold add_proxy_line at 2. rewrite parse_proxy_line_fmt by done. cbn [fst snd]. rewrite zlen_cons in *. pose proof (zlen_nonneg entries).
  rewrite Z.min_l by lia. rewrite IH by lia. f_equal. lia.
Qed.

Lemma pushed_entries entries : forall (m : ProxyMap) dc,
  default [] (foldl (fun m e => <[e.1 := default [] (m !! e.1) ++ [(sa_ip e.2, sa_port e.2)]]> m) m entries !! dc) =
  default [] (m !! dc) ++ omap (fun e => if decide (e.1 = dc) then Some (sa_ip e.2, sa_port e.2) else None) entries.
Proof.
  induction entries as [|[dc' a] entries IH]; intros m dc; cbn [foldl fst snd]; [by rewrite app_nil_r|]. rewrite IH. cbn [omap list_omap fst snd].
  destruct (decide (dc' = dc)) as [->|Hn].
  - rewrite lookup_insert_eq. cbn. by rewrite <-app_assoc.
  - by rewrite lookup_insert_ne.
Qed.

(** A list of middle proxies is read as it is written: for a text with one [proxy_for] line for each endpoint (any data
    centre, IPv4 or bracketed IPv6), every data centre gets exactly its endpoints, in the order of the lines, and the number
    of lines the guard compares is the number of endpoints. *)
Theorem proxy_list_roundtrip status entries :
  Forall entry_ok entries -> zlen entries < 2 ^ 32 ->
  let cfg := parse_proxy_config status (proxy_text entries) in
  (forall dc, default [] (pcd_map cfg !! dc) = omap (fun e => if decide (e.1 = dc) then Some (sa_ip e.2, sa_port e.2) else None) entries) /\
  proxy_for_lines cfg = zlen entries /\ http_status cfg = status.
Proof.
  intros He Hl. unfold parse_proxy_config. rewrite lines_proxy_text by done. rewrite parsed_lines by (done || lia). cbv zeta. cbn [pcd_map proxy_for_lines http_status].
  split_and!; [|lia|done]. intros dc. by rewrite pushed_entries, lookup_empty.
Qed.

(** ** Equal lists have equal hashes

    Neither the order of a centre's endpoints nor that in which a hash map holds the centres matters. *)
Theorem hash_order_free cfg cfg' :
  pcd_default_dc cfg = pcd_default_dc cfg' -> dom (pcd_map cfg) = dom (pcd_map cfg') ->
  (forall dc, default [] (pcd_map cfg !! dc) ≡ₚ default [] (pcd_map cfg' !! dc)) ->
  proxy_config_items cfg = proxy_config_items cfg'.
Proof.
  intros Hd Hdom Hp. unfold proxy_config_items, sorted_entries. rewrite Hd. f_equal.
  assert (merge_sort Z.le (map_to_list (pcd_map cfg)).*1 = merge_sort Z.le (map_to_list (pcd_map cfg')).*1) as ->.
  { apply (StronglySorted_unique Z.le); [apply StronglySorted_merge_sort; apply _..|]. rewrite !merge_sort_Permutation.
    apply NoDup_Permutation; [apply NoDup_fst_map_to_list..|]. intros dc. 
    assert (forall m : ProxyMap, dc ∈ (map_to_list m).*1 <-> dc ∈ dom m) as Hk.
    { intros m. rewrite elem_of_dom, list_elem_of_fmap. split.
      - intros ([k x] & -> & Hx). apply elem_of_map_to_list in Hx. by exists x.
      - intros [x Hx]. exists (dc, x). split; [done|]. by apply elem_of_map_to_list. }
    by rewrite !Hk, Hdom. }
  generalize (merge_sort Z.le (map_to_list (pcd_map cfg')).*1) as keys. induction keys as [|dc keys IH]; [done|].
  cbn [fmap list_fmap mbind list_bind]. rewrite IH. do 3 f_equal. apply sorted_canonical. unfold to_addrs. by rewrite (Hp dc).
Qed.

(** ** Stability *)

(** How often the last observation has been made in a row. *)
Fixpoint run_length (h : Z) (l : list Z) : Z :=
  match l with x :: l => if decide (x = h) then 1 + run_length h l else 0 | [] => 0 end.
Definition trailing_run (obs : list Z) : Z := match reverse obs with h :: _ => run_length h (reverse obs) | [] => 0 end.

Definition observed (obs : list Z) (s : StableSnapshot) : Prop :=
  candidate_hash s = last obs /\ candidate_hits s = Z.min 255 (trailing_run obs).

Lemma run_length_nonneg h l : 0 <= run_length h l.
Proof. induction l as [|x l IH]; cbn; [lia|]. destruct (decide (x = h)); lia. Qed.

Lemma observe_observed obs s h : observed obs s -> observed (obs ++ [h]) (ss_observe s h).
Proof.
  intros [Hc Hh]. unfold observed, ss_observe, trailing_run in *. rewrite last_snoc, reverse_snoc. cbn [run_length]. destruct (decide (h = h)) as [_|]; [|done].
  rewrite Hc. destruct (decide (last obs = Some h)) as [E|E]; cbn [candidate_hash candidate_hits].
  - apply last_Some in E as [obs' ->]. rewrite last_snoc. split; [done|]. rewrite Hh, reverse_snoc. cbv beta iota. pose proof (run_length_nonneg h (h :: reverse obs')). lia.
  - split; [done|]. destruct (reverse obs) as [|x l] eqn:Er; [done|]. cbn [run_length].
    rewrite decide_False; [done|]. intros ->. apply E. rewrite <-(reverse_involutive obs), Er, reverse_cons. by rewrite last_snoc.
Qed.

Lemma run_length_split h l : exists l', l = replicate (Z.to_nat (run_length h l)) h ++ l'.
Proof.
  induction l as [|x l IH]; cbn [run_length]; [by exists []|]. destruct (decide (x = h)) as [->|]; [|by eexists].
  destruct IH as [l' IH]. exists l'. pose proof (run_length_nonneg h l). rewrite Z2Nat.inj_add by lia. change (Z.to_nat 1) with 1%nat.
  cbn [replicate Nat.add app]. by f_equal.
Qed.

(** [stable n h obs]: the last [n] observations are all [h]. *)
Definition stable (n h : Z) (obs : list Z) : Prop := exists pre, obs = pre ++ replicate (Z.to_nat n) h.

Lemma run_length_replicate h n l : Z.of_nat n <= run_length h (replicate n h ++ l).
Proof. induction n as [|n IH]; [apply run_length_nonneg|]. cbn [replicate app run_length]. rewrite decide_True by done. lia. Qed.

(** The last observations are all the same when the run of the last one is long enough, and not otherwise. *)
Lemma stable_run n h obs : 0 <= n -> stable n h (obs ++ [h]) <-> n <= trailing_run (obs ++ [h]).
Proof.
  intros Hn. unfold trailing_run. rewrite reverse_snoc. split.
  - intros [pre E]. apply (f_equal reverse) in E. rewrite reverse_snoc, reverse_app, reverse_replicate in E. rewrite E.
    pose proof (run_length_replicate h (Z.to_nat n) (reverse pre)). lia.
  - intros Hr. destruct (run_length_split h (h :: reverse obs)) as [l' El]. set (k := run_length h (h :: reverse obs)) in *.
    apply (f_equal reverse) in El. rewrite reverse_cons, reverse_involutive, reverse_app, reverse_replicate in El. rewrite El.
    exists (reverse l' ++ replicate (Z.to_nat (k - n)) h). rewrite <-app_assoc, <-replicate_add. do 2 f_equal. lia.
Qed.

Lemma gate_stable obs s h required ready s' :
  0 <= required <= 255 -> observed obs s -> stable_gate s h required = (ready, s') ->
  observed (obs ++ [h]) s' /\ applied_hash s' = applied_hash s /\
  (ready = true <-> stable required h (obs ++ [h]) /\ applied_hash s <> Some h).
Proof.
  intros Hreq Ho [= <- <-]. pose proof (observe_observed obs s h Ho) as Ho'. split; [done|].
  assert (applied_hash (ss_observe s h) = applied_hash s) as Ha by (unfold ss_observe; by destruct (decide _)).
  split; [done|]. destruct Ho' as [_ Hh]. rewrite Hh, stable_run, andb_true_iff, !negb_true_iff, Z.ltb_ge by lia.
  unfold is_applied. rewrite bool_decide_eq_false, Ha. split; (intros []; split; [lia|done]).
Qed.

(** *** What a cycle observes *)

Section Stability.
Context (finish : list HashItem -> Z).

Definition config_seen (answers : CycleEnv -> nat -> HttpAnswer) (c : CycleEnv * GeneralConfig) : option Z :=
  snapshot ← retry_fetch (answers c.1);
  if snapshot_passes_guards c.2 snapshot then Some (hash_proxy_config finish snapshot) else None.

Definition secret_seen (c : CycleEnv * GeneralConfig) : option Z :=
  if proxy_secret_rotate_runtime c.2 then
    match download_proxy_secret_with_max_len (ce_secret c.1) (proxy_secret_len_max c.2) with Ok s => Some (hash_secret finish s) | Err _ => None end
  else None.

Definition small_counts (cfg : GeneralConfig) : Prop := me_config_stable_snapshots cfg <= 255 /\ proxy_secret_stable_snapshots cfg <= 255.

Definition added (obs : list Z) (o : option Z) : list Z := match o with Some h => obs ++ [h] | None => obs end.

(** What was answered to this cycle passed the guards, was seen as often in a row as the configuration asks, and is not
    what is in force.  [obs]: everything observed, this cycle included. *)
Definition agreed (answers : CycleEnv -> nat -> HttpAnswer) (e : CycleEnv) (cfg : GeneralConfig) (applied : option Z) (obs : list Z)
    (snapshot : ProxyConfigData) : Prop :=
  retry_fetch (answers e) = Some snapshot /\ snapshot_passes_guards cfg snapshot = true /\
  stable (Z.max (me_config_stable_snapshots cfg) 1) (hash_proxy_config finish snapshot) obs /\
  applied <> Some (hash_proxy_config finish snapshot).

Definition agreed_secret (e : CycleEnv) (cfg : GeneralConfig) (applied : option Z) (obs : list Z) (secret : bytes) : Prop :=
  proxy_secret_rotate_runtime cfg = true /\ download_proxy_secret_with_max_len (ce_secret e) (proxy_secret_len_max cfg) = Ok secret /\
  32 <= zlen secret <= proxy_secret_len_max cfg /\
  stable (Z.max (proxy_secret_stable_snapshots cfg) 1) (hash_secret finish secret) obs /\ applied <> Some (hash_secret finish secret).

(** The answer [P] singles out, or none when there is no such answer. *)
Definition the_one {A} (P : A -> Prop) (r : option A) : Prop := match r with Some a => P a | None => forall a, ~ P a end.

Lemma config_gate_spec obs s answers e cfg ready s' :
  small_counts cfg -> observed obs s -> config_gate finish cfg s (retry_fetch (answers e)) = (ready, s') ->
  observed (added obs (config_seen answers (e, cfg))) s' /\
  the_one (agreed answers e cfg (applied_hash s) (added obs (config_seen answers (e, cfg)))) (fst <$> ready).
Proof.
  intros [Hc _] Ho. unfold config_gate, config_seen, agreed. cbn [fst snd]. destruct (retry_fetch (answers e)) as [snapshot|]; cbn [mbind option_bind].
  2:{ intros [= <- <-]. split; [done|]. by intros sn [? _]. }
  destruct (snapshot_passes_guards cfg snapshot) eqn:Eg.
  2:{ intros [= <- <-]. split; [done|]. intros sn ([= <-] & Hg & _). congruence. }
  cbv zeta. destruct (stable_gate s (hash_proxy_config finish snapshot) (Z.max (me_config_stable_snapshots cfg) 1)) as [r s1] eqn:E. intros [= <- <-].
  destruct (gate_stable obs s _ (Z.max (me_config_stable_snapshots cfg) 1) _ _ ltac:(lia) Ho E) as (Ho' & Ha & Hr). cbn [added]. split; [done|]. destruct r; cbn.
  - destruct Hr as [Hr _]. by destruct (Hr eq_refl).
  - intros sn ([= <-] & _ & Hst). by destruct Hr as [_ Hr]; specialize (Hr Hst).
Qed.

Lemma mark_ready_observed obs s ready : observed obs s -> observed obs (mark_ready s ready).
Proof. by destruct ready as [[]|]. Qed.

(** The endpoints of a data centre in a list that gives those of [-dc] for a negative centre it does not name. *)
Definition endpoints_in (m : ProxyMap) (dc : Z) : option (list (IpAddr * Z)) :=
  match m !! dc with Some a => Some a | None => if dc <? 0 then m !! (- dc) else None end.

(** What is in force of a family after its list took effect, or did not. *)
Definition in_force (effect : bool) (before : option Z) (ready : option ProxyConfigData) : option Z :=
  match ready with Some snapshot => if effect then Some (hash_proxy_config finish snapshot) else before | None => before end.

Lemma config_gate_in_force cfg s fetched ready s' :
  config_gate finish cfg s fetched = (ready, s') ->
  applied_hash s' = applied_hash s /\
  forall effect, applied_hash (if effect : bool then mark_ready s' ready else s') = in_force effect (applied_hash s) (fst <$> ready).
Proof.
  intros E. assert (applied_hash s' = applied_hash s /\ (forall sn h, ready = Some (sn, h) -> h = hash_proxy_config finish sn)) as [Ha Hh].
  { unfold config_gate in E. destruct fetched as [sn|]; [|by injection E as <- <-]. destruct (snapshot_passes_guards cfg sn); [|by injection E as <- <-].
    cbv zeta in E. unfold stable_gate, ss_observe in E. destruct (_ && _); injection E as <- <-.
    - split; [by destruct (decide _)|]. by intros ? ? [= <- <-].
    - split; [by destruct (decide _)|done]. }
  split; [done|]. intros []; destruct ready as [[sn h]|]; try done. cbn. by rewrite (Hh sn h eq_refl).
Qed.

Definition map_of (ready : option ProxyConfigData) : ProxyMap := from_option pcd_map ∅ ready.
Definition no_endpoints (ready4 ready6 : option ProxyConfigData) : bool := bool_decide (map_of ready4 = ∅) && bool_decide (map_of ready6 = ∅).

(** Whether the accepted lists take effect: one was accepted, the cooldown is over, and an empty one is not refused. *)
Definition takes_effect (cfg : GeneralConfig) (cooled : bool) (ready4 ready6 : option ProxyConfigData) : bool :=
  cooled && negb (bool_decide (ready4 = None /\ ready6 = None)) && negb (no_endpoints ready4 ready6 && me_snapshot_reject_empty_map cfg).

(** The maps afterwards: each family has the list accepted for it, or keeps its own when none or an empty one was, and
    the default data centre is the one the IPv4 list names. *)
Definition installed (cfg : GeneralConfig) (cooled : bool) (ready4 ready6 : option ProxyConfigData) (p p' : MePool) : Prop :=
  if takes_effect cfg cooled ready4 ready6 then
    default_dc (mp_maps p') = default (default_dc (mp_maps p)) (ready4 ≫= pcd_default_dc) /\
    forall family dc,
      let given := map_of (match family with FamV4 => ready4 | FamV6 => ready6 end) in
      proxy_map_for_family p' family !! dc =
        if no_endpoints ready4 ready6 then proxy_map_for_family p family !! dc
        else endpoints_in (if decide (given = ∅) then proxy_map_for_family p family else given) dc
  else mp_maps p' = mp_maps p.

Lemma store_default_maps p dc :
  mp_secret (store_default_dc p dc) = mp_secret p /\ default_dc (mp_maps (store_default_dc p dc)) = default (default_dc (mp_maps p)) dc /\
  (forall family, proxy_map_for_family (store_default_dc p dc) family = proxy_map_for_family p family).
Proof. by destruct dc; split_and!; try done; intros []. Qed.

Lemma update_maps_entries p new4 new6 r p' :
  update_proxy_maps p new4 new6 = (r, p') ->
  mp_secret p' = mp_secret p /\ default_dc (mp_maps p') = default_dc (mp_maps p) /\
  (new4 = ∅ /\ default ∅ new6 = ∅ /\ r = RejectedEmpty /\ p' = p \/
   (new4 <> ∅ \/ default ∅ new6 <> ∅) /\ r <> RejectedEmpty /\
   forall family dc, proxy_map_for_family p' family !! dc =
     let given := match family with FamV4 => new4 | FamV6 => default ∅ new6 end in
     endpoints_in (if decide (given = ∅) then proxy_map_for_family p family else given) dc).
Proof.
  intros E. pose proof (update_proxy_maps_exact p new4 new6) as H. rewrite E in H. destruct H as [H1 H2].
  assert (mp_secret p' = mp_secret p /\ default_dc (mp_maps p') = default_dc (mp_maps p)) as [-> ->].
  { unfold update_proxy_maps in E. destruct (_ && _); by injection E as _ <-. }
  split_and!; [done..|]. destruct (decide (new4 = ∅)) as [H4|H4], (decide (default ∅ new6 = ∅)) as [H6|H6].
  - left. by destruct (H1 H4 H6).
  - right. destruct (H2 (or_intror H6)). by split_and!; [right|..].
  - right. destruct (H2 (or_introl H4)). by split_and!; [left|..].
  - right. destruct (H2 (or_introl H4)). by split_and!; [left|..].
Qed.

Lemma apply_stable_quiet e cfg s p r4 r6 changed s' p' :
  (forall n q, ce_others e n q = q) -> r4 <> None \/ r6 <> None -> apply_stable e cfg s p r4 r6 = (changed, s', p') ->
  let cooled := map_apply_cooldown_ready (ce_now e) (last_map_apply_at s) (me_config_apply_cooldown_secs cfg) in
  mp_secret p' = mp_secret p /\ installed cfg cooled (fst <$> r4) (fst <$> r6) p p' /\
  s' = if takes_effect cfg cooled (fst <$> r4) (fst <$> r6)
       then mkUpdater (mark_ready (config_v4 s) r4) (mark_ready (config_v6 s) r6) (up_secret s) (Some (ce_now_applied e)) else s.
Proof.
  intros Hq Hne. unfold apply_stable, installed. cbv zeta. destruct (map_apply_cooldown_ready _ _ _); [|by intros [= <- <- <-]].
  assert (takes_effect cfg true (fst <$> r4) (fst <$> r6) = negb (no_endpoints (fst <$> r4) (fst <$> r6) && me_snapshot_reject_empty_map cfg)) as ->.
  { unfold takes_effect. rewrite bool_decide_eq_false_2; [done|]. rewrite !fmap_None. tauto. }
  assert (from_option (fun r => pcd_map r.1) ∅ r4 = map_of (fst <$> r4)) as -> by by destruct r4.
  assert (forall q, from_option (fun r => store_default_dc q (pcd_default_dc r.1)) q r4 = store_default_dc q ((fst <$> r4) ≫= pcd_default_dc)) as Hdc by by destruct r4.
  assert (match (fun r : ProxyConfigData * Z => pcd_map r.1) <$> r6 with None => true | Some v => bool_decide (v = ∅) end = bool_decide (map_of (fst <$> r6) = ∅)) as -> by by destruct r6.
  assert (default ∅ ((fun r : ProxyConfigData * Z => pcd_map r.1) <$> r6) = map_of (fst <$> r6)) as H6 by by destruct r6.
  fold (no_endpoints (fst <$> r4) (fst <$> r6)). rewrite Hq.
  destruct (no_endpoints (fst <$> r4) (fst <$> r6) && negb (me_snapshot_reject_empty_map cfg)) eqn:En.
  - apply andb_true_iff in En as [En Er]. rewrite En. destruct (me_snapshot_reject_empty_map cfg); [done|]. cbn [andb negb].
    intros [= <- <- <-]. destruct r4 as [[sn h]|]; [|by split_and!].
    destruct (store_default_maps p (pcd_default_dc sn)) as (-> & Hd & Hm). split_and!; [done|exact Hd| |done]. intros family dc. by rewrite Hm.
  - destruct (update_proxy_maps p _ _) as [r p1] eqn:E. destruct (update_maps_entries _ _ _ _ _ E) as (Hs & Hd & Hcase). rewrite H6 in Hcase.
    destruct Hcase as [(E4 & E6 & -> & ->)|(Hn & Hr & Hm)].
    + assert (no_endpoints (fst <$> r4) (fst <$> r6) = true) as Hno by (unfold no_endpoints; by rewrite E4, E6, !bool_decide_eq_true_2). rewrite Hno in *.
      destruct (me_snapshot_reject_empty_map cfg); [|done]. cbn [andb negb]. by intros [= <- <- <-].
    + assert (no_endpoints (fst <$> r4) (fst <$> r6) = false) as Hno.
      { unfold no_endpoints. apply andb_false_iff. rewrite !bool_decide_eq_false. tauto. } rewrite Hno. cbn [andb negb].
      intros E'. assert (s' = mkUpdater (mark_ready (config_v4 s) r4) (mark_ready (config_v6 s) r6) (up_secret s) (Some (ce_now_applied e)) /\
        p' = store_default_dc p1 ((fst <$> r4) ≫= pcd_default_dc)) as [-> ->] by (rewrite <-Hdc; destruct r; [| |done]; injection E' as <- <- <-; by destruct r4 as [[]|]).
      destruct (store_default_maps p1 ((fst <$> r4) ≫= pcd_default_dc)) as (Hs' & Hd' & Hm'). rewrite Hs', Hd', Hs, Hd. split_and!; [done..| |done].
      intros family dc. rewrite Hm', Hm. by destruct family.
Qed.

Lemma apply_ready_spec e cfg s p r4 r6 changed s' p' :
  apply_ready e cfg s p r4 r6 = (changed, s', p') ->
  (forall obs, observed obs (config_v4 s) -> observed obs (config_v4 s')) /\ (forall obs, observed obs (config_v6 s) -> observed obs (config_v6 s')) /\
  up_secret s' = up_secret s /\
  ((forall n q, ce_others e n q = q) ->
     let cooled := map_apply_cooldown_ready (ce_now e) (last_map_apply_at s) (me_config_apply_cooldown_secs cfg) in
     mp_secret p' = mp_secret p /\ installed cfg cooled (fst <$> r4) (fst <$> r6) p p' /\
     s' = if takes_effect cfg cooled (fst <$> r4) (fst <$> r6)
          then mkUpdater (mark_ready (config_v4 s) r4) (mark_ready (config_v6 s) r6) (up_secret s) (Some (ce_now_applied e)) else s).
Proof.
  unfold apply_ready. destruct (decide (r4 = None /\ r6 = None)) as [[-> ->]|Hb].
  { intros [= <- <- <-]. unfold installed, takes_effect. cbn. rewrite andb_false_r. by split_and!. }
  assert (r4 <> None \/ r6 <> None) as Hne by (destruct r4; [by left|destruct r6; [by right|tauto]]).
  intros E. assert (apply_stable e cfg s p r4 r6 = (changed, s', p')) as E' by (destruct r4, r6; [exact E..|tauto]). clear E.
  assert ((forall obs, observed obs (config_v4 s) -> observed obs (config_v4 s')) /\ (forall obs, observed obs (config_v6 s) -> observed obs (config_v6 s')) /\
    up_secret s' = up_secret s) as (? & ? & ?).
  { unfold apply_stable in E'. cbv zeta in E'. destruct (map_apply_cooldown_ready _ _ _); [|injection E' as <- <- <-; by split_and!].
    match type of E' with (let '(_, _) := ?X in _) = _ => destruct X as [outcome p1] end.
    destruct outcome; injection E' as <- <- <-; split_and!; try (intros; by apply mark_ready_observed); done. }
  split_and!; [done..|]. intros Hq. by apply (apply_stable_quiet _ _ _ _ _ _ changed).
Qed.

Lemma reconnect_keeps env ws : forall n p, mp_secret (reconnect_writers env n p ws) = mp_secret p /\ mp_maps (reconnect_writers env n p ws) = mp_maps p.
Proof.
  induction ws as [|w ws IH]; intros n p; [done|]. cbn [reconnect_writers]. destruct (connect_one (env n) p (mw_addr w)) as [r p1] eqn:E.
  destruct (IH (S n) (match r with Ok _ => mark_writer_draining (env n) p1 (mw_id w) | Err _ => p1 end)) as [-> ->].
  assert (mp_secret p1 = mp_secret p /\ mp_maps p1 = mp_maps p) as [E1 E2].
  { unfold connect_one, connect_one_with_generation_contour in E. destruct (_ <? 32); [by injection E as _ <-|]. destruct (pe_connect _ _); by injection E as _ <-. }
  destruct r; [|done]. unfold mark_writer_draining, mark_writer_draining_with_timeout. destruct (find_writer _ _); [|done]. cbv zeta. by destruct (ws_draining _).
Qed.

Lemma download_ok answer max_len secret : download_proxy_secret_with_max_len answer max_len = Ok secret -> 32 <= zlen secret <= max_len.
Proof.
  unfold download_proxy_secret_with_max_len. destruct answer as [|status [data|]]; [done| |by destruct (negb _)]. destruct (negb _); [done|].
  unfold validate_proxy_secret_len, PROXY_SECRET_MIN_LEN. destruct (Z.ltb_spec max_len 32); [done|]. destruct (Z.ltb_spec (zlen data) 32); [done|].
  destruct (Z.ltb_spec max_len (zlen data)); [done|]. intros [= <-]. lia.
Qed.

Lemma pool_update_secret_spec env p secret rot p' :
  32 <= zlen secret -> pool_update_secret env p secret = (rot, p') ->
  mp_maps p' = mp_maps p /\ ss_secret (mp_secret p') = secret.
Proof.
  intros Hl. unfold pool_update_secret, update_secret. destruct (Z.ltb_spec (zlen secret) 32); [lia|].
  destruct (negb _) eqn:E; [|intros [= _ <-]; split; [done|]; by apply negb_false_iff, bool_decide_eq_true in E]. intros [= _ <-].
  match goal with |- context [reconnect_all ?a ?b] => destruct (reconnect_keeps a (mp_writers b) 0 b) as [E1 E2]; fold (reconnect_all a b) in E1, E2 end.
  by rewrite E1, E2.
Qed.

Lemma update_secret_spec obs e cfg s p s' p' :
  small_counts cfg -> observed obs (up_secret s) -> update_proxy_secret finish e cfg s p = (s', p') ->
  let obs' := added obs (secret_seen (e, cfg)) in
  observed obs' (up_secret s') /\ config_v4 s' = config_v4 s /\ config_v6 s' = config_v6 s /\
  last_map_apply_at s' = last_map_apply_at s /\
  ((forall n q, ce_others e n q = q) -> mp_maps p' = mp_maps p /\
   exists fresh, the_one (agreed_secret e cfg (applied_hash (up_secret s)) obs') fresh /\
     match fresh with Some secret => ss_secret (mp_secret p') = secret | None => mp_secret p' = mp_secret p end).
Proof.
  intros [_ Hc] Ho. unfold update_proxy_secret, secret_seen, agreed_secret. cbn [fst snd]. destruct (proxy_secret_rotate_runtime cfg).
  2:{ intros [= <- <-]. split_and!; try done. intros _. split; [done|]. exists None. split; [|done]. by intros ? [? _]. }
  cbv zeta. destruct (download_proxy_secret_with_max_len (ce_secret e) (proxy_secret_len_max cfg)) as [secret|err] eqn:Ed.
  2:{ intros [= <- <-]. split_and!; try done. intros Hq. rewrite Hq. split; [done|]. exists None. split; [|done]. by intros ? (_ & ? & _). }
  destruct (stable_gate (up_secret s) (hash_secret finish secret) (Z.max (proxy_secret_stable_snapshots cfg) 1)) as [ready s1] eqn:E.
  destruct (gate_stable obs (up_secret s) _ (Z.max (proxy_secret_stable_snapshots cfg) 1) _ _ ltac:(lia) Ho E) as (Ho' & Ha & Hr). cbn [added].
  pose proof (download_ok _ _ _ Ed) as Hl. destruct ready.
  - destruct (pool_update_secret (ce_pool e) (ce_others e 3 p) secret) as [rot p1] eqn:Eu. intros [= <- <-]. split_and!; try done.
    intros Hq. rewrite Hq in Eu. destruct (pool_update_secret_spec _ _ _ _ _ (proj1 Hl) Eu) as [-> Hs]. split; [done|].
    exists (Some secret). split; [|done]. destruct Hr as [Hr _]. destruct (Hr eq_refl). cbn [the_one]. split_and!; done || lia.
  - intros [= <- <-]. split_and!; try done. intros Hq. rewrite Hq. split; [done|]. exists None. split; [|done].
    intros secret' (_ & [= <-] & _ & Hst). by destruct Hr as [_ Hr]; specialize (Hr Hst).
Qed.

Lemma reinit_policy_keeps p policy :
  mp_maps (update_runtime_reinit_policy p policy) = mp_maps p /\ mp_secret (update_runtime_reinit_policy p policy) = mp_secret p.
Proof. unfold update_runtime_reinit_policy. cbv zeta. destruct (bool_decide _); [done|]. by repeat case_match. Qed.

Lemma installed_maps cfg cooled r4 r6 p q p' q' :
  mp_maps q = mp_maps p -> mp_maps q' = mp_maps p' -> installed cfg cooled r4 r6 q p' -> installed cfg cooled r4 r6 p q'.
Proof.
  intros E E'. unfold installed. assert (forall family, proxy_map_for_family q family = proxy_map_for_family p family /\
    proxy_map_for_family q' family = proxy_map_for_family p' family) as Hf by (intros []; cbn; by rewrite E, E').
  destruct (takes_effect _ _ _ _); rewrite E, E'; [|done]. intros [Hd Hm]. split; [done|]. intros family dc.
  destruct (Hf family) as [Hp ->]. rewrite <-Hp. apply Hm.
Qed.

(** *** Histories of cycles *)

Definition seen_all (o : CycleEnv * GeneralConfig -> option Z) (cs : list (CycleEnv * GeneralConfig)) : list Z := omap o cs.

Lemma seen_snoc o cs c : seen_all o (cs ++ [c]) = added (seen_all o cs) (o c).
Proof. unfold seen_all. rewrite omap_app. cbn. destruct (o c); [done|]. by rewrite app_nil_r. Qed.

Definition run_cycles : UpdaterWorld -> list (CycleEnv * GeneralConfig) -> UpdaterWorld := foldl (fun w c => run_update_cycle finish c.1 c.2 w).

Definition history (cs : list (CycleEnv * GeneralConfig)) (s : UpdaterState) : Prop :=
  observed (seen_all (config_seen ce_v4) cs) (config_v4 s) /\ observed (seen_all (config_seen ce_v6) cs) (config_v6 s) /\
  observed (seen_all secret_seen cs) (up_secret s).

Lemma cycle_history cs e cfg w : small_counts cfg -> history cs (uw_state w) -> history (cs ++ [(e, cfg)]) (uw_state (run_update_cycle finish e cfg w)).
Proof.
  intros Hc (H4 & H6 & Hs). unfold run_update_cycle. cbv zeta. unfold history. rewrite !seen_snoc.
  destruct (config_gate finish cfg (config_v4 (uw_state w)) _) as [r4 v4] eqn:E4. destruct (config_gate finish cfg (config_v6 (uw_state w)) _) as [r6 v6] eqn:E6.
  apply (config_gate_spec _ _ ce_v4 e _ _ _ Hc H4) in E4 as [H4' _]. apply (config_gate_spec _ _ ce_v6 e _ _ _ Hc H6) in E6 as [H6' _].
  match goal with |- context [apply_ready ?a ?b ?c ?d ?x ?y] => destruct (apply_ready a b c d x y) as [[ch s1] p1] eqn:Ea end.
  destruct (apply_ready_spec _ _ _ _ _ _ _ _ _ Ea) as (Ha4 & Ha6 & Has & _). cbn [config_v4 config_v6 up_secret] in *.
  destruct (update_proxy_secret finish e cfg s1 p1) as [s2 p2] eqn:Eu. cbn [uw_state]. rewrite <-Has in Hs.
  destruct (update_secret_spec _ _ _ _ _ _ _ Hc Hs Eu) as (Hu & -> & -> & _). auto.
Qed.

Lemma run_history w0 cs : uw_state w0 = UpdaterState_default -> Forall (fun c => small_counts c.2) cs -> history cs (uw_state (run_cycles w0 cs)).
Proof.
  intros H0. induction cs as [|[e cfg] cs IH] using rev_ind; intros Hc; [cbn; rewrite H0; by repeat split|].
  apply Forall_app in Hc as [Hc [Hs _]%Forall_cons]. unfold run_cycles. rewrite foldl_app. cbn [foldl fst snd]. apply cycle_history; [done|]. by apply IH.
Qed.

End Stability.

(** ** The properties *)

(** C30: what Telegram serves takes effect when it is stable, as it was served, and not before.  After any history of
    cycles from the start, whatever was served and whatever other tasks did, consider a cycle during which no other task
    touches the pool.  For each family, a list is agreed on if it is the one served now, passed the guards, has been seen
    as often in a row as the configuration asks, and is not in force.  If one is agreed on, the cooldown since the last
    change is over, and it is not the case that no agreed list names an endpoint and empty lists are refused, then the
    endpoints of every data centre become those of the list agreed on for their family (a negative centre without an entry
    having those of its positive counterpart) - a family for which none, or an empty one, is agreed on keeps its own - the
    default data centre becomes the one the IPv4 list names, the lists agreed on are in force, and the cooldown starts again;
    in every other case no map changes.  The secret, likewise, becomes the one downloaded now, of a length from 32 to the configured maximum, if it has
    been downloaded as often in a row as asked and is not in force, and stays otherwise. *)
Theorem updates_are_stable finish cs e cfg w0 :
  uw_state w0 = UpdaterState_default -> Forall (fun c => small_counts c.2) (cs ++ [(e, cfg)]) -> (forall n q, ce_others e n q = q) ->
  let w := run_cycles finish w0 cs in
  let w' := run_update_cycle finish e cfg w in
  let seen o := omap o (cs ++ [(e, cfg)]) in
  let cooled := map_apply_cooldown_ready (ce_now e) (last_map_apply_at (uw_state w)) (me_config_apply_cooldown_secs cfg) in
  exists list4 list6 secret,
    the_one (agreed finish ce_v4 e cfg (applied_hash (config_v4 (uw_state w))) (seen (config_seen finish ce_v4))) list4 /\
    the_one (agreed finish ce_v6 e cfg (applied_hash (config_v6 (uw_state w))) (seen (config_seen finish ce_v6))) list6 /\
    installed cfg cooled list4 list6 (uw_pool w) (uw_pool w') /\
    (let effect := takes_effect cfg cooled list4 list6 in
     last_map_apply_at (uw_state w') = (if effect then Some (ce_now_applied e) else last_map_apply_at (uw_state w)) /\
     applied_hash (config_v4 (uw_state w')) = in_force finish effect (applied_hash (config_v4 (uw_state w))) list4 /\
     applied_hash (config_v6 (uw_state w')) = in_force finish effect (applied_hash (config_v6 (uw_state w))) list6) /\
    the_one (agreed_secret finish e cfg (applied_hash (up_secret (uw_state w))) (seen (secret_seen finish))) secret /\
    match secret with
    | Some secret => ss_secret (mp_secret (uw_pool w')) = secret
    | None => mp_secret (uw_pool w') = mp_secret (uw_pool w)
    end.
Proof.
  intros Hw0 [Hcs [Hc _]%Forall_cons]%Forall_app Hq w w' seen cooled. cbn [snd] in Hc.
  destruct (run_history finish w0 cs Hw0 Hcs) as (H4 & H6 & Hs). fold w in H4, H6, Hs. unfold seen.
  change (omap ?o (cs ++ [(e, cfg)])) with (seen_all o (cs ++ [(e, cfg)])). rewrite !seen_snoc.
  unfold w', run_update_cycle. cbv zeta. rewrite !Hq.
  destruct (config_gate finish cfg (config_v4 (uw_state w)) _) as [r4 v4] eqn:E4. destruct (config_gate finish cfg (config_v6 (uw_state w)) _) as [r6 v6] eqn:E6.
  pose proof (config_gate_spec finish _ _ ce_v4 e _ _ _ Hc H4 E4) as [_ G4]. pose proof (config_gate_spec finish _ _ ce_v6 e _ _ _ Hc H6 E6) as [_ G6].
  match goal with |- context [apply_ready ?a ?b ?c ?d ?x ?y] => destruct (apply_ready a b c d x y) as [[ch s1] p1] eqn:Ea end.
  destruct (apply_ready_spec _ _ _ _ _ _ _ _ _ Ea) as (_ & _ & Has & Ha). destruct (Ha Hq) as (Hsec & Hmaps & Hat). cbn [up_secret last_map_apply_at config_v4 config_v6] in *.
  destruct (update_proxy_secret finish e cfg s1 p1) as [s2 p2] eqn:Eu. cbn [uw_pool uw_state]. rewrite <-Has in Hs.
  destruct (update_secret_spec finish _ _ _ _ _ _ _ Hc Hs Eu) as (_ & Hv4 & Hv6 & Hlast & Hu). destruct (Hu Hq) as (Hm2 & fresh & Hf & Hs2).
  exists (fst <$> r4), (fst <$> r6), fresh. rewrite Has in Hf. rewrite Hlast, Hv4, Hv6, Hat.
  destruct (config_gate_in_force finish _ _ _ _ _ E4) as [_ F4]. destruct (config_gate_in_force finish _ _ _ _ _ E6) as [_ F6].
  destruct (reinit_policy_keeps (uw_pool w) (runtime_policy cfg)) as [Em Es]. split_and!; try done.
  - apply (installed_maps cfg cooled _ _ _ _ _ _ Em Hm2 Hmaps).
  - by destruct (takes_effect _ _ _ _).
  - rewrite <-F4. by destruct (takes_effect _ _ _ _).
  - rewrite <-F6. by destruct (takes_effect _ _ _ _).
  - destruct fresh; [done|]. by rewrite Hs2, Hsec.
Qed.

(** The secret the proxy starts with has a valid length, wherever it comes from, and only a valid download is cached. *)
Theorem fetch_secret_valid answer file writable max_len r file' :
  fetch_proxy_secret answer file writable max_len = (r, file') ->
  (forall data, r = Ok data -> 32 <= zlen data <= max_len) /\
  (file' <> file -> exists data, r = Ok data /\ file' = Some data).
Proof.
  unfold fetch_proxy_secret. destruct (download_proxy_secret_with_max_len answer max_len) as [data|e] eqn:Ed.
  - intros [= <- <-]. apply download_ok in Ed. split; [by intros ? [= <-]|]. destruct writable; [by exists data|done].
  - intros [= <- <-]. split; [|done]. destruct file as [data|]; [|done]. unfold validate_proxy_secret_len, PROXY_SECRET_MIN_LEN.
    destruct (Z.ltb_spec max_len 32); [done|]. destruct (Z.ltb_spec (zlen data) 32); [done|]. destruct (Z.ltb_spec max_len (zlen data)); [done|].
    intros ? [= <-]. lia.
Qed.

(** The task waits for the interval of the configuration it last saw, and a shorter interval refreshes at once. *)
Theorem updater_interval finish t ev :
  update_every_secs t = interval_of (ut_config t) ->
  let t' := updater_step finish t ev in
  update_every_secs t' = interval_of (ut_config t') /\
  match ev with
  | UpdConfig cfg _ now => interval_of cfg < interval_of (ut_config t) -> next_tick t' = now + interval_of cfg * SECS
  | UpdTick _ now => next_tick t' = now + interval_of (ut_config t) * SECS
  end.
Proof.
  intros Hi. destruct ev as [e now|cfg e now]; cbn [updater_step]; [done|]. cbv zeta.
  destruct (Z.eqb_spec (interval_of cfg) (update_every_secs t)); [split; [done|intros; lia]|].
  destruct (Z.ltb_spec (interval_of cfg) (update_every_secs t)); (split; [done|done || (intros; lia)]).
Qed.

(** The channel of triggers never holds more than its capacity, and a trigger is lost only when it is full or closed. *)
Theorem trigger_queue_bounded tx trigger :
  zlen (tr_queue tx) <= tr_capacity tx ->
  let tx' := enqueue_reinit_trigger tx trigger in
  zlen (tr_queue tx') <= tr_capacity tx' /\
  (tr_queue tx' = tr_queue tx ++ [trigger] \/ tr_open tx = false \/ zlen (tr_queue tx) = tr_capacity tx).
Proof.
  intros Hl. unfold enqueue_reinit_trigger. destruct (tr_open tx); [|by auto]. cbn [andb].
  destruct (Z.ltb_spec (zlen (tr_queue tx)) (tr_capacity tx)); cbv zeta; [|split; [done|right; right; lia]].
  cbn [tr_queue tr_capacity]. rewrite zlen_app. change (zlen [trigger]) with 1. split; [lia|by left].
Qed.

(** ** At work *)

Definition demo_entries : list (Z * SocketAddr) :=
  [(2, mkSocketAddr (V4 [149; 154; 161; 144]) 8888); (-2, mkSocketAddr (V4 [149; 154; 161; 144]) 8888);
   (4, mkSocketAddr (V6 [0x20; 1; 6; 0x7c; 4; 0xe8; 0xf0; 2; 0; 0; 0; 0; 0; 0; 0; 13]) 80)].

(** The three lines of the source's tests. *)
Example demo_lines :
  map (fun s => from_option (fun e => (e.1.1, e.2)) (0, 0) (parse_proxy_line (str s)))
    ["proxy_for 2 [2001:67c:04e8:f002::d]:80;"; "proxy_for 2 2001:67c:04e8:f002::d:80;"; "proxy_for 4 91.108.4.195:8888;"; "default 2;"]%string =
  [(2, 80); (2, 80); (4, 8888); (0, 0)].
Proof. vm_compute. reflexivity. Qed.

Definition demo_cfg : GeneralConfig := GeneralConfig_default.
Definition demo_finish (items : list HashItem) : Z :=
  foldl (fun h i => match i with HashDc d => h * 31 + d | HashPort p => h * 31 + p | HashBytes b => h * 31 + zlen b | _ => h end) 7 items.

(** Every cycle serves the same list and the same secret, five minutes after the one before. *)
Definition demo_cycle (n : Z) : CycleEnv :=
  mkCycleEnv (fun i => match i with O => NoAnswer | _ => Answer 200 (Some (proxy_text demo_entries)) end) (fun _ => NoAnswer)
    (Answer 200 (Some (repeat 1 64))) (n * 300 * SECS) (n * 300 * SECS) (fun _ p => p) (fun _ => demo_pool_env).
Definition demo_updater : UpdaterWorld :=
  mkUpdaterWorld UpdaterState_default demo_pool demo_nat (mkTriggers [] 4 true).

(** The first cycle only observes; the second installs the list and the secret and asks for a reinitialisation; the third finds nothing new. *)
Example demo_cycles :
  let w1 := run_update_cycle demo_finish (demo_cycle 1) demo_cfg demo_updater in
  let w2 := run_update_cycle demo_finish (demo_cycle 2) demo_cfg w1 in
  let w3 := run_update_cycle demo_finish (demo_cycle 3) demo_cfg w2 in
  map (fun w => (zlen (ss_secret (mp_secret (uw_pool w))), zlen (map_to_list (proxy_map_v4 (mp_maps (uw_pool w)))), tr_queue (uw_triggers w))) [w1; w2; w3] =
  [(40, 1, []); (64, 4, [MapChanged]); (64, 4, [MapChanged])].
Proof. vm_compute. reflexivity. Qed.

(** Nine tenths, as a single, is 900 thousandths. *)
Example demo_permille : (ratio_to_permille default_me_pool_min_fresh_ratio, ratio_to_permille (f32_scaled 15099494 24)) = (800, 900).
Proof. vm_compute. reflexivity. Qed.

(** In the second cycle the list and the secret are agreed on and installed. *)
Lemma updates_are_stable_witness :
  let cs := [(demo_cycle 1, demo_cfg)] in
  let w := run_cycles demo_finish demo_updater cs in
  let w' := run_update_cycle demo_finish (demo_cycle 2) demo_cfg w in
  let seen o := omap o (cs ++ [(demo_cycle 2, demo_cfg)]) in
  let cooled := map_apply_cooldown_ready (ce_now (demo_cycle 2)) (last_map_apply_at (uw_state w)) (me_config_apply_cooldown_secs demo_cfg) in
  (proxy_map_v4 (mp_maps (uw_pool w')) !! 2, proxy_map_v4 (mp_maps (uw_pool w')) !! 4, zlen (ss_secret (mp_secret (uw_pool w')))) =
    (Some [(V4 [149; 154; 161; 144], 8888)], Some [(V6 [0x20; 1; 6; 0x7c; 4; 0xe8; 0xf0; 2; 0; 0; 0; 0; 0; 0; 0; 13], 80)], 64) /\
  exists list4 list6 secret,
    the_one (agreed demo_finish ce_v4 (demo_cycle 2) demo_cfg (applied_hash (config_v4 (uw_state w))) (seen (config_seen demo_finish ce_v4))) list4 /\
    the_one (agreed demo_finish ce_v6 (demo_cycle 2) demo_cfg (applied_hash (config_v6 (uw_state w))) (seen (config_seen demo_finish ce_v6))) list6 /\
    installed demo_cfg cooled list4 list6 (uw_pool w) (uw_pool w') /\
    (let effect := takes_effect demo_cfg cooled list4 list6 in
     last_map_apply_at (uw_state w') = (if effect then Some (ce_now_applied (demo_cycle 2)) else last_map_apply_at (uw_state w)) /\
     applied_hash (config_v4 (uw_state w')) = in_force demo_finish effect (applied_hash (config_v4 (uw_state w))) list4 /\
     applied_hash (config_v6 (uw_state w')) = in_force demo_finish effect (applied_hash (config_v6 (uw_state w))) list6) /\
    the_one (agreed_secret demo_finish (demo_cycle 2) demo_cfg (applied_hash (up_secret (uw_state w))) (seen (secret_seen demo_finish))) secret /\
    match secret with
    | Some secret => ss_secret (mp_secret (uw_pool w')) = secret
    | None => mp_secret (uw_pool w') = mp_secret (uw_pool w)
    end.
Proof.
  intros cs w w' seen cooled. split; [vm_compute; reflexivity|].
  apply (updates_are_stable demo_finish cs (demo_cycle 2) demo_cfg demo_updater).
  - reflexivity.
  - repeat (apply Forall_cons_2; [split; vm_compute; congruence|]). apply Forall_nil_2.
  - reflexivity.
Defined.
