(* ===== verification/HotReload.v ===== *)
(** * Reloading the configuration: [config/hot_reload.rs]

    A watcher calls [reload_config] when the file changes or a signal arrives.  It loads and validates the file, compares the
    fields that may change at run time, and publishes the whole new configuration when one of them did.  What the load
    gives is an argument; [hex::encode] is a parameter.  Of the lines it logs, the links of new users and the warnings
    that a restart is required are modelled. *)

From coqutil Require Import Datatypes.RecordSetters.
From stdpp Require Import gmap sorting.
From S2P Require Import Prelude NetAddr Errors DnsOverrides Stats MeHandshake MePool ConfigTypes ConfigLoad.
Import DoubleBraceUpdate.

#[global] Instance MeTelemetryLevel_eq_dec : EqDecision MeTelemetryLevel.
Proof. solve_decision. Defined.
#[global] Instance MeSocksKdfPolicy_eq_dec : EqDecision MeSocksKdfPolicy.
Proof. solve_decision. Defined.
#[global] Instance MeFloorMode_eq_dec : EqDecision MeFloorMode.
Proof. solve_decision. Defined.
#[global] Instance AccessConfig_eq_dec : EqDecision AccessConfig.
Proof. solve_decision. Defined.

(** ** The fields that may change (hot_reload.rs:43-106) *)

Record HotFields := mkHotFields {
  hot_log_level : LogLevel;
  hot_ad_tag : option bytes;
  hot_dns_overrides : list bytes;
  hot_middle_proxy_pool_size : Z;
  hot_desync_all_full : bool;
  hot_update_every_secs : Z;
  hot_hardswap : bool;
  hot_me_pool_drain_ttl_secs : Z;
  hot_me_pool_min_fresh_ratio : f32;
  hot_me_reinit_drain_timeout_secs : Z;
  hot_me_keepalive_enabled : bool;
  hot_me_keepalive_interval_secs : Z;
  hot_me_keepalive_jitter_secs : Z;
  hot_me_keepalive_payload_random : bool;
  hot_telemetry_core_enabled : bool;
  hot_telemetry_user_enabled : bool;
  hot_telemetry_me_level : MeTelemetryLevel;
  hot_me_socks_kdf_policy : MeSocksKdfPolicy;
  hot_me_floor_mode : MeFloorMode;
  hot_me_adaptive_floor_idle_secs : Z;
  hot_me_adaptive_floor_min_writers_single_endpoint : Z;
  hot_me_adaptive_floor_recover_grace_secs : Z;
  hot_me_route_backpressure_base_timeout_ms : Z;
  hot_me_route_backpressure_high_timeout_ms : Z;
  hot_me_route_backpressure_high_watermark_pct : Z;
  hot_access : AccessConfig
}.

Definition from_config (cfg : ProxyConfig) : HotFields :=
  let g := general cfg in
  {| hot_log_level := log_level g;
     hot_ad_tag := ad_tag g;
     hot_dns_overrides := dns_overrides (network cfg);
     hot_middle_proxy_pool_size := middle_proxy_pool_size g;
     hot_desync_all_full := desync_all_full g;
     hot_update_every_secs := effective_update_every_secs g;
     hot_hardswap := hardswap g;
     hot_me_pool_drain_ttl_secs := me_pool_drain_ttl_secs g;
     hot_me_pool_min_fresh_ratio := me_pool_min_fresh_ratio g;
     hot_me_reinit_drain_timeout_secs := me_reinit_drain_timeout_secs g;
     hot_me_keepalive_enabled := me_keepalive_enabled g;
     hot_me_keepalive_interval_secs := me_keepalive_interval_secs g;
     hot_me_keepalive_jitter_secs := me_keepalive_jitter_secs g;
     hot_me_keepalive_payload_random := me_keepalive_payload_random g;
     hot_telemetry_core_enabled := cfg_core_enabled (telemetry g);
     hot_telemetry_user_enabled := cfg_user_enabled (telemetry g);
     hot_telemetry_me_level := cfg_me_level (telemetry g);
     hot_me_socks_kdf_policy := me_socks_kdf_policy g;
     hot_me_floor_mode := me_floor_mode g;
     hot_me_adaptive_floor_idle_secs := me_adaptive_floor_idle_secs g;
     hot_me_adaptive_floor_min_writers_single_endpoint := me_adaptive_floor_min_writers_single_endpoint g;
     hot_me_adaptive_floor_recover_grace_secs := me_adaptive_floor_recover_grace_secs g;
     hot_me_route_backpressure_base_timeout_ms := me_route_backpressure_base_timeout_ms g;
     hot_me_route_backpressure_high_timeout_ms := me_route_backpressure_high_timeout_ms g;
     hot_me_route_backpressure_high_watermark_pct := me_route_backpressure_high_watermark_pct g;
     hot_access := access cfg |}.

(** [#[derive(PartialEq)]]: field by field; the ratio is compared as a number. *)
Definition hot_eqb (a b : HotFields) : bool :=
  let same {A} `{EqDecision A} (f : HotFields -> A) := bool_decide (f a = f b) in
  same hot_log_level && same hot_ad_tag && same hot_dns_overrides && same hot_middle_proxy_pool_size &&
  same hot_desync_all_full && same hot_update_every_secs && same hot_hardswap && same hot_me_pool_drain_ttl_secs &&
  f32_eqb (hot_me_pool_min_fresh_ratio a) (hot_me_pool_min_fresh_ratio b) && same hot_me_reinit_drain_timeout_secs &&
  same hot_me_keepalive_enabled && same hot_me_keepalive_interval_secs && same hot_me_keepalive_jitter_secs &&
  same hot_me_keepalive_payload_random && same hot_telemetry_core_enabled && same hot_telemetry_user_enabled &&
  same hot_telemetry_me_level && same hot_me_socks_kdf_policy && same hot_me_floor_mode &&
  same hot_me_adaptive_floor_idle_secs && same hot_me_adaptive_floor_min_writers_single_endpoint &&
  same hot_me_adaptive_floor_recover_grace_secs && same hot_me_route_backpressure_base_timeout_ms &&
  same hot_me_route_backpressure_high_timeout_ms && same hot_me_route_backpressure_high_watermark_pct && same hot_access.

(** The fields [warn_non_hot_changes] warns about, in its order. *)
Definition non_hot_changes (old new : ProxyConfig) : list string :=
  let go := general old in
  let gn := general new in
  (if port (server old) =? port (server new) then [] else ["server.port"%string]) ++
  (if bool_decide (tls_domain (censorship old) = tls_domain (censorship new)) then [] else ["censorship.tls_domain"%string]) ++
  (if bool_decide (ipv4 (network old) = ipv4 (network new)) && bool_decide (ipv6 (network old) = ipv6 (network new))
   then [] else ["network.ipv4/ipv6"%string]) ++
  (if Bool.eqb (use_middle_proxy go) (use_middle_proxy gn) then [] else ["use_middle_proxy"%string]) ++
  (if stun_nat_probe_concurrency go =? stun_nat_probe_concurrency gn then []
   else ["general.stun_nat_probe_concurrency"%string]) ++
  (if (upstream_connect_retry_attempts go =? upstream_connect_retry_attempts gn) &&
      (upstream_connect_retry_backoff_ms go =? upstream_connect_retry_backoff_ms gn) &&
      (upstream_unhealthy_fail_threshold go =? upstream_unhealthy_fail_threshold gn)
   then [] else ["general.upstream_*"%string]).

(** ** Links of new users (hot_reload.rs:150-204, 355-387) *)

Definition resolve_link_host (cfg : ProxyConfig) (detected_ip_v4 detected_ip_v6 : option IpAddr) : bytes :=
  match public_host (links (general cfg)) with
  | Some h => h
  | None =>
      match option_or detected_ip_v4 detected_ip_v6 with
      | Some ip => fmt_ip ip
      | None => str "UNKNOWN"
      end
  end.

Section Links.
Variable hex_encode : bytes -> bytes.

Definition link (host : bytes) (port : Z) (secret : bytes) : bytes :=
  str "tg://proxy?server=" ++ host ++ str "&port=" ++ fmt_num 10 port ++ str "&secret=" ++ secret.

Definition user_links (secret host : bytes) (port : Z) (cfg : ProxyConfig) : list bytes :=
  let m := modes (general cfg) in
  let domains :=
    foldl (fun ds d => if decide (d ∈ ds) then ds else ds ++ [d]) [tls_domain (censorship cfg)] (tls_domains (censorship cfg)) in
  (if classic m then [link host port secret] else []) ++
  (if secure m then [link host port (str "dd" ++ secret)] else []) ++
  (if tls m then map (fun d => link host port (str "ee" ++ secret ++ hex_encode d)) domains else []).

Definition added_users (old_hot new_hot : HotFields) : list string :=
  merge_sort name_le
    (filter (fun u => users (hot_access old_hot) !! u = None) (map_to_list (users (hot_access new_hot))).*1).

(** The links [log_changes] prints, by user. *)
Definition new_links (old_hot new_hot : HotFields) (new_cfg : ProxyConfig) (detected_ip_v4 detected_ip_v6 : option IpAddr)
    : list (string * list bytes) :=
  let host := resolve_link_host new_cfg detected_ip_v4 detected_ip_v6 in
  let port := default (port (server new_cfg)) (public_port (links (general new_cfg))) in
  omap (fun u => (fun secret => (u, user_links (str secret) host port new_cfg)) <$> users (hot_access new_hot) !! u)
    (added_users old_hot new_hot).

(** ** [reload_config] (hot_reload.rs:428-470)

    The two watch channels and the store of DNS overrides; [rs_links] is what has been printed and [rs_warned] what has
    been said to need a restart. *)

Record ReloadState := mkReloadState {
  rs_config : ProxyConfig;
  rs_log_level : LogLevel;
  rs_store : OverrideMap;
  rs_links : list (string * list bytes);
  rs_warned : list string
}.

Definition reload_config (detected_ip_v4 detected_ip_v6 : option IpAddr) (loaded : result ProxyError ProxyConfig)
    (st : ReloadState) : ReloadState :=
  match loaded with
  | Err _ => st
  | Ok new_cfg =>
      match validate new_cfg with
      | Err _ => st
      | Ok _ =>
          let old_cfg := rs_config st in
          let old_hot := from_config old_cfg in
          let new_hot := from_config new_cfg in
          if hot_eqb old_hot new_hot then st
          else
            let changed := negb (bool_decide (hot_dns_overrides old_hot = hot_dns_overrides new_hot)) in
            let '(installed, store) :=
              if changed then install_entries (rs_store st) (hot_dns_overrides new_hot) else (Ok tt, rs_store st) in
            match installed with
            | Err _ => mkReloadState (rs_config st) (rs_log_level st) store (rs_links st) (rs_warned st)
            | Ok _ =>
                let log_level :=
                  if bool_decide (hot_log_level old_hot = hot_log_level new_hot) then rs_log_level st
                  else hot_log_level new_hot in
                let links := new_links old_hot new_hot new_cfg detected_ip_v4 detected_ip_v6 in
                mkReloadState new_cfg log_level store (rs_links st ++ links)
                  (rs_warned st ++ non_hot_changes old_cfg new_cfg)
            end
      end
  end.

(** The watcher: one reload per event, whatever the file then holds. *)
Definition reloads (v4 v6 : option IpAddr) (st : ReloadState) (loads : list (result ProxyError ProxyConfig)) : ReloadState :=
  foldl (fun st loaded => reload_config v4 v6 loaded st) st loads.

(** ** What is published *)

(** The store is what installing the overrides of [cfg] gives. *)
Definition store_of (cfg : ProxyConfig) (store : OverrideMap) : Prop :=
  parse_entries (dns_overrides (network cfg)) = Ok store.

Record published_ok (st : ReloadState) : Prop := {
  po_config : config_ok (rs_config st);
  po_valid : validate (rs_config st) = Ok tt;
  po_level : rs_log_level st = log_level (general (rs_config st));
  po_store : store_of (rs_config st) (rs_store st)
}.

Lemma validate_unit cfg r : validate cfg = Ok r -> validate cfg = Ok tt.
Proof. by destruct r. Qed.

(** *** Which load counts

    The hot fields are the same: all of them equal, the ratio as a number. *)
Definition hot_same (a b : HotFields) : Prop :=
  f32_eqb (hot_me_pool_min_fresh_ratio a) (hot_me_pool_min_fresh_ratio b) = true /\
  a = b {{ hot_me_pool_min_fresh_ratio := hot_me_pool_min_fresh_ratio a }}.

Lemma hot_eqb_spec a b : hot_eqb a b = true <-> hot_same a b.
Proof.
  unfold hot_eqb, hot_same. rewrite !andb_true_iff, !bool_decide_eq_true. destruct a, b. cbn. split.
  - intros H. destruct_and? H. by subst.
  - intros [Hr E]. injection E. intros. subst. tauto.
Qed.

(** What a file gives is published: it is valid, differs from what is in force in a hot field, and its overrides can be
    installed. *)
Definition counts (cur new : ProxyConfig) : Prop :=
  validate new = Ok tt /\ ~ hot_same (from_config cur) (from_config new) /\ exists store, store_of new store.

(** Starting with [cur] in force, and whatever each load gives, what is in force in the end: the last load that counted. *)
Inductive follows : ProxyConfig -> list (result ProxyError ProxyConfig) -> ProxyConfig -> Prop :=
| follows_end cur : follows cur [] cur
| follows_published cur new loads final : counts cur new -> follows new loads final -> follows cur (Ok new :: loads) final
| follows_kept cur loaded loads final :
    (forall new, loaded = Ok new -> ~ counts cur new) -> follows cur loads final -> follows cur (loaded :: loads) final.

Lemma follows_given cur loads final : follows cur loads final -> final = cur \/ Ok final ∈ loads.
Proof.
  induction 1 as [cur|cur new loads final _ _ [->|IH]|cur loaded loads final _ _ [->|IH]]; [by left|right|right|by left|right];
    apply elem_of_cons; [by left|by right..].
Qed.

(** What does not count changes nothing. *)
Lemma reload_ignored v4 v6 loaded st :
  published_ok st -> (forall new, loaded = Ok new -> ~ counts (rs_config st) new) -> reload_config v4 v6 loaded st = st.
Proof.
  intros [_ _ _ Hs] Hno. unfold reload_config. destruct loaded as [new|]; [|done]. specialize (Hno new eq_refl).
  destruct (validate new) as [r|] eqn:Ev; [|done]. destruct (hot_eqb _ _) eqn:Eh; [done|]. unfold install_entries, store_of in *.
  cbn [hot_dns_overrides from_config]. destruct (parse_entries (dns_overrides (network new))) as [store|] eqn:Ep.
  - destruct Hno. split_and!; [by eapply validate_unit| |by exists store]. rewrite <-hot_eqb_spec. by rewrite Eh.
  - case_bool_decide as Hd; cbn [negb]; [rewrite <-Hd in Ep; congruence|]. by destruct st.
Qed.

(** What counts is published as it is. *)
Lemma reload_published v4 v6 new st :
  published_ok st -> config_ok new -> counts (rs_config st) new ->
  rs_config (reload_config v4 v6 (Ok new) st) = new /\ published_ok (reload_config v4 v6 (Ok new) st).
Proof.
  intros [Hc Hv Hlev Hs] Hnew (Hval & Hhot & store & Hstore). unfold reload_config. rewrite Hval.
  destruct (hot_eqb _ _) eqn:Eh; [by apply hot_eqb_spec in Eh|]. unfold install_entries, store_of in *.
  cbn [hot_dns_overrides hot_log_level from_config]. rewrite Hstore.
  case_bool_decide as Hdns; cbn [negb]; (split; [done|]); constructor; cbn [rs_config rs_log_level rs_store]; try done;
    unfold store_of; try (by rewrite <-Hdns); case_bool_decide as Hll; congruence.
Qed.

Lemma counts_dec cur new : counts cur new \/ ~ counts cur new.
Proof.
  unfold counts, store_of. rewrite <-hot_eqb_spec. destruct (validate new) as [[]|]; [|by right; intros [? _]].
  destruct (hot_eqb _ _); [by right; intros (_ & ? & _)|]. destruct (parse_entries _) as [store|]; [by left; split_and!; [| |eexists]|].
  right. by intros (_ & _ & ? & ?).
Qed.

Lemma reloads_follow v4 v6 loads : forall st,
  published_ok st -> Forall (fun l => forall c, l = Ok c -> config_ok c) loads ->
  published_ok (reloads v4 v6 st loads) /\ follows (rs_config st) loads (rs_config (reloads v4 v6 st loads)).
Proof.
  unfold reloads. induction loads as [|loaded loads IH]; intros st Hst Hl; [by split; [|constructor]|].
  apply Forall_cons in Hl as [Hl1 Hl]. cbn [foldl].
  assert ((exists new, loaded = Ok new /\ counts (rs_config st) new) \/ forall new, loaded = Ok new -> ~ counts (rs_config st) new) as Hd.
  { destruct loaded as [new|]; [|by right]. destruct (counts_dec (rs_config st) new); [left; by eexists|right]. by intros ? [= <-]. }
  destruct Hd as [(new & -> & Hn)|Hno].
  - destruct (reload_published v4 v6 new st Hst (Hl1 new eq_refl) Hn) as [Hcfg Hok].
    destruct (IH _ Hok Hl) as [H1 H2]. split; [done|]. rewrite Hcfg in H2. by apply follows_published.
  - rewrite reload_ignored by done. destruct (IH _ Hst Hl) as [H1 H2]. split; [done|]. by apply follows_kept.
Qed.

(** C29: whatever the file and its includes hold at each reload, what is in force afterwards is exactly the last of the
    configurations that [load] gave in this history which [validate] accepted, which differed in a hot field from the one
    then in force, and whose DNS overrides could be installed; or the one the program started with, when there was none.
    It is published as it was loaded; it is well formed and valid, the log level in force is its log level, and the
    DNS overrides in force are its overrides.  Any other load (one that fails, one that is not valid, one without a
    change of a hot field) changes nothing. *)
Theorem reload_keeps_valid v4 v6 st toml_from_str path (files : list ((bytes -> result string bytes) * Z)) :
  (forall text parsed c, toml_from_str text = Ok parsed -> try_into parsed = Ok c -> config_typed c) ->
  published_ok st ->
  let loads := map (fun '(read_to_string, drawn) => load read_to_string toml_from_str path drawn) files in
  let now := reloads v4 v6 st loads in
  published_ok now /\ follows (rs_config st) loads (rs_config now) /\
  (rs_config now = rs_config st \/
   exists read_to_string drawn, (read_to_string, drawn) ∈ files /\ load read_to_string toml_from_str path drawn = Ok (rs_config now)) /\
  forall loaded, (forall c, loaded = Ok c -> ~ counts (rs_config now) c) -> reload_config v4 v6 loaded now = now.
Proof.
  intros Htyped Hst loads now.
  assert (Forall (fun l => forall c, l = Ok c -> config_ok c) loads) as Hl.
  { apply Forall_map, Forall_forall. intros [read drawn] _ c. by apply load_config_ok. }
  destruct (reloads_follow v4 v6 loads st Hst Hl) as [Hok Hf]. split; [done|]. split; [done|]. split.
  - destruct (follows_given _ _ _ Hf) as [E|Hin]; [by left|right]. apply list_elem_of_fmap in Hin as ([read drawn] & E & Hin).
    by exists read, drawn.
  - intros loaded Hno. by apply reload_ignored.
Qed.

(** When no hot field changed, the other changes are neither published nor warned about. *)
Lemma reload_same_hot v4 v6 new st :
  hot_eqb (from_config (rs_config st)) (from_config new) = true -> reload_config v4 v6 (Ok new) st = st.
Proof. intros E. unfold reload_config. destruct (validate new); [|done]. by rewrite E. Qed.

(** When one did, everything in the file is published, the fields the warnings name included. *)
Lemma reload_publishes_all v4 v6 new st :
  validate new = Ok tt -> hot_eqb (from_config (rs_config st)) (from_config new) = false ->
  is_ok (parse_entries (dns_overrides (network new))) = true ->
  rs_config (reload_config v4 v6 (Ok new) st) = new /\
  rs_warned (reload_config v4 v6 (Ok new) st) = rs_warned st ++ non_hot_changes (rs_config st) new.
Proof.
  intros Hv Hhot Hp. unfold reload_config. rewrite Hv, Hhot. unfold install_entries.
  case_bool_decide as Hdns; cbn [negb]; [done|]. cbn [hot_dns_overrides from_config].
  by destruct (parse_entries (dns_overrides (network new))).
Qed.

End Links.

(** ** Runs *)

Definition demo_hex (b : bytes) : bytes :=
  flat_map (fun x => map (fun d => if d <? 10 then 48 + d else 87 + d) [x / 16; x mod 16]) b.

(** What a file whose values are [c] gives. *)
Definition demo_file (c : ProxyConfig) : ProxyConfig :=
  match finish (mkExplicit false false false false) 3000 c with Ok c => c | Err _ => ProxyConfig_default end.

(** Another TLS domain; and that with another log level. *)
Definition demo_domain : ProxyConfig := ProxyConfig_default {{ censorship -> tls_domain := str "example.org" }}.
Definition demo_both : ProxyConfig := demo_domain {{ general -> log_level := LogLevel_Silent }}.

Definition demo_started : ReloadState :=
  mkReloadState (demo_file ProxyConfig_default) LogLevel_Normal ∅ [] [].

(** Three events: the file is away, then it holds the other domain, then also the other log level. *)
Definition demo_parser (text : bytes) : result string ParsedToml :=
  if decide (text = str "domain" ++ [10]) then Ok (mkParsedToml [] [] (Ok demo_domain))
  else if decide (text = str "both" ++ [10]) then Ok (mkParsedToml [] [] (Ok demo_both))
  else Err "syntax"%string.
Definition demo_events : list ((bytes -> result string bytes) * Z) :=
  [(fun _ => Err "not found"%string, 3000); (fun _ => Ok (str "domain"), 3000); (fun _ => Ok (str "both"), 3000)].

Lemma demo_file_ok c :
  config_typed c -> is_ok (finish (mkExplicit false false false false) 3000 c) = true -> config_ok (demo_file c).
Proof.
  intros Ht Hf. unfold demo_file. pose proof (finish_well_formed (mkExplicit false false false false) 3000 c) as Hok.
  destruct (finish _ _ _) as [c'|]; [by apply Hok|discriminate Hf].
Qed.

Lemma demo_started_ok : published_ok demo_started.
Proof.
  constructor; [|vm_eq|reflexivity|unfold store_of; vm_eq].
  apply demo_file_ok; [apply (bool_decide_unpack _); vm_compute; exact I|vm_eq].
Qed.

Lemma demo_parser_typed text parsed c : demo_parser text = Ok parsed -> try_into parsed = Ok c -> config_typed c.
Proof.
  unfold demo_parser. intros E Et. repeat case_decide; [..|discriminate E]; apply Ok_inj in E; subst parsed; cbn [try_into] in Et;
    apply Ok_inj in Et; subst c; apply (bool_decide_unpack _); vm_compute; exact I.
Qed.

(** The new TLS domain alone is not published and nothing is said; with a new log level it is, after the warning. *)
Example demo_reloads :
  hot_eqb (from_config (rs_config demo_started)) (from_config (demo_file demo_domain)) = true /\
  tls_domain (censorship (rs_config (reload_config demo_hex None None (Ok (demo_file demo_both)) demo_started))) = str "example.org" /\
  rs_warned (reload_config demo_hex None None (Ok (demo_file demo_both)) demo_started) = ["censorship.tls_domain"%string] /\
  user_links demo_hex (str "00112233445566778899aabbccddeeff") (str "1.2.3.4") 443 (rs_config demo_started) =
    [str "tg://proxy?server=1.2.3.4&port=443&secret=ee00112233445566778899aabbccddeeff7065747" ++
     str "26f766963682e7275"].
Proof. split_and!; vm_eq. Qed.

Example demo_history :
  let loads := map (fun '(read_to_string, drawn) => load read_to_string demo_parser (str "telemt.toml") drawn) demo_events in
  rs_config (reloads demo_hex None None demo_started loads) = demo_file demo_both.
Proof. vm_compute. reflexivity. Qed.

Lemma reload_keeps_valid_witness :
  let loads := map (fun '(read_to_string, drawn) => load read_to_string demo_parser (str "telemt.toml") drawn) demo_events in
  let now := reloads demo_hex None None demo_started loads in
  published_ok now /\ follows (rs_config demo_started) loads (rs_config now) /\
  (rs_config now = rs_config demo_started \/
   exists read_to_string drawn, (read_to_string, drawn) ∈ demo_events /\
     load read_to_string demo_parser (str "telemt.toml") drawn = Ok (rs_config now)) /\
  forall loaded, (forall c, loaded = Ok c -> ~ counts (rs_config now) c) -> reload_config demo_hex None None loaded now = now.
Proof.
  exact (reload_keeps_valid demo_hex None None demo_started demo_parser (str "telemt.toml") demo_events demo_parser_typed demo_started_ok).
Defined.
