(* ===== verification/TlsHandshake.v ===== *)
(** * The handler of the TLS handshake: [proxy/handshake.rs], lines 55 to 215

    A ClientHello is checked against the replay cache and the secrets of all users; a genuine client gets the plain
    answer or, with the certificate emulation, the one that imitates the server its SNI names.  Anybody else is handed back untouched,
    for the masking.  The clocks are arguments; [hex::decode] is a parameter; the random delay before the answer is
    [server_hello_delay]. *)

From coqutil Require Import Datatypes.RecordSetters.
From S2P Require Import Prelude NetAddr Errors Crypto Random Replay AsyncIo TlsStream TlsHello TlsFront ConfigTypes.
Import DoubleBraceUpdate.
Open Scope outcome_scope.

(** ** The handler *)

Definition H2 : bytes := str "h2".
Definition HTTP11 : bytes := str "http/1.1".

Definition select_alpn (config : ProxyConfig) (handshake : bytes) : outcome (option bytes) :=
  if alpn_enforce (censorship config) then
    let! alpn_list := extract_alpn_from_client_hello handshake in
    Done (if bool_decide (H2 ∈ alpn_list) then Some H2
          else if bool_decide (HTTP11 ∈ alpn_list) then Some HTTP11 else None)
  else Done None.

Definition select_domain (cache : TlsFrontCache) (config : ProxyConfig) (handshake : bytes) : outcome bytes :=
  let! found := extract_sni_from_client_hello handshake in
  Done (match found with
        | Some sni => if contains_domain cache sni then sni else tls_domain (censorship config)
        | None => tls_domain (censorship config)
        end).

(** Nanoseconds in a second. *)
Definition SECOND : Z := 1000000000.

(** The cached entry with the budget, when the certificate emulation is on and has a cache. *)
Definition select_cached (tls_cache : option TlsFrontCache) (config : ProxyConfig) (handshake : bytes) (peer : SocketAddr)
    (now : Z) : outcome (option (CachedTlsData * bool) * option TlsFrontCache) :=
  if tls_emulation (censorship config) then
    match tls_cache with
    | Some cache =>
        let! selected_domain := select_domain cache config handshake in
        let cached_entry := cache_get cache selected_domain in
        let '(use_full_cert_payload, cache) :=
          take_full_cert_budget_for_ip cache (sa_ip peer) (tls_full_cert_ttl_secs (censorship config) * SECOND) now in
        Done (Some (cached_entry, use_full_cert_payload), Some cache)
    | None => Done (None, None)
    end
  else Done (None, tls_cache).

(** The sleep before the answer, in milliseconds; [drawn] is what [random_range(min..=max)] gives. *)
Definition server_hello_delay (config : ProxyConfig) (drawn : Z) : Z :=
  let c := censorship config in
  if 0 <? server_hello_delay_max_ms c then
    let min := server_hello_delay_min_ms c in
    let max := Z.max (server_hello_delay_max_ms c) min in
    if max =? min then max else drawn
  else 0.

Section Handler.
Context `{Digests} {G : Type} `{Rng G} `{LruCache}.
Variable default_hash : bytes -> Z.
Variable instant_min : Z.
Variable hex_decode : string -> option bytes.

Definition user_secrets (config : ProxyConfig) : list (string * bytes) :=
  omap (fun e : string * string => pair e.1 <$> hex_decode e.2) (map_to_list (users (access config))).

(** What the handler changes beside the connection. *)
Record TlsState := mkTlsState {
  ts_replay : ReplayChecker;
  ts_rng : G;
  ts_cache : option TlsFrontCache
}.

(** The clocks: of the replay cache and the TLS cache, and Unix time in seconds. *)
Record TlsClock := mkTlsClock { tc_instant : Z; tc_unix : Z; tc_cache_instant : Z }.

Abbreviation tls_result := (HandshakeResult (FakeTlsReader * FakeTlsWriter * string) upstream_r upstream_w) (only parsing).

(** The answer to a validated hello. *)
Definition build_response (config : ProxyConfig) (handshake : bytes) (peer : SocketAddr) (secret : bytes)
    (validation : TlsValidation) (clock : TlsClock) (st : TlsState) : outcome (bytes * TlsState) :=
  let! picked := select_cached (ts_cache st) config handshake peer (tc_cache_instant clock) in
  let '(cached, tls_cache) := picked in
  let! selected_alpn := select_alpn config handshake in
  let c := censorship config in
  let '(response, rng) :=
    match cached with
    | Some (cached_entry, use_full_cert_payload) =>
        build_emulated_server_hello secret (tv_digest validation) (tv_session_id validation) cached_entry
          use_full_cert_payload (ts_rng st) selected_alpn (tls_new_session_tickets c)
    | None =>
        build_server_hello secret (tv_digest validation) (tv_session_id validation) (fake_cert_len c) (ts_rng st)
          selected_alpn (tls_new_session_tickets c)
    end in
  Done (response, mkTlsState (ts_replay st) rng tls_cache).

Definition send_response (fuel : nat) (reader : upstream_r) (writer : upstream_w) (response : bytes) (user : string)
    : outcome tls_result :=
  match write_all fuel writer response with
  | None => OutOfFuel
  | Some (Err e, _) => Done (HError (PE_Io e))
  | Some (Ok _, writer) =>
      match flush_await fuel writer with
      | None => OutOfFuel
      | Some (Err e, _) => Done (HError (PE_Io e))
      | Some (Ok _, writer) => Done (HSuccess (FakeTlsReader_new reader, FakeTlsWriter_new writer, user))
      end
  end.

Definition handle_tls_handshake (fuel : nat) (handshake : bytes) (reader : upstream_r) (writer : upstream_w)
    (peer : SocketAddr) (config : ProxyConfig) (clock : TlsClock) (st : TlsState) : outcome (tls_result * TlsState) :=
  if zlen handshake <? TLS_DIGEST_POS + TLS_DIGEST_LEN + 1 then Done (HBadClient reader writer, st)
  else
    let digest := slice handshake TLS_DIGEST_POS (TLS_DIGEST_POS + TLS_DIGEST_LEN) in
    let digest_half := ztake TLS_DIGEST_HALF_LEN digest in
    match check_and_add_tls_digest default_hash instant_min (ts_replay st) digest_half (tc_instant clock) with
    | None => Panicked
    | Some (seen, replay_checker) =>
        let st := mkTlsState replay_checker (ts_rng st) (ts_cache st) in
        if seen : bool then Done (HBadClient reader writer, st)
        else
          let secrets := user_secrets config in
          match validate_tls_handshake handshake secrets (ignore_time_skew (access config)) (tc_unix clock) with
          | None => Done (HBadClient reader writer, st)
          | Some validation =>
              match list_find (fun e : string * bytes => e.1 = tv_user validation) secrets with
              | None => Done (HBadClient reader writer, st)
              | Some (_, (_, secret)) =>
                  let! answered := build_response config handshake peer secret validation clock st in
                  let '(response, st) := answered in
                  let! result := send_response fuel reader writer response (tv_user validation) in
                  Done (result, st)
              end
          end
    end.

End Handler.
Arguments TlsState G {_}.

(** ** Facts *)

Section Facts.
Context `{DigestsOk} {G : Type} `{RngOk G} `{LruCacheOk}.
Variable default_hash : bytes -> Z.
Variable instant_min : Z.
Variable hex_decode : string -> option bytes.
Local Notation secrets_of := (user_secrets hex_decode).
Local Notation handle := (handle_tls_handshake (G := G) default_hash instant_min hex_decode).
Local Notation check_digest := (check_and_add_tls_digest default_hash instant_min).

(** *** The users' secrets *)

Lemma elem_of_secrets config user secret :
  (user, secret) ∈ secrets_of config <->
  exists secret_hex, users (access config) !! user = Some secret_hex /\ hex_decode secret_hex = Some secret.
Proof.
  unfold user_secrets. rewrite list_elem_of_omap. split.
  - intros ([u sh] & Hin & Hd). apply elem_of_map_to_list in Hin. cbn in Hd.
    destruct (hex_decode sh) eqn:Eh; [|done]. injection Hd as <- <-. by exists sh.
  - intros (sh & Hu & Hd). exists (user, sh). split; [by apply elem_of_map_to_list|]. cbn. by rewrite Hd.
Qed.

Lemma secrets_unique config user s s' : (user, s) ∈ secrets_of config -> (user, s') ∈ secrets_of config -> s = s'.
Proof. rewrite !elem_of_secrets. intros (? & ? & ?) (? & ? & ?). by simplify_eq. Qed.

Lemma secret_found config user secret :
  (user, secret) ∈ secrets_of config ->
  exists i, list_find (fun e : string * bytes => e.1 = user) (secrets_of config) = Some (i, (user, secret)).
Proof.
  intros Hin. destruct (list_find_elem_of (fun e : string * bytes => e.1 = user) _ _ Hin eq_refl) as [[i [u s]] E].
  exists i. pose proof E as (Hi & Hu & _)%list_find_Some. cbn in Hu. subst u. apply list_elem_of_lookup_2 in Hi.
  by rewrite (secrets_unique config user s secret Hi Hin) in E.
Qed.

(** The list before the first entry of a user. *)
Lemma secrets_split config user secret :
  (user, secret) ∈ secrets_of config ->
  exists others rest, secrets_of config = others ++ (user, secret) :: rest /\ forall u s, (u, s) ∈ others -> u <> user.
Proof.
  intros Hin. destruct (secret_found config user secret Hin) as [i (Hi & _ & Hbefore)%list_find_Some].
  exists (take i (secrets_of config)), (drop (S i) (secrets_of config)). split; [by rewrite take_drop_middle|].
  intros u s [j Hj]%list_elem_of_lookup. apply lookup_take_Some in Hj as [Hj Hlt]. by apply (Hbefore j (u, s)).
Qed.

(** *** The replay check does not panic *)

Lemma check_digest_total w c d now : checker_wf w c -> exists seen c', check_digest c d now = Some (seen, c') /\ checker_wf w c'.
Proof.
  intros Hc. destruct (step_shards default_hash instant_min w c (RCheckAdd d now) Hc) as (c' & E & Hc' & _). cbn [replay_step] in E.
  unfold check_and_add_tls_digest. destruct (check_and_add_internal default_hash instant_min c d now) as [[seen c2]|]; [|done].
  exists seen, c2. split; [done|]. cbn in E. by simplify_eq.
Qed.

(** *** The answer *)

(** Everything a client may be answered with has the lengths of its array types. *)
Definition cache_ok (cache : TlsFrontCache) : Prop :=
  template_ok (default_entry cache) /\ map_Forall (fun _ data => template_ok data) (memory cache).

Lemma cache_get_ok cache sni : cache_ok cache -> template_ok (cache_get cache sni).
Proof. intros [Hd Hm]. unfold cache_get. destruct (memory cache !! sni) eqn:E; [by apply (Hm sni)|done]. Qed.

(** What a genuine client is answered with: the protocol it offered, and the plain answer or the emulated one. *)
Definition answer_for (config : ProxyConfig) (tls_cache : option TlsFrontCache) (handshake : bytes) (peer : SocketAddr)
    (now : Z) (secret digest session_id : bytes) (response : bytes) : Prop :=
  let c := censorship config in
  exists alpn, select_alpn config handshake = Done alpn /\
    match tls_cache with
    | Some cache =>
        if tls_emulation c then
          exists domain, select_domain cache config handshake = Done domain /\
            emulated_answer secret digest session_id (cache_get cache domain)
              (fst (take_full_cert_budget_for_ip cache (sa_ip peer) (tls_full_cert_ttl_secs c * SECOND) now))
              alpn (tls_new_session_tickets c) response
        else plain_answer secret digest session_id (fake_cert_len c) alpn (tls_new_session_tickets c) response
    | None => plain_answer secret digest session_id (fake_cert_len c) alpn (tls_new_session_tickets c) response
    end.

Lemma select_alpn_total config handshake :
  bytes_ok handshake -> exists alpn, select_alpn config handshake = Done alpn /\ forall p, alpn = Some p -> zlen p < 256.
Proof.
  intros Hok. destruct (client_hello_parsers_total handshake Hok) as [_ [l El]]. unfold select_alpn.
  destruct (alpn_enforce _); [|by exists None]. rewrite El. cbn [obind]. eexists. split; [done|].
  intros p. repeat case_bool_decide; by intros [= <-].
Qed.

Lemma select_domain_total cache config handshake :
  bytes_ok handshake -> exists domain, select_domain cache config handshake = Done domain.
Proof.
  intros Hok. destruct (client_hello_parsers_total handshake Hok) as [[found Ef] _]. unfold select_domain. rewrite Ef.
  by eexists.
Qed.

Lemma select_cached_spec tls_cache config handshake peer now :
  bytes_ok handshake ->
  exists picked cache', select_cached tls_cache config handshake peer now = Done (picked, cache') /\
    match picked with
    | Some (entry, full) =>
        exists cache domain, tls_cache = Some cache /\ tls_emulation (censorship config) = true /\
          select_domain cache config handshake = Done domain /\ entry = cache_get cache domain /\
          full = fst (take_full_cert_budget_for_ip cache (sa_ip peer) (tls_full_cert_ttl_secs (censorship config) * SECOND) now)
    | None => tls_cache = None \/ tls_emulation (censorship config) = false
    end.
Proof.
  intros Hok. unfold select_cached. destruct (tls_emulation _); [|exists None, tls_cache; by split; [|right]].
  destruct tls_cache as [cache|]; [|exists None, None; by split; [|left]].
  destruct (select_domain_total cache config handshake Hok) as [domain Ed]. rewrite Ed. cbn [obind].
  destruct (take_full_cert_budget_for_ip _ _ _ _) as [full cache'] eqn:Et. eexists _, _. split; [done|].
  exists cache, domain. by rewrite Et.
Qed.

Lemma build_response_spec config handshake peer secret v clock (st : TlsState G) :
  bytes_ok handshake -> zlen (tv_session_id v) < 256 -> 0 <= tls_new_session_tickets (censorship config) ->
  (forall cache, ts_cache st = Some cache -> cache_ok cache) ->
  exists response st', build_response config handshake peer secret v clock st = Done (response, st') /\
    ts_replay st' = ts_replay st /\
    answer_for config (ts_cache st) handshake peer (tc_cache_instant clock) secret (tv_digest v) (tv_session_id v) response.
Proof.
  intros Hok Hsid Htk Hcache. destruct (select_alpn_total config handshake Hok) as (alpn & Ea & Hal).
  destruct (select_cached_spec (ts_cache st) config handshake peer (tc_cache_instant clock) Hok) as (picked & cache' & Ec & Hp).
  unfold build_response. rewrite Ec. cbn [obind]. rewrite Ea. cbn [obind]. unfold answer_for.
  destruct picked as [[entry full]|].
  - destruct Hp as (cache & domain & Es & Ee & Ed & -> & ->).
    pose proof (emulated_hello_verifies secret (tv_digest v) (tv_session_id v) (cache_get cache domain)
      (fst (take_full_cert_budget_for_ip cache (sa_ip peer) (tls_full_cert_ttl_secs (censorship config) * SECOND)
        (tc_cache_instant clock))) (ts_rng st) alpn (tls_new_session_tickets (censorship config))
      (cache_get_ok cache domain (Hcache cache Es)) Hsid Hal Htk) as Hans.
    destruct (build_emulated_server_hello _ _ _ _ _ _ _ _) as [response rng]. eexists _, _. split; [done|]. split; [done|].
    exists alpn. split; [done|]. rewrite Es, Ee. by exists domain.
  - pose proof (server_hello_verifies secret (tv_digest v) (tv_session_id v) (fake_cert_len (censorship config)) (ts_rng st) alpn
      (tls_new_session_tickets (censorship config)) Hsid Hal Htk) as Hans.
    destruct (build_server_hello _ _ _ _ _ _ _) as [response rng]. eexists _, _. split; [done|]. split; [done|].
    exists alpn. split; [done|]. destruct Hp as [->| ->]; [done|]. by destruct (ts_cache st).
Qed.

(** *** Sending it *)

Definition send_fuel (w : upstream_w) : nat := length (w_script w) + length (w_flush w) + 2.

(** The connection failed with [io] while [response] was sent: [sent] of it is what the client has been given then. *)
Definition cut_short (fuel : nat) (writer : upstream_w) (response sent : bytes) (io : IoError) : Prop :=
  exists w' rest, response = sent ++ rest /\ w_sink w' = w_sink writer ++ sent /\
    (write_all fuel writer response = Some (Err io, w') \/
     rest = [] /\ exists w1, write_all fuel writer response = Some (Ok tt, w1) /\ flush_await fuel w1 = Some (Err io, w')).

Lemma send_response_total fuel reader writer response user :
  (send_fuel writer <= fuel)%nat ->
  exists result, send_response fuel reader writer response user = Done result /\
    match result with
    | HSuccess (rd, wr, user') =>
        rd = FakeTlsReader_new reader /\ user' = user /\
        exists w, wr = FakeTlsWriter_new w /\ w_sink w = w_sink writer ++ response
    | HBadClient _ _ => False
    | HError e => exists io sent, e = PE_Io io /\ cut_short fuel writer response sent io
    end.
Proof.
  unfold send_fuel, cut_short. intros Hf. unfold send_response.
  destruct (write_all_script fuel writer response) as (r & w & sent & rest & E & Hd & Hs & Hr & Hfl & _); [lia|]. rewrite E.
  destruct r as [[]|e]; [|eexists; split; [done|]; exists e, sent; split; [done|]; exists w, rest; by split_and!; [..|left]].
  specialize (Hr eq_refl). subst rest. rewrite app_nil_r in Hd. symmetry in Hd.
  destruct (flush_await_script fuel w) as (r & w' & Ef & Hs' & _); [rewrite Hfl; lia|]. rewrite Ef.
  rewrite Hd in Hs. destruct r as [u|e].
  - eexists. split; [done|]. split_and!; [done|done|]. exists w'. split; [done|]. by rewrite Hs'.
  - eexists. split; [done|]. exists e, response. split; [done|]. exists w', []. split_and!; [by rewrite app_nil_r|by rewrite Hs'|].
    right. split; [done|]. by exists w.
Qed.

Lemma send_response_healthy fuel reader writer response user :
  healthy writer -> (send_fuel writer <= fuel)%nat ->
  exists w, send_response fuel reader writer response user =
      Done (HSuccess (FakeTlsReader_new reader, FakeTlsWriter_new w, user)) /\ w_sink w = w_sink writer ++ response.
Proof.
  unfold send_fuel. intros Hh Hf. unfold send_response.
  destruct (write_all_healthy fuel writer response Hh) as (w & E & Hs & Hh' & Hfl); [lia|]. rewrite E.
  destruct (flush_await_healthy fuel w Hh') as (w' & Ef & Hs' & _); [rewrite Hfl; lia|]. rewrite Ef.
  exists w'. split; [done|]. by rewrite Hs', Hs.
Qed.

(** *** Who is let in *)

(** The hello was signed with the secret of [user] at an acceptable time, and its digest is new to the replay cache. *)
Definition genuine (config : ProxyConfig) (clock : TlsClock) (checker : ReplayChecker) (handshake : bytes)
    (user : string) (secret : bytes) : Prop :=
  (user, secret) ∈ secrets_of config /\
  (exists ts, handshake = sign_hello secret handshake ts /\ time_ok (ignore_time_skew (access config)) (tc_unix clock) ts) /\
  exists checker', check_digest checker (ztake 16 (slice handshake 11 43)) (tc_instant clock) = Some (false, checker').

Lemma session_id_small handshake secrets ign now v :
  bytes_ok handshake -> validate_tls_handshake handshake secrets ign now = Some v -> zlen (tv_session_id v) < 256.
Proof.
  intros Hok Hv. destruct (tls_validation_sound _ _ _ _ _ Hok Hv) as (_ & _ & _ & _ & _ & n & Hn & _ & ->).
  unfold bytes_ok in Hok. rewrite Forall_forall in Hok. assert (is_byte n) as Hb; [|unfold is_byte in Hb; lia].
  apply Hok. unfold zget in Hn. case_decide; [|done]. by eapply list_elem_of_lookup_2.
Qed.

(** What a call has done with the connection. *)
Definition hello_handled (fuel : nat) (handshake : bytes) (reader : upstream_r) (writer : upstream_w) (peer : SocketAddr) (config : ProxyConfig)
    (clock : TlsClock) (st : TlsState G) (result : HandshakeResult (FakeTlsReader * FakeTlsWriter * string) upstream_r upstream_w)
    (st' : TlsState G) : Prop :=
  match result with
  | HBadClient reader' writer' =>
      reader' = reader /\ writer' = writer /\ ts_rng st' = ts_rng st /\ ts_cache st' = ts_cache st
  | HSuccess (rd, wr, user) =>
      exists secret sid response w',
        genuine config clock (ts_replay st) handshake user secret /\
        rd = FakeTlsReader_new reader /\ wr = FakeTlsWriter_new w' /\ w_sink w' = w_sink writer ++ response /\
        answer_for config (ts_cache st) handshake peer (tc_cache_instant clock) secret (slice handshake 11 43) sid response
  | HError e =>
      exists user secret sid response sent io,
        genuine config clock (ts_replay st) handshake user secret /\ e = PE_Io io /\
        answer_for config (ts_cache st) handshake peer (tc_cache_instant clock) secret (slice handshake 11 43) sid response /\
        cut_short fuel writer response sent io
  end.

Lemma tls_handshake_outcome w fuel handshake reader writer peer config clock st :
  bytes_ok handshake -> checker_wf w (ts_replay st) -> 0 <= tls_new_session_tickets (censorship config) ->
  (forall cache, ts_cache st = Some cache -> cache_ok cache) -> (send_fuel writer <= fuel)%nat ->
  exists result st', handle fuel handshake reader writer peer config clock st = Done (result, st') /\
    checker_wf w (ts_replay st') /\ hello_handled fuel handshake reader writer peer config clock st result st'.
Proof.
  intros Hok Hc Htk Hcache Hf. unfold handle_tls_handshake. change (TLS_DIGEST_POS + TLS_DIGEST_LEN) with 43.
  change TLS_DIGEST_POS with 11. change TLS_DIGEST_HALF_LEN with 16.
  destruct (zlen handshake <? 43 + 1); [by eexists _, _|].
  destruct (check_digest_total w (ts_replay st) (ztake 16 (slice handshake 11 43)) (tc_instant clock) Hc) as (seen & c' & Ec & Hc').
  rewrite Ec. destruct seen; [by eexists _, _|].
  destruct (validate_tls_handshake _ _ _ _) as [v|] eqn:Ev; [|by eexists _, _].
  destruct (list_find _ _) as [[i [u secret]]|] eqn:Ef; [|by eexists _, _].
  apply list_find_Some in Ef as (Hi & Hu & _). cbn in Hu. subst u. apply list_elem_of_lookup_2 in Hi.
  destruct (build_response_spec config handshake peer secret v clock (mkTlsState c' (ts_rng st) (ts_cache st)) Hok
    (session_id_small _ _ _ _ _ Hok Ev) Htk Hcache) as (response & st' & -> & Hr & Hans). cbn [obind ts_replay ts_cache] in *.
  destruct (send_response_total fuel reader writer response (tv_user v) Hf) as (result & -> & Hres). cbn [obind].
  destruct (tls_validation_sound _ _ _ _ _ Hok Ev) as (secret' & Hin & Hsign & Htime & Hd & _).
  rewrite (secrets_unique _ _ _ _ Hin Hi) in Hsign. rewrite Hd in Hans.
  assert (genuine config clock (ts_replay st) handshake (tv_user v) secret) as Hg by (split_and!; [done|by eexists|by eexists]).
  exists result, st'. split; [done|]. split; [by rewrite Hr|]. destruct result as [[[rd wr] user]|r' w'|e]; [|done|].
  - destruct Hres as (-> & -> & w' & -> & Hs). by exists secret, (tv_session_id v), response, w'.
  - destruct Hres as (io & sent & -> & Hcut). by exists (tv_user v), secret, (tv_session_id v), response, sent, io.
Qed.

(** C16: nobody without a secret sees a byte.  For every string of bytes and whatever the connection does the handler
    returns, without a panic.  A client that is turned away is handed back exactly as it came, nothing drawn and
    nothing cached on its account; success, and any write error, means that the hello was signed with the
    secret of the user named, is recent and not a replay.  On success the client has been sent the answer meant for
    it and nothing else; on an error, which is that of the connection, the beginning of that answer up to where writing
    it failed. *)
Theorem tls_handshake_sound w fuel handshake reader writer peer config clock st :
  bytes_ok handshake -> checker_wf w (ts_replay st) -> 0 <= tls_new_session_tickets (censorship config) ->
  (forall cache, ts_cache st = Some cache -> cache_ok cache) -> (send_fuel writer <= fuel)%nat ->
  exists result st', handle fuel handshake reader writer peer config clock st = Done (result, st') /\
    checker_wf w (ts_replay st') /\ hello_handled fuel handshake reader writer peer config clock st result st'.
Proof. apply tls_handshake_outcome. Qed.

(** A client with a secret is let in.  A hello signed with a user's secret at an acceptable time, whose digest the
    replay cache has not seen, succeeds on a connection that does not fail, unless it happens to be signed for another
    user as well: the handler reports the user, and the client has been sent an answer that it can verify with its
    secret, its digest and its session identifier. *)
Theorem tls_handshake_accepts fuel hello user secret ts n reader writer peer config clock st checker' :
  let h := sign_hello secret hello ts in
  44 <= zlen hello -> bytes_ok hello -> zget hello 43 = Some n -> 44 + n <= zlen hello -> in_u32 ts ->
  time_ok (ignore_time_skew (access config)) (tc_unix clock) ts -> (user, secret) ∈ secrets_of config ->
  (forall u s, (u, s) ∈ secrets_of config -> u <> user ->
     validate_tls_handshake h [(u, s)] (ignore_time_skew (access config)) (tc_unix clock) = None) ->
  check_digest (ts_replay st) (ztake 16 (hello_digest secret hello ts)) (tc_instant clock) = Some (false, checker') ->
  0 <= tls_new_session_tickets (censorship config) -> (forall cache, ts_cache st = Some cache -> cache_ok cache) ->
  healthy writer -> (send_fuel writer <= fuel)%nat ->
  exists response w' st',
    handle fuel h reader writer peer config clock st =
      Done (HSuccess (FakeTlsReader_new reader, FakeTlsWriter_new w', user), st') /\
    w_sink w' = w_sink writer ++ response /\ ts_replay st' = checker' /\
    answer_for config (ts_cache st) h peer (tc_cache_instant clock) secret (hello_digest secret hello ts)
      (slice hello 44 (44 + n)) response.
Proof.
  intros h Hl Hok Hn Hs Hts Ht Hin Hothers Hfresh Htk Hcache Hh Hf.
  destruct (sign_hello_facts secret hello ts Hl) as (Hlh & Hd & _ & _). fold h in Hlh, Hd.
  assert (bytes_ok h) as Hokh by by apply sign_hello_ok.
  destruct (secrets_split config user secret Hin) as (others & rest & El & Hne).
  assert (validate_tls_handshake h (secrets_of config) (ignore_time_skew (access config)) (tc_unix clock) =
    Some (mkTlsValidation user (slice hello 44 (44 + n)) (hello_digest secret hello ts) ts)) as Ev.
  { rewrite El. apply tls_client_recognised; [done..|]. apply Forall_forall. intros [u s] Hus.
    apply Hothers; [|by apply (Hne u s)]. rewrite El. apply elem_of_app. by left. }
  unfold handle_tls_handshake. change (TLS_DIGEST_POS + TLS_DIGEST_LEN) with 43. change TLS_DIGEST_POS with 11.
  change TLS_DIGEST_HALF_LEN with 16. destruct (Z.ltb_spec (zlen h) (43 + 1)); [lia|]. rewrite Hd, Hfresh, Ev. cbn [tv_user].
  destruct (secret_found config user secret Hin) as [i Ei]. rewrite Ei.
  destruct (build_response_spec config h peer secret (mkTlsValidation user (slice hello 44 (44 + n)) (hello_digest secret hello ts) ts)
    clock (mkTlsState checker' (ts_rng st) (ts_cache st)) Hokh (session_id_small _ _ _ _ _ Hokh Ev) Htk Hcache)
    as (response & st' & -> & Hr & Hans). cbn [obind ts_replay ts_cache tv_digest tv_session_id tv_user] in *.
  destruct (send_response_healthy fuel reader writer response user Hh Hf) as (w' & -> & Hsink). cbn [obind].
  by exists response, w', st'.
Qed.

End Facts.

(** ** Runs *)

Import Crypto.Demo Random.DemoRng.

Definition demo_unhex (s : string) : option bytes :=
  if decide (s = "aa"%string) then Some [170] else if decide (s = "bb"%string) then Some [1; 2] else None.
Definition demo_tls_config : ProxyConfig :=
  ProxyConfig_default {{ access -> users := {["zed"%string := "no hex"%string; "ann"%string := "aa"%string; "bob"%string := "bb"%string]};
                         censorship -> tls_emulation := true; censorship -> tls_new_session_tickets := 1 }}.
Definition demo_cache : TlsFrontCache :=
  cache_set (TlsFrontCache_new [str "petrovich.ru"] 1024 (str "tlsfront") 0) (str "a.b") demo_cached.
Definition demo_tls_state : TlsState Z := mkTlsState (ReplayChecker_new 64 100) 6 (Some demo_cache).
Definition demo_clock : TlsClock := mkTlsClock 5 1700000100 7.
Definition demo_writer : upstream_w := mkUpW [WrAccept 100; WrPending] [] [Pending].
Definition demo_from : SocketAddr := mkSocketAddr (V4 [10; 0; 0; 1]) 50000.
Definition demo_checked : ReplayChecker :=
  match check_and_add_tls_digest le_val (-1000) (ReplayChecker_new 64 100)
          (ztake 16 (hello_digest [1; 2] (enc_client_hello demo_hello) 1700000000)) 5 with
  | Some (_, c) => c
  | None => ReplayChecker_new 64 100
  end.

Lemma demo_cache_ok : cache_ok demo_cache.
Proof. split; [by split|]. apply map_Forall_insert_2; [by split|]. apply map_Forall_insert_2; [by split|]. apply map_Forall_empty. Qed.

(** What the handler does with a hello: the user, the number of bytes sent and the time the full certificate was sent. *)
Definition demo_run (hello : bytes) : option string * Z * option Z :=
  match handle_tls_handshake le_val (-1000) demo_unhex 5 hello [RdPending] demo_writer demo_from demo_tls_config demo_clock
          demo_tls_state with
  | Done (HSuccess (_, wr, user), st) =>
      (Some user, zlen (w_sink (tw_upstream wr)), match ts_cache st with Some cache => full_cert_sent cache !! sa_ip demo_from | None => None end)
  | Done (HBadClient _ wr, _) => (None, zlen (w_sink wr), None)
  | _ => (None, -1, None)
  end.

Example demo_handled :
  demo_run demo_signed = (Some "bob"%string, 522, Some 7) /\ demo_run (enc_client_hello demo_hello) = (None, 0, None).
Proof. split; vm_eq. Qed.

(** The unsigned hello is turned away. *)
Lemma tls_handshake_sound_witness :
  exists result st',
    handle_tls_handshake le_val (-1000) demo_unhex 5 (enc_client_hello demo_hello) [RdPending] demo_writer demo_from demo_tls_config
      demo_clock demo_tls_state = Done (result, st') /\
    checker_wf 100 (ts_replay st') /\
    match result with
    | HBadClient reader' writer' =>
        reader' = [RdPending] /\ writer' = demo_writer /\ ts_rng st' = 6 /\ ts_cache st' = Some demo_cache
    | HSuccess (rd, wr, user) =>
        exists secret sid response w',
          genuine le_val (-1000) demo_unhex demo_tls_config demo_clock (ReplayChecker_new 64 100) (enc_client_hello demo_hello) user secret /\
          rd = FakeTlsReader_new [RdPending] /\ wr = FakeTlsWriter_new w' /\ w_sink w' = w_sink demo_writer ++ response /\
          answer_for demo_tls_config (Some demo_cache) (enc_client_hello demo_hello) demo_from 7 secret
            (slice (enc_client_hello demo_hello) 11 43) sid response
    | HError e =>
        exists user secret sid response sent io,
          genuine le_val (-1000) demo_unhex demo_tls_config demo_clock (ReplayChecker_new 64 100) (enc_client_hello demo_hello) user secret /\
          e = PE_Io io /\
          answer_for demo_tls_config (Some demo_cache) (enc_client_hello demo_hello) demo_from 7 secret
            (slice (enc_client_hello demo_hello) 11 43) sid response /\
          cut_short 5 demo_writer response sent io
    end.
Proof.
  apply (tls_handshake_sound le_val (-1000) demo_unhex 100 5 (enc_client_hello demo_hello) [RdPending] demo_writer demo_from
    demo_tls_config demo_clock demo_tls_state).
  - apply (bool_decide_unpack _). vm_compute. exact I.
  - by split_and!.
  - vm_compute. discriminate.
  - intros cache [= <-]. exact demo_cache_ok.
  - vm_compute. lia.
Defined.
