(* ===== verification/Beobachten.v ===== *)
(** * Observed probes: [stats/beobachten.rs]

    A table of how often an address has behaved like a scanner, by class; entries are forgotten some time after the last
    observation.  Instants and durations are in nanoseconds; the lock makes each method one step; the iteration order of the
    hash map is that of [map_to_list]. *)

From stdpp Require Import gmap sorting.
From S2P Require Import Prelude NetAddr ConfigTypes.

Definition CLEANUP_INTERVAL : Z := 30 * 1000000000.

Record BeobachtenEntry := mkBeobachtenEntry { tries : Z; last_seen : Z }.
Record BeobachtenStore := mkBeobachtenStore {
  entries : gmap (string * IpAddr) BeobachtenEntry;
  last_cleanup : option Z
}.

Definition BeobachtenStore_new : BeobachtenStore := mkBeobachtenStore ∅ None.

(** [saturating_duration_since] *)
Definition since (now t : Z) : Z := Z.max 0 (now - t).

Definition fresh (now ttl : Z) (e : BeobachtenEntry) : Prop := since now (last_seen e) <= ttl.
Definition cleanup (inner : BeobachtenStore) (now ttl : Z) : BeobachtenStore :=
  mkBeobachtenStore (filter (fun e : string * IpAddr * BeobachtenEntry => since now (last_seen e.2) <= ttl) (entries inner)) (last_cleanup inner).

Definition cleanup_if_needed (inner : BeobachtenStore) (now ttl : Z) : BeobachtenStore :=
  let should_cleanup :=
    match last_cleanup inner with Some last => CLEANUP_INTERVAL <=? since now last | None => true end in
  if should_cleanup then mkBeobachtenStore (entries (cleanup inner now ttl)) (Some now) else inner.

Definition U64_MAX : Z := 2 ^ 64 - 1.

Definition record (self : BeobachtenStore) (class : string) (ip : IpAddr) (ttl now : Z) : BeobachtenStore :=
  if String.eqb class "" || (ttl =? 0) then self
  else
    let guard := cleanup_if_needed self now ttl in
    let entry := default (mkBeobachtenEntry 0 now) (entries guard !! (class, ip)) in
    let entry := mkBeobachtenEntry (Z.min (tries entry + 1) U64_MAX) now in
    mkBeobachtenStore (<[(class, ip) := entry]> (entries guard)) (last_cleanup guard).

(** *** [snapshot_text] *)

(** The order of strings, on bytes. *)
Fixpoint bytes_leb (a b : bytes) : bool :=
  match a, b with
  | [], _ => true
  | _ :: _, [] => false
  | x :: a, y :: b => (x <? y) || ((x =? y) && bytes_leb a b)
  end.

(** Most tries first, then by the text of the address. *)
Definition row_le (a b : IpAddr * Z) : Prop :=
  (b.2 <? a.2) || ((b.2 =? a.2) && bytes_leb (fmt_ip a.1) (fmt_ip b.1)) = true.
#[global] Instance row_le_dec a b : Decision (row_le a b).
Proof. unfold row_le. apply _. Defined.

(** The rows of one class. *)
Definition class_rows (m : gmap (string * IpAddr) BeobachtenEntry) (class : string) : list (IpAddr * Z) :=
  merge_sort row_le
    (omap (fun e : string * IpAddr * BeobachtenEntry => if String.eqb e.1.1 class then Some (e.1.2, tries e.2) else None)
      (map_to_list m)).

Definition classes (m : gmap (string * IpAddr) BeobachtenEntry) : list string :=
  merge_sort name_le (remove_dups (map (fun e : string * IpAddr * BeobachtenEntry => e.1.1) (map_to_list m))).

Definition snapshot (m : gmap (string * IpAddr) BeobachtenEntry) : list (string * list (IpAddr * Z)) :=
  map (fun class => (class, class_rows m class)) (classes m).

Definition show_class (group : string * list (IpAddr * Z)) : bytes :=
  91 :: str group.1 ++ str "]" ++ [10] ++ concat (map (fun row => fmt_ip row.1 ++ 45 :: fmt_num 10 row.2 ++ [10]) group.2).

Definition snapshot_text (self : BeobachtenStore) (ttl now : Z) : bytes * BeobachtenStore :=
  if ttl =? 0 then (str "beobachten disabled" ++ [10], self)
  else
    let guard := mkBeobachtenStore (entries (cleanup self now ttl)) (Some now) in
    let grouped := snapshot (entries guard) in
    (if decide (grouped = []) then str "empty" ++ [10] else concat (map show_class grouped), guard).

(** ** Facts *)

(** A snapshot has a row for exactly the pairs observed within the last [ttl]. *)
Lemma snapshot_fresh self ttl now class ip n :
  0 < ttl ->
  (exists rows, (class, rows) ∈ snapshot (entries (snd (snapshot_text self ttl now))) /\ (ip, n) ∈ rows) <->
  exists e, entries self !! (class, ip) = Some e /\ tries e = n /\ fresh now ttl e.
Proof.
  intros Ht. unfold snapshot_text. destruct (Z.eqb_spec ttl 0); [lia|]. cbn [snd entries]. set (m := entries (cleanup self now ttl)).
  assert (forall e, m !! (class, ip) = Some e <-> entries self !! (class, ip) = Some e /\ fresh now ttl e) as Hm.
  { intros e. unfold m, cleanup. cbn [entries]. apply map_lookup_filter_Some. }
  transitivity (exists e, m !! (class, ip) = Some e /\ tries e = n).
  2:{ split; [intros (e & He%Hm & Hn)|intros (e & He & Hn & Hf)]; exists e; [naive_solver|]. split; [by apply Hm|done]. }
  unfold snapshot. setoid_rewrite list_elem_of_fmap. split.
  - intros (rows & (c & [= <- ->] & _) & Hin). unfold class_rows in Hin. rewrite merge_sort_Permutation in Hin.
    apply list_elem_of_omap in Hin as ([[c i] e] & Hin%elem_of_map_to_list & Hr). cbn in Hr.
    destruct (String.eqb_spec c class); [|done]. simplify_eq. by exists e.
  - intros (e & He & Hn). apply elem_of_map_to_list in He. exists (class_rows m class). split.
    + exists class. split; [done|]. unfold classes. rewrite merge_sort_Permutation. apply elem_of_remove_dups, list_elem_of_fmap.
      by exists (class, ip, e).
    + unfold class_rows. rewrite merge_sort_Permutation. apply list_elem_of_omap. exists (class, ip, e). split; [done|].
      cbn. by rewrite String.eqb_refl, Hn.
Qed.

(** An observation counts once and leaves the other pairs as they were, the forgotten ones excepted. *)
Lemma record_counts self class ip ttl now e :
  class <> ""%string -> 0 < ttl -> entries self !! (class, ip) = Some e -> fresh now ttl e -> tries e < U64_MAX ->
  entries (record self class ip ttl now) !! (class, ip) = Some (mkBeobachtenEntry (tries e + 1) now).
Proof.
  intros Hc Ht He Hf Hn. unfold record. destruct (String.eqb_spec class ""); [done|]. destruct (Z.eqb_spec ttl 0); [lia|]. cbn [orb].
  assert (entries (cleanup_if_needed self now ttl) !! (class, ip) = Some e) as Hg.
  { unfold cleanup_if_needed. destruct (match last_cleanup self with Some last => CLEANUP_INTERVAL <=? since now last | None => true end); [|done]. cbn [entries cleanup].
    apply map_lookup_filter_Some. by split. }
  cbn [entries]. rewrite lookup_insert_eq, Hg. cbn. by rewrite (Z.min_l (tries e + 1)) by lia.
Qed.

Example demo_snapshot :
  let ip n := V4 [10; 0; 0; n] in
  let s := record BeobachtenStore_new "SSH" (ip 2) 100 5 in
  let s := record (record s "HTTP" (ip 1) 100 6) "SSH" (ip 1) 100 7 in
  let s := record s "SSH" (ip 2) 100 8 in
  fst (snapshot_text s 100 9) =
    str "[HTTP]" ++ [10] ++ str "10.0.0.1-1" ++ [10] ++ str "[SSH]" ++ [10] ++ str "10.0.0.2-2" ++ [10] ++ str "10.0.0.1-1" ++ [10] /\
  fst (snapshot_text s 100 300) = str "empty" ++ [10].
Proof. split; vm_eq. Qed.
