(* ===== verification/Masking.v ===== *)
(** * Masking: [proxy/masking.rs]

    A connection that is not a client's is connected to the server the proxy imitates: first a PROXY protocol header if
    one is configured, then what has been read already, then everything else, in both directions.  The two copying
    loops run as tasks of their own: a schedule says whose turn is next.  Connecting is an outcome of the environment. *)

From S2P Require Import Prelude NetAddr Errors AsyncIo ProxyProtocol DnsOverrides ConfigTypes Beobachten.

Definition MASK_BUFFER_SIZE : Z := 8192.

(** ** What the client looks like (masking.rs:25-50) *)

Definition begins (p : string) (data : bytes) : bool := bool_decide (str p `prefix_of` data).

Definition detect_client_type (data : bytes) : string :=
  if (4 <? zlen data) &&
     (begins "GET " data || begins "POST" data || begins "HEAD" data || begins "PUT " data || begins "DELETE" data ||
      begins "OPTIONS" data) then "HTTP"
  else if (3 <? zlen data) && bool_decide (zget data 0 = Some 0x16) && bool_decide (zget data 1 = Some 0x03) then "TLS-scanner"
  else if begins "SSH-" data then "SSH"
  else if zlen data <? 10 then "port-scanner"
  else "unknown".

(** ** Where it goes (masking.rs:79-171) *)

Inductive MaskTarget := UnixSocket (path : bytes) | TcpAddress (addr : bytes).

Definition mask_target (config : ProxyConfig) (store : OverrideMap) : MaskTarget :=
  let c := censorship config in
  match mask_unix_sock c with
  | Some sock_path => UnixSocket sock_path
  | None =>
      let host := default (tls_domain c) (mask_host c) in
      TcpAddress
        match resolve_socket_addr store host (mask_port c) with
        | Some addr => fmt_socket_addr addr
        | None => host ++ 58 :: fmt_num 10 (mask_port c)
        end
  end.

Definition mask_proxy_header (version : Z) (peer local_addr : SocketAddr) : option bytes :=
  if version =? 0 then None
  else if version =? 2 then Some (V2Builder_build (V2Builder_with_addrs V2Builder_new peer local_addr))
  else
    match sa_ip peer, sa_ip local_addr with
    | V4 _, V4 _ => Some (V1Builder_build (V1Builder_tcp4 V1Builder_new peer local_addr))
    | V6 _, V6 _ => Some (V1Builder_build (V1Builder_tcp6 V1Builder_new peer local_addr))
    | _, _ => Some (V1Builder_build V1Builder_new)
    end.

(** ** The relay (masking.rs:193-249) *)

(** How a copying task ends: the source ended and the other side was shut down, or the destination refused. *)
Inductive task_end := ShutDown | WriteFailed.

(** One turn of a copying loop: a read and what it gives is written.  A read of a source that has fallen silent is not
    answered, and the turn does nothing. *)
Definition copy_turn (reader : upstream_r) (writer : upstream_w) : option (upstream_r * upstream_w * option task_end) :=
  match async_read reader MASK_BUFFER_SIZE with
  | None => Some (reader, writer, None)
  | Some (Err _, reader) => Some (reader, writer, Some ShutDown)
  | Some (Ok buf, reader) =>
      if zlen buf =? 0 then Some (reader, writer, Some ShutDown)
      else
        '(r, writer) ← write_all (length (w_script writer) + 2) writer buf;
        Some (reader, writer, match r with Ok _ => None | Err _ => Some WriteFailed end)
  end.

Record MaskRelay := mkMaskRelay {
  mr_reader : upstream_r;
  mr_writer : upstream_w;
  mr_mask_read : upstream_r;
  mr_mask_write : upstream_w;
  mr_c2m : option task_end;
  mr_m2c : option task_end
}.

(** A turn of the task that copies to the mask, or of the one that copies back; a task that has ended does nothing. *)
Definition relay_turn (s : MaskRelay) (to_mask : bool) : option MaskRelay :=
  if to_mask then
    match mr_c2m s with
    | Some _ => Some s
    | None =>
        '(reader, mask_write, e) ← copy_turn (mr_reader s) (mr_mask_write s);
        Some (mkMaskRelay reader (mr_writer s) (mr_mask_read s) mask_write e (mr_m2c s))
    end
  else
    match mr_m2c s with
    | Some _ => Some s
    | None =>
        '(mask_read, writer, e) ← copy_turn (mr_mask_read s) (mr_writer s);
        Some (mkMaskRelay (mr_reader s) writer mask_read (mr_mask_write s) (mr_c2m s) e)
    end.

Fixpoint relay_turns (s : MaskRelay) (sched : list bool) : option MaskRelay :=
  match sched with
  | [] => Some s
  | t :: sched => s ← relay_turn s t; relay_turns s sched
  end.

(** The [select!]: the function returns when one task has ended.  Neither that nor the timeout around it stops the
    other: the tasks are spawned, and a dropped handle detaches its task. *)
Definition relay_returned (s : MaskRelay) : bool := bool_decide (is_Some (mr_c2m s)) || bool_decide (is_Some (mr_m2c s)).

(** ** [handle_bad_client] (masking.rs:52-191) *)

(** The answer to connecting: the stream's halves, or nothing on an error and after five seconds. *)
Definition MaskConnect : Type := MaskTarget -> option (upstream_r * upstream_w).

Inductive Masked :=
| Consuming (reader : upstream_r) (writer : upstream_w) (ended : bool)
| MaskRefused (mask_write : upstream_w)
| Relaying (s : MaskRelay).

Definition write_to_mask (mask_write : upstream_w) (data : bytes) : option (io_result unit * upstream_w) :=
  write_all (length (w_script mask_write) + 2) mask_write data.

(** [relay_to_mask], after [turns]. *)
Definition relay_to_mask (reader : upstream_r) (writer : upstream_w) (mask_read : upstream_r) (mask_write : upstream_w)
    (initial_data : bytes) (turns : list bool) : option Masked :=
  '(r, mask_write) ← write_to_mask mask_write initial_data;
  match r with
  | Err _ => Some (MaskRefused mask_write)
  | Ok _ => s ← relay_turns (mkMaskRelay reader writer mask_read mask_write None None) turns; Some (Relaying s)
  end.

Definition beobachten_ttl (config : ProxyConfig) : Z :=
  Z.min (beobachten_minutes (general config) * 60) U64_MAX * 1000000000.

Definition observe (config : ProxyConfig) (store : BeobachtenStore) (class : string) (ip : IpAddr) (now : Z) : BeobachtenStore :=
  if beobachten (general config) then record store class ip (beobachten_ttl config) now else store.

(** [consume_client_data], after so many turns: what is left to read and whether the loop has ended. *)
Fixpoint consume_client_data (turns : nat) (reader : upstream_r) : option (upstream_r * bool) :=
  match turns with
  | O => Some (reader, false)
  | S turns =>
      match async_read reader MASK_BUFFER_SIZE with
      | None => Some (reader, false)
      | Some (Ok bs, reader) => if zlen bs =? 0 then Some (reader, true) else consume_client_data turns reader
      | Some (Err _, reader) => Some (reader, true)
      end
  end.

Definition consuming (reader : upstream_r) (writer : upstream_w) (turns : list bool) : option Masked :=
  '(reader, ended) ← consume_client_data (length turns) reader; Some (Consuming reader writer ended).

Definition handle_bad_client (reader : upstream_r) (writer : upstream_w) (initial_data : bytes) (peer local_addr : SocketAddr)
    (config : ProxyConfig) (store : OverrideMap) (beobachten : BeobachtenStore) (now : Z) (connect : MaskConnect)
    (turns : list bool) : option (Masked * BeobachtenStore) :=
  let beobachten := observe config beobachten (detect_client_type initial_data) (sa_ip peer) now in
  masked ←
    (if negb (mask (censorship config)) then consuming reader writer turns
     else
       match connect (mask_target config store) with
       | None => consuming reader writer turns
       | Some (mask_read, mask_write) =>
           match mask_proxy_header (mask_proxy_protocol (censorship config)) peer local_addr with
           | Some header =>
               '(r, mask_write) ← write_to_mask mask_write header;
               match r with
               | Err _ => Some (MaskRefused mask_write)
               | Ok _ => relay_to_mask reader writer mask_read mask_write initial_data turns
               end
           | None => relay_to_mask reader writer mask_read mask_write initial_data turns
           end
       end);
  Some (masked, beobachten).

(** ** What the two sides see *)

(** A copying task that started with [r0] and had written [sink]: what it has read it has written, but for a refused
    write; it ends with its source, whose bytes are then all written if the source does not fail; and when the
    destination accepts what it is offered ([fit]), it ends only with its source. *)
Definition copied (fit : Prop) (r0 : upstream_r) (sink : bytes) (r : upstream_r) (w : upstream_w) (e : option task_end) : Prop :=
  exists consumed accepted,
    up_bytes r0 = consumed ++ up_bytes r /\ w_sink w = sink ++ accepted /\ accepted `prefix_of` consumed /\
    (e <> Some WriteFailed -> accepted = consumed) /\ up_ends r = up_ends r0 /\
    (up_live r0 = true -> up_live r = true /\ (e = Some ShutDown -> up_bytes r = [])) /\
    (fit -> healthy w /\ e <> Some WriteFailed).

Lemma async_read_live up cap a up' :
  0 < cap -> up_live up = true -> async_read up cap = Some (a, up') ->
  up_live up' = true /\ match a with Ok bs => bs = [] -> up_bytes up' = [] | Err _ => up_bytes up' = [] end.
Proof.
  intros Hc Hl E. destruct (@async_read_spec _ _ script_read_ok up cap Hc Hl) as (a' & r' & E' & Hl' & Ha). rewrite E in E'. injection E' as <- <-.
  split; [done|]. destruct a as [bs|e]; [|by destruct Ha]. destruct Ha as (_ & Hb & Hnil). intros ->. specialize (Hnil eq_refl).
  cbn in Hb, Hnil. congruence.
Qed.

Lemma copied_start (fit : Prop) r w : (fit -> healthy w) -> copied fit r (w_sink w) r w None.
Proof. intros Hf. exists [], []. rewrite app_nil_r. split_and!; try done. intros H. split; [by apply Hf|done]. Qed.

(** What has been read is written, as far as the destination accepts it. *)
Lemma write_copied (fit : Prop) r r' w bs :
  up_bytes r = bs ++ up_bytes r' -> up_ends r' = up_ends r -> (up_live r = true -> up_live r' = true) -> (fit -> healthy w) ->
  exists x w', write_all (length (w_script w) + 2) w bs = Some (x, w') /\
    copied fit r (w_sink w) r' w' (match x with Ok _ => None | Err _ => Some WriteFailed end).
Proof.
  intros Hb He Hl Hfit. destruct (write_all_script (length (w_script w) + 2) w bs) as (x & w' & sent & rest & Ew & Hd & Hsink & Hx & _); [lia|].
  exists x, w'. split; [done|]. exists bs, sent. split_and!; [done|done|by exists rest| |done|..].
  - intros Hne. destruct x as [[]|]; [|done]. rewrite Hx in Hd by done. by rewrite app_nil_r in Hd.
  - intros Hlive. split; [by apply Hl|]. by destruct x.
  - intros Hf. destruct (write_all_healthy (length (w_script w) + 2) w bs (Hfit Hf)) as (w2 & E2 & _ & Hh & _); [lia|].
    rewrite Ew in E2. by injection E2 as -> ->.
Qed.

Lemma copy_turn_spec (fit : Prop) r w :
  (fit -> healthy w) ->
  exists r' w' e, copy_turn r w = Some (r', w', e) /\ copied fit r (w_sink w) r' w' e /\
    (e = None -> up_ends r = true -> (up_size r' < up_size r)%nat).
Proof.
  intros Hfit. unfold copy_turn. pose proof (up_async_read r MASK_BUFFER_SIZE ltac:(done)) as Hr.
  pose proof (async_read_live r MASK_BUFFER_SIZE) as Hlive.
  destruct (async_read r MASK_BUFFER_SIZE) as [[a r']|] eqn:E.
  2:{ exists r, w, None. split; [done|]. split; [by apply copied_start|]. intros _ He. cbn in Hr. congruence. }
  destruct Hr as (Hs & He & Ha). specialize (Hlive a r' ltac:(done)).
  assert (forall bs, up_bytes r = bs ++ up_bytes r' -> bs = [] -> (up_live r = true -> up_bytes r' = []) ->
    copied fit r (w_sink w) r' w (Some ShutDown)) as Hend.
  { intros bs Hb -> Hnil. exists [], []. rewrite app_nil_r. split_and!; try done.
    - intros Hl. split; [by apply Hlive|]. intros _. by apply Hnil.
    - intros Hf. split; [by apply Hfit|done]. }
  destruct a as [bs|e].
  - destruct Ha as (_ & Hb & Hlt). destruct (Z.eqb_spec (zlen bs) 0) as [Hz|Hz].
    + apply zlen_zero_nil in Hz. exists r', w, (Some ShutDown). split_and!; [done| |done]. apply (Hend bs Hb Hz).
      intros Hl. by apply (Hlive Hl).
    + destruct (write_copied fit r r' w bs Hb He) as (x & w' & Ew & Hc); [by intros Hl; apply (Hlive Hl)|done|].
      rewrite Ew. cbn. eexists r', w', _. split; [done|]. split; [done|]. intros _ _. apply Hlt. by intros ->.
  - exists r', w, (Some ShutDown). split_and!; [done| |done]. apply (Hend []); [done|done|]. intros Hl. by apply (Hlive Hl).
Qed.

Lemma copied_turn (fit : Prop) r0 sink r w r' w' e :
  copied fit r0 sink r w None -> copied fit r (w_sink w) r' w' e -> copied fit r0 sink r' w' e.
Proof.
  intros (c & a & Hb & Hs & _ & He & Hn & Hl & Hf) (c' & a' & Hb' & Hs' & Hp' & He' & Hn' & Hl' & Hf'). rewrite (He ltac:(done)) in Hs.
  exists (c ++ c'), (c ++ a'). split_and!.
  - by rewrite Hb, Hb', app_assoc.
  - by rewrite Hs', Hs, app_assoc.
  - by apply prefix_app.
  - intros Hne. by rewrite (He' Hne).
  - congruence.
  - intros Hlive. destruct (Hl Hlive) as [H1 _]. by apply Hl'.
  - done.
Qed.

Lemma copied_fit (fit : Prop) r0 sink r w e : copied fit r0 sink r w e -> fit -> healthy w.
Proof. intros (c & a & _ & _ & _ & _ & _ & _ & Hf) H. by apply Hf. Qed.

(** Both tasks, from the start. *)
Definition relay_copied (fit_mask fit_client : Prop) (s0 s : MaskRelay) : Prop :=
  copied fit_mask (mr_reader s0) (w_sink (mr_mask_write s0)) (mr_reader s) (mr_mask_write s) (mr_c2m s) /\
  copied fit_client (mr_mask_read s0) (w_sink (mr_writer s0)) (mr_mask_read s) (mr_writer s) (mr_m2c s).

(** Turns a task may still need, when its source does not fall silent. *)
Definition left_of (e : option task_end) (r : upstream_r) : nat := match e with None => S (up_size r) | Some _ => O end.

(** A task has [k] fewer turns to go, unless it waits for a source that has fallen silent. *)
Definition nearer (k : nat) (e : option task_end) (r : upstream_r) (e' : option task_end) (r' : upstream_r) : Prop :=
  up_ends r' = up_ends r /\ (up_ends r = true -> (left_of e' r' <= left_of e r - k)%nat).

Lemma nearer_refl e r : nearer 0 e r e r.
Proof. split; [done|]. intros _. lia. Qed.

Lemma nearer_trans k1 k2 e r e1 r1 e2 r2 : nearer k1 e r e1 r1 -> nearer k2 e1 r1 e2 r2 -> nearer (k1 + k2) e r e2 r2.
Proof. intros [E1 H1] [E2 H2]. split; [congruence|]. intros He. specialize (H1 He). rewrite <-E1 in He. specialize (H2 He). lia. Qed.

Lemma task_turn (fit : Prop) r0 sink r w :
  copied fit r0 sink r w None ->
  exists r' w' e, copy_turn r w = Some (r', w', e) /\ copied fit r0 sink r' w' e /\ nearer 1 None r e r'.
Proof.
  intros Hc. destruct (copy_turn_spec fit r w (copied_fit _ _ _ _ _ _ Hc)) as (r' & w' & e & E & Hcp & Hlt).
  exists r', w', e. split; [done|]. split; [by eapply copied_turn|]. split.
  - by destruct Hcp as (c & a & _ & _ & _ & _ & He & _).
  - intros He. destruct e; cbn [left_of]; [lia|]. specialize (Hlt eq_refl He). lia.
Qed.

Section Turns.
Variables (fit_mask fit_client : Prop).

Lemma relay_turn_spec s0 s t :
  relay_copied fit_mask fit_client s0 s ->
  exists s', relay_turn s t = Some s' /\ relay_copied fit_mask fit_client s0 s' /\
    nearer (if t then 1 else 0) (mr_c2m s) (mr_reader s) (mr_c2m s') (mr_reader s') /\
    nearer (if t then 0 else 1) (mr_m2c s) (mr_mask_read s) (mr_m2c s') (mr_mask_read s').
Proof.
  intros [Hc Hm]. destruct s as [r w mr mw ec em]. unfold relay_turn. cbn [mr_reader mr_writer mr_mask_read mr_mask_write mr_c2m mr_m2c] in *.
  assert (forall k e r, nearer k (Some e) r (Some e) r) as Hdone by (intros; split; [done|]; cbn; lia).
  destruct t.
  - destruct ec as [e|]; [eexists; split; [done|]; split; [done|]; split; [apply Hdone|apply nearer_refl]|].
    destruct (task_turn _ _ _ _ _ Hc) as (r' & mw' & e & E & Hcp & Hn). rewrite E. cbn. eexists. split; [done|]. split; [done|]. split; [done|apply nearer_refl].
  - destruct em as [e|]; [eexists; split; [done|]; split; [done|]; split; [apply nearer_refl|apply Hdone]|].
    destruct (task_turn _ _ _ _ _ Hm) as (mr' & w' & e & E & Hcp & Hn). rewrite E. cbn. eexists. split; [done|]. split; [done|]. split; [apply nearer_refl|done].
Qed.

Definition turns_of (b : bool) (turns : list bool) : nat := length (filter (fun t => t = b) turns).

Lemma turns_of_cons b t turns : turns_of b (t :: turns) = ((if Bool.eqb t b then 1 else 0) + turns_of b turns)%nat.
Proof. by destruct b, t. Qed.

Lemma relay_turns_spec turns : forall s0 s,
  relay_copied fit_mask fit_client s0 s ->
  exists s', relay_turns s turns = Some s' /\ relay_copied fit_mask fit_client s0 s' /\
    nearer (turns_of true turns) (mr_c2m s) (mr_reader s) (mr_c2m s') (mr_reader s') /\
    nearer (turns_of false turns) (mr_m2c s) (mr_mask_read s) (mr_m2c s') (mr_mask_read s').
Proof.
  induction turns as [|t turns IH]; intros s0 s Hs; cbn [relay_turns].
  { exists s. by split_and!; [| |apply nearer_refl..]. }
  rewrite !turns_of_cons. destruct (relay_turn_spec s0 s t Hs) as (s1 & -> & Hs1 & Hc & Hm). destruct (IH s0 s1 Hs1) as (s' & E & Hs' & Hc' & Hm').
  cbn. exists s'. split; [done|]. split; [done|].
  split; eapply nearer_trans; try done; by destruct t.
Qed.

End Turns.

(** The client's bytes when there is no server: so many reads, and the loop ends with the client. *)
Definition consumed_ok (turns : nat) (reader reader' : upstream_r) (ended : bool) : Prop :=
  (exists consumed, up_bytes reader = consumed ++ up_bytes reader') /\
  (up_ends reader = true -> (up_size reader < turns)%nat -> ended = true) /\
  (up_live reader = true -> ended = true -> up_bytes reader' = []).

Lemma consume_spec turns : forall reader,
  exists reader' ended, consume_client_data turns reader = Some (reader', ended) /\ consumed_ok turns reader reader' ended.
Proof.
  induction turns as [|turns IH]; intros reader; cbn [consume_client_data].
  { eexists _, _. split; [done|]. split_and!; [by exists []|lia|done]. }
  pose proof (up_async_read reader MASK_BUFFER_SIZE ltac:(done)) as Hr. pose proof (async_read_live reader MASK_BUFFER_SIZE) as Hlive.
  destruct (async_read reader MASK_BUFFER_SIZE) as [[a r']|].
  2:{ eexists _, _. split; [done|]. cbn in Hr. split_and!; [by exists []|congruence|done]. }
  destruct Hr as (Hs & He & Ha). specialize (Hlive a r' ltac:(done)). destruct a as [bs|e].
  - destruct Ha as (_ & Hb & Hlt). destruct (Z.eqb_spec (zlen bs) 0) as [Hz|Hz].
    + eexists _, _. split; [done|]. split_and!; [by exists bs|done|]. intros Hl _. apply (Hlive Hl eq_refl). by apply zlen_zero_nil.
    + destruct (IH r') as (r2 & ended & -> & (c & Hc) & Hend & Hall). eexists _, _. split; [done|].
      assert (bs <> []) as Hne by (by intros ->). specialize (Hlt Hne).
      split_and!; [exists (bs ++ c); by rewrite Hb, Hc, app_assoc|intros He1 Ht; apply Hend; [congruence|lia]|].
      intros Hl. apply Hall. by apply Hlive.
  - eexists _, _. split; [done|]. split_and!; [by exists []|done|]. intros Hl _. by apply (Hlive Hl eq_refl).
Qed.

Lemma write_to_mask_spec w data :
  exists r w' sent rest, write_to_mask w data = Some (r, w') /\ data = sent ++ rest /\ w_sink w' = w_sink w ++ sent /\
    (r = Ok tt -> rest = []) /\ (healthy w -> r = Ok tt /\ healthy w').
Proof.
  destruct (write_all_script (length (w_script w) + 2) w data) as (r & w' & sent & rest & E & Hd & Hs & Hr & _); [lia|].
  exists r, w', sent, rest. split_and!; [done..|]. intros Hh.
  destruct (write_all_healthy (length (w_script w) + 2) w data Hh) as (w2 & E2 & _ & Hh2 & _); [lia|]. rewrite E in E2. by injection E2 as -> ->.
Qed.

(** What the mask is sent first. *)
Definition mask_preamble (config : ProxyConfig) (peer local_addr : SocketAddr) (initial_data : bytes) : bytes :=
  default [] (mask_proxy_header (mask_proxy_protocol (censorship config)) peer local_addr) ++ initial_data.

(** The relay as the two sides see it: the mask is given the preamble and then the client's bytes, the client the mask's;
    a task that has had enough turns has ended, unless its source has fallen silent. *)
Definition relayed (reader : upstream_r) (writer : upstream_w) (mask_read : upstream_r) (mask_write : upstream_w)
    (preamble : bytes) (turns : list bool) (s : MaskRelay) : Prop :=
  copied (healthy mask_write) reader (w_sink mask_write ++ preamble) (mr_reader s) (mr_mask_write s) (mr_c2m s) /\
  copied (healthy writer) mask_read (w_sink writer) (mr_mask_read s) (mr_writer s) (mr_m2c s) /\
  (up_ends reader = true -> (up_size reader < turns_of true turns)%nat -> is_Some (mr_c2m s)) /\
  (up_ends mask_read = true -> (up_size mask_read < turns_of false turns)%nat -> is_Some (mr_m2c s)).

(** [sent] of what comes first has reached a mask that then refused more. *)
Definition refused (mask_write : upstream_w) (preamble : bytes) (mask_write' : upstream_w) : Prop :=
  ~ healthy mask_write /\ exists sent, sent `prefix_of` preamble /\ w_sink mask_write' = w_sink mask_write ++ sent.

Lemma relay_to_mask_spec reader writer mask_read mask_write initial_data turns :
  exists masked, relay_to_mask reader writer mask_read mask_write initial_data turns = Some masked /\
    match masked with
    | Relaying s => relayed reader writer mask_read mask_write initial_data turns s
    | MaskRefused w => refused mask_write initial_data w
    | Consuming _ _ _ => False
    end.
Proof.
  unfold relay_to_mask. destruct (write_to_mask_spec mask_write initial_data) as (r & mw & sent & rest & -> & Hd & Hs & Hr & Hh). cbn.
  destruct r as [[]|e].
  2:{ eexists. split; [done|]. split; [|exists sent; split; [by exists rest|done]]. intros Hw; by destruct (Hh Hw). }
  rewrite Hr, app_nil_r in Hd by done. subst sent.
  set (s0 := mkMaskRelay reader writer mask_read mw None None).
  destruct (relay_turns_spec (healthy mask_write) (healthy writer) turns s0 s0) as (s & E & [Hc Hm] & [_ Hlc] & [_ Hlm]).
  { split; apply copied_start; [|done]. intros Hw; by destruct (Hh Hw). }
  rewrite E. cbn. eexists. split; [done|]. cbn in Hc, Hm, Hlc, Hlm. rewrite Hs in Hc. split_and!; [done|done|..].
  - intros He Ht. specialize (Hlc He). destruct (mr_c2m s) as [e|]; [by exists e|]. cbn in Hlc. lia.
  - intros He Ht. specialize (Hlm He). destruct (mr_m2c s) as [e|]; [by exists e|]. cbn in Hlm. lia.
Qed.

(** The server that is imitated, if masking is on and it can be reached. *)
Definition mask_connection (config : ProxyConfig) (store : OverrideMap) (connect : MaskConnect) : option (upstream_r * upstream_w) :=
  if mask (censorship config) then connect (mask_target config store) else None.

(** What the two sides of a masked connection have seen. *)
Definition masking_ok (reader : upstream_r) (writer : upstream_w) (initial_data : bytes) (peer local_addr : SocketAddr)
    (config : ProxyConfig) (store : OverrideMap) (connect : MaskConnect) (turns : list bool) (masked : Masked) : Prop :=
  match mask_connection config store connect, masked with
  | None, Consuming reader' writer' ended => writer' = writer /\ consumed_ok (length turns) reader reader' ended
  | Some (mask_read, mask_write), MaskRefused mask_write' =>
      refused mask_write (mask_preamble config peer local_addr initial_data) mask_write'
  | Some (mask_read, mask_write), Relaying s =>
      relayed reader writer mask_read mask_write (mask_preamble config peer local_addr initial_data) turns s
  | _, _ => False
  end.

Lemma consuming_spec reader writer turns :
  exists reader' ended, consuming reader writer turns = Some (Consuming reader' writer ended) /\
    consumed_ok (length turns) reader reader' ended.
Proof. unfold consuming. destruct (consume_spec (length turns) reader) as (r & e & -> & Hc). by exists r, e. Qed.

Lemma handle_bad_client_spec reader writer initial_data peer local_addr config store beob now connect turns :
  exists masked,
    handle_bad_client reader writer initial_data peer local_addr config store beob now connect turns =
      Some (masked, observe config beob (detect_client_type initial_data) (sa_ip peer) now) /\
    masking_ok reader writer initial_data peer local_addr config store connect turns masked.
Proof.
  unfold handle_bad_client, masking_ok, mask_connection.
  destruct (consuming_spec reader writer turns) as (reader' & ended & Hcons & Hok).
  destruct (mask (censorship config)); cbn [negb]; [|rewrite Hcons; cbn; by eexists].
  destruct (connect (mask_target config store)) as [[mr mw]|]; [|rewrite Hcons; cbn; by eexists].
  unfold mask_preamble. destruct (mask_proxy_header _ _ _) as [header|]; cbn [default].
  - destruct (write_to_mask_spec mw header) as (r & mw' & sent & rest & -> & Hd & Hs & Hr & Hh). cbn.
    destruct r as [[]|e]; cbn.
    + rewrite Hr, app_nil_r in Hd by done. subst sent.
      destruct (relay_to_mask_spec reader writer mr mw' initial_data turns) as (masked & -> & Hm). cbn.
      exists masked. split; [done|]. destruct masked as [|w|s]; [done| |].
      * destruct Hm as (Hw & sent & Hp & Hsink). split; [intros Hmw; by destruct (Hh Hmw)|]. exists (header ++ sent). split; [by apply prefix_app|].
        by rewrite Hsink, Hs, app_assoc.
      * destruct Hm as ((c & a & Hb & Hw & Hp & He & Hn & Hl & Hf) & Hm). split; [|done]. exists c, a.
        rewrite app_assoc, <-Hs. split_and!; try done. intros Hmw. apply Hf. by destruct (Hh Hmw).
    + eexists. split; [done|]. split; [intros Hmw; by destruct (Hh Hmw)|]. exists sent. split; [|done]. rewrite Hd, <-app_assoc. by eexists.
  - destruct (relay_to_mask_spec reader writer mr mw initial_data turns) as (masked & -> & Hm). cbn. exists masked. split; [done|].
    by destruct masked.
Qed.

(** C17: what a probe sees.  Handling a connection that is not a client's always gets somewhere.  When masking is on and
    the imitated server can be reached, then whatever the schedule the probe is sent nothing but a prefix of what the
    server sends, in order; the server is sent the PROXY header if one is configured, what had already been read, and
    then a prefix of what the probe sends, unless it refuses what comes first; a copying task that has had enough turns
    has ended unless its source has fallen silent, it ends only with its source when the other side accepts what it is
    offered, and when it ended with a source that did not fail nothing has been left out.  When masking is off or there
    is no connection, the probe's bytes are read and ignored to their end, and it is sent nothing.  The visit is filed
    under its kind when the forensic buckets are on. *)
Theorem mask_transparent reader writer initial_data peer local_addr config store beob now connect turns :
  exists masked,
    handle_bad_client reader writer initial_data peer local_addr config store beob now connect turns =
      Some (masked, if beobachten (general config) then
                      record beob (detect_client_type initial_data) (sa_ip peer) (beobachten_ttl config) now
                    else beob) /\
    masking_ok reader writer initial_data peer local_addr config store connect turns masked.
Proof. apply handle_bad_client_spec. Qed.

(** ** Runs *)

Definition demo_mask_config : ProxyConfig := ProxyConfig_default.
Definition demo_probe : upstream_r := [RdData (str "GET / HTTP/1.1"); RdPending; RdData (str "more")].
Definition demo_page : upstream_r := [RdData (str "HTTP/1.1 400")].
Definition demo_connect : MaskConnect := fun target =>
  match target with TcpAddress _ => Some (demo_page, mkUpW [WrAccept 3] [] []) | UnixSocket _ => None end.
Definition no_writer : upstream_w := mkUpW [] [] [].

Example demo_target :
  mask_target demo_mask_config ∅ = TcpAddress (str "petrovich.ru:443") /\ detect_client_type (str "GET / HTTP/1.1") = "HTTP"%string /\
  detect_client_type [22; 3; 1; 0] = "TLS-scanner"%string.
Proof. split_and!; vm_eq. Qed.

(** The mask closes first, and [relay_to_mask] returns; the other task goes on copying what the probe sends. *)
Example demo_detached :
  let peer := mkSocketAddr (V4 [10; 0; 0; 1]) 5 in
  let after turns :=
    match handle_bad_client demo_probe no_writer (str "x") peer peer demo_mask_config ∅ BeobachtenStore_new 0 demo_connect turns with
    | Some (Relaying s, _) => Some (relay_returned s, w_sink (mr_mask_write s), w_sink (mr_writer s))
    | _ => None
    end in
  after [false; false] = Some (true, str "x", str "HTTP/1.1 400") /\
  after [false; false; true] = Some (true, str "xGET / HTTP/1.1", str "HTTP/1.1 400").
Proof. split; vm_eq. Qed.

(** A mask that takes what it is offered and then says nothing more: the probe's bytes are passed on to their end. *)
Definition demo_silent_mask : MaskConnect := fun _ => Some ([RdData (str "HTTP"); RdSilent], mkUpW [WrAccept 3; WrPending] [] []).

Example demo_silent :
  let peer := mkSocketAddr (V4 [10; 0; 0; 1]) 5 in
  match handle_bad_client demo_probe no_writer (str "x") peer peer demo_mask_config ∅ BeobachtenStore_new 0 demo_silent_mask
          [false; true; false; true; false; true] with
  | Some (Relaying s, _) => (w_sink (mr_mask_write s), mr_c2m s, w_sink (mr_writer s), mr_m2c s)
  | _ => ([], None, [], None)
  end = (str "xGET / HTTP/1.1more", Some ShutDown, str "HTTP", None).
Proof. vm_compute. reflexivity. Qed.

Lemma mask_transparent_witness :
  let peer := mkSocketAddr (V4 [10; 0; 0; 1]) 5 in
  exists masked,
    handle_bad_client demo_probe no_writer (str "x") peer peer demo_mask_config ∅ BeobachtenStore_new 0 demo_silent_mask
        [false; true; false; true; false; true] =
      Some (masked, if beobachten (general demo_mask_config) then
                      record BeobachtenStore_new (detect_client_type (str "x")) (sa_ip peer) (beobachten_ttl demo_mask_config) 0
                    else BeobachtenStore_new) /\
    masking_ok demo_probe no_writer (str "x") peer peer demo_mask_config ∅ demo_silent_mask
      [false; true; false; true; false; true] masked.
Proof.
  intros peer. apply (mask_transparent demo_probe no_writer (str "x") peer peer demo_mask_config ∅ BeobachtenStore_new 0 demo_silent_mask
    [false; true; false; true; false; true]).
Defined.
