(* ===== verification/ClientFlow.v ===== *)
(** * A client from its first byte: [proxy/client.rs]

    What becomes of an accepted connection: the PROXY header, the first bytes, the handshake of its kind, the masking
    of everybody who is not a client, the limits, and the choice of a relay.  The steps thread the shared state (the
    statistics, the replay cache, the caches, the random generator, the forensic buckets, the address tracker) and the connection itself.

    The handshake runs inside a timeout.  It can only expire where the handshake waits: [cs_budget] counts the awaits it
    completes before that, and every schedule of the network and of the clock is such a number; an await of a client
    that has fallen silent is never completed, and ends with the timeout.  An await that is cut leaves the connection
    dropped; the tasks that masking has spawned go on. *)

From coqutil Require Import Datatypes.RecordSetters.
From S2P Require Import Prelude NetAddr Errors Crypto Random Replay Constants AsyncIo TlsStream CryptoStream.
From S2P Require Import ProxyProtocol DnsOverrides Stats IpTracker UserLimits Obfuscation TlsHello TlsFront ConfigTypes.
From S2P Require Import TlsHandshake Beobachten Masking.
Import DoubleBraceUpdate.

(** ** Outcomes (client.rs:17-22) *)

Inductive HandshakeOutcome := NeedsRelay (success : HandshakeSuccess) (local_addr peer : SocketAddr) | Handled.

(** Where an authenticated client's bytes go. *)
Inductive Route := ViaMiddleProxy | ViaDirect.

Inductive RunEnd := Relay (route : Route) (success : HandshakeSuccess) (local_addr : SocketAddr) | Finished (r : result ProxyError unit) | StillWaiting.

(** ** The surroundings of one connection *)

Record ClientEnv := mkClientEnv {
  ce_config : ProxyConfig;
  ce_proxy_protocol_enabled : bool;
  ce_local_addr : io_result SocketAddr;
  ce_overrides : OverrideMap;
  ce_has_me_pool : bool;
  ce_clock : TlsClock;
  ce_mtproto_instant : Z;
  ce_mask_instant : Z;
  ce_end_instant : Z;
  ce_admit_unix : Z;
  ce_connect : MaskConnect;
  ce_turns : list bool;
  ce_mask_expires : bool;
  ce_fuel : nat
}.

Section ClientFlow.
Context `{StreamCipher} `{Digests} {G : Type} `{Rng G} `{LruCache}.
Variable default_hash : bytes -> Z.
Variable instant_min : Z.
Variable hex_decode : string -> option bytes.

(** ** What the connection is (client.rs:17-22 and the streams handed around) *)

Inductive ClientStreams :=
| PlainStreams (reader : CryptoReader upstream_r) (writer : CryptoWriter upstream_w)
| TlsStreams (reader : CryptoReader FakeTlsReader) (writer : CryptoWriter FakeTlsWriter).

Inductive Connection :=
| Open (reader : upstream_r) (writer : upstream_w)
| OpenTls (reader : FakeTlsReader) (writer : FakeTlsWriter)
| AnswerCut
| MaskedTo (masked : Masked)
| Session (streams : ClientStreams)
| Dropped (sent : bytes).

(** Leaving the handshake drops the streams it still has; a relay of the masking has its own. *)
Definition drop_streams (c : Connection) : Connection :=
  match c with
  | Open _ writer => Dropped (w_sink writer)
  | OpenTls _ writer => Dropped (w_sink (tw_upstream writer))
  | MaskedTo (Consuming _ writer _) => Dropped (w_sink writer)
  | Session (PlainStreams _ writer) => Dropped (w_sink (cw_upstream writer))
  | Session (TlsStreams _ writer) => Dropped (w_sink (tw_upstream (cw_upstream writer)))
  | c => c
  end.

Record ClientState := mkClientState {
  cs_conn : Connection;
  cs_stats : Stats;
  cs_tls : TlsState G;
  cs_beobachten : BeobachtenStore;
  cs_tracker : UserIpTracker;
  cs_budget : nat
}.

(** ** Steps *)

(** How a step goes on: with a value, with an error that ends the handshake, cut by the timeout, or still waiting: for a
    masking, or, where no timeout runs, for a client that has fallen silent. *)
Inductive Flow (A : Type) := Value (a : A) | Failed (e : ProxyError) | Elapsed | Waiting.
Arguments Value {A} a.
Arguments Failed {A} e.
Arguments Elapsed {A}.
Arguments Waiting {A}.

Definition M (A : Type) : Type := ClientState -> outcome (Flow A * ClientState).

#[export] Instance M_ret : MRet M := fun A a s => Done (Value a, s).
#[export] Instance M_bind : MBind M := fun A B f m s =>
  match m s with
  | Done (Value a, s) => f a s
  | Done (Failed e, s) => Done (Failed e, s)
  | Done (Elapsed, s) => Done (Elapsed, s)
  | Done (Waiting, s) => Done (Waiting, s)
  | Panicked => Panicked
  | OutOfFuel => OutOfFuel
  end.

Definition modify (f : ClientState -> ClientState) : M unit := fun s => Done (Value tt, f s).
Definition fail {A} (e : ProxyError) : M A := fun s => Done (Failed e, s).

Definition with_conn (c : Connection) (s : ClientState) : ClientState :=
  mkClientState c (cs_stats s) (cs_tls s) (cs_beobachten s) (cs_tracker s) (cs_budget s).
Definition with_stats (f : Stats -> Stats) (s : ClientState) : ClientState :=
  mkClientState (cs_conn s) (f (cs_stats s)) (cs_tls s) (cs_beobachten s) (cs_tracker s) (cs_budget s).
Definition with_tls (st : TlsState G) (s : ClientState) : ClientState :=
  mkClientState (cs_conn s) (cs_stats s) st (cs_beobachten s) (cs_tracker s) (cs_budget s).
Definition with_beobachten (b : BeobachtenStore) (s : ClientState) : ClientState :=
  mkClientState (cs_conn s) (cs_stats s) (cs_tls s) b (cs_tracker s) (cs_budget s).
Definition with_tracker (t : UserIpTracker) (s : ClientState) : ClientState :=
  mkClientState (cs_conn s) (cs_stats s) (cs_tls s) (cs_beobachten s) t (cs_budget s).
Definition with_replay (c : ReplayChecker) (s : ClientState) : ClientState :=
  with_tls (mkTlsState c (ts_rng (cs_tls s)) (ts_cache (cs_tls s))) s.

(** An await, inside the timeout. *)
Definition await {A} (m : M A) : M A := fun s =>
  match cs_budget s with
  | O => Done (Elapsed, s)
  | S n => m (mkClientState (cs_conn s) (cs_stats s) (cs_tls s) (cs_beobachten s) (cs_tracker s) n)
  end.

(** What waits for a silent client is ended by the timeout. *)
Definition until_timeout {A} (m : M A) : M A := fun s =>
  match m s with Done (Waiting, s) => Done (Elapsed, s) | answered => answered end.

(** [stream.read_exact(..).await?] *)
Definition read_bytes (n : Z) : M bytes := await (until_timeout (fun s =>
  match cs_conn s with
  | Open reader writer =>
      match read_exact reader n with
      | None => Done (Waiting, s)
      | Some (Ok bs, reader) => Done (Value bs, with_conn (Open reader writer) s)
      | Some (Err e, reader) => Done (Failed (PE_Io e), with_conn (Open reader writer) s)
      end
  | _ => Panicked
  end)).

(** [tls_reader.read_exact(..).await?] *)
Definition read_tls_bytes (n : Z) : M bytes := await (until_timeout (fun s =>
  match cs_conn s with
  | OpenTls reader writer =>
      match tls_read_exact reader n with
      | None => Done (Waiting, s)
      | Some (Ok bs, reader) => Done (Value bs, with_conn (OpenTls reader writer) s)
      | Some (Err e, reader) => Done (Failed (PE_Io e), with_conn (OpenTls reader writer) s)
      end
  | _ => Panicked
  end)).

(** ** The forensic buckets (client.rs:43-71) *)

Definition record_beobachten_class (config : ProxyConfig) (peer_ip : IpAddr) (class : string) (now : Z) (s : ClientState) : ClientState :=
  if beobachten (general config) then
    with_beobachten (record (cs_beobachten s) class peer_ip (beobachten_ttl config) now) s
  else s.

Fixpoint contains (pattern l : bytes) : bool :=
  bool_decide (pattern `prefix_of` l) || match l with [] => false | _ :: l => contains pattern l end.

Definition failure_class (error : ProxyError) : string :=
  if contains (str "expected 64 bytes, got 0") (ProxyError_fmt error) then "expected_64_got_0" else "other".

Definition record_handshake_failure_class (config : ProxyConfig) (peer_ip : IpAddr) (error : ProxyError) (now : Z)
    (s : ClientState) : ClientState :=
  record_beobachten_class config peer_ip (failure_class error) now s.

(** ** The steps of a handshake (client.rs:414-651) *)

Section Steps.
Variable env : ClientEnv.
Local Notation config := (ce_config env).

(** The parameters of [handle_mtproto_handshake]; a map is iterated in an unspecified order. *)
Definition handshake_config : HandshakeConfig :=
  let m := modes (general config) in
  mkHandshakeConfig (map_to_list (users (access config))) (classic m) (secure m) (tls m) (crypto_pending_buffer (general config)).

(** [stats.increment_connects_bad(); handle_bad_client(..).await; return Ok(Handled)]: the first await connects and
    sends what comes first, the second is the relay, or the reading of what is ignored. *)
Definition bad_client (initial_data : bytes) (local_addr peer : SocketAddr) : M HandshakeOutcome := fun s =>
  let s := with_stats increment_connects_bad s in
  match cs_conn s with
  | Open reader writer =>
      match handle_bad_client reader writer initial_data peer local_addr config (ce_overrides env) (cs_beobachten s)
              (ce_mask_instant env) (ce_connect env) (ce_turns env) with
      | None => OutOfFuel
      | Some (masked, beobachten) =>
          let s := with_beobachten beobachten s in
          (_ ← await (modify (with_conn (MaskedTo masked)));
           match masked with
           | MaskRefused _ => mret Handled
           | Relaying relay =>
               await (if relay_returned relay || ce_mask_expires env then mret Handled else fun s => Done (Waiting, s))
           | Consuming _ _ ended => await (if ended : bool then mret Handled else fun s => Done (Waiting, s))
           end) s
      end
  | _ => Panicked
  end.

(** [handle_tls_handshake(..).await]: whether the client is genuine.  It waits only once it has decided. *)
Definition answer_hello (handshake : bytes) (peer : SocketAddr) : M bool := fun s =>
  match cs_conn s with
  | Open reader writer =>
      let! answered := handle_tls_handshake default_hash instant_min hex_decode (ce_fuel env) handshake reader writer peer
                         config (ce_clock env) (cs_tls s) in
      let '(result, st) := answered in
      let s := with_tls st s in
      match result with
      | HBadClient reader writer => Done (Value false, with_conn (Open reader writer) s)
      | HSuccess (reader, writer, _) =>
          (_ ← await (mret tt); _ ← modify (with_conn (OpenTls reader writer)); mret true) (with_conn AnswerCut s)
      | HError e => (_ ← await (mret tt); fail e) (with_conn AnswerCut s)
      end
  | _ => Panicked
  end%outcome.

(** [handle_mtproto_handshake(..).await], which never waits. *)
Definition authenticate {R W : Type} (header : bytes) (reader : R) (writer : W) (peer : SocketAddr) (is_tls : bool)
    (session : CryptoReader R -> CryptoWriter W -> ClientStreams) (back : R -> W -> Connection)
    : M (option HandshakeSuccess) := fun s =>
  match handle_mtproto_handshake default_hash instant_min hex_decode header reader writer peer handshake_config
          (ts_replay (cs_tls s)) (ce_mtproto_instant env) is_tls with
  | None => Panicked
  | Some (result, replay_checker) =>
      let s := with_replay replay_checker s in
      match result with
      | HSuccess (reader, writer, success) => Done (Value (Some success), with_conn (Session (session reader writer)) s)
      | HBadClient reader writer => Done (Value None, with_conn (back reader writer) s)
      | HError e => Done (Failed e, s)
      end
  end.

Definition read_header (header : bytes) (peer : SocketAddr) : M (option HandshakeSuccess) := fun s =>
  match cs_conn s with
  | Open reader writer => authenticate header reader writer peer false PlainStreams Open s
  | OpenTls reader writer => authenticate header reader writer peer true TlsStreams OpenTls s
  | _ => Panicked
  end.

Definition handle_tls_client (first_bytes : bytes) (local_addr peer : SocketAddr) : M HandshakeOutcome :=
  let tls_len := be_val (slice first_bytes 3 5) in
  if tls_len <? 512 then bad_client first_bytes local_addr peer
  else
    rest ← read_bytes tls_len;
    let handshake := first_bytes ++ rest in
    genuine ← answer_hello handshake peer;
    if genuine : bool then
      mtproto_data ← read_tls_bytes HANDSHAKE_LEN;
      if negb (zlen mtproto_data =? HANDSHAKE_LEN) then fail (PE_InvalidHandshake "Short MTProto handshake" [])
      else
        found ← read_header mtproto_data peer;
        match found with
        | Some success => mret (NeedsRelay success local_addr peer)
        | None => _ ← modify (with_stats increment_connects_bad); mret Handled
        end
    else bad_client handshake local_addr peer.

Definition handle_direct_client (first_bytes : bytes) (local_addr peer : SocketAddr) : M HandshakeOutcome :=
  let m := modes (general config) in
  if negb (classic m) && negb (secure m) then bad_client first_bytes local_addr peer
  else
    rest ← read_bytes (HANDSHAKE_LEN - 5);
    let handshake := first_bytes ++ rest in
    found ← read_header handshake peer;
    match found with
    | Some success => mret (NeedsRelay success local_addr peer)
    | None => bad_client handshake local_addr peer
    end.

(** The first five bytes decide. *)
Definition first_bytes_step (local_addr peer : SocketAddr) : M HandshakeOutcome :=
  first_bytes ← read_bytes 5;
  if is_tls_handshake (ztake 3 first_bytes) then handle_tls_client first_bytes local_addr peer
  else handle_direct_client first_bytes local_addr peer.

(** The PROXY header: who the client is, and what address it came to. *)
Definition read_proxy_header (default_peer local_addr : SocketAddr) : M (SocketAddr * SocketAddr) := fun s =>
  match cs_conn s with
  | Open reader writer =>
      match parse_proxy_protocol reader default_peer with
      | None => Done (Waiting, s)
      | Some (Panicked, _) => Panicked
      | Some (OutOfFuel, _) => OutOfFuel
      | Some (Done (Ok info), reader) =>
          Done (Value (default local_addr (dst_addr info), normalize_ip (src_addr info)), with_conn (Open reader writer) s)
      | Some (Done (Err e), reader) =>
          Done (Failed e, record_beobachten_class config (sa_ip default_peer) "other" (ce_mask_instant env)
                            (with_stats increment_connects_bad (with_conn (Open reader writer) s)))
      end
  | _ => Panicked
  end.

Definition do_handshake (peer : SocketAddr) : M HandshakeOutcome :=
  match ce_local_addr env with
  | Err e => fail (PE_Io e)
  | Ok local_addr =>
      if ce_proxy_protocol_enabled env then
        '(local_addr, peer) ← await (until_timeout (read_proxy_header peer local_addr));
        first_bytes_step local_addr peer
      else first_bytes_step local_addr peer
  end.

(** ** The whole connection (client.rs:73-304, 359-412, 653-738) *)

Definition access_limits : AccessLimits :=
  let a := access config in mkAccessLimits (user_expirations a) (user_max_tcp_conns a) (user_data_quota a).

Definition choose_route : Route :=
  if use_middle_proxy (general config) && ce_has_me_pool env then ViaMiddleProxy else ViaDirect.

Definition dropped (s : ClientState) : ClientState := with_conn (drop_streams (cs_conn s)) s.

(** The admission; the relay that follows, with the release of the address, is a session of [UserLimits]. *)
Definition handle_authenticated_static (success : HandshakeSuccess) (local_addr peer : SocketAddr) (s : ClientState)
    : RunEnd * ClientState :=
  let '(allowed, tracker) :=
    check_user_limits_static (hs_user success) access_limits (ce_admit_unix env) (cs_stats s) (sa_ip peer) (cs_tracker s) in
  let s := with_tracker tracker s in
  match allowed with
  | Err e => (Finished (Err e), dropped s)
  | Ok _ => (Relay choose_route success local_addr, s)
  end.

(** What follows the timeout around the handshake; [peer_ip] is the address that failures are filed under. *)
Definition finish (peer_ip : IpAddr) (ended : Flow HandshakeOutcome * ClientState) : RunEnd * ClientState :=
  let '(flow, s) := ended in
  match flow with
  | Value (NeedsRelay success local_addr peer) => handle_authenticated_static success local_addr peer s
  | Value Handled => (Finished (Ok tt), dropped s)
  | Failed e => (Finished (Err e), record_handshake_failure_class config peer_ip e (ce_end_instant env) (dropped s))
  | Elapsed =>
      (Finished (Err PE_TgHandshakeTimeout),
       record_beobachten_class config peer_ip "other" (ce_end_instant env) (with_stats increment_handshake_timeouts (dropped s)))
  | Waiting => (StillWaiting, s)
  end.

(** [RunningClientHandler::run]: a TCP connection. *)
Definition run (peer : SocketAddr) (s : ClientState) : outcome (RunEnd * ClientState) :=
  let s := with_stats increment_connects_all s in
  let peer := normalize_ip peer in
  let! ended := do_handshake peer s in
  Done (finish (sa_ip peer) ended).

(** [handle_client_stream]: any other stream.  Its PROXY header is read before the timeout starts. *)
Definition handle_client_stream (peer : SocketAddr) (s : ClientState) : outcome (RunEnd * ClientState) :=
  let s := with_stats increment_connects_all s in
  let real_peer := normalize_ip peer in
  let local_addr := mkSocketAddr (V4 [0; 0; 0; 0]) (port (server config)) in
  let! header :=
    if ce_proxy_protocol_enabled env then read_proxy_header peer local_addr s
    else Done (Value (local_addr, real_peer), s) in
  match header with
  | (Value (local_addr, real_peer), s) =>
      let! ended := first_bytes_step local_addr real_peer s in
      Done (finish (sa_ip real_peer) ended)
  | (Failed e, s) => Done (Finished (Err e), dropped s)
  | (Elapsed, s) | (Waiting, s) => Done (StillWaiting, s)
  end.

End Steps.
End ClientFlow.
Arguments ClientState {_} G {_}.
Arguments Value {A} a.
Arguments Failed {A} e.
Arguments Elapsed {A}.
Arguments Waiting {A}.

(** ** Who is given what *)

Section Fate.
Context `{StreamCipherOk} `{DigestsOk} {G : Type} `{RngOk G} `{LruCacheOk}.
Variable default_hash : bytes -> Z.
Variable instant_min : Z.
Variable hex_decode : string -> option bytes.
Local Notation State := (ClientState G).
Local Notation genuine := (genuine default_hash instant_min hex_decode).

(** A step returns, and what it gives satisfies [Q]. *)
Definition wp {A} (m : M A) (s : State) (Q : Flow A -> State -> Prop) : Prop := exists flow s', m s = Done (flow, s') /\ Q flow s'.

Definition flow_rest {A B} (Q : Flow B -> State -> Prop) (k : A -> State -> Prop) (flow : Flow A) (s : State) : Prop :=
  match flow with
  | Value a => k a s
  | Failed e => Q (Failed e) s
  | Elapsed => Q Elapsed s
  | Waiting => Q Waiting s
  end.

Lemma wp_ret {A} (a : A) s Q : Q (Value a) s -> wp (M_ret A a) s Q.
Proof. intros HQ. by exists (Value a), s. Qed.

Lemma wp_bind {A B} (f : A -> M B) (m : M A) s Q : wp m s (flow_rest Q (fun a s => wp (f a) s Q)) -> wp (M_bind A B f m) s Q.
Proof.
  intros (flow & s1 & E & HQ). unfold wp, M_bind. rewrite E. destruct flow; cbn in HQ; [done|by eexists _, _..].
Qed.

Lemma wp_mono {A} (m : M A) s (Q Q' : Flow A -> State -> Prop) :
  (forall flow s', Q flow s' -> Q' flow s') -> wp m s Q -> wp m s Q'.
Proof. intros HQ (flow & s' & E & Hf). exists flow, s'. split; [done|by apply HQ]. Qed.

Lemma wp_modify f s Q : Q (Value tt) (f s) -> wp (modify f) s Q.
Proof. intros HQ. by exists (Value tt), (f s). Qed.

Lemma wp_fail {A} e s (Q : Flow A -> State -> Prop) : Q (Failed e) s -> wp (fail e) s Q.
Proof. intros HQ. by exists (Failed e), s. Qed.

(** An await either is cut, with nothing done, or goes on with one less left. *)
Definition one_less (s s' : State) : Prop :=
  cs_conn s' = cs_conn s /\ cs_stats s' = cs_stats s /\ cs_tls s' = cs_tls s /\ cs_beobachten s' = cs_beobachten s /\ cs_tracker s' = cs_tracker s.

Lemma wp_await {A} (m : M A) s Q : Q Elapsed s -> (forall s', one_less s s' -> wp m s' Q) -> wp (await m) s Q.
Proof. intros HE Hm. unfold await, wp. destruct (cs_budget s) as [|n]; [by exists Elapsed, s|]. by apply Hm. Qed.

(** What a step comes to when it is left to the timeout. *)
Lemma wp_until_timeout {A} (m : M A) s Q :
  wp m s (fun flow s' => match flow with Waiting => Q Elapsed s' | _ => Q flow s' end) -> wp (until_timeout m) s Q.
Proof. intros (flow & s' & E & HQ). unfold wp, until_timeout. rewrite E. destruct flow; by eexists _, _. Qed.

Section Client.
Variable env : ClientEnv.
Variables (client : upstream_r) (writer : upstream_w) (peer0 : SocketAddr) (window : Z) (start : State).
Local Notation config := (ce_config env).

(** The client has sent [hdr], a PROXY header if one is expected, and then [data]; the rest is still to be read. *)
Definition client_sent (hdr data : bytes) (rest : bytes) : Prop :=
  up_bytes client = hdr ++ data ++ rest /\ (ce_proxy_protocol_enabled env = false -> hdr = []).

(** The client knows a user's secret: it has sent a fresh hello that is signed with it. *)
Definition knows_secret : Prop :=
  exists hdr hello rest user secret, client_sent hdr hello rest /\
    genuine config (ce_clock env) (ts_replay (cs_tls start)) hello user secret.

(** A header opens with the secret of the user it is accepted for, in a mode that is enabled. *)
Definition opens_for (success : HandshakeSuccess) (header : bytes) : Prop :=
  exists secret_hex secret, users (access config) !! hs_user success = Some secret_hex /\ hex_decode secret_hex = Some secret /\
    open_header (with_secret secret) header = Some (hs_proto_tag success, hs_dc_idx success) /\
    mode_ok (handshake_config env) (hs_is_tls success) (hs_proto_tag success) = true.

Definition authenticated (success : HandshakeSuccess) : Prop :=
  exists header, zlen header = 64 /\ opens_for success header /\
    if hs_is_tls success then knows_secret else exists hdr rest, client_sent hdr header rest.

(** What the connection has become. *)
Definition fate (conn : Connection) : Prop :=
  match conn with
  | Open _ writer' => writer' = writer
  | OpenTls _ _ | AnswerCut | Session (TlsStreams _ _) => knows_secret
  | Session (PlainStreams _ writer') => w_sink (cw_upstream writer') = w_sink writer
  | Dropped sent => sent = w_sink writer \/ knows_secret
  | MaskedTo masked =>
      exists hdr initial reader local_addr peer, client_sent hdr initial (up_bytes reader) /\
        (ce_proxy_protocol_enabled env = false -> peer = normalize_ip peer0) /\
        masking_ok reader writer initial peer local_addr config (ce_overrides env) (ce_connect env) (ce_turns env) masked
  end.

Lemma consuming_ok reader initial local_addr peer r' w e :
  masking_ok reader writer initial peer local_addr config (ce_overrides env) (ce_connect env) (ce_turns env) (Consuming r' w e) ->
  w = writer.
Proof. unfold masking_ok. by destruct (mask_connection _ _ _) as [[? ?]|]; [|intros [-> _]]. Qed.

Lemma fate_drop conn : fate conn -> fate (drop_streams conn).
Proof.
  destruct conn as [r w|r w| |[r w e|w|s]|[r w|r w]|sent]; cbn; try done; [by intros ->; left|by right| | |by right].
  - intros (hdr & initial & reader & local_addr & peer & _ & _ & ->%consuming_ok). by left.
  - by left.
Qed.
(** While the stream is whole: what has been read so far. *)
Definition reading (hdr data : bytes) (peer : SocketAddr) (s : State) : Prop :=
  exists reader, cs_conn s = Open reader writer /\ client_sent hdr data (up_bytes reader) /\ up_ends reader = up_ends client /\
    (ce_proxy_protocol_enabled env = false -> peer = normalize_ip peer0).

Definition untouched (s : State) : Prop := cs_tls s = cs_tls start.

Lemma reading_fate hdr data peer s : reading hdr data peer s -> fate (cs_conn s).
Proof. by intros (r & -> & _). Qed.

Lemma reading_less hdr data peer s s' : one_less s s' -> reading hdr data peer s -> reading hdr data peer s'.
Proof. intros (E & _) (r & Hc & Hr). exists r. by rewrite E. Qed.

Lemma untouched_less s s' : one_less s s' -> untouched s -> untouched s'.
Proof. unfold untouched. by intros (_ & _ & -> & _). Qed.

Lemma read_bytes_wp n hdr data peer s Q :
  0 <= n -> reading hdr data peer s -> untouched s ->
  (forall bs s', zlen bs = n -> reading hdr (data ++ bs) peer s' -> untouched s' -> Q (Value bs) s') ->
  (forall e s', fate (cs_conn s') -> Q (Failed e) s') -> (forall s', fate (cs_conn s') -> Q Elapsed s') ->
  wp (read_bytes n) s Q.
Proof.
  intros Hn Hr Hu HV HF HE. apply wp_await; [by apply HE, (reading_fate hdr data peer)|]. intros s1 Hs1.
  apply (reading_less _ _ _ _ _ Hs1) in Hr as (r & Hc & [Hb Hh] & He & Hp). apply (untouched_less _ _ Hs1) in Hu.
  apply wp_until_timeout. unfold wp. rewrite Hc.
  pose proof (up_read_exact r n Hn) as Hread. destruct (read_exact r n) as [[[bs|e] r']|]; eexists _, _; (split; [done|]).
  - destruct Hread as (He' & consumed & Hb' & -> & Hl). apply HV; [done| |done]. exists r'. split_and!; [done| |congruence|done].
    split; [|done]. cbn [app] in *. by rewrite Hb, Hb', !app_assoc.
  - by apply HF.
  - apply HE. by rewrite Hc.
Qed.

Lemma bad_client_wp initial hdr local_addr peer s Q :
  reading hdr initial peer s ->
  (forall flow s', fate (cs_conn s') ->
     match flow with Value (NeedsRelay _ _ _) => False | Waiting => exists masked, cs_conn s' = MaskedTo masked | _ => True end -> Q flow s') ->
  wp (bad_client env initial local_addr peer) s Q.
Proof.
  intros (r & Hc & Hsent & _ & Hp) HQ. unfold wp, bad_client. cbn [with_stats cs_conn cs_beobachten]. rewrite Hc.
  destruct (handle_bad_client_spec r writer initial peer local_addr config (ce_overrides env) (cs_beobachten s) (ce_mask_instant env)
    (ce_connect env) (ce_turns env)) as (masked & -> & Hm).
  assert (fate (MaskedTo masked)) as Hf by (by exists hdr, initial, r, local_addr, peer).
  assert (forall m s1, one_less (with_conn (MaskedTo masked) s1) s1 ->
    m = M_ret HandshakeOutcome Handled \/ m = (fun s => Done (Waiting, s)) -> wp (await m) s1 Q) as Hwait.
  { intros m s1 (E & _) Hm'. apply wp_await; [apply HQ; [by rewrite E|done]|]. intros s2 (E2 & _).
    destruct Hm' as [-> | ->]; eexists _, _; (split; [done|]); apply HQ; rewrite ?E2, ?E; cbn [cs_conn with_conn]; [done|done|done|by eexists]. }
  apply wp_bind, wp_await; [apply HQ; [cbn; by rewrite Hc|done]|]. intros s1 Hs1. apply wp_modify. cbn [flow_rest].
  destruct masked as [r' w' []|w'|m]; [apply Hwait; [done|by (left + right)]..| |].
  - apply wp_ret. by apply HQ.
  - apply Hwait; [done|]. destruct (relay_returned m || ce_mask_expires env); [by left|by right].
Qed.

Hypothesis Hbytes : bytes_ok (up_bytes client).
Hypothesis Hreplay : checker_wf window (ts_replay (cs_tls start)).
Hypothesis Hcache : forall cache, ts_cache (cs_tls start) = Some cache -> cache_ok cache.
Hypothesis Htickets : 0 <= tls_new_session_tickets (censorship config).
Hypothesis Hfuel : (send_fuel writer <= ce_fuel env)%nat.

Definition replay_wf (s : State) : Prop := checker_wf window (ts_replay (cs_tls s)).

Lemma untouched_wf s : untouched s -> replay_wf s.
Proof. unfold untouched, replay_wf. by intros ->. Qed.

Lemma client_sent_ok hdr data rest : client_sent hdr data rest -> bytes_ok data.
Proof. intros [E _]. unfold bytes_ok in *. rewrite E, !Forall_app in Hbytes. by destruct Hbytes as (_ & ? & _). Qed.

Lemma answer_hello_wp handshake hdr peer s Q :
  reading hdr handshake peer s -> untouched s ->
  (forall s', reading hdr handshake peer s' -> Q (Value false) s') ->
  (forall reader' writer' s', knows_secret -> cs_conn s' = OpenTls (FakeTlsReader_new reader') writer' -> replay_wf s' ->
     Q (Value true) s') ->
  (forall e s', fate (cs_conn s') -> Q (Failed e) s') -> (forall s', fate (cs_conn s') -> Q Elapsed s') ->
  wp (answer_hello default_hash instant_min hex_decode env handshake peer) s Q.
Proof.
  intros (r & Hc & Hsent & He & Hp) Hu HB HG HF HE. unfold wp, answer_hello. rewrite Hc, Hu.
  destruct (tls_handshake_outcome default_hash instant_min hex_decode window (ce_fuel env) handshake r writer peer config
    (ce_clock env) (cs_tls start) (client_sent_ok _ _ _ Hsent) Hreplay Htickets Hcache Hfuel) as (result & st & -> & Hwf & Hres).
  cbn [obind]. unfold hello_handled in Hres.
  assert (forall user secret, genuine config (ce_clock env) (ts_replay (cs_tls start)) handshake user secret -> knows_secret)
    as Hk by (intros user secret Hg; by exists hdr, handshake, (up_bytes r), user, secret).
  destruct result as [[[rd wr] user]|r' w'|e].
  - destruct Hres as (secret & sid & response & w' & Hg & -> & -> & _). specialize (Hk _ _ Hg).
    apply wp_bind, wp_await; [by apply HE|]. intros s1 (_ & _ & Et & _). apply wp_ret. cbn [flow_rest].
    apply wp_bind, wp_modify. cbn [flow_rest]. apply wp_ret. eapply HG; [done|done|]. unfold replay_wf. cbn. by rewrite Et.
  - destruct Hres as (-> & -> & _). eexists _, _. split; [done|]. apply HB. by exists r.
  - destruct Hres as (user & secret & sid & response & sent & io & Hg & _). specialize (Hk _ _ Hg). apply wp_bind, wp_await; [by apply HE|]. intros s1 (Ec & _).
    apply wp_ret. cbn [flow_rest]. apply wp_fail, HF. by rewrite Ec.
Qed.
(** [handle_mtproto_handshake] in any state of the replay cache. *)
Lemma authenticate_wp {R W} header (reader : R) (writer' : W) peer is_tls wrap back s Q :
  replay_wf s ->
  (forall replay_checker, let s' := with_replay replay_checker s in Q (Value None) (with_conn (back reader writer') s')) ->
  (forall replay_checker success rd cipher, opens_for success header -> hs_is_tls success = is_tls ->
     let s' := with_replay replay_checker s in
     Q (Value (Some success))
       (with_conn (Session (wrap rd (CryptoWriter_new writer' cipher (crypto_pending_buffer (general config))))) s')) ->
  wp (authenticate default_hash instant_min hex_decode env header reader writer' peer is_tls wrap back) s Q.
Proof.
  intros Hwf HN HS. unfold wp, authenticate.
  destruct (step_shards default_hash instant_min window _ (RCheckAdd (key_material header) (ce_mtproto_instant env)) Hwf)
    as (c' & E & _). cbn [replay_step] in E.
  destruct (check_and_add_internal _ _ _ _ _) as [[found c]|] eqn:Ec; [|done].
  rewrite (handle_eq default_hash instant_min hex_decode header reader writer' peer (handshake_config env) _ _ is_tls found c Ec).
  destruct found; [eexists _, _; split; [done|apply HN]|].
  destruct (try_users_answers hex_decode header (handshake_config env) peer is_tls reader writer' (cfg_users (handshake_config env)))
    as [-> | (x & Ex)]; [eexists _, _; split; [done|apply HN]|]. rewrite Ex.
  apply try_users_success in Ex as (user & secret_hex & secret & tag & dc & Hin & Hhex & Ho & Hm & ->).
  eexists _, _. split; [done|]. apply HS; [|done]. exists secret_hex, secret. cbn. split_and!; [|done..].
  by apply elem_of_map_to_list in Hin.
Qed.

(** How the handshake can end. *)
Definition phase_ok (flow : Flow HandshakeOutcome) (s : State) : Prop :=
  fate (cs_conn s) /\
  match flow with
  | Value (NeedsRelay success _ _) => authenticated success
  | Waiting => exists masked, cs_conn s = MaskedTo masked
  | _ => True
  end.

Lemma phase_failed (e : ProxyError) s : fate (cs_conn s) -> phase_ok (Failed e) s.
Proof. by split. Qed.

Lemma phase_elapsed s : fate (cs_conn s) -> phase_ok Elapsed s.
Proof. by split. Qed.

Lemma bad_client_ok initial hdr local_addr peer s : reading hdr initial peer s -> wp (bad_client env initial local_addr peer) s phase_ok.
Proof. intros Hr. eapply bad_client_wp; [done|]. intros flow s' Hf Hv. split; [done|]. by destruct flow as [[]| | |]. Qed.

Lemma tls_session_ok local_addr peer reader' writer' s :
  knows_secret -> cs_conn s = OpenTls (FakeTlsReader_new reader') writer' -> replay_wf s ->
  wp (M_bind _ _ (fun mtproto_data =>
        if negb (zlen mtproto_data =? HANDSHAKE_LEN) then fail (PE_InvalidHandshake "Short MTProto handshake" [])
        else
          found ← read_header default_hash instant_min hex_decode env mtproto_data peer;
          match found with
          | Some success => mret (NeedsRelay success local_addr peer)
          | None => _ ← modify (with_stats increment_connects_bad); mret Handled
          end) (read_tls_bytes HANDSHAKE_LEN)) s phase_ok.
Proof.
  intros Hk Hc Hwf. apply wp_bind, wp_await; [apply phase_elapsed; by rewrite Hc|]. intros s1 (Ec & _ & Et & _).
  apply wp_until_timeout. unfold wp. rewrite Ec, Hc.
  destruct (tls_read_exact (FakeTlsReader_new reader') HANDSHAKE_LEN) as [[[bs|e] rd]|];
    eexists _, _; (split; [done|]); cbn [flow_rest]; [|by apply phase_failed|apply phase_elapsed; by rewrite Ec, Hc].
  destruct (Z.eqb_spec (zlen bs) HANDSHAKE_LEN) as [Hl|]; cbn [negb]; [|by apply wp_fail, phase_failed].
  apply wp_bind. unfold wp, read_header. cbn [with_conn cs_conn]. apply authenticate_wp.
  - unfold replay_wf. cbn. by rewrite Et.
  - intros c. cbn [flow_rest]. apply wp_bind, wp_modify. cbn [flow_rest]. by apply wp_ret.
  - intros c success rd' cipher Ho Htls. cbn [flow_rest]. apply wp_ret. split; [done|]. exists bs. split_and!; [done|done|by rewrite Htls].
Qed.

Lemma handle_tls_client_ok hdr first_bytes local_addr peer s :
  reading hdr first_bytes peer s -> untouched s ->
  wp (handle_tls_client default_hash instant_min hex_decode env first_bytes local_addr peer) s phase_ok.
Proof.
  intros Hr Hu. unfold handle_tls_client. destruct (Z.ltb_spec (be_val (slice first_bytes 3 5)) 512); [by eapply bad_client_ok|].
  apply wp_bind. eapply read_bytes_wp; [|done|done| |by intros; apply phase_failed|by intros; apply phase_elapsed]; [lia|].
  intros bs s1 _ Hr1 Hu1. cbn [flow_rest]. apply wp_bind.
  eapply answer_hello_wp; [done|done| | |by intros; apply phase_failed|by intros; apply phase_elapsed]; cbn [flow_rest].
  - intros s2 Hr2. by eapply bad_client_ok.
  - intros reader' writer' s2 Hk Hc Hwf. by eapply tls_session_ok.
Qed.

Lemma handle_direct_client_ok hdr first_bytes local_addr peer s :
  reading hdr first_bytes peer s -> untouched s -> zlen first_bytes = 5 ->
  wp (handle_direct_client default_hash instant_min hex_decode env first_bytes local_addr peer) s phase_ok.
Proof.
  intros Hr Hu Hl. unfold handle_direct_client. destruct (_ && _); [by eapply bad_client_ok|].
  apply wp_bind. eapply read_bytes_wp; [|done|done| |by intros; apply phase_failed|by intros; apply phase_elapsed]; [done|].
  intros bs s1 Hbs (r & Hc & Hsent & He & Hp) Hu1. cbn [flow_rest]. apply wp_bind. unfold wp, read_header. rewrite Hc.
  apply authenticate_wp; [by apply untouched_wf| |]; cbn [flow_rest].
  - intros c. eapply bad_client_ok. by exists r.
  - intros c success rd cipher Ho Htls. apply wp_ret. split; [done|]. exists (first_bytes ++ bs).
    split_and!; [rewrite zlen_app, Hl, Hbs; done|done|]. rewrite Htls. by exists hdr, (up_bytes r).
Qed.

Lemma first_bytes_ok hdr local_addr peer s :
  reading hdr [] peer s -> untouched s ->
  wp (first_bytes_step default_hash instant_min hex_decode env local_addr peer) s phase_ok.
Proof.
  intros Hr Hu. apply wp_bind.
  eapply read_bytes_wp; [|done|done| |by intros; apply phase_failed|by intros; apply phase_elapsed]; [done|].
  intros bs s1 Hl Hr1 Hu1. cbn [flow_rest]. destruct (is_tls_handshake _); [by eapply handle_tls_client_ok|by eapply handle_direct_client_ok].
Qed.
(** Without the PROXY header nothing else stands before the client's bytes. *)
Lemma proxy_header_wp default_peer local_addr s Q :
  reading [] [] (normalize_ip peer0) s -> untouched s -> ce_proxy_protocol_enabled env = true ->
  (forall hdr local_addr' peer s', reading hdr [] peer s' -> untouched s' -> Q (Value (local_addr', peer)) s') ->
  (forall e s', fate (cs_conn s') -> Q (Failed e) s') ->
  (up_ends client = false -> Q Waiting s) ->
  wp (read_proxy_header env default_peer local_addr) s Q.
Proof.
  intros (r & Hc & [Hb _] & He & _) Hu Hpp HV HF HW. unfold wp, read_proxy_header. rewrite Hc.
  pose proof (parse_proxy_script r default_peer) as Hp. destruct (parse_proxy_protocol r default_peer) as [[a r']|].
  2:{ eexists _, _. split; [done|]. apply HW. cbn in Hp. congruence. }
  destruct Hp as (He' & (a' & ->) & hdr & Hb'). destruct a' as [info|e]; eexists _, _; (split; [done|]).
  - apply (HV hdr); [|done]. exists r'. split_and!; [done| |congruence|by rewrite Hpp]. split; [|by rewrite Hpp]. by rewrite Hb, Hb'.
  - apply HF. unfold record_beobachten_class. by destruct (beobachten _).
Qed.

(** What a connection comes to. *)
Definition settled (ended : RunEnd) (s : State) : Prop :=
  fate (cs_conn s) /\
  match ended with
  | Relay _ success _ =>
      authenticated success /\
      exists ip tracker, check_user_limits_static (hs_user success) (access_limits env) (ce_admit_unix env) (cs_stats s) ip tracker
                         = (Ok tt, cs_tracker s)
  | StillWaiting =>
      (exists masked, cs_conn s = MaskedTo masked) \/
      ce_proxy_protocol_enabled env = true /\ up_ends client = false /\ exists reader, cs_conn s = Open reader writer
  | Finished _ => True
  end.

Lemma dropped_fate (s : State) : fate (cs_conn s) -> fate (cs_conn (dropped s)).
Proof. apply fate_drop. Qed.

Lemma record_class_conn cfg ip class now (s : State) : cs_conn (record_beobachten_class cfg ip class now s) = cs_conn s.
Proof. unfold record_beobachten_class. by destruct (beobachten _). Qed.

Lemma connection_settled peer_ip flow (s : State) : phase_ok flow s -> let '(ended, s') := finish env peer_ip (flow, s) in settled ended s'.
Proof.
  intros [Hf Hv]. destruct flow as [[success local_addr peer|]|e| |]; cbn [finish].
  - unfold handle_authenticated_static. destruct (check_user_limits_static _ _ _ _ _ _) as [allowed tracker] eqn:E.
    destruct allowed as [[]|e]; [|by split; [apply (fate_drop _ Hf)|]]. split; [done|]. split; [done|]. by exists (sa_ip peer), (cs_tracker s).
  - by split; [apply dropped_fate|].
  - split; [|done]. unfold record_handshake_failure_class. rewrite record_class_conn. by apply dropped_fate.
  - split; [|done]. rewrite record_class_conn. by apply (fate_drop _ Hf).
  - split; [done|]. by left.
Qed.

Lemma phase_settled peer_ip (m : M HandshakeOutcome) (s : State) :
  wp m s phase_ok -> exists ended s', (let! x := m s in Done (finish env peer_ip x))%outcome = Done (ended, s') /\ settled ended s'.
Proof.
  intros (flow & s1 & -> & Hp). cbn [obind]. pose proof (connection_settled peer_ip flow s1 Hp) as Hs.
  destruct (finish env peer_ip (flow, s1)) as [ended s']. by exists ended, s'.
Qed.

Lemma run_settled :
  cs_conn start = Open client writer ->
  exists ended s', run default_hash instant_min hex_decode env peer0 start = Done (ended, s') /\ settled ended s'.
Proof.
  intros Hc. apply phase_settled. unfold do_handshake.
  destruct (ce_local_addr env) as [local_addr|e]; [|apply wp_fail, phase_failed; cbn; by rewrite Hc].
  assert (reading [] [] (normalize_ip peer0) (with_stats increment_connects_all start)) as Hr by (by exists client).
  destruct (ce_proxy_protocol_enabled env) eqn:Epp; [|by eapply first_bytes_ok].
  apply wp_bind, wp_await; [apply phase_elapsed; cbn; by rewrite Hc|]. intros s1 Hs1. apply (reading_less _ _ _ _ _ Hs1) in Hr.
  apply wp_until_timeout. eapply proxy_header_wp; [done|by apply (untouched_less _ _ Hs1)|done| |by intros; apply phase_failed|]; cbn [flow_rest].
  - intros hdr la peer s2 Hr2 Hu2. by eapply first_bytes_ok.
  - intros _. apply phase_elapsed. by eapply reading_fate.
Qed.

Lemma stream_settled :
  cs_conn start = Open client writer ->
  exists ended s', handle_client_stream default_hash instant_min hex_decode env peer0 start = Done (ended, s') /\ settled ended s'.
Proof.
  intros Hc. unfold handle_client_stream. set (s0 := with_stats increment_connects_all start).
  assert (reading [] [] (normalize_ip peer0) s0) as Hr by (by exists client).
  destruct (ce_proxy_protocol_enabled env) eqn:Epp; cbn [obind].
  - match goal with |- context [read_proxy_header env ?p ?l s0] =>
      destruct (proxy_header_wp p l s0 (fun (flow : Flow (SocketAddr * SocketAddr)) s =>
         match flow with
         | Value x => untouched s /\ exists hdr, reading hdr [] x.2 s
         | Failed _ => fate (cs_conn s)
         | Elapsed => False
         | Waiting => up_ends client = false /\ reading [] [] (normalize_ip peer0) s
         end))
        as (flow & s1 & -> & Hq) end; [done|done|done|by split; [|eexists]|done|by split|].
    cbn [obind]. destruct flow as [[la peer]|e| |]; [|by eexists _, _; split; [|split; [apply dropped_fate|]]|done|].
    + destruct Hq as (Hu & hdr & Hr1). apply phase_settled. by eapply first_bytes_ok.
    + destruct Hq as (He & reader & Hcs & _). eexists _, _. split; [done|]. split; [by rewrite Hcs|]. right. by split_and!; [| |eexists].
  - apply phase_settled. by eapply first_bytes_ok.
Qed.

End Client.


(** ** A client with a secret gets through *)

Section Welcome.
Variable env : ClientEnv.
Local Notation config := (ce_config env).

(** A ClientHello with [n] bytes of session identifier, in one record. *)
Definition speaks_tls (hello : bytes) (n : Z) : Prop :=
  517 <= zlen hello /\ bytes_ok hello /\ ztake 3 hello = [0x16; 0x03; 0x01] /\ be_val (slice hello 3 5) = zlen hello - 5 /\
  zget hello 43 = Some n /\ 44 + n <= zlen hello.

(** No other user's secret happens to fit. *)
Definition only_for (hello header : bytes) (user : string) : Prop :=
  forall u x s, users (access config) !! u = Some x -> hex_decode x = Some s -> u <> user ->
    validate_tls_handshake hello [(u, s)] (ignore_time_skew (access config)) (tc_unix (ce_clock env)) = None /\
    not_for hex_decode header (handshake_config env) true (u, x).

Lemma sign_hello_head secret hello ts : 44 <= zlen hello -> ztake 11 (sign_hello secret hello ts) = ztake 11 hello.
Proof.
  intros Hl. destruct (splice_parts hello Hl) as (a & d & b & -> & Ha & Hd & Hb). unfold sign_hello.
  pose proof (zlen_digest secret (a ++ d ++ b) ts). rewrite splice_mid by lia. by rewrite !ztake_app by lia.
Qed.

(** The hello as it is read: five bytes, then as many as they announce. *)
Lemma hello_frame secret hello ts n :
  speaks_tls hello n ->
  exists first body, sign_hello secret hello ts = first ++ body /\ zlen first = 5 /\ is_tls_handshake (ztake 3 first) = true /\
    be_val (slice first 3 5) = zlen body /\ 512 <= zlen body.
Proof.
  intros (Hl & _ & Hver & Hlen & _). set (h := sign_hello secret hello ts).
  destruct (sign_hello_facts secret hello ts ltac:(lia)) as (Hlh & _). fold h in Hlh.
  assert (ztake 5 h = ztake 5 hello) as Hfive.
  { pose proof (sign_hello_head secret hello ts ltac:(lia)) as E. apply (f_equal (ztake 5)) in E. unfold ztake in *.
    by rewrite !take_take in E. }
  exists (ztake 5 h), (zdrop 5 h). rewrite ztake_zdrop, zlen_ztake, zlen_zdrop, Hfive by lia. split_and!; [done|lia| | |lia].
  - replace (ztake 3 (ztake 5 hello)) with (ztake 3 hello) by (unfold ztake; by rewrite take_take). by rewrite Hver.
  - transitivity (be_val (slice hello 3 5)); [|lia]. f_equal. rewrite <-(ztake_zdrop 5 hello) at 2.
    rewrite slice_app_l by (rewrite ?zlen_ztake; lia). done.
Qed.

Lemma read_live n b s r w Q :
  cs_budget s = S b -> cs_conn s = Open r w -> up_live r = true -> 0 <= n <= zlen (up_bytes r) ->
  (forall r', up_live r' = true -> up_bytes r' = zdrop n (up_bytes r) ->
     Q (Value (ztake n (up_bytes r))) (mkClientState (Open r' w) (cs_stats s) (cs_tls s) (cs_beobachten s) (cs_tracker s) b)) ->
  wp (read_bytes n) s Q.
Proof.
  intros Hb Hc Hl Hn HQ. unfold wp, read_bytes, await, until_timeout. rewrite Hb. cbn [cs_conn]. rewrite Hc.
  destruct (@read_exact_spec _ _ script_read_ok r n Hl Hn) as (r' & E & Hl' & Hb'). rewrite E.
  eexists _, _. split; [done|]. by apply HQ.
Qed.

Lemma others_of header user secret_hex hello :
  users (access config) !! user = Some secret_hex -> only_for hello header user ->
  exists others rest, cfg_users (handshake_config env) = others ++ (user, secret_hex) :: rest /\
    Forall (not_for hex_decode header (handshake_config env) true) others.
Proof.
  intros Hu Ho. cbn [cfg_users handshake_config].
  assert ((user, secret_hex) ∈ map_to_list (users (access config))) as Hin by by apply elem_of_map_to_list.
  apply list_elem_of_split in Hin as (others & rest & E). exists others, rest. split; [done|].
  pose proof (NoDup_fst_map_to_list (users (access config))) as Hnd. rewrite E, fmap_app in Hnd. cbn in Hnd.
  apply Forall_forall. intros [u x] Hux. destruct (decide (u = user)) as [->|Hne].
  - apply NoDup_app in Hnd as (_ & Hnd & _). destruct (Hnd user); [|by left].
    apply list_elem_of_fmap. by exists (user, x).
  - assert ((u, x) ∈ map_to_list (users (access config))) as Hin by (rewrite E; apply elem_of_app; by left).
    apply elem_of_map_to_list in Hin. destruct (hex_decode x) as [s|] eqn:Eh; [by apply (Ho u x s)|]. by unfold not_for; cbn; rewrite Eh.
Qed.
(** The steps after the first five bytes, for a client whose hello and header are in order. *)
Lemma genuine_hello_wp client writer peer hello user secret ts n s c1 Q :
  let h := sign_hello secret hello ts in
  speaks_tls hello n -> in_u32 ts -> time_ok (ignore_time_skew (access config)) (tc_unix (ce_clock env)) ts ->
  (user, secret) ∈ user_secrets hex_decode config ->
  (forall u s, (u, s) ∈ user_secrets hex_decode config -> u <> user ->
     validate_tls_handshake h [(u, s)] (ignore_time_skew (access config)) (tc_unix (ce_clock env)) = None) ->
  check_and_add_tls_digest default_hash instant_min (ts_replay (cs_tls s)) (ztake 16 (hello_digest secret hello ts))
    (tc_instant (ce_clock env)) = Some (false, c1) ->
  0 <= tls_new_session_tickets (censorship config) -> (forall cache, ts_cache (cs_tls s) = Some cache -> cache_ok cache) ->
  healthy writer -> (send_fuel writer <= ce_fuel env)%nat ->
  cs_conn s = Open client writer -> cs_budget s <> O ->
  (forall response w' s', cs_conn s' = OpenTls (FakeTlsReader_new client) (FakeTlsWriter_new w') -> w_sink w' = w_sink writer ++ response ->
     answer_for config (ts_cache (cs_tls s)) h peer (tc_cache_instant (ce_clock env)) secret (hello_digest secret hello ts)
       (slice hello 44 (44 + n)) response ->
     ts_replay (cs_tls s') = c1 -> cs_stats s' = cs_stats s -> cs_tracker s' = cs_tracker s -> cs_budget s' = pred (cs_budget s) ->
     Q (Value true) s') ->
  wp (answer_hello default_hash instant_min hex_decode env h peer) s Q.
Proof.
  intros h (Hl & Hok & Hver & Hlen & Hn & Hsid) Hts Htime Hin Hothers Hfresh Htk Hcache Hh Hf Hc Hb HQ.
  destruct (tls_handshake_accepts default_hash instant_min hex_decode (ce_fuel env) hello user secret ts n client writer peer config
    (ce_clock env) (cs_tls s) c1) as (response & w' & st' & E & Hs & Hr & Ha); [lia|done..|].
  unfold wp, answer_hello. rewrite Hc. fold h in E. rewrite E. cbn [obind with_conn with_tls cs_conn].
  destruct (cs_budget s) as [|b] eqn:Eb; [done|]. unfold await, mbind, M_bind. cbn. rewrite Eb. cbn.
  eexists _, _. split; [done|]. eapply HQ; [done|done|done|done|done|done|]. done.
Qed.

Lemma genuine_header_wp client w' local_addr peer user secret_hex secret nonce tag dc_idx rest h s c2 Q :
  let header := header_of (with_secret secret) nonce tag dc_idx in
  let filled := fill_in nonce tag dc_idx in
  zlen nonce = 64 -> bytes_ok nonce -> in_i16 dc_idx -> mode_ok (handshake_config env) true tag = true ->
  users (access config) !! user = Some secret_hex -> hex_decode secret_hex = Some secret -> only_for h header user ->
  check_and_add_internal default_hash instant_min (ts_replay (cs_tls s)) (key_material header) (ce_mtproto_instant env) = Some (false, c2) ->
  cs_conn s = OpenTls (FakeTlsReader_new client) (FakeTlsWriter_new w') -> up_live client = true ->
  tls_view (up_bytes client) = map Some header ++ rest -> cs_budget s <> O ->
  (forall success reader s', hs_user success = user -> hs_proto_tag success = tag -> hs_dc_idx success = dc_idx ->
     tls_state_view (tr_state reader) (up_bytes (tr_upstream reader)) = rest ->
     cs_conn s' = Session (TlsStreams
       (CryptoReader_new reader (snd (AesCtr_encrypt (from_sender (with_secret secret) filled) filled)))
       (CryptoWriter_new (FakeTlsWriter_new w') (to_sender (with_secret secret) filled) (crypto_pending_buffer (general config)))) ->
     cs_stats s' = cs_stats s -> cs_tracker s' = cs_tracker s -> Q (Value (NeedsRelay success local_addr peer)) s') ->
  wp (M_bind _ _ (fun mtproto_data =>
        if negb (zlen mtproto_data =? HANDSHAKE_LEN) then fail (PE_InvalidHandshake "Short MTProto handshake" [])
        else
          found ← read_header default_hash instant_min hex_decode env mtproto_data peer;
          match found with
          | Some success => mret (NeedsRelay success local_addr peer)
          | None => _ ← modify (with_stats increment_connects_bad); mret Handled
          end) (read_tls_bytes HANDSHAKE_LEN)) s Q.
Proof.
  intros header filled Hn Hok Hdc Hmode Hu Hhex Honly Hfresh Hc Hlive Hview Hb HQ.
  destruct (open_header_of (with_secret secret) nonce tag dc_idx Hn Hok Hdc) as (Hk & Ho & Hs). fold header filled in Hk, Ho, Hs.
  assert (zlen header = 64) as Hl by by apply zlen_header_of.
  destruct (tls_read_exact_spec (FakeTlsReader_new client) HANDSHAKE_LEN header rest) as (rd & Erd & Hrest); [done..|].
  destruct (others_of header user secret_hex h Hu Honly) as (others & more & Eusers & Hothers).
  unfold wp, M_bind, read_tls_bytes, await, until_timeout. destruct (cs_budget s) as [|b] eqn:Eb; [done|]. cbn [cs_conn]. rewrite Hc, Erd, Hl. cbn [negb Z.eqb HANDSHAKE_LEN Pos.eqb].
  unfold mbind, M_bind, read_header, authenticate. cbn [with_conn cs_conn cs_tls].
  rewrite (handle_eq default_hash instant_min hex_decode header rd (FakeTlsWriter_new w') peer (handshake_config env) _ _ true false c2 Hfresh).
  rewrite Eusers, try_users_skip, try_users_cons, Hhex, Ho, Hmode by done.
  eexists _, _. split; [done|]. eapply HQ; [done..| |done|done]. cbn. unfold to_sender. by rewrite Hs, Hk.
Qed.

(** C3: a client with a secret gets through.  A client sends a hello that it has signed with a user's secret at an
    acceptable time and then, in TLS records, the obfuscated header that it has made with that secret; both are new to the replay
    cache, the mode is enabled, and the user is within the limits.  Over any live connection, given four awaits before the timeout,
    it is answered with what it can verify, and handed over to the configured relay as that user, for the data centre it named,
    on streams whose ciphers stand exactly where the client's do, with the rest of its bytes still to be read. *)
Theorem tls_client_admitted (start : State) client writer peer local_addr hello user secret_hex secret ts n nonce tag dc_idx
    rest sent c1 c2 tracker :
  let h := sign_hello secret hello ts in
  let header := header_of (with_secret secret) nonce tag dc_idx in
  let filled := fill_in nonce tag dc_idx in
  speaks_tls hello n -> in_u32 ts -> time_ok (ignore_time_skew (access config)) (tc_unix (ce_clock env)) ts ->
  zlen nonce = 64 -> bytes_ok nonce -> in_i16 dc_idx -> mode_ok (handshake_config env) true tag = true ->
  users (access config) !! user = Some secret_hex -> hex_decode secret_hex = Some secret -> only_for h header user ->
  check_and_add_tls_digest default_hash instant_min (ts_replay (cs_tls start)) (ztake 16 (hello_digest secret hello ts))
    (tc_instant (ce_clock env)) = Some (false, c1) ->
  check_and_add_internal default_hash instant_min c1 (key_material header) (ce_mtproto_instant env) = Some (false, c2) ->
  check_user_limits_static user (access_limits env) (ce_admit_unix env) (increment_connects_all (cs_stats start))
    (sa_ip (normalize_ip peer)) (cs_tracker start) = (Ok tt, tracker) ->
  ce_proxy_protocol_enabled env = false -> ce_local_addr env = Ok local_addr ->
  0 <= tls_new_session_tickets (censorship config) -> (forall cache, ts_cache (cs_tls start) = Some cache -> cache_ok cache) ->
  cs_conn start = Open client writer -> up_live client = true -> up_bytes client = h ++ sent ->
  tls_view sent = map Some header ++ rest -> healthy writer -> (send_fuel writer <= ce_fuel env)%nat -> (4 <= cs_budget start)%nat ->
  exists success reader w' response s',
    run default_hash instant_min hex_decode env peer start = Done (Relay (choose_route env) success local_addr, s') /\
    hs_user success = user /\ hs_proto_tag success = tag /\ hs_dc_idx success = dc_idx /\ cs_tracker s' = tracker /\
    cs_conn s' = Session (TlsStreams
      (CryptoReader_new reader (snd (AesCtr_encrypt (from_sender (with_secret secret) filled) filled)))
      (CryptoWriter_new (FakeTlsWriter_new w') (to_sender (with_secret secret) filled) (crypto_pending_buffer (general config)))) /\
    tls_state_view (tr_state reader) (up_bytes (tr_upstream reader)) = rest /\ w_sink w' = w_sink writer ++ response /\
    answer_for config (ts_cache (cs_tls start)) h (normalize_ip peer) (tc_cache_instant (ce_clock env)) secret
      (hello_digest secret hello ts) (slice hello 44 (44 + n)) response.
Proof.
  intros h header filled Hhello Hts Htime Hn Hok Hdc Hmode Hu Hhex Honly Hfresh1 Hfresh2 Hlimits Hpp Hlocal Htk Hcache Hc Hlive Hb Hview Hh Hf Hbud.
  destruct (hello_frame secret hello ts n Hhello) as (first & body & Eh & Hl5 & Htls & Hlen & Hlb). fold h in Eh. pose proof (zlen_nonneg sent).
  rewrite Eh, <-app_assoc in Hb.
  cut (wp (do_handshake default_hash instant_min hex_decode env (normalize_ip peer)) (with_stats increment_connects_all start)
    (fun flow s' => exists success reader w' response, flow = Value (NeedsRelay success local_addr (normalize_ip peer)) /\ hs_user success = user /\
       hs_proto_tag success = tag /\ hs_dc_idx success = dc_idx /\
       cs_stats s' = increment_connects_all (cs_stats start) /\ cs_tracker s' = cs_tracker start /\
       cs_conn s' = Session (TlsStreams
         (CryptoReader_new reader (snd (AesCtr_encrypt (from_sender (with_secret secret) filled) filled)))
         (CryptoWriter_new (FakeTlsWriter_new w') (to_sender (with_secret secret) filled) (crypto_pending_buffer (general config)))) /\
       tls_state_view (tr_state reader) (up_bytes (tr_upstream reader)) = rest /\ w_sink w' = w_sink writer ++ response /\
       answer_for config (ts_cache (cs_tls start)) h (normalize_ip peer) (tc_cache_instant (ce_clock env)) secret
         (hello_digest secret hello ts) (slice hello 44 (44 + n)) response)).
  { intros (flow & s' & E & success & reader & w' & response & -> & <- & Htag & Hdci & Hst & Htr & Hconn & Hrest).
    unfold run. rewrite E. cbn [obind finish]. unfold handle_authenticated_static. rewrite Hst, Htr, Hlimits.
    by exists success, reader, w', response, (with_tracker tracker s'). }
  unfold do_handshake. rewrite Hlocal, Hpp. apply wp_bind. destruct (cs_budget start) as [|[|[|[|b]]]] eqn:Eb; [lia..|].
  eapply read_live; [done|done|done|rewrite Hb, zlen_app, Hl5, zlen_app; pose proof (zlen_nonneg body); lia|].
  rewrite Hb, ztake_app, zdrop_app by lia. intros r1 Hl1 Hb1. cbn [flow_rest with_stats cs_stats cs_tls cs_beobachten cs_tracker].
  rewrite Htls. unfold handle_tls_client. rewrite Hlen. destruct (Z.ltb_spec (zlen body) 512); [lia|].
  apply wp_bind. eapply read_live; [done|done|done|rewrite Hb1, zlen_app; lia|].
  rewrite Hb1, ztake_app, zdrop_app by lia. intros r2 Hl2 Hb2. cbn [flow_rest cs_stats cs_tls cs_beobachten cs_tracker]. rewrite <-Eh.
  apply wp_bind. eapply (genuine_hello_wp r2 writer (normalize_ip peer) hello user secret ts n _ c1);
    [done..| | |done|done|done|done|done|done|done|]; [by apply elem_of_secrets; exists secret_hex| |].
  { intros u s (x & Hux & Hxs)%elem_of_secrets Hne. by apply (Honly u x s). }
  intros response w' s3 Hc3 Hs3 Ha3 Hr3 Hst3 Htr3 Hbd3. cbn [flow_rest cs_stats cs_tracker cs_tls cs_budget pred] in *.
  eapply (genuine_header_wp r2 w' local_addr (normalize_ip peer) user secret_hex secret nonce tag dc_idx rest h _ c2);
    [done..|by rewrite Hr3|done|done|by rewrite Hb2|by rewrite Hbd3|].
  intros success reader s4 Hu4 Ht4 Hd4 Hv4 Hc4 Hst4 Htr4. exists success, reader, w', response.
  by rewrite Hst4, Htr4, Hst3, Htr3.
Qed.

End Welcome.
End Fate.

(** ** Runs *)

Import Crypto.Demo Random.DemoRng.

Definition demo_long_hello : bytes :=
  enc_client_hello (mkClientHello [3; 3] (repeat 9 32) (repeat 5 4) [0x13; 0x01; 0x13; 0x02] [0]
    [(43, [2; 3; 4]); (0, sni_data [97; 46; 98]); (21, repeat 0 480)]).
Definition demo_greeting : bytes := sign_hello [1; 2] demo_long_hello 1700000000.
Definition demo_inner : bytes := header_of (with_secret [1; 2]) demo_nonce Secure (-2).
Definition demo_connection (hello : bytes) : upstream_r :=
  [RdData (ztake 3 hello); RdPending; RdData (zdrop 3 hello ++ build_record demo_inner)].
Definition demo_env (unsuspecting : MaskConnect) : ClientEnv :=
  mkClientEnv demo_tls_config false (Ok demo_peer) ∅ false demo_clock 6 8 9 1700000101 unsuspecting [true; false; true; false] false 5.
Definition demo_tracker : UserIpTracker := UserIpTracker_new.
Definition demo_start (client : upstream_r) (budget : nat) : ClientState Z :=
  mkClientState (Open client demo_writer) Stats.Stats_new demo_tls_state BeobachtenStore_new demo_tracker budget.
Definition demo_serve (hello : bytes) (budget : nat) : option (RunEnd * ClientState Z) :=
  match run le_val (-1000) demo_unhex (demo_env demo_connect) demo_from (demo_start (demo_connection hello) budget) with
  | Done x => Some x
  | _ => None
  end.


(** What the client is told: the user of its relay, or the end, and how many bytes it has been sent. *)
Definition demo_summary (hello : bytes) (budget : nat) : option (option (Route * string) * option (result ProxyError unit) * Z) :=
  '(ended, s) ← demo_serve hello budget;
  Some (match ended with Relay route success _ => Some (route, hs_user success) | _ => None end,
        match ended with Finished r => Some r | _ => None end,
        match cs_conn s with
        | Session (TlsStreams _ wr) => zlen (w_sink (tw_upstream (cw_upstream wr)))
        | Dropped sent => zlen sent
        | MaskedTo (Relaying relay) => zlen (w_sink (mr_writer relay))
        | _ => -1
        end).

(** Signed, signed but cut by the timeout while it waits for the header, and not signed at all. *)
Example demo_served :
  demo_summary demo_greeting 4 = Some (Some (ViaDirect, "bob"%string), None, 513) /\
  demo_summary demo_greeting 3 = Some (None, Some (Err PE_TgHandshakeTimeout), 513) /\
  demo_summary demo_long_hello 4 = Some (None, Some (Ok tt), 12).
Proof. split_and!; vm_eq. Qed.

Definition demo_digest_checked : ReplayChecker :=
  match check_and_add_tls_digest le_val (-1000) (ReplayChecker_new 64 100) (ztake 16 (hello_digest [1; 2] demo_long_hello 1700000000)) 5 with
  | Some (_, c) => c
  | None => ReplayChecker_new 64 100
  end.
Definition demo_header_checked : ReplayChecker :=
  match check_and_add_internal le_val (-1000) demo_digest_checked (key_material demo_inner) 6 with
  | Some (_, c) => c
  | None => demo_digest_checked
  end.

Definition demo_filled : bytes := fill_in demo_nonce Secure (-2).

Lemma demo_users (u x : string) (s : bytes) :
  users (access demo_tls_config) !! u = Some x -> demo_unhex x = Some s -> u <> "bob"%string -> u = "ann"%string /\ x = "aa"%string /\ s = [170].
Proof.
  intros Hu Hx Hne. assert (users (access demo_tls_config) = {["zed"%string := "no hex"%string; "ann"%string := "aa"%string; "bob"%string := "bb"%string]}) as E by reflexivity.
  rewrite E in Hu. apply lookup_insert_Some in Hu as [[<- <-]|[_ Hu]]; [by vm_compute in Hx|].
  apply lookup_insert_Some in Hu as [[<- <-]|[_ Hu]]; [split_and!; [done..|by injection Hx]|].
  by apply lookup_singleton_Some in Hu as [<- _].
Qed.

Lemma tls_client_admitted_witness :
  exists success reader w' response s',
    run le_val (-1000) demo_unhex (demo_env demo_connect) demo_from (demo_start (demo_connection demo_greeting) 4) =
      Done (Relay ViaDirect success demo_peer, s') /\
    hs_user success = "bob"%string /\ hs_proto_tag success = Secure /\ hs_dc_idx success = -2 /\
    cs_tracker s' = snd (check_and_add demo_tracker "bob" (sa_ip demo_from)) /\
    cs_conn s' = Session (TlsStreams
      (CryptoReader_new reader (snd (AesCtr_encrypt (from_sender (with_secret [1; 2]) demo_filled) demo_filled)))
      (CryptoWriter_new (FakeTlsWriter_new w') (to_sender (with_secret [1; 2]) demo_filled) (crypto_pending_buffer (general demo_tls_config)))) /\
    tls_state_view (tr_state reader) (up_bytes (tr_upstream reader)) = [] /\ w_sink w' = w_sink demo_writer ++ response /\
    answer_for demo_tls_config (Some demo_cache) demo_greeting (normalize_ip demo_from) 7 [1; 2]
      (hello_digest [1; 2] demo_long_hello 1700000000) (slice demo_long_hello 44 (44 + 4)) response.
Proof.
  apply (tls_client_admitted le_val (-1000) demo_unhex (demo_env demo_connect) (demo_start (demo_connection demo_greeting) 4)
    (demo_connection demo_greeting) demo_writer demo_from demo_peer demo_long_hello "bob"%string "bb"%string [1; 2] 1700000000 4 demo_nonce
    Secure (-2) [] (build_record demo_inner) demo_digest_checked demo_header_checked).
  - apply (bool_decide_unpack _). vm_compute. exact I.
  - unfold in_u32. lia.
  - right. right. unfold TIME_SKEW_MIN, TIME_SKEW_MAX. cbn. lia.
  - reflexivity.
  - apply (bool_decide_unpack _). vm_compute. exact I.
  - unfold in_i16. lia.
  - vm_eq.
  - vm_eq.
  - vm_eq.
  - intros u x s Hu Hx Hne. destruct (demo_users u x s Hu Hx Hne) as (-> & -> & ->). split; [vm_eq|vm_compute; exact I].
  - vm_eq.
  - vm_eq.
  - vm_eq.
  - reflexivity.
  - reflexivity.
  - vm_compute. discriminate.
  - intros cache [= <-]. exact demo_cache_ok.
  - reflexivity.
  - vm_eq.
  - vm_eq.
  - vm_eq.
  - split; repeat constructor.
  - vm_compute. lia.
  - vm_compute. lia.
Defined.


(** ** What failures are filed under

    Behind a load balancer, which sends a PROXY header: a header that cannot be parsed counts as two tries of the balancer on
    a TCP connection, as one on another stream; a client that hangs up after its header is filed under the balancer's
    address on a TCP connection, and under its own on another stream. *)

Definition demo_balanced : ClientEnv :=
  let env := demo_env demo_connect in
  mkClientEnv (demo_tls_config {{ general -> beobachten := true }}) true (ce_local_addr env) ∅ false demo_clock 6 8 9 1700000101 demo_connect [] false 5.
Definition demo_classes (generic : bool) (bs : bytes) : option bytes :=
  let serve := if generic then handle_client_stream else run in
  match serve le_val (-1000) demo_unhex demo_balanced demo_from (demo_start [RdData bs] 9) with
  | Done (_, s) => Some (fst (snapshot_text (cs_beobachten s) 1000000000 10))
  | _ => None
  end.

Example demo_filed :
  demo_classes false (str "GET / HTTP/1.1") = Some (str "[other]" ++ [10] ++ str "10.0.0.1-2" ++ [10]) /\
  demo_classes true (str "GET / HTTP/1.1") = Some (str "[other]" ++ [10] ++ str "10.0.0.1-1" ++ [10]) /\
  demo_classes false (str "PROXY TCP4 1.2.3.4 5.6.7.8 9 443" ++ [13; 10]) = Some (str "[other]" ++ [10] ++ str "10.0.0.1-1" ++ [10]) /\
  demo_classes true (str "PROXY TCP4 1.2.3.4 5.6.7.8 9 443" ++ [13; 10]) = Some (str "[other]" ++ [10] ++ str "1.2.3.4-1" ++ [10]).
Proof. split_and!; vm_eq. Qed.

(** A client that is silent after half a PROXY header: on a TCP connection the timeout ends it, on another stream the header
    is read before the timeout starts, and nothing does. *)
Definition demo_silence (generic : bool) : option RunEnd :=
  let serve := if generic then handle_client_stream else run in
  match serve le_val (-1000) demo_unhex demo_balanced demo_from (demo_start [RdData (str "PROXY TC"); RdSilent] 9) with
  | Done (ended, _) => Some ended
  | _ => None
  end.

Example demo_silent_header :
  demo_silence false = Some (Finished (Err PE_TgHandshakeTimeout)) /\ demo_silence true = Some StillWaiting.
Proof. split; vm_eq. Qed.
